(* ===== verification/_CoqProject ===== *)
-Q . S2P
Prelude.v
Float.v
Json.v
Text.v
Reader.v
Bitcoin.v
Script.v
Transaction.v
Hex.v
Address.v
Framing.v
Bulk.v
SipHash.v
Target.v
Header.v
Utf8.v
Limits.v
Http.v
HttpReply.v
RpcUrl.v
Rpc.v
Api.v
Channel.v
Handshake.v
Messages.v
ShareMsg.v
Coinbaser.v
AbwMsg.v
AbwSlots.v
Polled.v
Config.v
Validation.v
Coinbase.v
Window.v
Rows.v
Ledger.v
GroupCommit.v
Split.v
Accounting.v
Blocks.v
Confirmations.v
Splits.v
Bounded.v
Jobs.v
Verify.v
Relay.v
Shares.v
Credits.v
Payout.v
StratumDifficulty.v
HashCount.v
Vardiff.v
NotifyId.v
Template.v
GatewayAbw.v
GatewayJob.v
GatewayPool.v
GatewayUser.v
GatewayShares.v
GatewayReplies.v
GatewaySession.v
Mining.v
Publish.v
SeenShares.v
Client.v
GatewayConfig.v
SettingsForm.v
FileReplace.v
Miner.v
Sessions.v
PoolLoop.v
NodeWatch.v
Admin.v
Control.v
