(* ===== verification/Prelude.v ===== *)
(** * A verification of ratum, a Bitcoin pool that does not hold its miners' blocks

    ratum is a Rust workspace of three programs over a shared library: a pool
    server ([prime/]), a gateway ([gateway/]) that builds blocks for the miners
    behind it, and a test miner. Gateway and pool speak the DATUM protocol: an
    encrypted channel over which the pool dictates how a block's value is split
    (the coinbaser), the gateway submits shares, and the pool rebuilds from each
    share the block header that was mined, credits the work, and answers. This
    development models the protocol library ([core/]); the pool: how it
    verifies a share, holds it, asks the node about its job, credits it and relays
    a block ([prime/src/verify*], [connection/], [relay.rs], [abw.rs]), and its
    books ([ledger*], [accounting.rs], [confirmations.rs]); the gateway: its
    jobs, the threads that publish them, the connections of its miners and its
    session with the pool ([gateway/src/]); the miner ([miner/]); and what the
    operator and the node are reached by: the HTTP server, the RPC client, the watch
    of the node, the ledger commands and their control socket, and the gateway's
    pages. The code is translated to executable functions, and the theorems say what
    makes them correct.

    ** How the parts interact

    The gateway reads a template from its node ([Template]), asks the pool for a
    split of its value ([GatewayPool.request_coinbaser], answered by
    [Payout.on_coinbaser_request]), builds a coinbase ([Coinbase.build]) from the
    outputs the pool dictates ([Coinbaser]) and a job of it ([GatewayJob.build_job]).
    The template thread and the session thread both do so, a step at a time over
    one table of jobs ([Publish]). A miner's connection serves the work of the table
    ([Client.serve_turn], [NotifyId], [Vardiff], [StratumDifficulty]), the miner
    searches it ([Miner]), and the connection answers what it submits
    ([Client.on_submit], [SeenShares]) and turns a solved header into a share ([GatewayShares.pow_submit], [ShareMsg]), on
    which each section of the job travels once ([GatewayShares.sections_for]). The
    share crosses the channel ([Channel] over
    [Framing], after [Handshake]); large messages cross in fragments ([Bulk]).
    The pool keeps the jobs a connection installed, with the tips of the node they
    build on ([Jobs]), and the splits it dictated ([Splits]). It rebuilds a share's
    coinbase, merkle root and header from them ([Verify.rebuild] over [ShareMsg],
    [Bitcoin], [Transaction], [Header]), reads its own marks out of the coinbase
    ([Coinbase.parse_script_sig]), compares the outputs with the split
    ([Splits.check_outputs]) and the proof of work with the target ([Target]), and
    refuses what is stale, resent or mined on a disclosed key ([Verify.verify],
    [AbwSlots]).

    A share that verified is claimed once over all connections
    ([Accounting.AcceptedShareHashes]). Its job's transactions are requested from
    the gateway the first time, and the shares on the job are held meanwhile, as
    are those whose parent the node has not reported ([Shares]); when they arrive
    they are checked against the job's merkle branches, and the node is asked about
    the block they form ([Relay]). Only then is the share credited
    ([Shares.credit]): it is recorded in a commit the connections share
    ([GroupCommit], [Ledger.record_batch]); the window of recent work ([Window]) is
    what the next split divides ([Split.split_of]). A share that is a block is
    submitted to the node and recorded with what it leaves owed
    ([Accounting.block_owed], [Blocks]), and passes read from the node whether it
    stays on the best chain ([Confirmations]).

    The pool learns of blocks from its node ([NodeWatch] over the client of [Rpc]),
    which sizes the window and wakes the connections. An operator settles what is
    owed by commands ([Admin]), sent to the running pool over a socket or run on its
    file ([Control]), and reaches the gateway over HTTP ([Http], [HttpReply]) with a
    password ([Api]); what may connect at once is limited ([Limits]).

    ** Files

    - [Prelude] (this file): machine integers as [Z] with wrapping and saturating
      operations, bytes, little- and big-endian encodings, [result], loops with a
      count, [as_chunks], [position], sums; no source of its own. [Float]: the
      doubles of the standard library's [SpecFloat] with the conversions of the
      source. [Json]: the values and texts of [serde_json], as classes. [Text]: what the
      source uses of the standard library's strings (splitting, trimming, decimal
      numbers), with the lines of a text.
    - [Reader] ([core/src/reader.rs]): the bounded cursor every decoder reads
      through, as a parser monad, with the lemmas by which a decoder reads back an
      encoder's bytes and the hint database [reader]. [Utf8]: what
      [String::from_utf8_lossy] of the standard library does.
    - [Bitcoin] ([core/src/bitcoin.rs]), [Script] ([.../script.rs]), [Transaction]
      ([.../transaction.rs]): compact sizes, merkle trees and branches, the script
      walker, transaction ids and the coinbase parser.
    - [Framing] ([core/src/datum/framing.rs], [core/src/nonce.rs]), [Channel]
      ([.../channel.rs]), [Handshake] ([.../handshake.rs], [keys.rs], [client.rs],
      [server.rs]), [Bulk] ([.../bulk.rs]): the session. [Polled] ([core/src/poll.rs],
      [framing.rs]): the socket it is read and written through, whose waits and reads
      what the operating system answers decides, and a frame taken off one.
    - [Hex] and [Address] ([core/src/bitcoin.rs], [bitcoin/address.rs],
      [core/src/username.rs]): hexadecimal text, the script an address pays and the
      identity of a user name.
    - [SipHash], [Target], [Header] ([core/src/siphash.rs], [target.rs],
      [header.rs]): short ids, targets and difficulty, the mined header.
    - [Messages] ([core/src/datum/messages.rs], [codes.rs]), [ShareMsg],
      [Coinbaser], [AbwMsg], [Config], [Validation] ([.../messages/*.rs]): one
      file per family of messages, encoder and decoder.
    - [Coinbase] ([core/src/datum/coinbase.rs]): both sides of the coinbase.
    - [Bounded] ([prime/src/bounded.rs]): the map and set that forget their oldest
      entry. [AbwSlots] ([abw.rs]): the slots of an anti-block-withholding session,
      with [session_step] for the order in which a connection drives them.
    - [Splits] ([verify.rs], [payout.rs]), [Jobs] ([verify/jobs.rs]), [Verify]
      ([verify.rs], [verify/rebuild.rs]): the verification of a share;
      [Jobs.Verifier] is the source's [Verifier], and [Verify.verifier_step] the
      calls that change one.
    - [Relay] ([relay.rs]); [Shares] ([connection/shares.rs], [txns.rs] and what
      they use of [connection.rs] and [connection/assignments.rs]): a handler takes
      the [Connection] and what it meets of the world ([Env]) and returns the
      connection with all that went out appended to its log, or fails; [handle] is
      what the connection's loop calls. [Credits]: the theorems about it, by a
      predicate transformer ([wp]) over the invariant [conn_ok]. [Sessions]
      ([sessions.rs]): the sessions kept between connections. [Payout]
      ([payout.rs]): the split dictated in answer to a request. [PoolLoop]
      ([connection.rs], [connection/assignments.rs]): the loop around the handlers, in a
      monad over the moments at which it looks at the clock, the node and the socket.
    - The gateway. [Template] ([gateway/src/template.rs]), [GatewayJob] ([job.rs],
      [job/builder.rs], [submit_block.rs]): templates, jobs, their headers and the
      table they are served from. [NotifyId] ([stratum/notify_id.rs]), [Vardiff]
      ([vardiff.rs]), [GatewayUser] ([username.rs]): what is said to a miner of a
      job, its difficulty, whom its shares are credited to. [StratumDifficulty]
      ([core/src/stratum_difficulty.rs], [target.rs]): a difficulty as it is announced,
      read back and held to. [SeenShares] ([seen_shares.rs]): the shares taken before.
      [Publish] ([publish.rs], [gateway.rs], [template/waker.rs], [template/poller.rs]):
      what the two threads make of templates and splits, as a step relation over
      their interleavings. [Client] ([stratum/connection.rs], [stratum.rs]): the
      connection of a miner, in a monad over the world it meets. [GatewayAbw]
      ([datum/abw.rs], [session/assignments.rs]), [GatewayPool] ([datum.rs],
      [tally.rs]), [GatewayShares] ([session/shares.rs]), [GatewayReplies]
      ([datum/validation_replies.rs]): the session with the pool,
      in which [GatewayAbw.Wire] and [GatewayShares.told] put both ends of the
      connection side by side. [GatewaySession] ([datum/session.rs], [datum.rs]): the
      turns of the session's thread and the thread that starts it again.
    - [Miner] ([miner/src/main.rs]): the search for a nonce and what the miner keeps
      of the lines it reads; with the two ends of its connection side by side.
    - [Mining]: no source of its own; a job of the gateway, a share on it and the
      pool's verdict, composed.
    - [Window] and [Ledger] ([prime/src/ledger.rs], [ledger/store.rs]), [Rows]
      ([ledger/store.rs], [ledger/blocks.rs], [ledger/db.rs]), [Split]
      ([ledger/split.rs]), [Accounting] ([accounting.rs]), [Blocks]
      ([ledger/blocks.rs]): the pool's books. [GroupCommit]
      ([ledger/group_commit.rs]): the callers of [record] as threads, with a step
      relation for their interleavings. [Confirmations] ([confirmations.rs]): the
      passes over the found blocks, with what other threads do in between.
    - Around them. [Limits] ([core/src/http.rs], [net.rs], [prime/src/server.rs],
      [gateway/src/stratum.rs]): the connections open at once, as step relations over
      the calls that take and give back. [Http] and [HttpReply] ([core/src/http.rs]): a
      request read, a reply written, queries and forms. [RpcUrl] and [Rpc]
      ([core/src/rpc.rs], [rpc/block.rs], [mining_info.rs]): the node's URL, a call and
      what is read of its results. [NodeWatch] ([prime/src/node.rs]): the turns of the
      watch. [Admin] ([prime/src/admin.rs]) and [Control] ([control.rs]): the ledger
      commands, on the file and through the pool. [Api] ([gateway/src/api.rs],
      [api/auth.rs]): who may do what over HTTP.
    - The gateway's configuration. [HashCount] ([gateway/src/difficulty.rs]): a
      difficulty as the file holds it, a count of hashes in text. [GatewayConfig]
      ([gateway/src/config.rs]): the sections, their defaults, the checks made of them
      and what the other files take of them. [SettingsForm] and [FileReplace]
      ([gateway/src/api/config_form.rs]): the fields of the settings page, the edit of
      the file's document they make, and the replacement of the file, over a model of
      what a file system keeps through a crash.

    Definitions keep the names of the source; a method whose name is taken has
    its type's name in front or behind ([encode_notice], [unpack_block]). A
    method that changes [self] takes the state and returns it; an [expect], an
    index or a subtraction that could panic returns [option], and the theorems
    show it never does.

    ** What the theorems show

    - The session: a handshake leaves both ends on one channel
      ([handshake_completes]), every message sent arrives in order
      ([channel_delivers]), nothing else is acted on
      ([decrypted_frames_are_authentic]); header masking is a bijection and nonces
      count; fragments reassemble and nothing is lost ([Bulk]).
    - Messages: for each message the decoder inverts the encoder, and for those
      with a canonical form nothing else decodes.
    - What is mined is what is checked: the pool reads from a built coinbase its
      outputs, tags and target byte ([built_coinbase_parses],
      [script_sig_reads_back]), the merkle branches give the root of the tree
      ([merkle_branches_root]), the rebuilt header is the mined one
      ([share_header_rebuilt]), and the masked hash keeps the bits the target is met
      with ([xor_mask_keeps_high_bits]).
    - End to end: a job the builder makes of the pool's split serves every submit
      and the block found on it ([built_job_serves]); each section reaches the pool
      with the share that needs it ([share_arrives_with_its_job]); the pool rebuilds
      the hash the gateway judged ([pool_rebuilds_the_hash]) and accepts the share
      ([mined_share_is_credited]).
    - The gateway: whatever its threads interleave, the work served is on one tip and
      of a template and the split the pool answered for it, and a serial is one job's at
      all times ([published_work_is_sound], [job_table_serves_one_tip]), and a new tip is served in the end
      ([new_tip_is_served]); its commitments are the pool's ([abw_in_step]); a miner
      is told its difficulty before it is held to it ([miner_is_told_its_difficulty],
      [connection_tells_the_miner]) in a text that reads back
      ([announced_difficulty_is_read_back]), and a silent one is lowered
      ([silent_miner_is_lowered]); a submit is answered by what it is worth
      ([submit_keeps_its_word]), a share once ([share_counts_once]); shares are
      credited as the name asks ([modifier_pays_its_ranges], [wire_username_is_read]);
      and every pool is tried ([every_pool_is_tried]). A request for a split is settled
      once, whatever its session meets ([requests_are_settled]), and what the gateway
      answers about a job is what the pool checks it by ([pool_takes_the_job_txns]).
    - The miner: its threads cover the nonces ([nonce_search_covers]), and what it
      finds of the work it is notified is what the gateway takes
      ([mined_work_is_accepted]).
    - Verification: an accepted share is work on the pool's split, under a live tip, with a key not
      disclosed ([accepted_share_is_work], [accepted_coinbase_pays_the_split],
      [stale_and_revealed_outrank]); the state of a connection stays within its
      limits ([connection_state_is_bounded]), changes only for fresh work
      ([sections_need_fresh_work]), and a generation names one job for good
      ([generation_names_one_job]).
    - The handling of shares: none is credited on a job the node has not validated,
      whatever order transactions, tips and timers come in
      ([credited_share_was_validated]); each, by the job, the target byte and the
      nonce its answer names, is answered once or held ([every_share_answered_or_held]), none past the request it waits for
      ([no_share_waits_past_its_request]); handlers end and do not panic
      ([handlers_return]). A gateway that reconnects finds its session again
      ([saved_session_resumes]). The loop of a connection discloses a key and moves to
      another only with every share it took answered ([answers_before_assigning]) and
      sleeps until something is due ([sleeps_until_due]); a frame crosses whole, however
      the system cuts it up ([frame_crosses_whole]). What is taken as a job's transactions forms the block to
      relay ([job_txns_form_the_block]).
    - Concurrency: shares recorded at once share commits in the order the calls took
      the lock, all of them and nothing else on disk in that order, and no call waits
      forever ([calls_share_commits], [every_call_returns]); blocks are read, reported and forgotten rightly with
      other threads at work ([every_due_block_is_read], [departures_reported_once],
      [readings_are_of_blocks]).
    - Secrets: a slot's key is disclosed only after its grace and used no more, and
      the timer of the slots is exact ([abw_keys_kept], [next_due_exact]).
    - Limits: the block stays within size, weight and sigops
      ([build_within_limits]); targets and difficulties are exact or err on the
      miner's side by a stated margin ([Target]).
    - The books: the window is at every moment what the rows on disk give
      ([window_is_exact], by induction on the steps of the ledger, a re-read
      running beside them), the split pays the whole of what is worth paying out,
      heaviest first and fairly ([split_is_fair]), a share counts once ([share_credited_once]), what is owed
      is covered ([owed_is_covered]), and the records of blocks survive restarts
      and settle once ([Blocks]).
    - The node: the watch announces every change of work and sizes the window to it
      ([node_watch_keeps_up]), and a call survives the node's restart
      ([refused_credential_is_reread]).
    - HTTP: a request is read as it was sent in whatever pieces it comes
      ([request_read_whole], [request_roundtrip]), a form as it was filled
      ([form_read_back]), and no text splits a reply ([reply_cannot_be_split]); the
      connections stay within their limits ([slots_within_limits],
      [pool_connections_bounded]).
    - The operator: nothing is done over HTTP without the password
      ([admin_actions_are_authorized]), of which few may be tried
      ([login_guesses_bounded]), and the node's is not shown
      ([redaction_hides_the_password]); commands settle and record only what the chain
      and the records bear out ([commands_keep_the_debts]), and do the same through the
      pool as on its file, the records in whatever order each holds them
      ([same_through_the_pool]).
    - The configuration: one that is taken serves every part that relies on it
      ([validated_config_is_sound]), a difficulty is read back from the text it is shown
      as ([shown_difficulty_is_read_back]); saving the settings writes what was sent and
      nothing else ([save_writes_what_was_sent]), a form sent back as it was shown writes
      nothing ([unchanged_form_writes_nothing]), pooled mining turned off and on again is
      as it was ([sharing_choice_is_undone]), and the file is never part of one text or
      another, whatever fails or crashes ([replacement_is_whole]).
    - Where the code falls short of its comments, a theorem says how
      ([decoded_split_exceeds_max_value], [short_payout_script_overruns],
      [share_reencode_refused], [failed_release_keeps_claims], [recorded_total_wraps],
      [recorded_identity_does_not_read_back], [chunk_over_its_length],
      [tip_and_template_of_two_blocks], [percent_decode_takes_a_sign],
      [removal_moves_the_last_key]).

    ** Conventions and bounds

    Integers are [Z] with the width written where it matters ([uint w z], [wrap],
    [sat_add]); release builds wrap, and the model wraps with them. Of floating
    point, what is modelled is the proportions of [GatewayUser], the difficulties of
    [StratumDifficulty], [HashCount] and the miner (doubles as in [Float]) and the rounding of an
    integer to a double in [Payout.f64_of_u64], and the budget of [PoolLoop]; elsewhere a [f64] in a row is its 64
    bits, and the window's size is given as the integer the code computes from one.
    Fuel: loops over a buffer take its length as fuel, each turn consuming a byte at least
    ([Script.script_ops_from], [Utf8.lossy_fuel], [ShareMsg.decode_sections]);
    [Window.trim_work] and [trim_count] take the number of shares, each turn
    dropping one; [Shares.expire_loop] takes the number of requests, since a
    request sent meanwhile is not due yet; the lemmas beside them show the fuel
    does not run out where the properties apply. The loops over attempts of
    [Relay] take the number of attempts. The reads and writes of [Polled] take fuel, and
    some is enough wherever the clock goes on ([read_next_frame_total]).

    Counters: the generations of jobs wrap at 64 bits, and the theorems that need
    them distinct assume fewer steps than would wrap them ([Credits.BUDGET] bounds
    those one handler may use; 2 ^ 39 handlers are far more than a connection
    lives for). Clocks and instants are integers, an instant in nanoseconds; a
    handler of [Shares] reads each clock once, where the code reads the instant
    again within one, and a connection of [Client] takes each reading from a stream.

    ** Parameters

    Third-party code is an argument: the digests SHA-256 and BLAKE2b
    ([Bitcoin.Digests], only their output length is used), the libsodium
    operations ([Channel.Crypto], with the laws of its documentation: what is
    boxed, sealed or signed opens or verifies under the matching key), the
    database ([Ledger.SharesTable], [Blocks.KvTable]: rows in key order, insertion
    and removal), the base58 and bech32 codecs ([Address.AddressCodec]) and the
    values JSON text is read to ([Json.Json]). The node's
    answers, the outcome of a commit, of a write to a socket and of a random draw
    are arguments of the definitions or choices of the step relations. Each class
    has a concrete instance, which the witnesses evaluate.

    ** Not modelled

    The listeners, and the threads the servers start; the stratum server's list of
    clients. The grammar of JSON (the values it is read to are modelled, its texts a
    parameter), and with it how [serde] fills a configuration from one. Logging,
    command lines, the pool's settings and the start-up of the programs; the statistics and
    the pages, which print what the other parts hold; and the copy of the ledger's
    file. *)
From stdpp Require Export base option list gmap strings.
From stdpp Require Export list_numbers.
From Stdlib Require Export ZArith Lia.
From Stdlib Require Strings.Byte.


Open Scope Z_scope.

(** ** Machine integers

    A [w]-bit unsigned integer is a [Z]; [uint w z] says it is in range, and
    the wrapping and saturating operations of the source are written out. *)

Definition uint (w z : Z) : Prop := 0 <= z < 2 ^ w.

#[global] Instance uint_dec w z : Decision (uint w z).
Proof. unfold uint. apply _. Defined.

Definition wrap (w z : Z) : Z := z mod 2 ^ w.
Definition sat_add (w a b : Z) : Z := Z.min (a + b) (2 ^ w - 1).
Definition sat_sub (a b : Z) : Z := Z.max 0 (a - b).
Definition sat_mul (w a b : Z) : Z := Z.min (a * b) (2 ^ w - 1).
Definition rotl (w z n : Z) : Z :=
  wrap w (Z.lor (Z.shiftl z n) (Z.shiftr z (w - n))).
Definition lnot (w z : Z) : Z := 2 ^ w - 1 - z.
(** Whether a bit of [mask] is set in [z]: [z & mask != 0]. *)
Definition has_bits (z mask : Z) : bool := negb (Z.land z mask =? 0).

Lemma uint_wrap w z : 0 <= w -> uint w (wrap w z).
Proof. intros. unfold uint, wrap. apply Z.mod_pos_bound. lia. Qed.

Lemma wrap_small w z : uint w z -> wrap w z = z.
Proof. unfold uint, wrap. intros. by apply Z.mod_small. Qed.

Lemma sat_sub_le a b : b <= a -> sat_sub a b = a - b.
Proof. unfold sat_sub. lia. Qed.

(** [x << k | y] with [y] below the shifted bits is a sum. *)
Lemma lor_shiftl_add x y k : 0 <= k -> 0 <= y < 2 ^ k -> Z.lor (Z.shiftl x k) y = x * 2 ^ k + y.
Proof.
  intros Hk Hy. rewrite <- Z.shiftl_mul_pow2 by done. symmetry. apply Z.add_nocarry_lor.
  apply Z.bits_inj'. intros n Hn. rewrite Z.land_spec, Z.bits_0, Z.shiftl_spec by done.
  destruct (Z.ltb_spec n k).
  - rewrite Z.testbit_neg_r by lia. done.
  - rewrite <- (Z.mod_small y (2 ^ k)) by done. rewrite Z.mod_pow2_bits_high by lia.
    apply andb_false_r.
Qed.

Lemma lor_shiftl_high x y k : 0 <= k -> 0 <= x < 2 ^ k -> Z.lor x (Z.shiftl y k) = x + y * 2 ^ k.
Proof. intros. rewrite Z.lor_comm, lor_shiftl_add by done. lia. Qed.

(** Masks and shifts as arithmetic. *)
Lemma land_mask z n : 0 <= n -> Z.land z (2 ^ n - 1) = z mod 2 ^ n.
Proof. intros. rewrite <- Z.land_ones by done. f_equal. rewrite Z.ones_equiv. lia. Qed.

Lemma has_bits_testbit z n : 0 <= n -> has_bits z (Z.shiftl 1 n) = Z.testbit z n.
Proof.
  intros Hn. unfold has_bits. rewrite Z.shiftl_1_l. destruct (Z.testbit z n) eqn:Hb.
  - apply negb_true_iff, Z.eqb_neq. intros Hz. apply (f_equal (fun x => Z.testbit x n)) in Hz.
    rewrite Z.land_spec, Hb, Z.pow2_bits_true, Z.bits_0 in Hz by done. done.
  - apply negb_false_iff, Z.eqb_eq. apply Z.bits_inj'. intros m Hm.
    rewrite Z.land_spec, Z.bits_0. destruct (decide (m = n)) as [->|Hne].
    + by rewrite Hb.
    + rewrite Z.pow2_bits_false by done. apply andb_false_r.
Qed.

Lemma testbit_arith z n : 0 <= n -> Z.b2z (Z.testbit z n) = (z / 2 ^ n) mod 2.
Proof. intros. by rewrite Z.testbit_spec'. Qed.

Lemma testbit_high w z n : uint w z -> 0 <= w <= n -> Z.testbit z n = false.
Proof.
  unfold uint. intros Hz Hn. rewrite <- (Z.mod_small z (2 ^ w)) by done.
  by apply Z.mod_pow2_bits_high.
Qed.

Lemma uint_lxor w x y : 0 <= w -> uint w x -> uint w y -> uint w (Z.lxor x y).
Proof.
  unfold uint. intros Hw Hx Hy. assert (0 <= Z.lxor x y) by (apply Z.lxor_nonneg; lia).
  split; [done|]. replace (Z.lxor x y) with (Z.lxor x y mod 2 ^ w); [apply Z.mod_pos_bound; lia|].
  apply Z.bits_inj'. intros n Hn. destruct (Z.ltb_spec n w).
  - by rewrite Z.mod_pow2_bits_low.
  - rewrite Z.mod_pow2_bits_high by lia. by rewrite Z.lxor_spec, (testbit_high w x), (testbit_high w y).
Qed.

(** ** Bytes

    A byte of a buffer is Rocq's [Byte.byte], so a buffer is well formed by
    its type; [bz] reads it as an integer and [zb] is Rust's [as u8]. *)

Abbreviation byte := Byte.byte.
Abbreviation bytes := (list Byte.byte).

#[global] Instance byte_eq_dec : EqDecision byte := Byte.byte_eq_dec.
#[global] Program Instance byte_countable : Countable byte := inj_countable Byte.to_N Byte.of_N _.
Next Obligation. intros b. apply Byte.of_to_N. Qed.

Definition bz (b : byte) : Z := Z.of_N (Byte.to_N b).
Definition zb (z : Z) : byte :=
  default Byte.x00 (Byte.of_N (Z.to_N (z mod 256))).

(** The bytes of a string literal. *)
Definition text (s : string) : bytes := String.list_byte_of_string s.

Lemma bz_range b : 0 <= bz b < 256.
Proof.
  unfold bz. pose proof (Byte.to_N_bounded b) as H. lia.
Qed.

Lemma bz_zb z : bz (zb z) = z mod 256.
Proof.
  unfold bz, zb. pose proof (Z.mod_pos_bound z 256 ltac:(lia)) as Hm.
  destruct (Byte.of_N (Z.to_N (z mod 256))) as [b|] eqn:E; cbn.
  - apply Byte.to_of_N in E. rewrite E. lia.
  - apply Byte.of_N_None_iff in E. lia.
Qed.

Lemma bz_zb_small z : 0 <= z < 256 -> bz (zb z) = z.
Proof. intros. rewrite bz_zb. by apply Z.mod_small. Qed.

Lemma zb_bz b : zb (bz b) = b.
Proof.
  unfold zb. rewrite Z.mod_small by apply bz_range.
  unfold bz. rewrite N2Z.id, Byte.of_to_N. done.
Qed.

Lemma bz_inj b c : bz b = bz c -> b = c.
Proof. intros H. rewrite <- (zb_bz b), <- (zb_bz c). by f_equal. Qed.

Lemma zb_mod z : zb (z mod 256) = zb z.
Proof. unfold zb. rewrite Z.mod_mod by lia. done. Qed.

Lemma zb_inj_mod x y : zb x = zb y -> x mod 256 = y mod 256.
Proof. intros H. by rewrite <- !bz_zb, H. Qed.

(** The length of a list as an integer: Rust's [usize] lengths. *)
Definition zlen {A} (l : list A) : Z := Z.of_nat (length l).

Lemma zlen_app {A} (l k : list A) : zlen (l ++ k) = zlen l + zlen k.
Proof. unfold zlen. rewrite length_app. lia. Qed.
Lemma zlen_cons {A} x (l : list A) : zlen (x :: l) = 1 + zlen l.
Proof. unfold zlen. cbn [length]. lia. Qed.
Lemma zlen_nil {A} : zlen (@nil A) = 0.
Proof. done. Qed.
Lemma zlen_nonneg {A} (l : list A) : 0 <= zlen l.
Proof. unfold zlen. lia. Qed.

(** ** Little- and big-endian encodings *)

Fixpoint le (n : nat) (z : Z) : bytes :=
  match n with
  | O => []
  | S n => zb z :: le n (z / 256)
  end.

Fixpoint le_val (l : bytes) : Z :=
  match l with
  | [] => 0
  | b :: l => bz b + 256 * le_val l
  end.

Definition be (n : nat) (z : Z) : bytes := reverse (le n z).
Definition be_val (l : bytes) : Z := le_val (reverse l).

Lemma length_le n z : length (le n z) = n.
Proof. revert z; induction n as [|n IH]; intros z; cbn; [done|]. by rewrite IH. Qed.

Lemma pow256_S n : 256 ^ Z.of_nat (S n) = 256 * 256 ^ Z.of_nat n.
Proof. rewrite Nat2Z.inj_succ, Z.pow_succ_r by lia. done. Qed.

Lemma le_val_le n z : le_val (le n z) = z mod 256 ^ Z.of_nat n.
Proof.
  revert z; induction n as [|n IH]; intros z; cbn [le le_val].
  - change (256 ^ Z.of_nat 0) with 1. by rewrite Z.mod_1_r.
  - rewrite IH, bz_zb, pow256_S. rewrite Z.rem_mul_r; [done|lia|].
    apply Z.pow_pos_nonneg; lia.
Qed.

Lemma le_val_range l : 0 <= le_val l < 256 ^ Z.of_nat (length l).
Proof.
  induction l as [|b l IH]; cbn [le_val length]; [done|].
  rewrite pow256_S. pose proof (bz_range b). lia.
Qed.

Lemma le_le_val l : le (length l) (le_val l) = l.
Proof.
  induction l as [|b l IH]; cbn [le_val length le]; [done|].
  pose proof (bz_range b). f_equal.
  - rewrite <- zb_mod. rewrite Z.mul_comm, Z_mod_plus_full.
    rewrite Z.mod_small by lia. apply zb_bz.
  - rewrite Z.mul_comm, Z_div_plus_full, Z.div_small by lia. done.
Qed.

Lemma le_val_le_small n z : 0 <= z < 256 ^ Z.of_nat n -> le_val (le n z) = z.
Proof. intros. rewrite le_val_le. by apply Z.mod_small. Qed.

Lemma le_val_app l k : le_val (l ++ k) = le_val l + 256 ^ Z.of_nat (length l) * le_val k.
Proof.
  induction l as [|b l IH]; cbn [app le_val length]; [by rewrite Z.mul_1_l|].
  rewrite IH, pow256_S. lia.
Qed.

Lemma le_inj n x y :
  0 <= x < 256 ^ Z.of_nat n -> 0 <= y < 256 ^ Z.of_nat n ->
  le n x = le n y -> x = y.
Proof.
  intros Hx Hy H. by rewrite <- (le_val_le_small n x Hx), H, le_val_le_small.
Qed.

Lemma le_val_inj l k :
  length l = length k -> le_val l = le_val k -> l = k.
Proof.
  intros Hlen H. rewrite <- (le_le_val l), <- (le_le_val k). congruence.
Qed.

Lemma length_be n z : length (be n z) = n.
Proof. unfold be. by rewrite length_reverse, length_le. Qed.

Lemma be_val_be n z : be_val (be n z) = z mod 256 ^ Z.of_nat n.
Proof. unfold be_val, be. rewrite reverse_involutive. apply le_val_le. Qed.

Lemma be_val_range l : 0 <= be_val l < 256 ^ Z.of_nat (length l).
Proof. unfold be_val. rewrite <- length_reverse. apply le_val_range. Qed.

(** Zero-filled buffers. *)
Definition zeros (n : nat) : bytes := replicate n (zb 0).

Lemma length_zeros n : length (zeros n) = n.
Proof. apply length_replicate. Qed.

(** ** Fallible code

    Rust's [Result]; [mbind] is the [?] operator and [err_from] the [From]
    conversion it applies to an error of another type. *)

Inductive result (E A : Type) : Type :=
| Ok (a : A)
| Err (e : E).
Arguments Ok {E A} a.
Arguments Err {E A} e.

#[global] Instance result_ret E : MRet (result E) := fun A a => Ok a.
#[global] Instance result_bind E : MBind (result E) :=
  fun A B k m => match m with Ok a => k a | Err e => Err e end.
#[global] Instance result_fmap E : FMap (result E) :=
  fun A B f m => match m with Ok a => Ok (f a) | Err e => Err e end.

#[global] Instance result_eq_dec E A `{EqDecision E, EqDecision A} :
  EqDecision (result E A).
Proof. solve_decision. Defined.

Definition ok_or {E A} (e : E) (o : option A) : result E A :=
  match o with Some a => Ok a | None => Err e end.
Definition ok {E A} (r : result E A) : option A :=
  match r with Ok a => Some a | Err _ => None end.
Definition map_err {E F A} (f : E -> F) (r : result E A) : result F A :=
  match r with Ok a => Ok a | Err e => Err (f e) end.
Definition is_ok {E A} (r : result E A) : bool :=
  match r with Ok _ => true | Err _ => false end.

Definition is_some {A} (o : option A) : bool := match o with Some _ => true | None => false end.

(** [if !b { return Err(e) }]. *)
Definition ensure {E} (b : bool) (e : E) : result E () := if b then Ok () else Err e.

Lemma ensure_ok {E} b (e : E) u : ensure b e = Ok u -> b = true.
Proof. by destruct b. Qed.

(** [n] runs of a fallible step, stopping at the first error: a Rust
    [for _ in 0..n] whose body uses [?]. The recursion is on the binary digits
    of the count, so a count read off the wire costs nothing until it is
    reached. *)
Fixpoint iter_pos {E St} (p : positive) (f : St -> result E St) (s : St) : result E St :=
  match p with
  | xH => f s
  | xO p => iter_pos p f s ≫= iter_pos p f
  | xI p => f s ≫= (fun s => iter_pos p f s ≫= iter_pos p f)
  end.

Definition for_n {E St} (n : Z) (f : St -> result E St) (s : St) : result E St :=
  match n with
  | Zpos p => iter_pos p f s
  | _ => Ok s
  end.

Fixpoint iter_nat {E St} (n : nat) (f : St -> result E St) (s : St) : result E St :=
  match n with
  | O => Ok s
  | S n => f s ≫= iter_nat n f
  end.

Lemma result_bind_assoc {E A B C} (m : result E A) (f : A -> result E B) (g : B -> result E C) :
  (m ≫= f) ≫= g = m ≫= (fun x => f x ≫= g).
Proof. by destruct m. Qed.

Lemma result_bind_ext {E A B} (m : result E A) (f g : A -> result E B) :
  (forall a, f a = g a) -> m ≫= f = m ≫= g.
Proof. intros H. destruct m; cbn; auto. Qed.

Lemma iter_nat_add {E St} n m (f : St -> result E St) s :
  iter_nat (n + m) f s = iter_nat n f s ≫= iter_nat m f.
Proof.
  revert s; induction n as [|n IH]; intros s; cbn [Nat.add iter_nat]; [done|].
  rewrite result_bind_assoc. by apply result_bind_ext.
Qed.

Lemma iter_pos_nat {E St} p (f : St -> result E St) s :
  iter_pos p f s = iter_nat (Pos.to_nat p) f s.
Proof.
  revert s; induction p as [p IH|p IH|]; intros s; cbn [iter_pos].
  - rewrite Pos2Nat.inj_xI. replace (S (2 * Pos.to_nat p))%nat
      with (S (Pos.to_nat p + Pos.to_nat p))%nat by lia. cbn [iter_nat].
    apply result_bind_ext. intros a. rewrite iter_nat_add, IH.
    by apply result_bind_ext.
  - rewrite Pos2Nat.inj_xO. replace (2 * Pos.to_nat p)%nat
      with (Pos.to_nat p + Pos.to_nat p)%nat by lia.
    rewrite iter_nat_add, IH. by apply result_bind_ext.
  - change (Pos.to_nat 1) with 1%nat. cbn. by destruct (f s).
Qed.

Lemma for_n_nat {E St} n (f : St -> result E St) s :
  for_n n f s = iter_nat (Z.to_nat n) f s.
Proof.
  destruct n as [|p|p]; cbn [for_n]; [done|apply iter_pos_nat|done].
Qed.

Lemma for_n_nonpos {E St} n (f : St -> result E St) s : n <= 0 -> for_n n f s = Ok s.
Proof. intros. rewrite for_n_nat. by replace (Z.to_nat n) with 0%nat by lia. Qed.

Lemma for_n_succ {E St} n (f : St -> result E St) s :
  0 <= n -> for_n (1 + n) f s = f s ≫= for_n n f.
Proof.
  intros. rewrite for_n_nat. replace (Z.to_nat (1 + n)) with (S (Z.to_nat n)) by lia.
  cbn [iter_nat]. apply result_bind_ext. intros. by rewrite for_n_nat.
Qed.

(** An invariant of the loop body holds of the loop's result. *)
Lemma for_n_ind {E St} (P : Z -> St -> Prop) n (f : St -> result E St) s s' :
  0 <= n ->
  P 0 s ->
  (forall i a b, 0 <= i < n -> P i a -> f a = Ok b -> P (i + 1) b) ->
  for_n n f s = Ok s' -> P n s'.
Proof.
  intros Hn H0 Hstep. rewrite for_n_nat.
  enough (forall k i a, i + Z.of_nat k = n -> 0 <= i -> P i a ->
          iter_nat k f a = Ok s' -> P n s') as Hk.
  { apply (Hk _ 0); [lia|lia|done]. }
  induction k as [|k IH]; intros i a Hi Hi0 Ha; cbn [iter_nat]; intros Hrun.
  - injection Hrun as <-. by replace n with i by lia.
  - destruct (f a) as [b|] eqn:Hf; cbn in Hrun; [|done].
    apply (IH (i + 1) b); [lia|lia| |done]. apply (Hstep i a); [lia|done..].
Qed.

(** ** Lists *)

Lemma take_length_app {A} n (l k : list A) : length l = n -> take n (l ++ k) = l.
Proof. intros <-. by rewrite take_app_length. Qed.
Lemma drop_length_app {A} n (l k : list A) : length l = n -> drop n (l ++ k) = k.
Proof. intros <-. by rewrite drop_app_length. Qed.

Lemma join_fmap_cons {A B} (f : A -> list B) x l :
  mjoin (f <$> x :: l) = f x ++ mjoin (f <$> l).
Proof. done. Qed.

Lemma join_fmap_one {A B} (f : A -> list B) x : mjoin (f <$> [x]) = f x.
Proof. rewrite join_fmap_cons. apply app_nil_r. Qed.

(** [as_chunks::<n>]: the whole chunks of [n] elements and what is left; every
    chunk takes at least one element, so the length is fuel enough. *)
Fixpoint as_chunks_fuel {A} (fuel n : nat) (l : list A) : list (list A) * list A :=
  match fuel with
  | O => ([], l)
  | S fuel =>
    if (n <=? length l)%nat then
      let '(chunks, tail) := as_chunks_fuel fuel n (drop n l) in (take n l :: chunks, tail)
    else ([], l)
  end.
Definition as_chunks {A} (n : nat) (l : list A) : list (list A) * list A :=
  as_chunks_fuel (length l) n l.

Lemma as_chunks_fuel_app {A} fuel n (c l : list A) :
  length c = n -> (0 < n)%nat ->
  as_chunks_fuel (S fuel) n (c ++ l) =
  let '(chunks, tail) := as_chunks_fuel fuel n l in (c :: chunks, tail).
Proof.
  intros Hc Hn. cbn [as_chunks_fuel]. rewrite length_app, Hc.
  rewrite (proj2 (Nat.leb_le _ _)) by lia. by rewrite take_length_app, drop_length_app.
Qed.

Lemma as_chunks_fuel_enough {A} n f g (l : list A) :
  (0 < n)%nat -> (length l <= f)%nat -> (length l <= g)%nat ->
  as_chunks_fuel f n l = as_chunks_fuel g n l.
Proof.
  intros Hn. revert g l. induction f as [|f IH]; intros [|g] l Hf Hg.
  - done.
  - destruct l; [|cbn in *; lia]. cbn [as_chunks_fuel length].
    by rewrite (proj2 (Nat.leb_gt _ _)) by lia.
  - destruct l; [|cbn in *; lia]. cbn [as_chunks_fuel length].
    by rewrite (proj2 (Nat.leb_gt _ _)) by lia.
  - cbn [as_chunks_fuel]. destruct (Nat.leb_spec n (length l)); [|done].
    by rewrite (IH g) by (rewrite length_drop; lia).
Qed.

Lemma as_chunks_app {A} n (c l : list A) :
  length c = n -> (0 < n)%nat ->
  as_chunks n (c ++ l) = let '(chunks, tail) := as_chunks n l in (c :: chunks, tail).
Proof.
  intros Hc Hn. unfold as_chunks. rewrite length_app.
  replace (length c + length l)%nat with (S (length c - 1 + length l)) by lia.
  rewrite as_chunks_fuel_app by done.
  by rewrite (as_chunks_fuel_enough n _ (length l)) by lia.
Qed.

(** The position of the first element satisfying a test: Rust's
    [iter().position(..)]. *)
Fixpoint position {A} (f : A -> bool) (l : list A) : option nat :=
  match l with
  | [] => None
  | x :: l => if f x then Some O else S <$> position f l
  end.

Lemma position_app_first {A} (f : A -> bool) l x k :
  Forall (fun y => f y = false) l -> f x = true ->
  position f (l ++ x :: k) = Some (length l).
Proof.
  induction 1 as [|y l Hy Hl IH]; intros Hx; cbn; [by rewrite Hx|].
  rewrite Hy. by rewrite (IH Hx).
Qed.

Lemma position_Some {A} (f : A -> bool) l n :
  position f l = Some n ->
  exists x, l !! n = Some x /\ f x = true /\ Forall (fun y => f y = false) (take n l).
Proof.
  revert n; induction l as [|y l IH]; intros n; cbn; [done|].
  destruct (f y) eqn:Hy.
  - injection 1 as <-. exists y. split_and!; [done..|constructor].
  - destruct (position f l) as [m|]; cbn; [|done]. injection 1 as <-.
    destruct (IH m eq_refl) as (x & Hx & Hfx & Hall). exists x.
    split_and!; [done..|]. cbn. by constructor.
Qed.

Lemma position_None {A} (f : A -> bool) l :
  position f l = None <-> Forall (fun y => f y = false) l.
Proof.
  induction l as [|y l IH]; cbn; [done|]. split.
  - destruct (f y) eqn:Hy; [done|]. destruct (position f l); cbn; [done|].
    intros _. constructor; [done|]. by apply IH.
  - inversion 1 as [|? ? Hy Hl]; subst. rewrite Hy. apply IH in Hl. by rewrite Hl.
Qed.

Definition sumZ (l : list Z) : Z := foldr Z.add 0 l.

Lemma sumZ_app l k : sumZ (l ++ k) = sumZ l + sumZ k.
Proof. induction l as [|x l IH]; cbn; [done|]. unfold sumZ in *. rewrite IH. lia. Qed.
Lemma sumZ_cons x l : sumZ (x :: l) = x + sumZ l.
Proof. done. Qed.
Lemma sumZ_nonneg l : Forall (fun x => 0 <= x) l -> 0 <= sumZ l.
Proof. induction 1; cbn; [done|]. unfold sumZ in *. lia. Qed.
Lemma sumZ_perm l k : l ≡ₚ k -> sumZ l = sumZ k.
Proof. induction 1; cbn; unfold sumZ in *; lia. Qed.

Lemma Forall_byte_ne l b : b ∉ l -> Forall (fun y : byte => bool_decide (y = b) = false) l.
Proof.
  intros H. apply Forall_forall. intros y Hy. apply bool_decide_eq_false_2.
  by intros ->.
Qed.

Lemma filter_all {A} (P : A -> Prop) `{!forall x, Decision (P x)} l : Forall P l -> filter P l = l.
Proof.
  induction 1 as [|x l Hx Hl IH]; [done|]. by rewrite filter_cons_True, IH.
Qed.

Lemma filter_none {A} (P : A -> Prop) `{!forall x, Decision (P x)} l : Forall (fun x => ~ P x) l -> filter P l = [].
Proof.
  induction 1 as [|x l Hx Hl IH]; [done|]. by rewrite filter_cons_False.
Qed.

Lemma Forall2_impl_in {A B} (P Q : A -> B -> Prop) l k :
  Forall2 P l k -> (forall x y, x ∈ l -> P x y -> Q x y) -> Forall2 Q l k.
Proof.
  induction 1 as [|x y l k Hxy Hl IH]; intros HQ; constructor.
  - apply HQ; [by left|done].
  - apply IH. intros. apply HQ; [by right|done].
Qed.

(** ** Tactics *)

(** Splits the conjunctions and eliminates the trivial equations of the
    context. *)
Ltac destr_and :=
  repeat match goal with
  | H : _ /\ _ |- _ => destruct H
  | H : exists _, _ |- _ => destruct H
  end; simplify_eq.

(** Splits on the outermost test of a goal or hypothesis that holds one. *)
Ltac case_test :=
  match goal with
  | |- context [if ?b then _ else _] =>
      lazymatch b with context [if _ then _ else _] => fail | _ => destruct b eqn:? end
  | H : context [if ?b then _ else _] |- _ =>
      lazymatch b with context [if _ then _ else _] => fail | _ => destruct b eqn:? end
  end.

(** Boolean comparisons of the context as propositions. *)
Ltac reflect_Z :=
  repeat match goal with
  | H : (_ && _)%bool = true |- _ => apply andb_true_iff in H; destruct H
  | H : (_ || _)%bool = false |- _ => apply orb_false_iff in H; destruct H
  | H : (_ || _)%bool = true |- _ => apply orb_true_iff in H
  | H : (_ && _)%bool = false |- _ => apply andb_false_iff in H
  | H : negb _ = true |- _ => apply negb_true_iff in H
  | H : negb _ = false |- _ => apply negb_false_iff in H
  | H : (_ <? _) = true |- _ => apply Z.ltb_lt in H
  | H : (_ <? _) = false |- _ => apply Z.ltb_ge in H
  | H : (_ <=? _) = true |- _ => apply Z.leb_le in H
  | H : (_ <=? _) = false |- _ => apply Z.leb_gt in H
  | H : (_ =? _) = true |- _ => apply Z.eqb_eq in H
  | H : (_ =? _) = false |- _ => apply Z.eqb_neq in H
  | H : bool_decide _ = true |- _ => apply bool_decide_eq_true_1 in H
  | H : bool_decide _ = false |- _ => apply bool_decide_eq_false_1 in H
  end.

(** Concatenations associated to the right, byte literals in front. *)
Ltac flat_app :=
  repeat first [rewrite <- app_assoc | rewrite <- app_comm_cons]; cbn [app].

(** The powers and comparisons of literals, evaluated. *)
Ltac eval_consts :=
  repeat match goal with
  | |- context [?a <? ?b] => let v := eval vm_compute in (a <? b) in
      lazymatch v with true => idtac | false => idtac end; change (a <? b) with v
  | |- context [?a ^ ?b] => let v := eval vm_compute in (a ^ b) in
      lazymatch v with Zpos _ => idtac | Z0 => idtac end; change (a ^ b) with v
  end; cbn iota.
