(* ===== verification/Float.v ===== *)
(** IEEE doubles: the operations the code has on [f64], over those of [SpecFloat], which
    are the correctly rounded ones. *)
From Stdlib Require Import SpecFloat.
From S2P Require Import Prelude.

Definition f64 : Type := spec_float.
Definition f64_prec : Z := 53.
Definition f64_emax : Z := 1024.
Definition f64_add (x y : f64) : f64 := SFadd f64_prec f64_emax x y.
Definition f64_mul (x y : f64) : f64 := SFmul f64_prec f64_emax x y.
Definition f64_div (x y : f64) : f64 := SFdiv f64_prec f64_emax x y.
Definition f64_lt (x y : f64) : bool := SFltb x y.
Definition f64_le (x y : f64) : bool := SFleb x y.
Definition f64_zero : f64 := S754_zero false.
Definition is_nan (x : f64) : bool := match x with S754_nan => true | _ => false end.
Definition is_finite (x : f64) : bool := match x with S754_zero _ | S754_finite _ _ _ => true | _ => false end.

(** The double nearest [m * 2 ^ e], ties to even. *)
Definition f64_scaled (m e : Z) : f64 := binary_normalize f64_prec f64_emax m e false.

(** [n as f64] of an integer. *)
Definition f64_of_Z (n : Z) : f64 := f64_scaled n 0.

(** The integer of a finite double, its fraction dropped. *)
Definition truncated (neg : bool) (m : positive) (e : Z) : Z :=
  let v := if 0 <=? e then Z.pos m * 2 ^ e else Z.pos m / 2 ^ (- e) in if neg then - v else v.

(** [x as u128]: saturating, zero for what is not a number. *)
Definition f64_to_u128 (x : f64) : Z :=
  match x with
  | S754_nan | S754_zero _ => 0
  | S754_infinity neg => if neg then 0 else 2 ^ 128 - 1
  | S754_finite neg m e => Z.max 0 (Z.min (truncated neg m e) (2 ^ 128 - 1))
  end.

(** [x.round()]: to the nearest integer, halves away from zero. *)
Definition f64_round (x : f64) : f64 :=
  match x with
  | S754_finite neg m e =>
    if 0 <=? e then x else
    let n := (Z.pos m + 2 ^ (- e - 1)) / 2 ^ (- e) in
    if n =? 0 then S754_zero neg else f64_of_Z (if neg then - n else n)
  | _ => x
  end.

(** [x.max(y)]: the other where one is not a number. *)
Definition f64_max (x y : f64) : f64 := if is_nan x || f64_lt x y then y else x.

(** [v as i64] of an integer. *)
Definition wrap_i64 (z : Z) : Z := (z + 2 ^ 63) mod 2 ^ 64 - 2 ^ 63.

(** The double nearest [v / d]: enough digits of the quotient, the last of them odd where
    it is not exact. *)
Definition f64_of_ratio (v d : Z) : f64 :=
  if v =? 0 then f64_zero else
  let shift := Z.max 0 (66 + Z.log2 d - Z.log2 v) in
  let q := v * 2 ^ shift / d in
  f64_scaled (2 * q + Z.b2z (negb (v * 2 ^ shift mod d =? 0))) (- shift - 1).

Definition f64_min (x y : f64) : f64 := if is_nan x || f64_lt y x then y else x.

(** [x.ceil()] of what is not negative. *)
Definition f64_ceil (x : f64) : f64 :=
  match x with
  | S754_finite false m e => if 0 <=? e then x else f64_of_Z ((Z.pos m + (2 ^ (- e) - 1)) / 2 ^ (- e))
  | _ => x
  end.

(** [x as u64]: saturating, zero for what is not a number. *)
Definition f64_to_u64 (x : f64) : Z := Z.min (f64_to_u128 x) (2 ^ 64 - 1).
