(* ===== verification/Json.v ===== *)
(** [serde_json]'s value: a class of its accessors, the laws the code relies on, and the
    texts it is read from and written as. *)
From S2P Require Import Prelude Float.

Definition json_key : Type := string.

(** [serde_json::Value]: [v[key]] is null where there is no such key, and every accessor
    gives none on a value of another kind. *)
Class Json := {
  value : Type;
  at_key : value -> json_key -> value;
  as_u64 : value -> option Z;
  as_i64 : value -> option Z;
  as_str : value -> option bytes;
  as_array : value -> option (list value);
}.

(** The integers it gives are in the range of their type. *)
Class JsonLaws `{!Json} := {
  as_u64_range v n : as_u64 v = Some n -> uint 64 n;
  as_i64_range v n : as_i64 v = Some n -> - 2 ^ 63 <= n < 2 ^ 63;
}.

(** The rest of [serde_json]'s value: [get] of a key and of an index, the text it is
    parsed from and the text it is written as. *)
Class JsonText `{!Json} := {
  from_text : bytes -> option value;
  get_key : value -> json_key -> option value;
  get_at : value -> nat -> option value;
  to_text : value -> bytes;
}.

(** What only some of the readers use. *)
Class JsonRest `{!Json} := {
  is_null : value -> bool;
  is_string : value -> bool;
  as_f64 : value -> option f64;
}.
