(* ===== verification/Text.v ===== *)
(** Text, as the standard library's [str] has it: a string is the list of its bytes, and
    what is searched for is ASCII, so that bytes are as good as characters. *)
From S2P Require Import Prelude.

(** ** Characters *)

Definition is_ascii_uppercase (b : byte) : bool := (0x41 <=? bz b) && (bz b <=? 0x5a).
Definition is_ascii_lowercase (b : byte) : bool := (0x61 <=? bz b) && (bz b <=? 0x7a).
Definition byte_to_ascii_lowercase (b : byte) : byte := if is_ascii_uppercase b then zb (bz b + 0x20) else b.
Definition to_ascii_lowercase (s : bytes) : bytes := byte_to_ascii_lowercase <$> s.
Definition eq_ignore_ascii_case (a b : bytes) : bool := bool_decide (to_ascii_lowercase a = to_ascii_lowercase b).
Definition is_ascii_digit (b : byte) : bool := (0x30 <=? bz b) && (bz b <=? 0x39).
Definition is_ascii_whitespace (b : byte) : bool := existsb (Z.eqb (bz b)) [0x20; 0x09; 0x0a; 0x0c; 0x0d].
Definition is_ascii_control (b : byte) : bool := (bz b <? 0x20) || (bz b =? 0x7f).

(** ** Searching and splitting *)

(** [split_once] and [rsplit_once] at a character. *)
Definition split_once (c : byte) (s : bytes) : option (bytes * bytes) :=
  i ← position (fun b => bool_decide (b = c)) s; Some (take i s, drop (S i) s).

Definition rsplit_once (c : byte) (s : bytes) : option (bytes * bytes) :=
  '(b, a) ← split_once c (reverse s); Some (reverse a, reverse b).

(** [split] at a character. *)
Fixpoint split_all (c : byte) (s : bytes) : list bytes :=
  match s with
  | [] => [[]]
  | b :: s =>
    let parts := split_all c s in
    if bool_decide (b = c) then [] :: parts
    else match parts with x :: l => (b :: x) :: l | [] => [[b]] end
  end.

Definition starts_with (pat s : bytes) : bool := bool_decide (take (length pat) s = pat).

(** [find], and the first of [windows] that is [pat]. *)
Fixpoint find_sub (pat s : bytes) : option nat :=
  if starts_with pat s then Some 0%nat else match s with [] => None | _ :: s => S <$> find_sub pat s end.

(** [split] at a string; every part but the last takes it off, so the length is fuel
    enough. *)
Fixpoint split_sub_fuel (fuel : nat) (pat s : bytes) : list bytes :=
  match fuel with
  | O => [s]
  | S fuel =>
    match find_sub pat s with
    | None => [s]
    | Some i => take i s :: split_sub_fuel fuel pat (drop (i + length pat) s)
    end
  end.
Definition split_sub (pat s : bytes) : list bytes := split_sub_fuel (length s) pat s.

(** [trim_start_matches] and [trim_matches] of a set of characters. *)
Fixpoint trim_start (p : byte -> bool) (s : bytes) : bytes :=
  match s with [] => [] | b :: r => if p b then trim_start p r else s end.
Definition trim_both (p : byte -> bool) (s : bytes) : bytes := reverse (trim_start p (reverse (trim_start p s))).

(** ** White space *)

(** The characters [str::trim] takes off, as they are encoded. *)
Definition white_space : list bytes :=
  ((fun z => [zb z]) <$> [0x09; 0x0a; 0x0b; 0x0c; 0x0d; 0x20]) ++
  [[zb 0xc2; zb 0x85]; [zb 0xc2; zb 0xa0]; [zb 0xe1; zb 0x9a; zb 0x80]] ++
  ((fun z => [zb 0xe2; zb 0x80; zb z]) <$> [0x80; 0x81; 0x82; 0x83; 0x84; 0x85; 0x86; 0x87; 0x88; 0x89; 0x8a; 0xa8; 0xa9; 0xaf]) ++
  [[zb 0xe2; zb 0x81; zb 0x9f]; [zb 0xe3; zb 0x80; zb 0x80]].

Fixpoint trim_of (set : list bytes) (fuel : nat) (s : bytes) : bytes :=
  match fuel with
  | O => s
  | S fuel =>
    match position (fun w => starts_with w s) set with
    | Some i => trim_of set fuel (drop (length (default [] (set !! i))) s)
    | None => s
    end
  end.

Definition str_trim (s : bytes) : bytes :=
  let s := trim_of white_space (length s) s in
  reverse (trim_of (reverse <$> white_space) (length s) (reverse s)).

(** ** Numbers *)

Definition DIGIT_0 : byte := zb 0x30.
Definition POINT : byte := zb 0x2e.

(** [to_string] of a [u128], whose digits are at most 39. *)
Fixpoint digits (fuel : nat) (z : Z) (later : bytes) : bytes :=
  match fuel with
  | O => later
  | S fuel =>
    let later := zb (0x30 + z mod 10) :: later in
    if z / 10 =? 0 then later else digits fuel (z / 10) later
  end.
Definition decimal (z : Z) : bytes := digits 39 z [].

(** [{:0width$}]. *)
Definition padded (width : nat) (s : bytes) : bytes := replicate (width - length s) DIGIT_0 ++ s.

Definition trim_end (c : byte) (s : bytes) : bytes :=
  take (length s - default (length s) (position (fun b => negb (bool_decide (b = c))) (reverse s))) s.

Fixpoint digits_value (acc : Z) (s : bytes) : option Z :=
  match s with
  | [] => Some acc
  | b :: s => if (0x30 <=? bz b) && (bz b <=? 0x39) then digits_value (acc * 10 + (bz b - 0x30)) s else None
  end.

(** [parse] to an unsigned integer of [w] bits: a plus sign may be first. *)
Definition parse_uint (w : Z) (s : bytes) : option Z :=
  let digits := match s with b :: r => if bz b =? 0x2b then r else s | [] => s end in
  if bool_decide (digits = []) then None else v ← digits_value 0 digits; if v <? 2 ^ w then Some v else None.

(** ** Lemmas *)

Lemma position_byte_app (c : byte) (a b : bytes) : c ∉ a ->
  position (fun x => bool_decide (x = c)) (a ++ c :: b) = Some (length a).
Proof.
  intros Hc. apply position_app_first; [|by apply bool_decide_eq_true_2].
  apply Forall_forall. intros x Hx. apply bool_decide_eq_false_2. by intros ->.
Qed.

Lemma position_byte_none (c : byte) (s : bytes) : c ∉ s -> position (fun x => bool_decide (x = c)) s = None.
Proof. intros Hc. apply position_None, Forall_forall. intros x Hx. apply bool_decide_eq_false_2. by intros ->. Qed.

Lemma split_once_app c a b : c ∉ a -> split_once c (a ++ c :: b) = Some (a, b).
Proof.
  intros Hc. unfold split_once. rewrite position_byte_app by done. cbn [mbind option_bind]. rewrite take_app_length.
  do 2 f_equal. change (c :: b) with ([c] ++ b). rewrite app_assoc. by rewrite drop_app_length' by (rewrite length_app; cbn; lia).
Qed.

Lemma split_once_none c s : c ∉ s -> split_once c s = None.
Proof. intros Hc. unfold split_once. by rewrite position_byte_none. Qed.

Lemma split_once_in c s : c ∈ s -> exists a b, split_once c s = Some (a, b).
Proof.
  intros Hin. unfold split_once. destruct (position _ s) as [i|] eqn:E; [by eexists _, _|].
  apply position_None in E. rewrite Forall_forall in E. specialize (E c Hin). by rewrite bool_decide_eq_true_2 in E.
Qed.

(** A part found is the text up to the first such character, and what follows it. *)
Lemma split_once_some c s a b : split_once c s = Some (a, b) -> s = a ++ c :: b /\ c ∉ a.
Proof.
  unfold split_once. destruct (position _ s) as [i|] eqn:E; [|done]. cbn. intros [= <- <-].
  apply position_Some in E as (x & Hx & Heq & Hf). apply bool_decide_eq_true in Heq as ->. split.
  - by rewrite (take_drop_middle s i c).
  - intros Hin. rewrite Forall_forall in Hf. specialize (Hf c Hin). by rewrite bool_decide_eq_true_2 in Hf.
Qed.

Lemma rsplit_once_app c a b : c ∉ b -> rsplit_once c (a ++ c :: b) = Some (a, b).
Proof.
  intros Hc. unfold rsplit_once. rewrite reverse_app, reverse_cons, <- app_assoc. cbn [app].
  rewrite split_once_app by (by rewrite elem_of_reverse). cbn. by rewrite !reverse_involutive.
Qed.

Lemma rsplit_once_some c s a b : rsplit_once c s = Some (a, b) -> s = a ++ c :: b /\ c ∉ b.
Proof.
  unfold rsplit_once. destruct (split_once c (reverse s)) as [[x y]|] eqn:E; [|done]. cbn. intros [= <- <-].
  apply split_once_some in E as [E Hn]. split; [|by rewrite elem_of_reverse].
  rewrite <- (reverse_involutive s), E, reverse_app, reverse_cons, <- app_assoc. done.
Qed.

Lemma rsplit_once_none c s : c ∉ s -> rsplit_once c s = None.
Proof. intros Hc. unfold rsplit_once. rewrite split_once_none; [done|]. by rewrite elem_of_reverse. Qed.

Lemma split_all_one c s : c ∉ s -> split_all c s = [s].
Proof.
  induction s as [|b s IH]; intros Hc; [done|]. apply not_elem_of_cons in Hc as [Hb Hc]. cbn. rewrite IH by done.
  by rewrite bool_decide_eq_false_2 by congruence.
Qed.

Lemma split_all_app c a b : c ∉ a -> split_all c (a ++ c :: b) = a :: split_all c b.
Proof.
  induction a as [|x a IH]; intros Hc; cbn; [by rewrite bool_decide_eq_true_2|].
  apply not_elem_of_cons in Hc as [Hx Hc]. rewrite IH by done. by rewrite bool_decide_eq_false_2 by congruence.
Qed.

Lemma find_sub_unfold pat s : find_sub pat s =
  if starts_with pat s then Some 0%nat else match s with [] => None | _ :: s => S <$> find_sub pat s end.
Proof. by destruct s. Qed.

Lemma starts_with_app pat s : starts_with pat (pat ++ s) = true.
Proof. unfold starts_with. by rewrite take_app_length, bool_decide_eq_true_2. Qed.

Lemma starts_with_true pat s : starts_with pat s = true -> exists k, s = pat ++ k.
Proof.
  unfold starts_with. intros H%bool_decide_eq_true. exists (drop (length pat) s). by rewrite <- H at 1; rewrite take_drop.
Qed.

(** What [find_sub] gives: the first place the text is at. *)
Lemma find_sub_some pat s i : find_sub pat s = Some i ->
  (exists k, drop i s = pat ++ k) /\ (i <= length s)%nat /\ forall j, (j < i)%nat -> starts_with pat (drop j s) = false.
Proof.
  revert i. induction s as [|b s IH]; intros i; rewrite find_sub_unfold; destruct (starts_with pat _) eqn:E.
  1,3: intros [= <-]; apply starts_with_true in E; split_and!; [done|lia|intros j Hj; lia].
  - done.
  - destruct (find_sub pat s) as [n|]; [|done]. cbn. intros [= <-]. destruct (IH n eq_refl) as (Hd & Hl & Hf).
    split_and!; [done|cbn; lia|]. intros [|j] Hj; [done|]. cbn. apply Hf. lia.
Qed.

Lemma find_sub_none pat s : find_sub pat s = None -> forall j, (j <= length s)%nat -> starts_with pat (drop j s) = false.
Proof.
  induction s as [|b s IH]; rewrite find_sub_unfold; destruct (starts_with pat _) eqn:E; try done; intros Hn j Hj.
  - destruct j; [done|cbn in Hj; lia].
  - destruct (find_sub pat s); [done|]. destruct j as [|j]; [done|]. cbn. apply IH; [done|]. cbn in Hj. lia.
Qed.

Lemma find_sub_exact pat s i : (i <= length s)%nat -> starts_with pat (drop i s) = true ->
  (forall j, (j < i)%nat -> starts_with pat (drop j s) = false) -> find_sub pat s = Some i.
Proof.
  revert i. induction s as [|b s IH]; intros i Hi Hat Hf; rewrite find_sub_unfold.
  - destruct i; [|cbn in Hi; lia]. cbn in Hat. by rewrite Hat.
  - destruct i as [|i]; [cbn in Hat; by rewrite Hat|].
    pose proof (Hf 0%nat ltac:(lia)) as H0. cbn in H0. rewrite H0.
    rewrite (IH i); [done|cbn in Hi; lia|done|]. intros j Hj. apply (Hf (S j)). lia.
Qed.

(** The bytes a text is searched in decide where it is found: more of them after the
    first place do not move it. *)
Lemma starts_with_longer pat s k : starts_with pat s = true -> starts_with pat (s ++ k) = true.
Proof. intros (r & ->)%starts_with_true. rewrite <- app_assoc. apply starts_with_app. Qed.

Lemma starts_with_shorter pat s k : (length pat <= length s)%nat -> starts_with pat (s ++ k) = starts_with pat s.
Proof. intros Hl. unfold starts_with. by rewrite take_app_le. Qed.

Lemma find_sub_longer pat s k i : find_sub pat s = Some i -> find_sub pat (s ++ k) = Some i.
Proof.
  intros H. destruct (find_sub_some _ _ _ H) as ((r & Hr) & Hi & Hf). apply find_sub_exact.
  - rewrite length_app. lia.
  - rewrite drop_app_le, Hr by done. rewrite <- app_assoc. apply starts_with_app.
  - intros j Hj. rewrite drop_app_le by lia. rewrite starts_with_shorter; [by apply Hf|].
    apply (f_equal length) in Hr. rewrite length_drop, length_app in Hr. rewrite length_drop. lia.
Qed.

Definition CR : byte := zb 0x0d.
Definition LF : byte := zb 0x0a.
Definition CRLF : bytes := [CR; LF].

(** A line without a line feed ends at the CRLF after it. *)
Lemma find_crlf (a b : bytes) : LF ∉ a -> find_sub CRLF (a ++ CRLF ++ b) = Some (length a).
Proof.
  intros Ha. apply find_sub_exact; [rewrite length_app; lia|rewrite drop_app_length; apply starts_with_app|].
  intros j Hj. unfold starts_with. apply bool_decide_eq_false_2. intros Heq.
  assert ((a ++ CRLF ++ b) !! S j = Some LF) as Hl.
  { apply (f_equal (lookup 1%nat)) in Heq. rewrite lookup_take_lt, lookup_drop in Heq by (cbn; lia).
    replace (S j) with (j + 1)%nat by lia. exact Heq. }
  destruct (decide (S j < length a)%nat) as [Hlt|Hge].
  - rewrite lookup_app_l in Hl by done. by apply Ha, (list_elem_of_lookup_2 _ _ _ Hl).
  - rewrite lookup_app_r in Hl by lia. replace (S j - length a)%nat with 0%nat in Hl by lia. by vm_compute in Hl.
Qed.

Lemma find_crlf_none (a : bytes) : LF ∉ a -> find_sub CRLF a = None.
Proof.
  intros Ha. destruct (find_sub CRLF a) as [i|] eqn:E; [|done]. destruct (find_sub_some _ _ _ E) as ((k & Hk) & _ & _).
  exfalso. apply Ha. rewrite <- (take_drop i a), Hk. apply elem_of_app. right. unfold CRLF. cbn. by right; left.
Qed.

Lemma split_sub_fuel_enough pat : (0 < length pat)%nat -> forall f g s, (length s <= f)%nat -> (length s <= g)%nat ->
  split_sub_fuel f pat s = split_sub_fuel g pat s.
Proof.
  intros Hp. induction f as [|f IH]; intros [|g] s Hf Hg; [done|..].
  - assert (s = []) as -> by (destruct s; [done|cbn in Hf; lia]). cbn. unfold find_sub, starts_with.
    rewrite bool_decide_eq_false_2; [done|]. rewrite take_nil. by destruct pat; [cbn in Hp; lia|].
  - assert (s = []) as -> by (destruct s; [done|cbn in Hg; lia]). cbn. unfold find_sub, starts_with.
    rewrite bool_decide_eq_false_2; [done|]. rewrite take_nil. by destruct pat; [cbn in Hp; lia|].
  - cbn [split_sub_fuel]. destruct (find_sub pat s) as [i|] eqn:E; [|done]. f_equal.
    destruct (find_sub_some _ _ _ E) as ((k & Hk) & Hi & _). apply (f_equal length) in Hk. rewrite length_app, length_drop in Hk.
    apply IH; rewrite length_drop; lia.
Qed.

Lemma split_sub_app (a b : bytes) : LF ∉ a -> split_sub CRLF (a ++ CRLF ++ b) = a :: split_sub CRLF b.
Proof.
  intros Ha. unfold split_sub. rewrite (split_sub_fuel_enough CRLF ltac:(cbn; lia) _ (S (length (a ++ CRLF ++ b)))) by lia.
  cbn [split_sub_fuel]. rewrite find_crlf, take_app_length by done. f_equal.
  replace (length a + length CRLF)%nat with (length (a ++ CRLF)) by by rewrite length_app.
  rewrite app_assoc, drop_app_length. apply split_sub_fuel_enough; [cbn; lia| |done]. rewrite !length_app. lia.
Qed.

Lemma split_sub_one (a : bytes) : LF ∉ a -> split_sub CRLF a = [a].
Proof.
  intros Ha. unfold split_sub. destruct (length a); [done|]. cbn [split_sub_fuel]. by rewrite find_crlf_none.
Qed.

(** ** Lines *)

(** The blank line that ends a head. *)
Definition HEAD_END : bytes := CRLF ++ CRLF.

(** Lines each but the last with the end of line after it. *)
Fixpoint join_lines (lines : list bytes) : bytes :=
  match lines with [] => [] | [l] => l | l :: lines => l ++ CRLF ++ join_lines lines end.

Definition line_ok (l : bytes) : Prop := (CR ∉ l) /\ (LF ∉ l) /\ l <> [].

(** The end of a line is not taken for the blank line. *)
Lemma no_head_end l k j : LF ∉ l -> (j < length l)%nat -> starts_with HEAD_END (drop j (l ++ CRLF ++ k)) = false.
Proof.
  intros Hl Hj. apply not_true_is_false. intros (r & Hr)%starts_with_true.
  destruct (find_sub_some _ _ _ (find_crlf l k Hl)) as (_ & _ & Hbefore).
  specialize (Hbefore j Hj). rewrite Hr in Hbefore. unfold HEAD_END in Hbefore. rewrite <- app_assoc in Hbefore. by rewrite starts_with_app in Hbefore.
Qed.

Lemma join_lines_head lines : Forall line_ok lines -> lines <> [] -> exists x u, join_lines lines = x :: u /\ x <> CR.
Proof.
  intros Hl Hne. destruct lines as [|l ls]; [done|]. apply Forall_cons in Hl as [(Hcr & _ & Hn) _].
  destruct l as [|x l]; [done|]. apply not_elem_of_cons in Hcr as [Hx _].
  destruct ls; cbn [join_lines app]; by eexists x, _.
Qed.

(** The end of the head comes after the last line, and the lines are read back. *)
Lemma find_head_end lines rest : Forall line_ok lines -> lines <> [] ->
  find_sub HEAD_END (join_lines lines ++ HEAD_END ++ rest) = Some (length (join_lines lines)).
Proof.
  induction 1 as [|l ls (_ & Hl & Hne) Hls IH]; [done|]. intros _. destruct ls as [|l2 ls].
  - cbn [join_lines]. apply find_sub_exact; [rewrite length_app; lia|rewrite drop_app_length; apply starts_with_app|].
    intros j Hj. unfold HEAD_END at 2. rewrite <- app_assoc. by apply no_head_end.
  - specialize (IH ltac:(done)). destruct (join_lines_head _ Hls ltac:(done)) as (x & u & Eu & Hx).
    set (tail := join_lines (l2 :: ls)) in *.
    change (join_lines (l :: l2 :: ls)) with (l ++ CRLF ++ tail). rewrite <- !app_assoc.
    assert (forall x, drop (length l + 2 + x) (l ++ CRLF ++ tail ++ HEAD_END ++ rest) = drop x (tail ++ HEAD_END ++ rest)) as Hd.
    { intros n. rewrite <- drop_drop. f_equal. rewrite app_assoc. apply drop_app_length'. by rewrite length_app. }
    destruct (find_sub_some _ _ _ IH) as ((k & Hk) & Hi & Hbefore). rewrite !length_app.
    replace (length l + (length CRLF + length tail))%nat with (length l + 2 + length tail)%nat by (cbn; lia).
    apply find_sub_exact; [rewrite !length_app; cbn; lia|rewrite Hd, Hk; apply starts_with_app|].
    intros j Hj. destruct (decide (j < length l)%nat) as [|Hge]; [by apply no_head_end|].
    destruct (decide (length l + 2 <= j)%nat) as [Hle|Hgt].
    { replace j with (length l + 2 + (j - (length l + 2)))%nat by lia. rewrite Hd. apply Hbefore. lia. }
    rewrite Eu. cbn [app]. assert ((j = length l) \/ (j = S (length l))) as [->| ->] by lia.
    + rewrite drop_app_length. apply not_true_is_false. intros (r & Hr)%starts_with_true. unfold HEAD_END, CRLF in Hr. cbn [app] in Hr.
      by injection Hr.
    + replace (S (length l)) with (length l + 1)%nat by lia. rewrite <- drop_drop, drop_app_length.
      apply not_true_is_false. intros (r & Hr)%starts_with_true. by vm_compute in Hr.
Qed.

Lemma split_lines lines : Forall line_ok lines -> lines <> [] -> split_sub CRLF (join_lines lines) = lines.
Proof.
  induction 1 as [|l ls (_ & Hl & _) Hls IH]; [done|]. intros _. destruct ls as [|l2 ls].
  - cbn [join_lines]. by apply split_sub_one.
  - change (join_lines (l :: l2 :: ls)) with (l ++ CRLF ++ join_lines (l2 :: ls)). rewrite split_sub_app by done. by rewrite IH.
Qed.

(** ** Decimals *)

Lemma digits_value_app a b acc : digits_value acc (a ++ b) = (v ← digits_value acc a; digits_value v b).
Proof. revert acc. induction a as [|x a IH]; intros acc; [done|]. cbn. destruct (_ && _); [apply IH|done]. Qed.

Lemma digit_of z : 0 <= z -> is_ascii_digit (zb (0x30 + z mod 10)) = true /\
  forall acc, digits_value acc [zb (0x30 + z mod 10)] = Some (acc * 10 + z mod 10).
Proof.
  intros Hz. pose proof (Z.mod_pos_bound z 10 ltac:(lia)) as Hm.
  assert (bz (zb (0x30 + z mod 10)) = 0x30 + z mod 10) as Hb by (apply bz_zb_small; lia).
  assert (is_ascii_digit (zb (0x30 + z mod 10)) = true) as Hd by (unfold is_ascii_digit; rewrite Hb; lia). split; [done|].
  intros acc. cbn [digits_value]. fold (is_ascii_digit (zb (0x30 + z mod 10))). rewrite Hd, Hb. f_equal. lia.
Qed.

(** The digits of a number are read back as it. *)
Lemma digits_read fuel : forall z later, 0 <= z < 10 ^ Z.of_nat fuel -> (0 < fuel)%nat -> exists pre,
  digits fuel z later = pre ++ later /\ pre <> [] /\ Forall (fun b => is_ascii_digit b = true) pre /\
  digits_value 0 pre = Some z.
Proof.
  induction fuel as [|fuel IH]; intros z later Hz Hf; [lia|]. cbn [digits].
  pose proof (Z.div_mod z 10 ltac:(lia)) as Hd. destruct (digit_of z ltac:(lia)) as [Hdig Hval].
  destruct (Z.eqb_spec (z / 10) 0) as [H0|H0].
  - exists [zb (0x30 + z mod 10)]. split_and!; [done|done|by constructor|]. rewrite Hval. f_equal. lia.
  - destruct fuel as [|fuel]; [change (10 ^ Z.of_nat 1) with 10 in Hz; rewrite Z.div_small in H0 by lia; done|].
    destruct (IH (z / 10) (zb (0x30 + z mod 10) :: later)) as (pre & -> & Hne & Hall & Hv); [|lia|].
    { split; [apply Z.div_pos; lia|]. apply Z.div_lt_upper_bound; [lia|]. rewrite (Nat2Z.inj_succ (S fuel)), Z.pow_succ_r in Hz by lia. lia. }
    exists (pre ++ [zb (0x30 + z mod 10)]). rewrite <- app_assoc. split_and!; [done|by destruct pre|apply Forall_app; by repeat constructor|].
    rewrite digits_value_app, Hv. cbn [mbind option_bind]. rewrite Hval. f_equal. lia.
Qed.

Lemma decimal_read z : 0 <= z < 10 ^ 39 ->
  decimal z <> [] /\ Forall (fun b => is_ascii_digit b = true) (decimal z) /\ digits_value 0 (decimal z) = Some z.
Proof.
  intros Hz. unfold decimal. destruct (digits_read 39 z [] Hz ltac:(lia)) as (pre & -> & Hne & Hall & Hv). by rewrite app_nil_r.
Qed.

Lemma decimal_digits z : Forall (fun b => is_ascii_digit b = true) (decimal z).
Proof.
  assert (forall fuel y later, Forall (fun b => is_ascii_digit b = true) later ->
    Forall (fun b => is_ascii_digit b = true) (digits fuel y later)) as Hd; [|by apply Hd].
  induction fuel as [|fuel IH]; intros y later Hl; [done|]. cbn [digits].
  assert (is_ascii_digit (zb (0x30 + y mod 10)) = true) as Hb.
  { pose proof (Z.mod_pos_bound y 10 ltac:(lia)). unfold is_ascii_digit. rewrite bz_zb_small by lia. lia. }
  case_match; [by constructor|]. apply IH. by constructor.
Qed.

(** A character that is not a digit is not in a number. *)
Lemma not_in_decimal z b : 0 <= z < 10 ^ 39 -> is_ascii_digit b = false -> b ∉ decimal z.
Proof.
  intros (_ & Hall & _)%decimal_read Hb Hin. rewrite Forall_forall in Hall. by rewrite (Hall b Hin) in Hb.
Qed.
