(* ===== verification/Reader.v ===== *)
(** The cursor over a byte slice ([core/src/reader.rs]) and the parser monad the
    decoders of the wire formats are written in: a parser takes the cursor and
    returns a value and the advanced cursor, or the error of the field the input
    ran out in. Writing is concatenation: [put_u32_le x] of the source appends
    [le 4 x].

    The last part is the automation of the codec proofs: [parse] runs a decoder
    over encoded fields, [pinv] inverts a successful decode. *)
From S2P Require Import Prelude.

(** [Truncated] names the field. *)
Inductive Truncated := TruncatedAt (what : string).

#[global] Instance truncated_eq_dec : EqDecision Truncated.
Proof. solve_decision. Defined.

(** Rust's [From<Truncated>] of an error type, which [?] applies. *)
Class FromTruncated (E : Type) := from_truncated : Truncated -> E.
#[global] Instance from_truncated_id : FromTruncated Truncated := fun t => t.

Record ByteReader := Rd { full : bytes; rest : bytes }.

Definition new_reader (data : bytes) : ByteReader := Rd data data.
Definition pos (r : ByteReader) : Z := zlen (full r) - zlen (rest r).
Definition at_end (r : ByteReader) : bool := bool_decide (rest r = []).
Definition peek2 (r : ByteReader) : option (Z * Z) :=
  match rest r with
  | a :: b :: _ => Some (bz a, bz b)
  | _ => None
  end.

Definition parser (E A : Type) := ByteReader -> result E (A * ByteReader).

#[global] Instance parser_ret E : MRet (parser E) := fun A a r => Ok (a, r).
#[global] Instance parser_bind E : MBind (parser E) := fun A B k p r =>
  match p r with
  | Ok (a, r) => k a r
  | Err e => Err e
  end.

(** The value and the cursor itself, where a decoder looks at it. *)
Definition get_reader {E} : parser E ByteReader := fun r => Ok (r, r).
Definition fail {E A} (e : E) : parser E A := fun _ => Err e.
Definition lift {E A} (x : result E A) : parser E A := fun r =>
  match x with Ok a => Ok (a, r) | Err e => Err e end.
Definition require {E} (b : bool) (e : E) : parser E () := lift (ensure b e).
(** The value a parser reads from [data], the cursor dropped. *)
Definition parse_all {E A} (p : parser E A) (data : bytes) : result E A :=
  fst <$> p (new_reader data).

(** [n] runs of a parser collecting what each returns, oldest first. *)
Definition parse_n {E A} (n : Z) (p : parser E A) : parser E (list A) := fun r =>
  for_n n (fun '(acc, r) =>
    match p r with Ok (a, r) => Ok (acc ++ [a], r) | Err e => Err e end) ([], r).

(** [n] runs of a parser threading a state. *)
Definition loop_n {E St} (n : Z) (p : St -> parser E St) (s : St) : parser E St := fun r =>
  for_n n (fun '(s, r) => p s r) (s, r).

Section primitives.
Context {E : Type} `{FromTruncated E}.

Definition take_bytes (n : Z) (what : string) : parser E bytes := fun r =>
  if zlen (rest r) <? n then Err (from_truncated (TruncatedAt what))
  else Ok (take (Z.to_nat n) (rest r), Rd (full r) (drop (Z.to_nat n) (rest r))).

Definition advance (n : Z) (what : string) : parser E () :=
  _ ← take_bytes n what; mret ().

Definition arr (n : nat) (what : string) : parser E bytes :=
  take_bytes (Z.of_nat n) what.

(** The little-endian integer of [n] bytes. *)
Definition uint_le (n : nat) (what : string) : parser E Z :=
  b ← arr n what; mret (le_val b).

Definition u8 := uint_le 1.
Definition u16 := uint_le 2.
Definition u32 := uint_le 4.
Definition u64 := uint_le 8.
End primitives.

(** ** Running a decoder over encoded fields *)

Section running.
Context {E : Type} `{FromTruncated E}.
Implicit Types (f tl l : bytes) (r : ByteReader).

Lemma bind_ok {A B} (p : parser E A) (k : A -> parser E B) r a r' :
  p r = Ok (a, r') -> (p ≫= k) r = k a r'.
Proof. intros Hp. unfold mbind, parser_bind. by rewrite Hp. Qed.

Lemma take_ok w n f l tl :
  zlen l = n -> take_bytes n w (Rd f (l ++ tl)) = Ok (l, Rd f tl) :> result E _.
Proof.
  unfold take_bytes, zlen. cbn [full rest].
  intros <-. rewrite length_app.
  destruct (Z.ltb_spec (Z.of_nat (length l + length tl)) (Z.of_nat (length l))); [lia|].
  by rewrite Nat2Z.id, take_app_length, drop_app_length.
Qed.

Lemma take_all_ok w n f l :
  zlen l = n -> take_bytes n w (Rd f l) = Ok (l, Rd f []) :> result E _.
Proof. intros. rewrite <- (app_nil_r l) at 1. by apply take_ok. Qed.

Lemma advance_ok n w f l tl :
  zlen l = n -> advance n w (Rd f (l ++ tl)) = Ok ((), Rd f tl) :> result E _.
Proof. intros. unfold advance. by erewrite bind_ok by (by apply take_ok). Qed.

Lemma arr_ok n w f l tl :
  length l = n -> arr n w (Rd f (l ++ tl)) = Ok (l, Rd f tl) :> result E _.
Proof. intros <-. by apply take_ok. Qed.

Lemma uint_le_ok n w z f tl :
  0 <= z < 256 ^ Z.of_nat n ->
  uint_le n w (Rd f (le n z ++ tl)) = Ok (z, Rd f tl) :> result E _.
Proof.
  intros. unfold uint_le. erewrite bind_ok by (apply arr_ok, length_le).
  unfold mret, parser_ret. by rewrite le_val_le_small.
Qed.

Lemma u8_ok w z f tl : uint 8 z -> u8 w (Rd f (zb z :: tl)) = Ok (z, Rd f tl) :> result E _.
Proof. apply (uint_le_ok 1). Qed.
Lemma u8_byte_ok w b f tl : u8 w (Rd f (b :: tl)) = Ok (bz b, Rd f tl) :> result E _.
Proof.
  rewrite <- (zb_bz b) at 1. apply u8_ok. pose proof (bz_range b). unfold uint. lia.
Qed.
Lemma u16_ok w z f tl : uint 16 z -> u16 w (Rd f (le 2 z ++ tl)) = Ok (z, Rd f tl) :> result E _.
Proof. apply (uint_le_ok 2). Qed.
Lemma u32_ok w z f tl : uint 32 z -> u32 w (Rd f (le 4 z ++ tl)) = Ok (z, Rd f tl) :> result E _.
Proof. apply (uint_le_ok 4). Qed.
Lemma u64_ok w z f tl : uint 64 z -> u64 w (Rd f (le 8 z ++ tl)) = Ok (z, Rd f tl) :> result E _.
Proof. apply (uint_le_ok 8). Qed.

Lemma get_reader_ok r : get_reader r = Ok (r, r) :> result E _.
Proof. done. Qed.
Lemma require_ok b (e : E) r : b = true -> require b e r = Ok ((), r).
Proof. by intros ->. Qed.
Lemma ret_ok {A} (a : A) r : (mret a : parser E A) r = Ok (a, r).
Proof. done. Qed.

(** A parser of one item that reads back its encoding reads back a list. *)
Lemma parse_n_ok {A} (p : parser E A) (enc : A -> bytes) (l : list A) f tl :
  (forall a f tl, a ∈ l -> p (Rd f (enc a ++ tl)) = Ok (a, Rd f tl)) ->
  parse_n (zlen l) p (Rd f (mjoin (enc <$> l) ++ tl)) = Ok (l, Rd f tl).
Proof.
  unfold parse_n. rewrite for_n_nat. unfold zlen. rewrite Nat2Z.id.
  enough (forall acc k, (forall a f tl, a ∈ k -> p (Rd f (enc a ++ tl)) = Ok (a, Rd f tl)) ->
    iter_nat (length k) (fun '(acc, r) =>
       match p r with Ok (a, r) => Ok (acc ++ [a], r) | Err e => Err e end)
      (acc, Rd f (mjoin (enc <$> k) ++ tl)) = Ok (acc ++ k, Rd f tl)) as Hk.
  { intros Hp. by rewrite (Hk [] l Hp). }
  intros acc k; revert acc; induction k as [|x k IH]; intros acc Hp; cbn -[mret mbind].
  - by rewrite app_nil_r.
  - rewrite <- app_assoc. rewrite Hp by (by left). cbn [mbind result_bind].
    rewrite IH by (intros; apply Hp; by right). by rewrite <- app_assoc.
Qed.
End running.

(** ** Inverting a successful decode *)

Section inverting.
Context {E : Type} `{FromTruncated E}.
Implicit Types (r : ByteReader).

Lemma bind_inv {A B} (p : parser E A) (k : A -> parser E B) r b r2 :
  (p ≫= k) r = Ok (b, r2) ->
  exists a r1, p r = Ok (a, r1) /\ k a r1 = Ok (b, r2).
Proof.
  unfold mbind, parser_bind. destruct (p r) as [[a r1]|]; [|done]. eauto.
Qed.

Lemma ret_inv {A} (a b : A) r r2 :
  (mret a : parser E A) r = Ok (b, r2) -> a = b /\ r2 = r.
Proof. unfold mret, parser_ret. by injection 1. Qed.

Lemma require_inv b (e : E) r u r2 : require b e r = Ok (u, r2) -> b = true /\ r2 = r.
Proof. unfold require, lift. destruct b; cbn; [|done]. by injection 1. Qed.

(** What a parser read: [l] is the part of the input between the two cursors. *)
Definition read_between (r : ByteReader) (l : bytes) (r2 : ByteReader) : Prop :=
  full r2 = full r /\ rest r = l ++ rest r2.

Lemma take_inv n w r l r2 :
  0 <= n -> take_bytes n w r = Ok (l, r2) :> result E _ ->
  zlen l = n /\ read_between r l r2.
Proof.
  unfold take_bytes, read_between. intros Hn.
  destruct (Z.ltb_spec (zlen (rest r)) n); [done|]. injection 1 as <- <-. cbn.
  unfold zlen in *. rewrite length_take, take_drop. split_and!; [lia|done..].
Qed.

Lemma advance_inv n w r u r2 :
  0 <= n -> advance n w r = Ok (u, r2) :> result E _ ->
  exists l, zlen l = n /\ read_between r l r2.
Proof.
  intros Hn Hr. apply bind_inv in Hr as (l & r1 & Hr & Hret).
  apply ret_inv in Hret as [_ ->]. exists l. by apply (take_inv n w).
Qed.

Lemma arr_inv n w r l r2 :
  arr n w r = Ok (l, r2) :> result E _ -> length l = n /\ read_between r l r2.
Proof.
  intros Hr. apply take_inv in Hr as [Hl ?]; [|lia].
  unfold zlen in Hl. split; [lia|done].
Qed.

Lemma uint_le_inv n w r z r2 :
  uint_le n w r = Ok (z, r2) :> result E _ ->
  0 <= z < 256 ^ Z.of_nat n /\ read_between r (le n z) r2.
Proof.
  unfold uint_le. intros Hr. apply bind_inv in Hr as (l & r1 & Hl & Hret).
  apply ret_inv in Hret as [<- ->]. apply arr_inv in Hl as [<- Hl].
  split; [apply le_val_range|]. by rewrite le_le_val.
Qed.

Lemma u8_inv w r z r2 :
  u8 w r = Ok (z, r2) :> result E _ -> uint 8 z /\ read_between r [zb z] r2.
Proof. apply (uint_le_inv 1). Qed.
Lemma u16_inv w r z r2 :
  u16 w r = Ok (z, r2) :> result E _ -> uint 16 z /\ read_between r (le 2 z) r2.
Proof. apply (uint_le_inv 2). Qed.
Lemma u32_inv w r z r2 :
  u32 w r = Ok (z, r2) :> result E _ -> uint 32 z /\ read_between r (le 4 z) r2.
Proof. apply (uint_le_inv 4). Qed.
Lemma u64_inv w r z r2 :
  u64 w r = Ok (z, r2) :> result E _ -> uint 64 z /\ read_between r (le 8 z) r2.
Proof. apply (uint_le_inv 8). Qed.

Lemma read_between_trans r1 l r2 k r3 :
  read_between r1 l r2 -> read_between r2 k r3 -> read_between r1 (l ++ k) r3.
Proof.
  unfold read_between. intros [-> ->] [-> ->]. by rewrite app_assoc.
Qed.

Lemma parse_n_inv {A} (p : parser E A) (R : A -> bytes -> Prop) n r l r2 :
  0 <= n ->
  (forall r a r2, p r = Ok (a, r2) -> exists b, R a b /\ read_between r b r2) ->
  parse_n n p r = Ok (l, r2) ->
  zlen l = n /\ exists bs, Forall2 R l bs /\ read_between r (mjoin bs) r2.
Proof.
  intros Hn Hp Hrun. unfold parse_n in Hrun.
  apply (for_n_ind (fun i '(acc, r') =>
    zlen acc = i /\ exists bs, Forall2 R acc bs /\ read_between r (mjoin bs) r')) in Hrun;
    [done|done| |].
  - split; [done|]. exists []. by split; [constructor|].
  - intros i [acc ra] [acc' rb] Hi (Hlen & bs & HR & Hbs).
    destruct (p ra) as [[a rc]|] eqn:Hpa; [|done]. injection 1 as <- <-.
    destruct (Hp _ _ _ Hpa) as (b & Hb & Hrb). split.
    { rewrite zlen_app, zlen_cons, zlen_nil. lia. }
    exists (bs ++ [b]). split.
    + apply Forall2_app; [done|]. by repeat constructor.
    + rewrite join_app. cbn. rewrite app_nil_r. by eapply read_between_trans.
Qed.
End inverting.

(** ** Automation *)

Create HintDb reader discriminated.
#[export] Hint Resolve take_ok advance_ok arr_ok u8_ok u8_byte_ok u16_ok u32_ok u64_ok
  get_reader_ok require_ok ret_ok : reader.
#[export] Hint Extern 2 (uint _ _) => first [assumption | by (unfold uint; lia)] : reader.
#[export] Hint Extern 2 (length _ = _) => first [assumption | reflexivity | apply length_le] : reader.
#[export] Hint Extern 2 (_ = true) => first [assumption | reflexivity] : reader.
#[export] Hint Extern 2 (zlen _ = _) => first [assumption | reflexivity] : reader.

(** One field of a decoder run over the bytes that encode it. *)
Ltac parse_step :=
  erewrite bind_ok by (solve [eauto 3 with reader nocore]); cbn beta iota.

Ltac parse := repeat parse_step.

(** The fields a successful decode read. *)
Ltac pinv1 :=
  match goal with
  | H : Ok _ = Ok _ |- _ => injection H as H; simplify_eq
  | H : Ok _ = Err _ |- _ => discriminate H
  | H : Err _ = Ok _ |- _ => discriminate H
  | H : fail _ _ = Ok _ |- _ => discriminate H
  | H : mbind _ _ _ = Ok _ |- _ => apply bind_inv in H as (?x & ?r & ?H & ?H)
  | H : mret _ _ = Ok _ |- _ => apply ret_inv in H as [? ?]; simplify_eq
  | H : require _ _ _ = Ok _ |- _ => apply require_inv in H as [? ?]; simplify_eq
  | H : u8 _ _ = Ok _ |- _ => apply u8_inv in H as [? ?]
  | H : u16 _ _ = Ok _ |- _ => apply u16_inv in H as [? ?]
  | H : u32 _ _ = Ok _ |- _ => apply u32_inv in H as [? ?]
  | H : u64 _ _ = Ok _ |- _ => apply u64_inv in H as [? ?]
  | H : arr _ _ _ = Ok _ |- _ => apply arr_inv in H as [? ?]
  | H : take_bytes _ _ _ = Ok _ |- _ => apply take_inv in H as [? ?]; [|unfold uint in *; lia]
  | H : get_reader _ = Ok _ |- _ => unfold get_reader in H
  end.
Ltac pinv := repeat pinv1.

(** One byte read back as the integer it was written from. *)
Ltac parse_u8 :=
  erewrite bind_ok by
    (apply u8_ok; solve [eauto with reader | unfold uint in *; lia | by vm_compute]);
  cbn beta iota.
