(* ===== verification/Bitcoin.v ===== *)
(** Block and transaction primitives ([core/src/bitcoin.rs]): double SHA-256,
    merkle roots and the branches a coinbase path needs, the CompactSize
    encoding and block serialization.

    The digests are third-party code: [Digests] is what the development relies
    on of them, two functions to 32 bytes. *)
From S2P Require Import Prelude Reader.

Definition HASH_SIZE : nat := 32.
Definition WITNESS_SCALE_FACTOR : Z := 4.
Definition MAX_COMPACT_SIZE_LEN : Z := 1 + 8.

Abbreviation hash32 := (list Byte.byte).

Class Digests := {
  sha256_digest : bytes -> bytes;
  blake2b_256_digest : bytes -> bytes;
  length_sha256_digest d : length (sha256_digest d) = 32%nat;
  length_blake2b_256_digest d : length (blake2b_256_digest d) = 32%nat;
}.

(** A concrete instance for evaluating definitions: the integer value of the
    data with its length, folded into 32 bytes. *)
Definition example_digest (salt : Z) (d : bytes) : bytes :=
  le 32 ((le_val d + salt) * 1000003 + zlen d).
Program Definition example_digests : Digests := {|
  sha256_digest := example_digest 17;
  blake2b_256_digest := example_digest 29;
|}.
Next Obligation. intros. apply length_le. Qed.
Next Obligation. intros. apply length_le. Qed.

(** Digests whose every hash is zero, which meets every target. *)
Program Definition zero_digests : Digests :=
  {| sha256_digest := fun _ => zeros 32; blake2b_256_digest := fun _ => zeros 32 |}.
Next Obligation. done. Qed.
Next Obligation. done. Qed.

Inductive TxError :=
| TxTruncated (t : Truncated)
| BadCompactSize
| NotCoinbase
| InputNotNull
| LengthOverflow (what : string)
| TrailingBytes (n : Z)
| NoInputs.

#[global] Instance TxError_eq_dec : EqDecision TxError.
Proof. solve_decision. Defined.
#[global] Instance TxError_from : FromTruncated TxError := TxTruncated.

Section hashing.
Context `{Digests}.

Definition sha256d (data : bytes) : hash32 := sha256_digest (sha256_digest data).

Definition hash_pair (left right : hash32) : hash32 := sha256d (left ++ right).

Lemma length_sha256d d : length (sha256d d) = 32%nat.
Proof. apply length_sha256_digest. Qed.
End hashing.

Definition reversed (h : hash32) : hash32 := reverse h.

(** ** Merkle trees *)

(** [as_chunks::<2>]: adjacent pairs, an odd element at the end dropped. *)
Fixpoint map_pairs {T U} (f : T -> T -> U) (level : list T) : list U :=
  match level with
  | a :: b :: level => f a b :: map_pairs f level
  | _ => []
  end.

(** The next level of a merkle tree: an odd level's last entry is paired with
    itself. *)
Definition next_level {T} (level : list T) (hash : T -> T -> T) : list T :=
  let level :=
    if Nat.odd (length level)
    then match last level with Some x => level ++ [x] | None => level end
    else level in
  map_pairs hash level.

Section merkle.
Context `{Digests}.

Definition merkle_root_from_branches (coinbase_txid : hash32) (branches : list hash32) : hash32 :=
  foldl hash_pair coinbase_txid branches.

(** [merkle_branches]: [None] is the panic of [expect] on an unknown sibling.
    The level shrinks at every turn of the loop, so its length is fuel enough. *)
Fixpoint merkle_branches_loop (fuel : nat) (level : list (option hash32))
    (branches : list hash32) : option (list hash32) :=
  match fuel with
  | O => Some branches
  | S fuel =>
    if (1 <? length level)%nat then
      sibling ← level !! 1%nat;
      b ← sibling;
      merkle_branches_loop fuel
        (next_level level (fun a b => a ← a; b ← b; Some (hash_pair a b)))
        (branches ++ [b])
    else Some branches
  end.

Definition merkle_branches (txids : list hash32) : option (list hash32) :=
  match txids with
  | [] => Some []
  | _ => merkle_branches_loop (S (length txids)) (None :: (Some <$> txids)) []
  end.

Record MerkleTreeRoot := { root : hash32; mutated : bool }.

Fixpoint merkle_tree_loop (fuel : nat) (level : list hash32) (mutated : bool)
    : list hash32 * bool :=
  match fuel with
  | O => (level, mutated)
  | S fuel =>
    if (1 <? length level)%nat then
      let mutated :=
        mutated || existsb id (map_pairs (fun a b => bool_decide (a = b)) level) in
      merkle_tree_loop fuel (next_level level hash_pair) mutated
    else (level, mutated)
  end%bool.

Definition merkle_tree_root (txids : list hash32) : option MerkleTreeRoot :=
  match txids with
  | [] => None
  | _ =>
    let '(level, mutated) := merkle_tree_loop (length txids) txids false in
    r ← level !! O;
    Some {| root := r; mutated := mutated |}
  end.
End merkle.

(** ** CompactSize *)

Definition COMPACT_SIZE_U16_TAG : Z := 0xfd.
Definition COMPACT_SIZE_U32_TAG : Z := 0xfe.
Definition COMPACT_SIZE_U64_TAG : Z := 0xff.
Definition COMPACT_SIZE_MAX_1 : Z := COMPACT_SIZE_U16_TAG - 1.
Definition COMPACT_SIZE_MAX_2 : Z := 2 ^ 16 - 1.
Definition COMPACT_SIZE_MAX_4 : Z := 2 ^ 32 - 1.

Definition encode_compact_size (n : Z) : bytes :=
  if n <=? COMPACT_SIZE_MAX_1 then [zb n]
  else if n <=? COMPACT_SIZE_MAX_2 then zb COMPACT_SIZE_U16_TAG :: le 2 n
  else if n <=? COMPACT_SIZE_MAX_4 then zb COMPACT_SIZE_U32_TAG :: le 4 n
  else zb COMPACT_SIZE_U64_TAG :: le 8 n.

Definition decode_compact_size : parser TxError Z :=
  first ← u8 "compact size";
  '(v, minimum) ←
    (if first =? COMPACT_SIZE_U16_TAG then
       v ← u16 "compact size"; mret (v, COMPACT_SIZE_MAX_1 + 1)
     else if first =? COMPACT_SIZE_U32_TAG then
       v ← u32 "compact size"; mret (v, COMPACT_SIZE_MAX_2 + 1)
     else if first =? COMPACT_SIZE_U64_TAG then
       v ← u64 "compact size"; mret (v, COMPACT_SIZE_MAX_4 + 1)
     else mret (first, 0));
  if v <? minimum then fail BadCompactSize else mret v.

(** ** Block serialization *)

Definition serialize_block (header coinbase : bytes) (other_txns : list bytes) : bytes :=
  header ++ encode_compact_size (zlen other_txns + 1) ++ coinbase ++ mjoin other_txns.

(** ** CompactSize: the decoder inverts the encoder and accepts nothing else *)

Ltac unfold_compact :=
  unfold COMPACT_SIZE_MAX_1, COMPACT_SIZE_MAX_2, COMPACT_SIZE_MAX_4,
    COMPACT_SIZE_U16_TAG, COMPACT_SIZE_U32_TAG, COMPACT_SIZE_U64_TAG in *.

Lemma decode_compact_size_ok n f tl :
  uint 64 n ->
  decode_compact_size (Rd f (encode_compact_size n ++ tl)) = Ok (n, Rd f tl).
Proof.
  unfold uint, encode_compact_size, decode_compact_size. unfold_compact. intros Hn.
  repeat case_test; reflect_Z; cbn [app];
    (erewrite bind_ok by (apply u8_ok; unfold uint; lia)); cbn beta.
  2-4: cbn [Z.eqb Pos.eqb Z.sub].
  1: rewrite !(proj2 (Z.eqb_neq n _)) by lia; erewrite bind_ok by done; cbn beta iota;
     destruct (Z.ltb_spec n 0); [lia|done].
  all: erewrite bind_ok by (erewrite bind_ok by eauto with reader; done);
    cbn beta iota;
    match goal with |- context [?x <? ?y] => destruct (Z.ltb_spec x y); [lia|done] end.
Qed.
#[export] Hint Resolve decode_compact_size_ok : reader.

Lemma decode_compact_size_inv r n r2 :
  decode_compact_size r = Ok (n, r2) ->
  uint 64 n /\ read_between r (encode_compact_size n) r2.
Proof.
  unfold decode_compact_size, encode_compact_size. unfold_compact. intros Hr.
  apply bind_inv in Hr as (first & r1 & Hf & Hr). apply u8_inv in Hf as [??].
  apply bind_inv in Hr as ([v m] & r3 & Hv & Hr).
  destruct (Z.ltb_spec v m); [done|]. apply ret_inv in Hr as [??]; simplify_eq.
  repeat case_test; reflect_Z; repeat pinv1; unfold uint in *; subst;
    repeat match goal with
    | H : read_between ?a ?l ?b, K : read_between ?b ?k ?c |- _ =>
        pose proof (read_between_trans a l b k c H K); clear H K
    end; try lia; (split; [lia|]);
    repeat case_test; reflect_Z; try lia; done.
Qed.

Lemma zlen_encode_compact_size n :
  1 <= zlen (encode_compact_size n) <= MAX_COMPACT_SIZE_LEN.
Proof.
  unfold encode_compact_size. repeat case_test; cbv; split; discriminate.
Qed.

Lemma zlen_encode_compact_size_mono m n :
  m <= n -> zlen (encode_compact_size m) <= zlen (encode_compact_size n).
Proof.
  intros. unfold encode_compact_size. unfold_compact.
  repeat case_test; reflect_Z; try lia; cbv; discriminate.
Qed.

(** ** Merkle branches and the merkle root *)

(** An odd level extended with its last entry. *)
Definition pad_level {T} (level : list T) : list T :=
  if Nat.odd (length level)
  then match last level with Some x => level ++ [x] | None => level end
  else level.

Lemma next_level_pad {T} (level : list T) f : next_level level f = map_pairs f (pad_level level).
Proof. done. Qed.

Lemma length_map_pairs {T U} (f : T -> T -> U) l : length (map_pairs f l) = (length l / 2)%nat.
Proof.
  enough (forall n l, (length l <= n)%nat -> length (map_pairs f l) = (length l / 2)%nat) as Hn
    by by eapply Hn.
  clear l. induction n as [|n IH]; intros [|a [|b l]] Hl; cbn [map_pairs length] in *; try done; try lia.
  rewrite IH by lia. replace (S (S (length l))) with (length l + 1 * 2)%nat by lia.
  rewrite Nat.div_add by lia. lia.
Qed.

Lemma length_pad_level {T} (l : list T) :
  length (pad_level l) = (2 * ((length l + 1) / 2))%nat.
Proof.
  unfold pad_level. pose proof (Nat.div_mod (length l + 1) 2 ltac:(lia)) as Hdm.
  pose proof (Nat.mod_upper_bound (length l + 1) 2 ltac:(lia)).
  destruct (Nat.odd (length l)) eqn:Hodd.
  - destruct (last l) as [x|] eqn:Hlast.
    + apply Nat.odd_spec in Hodd as [k Hk]. rewrite length_app. cbn [length].
      replace (length l + 1)%nat with ((k + 1) * 2)%nat by lia.
      rewrite Nat.div_mul by lia. lia.
    + apply last_None in Hlast. by subst.
  - assert (Nat.even (length l) = true) as Heven by (rewrite <- Nat.negb_odd, Hodd; done).
    apply Nat.even_spec in Heven as [k Hk].
    replace (length l + 1)%nat with (1 + k * 2)%nat by lia.
    rewrite Nat.div_add by lia. rewrite Hk. change (1 / 2)%nat with 0%nat. lia.
Qed.

Lemma length_next_level {T} (l : list T) f :
  length (next_level l f) = ((length l + 1) / 2)%nat.
Proof.
  rewrite next_level_pad, length_map_pairs, length_pad_level, Nat.mul_comm.
  apply Nat.div_mul. lia.
Qed.

Lemma length_next_level_lt {T} (l : list T) f :
  (1 < length l)%nat -> (length (next_level l f) < length l)%nat.
Proof.
  intros. rewrite length_next_level. apply Nat.Div0.div_lt_upper_bound. lia.
Qed.

Lemma pad_level_cons2 {T} (a b : T) l : exists k,
  pad_level (a :: b :: l) = a :: b :: k.
Proof.
  unfold pad_level. case_match; [|eauto]. cbn. case_match; eauto.
Qed.

(** The levels of the two loops: the coinbase side of the tree is unknown to
    [merkle_branches_loop] and the accumulated hash in [merkle_tree_loop]. *)
Lemma pad_level_hidden {T} (t : T) ts :
  exists k, (forall x, pad_level (x :: t :: ts) = x :: t :: k) /\
    pad_level (None :: (Some <$> t :: ts)) = None :: Some t :: (Some <$> k).
Proof.
  unfold pad_level. cbn [fmap list_fmap length].
  rewrite length_fmap.
  destruct (Nat.odd (S (S (length ts)))).
  - destruct (last (t :: ts)) as [z|] eqn:Hz; [|by apply last_None in Hz].
    exists (ts ++ [z]). split.
    + intros x. change (last (x :: t :: ts)) with (last (t :: ts)). by rewrite Hz.
    + change (last (None :: Some t :: (Some <$> ts))) with (last (Some <$> (t :: ts))).
      rewrite fmap_last, Hz. cbn. by rewrite fmap_app.
  - exists ts. done.
Qed.

Lemma map_pairs_some {T} (f : T -> T -> T) (l : list T) :
  map_pairs (fun a b => a ← a; b ← b; Some (f a b)) (Some <$> l) = Some <$> map_pairs f l.
Proof.
  enough (forall n l, (length l <= n)%nat ->
    map_pairs (fun a b => a ← a; b ← b; Some (f a b)) (Some <$> l) = Some <$> map_pairs f l) as Hn
    by by eapply Hn.
  clear l. induction n as [|n IH]; intros [|a [|b l]] Hl; cbn in *; try done; try lia.
  f_equal. apply IH. lia.
Qed.

Section merkle_agree.
Context `{Digests}.

Lemma merkle_branches_loop_ok fuel ts acc m branches :
  (length ts < fuel)%nat ->
  exists bs, merkle_branches_loop fuel (None :: (Some <$> ts)) branches = Some (branches ++ bs)
    /\ (merkle_tree_loop fuel (acc :: ts) m).1 = [merkle_root_from_branches acc bs].
Proof.
  revert ts acc m branches. induction fuel as [|fuel IH]; intros ts acc m branches Hlen; [lia|].
  destruct ts as [|t ts].
  - exists []. cbn. by rewrite app_nil_r.
  - cbn [merkle_branches_loop merkle_tree_loop length fmap list_fmap].
    rewrite !(proj2 (Nat.ltb_lt _ _)) by lia. cbn [lookup list_lookup mbind option_bind].
    destruct (pad_level_hidden t ts) as (k & Hk & Hk').
    rewrite !next_level_pad. cbn [fmap list_fmap] in Hk'. rewrite Hk', Hk.
    cbn [map_pairs mbind option_bind]. rewrite map_pairs_some.
    assert (length (map_pairs hash_pair k) < fuel)%nat as Hlt.
    { pose proof (length_next_level_lt (acc :: t :: ts) hash_pair) as Hl.
      rewrite next_level_pad, Hk in Hl. cbn [map_pairs length] in Hl, Hlen. lia. }
    match goal with |- context [merkle_tree_loop fuel _ ?m'] =>
      destruct (IH _ (hash_pair acc t) m' (branches ++ [t]) Hlt) as (bs & Hbs & Hroot)
    end.
    exists (t :: bs). split.
    + rewrite Hbs. by rewrite <- app_assoc.
    + by rewrite Hroot.
Qed.

(** the branches the gateway computes for a job's transactions always exist
    (no [expect] of [merkle_branches] fails), and folding a coinbase's hash
    through them gives the root of the merkle tree over the coinbase and those
    transactions, for every coinbase and every number of transactions: the root
    a share is rebuilt with is the root its block serializes to. *)
Theorem merkle_branches_root (coinbase_txid : hash32) (txids : list hash32) :
  exists branches t,
    merkle_branches txids = Some branches /\
    merkle_tree_root (coinbase_txid :: txids) = Some t /\
    merkle_root_from_branches coinbase_txid branches = root t.
Proof.
  destruct txids as [|x txids].
  { exists [], {| root := coinbase_txid; mutated := false |}. done. }
  destruct (merkle_branches_loop_ok (S (length (x :: txids))) (x :: txids) coinbase_txid false []
    ltac:(lia)) as (bs & Hbs & Hroot).
  unfold merkle_branches, merkle_tree_root.
  change (length (coinbase_txid :: x :: txids)) with (S (length (x :: txids))).
  destruct (merkle_tree_loop (S (length (x :: txids))) (coinbase_txid :: x :: txids) false)
    as [level m]. cbn [fst] in Hroot. subst level.
  exists bs, {| root := merkle_root_from_branches coinbase_txid bs; mutated := m |}.
  split_and!; [exact Hbs|done|done].
Qed.
End merkle_agree.
