(* ===== verification/Script.v ===== *)
(** Scripts ([core/src/bitcoin/script.rs]): the opcodes the pool names, the
    iterator over a script's operations, the pushes a coinbase scriptSig is
    assembled from, and the consensus limit on an output script. *)
From S2P Require Import Prelude.

Module opcode.
Definition OP_0 : Z := 0x00.
Definition OP_PUSHDATA1 : Z := 0x4c.
Definition OP_PUSHDATA2 : Z := 0x4d.
Definition OP_PUSHDATA4 : Z := 0x4e.
Definition OP_1 : Z := 0x51.
Definition OP_16 : Z := 0x60.
Definition OP_RETURN : Z := 0x6a.
Definition OP_DUP : Z := 0x76.
Definition OP_EQUAL : Z := 0x87.
Definition OP_EQUALVERIFY : Z := 0x88.
Definition OP_HASH160 : Z := 0xa9.
Definition OP_CHECKSIG : Z := 0xac.
Definition OP_CHECKSIGVERIFY : Z := 0xad.
Definition OP_CHECKMULTISIG : Z := 0xae.
Definition OP_CHECKMULTISIGVERIFY : Z := 0xaf.
Definition MAX_DIRECT_PUSH : Z := OP_PUSHDATA1 - 1.
Definition OP_N_BASE : Z := OP_1 - 1.
End opcode.
Import opcode.

Definition MAX_OUTPUT_SCRIPT_SIZE : Z := 34.
Definition MAX_OUTPUT_DATA_SIZE : Z := 83.

Record ScriptPush := { data_at : Z; data : bytes }.
Record ScriptOp := { op_code : Z; push : option ScriptPush }.

(** [script.get(a..b)]. *)
Definition slice {A} (l : list A) (a b : Z) : option (list A) :=
  if (a <=? b) && (b <=? zlen l)
  then Some (take (Z.to_nat (b - a)) (drop (Z.to_nat a) l)) else None.

(** The bytes of the length field after a push opcode: none for an opcode that
    pushes nothing, zero for a direct push. *)
Definition push_length_bytes (opcode : Z) : option Z :=
  if (0x01 <=? opcode) && (opcode <=? MAX_DIRECT_PUSH) then Some 0
  else if opcode =? OP_PUSHDATA1 then Some 1
  else if opcode =? OP_PUSHDATA2 then Some 2
  else if opcode =? OP_PUSHDATA4 then Some 4
  else None.

(** [ScriptOps::next]: the operation at [at_] and the position after it; none at
    the end of the script and at a push that runs past it. *)
Definition script_next (script : bytes) (at_ : Z) : option (ScriptOp * Z) :=
  op ← script !! Z.to_nat at_;
  let opcode := bz op in
  match push_length_bytes opcode with
  | None => Some ({| op_code := opcode; push := None |}, at_ + 1)
  | Some length_bytes =>
    let after_opcode := at_ + 1 in
    '(data_at, len) ←
      (if length_bytes =? 0 then Some (after_opcode, opcode)
       else
         field ← slice script after_opcode (after_opcode + length_bytes);
         Some (after_opcode + length_bytes,
           foldl (fun n b => Z.lor (Z.shiftl n 8) (bz b)) 0 (reverse field)));
    let end_ := data_at + len in
    data ← slice script data_at end_;
    Some ({| op_code := opcode; push := Some {| data_at := data_at; data := data |} |}, end_)
  end.

(** The operations from a position on; every operation takes at least one byte,
    so the script's length is fuel enough. *)
Fixpoint script_ops_from (fuel : nat) (script : bytes) (at_ : Z) : list ScriptOp :=
  match fuel with
  | O => []
  | S fuel =>
    match script_next script at_ with
    | Some (op, next) => op :: script_ops_from fuel script next
    | None => []
    end
  end.

Definition script_ops (script : bytes) : list ScriptOp :=
  script_ops_from (length script) script 0.

Definition script_pushes (script : bytes) : list ScriptPush :=
  omap push (script_ops script).

Definition output_script_size_is_valid (script : bytes) : bool :=
  match script with
  | [] => true
  | op :: _ =>
    let limit := if bz op =? OP_RETURN then MAX_OUTPUT_DATA_SIZE else MAX_OUTPUT_SCRIPT_SIZE in
    zlen script <=? limit
  end.

(** ** The BIP34 height push *)

(** [while v > 0 { bytes.push(v as u8); v >>= 8 }]; four turns empty a [u32]. *)
Fixpoint height_bytes (fuel : nat) (v : Z) : bytes :=
  match fuel with
  | O => []
  | S fuel => if 0 <? v then zb v :: height_bytes fuel (Z.shiftr v 8) else []
  end.

Definition SIGN_BIT : Z := 0x80.
Definition SMALL_INT_MAX : Z := OP_16 - OP_N_BASE.

Definition height_push (height : Z) : bytes :=
  if height =? 0 then [zb OP_0]
  else if (1 <=? height) && (height <=? SMALL_INT_MAX) then [zb (OP_N_BASE + height)]
  else
    let bs := height_bytes 4 height in
    let bs :=
      match last bs with
      | Some b => if has_bits (bz b) SIGN_BIT then bs ++ [zb 0] else bs
      | None => bs
      end in
    zb (zlen bs) :: bs.

Definition encode_push (data : bytes) : bytes :=
  (if MAX_DIRECT_PUSH <? zlen data then [zb OP_PUSHDATA1] else []) ++ zb (zlen data) :: data.

(** ** Reading the operations back *)

Lemma slice_app {A} (pre l tl : list A) :
  slice (pre ++ l ++ tl) (zlen pre) (zlen pre + zlen l) = Some l.
Proof.
  unfold slice. rewrite !zlen_app. pose proof (zlen_nonneg pre). pose proof (zlen_nonneg l).
  pose proof (zlen_nonneg tl).
  rewrite (proj2 (Z.leb_le _ _)), (proj2 (Z.leb_le _ _)) by lia. cbn [andb].
  replace (zlen pre + zlen l - zlen pre) with (zlen l) by lia. unfold zlen.
  rewrite !Nat2Z.id. by rewrite drop_app_length, take_app_length.
Qed.

Lemma slice_at {A} (script pre l tl : list A) a b :
  script = pre ++ l ++ tl -> a = zlen pre -> b = a + zlen l ->
  slice script a b = Some l.
Proof. intros -> -> ->. apply slice_app. Qed.

(** The length field is little endian. *)
Lemma foldl_reverse_le_val (field : bytes) :
  foldl (fun n b => Z.lor (Z.shiftl n 8) (bz b)) 0 (reverse field) = le_val field.
Proof.
  induction field as [|b field IH]; [done|].
  rewrite reverse_cons, foldl_snoc, IH. cbn [le_val]. pose proof (bz_range b).
  rewrite lor_shiftl_add by lia. lia.
Qed.

Lemma script_next_advances script at_ op next :
  0 <= at_ -> script_next script at_ = Some (op, next) -> at_ < next.
Proof.
  intros Hat Hn. unfold script_next in Hn.
  destruct (script !! Z.to_nat at_) as [b|]; cbn [mbind option_bind] in Hn; [|done].
  pose proof (bz_range b).
  destruct (push_length_bytes (bz b)) as [lb|] eqn:Hlb; [|simplify_eq; lia].
  assert (lb = 0 \/ 0 < lb) as Hlb0.
  { unfold push_length_bytes in Hlb. repeat case_match; simplify_eq; lia. }
  destruct (Z.eqb_spec lb 0); cbn [mbind option_bind] in Hn.
  - destruct (slice _ _ _); cbn in Hn; simplify_eq; lia.
  - destruct (slice script (at_ + 1) _) as [field|]; cbn in Hn; [|done].
    rewrite foldl_reverse_le_val in Hn. pose proof (le_val_range field).
    destruct (slice script (at_ + 1 + lb) _); cbn in Hn; simplify_eq; lia.
Qed.

Lemma script_next_none_end script at_ :
  zlen script <= at_ -> script_next script at_ = None.
Proof.
  intros. unfold script_next, zlen in *.
  by rewrite lookup_ge_None_2 by lia.
Qed.

(** Fuel past the bytes left changes nothing. *)
Lemma script_ops_from_fuel script at_ n m :
  0 <= at_ -> (length script <= Z.to_nat at_ + n)%nat -> (n <= m)%nat ->
  script_ops_from m script at_ = script_ops_from n script at_.
Proof.
  revert at_ m. induction n as [|n IH]; intros at_ m Hat Hn Hm.
  - destruct m as [|m]; [done|]. cbn [script_ops_from].
    by rewrite script_next_none_end by (unfold zlen; lia).
  - destruct m as [|m]; [lia|]. cbn [script_ops_from].
    destruct (script_next script at_) as [[op next]|] eqn:Hnext; [|done].
    apply script_next_advances in Hnext; [|done]. f_equal. apply IH; lia.
Qed.

Lemma script_ops_from_step script at_ op next :
  0 <= at_ -> script_next script at_ = Some (op, next) ->
  script_ops_from (length script) script at_ =
  op :: script_ops_from (length script) script next.
Proof.
  intros Hat Hnext. pose proof (script_next_advances _ _ _ _ Hat Hnext).
  destruct (length script) as [|n] eqn:Hlen.
  - rewrite script_next_none_end in Hnext; [done|]. unfold zlen. lia.
  - transitivity (op :: script_ops_from n script next).
    + cbn [script_ops_from]. by rewrite Hnext.
    + f_equal. symmetry. apply script_ops_from_fuel; lia.
Qed.

(** A push of at most 255 bytes reads back as one operation, at the position of
    its data. *)
Lemma script_next_push pre d tl :
  1 <= zlen d <= 255 ->
  script_next (pre ++ encode_push d ++ tl) (zlen pre) =
  Some ({| op_code := if MAX_DIRECT_PUSH <? zlen d then OP_PUSHDATA1 else zlen d;
           push := Some {| data_at := zlen pre + zlen (encode_push d) - zlen d; data := d |} |},
        zlen (pre ++ encode_push d)).
Proof.
  intros Hd. pose proof (zlen_nonneg pre) as Hpre.
  unfold script_next, encode_push, MAX_DIRECT_PUSH, OP_PUSHDATA1 in *.
  destruct (Z.ltb_spec (0x4c - 1) (zlen d)) as [Hlong|Hshort]; cbn [app].
  - rewrite lookup_app_r by (unfold zlen; lia).
    replace (Z.to_nat (zlen pre) - length pre)%nat with 0%nat by (unfold zlen; lia).
    cbn [lookup list_lookup mbind option_bind]. rewrite bz_zb_small by lia.
    change (push_length_bytes 0x4c) with (Some 1). cbn [Z.eqb Pos.eqb].
    rewrite (slice_at _ (pre ++ [zb 0x4c]) [zb (zlen d)] (d ++ tl)); cycle 1.
    { by rewrite <- app_assoc. }
    { rewrite zlen_app. done. }
    { done. }
    cbn [mbind option_bind]. rewrite foldl_reverse_le_val. cbn [le_val].
    rewrite bz_zb_small, Z.mul_0_r, Z.add_0_r by lia.
    rewrite (slice_at _ (pre ++ [zb 0x4c; zb (zlen d)]) d tl); cycle 1.
    { by rewrite <- app_assoc. }
    { rewrite zlen_app, !zlen_cons, zlen_nil. lia. }
    { done. }
    cbn [mbind option_bind]. rewrite zlen_app, !zlen_cons. f_equal. f_equal; [|lia].
    do 3 f_equal. lia.
  - rewrite lookup_app_r by (unfold zlen; lia).
    replace (Z.to_nat (zlen pre) - length pre)%nat with 0%nat by (unfold zlen; lia).
    cbn [lookup list_lookup mbind option_bind]. rewrite bz_zb_small by lia.
    unfold push_length_bytes, MAX_DIRECT_PUSH, OP_PUSHDATA1.
    rewrite (proj2 (Z.leb_le 1 _)), (proj2 (Z.leb_le _ (0x4c - 1))) by lia.
    cbn [andb Z.eqb mbind option_bind].
    rewrite (slice_at _ (pre ++ [zb (zlen d)]) d tl); cycle 1.
    { by rewrite <- app_assoc. }
    { by rewrite zlen_app. }
    { done. }
    cbn [mbind option_bind]. rewrite zlen_app, !zlen_cons. f_equal. f_equal; [|lia].
    do 3 f_equal. lia.
Qed.

Lemma script_next_plain pre op tl :
  uint 8 op -> push_length_bytes op = None ->
  script_next (pre ++ zb op :: tl) (zlen pre) =
  Some ({| op_code := op; push := None |}, zlen pre + 1).
Proof.
  unfold uint. intros Hop Hl. unfold script_next.
  rewrite lookup_app_r by (unfold zlen; lia).
  replace (Z.to_nat (zlen pre) - length pre)%nat with 0%nat by (unfold zlen; lia).
  cbn [lookup list_lookup mbind option_bind]. rewrite bz_zb_small by lia. by rewrite Hl.
Qed.

(** A push lies within its script. *)
Lemma slice_len {A} (l : list A) a b x : 0 <= a -> slice l a b = Some x -> zlen x = b - a /\ b <= zlen l.
Proof.
  unfold slice. intros Ha. destruct ((a <=? b) && (b <=? zlen l)) eqn:Hb; [|done]. intros [= <-]. reflect_Z.
  split; [|done]. unfold zlen in *. rewrite length_take, length_drop. lia.
Qed.

Lemma script_next_bounds script at_ op next p :
  0 <= at_ -> script_next script at_ = Some (op, next) -> push op = Some p ->
  0 <= data_at p /\ data_at p + zlen (data p) <= zlen script.
Proof.
  intros Hat Hn Hp. unfold script_next in Hn.
  destruct (script !! Z.to_nat at_) as [b|]; cbn [mbind option_bind] in Hn; [|done].
  pose proof (bz_range b).
  destruct (push_length_bytes (bz b)) as [lb|] eqn:Hlb; [|by simplify_eq].
  assert (0 <= lb) as Hlb0.
  { unfold push_length_bytes in Hlb. repeat case_match; simplify_eq; lia. }
  destruct (Z.eqb_spec lb 0); cbn [mbind option_bind] in Hn.
  - destruct (slice _ _ _) as [d|] eqn:Hs; cbn in Hn; [|done]. injection Hn as <- <-. cbn in Hp.
    injection Hp as <-. apply slice_len in Hs as [? ?]; [|lia]. cbn. lia.
  - destruct (slice script (at_ + 1) _) as [field|]; cbn in Hn; [|done].
    rewrite foldl_reverse_le_val in Hn. pose proof (le_val_range field).
    destruct (slice script (at_ + 1 + lb) _) as [d|] eqn:Hs; cbn in Hn; [|done]. injection Hn as <- <-. cbn in Hp.
    injection Hp as <-. apply slice_len in Hs as [? ?]; [|lia]. cbn. lia.
Qed.

Lemma script_pushes_bounds script p : p ∈ script_pushes script ->
  0 <= data_at p /\ data_at p + zlen (data p) <= zlen script.
Proof.
  unfold script_pushes, script_ops.
  assert (forall fuel at_, 0 <= at_ -> p ∈ omap push (script_ops_from fuel script at_) ->
    0 <= data_at p /\ data_at p + zlen (data p) <= zlen script) as Hgen; [|by apply (Hgen _ 0)].
  induction fuel as [|fuel IH]; intros at_ Hat; cbn [script_ops_from]; [by intros ?%not_elem_of_nil|].
  destruct (script_next script at_) as [[op next]|] eqn:Hn; [|by intros ?%not_elem_of_nil].
  pose proof (script_next_advances _ _ _ _ Hat Hn). cbn [omap list_omap].
  destruct (push op) as [q|] eqn:Hq; [|apply IH; lia].
  intros [->|Hin]%elem_of_cons; [by eapply script_next_bounds|]. eapply IH; [|exact Hin]. lia.
Qed.
