(* ===== verification/Transaction.v ===== *)
(** Transaction decoding ([core/src/bitcoin/transaction.rs]): [txid] over the
    stripped serialization, [parse_coinbase] for the transaction the pool
    rebuilds a share from, and output encoding. *)
From S2P Require Import Prelude Reader Bitcoin.

Definition TX_VERSION_SIZE : Z := 4.
Definition OUTPOINT_SIZE : Z := 32 + 4.
Definition SEQUENCE_SIZE : Z := 4.
Definition VALUE_SIZE : Z := 8.
Definition LOCK_TIME_SIZE : Z := 4.
Definition MIN_OUTPUT_SIZE : Z := VALUE_SIZE + 1.
Definition SEGWIT_MARKER_AND_FLAG : Z * Z := (0x00, 0x01).
Definition SEGWIT_MARKER_AND_FLAG_SIZE : Z := 2.
Definition NULL_OUTPOINT_INDEX : bytes := replicate 4 (zb 0xff).
Definition SEQUENCE_FINAL : bytes := replicate 4 (zb 0xff).

Definition read_version_and_marker : parser TxError (Z * bool) :=
  version ← u32 "version";
  c ← get_reader;
  let has_witness := bool_decide (peek2 c = Some SEGWIT_MARKER_AND_FLAG) in
  _ ← (if has_witness
       then advance SEGWIT_MARKER_AND_FLAG_SIZE "segwit marker and flag" else mret ());
  mret (version, has_witness).

Definition skip_witness_item (_ : unit) : parser TxError () :=
  len ← decode_compact_size; advance len "witness item".

Definition skip_witnesses (inputs : Z) : parser TxError () :=
  loop_n inputs (fun _ => items ← decode_compact_size; loop_n items skip_witness_item ()) ().

Definition read_lock_time (tx_len : Z) : parser TxError Z :=
  lock_time ← u32 "lock time";
  c ← get_reader;
  if at_end c then mret lock_time else fail (TrailingBytes (tx_len - pos c)).

Definition skip_input (_ : unit) : parser TxError () :=
  _ ← advance OUTPOINT_SIZE "outpoint";
  len ← decode_compact_size;
  _ ← advance len "scriptSig";
  advance SEQUENCE_SIZE "sequence".

Definition skip_output (_ : unit) : parser TxError () :=
  _ ← advance VALUE_SIZE "value";
  len ← decode_compact_size;
  advance len "scriptPubKey".

(** The version, the body's bounds and the lock time; the body is what the
    stripped serialization keeps between the two. *)
Definition read_txid (tx : bytes) : parser TxError (Z * Z * Z * Z) :=
  '(version, has_witness) ← read_version_and_marker;
  c ← get_reader;
  let body_start := pos c in
  inputs ← decode_compact_size;
  _ ← require (negb (inputs =? 0)) NoInputs;
  _ ← loop_n inputs skip_input ();
  outputs ← decode_compact_size;
  _ ← loop_n outputs skip_output ();
  c ← get_reader;
  let body_end := pos c in
  _ ← (if has_witness : bool then skip_witnesses inputs else mret ());
  lock_time ← read_lock_time (zlen tx);
  mret (version, body_start, body_end, lock_time).

Definition txid `{Digests} (tx : bytes) : result TxError hash32 :=
  '(version, body_start, body_end, lock_time) ← parse_all (read_txid tx) tx;
  let body := take (Z.to_nat (body_end - body_start)) (drop (Z.to_nat body_start) tx) in
  Ok (sha256d (le 4 version ++ body ++ le 4 lock_time)).

Record TxOut := { value : Z; script_pubkey : bytes }.

#[global] Instance TxOut_eq_dec : EqDecision TxOut.
Proof. solve_decision. Defined.

Record CoinbaseTx := {
  version : Z;
  script_sig_offset : Z;
  script_sig : bytes;
  sequence : Z;
  outputs : list TxOut;
  lock_time : Z;
  has_witness : bool;
}.

Definition parse_output : parser TxError TxOut :=
  value ← u64 "value";
  len ← decode_compact_size;
  script ← take_bytes len "scriptPubKey";
  mret {| value := value; script_pubkey := script |}.

Definition parse_coinbase_from (tx : bytes) : parser TxError CoinbaseTx :=
  '(version, has_witness) ← read_version_and_marker;
  n_in ← decode_compact_size;
  _ ← require (n_in =? 1) NotCoinbase;
  prevout ← take_bytes OUTPOINT_SIZE "outpoint";
  _ ← require (bool_decide (take HASH_SIZE prevout = zeros HASH_SIZE) &&
               bool_decide (drop HASH_SIZE prevout = NULL_OUTPOINT_INDEX)) InputNotNull;
  script_len ← decode_compact_size;
  c ← get_reader;
  let script_sig_offset := pos c in
  script_sig ← take_bytes script_len "scriptSig";
  sequence ← u32 "sequence";
  n_out ← decode_compact_size;
  c ← get_reader;
  _ ← require (negb (zlen (rest c) <? sat_mul 64 n_out MIN_OUTPUT_SIZE))
        (LengthOverflow "output count");
  outputs ← parse_n n_out parse_output;
  _ ← (if has_witness : bool then skip_witnesses 1 else mret ());
  lock_time ← read_lock_time (zlen tx);
  mret {| version := version; script_sig_offset := script_sig_offset;
          script_sig := script_sig; sequence := sequence; outputs := outputs;
          lock_time := lock_time; has_witness := has_witness |}.

Definition parse_coinbase (tx : bytes) : result TxError CoinbaseTx :=
  parse_all (parse_coinbase_from tx) tx.

Definition encode_output (value : Z) (script : bytes) : bytes :=
  le 8 value ++ encode_compact_size (zlen script) ++ script.

(** ** Serializations the decoders are stated against *)

Record TxIn := {
  outpoint : bytes;
  in_script : bytes;
  in_sequence : bytes;
  witness : list bytes;
}.

Record Tx := {
  tx_version : Z;
  tx_inputs : list TxIn;
  tx_outputs : list TxOut;
  tx_lock_time : Z;
}.

Definition counted (b : bytes) : bytes := encode_compact_size (zlen b) ++ b.
Definition tx_in_bytes (i : TxIn) : bytes := outpoint i ++ counted (in_script i) ++ in_sequence i.
Definition tx_out_bytes (o : TxOut) : bytes := encode_output (value o) (script_pubkey o).
Definition witness_bytes (i : TxIn) : bytes :=
  encode_compact_size (zlen (witness i)) ++ mjoin (counted <$> witness i).

(** The inputs and outputs, which both serializations hold. *)
Definition tx_body (t : Tx) : bytes :=
  encode_compact_size (zlen (tx_inputs t)) ++ mjoin (tx_in_bytes <$> tx_inputs t) ++
  encode_compact_size (zlen (tx_outputs t)) ++ mjoin (tx_out_bytes <$> tx_outputs t).

Definition tx_stripped (t : Tx) : bytes :=
  le 4 (tx_version t) ++ tx_body t ++ le 4 (tx_lock_time t).
Definition tx_with_witness (t : Tx) : bytes :=
  le 4 (tx_version t) ++ [zb 0; zb 1] ++ tx_body t ++
  mjoin (witness_bytes <$> tx_inputs t) ++ le 4 (tx_lock_time t).

Definition script_len_ok (b : bytes) : Prop := zlen b < 2 ^ 64.

Record tx_in_wf (i : TxIn) : Prop := {
  wf_outpoint : length (outpoint i) = 36%nat;
  wf_in_script : script_len_ok (in_script i);
  wf_in_sequence : length (in_sequence i) = 4%nat;
  wf_witness_count : zlen (witness i) < 2 ^ 64;
  wf_witness_items : Forall script_len_ok (witness i);
}.

Record tx_out_wf (o : TxOut) : Prop := {
  wf_value : uint 64 (value o);
  wf_script : script_len_ok (script_pubkey o);
}.

Record tx_wf (t : Tx) : Prop := {
  wf_version : uint 32 (tx_version t);
  wf_inputs : 0 < zlen (tx_inputs t) < 2 ^ 64;
  wf_tx_inputs : Forall tx_in_wf (tx_inputs t);
  wf_outputs : zlen (tx_outputs t) < 2 ^ 64;
  wf_tx_outputs : Forall tx_out_wf (tx_outputs t);
  wf_lock_time : uint 32 (tx_lock_time t);
}.

(** ** Field lemmas *)

Lemma uint_zlen {A} (l : list A) w : zlen l < 2 ^ w -> uint w (zlen l).
Proof. unfold uint. pose proof (zlen_nonneg l). lia. Qed.

Lemma loop_n_ok {E A} (p : () -> parser E ()) (enc : A -> bytes) (l : list A) f tl :
  (forall a f tl, a ∈ l -> p () (Rd f (enc a ++ tl)) = Ok ((), Rd f tl)) ->
  loop_n (zlen l) p () (Rd f (mjoin (enc <$> l) ++ tl)) = Ok ((), Rd f tl).
Proof.
  unfold loop_n. rewrite for_n_nat. unfold zlen. rewrite Nat2Z.id.
  induction l as [|x l IH]; intros Hp; cbn -[mbind mret]; [done|].
  rewrite <- app_assoc, Hp by (by left). cbn [mbind result_bind].
  apply IH. intros. apply Hp. by right.
Qed.

Lemma counted_ok (b : bytes) what f tl :
  script_len_ok b ->
  (len ← decode_compact_size; advance len what) (Rd f (counted b ++ tl)) = Ok ((), Rd f tl).
Proof.
  intros Hb. apply uint_zlen in Hb. unfold counted. rewrite <- app_assoc. parse.
  by rewrite advance_ok.
Qed.

Lemma skip_input_ok i f tl :
  tx_in_wf i -> skip_input () (Rd f (tx_in_bytes i ++ tl)) = Ok ((), Rd f tl).
Proof.
  intros []. unfold skip_input, tx_in_bytes. rewrite <- !app_assoc.
  erewrite bind_ok by (apply advance_ok; unfold zlen, OUTPOINT_SIZE; lia).
  unfold counted. rewrite <- app_assoc.
  erewrite bind_ok by (apply decode_compact_size_ok, uint_zlen; done).
  parse. rewrite advance_ok; [done|]. unfold zlen, SEQUENCE_SIZE. lia.
Qed.

Lemma skip_output_ok o f tl :
  tx_out_wf o -> skip_output () (Rd f (tx_out_bytes o ++ tl)) = Ok ((), Rd f tl).
Proof.
  intros []. unfold skip_output, tx_out_bytes, encode_output. rewrite <- !app_assoc.
  erewrite bind_ok by (apply advance_ok; unfold zlen; by rewrite length_le).
  erewrite bind_ok by (apply decode_compact_size_ok, uint_zlen; done).
  by rewrite advance_ok.
Qed.

Lemma parse_output_ok o f tl :
  tx_out_wf o -> parse_output (Rd f (tx_out_bytes o ++ tl)) = Ok (o, Rd f tl).
Proof.
  intros [? Hs]. apply uint_zlen in Hs.
  unfold parse_output, tx_out_bytes, encode_output. rewrite <- !app_assoc. parse.
  by destruct o.
Qed.

Lemma skip_witness_ok i f tl :
  tx_in_wf i ->
  (items ← decode_compact_size; loop_n items skip_witness_item ()) (Rd f (witness_bytes i ++ tl))
  = Ok ((), Rd f tl).
Proof.
  intros []. unfold witness_bytes. rewrite <- app_assoc.
  erewrite bind_ok by (apply decode_compact_size_ok, uint_zlen; done). cbn beta.
  apply loop_n_ok. intros b f' tl' Hb. apply counted_ok.
  by eapply Forall_forall in Hb.
Qed.

Lemma skip_witnesses_ok l f tl :
  Forall tx_in_wf l ->
  skip_witnesses (zlen l) (Rd f (mjoin (witness_bytes <$> l) ++ tl)) = Ok ((), Rd f tl).
Proof.
  intros Hl. apply loop_n_ok. intros i f' tl' Hi. apply skip_witness_ok.
  by eapply Forall_forall in Hi.
Qed.

Lemma read_lock_time_ok n z f :
  uint 32 z -> read_lock_time n (Rd f (le 4 z)) = Ok (z, Rd f []).
Proof.
  intros. unfold read_lock_time. rewrite <- (app_nil_r (le 4 z)).
  do 2 parse_step. done.
Qed.

(** A reader on data without the witness marker finds no witness. *)
Lemma read_version_plain_ok z f l :
  uint 32 z ->
  (exists b l', l = b :: l' /\ bz b <> 0) ->
  read_version_and_marker (Rd f (le 4 z ++ l)) = Ok ((z, false), Rd f l).
Proof.
  intros Hz (b0 & l0 & Hl & Hne). unfold read_version_and_marker. parse.
  rewrite bool_decide_eq_false_2; [done|]. unfold peek2. cbn [rest].
  subst l. destruct l0 as [|b l0]; try done. by intros [= Ha Hb].
Qed.

Lemma read_version_witness_ok z f l :
  uint 32 z ->
  read_version_and_marker (Rd f (le 4 z ++ [zb 0; zb 1] ++ l)) = Ok ((z, true), Rd f l).
Proof.
  intros Hz. unfold read_version_and_marker. parse.
  rewrite bool_decide_eq_true_2 by done.
  by erewrite bind_ok by (by apply (advance_ok _ _ _ [zb 0; zb 1])).
Qed.

Lemma encode_compact_size_head n tl :
  1 <= n -> exists b l, encode_compact_size n ++ tl = b :: l /\ bz b <> 0.
Proof.
  intros. unfold encode_compact_size. unfold_compact.
  repeat case_test; reflect_Z; eexists _, _; (split; [done|]).
  - rewrite bz_zb_small; lia.
  - done.
  - done.
  - done.
Qed.

Section txid.
Context `{Digests}.

(** What [read_txid] reads once the version and the marker are behind it. *)
Lemma read_txid_body_ok t pre wit data :
  tx_wf t ->
  data = pre ++ tx_body t ++ wit ++ le 4 (tx_lock_time t) ->
  forall (w : bool) ver,
  read_version_and_marker (new_reader data) = Ok ((ver, w), Rd data (tx_body t ++ wit ++ le 4 (tx_lock_time t))) ->
  (if w then wit = mjoin (witness_bytes <$> tx_inputs t) else wit = []) ->
  parse_all (read_txid data) data =
  Ok (ver, zlen pre, zlen pre + zlen (tx_body t), tx_lock_time t).
Proof.
  intros [] Hdata w ver Hver Hwit. unfold parse_all, read_txid.
  erewrite bind_ok by exact Hver. cbn beta iota.
  erewrite bind_ok by done. cbn beta zeta.
  unfold tx_body at 2. rewrite <- !app_assoc.
  erewrite bind_ok by (apply decode_compact_size_ok, uint_zlen; lia). cbn beta.
  rewrite (proj2 (Z.eqb_neq (zlen (tx_inputs t)) 0)) by lia.
  erewrite bind_ok by done. cbn beta.
  erewrite bind_ok; cycle 1.
  { apply loop_n_ok. intros i f tl Hi. apply skip_input_ok.
    by eapply Forall_forall in Hi. }
  cbn beta. erewrite bind_ok by (apply decode_compact_size_ok, uint_zlen; lia). cbn beta.
  erewrite bind_ok; cycle 1.
  { apply loop_n_ok. intros o f tl Ho. apply skip_output_ok.
    by eapply Forall_forall in Ho. }
  cbn beta. erewrite bind_ok by done. cbn beta.
  erewrite bind_ok; cycle 1.
  { destruct w; subst wit; [by apply skip_witnesses_ok|done]. }
  cbn beta. erewrite bind_ok by (by apply read_lock_time_ok). cbn beta.
  unfold mret, parser_ret. cbn [fmap result_fmap fst]. f_equal.
  unfold pos. cbn [full rest]. rewrite Hdata, !zlen_app. repeat f_equal; lia.
Qed.

Lemma txid_slice pre body wit : 
  take (Z.to_nat (zlen pre + zlen body - zlen pre))
    (drop (Z.to_nat (zlen pre)) (pre ++ body ++ wit)) = body :> bytes.
Proof.
  replace (zlen pre + zlen body - zlen pre) with (zlen body) by lia.
  unfold zlen. rewrite !Nat2Z.id. by rewrite drop_app_length, take_app_length.
Qed.

(** The transaction id is the double SHA-256 of the serialization without
    the witness, whichever of the two serializations the gateway sent: the
    witness is skipped, and the version, inputs, outputs and lock time are the
    ones hashed. *)
Theorem txid_stripped (t : Tx) :
  tx_wf t ->
  txid (tx_stripped t) = Ok (sha256d (tx_stripped t)) /\
  txid (tx_with_witness t) = Ok (sha256d (tx_stripped t)).
Proof.
  intros Hwf. pose proof Hwf as []. split; unfold txid.
  - rewrite (read_txid_body_ok t (le 4 (tx_version t)) [] (tx_stripped t) Hwf eq_refl
      false (tx_version t)); [|apply read_version_plain_ok; [done|]|done].
    2: { unfold tx_body. rewrite <- !app_assoc. apply encode_compact_size_head. lia. }
    cbn [mbind result_bind]. unfold tx_stripped at 1. by rewrite txid_slice.
  - rewrite (read_txid_body_ok t (le 4 (tx_version t) ++ [zb 0; zb 1])
      (mjoin (witness_bytes <$> tx_inputs t)) (tx_with_witness t) Hwf eq_refl
      true (tx_version t)); [|by apply read_version_witness_ok|done].
    cbn [mbind result_bind]. unfold tx_with_witness at 1.
    rewrite (app_assoc (le 4 _) [zb 0; zb 1]). by rewrite txid_slice.
Qed.
End txid.

(** ** Coinbase transactions *)

Definition null_outpoint : bytes := zeros HASH_SIZE ++ NULL_OUTPOINT_INDEX.

(** The coinbase transaction of one input a decode returns the fields of. *)
Definition coinbase_of (ver : Z) (script seq : bytes) (wit : list bytes)
    (outs : list TxOut) (lock : Z) : Tx :=
  {| tx_version := ver;
     tx_inputs := [{| outpoint := null_outpoint; in_script := script;
                      in_sequence := seq; witness := wit |}];
     tx_outputs := outs; tx_lock_time := lock |}.

Lemma length_mjoin_ge {A} (enc : A -> bytes) (l : list A) n :
  0 <= n -> (forall a, n <= zlen (enc a)) -> zlen l * n <= zlen (mjoin (enc <$> l)).
Proof.
  intros Hn Henc. induction l as [|x l IH]; [done|].
  rewrite join_fmap_cons, zlen_cons, zlen_app, Z.mul_add_distr_r. specialize (Henc x).
  lia.
Qed.

Lemma tx_out_bytes_min o : MIN_OUTPUT_SIZE <= zlen (tx_out_bytes o).
Proof.
  unfold tx_out_bytes, encode_output. rewrite !zlen_app.
  pose proof (zlen_encode_compact_size (zlen (script_pubkey o))).
  pose proof (zlen_nonneg (script_pubkey o)).
  replace (zlen (le 8 (value o))) with 8 by (unfold zlen; by rewrite length_le).
  unfold MIN_OUTPUT_SIZE, VALUE_SIZE. lia.
Qed.

Lemma tx_body_coinbase ver script seq wit outs lock :
  tx_body (coinbase_of ver script seq wit outs lock) =
  encode_compact_size 1 ++ null_outpoint ++ encode_compact_size (zlen script) ++ script ++ seq ++
  encode_compact_size (zlen outs) ++ mjoin (tx_out_bytes <$> outs).
Proof.
  unfold tx_body, coinbase_of. cbn [tx_inputs tx_outputs]. rewrite join_fmap_one.
  unfold tx_in_bytes, counted. cbn [outpoint in_script in_sequence].
  by rewrite <- !app_assoc.
Qed.

Lemma parse_coinbase_body_ok ver script seq wit outs lock pre w wits data :
  let t := coinbase_of ver script seq wit outs lock in
  tx_wf t ->
  data = pre ++ tx_body t ++ wits ++ le 4 lock ->
  read_version_and_marker (new_reader data) = Ok ((ver, w), Rd data (tx_body t ++ wits ++ le 4 lock)) ->
  (if w : bool then wits = mjoin (witness_bytes <$> tx_inputs t) else wits = []) ->
  parse_coinbase data =
  Ok {| version := ver;
        script_sig_offset := zlen pre + 37 + zlen (encode_compact_size (zlen script));
        script_sig := script; sequence := le_val seq;
        outputs := outs; lock_time := lock; has_witness := w |}.
Proof.
  intros t Hwf Hdata Hver Hwit.
  pose proof Hwf as [_ _ Hins Houts Houts' Hlock].
  apply Forall_cons in Hins as [[_ Hscript Hseq _ _] _].
  cbn [tx_outputs tx_lock_time t coinbase_of in_script in_sequence] in *.
  assert (pos (Rd data (script ++ seq ++ encode_compact_size (zlen outs) ++
    mjoin (tx_out_bytes <$> outs) ++ wits ++ le 4 lock)) =
    zlen pre + 37 + zlen (encode_compact_size (zlen script))) as Hpos.
  { unfold pos. cbn [full rest]. rewrite Hdata. unfold t. rewrite tx_body_coinbase, !zlen_app.
    change (zlen (encode_compact_size 1)) with 1. change (zlen null_outpoint) with 36. lia. }
  unfold parse_coinbase, parse_all, parse_coinbase_from.
  erewrite bind_ok by exact Hver. cbn beta iota.
  unfold t. rewrite tx_body_coinbase, <- !app_assoc.
  erewrite bind_ok by (by apply (decode_compact_size_ok 1)). cbn beta.
  erewrite bind_ok by (by apply require_ok). cbn beta.
  erewrite bind_ok by (by apply take_ok). cbn beta.
  erewrite bind_ok by (by apply require_ok). cbn beta.
  erewrite bind_ok by (by apply decode_compact_size_ok, uint_zlen). cbn beta.
  erewrite bind_ok by done. cbn beta zeta. rewrite Hpos.
  erewrite bind_ok by (by apply take_ok). cbn beta.
  erewrite (bind_ok (u32 _)); cycle 1.
  { unfold u32, uint_le. erewrite bind_ok by (by apply arr_ok). done. }
  cbn beta. erewrite bind_ok by (by apply decode_compact_size_ok, uint_zlen). cbn beta.
  erewrite bind_ok by done. cbn beta zeta.
  erewrite bind_ok; cycle 1.
  { apply require_ok. apply negb_true_iff, Z.ltb_ge. cbn [rest].
    etransitivity; [apply Z.le_min_l|]. rewrite zlen_app.
    etransitivity; [apply (length_mjoin_ge tx_out_bytes _ MIN_OUTPUT_SIZE);
      [done|apply tx_out_bytes_min]|]. pose proof (zlen_nonneg (wits ++ le 4 lock)). lia. }
  cbn beta. erewrite bind_ok; cycle 1.
  { apply parse_n_ok. intros o f tl Ho. apply parse_output_ok. by eapply Forall_forall in Ho. }
  cbn beta. erewrite bind_ok; cycle 1.
  { instantiate (1 := Rd data (le 4 lock)). instantiate (1 := ()).
    destruct w; rewrite Hwit; [|done]. by apply (skip_witnesses_ok (tx_inputs t)), Hwf. }
  cbn beta. erewrite bind_ok by (by apply read_lock_time_ok). done.
Qed.

(** Decoding a coinbase transaction, in either serialization, returns
    exactly its version, scriptSig, sequence, outputs and lock time, and the
    offset it reports is where the scriptSig stands in the transaction: what the
    pool reads of a reconstructed coinbase is what the gateway put there. *)
Theorem parse_coinbase_roundtrip (ver : Z) (script seq : bytes) (wit : list bytes)
    (outs : list TxOut) (lock : Z) :
  let t := coinbase_of ver script seq wit outs lock in
  tx_wf t ->
  exists off woff,
    parse_coinbase (tx_stripped t) =
      Ok {| version := ver; script_sig_offset := off; script_sig := script;
            sequence := le_val seq; outputs := outs; lock_time := lock; has_witness := false |} /\
    take (length script) (drop (Z.to_nat off) (tx_stripped t)) = script /\
    parse_coinbase (tx_with_witness t) =
      Ok {| version := ver; script_sig_offset := woff; script_sig := script;
            sequence := le_val seq; outputs := outs; lock_time := lock; has_witness := true |} /\
    take (length script) (drop (Z.to_nat woff) (tx_with_witness t)) = script.
Proof.
  intros t Hwf.
  assert (forall pre post, take (length script) (drop (Z.to_nat (zlen pre + 37 +
    zlen (encode_compact_size (zlen script)))) (pre ++ tx_body t ++ post)) = script) as Hslice.
  { intros pre post. unfold t. rewrite tx_body_coinbase, <- !app_assoc, (app_assoc pre),
      (app_assoc _ null_outpoint), (app_assoc _ (encode_compact_size (zlen script))).
    rewrite drop_length_app; [by apply take_length_app|].
    rewrite !length_app. change (length (encode_compact_size 1)) with 1%nat.
    change (length null_outpoint) with 36%nat. unfold zlen. lia. }
  eexists _, _. split_and!.
  - apply (parse_coinbase_body_ok _ _ _ wit _ _ (le 4 ver) false [] _ Hwf eq_refl); [|done].
    apply read_version_plain_ok; [apply Hwf|]. unfold tx_body. rewrite <- !app_assoc.
    apply encode_compact_size_head. done.
  - apply (Hslice (le 4 ver)).
  - apply (parse_coinbase_body_ok _ _ _ wit _ _ (le 4 ver ++ [zb 0; zb 1]) true _ _ Hwf eq_refl);
      [|done]. apply read_version_witness_ok. apply Hwf.
  - apply (Hslice (le 4 ver ++ [zb 0; zb 1])).
Qed.

(** A transaction for the witnesses: a coinbase of one 50 coin output with a
    witness reserved value. *)
(** What a parse that succeeds read: the scriptSig lies within the transaction,
    and the values are 64-bit. *)
Lemma parse_output_inv r o r2 : parse_output r = Ok (o, r2) ->
  exists b, uint 64 (value o) /\ read_between r b r2.
Proof.
  unfold parse_output. intros Hr. apply bind_inv in Hr as (v & r1 & Hv & Hr). apply u64_inv in Hv as [Hv H1].
  apply bind_inv in Hr as (len & r3 & Hl & Hr). apply decode_compact_size_inv in Hl as [Hl H3].
  apply bind_inv in Hr as (script & r4 & Hs & Hr). apply take_inv in Hs as [_ H4]; [|apply Hl].
  apply ret_inv in Hr as [<- ->]. eexists. split; [done|].
  eapply read_between_trans; [exact H1|]. by eapply read_between_trans.
Qed.

Lemma read_version_inv r v r2 : read_version_and_marker r = Ok (v, r2) -> exists b, read_between r b r2.
Proof.
  unfold read_version_and_marker. intros Hr. apply bind_inv in Hr as (ver & r1 & Hv & Hr).
  apply u32_inv in Hv as [_ H1]. apply bind_inv in Hr as (c & r3 & Hc & Hr). injection Hc as <- <-.
  apply bind_inv in Hr as (u & r4 & Hm & Hr). apply ret_inv in Hr as [_ ->].
  destruct (bool_decide _).
  - apply advance_inv in Hm as (l & _ & H2); [|done]. eexists. by eapply read_between_trans.
  - apply ret_inv in Hm as [_ ->]. by eexists.
Qed.

Lemma parse_coinbase_bounds tx c : parse_coinbase tx = Ok c ->
  0 <= script_sig_offset c /\ script_sig_offset c + zlen (script_sig c) <= zlen tx /\
  Forall (fun o => uint 64 (value o)) (outputs c).
Proof.
  unfold parse_coinbase, parse_all. destruct (parse_coinbase_from tx (new_reader tx)) as [[c0 r0]|] eqn:Hp; [|done].
  cbn. intros [= ->]. unfold parse_coinbase_from in Hp.
  apply bind_inv in Hp as ([ver wit] & r1 & Hv & Hp). apply read_version_inv in Hv as [b1 H1].
  apply bind_inv in Hp as (n_in & r2 & Hn & Hp). apply decode_compact_size_inv in Hn as [_ H2].
  apply bind_inv in Hp as (u & r3 & Hreq & Hp). apply require_inv in Hreq as [_ ->].
  apply bind_inv in Hp as (prevout & r4 & Hpre & Hp). apply take_inv in Hpre as [_ H4]; [|done].
  apply bind_inv in Hp as (u2 & r5 & Hreq & Hp). apply require_inv in Hreq as [_ ->].
  apply bind_inv in Hp as (len & r6 & Hlen & Hp). apply decode_compact_size_inv in Hlen as [Hlen H6].
  apply bind_inv in Hp as (cur & r7 & Hcur & Hp). injection Hcur as <- <-.
  apply bind_inv in Hp as (script & r8 & Hs & Hp). apply take_inv in Hs as [Hsl H8]; [|apply Hlen].
  apply bind_inv in Hp as (seq & r9 & Hseq & Hp).
  apply bind_inv in Hp as (n_out & r10 & Hno & Hp). apply decode_compact_size_inv in Hno as [Hno _].
  apply bind_inv in Hp as (cur & r11 & Hcur & Hp). injection Hcur as <- <-.
  apply bind_inv in Hp as (u3 & r12 & Hreq & Hp). apply require_inv in Hreq as [_ ->].
  apply bind_inv in Hp as (outs & r13 & Houts & Hp).
  apply (parse_n_inv _ (fun o _ => uint 64 (value o))) in Houts as (_ & bs & Hall & _);
    [|apply Hno|apply parse_output_inv].
  apply bind_inv in Hp as (u4 & r14 & Hw & Hp). apply bind_inv in Hp as (lt & r15 & Hlt & Hp).
  apply ret_inv in Hp as [<- _]. cbn [script_sig_offset script_sig outputs].
  pose proof (read_between_trans _ _ _ _ _ (read_between_trans _ _ _ _ _ (read_between_trans _ _ _ _ _ H1 H2) H4) H6)
    as [Hfull Hrest]. cbn [new_reader full rest] in Hfull, Hrest. destruct H8 as [_ H8]. unfold pos. rewrite Hfull.
  split_and!.
  - rewrite Hrest at 1. rewrite zlen_app. pose proof (zlen_nonneg ((b1 ++ encode_compact_size n_in ++ prevout) ++ encode_compact_size len)).
    rewrite <- !app_assoc in *. lia.
  - rewrite H8, zlen_app. pose proof (zlen_nonneg (rest r8)). lia.
  - clear - Hall. induction Hall; by constructor.
Qed.

Definition example_coinbase : Tx :=
  coinbase_of 2 [zb 1; zb 7] SEQUENCE_FINAL [zeros 32]
    [{| value := 5000000000; script_pubkey := [zb 0x51] |}] 99.

Lemma example_coinbase_wf : tx_wf example_coinbase.
Proof. by repeat (constructor || split). Defined.

Lemma txid_stripped_witness :
  @txid example_digests (tx_with_witness example_coinbase) =
  Ok (@sha256d example_digests (tx_stripped example_coinbase)).
Proof. apply (@txid_stripped example_digests), example_coinbase_wf. Defined.

Lemma parse_coinbase_roundtrip_witness : exists off,
  parse_coinbase (tx_stripped example_coinbase) =
  Ok {| version := 2; script_sig_offset := off; script_sig := [zb 1; zb 7];
        sequence := 0xffffffff;
        outputs := [{| value := 5000000000; script_pubkey := [zb 0x51] |}];
        lock_time := 99; has_witness := false |}.
Proof.
  destruct (parse_coinbase_roundtrip 2 [zb 1; zb 7] SEQUENCE_FINAL [zeros 32]
    [{| value := 5000000000; script_pubkey := [zb 0x51] |}] 99 example_coinbase_wf)
    as (off & _ & Hok & _). exists off. exact Hok.
Defined.
