(* ===== verification/Hex.v ===== *)
(** Text as bytes: hexadecimal as the standard library and the [hex] crate write and read
    it, slices of a string, and hashes written for display ([core/src/bitcoin.rs]). *)
From S2P Require Import Prelude Bitcoin.

(** ** Hexadecimal, as the standard library and [hex] write and read it *)

Definition hex_digit (d : Z) : byte := zb (if d <? 10 then 0x30 + d else 0x57 + d).

(** The [n] digits of [{:0n$x}] for a value they can hold. *)
Fixpoint hex_fixed (n : nat) (z : Z) : bytes :=
  match n with O => [] | S n => hex_fixed n (z / 16) ++ [hex_digit (z mod 16)] end.

Definition hex_value (b : byte) : option Z :=
  let z := bz b in
  if (0x30 <=? z) && (z <=? 0x39) then Some (z - 0x30)
  else if (0x61 <=? z) && (z <=? 0x66) then Some (z - 0x57)
  else if (0x41 <=? z) && (z <=? 0x46) then Some (z - 0x37)
  else None.

Fixpoint hex_number (acc : Z) (s : bytes) : option Z :=
  match s with [] => Some acc | b :: s => d ← hex_value b; hex_number (16 * acc + d) s end.

(** [from_str_radix(s, 16)] of a [w]-bit unsigned integer: one leading [+] is taken. *)
Definition from_str_radix16 (w : Z) (s : bytes) : option Z :=
  match s with
  | [] => None
  | b :: rest =>
    let digits := if (bz b =? 0x2b) && negb (bool_decide (rest = [])) then rest else s in
    n ← hex_number 0 digits;
    if n <? 2 ^ w then Some n else None
  end.

(** [hex::decode]: pairs of digits. *)
Fixpoint hex_decode (s : bytes) : option bytes :=
  match s with
  | [] => Some []
  | [_] => None
  | x :: y :: s =>
    hi ← hex_value x; lo ← hex_value y; l ← hex_decode s; Some (zb (16 * hi + lo) :: l)
  end.

Definition hex_encode (l : bytes) : bytes := mjoin ((fun b => hex_fixed 2 (bz b)) <$> l).

(** [str::get(a..b)]: none inside a character or past the end. *)
Definition is_char_boundary (s : bytes) (i : nat) : bool :=
  match s !! i with
  | Some b => negb ((0x80 <=? bz b) && (bz b <? 0xc0))
  | None => (i =? length s)%nat
  end.
Definition str_get (s : bytes) (a b : nat) : option bytes :=
  if (a <=? b)%nat && is_char_boundary s a && is_char_boundary s b then Some (take (b - a) (drop a s)) else None.

(** ** Hashes for display *)

Definition display_hex_bytes (s : bytes) : option bytes :=
  v ← hex_decode s; if (length v =? 32)%nat then Some v else None.
Definition hash_from_display_hex (s : bytes) : option bytes := reversed <$> display_hex_bytes s.
Definition hash_to_display_hex (v : bytes) : bytes := hex_encode (reversed v).

(** ** Round trips *)

Lemma hex_value_digit d : 0 <= d < 16 -> hex_value (hex_digit d) = Some d.
Proof.
  intros Hd. unfold hex_value, hex_digit. destruct (Z.ltb_spec d 10); rewrite bz_zb_small by lia.
  - rewrite (proj2 (Z.leb_le _ _)), (proj2 (Z.leb_le _ _)) by lia. cbn [andb]. f_equal. lia.
  - rewrite (proj2 (Z.leb_gt (0x57 + d) 0x39)), andb_false_r by lia.
    rewrite (proj2 (Z.leb_le _ _)), (proj2 (Z.leb_le _ _)) by lia. cbn [andb]. f_equal. lia.
Qed.

Lemma length_hex_fixed n z : length (hex_fixed n z) = n.
Proof. revert z. induction n as [|n IH]; intros z; [done|]. cbn. rewrite length_app, IH. cbn. lia. Qed.

Lemma hex_number_app acc s k : hex_number acc (s ++ k) = (acc2 ← hex_number acc s; hex_number acc2 k).
Proof. revert acc. induction s as [|b s IH]; intros acc; [done|]. cbn. destruct (hex_value b); [apply IH|done]. Qed.

Lemma hex_number_fixed n acc z : 0 <= z < 16 ^ Z.of_nat n -> hex_number acc (hex_fixed n z) = Some (acc * 16 ^ Z.of_nat n + z).
Proof.
  revert z. induction n as [|n IH]; intros z Hz.
  - cbn in *. f_equal. lia.
  - cbn [hex_fixed]. rewrite hex_number_app. rewrite Nat2Z.inj_succ, Z.pow_succ_r in Hz by lia.
    pose proof (Z.mod_pos_bound z 16). pose proof (Z.div_mod z 16).
    rewrite IH by (split; [apply Z.div_pos; lia|apply Z.div_lt_upper_bound; lia]).
    cbn [mbind option_bind hex_number]. rewrite hex_value_digit by lia. cbn [mbind option_bind].
    f_equal. rewrite Nat2Z.inj_succ, Z.pow_succ_r by lia. lia.
Qed.

Lemma hex_digit_ascii d : 0 <= d < 16 -> 0x30 <= bz (hex_digit d) < 0x80.
Proof. intros Hd. unfold hex_digit. destruct (Z.ltb_spec d 10); rewrite bz_zb_small by lia; lia. Qed.

Lemma hex_fixed_ascii n z : Forall (fun b => 0x30 <= bz b < 0x80) (hex_fixed n z).
Proof.
  revert z. induction n as [|n IH]; intros z; [constructor|]. cbn. apply Forall_app. split; [apply IH|].
  constructor; [|constructor]. apply hex_digit_ascii. apply Z.mod_pos_bound. lia.
Qed.

Lemma from_hex_fixed w n z : 0 <= z < 16 ^ Z.of_nat (S n) -> z < 2 ^ w -> from_str_radix16 w (hex_fixed (S n) z) = Some z.
Proof.
  intros Hz Hw. pose proof (hex_fixed_ascii (S n) z) as Ha. pose proof (hex_number_fixed (S n) 0 z Hz) as Hn.
  destruct (hex_fixed (S n) z) as [|b rest] eqn:E; [pose proof (length_hex_fixed (S n) z); by rewrite E in *|].
  unfold from_str_radix16. inversion Ha as [|? ? Hb _]; subst. rewrite (proj2 (Z.eqb_neq _ _)) by lia. cbn [andb].
  rewrite Hn. cbn. rewrite Z.add_0_l || idtac. by rewrite (proj2 (Z.ltb_lt z _)).
Qed.

(** Text of single-byte characters can be cut anywhere. *)
Lemma str_get_ascii (pre s post : bytes) : Forall (fun b => bz b < 0x80) (pre ++ s ++ post) ->
  str_get (pre ++ s ++ post) (length pre) (length pre + length s) = Some s.
Proof.
  intros Ha. assert (forall i, (i <= length (pre ++ s ++ post))%nat -> is_char_boundary (pre ++ s ++ post) i = true) as Hb.
  { intros i Hi. unfold is_char_boundary. destruct ((pre ++ s ++ post) !! i) as [b|] eqn:E.
    - apply (Forall_lookup_1 _ _ _ _ Ha) in E. apply negb_true_iff, andb_false_iff. left. apply Z.leb_gt. lia.
    - apply lookup_ge_None in E. apply Nat.eqb_eq. lia. }
  rewrite !length_app in Hb. unfold str_get. rewrite (proj2 (Nat.leb_le _ _)), !Hb by lia. cbn [andb].
  rewrite drop_app_length. by rewrite Nat.add_comm, Nat.add_sub, take_app_length.
Qed.

Lemma below_128 n z : Forall (fun b => bz b < 0x80) (hex_fixed n z).
Proof. eapply Forall_impl; [apply hex_fixed_ascii|]. cbn. lia. Qed.

Lemma hex_decode_encode l : hex_decode (hex_encode l) = Some l.
Proof.
  induction l as [|b l IH]; [done|]. unfold hex_encode in *. rewrite join_fmap_cons. set (rest := mjoin _) in *. pose proof (bz_range b) as Hb.
  pose proof (Z.mod_pos_bound (bz b) 16). pose proof (Z.mod_pos_bound (bz b / 16) 16). pose proof (Z.div_mod (bz b) 16).
  assert (bz b / 16 < 16) by (apply Z.div_lt_upper_bound; lia). assert (0 <= bz b / 16) by (apply Z.div_pos; lia).
  cbn [hex_fixed app hex_decode]. rewrite !hex_value_digit by lia. cbn [mbind option_bind]. rewrite IH. cbn [mbind option_bind].
  rewrite (Z.mod_small (bz b / 16)) by lia. f_equal. f_equal. rewrite <- (zb_bz b) at 3. f_equal. lia.
Qed.

Lemma length_hex_encode l : length (hex_encode l) = (2 * length l)%nat.
Proof. unfold hex_encode. induction l as [|b l IH]; [done|]. rewrite join_fmap_cons, length_app, IH, length_hex_fixed. cbn. lia. Qed.

(** A displayed hash is read back. *)
Lemma display_hex_back h : length h = 32%nat -> hash_from_display_hex (hash_to_display_hex h) = Some h.
Proof.
  intros Hl. unfold hash_from_display_hex, hash_to_display_hex, display_hex_bytes, reversed. rewrite hex_decode_encode. cbn.
  rewrite length_reverse, Hl. cbn. by rewrite reverse_involutive.
Qed.

(** The digits of an integer are those of its big-endian bytes. *)
Lemma hex_fixed_bytes n z : hex_fixed (2 * n) z = hex_encode (be n z).
Proof.
  revert z. induction n as [|n IH]; intros z; [done|]. replace (2 * S n)%nat with (S (S (2 * n))) by lia. cbn [hex_fixed].
  assert (be (S n) z = be n (z / 256) ++ [zb z]) as -> by (unfold be; cbn [le]; by rewrite reverse_cons).
  unfold hex_encode. rewrite fmap_app, join_app, join_fmap_one. fold (hex_encode (be n (z / 256))). rewrite <- IH, Z.div_div by lia.
  assert ((z mod 256) mod 16 = z mod 16 /\ (z mod 256) / 16 mod 16 = z / 16 mod 16) as [E1 E2] by (split; Z.div_mod_to_equations; lia).
  rewrite <- app_assoc. cbn [hex_fixed app]. by rewrite bz_zb, E1, E2.
Qed.
