(* ===== verification/Address.v ===== *)
(** Addresses and user names ([core/src/bitcoin/address.rs], [core/src/username.rs],
    [Chain] of [core/src/rpc.rs]): the script an address pays, the form of it the pool
    credits, and the address a script is shown as. Base58 and bech32 are third-party
    code: a class of their functions, with the laws of their standards. Text is its
    UTF-8 bytes. *)
From S2P Require Import Prelude Text Script.
From Stdlib Require Strings.String.
Import opcode.

(** ** The codecs *)

(** [bech32::segwit] and [bs58] with its checksum. [segwit_decode] gives the
    human-readable part in lowercase, in which [Hrp]s are compared, the witness version
    and the program; [base58check_decode] gives the payload, its version byte first. *)
Class AddressCodec := {
  segwit_decode : bytes -> option (bytes * Z * bytes);
  segwit_encode : bytes -> Z -> bytes -> option bytes;
  base58check_decode : bytes -> option bytes;
  base58check_encode : bytes -> bytes;
}.

(** What BIP 173 and the base58 alphabet promise: an address is written in one case,
    its case means nothing, and the encoder writes the lowercase form of it; a base58
    text is the encoding of the payload it decodes to. *)
Class AddressLaws `{!AddressCodec} := {
  segwit_one_case a r : segwit_decode a = Some r ->
    existsb is_ascii_uppercase a = true -> existsb is_ascii_lowercase a = false;
  segwit_any_case a : existsb is_ascii_lowercase a = false -> segwit_decode (to_ascii_lowercase a) = segwit_decode a;
  segwit_encode_decode a hrp v p : segwit_decode a = Some (hrp, v, p) ->
    segwit_encode hrp v p = Some (to_ascii_lowercase a);
  base58check_encode_decode a p : base58check_decode a = Some p -> base58check_encode p = a;
}.

(** ** Prefixes *)

Record Prefixes := { hrp : bytes; pubkey_hash : Z; script_hash : Z }.

#[export] Instance Prefixes_eq_dec : EqDecision Prefixes.
Proof. solve_decision. Defined.

Definition MAIN : Prefixes := {| hrp := text "bc"; pubkey_hash := 0; script_hash := 5 |}.
Definition TEST : Prefixes := {| hrp := text "tb"; pubkey_hash := 111; script_hash := 196 |}.
Definition REGTEST : Prefixes := {| hrp := text "bcrt"; pubkey_hash := 111; script_hash := 196 |}.
Definition EVERY_CHAIN : list Prefixes := [MAIN; TEST; REGTEST].

Definition HASH160_SIZE : Z := 20.
Definition BASE58_PAYLOAD_SIZE : Z := 1 + HASH160_SIZE.
Definition P2PKH_SIZE : Z := 25.
Definition P2SH_SIZE : Z := 23.
Definition WITNESS_V1_PROGRAM_SIZE : Z := 32.
Definition WITNESS_SCRIPT_PREFIX_SIZE : Z := 2.
Definition MAX_SCRIPT_LEN : Z := WITNESS_SCRIPT_PREFIX_SIZE + WITNESS_V1_PROGRAM_SIZE.

(** The chains the node may report ([rpc.rs]). *)
Inductive Chain := Main | Test_chain | Testnet4 | Signet | Regtest | OtherChain.

Definition address_prefixes (c : Chain) : option Prefixes :=
  match c with
  | Main => Some MAIN
  | Test_chain | Testnet4 | Signet => Some TEST
  | Regtest => Some REGTEST
  | OtherChain => None
  end.

(** [addr.get(..n)] is none inside a character, where the byte at [n] is no separator
    either. *)
Definition has_prefix (addr : bytes) (p : Prefixes) : bool :=
  let n := length (hrp p) in
  (n <=? length addr)%nat && eq_ignore_ascii_case (take n addr) (hrp p) && bool_decide (addr !! n = Some (zb 0x31)).

Definition segwit_prefixes (addr : bytes) : option Prefixes := List.find (has_prefix addr) EVERY_CHAIN.

Definition canonical (addr : bytes) : bytes :=
  if is_some (segwit_prefixes addr) && existsb is_ascii_uppercase addr && negb (existsb is_ascii_lowercase addr)
  then to_ascii_lowercase addr else addr.

Definition witness_version_opcode (version : Z) : Z := if version =? 0 then OP_0 else OP_N_BASE + version.

(** [chain.is_none_or(|c| c == *p)]. *)
Definition accepted (chain : option Prefixes) (p : Prefixes) : bool :=
  match chain with Some c => bool_decide (c = p) | None => true end.

Definition p2pkh_script (hash : bytes) : bytes :=
  [zb OP_DUP; zb OP_HASH160; zb HASH160_SIZE] ++ hash ++ [zb OP_EQUALVERIFY; zb OP_CHECKSIG].
Definition p2sh_script (hash : bytes) : bytes := [zb OP_HASH160; zb HASH160_SIZE] ++ hash ++ [zb OP_EQUAL].
Definition witness_script (v : Z) (program : bytes) : bytes :=
  [zb (witness_version_opcode v); zb (zlen program)] ++ program.

Section codec.
Context `{!AddressCodec}.

Definition segwit_output_script (addr : bytes) (p : Prefixes) : option bytes :=
  '(found_hrp, v, program) ← segwit_decode addr;
  if negb (bool_decide (found_hrp = hrp p)) then None else
  let ok := ((v =? 0) && ((zlen program =? HASH160_SIZE) || (zlen program =? WITNESS_V1_PROGRAM_SIZE)))
            || ((v =? 1) && (zlen program =? WITNESS_V1_PROGRAM_SIZE)) in
  if negb ok then None else Some (witness_script v program).

Definition carried (chain : option Prefixes) (byte_of : Prefixes -> Z) (version : Z) : bool :=
  existsb (fun p => accepted chain p && (byte_of p =? version)) EVERY_CHAIN.

Definition base58_output_script (addr : bytes) (chain : option Prefixes) : option bytes :=
  decoded ← base58check_decode addr;
  if negb (zlen decoded =? BASE58_PAYLOAD_SIZE) then None else
  match decoded with
  | [] => None
  | version :: hash =>
    if carried chain pubkey_hash (bz version) then Some (p2pkh_script hash)
    else if carried chain script_hash (bz version) then Some (p2sh_script hash)
    else None
  end.

Definition to_output_script (addr : bytes) (chain : option Prefixes) : option bytes :=
  if negb ((16 <=? zlen addr) && (zlen addr <? 128)) then None else
  match segwit_prefixes addr with
  | Some p => if negb (accepted chain p) then None else segwit_output_script addr p
  | None => base58_output_script addr chain
  end.

Definition is_valid (addr : bytes) (chain : option Prefixes) : bool := is_some (to_output_script addr chain).

(** [&script[a..b]]. *)
Definition part (script : bytes) (a b : Z) : bytes := take (Z.to_nat (b - a)) (drop (Z.to_nat a) script).
Definition at_is (script : bytes) (i op : Z) : bool := bool_decide (script !! Z.to_nat i = Some (zb op)).

Definition output_script_to_display (script : bytes) : bytes :=
  if at_is script 0 OP_RETURN then text "OP_RETURN" else
  if (zlen script =? P2SH_SIZE) && at_is script 0 OP_HASH160 && at_is script 1 HASH160_SIZE
     && at_is script (P2SH_SIZE - 1) OP_EQUAL
  then base58check_encode (zb (script_hash MAIN) :: part script 2 (2 + HASH160_SIZE)) else
  if (zlen script =? P2PKH_SIZE)
     && bool_decide (part script 0 3 = [zb OP_DUP; zb OP_HASH160; zb HASH160_SIZE])
     && bool_decide (part script (3 + HASH160_SIZE) P2PKH_SIZE = [zb OP_EQUALVERIFY; zb OP_CHECKSIG])
  then base58check_encode (zb (pubkey_hash MAIN) :: part script 3 (3 + HASH160_SIZE)) else
  match script with
  | op :: n :: program =>
    let len := bz n in
    if (WITNESS_SCRIPT_PREFIX_SIZE + 2 <=? zlen script)
       && ((bz op =? OP_0) || ((OP_1 <=? bz op) && (bz op <=? OP_16)))
       && ((2 <=? len) && (len <=? 40)) && (zlen script =? WITNESS_SCRIPT_PREFIX_SIZE + len)
    then default (text "UNKNOWN")
           (segwit_encode (hrp MAIN) (if bz op =? OP_0 then 0 else bz op - OP_N_BASE) program)
    else text "UNKNOWN"
  | _ => text "UNKNOWN"
  end.

End codec.

(** ** User names *)

Definition split_address_worker (username : bytes) : bytes * bytes :=
  match position (fun b => bz b =? 0x2e) username with
  | Some i => (take i username, drop i username)
  | None => (username, [])
  end.
Definition address_of (username : bytes) : bytes := (split_address_worker username).1.
Definition identity_of (username : bytes) : bytes := canonical (address_of username).

(** ** Case *)

Lemma lower_byte_not_upper b : is_ascii_uppercase (byte_to_ascii_lowercase b) = false.
Proof. by destruct b. Qed.

Lemma lower_byte_same b : is_ascii_uppercase b = false -> byte_to_ascii_lowercase b = b.
Proof. unfold byte_to_ascii_lowercase. by intros ->. Qed.

Lemma lower_byte_one b : byte_to_ascii_lowercase b = zb 0x31 <-> b = zb 0x31.
Proof. by destruct b. Qed.

Lemma lower_not_upper s : existsb is_ascii_uppercase (to_ascii_lowercase s) = false.
Proof. unfold to_ascii_lowercase. induction s as [|b s IH]; [done|]. cbn. by rewrite lower_byte_not_upper, IH. Qed.

Lemma lower_same s : existsb is_ascii_uppercase s = false -> to_ascii_lowercase s = s.
Proof.
  unfold to_ascii_lowercase. induction s as [|b s IH]; [done|]. cbn. intros [Hb Hs]%orb_false_iff.
  by rewrite lower_byte_same, IH.
Qed.

Lemma lower_idemp s : to_ascii_lowercase (to_ascii_lowercase s) = to_ascii_lowercase s.
Proof. apply lower_same, lower_not_upper. Qed.

Lemma has_prefix_lower addr p : has_prefix (to_ascii_lowercase addr) p = has_prefix addr p.
Proof.
  unfold has_prefix, eq_ignore_ascii_case, to_ascii_lowercase. rewrite length_fmap, <- fmap_take.
  fold (to_ascii_lowercase (take (length (hrp p)) addr)). fold (to_ascii_lowercase (to_ascii_lowercase (take (length (hrp p)) addr))).
  rewrite lower_idemp. f_equal. apply bool_decide_ext. rewrite list_lookup_fmap.
  destruct (addr !! _) as [b|]; cbn; [|done]. split; intros [= Hb]; f_equal; [by apply lower_byte_one|]. by rewrite Hb.
Qed.

Lemma segwit_prefixes_lower addr : segwit_prefixes (to_ascii_lowercase addr) = segwit_prefixes addr.
Proof. unfold segwit_prefixes, EVERY_CHAIN. cbn [List.find]. by rewrite !has_prefix_lower. Qed.

Lemma canonical_base58 addr : segwit_prefixes addr = None -> canonical addr = addr.
Proof. unfold canonical. by intros ->. Qed.

Lemma canonical_idemp addr : canonical (canonical addr) = canonical addr.
Proof.
  unfold canonical at 2 3. destruct (_ && _) eqn:E; [|unfold canonical; by rewrite E].
  unfold canonical. by rewrite lower_not_upper, andb_false_r.
Qed.

(** ** The script an address pays *)

Section laws.
Context `{!AddressCodec, !AddressLaws}.

Lemma canonical_segwit addr r : is_some (segwit_prefixes addr) = true -> segwit_decode addr = Some r ->
  canonical addr = to_ascii_lowercase addr.
Proof.
  intros Hp Hd. unfold canonical. rewrite Hp. cbn [andb]. destruct (existsb is_ascii_uppercase addr) eqn:Eu; cbn [andb].
  - by rewrite (segwit_one_case _ _ Hd Eu).
  - symmetry. by apply lower_same.
Qed.

(** What an address in canonical form pays, on a chain. *)
Inductive address_form (c : Prefixes) : bytes -> bytes -> Prop :=
| form_key_hash hash : zlen hash = HASH160_SIZE ->
    address_form c (base58check_encode (zb (pubkey_hash c) :: hash)) (p2pkh_script hash)
| form_script_hash hash : zlen hash = HASH160_SIZE ->
    address_form c (base58check_encode (zb (script_hash c) :: hash)) (p2sh_script hash)
| form_witness v program addr : (v = 0 /\ zlen program = HASH160_SIZE) \/ ((v = 0 \/ v = 1) /\ zlen program = WITNESS_V1_PROGRAM_SIZE) ->
    segwit_encode (hrp c) v program = Some addr -> address_form c addr (witness_script v program).

Lemma carried_by chain byte_of v : carried chain byte_of v = true -> exists c, accepted chain c = true /\ byte_of c = v.
Proof.
  unfold carried. rewrite existsb_exists. intros (c & _ & [Ha Hv]%andb_true_iff). exists c. by rewrite Z.eqb_eq in Hv.
Qed.

Lemma to_output_script_form chain addr s : to_output_script addr chain = Some s ->
  exists c, accepted chain c = true /\ address_form c (canonical addr) s.
Proof.
  unfold to_output_script. destruct (negb _); [done|]. destruct (segwit_prefixes addr) as [p|] eqn:Ep.
  - destruct (accepted chain p) eqn:Ea; [|done]. cbn [negb]. intros Hs. exists p. split; [done|].
    unfold segwit_output_script in Hs. destruct (segwit_decode addr) as [[[h v] program]|] eqn:Ed; [|done]. cbn [mbind option_bind] in Hs.
    destruct (bool_decide (h = hrp p)) eqn:Eh; [|done]. apply bool_decide_eq_true_1 in Eh as ->. cbn [negb] in Hs.
    destruct (_ || _) eqn:Eok in Hs; [|done]. injection Hs as <-.
    rewrite (canonical_segwit _ _ ltac:(by rewrite Ep) Ed). apply form_witness; [|by apply segwit_encode_decode].
    apply orb_true_iff in Eok as [[Hv [Hl|Hl]%orb_true_iff]%andb_true_iff|[Hv Hl]%andb_true_iff]; apply Z.eqb_eq in Hl, Hv; auto.
  - unfold base58_output_script. rewrite (canonical_base58 _ Ep). destruct (base58check_decode addr) as [d|] eqn:Ed; [|done].
    cbn [mbind option_bind]. apply base58check_encode_decode in Ed. subst addr.
    destruct (zlen d =? BASE58_PAYLOAD_SIZE) eqn:El; [|done]. apply Z.eqb_eq in El. cbn [negb]. destruct d as [|b h]; [done|].
    rewrite zlen_cons in El. unfold BASE58_PAYLOAD_SIZE in El.
    destruct (carried chain pubkey_hash (bz b)) eqn:E1; [|destruct (carried chain script_hash (bz b)) eqn:E2; [|done]].
    + intros [= <-]. apply carried_by in E1 as (c & Hc & Eb). exists c. split; [done|].
      rewrite <- (zb_bz b), <- Eb. apply form_key_hash. lia.
    + intros [= <-]. apply carried_by in E2 as (c & Hc & Eb). exists c. split; [done|].
      rewrite <- (zb_bz b), <- Eb. apply form_script_hash. lia.
Qed.

Lemma to_output_script_on c addr s : to_output_script addr (Some c) = Some s -> address_form c (canonical addr) s.
Proof.
  intros (c2 & Hc & Hf)%to_output_script_form. unfold accepted in Hc. by apply bool_decide_eq_true_1 in Hc as <-.
Qed.

Lemma witness_script_inj v v' p p' : (v = 0 \/ v = 1) -> (v' = 0 \/ v' = 1) -> witness_script v p = witness_script v' p' ->
  v = v' /\ p = p'.
Proof. intros [->| ->] [->| ->]; cbn; intros [= _ ->]; try done. Qed.

Lemma witness_version_small v (p : bytes) : (v = 0 /\ zlen p = HASH160_SIZE) \/ ((v = 0 \/ v = 1) /\ zlen p = WITNESS_V1_PROGRAM_SIZE) ->
  v = 0 \/ v = 1.
Proof. intuition. Qed.

Lemma address_form_inj c a b s s' : address_form c a s -> address_form c b s' -> s = s' -> a = b.
Proof.
  assert (forall x y : bytes, x = y -> head x = head y) as Hhead by (by intros x y ->).
  intros Ha Hb E2. destruct Ha as [h Hl|h Hl|v p x Hv He]; destruct Hb as [h' Hl'|h' Hl'|v' p' x' Hv' He'];
    pose proof (Hhead _ _ E2) as Hop;
    repeat match goal with H : (_ /\ zlen _ = HASH160_SIZE) \/ _ |- _ => pose proof (witness_version_small _ _ H); clear H end;
    try (exfalso; repeat match goal with H : _ \/ _ |- _ => destruct H as [->| ->] end; vm_compute in Hop; discriminate).
  - apply app_inv_head, app_inv_tail in E2. by subst h'.
  - apply app_inv_head, app_inv_tail in E2. by subst h'.
  - apply witness_script_inj in E2 as [-> ->]; [congruence|done..].
Qed.

Lemma address_form_valid c a s : address_form c a s -> 22 <= zlen s <= MAX_SCRIPT_LEN /\ output_script_size_is_valid s = true.
Proof.
  assert (forall op tl, 22 <= zlen (op :: tl) <= MAX_SCRIPT_LEN ->
    22 <= zlen (op :: tl) <= MAX_SCRIPT_LEN /\ output_script_size_is_valid (op :: tl) = true) as Hval.
  { intros op tl Hl. split; [done|]. unfold output_script_size_is_valid.
    apply Z.leb_le. unfold MAX_SCRIPT_LEN, WITNESS_SCRIPT_PREFIX_SIZE, WITNESS_V1_PROGRAM_SIZE in Hl.
    unfold MAX_OUTPUT_DATA_SIZE, MAX_OUTPUT_SCRIPT_SIZE. case_test; lia. }
  intros [h Hl|h Hl|v p x Hv _]; apply Hval; cbn [app]; rewrite ?zlen_cons, ?zlen_app, ?zlen_cons, ?zlen_nil;
    unfold MAX_SCRIPT_LEN, WITNESS_SCRIPT_PREFIX_SIZE, WITNESS_V1_PROGRAM_SIZE, HASH160_SIZE in *; lia.
Qed.

(** An uppercase address pays what its canonical form pays. *)
Lemma canonical_pays addr chain s : to_output_script addr chain = Some s -> to_output_script (canonical addr) chain = Some s.
Proof.
  unfold canonical. destruct (_ && _) eqn:E; [|done]. apply andb_true_iff in E as [[Hp _]%andb_true_iff Hl].
  apply negb_true_iff in Hl. unfold to_output_script. rewrite segwit_prefixes_lower.
  unfold segwit_output_script. rewrite segwit_any_case by done.
  assert (zlen (to_ascii_lowercase addr) = zlen addr) as -> by (unfold zlen, to_ascii_lowercase; by rewrite length_fmap).
  by destruct (segwit_prefixes addr).
Qed.

(** C15: On a chain the node named, an identity is a script. Two addresses the pool can
    pay are credited to one identity exactly when they pay one script: the two cases of
    a segwit address are one miner and nothing else is. The identity pays the script of
    the address as the miner wrote it, and it is short enough for the rules of
    reduced_data and for the message that dictates it. *)
Theorem identity_is_script (c : Prefixes) (a b s s' : bytes) :
  to_output_script a (Some c) = Some s -> to_output_script b (Some c) = Some s' ->
  to_output_script (canonical a) (Some c) = Some s /\
  (canonical a = canonical b <-> s = s') /\
  zlen s <= MAX_SCRIPT_LEN /\ output_script_size_is_valid s = true.
Proof.
  intros Ha Hb. split; [by apply canonical_pays|]. split; [|apply to_output_script_on, address_form_valid in Ha; intuition lia].
  split; [|apply address_form_inj with c; by apply to_output_script_on].
  intros Hc. apply canonical_pays in Ha, Hb. rewrite Hc in Ha. congruence.
Qed.

(** ** The address a script is shown as *)

Lemma part_app (pre l tl : bytes) a b : zlen pre = a -> zlen pre + zlen l = b -> part (pre ++ l ++ tl) a b = l.
Proof.
  intros <- <-. unfold part, zlen. rewrite Nat2Z.id, drop_app_length.
  replace (Z.to_nat _) with (length l) by lia. apply take_app_length.
Qed.

Lemma show_p2pkh hash : zlen hash = HASH160_SIZE ->
  output_script_to_display (p2pkh_script hash) = base58check_encode (zb (pubkey_hash MAIN) :: hash).
Proof.
  intros Hl. unfold output_script_to_display. change (at_is (p2pkh_script hash) 0 OP_RETURN) with false. cbn iota.
  assert (zlen (p2pkh_script hash) = P2PKH_SIZE) as -> by
    (unfold p2pkh_script; rewrite !zlen_app, Hl; reflexivity).
  change (P2PKH_SIZE =? P2SH_SIZE) with false. change (P2PKH_SIZE =? P2PKH_SIZE) with true. cbn [andb].
  change (part (p2pkh_script hash) 0 3) with [zb OP_DUP; zb OP_HASH160; zb HASH160_SIZE]. rewrite bool_decide_eq_true_2 by done.
  unfold p2pkh_script.
  rewrite (part_app [zb OP_DUP; zb OP_HASH160; zb HASH160_SIZE] hash _ 3 (3 + HASH160_SIZE)) by (rewrite ?Hl; reflexivity).
  rewrite app_assoc, <- (app_nil_r ((_ ++ hash) ++ _)), <- app_assoc,
    (part_app _ [zb OP_EQUALVERIFY; zb OP_CHECKSIG] []) by (rewrite !zlen_app, Hl; reflexivity).
  by rewrite bool_decide_eq_true_2.
Qed.

Lemma show_p2sh hash : zlen hash = HASH160_SIZE ->
  output_script_to_display (p2sh_script hash) = base58check_encode (zb (script_hash MAIN) :: hash).
Proof.
  intros Hl. unfold output_script_to_display. change (at_is (p2sh_script hash) 0 OP_RETURN) with false. cbn iota.
  assert (zlen (p2sh_script hash) = P2SH_SIZE) as -> by (unfold p2sh_script; rewrite !zlen_app, Hl; reflexivity).
  change (P2SH_SIZE =? P2SH_SIZE) with true. change (at_is (p2sh_script hash) 0 OP_HASH160) with true.
  change (at_is (p2sh_script hash) 1 HASH160_SIZE) with true. cbn [andb].
  assert (at_is (p2sh_script hash) (P2SH_SIZE - 1) OP_EQUAL = true) as ->.
  { unfold at_is, p2sh_script. apply bool_decide_eq_true_2. rewrite app_assoc, lookup_app_r.
    - rewrite length_app. unfold zlen in Hl. replace (length hash) with 20%nat by (unfold HASH160_SIZE in Hl; lia). reflexivity.
    - rewrite length_app. unfold zlen, HASH160_SIZE in Hl. cbn [length]. unfold P2SH_SIZE. lia. }
  unfold p2sh_script. by rewrite (part_app [zb OP_HASH160; zb HASH160_SIZE] hash _ 2 (2 + HASH160_SIZE)) by (rewrite ?Hl; reflexivity).
Qed.

Lemma show_witness v program addr :
  (v = 0 /\ zlen program = HASH160_SIZE) \/ ((v = 0 \/ v = 1) /\ zlen program = WITNESS_V1_PROGRAM_SIZE) ->
  segwit_encode (hrp MAIN) v program = Some addr -> output_script_to_display (witness_script v program) = addr.
Proof.
  intros Hv He. pose proof (witness_version_small _ _ Hv) as Hv1.
  assert (zlen program = 20 \/ zlen program = 32) as Hl by (unfold HASH160_SIZE, WITNESS_V1_PROGRAM_SIZE in Hv; lia).
  assert (bz (zb (zlen program)) = zlen program) as Hn by (apply bz_zb_small; lia).
  unfold output_script_to_display.
  assert (zlen (witness_script v program) = 2 + zlen program) as -> by (unfold witness_script; by rewrite zlen_app).
  assert (at_is (witness_script v program) 0 OP_RETURN = false) as -> by (by destruct Hv1 as [->| ->]).
  assert (at_is (witness_script v program) 0 OP_HASH160 = false) as -> by (by destruct Hv1 as [->| ->]).
  rewrite andb_false_r. cbn [andb].
  rewrite (proj2 (Z.eqb_neq (2 + zlen program) P2PKH_SIZE)) by (unfold P2PKH_SIZE; lia). cbn [andb].
  unfold witness_script. cbn [app]. rewrite Hn.
  rewrite (proj2 (Z.leb_le (WITNESS_SCRIPT_PREFIX_SIZE + 2) _)) by (unfold WITNESS_SCRIPT_PREFIX_SIZE; lia).
  unfold WITNESS_SCRIPT_PREFIX_SIZE. rewrite (proj2 (Z.leb_le 2 _)), (proj2 (Z.leb_le _ 40)), Z.eqb_refl by lia.
  destruct Hv1 as [->| ->]; cbn [andb orb witness_version_opcode].
  - change (bz (zb (witness_version_opcode 0)) =? OP_0) with true. cbn [andb orb]. cbn iota. by rewrite He.
  - change (bz (zb (witness_version_opcode 1)) =? OP_0) with false.
    change ((OP_1 <=? bz (zb (witness_version_opcode 1))) && (bz (zb (witness_version_opcode 1)) <=? OP_16)) with true.
    change (bz (zb (witness_version_opcode 1)) - OP_N_BASE) with 1. cbn [andb orb]. cbn iota. by rewrite He.
Qed.

(** The page shows a main-chain miner's script as the identity it is credited under. *)
Theorem displayed_script_is_identity (a s : bytes) :
  to_output_script a (Some MAIN) = Some s -> output_script_to_display s = canonical a.
Proof.
  intros Ha. apply to_output_script_on in Ha as [h Hl|h Hl|v p x Hv He];
    [by apply show_p2pkh|by apply show_p2sh|by apply show_witness].
Qed.

End laws.

(** ** User names *)

Lemma split_address_worker_joins username :
  (split_address_worker username).1 ++ (split_address_worker username).2 = username.
Proof. unfold split_address_worker. destruct (position _ _); [apply take_drop|apply app_nil_r]. Qed.

Lemma address_has_no_dot username : zb 0x2e ∉ address_of username.
Proof.
  unfold address_of, split_address_worker. destruct (position _ username) as [i|] eqn:E; cbn.
  - apply position_Some in E as (x & _ & _ & Hbefore). intros Hin. rewrite Forall_forall in Hbefore. by apply Hbefore in Hin.
  - apply position_None in E. rewrite Forall_forall in E. intros Hin. by apply E in Hin.
Qed.

(** ** An example: a codec that writes each byte as two letters *)

Fixpoint letters (base : Z) (l : bytes) : bytes :=
  match l with [] => [] | b :: l => zb (base + bz b / 16) :: zb (base + bz b mod 16) :: letters base l end.
Fixpoint read_letters (base : Z) (l : bytes) : option bytes :=
  match l with
  | [] => Some []
  | [_] => None
  | x :: y :: l =>
    let '(hi, lo) := (bz x - base, bz y - base) in
    if (0 <=? hi) && (hi <? 16) && ((0 <=? lo) && (lo <? 16)) then (fun r => zb (16 * hi + lo) :: r) <$> read_letters base l else None
  end.

Lemma letters_read base n : forall l p, (length l <= n)%nat -> read_letters base l = Some p -> letters base p = l.
Proof.
  induction n as [|n IH]; intros [|x [|y l]] p Hn; cbn [length] in Hn; try lia; cbn [read_letters]; try (by intros [= <-]); try done.
  destruct (_ && _) eqn:E; [|done]. reflect_Z. destruct (read_letters base l) as [q|] eqn:Eq; [|done]. cbn. intros [= <-].
  cbn [letters]. pose proof (bz_range x). pose proof (bz_range y).
  rewrite (IH l q) by (done || lia). rewrite bz_zb_small by lia. f_equal; [|f_equal].
  - replace ((16 * (bz x - base) + (bz y - base)) / 16) with (bz x - base) by (Z.div_mod_to_equations; lia). rewrite <- (zb_bz x) at 2. f_equal. ring.
  - replace ((16 * (bz x - base) + (bz y - base)) mod 16) with (bz y - base) by (Z.div_mod_to_equations; lia). rewrite <- (zb_bz y) at 2. f_equal. ring.
Qed.

#[local] Instance letter_codec : AddressCodec := {|
  segwit_decode a :=
    if existsb is_ascii_uppercase a && existsb is_ascii_lowercase a then None else
    match to_ascii_lowercase a with
    | b :: c :: one :: v :: l =>
      if bool_decide ([b; c; one] = text "bc1") then (fun p => (text "bc", bz v - 0x61, p)) <$> read_letters 0x61 l else None
    | _ => None
    end;
  segwit_encode h v p := Some (h ++ text "1" ++ [zb (v + 0x61)] ++ letters 0x61 p);
  base58check_decode a := read_letters 0x41 a;
  base58check_encode p := letters 0x41 p;
|}.

#[local] Instance letter_laws : AddressLaws.
Proof.
  assert (forall a p, read_letters 0x61 a = Some p -> letters 0x61 p = a) as H61 by (intros; by eapply letters_read).
  split; cbn.
  - intros a r. destruct (existsb is_ascii_uppercase a), (existsb is_ascii_lowercase a); done.
  - intros a Ha. rewrite Ha, lower_not_upper, andb_false_r, lower_idemp. done.
  - intros a h v p. destruct (_ && _); [done|]. destruct (to_ascii_lowercase a) as [|b [|c [|one [|x l]]]]; try done.
    case_bool_decide as Eb; [|done]. destruct (read_letters 0x61 l) as [q|] eqn:Eq; [|done]. cbn. intros [= <- <- <-].
    f_equal. rewrite (H61 _ _ Eq). replace (bz x - 97 + 97) with (bz x) by lia. rewrite zb_bz.
    change (text "bc1") with (text "bc" ++ text "1") in Eb. injection Eb as -> -> ->. done.
  - intros a p Hp. by eapply letters_read.
Qed.

(** One miner's address in both cases, and a base58 address of another. *)
Definition example_lower : bytes := text "bc1a" ++ letters 0x61 (replicate 20 (zb 0x5a)).
Definition example_upper : bytes := text "BC1A" ++ letters 0x41 (replicate 20 (zb 0x5a)).
Definition example_base58 : bytes := letters 0x41 (replicate 21 (zb 5)).

Lemma identity_is_script_witness : exists s s',
  to_output_script example_upper (Some MAIN) = Some s /\ to_output_script example_base58 (Some MAIN) = Some s' /\
  identity_of (example_upper ++ text ".RIG1") = example_lower /\
  (canonical example_upper = canonical example_lower) /\ canonical example_upper <> canonical example_base58.
Proof.
  eexists _, _. split; [vm_compute; reflexivity|]. split; [vm_compute; reflexivity|]. split; [vm_compute; reflexivity|].
  split.
  - edestruct (identity_is_script MAIN example_upper example_lower) as (_ & [_ Hc] & _); [vm_compute; reflexivity..|].
    apply Hc. reflexivity.
  - edestruct (identity_is_script MAIN example_upper example_base58) as (_ & [Hc _] & _); [vm_compute; reflexivity..|].
    intros H%Hc. vm_compute in H. discriminate H.
Defined.
