(* ===== verification/Framing.v ===== *)
(** The frame header and its masking ratchet, the nonces of a session
    ([core/src/datum/framing.rs]): the 32-bit header word, the [feedback] mix
    both sides advance their header keys with, and the 192-bit nonce counter. *)
From S2P Require Import Prelude.

Definition HEADER_LEN : nat := 4.
Definition CMD_LEN_BITS : Z := 22.
Definition CMD_LEN_MASK : Z := Z.shiftl 1 CMD_LEN_BITS - 1.
Definition MAX_CMD_LEN : Z := CMD_LEN_MASK.
Definition INITIAL_HEADER_KEY : Z := 0xDC871829.
Definition NONCE_LEN : nat := 24.
Definition WORD_SIZE : nat := 4.
Definition NONCE_SEED_AT : nat := 7.
Definition NONCE_STEP : Z := 42.
Definition SENDER_MASK : Z := 0x57575757.

Module cmd.
Definition HELLO_OR_PING : Z := 1.
Definition HANDSHAKE_RESPONSE : Z := 2.
Definition MINING : Z := 5.
Definition BULK : Z := 6.
Definition INFO : Z := 7.
End cmd.

Definition RESERVED_SHIFT : Z := CMD_LEN_BITS.
Definition RESERVED_MASK : Z := 0x3.
Definition SIGNED_BIT : Z := 24.
Definition ENCRYPTED_PUBKEY_BIT : Z := 25.
Definition ENCRYPTED_CHANNEL_BIT : Z := 26.
Definition PROTO_CMD_SHIFT : Z := 27.
Definition PROTO_CMD_MASK : Z := 0x1f.

Record FrameHeader := {
  cmd_len : Z;
  reserved : Z;
  is_signed : bool;
  is_encrypted_pubkey : bool;
  is_encrypted_channel : bool;
  proto_cmd : Z;
}.

#[global] Instance FrameHeader_eq_dec : EqDecision FrameHeader.
Proof. solve_decision. Defined.

Definition FrameHeader_default : FrameHeader :=
  {| cmd_len := 0; reserved := 0; is_signed := false; is_encrypted_pubkey := false;
     is_encrypted_channel := false; proto_cmd := 0 |}.

(** The header with a body's length: [FrameHeader { cmd_len, ..header }]. *)
Definition with_cmd_len (len : Z) (h : FrameHeader) : FrameHeader :=
  {| cmd_len := len; reserved := reserved h; is_signed := is_signed h;
     is_encrypted_pubkey := is_encrypted_pubkey h;
     is_encrypted_channel := is_encrypted_channel h; proto_cmd := proto_cmd h |}.

(** The header word before it is laid out in bytes. *)
Definition header_word (h : FrameHeader) : Z :=
  Z.lor (Z.lor (Z.lor (Z.lor (Z.lor
    (Z.land (cmd_len h) CMD_LEN_MASK)
    (Z.shiftl (Z.land (reserved h) RESERVED_MASK) RESERVED_SHIFT))
    (Z.shiftl (Z.b2z (is_signed h)) SIGNED_BIT))
    (Z.shiftl (Z.b2z (is_encrypted_pubkey h)) ENCRYPTED_PUBKEY_BIT))
    (Z.shiftl (Z.b2z (is_encrypted_channel h)) ENCRYPTED_CHANNEL_BIT))
    (Z.shiftl (Z.land (proto_cmd h) PROTO_CMD_MASK) PROTO_CMD_SHIFT).

Definition to_bytes (h : FrameHeader) : bytes := le HEADER_LEN (header_word h).

Definition from_bytes (b : bytes) : FrameHeader :=
  let v := le_val b in
  {| cmd_len := Z.land v CMD_LEN_MASK;
     reserved := Z.land (Z.shiftr v RESERVED_SHIFT) RESERVED_MASK;
     is_signed := has_bits v (Z.shiftl 1 SIGNED_BIT);
     is_encrypted_pubkey := has_bits v (Z.shiftl 1 ENCRYPTED_PUBKEY_BIT);
     is_encrypted_channel := has_bits v (Z.shiftl 1 ENCRYPTED_CHANNEL_BIT);
     proto_cmd := Z.land (Z.shiftr v PROTO_CMD_SHIFT) PROTO_CMD_MASK |}.

(** MurmurHash3's mix of one word. *)
Definition feedback (i : Z) : Z :=
  let h := 0xb10cfeed in
  let k := i in
  let k := wrap 32 (k * 0xcc9e2d51) in
  let k := rotl 32 k 15 in
  let k := wrap 32 (k * 0x1b873593) in
  let h := Z.lxor h k in
  let h := rotl 32 h 13 in
  let h := wrap 32 (wrap 32 (h * 5) + 0xe6546b64) in
  let h := Z.lxor h 4 in
  let h := Z.lxor h (Z.shiftr h 16) in
  let h := wrap 32 (h * 0x85ebca6b) in
  let h := Z.lxor h (Z.shiftr h 13) in
  let h := wrap 32 (h * 0xc2b2ae35) in
  let h := Z.lxor h (Z.shiftr h 16) in
  h.

Record HeaderKeyRatchet := { key : Z }.

Definition ratchet_initial : HeaderKeyRatchet := {| key := INITIAL_HEADER_KEY |}.

(** [mask] and [unmask] return the ratchet advanced past the header. *)
Definition mask (r : HeaderKeyRatchet) (h : FrameHeader) : bytes * HeaderKeyRatchet :=
  let v := Z.lxor (le_val (to_bytes h)) (key r) in
  (le HEADER_LEN v, {| key := feedback (key r) |}).

Definition unmask (r : HeaderKeyRatchet) (b : bytes) : FrameHeader * HeaderKeyRatchet :=
  let v := Z.lxor (le_val b) (key r) in
  (from_bytes (le HEADER_LEN v), {| key := feedback (key r) |}).

Record HeaderKeys := { client_to_server : Z; server_to_client : Z }.

Definition header_keys_from_nk (nk : Z) : HeaderKeys :=
  {| client_to_server := feedback nk; server_to_client := feedback (lnot 32 nk) |}.

Record SessionNonces := { client_receiver : bytes; client_sender : bytes }.

(** The words of the two nonces, from [n] on. *)
Fixpoint derive_words (words : nat) (n : Z) : bytes * bytes :=
  match words with
  | O => ([], [])
  | S words =>
    let r := feedback (wrap 32 (n - NONCE_STEP)) in
    let '(receiver, sender) := derive_words words (lnot 32 r) in
    (le WORD_SIZE r ++ receiver, le WORD_SIZE (Z.lxor r SENDER_MASK) ++ sender)
  end.

Definition derive (nk : Z) (session_sign_pk : bytes) : SessionNonces :=
  let seed := take WORD_SIZE (drop NONCE_SEED_AT session_sign_pk) in
  let n := Z.lxor (wrap 32 (nk - NONCE_STEP)) (le_val seed) in
  let '(receiver, sender) := derive_words (NONCE_LEN / WORD_SIZE) n in
  {| client_receiver := receiver; client_sender := sender |}.

(** The carry through the words of a nonce. *)
Fixpoint increment_words (words : nat) (nonce : bytes) : bytes :=
  match words with
  | O => nonce
  | S words =>
    let raised := wrap 32 (le_val (take WORD_SIZE nonce) + 1) in
    le WORD_SIZE raised ++
    (if negb (raised =? 0) then drop WORD_SIZE nonce
     else increment_words words (drop WORD_SIZE nonce))
  end.

Definition increment_nonce (nonce : bytes) : bytes :=
  increment_words (NONCE_LEN / WORD_SIZE) nonce.

(** ** The header word *)

Record frame_header_wf (h : FrameHeader) : Prop := {
  wf_cmd_len : uint CMD_LEN_BITS (cmd_len h);
  wf_reserved : uint 2 (reserved h);
  wf_proto_cmd : uint 5 (proto_cmd h);
}.

#[local] Ltac header_consts :=
  unfold CMD_LEN_MASK, CMD_LEN_BITS, RESERVED_MASK, RESERVED_SHIFT, SIGNED_BIT,
    ENCRYPTED_PUBKEY_BIT, ENCRYPTED_CHANNEL_BIT, PROTO_CMD_MASK, PROTO_CMD_SHIFT in *.

Lemma header_word_arith h :
  header_word h =
  cmd_len h mod 2 ^ 22 + (reserved h mod 2 ^ 2) * 2 ^ 22 + Z.b2z (is_signed h) * 2 ^ 24 +
  Z.b2z (is_encrypted_pubkey h) * 2 ^ 25 + Z.b2z (is_encrypted_channel h) * 2 ^ 26 +
  (proto_cmd h mod 2 ^ 5) * 2 ^ 27.
Proof.
  unfold header_word. header_consts. change (Z.shiftl 1 22 - 1) with (2 ^ 22 - 1).
  change 0x3 with (2 ^ 2 - 1). change 0x1f with (2 ^ 5 - 1).
  rewrite !land_mask by done.
  pose proof (Z.mod_pos_bound (cmd_len h) (2 ^ 22) ltac:(done)).
  pose proof (Z.mod_pos_bound (reserved h) (2 ^ 2) ltac:(done)).
  assert (forall b, 0 <= Z.b2z b <= 1) as Hb by (intros []; cbn; lia).
  pose proof (Hb (is_signed h)). pose proof (Hb (is_encrypted_pubkey h)).
  pose proof (Hb (is_encrypted_channel h)).
  rewrite (lor_shiftl_high _ _ 22), (lor_shiftl_high _ _ 24), (lor_shiftl_high _ _ 25),
    (lor_shiftl_high _ _ 26), (lor_shiftl_high _ _ 27) by lia. done.
Qed.

Lemma header_word_range h : uint 32 (header_word h).
Proof.
  rewrite header_word_arith. unfold uint.
  pose proof (Z.mod_pos_bound (cmd_len h) (2 ^ 22) ltac:(done)).
  pose proof (Z.mod_pos_bound (reserved h) (2 ^ 2) ltac:(done)).
  pose proof (Z.mod_pos_bound (proto_cmd h) (2 ^ 5) ltac:(done)).
  destruct (is_signed h), (is_encrypted_pubkey h), (is_encrypted_channel h); cbn [Z.b2z]; lia.
Qed.

Lemma from_bytes_fields b :
  let v := le_val b in
  cmd_len (from_bytes b) = v mod 2 ^ 22 /\
  reserved (from_bytes b) = (v / 2 ^ 22) mod 2 ^ 2 /\
  Z.b2z (is_signed (from_bytes b)) = (v / 2 ^ 24) mod 2 /\
  Z.b2z (is_encrypted_pubkey (from_bytes b)) = (v / 2 ^ 25) mod 2 /\
  Z.b2z (is_encrypted_channel (from_bytes b)) = (v / 2 ^ 26) mod 2 /\
  proto_cmd (from_bytes b) = (v / 2 ^ 27) mod 2 ^ 5.
Proof.
  unfold from_bytes. header_consts. cbn [cmd_len reserved is_signed is_encrypted_pubkey
    is_encrypted_channel proto_cmd].
  change (Z.shiftl 1 22 - 1) with (2 ^ 22 - 1).
  change 0x3 with (2 ^ 2 - 1). change 0x1f with (2 ^ 5 - 1).
  rewrite !land_mask, !has_bits_testbit, !Z.shiftr_div_pow2, !testbit_arith by done.
  done.
Qed.

Lemma from_bytes_wf b : frame_header_wf (from_bytes b).
Proof.
  destruct (from_bytes_fields b) as (Hl & Hr & _ & _ & _ & Hp).
  constructor; unfold uint, CMD_LEN_BITS; rewrite ?Hl, ?Hr, ?Hp;
    apply Z.mod_pos_bound; done.
Qed.

Lemma b2z_inj b c : Z.b2z b = Z.b2z c -> b = c.
Proof. by destruct b, c. Qed.

Lemma from_to_bytes h : frame_header_wf h -> from_bytes (to_bytes h) = h.
Proof.
  intros [Hl Hr Hp]. unfold uint in *. header_consts.
  destruct (from_bytes_fields (to_bytes h)) as (El & Er & Es & Ep & Ec & Eo).
  unfold to_bytes in *. rewrite le_val_le_small in * by (apply header_word_range).
  rewrite header_word_arith in *. rewrite !(Z.mod_small (cmd_len h)) in * by lia.
  rewrite !(Z.mod_small (reserved h)) in * by lia.
  rewrite !(Z.mod_small (proto_cmd h)) in * by lia.
  destruct (from_bytes _) as [l' r' s' p' c' o'], h as [l r s p c o].
  cbn [cmd_len reserved is_signed is_encrypted_pubkey is_encrypted_channel proto_cmd] in *.
  assert (s' = s /\ p' = p /\ c' = c) as (-> & -> & ->).
  { split_and!; apply b2z_inj; rewrite ?Es, ?Ep, ?Ec;
      clear -Hl Hr Hp; destruct s, p, c; cbn [Z.b2z];
      Z.to_euclidean_division_equations; lia. }
  f_equal; rewrite ?El, ?Er, ?Eo;
    clear -Hl Hr Hp; destruct s, p, c; cbn [Z.b2z]; Z.to_euclidean_division_equations; lia.
Qed.

Lemma to_from_bytes b : length b = HEADER_LEN -> to_bytes (from_bytes b) = b.
Proof.
  intros Hb. destruct (from_bytes_fields b) as (El & Er & Es & Ep & Ec & Eo).
  pose proof (le_val_range b) as Hv. rewrite Hb in Hv.
  unfold to_bytes. rewrite <- (le_le_val b) at 2. rewrite Hb. f_equal.
  rewrite header_word_arith, El, Er, Es, Ep, Ec, Eo, !Z.mod_mod by done.
  change (256 ^ Z.of_nat HEADER_LEN) with (2 ^ 32) in Hv.
  clear -Hv. generalize dependent (le_val b). intros v Hv. clear b.
  Z.to_euclidean_division_equations. lia.
Qed.

(** a masked header reaches the peer as the header that was sent and
    leaves both ratchets on the same key, whatever header was sent and whatever
    key they were on; and every four bytes are the masked form of the header they
    unmask to, so masking is a bijection and nothing of a header is lost. *)
Theorem unmask_mask (r : HeaderKeyRatchet) (h : FrameHeader) :
  uint 32 (key r) -> frame_header_wf h ->
  unmask r (fst (mask r h)) = (h, snd (mask r h)) /\
  (forall b, length b = HEADER_LEN -> fst (mask r (fst (unmask r b))) = b).
Proof.
  intros Hkey Hh. unfold mask, unmask. cbn [fst snd]. split.
  - do 2 f_equal. rewrite le_val_le_small.
    + rewrite Z.lxor_assoc, Z.lxor_nilpotent, Z.lxor_0_r.
      unfold to_bytes. rewrite le_val_le_small by apply header_word_range. by apply from_to_bytes.
    + apply (uint_lxor 32); [done| |done]. unfold to_bytes.
      rewrite le_val_le_small by apply header_word_range. apply header_word_range.
  - intros b Hb. rewrite to_from_bytes by apply length_le.
    pose proof (le_val_range b) as Hv. rewrite Hb in Hv.
    rewrite le_val_le_small by (by apply (uint_lxor 32)).
    rewrite Z.lxor_assoc, Z.lxor_nilpotent, Z.lxor_0_r, <- Hb. apply le_le_val.
Qed.

Lemma unmask_mask_witness :
  let h := {| cmd_len := 1000; reserved := 0; is_signed := true; is_encrypted_pubkey := false;
              is_encrypted_channel := true; proto_cmd := cmd.MINING |} in
  unmask ratchet_initial (fst (mask ratchet_initial h)) = (h, snd (mask ratchet_initial h)).
Proof. apply unmask_mask; [done|by constructor]. Defined.

(** ** The keys stay in range *)

Lemma uint_lxor_shiftr z n : 0 <= n -> uint 32 z -> uint 32 (Z.lxor z (Z.shiftr z n)).
Proof.
  intros Hn Hz. apply uint_lxor; [done..|]. unfold uint in *.
  rewrite Z.shiftr_div_pow2 by done. split; [apply Z.div_pos; lia|].
  apply Z.div_lt_upper_bound; [lia|]. pose proof (Z.pow_pos_nonneg 2 n). nia.
Qed.

Lemma feedback_range i : uint 32 (feedback i).
Proof.
  unfold feedback. apply uint_lxor_shiftr; [done|]. by apply uint_wrap.
Qed.

(** ** The nonce counter *)

Lemma length_increment_words n nonce :
  length nonce = (4 * n)%nat -> length (increment_words n nonce) = length nonce.
Proof.
  revert nonce; induction n as [|n IH]; intros nonce Hn; cbn [increment_words]; [done|].
  rewrite length_app, length_le. case_test.
  - rewrite length_drop. unfold WORD_SIZE. lia.
  - rewrite IH; rewrite length_drop; unfold WORD_SIZE; lia.
Qed.

Lemma length_increment_nonce nonce :
  length nonce = NONCE_LEN -> length (increment_nonce nonce) = NONCE_LEN.
Proof. intros. unfold increment_nonce. by rewrite length_increment_words. Qed.

Lemma increment_words_val n nonce :
  length nonce = (4 * n)%nat ->
  le_val (increment_words n nonce) = (le_val nonce + 1) mod 2 ^ (32 * Z.of_nat n).
Proof.
  revert nonce; induction n as [|n IH]; intros nonce Hn.
  { destruct nonce; [|done]. done. }
  cbn [increment_words]. unfold WORD_SIZE. rewrite le_val_app, length_le.
  change (256 ^ Z.of_nat 4) with (2 ^ 32).
  rewrite le_val_le_small by (apply Z.mod_pos_bound; lia).
  assert (length (take 4 nonce) = 4%nat) as Ht by (rewrite length_take; lia).
  assert (length (drop 4 nonce) = (4 * n)%nat) as Hd by (rewrite length_drop; lia).
  pose proof (le_val_range (take 4 nonce)) as Hlo. pose proof (le_val_range (drop 4 nonce)) as Hhi.
  rewrite Ht in Hlo. rewrite Hd in Hhi. change (256 ^ Z.of_nat 4) with (2 ^ 32) in Hlo.
  replace (256 ^ Z.of_nat (4 * n)) with (2 ^ (32 * Z.of_nat n)) in Hhi
    by (change 256 with (2 ^ 8); rewrite <- Z.pow_mul_r by lia; f_equal; lia).
  assert (le_val nonce = le_val (take 4 nonce) + 2 ^ 32 * le_val (drop 4 nonce)) as ->.
  { rewrite <- (take_drop 4 nonce) at 1. by rewrite le_val_app, Ht. }
  replace (32 * Z.of_nat (S n)) with (32 + 32 * Z.of_nat n) by lia.
  rewrite Z.pow_add_r by lia. set (M := 2 ^ (32 * Z.of_nat n)) in *.
  unfold wrap. destruct (Z.eqb_spec ((le_val (take 4 nonce) + 1) mod 2 ^ 32) 0) as [Hz|Hz];
    cbn [negb].
  - rewrite IH by done. fold M. rewrite Hz. assert (le_val (take 4 nonce) = 2 ^ 32 - 1) as ->
      by (apply Z.mod_divide in Hz as [q Hq]; lia).
    replace (2 ^ 32 - 1 + 2 ^ 32 * le_val (drop 4 nonce) + 1)
      with (2 ^ 32 * (le_val (drop 4 nonce) + 1)) by lia.
    rewrite Z.mul_mod_distr_l; lia.
  - assert (le_val (take 4 nonce) + 1 < 2 ^ 32) as Hlt.
    { destruct (Z.eq_dec (le_val (take 4 nonce) + 1) (2 ^ 32)) as [He|]; [|lia].
      rewrite He in Hz. done. }
    rewrite !Z.mod_small; [lia| |lia]. nia.
Qed.

(** The nonce counter steps through every value: [k] increments add [k]
    modulo 2^192, so no nonce is reused before 2^192 messages, however the
    carries run. *)
Theorem increment_nonce_counts (nonce : bytes) (k : nat) :
  length nonce = NONCE_LEN ->
  Nat.iter k increment_nonce nonce = le NONCE_LEN (le_val nonce + Z.of_nat k) /\
  (0 < Z.of_nat k < 2 ^ 192 -> Nat.iter k increment_nonce nonce <> nonce).
Proof.
  intros Hn. pose proof (le_val_range nonce) as Hv. rewrite Hn in Hv.
  change (256 ^ Z.of_nat NONCE_LEN) with (2 ^ 192) in Hv.
  assert (length (Nat.iter k increment_nonce nonce) = NONCE_LEN /\
    le_val (Nat.iter k increment_nonce nonce) = (le_val nonce + Z.of_nat k) mod 2 ^ 192)
    as [Hlen Hval].
  { induction k as [|k [IHl IHv]]; cbn [Nat.iter nat_rect].
    - split; [done|]. rewrite Z.mod_small; lia.
    - split; [by apply length_increment_nonce|].
      unfold increment_nonce. rewrite increment_words_val by done.
      change (32 * Z.of_nat (NONCE_LEN / WORD_SIZE)) with 192.
      change (Nat.iter k increment_nonce nonce) with
        (nat_rect (fun _ => bytes) nonce (fun _ => increment_nonce) k) in IHv.
      unfold increment_nonce in IHv. rewrite IHv, Zplus_mod_idemp_l. f_equal. lia. }
  split.
  - apply le_val_inj; [by rewrite length_le|]. by rewrite Hval, le_val_le.
  - intros Hk Heq. rewrite Heq in Hval.
    destruct (Z.lt_ge_cases (le_val nonce + Z.of_nat k) (2 ^ 192)).
    + rewrite Z.mod_small in Hval; lia.
    + rewrite <- (Z.mod_add _ (-1)), Z.mod_small in Hval; lia.
Qed.

Lemma increment_nonce_counts_witness :
  Nat.iter 2 increment_nonce (le 24 (2 ^ 64 - 1)) = le 24 (2 ^ 64 + 1) /\
  (0 < Z.of_nat 2 < 2 ^ 192 ->
   Nat.iter 2 increment_nonce (le 24 (2 ^ 64 - 1)) <> le 24 (2 ^ 64 - 1)).
Proof. apply (increment_nonce_counts (le 24 (2 ^ 64 - 1)) 2). done. Defined.
