(* ===== verification/Bulk.v ===== *)
(** Bulk transfers ([core/src/datum/bulk.rs]): the fragment decoder, the
    acknowledgement and the reassembler, which keeps one transfer in progress.
    The reassembler's step is stated against the chunks of the transfer. *)
From S2P Require Import Prelude Reader Framing.

Definition ACK_MARKER : bytes := zb <$> [0x44; 0x42; 0x41; 0x01].
Definition DBF_MARKER : bytes := zb <$> [0x44; 0x42; 0x46; 0x01].
Definition FRAGMENT_DATA_SIZE : Z := 16 * 1024.
Definition MAX_TRANSFER_SIZE : Z := Z.shiftl 1 CMD_LEN_BITS.

Inductive BulkError :=
| BadMarker
| BulkTruncated (t : Truncated)
| BadChunk (n : Z)
| ZeroId
| BadSize (n : Z)
| WrongTransfer (want got : Z)
| WrongOffset (want got : Z)
| SizeChanged (want got : Z)
| NotAtStart.

#[global] Instance BulkError_from : FromTruncated BulkError := BulkTruncated.

Record Fragment := {
  fragment_id : Z;
  fragment_total_size : Z;
  fragment_offset : Z;
  fragment_data : bytes;
}.

Definition decode_fragment_from : parser BulkError Fragment :=
  marker ← arr (length DBF_MARKER) "marker";
  _ ← require (bool_decide (marker = DBF_MARKER)) BadMarker;
  id ← u32 "transfer id";
  total_size ← u32 "total size";
  offset ← u32 "offset";
  c ← get_reader;
  let chunk := rest c in
  _ ← require (negb (bool_decide (chunk = []) || (FRAGMENT_DATA_SIZE <? zlen chunk)))
        (BadChunk (zlen chunk));
  mret {| fragment_id := id; fragment_total_size := total_size;
          fragment_offset := offset; fragment_data := chunk |}.

Definition decode_fragment (data : bytes) : result BulkError Fragment :=
  parse_all decode_fragment_from data.

Record Ack := { ack_id : Z; next_offset : Z }.

Definition encode_ack (a : Ack) : bytes := ACK_MARKER ++ le 4 (ack_id a) ++ le 4 (next_offset a).

Record Transfer := { transfer_id : Z; total_size : Z; buf : bytes }.

Record Reassembler := { transfer : option Transfer }.

Definition reassembler_new : Reassembler := {| transfer := None |}.

(** The bytes received so far, once the fragment is known to continue the
    transfer in progress. *)
Definition received (r : Reassembler) (f : Fragment) : result BulkError Z :=
  match transfer r with
  | None => _ ← ensure (fragment_offset f =? 0) NotAtStart; Ok 0
  | Some t =>
    _ ← ensure (transfer_id t =? fragment_id f) (WrongTransfer (transfer_id t) (fragment_id f));
    _ ← ensure (total_size t =? fragment_total_size f)
          (SizeChanged (total_size t) (fragment_total_size f));
    _ ← ensure (wrap 32 (zlen (buf t)) =? fragment_offset f)
          (WrongOffset (wrap 32 (zlen (buf t))) (fragment_offset f));
    Ok (zlen (buf t))
  end.

(** [Reassembler::accept]: the acknowledgement, the payload when the fragment
    completes it, and the reassembler after. An error leaves it as it was. *)
Definition accept (r : Reassembler) (f : Fragment)
    : result BulkError (Ack * option bytes * Reassembler) :=
  _ ← ensure (negb (fragment_id f =? 0)) ZeroId;
  _ ← ensure (negb ((fragment_total_size f =? 0) || (MAX_TRANSFER_SIZE <? fragment_total_size f)))
        (BadSize (fragment_total_size f));
  received ← received r f;
  _ ← ensure (negb (fragment_total_size f <? received + zlen (fragment_data f)))
        (BadChunk (zlen (fragment_data f)));
  let t := default {| transfer_id := fragment_id f;
                      total_size := fragment_total_size f; buf := [] |} (transfer r) in
  let t := {| transfer_id := transfer_id t; total_size := total_size t;
              buf := buf t ++ fragment_data f |} in
  let ack := {| ack_id := transfer_id t; next_offset := wrap 32 (zlen (buf t)) |} in
  let done := wrap 32 (zlen (buf t)) =? total_size t in
  if done then Ok (ack, Some (buf t), {| transfer := None |})
  else Ok (ack, None, {| transfer := Some t |}).

Definition reset (r : Reassembler) : Reassembler := {| transfer := None |}.

(** ** The transfer in progress *)

(** The transfer in progress is short of its size, which is within bounds. *)
Definition reassembler_wf (r : Reassembler) : Prop :=
  match transfer r with
  | None => True
  | Some t => transfer_id t <> 0 /\ 0 < total_size t <= MAX_TRANSFER_SIZE /\
              zlen (buf t) < total_size t
  end.

Definition progress (r : Reassembler) : bytes :=
  match transfer r with None => [] | Some t => buf t end.

Lemma transfer_small n : 0 <= n <= MAX_TRANSFER_SIZE -> wrap 32 n = n.
Proof.
  intros Hn. apply wrap_small. unfold uint. change MAX_TRANSFER_SIZE with (2 ^ 22) in Hn. lia.
Qed.

(** What a reassembler accepts, and what it answers. *)
Lemma accept_spec r f out :
  reassembler_wf r -> accept r f = Ok out ->
  fragment_id f <> 0 /\ 0 < fragment_total_size f <= MAX_TRANSFER_SIZE /\
  fragment_offset f = zlen (progress r) /\
  zlen (progress r ++ fragment_data f) <= fragment_total_size f /\
  (forall t, transfer r = Some t -> transfer_id t = fragment_id f /\
     total_size t = fragment_total_size f) /\
  out =
    (let buf := progress r ++ fragment_data f in
     ({| ack_id := fragment_id f; next_offset := zlen buf |},
      (if zlen buf =? fragment_total_size f then Some buf else None),
      {| transfer := if zlen buf =? fragment_total_size f then None
                     else Some {| transfer_id := fragment_id f;
                                  total_size := fragment_total_size f; buf := buf |} |})).
Proof.
  unfold accept, reassembler_wf, progress. intros Hwf Hacc.
  destruct (Z.eqb_spec (fragment_id f) 0) as [|Hid]; [done|]. cbn [negb ensure mbind result_bind] in Hacc.
  destruct (Z.eqb_spec (fragment_total_size f) 0) as [|Hts]; [done|].
  destruct (Z.ltb_spec MAX_TRANSFER_SIZE (fragment_total_size f)) as [|Hts']; [done|].
  cbn [orb negb ensure mbind result_bind] in Hacc.
  unfold received in Hacc. pose proof (zlen_nonneg (fragment_data f)).
  assert (0 <= fragment_total_size f -> 0 < fragment_total_size f) by lia.
  destruct (transfer r) as [t|].
  - destruct Hwf as (_ & Hsize & Hlt). pose proof (zlen_nonneg (buf t)).
    rewrite (transfer_small (zlen (buf t))) in Hacc by lia.
    destruct (Z.eqb_spec (transfer_id t) (fragment_id f)) as [Hi|]; [|done].
    cbn [ensure mbind result_bind] in Hacc.
    destruct (Z.eqb_spec (total_size t) (fragment_total_size f)) as [Ht|]; [|done].
    cbn [ensure mbind result_bind] in Hacc.
    destruct (Z.eqb_spec (zlen (buf t)) (fragment_offset f)) as [Ho|]; [|done].
    cbn [ensure mbind result_bind] in Hacc.
    destruct (Z.ltb_spec (fragment_total_size f) (zlen (buf t) + zlen (fragment_data f))); [done|].
    cbn [negb ensure mbind result_bind default from_option id transfer_id total_size buf] in Hacc.
    rewrite zlen_app, (transfer_small (zlen (buf t) + _)), Hi, Ht in Hacc by lia.
    split_and!; try lia; try done.
    + by rewrite zlen_app.
    + by intros ? [= <-].
    + rewrite zlen_app. cbn zeta. case_test; simplify_eq; congruence.
  - destruct (Z.eqb_spec (fragment_offset f) 0) as [Ho|]; [|done].
    cbn [ensure mbind result_bind] in Hacc.
    destruct (Z.ltb_spec (fragment_total_size f) (0 + zlen (fragment_data f))); [done|].
    cbn [negb ensure mbind result_bind default from_option id transfer_id total_size buf app] in Hacc.
    assert (0 < fragment_total_size f <= MAX_TRANSFER_SIZE) by lia.
    rewrite (transfer_small (zlen _)) in Hacc by lia.
    split_and!; try lia; try done. cbn [app]. case_test; simplify_eq; done.
Qed.

Lemma reassembler_wf_accept r f a p r' :
  reassembler_wf r -> accept r f = Ok (a, p, r') -> reassembler_wf r'.
Proof.
  intros Hwf Hacc. apply accept_spec in Hacc as (Hid & Hts & _ & Hle & _ & Hout); [|done].
  cbn zeta in Hout. injection Hout as _ _ ->. unfold reassembler_wf. cbn [transfer].
  case_test; [done|]. reflect_Z. cbn [transfer_id total_size buf]. split_and!; lia || done.
Qed.

(** ** Sequences of fragments *)

(** The fragments in the order they arrive; a refused fragment changes nothing,
    as the caller drops the connection or the message. *)
Fixpoint run (r : Reassembler) (fs : list Fragment) : list bytes * Reassembler :=
  match fs with
  | [] => ([], r)
  | f :: fs =>
    match accept r f with
    | Ok (_, payload, r) =>
      let '(out, r) := run r fs in (option_list payload ++ out, r)
    | Err _ => run r fs
    end
  end.

(** The fragments a payload is sent as, from an offset on. *)
Fixpoint fragments (id size offset : Z) (chunks : list bytes) : list Fragment :=
  match chunks with
  | [] => []
  | c :: chunks =>
    {| fragment_id := id; fragment_total_size := size; fragment_offset := offset;
       fragment_data := c |} :: fragments id size (offset + zlen c) chunks
  end.

Definition chunk_ok (c : bytes) : Prop := 0 < zlen c <= FRAGMENT_DATA_SIZE.

Lemma zlen_join_nonneg (chunks : list bytes) : 0 <= zlen (mjoin chunks).
Proof. apply zlen_nonneg. Qed.

Lemma run_fragments id chunks r size :
  reassembler_wf r ->
  id <> 0 ->
  Forall chunk_ok chunks -> chunks <> [] ->
  size = zlen (progress r ++ mjoin chunks) ->
  size <= MAX_TRANSFER_SIZE ->
  (forall t, transfer r = Some t -> transfer_id t = id /\ total_size t = size) ->
  run r (fragments id size (zlen (progress r)) chunks) =
  ([progress r ++ mjoin chunks], {| transfer := None |}).
Proof.
  intros Hwf Hid Hchunks Hne. revert r Hwf.
  induction Hchunks as [|c chunks Hc Hchunks IH]; intros r Hwf Es Hsize Ht; [done|].
  cbn [fragments run]. destruct Hc as [Hc _].
  change (mjoin (c :: chunks)) with (c ++ mjoin chunks) in *.
  assert (size = zlen (progress r) + zlen c + zlen (mjoin chunks)) as Hs
    by (rewrite Es, !zlen_app; lia).
  pose proof (zlen_join_nonneg chunks). pose proof (zlen_nonneg (progress r)).
  destruct (accept r _) as [[[a p] r']|e] eqn:Hacc.
  - pose proof (reassembler_wf_accept _ _ _ _ _ Hwf Hacc) as Hwf'.
    apply accept_spec in Hacc as (_ & _ & _ & _ & _ & Hout); [|done].
    cbn [fragment_id fragment_total_size fragment_data] in Hout. injection Hout as _ -> ->.
    destruct chunks as [|c' chunks'].
    + change (mjoin []) with (@nil byte) in *. rewrite zlen_nil in Hs.
      rewrite (proj2 (Z.eqb_eq _ size)) by (rewrite zlen_app; lia).
      by rewrite app_nil_r.
    + assert (0 < zlen (mjoin (c' :: chunks'))).
      { change (mjoin (c' :: chunks')) with (c' ++ mjoin chunks').
        apply Forall_cons in Hchunks as [[] _]. rewrite zlen_app.
        pose proof (zlen_join_nonneg chunks'). lia. }
      rewrite (proj2 (Z.eqb_neq _ _)) in * by (rewrite zlen_app; lia).
      rewrite <- zlen_app. cbn [option_list].
      specialize (IH ltac:(done) _ Hwf'). cbn [progress transfer buf] in IH.
      rewrite <- app_assoc in IH. rewrite IH; [done..|]. by intros t [= <-].
  - exfalso. unfold accept in Hacc. cbn [fragment_id fragment_total_size fragment_data] in Hacc.
    rewrite (proj2 (Z.eqb_neq id 0)) in Hacc by done.
    rewrite (proj2 (Z.eqb_neq size 0)), (proj2 (Z.ltb_ge _ size)) in Hacc by lia.
    cbn [negb orb ensure mbind result_bind] in Hacc.
    assert (received r {| fragment_id := id; fragment_total_size := size;
      fragment_offset := zlen (progress r); fragment_data := c |} = Ok (zlen (progress r))) as Hr.
    { unfold received, progress, reassembler_wf in *. destruct (transfer r) as [t|].
      - destruct (Ht t eq_refl) as [-> ->]. cbn [fragment_id fragment_total_size fragment_offset].
        rewrite transfer_small by lia. by rewrite !Z.eqb_refl.
      - done. }
    rewrite Hr in Hacc. cbn [mbind result_bind] in Hacc.
    rewrite (proj2 (Z.ltb_ge size _)) in Hacc by lia.
    cbn [negb ensure mbind result_bind] in Hacc. by case_test.
Qed.

(** a payload split into any fragments of legal size is handed up whole,
    exactly once and at the last fragment, and the reassembler is ready for the
    next transfer: a payload of up to 4 MiB survives the fragmentation. *)
Theorem reassemble_payload (id : Z) (chunks : list bytes) :
  id <> 0 -> chunks <> [] -> Forall chunk_ok chunks ->
  zlen (mjoin chunks) <= MAX_TRANSFER_SIZE ->
  run reassembler_new (fragments id (zlen (mjoin chunks)) 0 chunks) =
  ([mjoin chunks], reassembler_new).
Proof.
  intros Hid Hne Hchunks Hsize.
  by apply (run_fragments id chunks reassembler_new (zlen (mjoin chunks))).
Qed.

Lemma reassemble_payload_witness :
  run reassembler_new (fragments 7 5 0 [zeros 3; [zb 1; zb 2]]) =
  ([zeros 3 ++ [zb 1; zb 2]], reassembler_new).
Proof.
  apply (reassemble_payload 7 [zeros 3; [zb 1; zb 2]]); [done|done| |done].
  by repeat (apply Forall_nil_2 || (apply Forall_cons_2; [by vm_compute|])).
Defined.

(** A trace of [run]: the payloads are what was in progress with the data of
    accepted fragments, cut at the completed transfers. *)
Definition accepted_data (r : Reassembler) (f : Fragment) : bytes :=
  if is_ok (accept r f) then fragment_data f else [].

Fixpoint accepted (r : Reassembler) (fs : list Fragment) : bytes :=
  match fs with
  | [] => []
  | f :: fs => accepted_data r f ++
      accepted (match accept r f with Ok (_, _, r') => r' | Err _ => r end) fs
  end.

(** whatever fragments arrive, in whatever order, the payloads handed up
    and the bytes still held are exactly the accepted fragments' data in their
    order of arrival, no more than one transfer is held, and it stays under the
    4 MiB bound. *)
Theorem reassembler_conserves (r : Reassembler) (fs : list Fragment) :
  reassembler_wf r ->
  let '(payloads, r') := run r fs in
  progress r ++ accepted r fs = mjoin payloads ++ progress r' /\
  reassembler_wf r' /\ zlen (progress r') < MAX_TRANSFER_SIZE /\
  Forall (fun p => 0 < zlen p <= MAX_TRANSFER_SIZE) payloads.
Proof.
  revert r; induction fs as [|f fs IH]; intros r Hwf; cbn [run accepted].
  - split_and!; [by rewrite app_nil_r|done| |done].
    unfold progress, reassembler_wf in *. destruct (transfer r); [lia|done].
  - unfold accepted_data. destruct (accept r f) as [[[a p] r1]|e] eqn:Hacc; cbn [is_ok].
    + pose proof (reassembler_wf_accept _ _ _ _ _ Hwf Hacc) as Hwf1.
      specialize (IH r1 Hwf1). destruct (run r1 fs) as [out r2].
      destruct IH as (Heq & Hwf2 & Hlen & Hall).
      apply accept_spec in Hacc as (_ & Hts & _ & Hle & _ & Hout); [|done].
      cbn zeta in Hout. injection Hout as _ -> ->. rewrite app_assoc.
      destruct (Z.eqb_spec (zlen (progress r ++ fragment_data f)) (fragment_total_size f)) as [He|].
      * cbn [option_list app progress transfer] in *. split_and!; [|done..|].
        -- rewrite Heq. apply app_assoc.
        -- constructor; [lia|done].
      * cbn [option_list app progress transfer buf] in *. by rewrite Heq.
    + apply (IH r Hwf).
Qed.

Lemma reassembler_conserves_witness :
  let f := {| fragment_id := 1; fragment_total_size := 2; fragment_offset := 0;
              fragment_data := zeros 2 |} in
  let '(payloads, r') := run reassembler_new [f; f] in
  progress reassembler_new ++ accepted reassembler_new [f; f] = mjoin payloads ++ progress r' /\
  reassembler_wf r' /\ zlen (progress r') < MAX_TRANSFER_SIZE /\
  Forall (fun p => 0 < zlen p <= MAX_TRANSFER_SIZE) payloads.
Proof. intros f. apply (reassembler_conserves reassembler_new [f; f]). done. Defined.
