(* ===== verification/SipHash.v ===== *)
(** SipHash-2-4 ([core/src/siphash.rs]), which the short transaction ids of the
    validation exchange are taken from, and its agreement with the algorithm as
    its authors specify it: the message padded to whole words with its length in
    the last byte, each word compressed with two rounds, four rounds at the end. *)
From S2P Require Import Prelude.

(** The four words of state. *)
Record SipState := { v0 : Z; v1 : Z; v2 : Z; v3 : Z }.

(** [half_round] on the words it is given: the new [a], [b], [c] and [d]. *)
Definition half_round (a b c d e f : Z) : Z * Z * Z * Z :=
  let a := wrap 64 (a + b) in
  let c := wrap 64 (c + d) in
  let b := Z.lxor (rotl 64 b e) a in
  let d := Z.lxor (rotl 64 d f) c in
  let a := rotl 64 a 32 in
  (a, b, c, d).

Definition double_round (s : SipState) : SipState :=
  let '(a0, a1, a2, a3) := half_round (v0 s) (v1 s) (v2 s) (v3 s) 13 16 in
  let '(b2, b1, b0, b3) := half_round a2 a1 a0 a3 17 21 in
  let '(c0, c1, c2, c3) := half_round b0 b1 b2 b3 13 16 in
  let '(d2, d1, d0, d3) := half_round c2 c1 c0 c3 17 21 in
  {| v0 := d0; v1 := d1; v2 := d2; v3 := d3 |}.

(** One word: [v3 ^= m; double_round; v0 ^= m]. *)
Definition absorb (s : SipState) (m : Z) : SipState :=
  let s := double_round {| v0 := v0 s; v1 := v1 s; v2 := v2 s; v3 := Z.lxor (v3 s) m |} in
  {| v0 := Z.lxor (v0 s) m; v1 := v1 s; v2 := v2 s; v3 := v3 s |}.

(** The last word's tail bytes, from index [i] on. *)
Fixpoint tail_word (i : Z) (tail : bytes) (b : Z) : Z :=
  match tail with
  | [] => b
  | byte :: tail => tail_word (i + 1) tail (Z.lor b (Z.shiftl (bz byte) (8 * i)))
  end.

Definition siphash24 (key data : bytes) : Z :=
  let k0 := le_val (take 8 key) in
  let k1 := le_val (drop 8 key) in
  let s := {| v0 := Z.lxor k0 0x736f6d6570736575;
              v1 := Z.lxor k1 0x646f72616e646f6d;
              v2 := Z.lxor k0 0x6c7967656e657261;
              v3 := Z.lxor k1 0x7465646279746573 |} in
  let '(chunks, tail) := as_chunks 8 data in
  let s := foldl (fun s c => absorb s (le_val c)) s chunks in
  let b := wrap 64 (Z.shiftl (zlen data) 56) in
  let s := absorb s (tail_word 0 tail b) in
  let s := {| v0 := v0 s; v1 := v1 s; v2 := Z.lxor (v2 s) 0xff; v3 := v3 s |} in
  let s := double_round (double_round s) in
  Z.lxor (Z.lxor (v0 s) (v1 s)) (Z.lxor (v2 s) (v3 s)).

(** ** The specification *)

Module spec.

(** SipRound, in the order of the specification's diagram. *)
Definition sip_round (s : SipState) : SipState :=
  let v0 := wrap 64 (v0 s + v1 s) in
  let v1 := rotl 64 (v1 s) 13 in
  let v1 := Z.lxor v1 v0 in
  let v0 := rotl 64 v0 32 in
  let v2 := wrap 64 (v2 s + v3 s) in
  let v3 := rotl 64 (v3 s) 16 in
  let v3 := Z.lxor v3 v2 in
  let v0 := wrap 64 (v0 + v3) in
  let v3 := rotl 64 v3 21 in
  let v3 := Z.lxor v3 v0 in
  let v2 := wrap 64 (v2 + v1) in
  let v1 := rotl 64 v1 17 in
  let v1 := Z.lxor v1 v2 in
  let v2 := rotl 64 v2 32 in
  {| v0 := v0; v1 := v1; v2 := v2; v3 := v3 |}.

(** The message padded with zeros to seven bytes past a word boundary and the
    low byte of its length. *)
Definition pad (data : bytes) : bytes :=
  data ++ zeros (7 - length data mod 8) ++ [zb (zlen data)].

Definition message_words (data : bytes) : list Z := le_val <$> (as_chunks 8 (pad data)).1.

Definition init (k0 k1 : Z) : SipState :=
  {| v0 := Z.lxor k0 0x736f6d6570736575; v1 := Z.lxor k1 0x646f72616e646f6d;
     v2 := Z.lxor k0 0x6c7967656e657261; v3 := Z.lxor k1 0x7465646279746573 |}.

Definition compress (s : SipState) (m : Z) : SipState :=
  let s := {| v0 := v0 s; v1 := v1 s; v2 := v2 s; v3 := Z.lxor (v3 s) m |} in
  let s := sip_round (sip_round s) in
  {| v0 := Z.lxor (v0 s) m; v1 := v1 s; v2 := v2 s; v3 := v3 s |}.

Definition finalize (s : SipState) : Z :=
  let s := {| v0 := v0 s; v1 := v1 s; v2 := Z.lxor (v2 s) 0xff; v3 := v3 s |} in
  let s := sip_round (sip_round (sip_round (sip_round s))) in
  Z.lxor (Z.lxor (v0 s) (v1 s)) (Z.lxor (v2 s) (v3 s)).

Definition siphash_2_4 (key data : bytes) : Z :=
  finalize (foldl compress (init (le_val (take 8 key)) (le_val (drop 8 key)))
    (message_words data)).
End spec.

(** ** Agreement *)

Lemma double_round_spec s : double_round s = spec.sip_round (spec.sip_round s).
Proof. by destruct s. Qed.

Lemma absorb_spec s m : absorb s m = spec.compress s m.
Proof. unfold absorb, spec.compress. by rewrite double_round_spec. Qed.

(** The tail bytes fill the word from its low end. *)
Lemma tail_word_val tail i b :
  0 <= i -> (i + zlen tail <= 7)%Z -> uint 8 (b / 2 ^ 56) -> b mod 2 ^ 56 < 2 ^ (8 * i) ->
  tail_word i tail b = b + 2 ^ (8 * i) * le_val tail.
Proof.
  revert i b; induction tail as [|x tail IH]; intros i b Hi Hlen Hb Hlo; cbn [tail_word le_val].
  { lia. }
  rewrite zlen_cons in Hlen. pose proof (zlen_nonneg tail). pose proof (bz_range x) as Hx.
  assert (0 <= b mod 2 ^ 56) by (apply Z.mod_pos_bound; lia).
  assert (2 ^ (8 * i) * 256 <= 2 ^ 56) as Hpow.
  { change 256 with (2 ^ 8). rewrite <- Z.pow_add_r by lia. apply Z.pow_le_mono_r; lia. }
  assert (0 < 2 ^ (8 * i)) by (apply Z.pow_pos_nonneg; lia).
  set (P := 2 ^ (8 * i)) in *.
  assert (Z.lor b (Z.shiftl (bz x) (8 * i)) = b + P * bz x) as Hor.
  { rewrite (Z.div_mod b (2 ^ 56)) at 1 by lia.
    rewrite (Z.mul_comm (2 ^ 56)), <- lor_shiftl_add by lia.
    rewrite <- Z.lor_assoc, lor_shiftl_high by (fold P; lia). fold P.
    rewrite lor_shiftl_add; [|lia|nia].
    rewrite (Z.div_mod b (2 ^ 56)) at 3 by lia. lia. }
  rewrite Hor. rewrite IH; [..|].
  - replace (8 * (i + 1)) with (8 * i + 8) by lia. rewrite Z.pow_add_r by lia. fold P. lia.
  - lia.
  - lia.
  - replace ((b + P * bz x) / 2 ^ 56) with (b / 2 ^ 56); [done|].
    rewrite (Z.div_mod b (2 ^ 56)) at 2 by lia.
    rewrite (Z.mul_comm (2 ^ 56)), <- Z.add_assoc, Z.div_add_l by lia.
    rewrite (Z.div_small (_ + _)); [lia|]. nia.
  - replace (8 * (i + 1)) with (8 * i + 8) by lia. rewrite Z.pow_add_r by lia. fold P.
    rewrite (Z.div_mod b (2 ^ 56)) at 1 by lia.
    rewrite (Z.mul_comm (2 ^ 56)), <- Z.add_assoc, Z.add_comm, Z.mod_add by lia.
    rewrite Z.mod_small by nia. nia.
Qed.

Lemma as_chunks_pad data :
  let '(chunks, tail) := as_chunks 8 data in
  (zlen tail <= 7)%Z /\
  as_chunks 8 (spec.pad data) =
    (chunks ++ [tail ++ zeros (7 - length tail) ++ [zb (zlen data)]], []).
Proof.
  unfold spec.pad.
  enough (forall n l z, (length l <= n)%nat ->
    let '(chunks, tail) := as_chunks 8 l in
    (zlen tail <= 7)%Z /\ length tail = (length l mod 8)%nat /\
    as_chunks 8 (l ++ zeros (7 - length l mod 8) ++ [z]) =
      (chunks ++ [tail ++ zeros (7 - length tail) ++ [z]], [])) as Hn.
  { specialize (Hn _ data (zb (zlen data)) (le_n _)). destruct (as_chunks 8 data).
    destruct Hn as (? & -> & ?). by split. }
  clear data. induction n as [|n IH]; intros l z Hl.
  { destruct l; [|cbn in Hl; lia]. done. }
  destruct (Nat.lt_ge_cases (length l) 8) as [Hlt|Hge].
  - assert (as_chunks 8 l = ([], l)) as ->.
    { unfold as_chunks. destruct l; [done|]. cbn [length as_chunks_fuel].
      cbn [length] in Hlt. by rewrite (proj2 (Nat.leb_gt _ _)) by lia. }
    rewrite Nat.mod_small by lia. split_and!; [unfold zlen; lia|done|].
    rewrite <- (app_nil_r (l ++ _ ++ _)) at 1. rewrite as_chunks_app; [done| |lia].
    rewrite !length_app, length_zeros. cbn [length]. lia.
  - rewrite <- (take_drop 8 l). set (c := take 8 l). set (k := drop 8 l).
    assert (length c = 8%nat) as Hc by (unfold c; rewrite length_take; lia).
    assert (length k = length l - 8)%nat as Hk by (unfold k; rewrite length_drop; lia).
    rewrite as_chunks_app by (done || lia).
    specialize (IH k z ltac:(lia)). destruct (as_chunks 8 k) as [chunks tail].
    destruct IH as (Ht & Hm & IH).
    assert (length (c ++ k) mod 8 = length k mod 8)%nat as Hmod.
    { rewrite length_app, Hc. replace (8 + length k)%nat with (length k + 1 * 8)%nat by lia.
      apply Nat.Div0.mod_add. }
    rewrite Hmod. split_and!; [done|done|].
    rewrite <- app_assoc, as_chunks_app by (done || lia). by rewrite IH.
Qed.

Lemma le_val_zeros_snoc n z : le_val (zeros n ++ [z]) = 256 ^ Z.of_nat n * bz z.
Proof.
  induction n as [|n IH]; [cbn [zeros replicate app le_val]; lia|].
  change (zeros (S n) ++ [z]) with (zb 0 :: (zeros n ++ [z])). cbn [le_val].
  rewrite IH, pow256_S, bz_zb_small by lia. lia.
Qed.

Lemma last_word tail n :
  (zlen tail <= 7)%Z ->
  tail_word 0 tail (wrap 64 (Z.shiftl n 56)) =
  le_val (tail ++ zeros (7 - length tail) ++ [zb n]).
Proof.
  intros Ht. pose proof (zlen_nonneg tail).
  assert (wrap 64 (Z.shiftl n 56) = n mod 256 * 2 ^ 56) as ->.
  { unfold wrap. rewrite Z.shiftl_mul_pow2 by lia. change (2 ^ 64) with (256 * 2 ^ 56).
    by rewrite Z.mul_mod_distr_r. }
  pose proof (Z.mod_pos_bound n 256 ltac:(lia)).
  rewrite tail_word_val; [|lia|lia| |].
  - rewrite le_val_app, le_val_zeros_snoc, bz_zb.
    replace (256 ^ Z.of_nat (length tail) * (256 ^ Z.of_nat (7 - length tail) * (n mod 256)))
      with (n mod 256 * (256 ^ Z.of_nat (length tail) * 256 ^ Z.of_nat (7 - length tail))) by lia.
    rewrite <- Z.pow_add_r by lia. unfold zlen in *.
    replace (Z.of_nat (length tail) + Z.of_nat (7 - length tail)) with 7 by lia.
    change (2 ^ (8 * 0)) with 1. change (256 ^ 7) with (2 ^ 56). lia.
  - rewrite Z.div_mul by lia. done.
  - rewrite Z.mod_mul by lia. done.
Qed.

(** [siphash24] is SipHash-2-4 as specified, for every key and every
    message, including the partial last word and a length over 255. *)
Theorem siphash24_spec (key data : bytes) : siphash24 key data = spec.siphash_2_4 key data.
Proof.
  unfold siphash24, spec.siphash_2_4, spec.message_words.
  pose proof (as_chunks_pad data) as Hpad. destruct (as_chunks 8 data) as [chunks tail].
  destruct Hpad as [Ht ->]. rewrite last_word by done. cbn [fst].
  rewrite fmap_app, foldl_app. cbn [fmap list_fmap foldl].
  assert (forall s, foldl (fun s c => absorb s (le_val c)) s chunks =
    foldl spec.compress s (le_val <$> chunks)) as ->.
  { induction chunks as [|c chunks IH]; intros s; cbn [foldl fmap list_fmap]; [done|].
    by rewrite IH, absorb_spec. }
  rewrite absorb_spec. unfold spec.finalize. by rewrite !double_round_spec.
Qed.

(** The test vectors of the specification: the key 00 01 .. 0f over the messages
    00 01 .. of 0 and 15 bytes. *)
Example siphash24_empty : siphash24 (zb <$> seqZ 0 16) [] = 0x726fdb47dd0e0e31.
Proof. by vm_compute. Qed.
Example siphash24_15 : siphash24 (zb <$> seqZ 0 16) (zb <$> seqZ 0 15) = 0xa129ca6149be45e5.
Proof. by vm_compute. Qed.
