(* ===== verification/Target.v ===== *)
(** Targets and difficulties ([core/src/target.rs]): the compact (nBits)
    encoding, the comparison of a hash with a target, the saturating shift, the
    targets and compact encodings of the share exponents, and the powers of two
    of the pool's difficulties. A target is its 32 bytes, most significant
    first; [be_val] is its value. The conversions through [f64] are not
    modelled. *)
From S2P Require Import Prelude.

Definition TARGET_BYTES : nat := 32.
Definition DIFF1_EXPONENT : Z := 224.
Definition COMPACT_TARGET_SIZE_SHIFT : Z := 24.
Definition COMPACT_TARGET_MANTISSA_MASK : Z := 0x007fffff.
Definition COMPACT_TARGET_SIGN_BIT : Z := 0x00800000.
Definition COMPACT_TARGET_MANTISSA_SIGN_BIT : Z := 0x80.
Definition MAX_COMPACT_TARGET_SIZE : Z := 34.
Definition MAX_TARGET_EXPONENT : Z := 64 - 1.

Abbreviation Target := (list Byte.byte).

(** One mantissa byte written at index [at_]: past the end it is shifted out,
    before the start it must be zero. *)
Definition put_mantissa (t : Target) (at_ : Z) (b : byte) : option Target :=
  if Z.of_nat TARGET_BYTES <=? at_ then Some t
  else if 0 <=? at_ then Some (<[Z.to_nat at_ := b]> t)
  else if bz b =? 0 then Some t
  else None.

(** The loop over the mantissa bytes from index [i] on. *)
Fixpoint put_mantissas (t : Target) (size i : Z) (bs : bytes) : option Target :=
  match bs with
  | [] => Some t
  | b :: bs =>
    t ← put_mantissa t (Z.of_nat TARGET_BYTES - size + i) b;
    put_mantissas t size (i + 1) bs
  end.

Definition bits_to_target (bits : Z) : option Target :=
  if negb (Z.land bits COMPACT_TARGET_SIGN_BIT =? 0) then None else
  let size := Z.shiftr bits COMPACT_TARGET_SIZE_SHIFT in
  if MAX_COMPACT_TARGET_SIZE <? size then None else
  t ← put_mantissas (zeros TARGET_BYTES) size 0
        (drop 1 (be 4 (Z.land bits COMPACT_TARGET_MANTISSA_MASK)));
  if existsb (fun b => negb (bz b =? 0)) t then Some t else None.

(** The order of byte arrays, which compares the first byte that differs. *)
Fixpoint bytes_le (a b : bytes) : bool :=
  match a, b with
  | [], _ => true
  | _ :: _, [] => false
  | x :: a, y :: b => if bz x =? bz y then bytes_le a b else bz x <? bz y
  end.

Definition meets_target (hash : bytes) (target : Target) : bool := bytes_le hash target.

Definition shl_saturating (target : Target) (bits : Z) : Target :=
  let byte_shift := Z.to_nat (bits / 8) in
  let bit_shift := bits mod 8 in
  let nonzero := existsb (fun b => negb (bz b =? 0)) in
  let at_ i := bz (default (zb 0) (target !! i)) in
  let overflows :=
    if (TARGET_BYTES <=? byte_shift)%nat then nonzero target
    else nonzero (take byte_shift target)
         || ((0 <? bit_shift) && negb (Z.shiftr (at_ byte_shift) (8 - bit_shift) =? 0)) in
  if overflows then replicate TARGET_BYTES (zb 0xff)
  else
    (fun i =>
       if (i <? TARGET_BYTES - byte_shift)%nat then
         let high := at_ (i + byte_shift)%nat in
         let low := at_ (i + byte_shift + 1)%nat in
         zb (if bit_shift =? 0 then high
             else Z.lor (wrap 8 (Z.shiftl high bit_shift)) (Z.shiftr low (8 - bit_shift)))
       else zb 0) <$> seq 0 TARGET_BYTES.

Definition target_for_exponent (exponent : Z) : Target :=
  let bit := sat_sub DIFF1_EXPONENT exponent in
  <[(TARGET_BYTES - 1 - Z.to_nat (bit / 8))%nat := zb (Z.shiftl 1 (bit mod 8))]>
    (zeros TARGET_BYTES).

Definition HIGH_ZERO_BYTES : nat := TARGET_BYTES - Z.to_nat (DIFF1_EXPONENT / 8).

Definition share_target (exponent : Z) : Target :=
  if exponent <? DIFF1_EXPONENT then
    let first_set := (HIGH_ZERO_BYTES + Z.to_nat (exponent / 8))%nat in
    zeros first_set ++ zb (Z.shiftr 0xff (exponent mod 8))
      :: replicate (TARGET_BYTES - first_set - 1) (zb 0xff)
  else zeros TARGET_BYTES.

Definition target_to_bits (target : Target) : Z :=
  match position (fun b => negb (bz b =? 0)) target with
  | None => 0
  | Some first =>
    let size := Z.of_nat (TARGET_BYTES - first) in
    let at_ i := bz (default (zb 0) (target !! i)) in
    let m0 := at_ first in
    let m1 := at_ (first + 1)%nat in
    let m2 := at_ (first + 2)%nat in
    if negb (Z.land m0 COMPACT_TARGET_MANTISSA_SIGN_BIT =? 0) then
      Z.lor (Z.lor (Z.shiftl (size + 1) COMPACT_TARGET_SIZE_SHIFT) (Z.shiftl m0 8)) m1
    else
      Z.lor (Z.lor (Z.lor (Z.shiftl size COMPACT_TARGET_SIZE_SHIFT) (Z.shiftl m0 16))
        (Z.shiftl m1 8)) m2
  end.

Definition share_nbits (exponent : Z) : Z := target_to_bits (share_target exponent).

Definition floor_log2 (diff : Z) : Z := if diff =? 0 then 0 else Z.log2 diff.

Definition difficulty_for_exponent (exponent : Z) : Z := Z.shiftl 1 (Z.land exponent (64 - 1)).

Definition pow2_floor (v : Z) : Z := if v =? 0 then 0 else Z.shiftl 1 (floor_log2 v).

(** [checked_next_power_of_two]. *)
Definition checked_next_power_of_two (v : Z) : option Z :=
  let p := 2 ^ Z.log2_up v in if p <? 2 ^ 64 then Some p else None.

Definition pow2_ceil (v : Z) : Z :=
  if v =? 0 then 0 else default (Z.shiftl 1 (64 - 1)) (checked_next_power_of_two v).

(** ** The order of targets is the order of their values *)

Lemma be_val_cons b l : be_val (b :: l) = bz b * 256 ^ Z.of_nat (length l) + be_val l.
Proof.
  unfold be_val. rewrite reverse_cons, le_val_app, length_reverse. cbn [le_val]. lia.
Qed.

Lemma be_val_app l k : be_val (l ++ k) = be_val l * 256 ^ Z.of_nat (length k) + be_val k.
Proof.
  unfold be_val. rewrite reverse_app, le_val_app, length_reverse. lia.
Qed.

Lemma be_val_inj l k : length l = length k -> be_val l = be_val k -> l = k.
Proof.
  unfold be_val. intros Hlen Hv. apply le_val_inj in Hv; [|by rewrite !length_reverse].
  by apply (inj reverse) in Hv.
Qed.

Lemma bytes_le_val a b : length a = length b -> bytes_le a b = (be_val a <=? be_val b).
Proof.
  revert b; induction a as [|x a IH]; intros [|y b] Hlen; try done.
  cbn [bytes_le]. injection Hlen as Hlen. rewrite !be_val_cons, <- Hlen.
  pose proof (be_val_range a). pose proof (be_val_range b) as Hb. rewrite <- Hlen in Hb.
  pose proof (bz_range x). pose proof (bz_range y).
  set (P := 256 ^ Z.of_nat (length a)) in *.
  destruct (Z.eqb_spec (bz x) (bz y)) as [->|].
  - rewrite IH by done.
    destruct (Z.leb_spec (be_val a) (be_val b)), (Z.leb_spec (bz y * P + be_val a) (bz y * P + be_val b)); lia || done.
  - destruct (Z.ltb_spec (bz x) (bz y)), (Z.leb_spec (bz x * P + be_val a) (bz y * P + be_val b));
      try done; exfalso; nia.
Qed.

(** ** The compact encoding *)

(** The value a compact target names, before the range is checked: consensus'
    [arith_uint256::SetCompact]. *)
Definition compact_value (bits : Z) : Z :=
  let size := bits / 2 ^ 24 in
  let mantissa := bits mod 2 ^ 23 in
  if size <=? 3 then mantissa / 256 ^ (3 - size) else mantissa * 256 ^ (size - 3).

Lemma be_mantissa m : 0 <= m < 2 ^ 24 ->
  drop 1 (be 4 m) = [zb (m / 65536); zb (m / 256); zb m].
Proof.
  intros Hm. unfold be. cbn [le]. unfold reverse. cbn [rev_append drop].
  by rewrite Z.div_div by lia.
Qed.

Lemma existsb_be_val t : existsb (fun b => negb (bz b =? 0)) t = negb (be_val t =? 0).
Proof.
  induction t as [|b t IH]; [done|]. cbn [existsb]. rewrite IH, be_val_cons.
  pose proof (be_val_range t). pose proof (bz_range b).
  set (P := 256 ^ Z.of_nat (length t)) in *.
  destruct (Z.eqb_spec (bz b) 0) as [->|]; [done|].
  symmetry. apply negb_true_iff, Z.eqb_neq. cbn [negb]. nia.
Qed.

Lemma be_val_zeros n : be_val (zeros n) = 0.
Proof.
  induction n as [|n IH]; [done|]. change (zeros (S n)) with (zb 0 :: zeros n).
  rewrite be_val_cons, IH, bz_zb_small by lia. lia.
Qed.

Lemma be_val_insert t i b c :
  t !! i = Some c -> bz c = 0 ->
  be_val (<[i := b]> t) = be_val t + bz b * 256 ^ (zlen t - 1 - Z.of_nat i).
Proof.
  revert i; induction t as [|x t IH]; intros [|i] Hi Hc; cbn in Hi; [done..| |]; simplify_eq.
  - cbn [insert list_insert]. rewrite !be_val_cons, Hc.
    replace (zlen (c :: t) - 1 - Z.of_nat 0) with (Z.of_nat (length t))
      by (rewrite zlen_cons; unfold zlen; lia). lia.
  - change (<[S i := b]> (x :: t)) with (x :: <[i := b]> t).
    rewrite !be_val_cons, length_insert, (IH i) by done.
    replace (zlen (x :: t) - 1 - Z.of_nat (S i)) with (zlen t - 1 - Z.of_nat i)
      by (rewrite zlen_cons; lia). lia.
Qed.

Lemma put_mantissa_in t at_ b :
  0 <= at_ < zlen t -> length t = TARGET_BYTES -> t !! Z.to_nat at_ = Some (zb 0) ->
  put_mantissa t at_ b = Some (<[Z.to_nat at_ := b]> t) /\
  be_val (<[Z.to_nat at_ := b]> t) = be_val t + bz b * 256 ^ (31 - at_).
Proof.
  intros Hat Hlen Ht. unfold zlen in Hat. unfold put_mantissa. rewrite Hlen in Hat.
  rewrite (proj2 (Z.leb_gt _ at_)), (proj2 (Z.leb_le 0 at_)) by lia. split; [done|].
  rewrite (be_val_insert _ _ _ (zb 0)) by done. unfold zlen. rewrite Hlen.
  do 3 f_equal. unfold TARGET_BYTES. lia.
Qed.

Lemma put_mantissa_past t at_ b :
  Z.of_nat TARGET_BYTES <= at_ -> put_mantissa t at_ b = Some t.
Proof. intros. unfold put_mantissa. by rewrite (proj2 (Z.leb_le _ at_)). Qed.

Lemma put_mantissa_before t at_ b :
  at_ < 0 -> put_mantissa t at_ b = if bz b =? 0 then Some t else None.
Proof.
  intros. unfold put_mantissa, TARGET_BYTES.
  by rewrite (proj2 (Z.leb_gt _ at_)), (proj2 (Z.leb_gt 0 at_)) by lia.
Qed.

(** The weight of index [at_] in a target, none past its end. *)
Definition weight (at_ : Z) : Z := if 31 <? at_ then 0 else 256 ^ (31 - at_).

(** A byte within the target or past it adds its weight. *)
Lemma put_mantissa_val t at_ b :
  0 <= at_ -> length t = TARGET_BYTES -> (forall i, at_ <= Z.of_nat i < 32 -> t !! i = Some (zb 0)) ->
  exists t', put_mantissa t at_ b = Some t' /\ length t' = TARGET_BYTES /\
    be_val t' = be_val t + bz b * weight at_ /\
    (forall i, at_ + 1 <= Z.of_nat i < 32 -> t' !! i = Some (zb 0)).
Proof.
  intros Hat Hlen Ht. unfold weight. destruct (Z.ltb_spec 31 at_).
  - exists t. split_and!; [by apply put_mantissa_past; unfold TARGET_BYTES; lia|done|lia|].
    intros. apply Ht. lia.
  - exists (<[Z.to_nat at_ := b]> t).
    assert (t !! Z.to_nat at_ = Some (zb 0)) as Hi by (apply Ht; lia).
    apply (put_mantissa_in _ _ b) in Hi as [-> ->];
      [|unfold zlen; rewrite Hlen; unfold TARGET_BYTES; lia|done].
    split_and!; [done|by rewrite length_insert|done|].
    intros i Hi. rewrite list_lookup_insert_ne by lia. apply Ht. lia.
Qed.

Lemma zeros_lookup i n : (i < n)%nat -> zeros n !! i = Some (zb 0).
Proof. apply lookup_replicate_2. Qed.

(** The three mantissa bytes laid out for a size, against the value they name. *)
Lemma put_mantissas_val size x y z :
  0 <= size <= MAX_COMPACT_TARGET_SIZE ->
  let m := bz x * 65536 + bz y * 256 + bz z in
  let v := if size <=? 3 then m / 256 ^ (3 - size) else m * 256 ^ (size - 3) in
  match put_mantissas (zeros TARGET_BYTES) size 0 [x; y; z] with
  | Some t => length t = TARGET_BYTES /\ be_val t = v
  | None => 2 ^ 256 <= v
  end.
Proof.
  intros Hs m v. unfold MAX_COMPACT_TARGET_SIZE in Hs.
  pose proof (bz_range x). pose proof (bz_range y). pose proof (bz_range z).
  cbn [put_mantissas]. change (Z.of_nat TARGET_BYTES) with 32.
  destruct (Z.lt_ge_cases 32 size).
  - rewrite (put_mantissa_before _ (32 - size + 0)) by lia.
    assert (size = 33 \/ size = 34) as [->| ->] by lia; subst v m; cbn [Z.leb Z.compare Pos.compare Pos.compare_cont].
    + destruct (Z.eqb_spec (bz x) 0) as [Hx|]; cbn [mbind option_bind]; [|nia].
      destruct (put_mantissa_val (zeros TARGET_BYTES) 0 y) as (t & Et & Hl & Hv & Hz);
        [done|done|by intros; apply zeros_lookup; unfold TARGET_BYTES; lia|].
      change (32 - 33 + (0 + 1)) with 0. rewrite Et. cbn [mbind option_bind].
      destruct (put_mantissa_val t 1 z) as (t' & Et' & Hl' & Hv' & Hz'); [done|done|done|].
      change (32 - 33 + (0 + 1 + 1)) with 1. rewrite Et'. cbn [mbind option_bind].
      split; [done|]. rewrite Hv', Hv, be_val_zeros, Hx. change (weight 0) with (256 ^ 31).
      change (weight 1) with (256 ^ 30). change (33 - 3) with 30. lia.
    + destruct (Z.eqb_spec (bz x) 0) as [Hx|]; cbn [mbind option_bind]; [|nia].
      rewrite put_mantissa_before by lia.
      destruct (Z.eqb_spec (bz y) 0) as [Hy|]; cbn [mbind option_bind]; [|nia].
      destruct (put_mantissa_val (zeros TARGET_BYTES) 0 z) as (t & Et & Hl & Hv & Hz);
        [done|done|by intros; apply zeros_lookup; unfold TARGET_BYTES; lia|].
      change (32 - 34 + (0 + 1 + 1)) with 0. rewrite Et. cbn [mbind option_bind].
      split; [done|]. rewrite Hv, be_val_zeros, Hx, Hy. change (weight 0) with (256 ^ 31).
      change (34 - 3) with 31. lia.
  - destruct (put_mantissa_val (zeros TARGET_BYTES) (32 - size + 0) x) as (t & -> & Hl & Hv & Hz);
      [lia|done|by intros; apply zeros_lookup; unfold TARGET_BYTES; lia|]. cbn [mbind option_bind].
    destruct (put_mantissa_val t (32 - size + (0 + 1)) y) as (t' & -> & Hl' & Hv' & Hz');
      [lia|done|intros; apply Hz; lia|]. cbn [mbind option_bind].
    destruct (put_mantissa_val t' (32 - size + (0 + 1 + 1)) z) as (t'' & -> & Hl'' & Hv'' & _);
      [lia|done|intros; apply Hz'; lia|]. cbn [mbind option_bind].
    split; [done|]. rewrite Hv'', Hv', Hv, be_val_zeros. unfold weight. subst v m.
    destruct (Z.leb_spec size 3).
    + by assert (size = 0 \/ size = 1 \/ size = 2 \/ size = 3) as [->|[->|[->| ->]]] by lia;
        eval_consts; clear -H H0 H1; Z.to_euclidean_division_equations; lia.
    + rewrite !(proj2 (Z.ltb_ge _ _)) by lia.
      replace (31 - (32 - size + 0)) with (size - 3 + 2) by lia.
      replace (31 - (32 - size + (0 + 1))) with (size - 3 + 1) by lia.
      replace (31 - (32 - size + (0 + 1 + 1))) with (size - 3) by lia.
      rewrite !Z.pow_add_r by lia. change (256 ^ 2) with 65536. change (256 ^ 1) with 256. lia.
Qed.

(** [bits_to_target] is consensus' [DeriveTarget] short of the
    proof-of-work limit: the target is the 256-bit value the compact encoding
    names, and the refusals are the sign bit, a value of zero and a value past
    256 bits, no more and no less. *)
Theorem bits_to_target_spec (bits : Z) :
  uint 32 bits ->
  bits_to_target bits =
  if Z.testbit bits 23 || (compact_value bits =? 0) || (2 ^ 256 <=? compact_value bits)
  then None else Some (be TARGET_BYTES (compact_value bits)).
Proof.
  unfold uint. intros Hbits. unfold bits_to_target.
  change (Z.land bits COMPACT_TARGET_SIGN_BIT) with (Z.land bits (Z.shiftl 1 23)).
  pose proof (has_bits_testbit bits 23 ltac:(done)) as Hsign. unfold has_bits in Hsign.
  rewrite Hsign. destruct (Z.testbit bits 23); [done|]. cbn [orb].
  unfold COMPACT_TARGET_SIZE_SHIFT. rewrite Z.shiftr_div_pow2 by done.
  change COMPACT_TARGET_MANTISSA_MASK with (2 ^ 23 - 1). rewrite land_mask by done.
  pose proof (Z.mod_pos_bound bits (2 ^ 23) ltac:(done)) as Hm.
  assert (0 <= bits / 2 ^ 24 < 256) by (Z.to_euclidean_division_equations; lia).
  rewrite be_mantissa by lia. unfold compact_value.
  set (m := bits mod 2 ^ 23) in *. set (size := bits / 2 ^ 24) in *.
  destruct (Z.ltb_spec MAX_COMPACT_TARGET_SIZE size) as [Hs|Hs].
  - unfold MAX_COMPACT_TARGET_SIZE in Hs. rewrite (proj2 (Z.leb_gt size 3)) by lia.
    destruct (Z.eqb_spec (m * 256 ^ (size - 3)) 0); [done|]. cbn [orb].
    rewrite (proj2 (Z.leb_le _ _)); [done|].
    assert (256 ^ 32 <= 256 ^ (size - 3)) by (apply Z.pow_le_mono_r; lia).
    change (2 ^ 256) with (1 * 256 ^ 32). assert (m <> 0) by (intros Hm0; rewrite Hm0 in *; lia).
    apply Z.mul_le_mono_nonneg; lia.
  - pose proof (put_mantissas_val size (zb (m / 65536)) (zb (m / 256)) (zb m) ltac:(lia)) as Hput.
    cbn zeta in Hput. rewrite !bz_zb in Hput.
    replace (m / 65536 mod 256 * 65536 + m / 256 mod 256 * 256 + m mod 256) with m in Hput
      by (clearbody m; clear -Hm; Z.to_euclidean_division_equations; lia).
    set (v := if size <=? 3 then _ else _) in *.
    destruct (put_mantissas _ _ _ _) as [t|]; cbn [mbind option_bind].
    + destruct Hput as [Hlen Hv]. rewrite existsb_be_val, Hv.
      pose proof (be_val_range t) as Hr. rewrite Hlen, Hv in Hr.
      change (256 ^ Z.of_nat TARGET_BYTES) with (2 ^ 256) in Hr.
      rewrite (proj2 (Z.leb_gt _ v)) by lia. rewrite orb_false_r.
      destruct (v =? 0); [done|]. cbn [negb]. f_equal. apply be_val_inj.
      { by rewrite length_be. }
      rewrite be_val_be. by rewrite Z.mod_small.
    + rewrite (proj2 (Z.leb_le _ v)) by done. by rewrite orb_true_r.
Qed.

Lemma bits_to_target_spec_witness :
  bits_to_target 0x1d00ffff = Some (be TARGET_BYTES (0xffff * 2 ^ 208)).
Proof. exact (bits_to_target_spec 0x1d00ffff ltac:(by vm_compute)). Defined.

(** ** The saturating shift *)

(** The bytes of a shift by less than a byte, its overflow dropped. *)
Fixpoint shl_bytes (k : Z) (l : bytes) : bytes :=
  match l with
  | [] => []
  | b :: l =>
    zb (if k =? 0 then bz b
        else Z.lor (wrap 8 (Z.shiftl (bz b) k)) (Z.shiftr (bz (default (zb 0) (head l))) (8 - k)))
    :: shl_bytes k l
  end.

Lemma length_shl_bytes k l : length (shl_bytes k l) = length l.
Proof. induction l; cbn; congruence. Qed.

(** What a shift of less than a byte carries out of a buffer. *)
Lemma be_val_carry k l :
  0 < k < 8 ->
  be_val l * 2 ^ k / 256 ^ zlen l = Z.shiftr (bz (default (zb 0) (head l))) (8 - k).
Proof.
  intros Hk. rewrite Z.shiftr_div_pow2 by lia. destruct l as [|b l].
  { change (be_val []) with 0. change (bz (default (zb 0) (head []))) with 0.
    by rewrite Z.mul_0_l, !Z.div_0_l by (apply Z.pow_nonzero; unfold zlen; lia). }
  cbn [head default from_option id]. rewrite be_val_cons, zlen_cons, Z.pow_add_r by
    (pose proof (zlen_nonneg l); lia).
  pose proof (be_val_range l) as Hl. fold (zlen l) in *. set (P := 256 ^ zlen l) in *.
  assert (0 < P) by lia. change (256 ^ 1) with (2 ^ 8).
  replace 8 with (k + (8 - k)) at 1 by lia. rewrite Z.pow_add_r by lia.
  assert (0 < 2 ^ k) by (apply Z.pow_pos_nonneg; lia).
  assert (0 < 2 ^ (8 - k)) by (apply Z.pow_pos_nonneg; lia).
  replace (2 ^ k * 2 ^ (8 - k) * P) with (2 ^ (8 - k) * P * 2 ^ k) by lia.
  rewrite Z.div_mul_cancel_r by lia. rewrite (Z.mul_comm (2 ^ (8 - k))).
  rewrite <- Z.div_div by lia. f_equal. rewrite Z.div_add_l by lia.
  rewrite (Z.div_small _ P) by lia. lia.
Qed.

Lemma be_val_shl_bytes k l :
  0 <= k < 8 -> be_val (shl_bytes k l) = (be_val l * 2 ^ k) mod 256 ^ zlen l.
Proof.
  intros Hk. induction l as [|b l IH]; [done|]. cbn [shl_bytes].
  rewrite !be_val_cons, length_shl_bytes, IH, bz_zb, zlen_cons.
  rewrite Z.pow_add_r by (pose proof (zlen_nonneg l); lia). change (256 ^ 1) with 256.
  fold (zlen l). pose proof (be_val_range l) as Hl. fold (zlen l) in Hl.
  pose proof (bz_range b). set (P := 256 ^ zlen l) in *. assert (0 < P) by lia.
  rewrite (Z.mul_comm 256 P), Z.rem_mul_r by lia.
  rewrite Z.mul_add_distr_r, <- Z.mul_assoc, (Z.mul_comm P), Z.mul_assoc.
  rewrite (Z.add_comm (bz b * 2 ^ k * P)), Z.mod_add, Z.div_add by lia.
  destruct (Z.eqb_spec k 0) as [->|].
  - change (2 ^ 0) with 1. rewrite !Z.mul_1_r, (Z.div_small (be_val l) P) by lia.
    rewrite Z.add_0_l. ring.
  - rewrite be_val_carry by lia.
    pose proof (bz_range (default (zb 0) (head l))).
    assert (0 <= Z.shiftr (bz (default (zb 0) (head l))) (8 - k) < 2 ^ k) as Hc.
    { rewrite Z.shiftr_div_pow2 by lia. split; [apply Z.div_pos; lia|].
      apply Z.div_lt_upper_bound; [lia|]. rewrite <- Z.pow_add_r by lia.
      replace (8 - k + k) with 8 by lia. lia. }
    set (c := Z.shiftr _ _) in *. unfold wrap. rewrite Z.shiftl_mul_pow2 by lia.
    assert (2 ^ 8 = 2 ^ (8 - k) * 2 ^ k) as E8 by (rewrite <- Z.pow_add_r by lia; f_equal; lia).
    rewrite E8, Z.mul_mod_distr_r, <- (Z.shiftl_mul_pow2 (_ mod _)), lor_shiftl_add by lia.
    change 256 with (2 ^ 8). rewrite E8.
    replace (c + bz b * 2 ^ k) with (bz b * 2 ^ k + c) by lia.
    assert (0 < 2 ^ (8 - k)) by (apply Z.pow_pos_nonneg; lia).
    rewrite (Z.mul_comm (2 ^ (8 - k)) (2 ^ k)), (Z.rem_mul_r (bz b * 2 ^ k + c)),
      (Z.rem_mul_r (bz b mod _ * 2 ^ k + c)) by lia.
    rewrite !(Z.add_comm (_ * 2 ^ k)), !Z.mod_add, !Z.div_add, !(Z.div_small c) by lia.
    rewrite !Z.add_0_l, Z.mod_mod by lia. lia.
Qed.

Lemma shl_bytes_lookup k l i :
  shl_bytes k l !! i =
  (fun b => zb (if k =? 0 then bz b
     else Z.lor (wrap 8 (Z.shiftl (bz b) k)) (Z.shiftr (bz (default (zb 0) (l !! S i))) (8 - k))))
  <$> (l !! i).
Proof.
  revert i; induction l as [|b l IH]; intros [|i]; try done.
  - cbn. by destruct l.
  - change (shl_bytes k l !! i = (fun b => zb (if k =? 0 then bz b
      else Z.lor (wrap 8 (Z.shiftl (bz b) k)) (Z.shiftr (bz (default (zb 0) (l !! S i))) (8 - k))))
      <$> (l !! i)). apply IH.
Qed.

(** The loop over the output slots is the shift of the bytes kept. *)
Lemma shl_loop target bs k :
  length target = TARGET_BYTES -> (bs <= TARGET_BYTES)%nat ->
  let at_ i := bz (default (zb 0) (target !! i)) in
  (fun i =>
     if (i <? TARGET_BYTES - bs)%nat then
       zb (if k =? 0 then at_ (i + bs)%nat
           else Z.lor (wrap 8 (Z.shiftl (at_ (i + bs)%nat) k))
                  (Z.shiftr (at_ (i + bs + 1)%nat) (8 - k)))
     else zb 0) <$> seq 0 TARGET_BYTES
  = shl_bytes k (drop bs target) ++ zeros bs.
Proof.
  intros Hlen Hbs at_. apply list_eq. intros i. rewrite list_lookup_fmap.
  destruct (Nat.lt_ge_cases i TARGET_BYTES).
  - rewrite lookup_seq_lt by done. cbn [fmap option_fmap option_map Nat.add].
    destruct (Nat.ltb_spec i (TARGET_BYTES - bs)).
    + rewrite lookup_app_l by (rewrite length_shl_bytes, length_drop; lia).
      rewrite shl_bytes_lookup, !lookup_drop.
      destruct (lookup_lt_is_Some_2 target (bs + i)) as [b Hb]; [lia|]. rewrite Hb.
      cbn [fmap option_fmap option_map]. unfold at_.
      replace (i + bs + 1)%nat with (bs + S i)%nat by lia.
      rewrite (Nat.add_comm i bs), Hb. done.
    + rewrite lookup_app_r by (rewrite length_shl_bytes, length_drop; lia).
      rewrite zeros_lookup; [done|]. rewrite length_shl_bytes, length_drop. lia.
  - rewrite lookup_seq_ge by done. symmetry. apply lookup_ge_None_2.
    rewrite length_app, length_shl_bytes, length_drop, length_zeros. lia.
Qed.

Lemma be_val_ones : be_val (replicate TARGET_BYTES (zb 0xff)) = 2 ^ 256 - 1.
Proof. by vm_compute. Qed.

Lemma be_ones : replicate TARGET_BYTES (zb 255) = be TARGET_BYTES (2 ^ 256 - 1).
Proof.
  apply be_val_inj; [by rewrite length_be|]. rewrite be_val_ones, be_val_be. by rewrite Z.mod_small.
Qed.

(** The bits shifted out of the first byte kept are the part past its width. *)
Lemma be_val_carries k l :
  0 <= k < 8 ->
  (0 <? k) && negb (Z.shiftr (bz (default (zb 0) (head l))) (8 - k) =? 0) =
  (256 ^ zlen l <=? be_val l * 2 ^ k).
Proof.
  intros Hk. pose proof (be_val_range l) as Hr. fold (zlen l) in Hr. set (P := 256 ^ zlen l) in *.
  destruct (Z.ltb_spec 0 k).
  - cbn [andb]. rewrite <- be_val_carry by lia. fold P.
    destruct (Z.leb_spec P (be_val l * 2 ^ k)).
    + apply negb_true_iff, Z.eqb_neq.
      assert (1 <= be_val l * 2 ^ k / P) by (apply Z.div_le_lower_bound; lia). lia.
    + apply negb_false_iff, Z.eqb_eq. apply Z.div_small.
      assert (0 < 2 ^ k) by (apply Z.pow_pos_nonneg; lia). nia.
  - replace k with 0 in * by lia. symmetry. apply Z.leb_gt. lia.
Qed.

(** A shift by the whole width or more leaves no byte. *)
Lemma shl_loop_past (g : nat -> byte) bs :
  (TARGET_BYTES <= bs)%nat ->
  (fun i => if (i <? TARGET_BYTES - bs)%nat then g i else zb 0) <$> seq 0 TARGET_BYTES =
  be TARGET_BYTES (Z.min 0 (2 ^ 256 - 1)).
Proof.
  intros Hbs. change (be TARGET_BYTES (Z.min 0 (2 ^ 256 - 1))) with (zeros TARGET_BYTES).
  apply list_eq. intros i. rewrite list_lookup_fmap. destruct (Nat.lt_ge_cases i TARGET_BYTES).
  - rewrite lookup_seq_lt by done. cbn [fmap option_fmap option_map].
    rewrite (proj2 (Nat.ltb_ge _ _)) by lia. by rewrite zeros_lookup.
  - rewrite lookup_seq_ge, lookup_ge_None_2; [done|by rewrite length_zeros|done].
Qed.

(** [shl_saturating] multiplies a target by a power of two and stops at the
    largest target: no shift, however large, makes a target harder to meet. *)
Theorem shl_saturating_spec (target : Target) (bits : Z) :
  length target = TARGET_BYTES -> 0 <= bits ->
  shl_saturating target bits =
  be TARGET_BYTES (Z.min (be_val target * 2 ^ bits) (2 ^ 256 - 1)).
Proof.
  intros Hlen Hbits. pose proof (be_val_range target) as Hr. rewrite Hlen in Hr.
  change (256 ^ Z.of_nat TARGET_BYTES) with (2 ^ 256) in Hr.
  unfold shl_saturating. cbn zeta. set (k := bits mod 8). set (bs := Z.to_nat (bits / 8)).
  assert (0 <= k < 8) by (apply Z.mod_pos_bound; lia).
  assert (0 <= bits / 8) by (apply Z.div_pos; lia).
  assert (2 ^ bits = 256 ^ Z.of_nat bs * 2 ^ k) as ->.
  { unfold bs. rewrite Z2Nat.id by lia. change 256 with (2 ^ 8).
    rewrite <- Z.pow_mul_r, <- Z.pow_add_r by lia. f_equal. unfold k.
    rewrite (Z.div_mod bits 8) at 1 by lia. lia. }
  assert (0 < 2 ^ k) by (apply Z.pow_pos_nonneg; lia).
  destruct (Nat.leb_spec TARGET_BYTES bs) as [Hbs|Hbs].
  - rewrite existsb_be_val. assert (2 ^ 256 <= 256 ^ Z.of_nat bs).
    { change (2 ^ 256) with (256 ^ Z.of_nat TARGET_BYTES). apply Z.pow_le_mono_r; lia. }
    destruct (Z.eqb_spec (be_val target) 0) as [Hz|Hz]; cbn [negb].
    + rewrite Hz, Z.mul_0_l. by rewrite shl_loop_past by lia.
    + rewrite Z.min_r by nia. apply be_ones.
  - pose proof (take_drop bs target) as Htd. set (hi := take bs target) in *.
    set (lo := drop bs target) in *.
    assert (length lo = TARGET_BYTES - bs)%nat as Hlo by (unfold lo; rewrite length_drop; lia).
    assert (be_val target = be_val hi * 256 ^ zlen lo + be_val lo) as Hv
      by (rewrite <- Htd, be_val_app; done).
    pose proof (be_val_range hi) as Hhi. pose proof (be_val_range lo) as Hlr.
    assert (256 ^ zlen lo * 256 ^ Z.of_nat bs = 2 ^ 256) as Hpow.
    { rewrite <- Z.pow_add_r by (unfold zlen; lia). change (2 ^ 256) with (256 ^ 32). f_equal.
      unfold zlen. rewrite Hlo. unfold TARGET_BYTES in *. lia. }
    fold (zlen lo) in Hlr. set (P := 256 ^ zlen lo) in *.
    assert (0 < 256 ^ Z.of_nat bs) by (apply Z.pow_pos_nonneg; lia).
    set (Q := 256 ^ Z.of_nat bs) in *.
    assert (head lo = target !! bs) as Hhead.
    { unfold lo. by rewrite <- (Nat.add_0_r bs), <- lookup_drop, Nat.add_0_r, head_lookup. }
    rewrite existsb_be_val, <- Hhead.
    rewrite be_val_carries by lia. fold P.
    rewrite shl_loop by lia. fold lo.
    destruct (Z.eqb_spec (be_val hi) 0) as [Hz|Hz]; cbn [negb orb].
    + rewrite Hz in Hv. destruct (Z.leb_spec P (be_val lo * 2 ^ k)) as [Hov|Hov].
      * rewrite Z.min_r by nia. apply be_ones.
      * rewrite Z.min_l by nia. apply be_val_inj.
        { rewrite length_be, length_app, length_shl_bytes, length_zeros. lia. }
        rewrite be_val_be, be_val_app, be_val_shl_bytes, be_val_zeros, length_zeros by done.
        fold P Q. change (256 ^ Z.of_nat TARGET_BYTES) with (2 ^ 256).
        rewrite !Z.mod_small by nia. rewrite Hv. lia.
    + assert (P <= be_val target) by nia.
      assert (P * Q <= be_val target * (Q * 2 ^ k)) by (apply Z.mul_le_mono_nonneg; nia).
      rewrite Z.min_r by lia. apply be_ones.
Qed.

Lemma shl_saturating_spec_witness :
  shl_saturating (target_for_exponent 0) 7 = be TARGET_BYTES (2 ^ 231) /\
  shl_saturating (target_for_exponent 0) 40 = be TARGET_BYTES (2 ^ 256 - 1).
Proof.
  split; rewrite (shl_saturating_spec (target_for_exponent 0)) by done; by vm_compute.
Defined.

(** ** The share exponents *)

(** The check of one exponent the next theorem is the sum of. *)
Definition share_exponent_check (e : Z) : bool :=
  bool_decide (target_for_exponent e = be TARGET_BYTES (2 ^ (224 - e))) &&
  bool_decide (share_target e = be TARGET_BYTES (2 ^ (224 - e) - 1)) &&
  match bits_to_target (share_nbits e) with
  | Some t => (be_val t <=? be_val (share_target e)) &&
              (be_val (share_target e) <? be_val t + Z.max 1 (2 ^ (208 - e)))
  | None => false
  end.

Lemma share_exponent_checked e : 0 <= e < DIFF1_EXPONENT -> share_exponent_check e = true.
Proof.
  unfold DIFF1_EXPONENT. intros He.
  assert (forallb share_exponent_check (seqZ 0 224) = true) as Hall by (vm_compute; done).
  rewrite forallb_forall in Hall. specialize (Hall e). rewrite <- list_elem_of_In, elem_of_seqZ in Hall.
  by apply Hall.
Qed.

(** Meeting a share target is a bound on the hash as a number. *)
Lemma meets_target_for_exponent hash e : length hash = TARGET_BYTES -> 0 <= e < DIFF1_EXPONENT ->
  meets_target hash (target_for_exponent e) = (be_val hash <=? 2 ^ (DIFF1_EXPONENT - e)).
Proof.
  intros Hl He. pose proof (share_exponent_checked e He) as Hc. unfold share_exponent_check in Hc. reflect_Z.
  match goal with H : target_for_exponent e = _ |- _ => rewrite H end.
  unfold meets_target. rewrite bytes_le_val by (by rewrite length_be). rewrite be_val_be, Z.mod_small; [done|].
  unfold DIFF1_EXPONENT in He. change (256 ^ Z.of_nat TARGET_BYTES) with (2 ^ 256). split; [lia|].
  apply Z.pow_lt_mono_r; lia.
Qed.

(** for every share exponent, the target a share is checked against is
    [2^(224-e)], the largest value below it is the target its compact bits are
    taken from, and those bits decode to a target that is never easier than it
    and within one part in 2^16 of it. *)
Theorem share_exponent_targets (e : Z) :
  0 <= e < DIFF1_EXPONENT ->
  target_for_exponent e = be TARGET_BYTES (2 ^ (224 - e)) /\
  share_target e = be TARGET_BYTES (2 ^ (224 - e) - 1) /\
  exists t, bits_to_target (share_nbits e) = Some t /\
    be_val t <= be_val (share_target e) < be_val t + Z.max 1 (2 ^ (208 - e)).
Proof.
  intros He. pose proof (share_exponent_checked e He) as Hc. unfold share_exponent_check in Hc. reflect_Z.
  destruct (bits_to_target (share_nbits e)) as [t|]; [|done]. reflect_Z.
  split_and!; [done|done|]. by exists t.
Qed.

Lemma share_exponent_targets_witness : exists t,
  bits_to_target (share_nbits 4) = Some t /\
  be_val t <= be_val (share_target 4) < be_val t + Z.max 1 (2 ^ (208 - 4)).
Proof. apply (share_exponent_targets 4). by vm_compute. Defined.

(** ** The powers of two around a difficulty *)

(** [pow2_floor] is the largest power of two at most a difficulty, the
    difficulty of its [floor_log2] exponent; [pow2_ceil] is the smallest at least
    it, except that past 2^63 it stops there. *)
Theorem pow2_bounds (v : Z) :
  uint 64 v -> 0 < v ->
  pow2_floor v = difficulty_for_exponent (floor_log2 v) /\
  pow2_floor v <= v < 2 * pow2_floor v /\
  uint 6 (floor_log2 v) /\
  (exists k, 0 <= k /\ pow2_ceil v = 2 ^ k) /\
  (if v <=? 2 ^ 63 then v <= pow2_ceil v < 2 * v else pow2_ceil v = 2 ^ 63).
Proof.
  unfold uint. intros Hv Hpos.
  unfold pow2_floor, difficulty_for_exponent, floor_log2, pow2_ceil, checked_next_power_of_two.
  rewrite (proj2 (Z.eqb_neq v 0)) by lia.
  pose proof (Z.log2_spec v Hpos) as [Hlo Hhi]. pose proof (Z.log2_nonneg v).
  assert (Z.log2 v < 64) by (apply Z.log2_lt_pow2; lia).
  assert (0 <= Z.log2_up v) by apply Z.log2_up_nonneg.
  assert (v <= 2 ^ Z.log2_up v < 2 * v) as Hup.
  { destruct (Z.eq_dec v 1) as [->|]; [done|].
    pose proof (Z.log2_up_spec v ltac:(lia)) as [Hl Hr]. split; [done|].
    replace (Z.log2_up v) with (Z.succ (Z.pred (Z.log2_up v))) by lia.
    pose proof (Z.log2_up_pos v ltac:(lia)). rewrite Z.pow_succ_r by lia. lia. }
  change (64 - 1) with (2 ^ 6 - 1). rewrite land_mask, (Z.mod_small _ (2 ^ 6)) by lia.
  rewrite Z.shiftl_1_l. rewrite Z.pow_succ_r in Hhi by lia.
  split_and!; [done|lia..| |].
  - destruct (Z.ltb_spec (2 ^ Z.log2_up v) (2 ^ 64)); cbn [default from_option id].
    + by exists (Z.log2_up v).
    + exists 63. split; [lia|]. done.
  - destruct (Z.ltb_spec (2 ^ Z.log2_up v) (2 ^ 64)) as [Hlt|Hge];
      destruct (Z.leb_spec v (2 ^ 63)) as [Hle|Hgt]; cbn [default from_option id]; try lia.
    + exfalso. apply Z.pow_lt_mono_r_iff in Hlt; [|lia|lia].
      assert (2 ^ Z.log2_up v <= 2 ^ 63) by (apply Z.pow_le_mono_r; lia). lia.
    + done.
Qed.

Lemma pow2_bounds_witness :
  pow2_floor 1000 = 512 /\ (if 1000 <=? 2 ^ 63 then 1000 <= pow2_ceil 1000 < 2 * 1000
                            else pow2_ceil 1000 = 2 ^ 63).
Proof.
  split; [done|]. apply (pow2_bounds 1000); [by vm_compute|done].
Defined.
