(* ===== verification/Header.v ===== *)
(** The version 2 block header ([core/src/header.rs]): its 164-byte wire form,
    the tagged hash stages, the ASIC input of each profile, the work root a
    miner reaches from the stratum fields, and the XOR key mask between the
    proof-of-work hash and the block hash. *)
From S2P Require Import Prelude Reader Bitcoin Target.
From Stdlib Require Strings.String.

Definition HEADER_V2_SIZE : Z := 164.
Definition V2_FLAG : Z := 0x80000000.
Definition FLAG_USE_TIME_OFFSET : Z := 4.
Definition FLAG_PROFILE_MASK : Z := 3.
Definition ASIC_INPUT_LEN : list Z := [80; 80; 128; 160].
Definition ASIC_INPUT_LEADING_ZEROS : list nat := [0; 0; 48; 80]%nat.
Definition SIA_WORD_LEN : nat := 4.
Definition SIA_WORDS_LEN : nat := 2 * SIA_WORD_LEN.
Definition WORK_ROOT_LEAF_SIZE : nat := 52.
Definition WORK_ROOT_H2_OFFSET : nat := 4.
Definition COINB1_LEADING_ZEROS : nat := WORK_ROOT_H2_OFFSET - 1.
Definition H2_MM_RHS_OFFSET : nat := 64.
Definition PREVBLOCK_HIDDEN_CLEARED_BYTES : nat := 6.

(** An [i32] from the [u32] of the same bits. *)
Definition as_i32 (v : Z) : Z := if v <? 2 ^ 31 then v else v - 2 ^ 32.

Record BlockHeaderV2 := {
  version : Z;
  prev_block : bytes;
  merkle_root : bytes;
  time : Z;
  bits : Z;
  nonce : Z;
  nonce2 : Z;
  nonce3 : Z;
  extranonce : bytes;
  time_offset : Z;
  txcount : Z;
  flags : Z;
  xor_key_mask_clear_bits : Z;
  xor_key : bytes;
  height : Z;
  mm_rhs : bytes;
}.

#[global] Instance BlockHeaderV2_eq_dec : EqDecision BlockHeaderV2.
Proof. solve_decision. Defined.

Definition time_on_wire (h : BlockHeaderV2) : Z :=
  if Z.land (flags h) FLAG_USE_TIME_OFFSET =? 0 then time h
  else wrap 32 (time h - time_offset h).

Definition asic_profile (h : BlockHeaderV2) : Z := Z.land (flags h) FLAG_PROFILE_MASK.

Definition serialize (h : BlockHeaderV2) : bytes :=
  le 4 (Z.lor V2_FLAG (Z.land (wrap 32 (version h)) (lnot 32 V2_FLAG))) ++
  prev_block h ++
  merkle_root h ++
  le 4 (time_on_wire h) ++
  le 4 (bits h) ++
  le 4 (nonce h) ++
  le 4 (nonce2 h) ++
  le 4 (nonce3 h) ++
  extranonce h ++
  le 4 (time_offset h) ++
  le 2 (txcount h) ++
  [zb (flags h)] ++
  [zb (xor_key_mask_clear_bits h)] ++
  xor_key h ++
  le 4 (height h) ++
  mm_rhs h.

(** The fields in their order, each failing the whole; the version word that
    lacks the flag fails it too. *)
Definition read_header : parser Truncated (option BlockHeaderV2) :=
  v ← u32 "version";
  if Z.land v V2_FLAG =? 0 then mret None else
  prev_block ← arr 32 "prev block";
  merkle_root ← arr 32 "merkle root";
  time ← u32 "time";
  bits ← u32 "bits";
  nonce ← u32 "nonce";
  nonce2 ← u32 "nonce2";
  nonce3 ← u32 "nonce3";
  extranonce ← arr 16 "extranonce";
  time_offset ← u32 "time offset";
  txcount ← u16 "txcount";
  flags ← u8 "flags";
  xor_key_mask_clear_bits ← u8 "xor key mask clear bits";
  xor_key ← arr 16 "xor key";
  height ← u32 "height";
  mm_rhs ← arr 32 "mm rhs";
  let time := if negb (Z.land flags FLAG_USE_TIME_OFFSET =? 0)
              then wrap 32 (time + time_offset) else time in
  mret (Some {| version := as_i32 (Z.land v (lnot 32 V2_FLAG)); prev_block := prev_block;
    merkle_root := merkle_root; time := time; bits := bits; nonce := nonce; nonce2 := nonce2;
    nonce3 := nonce3; extranonce := extranonce; time_offset := time_offset; txcount := txcount;
    flags := flags; xor_key_mask_clear_bits := xor_key_mask_clear_bits; xor_key := xor_key;
    height := as_i32 height; mm_rhs := mm_rhs |}).

Definition deserialize (b : bytes) : option BlockHeaderV2 :=
  if negb (zlen b =? HEADER_V2_SIZE) then None else mjoin (ok (parse_all read_header b)).

Definition asic_input_body (head sia_nonce sia_ntime work_root : bytes) : bytes :=
  head ++ sia_nonce ++ sia_ntime ++ work_root.

Definition sia_words (low high : Z) : bytes := le SIA_WORD_LEN low ++ le SIA_WORD_LEN high.

Section hashing.
Context `{Digests}.

Definition tagged_sha256 (tag : string) (data : bytes) : bytes :=
  let t := sha256_digest (String.list_byte_of_string tag) in
  sha256_digest (t ++ t ++ data).

Definition blake2b_256 (data : bytes) : bytes := blake2b_256_digest data.

Definition xor_key_hash (xor_key : bytes) : bytes :=
  tagged_sha256 "Bitcoin block hash PoW XOR key" xor_key.

Definition prevblock_hidden (prev_block : bytes) : bytes :=
  let display := reversed prev_block in
  let out := tagged_sha256 "Bitcoin prevblock header, hashed" display in
  zeros PREVBLOCK_HIDDEN_CLEARED_BYTES ++ drop PREVBLOCK_HIDDEN_CLEARED_BYTES out.

Definition xor_key_mask (xor_key : bytes) (clear_bits : Z) : bytes :=
  if forallb (fun b => bz b =? 0) xor_key then zeros 32
  else
    let m := tagged_sha256 "Bitcoin block hash PoW XOR mask" xor_key in
    let clear_bytes := Z.to_nat (clear_bits / 8) in
    let m := zeros (clear_bytes `min` length m) ++ drop clear_bytes m in
    match m !! clear_bytes with
    | Some b => <[clear_bytes := zb (Z.land (bz b) (Z.shiftr 255 (clear_bits mod 8)))]> m
    | None => m
    end.

Definition work_root (h2 extranonce : bytes) : bytes :=
  blake2b_256 (zeros WORK_ROOT_H2_OFFSET ++ h2 ++ extranonce).

Definition STRATUM_LEAF_PREFIX_LEN : nat := WORK_ROOT_H2_OFFSET - COINB1_LEADING_ZEROS.

Definition work_root_from_stratum (coinb1 extranonce coinb2 : bytes) : option bytes :=
  let leaf := zeros STRATUM_LEAF_PREFIX_LEN ++ coinb1 ++ extranonce ++ coinb2 in
  if (length leaf =? WORK_ROOT_LEAF_SIZE)%nat then Some (blake2b_256 leaf) else None.

Definition asic_input_with (h : BlockHeaderV2) (work_root h2 : bytes) : bytes :=
  let profile := asic_profile h in
  if profile =? 1 then
    le 4 (nonce h) ++ le 4 (nonce2 h) ++ le 4 (nonce3 h) ++ le 4 (time_offset h) ++
    work_root ++ h2
  else
    let head := if profile =? 0 then prevblock_hidden (prev_block h) else h2 in
    zeros (default 0%nat (ASIC_INPUT_LEADING_ZEROS !! Z.to_nat profile)) ++
    asic_input_body head (sia_words (nonce h) (nonce2 h))
      (sia_words (time_offset h) (nonce3 h)) work_root.

Record HashStages := {
  stage_h1 : bytes;
  stage_h2 : bytes;
  stage_work_root : bytes;
  stage_xor_key_mask : bytes;
}.

Definition hash_stages_with_key_hash (h : BlockHeaderV2) (xor_key_hash : bytes) : HashStages :=
  let prev_display := reversed (prev_block h) in
  let h1d :=
    le 4 (Z.lor (wrap 32 (version h)) V2_FLAG) ++
    prev_display ++
    le 4 (height h) ++
    merkle_root h ++
    le 4 (time_on_wire h) ++
    [zb 0] ++
    le 4 (bits h) ++
    le 4 (txcount h) ++
    [zb (flags h)] ++
    [zb (xor_key_mask_clear_bits h)] ++
    xor_key_hash in
  let h1 := tagged_sha256 "Bitcoin block header 1" h1d in
  let h2d := h1 ++ zeros (H2_MM_RHS_OFFSET - length h1) ++ mm_rhs h in
  let h2 := tagged_sha256 "Merge-mining hook" h2d in
  {| stage_h1 := h1; stage_h2 := h2; stage_work_root := work_root h2 (extranonce h);
     stage_xor_key_mask := xor_key_mask (xor_key h) (xor_key_mask_clear_bits h) |}.

Definition hash_stages (h : BlockHeaderV2) : HashStages :=
  hash_stages_with_key_hash h (xor_key_hash (xor_key h)).

Definition raw_pow_hash (h : BlockHeaderV2) (stages : HashStages) : bytes :=
  blake2b_256 (asic_input_with h (stage_work_root stages) (stage_h2 stages)).

(** [*b ^= m] over the bytes of the two. *)
Definition xor_bytes (a m : bytes) : bytes := zip_with (fun b m => zb (Z.lxor (bz b) (bz m))) a m.

Record PowHashes := { pow_raw_hash : bytes; pow_block_hash : bytes }.

Definition pow_hashes (h : BlockHeaderV2) : PowHashes :=
  let stages := hash_stages h in
  let raw := raw_pow_hash h stages in
  {| pow_raw_hash := raw; pow_block_hash := xor_bytes raw (stage_xor_key_mask stages) |}.
End hashing.

(** ** The wire form *)

Record header_wf (h : BlockHeaderV2) : Prop := {
  wf_version : 0 <= version h < 2 ^ 31;
  wf_prev_block : length (prev_block h) = 32%nat;
  wf_merkle_root : length (merkle_root h) = 32%nat;
  wf_time : uint 32 (time h);
  wf_bits : uint 32 (bits h);
  wf_nonce : uint 32 (nonce h);
  wf_nonce2 : uint 32 (nonce2 h);
  wf_nonce3 : uint 32 (nonce3 h);
  wf_extranonce : length (extranonce h) = 16%nat;
  wf_time_offset : uint 32 (time_offset h);
  wf_txcount : uint 16 (txcount h);
  wf_flags : uint 8 (flags h);
  wf_clear_bits : uint 8 (xor_key_mask_clear_bits h);
  wf_xor_key : length (xor_key h) = 16%nat;
  wf_height : - 2 ^ 31 <= height h < 2 ^ 31;
  wf_mm_rhs : length (mm_rhs h) = 32%nat;
}.

#[export] Hint Resolve wf_prev_block wf_merkle_root wf_time wf_bits wf_nonce wf_nonce2 wf_nonce3
  wf_extranonce wf_time_offset wf_txcount wf_flags wf_clear_bits wf_xor_key wf_mm_rhs : reader.

(** The version word: the flag over the version's low 31 bits. *)
Lemma version_word v : 0 <= v < 2 ^ 31 ->
  Z.lor V2_FLAG (Z.land (wrap 32 v) (lnot 32 V2_FLAG)) = 2 ^ 31 + v.
Proof.
  intros Hv. rewrite wrap_small by (unfold uint; lia).
  change (lnot 32 V2_FLAG) with (2 ^ 31 - 1). rewrite land_mask, Z.mod_small by lia.
  change V2_FLAG with (Z.shiftl 1 31). rewrite lor_shiftl_add by lia. lia.
Qed.

Lemma version_word_read w : uint 32 w -> Z.land w V2_FLAG <> 0 ->
  0 <= Z.land w (lnot 32 V2_FLAG) < 2 ^ 31 /\ w = 2 ^ 31 + Z.land w (lnot 32 V2_FLAG).
Proof.
  unfold uint. intros Hw Hf. change (lnot 32 V2_FLAG) with (2 ^ 31 - 1).
  rewrite land_mask by done. change V2_FLAG with (Z.shiftl 1 31) in Hf.
  pose proof (has_bits_testbit w 31 ltac:(done)) as Hb. unfold has_bits in Hb.
  rewrite (proj2 (Z.eqb_neq _ _)) in Hb by done. cbn [negb] in Hb.
  pose proof (testbit_arith w 31 ltac:(done)) as Ht. rewrite <- Hb in Ht. cbn [Z.b2z] in Ht.
  split; [by apply Z.mod_pos_bound|].
  clear -Hw Ht. Z.to_euclidean_division_equations; lia.
Qed.

Lemma as_i32_small v : 0 <= v < 2 ^ 31 -> as_i32 v = v.
Proof. intros. unfold as_i32. by rewrite (proj2 (Z.ltb_lt _ _)) by lia. Qed.

Lemma le_4_i32 v : - 2 ^ 31 <= v < 2 ^ 31 -> le 4 v = le 4 (wrap 32 v) /\ as_i32 (wrap 32 v) = v.
Proof.
  intros Hv. split.
  - apply le_val_inj; [by rewrite !length_le|]. rewrite !le_val_le. unfold wrap.
    change (256 ^ Z.of_nat 4) with (2 ^ 32). by rewrite Z.mod_mod.
  - unfold as_i32, wrap. destruct (Z.ltb_spec (v mod 2 ^ 32) (2 ^ 31));
      Z.to_euclidean_division_equations; lia.
Qed.

Lemma time_wire_back t o : uint 32 t -> wrap 32 (wrap 32 (t - o) + o) = t.
Proof.
  unfold wrap. intros Ht. rewrite Zplus_mod_idemp_l. replace (t - o + o) with t by lia.
  by apply Z.mod_small.
Qed.

Lemma length_serialize h : header_wf h -> zlen (serialize h) = HEADER_V2_SIZE.
Proof.
  intros []. unfold serialize, zlen, HEADER_V2_SIZE. rewrite !length_app, !length_le. cbn [length]. lia.
Qed.

Lemma deserialize_serialize h : header_wf h -> deserialize (serialize h) = Some h.
Proof.
  intros Hwf. pose proof Hwf as []. unfold deserialize. rewrite length_serialize by done.
  cbn [Z.eqb Pos.eqb HEADER_V2_SIZE negb]. unfold parse_all, read_header, new_reader.
  set (f := serialize h) at 1. unfold serialize. rewrite version_word by lia.
  destruct (le_4_i32 (height h)) as [-> Hh]; [done|].
  assert (uint 32 (2 ^ 31 + version h)) as Hv by (unfold uint; lia).
  assert (uint 32 (time_on_wire h)) as Ht.
  { unfold time_on_wire. case_match; [done|]. by apply uint_wrap. }
  erewrite bind_ok by (by apply u32_ok). cbn beta.
  assert (Z.land (2 ^ 31 + version h) V2_FLAG = 2 ^ 31) as ->.
  { change V2_FLAG with (2 ^ 31). rewrite <- (Z.mul_1_l (2 ^ 31)) at 1.
    rewrite <- (lor_shiftl_add 1 (version h) 31), Z.land_lor_distr_l by lia.
    change (Z.land (Z.shiftl 1 31) (2 ^ 31)) with (2 ^ 31).
    replace (Z.land (version h) (2 ^ 31)) with 0; [done|].
    symmetry. apply Z.bits_inj'. intros n _. rewrite Z.land_spec, Z.bits_0, Z.pow2_bits_eqb by done.
    destruct (Z.eqb_spec 31 n) as [<-|]; [|by rewrite andb_false_r].
    by rewrite (testbit_high 31) by (unfold uint; lia). }
  change (2 ^ 31 =? 0) with false. cbn iota.
  parse.
  erewrite bind_ok by (apply u32_ok, uint_wrap; done). cbn beta.
  rewrite <- (app_nil_r (mm_rhs h)). parse. cbn [fmap result_fmap fst mret parser_ret ok mjoin option_join].
  rewrite (bz_zb_small (flags h)), (bz_zb_small (xor_key_mask_clear_bits h)), Hh by done.
  change (lnot 32 V2_FLAG) with (2 ^ 31 - 1). rewrite land_mask by done.
  replace ((2 ^ 31 + version h) mod 2 ^ 31) with (version h)
    by (clear -wf_version0; Z.to_euclidean_division_equations; lia).
  rewrite as_i32_small by done.
  assert ((if negb (Z.land (flags h) FLAG_USE_TIME_OFFSET =? 0)
    then wrap 32 (time_on_wire h + time_offset h) else time_on_wire h) = time h) as ->.
  { unfold time_on_wire. destruct (Z.land (flags h) FLAG_USE_TIME_OFFSET =? 0); cbn [negb]; [done|]. by apply time_wire_back. }
  by destruct h.
Qed.

(** Extends the bytes a decode has read so far by its next field. *)
#[local] Ltac step_between :=
  match goal with
  | Hr : read_between ?r ?l ?r1, Hk : read_between ?r1 ?k ?r2 |- _ =>
      pose proof (read_between_trans r l r1 k r2 Hr Hk); clear Hr Hk
  end.

Lemma serialize_deserialize b h :
  deserialize b = Some h -> header_wf h /\ serialize h = b.
Proof.
  unfold deserialize. destruct (Z.eqb_spec (zlen b) HEADER_V2_SIZE) as [Hlen|]; [|done].
  cbn [negb]. unfold parse_all. destruct (read_header (new_reader b)) as [[o r]|] eqn:Hread; [|done].
  cbn [fmap result_fmap fst ok mjoin option_join]. intros ->. unfold read_header in Hread.
  apply bind_inv in Hread as (v & r0 & Hv & Hread).
  destruct (Z.eqb_spec (Z.land v V2_FLAG) 0) as [|Hflag]; [by apply ret_inv in Hread as []|].
  pinv. repeat step_between.
  pose proof (version_word_read v ltac:(done) Hflag) as [Hv Hvw].
  match goal with H : read_between _ _ ?r |- _ => destruct H as [_ Hb]; rename r into rend end.
  cbn [new_reader rest] in Hb.
  assert (rest rend = []) as Hend.
  { apply (f_equal zlen) in Hb. rewrite Hlen, !zlen_app in Hb.
    apply nil_length_inv. unfold zlen, HEADER_V2_SIZE in Hb. rewrite !length_le in Hb.
    cbn [length] in Hb. lia. }
  rewrite Hend, app_nil_r in Hb.
  match goal with |- header_wf {| height := as_i32 ?x |} /\ _ =>
    assert (- 2 ^ 31 <= as_i32 x < 2 ^ 31 /\ wrap 32 (as_i32 x) = x) as [Hh Hhw] by
      (unfold as_i32, wrap, uint in *; case_test; reflect_Z; split; [lia| |lia|];
       Z.to_euclidean_division_equations; lia)
  end.
  rewrite as_i32_small by done. split.
  - constructor; cbn -[uint wrap Z.pow]; try done.
    case_match; [by apply uint_wrap|done].
  - rewrite Hb. unfold serialize. cbn -[le wrap lnot V2_FLAG].
    rewrite version_word, <- Hvw by done.
    destruct (le_4_i32 _ Hh) as [-> _]. rewrite Hhw.
    unfold time_on_wire. cbn [flags time time_offset].
    destruct (Z.land _ FLAG_USE_TIME_OFFSET =? 0); cbn [negb]; [done|].
    do 4 f_equal. unfold wrap. rewrite Zminus_mod_idemp_l.
    match goal with |- context [(?a + ?o - ?o) mod _] =>
      replace (a + o - o) with a by lia end.
    by rewrite Z.mod_small.
Qed.

(** The wire form of a header is 164 bytes and decoding inverts it, the
    shifted timestamp included; and a decode accepts nothing but those forms: a
    buffer that decodes is the serialization of the header it decodes to. *)
Theorem header_roundtrip (h : BlockHeaderV2) (b : bytes) :
  header_wf h ->
  zlen (serialize h) = HEADER_V2_SIZE /\
  deserialize (serialize h) = Some h /\
  (deserialize b = Some h -> serialize h = b).
Proof.
  intros Hwf. split_and!; [by apply length_serialize|by apply deserialize_serialize|].
  intros Hb. by apply serialize_deserialize in Hb as [_ ?].
Qed.

Definition example_header : BlockHeaderV2 :=
  {| version := 0x20000000; prev_block := le 32 7; merkle_root := le 32 9; time := 5;
     bits := 0x1d00ffff; nonce := 1; nonce2 := 2; nonce3 := 3; extranonce := le 16 11;
     time_offset := 600; txcount := 2; flags := 4 + 3; xor_key_mask_clear_bits := 12;
     xor_key := le 16 1; height := 100; mm_rhs := zeros 32 |}.

Lemma header_roundtrip_witness :
  zlen (serialize example_header) = 164 /\
  deserialize (serialize example_header) = Some example_header.
Proof.
  destruct (header_roundtrip example_header []) as (? & ? & _); [|by split].
  by constructor; vm_compute.
Defined.

(** ** The hash stages *)

Lemma length_xor_bytes a m : length a = length m -> length (xor_bytes a m) = length a.
Proof. intros. unfold xor_bytes. rewrite length_zip_with. lia. Qed.

Lemma xor_bytes_twice a m : length a = length m -> xor_bytes (xor_bytes a m) m = a.
Proof.
  revert m; induction a as [|x a IH]; intros [|y m] Hl; try done. cbn in *.
  f_equal; [|apply IH; lia].
  rewrite bz_zb_small, Z.lxor_assoc, Z.lxor_nilpotent, Z.lxor_0_r; [apply zb_bz|].
  apply (uint_lxor 8); [done|apply bz_range..].
Qed.

Lemma xor_bytes_zeros a : xor_bytes a (zeros (length a)) = a.
Proof.
  induction a as [|x a IH]; [done|]. unfold xor_bytes in *. cbn [length zip_with].
  change (zeros (S (length a))) with (zb 0 :: zeros (length a)). cbn [zip_with].
  by rewrite IH, bz_zb_small, Z.lxor_0_r, zb_bz by lia.
Qed.

Lemma be_val_xor a m :
  length a = length m -> be_val (xor_bytes a m) = Z.lxor (be_val a) (be_val m).
Proof.
  revert m; induction a as [|x a IH]; intros [|y m] Hl; try done.
  injection Hl as Hl. unfold xor_bytes. cbn [zip_with]. fold (xor_bytes a m).
  rewrite !be_val_cons, length_xor_bytes, IH, <- Hl by done.
  change 256 with (2 ^ 8). rewrite <- !Z.pow_mul_r by lia.
  set (k := 8 * Z.of_nat (length a)). assert (0 <= k) by lia.
  assert (0 <= be_val a < 2 ^ k /\ 0 <= be_val m < 2 ^ k) as [Ha Hm].
  { unfold k. rewrite Z.pow_mul_r by lia. split; [apply be_val_range|].
    rewrite Hl. apply be_val_range. }
  rewrite bz_zb_small by (apply (uint_lxor 8); [done|apply bz_range..]).
  rewrite <- !lor_shiftl_add by (try done; apply (uint_lxor k); done).
  apply Z.bits_inj'. intros n Hn. rewrite !Z.lxor_spec, !Z.lor_spec, !Z.shiftl_spec, !Z.lxor_spec by done.
  destruct (Z.lt_ge_cases n k).
  - by rewrite !(Z.testbit_neg_r _ (n - k)) by lia.
  - rewrite (testbit_high k (be_val a)), (testbit_high k (be_val m)) by (done || lia).
    by rewrite !orb_false_r.
Qed.

Section hashing_properties.
Context `{Digests}.

Lemma length_tagged_sha256 tag d : length (tagged_sha256 tag d) = 32%nat.
Proof. apply length_sha256_digest. Qed.

Lemma length_blake2b_256 d : length (blake2b_256 d) = 32%nat.
Proof. apply length_blake2b_256_digest. Qed.

Lemma length_prevblock_hidden p : length (prevblock_hidden p) = 32%nat.
Proof.
  unfold prevblock_hidden. cbn zeta. rewrite length_app, length_drop, length_zeros, length_tagged_sha256.
  done.
Qed.

Lemma land_shiftr_255 b r : 0 <= b < 256 -> 0 <= r < 8 ->
  0 <= Z.land b (Z.shiftr 255 r) < 2 ^ (8 - r).
Proof.
  intros Hb Hr. assert (Z.shiftr 255 r = 2 ^ (8 - r) - 1) as ->.
  { by assert (r = 0 \/ r = 1 \/ r = 2 \/ r = 3 \/ r = 4 \/ r = 5 \/ r = 6 \/ r = 7)
      as [->|[->|[->|[->|[->|[->|[->| ->]]]]]]] by lia. }
  rewrite land_mask by lia. apply Z.mod_pos_bound. lia.
Qed.

Lemma xor_key_mask_bounds xk clear :
  uint 8 clear ->
  length (xor_key_mask xk clear) = 32%nat /\ 0 <= be_val (xor_key_mask xk clear) < 2 ^ (256 - clear).
Proof.
  unfold uint. intros Hc. change (2 ^ 8) with 256 in Hc.
  assert (0 < 2 ^ (256 - clear)) by (apply Z.pow_pos_nonneg; lia).
  unfold xor_key_mask. case_match.
  { split; [done|]. rewrite be_val_zeros. lia. }
  set (m := tagged_sha256 _ _). assert (length m = 32%nat) as Hm by apply length_tagged_sha256.
  clearbody m. set (q := Z.to_nat (clear / 8)).
  assert (0 <= clear / 8 < 32) by (Z.to_euclidean_division_equations; lia).
  assert (q < 32)%nat as Hq by lia. cbn zeta. rewrite Hm, Nat.min_l by lia.
  destruct (drop q m) as [|b l] eqn:Hd.
  { apply (f_equal length) in Hd. rewrite length_drop, Hm in Hd. cbn in Hd. lia. }
  assert (length l = 31 - q)%nat as Hl.
  { apply (f_equal length) in Hd. rewrite length_drop, Hm in Hd. cbn in Hd. lia. }
  assert ((zeros q ++ b :: l) !! q = Some b) as ->.
  { rewrite lookup_app_r by (rewrite length_zeros; lia). by rewrite length_zeros, Nat.sub_diag. }
  replace (<[q:=_]> (zeros q ++ b :: l)) with
    (zeros q ++ zb (Z.land (bz b) (Z.shiftr 255 (clear mod 8))) :: l); cycle 1.
  { replace q with (length (zeros q) + 0)%nat at 2 by (rewrite length_zeros; lia).
    by rewrite insert_app_r. }
  split; [rewrite length_app, length_zeros; cbn [length]; lia|].
  rewrite be_val_app, be_val_zeros, be_val_cons, Z.mul_0_l, Z.add_0_l.
  pose proof (be_val_range l) as Hr. set (r := clear mod 8).
  assert (0 <= r < 8) by (apply Z.mod_pos_bound; lia).
  pose proof (bz_range b). pose proof (land_shiftr_255 (bz b) r ltac:(done) ltac:(done)) as Hland.
  assert (2 ^ (8 - r) <= 2 ^ 8) by (apply Z.pow_le_mono_r; lia).
  rewrite bz_zb_small by lia.
  assert (2 ^ (256 - clear) = 2 ^ (8 - r) * 256 ^ Z.of_nat (length l)) as ->; [|nia].
  change 256 with (2 ^ 8) at 2. rewrite <- Z.pow_mul_r, <- Z.pow_add_r by lia. f_equal.
  pose proof (Z.div_mod clear 8 ltac:(lia)). unfold r, q in *. lia.
Qed.

(** the XOR mask hides the proof-of-work hash from the block hash without
    touching what the target is met with: the [clear_bits] most significant bits
    of the two are the same, the mask is taken off by applying it again, and the
    zero key leaves the hash as it is. *)
Theorem xor_mask_keeps_high_bits (h : BlockHeaderV2) :
  uint 8 (xor_key_mask_clear_bits h) ->
  let p := pow_hashes h in
  let clear := xor_key_mask_clear_bits h in
  length (pow_block_hash p) = 32%nat /\
  Z.shiftr (be_val (pow_block_hash p)) (256 - clear) =
    Z.shiftr (be_val (pow_raw_hash p)) (256 - clear) /\
  xor_bytes (pow_block_hash p) (stage_xor_key_mask (hash_stages h)) = pow_raw_hash p /\
  (xor_key h = zeros 16 -> pow_block_hash p = pow_raw_hash p).
Proof.
  intros Hc p clear. unfold p, pow_hashes. cbn [pow_raw_hash pow_block_hash].
  assert (length (raw_pow_hash h (hash_stages h)) = 32%nat) as Hraw by apply length_blake2b_256.
  set (raw := raw_pow_hash h (hash_stages h)) in *. clearbody raw.
  change (stage_xor_key_mask (hash_stages h)) with (xor_key_mask (xor_key h) clear).
  destruct (xor_key_mask_bounds (xor_key h) clear Hc) as [Hlen Hval].
  unfold uint in Hc. fold clear in Hc. change (2 ^ 8) with 256 in Hc. split_and!.
  - by rewrite length_xor_bytes by congruence.
  - rewrite be_val_xor by congruence. apply Z.bits_inj'. intros n Hn.
    rewrite !Z.shiftr_spec, Z.lxor_spec, (testbit_high (256 - clear) (be_val (xor_key_mask _ _)))
      by (done || lia). apply xorb_false_r.
  - apply xor_bytes_twice. congruence.
  - intros Hkey. rewrite Hkey. change (xor_key_mask (zeros 16) clear) with (zeros 32).
    rewrite <- Hraw. apply xor_bytes_zeros.
Qed.

(** A stratum miner that is sent [COINB1_LEADING_ZEROS] zero bytes and H2 as
    [coinb1] and an empty [coinb2] reaches the work root the pool computes for
    the same H2 and extranonce, and a job of any other total length is refused. *)
Theorem work_root_from_stratum_spec (h2 extranonce coinb1 coinb2 : bytes) :
  length h2 = 32%nat -> length extranonce = 16%nat ->
  work_root_from_stratum (zeros COINB1_LEADING_ZEROS ++ h2) extranonce [] =
    Some (work_root h2 extranonce) /\
  (work_root_from_stratum coinb1 extranonce coinb2 = None <->
   (length coinb1 + length coinb2 <> COINB1_LEADING_ZEROS + 32)%nat).
Proof.
  intros Hh2 He. unfold work_root_from_stratum, work_root. cbn zeta. split.
  - rewrite app_nil_r, <- app_assoc.
    change (zeros STRATUM_LEAF_PREFIX_LEN ++ zeros COINB1_LEADING_ZEROS ++ h2 ++ extranonce)
      with (zeros WORK_ROOT_H2_OFFSET ++ h2 ++ extranonce).
    rewrite (proj2 (Nat.eqb_eq _ _)); [done|].
    rewrite !length_app, length_zeros, Hh2, He. done.
  - rewrite !length_app, length_zeros, He.
    unfold STRATUM_LEAF_PREFIX_LEN, COINB1_LEADING_ZEROS, WORK_ROOT_LEAF_SIZE, WORK_ROOT_H2_OFFSET.
    destruct (Nat.eqb_spec (4 - (4 - 1) + (length coinb1 + (16 + length coinb2))) 52);
      split; done || lia.
Qed.

(** The ASIC input has the length its profile names. *)
Lemma length_asic_input h wr h2 :
  uint 8 (flags h) -> length wr = 32%nat -> length h2 = 32%nat ->
  ASIC_INPUT_LEN !! Z.to_nat (asic_profile h) = Some (zlen (asic_input_with h wr h2)).
Proof.
  unfold uint. intros Hf Hwr Hh2. unfold asic_input_with, asic_profile, FLAG_PROFILE_MASK.
  change 3 with (2 ^ 2 - 1). rewrite land_mask by done. change (2 ^ 2) with 4.
  pose proof (Z.mod_pos_bound (flags h) 4 ltac:(lia)).
  assert (flags h mod 4 = 0 \/ flags h mod 4 = 1 \/ flags h mod 4 = 2 \/ flags h mod 4 = 3)
    as [E|[E|[E|E]]] by lia; rewrite E;
    unfold zlen, asic_input_body, sia_words; cbn [Z.eqb Pos.eqb Z.to_nat];
    cbn -[length le Z.of_nat zeros app prevblock_hidden];
    rewrite ?length_app, ?length_zeros, ?length_le, ?length_prevblock_hidden, ?Hwr, ?Hh2; done.
Qed.
End hashing_properties.

Lemma xor_mask_keeps_high_bits_witness :
  let p := @pow_hashes example_digests example_header in
  Z.shiftr (be_val (pow_block_hash p)) (256 - 12) = Z.shiftr (be_val (pow_raw_hash p)) (256 - 12).
Proof.
  intros p.
  destruct (@xor_mask_keeps_high_bits example_digests example_header) as (_ & Hbits & _);
    [by vm_compute|exact Hbits].
Defined.

Lemma work_root_from_stratum_spec_witness :
  @work_root_from_stratum example_digests (zeros COINB1_LEADING_ZEROS ++ le 32 7) (le 16 5) [] =
  Some (@work_root example_digests (le 32 7) (le 16 5)).
Proof.
  destruct (@work_root_from_stratum_spec example_digests (le 32 7) (le 16 5) [] [])
    as (Hroot & _); [done|done|exact Hroot].
Defined.
