(* ===== verification/Utf8.v ===== *)
(** The standard library's UTF-8 decoding, which the wire strings go through:
    [String::from_utf8] and [String::from_utf8_lossy]. A Rust [String] is the
    list of its bytes, which [valid_utf8] says are well formed. *)
From S2P Require Import Prelude.

Definition in_range (lo hi : Z) (b : option byte) : bool :=
  match b with Some b => (lo <=? bz b) && (bz b <=? hi) | None => false end.

Definition continuation := in_range 0x80 0xbf.

(** The range of the second byte after a lead byte, and the bytes after it. *)
Definition lead (b : Z) : option (Z * Z * nat) :=
  if (0xc2 <=? b) && (b <=? 0xdf) then Some (0x80, 0xbf, 0%nat)
  else if b =? 0xe0 then Some (0xa0, 0xbf, 1%nat)
  else if (0xe1 <=? b) && (b <=? 0xec) then Some (0x80, 0xbf, 1%nat)
  else if b =? 0xed then Some (0x80, 0x9f, 1%nat)
  else if (0xee <=? b) && (b <=? 0xef) then Some (0x80, 0xbf, 1%nat)
  else if b =? 0xf0 then Some (0x90, 0xbf, 2%nat)
  else if (0xf1 <=? b) && (b <=? 0xf3) then Some (0x80, 0xbf, 2%nat)
  else if b =? 0xf4 then Some (0x80, 0x8f, 2%nat)
  else None.

(** The first sequence of a non-empty buffer: the bytes it takes and whether
    they are a character. An ill-formed sequence takes the bytes that could
    still have begun a character, at least one. *)
Definition utf8_step (l : bytes) : nat * bool :=
  match l with
  | [] => (O, true)
  | b :: l =>
    if bz b <? 0x80 then (1%nat, true)
    else match lead (bz b) with
    | None => (1%nat, false)
    | Some (lo, hi, more) =>
      if negb (in_range lo hi (l !! 0%nat)) then (1%nat, false)
      else match more with
      | O => (2%nat, true)
      | 1%nat => if continuation (l !! 1%nat) then (3%nat, true) else (2%nat, false)
      | _ =>
        if negb (continuation (l !! 1%nat)) then (2%nat, false)
        else if continuation (l !! 2%nat) then (4%nat, true) else (3%nat, false)
      end
    end
  end.

Definition REPLACEMENT : bytes := zb <$> [0xef; 0xbf; 0xbd].

(** Every sequence takes a byte, so the length is fuel enough. *)
Fixpoint valid_utf8_fuel (fuel : nat) (l : bytes) : bool :=
  match fuel, l with
  | O, _ | _, [] => true
  | S fuel, _ => let '(n, ok) := utf8_step l in ok && valid_utf8_fuel fuel (drop n l)
  end.
Definition valid_utf8 (l : bytes) : bool := valid_utf8_fuel (length l) l.

Fixpoint lossy_fuel (fuel : nat) (l : bytes) : bytes :=
  match fuel, l with
  | O, _ | _, [] => []
  | S fuel, _ =>
    let '(n, ok) := utf8_step l in
    (if ok then take n l else REPLACEMENT) ++ lossy_fuel fuel (drop n l)
  end.
Definition from_utf8_lossy (l : bytes) : bytes := lossy_fuel (length l) l.

Definition from_utf8 (l : bytes) : option bytes := if valid_utf8 l then Some l else None.

Lemma utf8_step_pos b l : (1 <= (utf8_step (b :: l)).1)%nat.
Proof. cbn [utf8_step]. repeat case_match; cbn; lia. Qed.

Lemma utf8_step_le l : (utf8_step l).2 = true -> ((utf8_step l).1 <= length l)%nat.
Proof.
  destruct l as [|b [|c [|d [|e l]]]]; [done|..]; cbn;
    repeat (case_match; cbn [fst snd length]; try discriminate; try lia).
Qed.

(** A character is decided by its own bytes. *)
Lemma utf8_step_prefix l k :
  (utf8_step l).2 = true ->
  utf8_step (take (utf8_step l).1 l ++ k) = if bool_decide (l = []) then utf8_step k else utf8_step l.
Proof.
  destruct l as [|b l]; [done|]. rewrite bool_decide_eq_false_2 by done.
  destruct (utf8_step (b :: l)) as [n ok] eqn:E. cbn [fst snd]. intros ->.
  cbn [utf8_step] in E. destruct (bz b <? 0x80) eqn:Hb.
  { injection E as <-. cbn [take app utf8_step]. by rewrite Hb. }
  destruct (lead (bz b)) as [[[lo hi] more]|] eqn:Hlead; [|done].
  destruct (in_range lo hi (l !! 0%nat)) eqn:H0; cbn [negb] in E; [|done].
  destruct l as [|c l]; [done|].
  destruct more as [|[|more]].
  - injection E as <-. cbn [take app utf8_step]. rewrite Hb, Hlead.
    cbn [lookup list_lookup] in *. by rewrite H0.
  - destruct (continuation ((c :: l) !! 1%nat)) eqn:H1; [|done]. injection E as <-.
    destruct l as [|d l]; [done|]. cbn [take app utf8_step]. rewrite Hb, Hlead.
    cbn [lookup list_lookup] in *. by rewrite H0, H1.
  - destruct (continuation ((c :: l) !! 1%nat)) eqn:H1; cbn [negb] in E; [|done].
    destruct (continuation ((c :: l) !! 2%nat)) eqn:H2; [|done]. injection E as <-.
    destruct l as [|d [|e l]]; try done. cbn [take app utf8_step]. rewrite Hb, Hlead.
    cbn [lookup list_lookup] in *. by rewrite H0, H1, H2.
Qed.

Lemma valid_utf8_fuel_enough f g l :
  (length l <= f)%nat -> (length l <= g)%nat -> valid_utf8_fuel f l = valid_utf8_fuel g l.
Proof.
  revert g l; induction f as [|f IH]; intros [|g] [|b l] Hf Hg; try done; cbn in Hf, Hg; try lia.
  cbn [valid_utf8_fuel]. pose proof (utf8_step_pos b l). destruct (utf8_step (b :: l)) as [n ok].
  f_equal. cbn [fst] in *. apply IH; rewrite length_drop; cbn [length]; lia.
Qed.

Lemma valid_utf8_step l : l <> [] ->
  valid_utf8 l = (utf8_step l).2 && valid_utf8 (drop (utf8_step l).1 l).
Proof.
  destruct l as [|b l]; [done|]. intros _. unfold valid_utf8.
  cbn [length valid_utf8_fuel]. pose proof (utf8_step_pos b l).
  destruct (utf8_step (b :: l)) as [n ok]. cbn [fst snd] in *. f_equal.
  apply valid_utf8_fuel_enough; rewrite length_drop; cbn [length]; lia.
Qed.

Lemma lossy_fuel_valid f l : valid_utf8_fuel f l = true -> (length l <= f)%nat -> lossy_fuel f l = l.
Proof.
  revert l; induction f as [|f IH]; intros [|b l]; cbn [valid_utf8_fuel lossy_fuel length]; try done; try lia.
  pose proof (utf8_step_pos b l) as Hp. destruct (utf8_step (b :: l)) as [n ok]. cbn [fst] in Hp.
  intros Hv Hl. apply andb_true_iff in Hv as [-> Hv]. rewrite IH; [by rewrite take_drop|done|].
  rewrite length_drop. cbn [length]. lia.
Qed.

(** A string that is well formed survives the lossy conversion unchanged. *)
Lemma from_utf8_lossy_valid l : valid_utf8 l = true -> from_utf8_lossy l = l.
Proof. intros. by apply lossy_fuel_valid. Qed.

Lemma valid_utf8_app_step l k :
  l <> [] -> (utf8_step l).2 = true ->
  valid_utf8 (take (utf8_step l).1 l ++ k) = valid_utf8 k.
Proof.
  intros Hl Hok. pose proof (utf8_step_prefix l k Hok) as Hs.
  rewrite bool_decide_eq_false_2 in Hs by done. pose proof (utf8_step_le l Hok) as Hle.
  destruct l as [|b l]; [done|]. pose proof (utf8_step_pos b l) as Hp.
  rewrite valid_utf8_step, Hs, Hok.
  - cbn [andb]. rewrite drop_length_app; [done|]. rewrite length_take. lia.
  - destruct ((utf8_step (b :: l)).1); [lia|]. done.
Qed.

(** The lossy conversion always produces a well-formed string. *)
Lemma valid_from_utf8_lossy l : valid_utf8 (from_utf8_lossy l) = true.
Proof.
  unfold from_utf8_lossy. generalize (length l) as f. intros f. revert l.
  induction f as [|f IH]; intros [|b l]; cbn [lossy_fuel]; try done.
  destruct (utf8_step (b :: l)) as [n ok] eqn:Hs. destruct ok.
  - pose proof (valid_utf8_app_step (b :: l) (lossy_fuel f (drop n (b :: l))) ltac:(done)) as Hv.
    rewrite Hs in Hv. cbn [fst snd] in Hv. rewrite Hv by done. apply IH.
  - pose proof (valid_utf8_app_step REPLACEMENT (lossy_fuel f (drop n (b :: l))) ltac:(done) ltac:(done)) as Hv.
    change (take (utf8_step REPLACEMENT).1 REPLACEMENT) with REPLACEMENT in Hv. rewrite Hv. apply IH.
Qed.

Example lossy_truncated : from_utf8_lossy (zb <$> [0x41; 0xe2; 0x82; 0x42; 0xff]) =
  (zb <$> [0x41]) ++ REPLACEMENT ++ (zb <$> [0x42]) ++ REPLACEMENT.
Proof. by vm_compute. Qed.

Example lossy_surrogate : from_utf8_lossy (zb <$> [0xed; 0xa0; 0x80]) =
  REPLACEMENT ++ REPLACEMENT ++ REPLACEMENT.
Proof. by vm_compute. Qed.

Lemma valid_app f : forall a b, (length a <= f)%nat -> valid_utf8 a = true -> valid_utf8 b = true -> valid_utf8 (a ++ b) = true.
Proof.
  induction f as [|f IH]; intros [|x a] b Hl Ha Hb; try done; [cbn in Hl; lia|]. set (s := x :: a) in *.
  rewrite valid_utf8_step in Ha by done. apply andb_true_iff in Ha as [Hok Ha].
  rewrite <- (take_drop (utf8_step s).1 s), <- app_assoc, valid_utf8_app_step by done. apply IH; [|done..].
  pose proof (utf8_step_pos x a). fold s in H. pose proof (utf8_step_le s Hok). rewrite length_drop. lia.
Qed.

Lemma valid_utf8_app a b : valid_utf8 a = true -> valid_utf8 b = true -> valid_utf8 (a ++ b) = true.
Proof. by apply (valid_app (length a)). Qed.

Lemma ascii_valid s : Forall (fun b => bz b < 0x80) s -> valid_utf8 s = true.
Proof.
  induction 1 as [|b s Hb _ IH]; [done|]. rewrite valid_utf8_step by done. cbn [utf8_step].
  rewrite (proj2 (Z.ltb_lt _ _)) by done. done.
Qed.
