(* ===== verification/Limits.v ===== *)
(** The connections a server has open at once, in all and from one address: the slots of the
    HTTP server ([core/src/http.rs]), the count of the pool's server
    ([prime/src/server.rs]), the slots of the stratum server ([gateway/src/stratum.rs]),
    and the address a limit counts a peer under ([core/src/net.rs]). *)
From S2P Require Import Prelude.

(** ** Addresses *)

(** [std::net::IpAddr]; the address as the number its bytes are. *)
Inductive IpAddr := V4 (a : Z) | V6 (a : Z).

#[export] Instance IpAddr_eq_dec : EqDecision IpAddr.
Proof. solve_decision. Defined.

#[export] Instance IpAddr_countable : Countable IpAddr.
Proof.
  refine (inj_countable' (fun ip => match ip with V4 a => inl a | V6 a => inr a end)
    (fun s => match s with inl a => V4 a | inr a => V6 a end) _).
  by intros [].
Defined.

Definition ip_ok (ip : IpAddr) : Prop := match ip with V4 a => uint 32 a | V6 a => uint 128 a end.

(** An IPv4-mapped address, [::ffff:a.b.c.d], is the IPv4 address. *)
Definition to_canonical (ip : IpAddr) : IpAddr :=
  match ip with V6 a => if Z.shiftr a 32 =? 0xffff then V4 (Z.land a 0xffffffff) else ip | V4 _ => ip end.

Definition is_loopback (ip : IpAddr) : bool :=
  match ip with V4 a => Z.shiftr a 24 =? 127 | V6 a => a =? 1 end.

Definition limit_key (ip : IpAddr) : IpAddr :=
  match to_canonical ip with
  | V6 v6 => V6 (Z.land v6 (lnot 128 (wrap 128 (Z.shiftl 1 64) - 1)))
  | v4 => v4
  end.

(** ** Counts per address *)

Definition count_of (m : gmap IpAddr Z) (a : IpAddr) : Z := default 0 (m !! a).

(** One less of an address, which is taken out at none. *)
Definition count_down (m : gmap IpAddr Z) (a : IpAddr) : gmap IpAddr Z :=
  match m !! a with
  | Some n => if n - 1 =? 0 then delete a m else <[a := n - 1]> m
  | None => m
  end.

(** ** The HTTP server's slots *)

Definition MAX_CONNECTIONS : Z := 32.
Definition MAX_CONNECTIONS_PER_ADDRESS : Z := 8.

Record OpenConnections := { total : Z; per_address : gmap IpAddr Z }.

Definition open_default : OpenConnections := {| total := 0; per_address := ∅ |}.

Inductive Full := FullServer | FullAddress.

(** The address a slot is counted under; a loopback peer has none. *)
Definition slot_address (peer : IpAddr) : option IpAddr :=
  if is_loopback (to_canonical peer) then None else Some (limit_key peer).

(** [ConnectionSlot::take]: the entry of an address is made before it is compared. *)
Definition slot_take (counts : OpenConnections) (peer : IpAddr) : result Full (option IpAddr) * OpenConnections :=
  let address := slot_address peer in
  if MAX_CONNECTIONS <=? total counts then (Err FullServer, counts) else
  match address with
  | Some a =>
    let from_address := count_of (per_address counts) a in
    if MAX_CONNECTIONS_PER_ADDRESS <=? from_address
    then (Err FullAddress, {| total := total counts; per_address := <[a := from_address]> (per_address counts) |})
    else (Ok address, {| total := total counts + 1; per_address := <[a := from_address + 1]> (per_address counts) |})
  | None => (Ok None, {| total := total counts + 1; per_address := per_address counts |})
  end.

Definition slot_drop (counts : OpenConnections) (address : option IpAddr) : OpenConnections :=
  {| total := total counts - 1;
     per_address := match address with Some a => count_down (per_address counts) a | None => per_address counts end |}.

(** The slots given and not yet given back. Each change of the counts is under their lock. *)
Inductive slot_step : OpenConnections * list (option IpAddr) -> OpenConnections * list (option IpAddr) -> Prop :=
| step_taken counts held peer address counts2 :
    slot_take counts peer = (Ok address, counts2) -> slot_step (counts, held) (counts2, address :: held)
| step_full counts held peer why counts2 :
    slot_take counts peer = (Err why, counts2) -> slot_step (counts, held) (counts2, held)
| step_dropped counts before address after :
    slot_step (counts, before ++ address :: after) (slot_drop counts address, before ++ after).

(** ** The pool's server *)

Section pool_server.
Context (max_connections max_connections_per_ip : Z).

Inductive Limit := MaxConnections | MaxConnectionsPerIp.

(** What [open_connection] decides of the counts it read. *)
Definition opened (held from_ip : Z) : result Limit () :=
  if max_connections <=? held then Err MaxConnections
  else if max_connections_per_ip <? from_ip then Err MaxConnectionsPerIp else Ok ().

(** Where a call is, and the connection it opened: not begun; the total counted up; the
    count of the address as well, with the guard that takes both back; open; the guard being
    dropped, of a connection refused or ended; the total counted down; all given back. *)
Inductive Phase := Called | Counted (held : Z) | Guarded (held from_ip : Z) | Opened | Dropped | Uncounted | Gone.

Record PoolServer := { open_connections : Z; open_per_ip : gmap IpAddr Z; calls : list (IpAddr * Phase) }.

(** One call's next step on the counts: each atomic update, and each hold of the lock, is
    one. An open connection may end at any time. *)
Definition call_step (total : Z) (per_ip : gmap IpAddr Z) (ip : IpAddr) (p : Phase) : Z * gmap IpAddr Z * Phase :=
  match p with
  | Called => (wrap 64 (total + 1), per_ip, Counted total)
  | Counted held => let count := count_of per_ip ip + 1 in (total, <[ip := count]> per_ip, Guarded held count)
  | Guarded held from_ip => (total, per_ip, if is_ok (opened held from_ip) then Opened else Dropped)
  | Opened => (total, per_ip, Dropped)
  | Dropped => (wrap 64 (total - 1), per_ip, Uncounted)
  | Uncounted => (total, count_down per_ip ip, Gone)
  | Gone => (total, per_ip, Gone)
  end.

Inductive pool_step : PoolServer -> PoolServer -> Prop :=
| pool_moves s i ip p total per_ip p2 :
    calls s !! i = Some (ip, p) -> call_step (open_connections s) (open_per_ip s) ip p = (total, per_ip, p2) ->
    pool_step s {| open_connections := total; open_per_ip := per_ip; calls := <[i := (ip, p2)]> (calls s) |}.

(** The server before any connection, and the addresses that will connect. *)
Definition pool_new (ips : list IpAddr) : PoolServer :=
  {| open_connections := 0; open_per_ip := ∅; calls := (fun ip => (ip, Called)) <$> ips |}.

Definition is_open (c : IpAddr * Phase) : Z := match c.2 with Opened => 1 | _ => 0 end.
Definition is_open_from (a : IpAddr) (c : IpAddr * Phase) : Z := if bool_decide (c.1 = a) then is_open c else 0.
End pool_server.

(** ** The stratum server *)

(** [AcceptedSlot::take]: the count where one was given. *)
Definition accepted_take (max_clients accepted : Z) : option Z :=
  if accepted <? max_clients then Some (accepted + 1) else None.
Definition accepted_drop (accepted : Z) : Z := accepted - 1.

Inductive accepted_step (max_clients : Z) : Z * nat -> Z * nat -> Prop :=
| accepted_taken accepted held accepted2 :
    accepted_take max_clients accepted = Some accepted2 -> accepted_step max_clients (accepted, held) (accepted2, S held)
| accepted_dropped accepted held : accepted_step max_clients (accepted, S held) (accepted_drop accepted, held).

(** ** Lemmas on the counts *)

(** A map holds the counts [f] gives, and no address of none. *)
Definition tallied (m : gmap IpAddr Z) (f : IpAddr -> Z) : Prop :=
  forall a, m !! a = if f a =? 0 then None else Some (f a).

Lemma tallied_count m f a : tallied m f -> count_of m a = f a.
Proof. intros Hm. unfold count_of. rewrite (Hm a). destruct (Z.eqb_spec (f a) 0); cbn; lia. Qed.

Lemma tallied_set m f g a : tallied m f -> g a <> 0 -> (forall b, b <> a -> g b = f b) -> tallied (<[a := g a]> m) g.
Proof.
  intros Hm Ha Hb b. destruct (decide (b = a)) as [->|Hne].
  - rewrite lookup_insert_eq. destruct (Z.eqb_spec (g a) 0); [lia|done].
  - rewrite lookup_insert_ne by done. by rewrite Hm, Hb.
Qed.

Lemma tallied_down m f g a : tallied m f -> g a = f a - 1 -> 0 < f a -> (forall b, b <> a -> g b = f b) -> tallied (count_down m a) g.
Proof.
  intros Hm Ha Hpos Hb. unfold count_down. rewrite (Hm a). destruct (Z.eqb_spec (f a) 0) as [|_]; [lia|].
  destruct (Z.eqb_spec (f a - 1) 0) as [H0|H0].
  - intros b. destruct (decide (b = a)) as [->|Hne].
    + rewrite lookup_delete_eq. destruct (Z.eqb_spec (g a) 0); [done|lia].
    + rewrite lookup_delete_ne by done. by rewrite Hm, Hb.
  - rewrite <- Ha. apply (tallied_set m f g); [done|lia|done].
Qed.

Lemma sumZ_insert {A} (f : A -> Z) l i x y : l !! i = Some x -> sumZ (f <$> <[i := y]> l) = sumZ (f <$> l) - f x + f y.
Proof.
  intros Hi. rewrite insert_take_drop by by eapply lookup_lt_Some. rewrite <- (take_drop_middle l i x Hi) at 3.
  rewrite !fmap_app, !fmap_cons, !sumZ_app, !sumZ_cons. lia.
Qed.

Lemma sumZ_pointwise {A} (f g : A -> Z) l : (forall x, f x <= g x) -> sumZ (f <$> l) <= sumZ (g <$> l).
Proof. intros Hf. induction l as [|x l IH]; [done|]. rewrite !fmap_cons, !sumZ_cons. specialize (Hf x). lia. Qed.

Lemma sumZ_zero {A} (f : A -> Z) l : Forall (fun x => f x = 0) l -> sumZ (f <$> l) = 0.
Proof. induction 1 as [|x l Hx _ IH]; [done|]. rewrite fmap_cons, sumZ_cons. lia. Qed.

Lemma sumZ_bounds {A} (f : A -> Z) l : (forall x, 0 <= f x <= 1) -> 0 <= sumZ (f <$> l) <= zlen l.
Proof. intros Hf. induction l as [|x l IH]; [done|]. rewrite fmap_cons, sumZ_cons, zlen_cons. specialize (Hf x). lia. Qed.

(** ** The slots of the HTTP server *)

Definition slot_of (a : IpAddr) (address : option IpAddr) : Z := if bool_decide (address = Some a) then 1 else 0.
Definition slots_of (a : IpAddr) (held : list (option IpAddr)) : Z := sumZ (slot_of a <$> held).

Record slots_ok (counts : OpenConnections) (held : list (option IpAddr)) : Prop := {
  so_total : total counts = zlen held;
  so_limit : zlen held <= MAX_CONNECTIONS;
  so_tallied : tallied (per_address counts) (fun a => slots_of a held);
  so_share : forall a, slots_of a held <= MAX_CONNECTIONS_PER_ADDRESS;
}.

Lemma slot_range a x : 0 <= slot_of a x <= 1.
Proof. unfold slot_of. case_bool_decide; lia. Qed.

Lemma slots_range a held : 0 <= slots_of a held <= zlen held.
Proof. apply sumZ_bounds, slot_range. Qed.

Lemma slots_of_cons a x held : slots_of a (x :: held) = slot_of a x + slots_of a held.
Proof. done. Qed.

(** A slot is given exactly where the limits leave one. *)
Lemma slot_take_spec counts held peer : slots_ok counts held ->
  match slot_take counts peer with
  | (Ok address, counts2) => address = slot_address peer /\ slots_ok counts2 (address :: held)
  | (Err FullServer, counts2) => zlen held = MAX_CONNECTIONS /\ counts2 = counts
  | (Err FullAddress, counts2) =>
      (exists a, slot_address peer = Some a /\ slots_of a held = MAX_CONNECTIONS_PER_ADDRESS) /\ slots_ok counts2 held
  end.
Proof.
  intros [Ht Hl Htal Hs]. unfold slot_take. destruct (Z.leb_spec MAX_CONNECTIONS (total counts)) as [Hfull|Hroom]; [split; [lia|done]|].
  destruct (slot_address peer) as [a|].
  - rewrite (tallied_count _ _ a Htal). specialize (Hs a) as Ha. pose proof (slots_range a held).
    assert (slot_of a (Some a) = 1) as Hone by (unfold slot_of; by rewrite bool_decide_eq_true_2).
    assert (forall b, b <> a -> slot_of b (Some a) = 0) as Hother by (intros b Hb; unfold slot_of; rewrite bool_decide_eq_false_2; congruence).
    destruct (Z.leb_spec MAX_CONNECTIONS_PER_ADDRESS (slots_of a held)) as [Hful|Hok].
    + split; [exists a; split; [done|lia]|]. constructor; [done..| |done]. cbn [per_address].
      apply (tallied_set _ (fun b => slots_of b held) (fun b => slots_of b held)); [done|unfold MAX_CONNECTIONS_PER_ADDRESS in *; lia|done].
    + split; [done|]. constructor; cbn [total per_address].
      * rewrite zlen_cons. lia.
      * rewrite zlen_cons. lia.
      * replace (slots_of a held + 1) with (slots_of a (Some a :: held)) by (rewrite slots_of_cons; lia).
        apply (tallied_set _ (fun b => slots_of b held) (fun b => slots_of b (Some a :: held))); [done|rewrite slots_of_cons; lia|].
        intros b Hb. rewrite slots_of_cons, Hother by done. lia.
      * intros b. rewrite slots_of_cons. destruct (decide (b = a)) as [->|Hb]; [lia|]. rewrite Hother by done. specialize (Hs b). lia.
  - split; [done|]. constructor; cbn [total per_address]; [rewrite zlen_cons; lia..| |]; intros a; rewrite slots_of_cons;
      change (slot_of a None) with 0; [apply Htal|apply Hs].
Qed.

Lemma slots_of_middle a before x after : slots_of a (before ++ x :: after) = slot_of a x + slots_of a (before ++ after).
Proof. unfold slots_of. rewrite !fmap_app, fmap_cons, !sumZ_app, sumZ_cons. lia. Qed.

Lemma slot_drop_ok counts before x after : slots_ok counts (before ++ x :: after) -> slots_ok (slot_drop counts x) (before ++ after).
Proof.
  intros [Ht Hl Htal Hs]. assert (zlen (before ++ x :: after) = zlen (before ++ after) + 1) as Hz by (rewrite !zlen_app, zlen_cons; lia).
  constructor; cbn [slot_drop total per_address].
  - lia.
  - lia.
  - destruct x as [a|].
    + apply (tallied_down _ (fun b => slots_of b (before ++ Some a :: after)) (fun b => slots_of b (before ++ after))); [done|..];
        rewrite ?slots_of_middle; unfold slot_of; rewrite ?bool_decide_eq_true_2 by done; [lia| |].
      * pose proof (slots_range a (before ++ after)). lia.
      * intros b Hb. rewrite slots_of_middle. unfold slot_of. rewrite bool_decide_eq_false_2 by congruence. lia.
    + intros b. rewrite (Htal b), slots_of_middle. change (slot_of b None) with 0. by rewrite Z.add_0_l.
  - intros b. specialize (Hs b). rewrite slots_of_middle in Hs. pose proof (slot_range b x). lia.
Qed.

(** The HTTP server never serves more than its connections at once, nor more than their
    share from one address, and gives a slot to whoever is within both. After any sequence
    of connections taken, refused and ended: at most 32 slots are out and at most 8 of any
    one address; the counts are exactly of the slots out, with no address held that has
    none; and a connection is given a slot exactly when fewer than 32 are out and, unless it
    is from the host itself, fewer than 8 of its address. *)
Theorem slots_within_limits (counts : OpenConnections) (held : list (option IpAddr)) :
  rtc slot_step (open_default, []) (counts, held) ->
  total counts = zlen held /\ zlen held <= MAX_CONNECTIONS /\
  (forall a, per_address counts !! a = (if slots_of a held =? 0 then None else Some (slots_of a held)) /\
    slots_of a held <= MAX_CONNECTIONS_PER_ADDRESS) /\
  (forall peer, is_ok (slot_take counts peer).1 =
    (zlen held <? MAX_CONNECTIONS) &&
    from_option (fun a => slots_of a held <? MAX_CONNECTIONS_PER_ADDRESS) true (slot_address peer)).
Proof.
  intros Hr. assert (slots_ok counts held) as [Ht Hl Htal Hs].
  { change (slots_ok (counts, held).1 (counts, held).2). pattern (counts, held). eapply rtc_ind_r; [|clear Hr|exact Hr].
    - constructor; cbn; [done|unfold MAX_CONNECTIONS; rewrite zlen_nil; lia| |]; intros a; [apply lookup_empty|cbn; unfold MAX_CONNECTIONS_PER_ADDRESS; lia].
    - intros y z _ Hst Hy. destruct Hst as [c h peer address c2 E|c h peer why c2 E|c b address a]; cbn [fst snd] in *.
      + pose proof (slot_take_spec c h peer Hy) as Hsp. rewrite E in Hsp. by destruct Hsp as [_ ?].
      + pose proof (slot_take_spec c h peer Hy) as Hsp. rewrite E in Hsp. destruct why; [by destruct Hsp as [_ ->]|by destruct Hsp as [_ ?]].
      + by apply slot_drop_ok. }
  split_and!; [done|done|intros a; split; [apply Htal|apply Hs]|].
  intros peer. pose proof (slots_range) as Hrange. unfold slot_take. rewrite Ht.
  destruct (Z.leb_spec MAX_CONNECTIONS (zlen held)) as [Hf|Hroom]; destruct (Z.ltb_spec (zlen held) MAX_CONNECTIONS) as [?|?]; try lia; [done|].
  destruct (slot_address peer) as [a|]; [|done]. cbn [from_option andb]. rewrite (tallied_count _ _ a Htal).
  destruct (Z.leb_spec MAX_CONNECTIONS_PER_ADDRESS (slots_of a held)); destruct (Z.ltb_spec (slots_of a held) MAX_CONNECTIONS_PER_ADDRESS); (lia || done).
Qed.

Lemma slots_within_limits_witness :
  rtc slot_step (open_default, []) ({| total := 1; per_address := ∅ |}, [None]) /\ zlen [@None IpAddr] <= MAX_CONNECTIONS.
Proof.
  assert (rtc slot_step (open_default, []) ({| total := 1; per_address := ∅ |}, [None])) as Hr.
  { eapply rtc_l; [apply (step_taken _ _ (V4 0xc0000207)); reflexivity|].
    eapply rtc_l; [apply (step_taken _ _ (V6 1)); reflexivity|].
    replace ({| total := 1; per_address := ∅ |}, [None]) with
      (slot_drop {| total := 2; per_address := {[V4 0xc0000207 := 1]} |} (Some (V4 0xc0000207)), [@None IpAddr] ++ []) by by vm_compute.
    apply rtc_once. apply (step_dropped _ [None] (Some (V4 0xc0000207)) []). }
  split; [exact Hr|]. apply (slots_within_limits _ _ Hr).
Defined.

(** ** The connections of the pool's server *)

Section pool_bounds.
Context (max_connections max_connections_per_ip : Z).
Hypothesis Hmax : 0 <= max_connections.
Hypothesis Hmax_per_ip : 0 <= max_connections_per_ip.

Definition counted (c : IpAddr * Phase) : Z := match c.2 with Counted _ | Guarded _ _ | Opened | Dropped => 1 | _ => 0 end.

Definition guarded (a : IpAddr) (c : IpAddr * Phase) : Z :=
  if bool_decide (c.1 = a) then match c.2 with Guarded _ _ | Opened | Dropped | Uncounted => 1 | _ => 0 end else 0.

(** Open, or within the limit on what its call has read. *)
Definition admitted (c : IpAddr * Phase) : Z :=
  match c.2 with Counted held | Guarded held _ => if held <? max_connections then 1 else 0 | Opened => 1 | _ => 0 end.

Definition admitted_from (a : IpAddr) (c : IpAddr * Phase) : Z :=
  if bool_decide (c.1 = a) then
    match c.2 with Guarded _ from_ip => if from_ip <=? max_connections_per_ip then 1 else 0 | Opened => 1 | _ => 0 end
  else 0.

Record pool_ok (s : PoolServer) : Prop := {
  po_total : open_connections s = sumZ (counted <$> calls s);
  po_tallied : tallied (open_per_ip s) (fun a => sumZ (guarded a <$> calls s));
  po_admitted : sumZ (admitted <$> calls s) <= max_connections;
  po_from : forall a, sumZ (admitted_from a <$> calls s) <= max_connections_per_ip;
}.

Lemma counted_range c : 0 <= counted c <= 1.
Proof. unfold counted. case_match; lia. Qed.
Lemma guarded_range a c : 0 <= guarded a c <= 1.
Proof. unfold guarded. repeat case_match; lia. Qed.

Lemma admitted_counted c : admitted c <= counted c.
Proof. unfold admitted, counted. repeat case_match; lia. Qed.
Lemma admitted_guarded a c : admitted_from a c <= guarded a c.
Proof. unfold admitted_from, guarded. repeat case_match; lia. Qed.

Lemma pool_step_ok s s2 : zlen (calls s) < 2 ^ 64 -> pool_ok s ->
  pool_step max_connections max_connections_per_ip s s2 -> pool_ok s2 /\ length (calls s2) = length (calls s).
Proof using Hmax Hmax_per_ip.
  intros Hn [Ht Htal Hadm Hfrom] Hst. destruct Hst as [s i ip p tot per p2 Hi Hc].
  pose proof (sumZ_bounds counted (calls s) counted_range) as Hcr.
  pose proof (sumZ_insert counted (calls s) i _ (ip, p2) Hi) as Hcount.
  pose proof (sumZ_bounds counted (<[i := (ip, p2)]> (calls s)) counted_range) as Hcr2.
  assert (zlen (<[i := (ip, p2)]> (calls s)) = zlen (calls s)) as Hlen by (unfold zlen; by rewrite length_insert). rewrite Hlen in Hcr2.
  split; [|cbn [calls]; by rewrite length_insert].
  assert (forall a, sumZ (guarded a <$> <[i := (ip, p2)]> (calls s)) =
    sumZ (guarded a <$> calls s) - guarded a (ip, p) + guarded a (ip, p2)) as Hg by (intros a; by apply sumZ_insert).
  pose proof (sumZ_insert admitted (calls s) i _ (ip, p2) Hi) as Ha.
  assert (forall a, sumZ (admitted_from a <$> <[i := (ip, p2)]> (calls s)) =
    sumZ (admitted_from a <$> calls s) - admitted_from a (ip, p) + admitted_from a (ip, p2)) as Hf by (intros a; by apply sumZ_insert).
  pose proof (sumZ_pointwise admitted counted (calls s) admitted_counted) as Hac.
  pose proof (sumZ_pointwise (admitted_from ip) (guarded ip) (calls s) (admitted_guarded ip)) as Hfg.
  assert (forall x, 0 <= x < 2 ^ 64 -> wrap 64 x = x) as Hwrap by (intros x Hx; by apply wrap_small).
  assert ((forall a, guarded a (ip, p2) = guarded a (ip, p)) ->
    tallied (open_per_ip s) (fun a => sumZ (guarded a <$> <[i := (ip, p2)]> (calls s)))) as Hsame.
  { intros Hq a. rewrite Hg, Hq, (Htal a). by replace (sumZ (guarded a <$> calls s) - guarded a (ip, p) + guarded a (ip, p)) with (sumZ (guarded a <$> calls s)) by lia. }
  assert (guarded ip (ip, p) <= sumZ (guarded ip <$> calls s)) as Hge.
  { pose proof (sumZ_insert (guarded ip) (calls s) i _ (ip, Gone) Hi) as He.
    pose proof (sumZ_bounds (guarded ip) (<[i := (ip, Gone)]> (calls s)) (guarded_range ip)).
    unfold guarded at 4 in He. cbn in He. case_match; lia. }
  assert (forall b q, b <> ip -> guarded b (ip, q) = 0) as Hother by (intros b q Hb; unfold guarded; cbn; by rewrite bool_decide_eq_false_2).
  assert (guarded ip (ip, p2) = 1 -> guarded ip (ip, p) = 0 -> count_of (open_per_ip s) ip + 1 = sumZ (guarded ip <$> <[i := (ip, p2)]> (calls s))) as Hup.
  { intros H1 H0. rewrite Hg, (tallied_count _ _ ip Htal). lia. }
  assert (forall b, b <> ip -> sumZ (guarded b <$> <[i := (ip, p2)]> (calls s)) = sumZ (guarded b <$> calls s)) as Hothers.
  { intros b Hb. rewrite Hg, !Hother by done. lia. }
  assert (forall b, admitted_from b (ip, p2) <= admitted_from b (ip, p) -> sumZ (admitted_from b <$> <[i := (ip, p2)]> (calls s)) <= max_connections_per_ip) as Hless.
  { intros b Hb. rewrite Hf. specialize (Hfrom b). lia. }
  assert (forall h f, is_ok (opened max_connections max_connections_per_ip h f) = true -> h < max_connections /\ f <= max_connections_per_ip) as Hopen.
  { intros h f. unfold opened. destruct (Z.leb_spec max_connections h); [done|]. destruct (Z.ltb_spec max_connections_per_ip f); [done|]. lia. }
  assert (forall q, guarded ip (ip, q) = match q with Guarded _ _ | Opened | Dropped | Uncounted => 1 | _ => 0 end) as Hgip
    by (intros q; unfold guarded; cbn; by rewrite bool_decide_eq_true_2).
  destruct p as [|held|held from_ip| | | |]; cbn [call_step] in Hc;
    try (destruct (is_ok (opened _ _ held from_ip)) eqn:Eok; [apply Hopen in Eok as [Eok Eok2]|clear Eok]);
    injection Hc as <- <- <-; cbn [counted admitted snd] in Hcount, Ha, Hge; constructor; cbn [open_connections open_per_ip calls].
  all: try (rewrite Hcount; rewrite ?Hwrap by lia; lia).
  all: try (apply Hsame; intros a; unfold guarded; cbn; by repeat case_match).
  all: try (intros b; apply Hless; unfold admitted_from; cbn; repeat case_match; lia).
  all: try (rewrite Ha; repeat case_match; lia).
  - refine (eq_ind _ (fun z => tallied (<[ip := z]> (open_per_ip s)) _) _ _ (eq_sym (Hup ltac:(by rewrite Hgip) ltac:(by rewrite Hgip)))).
    apply (tallied_set _ _ (fun a => sumZ (guarded a <$> _)) ip Htal); [|exact Hothers].
    rewrite Hg, !Hgip. pose proof (sumZ_bounds (guarded ip) (calls s) (guarded_range ip)). lia.
  - intros b. rewrite Hf. unfold admitted_from at 2 3. cbn [fst snd]. specialize (Hfrom b). case_bool_decide as Hb; [|lia].
    subst b. rewrite (tallied_count _ _ ip Htal). destruct (Z.leb_spec (sumZ (guarded ip <$> calls s) + 1) max_connections_per_ip); lia.
  - apply (tallied_down _ _ (fun a => sumZ (guarded a <$> _)) ip Htal); [|rewrite Hgip in Hge; lia|exact Hothers].
    rewrite Hg, !Hgip. lia.
Qed.

Lemma pool_new_ok ips : pool_ok (pool_new ips).
Proof using Hmax Hmax_per_ip.
  assert (forall f : IpAddr * Phase -> Z, (forall ip, f (ip, Called) = 0) -> sumZ (f <$> calls (pool_new ips)) = 0) as H0.
  { intros f Hf. cbn [pool_new calls]. induction ips as [|ip l IH]; [done|]. rewrite !fmap_cons, sumZ_cons, Hf. lia. }
  constructor.
  - by rewrite H0.
  - intros a. rewrite H0; [apply lookup_empty|]. intros ip. unfold guarded. cbn. by case_bool_decide.
  - by rewrite H0.
  - intros a. rewrite H0; [done|]. intros ip. unfold admitted_from. cbn. by case_bool_decide.
Qed.

Lemma pool_run_ok ips s : zlen ips < 2 ^ 64 -> rtc (pool_step max_connections max_connections_per_ip) (pool_new ips) s ->
  pool_ok s /\ length (calls s) = length ips.
Proof using Hmax Hmax_per_ip.
  intros Hn Hr. pattern s. eapply rtc_ind_r; [|clear Hr|exact Hr].
  - split; [apply pool_new_ok|]. cbn. apply length_fmap.
  - intros y z _ Hst [Hy Hl]. destruct (pool_step_ok y z) as [Hz Hl2]; [unfold zlen in *; by rewrite Hl|done|done|].
    split; [done|]. by rewrite Hl2.
Qed.

(** The moves of the calls listed, in turn. *)
Definition pool_move (s : PoolServer) (i : nat) : PoolServer :=
  match calls s !! i with
  | Some (ip, p) =>
    let '(total, per_ip, p2) := call_step max_connections max_connections_per_ip (open_connections s) (open_per_ip s) ip p in
    {| open_connections := total; open_per_ip := per_ip; calls := <[i := (ip, p2)]> (calls s) |}
  | None => s
  end.

Lemma pool_moves_run l : forall s, rtc (pool_step max_connections max_connections_per_ip) s (foldl pool_move s l).
Proof.
  induction l as [|i l IH]; intros s; [apply rtc_refl|]. cbn [foldl]. etrans; [|apply IH].
  unfold pool_move. destruct (calls s !! i) as [[ip p]|] eqn:E; [|apply rtc_refl].
  destruct (call_step _ _ _ _ _ _) as [[t m] p2] eqn:Ec. apply rtc_once. by econstructor.
Qed.
End pool_bounds.

(** C24: The pool never has more connections open at once than [--max-connections], nor more
    from one address than [--max-connections-per-ip], however the calls that open them and
    the guards that end them interleave. Each call counts itself up, first in all and then
    under the lock of its address, before it compares what it read, and a connection that
    is refused, or ends, counts itself down in two steps as well; at every moment of every
    interleaving, of fewer calls than a counter holds, no more are open than the limits,
    and once every connection is over the counts are back at nothing. *)
Theorem pool_connections_bounded (max_connections max_connections_per_ip : Z) (ips : list IpAddr) (s : PoolServer) :
  0 <= max_connections -> 0 <= max_connections_per_ip -> zlen ips < 2 ^ 64 ->
  rtc (pool_step max_connections max_connections_per_ip) (pool_new ips) s ->
  sumZ (is_open <$> calls s) <= max_connections /\
  (forall a, sumZ (is_open_from a <$> calls s) <= max_connections_per_ip) /\
  (Forall (fun c => c.2 = Gone) (calls s) -> open_connections s = 0 /\ open_per_ip s = ∅).
Proof.
  intros Hm Hp Hn Hr. destruct (pool_run_ok _ _ Hm Hp ips s Hn Hr) as [[Ht Htal Hadm Hfrom] _]. split_and!.
  - etrans; [|exact Hadm]. apply sumZ_pointwise. intros [ip p]. unfold is_open, admitted. cbn. repeat case_match; lia.
  - intros a. etrans; [|exact (Hfrom a)]. apply sumZ_pointwise. intros [ip p]. unfold is_open_from, is_open, admitted_from. cbn. repeat case_match; lia.
  - intros Hgone. split.
    + rewrite Ht. apply sumZ_zero. eapply Forall_impl; [exact Hgone|]. intros [ip p] Hc. cbn in Hc. by subst p.
    + apply map_eq. intros a. rewrite lookup_empty, (Htal a), sumZ_zero; [done|]. eapply Forall_impl; [exact Hgone|].
      intros [ip p] Hc. cbn in Hc. subst p. unfold guarded. cbn. by case_bool_decide.
Qed.

(** Two connections from one address that may have one: the second reads a count of two
    before the first is over, and is refused. *)
Lemma pool_connections_bounded_witness :
  let ip := V4 0xc0000207 in
  exists s, calls s = [(ip, Opened); (ip, Dropped)] /\ rtc (pool_step 4 1) (pool_new [ip; ip]) s /\
    sumZ (is_open <$> calls s) <= 4 /\ forall a, sumZ (is_open_from a <$> calls s) <= 1.
Proof.
  cbv zeta. pose proof (pool_moves_run 4 1 [0; 0; 1; 1; 0; 1]%nat (pool_new [V4 0xc0000207; V4 0xc0000207])) as Hr.
  eexists. split; [|split; [exact Hr|]]; [by vm_compute|].
  destruct (pool_connections_bounded 4 1 [V4 0xc0000207; V4 0xc0000207] _ ltac:(lia) ltac:(lia) ltac:(by vm_compute) Hr) as (H1 & H2 & _).
  split; [exact H1|exact H2].
Defined.

(** ** The stratum server and the keys *)

(** The clients of the stratum server are at most [stratum.max_clients], counted when a
    connection is accepted. *)
Lemma accepted_within_limit (max_clients accepted : Z) (held : nat) : 0 <= max_clients ->
  rtc (accepted_step max_clients) (0, O) (accepted, held) -> accepted = Z.of_nat held /\ Z.of_nat held <= max_clients.
Proof.
  intros Hmax Hr. change ((accepted, held).1 = Z.of_nat (accepted, held).2 /\ Z.of_nat (accepted, held).2 <= max_clients).
  pattern (accepted, held). refine (rtc_ind_r _ (0, O) _ _ _ Hr); [by split|].
  intros y z _ Hst [Hy Hl]. destruct Hst as [a h a2 E|a h]; cbn [fst snd] in *.
  - unfold accepted_take in E. destruct (Z.ltb_spec a max_clients); [|done]. injection E as <-. lia.
  - unfold accepted_drop. lia.
Qed.

Lemma high_bits_mask z : 0 <= z < 2 ^ 128 -> Z.land z (lnot 128 (wrap 128 (Z.shiftl 1 64) - 1)) = Z.shiftl (Z.shiftr z 64) 64.
Proof.
  intros Hz. assert (lnot 128 (wrap 128 (Z.shiftl 1 64) - 1) = Z.shiftl (Z.ones 64) 64) as -> by done.
  apply Z.bits_inj'. intros n Hn. rewrite Z.land_spec, !Z.shiftl_spec by done.
  destruct (Z.ltb_spec n 64) as [Hlt|Hge]; [rewrite !(Z.testbit_neg_r _ (n - 64)) by lia; apply andb_false_r|].
  rewrite Z.shiftr_spec by lia. replace (n - 64 + 64) with n by lia. destruct (Z.ltb_spec n 128) as [Hlt2|Hge2].
  - rewrite Z.ones_spec_low by lia. apply andb_true_r.
  - rewrite (Z.bits_above_log2 z n); [done|lia|]. destruct (decide (z = 0)) as [->|]; [cbn; lia|]. apply Z.log2_lt_pow2; [lia|].
    eapply Z.lt_le_trans; [apply Hz|]. apply Z.pow_le_mono_r; lia.
Qed.

(** Two peers are counted as one exactly where they are one IPv4 address, written either
    way, or two IPv6 addresses of one /64 prefix. *)
Lemma limit_key_same (a b : IpAddr) : ip_ok a -> ip_ok b ->
  limit_key a = limit_key b <->
  match to_canonical a, to_canonical b with
  | V4 x, V4 y => x = y
  | V6 x, V6 y => Z.shiftr x 64 = Z.shiftr y 64
  | _, _ => False
  end.
Proof.
  intros Ha Hb. assert (forall ip, ip_ok ip -> match to_canonical ip with V6 x => 0 <= x < 2 ^ 128 | V4 _ => True end) as Hr.
  { intros [x|x] Hip; cbn [to_canonical ip_ok] in *; [done|]. destruct (_ =? _); [done|exact Hip]. }
  specialize (Hr a Ha) as Hca. specialize (Hr b Hb) as Hcb. unfold limit_key.
  destruct (to_canonical a) as [x|x], (to_canonical b) as [y|y]; [split; congruence|done..|].
  rewrite !high_bits_mask by done. split; [intros [= Heq]|by intros ->].
  apply (f_equal (fun z => Z.shiftr z 64)) in Heq. by rewrite !Z.shiftr_shiftl_l, !Z.shiftl_0_r in Heq.
Qed.

(** A host's addresses of one prefix, and an IPv4 address written as IPv6. *)
Example limit_keys :
  limit_key (V6 0x20010db8000100020000aaaa00000001) = limit_key (V6 0x20010db80001000200bbbb0000000002) /\
  limit_key (V6 0xffffc0000207) = V4 0xc0000207 /\ limit_key (V6 0x20010db8000100030000000000000001) <> limit_key (V6 0x20010db8000100020000000000000001).
Proof. by vm_compute. Qed.
