(* ===== verification/Http.v ===== *)
(** The HTTP server both status interfaces run on ([core/src/http.rs]): how a request is
    read off a connection that brings it in pieces, the replies, and the query and form
    parsing. What runs after a reply is sent, the address of the peer and the closing of the
    socket are left out; the connections open at once are in [Limits]. *)
From S2P Require Import Prelude Text Utf8 Hex.

Definition MAX_HEAD_LEN : nat := 16 * 1024.
Definition MAX_HEADERS : nat := 100.
Definition READ_CHUNK_LEN : nat := 4096.

Inductive Method := Get | Head | Post | Other (name : bytes).

Definition parse_method (s : bytes) : Method :=
  if bool_decide (s = text "GET") then Get else if bool_decide (s = text "HEAD") then Head
  else if bool_decide (s = text "POST") then Post else Other s.

Record Request := { req_method : Method; req_url : bytes; req_headers : list (bytes * bytes); req_body : bytes }.

(** Why no request was read: nothing is answered, or the status. *)
Inductive Refusal := Closed | Status (code : Z).

(** ** The head *)

Record RequestHead := { head_method : Method; head_url : bytes; head_headers : list (bytes * bytes) }.

Definition SP : byte := zb 0x20.
Definition TAB : byte := zb 0x09.
Definition COLON : byte := zb 0x3a.

Definition is_blank (b : byte) : bool := bool_decide (b = SP) || bool_decide (b = TAB).

Definition MALFORMED : Refusal := Status 400.

Definition parse_header_line (line : bytes) : result Refusal (bytes * bytes) :=
  '(name, value) ← ok_or MALFORMED (split_once COLON line);
  if bool_decide (name = []) || existsb (fun b => is_ascii_whitespace b || is_ascii_control b) name then Err MALFORMED
  else Ok (name, trim_both is_blank value).

Fixpoint parse_header_lines (lines : list bytes) (held : list (bytes * bytes)) : result Refusal (list (bytes * bytes)) :=
  match lines with
  | [] => Ok held
  | line :: lines =>
    if (length held =? MAX_HEADERS)%nat then Err (Status 431) else
    h ← parse_header_line line; parse_header_lines lines (held ++ [h])
  end.

Definition parse_head (head : bytes) : result Refusal RequestHead :=
  head ← ok_or MALFORMED (from_utf8 head);
  match split_sub CRLF head with
  | [] => Err MALFORMED
  | request_line :: lines =>
    match split_all SP request_line with
    | [method; url; version] =>
      if bool_decide (method = []) || bool_decide (url = []) then Err MALFORMED else
      if negb (starts_with (text "HTTP/") version) then Err MALFORMED else
      if negb (starts_with (text "HTTP/1.") version) then Err (Status 505) else
      headers ← parse_header_lines lines [];
      Ok {| head_method := parse_method method; head_url := url; head_headers := headers |}
    | _ => Err MALFORMED
    end
  end.

Definition named (name : bytes) (h : bytes * bytes) : bool := eq_ignore_ascii_case h.1 name.

(** The lengths of the headers in turn; they must agree. *)
Fixpoint agreed_length (values : list bytes) (length : option Z) : result Refusal (option Z) :=
  match values with
  | [] => Ok length
  | v :: values =>
    if bool_decide (v = []) || negb (forallb is_ascii_digit v) then Err (Status 400) else
    let parsed := Z.min (default (2 ^ 64 - 1) (digits_value 0 v)) (2 ^ 64 - 1) in
    if from_option (fun l => negb (l =? parsed)) false length then Err (Status 400) else agreed_length values (Some parsed)
  end.

Definition content_length (headers : list (bytes * bytes)) (max_body : Z) : result Refusal nat :=
  if existsb (named (text "Transfer-Encoding")) headers then Err (Status 501) else
  l ← agreed_length (snd <$> filter (fun h => named (text "Content-Length") h = true) headers) None;
  let l := default 0 l in
  if max_body <? l then Err (Status 413) else Ok (Z.to_nat l).

(** ** Reading *)

(** What the socket brings, in order: bytes, the bytes sent together; an interrupted call; a
    wait that ended at the deadline or at the time a read may take; a failure. When nothing
    more is listed the client has closed its side. *)
Inductive Incoming := Bytes (b : bytes) | Interrupted | TimedOut | Failed.

Definition read_some (limit : nat) (buf : bytes) (sock : list Incoming) : result Refusal bytes * list Incoming :=
  match sock with
  | [] => (Err Closed, [])
  | Interrupted :: s => (Ok buf, s)
  | TimedOut :: s => (Err (Status 408), s)
  | Failed :: s => (Err Closed, s)
  | Bytes b :: s =>
    let want := Nat.min (limit - length buf) READ_CHUNK_LEN in
    match take want b with
    | [] => (Err Closed, s)
    | got => (Ok (buf ++ got), match drop want b with [] => s | more => Bytes more :: s end)
    end
  end.

Definition find (haystack needle : bytes) (from : nat) : option nat :=
  if (from <=? length haystack)%nat then (fun at_ => (from + at_)%nat) <$> find_sub needle (drop from haystack) else None.

(** The loop over the head: where it ends, and what was read. A turn takes a piece or a
    byte at least. *)
Fixpoint read_head (fuel : nat) (buf : bytes) (sock : list Incoming) : result Refusal (nat * bytes) * list Incoming :=
  match fuel with
  | O => (Err Closed, sock)
  | S fuel =>
    let searched_to := (length buf - (length HEAD_END - 1))%nat in
    if (MAX_HEAD_LEN <=? length buf)%nat then (Err (Status 431), sock) else
    match read_some MAX_HEAD_LEN buf sock with
    | (Err e, sock) => (Err e, sock)
    | (Ok buf, sock) =>
      match find buf HEAD_END searched_to with
      | Some at_ => (Ok (at_ + length HEAD_END, buf)%nat, sock)
      | None => read_head fuel buf sock
      end
    end
  end.

Fixpoint read_body (fuel : nat) (len : nat) (body : bytes) (sock : list Incoming) : result Refusal bytes * list Incoming :=
  if (len <=? length body)%nat then (Ok body, sock) else
  match fuel with
  | O => (Err Closed, sock)
  | S fuel =>
    match read_some len body sock with
    | (Err e, sock) => (Err e, sock)
    | (Ok body, sock) => read_body fuel len body sock
    end
  end.

Definition incoming_size (sock : list Incoming) : nat :=
  sum_list ((fun i => match i with Bytes b => S (length b) | _ => 1%nat end) <$> sock).

Definition expects_continue (headers : list (bytes * bytes)) : bool :=
  existsb (fun h => named (text "Expect") h && eq_ignore_ascii_case h.2 (text "100-continue")) headers.

(** [read_request]; [continued] is whether the write that asks for the body succeeds. *)
Definition read_request (sock : list Incoming) (max_body : Z) (continued : bool) : result Refusal Request * list Incoming :=
  match read_head (S (incoming_size sock)) [] sock with
  | (Err e, sock) => (Err e, sock)
  | (Ok (head_len, buf), sock) =>
    match (h ← parse_head (take (head_len - length HEAD_END) buf); l ← content_length (head_headers h) max_body; Ok (h, l)) with
    | Err e => (Err e, sock)
    | Ok (h, len) =>
      let body := take len (drop head_len buf) in
      if (length body <? len)%nat && expects_continue (head_headers h) && negb continued then (Err Closed, sock) else
      match read_body (S (incoming_size sock)) len body sock with
      | (Err e, sock) => (Err e, sock)
      | (Ok body, sock) =>
        (Ok {| req_method := head_method h; req_url := head_url h; req_headers := head_headers h; req_body := body |}, sock)
      end
    end
  end.

(** ** A request does not depend on the pieces it comes in *)

Definition stream_of (sock : list Incoming) : bytes := mjoin ((fun i => match i with Bytes b => b | _ => [] end) <$> sock).

(** A socket that brings its bytes, in pieces of any size and with any interruptions, and
    is then closed. *)
Definition brings (sock : list Incoming) : Prop :=
  Forall (fun i => match i with Bytes b => b <> [] | Interrupted => True | TimedOut | Failed => False end) sock.

(** The request of the bytes a client sends, read at once. *)
Definition request_of (data : bytes) (max_body : Z) : result Refusal Request :=
  match find_sub HEAD_END (take MAX_HEAD_LEN data) with
  | None => Err (if (MAX_HEAD_LEN <=? length data)%nat then Status 431 else Closed)
  | Some at_ =>
    h ← parse_head (take at_ data);
    len ← content_length (head_headers h) max_body;
    let body := take len (drop (at_ + length HEAD_END) data) in
    if (length body <? len)%nat then Err Closed
    else Ok {| req_method := head_method h; req_url := head_url h; req_headers := head_headers h; req_body := body |}
  end.

(** A read takes the next bytes and leaves the others; none are left only where there are
    none. *)
Lemma read_some_spec limit buf sock : brings sock -> (length buf < limit)%nat ->
  match read_some limit buf sock with
  | (Ok buf2, sock2) => exists got, buf2 = buf ++ got /\ stream_of sock = got ++ stream_of sock2 /\ brings sock2 /\
      (length buf2 <= limit)%nat /\ (incoming_size sock2 < incoming_size sock)%nat
  | (Err e, sock2) => e = Closed /\ stream_of sock = []
  end.
Proof.
  intros Hs Hl. unfold read_some. destruct sock as [|[b| | |] s]; [done|..]; apply Forall_cons in Hs as [Hb Hs]; try done.
  - set (want := Nat.min (limit - length buf) READ_CHUNK_LEN).
    assert (0 < want)%nat as Hw by (subst want; unfold READ_CHUNK_LEN; lia).
    destruct (take want b) as [|x got] eqn:Et.
    { destruct b; [done|]. destruct want; [lia|done]. }
    assert (b = (x :: got) ++ drop want b) as Hsplit by (rewrite <- Et; by rewrite take_drop).
    assert (length (x :: got) <= want)%nat as Hgot by (rewrite <- Et, length_take; lia).
    exists (x :: got). split; [done|].
    assert (stream_of (Bytes b :: s) = b ++ stream_of s) as -> by done. rewrite Hsplit at 1. rewrite <- app_assoc.
    assert (incoming_size (Bytes b :: s) = S (length b) + incoming_size s)%nat as -> by done.
    apply (f_equal length) in Hsplit. rewrite length_app in Hsplit. cbn [length] in Hgot, Hsplit.
    destruct (drop want b) as [|y more] eqn:Ed.
    + split_and!; [done|done|rewrite length_app; cbn [length]; subst want; lia|lia].
    + split_and!; [done|by constructor|rewrite length_app; cbn [length]; subst want; lia|].
      change (incoming_size (Bytes (y :: more) :: s)) with (S (length (y :: more)) + incoming_size s)%nat. cbn [length] in *. lia.
  - exists []. rewrite app_nil_r. split_and!; [done|done|done|lia|]. unfold incoming_size. cbn. lia.
Qed.

(** Where a text was not in what was read before, only its last bytes are searched again. *)
Lemma find_searched (pat a b : bytes) : (0 < length pat)%nat -> find_sub pat a = None ->
  find (a ++ b) pat (length a - (length pat - 1)) = find_sub pat (a ++ b).
Proof.
  intros Hp Ha. unfold find. set (from := (length a - (length pat - 1))%nat).
  rewrite (proj2 (Nat.leb_le _ _)) by (subst from; rewrite length_app; lia).
  assert (forall j, (j < from)%nat -> starts_with pat (drop j (a ++ b)) = false) as Hbefore.
  { intros j Hj. rewrite drop_app_le by (subst from; lia). rewrite starts_with_shorter by (rewrite length_drop; subst from; lia).
    apply (find_sub_none _ _ Ha). subst from. lia. }
  destruct (find_sub pat (drop from (a ++ b))) as [i|] eqn:E; cbn [fmap option_fmap option_map].
  - destruct (find_sub_some _ _ _ E) as ((k & Hk) & Hi & Hf). rewrite length_drop in Hi. symmetry. apply find_sub_exact.
    + assert (from <= length (a ++ b))%nat by (subst from; rewrite length_app; lia). lia.
    + rewrite drop_drop in Hk. rewrite Hk. apply starts_with_app.
    + intros j Hj. destruct (decide (j < from)%nat) as [|Hge]; [by apply Hbefore|].
      specialize (Hf (j - from)%nat ltac:(lia)). rewrite drop_drop in Hf. by replace (from + (j - from))%nat with j in Hf by lia.
  - destruct (find_sub pat (a ++ b)) as [i|] eqn:E2; [|done]. destruct (find_sub_some _ _ _ E2) as ((k & Hk) & Hi & _).
    destruct (decide (i < from)%nat) as [Hlt|Hge].
    + specialize (Hbefore i Hlt). by rewrite Hk, starts_with_app in Hbefore.
    + pose proof (find_sub_none _ _ E (i - from)%nat) as Hn. rewrite length_drop, drop_drop in Hn.
      replace (from + (i - from))%nat with i in Hn by lia. rewrite Hk, starts_with_app in Hn. discriminate Hn. lia.
Qed.

Lemma find_sub_take_none pat s n : find_sub pat s = None -> find_sub pat (take n s) = None.
Proof.
  intros Hn. destruct (find_sub pat (take n s)) as [i|] eqn:E; [|done].
  apply (find_sub_longer _ _ (drop n s)) in E. by rewrite take_drop, Hn in E.
Qed.

(** The loop over the head finds what searching the bytes at once does. *)
Lemma read_head_whole fuel : forall buf sock, brings sock -> (incoming_size sock < fuel)%nat -> (length buf <= MAX_HEAD_LEN)%nat ->
  find_sub HEAD_END buf = None ->
  match find_sub HEAD_END (take MAX_HEAD_LEN (buf ++ stream_of sock)) with
  | None => (read_head fuel buf sock).1 = Err (if (MAX_HEAD_LEN <=? length (buf ++ stream_of sock))%nat then Status 431 else Closed)
  | Some at_ => exists buf2 sock2, read_head fuel buf sock = (Ok ((at_ + length HEAD_END)%nat, buf2), sock2) /\
      buf ++ stream_of sock = buf2 ++ stream_of sock2 /\ brings sock2 /\ (incoming_size sock2 <= incoming_size sock)%nat /\
      (at_ + length HEAD_END <= length buf2)%nat
  end.
Proof.
  induction fuel as [|fuel IH]; intros buf sock Hs Hf Hl Hno; [lia|]. cbn [read_head].
  destruct (Nat.leb_spec MAX_HEAD_LEN (length buf)) as [Hfull|Hroom].
  { rewrite take_app_le by lia. rewrite (take_ge buf) by lia. rewrite Hno. cbn [fst].
    by rewrite (proj2 (Nat.leb_le _ _)) by (rewrite length_app; lia). }
  pose proof (read_some_spec MAX_HEAD_LEN buf sock Hs Hroom) as Hr.
  destruct (read_some MAX_HEAD_LEN buf sock) as [[buf2|e] sock2]; cycle 1.
  { destruct Hr as [-> Hnil]. rewrite Hnil, app_nil_r, (take_ge buf), Hno by lia. cbn [fst].
    by rewrite (proj2 (Nat.leb_gt _ _)) by lia. }
  destruct Hr as (got & -> & Hst & Hs2 & Hl2 & Hsz). rewrite Hst, app_assoc.
  rewrite (find_searched HEAD_END buf got) by (done || (cbn; lia)).
  destruct (find_sub HEAD_END (buf ++ got)) as [at_|] eqn:E.
  - rewrite take_app_ge by done. rewrite (find_sub_longer _ _ _ _ E). exists (buf ++ got), sock2.
    destruct (find_sub_some _ _ _ E) as ((k & Hk) & Hi & _). apply (f_equal length) in Hk. rewrite length_drop, !length_app in Hk. rewrite length_app in Hi.
    split_and!; [done|done|done|lia|]. rewrite length_app. lia.
  - specialize (IH (buf ++ got) sock2 Hs2 ltac:(lia) Hl2 E).
    destruct (find_sub HEAD_END (take MAX_HEAD_LEN ((buf ++ got) ++ stream_of sock2))) as [at_|]; [|done].
    destruct IH as (b & s & H1 & H2 & H3 & H4 & H5). exists b, s. split_and!; [done..|lia|done].
Qed.

Lemma read_body_whole fuel : forall len body sock, brings sock -> (incoming_size sock < fuel)%nat ->
  (read_body fuel len (take len body) sock).1 =
  if (length (take len (body ++ stream_of sock)) <? len)%nat then Err Closed else Ok (take len (body ++ stream_of sock)).
Proof.
  induction fuel as [|fuel IH]; intros len body sock Hs Hf; [lia|]. cbn [read_body].
  destruct (Nat.leb_spec len (length (take len body))) as [Hdone|Hmore].
  { rewrite length_take in Hdone. rewrite take_app_le by lia. rewrite (proj2 (Nat.ltb_ge _ _)); [done|]. rewrite length_take. lia. }
  pose proof (read_some_spec len (take len body) sock Hs Hmore) as Hr. rewrite length_take in Hmore.
  assert (take len body = body) as Hbody by (apply take_ge; lia). rewrite Hbody in Hr |- *.
  destruct (read_some len body sock) as [[buf2|e] sock2]; cycle 1.
  { destruct Hr as [-> Hnil]. rewrite Hnil, app_nil_r, Hbody. cbn [fst]. by rewrite (proj2 (Nat.ltb_lt _ _)) by lia. }
  destruct Hr as (got & -> & Hst & Hs2 & Hl2 & Hsz). rewrite Hst, app_assoc.
  rewrite <- (IH len (body ++ got) sock2 Hs2 ltac:(lia)). by rewrite (take_ge (body ++ got)) by done.
Qed.

Lemma read_request_whole (sock : list Incoming) (max_body : Z) : brings sock ->
  (read_request sock max_body true).1 = request_of (stream_of sock) max_body.
Proof.
  intros Hs. unfold read_request, request_of.
  pose proof (read_head_whole (S (incoming_size sock)) [] sock Hs ltac:(lia) ltac:(cbn; lia) ltac:(done)) as Hh. cbn [app] in Hh.
  destruct (find_sub HEAD_END (take MAX_HEAD_LEN (stream_of sock))) as [at_|].
  - destruct Hh as (buf & sock2 & -> & Hst & Hs2 & Hsz & Hat). rewrite Hst.
    replace (at_ + length HEAD_END - length HEAD_END)%nat with at_ by lia. rewrite take_app_le by lia.
    destruct (parse_head (take at_ buf)) as [h|e]; [|done]. cbn [mbind result_bind].
    destruct (content_length (head_headers h) max_body) as [len|e]; [|done]. cbn [mbind result_bind]. rewrite andb_false_r.
    rewrite drop_app_le by done.
    pose proof (read_body_whole (S (incoming_size sock2)) len (drop (at_ + length HEAD_END) buf) sock2 Hs2 ltac:(lia)) as Hb.
    destruct (read_body _ len _ sock2) as [[body|e] sock3]; cbn [fst] in Hb |- *.
    + destruct (_ <? _)%nat; [done|]. by injection Hb as ->.
    + destruct (_ <? _)%nat; [|done]. by injection Hb as ->.
  - destruct (read_head _ [] sock) as [[[n b]|e] sock2]; cbn [fst] in Hh; [done|]. by injection Hh as ->.
Qed.

(** ** A well-formed request is read as it was written *)

Definition method_name (m : Method) : bytes :=
  match m with Get => text "GET" | Head => text "HEAD" | Post => text "POST" | Other s => s end.

Definition header_line (h : bytes * bytes) : bytes := h.1 ++ [COLON; SP] ++ h.2.

Definition request_lines (m : Method) (url : bytes) (headers : list (bytes * bytes)) : list bytes :=
  (method_name m ++ [SP] ++ url ++ [SP] ++ text "HTTP/1.1") :: (header_line <$> headers).

(** A request as a client writes it, the length of its body last of its headers. *)
Definition with_length (headers : list (bytes * bytes)) (body : bytes) : list (bytes * bytes) :=
  headers ++ [(text "Content-Length", decimal (zlen body))].

Definition encode_request (m : Method) (url : bytes) (headers : list (bytes * bytes)) (body : bytes) : bytes :=
  join_lines (request_lines m url (with_length headers body)) ++ HEAD_END ++ body.

Definition is_printable (b : byte) : bool := (0x20 <? bz b) && (bz b <? 0x7f).
Definition is_text (b : byte) : bool := (0x20 <=? bz b) && (bz b <? 0x7f).

(** A header a client may send, but for those that say how the body is sent. *)
Record header_ok (h : bytes * bytes) : Prop := {
  ho_name : h.1 <> [] /\ Forall (fun b => is_printable b = true /\ b <> COLON) h.1;
  ho_value : Forall (fun b => is_text b = true) h.2;
  ho_trimmed : head h.2 <> Some SP /\ last h.2 <> Some SP;
  ho_body : named (text "Transfer-Encoding") h = false /\ named (text "Content-Length") h = false;
}.

Record request_ok (m : Method) (url : bytes) (headers : list (bytes * bytes)) (body : bytes) : Prop := {
  ro_method : parse_method (method_name m) = m /\ method_name m <> [] /\ Forall (fun b => is_printable b = true) (method_name m);
  ro_url : url <> [] /\ Forall (fun b => is_printable b = true) url;
  ro_headers : Forall header_ok headers /\ (length headers < MAX_HEADERS)%nat;
  ro_size : (length (join_lines (request_lines m url (with_length headers body))) + length HEAD_END <= MAX_HEAD_LEN)%nat;
  ro_body : zlen body < 2 ^ 64;
}.

Lemma trim_start_kept (p : byte -> bool) s : (forall b, head s = Some b -> p b = false) -> trim_start p s = s.
Proof. destruct s as [|b s]; [done|]. intros Hb. cbn. by rewrite (Hb b). Qed.

Lemma trim_both_kept (p : byte -> bool) s : (forall b, head s = Some b -> p b = false) -> (forall b, last s = Some b -> p b = false) ->
  trim_both p s = s.
Proof.
  intros Hh Hl. unfold trim_both. rewrite (trim_start_kept p s) by done.
  rewrite trim_start_kept; [apply reverse_involutive|]. intros b. rewrite head_reverse. apply Hl.
Qed.

Lemma text_not (b c : byte) : is_text b = true -> is_text c = false -> b <> c.
Proof. intros Hb Hc ->. by rewrite Hb in Hc. Qed.

Lemma printable_text b : is_printable b = true -> is_text b = true.
Proof. unfold is_printable, is_text. intros Hb. lia. Qed.

Lemma texts_no (c : byte) s : is_text c = false -> Forall (fun b => is_text b = true) s -> c ∉ s.
Proof. intros Hc Hs Hin. rewrite Forall_forall in Hs. specialize (Hs c Hin). by rewrite Hs in Hc. Qed.

Lemma printables_no (c : byte) s : is_printable c = false -> Forall (fun b => is_printable b = true) s -> c ∉ s.
Proof. intros Hc Hs Hin. rewrite Forall_forall in Hs. specialize (Hs c Hin). by rewrite Hs in Hc. Qed.

Lemma parse_header_line_ok h : header_ok h -> parse_header_line (header_line h) = Ok h.
Proof.
  destruct h as [name value]. intros [[Hne Hn] Hv [Hh Hl] _]. unfold parse_header_line, header_line. cbn [fst snd] in *.
  change (name ++ [COLON; SP] ++ value) with (name ++ COLON :: (SP :: value)).
  rewrite split_once_app. 2:{ intros Hin. rewrite Forall_forall in Hn. by destruct (Hn _ Hin). }
  cbn [ok_or mbind result_bind]. rewrite bool_decide_eq_false_2 by done. cbn [orb].
  assert (existsb (fun b => is_ascii_whitespace b || is_ascii_control b) name = false) as ->.
  { apply not_true_is_false. intros (b & Hin & Hb)%existsb_exists. apply list_elem_of_In in Hin. rewrite Forall_forall in Hn.
    destruct (Hn b Hin) as [Hp _]. unfold is_printable in Hp. unfold is_ascii_whitespace, is_ascii_control in Hb. cbn in Hb. lia. }
  do 2 f_equal. assert (trim_start is_blank (SP :: value) = trim_start is_blank value) as E by done.
  assert (forall b, is_text b = true -> b <> SP -> is_blank b = false) as Hblank.
  { intros b Hb Hsp. unfold is_blank. rewrite !bool_decide_eq_false_2; [done| |done]. by apply text_not. }
  unfold trim_both. rewrite E. fold (trim_both is_blank value). apply trim_both_kept; intros b Hb.
  - apply Hblank; [|by intros ->; rewrite Hb in Hh]. rewrite Forall_forall in Hv. apply Hv. destruct value; [done|]. injection Hb as ->. by left.
  - apply Hblank; [|by intros ->; rewrite Hb in Hl]. rewrite Forall_forall in Hv. apply Hv. by apply last_Some_elem_of.
Qed.

Lemma header_line_ok h : header_ok h -> Forall (fun b => is_text b = true) (header_line h) /\ header_line h <> [].
Proof.
  intros [[Hne Hn] Hv _ _]. split; [|unfold header_line; by destruct (h.1)]. unfold header_line. rewrite !Forall_app.
  split_and!; [|by repeat constructor|done]. eapply Forall_impl; [exact Hn|]. intros b [Hb _]. by apply printable_text.
Qed.

Lemma decimal_ascii z : 0 <= z < 10 ^ 39 -> Forall (fun b => is_printable b = true) (decimal z).
Proof.
  intros (_ & Hd & _)%decimal_read. eapply Forall_impl; [exact Hd|]. intros b Hb. cbn in Hb. unfold is_ascii_digit in Hb. unfold is_printable. lia.
Qed.

Section roundtrip.
Context (m : Method) (url : bytes) (headers : list (bytes * bytes)) (body : bytes).
Hypothesis Hok : request_ok m url headers body.

Lemma body_size_range : 0 <= zlen body < 10 ^ 39.
Proof using Hok. pose proof (zlen_nonneg body). pose proof (ro_body _ _ _ _ Hok). split; [done|]. etrans; [done|]. done. Qed.

Abbreviation length_header := (text "Content-Length", decimal (zlen body)).

Lemma length_header_line : Forall (fun b => is_text b = true) (header_line length_header) /\ header_line length_header <> [] /\
  parse_header_line (header_line length_header) = Ok length_header.
Proof using Hok.
  assert (Forall (fun b => is_text b = true) (decimal (zlen body))) as Hd.
  { eapply Forall_impl; [by apply decimal_ascii, body_size_range|]. intros b. apply printable_text. }
  split_and!; [|done|].
  - unfold header_line. rewrite !Forall_app. split_and!; [by vm_compute; repeat constructor|by repeat constructor|done].
  - assert (forall b, is_printable b = true -> is_blank b = false) as Hb.
    { intros b Hb. unfold is_blank. rewrite !bool_decide_eq_false_2; [done|..]; by intros ->. }
    unfold parse_header_line, header_line. cbn [fst snd].
    change (text "Content-Length" ++ [COLON; SP] ++ decimal (zlen body)) with (text "Content-Length" ++ COLON :: (SP :: decimal (zlen body))).
    rewrite split_once_app by (apply (bool_decide_eq_true_1 (COLON ∉ text "Content-Length")); by vm_compute).
    cbn [ok_or mbind result_bind]. match goal with |- (if ?c then _ else _) = _ => replace c with false by by vm_compute end.
    do 2 f_equal. unfold trim_both. change (trim_start is_blank (SP :: decimal (zlen body))) with (trim_start is_blank (decimal (zlen body))).
    fold (trim_both is_blank (decimal (zlen body))). pose proof (decimal_ascii _ body_size_range) as Hp. rewrite Forall_forall in Hp.
    apply trim_both_kept; intros b Hin; apply Hb, Hp; [|by apply last_Some_elem_of].
    destruct (decimal (zlen body)); [done|]. injection Hin as ->. by left.
Qed.

Lemma lines_text : Forall (fun l => Forall (fun b => is_text b = true) l /\ l <> []) (request_lines m url (with_length headers body)).
Proof using Hok.
  destruct Hok as [(_ & Hme & Hm) [Hue Hu] [Hh _] _ _]. unfold request_lines. constructor.
  - split; [|by destruct (method_name m)]. rewrite !Forall_app.
    split_and!; [by eapply Forall_impl; [exact Hm|]; apply printable_text|by repeat constructor|by eapply Forall_impl; [exact Hu|]; apply printable_text|by repeat constructor|by vm_compute; repeat constructor].
  - apply Forall_fmap. unfold with_length. apply Forall_app. split.
    + eapply Forall_impl; [exact Hh|]. apply header_line_ok.
    + constructor; [|done]. destruct length_header_line as (Ht & Hne & _). done.
Qed.
End roundtrip.

Lemma texts_lines lines : Forall (fun l => Forall (fun b => is_text b = true) l /\ l <> []) lines -> Forall line_ok lines.
Proof. intros Hl. eapply Forall_impl; [exact Hl|]. intros l [Ht Hne]. split_and!; [by apply texts_no..|done]. Qed.

Lemma join_lines_ascii lines : Forall (fun l => Forall (fun b => is_text b = true) l /\ l <> []) lines ->
  Forall (fun b => bz b < 0x80) (join_lines lines).
Proof.
  assert (forall l, Forall (fun b => is_text b = true) l -> Forall (fun b => bz b < 0x80) l) as Ht.
  { intros l Hl. eapply Forall_impl; [exact Hl|]. intros b Hb. cbn in Hb. unfold is_text in Hb. lia. }
  induction 1 as [|l ls [Hl _] _ IH]; [constructor|]. destruct ls as [|l2 ls]; [by apply Ht|].
  change (join_lines (l :: l2 :: ls)) with (l ++ CRLF ++ join_lines (l2 :: ls)). rewrite !Forall_app. split_and!; [by apply Ht|by repeat constructor|done].
Qed.

Lemma parse_header_lines_ok hs : forall held, Forall (fun h => parse_header_line (header_line h) = Ok h) hs ->
  (length held + length hs <= MAX_HEADERS)%nat -> parse_header_lines (header_line <$> hs) held = Ok (held ++ hs).
Proof.
  induction hs as [|h hs IH]; intros held Hf Hl; cbn [fmap list_fmap parse_header_lines]; [by rewrite app_nil_r|].
  apply Forall_cons in Hf as [Hh Hf]. cbn [length] in Hl. rewrite (proj2 (Nat.eqb_neq _ _)) by lia. rewrite Hh. cbn [mbind result_bind].
  fold (header_line <$> hs). rewrite IH; [by rewrite <- app_assoc|done|]. rewrite length_app. cbn. lia.
Qed.

Lemma content_length_ok headers body max_body : Forall header_ok headers -> zlen body < 2 ^ 64 -> zlen body <= max_body ->
  content_length (with_length headers body) max_body = Ok (length body).
Proof.
  intros Hh Hb Hmax. pose proof (zlen_nonneg body) as H0. assert (0 <= zlen body < 10 ^ 39) as Hr by (split; [done|]; etrans; [done|done]).
  unfold content_length, with_length.
  assert (existsb (named (text "Transfer-Encoding")) (headers ++ [(text "Content-Length", decimal (zlen body))]) = false) as ->.
  { rewrite existsb_app. apply orb_false_iff. split; [|by vm_compute]. apply not_true_is_false. intros (h & Hin & Hn)%existsb_exists.
    apply list_elem_of_In in Hin. rewrite Forall_forall in Hh. destruct (ho_body _ (Hh h Hin)) as [Ht _]. by rewrite Ht in Hn. }
  rewrite filter_app. assert (filter (fun h => named (text "Content-Length") h = true) headers = []) as ->.
  { induction Hh as [|h hs Ho _ IH]; [done|]. rewrite filter_cons_False; [done|]. destruct (ho_body _ Ho) as [_ Hc]. by rewrite Hc. }
  rewrite filter_cons_True by by vm_compute. cbn [app filter list_filter fmap list_fmap snd agreed_length].
  destruct (decimal_read _ Hr) as (Hne & Hd & Hv). rewrite bool_decide_eq_false_2 by done.
  assert (forallb is_ascii_digit (decimal (zlen body)) = true) as ->.
  { apply forallb_forall. intros b Hin. rewrite Forall_forall in Hd. apply Hd. by apply list_elem_of_In. }
  rewrite Hv. cbn [negb orb default from_option option_bind mbind result_bind]. change (id (zlen body)) with (zlen body).
  rewrite Z.min_l by lia. rewrite (proj2 (Z.ltb_ge _ _)) by done. f_equal. unfold zlen. apply Nat2Z.id.
Qed.

(** The head of a request written is its request line and headers. *)
Lemma parse_head_ok m url headers body : request_ok m url headers body ->
  parse_head (join_lines (request_lines m url (with_length headers body))) =
  Ok {| head_method := m; head_url := url; head_headers := with_length headers body |}.
Proof.
  intros Hok. pose proof (lines_text m url headers body Hok) as Hlines. unfold parse_head, from_utf8.
  rewrite ascii_valid by by apply join_lines_ascii. cbn [ok_or mbind result_bind].
  rewrite split_lines by (done || by apply texts_lines). unfold request_lines. destruct (length_header_line m url headers body Hok) as (_ & _ & Hlen).
  destruct Hok as [(Hm & Hmne & Hmt) [Hune Hut] [Hh Hn] _ Hb].
  change (method_name m ++ [SP] ++ url ++ [SP] ++ text "HTTP/1.1") with (method_name m ++ SP :: (url ++ SP :: text "HTTP/1.1")).
  rewrite !split_all_app by by apply printables_no.
  change (split_all SP (text "HTTP/1.1")) with [text "HTTP/1.1"]. rewrite !bool_decide_eq_false_2 by done. cbn [orb].
  change (starts_with (text "HTTP/") (text "HTTP/1.1")) with true. change (starts_with (text "HTTP/1.") (text "HTTP/1.1")) with true. cbn [negb].
  rewrite parse_header_lines_ok.
  - cbn [app mbind result_bind]. by rewrite Hm.
  - apply Forall_app. split; [eapply Forall_impl; [exact Hh|]; apply parse_header_line_ok|]. by repeat constructor.
  - unfold with_length. rewrite length_app. cbn. lia.
Qed.

(** What is read of a client is what it sent, whatever pieces the network brings it in.
    For every way to cut the bytes up, with calls interrupted in between, the loop that
    reads the head a piece at a time and searches only the end of what it has, and the loop
    that reads the body, give the request of the bytes taken at once: the same request,
    or the same refusal. *)
Theorem request_read_whole (sock : list Incoming) (max_body : Z) : brings sock ->
  (read_request sock max_body true).1 = request_of (stream_of sock) max_body.
Proof. apply read_request_whole. Qed.

(** A head whose end came in two pieces, and a body that came with it. *)
Lemma request_read_whole_witness :
  let sock := [Bytes (text "POST /cmd HTTP/1.1" ++ CRLF ++ text "Content-Length: 2" ++ CRLF); Interrupted; Bytes (CRLF ++ text "ab")] in
  brings sock /\ (read_request sock 4 true).1 =
    Ok {| req_method := Post; req_url := text "/cmd"; req_headers := [(text "Content-Length", text "2")]; req_body := text "ab" |}.
Proof.
  cbv zeta. split; [by repeat constructor|]. rewrite request_read_whole by by repeat constructor. by vm_compute.
Defined.

(** C23: A request is read as it was written. Of any method, target, headers and body within
    the limits, what the client writes, with the length of the body among the headers and
    whatever it sends after, is read as that method, target, headers and body, in
    whatever pieces it comes; none of its headers ends early or runs into another, and no
    byte of the body is taken for the head. *)
Theorem request_roundtrip (m : Method) (url : bytes) (headers : list (bytes * bytes)) (body later : bytes) (max_body : Z)
    (sock : list Incoming) :
  request_ok m url headers body -> zlen body <= max_body -> brings sock ->
  stream_of sock = encode_request m url headers body ++ later ->
  (read_request sock max_body true).1 =
  Ok {| req_method := m; req_url := url; req_headers := with_length headers body; req_body := body |}.
Proof.
  intros Hok Hmax Hs Hst. rewrite read_request_whole by done. rewrite Hst. unfold request_of, encode_request.
  pose proof (lines_text m url headers body Hok) as Hlines. set (lines := request_lines m url (with_length headers body)) in *.
  assert (lines <> []) as Hne by done. rewrite <- !app_assoc. set (rest := body ++ later).
  pose proof (ro_size _ _ _ _ Hok) as Hsize. fold lines in Hsize.
  assert (find_sub HEAD_END (take MAX_HEAD_LEN (join_lines lines ++ HEAD_END ++ rest)) = Some (length (join_lines lines))) as ->.
  { rewrite (app_assoc (join_lines lines)), take_app_ge by (by rewrite length_app). apply find_sub_longer.
    rewrite <- (app_nil_r HEAD_END). apply find_head_end; [by apply texts_lines|done]. }
  rewrite take_app_length. pose proof (parse_head_ok _ _ _ _ Hok) as Hp. fold lines in Hp. rewrite Hp. cbn [mbind result_bind head_headers head_method head_url].
  destruct Hok as [_ _ [Hh _] _ Hb]. rewrite content_length_ok by done. cbn [mbind result_bind].
  rewrite (app_assoc (join_lines lines)), drop_app_length' by (by rewrite length_app).
  subst rest. rewrite take_app_length. by rewrite Nat.ltb_irrefl.
Qed.

Lemma request_roundtrip_witness :
  let hs := [(text "Host", text "pool test"); (text "Accept", text "*/*")] in
  let sent := encode_request (Other (text "PUT")) (text "/cmd?x=1") hs (text "a=1") in
  let sock := [Bytes (take 40 sent); Interrupted; Bytes (drop 40 sent); Bytes (text "more")] in
  (read_request sock 8 true).1 =
    Ok {| req_method := Other (text "PUT"); req_url := text "/cmd?x=1"; req_headers := with_length hs (text "a=1"); req_body := text "a=1" |}.
Proof.
  cbv zeta. apply (request_roundtrip _ _ _ _ (text "more")).
  - assert (forall h, h.1 <> [] -> forallb (fun b => is_printable b && bool_decide (b <> COLON)) h.1 = true ->
        forallb is_text h.2 = true -> head h.2 <> Some SP /\ last h.2 <> Some SP ->
        named (text "Transfer-Encoding") h = false /\ named (text "Content-Length") h = false -> header_ok h) as Hok.
    { intros h Hne Hn Hv Ht Hb. constructor; [split; [done|]| |done|done]; apply Forall_forall; intros b Hin%list_elem_of_In.
      - rewrite forallb_forall in Hn. by specialize (Hn b Hin) as [? ?%bool_decide_eq_true]%andb_prop.
      - rewrite forallb_forall in Hv. by apply Hv. }
    constructor.
    + split_and!; [done|done|by repeat constructor].
    + split; [done|by repeat constructor].
    + split; [|by vm_compute; lia]. constructor; [by apply Hok|]. constructor; [by apply Hok|done].
    + by apply Nat.leb_le; vm_compute.
    + done.
  - by vm_compute.
  - by repeat constructor; vm_compute.
  - by vm_compute.
Defined.
