(* ===== verification/HttpReply.v ===== *)
(** The replies of the HTTP server and the query and form parsing ([core/src/http.rs]). The
    text of a JSON value is what [serde_json] prints of it, an argument; what runs after a
    reply is sent is left out. *)
From S2P Require Import Prelude Text Utf8 Hex Http.

(** ** Replies *)

Record Reply := { status : Z; headers : list (bytes * bytes); body : bytes }.

Definition reply_new (code : Z) (b : bytes) : Reply := {| status := code; headers := []; body := b |}.

Definition with_header (r : Reply) (h : bytes * bytes) : Reply :=
  {| status := status r; headers := headers r ++ [h]; body := body r |}.

Definition with_status_code (r : Reply) (code : Z) : Reply :=
  {| status := code; headers := headers r; body := body r |}.

Definition first_named (name : bytes) (hs : list (bytes * bytes)) : option bytes :=
  i ← position (named name) hs; snd <$> hs !! i.

Definition reply_header (r : Reply) (name : bytes) : option bytes := first_named name (headers r).

Definition reason (status : Z) : bytes :=
  if status =? 100 then text "Continue" else if status =? 200 then text "OK" else if status =? 302 then text "Found"
  else if status =? 400 then text "Bad Request" else if status =? 401 then text "Unauthorized"
  else if status =? 403 then text "Forbidden" else if status =? 404 then text "Not Found"
  else if status =? 405 then text "Method Not Allowed" else if status =? 408 then text "Request Timeout"
  else if status =? 411 then text "Length Required" else if status =? 413 then text "Content Too Large"
  else if status =? 429 then text "Too Many Requests" else if status =? 431 then text "Request Header Fields Too Large"
  else if status =? 500 then text "Internal Server Error" else if status =? 501 then text "Not Implemented"
  else if status =? 505 then text "HTTP Version Not Supported" else [].

Definition line_of (h : bytes * bytes) : bytes := h.1 ++ text ": " ++ h.2 ++ CRLF.

(** [Reply::encode]. *)
Definition encode (r : Reply) (head_request : bool) : bytes :=
  let out := text "HTTP/1.1 " ++ decimal (status r) ++ text " " ++ reason (status r) ++ CRLF in
  let out := out ++ mjoin (line_of <$> headers r) in
  let out := out ++ text "Content-Length: " ++ decimal (zlen (body r)) ++ CRLF ++ text "Connection: close" ++ CRLF ++ CRLF in
  if head_request then out else out ++ body r.

Definition is_break (b : byte) : bool := bool_decide (b = CR) || bool_decide (b = LF).
Definition strip (s : bytes) : bytes := filter (fun b => is_break b = false) s.
Definition header (name value : bytes) : bytes * bytes := (strip name, strip value).

Definition body_reply (b content_type : bytes) : Reply :=
  with_header (with_header (reply_new 200 b) (header (text "Content-Type") content_type))
    (header (text "Cache-Control") (text "no-cache, no-store, must-revalidate")).
Definition html (b : bytes) : Reply := body_reply b (text "text/html; charset=utf-8").
Definition json (printed : bytes) : Reply := body_reply printed (text "application/json").
Definition noindex (r : Reply) : Reply := with_header r (header (text "X-Robots-Tag") (text "noindex")).
Definition text_reply (code : Z) (t : bytes) : Reply :=
  with_header (reply_new code t) (header (text "Content-Type") (text "text/plain; charset=utf-8")).
Definition not_found : Reply := text_reply 404 (text "not found").
Definition method_not_allowed : Reply := text_reply 405 (text "method not allowed").

(** The reply of [serve_connection] to what it read: none to a connection that closed. *)
Definition answer (why : Z -> bytes) (handle : Request -> Reply) (r : result Refusal Request) : option bytes :=
  match r with
  | Ok req => Some (encode (handle req) (match req_method req with Head => true | _ => false end))
  | Err Closed => None
  | Err (Status code) => Some (encode (text_reply code (why code)) false)
  end.

(** ** Queries and forms *)

Definition header_value (req : Request) (name : bytes) : option bytes := first_named name (req_headers req).

Definition QUESTION : byte := zb 0x3f.
Definition AMPERSAND : byte := zb 0x26.
Definition EQUALS : byte := zb 0x3d.
Definition PERCENT : byte := zb 0x25.
Definition PLUS : byte := zb 0x2b.

Definition path_and_query (req : Request) : bytes * bytes :=
  match split_once QUESTION (req_url req) with Some (p, q) => (p, q) | None => (req_url req, []) end.

Definition split_pairs (query : bytes) : list (bytes * bytes) :=
  (fun pair => default (pair, []) (split_once EQUALS pair)) <$> filter (fun pair => pair <> []) (split_all AMPERSAND query).

Definition query_hex_digit (b : byte) : option Z :=
  let z := bz b in
  if (0x30 <=? z) && (z <=? 0x39) then Some (z - 0x30)
  else if (0x61 <=? z) && (z <=? 0x66) then Some (z - 0x61 + 10)
  else if (0x41 <=? z) && (z <=? 0x46) then Some (z - 0x41 + 10)
  else None.

(** The loop of [url_decode]: the bytes an escape takes, or the byte itself. *)
Fixpoint url_unescape (s : bytes) : bytes :=
  match s with
  | [] => []
  | b :: s1 =>
    let plain := (if bool_decide (b = PLUS) then SP else b) :: url_unescape s1 in
    match s1 with
    | x :: y :: s2 =>
      if bool_decide (b = PERCENT) then
        match query_hex_digit x, query_hex_digit y with
        | Some hi, Some lo => zb (Z.lor (Z.shiftl hi 4) lo) :: url_unescape s2
        | _, _ => plain
        end
      else plain
    | _ => plain
    end
  end.

Definition url_decode (s : bytes) : bytes := from_utf8_lossy (url_unescape s).

(** The key is compared as it was sent, the value decoded. *)
Definition param (query key : bytes) : option bytes :=
  i ← position (fun kv => bool_decide (kv.1 = key)) (split_pairs query);
  (fun kv => url_decode kv.2) <$> split_pairs query !! i.

Definition pairs (query : bytes) : list (bytes * bytes) :=
  (fun kv => (url_decode kv.1, url_decode kv.2)) <$> split_pairs query.

(** ** No header ends early *)

Lemma strip_no_break s : (CR ∉ strip s) /\ (LF ∉ strip s).
Proof. split; intros [Hb _]%list_elem_of_filter; by vm_compute in Hb. Qed.

(** The lines of a reply's head. *)
Definition reply_lines (r : Reply) : list bytes :=
  ((text "HTTP/1.1 " ++ decimal (status r) ++ text " " ++ reason (status r)) ::
   ((fun h => h.1 ++ text ": " ++ h.2) <$> headers r)) ++
  [text "Content-Length: " ++ decimal (zlen (body r)); text "Connection: close"].

Lemma decimal_no_break z : (CR ∉ decimal z) /\ (LF ∉ decimal z).
Proof. split; intros Hin; pose proof (decimal_digits z) as Hd; rewrite Forall_forall in Hd; by specialize (Hd _ Hin). Qed.

Lemma reason_no_break z : (CR ∉ reason z) /\ (LF ∉ reason z).
Proof.
  unfold reason. repeat (case_match; [split; [apply (bool_decide_eq_true_1 (CR ∉ _))|apply (bool_decide_eq_true_1 (LF ∉ _))]; by vm_compute|]).
  split; apply not_elem_of_nil.
Qed.

Lemma text_no_break (t : bytes) : bool_decide (CR ∉ t) = true -> bool_decide (LF ∉ t) = true -> (CR ∉ t) /\ (LF ∉ t).
Proof. by intros ?%bool_decide_eq_true ?%bool_decide_eq_true. Qed.

Lemma line_ok_app (a b : bytes) : (CR ∉ a) /\ (LF ∉ a) -> (CR ∉ b) /\ (LF ∉ b) -> (CR ∉ a ++ b) /\ (LF ∉ a ++ b).
Proof. rewrite !not_elem_of_app. tauto. Qed.

Lemma reply_lines_ok r hs : headers r = (fun h => header h.1 h.2) <$> hs -> Forall line_ok (reply_lines r).
Proof.
  intros Hh. assert (forall (t : bytes), (CR ∉ t) /\ (LF ∉ t) -> t <> [] -> line_ok t) as Hok by (by intros t [? ?]).
  unfold reply_lines. rewrite Forall_app, Forall_cons. split_and!.
  - apply Hok; [|done].
    repeat apply line_ok_app; [by apply text_no_break|apply decimal_no_break|by apply text_no_break|apply reason_no_break].
  - rewrite Hh. apply Forall_fmap, Forall_fmap, Forall_true. intros [n v]. cbn [fst snd header]. apply Hok; [|by intros [_ Hnil]%app_nil].
    repeat apply line_ok_app; [apply strip_no_break|by apply text_no_break|apply strip_no_break].
  - constructor; [|constructor; [|done]].
    + apply Hok; [|done]. apply line_ok_app; [by apply text_no_break|apply decimal_no_break].
    + apply Hok; [by apply text_no_break|done].
Qed.

Lemma join_lines_app a b : b <> [] -> join_lines (a ++ b) = mjoin ((fun l => l ++ CRLF) <$> a) ++ join_lines b.
Proof.
  intros Hb. induction a as [|l a IH]; [done|]. change ((l :: a) ++ b) with (l :: (a ++ b)).
  assert (mjoin ((fun l : bytes => l ++ CRLF) <$> l :: a) = (l ++ CRLF) ++ mjoin ((fun l : bytes => l ++ CRLF) <$> a)) as -> by done.
  rewrite <- !app_assoc, <- IH. destruct (a ++ b) eqn:E; [by apply app_nil in E as [_ ->]|done].
Qed.

Lemma encode_lines r head_request : encode r head_request =
  join_lines (reply_lines r) ++ HEAD_END ++ (if head_request then [] else body r).
Proof.
  unfold reply_lines. rewrite join_lines_app by done. cbn [join_lines].
  set (first := text "HTTP/1.1 " ++ _). set (hs := _ <$> headers r).
  change (mjoin ((fun l : bytes => l ++ CRLF) <$> first :: hs)) with ((first ++ CRLF) ++ mjoin ((fun l : bytes => l ++ CRLF) <$> hs)).
  subst hs.
  assert ((fun l : bytes => l ++ CRLF) <$> ((fun h => h.1 ++ text ": " ++ h.2) <$> headers r) = line_of <$> headers r) as ->.
  { rewrite <- list_fmap_compose. apply list_fmap_ext. intros _ h _. unfold line_of. cbn. by rewrite <- !app_assoc. }
  unfold encode, HEAD_END. subst first. destruct head_request; by rewrite <- ?app_assoc, ?app_nil_r.
Qed.

(** No text that goes into a reply can add to it a line, a header or a body. Whatever
    names and values the handlers give [header], taken from a request or a file, and
    whatever the status and the body, the reply written has its one blank line where the
    head ends, the lines of the head are the status line, one line for each header given in
    order, the length and the end of the connection, and what follows is the body, or
    nothing where the request was for the head alone. *)
Theorem reply_cannot_be_split (code : Z) (given : list (bytes * bytes)) (b : bytes) (head_request : bool) :
  let r := foldl with_header (reply_new code b) ((fun h => header h.1 h.2) <$> given) in
  let sent := encode r head_request in
  exists n, find_sub HEAD_END sent = Some n /\ split_sub CRLF (take n sent) = reply_lines r /\
    length (reply_lines r) = (length given + 3)%nat /\
    drop (n + length HEAD_END) sent = if head_request then [] else b.
Proof.
  cbv zeta. assert (forall hs r, foldl with_header r hs = {| status := status r; headers := headers r ++ hs; body := body r |}) as Hf.
  { induction hs as [|h hs IH]; intros [c g d]; cbn [foldl with_header status headers body]; [by rewrite app_nil_r|].
    rewrite IH. cbn. by rewrite <- app_assoc. }
  rewrite Hf. cbn [reply_new status headers body app]. set (r := {| status := code |}).
  pose proof (reply_lines_ok r given eq_refl) as Hok. rewrite encode_lines.
  assert (reply_lines r <> []) as Hne by done. exists (length (join_lines (reply_lines r))).
  rewrite find_head_end by done. rewrite take_app_length, split_lines by done. split_and!; [done|done| |].
  - unfold reply_lines. rewrite length_app. cbn [length]. subst r. cbn [headers]. rewrite !length_fmap. lia.
  - rewrite app_assoc, drop_app_length' by (by rewrite length_app). done.
Qed.

(** ** What a form sends is what is read *)

(** A browser's encoding of a form: the characters it keeps, the space, and escapes. *)
Definition kept (b : byte) : bool :=
  is_ascii_digit b || is_ascii_uppercase b || is_ascii_lowercase b || existsb (Z.eqb (bz b)) [0x2a; 0x2d; 0x2e; 0x5f].

Definition form_encode (s : bytes) : bytes :=
  mjoin ((fun b => if kept b then [b] else if bool_decide (b = SP) then [PLUS] else PERCENT :: hex_fixed 2 (bz b)) <$> s).

Fixpoint query_of (kvs : list (bytes * bytes)) : bytes :=
  match kvs with
  | [] => []
  | [(k, v)] => form_encode k ++ [EQUALS] ++ form_encode v
  | (k, v) :: kvs => form_encode k ++ [EQUALS] ++ form_encode v ++ [AMPERSAND] ++ query_of kvs
  end.

Lemma query_hex_digit_eq b : query_hex_digit b = hex_value b.
Proof. unfold query_hex_digit, hex_value. repeat case_match; f_equal; lia. Qed.

Lemma url_unescape_plain b s : b <> PERCENT -> url_unescape (b :: s) = (if bool_decide (b = PLUS) then SP else b) :: url_unescape s.
Proof. intros Hb. destruct s as [|x [|y s]]; [done..|]. cbn [url_unescape]. by rewrite (bool_decide_eq_false_2 (b = PERCENT)). Qed.

Lemma kept_not b c : kept b = true -> kept c = false -> b <> c.
Proof. intros Hb Hc ->. by rewrite Hb in Hc. Qed.

Lemma url_unescape_encode s k : url_unescape (form_encode s ++ k) = s ++ url_unescape k.
Proof.
  unfold form_encode. induction s as [|b s IH]; [done|]. cbn [fmap list_fmap mjoin list_join]. rewrite <- app_assoc. cbn [app].
  destruct (kept b) eqn:Hk; cbn [app].
  - rewrite url_unescape_plain by by apply (kept_not b PERCENT). rewrite bool_decide_eq_false_2 by by apply (kept_not b PLUS).
    f_equal. apply IH.
  - case_bool_decide as Hsp.
    + cbn [app]. rewrite url_unescape_plain by done. rewrite bool_decide_eq_true_2 by done. subst b. f_equal. apply IH.
    + pose proof (bz_range b) as Hr. cbn [hex_fixed app url_unescape]. rewrite bool_decide_eq_true_2 by done.
      rewrite !query_hex_digit_eq. rewrite (hex_value_digit (bz b / 16 mod 16)), (hex_value_digit (bz b mod 16)) by (apply Z.mod_pos_bound; lia).
      f_equal; [|apply IH]. rewrite Z.mod_small by (split; [apply Z.div_pos; lia|apply Z.div_lt_upper_bound; lia]).
      rewrite lor_shiftl_add by (lia || by apply Z.mod_pos_bound).
      change (2 ^ 4) with 16. rewrite <- (zb_bz b) at 3. f_equal. pose proof (Z.div_mod (bz b) 16 ltac:(lia)). lia.
Qed.

Lemma url_unescape_back s : url_unescape (form_encode s) = s.
Proof. rewrite <- (app_nil_r (form_encode s)), url_unescape_encode. apply app_nil_r. Qed.

Lemma form_encode_kept s : Forall (fun b => kept b = true) s -> form_encode s = s.
Proof. unfold form_encode. induction 1 as [|b s Hb _ IH]; [done|]. cbn [fmap list_fmap mjoin list_join]. rewrite Hb. cbn [app]. by f_equal. Qed.

Lemma hex_fixed_kept n z : Forall (fun b => kept b = true) (hex_fixed n z).
Proof.
  revert z. induction n as [|n IH]; intros z; [constructor|]. cbn [hex_fixed]. apply Forall_app. split; [apply IH|]. constructor; [|done].
  pose proof (Z.mod_pos_bound z 16 ltac:(lia)) as Hd. unfold kept, is_ascii_digit, is_ascii_lowercase, hex_digit.
  destruct (Z.ltb_spec (z mod 16) 10); rewrite bz_zb_small by lia; lia.
Qed.

(** Nothing encoded is taken for the mark between two pairs, or in one. *)
Lemma form_encode_marks s : (AMPERSAND ∉ form_encode s) /\ (EQUALS ∉ form_encode s).
Proof.
  assert (Forall (fun b => kept b = true \/ b = PLUS \/ b = PERCENT) (form_encode s)) as Hf.
  { unfold form_encode. induction s as [|b s IH]; [constructor|]. cbn [fmap list_fmap mjoin list_join]. apply Forall_app. split; [|done].
    destruct (kept b) eqn:Hk; [by constructor; [left|]|]. case_bool_decide; [by constructor; [right; left|]|].
    constructor; [by right; right|]. eapply Forall_impl; [apply hex_fixed_kept|]. by left. }
  rewrite Forall_forall in Hf. split; intros Hin; by destruct (Hf _ Hin) as [?|[?|?]].
Qed.

Definition encoded (kv : bytes * bytes) : bytes * bytes := (form_encode kv.1, form_encode kv.2).

Lemma split_pairs_query kvs : split_pairs (query_of kvs) = encoded <$> kvs.
Proof.
  assert (forall kv, form_encode kv.1 ++ [EQUALS] ++ form_encode kv.2 <> []) as Hne by (by intros kv [_ ?]%app_nil).
  assert (forall kv, AMPERSAND ∉ form_encode kv.1 ++ [EQUALS] ++ form_encode kv.2) as Hno.
  { intros kv. rewrite !not_elem_of_app. split_and!; [apply form_encode_marks|by intros ?%list_elem_of_singleton|apply form_encode_marks]. }
  assert (forall kv, default (form_encode kv.1 ++ [EQUALS] ++ form_encode kv.2, [])
      (split_once EQUALS (form_encode kv.1 ++ [EQUALS] ++ form_encode kv.2)) = encoded kv) as Hkv.
  { intros kv. change ([EQUALS] ++ ?x) with (EQUALS :: x). by rewrite split_once_app by apply form_encode_marks. }
  unfold split_pairs. induction kvs as [|[k v] kvs IH]; [done|]. specialize (Hne (k, v)). specialize (Hno (k, v)). specialize (Hkv (k, v)).
  cbn [fst snd] in *. destruct kvs as [|kv2 kvs].
  - cbn [query_of]. rewrite split_all_one by done. rewrite filter_cons_True by done. cbn [filter list_filter fmap list_fmap]. by rewrite Hkv.
  - assert (query_of ((k, v) :: kv2 :: kvs) = (form_encode k ++ [EQUALS] ++ form_encode v) ++ AMPERSAND :: query_of (kv2 :: kvs)) as ->.
    { change (query_of ((k, v) :: kv2 :: kvs)) with (form_encode k ++ [EQUALS] ++ form_encode v ++ [AMPERSAND] ++ query_of (kv2 :: kvs)). by rewrite <- !app_assoc. }
    rewrite split_all_app by done. rewrite filter_cons_True by done. rewrite !fmap_cons, IH, Hkv. done.
Qed.

Lemma position_fmap {A B} (g : A -> B) (f : B -> bool) (h : A -> bool) l : (forall a, f (g a) = h a) -> position f (g <$> l) = position h l.
Proof. intros Hf. induction l as [|a l IH]; [done|]. cbn. by rewrite Hf, <- IH. Qed.

(** What a form holds is what is read of it. A list of names and values, of any text,
    sent as a browser encodes a form, is read as those names and values in that order:
    no character of a value ends it early or starts another. A value asked for by a name of
    characters the encoding keeps is that of the first field of that name, and nothing
    where there is none. *)
Theorem form_read_back (kvs : list (bytes * bytes)) (key : bytes) :
  Forall (fun kv => valid_utf8 kv.1 = true /\ valid_utf8 kv.2 = true) kvs -> Forall (fun b => kept b = true) key ->
  pairs (query_of kvs) = kvs /\
  param (query_of kvs) key = (i ← position (fun kv => bool_decide (kv.1 = key)) kvs; snd <$> kvs !! i).
Proof.
  intros Hv Hk. assert (forall s, valid_utf8 s = true -> url_decode (form_encode s) = s) as Hd.
  { intros s Hs. unfold url_decode. rewrite url_unescape_back. by apply from_utf8_lossy_valid. }
  unfold pairs, param. rewrite split_pairs_query. split.
  - rewrite <- list_fmap_compose. rewrite <- (list_fmap_id kvs) at 2. apply list_fmap_ext. intros i [k v] Hi.
    rewrite Forall_lookup in Hv. destruct (Hv i _ Hi) as [Hkv Hvv]. unfold encoded, compose. cbn [fst snd] in *. by rewrite !Hd.
  - rewrite (position_fmap encoded _ (fun kv => bool_decide (kv.1 = key))).
    2:{ intros [k v]. unfold encoded. cbn [fst snd]. apply bool_decide_ext. split; [|intros ->; by apply form_encode_kept].
        intros Heq. apply (f_equal url_unescape) in Heq. rewrite url_unescape_back in Heq.
        rewrite Heq. pose proof (url_unescape_back key) as Hb. by rewrite form_encode_kept in Hb. }
    destruct (position _ kvs) as [i|]; [|done]. cbn [mbind option_bind]. rewrite list_lookup_fmap. destruct (kvs !! i) as [[k v]|] eqn:Hi; [|done].
    rewrite Forall_lookup in Hv. destruct (Hv i _ Hi) as [_ Hvv]. unfold encoded. cbn [fmap option_fmap option_map fst snd] in *. by rewrite Hd.
Qed.

(** A value with the marks of a form in it. *)
Lemma form_read_back_witness :
  let kvs := [(text "csrf", text "0f"); (text "tag", text "a&b=c d+%41"); (text "tag", text "2")] in
  query_of kvs = text "csrf=0f&tag=a%26b%3dc+d%2b%2541&tag=2" /\
  pairs (query_of kvs) = kvs /\ param (query_of kvs) (text "tag") = Some (text "a&b=c d+%41").
Proof.
  cbv zeta. split; [by vm_compute|].
  destruct (form_read_back [(text "csrf", text "0f"); (text "tag", text "a&b=c d+%41"); (text "tag", text "2")] (text "tag")) as [-> ->];
    [by repeat constructor|by vm_compute; repeat constructor|]. split; [done|]. by vm_compute.
Defined.
