(* ===== verification/RpcUrl.v ===== *)
(** The URL of the node, as the RPC client reads it and as it is shown
    ([core/src/rpc.rs]): the credentials it carries, the password taken out of what is
    logged or put on a page, and put back into what was edited there. *)
From S2P Require Import Prelude Text Utf8 Hex.

Definition HTTP_PORT : Z := 80.
Definition HTTPS_PORT : Z := 443.

Record RpcUrl := { url : bytes; user : bytes; password : bytes }.

Definition REDACTED_PASSWORD : bytes := text "***".

Definition SLASH : byte := zb 0x2f.
Definition AT : byte := zb 0x40.
Definition COLON : byte := zb 0x3a.
Definition BRACKET : byte := zb 0x5d.
Definition PERCENT : byte := zb 0x25.
Definition SCHEME_END : bytes := text "://".

(** Where in a URL its password is: the first byte of it and the first after it. *)
Definition password_span (url : bytes) : option (nat * nat) :=
  let authority_at := match find_sub SCHEME_END url with Some at_ => (at_ + 3)%nat | None => O end in
  let rest := drop authority_at url in
  let authority := match split_once SLASH rest with Some (authority, _) => authority | None => rest end in
  '(credentials, _) ← rsplit_once AT authority;
  '(user, password) ← split_once COLON credentials;
  let start := (authority_at + length user + 1)%nat in
  if bool_decide (password = []) then None else Some (start, (start + length password)%nat).

Definition redact_url (url : bytes) : bytes :=
  match password_span url with
  | Some (start, end_) => take start url ++ REDACTED_PASSWORD ++ drop end_ url
  | None => url
  end.

Definition slice (s : bytes) (a b : nat) : bytes := take (b - a) (drop a s).

Definition restore_redacted_password (edited original : bytes) : bytes :=
  match password_span edited, password_span original with
  | Some (start, end_), Some (o_start, o_end) =>
    if bool_decide (slice edited start end_ = REDACTED_PASSWORD)
    then take start edited ++ slice original o_start o_end ++ drop end_ edited
    else edited
  | _, _ => edited
  end.

(** The loop of [percent_decode]: the two characters after a percent sign are read as the
    standard library reads a number of base 16. *)
Fixpoint percent_unescape (s : bytes) : bytes :=
  match s with
  | [] => []
  | b :: s1 =>
    match s1 with
    | x :: y :: s2 =>
      if bool_decide (b = PERCENT) then
        match (hex ← from_utf8 [x; y]; from_str_radix16 8 hex) with
        | Some v => zb v :: percent_unescape s2
        | None => b :: percent_unescape s1
        end
      else b :: percent_unescape s1
    | _ => b :: percent_unescape s1
    end
  end.

Definition percent_decode (s : bytes) : bytes := from_utf8_lossy (percent_unescape s).

(** [split_once] at a string. *)
Definition split_once_sub (pat s : bytes) : option (bytes * bytes) :=
  i ← find_sub pat s; Some (take i s, drop (i + length pat) s).

(** A URL that is refused is named with its password redacted. *)
Definition parse_url (url : bytes) : result bytes RpcUrl :=
  let bad := redact_url url in
  '(scheme, rest) ← ok_or bad (split_once_sub SCHEME_END url);
  if negb (bool_decide (scheme = text "http")) && negb (bool_decide (scheme = text "https")) then Err bad else
  let '(authority, path) := match split_once SLASH rest with
    | Some (authority, path) => (authority, SLASH :: path)
    | None => (rest, [])
    end in
  let '(user, password, authority) := match rsplit_once AT authority with
    | Some (credentials, host) =>
      let '(user, password) := default (credentials, []) (split_once COLON credentials) in
      (percent_decode user, percent_decode password, host)
    | None => ([], [], authority)
    end in
  if bool_decide (authority = []) then Err bad else
  let has_port := bool_decide (COLON ∈ match rsplit_once BRACKET authority with Some (_, after) => after | None => authority end) in
  let port := if has_port then [] else COLON :: decimal (if bool_decide (scheme = text "https") then HTTPS_PORT else HTTP_PORT) in
  Ok {| url := scheme ++ SCHEME_END ++ authority ++ port ++ path; user := user; password := password |}.

Definition check_url (url : bytes) : result bytes () := _ ← parse_url url; Ok ().

(** ** The parts of a URL *)

(** The end of the scheme that the search finds, or the start where there is none. *)
Definition authority_start (u : bytes) : nat := match find_sub SCHEME_END u with Some i => (i + 3)%nat | None => O end.

(** Where text with a slash nowhere is replaced, no scheme appears that was not there. *)
Lemma find_scheme_replaced (a b : bytes) (x : byte) (rest : bytes) : SLASH ∉ b -> x <> SLASH ->
  find_sub SCHEME_END (a ++ x :: rest) = None -> find_sub SCHEME_END (b ++ x :: rest) = None.
Proof.
  intros Hb Hx Hn. destruct (find_sub SCHEME_END (b ++ x :: rest)) as [j|] eqn:E; [|done].
  destruct (find_sub_some _ _ _ E) as ((k & Hk) & _ & _).
  assert ((b ++ x :: rest) !! S j = Some SLASH) as Hs.
  { replace (S j) with (j + 1)%nat by lia. rewrite <- lookup_drop, Hk. done. }
  destruct (decide (j < length b)%nat) as [Hlt|Hge].
  - destruct (decide (S j < length b)%nat) as [Hlt2|Hge2].
    + rewrite lookup_app_l in Hs by done. by apply list_elem_of_lookup_2 in Hs.
    + rewrite lookup_app_r in Hs by lia. replace (S j - length b)%nat with 0%nat in Hs by lia. by injection Hs.
  - rewrite drop_app_ge in Hk by lia. pose proof (find_sub_none _ _ Hn (length a + (j - length b))%nat) as Hno.
    rewrite drop_app_ge in Hno by lia. replace (length a + (j - length b) - length a)%nat with (j - length b)%nat in Hno by lia.
    rewrite Hk, starts_with_app in Hno. discriminate Hno. rewrite length_app.
    apply (f_equal length) in Hk. rewrite length_drop, length_app in Hk. cbn [length SCHEME_END] in *. change (length SCHEME_END) with 3%nat in Hk. lia.
Qed.

(** The scheme of a URL ends where it does whatever follows. *)
Lemma authority_start_replaced (head a b : bytes) (x : byte) (rest : bytes) : SLASH ∉ b -> x <> SLASH ->
  authority_start (head ++ a ++ x :: rest) = length head -> authority_start (head ++ b ++ x :: rest) = length head.
Proof.
  intros Hb Hx. unfold authority_start. destruct (find_sub SCHEME_END (head ++ a ++ x :: rest)) as [i|] eqn:E; intros Hl.
  - destruct (find_sub_some _ _ _ E) as ((k & Hk) & Hi & Hbefore).
    assert (find_sub SCHEME_END head = Some i) as Hh.
    { assert (starts_with SCHEME_END (drop i head) = true) as Hst.
      { rewrite drop_app_le in Hk by lia. unfold starts_with. apply bool_decide_eq_true_2.
        apply (f_equal (take 3)) in Hk. rewrite take_app_le in Hk by (rewrite length_drop; lia).
        change (length SCHEME_END) with 3%nat. rewrite Hk. done. }
      apply find_sub_exact; [lia|done|]. intros j Hj. apply not_true_is_false. intros Hs. apply (starts_with_longer _ _ (a ++ x :: rest)) in Hs.
      rewrite <- drop_app_le in Hs by lia. by rewrite Hbefore in Hs. }
    by rewrite (find_sub_longer _ _ (b ++ x :: rest) _ Hh).
  - destruct head as [|y head]; [|done]. cbn [app] in *. by rewrite (find_scheme_replaced a b x rest).
Qed.

(** The marks of the authority of a URL are found whatever the password. *)
Lemma span_of_authority (head user pw host path : bytes) :
  COLON ∉ user -> AT ∉ host -> SLASH ∉ user ++ pw ++ host -> pw <> [] -> path = [] \/ (exists p, path = SLASH :: p) ->
  let u := head ++ user ++ COLON :: pw ++ AT :: host ++ path in
  authority_start u = length head ->
  password_span u = Some ((length head + length user + 1)%nat, (length head + length user + 1 + length pw)%nat).
Proof.
  intros Hu Hh Hs Hpw Hpath u Hat. unfold password_span. fold (authority_start u). rewrite Hat. unfold u. rewrite drop_app_length.
  set (authority := user ++ COLON :: pw ++ AT :: host).
  assert (SLASH ∉ authority) as Hsa.
  { unfold authority. rewrite !not_elem_of_app in Hs. rewrite not_elem_of_app, not_elem_of_cons, not_elem_of_app, not_elem_of_cons.
    destruct Hs as (?&?&?). split_and!; done. }
  assert (match split_once SLASH (user ++ COLON :: pw ++ AT :: host ++ path) with Some (a, _) => a | None => user ++ COLON :: pw ++ AT :: host ++ path end = authority) as ->.
  { replace (user ++ COLON :: pw ++ AT :: host ++ path) with (authority ++ path) by (unfold authority; rewrite <- app_assoc; cbn; by rewrite <- app_assoc).
    destruct Hpath as [->|[p ->]]; [rewrite app_nil_r; by rewrite split_once_none|by rewrite split_once_app]. }
  unfold authority. assert (user ++ COLON :: pw ++ AT :: host = (user ++ COLON :: pw) ++ AT :: host) as -> by (by rewrite <- app_assoc).
  rewrite rsplit_once_app by done. cbn [mbind option_bind]. rewrite split_once_app by done. cbn [mbind option_bind].
  by rewrite bool_decide_eq_false_2.
Qed.

(** A URL with a password is what is before it, the password and what is after. *)
Lemma password_span_some (u : bytes) (a b : nat) : password_span u = Some (a, b) -> exists head user pw host path,
  u = head ++ user ++ COLON :: pw ++ AT :: host ++ path /\ authority_start u = length head /\
  (COLON ∉ user) /\ (AT ∉ host) /\ (SLASH ∉ user ++ pw ++ host) /\ pw <> [] /\ (path = [] \/ exists p, path = SLASH :: p) /\
  a = (length head + length user + 1)%nat /\ b = (a + length pw)%nat.
Proof.
  unfold password_span. fold (authority_start u). set (at_ := authority_start u).
  assert (at_ <= length u)%nat as Hat.
  { unfold at_, authority_start. destruct (find_sub SCHEME_END u) as [i|] eqn:E; [|lia]. destruct (find_sub_some _ _ _ E) as ((k & Hk) & Hi & _).
    apply (f_equal length) in Hk. rewrite length_drop, length_app in Hk. change (length SCHEME_END) with 3%nat in Hk. lia. }
  set (rest := drop at_ u). assert (u = take at_ u ++ rest) as Hu by (symmetry; apply take_drop).
  assert (exists authority path, match split_once SLASH rest with Some (a, _) => a | None => rest end = authority /\ rest = authority ++ path /\
    (SLASH ∉ authority) /\ (path = [] \/ exists p, path = SLASH :: p)) as (authority & path & -> & Hr & Hs & Hpath).
  { destruct (split_once SLASH rest) as [[x p]|] eqn:E.
    - destruct (split_once_some _ _ _ _ E) as [Hr Hs]. exists x, (SLASH :: p). split_and!; [done..|]. right. by eexists.
    - exists rest, []. rewrite app_nil_r. split_and!; [done..| |by left]. intros Hin. apply split_once_in in Hin as (x & y & Heq). by rewrite Heq in E. }
  destruct (rsplit_once AT authority) as [[credentials host]|] eqn:E1; [|done]. cbn [mbind option_bind].
  destruct (split_once COLON credentials) as [[user pw]|] eqn:E2; [|done]. cbn [mbind option_bind].
  case_bool_decide as Hpw; [done|]. intros [= <- <-].
  apply rsplit_once_some in E1 as [-> Hh]. apply split_once_some in E2 as [-> Huser].
  exists (take at_ u), user, pw, host, path. assert (length (take at_ u) = at_) as Hlen by (rewrite length_take; lia). rewrite Hlen.
  split_and!; [|done|done|done| |done|done|done|done].
  - rewrite Hu at 1. by rewrite Hr, <- !app_assoc.
  - rewrite !not_elem_of_app in Hs. rewrite !not_elem_of_app. rewrite !not_elem_of_cons in Hs. tauto.
Qed.

(** A URL with a password, and with any other in its place. *)
Lemma password_replaced (u pw : bytes) (a b : nat) : password_span u = Some (a, b) -> pw <> [] -> SLASH ∉ pw ->
  password_span (take a u ++ pw ++ drop b u) = Some (a, (a + length pw)%nat) /\ (a <= b)%nat /\ (b <= length u)%nat /\ length (take a u) = a.
Proof.
  intros Hs Hpw Hslash. destruct (password_span_some _ _ _ Hs) as (head & user & pw0 & host & path & Hu & Hat & Huser & Hh & Hsl & _ & Hpath & -> & ->).
  assert (u = (head ++ user ++ [COLON]) ++ pw0 ++ AT :: host ++ path) as Hu2 by (rewrite Hu, <- !app_assoc; done).
  assert (length (head ++ user ++ [COLON]) = (length head + length user + 1)%nat) as Hlen by (rewrite !length_app; cbn; lia).
  assert (take (length head + length user + 1) u = head ++ user ++ [COLON]) as Ht by (rewrite Hu2; by rewrite take_app_length').
  assert (drop (length head + length user + 1 + length pw0) u = AT :: host ++ path) as Hd.
  { rewrite Hu2, app_assoc. rewrite drop_app_length'; [done|]. rewrite length_app. lia. }
  rewrite Ht, Hd. split_and!; [|lia|rewrite Hu2, !length_app; cbn; lia|done].
  replace ((head ++ user ++ [COLON]) ++ pw ++ AT :: host ++ path) with (head ++ user ++ COLON :: pw ++ AT :: host ++ path) by (rewrite <- !app_assoc; done).
  rewrite !not_elem_of_app in Hsl. destruct Hsl as (Hs1 & Hs2 & Hs3).
  apply (span_of_authority head user pw host path); [done|done|by rewrite !not_elem_of_app|done|done|].
  assert (head ++ user ++ COLON :: pw ++ AT :: host ++ path = head ++ (user ++ COLON :: pw) ++ AT :: host ++ path) as -> by (rewrite <- !app_assoc; done).
  apply (authority_start_replaced head (user ++ COLON :: pw0)); [|done|].
  - rewrite not_elem_of_app, not_elem_of_cons. split_and!; done.
  - rewrite <- Hat, Hu. f_equal. by rewrite <- !app_assoc.
Qed.

Lemma stars_slash : SLASH ∉ REDACTED_PASSWORD.
Proof. by apply (bool_decide_eq_true_1 (SLASH ∉ REDACTED_PASSWORD)). Qed.

Lemma redact_replaced (u pw : bytes) (a b : nat) : password_span u = Some (a, b) -> pw <> [] -> SLASH ∉ pw ->
  redact_url (take a u ++ pw ++ drop b u) = redact_url u.
Proof.
  intros Hs Hpw Hsl. destruct (password_replaced _ _ _ _ Hs Hpw Hsl) as (Hs2 & Hab & Hb & Hlen). unfold redact_url. rewrite Hs2, Hs.
  rewrite take_app_le by lia. rewrite (take_ge (take a u)) by lia. do 2 f_equal.
  rewrite app_assoc, drop_app_length'; [done|]. rewrite length_app. lia.
Qed.

Lemma redact_restored (u : bytes) : restore_redacted_password (redact_url u) u = u.
Proof.
  unfold redact_url. destruct (password_span u) as [[a b]|] eqn:Hs.
  - destruct (password_replaced _ REDACTED_PASSWORD _ _ Hs ltac:(done) stars_slash) as (Hs2 & Hab & Hb & Hlen).
    unfold restore_redacted_password. rewrite Hs2, Hs. rewrite bool_decide_eq_true_2.
    2:{ unfold slice. rewrite (drop_app_length' (take a u)) by done. replace (a + length REDACTED_PASSWORD - a)%nat with (length REDACTED_PASSWORD) by lia.
        apply take_app_length. }
    rewrite (take_app_length' (take a u)) by done.
    rewrite (app_assoc (take a u) REDACTED_PASSWORD), (drop_app_length' (take a u ++ REDACTED_PASSWORD)) by (by rewrite length_app, Hlen).
    unfold slice. replace (drop b u) with (drop (b - a) (drop a u)) by (rewrite drop_drop; f_equal; lia).
    by rewrite !take_drop.
  - unfold restore_redacted_password. rewrite Hs. by destruct (password_span u).
Qed.

(** What the client takes for the password is what the redaction takes out. *)
Lemma parsed_password (u : bytes) (r : RpcUrl) : parse_url u = Ok r ->
  password r = match password_span u with Some (a, b) => percent_decode (slice u a b) | None => [] end.
Proof.
  unfold parse_url, password_span, split_once_sub. destruct (find_sub SCHEME_END u) as [i|] eqn:E; [|done].
  cbn [mbind option_bind ok_or result_bind]. destruct (_ && _); [done|]. change (length SCHEME_END) with 3%nat.
  set (rest := drop (i + 3) u).
  assert (exists authority path, match split_once SLASH rest with Some (a, _) => a | None => rest end = authority /\
    match split_once SLASH rest with Some (authority, path) => (authority, SLASH :: path) | None => (rest, []) end = (authority, path) /\
    exists k, rest = authority ++ k) as (authority & path & -> & -> & k & Hk).
  { destruct (split_once SLASH rest) as [[x p]|] eqn:Es; [|exists rest, []; split_and!; [done..|by exists []; rewrite app_nil_r]].
    apply split_once_some in Es as [Hr _]. exists x, (SLASH :: p). split_and!; [done..|by exists (SLASH :: p)]. }
  destruct (rsplit_once AT authority) as [[credentials host]|] eqn:E1.
  - apply rsplit_once_some in E1 as [-> Hh]. cbn [mbind option_bind].
    destruct (split_once COLON credentials) as [[user pw]|] eqn:E2; cbn [default option_bind mbind].
    + apply split_once_some in E2 as [-> Huser]. unfold id. destruct (bool_decide (host = [])); [done|]. intros [= <-]. cbn [password].
      case_bool_decide as Hpw; [by subst pw|]. f_equal. unfold slice.
      assert (drop (i + 3 + length user + 1) u = pw ++ AT :: host ++ k) as ->.
      { replace (i + 3 + length user + 1)%nat with ((i + 3) + (length user + 1))%nat by lia. rewrite <- drop_drop. fold rest. rewrite Hk.
        rewrite <- !app_assoc. cbn [app]. change (user ++ COLON :: ?x) with (user ++ [COLON] ++ x). rewrite app_assoc.
        rewrite drop_app_length' by (rewrite length_app; cbn; lia). done. }
      replace (i + 3 + length user + 1 + length pw - (i + 3 + length user + 1))%nat with (length pw) by lia. by rewrite take_app_length.
    + unfold id. destruct (bool_decide (host = [])); [done|]. by intros [= <-].
  - cbn [mbind option_bind]. destruct (bool_decide (authority = [])); [done|]. by intros [= <-].
Qed.

Lemma refused_url_redacted (u shown : bytes) : parse_url u = Err shown -> shown = redact_url u.
Proof.
  unfold parse_url. destruct (split_once_sub SCHEME_END u) as [[scheme rest]|]; cbn [ok_or mbind result_bind]; [|by intros [= <-]].
  destruct (_ && _); [by intros [= <-]|]. destruct (match split_once SLASH rest with Some (a, p) => _ | None => _ end) as [authority path].
  destruct (match rsplit_once AT authority with Some (c, h) => _ | None => _ end) as [[user pw] host].
  destruct (bool_decide (host = [])); [by intros [= <-]|done].
Qed.

(** The password of the node's URL is never in what is shown of it, and is never lost by
    editing what is shown. For every text given as the URL: what the client takes for the
    password is exactly the span the redaction takes out, and a text the client refuses is
    shown redacted; put any other password there and the same is shown, so nothing shown
    depends on it; and what is shown, edited or not elsewhere and given back, has the
    password put back, so an unchanged settings form saves the URL unchanged. *)
Theorem redaction_hides_the_password (u : bytes) :
  match parse_url u with
  | Ok r => password r = match password_span u with Some (a, b) => percent_decode (slice u a b) | None => [] end
  | Err shown => shown = redact_url u
  end /\
  match password_span u with
  | Some (a, b) => forall pw, pw <> [] -> SLASH ∉ pw -> redact_url (take a u ++ pw ++ drop b u) = redact_url u
  | None => redact_url u = u
  end /\
  restore_redacted_password (redact_url u) u = u.
Proof.
  split_and!; [|destruct (password_span u) as [[a b]|] eqn:Hs|apply redact_restored].
  - destruct (parse_url u) as [r|shown] eqn:E; [by apply parsed_password|by apply refused_url_redacted].
  - intros pw Hpw Hsl. by apply redact_replaced.
  - unfold redact_url. by rewrite Hs.
Qed.

Lemma redaction_hides_the_password_witness :
  let u := text "https://rpc:p@ss:w%41@[::1]/wallet@x" in
  redact_url u = text "https://rpc:***@[::1]/wallet@x" /\
  redact_url (text "https://rpc:other@[::1]/wallet@x") = redact_url u /\
  parse_url u = Ok {| url := text "https://[::1]:443/wallet@x"; user := text "rpc"; password := text "p@ss:wA" |}.
Proof.
  cbv zeta. split_and!; [by vm_compute| |by vm_compute].
  apply (proj1 (proj2 (redaction_hides_the_password (text "https://rpc:p@ss:w%41@[::1]/wallet@x"))) (text "other")); [done|].
  by apply (bool_decide_eq_true_1 (SLASH ∉ text "other")).
Defined.

(** A percent sign followed by a plus and a digit is read as a byte: the standard library
    reads a number with a sign. *)
Lemma percent_decode_takes_a_sign : percent_decode (text "a%+5b") = text "a" ++ [zb 5] ++ text "b".
Proof. by vm_compute. Qed.
