(* ===== verification/Rpc.v ===== *)
(** The node's RPC client ([core/src/rpc.rs], [rpc/block.rs], [mining_info.rs]): the
    credential it sends and the cookie it reads again, a call, what a response says, and
    the results the pool and the gateway read. What answers a request is an argument, as are
    the file system, [base64] and [serde_json]; the time a request may take is left out. *)
From Stdlib Require Import SpecFloat.
From S2P Require Import Prelude Float Json Text Utf8 Hex Bitcoin Address Target RpcUrl.

(** Why a call failed; the text of a message is left out. *)
Inductive Error :=
| BadUrl (shown : bytes) | BadCookie | Io | Transport | BadResponse | Http (status : Z) (body : bytes)
| ErrorRpc (code : Z) (message : bytes).

Definition RPC_METHOD_NOT_FOUND : Z := -32601.
Definition RPC_INVALID_PARAMETER : Z := -8.
Definition RPC_INVALID_ADDRESS_OR_KEY : Z := -5.

Definition is_unauthorized (e : Error) : bool := match e with Http s _ => (s =? 401) || (s =? 403) | _ => false end.
Definition is_method_not_found (e : Error) : bool := match e with ErrorRpc c _ => c =? RPC_METHOD_NOT_FOUND | _ => false end.
Definition is_not_found (e : Error) : bool := match e with ErrorRpc c _ => c =? RPC_INVALID_ADDRESS_OR_KEY | _ => false end.
Definition is_invalid_parameter (e : Error) : bool := match e with ErrorRpc c _ => c =? RPC_INVALID_PARAMETER | _ => false end.

#[export] Instance Chain_eq_dec : EqDecision Chain.
Proof. solve_decision. Defined.

Definition chain_parse (name : bytes) : Chain :=
  if bool_decide (name = text "main") then Main else if bool_decide (name = text "test") then Test_chain
  else if bool_decide (name = text "testnet4") then Testnet4 else if bool_decide (name = text "signet") then Signet
  else if bool_decide (name = text "regtest") then Regtest else OtherChain.

Definition chain_name (c : Chain) : bytes :=
  match c with Main => text "main" | Test_chain => text "test" | Testnet4 => text "testnet4" | Signet => text "signet"
  | Regtest => text "regtest" | OtherChain => text "other" end.

(** ** Difficulties ([core/src/target.rs]) *)

(** A finite double as the product of an integer and a power of two. *)
Definition exact (x : f64) : option (Z * Z) :=
  match x with
  | S754_zero _ => Some (0, 0)
  | S754_finite neg m e => Some ((if neg then Z.neg m else Z.pos m), e)
  | _ => None
  end.

(** [x.mul_add(y, z)] of finite numbers, rounded once. *)
Definition f64_mul_add (x y z : f64) : f64 :=
  match exact x, exact y, exact z with
  | Some (mx, ex), Some (my, ey), Some (mz, ez) =>
    let e := Z.min (ex + ey) ez in
    f64_scaled (mx * my * 2 ^ (ex + ey - e) + mz * 2 ^ (ez - e)) e
  | _, _, _ => S754_nan
  end.

Definition be_to_f64 (v : Target) : f64 := foldl (fun out b => f64_mul_add out (f64_of_Z 256) (f64_of_Z (bz b))) f64_zero v.

Definition difficulty_from_bits (bits : Z) : option f64 :=
  target ← bits_to_target bits;
  let t := be_to_f64 target in
  if f64_le t f64_zero then None else Some (f64_div (be_to_f64 (target_for_exponent 0)) t).

(** [65535 / 65536]. *)
Definition NODE_DIFFICULTY_PER_SHARE_DIFFICULTY : f64 := f64_scaled 65535 (-16).

Definition node_difficulty_from_bits (bits : Z) : option f64 :=
  (fun d => f64_mul d NODE_DIFFICULTY_PER_SHARE_DIFFICULTY) <$> difficulty_from_bits bits.

Definition SATS_PER_BTC : f64 := f64_of_Z 100000000.
Definition btc_to_sats (btc : f64) : Z := f64_to_u64 (f64_round (f64_mul btc SATS_PER_BTC)).
Definition sats_to_btc (sats : Z) : f64 := f64_div (f64_of_Z sats) SATS_PER_BTC.

(** ** The client *)

Section client.
Context (base64 : bytes -> bytes).

(** [cookie_path] is the file whose cookie the client sends, read again when the node
    refuses it. *)
Record Client := { client_url : bytes; authorization : bytes; cookie_path : option bytes }.

Definition basic_auth (user password : bytes) : bytes := text "Basic " ++ base64 (user ++ [COLON] ++ password).

(** [read_cookie] of the text of the file, none where it cannot be read. *)
Definition read_cookie (file : option bytes) : result Error (bytes * bytes) :=
  t ← ok_or Io file; ok_or BadCookie (split_once COLON (str_trim t)).

(** [Client::new], where [files] is the file system. *)
Definition client_new (u user_set password_set : bytes) (cookie : option bytes) (files : bytes -> option bytes) : result Error Client :=
  parsed ← map_err BadUrl (parse_url u);
  match (if bool_decide (user_set = []) then cookie else None) with
  | Some path =>
    c ← read_cookie (files path);
    Ok {| client_url := url parsed; authorization := basic_auth c.1 c.2; cookie_path := Some path |}
  | None =>
    let '(us, pw) := if bool_decide (user_set = []) then (user parsed, password parsed) else (user_set, password_set) in
    Ok {| client_url := url parsed; authorization := basic_auth us pw; cookie_path := None |}
  end.

Definition refresh_cookie (c : Client) (files : bytes -> option bytes) : Client * bool :=
  match cookie_path c with
  | None => (c, false)
  | Some path =>
    match read_cookie (files path) with
    | Err _ => (c, false)
    | Ok (us, pw) =>
      let reread := basic_auth us pw in
      if bool_decide (authorization c = reread) then (c, false)
      else ({| client_url := client_url c; authorization := reread; cookie_path := Some path |}, true)
    end
  end.

(** ** A call *)

Context `{!Json, !JsonText, !JsonRest}.

(** What a request meets: no response, or its status and body. *)
Inductive Response := NoResponse | Answered (status_code : Z) (body : bytes).

Definition from_rpc_object (error : value) : Error :=
  ErrorRpc (default 0 (as_i64 (at_key error "code"))) (default (to_text error) (as_str (at_key error "message"))).

(** What [attempt] makes of the response. *)
Definition read_response (r : Response) : result Error value :=
  match r with
  | NoResponse => Err Transport
  | Answered code body =>
    let status := wrap 16 code in
    let json := str_trim (from_utf8_lossy body) in
    match from_text json with
    | None => Err (if status =? 200 then BadResponse else Http status json)
    | Some parsed =>
      if negb (is_null (at_key parsed "error")) then Err (from_rpc_object (at_key parsed "error"))
      else if negb (status =? 200) then Err (Http status json)
      else ok_or BadResponse (get_key parsed "result")
    end
  end.

(** The node and the file system as a client finds them: how the request of a number, a
    credential and a body is answered, and what is in the files after it. *)
Record World := { answers : nat -> bytes -> bytes -> Response; files_after : nat -> bytes -> option bytes }.

(** The client, and the requests it has made, each with its credential and body. *)
Record Calls := { held : Client; requests : list (bytes * bytes) }.

Definition attempt (w : World) (s : Calls) (body : bytes) : result Error value * Calls :=
  (read_response (answers w (length (requests s)) (authorization (held s)) body),
   {| held := held s; requests := requests s ++ [(authorization (held s), body)] |}).

(** [Client::call], given the text of the request. *)
Definition call (w : World) (s : Calls) (body : bytes) : result Error value * Calls :=
  match attempt w s body with
  | (Err e, s) =>
    if is_unauthorized e then
      let '(c, refreshed) := refresh_cookie (held s) (files_after w (length (requests s))) in
      let s := {| held := c; requests := requests s |} in
      if refreshed then attempt w s body else (Err e, s)
    else (Err e, s)
  | r => r
  end.

(** ** Results *)

Definition missing : Error := BadResponse.
Definition u64_field (v : value) (key : json_key) : result Error Z := ok_or missing (as_u64 (at_key v key)).
Definition f64_field (v : value) (key : json_key) : result Error f64 := ok_or missing (as_f64 (at_key v key)).
Definition str_field (v : value) (key : json_key) : result Error bytes := ok_or missing (as_str (at_key v key)).
Definition i64_field (v : value) (key : json_key) : result Error Z := ok_or missing (as_i64 (at_key v key)).
Definition u32_field (v : value) (key : json_key) : result Error Z :=
  n ← u64_field v key; if n <? 2 ^ 32 then Ok n else Err BadResponse.
Definition string_field (v : value) (key : json_key) : result Error bytes := str_field v key.

(** The first of the three the node prints, [difficulty_blake2b] over [2^32]. *)
Definition node_difficulty (v : value) : result Error f64 :=
  match as_f64 (at_key v "difficulty") with
  | Some d => Ok d
  | None =>
    match (hex ← as_str (at_key v "bits"); bits ← from_str_radix16 32 hex; node_difficulty_from_bits bits) with
    | Some d => Ok d
    | None =>
      match as_f64 (at_key v "difficulty_blake2b") with
      | Some work => Ok (f64_mul (f64_div work (f64_of_Z (2 ^ 32))) NODE_DIFFICULTY_PER_SHARE_DIFFICULTY)
      | None => Err BadResponse
      end
    end
  end.

Definition warnings_of (v : value) : list bytes :=
  match as_array v with
  | Some a => filter (fun w => w <> []) (omap as_str a)
  | None => match as_str v with Some s => if bool_decide (s = []) then [] else [s] | None => [] end
  end.

Definition on_best_chain (confirmations : Z) : bool := 0 <=? confirmations.

Record Tip := { tip_hash : bytes; tip_height : Z; tip_difficulty : f64; tip_chain : Chain }.

Record TemplateSummary := {
  prev_hash : bytes; summary_height : Z; coinbase_value : Z; summary_bits : Z; summary_mintime : Z;
}.

Record MiningInfo := { info_chain : Chain; network_hashps : f64; info_warnings : list bytes }.

Definition tip (info : result Error value) : result Error Tip :=
  info ← info;
  display ← str_field info "bestblockhash";
  height ← u32_field info "blocks";
  difficulty ← node_difficulty info;
  chain ← str_field info "chain";
  hash ← ok_or BadResponse (hash_from_display_hex display);
  Ok {| tip_hash := hash; tip_height := height; tip_difficulty := difficulty; tip_chain := chain_parse chain |}.

(** The height is [as u32]. *)
Definition wait_for_block_height (r : result Error value) : result Error Z :=
  r ← r; h ← u64_field r "height"; Ok (wrap 32 h).

Definition template_summary (r : result Error value) : result Error TemplateSummary :=
  r ← r;
  coinbase_value ← u64_field r "coinbasevalue";
  bits_hex ← str_field r "bits";
  bits ← ok_or BadResponse (from_str_radix16 32 bits_hex);
  prev_display ← str_field r "previousblockhash";
  prev ← ok_or BadResponse (hash_from_display_hex prev_display);
  height ← u32_field r "height";
  mintime ← u64_field r "mintime";
  Ok {| prev_hash := prev; summary_height := height; coinbase_value := coinbase_value; summary_bits := bits; summary_mintime := mintime |}.

(** The reason a block is refused, for [propose_block] and [submit_block]: a null result is
    none. *)
Definition refusal (r : result Error value) : result Error (option bytes) :=
  v ← r; Ok (if is_null v then None else Some (default (to_text v) (as_str v))).

Definition mining_info (r : result Error value) : result Error MiningInfo :=
  v ← r; chain ← str_field v "chain"; hashps ← f64_field v "networkhashps";
  Ok {| info_chain := chain_parse chain; network_hashps := hashps; info_warnings := warnings_of (at_key v "warnings") |}.

Definition block_confirmations (r : result Error value) : result Error (option Z) :=
  match r with
  | Ok header => Some <$> i64_field header "confirmations"
  | Err e => if is_not_found e then Ok None else Err e
  end.

(** ** Blocks ([rpc/block.rs]) *)

Record Block := {
  block_hash : bytes; block_height : Z; block_time : Z; mediantime : Z; confirmations : Z; version : Z; bits : bytes;
  difficulty : f64; nonce : Z; merkle_root : bytes; previous_hash : option bytes; next_hash : option bytes; size : Z;
  weight : Z; tx_count : Z; coinbase_txid : bytes;
}.

Definition block_decode (v : value) : result Error Block :=
  txs ← ok_or missing (as_array (at_key v "tx"));
  txid ← ok_or missing (head txs ≫= as_str);
  hash ← string_field v "hash"; height ← u32_field v "height"; time ← u64_field v "time"; median ← u64_field v "mediantime";
  conf ← i64_field v "confirmations"; ver ← i64_field v "version"; b ← string_field v "bits"; d ← node_difficulty v;
  n ← u64_field v "nonce"; root ← string_field v "merkleroot";
  sz ← u64_field v "size"; wt ← u64_field v "weight"; count ← u64_field v "nTx";
  Ok {| block_hash := hash; block_height := height; block_time := time; mediantime := median; confirmations := conf; version := ver;
        bits := b; difficulty := d; nonce := n; merkle_root := root; previous_hash := as_str (at_key v "previousblockhash");
        next_hash := as_str (at_key v "nextblockhash"); size := sz; weight := wt; tx_count := count; coinbase_txid := txid |}.

Record Output := { sats : Z; address : option bytes; script : bytes }.
Record Coinbase := { txid : bytes; script_sig : bytes; outputs : list Output }.

Definition output_decode (out : value) : result Error Output :=
  v ← f64_field out "value"; script ← string_field (at_key out "scriptPubKey") "hex";
  Ok {| sats := btc_to_sats v; address := as_str (at_key (at_key out "scriptPubKey") "address"); script := script |}.

Fixpoint outputs_decode (outs : list value) : result Error (list Output) :=
  match outs with [] => Ok [] | out :: outs => o ← output_decode out; l ← outputs_decode outs; Ok (o :: l) end.

(** [v["vin"][0]] is null where there is none, as is a key of it. *)
Definition coinbase_decode (v : value) : result Error Coinbase :=
  vout ← ok_or missing (as_array (at_key v "vout"));
  outs ← outputs_decode vout;
  id ← string_field v "txid";
  sig ← ok_or missing (i ← get_at (at_key v "vin") 0; as_str (at_key i "coinbase"));
  Ok {| txid := id; script_sig := sig; outputs := outs |}.

(** [Client::block_hash], [block] and [coinbase] of what their calls gave. *)
Definition block_hash_at (r : result Error value) : result Error (option bytes) :=
  match r with
  | Ok v => Some <$> ok_or BadResponse (as_str v ≫= display_hex_bytes)
  | Err e => if is_invalid_parameter e then Ok None else Err e
  end.

Definition block_of (r : result Error value) : result Error (option Block) :=
  match r with
  | Ok v => Some <$> block_decode v
  | Err e => if is_not_found e then Ok None else Err e
  end.

Definition coinbase_of_block (r : result Error value) : result Error Coinbase := v ← r; coinbase_decode v.

(** ** What was last read of the node ([mining_info.rs], [latest.rs]) *)

Record LatestMiningInfo := { latest_hashps : option f64; latest_warnings : list bytes }.

Definition set_network_hashps (l : LatestMiningInfo) (hashps : f64) : LatestMiningInfo :=
  if f64_lt f64_zero hashps then {| latest_hashps := Some hashps; latest_warnings := latest_warnings l |} else l.

(** [Latest::set]: whether what is held changed. *)
Definition latest_set {A} `{!EqDecision A} (held value : A) : A * bool :=
  if bool_decide (held = value) then (held, false) else (value, true).

(** [refresh]: the warnings, and whether they changed. *)
Definition refresh (r : result Error value) (into : LatestMiningInfo) : result Error (list bytes * bool) * LatestMiningInfo :=
  match mining_info r with
  | Err e => (Err e, into)
  | Ok info =>
    let into := match info_chain info with Main => set_network_hashps into (network_hashps info) | _ => into end in
    let '(w, changed) := latest_set (latest_warnings into) (info_warnings info) in
    (Ok (info_warnings info, changed), {| latest_hashps := latest_hashps into; latest_warnings := w |})
  end.
End client.

(** ** Calls *)

Section calls.
Context (base64 : bytes -> bytes) `{!Json, !JsonText, !JsonRest}.

Abbreviation call := (call base64).
Abbreviation refresh_cookie := (refresh_cookie base64).

Lemma refresh_cookie_spec (c : Client) (files : bytes -> option bytes) : let '(c2, refreshed) := refresh_cookie c files in
  client_url c2 = client_url c /\ cookie_path c2 = cookie_path c /\
  (refreshed = false -> c2 = c) /\
  (refreshed = true -> authorization c2 <> authorization c /\ exists path us pw, cookie_path c = Some path /\
    read_cookie (files path) = Ok (us, pw) /\ authorization c2 = basic_auth base64 us pw).
Proof.
  unfold Rpc.refresh_cookie. destruct (cookie_path c) as [path|] eqn:Hp; [|by split_and!].
  destruct (read_cookie (files path)) as [[us pw]|] eqn:Hr; [|by split_and!]. case_bool_decide as Ha; [by split_and!|].
  split_and!; [done..|]. intros _. split; [by intros Heq; apply Ha|]. by eexists path, us, pw.
Qed.

(** A call makes one request, or a second where the node refused the credential of the
    first and the file holds another, which is what the second carries. *)
Lemma call_requests (w : World) (s s2 : Calls) (body : bytes) (r : result Error value) : call w s body = (r, s2) ->
  let n := length (requests s) in
  let first := read_response (answers w n (authorization (held s)) body) in
  (requests s2 = requests s ++ [(authorization (held s), body)] /\ r = first /\ held s2 = held s) \/
  (exists e us pw path, requests s2 = requests s ++ [(authorization (held s), body); (authorization (held s2), body)] /\
     first = Err e /\ is_unauthorized e = true /\ authorization (held s2) <> authorization (held s) /\
     cookie_path (held s) = Some path /\ read_cookie (files_after w (S n) path) = Ok (us, pw) /\
     authorization (held s2) = basic_auth base64 us pw /\
     r = read_response (answers w (S n) (authorization (held s2)) body)).
Proof.
  unfold Rpc.call, attempt. destruct (read_response _) as [v|e] eqn:Hr; [intros [= <- <-]; left; by split_and!|].
  destruct (is_unauthorized e) eqn:Hu; [|intros [= <- <-]; left; by split_and!].
  cbn [held requests]. rewrite length_app. cbn [length]. replace (length (requests s) + 1)%nat with (S (length (requests s))) by lia.
  pose proof (refresh_cookie_spec (held s) (files_after w (S (length (requests s))))) as Hc.
  destruct (Rpc.refresh_cookie _ _ _) as [c refreshed]. destruct Hc as (Hurl & Hpath & Hsame & Hnew). destruct refreshed.
  - destruct (Hnew eq_refl) as (Hne & path & us & pw & Hp & Hread & Ha). intros [= <- <-]. right. cbn [held requests] in *.
    exists e, us, pw, path.
    split_and!; [by rewrite <- app_assoc|done..].
  - rewrite (Hsame eq_refl). intros [= <- <-]. left. cbn. by split_and!.
Qed.
End calls.

(** A restart of the node does not lose a call. Where the node answers one credential and
    refuses every other with 401 and no JSON, and that credential is in the cookie file, a
    call is answered as the node answers it, whatever credential the client held: it asks
    once with what it holds, and once more, never a third time, with the cookie it reads
    again; from then on it holds the node's. *)
Theorem refused_credential_is_reread (base64 : bytes -> bytes) `{!Json, !JsonText, !JsonRest}
    (w : World) (s : Calls) (body path us pw refused : bytes) (resp : Response) :
  let good := basic_auth base64 us pw in
  cookie_path (held s) = Some path ->
  (forall n, read_cookie (files_after w n path) = Ok (us, pw)) ->
  (forall n a, answers w n a body = if bool_decide (a = good) then resp else Answered 401 refused) ->
  from_text (str_trim (from_utf8_lossy refused)) = None ->
  exists s2, call base64 w s body = (read_response resp, s2) /\
    authorization (held s2) = good /\
    requests s2 = requests s ++ (if bool_decide (authorization (held s) = good) then [] else [(authorization (held s), body)]) ++ [(good, body)].
Proof.
  intros good Hp Hfile Hans Href. destruct (call base64 w s body) as [r s2] eqn:E. exists s2.
  pose proof (call_requests base64 w s s2 body r E) as Hc. cbv zeta in Hc. rewrite !Hans in Hc.
  destruct Hc as [(Hreq & -> & Hheld)|(e & us2 & pw2 & path2 & Hreq & Hfirst & Hu & Hne & Hp2 & Hread & Ha & Hr)].
  - rewrite Hheld. case_bool_decide as Hgood; [rewrite Hreq, Hgood; by split_and!|]. exfalso.
    revert E. unfold call, attempt. rewrite Hans, bool_decide_eq_false_2 by done. cbn [read_response].
    rewrite Href. cbn [is_unauthorized held requests]. change (wrap 16 401) with 401. cbn [Z.eqb Pos.eqb orb].
    unfold refresh_cookie. rewrite Hp, Hfile. rewrite bool_decide_eq_false_2 by done. intros [= _ <-].
    cbn [requests] in Hreq. rewrite <- app_assoc in Hreq. by apply app_inv_head in Hreq.
  - rewrite Hp in Hp2. injection Hp2 as <-. rewrite Hfile in Hread. injection Hread as <- <-. fold good in Ha.
    rewrite Ha in Hne, Hr, Hreq. rewrite bool_decide_eq_true_2 in Hr by done. rewrite bool_decide_eq_false_2 by congruence.
    rewrite Hreq. by subst r.
Qed.

(** Texts that are their own values, none where there is nothing, for a node restarted with
    another cookie. *)
Definition example_rpc_json : Json :=
  {| value := option bytes; at_key _ _ := None; as_u64 _ := None; as_i64 _ := None; as_str v := v; as_array _ := None |}.
Definition example_rpc_text : @JsonText example_rpc_json :=
  @Build_JsonText example_rpc_json (fun t : bytes => if bool_decide (t = []) then None else Some (Some t))
    (fun v _ => Some v) (fun _ _ => None) (fun v : option bytes => default [] v).
Definition example_rpc_rest : @JsonRest example_rpc_json :=
  @Build_JsonRest example_rpc_json (fun v : option bytes => bool_decide (v = None)) (fun v : option bytes => negb (bool_decide (v = None))) (fun _ => None).

Lemma refused_credential_is_reread_witness :
  let good := basic_auth id (text "u") (text "new") in
  let s := {| held := {| client_url := text "http://n:80"; authorization := basic_auth id (text "u") (text "old"); cookie_path := Some (text "c") |};
              requests := [] |} in
  let w := {| answers := fun _ a _ => if bool_decide (a = good) then Answered 200 (text " 7 ") else Answered 401 [];
              files_after := fun _ _ => Some (text "u:new") |} in
  exists s2, @call id example_rpc_json example_rpc_text example_rpc_rest w s (text "tip") = (Ok (Some (text "7")), s2) /\
    authorization (held s2) = good.
Proof.
  cbv zeta. set (old := basic_auth id (text "u") (text "old")). set (good := basic_auth id (text "u") (text "new")).
  destruct (@refused_credential_is_reread id example_rpc_json example_rpc_text example_rpc_rest
    {| answers := fun _ a _ => if bool_decide (a = good) then Answered 200 (text " 7 ") else Answered 401 [];
       files_after := fun _ _ => Some (text "u:new") |}
    {| held := {| client_url := text "http://n:80"; authorization := old; cookie_path := Some (text "c") |}; requests := [] |}
    (text "tip") (text "c") (text "u") (text "new") [] (Answered 200 (text " 7 "))) as (s2 & H1 & H2 & _);
    [done|intros n; by vm_compute|done|by vm_compute|].
  exists s2. split; [|exact H2]. etrans; [exact H1|]. by vm_compute.
Defined.
