(* ===== verification/Api.v ===== *)
(** The gateway's settings and commands over HTTP ([gateway/src/api.rs], [api/auth.rs]): the
    password, the limit on the failed attempts of an address, the form token, and what each
    request may do. The pages, the status and the settings shown are arguments, as are
    [base64], the settings form ([config_form.rs]) and the configuration file; the restart
    itself is an effect. *)
From S2P Require Import Prelude Text Utf8 Limits Http HttpReply.

(** ** The failed attempts ([api/auth.rs]) *)

Definition MAX_FAILURES : Z := 10.
Definition FAILURE_WINDOW : Z := 60 * 10 ^ 9.
Definition MAX_TRACKED_ADDRESSES : nat := 1024.

Record Failures := { window_start : Z; count : Z }.
Abbreviation FailedLogins := (gmap IpAddr Failures).

(** The first of the entries iterated over whose key is least. *)
Fixpoint min_by_key {A} (key : A -> Z) (l : list A) (best : option A) : option A :=
  match l with
  | [] => best
  | x :: l => min_by_key key l (match best with Some b => if key x <? key b then Some x else Some b | None => Some x end)
  end.

Section failures.
(** The order a [HashMap] is iterated in. *)
Context (iter : FailedLogins -> list (IpAddr * Failures)).

Definition elapsed (now : Z) (f : Failures) : Z := Z.max 0 (now - window_start f).

(** A place for an address not held. *)
Definition make_room (held : FailedLogins) (now : Z) : FailedLogins :=
  let held := if (MAX_TRACKED_ADDRESSES <=? size held)%nat
    then filter (fun '(_, f) => elapsed now f < FAILURE_WINDOW) held else held in
  if (MAX_TRACKED_ADDRESSES <=? size held)%nat
  then match min_by_key (fun e => window_start e.2) (iter held) None with Some (oldest, _) => delete oldest held | None => held end
  else held.

Definition note_failure (held : FailedLogins) (ip : IpAddr) (now : Z) : FailedLogins :=
  match held !! ip with
  | Some f => <[ip := {| window_start := window_start f; count := count f + 1 |}]> held
  | None => <[ip := {| window_start := now; count := 1 |}]> (make_room held now)
  end.

(** [FailedLogins::check]: [valid] is what comparing the password would give. The table
    after, and whether the password matched, or the time the address has left to wait. *)
Definition check (held : FailedLogins) (ip : IpAddr) (now : Z) (valid : bool) : FailedLogins * result Z bool :=
  let compare held := if valid then (held, Ok true) else (note_failure held ip now, Ok false) in
  match held !! ip with
  | Some f =>
    if FAILURE_WINDOW <=? elapsed now f then compare (delete ip held)
    else if MAX_FAILURES <=? count f then (held, Err (FAILURE_WINDOW - elapsed now f))
    else compare held
  | None => compare held
  end.

(** The attempts of a run, each the address, the time and whether its password is right, and
    what each came to. *)
Fixpoint attempts (held : FailedLogins) (l : list (IpAddr * Z * bool)) : FailedLogins * list (result Z bool) :=
  match l with
  | [] => (held, [])
  | (ip, now, valid) :: l =>
    let '(held, r) := check held ip now valid in
    let '(held, rs) := attempts held l in (held, r :: rs)
  end.
End failures.

(** ** Credentials *)

Definition secure_eq (a b : bytes) : bool :=
  let at_ (s : bytes) i := from_option bz 0 (s !! i) in
  foldl (fun acc i => Z.lor acc (Z.lxor (at_ a i) (at_ b i))) (Z.lxor (zlen a) (zlen b))
    (seq 0 (Nat.max (length a) (length b))) =? 0.

Section api.
Context (base64_decode : bytes -> option bytes).
Context (iter : FailedLogins -> list (IpAddr * Failures)).

Definition strip_prefix (pat s : bytes) : option bytes := if starts_with pat s then Some (drop (length pat) s) else None.

Definition basic_password_matches (value password : bytes) : bool :=
  match (b64 ← strip_prefix (text "Basic ") value; base64_decode (str_trim b64)) with
  | None => false
  | Some decoded => from_option (fun p => secure_eq p.2 password) false (split_once COLON (from_utf8_lossy decoded))
  end.

(** ** The admin port ([api.rs]) *)

(** What is configured, what the process holds, and what it meets: the configuration file
    as it is read, whether writing it succeeds, and the words of the two errors. *)
Record Context_ := {
  admin_password : bytes;
  modify_conf : bool;
  csrf_token : bytes;
  index_html : bytes;
  config_html : bytes;
  status_json : bool -> bytes;
  settings_json : bytes;
  miner_json : option bytes -> bytes;
  errors_json : list bytes -> bytes;
  saved_json : bool -> bytes;
  config_file : option bytes;
  apply : bytes -> list (bytes * bytes) -> result (list bytes) (option bytes);
  read_error : bytes;
  writes : bool;
  write_error : bytes;
}.

(** What a request does besides its reply. *)
Inductive Effect := RaiseTemplate | KillClient (id : Z) | ShutdownAll | WriteConfig (new_text : bytes) | Restart.

(** The state of the limit, which a request threads, and the peer's address. *)
Definition too_many_failures (retry_after : Z) : Reply :=
  let seconds := retry_after / 10 ^ 9 + (if 0 <? retry_after mod 10 ^ 9 then 1 else 0) in
  with_header (text_reply 429 (text "Too many failed login attempts from this address; try again later."))
    (header (text "Retry-After") (decimal seconds)).

Definition forbidden (why : bytes) : Reply := text_reply 403 why.
Definition unauthorized : Reply :=
  with_header (text_reply 401 (text "This action requires admin access."))
    (header (text "WWW-Authenticate") (text "Basic realm=" ++ [zb 0x22] ++ text "DATUM Gateway" ++ [zb 0x22])).
Definition redirect (to : bytes) : Reply := with_header (text_reply 302 []) (header (text "Location") to).

Definition authorized (ctx : Context_) (logins : FailedLogins) (req : Request) (peer : IpAddr) (now : Z)
    : FailedLogins * result Reply bool :=
  if bool_decide (admin_password ctx = []) then (logins, Ok false) else
  match header_value req (text "Authorization") with
  | None => (logins, Ok false)
  | Some value =>
    let '(logins, r) := check iter logins (limit_key peer) now (basic_password_matches value (admin_password ctx)) in
    (logins, map_err too_many_failures r)
  end.

Definition admin_access (ctx : Context_) (logins : FailedLogins) (req : Request) (peer : IpAddr) (now : Z) (without_password : bytes)
    : FailedLogins * result Reply () :=
  if bool_decide (admin_password ctx = []) then (logins, Err (forbidden without_password)) else
  let '(logins, r) := authorized ctx logins req peer now in
  (logins, ok ← r; if (ok : bool) then Ok () else Err unauthorized).

Definition settings_access (ctx : Context_) (logins : FailedLogins) (req : Request) (peer : IpAddr) (now : Z) :=
  admin_access ctx logins req peer now (text "The settings page requires api.admin_password to be set.").

Definition read_body (req : Request) : bytes := from_utf8_lossy (req_body req).
Definition json_status (code : Z) (printed : bytes) : Reply := with_status_code (json printed) code.

(** The reply, what is done, and whether the caller restarts. *)
Definition save_settings (ctx : Context_) (b : bytes) : Reply * list Effect * bool :=
  let form := pairs b in
  let errors code e := (json_status code (errors_json ctx e), [], false) in
  if negb (existsb (fun kv => bool_decide (kv.1 = text "csrf") && secure_eq kv.2 (csrf_token ctx)) form)
  then errors 403 [text "Missing or stale form token."] else
  match config_file ctx with
  | None => errors 500 [read_error ctx]
  | Some t =>
    match apply ctx t form with
    | Err e => errors 400 e
    | Ok None => (json (saved_json ctx false), [], false)
    | Ok (Some new_text) =>
      if writes ctx then (json (saved_json ctx true), [WriteConfig new_text], true)
      else errors 500 [write_error ctx]
    end
  end.

Definition post_settings (ctx : Context_) (logins : FailedLogins) (req : Request) (peer : IpAddr) (now : Z)
    : FailedLogins * (Reply * list Effect * bool) :=
  if negb (modify_conf ctx) then (logins, (forbidden (text "Saving settings requires api.modify_conf to be set."), [], false)) else
  let '(logins, access) := settings_access ctx logins req peer now in
  match access with
  | Err r => (logins, (r, [], false))
  | Ok _ => (logins, save_settings ctx (read_body req))
  end.

Definition post_command (ctx : Context_) (logins : FailedLogins) (req : Request) (peer : IpAddr) (now : Z)
    : FailedLogins * (Reply * list Effect) :=
  let '(logins, access) := admin_access ctx logins req peer now (text "Commands require api.admin_password to be set.") in
  match access with
  | Err r => (logins, (r, []))
  | Ok _ =>
    let b := read_body req in
    if negb (from_option (fun t => secure_eq t (csrf_token ctx)) false (param b (text "csrf")))
    then (logins, (forbidden (text "Missing or stale form token."), []))
    else (logins, (redirect (text "/"),
      match (v ← param b (text "kill_client"); parse_uint 64 v) with
      | Some id => [KillClient id]
      | None => if is_some (param b (text "empty_thread")) then [ShutdownAll] else []
      end))
  end.

Definition deny_framing (r : Reply) : Reply :=
  with_header (with_header r (header (text "X-Frame-Options") (text "DENY")))
    (header (text "Content-Security-Policy") (text "frame-ancestors 'none'")).

(** [serve_admin]: the failed attempts after, the reply and what is done, the restart after
    the reply is sent. *)
Definition serve_admin (ctx : Context_) (logins : FailedLogins) (req : Request) (peer : IpAddr) (now : Z)
    : FailedLogins * (Reply * list Effect) :=
  let path := (path_and_query req).1 in
  let at_path p := bool_decide (path = text p) in
  let plain r := (logins, (r, [])) in
  let get := match req_method req with Get => true | _ => false end in
  let post := match req_method req with Post => true | _ => false end in
  let '(logins, (r, effects)) :=
    if get && at_path "/"%string then plain (html (index_html ctx))
    else if get && at_path "/stats.json"%string then
      let '(logins, a) := authorized ctx logins req peer now in
      (logins, (match a with Ok with_clients => json (status_json ctx with_clients) | Err r => r end, []))
    else if (get || post) && at_path "/NOTIFY"%string then (logins, (html (text "OK"), [RaiseTemplate]))
    else if get && at_path "/login"%string then
      let '(logins, a) := authorized ctx logins req peer now in
      (logins, (match a with Ok true => redirect (text "/") | Ok false => unauthorized | Err r => r end, []))
    else if get && at_path "/config"%string then
      let '(logins, a) := settings_access ctx logins req peer now in
      (logins, (match a with Ok _ => html (config_html ctx) | Err r => r end, []))
    else if get && at_path "/config.json"%string then
      let '(logins, a) := settings_access ctx logins req peer now in
      (logins, (match a with Ok _ => json (settings_json ctx) | Err r => r end, []))
    else if post && at_path "/config"%string then
      let '(logins, (r, effects, restart)) := post_settings ctx logins req peer now in
      (logins, (r, effects ++ (if restart then [Restart] else [])))
    else if post && at_path "/cmd"%string then post_command ctx logins req peer now
    else plain (if get || post then not_found else method_not_allowed) in
  (logins, (deny_framing r, effects)).

(** The lookup of one miner, which takes no credentials and does nothing. *)
Definition serve_miner (ctx : Context_) (req : Request) : Reply :=
  let '(path, query) := path_and_query req in
  match req_method req with
  | Get => if bool_decide (path = text "/") then json (miner_json ctx (param query (text "addr"))) else not_found
  | _ => method_not_allowed
  end.
End api.

(** ** The comparison *)

Lemma lor_zero_iff a b : 0 <= a -> 0 <= b -> Z.lor a b = 0 <-> a = 0 /\ b = 0.
Proof. intros _ _. apply Z.lor_eq_0_iff. Qed.

Lemma foldl_lor_zero (f : nat -> Z) l : forall acc, foldl (fun a i => Z.lor a (f i)) acc l = 0 <-> acc = 0 /\ Forall (fun i => f i = 0) l.
Proof.
  induction l as [|i l IH]; intros acc; cbn [foldl]; [by split; [|intros [? _]]|].
  rewrite IH, Z.lor_eq_0_iff, Forall_cons. tauto.
Qed.

(** The password is compared whole: equal texts alone are the same. *)
Lemma secure_eq_spec a b : secure_eq a b = true <-> a = b.
Proof.
  unfold secure_eq. rewrite Z.eqb_eq, foldl_lor_zero. split; [|intros ->].
  - intros [Hl Hf]. apply Z.lxor_eq in Hl. assert (length a = length b) as Hlen by (unfold zlen in Hl; lia).
    apply list_eq. intros i. destruct (decide (i < length a)%nat) as [Hi|Hi]; [|rewrite !lookup_ge_None_2 by lia; done].
    rewrite Forall_forall in Hf. specialize (Hf i ltac:(apply elem_of_seq; lia)). apply Z.lxor_eq in Hf.
    destruct (lookup_lt_is_Some_2 a i ltac:(lia)) as [x Hx], (lookup_lt_is_Some_2 b i ltac:(lia)) as [y Hy].
    rewrite Hx, Hy in Hf |- *. cbn in Hf. f_equal. by apply bz_inj.
  - split; [apply Z.lxor_nilpotent|]. apply Forall_forall. intros i _. apply Z.lxor_nilpotent.
Qed.

(** ** What an address may try *)

Section guesses.
Context (iter : FailedLogins -> list (IpAddr * Failures)).
Context (S0 : gset IpAddr) (Hsize : (size S0 <= MAX_TRACKED_ADDRESSES)%nat).

Abbreviation check := (check iter).

(** The table is of the addresses that ask, each with a count within its limit. *)
Record table_ok (held : FailedLogins) : Prop := {
  to_addresses : dom held ⊆ S0;
  to_counts : map_Forall (fun _ f => 1 <= count f <= MAX_FAILURES) held;
}.

(** With no more addresses than are held, none is ever dropped. *)
Lemma make_room_keeps held now ip : dom held ⊆ S0 -> ip ∈ S0 -> held !! ip = None -> make_room iter held now = held.
Proof using Hsize.
  intros Hd Hip Hno. assert (size held < MAX_TRACKED_ADDRESSES)%nat as Hlt.
  { assert (dom held ∪ {[ip]} ⊆ S0) as Hsub by set_solver. apply subseteq_size in Hsub.
    rewrite size_union in Hsub by (apply disjoint_singleton_r; by apply not_elem_of_dom). rewrite size_singleton, size_dom in Hsub. lia. }
  unfold make_room. apply Nat.leb_gt in Hlt. by rewrite !Hlt.
Qed.

(** The table after an attempt, at the address and at the others. *)
Lemma check_at held ip now valid : dom held ⊆ S0 -> ip ∈ S0 ->
  let '(held2, r) := check held ip now valid in
  dom held2 ⊆ S0 /\ (forall a, a <> ip -> held2 !! a = held !! a) /\
  match held !! ip with
  | Some f =>
    if FAILURE_WINDOW <=? elapsed now f
    then r = Ok valid /\ held2 !! ip = (if valid then None else Some {| window_start := now; count := 1 |})
    else if MAX_FAILURES <=? count f then r = Err (FAILURE_WINDOW - elapsed now f) /\ held2 = held
    else r = Ok valid /\ held2 !! ip = (if valid then Some f else Some {| window_start := window_start f; count := count f + 1 |})
  | None => r = Ok valid /\ held2 !! ip = (if valid then None else Some {| window_start := now; count := 1 |})
  end.
Proof using Hsize.
  intros Hd Hip. unfold Api.check. destruct (held !! ip) as [f|] eqn:Hf.
  - destruct (FAILURE_WINDOW <=? elapsed now f).
    + assert (dom (delete ip held) ⊆ S0) as Hd2 by (rewrite dom_delete; set_solver).
      destruct valid.
      * split_and!; [done|intros a Ha; by rewrite lookup_delete_ne|done|apply lookup_delete_eq].
      * unfold note_failure. rewrite lookup_delete_eq, (make_room_keeps _ now ip) by (done || apply lookup_delete_eq).
        split_and!; [rewrite dom_insert; set_solver|intros a Ha; by rewrite lookup_insert_ne, lookup_delete_ne|done|apply lookup_insert_eq].
    + destruct (MAX_FAILURES <=? count f); [by split_and!|]. destruct valid; [by split_and!|].
      unfold note_failure. rewrite Hf. split_and!; [rewrite dom_insert; set_solver|intros a Ha; by rewrite lookup_insert_ne|done|apply lookup_insert_eq].
  - destruct valid; [by split_and!|]. unfold note_failure. rewrite Hf, (make_room_keeps _ now ip) by done.
    split_and!; [rewrite dom_insert; set_solver|intros a Ha; by rewrite lookup_insert_ne|done|apply lookup_insert_eq].
Qed.

(** The wrong passwords compared of one address among the attempts of a run. *)
Fixpoint guesses (ip : IpAddr) (l : list (IpAddr * Z * bool)) (rs : list (result Z bool)) : Z :=
  match l, rs with
  | (a, _, _) :: l, r :: rs =>
    (if bool_decide (a = ip) then match r with Ok false => 1 | _ => 0 end else 0) + guesses ip l rs
  | _, _ => 0
  end.

(** How many may still be compared of an address by a time: those left of the window it has
    open, and ten of each window there is time for after it. *)
Definition room (f : option Failures) (now until : Z) : Z :=
  match f with
  | Some f => (MAX_FAILURES - count f) + (if until <? window_start f + FAILURE_WINDOW then 0 else
      MAX_FAILURES * ((until - (window_start f + FAILURE_WINDOW)) / FAILURE_WINDOW + 1))
  | None => MAX_FAILURES * ((until - now) / FAILURE_WINDOW + 1)
  end.

Lemma room_none_later a b until : a <= b -> b <= until -> room None b until <= room None a until.
Proof.
  intros Hab Hb. cbn. assert ((until - b) / FAILURE_WINDOW <= (until - a) / FAILURE_WINDOW) by (apply Z.div_le_mono; [done|lia]).
  unfold MAX_FAILURES. lia.
Qed.

Lemma room_first t until : t <= until -> 1 + room (Some {| window_start := t; count := 1 |}) t until = room None t until.
Proof.
  intros Ht. cbn. unfold MAX_FAILURES. destruct (Z.ltb_spec until (t + FAILURE_WINDOW)) as [Hlt|Hge].
  - rewrite (Z.div_small (until - t)) by lia. lia.
  - replace (until - t) with ((until - (t + FAILURE_WINDOW)) + 1 * FAILURE_WINDOW) by lia.
    rewrite Z.div_add by (unfold FAILURE_WINDOW; lia). lia.
Qed.

Lemma room_over f t until : count f <= MAX_FAILURES -> FAILURE_WINDOW <= elapsed t f -> t <= until ->
  room None t until <= room (Some f) t until.
Proof.
  intros Hc He Ht. assert (window_start f + FAILURE_WINDOW <= t) as Hw by (unfold elapsed, FAILURE_WINDOW in *; lia). cbn.
  destruct (Z.ltb_spec until (window_start f + FAILURE_WINDOW)); [lia|].
  assert ((until - t) / FAILURE_WINDOW <= (until - (window_start f + FAILURE_WINDOW)) / FAILURE_WINDOW) by (apply Z.div_le_mono; [done|lia]).
  unfold MAX_FAILURES in *. lia.
Qed.

Lemma room_nonneg f t until : from_option (fun f => count f <= MAX_FAILURES) True f -> t <= until -> 0 <= room f t until.
Proof.
  intros Hc Ht. destruct f as [f|]; cbn in *.
  - unfold MAX_FAILURES in *. case_match; [lia|]. assert (0 <= (until - (window_start f + FAILURE_WINDOW)) / FAILURE_WINDOW); [|lia].
    apply Z.div_pos; [lia|done].
  - assert (0 <= (until - t) / FAILURE_WINDOW) by (apply Z.div_pos; [lia|done]). unfold MAX_FAILURES. lia.
Qed.

(** Times that do not go back, from one to another. *)
Fixpoint in_order (from until : Z) (l : list (IpAddr * Z * bool)) : Prop :=
  match l with [] => from <= until | (_, now, _) :: l => from <= now /\ in_order now until l end.

Lemma in_order_le from until l : in_order from until l -> from <= until.
Proof. revert from. induction l as [|[[a t] v] l IH]; intros from; cbn; [done|]. intros [H1 H2]. specialize (IH _ H2). lia. Qed.

(** The window an address has open at a time. *)
Definition open_at (now : Z) (f : option Failures) : option Failures :=
  f ≫= fun f => if FAILURE_WINDOW <=? elapsed now f then None else Some f.

Lemma open_later f a b until : from_option (fun f => count f <= MAX_FAILURES) True f -> a <= b -> b <= until ->
  room (open_at b f) b until <= room (open_at a f) a until.
Proof.
  intros Hc Hab Hb. destruct f as [f|]; [|by apply room_none_later]. cbn [open_at mbind option_bind from_option] in *.
  destruct (Z.leb_spec FAILURE_WINDOW (elapsed a f)) as [Ha|Ha].
  - assert (FAILURE_WINDOW <= elapsed b f) as ->%Z.leb_le by (unfold elapsed in *; lia). by apply room_none_later.
  - destruct (Z.leb_spec FAILURE_WINDOW (elapsed b f)) as [Hlate|]; [exact (room_over f b until Hc Hlate Hb)|done].
Qed.

Lemma attempts_bound ip l : forall held from until, dom held ⊆ S0 -> Forall (fun a => a.1.1 ∈ S0) l ->
  from_option (fun f => count f <= MAX_FAILURES) True (held !! ip) -> in_order from until l ->
  guesses ip l (attempts iter held l).2 <= room (open_at from (held !! ip)) from until.
Proof using Hsize.
  induction l as [|[[a t] valid] l IH]; intros held from until Hd Hl Hc Ho; cbn [attempts].
  { cbn. apply room_nonneg; [|exact Ho]. destruct (held !! ip) as [f|]; [|done]. cbn. by case_match. }
  apply Forall_cons in Hl as [Ha Hl]. destruct Ho as [Hft Ho]. cbn in Ha. pose proof (in_order_le _ _ _ Ho) as Htu.
  pose proof (check_at held a t valid Hd Ha) as Hk. destruct (Api.check iter held a t valid) as [held2 r]. destruct Hk as (Hd2 & Hsame & Hat).
  assert (from_option (fun f => count f <= MAX_FAILURES) True (held2 !! ip) ->
    guesses ip l (attempts iter held2 l).2 <= room (open_at t (held2 !! ip)) t until) as IH2 by (intros Hc2; by apply IH).
  destruct (attempts iter held2 l) as [held3 rs]. cbn [snd] in *. cbn [guesses].
  pose proof (open_later (held !! ip) from t until Hc Hft Htu) as Hlater.
  case_bool_decide as Hip; [subst a|].
  2:{ rewrite (Hsame ip) in IH2 by done. specialize (IH2 Hc). lia. }
  assert (open_at t (Some {| window_start := t; count := 1 |}) = Some {| window_start := t; count := 1 |}) as Hopen.
  { cbn. unfold elapsed. cbn. by rewrite Z.sub_diag. }
  assert (open_at t (held !! ip) = None ->
    (r = Ok valid /\ held2 !! ip = (if valid then None else Some {| window_start := t; count := 1 |})) ->
    (match r with Ok false => 1 | _ => 0 end) + guesses ip l rs <= room (open_at from (held !! ip)) from until) as Hfresh.
  { intros Hn [-> Hh]. rewrite Hn in Hlater. rewrite Hh in IH2. destruct valid; [specialize (IH2 I); cbn [open_at mbind option_bind] in IH2; lia|].
    specialize (IH2 ltac:(cbn; unfold MAX_FAILURES; lia)). rewrite Hopen in IH2. pose proof (room_first t until Htu). lia. }
  destruct (held !! ip) as [f|] eqn:Hf; [|by apply Hfresh]. cbn [open_at mbind option_bind] in Hfresh, Hlater.
  destruct (Z.leb_spec FAILURE_WINDOW (elapsed t f)) as [He|He]; [by apply Hfresh|]. clear Hfresh Hopen.
  apply Z.leb_gt in He. cbn in Hc. cbn [open_at mbind option_bind]. destruct (Z.leb_spec MAX_FAILURES (count f)) as [Hfull|Hleft].
  - destruct Hat as [-> ->]. rewrite Hf in IH2. specialize (IH2 Hc). cbn [open_at mbind option_bind] in IH2. rewrite He in IH2. lia.
  - destruct Hat as [-> Hh]. rewrite Hh in IH2. destruct valid; cbn [open_at mbind option_bind] in IH2.
    + specialize (IH2 Hc). rewrite He in IH2. lia.
    + specialize (IH2 ltac:(cbn; lia)). change (elapsed t {| window_start := window_start f; count := count f + 1 |}) with (elapsed t f) in IH2.
      rewrite He in IH2. set (f2 := {| window_start := _; count := _ |}) in *.
      assert (room (Some f) t until = 1 + room (Some f2) t until) by (unfold f2; cbn; lia). lia.
Qed.

(** What is held of an address after a run: a count of a window that has begun. *)
Definition counted (until : Z) (f : option Failures) : Prop :=
  from_option (fun f => 1 <= count f <= MAX_FAILURES /\ window_start f <= until) True f.

Lemma attempts_counted ip l : forall held from until, dom held ⊆ S0 -> Forall (fun a => a.1.1 ∈ S0) l ->
  counted from (held !! ip) -> in_order from until l ->
  dom (attempts iter held l).1 ⊆ S0 /\ counted until ((attempts iter held l).1 !! ip).
Proof using Hsize.
  induction l as [|[[a t] valid] l IH]; intros held from until Hd Hl Hc Ho; cbn [attempts].
  { split; [done|]. unfold counted in *. cbn in *. destruct (held !! ip); cbn in *; lia. }
  apply Forall_cons in Hl as [Ha Hl]. destruct Ho as [Hft Ho]. cbn in Ha.
  pose proof (check_at held a t valid Hd Ha) as Hk. destruct (Api.check iter held a t valid) as [held2 r]. destruct Hk as (Hd2 & Hsame & Hat).
  assert (counted t (held !! ip)) as Hct by (unfold counted in *; destruct (held !! ip); cbn in *; lia).
  assert (counted t (held2 !! ip)) as Hc2.
  { destruct (decide (a = ip)) as [->|Hne]; [|by rewrite Hsame]. assert (MAX_FAILURES = 10) as Hmax by done.
    repeat case_match; destruct Hat as [_ Hh]; rewrite Hh; unfold counted in *; cbn in *; rewrite ?Hmax in *; reflect_Z;
      try lia; by simplify_option_eq. }
  specialize (IH held2 t until Hd2 Hl Hc2 Ho). by destruct (attempts iter held2 l).
Qed.

Lemma room_after f from until : counted from f -> from <= until ->
  room (open_at from f) from until <= MAX_FAILURES * ((until - from) / FAILURE_WINDOW + 2) - 1.
Proof.
  intros Hc Hu. destruct f as [f|]; cbn in *; unfold MAX_FAILURES in *; [|lia].
  destruct (Z.leb_spec FAILURE_WINDOW (elapsed from f)) as [He|He]; cbn; [unfold MAX_FAILURES; lia|].
  assert (0 <= (until - from) / FAILURE_WINDOW) by (apply Z.div_pos; [lia|done]).
  destruct (Z.ltb_spec until (window_start f + FAILURE_WINDOW)); [unfold MAX_FAILURES; lia|].
  assert ((until - (window_start f + FAILURE_WINDOW)) / FAILURE_WINDOW <= (until - from) / FAILURE_WINDOW); [|unfold MAX_FAILURES; lia].
  apply Z.div_le_mono; [done|]. unfold elapsed in He. lia.
Qed.
End guesses.

(** C25: An address can try few passwords. While no more than 1024 addresses ask, however
    their attempts come between its own and however long it waits, the passwords compared
    of one address and found wrong are at most ten for each minute begun since the first:
    ten in its first window, and ten more in every window of a minute after. And of those
    compared between any two later times, whatever came before, there are at most ten for
    each minute begun and the nine more that a window already open may have left. *)
Theorem login_guesses_bounded (iter : FailedLogins -> list (IpAddr * Failures)) (addresses : gset IpAddr) (ip : IpAddr)
    (before l : list (IpAddr * Z * bool)) (start from until : Z) :
  (size addresses <= MAX_TRACKED_ADDRESSES)%nat -> Forall (fun a => a.1.1 ∈ addresses) (before ++ l) ->
  in_order start from before -> in_order from until l ->
  let '(held, rs) := attempts iter ∅ before in
  guesses ip before rs <= MAX_FAILURES * ((from - start) / FAILURE_WINDOW + 1) /\
  guesses ip l (attempts iter held l).2 <= MAX_FAILURES * ((until - from) / FAILURE_WINDOW + 1) + 9.
Proof.
  intros Hs [Hl0 Hl]%Forall_app Ho0 Ho.
  pose proof (attempts_bound iter addresses Hs ip before ∅ start from ltac:(set_solver) Hl0) as Hb0.
  pose proof (attempts_counted iter addresses Hs ip before ∅ start from ltac:(set_solver) Hl0) as Hk.
  rewrite lookup_empty in Hb0, Hk. specialize (Hb0 I Ho0). destruct (Hk I Ho0) as [Hd Hc]. clear Hk.
  destruct (attempts iter ∅ before) as [held rs]. cbn [fst snd] in *. split; [exact Hb0|].
  pose proof (attempts_bound iter addresses Hs ip l held from until Hd Hl) as Hb.
  assert (from <= until) as Hle by (by eapply in_order_le).
  assert (room (open_at from (held !! ip)) from until <= MAX_FAILURES * ((until - from) / FAILURE_WINDOW + 2) - 1) by (by eapply room_after).
  assert (guesses ip l (attempts iter held l).2 <= room (open_at from (held !! ip)) from until) as Hg; [|unfold MAX_FAILURES in *; lia].
  apply Hb; [|done]. unfold counted in Hc. destruct (held !! ip); cbn in *; lia.
Qed.

(** Twelve wrong passwords within a minute, of which ten are compared, and a right one that is
    not; then, with the window over, one more. *)
Lemma login_guesses_bounded_witness :
  let ip := V4 0xc0000207 in
  let before := replicate 12 (ip, 5, false) ++ [(ip, 6, true)] in
  let l := [(ip, 60 * 10 ^ 9 + 5, false)] in
  let held := (attempts map_to_list ∅ before).1 in
  guesses ip before (attempts map_to_list ∅ before).2 = 10 /\ guesses ip l (attempts map_to_list held l).2 = 1 /\
  10 <= MAX_FAILURES * ((6 - 5) / FAILURE_WINDOW + 1) /\
  (attempts map_to_list ∅ before).2 !! 12%nat = Some (Err (60 * 10 ^ 9 - 1)).
Proof.
  cbv zeta. set (before := replicate 12 _ ++ _). set (l := [_]).
  assert (guesses (V4 0xc0000207) before (attempts map_to_list ∅ before).2 = 10) as Hg by by vm_compute.
  split_and!; [done|by vm_compute| |by vm_compute]. rewrite <- Hg.
  pose proof (login_guesses_bounded map_to_list {[V4 0xc0000207]} (V4 0xc0000207) before l 5 6 (60 * 10 ^ 9 + 5)) as Ht.
  destruct (attempts map_to_list ∅ before) as [held rs]. apply Ht.
  - by apply Nat.leb_le; vm_compute.
  - unfold before, l. repeat constructor; set_solver.
  - by vm_compute; repeat split.
  - by vm_compute; repeat split.
Defined.

(** ** Who may act *)

Section access.
Context (base64_decode : bytes -> option bytes) (iter : FailedLogins -> list (IpAddr * Failures)).

(** The request carries the password, whatever the user named with it. *)
Definition carries_password (ctx : Context_) (req : Request) : Prop :=
  admin_password ctx <> [] /\ exists value b64 decoded user,
    header_value req (text "Authorization") = Some value /\ strip_prefix (text "Basic ") value = Some b64 /\
    base64_decode (str_trim b64) = Some decoded /\ split_once COLON (from_utf8_lossy decoded) = Some (user, admin_password ctx).

(** The form posted carries the token of the pages this process served. *)
Definition carries_token (ctx : Context_) (req : Request) : Prop := (text "csrf", csrf_token ctx) ∈ pairs (read_body req).

Lemma check_true held ip now valid held2 : check iter held ip now valid = (held2, Ok true) -> valid = true.
Proof. unfold check. repeat case_match; intros [=]; congruence. Qed.

Lemma authorized_password ctx logins req peer now logins2 : authorized base64_decode iter ctx logins req peer now = (logins2, Ok true) ->
  carries_password ctx req.
Proof.
  unfold authorized. case_bool_decide as Hne; [by intros [=]|]. destruct (header_value req (text "Authorization")) as [value|] eqn:Hv; [|by intros [=]].
  destruct (check _ _ _ _ _) as [l r] eqn:Hc. destruct r as [ok|]; [|by intros [=]]. intros [= -> ->].
  apply check_true in Hc. unfold basic_password_matches in Hc. destruct (strip_prefix (text "Basic ") value) as [b64|] eqn:Hb; [|done].
  cbn [mbind option_bind] in Hc. destruct (base64_decode (str_trim b64)) as [decoded|] eqn:Hd; [|done].
  destruct (split_once COLON (from_utf8_lossy decoded)) as [[user p]|] eqn:Hs; [|done]. cbn in Hc. apply secure_eq_spec in Hc. subst p.
  split; [done|]. by exists value, b64, decoded, user.
Qed.

Lemma admin_access_password ctx logins req peer now why logins2 : admin_access base64_decode iter ctx logins req peer now why = (logins2, Ok tt) ->
  carries_password ctx req.
Proof.
  unfold admin_access. case_bool_decide; [by intros [=]|]. destruct (authorized _ _ _ _ _ _ _) as [l [[|]|]] eqn:Ha; [|by intros [=]..].
  intros _. by eapply authorized_password.
Qed.

Lemma param_in_pairs q k v : url_decode k = k -> param q k = Some v -> (k, v) ∈ pairs q.
Proof.
  intros Hk. unfold param. destruct (position _ (split_pairs q)) as [i|] eqn:Hp; [|done]. cbn [mbind option_bind].
  apply position_Some in Hp as ([k2 v2] & Hi & Heq & _). rewrite Hi. cbn. apply bool_decide_eq_true in Heq. cbn in Heq. subst k2.
  intros [= <-]. unfold pairs. apply list_elem_of_fmap. exists (k, v2). split; [cbn [fst snd]; by rewrite Hk|]. by eapply list_elem_of_lookup_2.
Qed.

Lemma save_settings_effects ctx b : let '(_, effects, restart) := save_settings ctx b in
  effects <> [] \/ restart = true -> (text "csrf", csrf_token ctx) ∈ pairs b.
Proof.
  unfold save_settings. destruct (existsb _ _) eqn:Ht; cbn [negb]; [|by intros [?|?]].
  assert ((text "csrf", csrf_token ctx) ∈ pairs b) as Hin.
  { apply existsb_exists in Ht as ([k v] & Hin & Ht). apply andb_prop in Ht as [Hk%bool_decide_eq_true Hv%secure_eq_spec]. cbn in Hk, Hv. subst.
    by apply list_elem_of_In. }
  destruct (config_file ctx); [|done]. destruct (apply ctx _ _) as [[n|]|]; [|done..]. by destruct (writes ctx).
Qed.

Lemma admin_access_refused ctx logins req peer now why logins2 r :
  admin_access base64_decode iter ctx logins req peer now why = (logins2, Err r) -> status r <> 200.
Proof.
  unfold admin_access, authorized. case_bool_decide; [by intros [= _ <-]|].
  destruct (header_value req (text "Authorization")); [|by intros [= _ <-]].
  destruct (check _ _ _ _ _) as [held [[|]|w]]; cbn [map_err]; [done|by intros [= _ <-]..].
Qed.

(** What a reply by path and its effects must come to. *)
Definition as_authorized (ctx : Context_) (req : Request) (r : Reply) (effects : list Effect) : Prop :=
  (forall e, e ∈ effects -> e <> RaiseTemplate ->
    req_method req = Post /\ carries_password ctx req /\ carries_token ctx req /\
    match e with WriteConfig _ | Restart => modify_conf ctx = true | _ => True end) /\
  ((path_and_query req).1 = text "/config.json" -> status r = 200 -> req_method req = Get /\ carries_password ctx req).

Lemma no_effects ctx req r : (path_and_query req).1 <> text "/config.json" \/ status r <> 200 -> as_authorized ctx req r [].
Proof. intros H. split; [by intros e ?%elem_of_nil|]. intros Hp Hs. by destruct H. Qed.

Lemma post_settings_authorized ctx logins req peer now : req_method req = Post -> (path_and_query req).1 = text "/config" ->
  let '(_, (r, effects, restart)) := post_settings base64_decode iter ctx logins req peer now in
  as_authorized ctx req r (effects ++ (if restart then [Restart] else [])).
Proof.
  intros Hpost Hpath. assert ((path_and_query req).1 <> text "/config.json") as Hne by (by rewrite Hpath).
  unfold post_settings, settings_access. destruct (modify_conf ctx) eqn:Hm; cbn [negb]; [|by apply no_effects; left].
  destruct (admin_access _ _ _ _ _ _ _ _) as [held [[]|refusal]] eqn:Ha; [|by apply no_effects; left].
  apply admin_access_password in Ha. pose proof (save_settings_effects ctx (read_body req)) as Hsave.
  destruct (save_settings ctx (read_body req)) as [[r effects] restart]. split; [|done].
  intros e He _. split_and!; [done|done| |by destruct e]. apply Hsave.
  destruct restart; [by right|]. left. rewrite app_nil_r in He. by intros ->; apply elem_of_nil in He.
Qed.

Lemma post_command_authorized ctx logins req peer now : req_method req = Post -> (path_and_query req).1 = text "/cmd" ->
  let '(_, (r, effects)) := post_command base64_decode iter ctx logins req peer now in as_authorized ctx req r effects.
Proof.
  intros Hpost Hpath. assert ((path_and_query req).1 <> text "/config.json") as Hne by (by rewrite Hpath).
  unfold post_command. destruct (admin_access _ _ _ _ _ _ _ _) as [held [[]|refusal]] eqn:Ha; [|by apply no_effects; left].
  apply admin_access_password in Ha. destruct (param (read_body req) (text "csrf")) as [t|] eqn:Ht; [|by apply no_effects; left].
  cbn [from_option]. destruct (secure_eq t (csrf_token ctx)) eqn:He; cbn [negb]; [|by apply no_effects; left].
  apply secure_eq_spec in He. subst t. apply param_in_pairs in Ht; [|by vm_compute]. split; [|done].
  intros e Hin _. split_and!; [done..|]. destruct (v ← _; _) as [id|]; [by apply list_elem_of_singleton in Hin as ->|].
  destruct (is_some _); [by apply list_elem_of_singleton in Hin as ->|by apply elem_of_nil in Hin].
Qed.

(** C26: Nothing is changed over HTTP but by whoever holds the password. Whatever the request,
    its method, path, headers and body, and whatever attempts came before it: where a
    client is disconnected, all are, the configuration file is written or the gateway
    restarts, the request is a POST that carries the configured password, which is not
    empty, in its credentials, and in its form the token of this process; and the file is
    written and the gateway restarted only where the configuration allows it. The settings
    are shown to none but the holder of the password. *)
Theorem admin_actions_are_authorized (ctx : Context_) (logins : FailedLogins) (req : Request) (peer : IpAddr) (now : Z) :
  let '(_, (r, effects)) := serve_admin base64_decode iter ctx logins req peer now in
  (forall e, e ∈ effects -> e <> RaiseTemplate ->
    req_method req = Post /\ carries_password ctx req /\ carries_token ctx req /\
    match e with WriteConfig _ | Restart => modify_conf ctx = true | _ => True end) /\
  ((path_and_query req).1 = text "/config.json" -> status r = 200 -> req_method req = Get /\ carries_password ctx req).
Proof.
  change (let '(_, (r, effects)) := serve_admin base64_decode iter ctx logins req peer now in as_authorized ctx req r effects).
  assert (forall p, (path_and_query req).1 = text p -> text p <> text "/config.json" -> (path_and_query req).1 <> text "/config.json") as Hat
    by by intros p ->.
  unfold serve_admin. cbv zeta.
  repeat lazymatch goal with
  | |- context [ if ?get && bool_decide (?path = text ?p) then _ else _ ] =>
    destruct (get && bool_decide (path = text p)) eqn:?Hroute; [apply andb_prop in Hroute as [?Hm ?Hp%bool_decide_eq_true]|clear Hroute]
  end; unfold deny_framing.
  - by apply no_effects; left; eapply Hat.
  - destruct (authorized _ _ _ _ _ _ _) as [held [a|refusal]]; by apply no_effects; left; eapply Hat.
  - split; [by intros e ->%list_elem_of_singleton|]. intros Hc. by apply Hat in Hp.
  - destruct (authorized _ _ _ _ _ _ _) as [held [[|]|refusal]]; by apply no_effects; left; eapply Hat.
  - destruct (settings_access _ _ _ _ _ _ _) as [held [a|refusal]]; by apply no_effects; left; eapply Hat.
  - destruct (settings_access _ _ _ _ _ _ _) as [held [[]|refusal]] eqn:Ha; [|by apply no_effects; right; exact (admin_access_refused _ _ _ _ _ _ _ _ Ha)].
    split; [by intros e ?%elem_of_nil|]. intros _ _. apply admin_access_password in Ha. split; [by destruct (req_method req)|done].
  - pose proof (post_settings_authorized ctx logins req peer now ltac:(by destruct (req_method req)) Hp) as H.
    destruct (post_settings _ _ _ _ _ _ _) as [held [[r effects] restart]]. exact H.
  - pose proof (post_command_authorized ctx logins req peer now ltac:(by destruct (req_method req)) Hp) as H.
    destruct (post_command _ _ _ _ _ _ _) as [held [r effects]]. exact H.
  - apply no_effects. right. by destruct (req_method req).
Qed.
End access.

Definition example_context : Context_ := {|
  admin_password := text "s3cret"; modify_conf := true; csrf_token := text "t0ken"; index_html := []; config_html := [];
  status_json _ := []; settings_json := []; miner_json _ := []; errors_json _ := []; saved_json _ := [];
  config_file := Some []; apply _ _ := Ok (Some (text "{}")); read_error := []; writes := true; write_error := [] |}.

(** A command with the credentials and the token of the form, the credentials decoded by a
    decoder of this text alone. *)
Definition example_base64 (s : bytes) : option bytes :=
  if bool_decide (s = text "YWRtaW46czNjcmV0") then Some (text "admin:s3cret") else None.

Definition example_command (form : bytes) : Request := {|
  req_method := Post; req_url := text "/cmd"; req_headers := [(text "Authorization", text "Basic YWRtaW46czNjcmV0")]; req_body := form |}.

(** With the token the client is disconnected, and without it nothing is done; and a post of
    the settings with both writes the file, then restarts. *)
Lemma admin_actions_are_authorized_witness :
  let serve req := serve_admin example_base64 map_to_list example_context ∅ req (V4 0x7f000001) 0 in
  (serve (example_command (text "kill_client=7&csrf=t"))).2.2 = [] /\
  (serve {| req_method := Post; req_url := text "/config?a"; req_headers := [(text "authorization", text "Basic YWRtaW46czNjcmV0")];
    req_body := text "csrf=t0ken" |}).2.2 = [WriteConfig (text "{}"); Restart] /\
  let req := example_command (text "kill_client=7&csrf=t0ken") in
  (serve req).2.2 = [KillClient 7] /\ carries_password example_base64 example_context req /\ carries_token example_context req.
Proof.
  cbv zeta. split_and!; [by vm_compute..| |];
    pose proof (admin_actions_are_authorized example_base64 map_to_list example_context ∅
      (example_command (text "kill_client=7&csrf=t0ken")) (V4 0x7f000001) 0) as H;
    set (served := serve_admin _ _ _ _ _ _ _) in H;
    assert (served.2.2 = [KillClient 7]) as He by by vm_compute.
  all: destruct served as [logins [r effects]]; cbn [fst snd] in He; subst effects;
    by destruct H as [H _]; specialize (H (KillClient 7) ltac:(set_solver) ltac:(done)) as (_ & ? & ? & _).
Defined.
