(* ===== verification/Channel.v ===== *)
(** The encrypted channel ([core/src/datum/channel.rs]) both sides hold after the
    handshake: crypto_box under a precomputed key with a nonce per direction, a
    detached signature inside the ciphertext where the sender signs, and the
    masked frame header.

    The cryptography is third-party code: [Crypto] is what the development
    relies on of it, that what one side seals, boxes or signs the other opens or
    verifies under the matching key, and the lengths those calls produce. *)
From S2P Require Import Prelude Framing.

Definition CRYPTO_BOX_MACBYTES : Z := 16.
Definition CRYPTO_BOX_SEALBYTES : Z := 48.
Definition CRYPTO_SIGN_BYTES : Z := 64.

Class Crypto := {
  crypto_box_easy_afternm : bytes -> bytes -> bytes -> option bytes;
  crypto_box_open_easy_afternm : bytes -> bytes -> bytes -> option bytes;
  crypto_box_seal : bytes -> bytes -> option bytes;
  crypto_box_seal_open : bytes -> bytes -> bytes -> option bytes;
  crypto_box_beforenm : bytes -> bytes -> option bytes;
  crypto_sign_detached : bytes -> bytes -> option bytes;
  crypto_sign_verify_detached : bytes -> bytes -> bytes -> bool;
  (** Which public key belongs to which secret key. *)
  box_keypair : bytes -> bytes -> Prop;
  sign_keypair : bytes -> bytes -> Prop;
  box_opens plain nonce k ct :
    crypto_box_easy_afternm plain nonce k = Some ct ->
    zlen ct = zlen plain + CRYPTO_BOX_MACBYTES /\
    crypto_box_open_easy_afternm ct nonce k = Some plain;
  seal_opens body pk sk sealed :
    box_keypair pk sk -> crypto_box_seal body pk = Some sealed ->
    zlen sealed = zlen body + CRYPTO_BOX_SEALBYTES /\
    crypto_box_seal_open sealed pk sk = Some body;
  sign_verifies body pk sk sig :
    sign_keypair pk sk -> crypto_sign_detached body sk = Some sig ->
    crypto_sign_verify_detached sig body pk = true;
  length_signature body sk sig :
    crypto_sign_detached body sk = Some sig -> zlen sig = CRYPTO_SIGN_BYTES;
  beforenm_agrees pk1 sk1 pk2 sk2 k :
    box_keypair pk1 sk1 -> box_keypair pk2 sk2 ->
    crypto_box_beforenm pk1 sk2 = Some k -> crypto_box_beforenm pk2 sk1 = Some k;
}.

(** A concrete instance for evaluating definitions: a box is its plaintext
    behind sixteen zero bytes, and a secret key is its public key. *)
Program Definition example_crypto : Crypto := {|
  crypto_box_easy_afternm plain _ _ := Some (zeros 16 ++ plain);
  crypto_box_open_easy_afternm ct _ _ := Some (drop 16 ct);
  crypto_box_seal body _ := Some (zeros 48 ++ body);
  crypto_box_seal_open sealed _ _ := Some (drop 48 sealed);
  crypto_box_beforenm _ _ := Some (zeros 32);
  crypto_sign_detached _ _ := Some (zeros 64);
  crypto_sign_verify_detached sig _ _ := bool_decide (sig = zeros 64);
  box_keypair pk sk := pk = sk;
  sign_keypair pk sk := pk = take 32 sk;
|}.
Next Obligation.
  intros ? ? ? ? [= <-]. split; [|done]. unfold zlen, CRYPTO_BOX_MACBYTES. cbn [length]. lia.
Qed.
Next Obligation.
  intros ? ? ? ? -> [= <-]. split; [|done]. unfold zlen, CRYPTO_BOX_SEALBYTES. cbn [length]. lia.
Qed.
Next Obligation. intros ? ? ? ? -> [= <-]. by apply bool_decide_eq_true_2. Qed.
Next Obligation. by intros ? ? ? [= <-]. Qed.
Next Obligation. done. Qed.

Inductive ChannelError :=
| BadHeader (h : FrameHeader)
| Truncated
| Unseal
| Seal
| BadSignature
| Sign
| Malformed (what : string)
| Decrypt
| Encrypt
| NoChannel
| NoVerifyKey
| TooLarge (n : Z).

Definition MAX_PLAINTEXT_LEN : Z := MAX_CMD_LEN - CRYPTO_BOX_MACBYTES.

Record Channel := {
  precomp : option bytes;
  tx_nonce : bytes;
  rx_nonce : bytes;
  tx_header_key : HeaderKeyRatchet;
  rx_header_key : HeaderKeyRatchet;
}.

Definition before_handshake : Channel :=
  {| precomp := None; tx_nonce := zeros NONCE_LEN; rx_nonce := zeros NONCE_LEN;
     tx_header_key := ratchet_initial; rx_header_key := ratchet_initial |}.

Definition client (keys : HeaderKeys) (nonces : SessionNonces) : Channel :=
  {| precomp := None;
     tx_nonce := client_sender nonces;
     rx_nonce := client_receiver nonces;
     tx_header_key := {| key := client_to_server keys |};
     rx_header_key := {| key := server_to_client keys |} |}.

Definition server (keys : HeaderKeys) (nonces : SessionNonces) (k : bytes) : Channel :=
  {| precomp := Some k;
     tx_nonce := client_receiver nonces;
     rx_nonce := client_sender nonces;
     tx_header_key := {| key := server_to_client keys |};
     rx_header_key := {| key := client_to_server keys |} |}.

Definition set_precomp (c : Channel) (k : bytes) : Channel :=
  {| precomp := Some k; tx_nonce := tx_nonce c; rx_nonce := rx_nonce c;
     tx_header_key := tx_header_key c; rx_header_key := rx_header_key c |}.
Definition set_tx (c : Channel) (nonce : bytes) (k : HeaderKeyRatchet) : Channel :=
  {| precomp := precomp c; tx_nonce := nonce; rx_nonce := rx_nonce c;
     tx_header_key := k; rx_header_key := rx_header_key c |}.
Definition set_rx (c : Channel) (nonce : bytes) (k : HeaderKeyRatchet) : Channel :=
  {| precomp := precomp c; tx_nonce := tx_nonce c; rx_nonce := nonce;
     tx_header_key := tx_header_key c; rx_header_key := k |}.

(** The frame carrying [body], and the channel with its send key advanced. *)
Definition frame (c : Channel) (header : FrameHeader) (body : bytes) : bytes * Channel :=
  let header := with_cmd_len (wrap 32 (zlen body)) header in
  let '(head, k) := mask (tx_header_key c) header in
  (head ++ body, set_tx c (tx_nonce c) k).

Definition unmask_header (c : Channel) (b : bytes) : FrameHeader * Channel :=
  let '(h, k) := unmask (rx_header_key c) b in (h, set_rx c (rx_nonce c) k).

Section channel.
Context `{Crypto}.

(** [sign_append]: the body with its detached signature after it. *)
Definition sign_append (sk body : bytes) : result ChannelError bytes :=
  sig ← ok_or Sign (crypto_sign_detached body sk); Ok (body ++ sig).

Definition split_signed (plain : bytes) : result ChannelError (bytes * bytes) :=
  _ ← ensure (negb (zlen plain <? CRYPTO_SIGN_BYTES)) Truncated;
  let at_ := Z.to_nat (zlen plain - CRYPTO_SIGN_BYTES) in
  Ok (take at_ plain, drop at_ plain).

Definition verify (sig signed pk : bytes) : result ChannelError () :=
  ensure (crypto_sign_verify_detached sig signed pk) BadSignature.

Definition strip_signature (plain : bytes) (header : FrameHeader) (verify_with : option bytes)
    : result ChannelError bytes :=
  if is_signed header then
    '(signed, sig) ← split_signed plain;
    pk ← ok_or NoVerifyKey verify_with;
    _ ← verify sig signed pk;
    Ok (take (length signed) plain)
  else Ok plain.

(** [Channel::encrypt]: the frame, and the channel after. Every error leaves the
    channel as it was. *)
Definition encrypt (c : Channel) (proto_cmd : Z) (payload : bytes) (sign_with : option bytes)
    : result ChannelError bytes * Channel :=
  let run :=
    k ← ok_or NoChannel (precomp c);
    plain ← match sign_with with Some sk => sign_append sk payload | None => Ok payload end;
    _ ← ensure (negb (MAX_PLAINTEXT_LEN <? zlen plain)) (TooLarge (zlen plain + CRYPTO_BOX_MACBYTES));
    ok_or Encrypt (crypto_box_easy_afternm plain (tx_nonce c) k) in
  match run with
  | Err e => (Err e, c)
  | Ok ct =>
    let c := set_tx c (increment_nonce (tx_nonce c)) (tx_header_key c) in
    let header := {| cmd_len := 0; reserved := 0;
                     is_signed := is_some sign_with;
                     is_encrypted_pubkey := false; is_encrypted_channel := true;
                     proto_cmd := proto_cmd |} in
    let '(out, c) := frame c header ct in (Ok out, c)
  end.

(** [Channel::decrypt]: the payload, and the channel after. The nonce moves once
    the box is opened, also when the signature is then refused. *)
Definition decrypt (c : Channel) (header : FrameHeader) (ciphertext : bytes)
    (verify_with : option bytes) : result ChannelError bytes * Channel :=
  let run :=
    k ← ok_or NoChannel (precomp c);
    _ ← ensure (negb (zlen ciphertext <? CRYPTO_BOX_MACBYTES)) Truncated;
    ok_or Decrypt (crypto_box_open_easy_afternm ciphertext (rx_nonce c) k) in
  match run with
  | Err e => (Err e, c)
  | Ok plain =>
    (strip_signature plain header verify_with,
     set_rx c (increment_nonce (rx_nonce c)) (rx_header_key c))
  end.

Definition seal (pk body : bytes) : result ChannelError bytes :=
  ok_or Seal (crypto_box_seal body pk).

Definition seal_signed (sk pk body : bytes) : result ChannelError bytes :=
  body ← sign_append sk body; seal pk body.

Definition open_sealed (pk sk sealed : bytes) : result ChannelError bytes :=
  _ ← ensure (negb (zlen sealed <? CRYPTO_BOX_SEALBYTES)) Truncated;
  ok_or Unseal (crypto_box_seal_open sealed pk sk).

(** ** Two linked channels *)

(** What [a] sends [b] can read: the key, the nonce and the header key of the
    direction are the same on both sides. *)
Record linked (a b : Channel) : Prop := {
  linked_precomp : precomp a = precomp b;
  linked_nonce : tx_nonce a = rx_nonce b;
  linked_header_key : tx_header_key a = rx_header_key b;
  linked_key_range : uint 32 (key (tx_header_key a));
}.

Lemma split_signed_append body sig :
  zlen sig = CRYPTO_SIGN_BYTES -> split_signed (body ++ sig) = Ok (body, sig).
Proof.
  intros Hs. unfold split_signed. rewrite zlen_app.
  pose proof (zlen_nonneg body). unfold CRYPTO_SIGN_BYTES in *.
  rewrite (proj2 (Z.ltb_ge _ 64)) by lia. cbn [negb ensure mbind result_bind].
  replace (Z.to_nat (zlen body + zlen sig - 64)) with (length body) by (unfold zlen in *; lia).
  by rewrite take_app_length, drop_app_length.
Qed.

(** A frame as the receiver reads it off the wire: four header bytes and the
    body they announce. *)
Definition receive (c : Channel) (wire : bytes) (verify_with : option bytes)
    : FrameHeader * result ChannelError bytes * Channel :=
  let '(h, c) := unmask_header c (take HEADER_LEN wire) in
  let '(r, c) := decrypt c h (drop HEADER_LEN wire) verify_with in
  (h, r, c).

Lemma length_mask r h : length (fst (mask r h)) = HEADER_LEN.
Proof. apply length_le. Qed.

(** The peer's signing key is the one the frames are verified with. *)
Definition signs_for (sign_with verify_with : option bytes) : Prop :=
  match sign_with with
  | Some sk => exists pk, verify_with = Some pk /\ sign_keypair pk sk
  | None => True
  end.

Lemma ratchet_range r h : uint 32 (key (snd (mask r h))).
Proof. apply feedback_range. Qed.

Lemma receive_encrypt a b cmd payload sign_with verify_with wire a' :
  linked a b -> uint 5 cmd -> signs_for sign_with verify_with ->
  encrypt a cmd payload sign_with = (Ok wire, a') ->
  exists h b', receive b wire verify_with = (h, Ok payload, b') /\
    proto_cmd h = cmd /\ cmd_len h = zlen wire - Z.of_nat HEADER_LEN /\
    is_encrypted_channel h = true /\ is_encrypted_pubkey h = false /\
    is_signed h = is_some sign_with /\
    linked a' b' /\
    tx_nonce b' = tx_nonce b /\ tx_header_key b' = tx_header_key b /\
    rx_nonce a' = rx_nonce a /\ rx_header_key a' = rx_header_key a /\
    precomp a' = precomp a.
Proof.
  intros [Hk Hn Hr Hkr] Hcmd Hsig Henc. unfold encrypt in Henc.
  destruct (precomp a) as [k|] eqn:Ek; [|done]. cbn [ok_or mbind result_bind] in Henc.
  destruct (match sign_with with Some sk => sign_append sk payload | None => Ok payload end)
    as [plain|] eqn:Hplain; [|done]. cbn [mbind result_bind] in Henc.
  destruct (Z.ltb_spec MAX_PLAINTEXT_LEN (zlen plain)) as [|Hle]; [done|].
  cbn [negb ensure mbind result_bind] in Henc.
  destruct (crypto_box_easy_afternm plain (tx_nonce a) k) as [ct|] eqn:Hbox; [|done].
  cbn [ok_or] in Henc. apply box_opens in Hbox as [Hct Hopen].
  unfold frame in Henc. cbn [set_tx tx_header_key tx_nonce] in Henc.
  set (h := with_cmd_len _ _) in Henc.
  destruct (mask (tx_header_key a) h) as [head k'] eqn:Hmask. injection Henc as <- <-.
  assert (length head = HEADER_LEN) as Hhead.
  { pose proof (length_mask (tx_header_key a) h) as Hl. by rewrite Hmask in Hl. }
  pose proof (zlen_nonneg plain).
  assert (wrap 32 (zlen ct) = zlen ct) as Hw.
  { apply wrap_small. unfold uint. unfold MAX_PLAINTEXT_LEN, MAX_CMD_LEN, CRYPTO_BOX_MACBYTES in *.
    change CMD_LEN_MASK with (2 ^ 22 - 1) in Hle. lia. }
  assert (frame_header_wf h) as Hwf.
  { unfold h. rewrite Hw. constructor; cbn; [|done|done]. unfold uint, CMD_LEN_BITS.
    unfold MAX_PLAINTEXT_LEN, MAX_CMD_LEN, CRYPTO_BOX_MACBYTES in *.
    change CMD_LEN_MASK with (2 ^ 22 - 1) in Hle. lia. }
  assert (strip_signature plain h verify_with = Ok payload) as Hstrip.
  { unfold strip_signature. change (is_signed h) with (is_some sign_with).
    destruct sign_with as [sk|]; [|by injection Hplain as ->].
    destruct Hsig as (pk & -> & Hpair). unfold sign_append in Hplain.
    destruct (crypto_sign_detached payload sk) as [sig|] eqn:Hs; [|done].
    cbn [ok_or mbind result_bind] in Hplain. injection Hplain as <-.
    rewrite split_signed_append by (by eapply length_signature).
    cbn [mbind result_bind ok_or]. unfold verify.
    rewrite (sign_verifies payload pk sk sig) by done. cbn [ensure mbind result_bind].
    by rewrite take_app_length. }
  destruct (unmask_mask (tx_header_key a) h Hkr Hwf) as [Hum _].
  rewrite Hmask in Hum. cbn [fst snd] in Hum.
  exists h, (set_rx b (increment_nonce (rx_nonce b)) k').
  split.
  - unfold receive. rewrite take_length_app, drop_length_app by done.
    unfold unmask_header. rewrite <- Hr, Hum.
    unfold decrypt. cbn [set_rx precomp rx_nonce rx_header_key]. rewrite <- Hk.
    cbn [ok_or mbind result_bind]. unfold CRYPTO_BOX_MACBYTES in *.
    rewrite (proj2 (Z.ltb_ge _ 16)) by lia. cbn [negb ensure mbind result_bind].
    rewrite <- Hn, Hopen. cbn [ok_or]. by rewrite Hstrip.
  - split_and!; try done.
    + unfold h. cbn. rewrite Hw, zlen_app. unfold zlen at 2. rewrite Hhead. lia.
    + constructor; cbn -[increment_nonce]; [congruence|congruence|done|].
      pose proof (ratchet_range (tx_header_key a) h) as Hrr. by rewrite Hmask in Hrr.
Qed.

(** ** Sequences of messages *)

Record Message := { msg_cmd : Z; msg_payload : bytes }.

Fixpoint send_all (c : Channel) (sign_with : option bytes) (ms : list Message)
    : option (list bytes * Channel) :=
  match ms with
  | [] => Some ([], c)
  | m :: ms =>
    match encrypt c (msg_cmd m) (msg_payload m) sign_with with
    | (Err _, _) => None
    | (Ok wire, c) => '(wires, c) ← send_all c sign_with ms; Some (wire :: wires, c)
    end
  end.

Fixpoint receive_all (c : Channel) (verify_with : option bytes) (wires : list bytes)
    : list (Z * result ChannelError bytes) * Channel :=
  match wires with
  | [] => ([], c)
  | wire :: wires =>
    let '(h, r, c) := receive c wire verify_with in
    let '(rs, c) := receive_all c verify_with wires in
    ((proto_cmd h, r) :: rs, c)
  end.

(** C32: over two linked channels every message that was sent arrives, in order,
    with its command and its payload, signed or not, however many are in flight,
    and the two ends are still linked afterwards, the other direction untouched. *)
Theorem channel_delivers (a b : Channel) (sign_with verify_with : option bytes)
    (ms : list Message) (wires : list bytes) (a' : Channel) :
  linked a b -> linked b a -> signs_for sign_with verify_with ->
  Forall (fun m => uint 5 (msg_cmd m)) ms ->
  send_all a sign_with ms = Some (wires, a') ->
  exists b', receive_all b verify_with wires =
      ((fun m => (msg_cmd m, Ok (msg_payload m))) <$> ms, b') /\
    linked a' b' /\ linked b' a'.
Proof.
  intros Hab Hba Hsig Hcmds. revert a b Hab Hba wires a'.
  induction Hcmds as [|m ms Hm Hms IH]; intros a b Hab Hba wires a' Hsend; cbn [send_all] in Hsend.
  { injection Hsend as <- <-. by exists b. }
  destruct (encrypt a (msg_cmd m) (msg_payload m) sign_with) as [[wire|] a1] eqn:Henc; [|done].
  destruct (send_all a1 sign_with ms) as [[ws a2]|] eqn:Hall; [|done].
  cbn [mbind option_bind] in Hsend. injection Hsend as <- <-.
  destruct (receive_encrypt a b _ _ _ _ _ _ Hab Hm Hsig Henc)
    as (h & b1 & Hrecv & Hcmd & _ & _ & _ & _ & Hab1 & Hb1 & Hb2 & Ha1 & Ha2 & Hp).
  assert (linked b1 a1) as Hba1.
  { destruct Hba as [Hk Hn Hr Hkr], Hab1. constructor; congruence. }
  destruct (IH a1 b1 Hab1 Hba1 ws a2 Hall) as (b2 & Hrecv2 & Hl1 & Hl2).
  exists b2. split; [|done]. cbn [receive_all]. rewrite Hrecv, Hrecv2. by rewrite Hcmd.
Qed.

(** What [encrypt] refuses leaves the channel as it was. *)
Lemma encrypt_refused c cmd payload sign_with e c' :
  encrypt c cmd payload sign_with = (Err e, c') -> c' = c.
Proof.
  unfold encrypt. destruct (_ ≫= _) as [ct|]; [|by intros [= _ ->]].
  destruct (frame _ _ _). done.
Qed.
End channel.

Definition example_channel : Channel :=
  server (header_keys_from_nk 9) (derive 9 (zeros 32)) (zeros 32).
Definition example_peer : Channel :=
  set_precomp (client (header_keys_from_nk 9) (derive 9 (zeros 32))) (zeros 32).

Lemma channel_delivers_witness :
  let ms := [{| msg_cmd := 5; msg_payload := zeros 3 |}; {| msg_cmd := 7; msg_payload := [] |}] in
  exists wires a' b', @send_all example_crypto example_channel (Some (zeros 32)) ms = Some (wires, a') /\
    @receive_all example_crypto example_peer (Some (zeros 32)) wires =
      ((fun m => (msg_cmd m, Ok (msg_payload m))) <$> ms, b').
Proof.
  intros ms. eexists _, _.
  edestruct (@channel_delivers example_crypto example_channel example_peer (Some (zeros 32))
    (Some (zeros 32)) ms) as (b' & Hrecv & _ & _);
    [by repeat constructor; vm_compute|by repeat constructor; vm_compute
    |by exists (zeros 32)|by repeat constructor| |].
  - vm_compute. reflexivity.
  - exists b'. split; [vm_compute; reflexivity|exact Hrecv].
Defined.
