(* ===== verification/Handshake.v ===== *)
(** The handshake: the key encodings ([core/src/datum/keys.rs]), the gateway's
    hello and its reading of the response ([client.rs]), the pool's reading of
    the hello and its answer ([server.rs]), and the DRS extension
    ([handshake.rs]). Key generation and the random padding are arguments. *)
From S2P Require Import Prelude Framing Utf8 Channel.

Definition PUBKEY_LEN : nat := 32.
Definition PUBLIC_KEYS_LEN : nat := 2 * PUBKEY_LEN.
Definition SIGN_SECRET_LEN : nat := 64.
Definition KEY_PAIRS_LEN : nat := PUBKEY_LEN + SIGN_SECRET_LEN + PUBKEY_LEN + PUBKEY_LEN.
Definition DRS_MARKER : bytes := zb <$> [0x44; 0x52; 0x53; 0x01].
Definition DRS_RESUME_PRESENT : Z := 1.
Definition DRS_FLAG_AT : nat := 4.
Definition DRS_TOKEN_AT : nat := DRS_FLAG_AT + 1.
Definition RESUME_TOKEN_LEN : nat := 40.
Definition STRUCT_END : Z := 0xfe.
Definition MAX_HELLO_PAD_LEN : Z := 200.
Definition MAX_USER_AGENT_LEN : nat := 256.
Definition AFTER_UA_LEN : nat := 1 + 4.
Definition MAX_MOTD_LEN : nat := 511.

Record PublicKeys := { sign_pk : bytes; box_pk : bytes }.

#[global] Instance PublicKeys_eq_dec : EqDecision PublicKeys.
Proof. solve_decision. Defined.

Definition public_keys_to_bytes (k : PublicKeys) : bytes := sign_pk k ++ box_pk k.

Definition public_keys_from_bytes (b : bytes) : PublicKeys :=
  {| sign_pk := take PUBKEY_LEN b; box_pk := drop PUBKEY_LEN b |}.

(** The keys at the start of a buffer and the bytes after them. *)
Definition split_from (b : bytes) : option (PublicKeys * bytes) :=
  if (length b <? PUBLIC_KEYS_LEN)%nat then None
  else Some (public_keys_from_bytes (take PUBLIC_KEYS_LEN b), drop PUBLIC_KEYS_LEN b).

Record KeyPairs := { kp_sign_pk : bytes; kp_sign_sk : bytes; kp_box_pk : bytes; kp_box_sk : bytes }.

Definition public (k : KeyPairs) : PublicKeys :=
  {| sign_pk := kp_sign_pk k; box_pk := kp_box_pk k |}.

Definition key_pairs_to_bytes (k : KeyPairs) : bytes :=
  kp_sign_pk k ++ kp_sign_sk k ++ kp_box_pk k ++ kp_box_sk k.

Definition key_pairs_from_bytes (raw : bytes) : option KeyPairs :=
  if negb (length raw =? KEY_PAIRS_LEN)%nat then None else
  let sign_pk := take PUBKEY_LEN raw in
  let rest := drop PUBKEY_LEN raw in
  let sign_sk := take SIGN_SECRET_LEN rest in
  let rest := drop SIGN_SECRET_LEN rest in
  Some {| kp_sign_pk := sign_pk; kp_sign_sk := sign_sk;
          kp_box_pk := take PUBKEY_LEN rest; kp_box_sk := drop PUBKEY_LEN rest |}.

Inductive ProtocolVersion :=
| V1
| V3 (resume : option bytes).

(** [new_resume_token], the random bytes an argument. *)
Definition new_resume_token (prime_id : Z) (random : bytes) : bytes := le 8 prime_id ++ random.

Record Hello := {
  hello_client : PublicKeys;
  hello_session : PublicKeys;
  user_agent : bytes;
  hello_nk : Z;
  protocol_version : ProtocolVersion;
}.

Record ClientChannel := {
  long_term_keys : KeyPairs;
  session_keys : KeyPairs;
  nk : Z;
  client_channel : Channel;
  pool_session_sign_pk : option bytes;
  motd : bytes;
}.

Definition with_key_pairs (long_term session : KeyPairs) (nk : Z) : ClientChannel :=
  {| long_term_keys := long_term; session_keys := session; nk := nk;
     client_channel := before_handshake; pool_session_sign_pk := None; motd := [] |}.

Definition set_client_channel (c : ClientChannel) (ch : Channel) : ClientChannel :=
  {| long_term_keys := long_term_keys c; session_keys := session_keys c; nk := nk c;
     client_channel := ch; pool_session_sign_pk := pool_session_sign_pk c; motd := motd c |}.

(** The DRS extension: [None] under version 1. *)
Definition drs_bytes (v : ProtocolVersion) : bytes :=
  match v with
  | V1 => []
  | V3 (Some t) => DRS_MARKER ++ [zb DRS_RESUME_PRESENT] ++ t
  | V3 None => DRS_MARKER ++ [zb 0]
  end.

Record ServerChannel := {
  server_channel : Channel;
  session_sign_sk : bytes;
  server_hello : Hello;
}.

Definition handshake_header (proto_cmd : Z) : FrameHeader :=
  {| cmd_len := 0; reserved := 0; is_signed := true; is_encrypted_pubkey := true;
     is_encrypted_channel := false; proto_cmd := proto_cmd |}.

Section handshake.
Context `{Crypto}.

(** [hello], the two random bytes of its padding an argument; none where the
    seal or the signature fails, which panics. *)
Definition hello (c : ClientChannel) (pool_box_pk user_agent : bytes) (v : ProtocolVersion)
    (r : Z * Z) : option (bytes * ClientChannel) :=
  let body :=
    public_keys_to_bytes (public (long_term_keys c)) ++
    public_keys_to_bytes (public (session_keys c)) ++
    user_agent ++ [zb 0] ++ [zb STRUCT_END] ++ le 4 (nk c) ++ drs_bytes v in
  let pad_len := 1 + r.1 mod MAX_HELLO_PAD_LEN in
  let body := body ++ replicate (Z.to_nat pad_len) (zb r.2) in
  sealed ← ok (seal_signed (kp_sign_sk (long_term_keys c)) pool_box_pk body);
  let '(out, _) := frame (client_channel c) (handshake_header cmd.HELLO_OR_PING) sealed in
  let keys := header_keys_from_nk (nk c) in
  let nonces := derive (nk c) (kp_sign_pk (session_keys c)) in
  Some (out, set_client_channel c (client keys nonces)).

(** The version the bytes after the hello's nonce ask for. *)
Definition read_drs (tail : bytes) : result ChannelError ProtocolVersion :=
  match tail !! DRS_FLAG_AT with
  | Some flag =>
    if bool_decide (take DRS_FLAG_AT tail = DRS_MARKER) then
      if has_bits (bz flag) DRS_RESUME_PRESENT then
        if (DRS_TOKEN_AT + RESUME_TOKEN_LEN <=? length tail)%nat
        then Ok (V3 (Some (take RESUME_TOKEN_LEN (drop DRS_TOKEN_AT tail))))
        else Err (Malformed "DRS flag set without a token")
      else Ok (V3 None)
    else Ok V1
  | None => Ok V1
  end.

Definition open_hello (header : FrameHeader) (payload : bytes) (pool : KeyPairs)
    : result ChannelError Hello :=
  _ ← ensure (negb (negb (proto_cmd header =? cmd.HELLO_OR_PING) || negb (is_signed header)
                    || negb (is_encrypted_pubkey header) || is_encrypted_channel header))
        (BadHeader header);
  plain ← open_sealed (kp_box_pk pool) (kp_box_sk pool) payload;
  '(signed, sig) ← split_signed plain;
  '(client, rest) ← ok_or Truncated (split_from signed);
  '(session, rest) ← ok_or Truncated (split_from rest);
  _ ← verify sig signed (sign_pk client);
  nul ← ok_or (Malformed "no UA terminator") (position (fun b => bz b =? 0) rest);
  let user_agent := from_utf8_lossy (take (nul `min` MAX_USER_AGENT_LEN) rest) in
  let after := drop (nul + 1) rest in
  _ ← ensure (negb (length after <? AFTER_UA_LEN)%nat) Truncated;
  _ ← ensure (bool_decide (bz <$> head after = Some STRUCT_END))
        (Malformed "no 0xFE after user agent");
  let nk := le_val (take 4 (drop 1 after)) in
  let tail := drop AFTER_UA_LEN after in
  v ← read_drs tail;
  Ok {| hello_client := client; hello_session := session; user_agent := user_agent;
        hello_nk := nk; protocol_version := v |}.

(** [accept], the generated session keys an argument. *)
Definition accept (h : Hello) (pool : KeyPairs) (motd : bytes) (session_keys : KeyPairs)
    : result ChannelError (bytes * ServerChannel) :=
  let body :=
    public_keys_to_bytes (hello_client h) ++ public_keys_to_bytes (hello_session h) ++
    public_keys_to_bytes (public session_keys) ++
    take (length motd `min` MAX_MOTD_LEN) motd ++ [zb 0] in
  sealed ← seal_signed (kp_sign_sk pool) (box_pk (hello_session h)) body;
  _ ← ensure (negb (MAX_CMD_LEN <? zlen sealed)) (TooLarge (zlen sealed));
  precomp ← ok_or (Malformed "bad session key")
    (crypto_box_beforenm (box_pk (hello_session h)) (kp_box_sk session_keys));
  let keys := header_keys_from_nk (hello_nk h) in
  let nonces := derive (hello_nk h) (sign_pk (hello_session h)) in
  let '(out, channel) :=
    frame (server keys nonces precomp) (handshake_header cmd.HANDSHAKE_RESPONSE) sealed in
  Ok (out, {| server_channel := channel; session_sign_sk := kp_sign_sk session_keys;
              server_hello := h |}).

(** [read_handshake_response] returns the channel with what it had set when it
    stopped. *)
Definition read_handshake_response (c : ClientChannel) (header : FrameHeader) (body : bytes)
    (pool_sign_pk : bytes) : result ChannelError () * ClientChannel :=
  let run :=
    _ ← ensure (negb (negb (proto_cmd header =? cmd.HANDSHAKE_RESPONSE) || negb (is_signed header)
                      || negb (is_encrypted_pubkey header))) (BadHeader header);
    plain ← open_sealed (kp_box_pk (session_keys c)) (kp_box_sk (session_keys c)) body;
    '(signed, sig) ← split_signed plain;
    '(client, rest) ← ok_or Truncated (split_from signed);
    '(session, rest) ← ok_or Truncated (split_from rest);
    '(pool_session, motd) ← ok_or Truncated (split_from rest);
    _ ← verify sig signed pool_sign_pk;
    _ ← ensure (bool_decide (client = public (long_term_keys c)) &&
                bool_decide (session = public (session_keys c)))
          (Malformed "response does not echo the client's keys");
    Ok (pool_session, motd) in
  match run with
  | Err e => (Err e, c)
  | Ok (pool_session, motd) =>
    let end_ := default (length motd) (position (fun b => bz b =? 0) motd) in
    let c := {| long_term_keys := long_term_keys c; session_keys := session_keys c; nk := nk c;
                client_channel := client_channel c;
                pool_session_sign_pk := Some (sign_pk pool_session);
                motd := from_utf8_lossy (take end_ motd) |} in
    match crypto_box_beforenm (box_pk pool_session) (kp_box_sk (session_keys c)) with
    | None => (Err (Malformed "bad pool session key"), c)
    | Some k => (Ok (), set_client_channel c (set_precomp (client_channel c) k))
    end
  end.

Definition client_encrypt (c : ClientChannel) (proto_cmd : Z) (payload : bytes)
    : result ChannelError bytes * ClientChannel :=
  let '(r, ch) := encrypt (client_channel c) proto_cmd payload None in (r, set_client_channel c ch).

Definition client_unmask_header (c : ClientChannel) (b : bytes) : FrameHeader * ClientChannel :=
  let '(h, ch) := unmask_header (client_channel c) b in (h, set_client_channel c ch).

Definition client_decrypt (c : ClientChannel) (header : FrameHeader) (ciphertext : bytes)
    : result ChannelError bytes * ClientChannel :=
  let verify := pool_session_sign_pk c in
  match is_encrypted_channel header, is_encrypted_pubkey header with
  | true, false =>
    let '(r, ch) := decrypt (client_channel c) header ciphertext verify in
    (r, set_client_channel c ch)
  | false, true =>
    (plain ← open_sealed (kp_box_pk (session_keys c)) (kp_box_sk (session_keys c)) ciphertext;
     strip_signature plain header verify, c)
  | false, false =>
    if (proto_cmd header =? cmd.HELLO_OR_PING) && negb (is_signed header) &&
       bool_decide (ciphertext = [])
    then (Ok [], c)
    else (Err (Malformed "pool message is not a channel-encrypted or sealed frame (plain or both flags)"), c)
  | true, true =>
    (Err (Malformed "pool message is not a channel-encrypted or sealed frame (plain or both flags)"), c)
  end.

Definition set_server_channel (s : ServerChannel) (ch : Channel) : ServerChannel :=
  {| server_channel := ch; session_sign_sk := session_sign_sk s; server_hello := server_hello s |}.

Definition server_encrypt (s : ServerChannel) (proto_cmd : Z) (payload : bytes) (sign : bool)
    : result ChannelError bytes * ServerChannel :=
  let '(r, ch) := encrypt (server_channel s) proto_cmd payload
    (if sign then Some (session_sign_sk s) else None) in
  (r, set_server_channel s ch).

Definition server_unmask_header (s : ServerChannel) (b : bytes) : FrameHeader * ServerChannel :=
  let '(h, ch) := unmask_header (server_channel s) b in (h, set_server_channel s ch).

Definition server_decrypt (s : ServerChannel) (header : FrameHeader) (ciphertext : bytes)
    : result ChannelError bytes * ServerChannel :=
  if negb (is_encrypted_channel header) || is_encrypted_pubkey header then
    (Err (Malformed "client message is not a channel-encrypted frame (sealed or plain)"), s)
  else
    let '(r, ch) := decrypt (server_channel s) header ciphertext
      (Some (sign_pk (hello_session (server_hello s)))) in
    (r, set_server_channel s ch).

(** ** The key encodings *)

Record key_pairs_wf (k : KeyPairs) : Prop := {
  wf_sign_pk : length (kp_sign_pk k) = PUBKEY_LEN;
  wf_sign_sk : length (kp_sign_sk k) = SIGN_SECRET_LEN;
  wf_box_pk : length (kp_box_pk k) = PUBKEY_LEN;
  wf_box_sk : length (kp_box_sk k) = PUBKEY_LEN;
  wf_sign_pair : sign_keypair (kp_sign_pk k) (kp_sign_sk k);
  wf_box_pair : box_keypair (kp_box_pk k) (kp_box_sk k);
}.

Lemma split_from_public k tl :
  key_pairs_wf k -> split_from (public_keys_to_bytes (public k) ++ tl) = Some (public k, tl).
Proof.
  intros []. unfold split_from, public_keys_to_bytes, public. cbn [sign_pk box_pk].
  assert (length (kp_sign_pk k ++ kp_box_pk k) = PUBLIC_KEYS_LEN) as Hl
    by (rewrite length_app; unfold PUBLIC_KEYS_LEN; lia).
  rewrite length_app, Hl, (proj2 (Nat.ltb_ge _ _)) by lia.
  rewrite take_length_app, drop_length_app by done. unfold public_keys_from_bytes.
  by rewrite take_length_app, drop_length_app.
Qed.

(** The key file holds what it was written from. *)
Lemma key_pairs_roundtrip k : key_pairs_wf k -> key_pairs_from_bytes (key_pairs_to_bytes k) = Some k.
Proof.
  intros []. unfold key_pairs_from_bytes, key_pairs_to_bytes.
  rewrite (proj2 (Nat.eqb_eq _ _)).
  - cbn [negb]. rewrite take_length_app, (drop_length_app PUBKEY_LEN (kp_sign_pk k)) by done.
    rewrite take_length_app, drop_length_app, take_length_app, drop_length_app by done.
    by destruct k.
  - rewrite !length_app. unfold KEY_PAIRS_LEN. lia.
Qed.

Lemma seal_signed_opens sk_pk sk pk box_sk body sealed :
  sign_keypair sk_pk sk -> box_keypair pk box_sk ->
  seal_signed sk pk body = Ok sealed ->
  exists sig, zlen sealed = zlen body + CRYPTO_SIGN_BYTES + CRYPTO_BOX_SEALBYTES /\
    open_sealed pk box_sk sealed = Ok (body ++ sig) /\
    split_signed (body ++ sig) = Ok (body, sig) /\
    crypto_sign_verify_detached sig body sk_pk = true.
Proof.
  intros Hsign Hbox Hseal. unfold seal_signed, sign_append, seal in Hseal.
  destruct (crypto_sign_detached body sk) as [sig|] eqn:Hs; [|done].
  cbn [ok_or mbind result_bind] in Hseal.
  destruct (crypto_box_seal (body ++ sig) pk) as [c|] eqn:Hc; [|done].
  injection Hseal as ->. pose proof (length_signature _ _ _ Hs) as Hlen.
  destruct (seal_opens _ _ _ _ Hbox Hc) as [Hl Ho]. rewrite zlen_app, Hlen in Hl.
  pose proof (zlen_nonneg body). unfold CRYPTO_SIGN_BYTES, CRYPTO_BOX_SEALBYTES in *.
  exists sig. split_and!; [lia| |by apply split_signed_append|by eapply sign_verifies].
  unfold open_sealed, CRYPTO_BOX_SEALBYTES. rewrite (proj2 (Z.ltb_ge _ _)) by lia.
  cbn [negb ensure mbind result_bind]. by rewrite Ho.
Qed.

(** A masked frame read back with the same header key. *)
Lemma frame_unmask c h body out c' :
  frame c h body = (out, c') -> uint 32 (key (tx_header_key c)) ->
  uint 5 (proto_cmd h) -> uint 2 (reserved h) -> zlen body <= MAX_CMD_LEN ->
  unmask (tx_header_key c) (take HEADER_LEN out) =
    (with_cmd_len (zlen body) h, tx_header_key c') /\
  drop HEADER_LEN out = body /\
  precomp c' = precomp c /\ tx_nonce c' = tx_nonce c /\ rx_nonce c' = rx_nonce c /\
  rx_header_key c' = rx_header_key c /\ uint 32 (key (tx_header_key c')).
Proof.
  intros Hf Hk Hcmd Hres Hlen. unfold frame in Hf. pose proof (zlen_nonneg body).
  change MAX_CMD_LEN with (2 ^ 22 - 1) in Hlen.
  rewrite wrap_small in Hf by (unfold uint; lia). set (h' := with_cmd_len _ h) in *.
  pose proof (length_mask (tx_header_key c) h') as Hl.
  pose proof (ratchet_range (tx_header_key c) h') as Hr.
  destruct (unmask_mask (tx_header_key c) h' Hk) as [Hu _].
  { constructor; [|done..]. unfold uint, CMD_LEN_BITS. cbn. lia. }
  destruct (mask (tx_header_key c) h') as [head k]. cbn [fst snd] in *. injection Hf as <- <-.
  rewrite take_length_app, drop_length_app by done. split_and!; done.
Qed.

Definition protocol_version_wf (v : ProtocolVersion) : Prop :=
  match v with V3 (Some t) => length t = RESUME_TOKEN_LEN | _ => True end.

(** The extension is read back whatever padding follows it, and padding alone is
    never taken for one. *)
Lemma read_drs_pad v n x :
  protocol_version_wf v -> read_drs (drs_bytes v ++ replicate n (zb x)) = Ok v.
Proof.
  intros Hv. destruct v as [|[t|]]; unfold read_drs, drs_bytes.
  - cbn [app]. destruct (_ !! DRS_FLAG_AT) eqn:Hf; [|done].
    rewrite bool_decide_eq_false_2; [done|]. apply lookup_replicate in Hf as [_ Hn].
    rewrite take_replicate. unfold DRS_FLAG_AT in *. rewrite Nat.min_l by lia.
    intros Heq. injection Heq as H1 H2 _ _. rewrite H1 in H2. done.
  - cbn [protocol_version_wf] in Hv.
    change ((DRS_MARKER ++ [zb DRS_RESUME_PRESENT] ++ t) ++ replicate n (zb x))
      with (DRS_MARKER ++ zb DRS_RESUME_PRESENT :: (t ++ replicate n (zb x))).
    change ((DRS_MARKER ++ zb DRS_RESUME_PRESENT :: (t ++ replicate n (zb x))) !! DRS_FLAG_AT)
      with (Some (zb DRS_RESUME_PRESENT)). cbn iota beta.
    rewrite take_length_app by done. rewrite bool_decide_eq_true_2 by done.
    change (has_bits (bz (zb DRS_RESUME_PRESENT)) DRS_RESUME_PRESENT) with true. cbn iota.
    rewrite length_app. change (length DRS_MARKER) with 4%nat. cbn [length]. rewrite length_app, Hv.
    rewrite (proj2 (Nat.leb_le _ _)) by (unfold DRS_TOKEN_AT, DRS_FLAG_AT; lia).
    do 3 f_equal.
    change (drop DRS_TOKEN_AT (DRS_MARKER ++ zb DRS_RESUME_PRESENT :: t ++ replicate n (zb x)))
      with (t ++ replicate n (zb x)). by apply take_length_app.
  - done.
Qed.

Lemma position_nul (l tl : bytes) :
  zb 0 ∉ l -> position (fun b => bz b =? 0) (l ++ zb 0 :: tl) = Some (length l).
Proof.
  intros Hl. apply position_app_first; [|done]. apply Forall_forall. intros y Hy.
  apply Z.eqb_neq. intros H0. apply Hl. change 0 with (bz (zb 0)) in H0.
  apply bz_inj in H0 as ->. done.
Qed.

(** A string the hello or the response carries: well formed, no NUL, and no
    longer than the field keeps. *)
Record wire_string (max : nat) (s : bytes) : Prop := {
  wire_valid : valid_utf8 s = true;
  wire_no_nul : zb 0 ∉ s;
  wire_length : (length s <= max)%nat;
}.

Lemma zlen_frame c h body out c' : frame c h body = (out, c') -> zlen out = Z.of_nat HEADER_LEN + zlen body.
Proof.
  unfold frame. intros Hf. pose proof (length_mask (tx_header_key c) (with_cmd_len (wrap 32 (zlen body)) h)) as Hl.
  destruct (mask _ _) as [hd k]. cbn [fst] in Hl. injection Hf as <- _. rewrite zlen_app. unfold zlen at 1. by rewrite Hl.
Qed.

(** The hello's plaintext, from its parts to the end of its padding. *)
Definition hello_body (lt ss : PublicKeys) (ua : bytes) (n : Z) (v : ProtocolVersion) (pad : bytes) : bytes :=
  public_keys_to_bytes lt ++ public_keys_to_bytes ss ++ ua ++ zb 0 :: zb STRUCT_END :: le 4 n ++ drs_bytes v ++ pad.

Lemma zlen_hello_body lt ss ua n v pad :
  key_pairs_wf lt -> key_pairs_wf ss -> (length ua <= MAX_USER_AGENT_LEN)%nat -> protocol_version_wf v ->
  zlen pad <= MAX_HELLO_PAD_LEN ->
  zlen (hello_body (public lt) (public ss) ua n v pad) + CRYPTO_SIGN_BYTES + CRYPTO_BOX_SEALBYTES <= MAX_CMD_LEN.
Proof.
  intros [Hl1 _ Hl2 _ _ _] [Hs1 _ Hs2 _ _ _] Hua Hv Hpad. unfold hello_body, public_keys_to_bytes, public.
  cbn [sign_pk box_pk]. rewrite !zlen_app, !zlen_cons, !zlen_app.
  assert (zlen (drs_bytes v) <= 45) as Hd.
  { destruct v as [|[t|]]; cbn [drs_bytes protocol_version_wf] in *; [done| |done].
    rewrite !zlen_app. change (zlen DRS_MARKER) with 4. change (zlen [zb DRS_RESUME_PRESENT]) with 1.
    unfold zlen. rewrite Hv. done. }
  assert (zlen (le 4 n) = 4) as -> by (unfold zlen; by rewrite length_le).
  apply (f_equal Z.of_nat) in Hl1, Hl2, Hs1, Hs2. unfold MAX_HELLO_PAD_LEN in Hpad.
  change (Z.of_nat PUBKEY_LEN) with 32 in *. unfold MAX_USER_AGENT_LEN in Hua.
  change MAX_CMD_LEN with 4194303. unfold CRYPTO_SIGN_BYTES, CRYPTO_BOX_SEALBYTES, zlen in *. lia.
Qed.

(** A sealed, signed hello body reads back as its parts. *)
Lemma open_hello_body lt ss pool ua n v k x sealed sig len :
  key_pairs_wf lt -> key_pairs_wf ss -> wire_string MAX_USER_AGENT_LEN ua -> uint 32 n -> protocol_version_wf v ->
  let body := hello_body (public lt) (public ss) ua n v (replicate k (zb x)) in
  open_sealed (kp_box_pk pool) (kp_box_sk pool) sealed = Ok (body ++ sig) ->
  split_signed (body ++ sig) = Ok (body, sig) ->
  crypto_sign_verify_detached sig body (kp_sign_pk lt) = true ->
  open_hello (with_cmd_len len (handshake_header cmd.HELLO_OR_PING)) sealed pool =
  Ok {| hello_client := public lt; hello_session := public ss; user_agent := ua; hello_nk := n;
        protocol_version := v |}.
Proof.
  intros Hlt Hss [Hutf Hnul Hual] Hn Hv body Hopen Hsplit Hverify.
  unfold open_hello. cbn [with_cmd_len handshake_header proto_cmd is_signed is_encrypted_pubkey
    is_encrypted_channel Z.eqb Pos.eqb negb orb ensure mbind result_bind cmd.HELLO_OR_PING].
  rewrite Hopen. cbn [mbind result_bind]. rewrite Hsplit. cbn [mbind result_bind].
  assert (split_from body = Some (public lt, public_keys_to_bytes (public ss) ++ ua ++ zb 0 :: zb STRUCT_END ::
    le 4 n ++ drs_bytes v ++ replicate k (zb x))) as -> by (by apply split_from_public).
  cbn [ok_or mbind result_bind].
  rewrite split_from_public by done. cbn [ok_or mbind result_bind].
  unfold verify. cbn [sign_pk public]. rewrite Hverify. cbn [ensure mbind result_bind].
  rewrite position_nul by done. cbn [ok_or mbind result_bind].
  rewrite Nat.min_l by done. rewrite take_app_length, from_utf8_lossy_valid by done.
  change (ua ++ zb 0 :: ?x) with (ua ++ [zb 0] ++ x). rewrite app_assoc.
  rewrite drop_length_app by (rewrite length_app; done).
  cbn [length]. rewrite length_app, length_le.
  rewrite (proj2 (Nat.ltb_ge _ _)) by (unfold AFTER_UA_LEN; lia).
  cbn [negb ensure mbind result_bind head fmap option_fmap option_map].
  rewrite bool_decide_eq_true_2 by done. cbn [ensure mbind result_bind].
  change (drop 1 (zb STRUCT_END :: ?x)) with x.
  rewrite take_length_app by apply length_le. rewrite le_val_le_small by done.
  change (drop AFTER_UA_LEN (zb STRUCT_END :: ?x)) with (drop 4 x).
  rewrite drop_length_app by apply length_le. rewrite read_drs_pad by done. done.
Qed.

Lemma open_hello_hello c pool ua v r wire c1 :
  key_pairs_wf (long_term_keys c) -> key_pairs_wf (session_keys c) -> key_pairs_wf pool ->
  wire_string MAX_USER_AGENT_LEN ua -> uint 32 (nk c) -> protocol_version_wf v -> 0 <= r.1 ->
  tx_header_key (client_channel c) = ratchet_initial ->
  hello c (kp_box_pk pool) ua v r = Some (wire, c1) ->
  (let '(h, _) := unmask ratchet_initial (take HEADER_LEN wire) in
   cmd_len h = zlen wire - Z.of_nat HEADER_LEN /\
   open_hello h (drop HEADER_LEN wire) pool =
   Ok {| hello_client := public (long_term_keys c); hello_session := public (session_keys c);
         user_agent := ua; hello_nk := nk c; protocol_version := v |}) /\
  c1 = set_client_channel c
    (client (header_keys_from_nk (nk c)) (derive (nk c) (kp_sign_pk (session_keys c)))).
Proof.
  intros Hlt Hss Hpool Hua Hnk Hv Hr Hkey Hhello. unfold hello in Hhello.
  set (body := (public_keys_to_bytes _ ++ _) ++ _) in Hhello.
  set (n := Z.to_nat (1 + r.1 mod MAX_HELLO_PAD_LEN)) in *.
  assert (body = hello_body (public (long_term_keys c)) (public (session_keys c)) ua (nk c) v
    (replicate n (zb r.2))) as Hbody by (unfold body, hello_body; by rewrite <- !app_assoc).
  assert (zlen (replicate n (zb r.2)) <= MAX_HELLO_PAD_LEN) as Hpad.
  { unfold n, zlen. rewrite length_replicate.
    pose proof (Z.mod_pos_bound r.1 MAX_HELLO_PAD_LEN ltac:(done)). lia. }
  clearbody body. subst body.
  destruct (seal_signed _ _ _) as [sealed|] eqn:Hseal; [|done].
  cbn [ok mbind option_bind] in Hhello.
  destruct (seal_signed_opens _ _ _ _ _ _ (wf_sign_pair _ Hlt) (wf_box_pair _ Hpool) Hseal)
    as (sig & Hlen & Hopen & Hsplit & Hverify).
  pose proof (zlen_hello_body _ _ ua (nk c) v _ Hlt Hss ltac:(apply Hua) Hv Hpad) as Hmax.
  destruct (frame (client_channel c) (handshake_header cmd.HELLO_OR_PING) sealed) as [out ch] eqn:Hframe.
  injection Hhello as <- <-.
  pose proof (frame_unmask _ _ _ _ _ Hframe) as Hu. rewrite Hkey in Hu.
  destruct Hu as (Hun & Hdrop & _); [done|done|done|lia|]. rewrite Hun. split; [|done]. split.
  - cbn [cmd_len with_cmd_len]. rewrite (zlen_frame _ _ _ _ _ Hframe). lia.
  - rewrite Hdrop. by apply open_hello_body with (sig := sig) (k := n) (x := r.2).
Qed.
Lemma accept_response c ua v pool motd_text gen wire s :
  key_pairs_wf (long_term_keys c) -> key_pairs_wf (session_keys c) ->
  key_pairs_wf pool -> key_pairs_wf gen -> wire_string MAX_MOTD_LEN motd_text ->
  let keys := header_keys_from_nk (nk c) in
  let nonces := derive (nk c) (kp_sign_pk (session_keys c)) in
  let h := {| hello_client := public (long_term_keys c);
              hello_session := public (session_keys c);
              user_agent := ua; hello_nk := nk c; protocol_version := v |} in
  accept h pool motd_text gen = Ok (wire, s) ->
  exists c1 c2,
    client_unmask_header (set_client_channel c (client keys nonces)) (take HEADER_LEN wire) = c1 /\
    read_handshake_response (snd c1) (fst c1) (drop HEADER_LEN wire) (kp_sign_pk pool) = (Ok (), c2) /\
    motd c2 = motd_text /\
    pool_session_sign_pk c2 = Some (kp_sign_pk gen) /\
    session_sign_sk s = kp_sign_sk gen /\ server_hello s = h /\
    linked (client_channel c2) (server_channel s) /\ linked (server_channel s) (client_channel c2) /\
    is_some (precomp (client_channel c2)) = true.
Proof.
  intros Hlt Hss Hpool Hgen [Hutf Hnul Hlen] keys nonces h Hacc. subst keys nonces.
  unfold accept in Hacc.
  cbn [hello_client hello_session box_pk public hello_nk sign_pk h] in Hacc.
  rewrite Nat.min_l in Hacc by done. rewrite (take_ge motd_text) in Hacc by done.
  set (body := public_keys_to_bytes _ ++ _) in Hacc.
  destruct (seal_signed _ _ body) as [sealed|] eqn:Hseal; [|done]. cbn [mbind result_bind] in Hacc.
  destruct (Z.ltb_spec MAX_CMD_LEN (zlen sealed)) as [|Hsealed]; [done|].
  cbn [negb ensure mbind result_bind] in Hacc.
  destruct (crypto_box_beforenm (kp_box_pk (session_keys c)) (kp_box_sk gen)) as [k|] eqn:Hk; [|done].
  cbn [ok_or mbind result_bind] in Hacc.
  destruct (frame _ (handshake_header cmd.HANDSHAKE_RESPONSE) sealed) as [out ch] eqn:Hframe.
  injection Hacc as <- <-.
  destruct (seal_signed_opens _ _ _ _ _ _ (wf_sign_pair _ Hpool) (wf_box_pair _ Hss) Hseal)
    as (sig & _ & Hopen & Hsplit & Hverify).
  pose proof (beforenm_agrees _ _ _ _ _ (wf_box_pair _ Hss) (wf_box_pair _ Hgen) Hk) as Hk'.
  destruct (frame_unmask _ _ _ _ _ Hframe) as (Hun & Hdrop & Hp & Htx & Hrx & Hrk & Hur);
    [apply feedback_range|done|done|done|].
  assert (uint 32 (client_to_server (header_keys_from_nk (nk c)))) as Hkr by apply feedback_range.
  set (keys := header_keys_from_nk (nk c)) in *.
  set (nonces := derive (nk c) (kp_sign_pk (session_keys c))) in *. clearbody keys nonces.
  eexists _, _. split; [done|]. unfold client_unmask_header, unmask_header.
  cbn [client_channel set_client_channel client rx_header_key].
  cbn [client_channel set_client_channel client rx_header_key tx_header_key server key] in *.
  rewrite Hun. cbn [fst snd]. unfold read_handshake_response.
  cbn [with_cmd_len handshake_header proto_cmd is_signed is_encrypted_pubkey Z.eqb Pos.eqb negb orb
    ensure mbind result_bind cmd.HANDSHAKE_RESPONSE session_keys set_client_channel long_term_keys].
  rewrite Hdrop, Hopen. cbn [mbind result_bind]. rewrite Hsplit. cbn [mbind result_bind].
  assert (body = public_keys_to_bytes (public (long_term_keys c)) ++
    public_keys_to_bytes (public (session_keys c)) ++ public_keys_to_bytes (public gen) ++
    motd_text ++ [zb 0]) as Hbody by done. clearbody body.
  rewrite Hbody, split_from_public by done. cbn [ok_or mbind result_bind].
  rewrite split_from_public by done. cbn [ok_or mbind result_bind].
  rewrite split_from_public by done. cbn [ok_or mbind result_bind].
  unfold verify. rewrite <- Hbody, Hverify. cbn [ensure mbind result_bind].
  rewrite !bool_decide_eq_true_2 by done. cbn [andb ensure mbind result_bind].
  rewrite position_nul by done. cbn [default from_option id].
  rewrite take_app_length, from_utf8_lossy_valid by done.
  cbn [box_pk sign_pk public]. cbn [session_keys].
  rewrite Hk'.
  cbn [set_client_channel motd pool_session_sign_pk client_channel server_channel session_sign_sk
    server_hello set_precomp set_rx precomp is_some].
  by split_and!.
Qed.

(** a completed handshake leaves both ends on one channel. The pool reads
    from the gateway's hello exactly the keys, user agent, nonce and protocol
    version the gateway put in it, resume token included and whatever the random
    padding; the gateway accepts the pool's answer, takes its greeting and its
    session signing key, and from then on what either side encrypts the other
    decrypts. *)
Theorem handshake_completes (lt ss pool gen : KeyPairs) (n : Z) (ua motd_text : bytes)
    (v : ProtocolVersion) (r : Z * Z) (wire : bytes) (c1 : ClientChannel) :
  key_pairs_wf lt -> key_pairs_wf ss -> key_pairs_wf pool -> key_pairs_wf gen ->
  wire_string MAX_USER_AGENT_LEN ua -> wire_string MAX_MOTD_LEN motd_text ->
  uint 32 n -> protocol_version_wf v -> 0 <= r.1 ->
  hello (with_key_pairs lt ss n) (kp_box_pk pool) ua v r = Some (wire, c1) ->
  exists h,
    open_hello (fst (unmask ratchet_initial (take HEADER_LEN wire))) (drop HEADER_LEN wire) pool = Ok h /\
    h = {| hello_client := public lt; hello_session := public ss; user_agent := ua;
           hello_nk := n; protocol_version := v |} /\
    forall answer s, accept h pool motd_text gen = Ok (answer, s) ->
    exists c2,
      (let '(header, c) := client_unmask_header c1 (take HEADER_LEN answer) in
       read_handshake_response c header (drop HEADER_LEN answer) (kp_sign_pk pool)) = (Ok (), c2) /\
      motd c2 = motd_text /\ pool_session_sign_pk c2 = Some (kp_sign_pk gen) /\
      linked (client_channel c2) (server_channel s) /\
      linked (server_channel s) (client_channel c2) /\
      is_some (precomp (client_channel c2)) = true.
Proof.
  intros Hlt Hss Hpool Hgen Hua Hmotd Hn Hv Hr Hhello.
  destruct (open_hello_hello (with_key_pairs lt ss n) pool ua v r wire c1
    Hlt Hss Hpool Hua Hn Hv Hr eq_refl Hhello) as [Hopen ->].
  destruct (unmask ratchet_initial (take HEADER_LEN wire)) as [hd rt]. destruct Hopen as [_ Hopen].
  eexists. split; [exact Hopen|]. split; [done|]. intros answer s Hacc.
  destruct (accept_response (with_key_pairs lt ss n) ua v pool motd_text gen answer s
    Hlt Hss Hpool Hgen Hmotd Hacc) as (cu & c2 & Hcu & Hread & Hm & Hpk & _ & _ & Hl1 & Hl2 & Hp).
  exists c2. cbn [with_key_pairs nk session_keys] in *. rewrite Hcu. destruct cu as [h c].
  by split_and!.
Qed.

(** C33: the session acts on no frame an outsider can write: what the gateway
    decrypts was boxed under the channel's key or sealed to its session key, and
    verified under the pool's session key where it says it is signed; the only
    other frame it takes is an empty unsigned ping, which carries nothing. The
    pool takes boxed frames alone. *)
Theorem decrypted_frames_are_authentic (c : ClientChannel) (s : ServerChannel) (h : FrameHeader)
    (ct plain : bytes) (c' : ClientChannel) (s' : ServerChannel) :
  (client_decrypt c h ct = (Ok plain, c') ->
   (proto_cmd h = cmd.HELLO_OR_PING /\ is_signed h = false /\ ct = [] /\ plain = [] /\ c' = c) \/
   exists opened,
     ((exists k, precomp (client_channel c) = Some k /\
        crypto_box_open_easy_afternm ct (rx_nonce (client_channel c)) k = Some opened) \/
      crypto_box_seal_open ct (kp_box_pk (session_keys c)) (kp_box_sk (session_keys c)) = Some opened) /\
     (is_signed h = false /\ plain = opened \/
      exists pk sig, pool_session_sign_pk c = Some pk /\ opened = plain ++ sig /\
        crypto_sign_verify_detached sig plain pk = true)) /\
  (server_decrypt s h ct = (Ok plain, s') ->
   exists opened k, precomp (server_channel s) = Some k /\
     crypto_box_open_easy_afternm ct (rx_nonce (server_channel s)) k = Some opened /\
     (is_signed h = false /\ plain = opened \/
      exists sig, opened = plain ++ sig /\
        crypto_sign_verify_detached sig plain (sign_pk (hello_session (server_hello s))) = true)).
Proof.
  assert (forall opened vw, strip_signature opened h vw = Ok plain ->
    is_signed h = false /\ plain = opened \/
    exists pk sig, vw = Some pk /\ opened = plain ++ sig /\
      crypto_sign_verify_detached sig plain pk = true) as Hstrip.
  { intros opened vw. unfold strip_signature. destruct (is_signed h); [|by intros [= ->]; left].
    unfold split_signed. destruct (negb _); [|done]. cbn [ensure mbind result_bind].
    destruct vw as [pk|]; [|done]. cbn [ok_or mbind result_bind]. unfold verify.
    destruct (crypto_sign_verify_detached _ _ _) eqn:Hv; [|done].
    cbn [ensure mbind result_bind]. set (n := Z.to_nat _) in *. intros [= Hp]. right.
    assert (take (length (take n opened)) opened = take n opened) as Ht.
    { rewrite length_take. destruct (Nat.le_ge_cases n (length opened)).
      - by rewrite Nat.min_l.
      - rewrite Nat.min_r by done. rewrite !take_ge by lia. done. }
    rewrite Ht in Hp. exists pk, (drop n opened). rewrite <- Hp.
    split_and!; [done|by rewrite take_drop|done]. }
  assert (forall ch vw r ch', decrypt ch h ct vw = (Ok r, ch') -> exists opened k,
    precomp ch = Some k /\ crypto_box_open_easy_afternm ct (rx_nonce ch) k = Some opened /\
    strip_signature opened h vw = Ok r) as Hdec.
  { intros ch vw r ch'. unfold decrypt. destruct (precomp ch) as [k|]; [|done].
    cbn [ok_or mbind result_bind]. destruct (negb _); [|done]. cbn [ensure mbind result_bind].
    destruct (crypto_box_open_easy_afternm ct (rx_nonce ch) k) as [o|] eqn:Ho; [|done].
    cbn [ok_or]. intros [= Hs _]. by exists o, k. }
  split.
  - unfold client_decrypt. destruct (is_encrypted_channel h), (is_encrypted_pubkey h); try done.
    + destruct (decrypt _ _ _ _) as [r ch] eqn:Hd. intros [= -> _].
      apply Hdec in Hd as (o & k & Hk & Ho & Hs). right. exists o.
      split; [left; by exists k|]. by apply Hstrip.
    + unfold open_sealed. destruct (negb _); [|done]. cbn [ensure mbind result_bind].
      destruct (crypto_box_seal_open _ _ _) as [o|] eqn:Ho; [|done]. cbn [ok_or mbind result_bind].
      intros [= Hs _]. right. exists o. split; [by right|]. by apply Hstrip.
    + destruct (_ && _) eqn:Hc; [|done]. reflect_Z. intros [= <- <-]. left. by split_and!.
  - unfold server_decrypt. destruct (_ || _)%bool; [done|].
    destruct (decrypt _ _ _ _) as [r ch] eqn:Hd. intros [= -> _].
    apply Hdec in Hd as (o & k & Hk & Ho & Hs). exists o, k. split_and!; [done|done|].
    apply Hstrip in Hs as [?|(pk & sig & [= <-] & ? & ?)]; [by left|]. right. by exists sig.
Qed.
End handshake.

(** ** A concrete handshake *)

Definition example_keys (n : Z) : KeyPairs :=
  {| kp_sign_pk := le 32 n; kp_sign_sk := le 64 n; kp_box_pk := le 32 n; kp_box_sk := le 32 n |}.

Lemma example_keys_wf n : n = 1 \/ n = 2 \/ n = 3 \/ n = 4 ->
  @key_pairs_wf example_crypto (example_keys n).
Proof. by intros [->|[->|[->| ->]]]; constructor. Qed.

Lemma handshake_completes_witness :
  exists wire c1 h,
    @hello example_crypto (with_key_pairs (example_keys 1) (example_keys 2) 77) (le 32 3)
      (zb <$> [0x67; 0x77]) (V3 (Some (zeros 40))) (250, 9) = Some (wire, c1) /\
    @open_hello example_crypto (fst (unmask ratchet_initial (take HEADER_LEN wire)))
      (drop HEADER_LEN wire) (example_keys 3) = Ok h /\ hello_nk h = 77.
Proof.
  eexists _, _.
  edestruct (@handshake_completes example_crypto (example_keys 1) (example_keys 2) (example_keys 3)
    (example_keys 4) 77 (zb <$> [0x67; 0x77]) (zb <$> [0x68; 0x69]) (V3 (Some (zeros 40))) (250, 9))
    as (h & Hopen & Hh & _);
    [by apply example_keys_wf; auto..| | |done|done|done| |].
  1,2: constructor; [done|by apply (bool_decide_unpack _)|by apply Nat.leb_le].
  - vm_compute. reflexivity.
  - exists h. split_and!; [vm_compute; reflexivity|exact Hopen|by rewrite Hh].
Defined.

Lemma decrypted_frames_are_authentic_witness :
  let c := set_client_channel (with_key_pairs (example_keys 1) (example_keys 2) 77) example_channel in
  let h := {| cmd_len := 18; reserved := 0; is_signed := false; is_encrypted_pubkey := false;
              is_encrypted_channel := true; proto_cmd := cmd.MINING |} in
  exists opened, opened = zeros 2 /\
    (exists k, precomp (client_channel c) = Some k /\
      @crypto_box_open_easy_afternm example_crypto (zeros 18) (rx_nonce (client_channel c)) k = Some opened).
Proof.
  intros c h.
  destruct (@decrypted_frames_are_authentic example_crypto c
    {| server_channel := example_channel; session_sign_sk := []; server_hello :=
       {| hello_client := public (example_keys 1); hello_session := public (example_keys 2);
          user_agent := []; hello_nk := 0; protocol_version := V1 |} |} h (zeros 18) (zeros 2)
    (set_client_channel c (snd (@decrypt example_crypto example_channel h (zeros 18) None)))
    {| server_channel := example_channel; session_sign_sk := []; server_hello :=
       {| hello_client := public (example_keys 1); hello_session := public (example_keys 2);
          user_agent := []; hello_nk := 0; protocol_version := V1 |} |}) as [Hc _].
  destruct Hc as [(_ & _ & Hct & _)|(opened & Hopen & Hplain)]; [vm_compute; reflexivity|done|].
  exists opened. destruct Hplain as [[_ <-]|(pk & sig & Hpk & _)]; [|done].
  split; [done|]. destruct Hopen as [Hopen|Hopen]; [exact Hopen|discriminate Hopen].
Defined.
