(* ===== verification/Messages.v ===== *)
(** The pieces every DATUM message is built from ([core/src/datum/messages.rs]):
    the subcommand it opens with, the 0xFE terminator, the errors of the
    encoders and decoders; and the [wire_codes!] enumerations
    ([core/src/datum/codes.rs]), which keep a code this build does not name. *)
From S2P Require Import Prelude Reader.

Definition STRUCT_END : Z := 0xfe.

Module server_subcmd.
Definition CONFIG : Z := 0x99.
Definition COINBASER : Z := 0x11.
Definition SHARE_RESPONSE : Z := 0x8f.
Definition BLOCKNOTIFY : Z := 0xf9.
Definition MIGRATION : Z := 0xa4.
End server_subcmd.

Module client_subcmd.
Definition COINBASER_REQUEST : Z := 0x10.
Definition SUBMIT_POW : Z := 0x27.
End client_subcmd.

Inductive Error :=
| ErrTruncated (t : Truncated)
| BadVersion (v : Z)
| BadFlags (v : Z)
| BadStatus (v : Z)
| BadSlot (v : Z)
| WrongMessage (want got : Z)
| BadTerminator
| Malformed (what : string)
| TooLong (field : string) (len : Z)
| OutOfRange (field : string) (len : Z)
| MinDifficultyNotPowerOfTwo (v : Z)
| PrimeIdTooWide (v : Z)
| SplitExceedsValue (total value : Z)
| BadExtranonceSize (v : Z)
| BadUsername
| BadMerkleCount (v : Z)
| UnknownSection (v : Z)
| BadBlake2bSection
| MissingBlake2bSection.

#[global] Instance Error_eq_dec : EqDecision Error.
Proof. solve_decision. Defined.
#[global] Instance Error_from : FromTruncated Error := ErrTruncated.

(** [open_message] as the first step of a decoder. *)
Definition open_message (subcmd : Z) : parser Error () :=
  got ← u8 "subcommand";
  require (got =? subcmd) (WrongMessage subcmd got).

Definition read_terminator : parser Error () :=
  b ← u8 "terminator";
  require (b =? STRUCT_END) BadTerminator.

Definition read_final_terminator : parser Error () :=
  _ ← read_terminator;
  c ← get_reader;
  require (at_end c) (Malformed "bytes after the terminator").

Definition BLOCKNOTIFY_MESSAGE : bytes := [zb server_subcmd.BLOCKNOTIFY].

Lemma open_message_ok subcmd f tl :
  uint 8 subcmd -> open_message subcmd (Rd f (zb subcmd :: tl)) = Ok ((), Rd f tl).
Proof.
  intros. unfold open_message. erewrite bind_ok by (by apply u8_ok).
  apply require_ok, Z.eqb_refl.
Qed.

Lemma read_terminator_ok f tl : read_terminator (Rd f (zb STRUCT_END :: tl)) = Ok ((), Rd f tl).
Proof. unfold read_terminator. by erewrite bind_ok by (by apply u8_ok). Qed.

Lemma read_final_terminator_ok f : read_final_terminator (Rd f [zb STRUCT_END]) = Ok ((), Rd f []).
Proof.
  unfold read_final_terminator. erewrite bind_ok by apply read_terminator_ok.
  by erewrite bind_ok by done.
Qed.

#[export] Hint Resolve open_message_ok read_terminator_ok read_final_terminator_ok : reader.

Lemma open_message_inv subcmd r u r2 :
  open_message subcmd r = Ok (u, r2) -> read_between r [zb subcmd] r2.
Proof.
  unfold open_message. intros Hr. apply bind_inv in Hr as (b & r1 & Hb & Hr).
  apply require_inv in Hr as [Heq ->]. apply Z.eqb_eq in Heq as ->. by apply u8_inv in Hb as [].
Qed.

Lemma read_terminator_inv r u r2 :
  read_terminator r = Ok (u, r2) -> read_between r [zb STRUCT_END] r2.
Proof.
  unfold read_terminator. intros Hr. apply bind_inv in Hr as (b & r1 & Hb & Hr).
  apply require_inv in Hr as [Heq ->]. apply Z.eqb_eq in Heq as ->. by apply u8_inv in Hb as [].
Qed.

Lemma read_final_terminator_inv r u r2 :
  read_final_terminator r = Ok (u, r2) -> read_between r [zb STRUCT_END] r2 /\ rest r2 = [].
Proof.
  unfold read_final_terminator. intros Hr. apply bind_inv in Hr as (? & r1 & Ht & Hr).
  apply bind_inv in Hr as (c & r3 & Hc & Hr). unfold get_reader in Hc. injection Hc as <- <-.
  apply require_inv in Hr as [Hend ->]. split; [by eapply read_terminator_inv|].
  by apply bool_decide_eq_true_1 in Hend.
Qed.

(** Inverts a decode of a message, its subcommand and terminators included. *)
Ltac minv1 :=
  match goal with
  | H : open_message _ _ = Ok _ |- _ => apply open_message_inv in H
  | H : read_terminator _ = Ok _ |- _ => apply read_terminator_inv in H
  | H : read_final_terminator _ = Ok _ |- _ => apply read_final_terminator_inv in H as [? ?]
  | _ => pinv1
  end.
Ltac minv := repeat minv1.

(** Chains the bytes a decode read, field by field. *)
Ltac chain_reads :=
  repeat match goal with
  | Hr : read_between ?r ?l ?r1, Hk : read_between ?r1 ?k ?r2 |- _ =>
      pose proof (read_between_trans r l r1 k r2 Hr Hk); clear Hr Hk
  end.
