(* ===== verification/ShareMsg.v ===== *)
(** The share a gateway submits ([core/src/datum/messages/share.rs]): the job,
    coinbase and BLAKE2b sections, the message's encoder and decoder, and the
    header both sides rebuild from it. *)
From S2P Require Import Prelude Reader Bitcoin Target Header Utf8 Messages.

Definition SECTION_JOB : Z := 0x01.
Definition SECTION_COINBASE : Z := 0x02.
Definition SECTION_BLAKE2B : Z := 0x03.
Definition SECTION_ABW_SLOT : Z := 0x05.
Definition BLAKE2B_ALGORITHM : Z := 0x01.
Definition BLAKE2B_TIME : Z := 0x04.
Definition FLAG_IS_BLOCK : Z := 0x01.
Definition FLAG_SUBSIDY_ONLY : Z := 0x02.
Definition FLAG_QUICKDIFF : Z := 0x04.
Definition FLAG_BLAKE2B : Z := 0x08.
Definition RESERVED_USE_TIME_OFFSET : Z := 0x01.
Definition EXTRANONCE_SIZE : nat := 12.
Definition HEADER_EXTRANONCE_SIZE : nat := 16.
Definition HEADER_EXTRANONCE_PAD : nat := HEADER_EXTRANONCE_SIZE - EXTRANONCE_SIZE.
Definition RESERVED_SIZE : nat := 4.
Definition COINBASE_ID_SUBSIDY_ONLY : Z := 0xff.
Definition MAX_JOBS : Z := 256.
Definition MAX_COINBASE_SECTION_LEN : Z := 32768.
Definition MAX_MERKLE_BRANCHES : Z := 24.
Definition MAX_USERNAME_LEN : nat := 384.
Definition TARGET_BYTE_PLACEHOLDER : Z := 0xff.
Definition SHARE_TARGET_BASE_BITS : Z := 32.

(** [abw::clear_bits]. *)
Definition clear_bits (target_byte : Z) : Z := Z.min (SHARE_TARGET_BASE_BITS + target_byte) 255.

Record CoinbaseSection := { coinbase_section_id : Z; coinb1 : bytes; coinb2 : bytes }.

Record JobSection := {
  prev_hash : bytes;
  target_byte_index : Z;
  nbits : bytes;
  coinbaser_id : Z;
  job_height : Z;
  coinbase_value : Z;
  txn_count : Z;
  txn_total_weight : Z;
  txn_total_size : Z;
  txn_total_sigops : Z;
  merkle_branches : list bytes;
}.

Record Blake2bSection := { sia_ntime : bytes; sia_nonce : bytes; section_time_on_wire : Z }.

Definition assemble (c : CoinbaseSection) (extranonce : bytes) : bytes :=
  coinb1 c ++ extranonce ++ coinb2 c.

(** [*tx.get_mut(i)? = v]. *)
Definition set_byte (tx : bytes) (i : Z) (v : Z) : option bytes :=
  if i <? zlen tx then Some (<[Z.to_nat i := zb v]> tx) else None.

Definition coinbase_tx (j : JobSection) (cb : CoinbaseSection) (target_byte : Z) : option bytes :=
  set_byte (assemble cb (zeros EXTRANONCE_SIZE)) (target_byte_index j) target_byte.

(** The header fields the job decides, the rest at their defaults. *)
Definition job_header (j : JobSection) (version time : Z) (merkle_root : bytes)
    (subsidy_only : bool) (target_byte : Z) (abw : bool) : option BlockHeaderV2 :=
  let tx_count := if subsidy_only then 1 else txn_count j + 1 in
  if 2 ^ 16 <=? tx_count then None else
  Some {| version := version; prev_block := prev_hash j; merkle_root := merkle_root; time := time;
          bits := le_val (nbits j); nonce := 0; nonce2 := 0; nonce3 := 0; extranonce := zeros 16;
          time_offset := 0; txcount := tx_count; flags := 0;
          xor_key_mask_clear_bits := if abw then clear_bits target_byte else 0;
          xor_key := zeros 16; height := as_i32 (job_height j); mm_rhs := zeros 32 |}.

Section root.
Context `{Digests}.
Definition job_merkle_root (j : JobSection) (coinbase_tx : bytes) (subsidy_only : bool) : bytes :=
  merkle_root_from_branches (sha256d coinbase_tx)
    (if subsidy_only then [] else merkle_branches j).
End root.

Definition header_extranonce (extranonce : bytes) : bytes := zeros HEADER_EXTRANONCE_PAD ++ extranonce.

Definition share_extranonce (field : bytes) : option bytes :=
  if bool_decide (take HEADER_EXTRANONCE_PAD field = zeros HEADER_EXTRANONCE_PAD)
  then Some (drop HEADER_EXTRANONCE_PAD field) else None.

Definition sia_halves (field : bytes) : Z * Z :=
  (le_val (take SIA_WORD_LEN field), le_val (drop SIA_WORD_LEN field)).

(** [set_sia_fields]: the header with the sia words written. *)
Definition set_sia_fields (h : BlockHeaderV2) (sia_ntime sia_nonce : bytes) : BlockHeaderV2 :=
  let '(n, n2) := sia_halves sia_nonce in
  let '(off, n3) := sia_halves sia_ntime in
  {| version := version h; prev_block := prev_block h; merkle_root := merkle_root h; time := time h;
     bits := bits h; nonce := n; nonce2 := n2; nonce3 := n3; extranonce := extranonce h;
     time_offset := off; txcount := txcount h; flags := flags h;
     xor_key_mask_clear_bits := xor_key_mask_clear_bits h; xor_key := xor_key h;
     height := height h; mm_rhs := mm_rhs h |}.

Definition blake2b_from_header (h : BlockHeaderV2) : Blake2bSection :=
  {| sia_ntime := sia_words (time_offset h) (nonce3 h);
     sia_nonce := sia_words (nonce h) (nonce2 h);
     section_time_on_wire := time_on_wire h |}.

(** ** Sections *)

Definition decode_job_section : parser Error JobSection :=
  prev_hash ← arr 32 "prev hash";
  target_byte_index ← u16 "target byte index";
  nbits ← arr 4 "nbits";
  coinbaser_id ← u8 "coinbaser id";
  height ← u32 "height";
  coinbase_value ← u64 "coinbase value";
  txn_count ← u32 "txn count";
  txn_total_weight ← u32 "txn weight";
  txn_total_size ← u32 "txn size";
  txn_total_sigops ← u32 "txn sigops";
  n ← u8 "merkle count";
  _ ← require (negb (MAX_MERKLE_BRANCHES <? n)) (BadMerkleCount n);
  merkle_branches ← parse_n n (arr 32 "merkle branch");
  mret {| prev_hash := prev_hash; target_byte_index := target_byte_index; nbits := nbits;
          coinbaser_id := coinbaser_id; job_height := height; coinbase_value := coinbase_value;
          txn_count := txn_count; txn_total_weight := txn_total_weight;
          txn_total_size := txn_total_size; txn_total_sigops := txn_total_sigops;
          merkle_branches := merkle_branches |}.

Definition encode_job_section (j : JobSection) : bytes :=
  [zb SECTION_JOB] ++ prev_hash j ++ le 2 (target_byte_index j) ++ nbits j ++
  [zb (coinbaser_id j)] ++ le 4 (job_height j) ++ le 8 (coinbase_value j) ++
  le 4 (txn_count j) ++ le 4 (txn_total_weight j) ++ le 4 (txn_total_size j) ++
  le 4 (txn_total_sigops j) ++ [zb (zlen (merkle_branches j))] ++ mjoin (merkle_branches j).

Definition decode_coinbase_section : parser Error CoinbaseSection :=
  coinbase_id ← u8 "coinbase section id";
  len1 ← u16 "coinb1 len";
  len2 ← u16 "coinb2 len";
  coinb1 ← take_bytes len1 "coinb1";
  coinb2 ← take_bytes len2 "coinb2";
  mret {| coinbase_section_id := coinbase_id; coinb1 := coinb1; coinb2 := coinb2 |}.

(** [put_u16_le(len as u16)] truncates a longer part's length, as [le 2] does. *)
Definition encode_coinbase_section (c : CoinbaseSection) : bytes :=
  [zb SECTION_COINBASE] ++ [zb (coinbase_section_id c)] ++ le 2 (zlen (coinb1 c)) ++
  le 2 (zlen (coinb2 c)) ++ coinb1 c ++ coinb2 c.

Definition decode_blake2b_section : parser Error Blake2bSection :=
  algorithm ← u8 "algorithm";
  _ ← require (algorithm =? BLAKE2B_ALGORITHM) BadBlake2bSection;
  sia_ntime ← arr SIA_WORDS_LEN "sia ntime";
  sia_nonce ← arr SIA_WORDS_LEN "sia nonce";
  marker ← u8 "time marker";
  _ ← require (marker =? BLAKE2B_TIME) BadBlake2bSection;
  time_on_wire ← u32 "time on wire";
  mret {| sia_ntime := sia_ntime; sia_nonce := sia_nonce; section_time_on_wire := time_on_wire |}.

Definition encode_blake2b_section (b : Blake2bSection) : bytes :=
  [zb SECTION_BLAKE2B] ++ [zb BLAKE2B_ALGORITHM] ++ sia_ntime b ++ sia_nonce b ++
  [zb BLAKE2B_TIME] ++ le 4 (section_time_on_wire b).

(** ** The message *)

Record SharePrefix := {
  prefix_job_id : Z;
  prefix_coinbase_id : Z;
  prefix_flags : Z;
  prefix_target_byte : Z;
  prefix_ntime : Z;
  prefix_nonce : Z;
}.

Definition SharePrefix_default : SharePrefix :=
  {| prefix_job_id := 0; prefix_coinbase_id := 0; prefix_flags := 0;
     prefix_target_byte := TARGET_BYTE_PLACEHOLDER; prefix_ntime := 0; prefix_nonce := 0 |}.

Definition read_prefix : parser Error SharePrefix :=
  _ ← open_message client_subcmd.SUBMIT_POW;
  job_id ← u8 "job id";
  coinbase_id ← u8 "coinbase id";
  flags ← u8 "flags";
  target_byte ← u8 "target byte";
  ntime ← u32 "ntime";
  nonce ← u32 "nonce";
  mret {| prefix_job_id := job_id; prefix_coinbase_id := coinbase_id; prefix_flags := flags;
          prefix_target_byte := target_byte; prefix_ntime := ntime; prefix_nonce := nonce |}.

Record PowSubmit := {
  job_id : Z;
  coinbase_id : Z;
  is_block : bool;
  subsidy_only : bool;
  quickdiff : bool;
  target_byte : Z;
  ntime : Z;
  share_nonce : Z;
  share_version : Z;
  share_extranonce_field : bytes;
  username : bytes;
  use_time_offset : bool;
  job : option JobSection;
  coinbase : option CoinbaseSection;
  blake2b : Blake2bSection;
  abw_slot : option Z;
}.

Definition difficulty (p : PowSubmit) : Z := difficulty_for_exponent (target_byte p).

Definition block_time (p : PowSubmit) : Z :=
  let b := blake2b p in
  if use_time_offset p
  then wrap 32 (section_time_on_wire b + fst (sia_halves (sia_ntime b)))
  else section_time_on_wire b.

Definition share_header (p : PowSubmit) (j : JobSection) (merkle_root : bytes)
    (abw_key : option bytes) : option BlockHeaderV2 :=
  h ← job_header j (as_i32 (Z.land (share_version p) (lnot 32 V2_FLAG))) (block_time p) merkle_root
    (subsidy_only p) (target_byte p) (is_some abw_key);
  let h := set_sia_fields h (sia_ntime (blake2b p)) (sia_nonce (blake2b p)) in
  Some {| version := version h; prev_block := prev_block h; Header.merkle_root := Header.merkle_root h;
          time := time h; bits := bits h; nonce := nonce h; nonce2 := nonce2 h; nonce3 := nonce3 h;
          extranonce := header_extranonce (share_extranonce_field p);
          time_offset := time_offset h; txcount := txcount h;
          flags := if use_time_offset p then FLAG_USE_TIME_OFFSET else flags h;
          xor_key_mask_clear_bits := xor_key_mask_clear_bits h;
          xor_key := default (zeros 16) abw_key; height := height h; mm_rhs := mm_rhs h |}.

Definition prefix (data : bytes) : option SharePrefix := ok (parse_all read_prefix data).

(** The sections read so far; a repeated section replaces the earlier one. *)
Record Sections := {
  s_job : option JobSection;
  s_coinbase : option CoinbaseSection;
  s_blake2b : option Blake2bSection;
  s_abw_slot : option Z;
}.
Definition no_sections : Sections :=
  {| s_job := None; s_coinbase := None; s_blake2b := None; s_abw_slot := None |}.

(** The loop over sections. Every turn reads its marker, so the bytes left and
    one are fuel enough: running out of fuel is running out of bytes. *)
Fixpoint decode_sections (fuel : nat) (s : Sections) : parser Error Sections :=
  match fuel with
  | O => fail (ErrTruncated (TruncatedAt "section marker"))
  | S fuel =>
    marker ← u8 "section marker";
    if marker =? STRUCT_END then mret s
    else if marker =? SECTION_JOB then
      j ← decode_job_section;
      decode_sections fuel {| s_job := Some j; s_coinbase := s_coinbase s;
                              s_blake2b := s_blake2b s; s_abw_slot := s_abw_slot s |}
    else if marker =? SECTION_COINBASE then
      c ← decode_coinbase_section;
      decode_sections fuel {| s_job := s_job s; s_coinbase := Some c;
                              s_blake2b := s_blake2b s; s_abw_slot := s_abw_slot s |}
    else if marker =? SECTION_ABW_SLOT then
      a ← u8 "abw slot";
      decode_sections fuel {| s_job := s_job s; s_coinbase := s_coinbase s;
                              s_blake2b := s_blake2b s; s_abw_slot := Some a |}
    else if marker =? SECTION_BLAKE2B then
      b ← decode_blake2b_section;
      decode_sections fuel {| s_job := s_job s; s_coinbase := s_coinbase s;
                              s_blake2b := Some b; s_abw_slot := s_abw_slot s |}
    else fail (UnknownSection marker)
  end.

(** The bytes before the first NUL of at most [MAX_USERNAME_LEN] of them. *)
Definition read_username : parser Error bytes :=
  c ← get_reader;
  let rest := rest c in
  nul ← lift (ok_or BadUsername (position (fun b => bz b =? 0) (take (MAX_USERNAME_LEN + 1) rest)));
  _ ← advance (Z.of_nat nul + 1) "username";
  mret (from_utf8_lossy (take nul rest)).

Definition decode_share : parser Error PowSubmit :=
  p ← read_prefix;
  version ← u32 "version";
  en_size ← u8 "extranonce size";
  _ ← require (en_size =? Z.of_nat EXTRANONCE_SIZE) (BadExtranonceSize en_size);
  extranonce ← arr EXTRANONCE_SIZE "extranonce";
  username ← read_username;
  reserved ← take_bytes (Z.of_nat RESERVED_SIZE) "reserved";
  let use_time_offset := has_bits (bz (default (zb 0) (head reserved))) RESERVED_USE_TIME_OFFSET in
  c ← get_reader;
  s ← decode_sections (S (length (rest c))) no_sections;
  blake2b ← lift (ok_or MissingBlake2bSection (s_blake2b s));
  mret {| job_id := prefix_job_id p; coinbase_id := prefix_coinbase_id p;
          is_block := has_bits (prefix_flags p) FLAG_IS_BLOCK;
          subsidy_only := has_bits (prefix_flags p) FLAG_SUBSIDY_ONLY;
          quickdiff := has_bits (prefix_flags p) FLAG_QUICKDIFF;
          target_byte := prefix_target_byte p; ntime := prefix_ntime p;
          share_nonce := prefix_nonce p; share_version := version;
          share_extranonce_field := extranonce; username := username;
          use_time_offset := use_time_offset; job := s_job s; coinbase := s_coinbase s;
          blake2b := blake2b; abw_slot := s_abw_slot s |}.

Definition decode (data : bytes) : result Error PowSubmit := parse_all decode_share data.

Definition flag (set : bool) (bit : Z) : Z := if set then bit else 0.

Definition encode (p : PowSubmit) : bytes :=
  [zb client_subcmd.SUBMIT_POW] ++ [zb (job_id p)] ++ [zb (coinbase_id p)] ++
  [zb (Z.lor (Z.lor (Z.lor (flag (is_block p) FLAG_IS_BLOCK)
         (flag (subsidy_only p) FLAG_SUBSIDY_ONLY)) (flag (quickdiff p) FLAG_QUICKDIFF))
         FLAG_BLAKE2B)] ++
  [zb (target_byte p)] ++ le 4 (ntime p) ++ le 4 (share_nonce p) ++ le 4 (share_version p) ++
  [zb (Z.of_nat EXTRANONCE_SIZE)] ++ share_extranonce_field p ++ username p ++ [zb 0] ++
  [zb (if use_time_offset p then RESERVED_USE_TIME_OFFSET else 0)] ++ zeros (RESERVED_SIZE - 1) ++
  encode_blake2b_section (blake2b p) ++
  match abw_slot p with Some slot => [zb SECTION_ABW_SLOT] ++ [zb slot] | None => [] end ++
  match job p with Some j => encode_job_section j | None => [] end ++
  match coinbase p with Some c => encode_coinbase_section c | None => [] end ++
  [zb STRUCT_END].

(** ** Reading a share back *)

Record job_wf (j : JobSection) : Prop := {
  wf_prev_hash : length (prev_hash j) = 32%nat;
  wf_target_byte_index : uint 16 (target_byte_index j);
  wf_nbits : length (nbits j) = 4%nat;
  wf_coinbaser_id : uint 8 (coinbaser_id j);
  wf_job_height : uint 32 (job_height j);
  wf_coinbase_value : uint 64 (coinbase_value j);
  wf_txn_count : uint 32 (txn_count j);
  wf_txn_total_weight : uint 32 (txn_total_weight j);
  wf_txn_total_size : uint 32 (txn_total_size j);
  wf_txn_total_sigops : uint 32 (txn_total_sigops j);
  wf_branch_count : zlen (merkle_branches j) <= MAX_MERKLE_BRANCHES;
  wf_branches : Forall (fun b => length b = 32%nat) (merkle_branches j);
}.

Record coinbase_section_wf (c : CoinbaseSection) : Prop := {
  wf_coinbase_section_id : uint 8 (coinbase_section_id c);
  wf_coinb1 : uint 16 (zlen (coinb1 c));
  wf_coinb2 : uint 16 (zlen (coinb2 c));
}.

Record blake2b_wf (b : Blake2bSection) : Prop := {
  wf_sia_ntime : length (sia_ntime b) = SIA_WORDS_LEN;
  wf_sia_nonce : length (sia_nonce b) = SIA_WORDS_LEN;
  wf_section_time : uint 32 (section_time_on_wire b);
}.

Record share_wf (p : PowSubmit) : Prop := {
  wf_job_id : uint 8 (job_id p);
  wf_coinbase_id : uint 8 (coinbase_id p);
  wf_target_byte : uint 8 (target_byte p);
  wf_ntime : uint 32 (ntime p);
  wf_share_nonce : uint 32 (share_nonce p);
  wf_share_version : uint 32 (share_version p);
  wf_share_extranonce : length (share_extranonce_field p) = EXTRANONCE_SIZE;
  wf_username_utf8 : valid_utf8 (username p) = true;
  wf_username_no_nul : zb 0 ∉ username p;
  wf_username_length : (length (username p) <= MAX_USERNAME_LEN)%nat;
  wf_job : forall j, job p = Some j -> job_wf j;
  wf_coinbase : forall c, coinbase p = Some c -> coinbase_section_wf c;
  wf_blake2b : blake2b_wf (blake2b p);
  wf_abw_slot : forall a, abw_slot p = Some a -> uint 8 a;
}.

#[export] Hint Resolve wf_prev_hash wf_target_byte_index wf_nbits wf_coinbaser_id wf_job_height
  wf_coinbase_value wf_txn_count wf_txn_total_weight wf_txn_total_size wf_txn_total_sigops
  wf_coinbase_section_id wf_coinb1 wf_coinb2 wf_sia_ntime wf_sia_nonce wf_section_time
  wf_job_id wf_coinbase_id wf_target_byte wf_ntime wf_share_nonce wf_share_version
  wf_share_extranonce : reader.

Lemma decode_job_section_ok j f tl :
  job_wf j -> decode_job_section (Rd f (drop 1 (encode_job_section j) ++ tl)) = Ok (j, Rd f tl).
Proof.
  intros Hwf. pose proof Hwf as [_ _ _ _ _ _ _ _ _ _ Hcount Hbr].
  unfold encode_job_section. cbn [app drop]. change (drop 0 ?x) with x. flat_app.
  unfold decode_job_section. do 3 parse_step. parse_u8. do 6 parse_step.
  pose proof (zlen_nonneg (merkle_branches j)). unfold MAX_MERKLE_BRANCHES in *. parse_u8.
  rewrite (proj2 (Z.ltb_ge 24 _)) by lia. parse_step.
  rewrite <- (list_fmap_id (merkle_branches j)) at 2.
  erewrite bind_ok; cycle 1.
  { apply (parse_n_ok _ id). intros b f' tl' Hb. apply arr_ok. by eapply Forall_forall in Hbr. }
  cbn beta. by destruct j.
Qed.

Lemma decode_coinbase_section_ok c f tl :
  coinbase_section_wf c ->
  decode_coinbase_section (Rd f (drop 1 (encode_coinbase_section c) ++ tl)) = Ok (c, Rd f tl).
Proof.
  intros Hwf. unfold encode_coinbase_section. cbn [app drop].
  change (drop 0 ?x) with x. flat_app.
  unfold decode_coinbase_section. parse_u8. parse. by destruct c.
Qed.

Lemma decode_blake2b_section_ok b f tl :
  blake2b_wf b ->
  decode_blake2b_section (Rd f (drop 1 (encode_blake2b_section b) ++ tl)) = Ok (b, Rd f tl).
Proof.
  intros Hwf. unfold encode_blake2b_section. cbn [app drop].
  change (drop 0 ?x) with x. flat_app.
  unfold decode_blake2b_section. parse_u8. parse_step. do 2 parse_step.
  parse_u8. parse_step. parse_step. by destruct b.
Qed.

(** One turn of the loop over sections. *)
Lemma decode_sections_step {A} fuel s marker (p : parser Error A) (next : A -> Sections) f body a tl :
  uint 8 marker ->
  (forall r, decode_sections (S fuel) s (Rd f (zb marker :: r)) =
     (x ← p; decode_sections fuel (next x)) (Rd f r)) ->
  p (Rd f (body ++ tl)) = Ok (a, Rd f tl) ->
  decode_sections (S fuel) s (Rd f (zb marker :: body ++ tl)) =
  decode_sections fuel (next a) (Rd f tl).
Proof. intros Hm Hstep Hp. rewrite Hstep. by erewrite bind_ok by exact Hp. Qed.

(** The three optional sections that follow the BLAKE2b section. *)
Definition tail_sections (p : PowSubmit) : bytes :=
  match abw_slot p with Some slot => [zb SECTION_ABW_SLOT] ++ [zb slot] | None => [] end ++
  match job p with Some j => encode_job_section j | None => [] end ++
  match coinbase p with Some c => encode_coinbase_section c | None => [] end ++
  [zb STRUCT_END].

Lemma decode_sections_end fuel s f :
  decode_sections (S fuel) s (Rd f [zb STRUCT_END]) = Ok (s, Rd f []).
Proof. cbn [decode_sections]. by erewrite bind_ok by (by apply u8_ok). Qed.

Lemma encode_job_section_cons j :
  encode_job_section j = zb SECTION_JOB :: drop 1 (encode_job_section j).
Proof. done. Qed.
Lemma encode_coinbase_section_cons c :
  encode_coinbase_section c = zb SECTION_COINBASE :: drop 1 (encode_coinbase_section c).
Proof. done. Qed.
Lemma encode_blake2b_section_cons b :
  encode_blake2b_section b = zb SECTION_BLAKE2B :: drop 1 (encode_blake2b_section b).
Proof. done. Qed.

#[local] Ltac section_marker :=
  intros r; cbn [decode_sections]; erewrite bind_ok by (by apply u8_ok);
  cbn [Z.eqb Pos.eqb STRUCT_END SECTION_JOB SECTION_COINBASE SECTION_ABW_SLOT SECTION_BLAKE2B].

Lemma decode_sections_share p fuel f :
  share_wf p -> (4 <= fuel)%nat ->
  decode_sections (S fuel) no_sections
    (Rd f (encode_blake2b_section (blake2b p) ++ tail_sections p)) =
  Ok ({| s_job := job p; s_coinbase := coinbase p; s_blake2b := Some (blake2b p);
         s_abw_slot := abw_slot p |}, Rd f []).
Proof.
  intros [_ _ _ _ _ _ _ _ _ _ Hjob Hcb Hblake Habw] Hfuel.
  rewrite encode_blake2b_section_cons. cbn [app].
  erewrite decode_sections_step; [|done|section_marker; reflexivity|by apply decode_blake2b_section_ok].
  cbn [no_sections s_job s_coinbase s_blake2b s_abw_slot]. unfold tail_sections.
  assert (forall fuel s, (3 <= fuel)%nat -> decode_sections fuel s
    (Rd f (match job p with Some j => encode_job_section j | None => [] end ++
           match coinbase p with Some c => encode_coinbase_section c | None => [] end ++
           [zb STRUCT_END])) =
    Ok ({| s_job := default (s_job s) (Some <$> job p);
           s_coinbase := default (s_coinbase s) (Some <$> coinbase p);
           s_blake2b := s_blake2b s; s_abw_slot := s_abw_slot s |}, Rd f [])) as Htail.
  { assert (forall fuel s, (2 <= fuel)%nat -> decode_sections fuel s
      (Rd f (match coinbase p with Some c => encode_coinbase_section c | None => [] end ++
             [zb STRUCT_END])) =
      Ok ({| s_job := s_job s; s_coinbase := default (s_coinbase s) (Some <$> coinbase p);
             s_blake2b := s_blake2b s; s_abw_slot := s_abw_slot s |}, Rd f [])) as Hc.
    { intros [|[|k]] s Hk; try lia. destruct (coinbase p) as [c|].
      - rewrite encode_coinbase_section_cons. cbn [app].
        erewrite decode_sections_step;
          [|done|section_marker; reflexivity|apply decode_coinbase_section_ok; by apply Hcb].
        apply decode_sections_end.
      - cbn [app]. rewrite decode_sections_end. by destruct s. }
    intros [|k] s Hk; try lia. destruct (job p) as [j|].
    - rewrite encode_job_section_cons. cbn [app].
      erewrite decode_sections_step;
        [|done|section_marker; reflexivity|apply decode_job_section_ok; by apply Hjob].
      rewrite Hc by lia. done.
    - cbn [app]. by rewrite Hc by lia. }
  destruct (abw_slot p) as [a|].
  - cbn [app]. destruct fuel as [|fuel]; [lia|].
    change (zb SECTION_ABW_SLOT :: zb a :: ?x) with (zb SECTION_ABW_SLOT :: [zb a] ++ x).
    erewrite (decode_sections_step _ _ _ _ _ _ [zb a] a);
      [|done|section_marker; reflexivity|cbn [app]; apply u8_ok; by apply Habw].
    rewrite Htail by lia. by destruct (job p), (coinbase p).
  - cbn [app]. rewrite Htail by lia. by destruct (job p), (coinbase p).
Qed.

Lemma read_username_ok u f tl :
  valid_utf8 u = true -> zb 0 ∉ u -> (length u <= MAX_USERNAME_LEN)%nat ->
  read_username (Rd f (u ++ zb 0 :: tl)) = Ok (u, Rd f tl).
Proof.
  intros Hv Hnul Hlen. unfold read_username. erewrite bind_ok by done. cbn [rest].
  assert (position (fun b => bz b =? 0) (take (MAX_USERNAME_LEN + 1) (u ++ zb 0 :: tl)) =
    Some (length u)) as ->.
  { rewrite take_app, (take_ge u) by lia.
    replace (MAX_USERNAME_LEN + 1 - length u)%nat with (S (MAX_USERNAME_LEN - length u)) by lia.
    cbn [take]. apply position_app_first; [|done]. apply Forall_forall. intros y Hy.
    apply Z.eqb_neq. intros H0. change 0 with (bz (zb 0)) in H0. apply bz_inj in H0 as ->. done. }
  erewrite bind_ok by done. cbn beta.
  erewrite bind_ok; cycle 1.
  { change (u ++ zb 0 :: tl) with (u ++ [zb 0] ++ tl). rewrite app_assoc.
    apply advance_ok. rewrite zlen_app. unfold zlen. cbn [length]. lia. }
  cbn beta. unfold mret, parser_ret. rewrite take_app_length. by rewrite from_utf8_lossy_valid.
Qed.

Lemma share_flags a b c :
  let v := Z.lor (Z.lor (Z.lor (flag a FLAG_IS_BLOCK) (flag b FLAG_SUBSIDY_ONLY))
    (flag c FLAG_QUICKDIFF)) FLAG_BLAKE2B in
  uint 8 v /\ has_bits v FLAG_IS_BLOCK = a /\ has_bits v FLAG_SUBSIDY_ONLY = b /\
  has_bits v FLAG_QUICKDIFF = c.
Proof. by destruct a, b, c. Qed.

(** a share the gateway encodes is the share the pool decodes: every field,
    the flags, the username, and whichever of the job, coinbase and slot sections
    it carries. *)
Theorem share_roundtrip (p : PowSubmit) : share_wf p -> decode (encode p) = Ok p.
Proof.
  intros Hwf. unfold decode, parse_all, new_reader. set (f := encode p) at 1. clearbody f.
  unfold encode. fold (tail_sections p). cbn [app].
  destruct (share_flags (is_block p) (subsidy_only p) (quickdiff p)) as (Hf & Hb & Hs & Hq).
  set (v := Z.lor _ FLAG_BLAKE2B) in *. clearbody v.
  pose proof Hwf as [_ _ _ _ _ _ _ Hutf Hnul Hlen _ _ _ _].
  unfold decode_share, read_prefix.
  erewrite bind_ok; cycle 1.
  { erewrite bind_ok by (by apply open_message_ok). cbn beta.
    parse_u8. parse_u8. erewrite bind_ok by (by apply u8_ok). cbn beta. parse_u8.
    flat_app. parse_step. parse_step. done. }
  cbn beta. parse_step. parse_u8. parse_step. parse_step.
  erewrite bind_ok by (by apply read_username_ok). cbn beta.
  change (zb (if use_time_offset p then _ else _) :: zeros (RESERVED_SIZE - 1) ++ ?x)
    with ((zb (if use_time_offset p then RESERVED_USE_TIME_OFFSET else 0) :: zeros (RESERVED_SIZE - 1)) ++ x).
  erewrite bind_ok by (by apply take_ok). cbn beta zeta.
  erewrite bind_ok by done. cbn beta. cbn [rest].
  erewrite bind_ok; cycle 1.
  { apply (decode_sections_share p _ _ Hwf).
    unfold encode_blake2b_section. rewrite !length_app, length_le. cbn [length]. lia. }
  cbn beta. cbn [s_blake2b s_job s_coinbase s_abw_slot ok_or].
  erewrite bind_ok by done. cbn beta. unfold mret, parser_ret. cbn [fmap result_fmap fst].
  cbn [prefix_job_id prefix_coinbase_id prefix_flags prefix_target_byte prefix_ntime prefix_nonce].
  rewrite Hb, Hs, Hq. destruct p. cbn. f_equal. f_equal. by case_match.
Qed.

(** ** The header both sides hash *)

(** A header of a job with what a miner found written in. *)
Definition mined_header (h : BlockHeaderV2) (n n2 n3 offset : Z) (en : bytes)
    (use_offset : bool) (key : bytes) : BlockHeaderV2 :=
  {| version := version h; prev_block := prev_block h; Header.merkle_root := Header.merkle_root h;
     time := time h; bits := bits h; nonce := n; nonce2 := n2; nonce3 := n3;
     extranonce := header_extranonce en; time_offset := offset; txcount := txcount h;
     flags := if use_offset then FLAG_USE_TIME_OFFSET else 0;
     xor_key_mask_clear_bits := xor_key_mask_clear_bits h; xor_key := key;
     height := height h; mm_rhs := mm_rhs h |}.

Lemma sia_halves_words a b : uint 32 a -> uint 32 b -> sia_halves (sia_words a b) = (a, b).
Proof.
  intros Ha Hb. unfold sia_halves, sia_words.
  rewrite take_length_app, drop_length_app by apply length_le.
  by rewrite !le_val_le_small.
Qed.

(** the pool rebuilds from a share the very header the gateway's miner
    hashed: for every job, nonce, extranonce, time offset and slot key, the
    BLAKE2b section taken off the mined header and the share's other fields give
    that header back, so both sides reach the same proof-of-work hash. *)
Theorem share_header_rebuilt (p : PowSubmit) (j : JobSection) (v t : Z) (mr : bytes)
    (key : option bytes) (h : BlockHeaderV2) (n n2 n3 offset : Z) :
  0 <= v < 2 ^ 31 -> uint 32 t -> uint 32 n -> uint 32 n2 -> uint 32 n3 -> uint 32 offset ->
  job_header j v t mr (subsidy_only p) (target_byte p) (is_some key) = Some h ->
  let m := mined_header h n n2 n3 offset (share_extranonce_field p) (use_time_offset p)
             (default (zeros 16) key) in
  Z.land (share_version p) (lnot 32 V2_FLAG) = v ->
  blake2b p = blake2b_from_header m ->
  share_header p j mr key = Some m.
Proof.
  intros Hv Ht Hn Hn2 Hn3 Hoff Hjob m Hver Hblake. unfold share_header. rewrite Hver.
  rewrite as_i32_small by done.
  assert (time h = t) as Htime.
  { unfold job_header in Hjob. destruct (2 ^ 16 <=? _); [done|]. by injection Hjob as <-. }
  assert (block_time p = t) as ->.
  { unfold block_time. rewrite Hblake. unfold blake2b_from_header. cbn [sia_ntime section_time_on_wire].
    rewrite sia_halves_words by done. cbn [fst]. unfold time_on_wire, m, mined_header.
    cbn [flags time time_offset]. destruct (use_time_offset p).
    - change (Z.land FLAG_USE_TIME_OFFSET FLAG_USE_TIME_OFFSET =? 0) with false. cbn iota.
      rewrite Htime. by apply time_wire_back.
    - exact Htime. }
  rewrite Hjob. cbn [mbind option_bind]. rewrite Hblake. unfold blake2b_from_header, set_sia_fields.
  cbn [sia_ntime sia_nonce]. rewrite !sia_halves_words by done. unfold m, mined_header.
  cbn [version prev_block Header.merkle_root time bits nonce nonce2 nonce3 extranonce time_offset
    txcount flags xor_key_mask_clear_bits xor_key height mm_rhs].
  assert (flags h = 0) as ->; [|done].
  unfold job_header in Hjob. destruct (2 ^ 16 <=? _); [done|]. by injection Hjob as <-.
Qed.

(** ** A share that re-encodes to one the decoder refuses

    The lossy conversion of a username writes three bytes for each it replaces,
    so a username within the limit may leave it. *)

Definition example_blake2b : Blake2bSection :=
  {| sia_ntime := sia_words 600 3; sia_nonce := sia_words 1 2; section_time_on_wire := 77 |}.

Definition example_job : JobSection :=
  {| prev_hash := le 32 7; target_byte_index := 50; nbits := le 4 0x1d00ffff; coinbaser_id := 3;
     job_height := 100; coinbase_value := 5000000000; txn_count := 4; txn_total_weight := 800;
     txn_total_size := 200; txn_total_sigops := 4; merkle_branches := [le 32 1; le 32 2] |}.

Definition example_share : PowSubmit :=
  {| job_id := 1; coinbase_id := 2; is_block := false; subsidy_only := false; quickdiff := true;
     target_byte := 4; ntime := 77; share_nonce := 1; share_version := V2_FLAG + 0x20000000;
     share_extranonce_field := le 12 9; username := zb <$> [0x62; 0x2e; 0x77];
     use_time_offset := true; job := Some example_job;
     coinbase := Some {| coinbase_section_id := 2; coinb1 := le 60 1; coinb2 := le 9 2 |};
     blake2b := example_blake2b; abw_slot := Some 3 |}.

Lemma example_share_wf : share_wf example_share.
Proof.
  constructor; try (by vm_compute).
  - apply (bool_decide_unpack _). by vm_compute.
  - apply Nat.leb_le. by vm_compute.
  - intros j [= <-]. constructor; try (by vm_compute). by repeat constructor.
  - intros c [= <-]. constructor; by vm_compute.
  - by intros a [= <-].
Defined.

Lemma share_roundtrip_witness : decode (encode example_share) = Ok example_share.
Proof. apply share_roundtrip, example_share_wf. Defined.

Lemma share_header_rebuilt_witness : exists h,
  job_header example_job 0x20000000 677 (le 32 5) false 4 false = Some h /\
  share_header example_share example_job (le 32 5) None =
  Some (mined_header h 1 2 3 600 (le 12 9) true (zeros 16)).
Proof.
  eexists. split; [vm_compute; reflexivity|].
  by apply (share_header_rebuilt example_share example_job 0x20000000 677 (le 32 5) None).
Defined.

(** The share of the example with a username of [n] bytes 0xff, as it arrives. *)
Definition invalid_username_wire (n : nat) : bytes :=
  let w := encode {| job_id := 1; coinbase_id := 2; is_block := false; subsidy_only := false;
    quickdiff := false; target_byte := 4; ntime := 77; share_nonce := 1; share_version := 0;
    share_extranonce_field := zeros 12; username := replicate n (zb 0xff);
    use_time_offset := false; job := None; coinbase := None; blake2b := example_blake2b;
    abw_slot := None |} in w.

(** Re-encoding a decoded share is not always a fixed point: a share whose
    username holds 129 ill-formed bytes decodes, and what it re-encodes to is
    refused, its username having grown past the limit. *)
Theorem share_reencode_refused :
  match decode (invalid_username_wire 129) with
  | Ok p => (length (username p) = 387)%nat /\ decode (encode p) = Err BadUsername
  | Err _ => False
  end.
Proof. by vm_compute. Qed.
