(* ===== verification/Coinbaser.v ===== *)
(** The coinbaser exchange ([core/src/datum/messages/coinbaser.rs]): the request
    for a split of a value on a tip, and the outputs the pool answers with. *)
From S2P Require Import Prelude Reader Bitcoin Transaction Messages.

Definition MAX_COINBASER_BLOB_LEN : Z := 65535.
Definition MIN_COINBASER_OUTPUT_SCRIPT_LEN : Z := 2.
Definition MAX_COINBASER_OUTPUT_SCRIPT_LEN : Z := 64.
Definition MAX_COINBASER_OUTPUTS : Z := 1024.

Record CoinbaserRequest := { request_value : Z; request_prev_hash : bytes }.

Definition decode_coinbaser_request_from : parser Error CoinbaserRequest :=
  _ ← open_message client_subcmd.COINBASER_REQUEST;
  value ← u64 "value";
  prev_hash ← arr 32 "prev hash";
  _ ← read_terminator;
  mret {| request_value := value; request_prev_hash := prev_hash |}.

Definition decode_coinbaser_request (data : bytes) : result Error CoinbaserRequest :=
  parse_all decode_coinbaser_request_from data.

Definition encode_coinbaser_request (r : CoinbaserRequest) : bytes :=
  [zb client_subcmd.COINBASER_REQUEST] ++ le 8 (request_value r) ++ request_prev_hash r ++
  [zb STRUCT_END].

Record CoinbaserResponse := {
  response_value : Z;
  response_coinbaser_id : Z;
  response_outputs : list TxOut;
}.

(** The loop of [encode] over the outputs: the blob and the saturating total. *)
Fixpoint encode_outputs (outputs : list TxOut) (blob : bytes) (total : Z)
    : result Error (bytes * Z) :=
  match outputs with
  | [] => Ok (blob, total)
  | o :: outputs =>
    let len := zlen (script_pubkey o) in
    _ ← ensure (negb ((len <? MIN_COINBASER_OUTPUT_SCRIPT_LEN) ||
                      (MAX_COINBASER_OUTPUT_SCRIPT_LEN <? len))) (OutOfRange "output script" len);
    encode_outputs outputs (blob ++ le 8 (value o) ++ [zb len] ++ script_pubkey o)
      (sat_add 64 total (value o))
  end.

Definition encode_coinbaser_response (r : CoinbaserResponse) : result Error bytes :=
  _ ← ensure (negb (MAX_COINBASER_OUTPUTS <? zlen (response_outputs r)))
        (TooLong "coinbaser outputs" (zlen (response_outputs r)));
  '(blob, total) ← encode_outputs (response_outputs r) [zb (response_coinbaser_id r)] 0;
  _ ← ensure (negb (response_value r <? total)) (SplitExceedsValue total (response_value r));
  _ ← ensure (negb (MAX_COINBASER_BLOB_LEN <? zlen blob)) (TooLong "coinbaser blob" (zlen blob));
  Ok ([zb server_subcmd.COINBASER] ++ le 8 (response_value r) ++ le 4 (zlen blob) ++ blob).

(** The loop of [decode] over the blob. Every turn that continues reads bytes,
    so the blob's length and one are fuel enough. [total += v] wraps, as it does
    where overflow checks are off (they are on only in a debug build). *)
Fixpoint decode_outputs (fuel : nat) (value : Z) (outputs : list TxOut) (total : Z)
    : parser Error (list TxOut) :=
  match fuel with
  | O => mret outputs
  | S fuel =>
    c ← get_reader;
    if at_end c then mret outputs else
    v ← u64 "output value";
    if value <? sat_add 64 total v then mret outputs else
    slen ← u8 "script length";
    _ ← require ((MIN_COINBASER_OUTPUT_SCRIPT_LEN <=? slen) &&
                 (slen <=? MAX_COINBASER_OUTPUT_SCRIPT_LEN)) (OutOfRange "output script" slen);
    script ← take_bytes slen "output script";
    let outputs := outputs ++ [{| Transaction.value := v; script_pubkey := script |}] in
    if MAX_COINBASER_OUTPUTS <=? zlen outputs then mret outputs
    else decode_outputs fuel value outputs (wrap 64 (total + v))
  end.

Definition decode_coinbaser_response_from : parser Error CoinbaserResponse :=
  _ ← open_message server_subcmd.COINBASER;
  value ← u64 "value";
  blob_len ← u32 "blob length";
  _ ← require ((1 <=? blob_len) && (blob_len <=? MAX_COINBASER_BLOB_LEN))
        (OutOfRange "coinbaser blob" blob_len);
  blob ← take_bytes blob_len "blob";
  lift (
    '(coinbaser_id, b) ← u8 "coinbaser id" (new_reader blob);
    '(outputs, _) ← decode_outputs (S (length blob)) value [] 0 b;
    Ok {| response_value := value; response_coinbaser_id := coinbaser_id;
          response_outputs := outputs |}).

Definition decode_coinbaser_response (data : bytes) : result Error CoinbaserResponse :=
  parse_all decode_coinbaser_response_from data.

(** ** Round trips *)

Lemma coinbaser_request_roundtrip v h :
  uint 64 v -> length h = 32%nat ->
  decode_coinbaser_request (encode_coinbaser_request
    {| request_value := v; request_prev_hash := h |}) =
  Ok {| request_value := v; request_prev_hash := h |}.
Proof.
  intros. unfold decode_coinbaser_request, parse_all, new_reader.
  set (f := encode_coinbaser_request _) at 1. unfold encode_coinbaser_request. flat_app.
  unfold decode_coinbaser_request_from. erewrite bind_ok by (by apply open_message_ok).
  cbn [request_value request_prev_hash]. cbn beta. parse. done.
Qed.

Definition blob_of (o : TxOut) : bytes :=
  le 8 (value o) ++ [zb (zlen (script_pubkey o))] ++ script_pubkey o.

Definition split_output_ok (o : TxOut) : Prop :=
  uint 64 (value o) /\
  MIN_COINBASER_OUTPUT_SCRIPT_LEN <= zlen (script_pubkey o) <= MAX_COINBASER_OUTPUT_SCRIPT_LEN.

Definition values (outputs : list TxOut) : Z := sumZ (value <$> outputs).

Lemma values_nonneg outputs : Forall (fun o => 0 <= value o) outputs -> 0 <= values outputs.
Proof. intros H. apply sumZ_nonneg. by apply Forall_fmap. Qed.

Lemma values_nonneg_uint outputs : Forall (fun o => uint 64 (value o)) outputs -> 0 <= values outputs.
Proof.
  intros H. apply values_nonneg. induction H as [|o l [Ho _]]; by constructor.
Qed.

Lemma split_output_ok_uint outputs :
  Forall split_output_ok outputs -> Forall (fun o => uint 64 (value o)) outputs.
Proof. induction 1 as [|o l [Ho _]]; by constructor. Qed.

Lemma values_app l k : values (l ++ k) = values l + values k.
Proof. unfold values. by rewrite fmap_app, sumZ_app. Qed.

Lemma encode_outputs_spec outputs blob total blob' total' :
  Forall (fun o => uint 64 (value o)) outputs -> 0 <= total <= 2 ^ 64 - 1 ->
  encode_outputs outputs blob total = Ok (blob', total') ->
  blob' = blob ++ mjoin (blob_of <$> outputs) /\
  Forall split_output_ok outputs /\
  total' = Z.min (total + values outputs) (2 ^ 64 - 1).
Proof.
  intros Hv. revert blob total. induction Hv as [|o outputs Ho Hv IH]; intros blob total Ht Henc;
    cbn [encode_outputs] in Henc.
  - injection Henc as <- <-. rewrite app_nil_r. split_and!; [done|done|]. change (values []) with 0. lia.
  - destruct (negb _) eqn:Hlen; [|done]. cbn [ensure mbind result_bind] in Henc. reflect_Z.
    unfold uint in Ho. apply IH in Henc as (-> & Hall & ->); [|unfold sat_add; lia].
    rewrite join_fmap_cons, <- app_assoc. split_and!; [done| |].
    + constructor; [|done]. split; [done|lia].
    + change (values (o :: outputs)) with (value o + values outputs). unfold sat_add.
      assert (0 <= values outputs). { by apply values_nonneg_uint. }
      lia.
Qed.

Lemma decode_outputs_ok outputs fuel value f acc total :
  Forall split_output_ok outputs ->
  (length outputs < fuel)%nat -> 0 <= total -> uint 64 value ->
  total + values outputs <= value ->
  zlen acc + zlen outputs <= MAX_COINBASER_OUTPUTS ->
  exists r, decode_outputs fuel value acc total (Rd f (mjoin (blob_of <$> outputs))) =
    Ok (acc ++ outputs, r).
Proof.
  intros Hall. revert fuel acc total.
  induction Hall as [|o outputs [Hv Hs] Hall IH]; intros fuel acc total Hfuel Ht Hval Hsum Hlen;
    (destruct fuel as [|fuel]; [cbn in Hfuel; lia|]); cbn [decode_outputs].
  { rewrite app_nil_r. by eexists. }
  assert (0 <= values outputs).
  { by apply values_nonneg_uint, split_output_ok_uint. }
  change (values (o :: outputs)) with (Transaction.value o + values outputs) in Hsum.
  rewrite join_fmap_cons. unfold blob_of at 1. flat_app.
  erewrite bind_ok by done. unfold at_end. cbn [rest]. rewrite bool_decide_eq_false_2 by
    (intros Hnil; apply (f_equal length) in Hnil; rewrite length_app, length_le in Hnil; done).
  erewrite bind_ok by (by apply u64_ok). cbn beta. unfold uint in *.
  rewrite (proj2 (Z.ltb_ge value _)) by (unfold sat_add; lia).
  unfold MIN_COINBASER_OUTPUT_SCRIPT_LEN, MAX_COINBASER_OUTPUT_SCRIPT_LEN in *.
  parse_u8. erewrite bind_ok by (apply require_ok; apply andb_true_iff; split; apply Z.leb_le; lia).
  cbn beta. erewrite bind_ok by (by apply take_ok). cbn beta zeta.
  assert ({| Transaction.value := Transaction.value o; script_pubkey := script_pubkey o |} = o) as ->
    by by destruct o.
  rewrite zlen_cons in Hlen. destruct (Z.leb_spec MAX_COINBASER_OUTPUTS (zlen (acc ++ [o]))) as [Hm|Hm].
  - rewrite zlen_app, zlen_cons, zlen_nil in Hm. pose proof (zlen_nonneg outputs).
    assert (outputs = []) as -> by (apply nil_length_inv; unfold zlen in *; lia). by eexists.
  - rewrite wrap_small by (unfold uint; lia). destruct (IH fuel (acc ++ [o]) (total + Transaction.value o)) as [r ->];
      [cbn in Hfuel; lia|lia|done|lia|rewrite zlen_app, zlen_cons, zlen_nil; lia|].
    rewrite <- app_assoc. by eexists.
Qed.

(** a split the pool encodes is the split the gateway decodes, output for
    output; the value must be short of the largest [u64], where the saturating
    total of the encoder's check can no longer exceed it. *)
Theorem coinbaser_response_roundtrip (r : CoinbaserResponse) (data : bytes) :
  0 <= response_value r < 2 ^ 64 - 1 -> uint 8 (response_coinbaser_id r) ->
  Forall (fun o => uint 64 (value o)) (response_outputs r) ->
  encode_coinbaser_response r = Ok data ->
  decode_coinbaser_response data = Ok r.
Proof.
  intros Hval Hid Hvs Henc. unfold encode_coinbaser_response in Henc.
  destruct (Z.ltb_spec MAX_COINBASER_OUTPUTS (zlen (response_outputs r))) as [|Hmax]; [done|].
  cbn [negb ensure mbind result_bind] in Henc.
  destruct (encode_outputs _ _ 0) as [[blob total]|] eqn:Hout; [|done]. cbn [mbind result_bind] in Henc.
  apply encode_outputs_spec in Hout as (Hblob & Hall & Htotal); [|done|done].
  destruct (Z.ltb_spec (response_value r) total) as [|Hle]; [done|].
  cbn [negb ensure mbind result_bind] in Henc.
  destruct (Z.ltb_spec MAX_COINBASER_BLOB_LEN (zlen blob)) as [|Hlen]; [done|].
  cbn [negb ensure mbind result_bind] in Henc. injection Henc as <-.
  unfold MAX_COINBASER_BLOB_LEN in *. assert (uint 64 (response_value r)) by (unfold uint; lia).
  assert (1 <= zlen blob) by (rewrite Hblob, zlen_app; pose proof (zlen_nonneg (mjoin (blob_of <$> response_outputs r)));
    change (zlen [zb (response_coinbaser_id r)]) with 1; lia).
  unfold decode_coinbaser_response, parse_all, decode_coinbaser_response_from, new_reader.
  set (f := zb server_subcmd.COINBASER :: _) at 1. clearbody f.
  erewrite bind_ok by (by apply open_message_ok). cbn beta.
  erewrite bind_ok by (by apply u64_ok). cbn beta.
  erewrite bind_ok by (apply u32_ok; unfold uint; lia). cbn beta.
  erewrite bind_ok by (apply require_ok, andb_true_iff; split; apply Z.leb_le; unfold MAX_COINBASER_BLOB_LEN; lia). cbn beta.
  erewrite bind_ok by (by apply take_all_ok). cbn beta.
  unfold lift, new_reader. rewrite Hblob at 2. cbn [app].
  rewrite u8_ok by done. cbn [mbind result_bind].
  destruct (decode_outputs_ok (response_outputs r) (S (length blob)) (response_value r)
    blob [] 0) as [rr Hdec];
    [done| |done|done| | |].
  - rewrite Hblob, length_app. assert (zlen (response_outputs r) * 1 <= zlen (mjoin (blob_of <$> response_outputs r))).
    { apply length_mjoin_ge; [done|]. intros o. unfold blob_of. rewrite !zlen_app.
      assert (zlen (le 8 (value o)) = 8) as -> by (unfold zlen; by rewrite length_le). pose proof (zlen_nonneg [zb (zlen (script_pubkey o))]).
      pose proof (zlen_nonneg (script_pubkey o)). lia. }
    unfold zlen in *. cbn [length]. lia.
  - pose proof (values_nonneg_uint _ Hvs). unfold uint in *. lia.
  - change (zlen []) with 0. lia.
  - rewrite Hdec. cbn [mbind result_bind fmap result_fmap fst app]. by destruct r.
Qed.

(** whatever bytes a pool sends, a split the gateway accepts pays no more
    than the value it names, over at most 1024 outputs, each with a script of 2
    to 64 bytes, unless that value is the largest [u64]. *)
Theorem decoded_split_within_value (data : bytes) (r : CoinbaserResponse) :
  decode_coinbaser_response data = Ok r ->
  response_value r < 2 ^ 64 - 1 ->
  values (response_outputs r) <= response_value r /\
  zlen (response_outputs r) <= MAX_COINBASER_OUTPUTS /\
  Forall split_output_ok (response_outputs r).
Proof.
  unfold decode_coinbaser_response, parse_all.
  destruct (decode_coinbaser_response_from (new_reader data)) as [[a rd]|] eqn:Hdec; [|done].
  intros [= <-] Hlt. unfold decode_coinbaser_response_from in Hdec.
  apply bind_inv in Hdec as (? & ? & _ & Hdec). apply bind_inv in Hdec as (value & ? & Hval & Hdec).
  apply u64_inv in Hval as [Hval _].
  apply bind_inv in Hdec as (? & ? & _ & Hdec). apply bind_inv in Hdec as (? & ? & _ & Hdec).
  apply bind_inv in Hdec as (blob & r1 & _ & Hdec). unfold lift in Hdec.
  destruct (u8 "coinbaser id" (new_reader blob)) as [[cid b]|]; [|done].
  cbn [mbind result_bind] in Hdec.
  destruct (decode_outputs (S (length blob)) value [] 0 b) as [[outputs ?]|] eqn:Hout; [|done].
  cbn [mbind result_bind] in Hdec. injection Hdec as <- <-. cbn [response_outputs response_value] in *.
  clear -Hval Hout Hlt. revert Hout. generalize (S (length blob)) as fuel. intros fuel.
  assert (0 <= values [] <= value /\ zlen (@nil TxOut) < MAX_COINBASER_OUTPUTS /\
    Forall split_output_ok []) as Hinv.
  { unfold uint in Hval. change (values []) with 0. split_and!; [lia..|done|done]. }
  change 0 with (values []). generalize dependent (@nil TxOut). revert b.
  induction fuel as [|fuel IH]; intros b acc ([Hpos Hsum] & Hlen & Hall) Hout; cbn [decode_outputs] in Hout.
  { injection Hout as <- _. split_and!; [done|lia|done]. }
  apply bind_inv in Hout as (c & r1 & Hc & Hout). unfold get_reader in Hc. injection Hc as <- <-.
  destruct (at_end b). { injection Hout as <- _. split_and!; [done|lia|done]. }
  apply bind_inv in Hout as (v & r2 & Hv & Hout). apply u64_inv in Hv as [Hv _].
  destruct (Z.ltb_spec value (sat_add 64 (values acc) v)) as [|Hle].
  { injection Hout as <- _. split_and!; [done|lia|done]. }
  apply bind_inv in Hout as (slen & r3 & Hs & Hout). apply u8_inv in Hs as [Hs _].
  apply bind_inv in Hout as (? & r4 & Hreq & Hout). apply require_inv in Hreq as [Hreq ->]. reflect_Z.
  apply bind_inv in Hout as (script & r5 & Htake & Hout).
  apply take_inv in Htake as [Htake _]; [|unfold uint in *; lia].
  unfold uint in *. unfold sat_add in Hle.
  assert (values acc + v <= value) by lia.
  set (acc' := acc ++ _) in Hout.
  assert (values acc' = values acc + v) as Hv'.
  { unfold acc'. rewrite values_app. unfold values at 2. cbn. lia. }
  assert (Forall split_output_ok acc') as Hall'.
  { apply Forall_app. split; [done|]. repeat constructor; cbn [Transaction.value script_pubkey]; unfold uint; lia. }
  destruct (Z.leb_spec MAX_COINBASER_OUTPUTS (zlen acc')) as [Hm|Hm].
  - injection Hout as <- _. split_and!; [lia| |done].
    unfold acc'. rewrite zlen_app, zlen_cons, zlen_nil. lia.
  - rewrite wrap_small, <- Hv' in Hout by (unfold uint; lia). apply IH in Hout; [done|]. split_and!; [lia|lia|lia|done].
Qed.

Definition example_split : CoinbaserResponse :=
  {| response_value := 5000; response_coinbaser_id := 7;
     response_outputs := [{| value := 3000; script_pubkey := [zb 0x51; zb 0x52] |};
                          {| value := 2000; script_pubkey := zeros 22 |}] |}.

Lemma coinbaser_response_roundtrip_witness : exists data,
  encode_coinbaser_response example_split = Ok data /\
  decode_coinbaser_response data = Ok example_split.
Proof.
  eexists. split; [vm_compute; reflexivity|].
  apply (coinbaser_response_roundtrip example_split); [done|done| |vm_compute; reflexivity].
  by repeat constructor.
Defined.

Lemma decoded_split_within_value_witness : values (response_outputs example_split) <= 5000.
Proof.
  refine (proj1 (decoded_split_within_value
    (match encode_coinbaser_response example_split with Ok d => d | Err _ => [] end)
    example_split _ _)); vm_compute; reflexivity.
Defined.

(** The split that gets past the check: both the value and the saturated total
    are the largest [u64]. *)
Definition overflowing_split : bytes :=
  let blob := [zb 7] ++ blob_of {| value := 2 ^ 64 - 1; script_pubkey := zeros 2 |} ++
                blob_of {| value := 2 ^ 64 - 1; script_pubkey := zeros 2 |} in
  [zb server_subcmd.COINBASER] ++ le 8 (2 ^ 64 - 1) ++ le 4 (zlen blob) ++ blob.

(** For the value [u64::MAX] the decoder's limit does not hold: a saturating
    sum never exceeds it, so a response can pay twice the value it names. *)
Theorem decoded_split_exceeds_max_value :
  match decode_coinbaser_response overflowing_split with
  | Ok r => response_value r = 2 ^ 64 - 1 /\ values (response_outputs r) = 2 * (2 ^ 64 - 1)
  | Err _ => False
  end.
Proof. by vm_compute. Qed.
