(* ===== verification/AbwMsg.v ===== *)
(** The anti-block-withholding messages ([core/src/datum/messages/abw.rs]) and the
    share response ([messages/share_response.rs]), which carries a candidate
    reference. *)
From S2P Require Import Prelude Reader Bitcoin Messages.

Definition DRAFT_REVISION : Z := 0.
Definition ASSIGNMENT_SLOTS : Z := 16.
Definition ASSIGNMENT_ACTIVE : Z := 0x01.

Module subcmd.
Definition CANDIDATE_RECEIPT : Z := 0xa5.
Definition ACTIVATION : Z := 0xa6.
Definition CANDIDATE_RELEASE : Z := 0xa7.
Definition ASSIGNMENT_NOTICE : Z := 0xa8.
Definition REVEAL : Z := 0xa9.
End subcmd.

Record AssignmentNotice := { active : bool; notice_slot : Z; notice_key_hash : bytes }.
Record CandidateRef := { ref_slot : Z; raw_pow_hash_le : bytes }.
Record Reveal := { reveal_slot : Z; reveal_xor_key : bytes }.

#[global] Instance CandidateRef_eq_dec : EqDecision CandidateRef.
Proof. solve_decision. Defined.

(** The frame of every message: subcommand, revision, body, terminator. *)
Definition message (subcmd : Z) (body : bytes) : bytes :=
  [zb subcmd] ++ [zb DRAFT_REVISION] ++ body ++ [zb STRUCT_END].

Definition open (subcmd : Z) : parser Error () :=
  _ ← open_message subcmd;
  rev ← u8 "revision";
  require (rev =? DRAFT_REVISION) (BadVersion rev).

Definition slot_checked : parser Error Z :=
  slot ← u8 "slot";
  _ ← require (negb (ASSIGNMENT_SLOTS <=? slot)) (BadSlot slot);
  mret slot.

Definition encode_notice (n : AssignmentNotice) : bytes :=
  message subcmd.ASSIGNMENT_NOTICE
    ([zb (if active n then ASSIGNMENT_ACTIVE else 0)] ++ [zb (notice_slot n)] ++ notice_key_hash n).

Definition read_notice : parser Error AssignmentNotice :=
  _ ← open subcmd.ASSIGNMENT_NOTICE;
  flags ← u8 "flags";
  _ ← require (Z.land flags (lnot 8 ASSIGNMENT_ACTIVE) =? 0) (BadFlags flags);
  slot ← slot_checked;
  key_hash ← arr 32 "key hash";
  _ ← read_final_terminator;
  mret {| active := has_bits flags ASSIGNMENT_ACTIVE; notice_slot := slot;
          notice_key_hash := key_hash |}.
Definition decode_notice (data : bytes) : result Error AssignmentNotice := parse_all read_notice data.

Definition encode_activation (slot : Z) : bytes := message subcmd.ACTIVATION [zb slot].

Definition read_activation : parser Error Z :=
  _ ← open subcmd.ACTIVATION;
  slot ← slot_checked;
  _ ← read_final_terminator;
  mret slot.
Definition decode_activation (data : bytes) : result Error Z := parse_all read_activation data.

(** The reference to the share whose BLAKE2b output is [raw_pow_hash]. *)
Definition candidate_new (slot : Z) (raw_pow_hash : bytes) : CandidateRef :=
  {| ref_slot := slot; raw_pow_hash_le := reversed raw_pow_hash |}.

Definition encode_candidate (c : CandidateRef) (subcmd : Z) : bytes :=
  message subcmd ([zb (ref_slot c)] ++ raw_pow_hash_le c).

Definition read_candidate (subcmd : Z) : parser Error CandidateRef :=
  _ ← open subcmd;
  slot ← slot_checked;
  h ← arr 32 "raw pow hash";
  _ ← read_final_terminator;
  mret {| ref_slot := slot; raw_pow_hash_le := h |}.
Definition decode_candidate (data : bytes) (subcmd : Z) : result Error CandidateRef :=
  parse_all (read_candidate subcmd) data.

Definition encode_reveal (r : Reveal) : bytes :=
  message subcmd.REVEAL ([zb (reveal_slot r)] ++ reveal_xor_key r).

Definition read_reveal : parser Error Reveal :=
  _ ← open subcmd.REVEAL;
  slot ← slot_checked;
  k ← arr 16 "xor key";
  _ ← read_final_terminator;
  mret {| reveal_slot := slot; reveal_xor_key := k |}.
Definition decode_reveal (data : bytes) : result Error Reveal := parse_all read_reveal data.

(** ** The share response *)

(** [wire_codes!]: the codes the build names, every other kept as it is. *)
Inductive RejectReason :=
| BadJobId | BadCoinbaseId | RejectBadExtranonceSize | BadTarget | RejectBadUsername
| BadCoinbaserId | RejectBadMerkleCount | CoinbaseTooLarge | CoinbaseMissing | TargetMismatch
| HashNotZero | HighHash | CoinbaseIdMismatch | BadNtime | RejectBadVersion | StaleBlock
| BadCoinbase | BadCoinbaseOutputs | MissingPoolTag | DuplicateWork | Other
| RejectBadBlake2bSection | HeaderFieldMismatch | HeaderMerkleMismatch | NoSplit | BadAbwSlot
| UnknownReason (code : Z).

#[global] Instance RejectReason_eq_dec : EqDecision RejectReason.
Proof. solve_decision. Defined.

Definition named_reasons : list (RejectReason * Z) :=
  [(BadJobId, 10); (BadCoinbaseId, 11); (RejectBadExtranonceSize, 12); (BadTarget, 13);
   (RejectBadUsername, 14); (BadCoinbaserId, 15); (RejectBadMerkleCount, 16);
   (CoinbaseTooLarge, 17); (CoinbaseMissing, 18); (TargetMismatch, 19); (HashNotZero, 20);
   (HighHash, 21); (CoinbaseIdMismatch, 22); (BadNtime, 23); (RejectBadVersion, 24);
   (StaleBlock, 25); (BadCoinbase, 26); (BadCoinbaseOutputs, 27); (MissingPoolTag, 28);
   (DuplicateWork, 29); (Other, 30); (RejectBadBlake2bSection, 40); (HeaderFieldMismatch, 41);
   (HeaderMerkleMismatch, 42); (NoSplit, 43); (BadAbwSlot, 44)].

Definition reason_code (r : RejectReason) : Z :=
  match r with
  | UnknownReason code => code
  | _ => from_option snd 0 (list_find (fun x => x.1 = r) named_reasons ≫= fun x => Some x.2)
  end.

Definition reason_from_code (code : Z) : RejectReason :=
  from_option (fun x => x.2.1) (UnknownReason code) (list_find (fun x => x.2 = code) named_reasons).

Inductive ShareVerdict :=
| Accepted
| AcceptedTentatively
| Rejected (r : RejectReason).

Module share_status.
Definition ACCEPTED : Z := 0x50.
Definition ACCEPTED_TENTATIVELY : Z := 0x55.
Definition REJECTED : Z := 0x66.
End share_status.

Definition SHARE_RESPONSE_ABW_MARKER : Z := 0x06.
Definition ABW_REF_TAIL_LEN : nat := 32 + 1.

Record ShareResponse := {
  verdict : ShareVerdict;
  response_nonce : Z;
  response_target_byte : Z;
  response_job_id : Z;
  abw_ref : option CandidateRef;
}.

Definition encode_share_response (r : ShareResponse) : bytes :=
  let '(status, reason) :=
    match verdict r with
    | Accepted => (share_status.ACCEPTED, 0)
    | AcceptedTentatively => (share_status.ACCEPTED_TENTATIVELY, 0)
    | Rejected r => (share_status.REJECTED, reason_code r)
    end in
  [zb server_subcmd.SHARE_RESPONSE] ++ [zb status] ++ le 2 reason ++ le 4 (response_nonce r) ++
  [zb (response_target_byte r)] ++ [zb (response_job_id r)] ++
  match abw_ref r with
  | Some c => [zb SHARE_RESPONSE_ABW_MARKER] ++ [zb (ref_slot c)] ++ raw_pow_hash_le c ++ [zb STRUCT_END]
  | None => []
  end.

(** The reference at the end of a response, none unless it is exactly one. *)
Definition read_abw_ref (l : bytes) : option CandidateRef :=
  match l with
  | marker :: slot :: tail =>
    if (bz marker =? SHARE_RESPONSE_ABW_MARKER) && (length tail =? ABW_REF_TAIL_LEN)%nat &&
       (bz slot <? ASSIGNMENT_SLOTS) then
      if bool_decide (drop HASH_SIZE tail = [zb STRUCT_END])
      then Some {| ref_slot := bz slot; raw_pow_hash_le := take HASH_SIZE tail |} else None
    else None
  | _ => None
  end.

Definition read_share_response : parser Error ShareResponse :=
  _ ← open_message server_subcmd.SHARE_RESPONSE;
  status ← u8 "status";
  reason ← u16 "reason";
  verdict ←
    (if status =? share_status.ACCEPTED then mret Accepted
     else if status =? share_status.ACCEPTED_TENTATIVELY then mret AcceptedTentatively
     else if status =? share_status.REJECTED then mret (Rejected (reason_from_code reason))
     else fail (BadStatus status));
  nonce ← u32 "nonce";
  target_byte ← u8 "target byte";
  job_id ← u8 "job id";
  c ← get_reader;
  mret {| verdict := verdict; response_nonce := nonce; response_target_byte := target_byte;
          response_job_id := job_id; abw_ref := read_abw_ref (rest c) |}.
Definition decode_share_response (data : bytes) : result Error ShareResponse :=
  parse_all read_share_response data.

(** ** The messages are exactly their encodings *)

Definition slot_ok (slot : Z) : Prop := 0 <= slot < ASSIGNMENT_SLOTS.

Lemma open_ok subcmd f tl :
  uint 8 subcmd -> open subcmd (Rd f (zb subcmd :: zb DRAFT_REVISION :: tl)) = Ok ((), Rd f tl).
Proof.
  intros. unfold open. erewrite bind_ok by (by apply open_message_ok). cbn beta.
  by erewrite bind_ok by (by apply u8_ok).
Qed.

Lemma slot_checked_ok slot f tl : slot_ok slot -> slot_checked (Rd f (zb slot :: tl)) = Ok (slot, Rd f tl).
Proof.
  unfold slot_ok, slot_checked, ASSIGNMENT_SLOTS. intros. parse_u8.
  by rewrite (proj2 (Z.leb_gt 16 slot)) by lia.
Qed.

Lemma open_inv subcmd r u r2 :
  open subcmd r = Ok (u, r2) -> read_between r [zb subcmd; zb DRAFT_REVISION] r2.
Proof.
  unfold open. intros Hr. minv. reflect_Z. subst.
  match goal with H : read_between _ [zb subcmd] _ |- _ =>
    by eapply (read_between_trans _ _ _ _ _ H) end.
Qed.

Lemma slot_checked_inv r slot r2 :
  slot_checked r = Ok (slot, r2) -> slot_ok slot /\ read_between r [zb slot] r2.
Proof.
  unfold slot_checked, slot_ok. intros Hr. minv. reflect_Z. unfold uint in *. split; [lia|done].
Qed.

#[local] Ltac ainv :=
  repeat match goal with
  | H : open _ _ = Ok _ |- _ => apply open_inv in H
  | H : slot_checked _ = Ok _ |- _ => apply slot_checked_inv in H as [? ?]
  | _ => minv1
  end; chain_reads;
  match goal with
  | H : read_between (new_reader _) _ ?r, Hr : rest ?r = [] |- _ =>
      destruct H as [_ H]; cbn [new_reader rest] in H; rewrite Hr, app_nil_r in H
  end.

Lemma notice_flags x :
  uint 8 x -> Z.land x (lnot 8 ASSIGNMENT_ACTIVE) = 0 ->
  x = if has_bits x ASSIGNMENT_ACTIVE then ASSIGNMENT_ACTIVE else 0.
Proof.
  intros Hx Hz.
  assert (forallb (fun x => negb (Z.land x (lnot 8 ASSIGNMENT_ACTIVE) =? 0) ||
    (x =? if has_bits x ASSIGNMENT_ACTIVE then ASSIGNMENT_ACTIVE else 0)) (seqZ 0 256) = true) as Hall
    by (by vm_compute).
  rewrite forallb_forall in Hall. specialize (Hall x). rewrite <- list_elem_of_In, elem_of_seqZ in Hall.
  specialize (Hall Hx). rewrite Hz in Hall. by apply Z.eqb_eq in Hall.
Qed.

#[local] Ltac message_ok encoder :=
  unfold parse_all, new_reader; match goal with |- context [Rd ?x _] => set (f := x) at 1; clearbody f end;
  unfold encoder, message; flat_app;
  erewrite bind_ok by (by apply open_ok); cbn beta.

Lemma decode_encode_notice n :
  slot_ok (notice_slot n) -> length (notice_key_hash n) = 32%nat ->
  decode_notice (encode_notice n) = Ok n.
Proof.
  intros Hs Hl. unfold decode_notice, read_notice. message_ok encode_notice.
  erewrite bind_ok by (apply (u8_ok _ (if active n then _ else _)); by destruct (active n)).
  cbn beta. erewrite bind_ok by (apply require_ok; by destruct (active n)). cbn beta.
  erewrite bind_ok by (by apply slot_checked_ok). cbn beta. parse. destruct n as [a s k]. by destruct a.
Qed.

Lemma decode_encode_activation slot :
  slot_ok slot -> decode_activation (encode_activation slot) = Ok slot.
Proof.
  intros Hs. unfold decode_activation, read_activation. message_ok encode_activation.
  erewrite bind_ok by (by apply slot_checked_ok). by parse.
Qed.

Lemma decode_encode_candidate c cmd :
  uint 8 cmd -> slot_ok (ref_slot c) -> length (raw_pow_hash_le c) = 32%nat ->
  decode_candidate (encode_candidate c cmd) cmd = Ok c.
Proof.
  intros Hc Hs Hl. unfold decode_candidate, read_candidate. message_ok encode_candidate.
  erewrite bind_ok by (by apply slot_checked_ok). cbn beta. parse. by destruct c.
Qed.

Lemma decode_encode_reveal r :
  slot_ok (reveal_slot r) -> length (reveal_xor_key r) = 16%nat ->
  decode_reveal (encode_reveal r) = Ok r.
Proof.
  intros Hs Hl. unfold decode_reveal, read_reveal. message_ok encode_reveal.
  erewrite bind_ok by (by apply slot_checked_ok). cbn beta. parse. by destruct r.
Qed.

(** What a decode without error read, the message's frame included. *)
#[local] Ltac decoded reader :=
  unfold parse_all;
  let Hd := fresh "Hd" in
  match goal with
  | |- fst <$> ?p = Ok _ -> _ => destruct p as [[? ?]|] eqn:Hd; [|done]
  end;
  let E := fresh in intros E; injection E as <-; unfold reader in Hd; ainv.

(** each anti-block-withholding message decodes from its own encoding and
    from no other bytes: the pool and the gateway read the same slot, key hash,
    candidate and key, and no message names a slot out of range. *)
Theorem abw_messages_exact (data : bytes) (n : AssignmentNotice) (slot cmd : Z) (c : CandidateRef)
    (r : Reveal) :
  uint 8 cmd ->
  (decode_notice data = Ok n <->
     slot_ok (notice_slot n) /\ length (notice_key_hash n) = 32%nat /\ data = encode_notice n) /\
  (decode_activation data = Ok slot <-> slot_ok slot /\ data = encode_activation slot) /\
  (decode_candidate data cmd = Ok c <->
     slot_ok (ref_slot c) /\ length (raw_pow_hash_le c) = 32%nat /\ data = encode_candidate c cmd) /\
  (decode_reveal data = Ok r <->
     slot_ok (reveal_slot r) /\ length (reveal_xor_key r) = 16%nat /\ data = encode_reveal r).
Proof.
  intros Hcmd. split_and!; split.
  - unfold decode_notice. decoded read_notice. reflect_Z. split_and!; [done|done|].
    unfold encode_notice. cbn [active notice_slot notice_key_hash]. by rewrite <- notice_flags.
  - intros (Hs & Hl & ->). by apply decode_encode_notice.
  - unfold decode_activation. decoded read_activation. by split.
  - intros (Hs & ->). by apply decode_encode_activation.
  - unfold decode_candidate. decoded read_candidate. by split_and!.
  - intros (Hs & Hl & ->). by apply decode_encode_candidate.
  - unfold decode_reveal. decoded read_reveal. by split_and!.
  - intros (Hs & Hl & ->). by apply decode_encode_reveal.
Qed.

Lemma abw_messages_exact_witness :
  let n := {| active := true; notice_slot := 3; notice_key_hash := zeros 32 |} in
  decode_notice (encode_notice n) = Ok n.
Proof.
  intros n. destruct (abw_messages_exact (encode_notice n) n 0 subcmd.CANDIDATE_RECEIPT
    {| ref_slot := 0; raw_pow_hash_le := [] |} {| reveal_slot := 0; reveal_xor_key := [] |})
    as ([_ Hn] & _); [done|]. by apply Hn.
Defined.

(** ** The share response *)

Definition reason_wf (r : RejectReason) : Prop :=
  match r with
  | UnknownReason c => uint 16 c /\ Forall (fun x => x.2 <> c) named_reasons
  | _ => True
  end.

Definition verdict_wf (v : ShareVerdict) : Prop :=
  match v with Rejected r => reason_wf r | _ => True end.

Record share_response_wf (r : ShareResponse) : Prop := {
  wf_verdict : verdict_wf (verdict r);
  wf_response_nonce : uint 32 (response_nonce r);
  wf_response_target_byte : uint 8 (response_target_byte r);
  wf_response_job_id : uint 8 (response_job_id r);
  wf_abw_ref : forall c, abw_ref r = Some c -> slot_ok (ref_slot c) /\ length (raw_pow_hash_le c) = 32%nat;
}.

Lemma reason_code_range r : reason_wf r -> uint 16 (reason_code r).
Proof. destruct r; cbn [reason_wf]; try (intros _; by vm_compute). by intros []. Qed.

Lemma reason_code_back r : reason_wf r -> reason_from_code (reason_code r) = r.
Proof.
  destruct r; cbn [reason_wf]; try (intros _; by vm_compute).
  intros [_ Hall]. cbn [reason_code]. unfold reason_from_code.
  destruct (list_find _ named_reasons) as [[i x]|] eqn:Hf; [|done].
  apply list_find_Some in Hf as (Hi & Hx & _). rewrite Forall_lookup in Hall.
  by specialize (Hall _ _ Hi).
Qed.

Lemma reason_from_code_wf c : uint 16 c -> reason_wf (reason_from_code c).
Proof.
  intros Hc. unfold reason_from_code.
  destruct (list_find _ named_reasons) as [[i x]|] eqn:Hf; cbn [from_option].
  - apply list_find_Some in Hf as (Hi & _ & _). apply list_elem_of_lookup_2 in Hi.
    unfold named_reasons in Hi.
    repeat (apply elem_of_cons in Hi as [->|Hi]; [done|]). by apply elem_of_nil in Hi.
  - split; [done|]. by apply list_find_None in Hf.
Qed.

Lemma read_abw_ref_ok c :
  slot_ok (ref_slot c) -> length (raw_pow_hash_le c) = 32%nat ->
  read_abw_ref (zb SHARE_RESPONSE_ABW_MARKER :: zb (ref_slot c) :: raw_pow_hash_le c ++ [zb STRUCT_END]) = Some c.
Proof.
  unfold slot_ok, ASSIGNMENT_SLOTS. intros Hs Hl. unfold read_abw_ref.
  rewrite length_app, Hl, (bz_zb_small (ref_slot c)) by lia.
  rewrite take_length_app, drop_length_app by done.
  unfold ASSIGNMENT_SLOTS. rewrite (proj2 (Z.ltb_lt _ 16)) by lia.
  rewrite bool_decide_eq_true_2 by done. by destruct c.
Qed.

Lemma read_abw_ref_wf l c :
  read_abw_ref l = Some c -> slot_ok (ref_slot c) /\ length (raw_pow_hash_le c) = 32%nat.
Proof.
  unfold read_abw_ref. destruct l as [|m [|s tail]]; [done..|].
  destruct (_ && _) eqn:Hc; [|done]. case_bool_decide; [|done]. intros [= <-].
  cbn [ref_slot raw_pow_hash_le]. reflect_Z. split.
  - unfold slot_ok. pose proof (bz_range s). lia.
  - match goal with Hl : (_ =? _)%nat = true |- _ => apply Nat.eqb_eq in Hl; rewrite length_take, Hl end.
    done.
Qed.

Lemma share_response_decodes r :
  share_response_wf r -> decode_share_response (encode_share_response r) = Ok r.
Proof.
  intros [Hv Hn Ht Hj Hc]. unfold decode_share_response, parse_all, new_reader.
  set (f := encode_share_response r) at 1. clearbody f. unfold encode_share_response.
  destruct (match verdict r with Accepted => _ | AcceptedTentatively => _ | Rejected _ => _ end)
    as [status reason] eqn:Hsr.
  assert (uint 8 status /\ uint 16 reason) as [Hst Hrs].
  { destruct (verdict r) as [| |rr]; injection Hsr as <- <-; split; try done. by apply reason_code_range. }
  assert (forall rd, (if status =? share_status.ACCEPTED then mret Accepted
     else if status =? share_status.ACCEPTED_TENTATIVELY then mret AcceptedTentatively
     else if status =? share_status.REJECTED then mret (Rejected (reason_from_code reason))
     else fail (BadStatus status)) rd = Ok (verdict r, rd)) as Hverdict.
  { intros rd. destruct (verdict r) as [| |rr]; injection Hsr as <- <-; [done|done|].
    cbn [Z.eqb Pos.eqb share_status.ACCEPTED share_status.ACCEPTED_TENTATIVELY share_status.REJECTED].
    by rewrite reason_code_back. }
  flat_app. unfold read_share_response. erewrite bind_ok by (by apply open_message_ok). cbn beta.
  erewrite bind_ok by (by apply u8_ok). cbn beta. erewrite bind_ok by (by apply u16_ok). cbn beta.
  erewrite bind_ok by apply Hverdict.
  cbn beta. erewrite bind_ok by (by apply u32_ok). cbn beta.
  erewrite bind_ok by (by apply u8_ok). cbn beta. erewrite bind_ok by (by apply u8_ok). cbn beta.
  erewrite bind_ok by done. cbn beta. unfold mret, parser_ret. cbn [fmap result_fmap fst rest].
  f_equal. destruct r as [v n t j c]. cbn [abw_ref verdict response_nonce response_target_byte
    response_job_id] in *. f_equal. destruct c as [c|]; [|done]. destruct (Hc c eq_refl).
  cbn [app]. by apply read_abw_ref_ok.
Qed.

(** an answer the pool encodes is the answer the gateway decodes, an unnamed
    reason code included; and any bytes the gateway accepts decode to an answer
    that encodes and decodes to itself, so a damaged reference is dropped, never
    misread. *)
Theorem share_response_roundtrip (r : ShareResponse) (data : bytes) :
  share_response_wf r \/ decode_share_response data = Ok r ->
  decode_share_response (encode_share_response r) = Ok r.
Proof.
  intros [Hwf|Hd]; [by apply share_response_decodes|]. apply share_response_decodes.
  unfold decode_share_response, parse_all in Hd.
  destruct (read_share_response _) as [[a rd]|] eqn:Hr; [|done]. injection Hd as <-.
  unfold read_share_response in Hr.
  apply bind_inv in Hr as (? & ? & _ & Hr). apply bind_inv in Hr as (status & ? & _ & Hr).
  apply bind_inv in Hr as (reason & ? & Hreason & Hr). apply u16_inv in Hreason as [Hreason _].
  apply bind_inv in Hr as (v & ? & Hv & Hr).
  apply bind_inv in Hr as (n & ? & Hn & Hr). apply u32_inv in Hn as [Hn _].
  apply bind_inv in Hr as (t & ? & Ht & Hr). apply u8_inv in Ht as [Ht _].
  apply bind_inv in Hr as (j & ? & Hj & Hr). apply u8_inv in Hj as [Hj _].
  apply bind_inv in Hr as (c & ? & Hc & Hr). apply ret_inv in Hr as [<- _].
  constructor; cbn [verdict response_nonce response_target_byte response_job_id abw_ref]; try done.
  - repeat case_test; try (by apply ret_inv in Hv as [<- _]); [|done].
    apply ret_inv in Hv as [<- _]. by apply reason_from_code_wf.
  - intros cr. apply read_abw_ref_wf.
Qed.

Lemma share_response_roundtrip_witness :
  let r := {| verdict := Rejected (UnknownReason 99); response_nonce := 5; response_target_byte := 4;
              response_job_id := 3; abw_ref := Some {| ref_slot := 2; raw_pow_hash_le := zeros 32 |} |} in
  decode_share_response (encode_share_response r) = Ok r.
Proof.
  intros r. apply (share_response_roundtrip r []). left. constructor; try done.
  - split; [done|]. apply (bool_decide_unpack _). by vm_compute.
  - by intros c [= <-].
Defined.
