(* ===== verification/AbwSlots.v ===== *)
(** The anti-block-withholding slots of a session ([prime/src/abw.rs]): the pool
    commits to a secret XOR key by its hash, rotates to a new slot on a tip, a
    share count or an age, and discloses a retired slot's key after a delay.

    An [Instant] is a count of nanoseconds; the random key of a seeded slot is
    an argument. *)
From S2P Require Import Prelude Bitcoin Header Messages AbwMsg.

Definition from_secs (s : Z) : Z := s * 10 ^ 9.
Definition ROTATE_AFTER_SHARES : Z := 16384.
Definition ROTATE_AFTER : Z := from_secs 600.
Definition REVEAL_AFTER : Z := from_secs 300.
Definition MAX_TIP_ROTATIONS_PER_REVEAL : Z := 4.
Definition REPLAY_GRACE : Z := from_secs 10.
Definition SLOTS : nat := Z.to_nat ASSIGNMENT_SLOTS.

(** [Instant::duration_since]: zero for a later instant. *)
Definition duration_since (now earlier : Z) : Z := Z.max 0 (now - earlier).

Inductive SlotKeyStatus := Secret | RevealedKey.

Inductive Slot :=
| Empty
| Seeded (key : bytes)
| Retired (key : bytes) (reveal_at : Z) (retired_on_open_connection : bool)
| Revealed (key : bytes) (resend_at : option Z).

Definition secret_key (s : Slot) : option bytes :=
  match s with Seeded key | Retired key _ _ => Some key | Empty | Revealed _ _ => None end.

Definition due_at (s : Slot) : option Z :=
  match s with Retired _ reveal_at _ => Some reveal_at | Revealed _ resend_at => resend_at | _ => None end.

Definition is_retired (s : Slot) : bool := match s with Retired _ _ _ => true | _ => false end.

Record PendingReveal := { pending_slot : nat; resend : bool; reveal_payload : bytes }.

Record AbwSlotState := {
  slots : list Slot;
  active : nat;
  shares_since_activation : Z;
  activated_at : Z;
  held_until : Z;
  tip_rotation_pending : bool;
  published : list bool;
}.

(** The slot at an index of the array. *)
Definition slot_at (a : AbwSlotState) (i : nat) : Slot := default Empty (slots a !! i).
Definition published_at (a : AbwSlotState) (i : nat) : bool := default false (published a !! i).

Definition set_slot (a : AbwSlotState) (i : nat) (s : Slot) : AbwSlotState :=
  {| slots := <[i := s]> (slots a); active := active a; shares_since_activation := shares_since_activation a;
     activated_at := activated_at a; held_until := held_until a;
     tip_rotation_pending := tip_rotation_pending a; published := published a |}.

Definition seed (a : AbwSlotState) (slot : nat) (key : bytes) : AbwSlotState :=
  {| slots := <[slot := Seeded key]> (slots a); active := slot;
     shares_since_activation := shares_since_activation a;
     activated_at := activated_at a; held_until := held_until a;
     tip_rotation_pending := tip_rotation_pending a; published := <[slot := false]> (published a) |}.

Definition start (now : Z) (key : bytes) : AbwSlotState :=
  seed {| slots := replicate SLOTS Empty; active := 0; shares_since_activation := 0; activated_at := now;
          held_until := now; tip_rotation_pending := false; published := replicate SLOTS false |} 0 key.

Definition key_for (a : AbwSlotState) (slot : Z) : option (bytes * SlotKeyStatus) :=
  entry ← slots a !! Z.to_nat slot;
  match entry with
  | Seeded key | Retired key _ _ =>
    Some (key, if published_at a (Z.to_nat slot) then RevealedKey else Secret)
  | Revealed key _ => Some (key, RevealedKey)
  | Empty => None
  end.

(** [note_published] returns whether the slot was active, none where its key was
    not secret or already public. *)
Definition note_published (a : AbwSlotState) (slot : Z) : option bool * AbwSlotState :=
  let i := Z.to_nat slot in
  match slots a !! i ≫= secret_key with
  | None => (None, a)
  | Some _ =>
    let a' :=
      {| slots := slots a; active := active a; shares_since_activation := shares_since_activation a;
         activated_at := activated_at a; held_until := held_until a;
         tip_rotation_pending := tip_rotation_pending a; published := <[i := true]> (published a) |} in
    if published_at a i then (None, a') else (Some (i =? active a)%nat, a')
  end.

Definition active_published (a : AbwSlotState) : bool := published_at a (active a).

Section notices.
Context `{Digests}.
Definition notice (a : AbwSlotState) (slot : nat) (is_active : bool) : option bytes :=
  (fun key => encode_notice {| AbwMsg.active := is_active; notice_slot := Z.of_nat slot;
                               notice_key_hash := xor_key_hash key |}) <$> secret_key (slot_at a slot).

(** The retired slots, then the active one. *)
Definition notices (a : AbwSlotState) : list bytes :=
  omap (fun i => notice a i false) (List.filter (fun i => is_retired (slot_at a i)) (seq 0 SLOTS)) ++
  option_list (notice a (active a) true).
End notices.

Definition connect (a : AbwSlotState) (opened_at : Z) : AbwSlotState :=
  {| slots := slots a; active := active a; shares_since_activation := shares_since_activation a;
     activated_at := activated_at a; held_until := opened_at + REPLAY_GRACE;
     tip_rotation_pending := tip_rotation_pending a; published := published a |}.

Definition held (a : AbwSlotState) (now : Z) : bool := now <? held_until a.

Definition resume_slot (closed_at : Z) (s : Slot) : Slot :=
  match s with
  | Retired key _ true => Retired key (closed_at + REVEAL_AFTER) false
  | Revealed key None => Revealed key (Some closed_at)
  | _ => s
  end.

Definition resume (a : AbwSlotState) (closed_at : Z) : AbwSlotState :=
  {| slots := resume_slot closed_at <$> slots a; active := active a;
     shares_since_activation := shares_since_activation a;
     activated_at := activated_at a; held_until := held_until a;
     tip_rotation_pending := tip_rotation_pending a; published := published a |}.

Definition reveal (a : AbwSlotState) (slot : nat) : option PendingReveal * AbwSlotState :=
  let sent key resend :=
    (Some {| pending_slot := slot; resend := resend;
             reveal_payload := encode_reveal {| reveal_slot := Z.of_nat slot; reveal_xor_key := key |} |},
     set_slot a slot (Revealed key None)) in
  match slot_at a slot with
  | Retired key _ _ => sent key false
  | Revealed key (Some _) => sent key true
  | Empty | Seeded _ | Revealed _ None => (None, a)
  end.

Definition next_slot (a : AbwSlotState) : nat := (active a + 1) mod SLOTS.

Definition next_slot_reveal_at (a : AbwSlotState) : option Z :=
  match slot_at a (next_slot a) with Retired _ reveal_at _ => Some reveal_at | _ => None end.

(** [min] of an iterator. *)
Definition minimum (l : list Z) : option Z :=
  match l with [] => None | x :: l => Some (foldl Z.min x l) end.

Definition next_due (a : AbwSlotState) : Z :=
  let rotation :=
    if tip_rotation_pending a || active_published a then held_until a else activated_at a + ROTATE_AFTER in
  let rotation := from_option (Z.max rotation) rotation (next_slot_reveal_at a) in
  let due := from_option (Z.min rotation) rotation (minimum (omap due_at (slots a))) in
  Z.max due (held_until a).

Definition is_due (now : Z) (s : Slot) : bool := from_option (fun t => t <=? now) false (due_at s).

Definition reveal_due (a : AbwSlotState) (now : Z) : bool :=
  negb (held a now) && existsb (is_due now) (slots a).

Fixpoint reveal_all (a : AbwSlotState) (l : list nat) : list PendingReveal * AbwSlotState :=
  match l with
  | [] => ([], a)
  | slot :: l =>
    let '(r, a) := reveal a slot in
    let '(rs, a) := reveal_all a l in (option_list r ++ rs, a)
  end.

Definition reveals_due (a : AbwSlotState) (now : Z) : list PendingReveal * AbwSlotState :=
  if held a now then ([], a)
  else reveal_all a (List.filter (fun i => is_due now (slot_at a i)) (seq 0 SLOTS)).

Definition retire_active (a : AbwSlotState) (now : Z) : AbwSlotState :=
  match slot_at a (active a) with
  | Seeded key => set_slot a (active a) (Retired key (now + REVEAL_AFTER) true)
  | _ => a
  end.

(** [rotate]: the reveals and the state; the notice is that of the next slot. *)
Definition rotate (a : AbwSlotState) (now : Z) (key : bytes) : list PendingReveal * AbwSlotState :=
  let next := next_slot a in
  let '(r, a) := reveal a next in
  let a := seed (retire_active a now) next key in
  (option_list r,
   {| slots := slots a; active := active a; shares_since_activation := 0; activated_at := now;
      held_until := held_until a; tip_rotation_pending := false; published := published a |}).

Definition note_share (a : AbwSlotState) : AbwSlotState :=
  {| slots := slots a; active := active a;
     shares_since_activation := sat_add 64 (shares_since_activation a) 1;
     activated_at := activated_at a; held_until := held_until a;
     tip_rotation_pending := tip_rotation_pending a; published := published a |}.

Inductive RotationReason := PublishedKey | NewTip | ShareCount | SlotAge.

Definition rotation_due (a : AbwSlotState) (now : Z) : option RotationReason :=
  if held a now || is_some (next_slot_reveal_at a) then None
  else if active_published a then Some PublishedKey
  else if tip_rotation_pending a then Some NewTip
  else if ROTATE_AFTER_SHARES <=? shares_since_activation a then Some ShareCount
  else if ROTATE_AFTER <=? duration_since now (activated_at a) then Some SlotAge
  else None.

Definition note_tip (a : AbwSlotState) (now : Z) : bool * AbwSlotState :=
  let old_enough := REVEAL_AFTER / MAX_TIP_ROTATIONS_PER_REVEAL <=? duration_since now (activated_at a) in
  (old_enough,
   {| slots := slots a; active := active a; shares_since_activation := shares_since_activation a;
      activated_at := activated_at a; held_until := held_until a;
      tip_rotation_pending := tip_rotation_pending a || old_enough; published := published a |}).

(** ** When something falls due *)

Lemma minimum_None l : minimum l = None <-> l = [].
Proof. by destruct l. Qed.

Lemma foldl_min_spec x l : foldl Z.min x l ∈ x :: l /\ Forall (fun y => foldl Z.min x l <= y) (x :: l).
Proof.
  revert x; induction l as [|y l IH]; intros x; cbn [foldl].
  { split; [by left|]. apply Forall_cons. split; [lia|apply Forall_nil_2]. }
  destruct (IH (Z.min x y)) as [Hin Hall]. apply Forall_cons in Hall as [Hle Hall]. split.
  - rewrite !elem_of_cons. apply elem_of_cons in Hin as [Hin|Hin]; [|by right; right].
    destruct (Z.min_spec x y) as [[_ Hm]|[_ Hm]]; rewrite Hm in Hin |- *; rewrite Hin; auto.
  - do 2 (apply Forall_cons; split; [lia|]). done.
Qed.

Lemma minimum_Some l m : minimum l = Some m -> m ∈ l /\ forall y, y ∈ l -> m <= y.
Proof.
  destruct l as [|x l]; [done|]. intros [= <-]. destruct (foldl_min_spec x l) as [? Hall]. split; [done|].
  by apply Forall_forall.
Qed.

Lemma reveal_due_iff a now :
  reveal_due a now = true <-> held_until a <= now /\ exists t, t ∈ omap due_at (slots a) /\ t <= now.
Proof.
  unfold reveal_due, held. rewrite andb_true_iff, negb_true_iff, Z.ltb_ge, existsb_exists. apply and_iff_compat_l.
  split.
  - intros (s & Hs%list_elem_of_In & Hd). unfold is_due in Hd. destruct (due_at s) as [t|] eqn:E; [|done].
    exists t. split; [apply list_elem_of_omap; by exists s|]. by apply Z.leb_le.
  - intros (t & (s & Hs & E)%list_elem_of_omap & Ht). exists s. split; [by apply list_elem_of_In|].
    unfold is_due. rewrite E. by apply Z.leb_le.
Qed.

Lemma next_slot_reveal_at_due a t : next_slot_reveal_at a = Some t -> t ∈ omap due_at (slots a).
Proof.
  unfold next_slot_reveal_at, slot_at. destruct (slots a !! next_slot a) as [s|] eqn:E; cbn; [|done].
  destruct s; try done. intros [= <-]. apply list_elem_of_omap. eexists. split; [by eapply list_elem_of_lookup_2|done].
Qed.

(** The instant a rotation is asked for, the next slot's reveal aside. *)
Definition rotation_base (a : AbwSlotState) : Z :=
  if tip_rotation_pending a || active_published a then held_until a else activated_at a + ROTATE_AFTER.

Lemma rotation_due_iff a now :
  shares_since_activation a < ROTATE_AFTER_SHARES ->
  rotation_due a now <> None <->
  held_until a <= now /\ next_slot_reveal_at a = None /\ rotation_base a <= now.
Proof.
  intros Hsh. unfold rotation_due, held, rotation_base. rewrite (proj2 (Z.leb_gt _ _) Hsh).
  destruct (Z.ltb_spec now (held_until a)); cbn [orb]; [split; [done|lia]|].
  destruct (next_slot_reveal_at a); cbn [is_some]; [split; [done|by intros (_ & ? & _)]|].
  destruct (active_published a); [by rewrite orb_true_r|].
  destruct (tip_rotation_pending a); cbn [orb]; [done|].
  assert ((ROTATE_AFTER <=? duration_since now (activated_at a)) = (activated_at a + ROTATE_AFTER <=? now)) as ->.
  { unfold duration_since. change ROTATE_AFTER with 600000000000.
    destruct (Z.leb_spec 600000000000 (Z.max 0 (now - activated_at a))), (Z.leb_spec (activated_at a + 600000000000) now); lia. }
  destruct (Z.leb_spec (activated_at a + ROTATE_AFTER) now); split; intros; [done|done|done|lia].
Qed.

(** [next_due] is exact: short of the share count, a reveal or a rotation is
    due at an instant exactly from the one [next_due] names on, so a connection
    that sleeps until it neither misses one nor wakes for nothing. *)
Theorem next_due_exact (a : AbwSlotState) (now : Z) :
  shares_since_activation a < ROTATE_AFTER_SHARES ->
  (reveal_due a now = true \/ rotation_due a now <> None) <-> next_due a <= now.
Proof.
  intros Hsh. rewrite reveal_due_iff, rotation_due_iff by done. unfold next_due. fold (rotation_base a).
  destruct (minimum (omap due_at (slots a))) as [m|] eqn:Em; cbn [from_option].
  - apply minimum_Some in Em as [Hm Hmin]. destruct (next_slot_reveal_at a) as [t|] eqn:Et; cbn [from_option].
    + apply next_slot_reveal_at_due, Hmin in Et. split.
      * intros [[? (t' & ?%Hmin & ?)]|(_ & ? & _)]; [lia|done].
      * intros ?. left. split; [lia|]. exists m. split; [done|lia].
    + split.
      * intros [[? (t' & ?%Hmin & ?)]|(? & _ & ?)]; lia.
      * intros ?. destruct (Z.leb_spec m now); [left; split; [lia|by exists m]|right]. split_and!; [lia|done|lia].
  - apply minimum_None in Em. rewrite Em. destruct (next_slot_reveal_at a) as [t|] eqn:Et; cbn [from_option].
    { apply next_slot_reveal_at_due in Et. rewrite Em in Et. by apply not_elem_of_nil in Et. }
    split; [|intros; right; split_and!; [lia|done|lia]].
    intros [[_ (t' & Hn & _)]|(? & _ & ?)]; [by apply not_elem_of_nil in Hn|lia].
Qed.

(** ** The keys of a session

    A session with what it has put on the wire: the keys it seeded, when each
    was retired, the reveals it sent and the keys that relayed blocks made
    public. The pool's clock does not go back, and a seeded key is a new one. *)

Record Session := {
  abw : AbwSlotState;
  clock : Z;
  used : list bytes;
  retirements : list (Z * bytes);
  sent : list (Z * PendingReveal);
  made_public : list bytes;
}.

Definition session_start (now : Z) (key : bytes) : Session :=
  {| abw := start now key; clock := now; used := [key]; retirements := []; sent := []; made_public := [] |}.

Inductive session_step : Session -> Session -> Prop :=
| step_share s :
    session_step s {| abw := note_share (abw s); clock := clock s; used := used s; retirements := retirements s;
                      sent := sent s; made_public := made_public s |}
| step_published s slot :
    session_step s
      {| abw := (note_published (abw s) slot).2; clock := clock s; used := used s; retirements := retirements s;
         sent := sent s;
         made_public := option_list (slots (abw s) !! Z.to_nat slot ≫= secret_key) ++ made_public s |}
| step_tip s now :
    clock s <= now ->
    session_step s {| abw := (note_tip (abw s) now).2; clock := now; used := used s; retirements := retirements s;
                      sent := sent s; made_public := made_public s |}
| step_rotate s seen now key :
    clock s <= seen <= now -> rotation_due (abw s) seen <> None -> key ∉ used s ->
    session_step s
      (let '(rs, a) := rotate (abw s) now key in
       {| abw := a; clock := now; used := key :: used s;
          retirements := ((now,.) <$> option_list (secret_key (slot_at (abw s) (active (abw s))))) ++ retirements s;
          sent := sent s ++ ((now,.) <$> rs); made_public := made_public s |})
| step_reveals s now :
    clock s <= now ->
    session_step s
      (let '(rs, a) := reveals_due (abw s) now in
       {| abw := a; clock := now; used := used s; retirements := retirements s;
          sent := sent s ++ ((now,.) <$> rs); made_public := made_public s |})
| step_reopen s closed_at opened_at :
    clock s <= closed_at ->
    session_step s
      {| abw := connect (resume (abw s) closed_at) opened_at; clock := closed_at; used := used s;
         retirements := retirements s; sent := sent s; made_public := made_public s |}.

Inductive session_reachable (s0 : Session) : Session -> Prop :=
| session_here : session_reachable s0 s0
| session_next s s' : session_reachable s0 s -> session_step s s' -> session_reachable s0 s'.

Definition slot_key (s : Slot) : option bytes :=
  match s with Empty => None | Seeded k | Retired k _ _ | Revealed k _ => Some k end.

Lemma secret_slot_key x k : secret_key x = Some k -> slot_key x = Some k.
Proof. by destruct x. Qed.

(** The reveal that carries a key. *)
Definition carries (r : PendingReveal) (k : bytes) : Prop :=
  reveal_payload r = encode_reveal {| reveal_slot := Z.of_nat (pending_slot r); reveal_xor_key := k |}.

Lemma carries_inj r k k' : carries r k -> carries r k' -> k = k'.
Proof.
  unfold carries. intros -> Heq. unfold encode_reveal, message in Heq. cbn [app reveal_slot reveal_xor_key] in Heq.
  injection Heq as Heq. by apply app_inv_tail in Heq.
Qed.

Record slots_ok (a : AbwSlotState) : Prop := {
  len_slots : length (slots a) = SLOTS;
  len_published : length (published a) = SLOTS;
  active_lt : (active a < SLOTS)%nat;
  active_seeded : exists k, slot_at a (active a) = Seeded k;
  seeded_active : forall i k, slot_at a i = Seeded k -> i = active a;
  keys_differ : forall i j k, slot_key (slot_at a i) = Some k -> slot_key (slot_at a j) = Some k -> i = j;
}.

(** A key was sent in a reveal. *)
Definition disclosed (s : Session) (k : bytes) : Prop := exists t r, (t, r) ∈ sent s /\ carries r k.

Record session_ok (s : Session) : Prop := {
  ok_slots : slots_ok (abw s);
  ok_used : forall i k, slot_key (slot_at (abw s) i) = Some k -> k ∈ used s;
  ok_sent_used : forall k, disclosed s k -> k ∈ used s;
  ok_secret : forall i k, secret_key (slot_at (abw s) i) = Some k -> ~ disclosed s k;
  ok_revealed : forall i k at_, slot_at (abw s) i = Revealed k at_ -> disclosed s k;
  ok_public : forall i k, slot_key (slot_at (abw s) i) = Some k -> k ∈ made_public s ->
    secret_key (slot_at (abw s) i) = Some k -> published_at (abw s) i = true;
  ok_public_used : forall k, k ∈ made_public s -> k ∈ used s;
  ok_retired : forall i k at_ o, slot_at (abw s) i = Retired k at_ o ->
    exists t0, (t0, k) ∈ retirements s /\ t0 + REVEAL_AFTER <= at_;
  ok_retired_at : forall t0 k, (t0, k) ∈ retirements s -> t0 <= clock s;
  ok_sent : forall t r, (t, r) ∈ sent s -> t <= clock s /\
    exists k, carries r k /\ exists t0, (t0, k) ∈ retirements s /\ t0 + REVEAL_AFTER <= t;
}.

Lemma slot_at_set a i x j :
  (i < length (slots a))%nat -> slot_at (set_slot a i x) j = if decide (j = i) then x else slot_at a j.
Proof.
  intros Hi. unfold slot_at, set_slot. cbn. case_decide as Hj.
  - subst. by rewrite list_lookup_insert_eq.
  - by rewrite list_lookup_insert_ne.
Qed.

(** The session after sending [rs] at [now]. *)
Definition after_send (s : Session) (now : Z) (out : list PendingReveal * AbwSlotState) : Session :=
  {| abw := out.2; clock := now; used := used s; retirements := retirements s;
     sent := sent s ++ ((now,.) <$> out.1); made_public := made_public s |}.

Lemma elem_sent s now rs t r :
  (t, r) ∈ sent s ++ ((now,.) <$> rs) <-> (t, r) ∈ sent s \/ (t = now /\ r ∈ rs).
Proof.
  rewrite elem_of_app, list_elem_of_fmap. split.
  - intros [?|(x & [= -> ->] & ?)]; auto.
  - intros [?|[-> ?]]; [by left|right; by exists r].
Qed.

Lemma after_send_nil s now a : session_ok s -> a = abw s -> clock s <= now -> session_ok (after_send s now ([], a)).
Proof.
  intros [? Hu Hsu Hsec Hrev Hpub Hpu Hret Hra Hsent] -> Hc. split; cbn; rewrite ?app_nil_r; try done.
  - intros k (t & r & Hin & Hk). cbn in Hin. rewrite app_nil_r in Hin. apply Hsu. by exists t, r.
  - intros i k Hk (t & r & Hin & Hc'). cbn in Hin. rewrite app_nil_r in Hin. apply (Hsec i k Hk). by exists t, r.
  - intros i k at_ Hi. destruct (Hrev i k at_ Hi) as (t & r & ? & ?). exists t, r. cbn. by rewrite app_nil_r.
  - intros t0 k Hin. specialize (Hra t0 k Hin). lia.
  - intros t r Hin. destruct (Hsent t r Hin) as [? ?]. split; [lia|done].
Qed.

(** What a reveal sends and leaves. *)
Lemma reveal_cases a i :
  (reveal a i = (None, a)) \/
  exists k r, reveal a i = (Some r, set_slot a i (Revealed k None)) /\ carries r k /\
    slot_key (slot_at a i) = Some k /\
    ((exists at_ o, slot_at a i = Retired k at_ o) \/ (exists at_, slot_at a i = Revealed k at_)).
Proof.
  unfold reveal. destruct (slot_at a i) as [|k|k at_ o|k [at_|]] eqn:E; [by left|by left| | |by left]; right;
    exists k; eexists; (split_and!; [done|done|done|]); [left|right]; eauto.
Qed.

Lemma slots_ok_set a i x :
  slots_ok a -> (i < SLOTS)%nat -> (forall k, x <> Seeded k) -> i <> active a ->
  (forall k, slot_key x = Some k -> slot_key (slot_at a i) = Some k) ->
  slots_ok (set_slot a i x).
Proof.
  intros [Hl Hp Ha [k0 Hact] Hseed Hdiff] Hi Hx Hne Hkey.
  split; cbn [slots published active set_slot]; rewrite ?length_insert; try done.
  - exists k0. rewrite slot_at_set by lia. by rewrite decide_False.
  - intros j k. rewrite slot_at_set by lia. case_decide; [by intros ?%Hx|by apply Hseed].
  - assert (forall j k, slot_key (slot_at (set_slot a i x) j) = Some k -> slot_key (slot_at a j) = Some k) as Hk.
    { intros j k. rewrite slot_at_set by lia. case_decide as E; [rewrite E; by apply Hkey|done]. }
    intros j1 j2 k H1%Hk H2%Hk. by eapply Hdiff.
Qed.

Lemma slot_key_lt a i k : slots_ok a -> slot_key (slot_at a i) = Some k -> (i < SLOTS)%nat.
Proof.
  intros [Hl _ _ _ _ _]. unfold slot_at. destruct (slots a !! i) as [x|] eqn:E; [|done]. intros _.
  rewrite <- Hl. by eapply lookup_lt_Some.
Qed.

Lemma published_set a i x j : published_at (set_slot a i x) j = published_at a j.
Proof. done. Qed.

(** Sending a key whose delay is over. *)
Lemma reveal_ok s i now :
  session_ok s -> clock s <= now ->
  (forall k at_ o, slot_at (abw s) i = Retired k at_ o -> at_ <= now) ->
  session_ok (after_send s now (option_list (reveal (abw s) i).1, (reveal (abw s) i).2)).
Proof.
  intros Hok Hc Hdue. destruct (reveal_cases (abw s) i) as [->|(k & r & -> & Hcar & Hkey & Hcase)]; cbn [fst snd option_list].
  { by apply after_send_nil. }
  pose proof Hok as [Hs Hu Hsu Hsec Hrev Hpub Hpu Hret Hra Hsent].
  pose proof (slot_key_lt _ _ _ Hs Hkey) as Hi. pose proof Hs as [Hl _ _ [k0 Hact] _ Hdiff].
  assert (i <> active (abw s)) as Hne.
  { intros ->. rewrite Hact in Hcase. by destruct Hcase as [(?&?&?)|(?&?)]. }
  assert (exists t0, (t0, k) ∈ retirements s /\ t0 + REVEAL_AFTER <= now) as Ht0.
  { destruct Hcase as [(at_ & o & E)|(at_ & E)].
    - destruct (Hret _ _ _ _ E) as (t0 & ? & ?). specialize (Hdue _ _ _ E). exists t0. split; [done|lia].
    - destruct (Hrev _ _ _ E) as (t & r' & Hin & Hcar'). destruct (Hsent _ _ Hin) as (? & k' & Hk' & t0 & ? & ?).
      rewrite (carries_inj _ _ _ Hcar' Hk') in *. exists t0. split; [done|lia]. }
  assert (forall k', disclosed (after_send s now ([r], set_slot (abw s) i (Revealed k None))) k' <->
    disclosed s k' \/ k' = k) as Hdis.
  { intros k'. unfold disclosed. cbn [after_send sent fst]. setoid_rewrite elem_sent. split.
    - intros (t & r' & [?|[-> Hr]] & ?); [left; eauto|right]. apply list_elem_of_singleton in Hr as ->.
      by eapply carries_inj.
    - intros [(t & r' & ? & ?)| ->]; [exists t, r'; auto|]. exists now, r. split; [right; split; [done|by left]|done]. }
  split; cbn [after_send abw clock used retirements made_public snd]; try done.
  - apply slots_ok_set; try done. intros k' [= <-]. done.
  - intros j k'. rewrite slot_at_set by lia. case_decide as E; [intros [= <-]; by eapply Hu|by apply Hu].
  - intros k' [?| ->]%Hdis; [by apply Hsu|by eapply Hu].
  - intros j k'. rewrite slot_at_set by lia. case_decide as E; [done|]. intros Hk' [Hd| ->]%Hdis; [by eapply Hsec|].
    apply E. apply (Hdiff j i k); [|done]. destruct (slot_at (abw s) j); cbn in *; congruence.
  - intros j k' at_. rewrite slot_at_set by lia. intros Hj. apply Hdis. case_decide; [injection Hj as <- _; by right|].
    left. by eapply Hrev.
  - intros j k'. rewrite slot_at_set by lia. case_decide; [done|]. apply Hpub.
  - intros j k' at_ o. rewrite slot_at_set by lia. case_decide; [done|]. apply Hret.
  - intros t0 k' Hin. specialize (Hra _ _ Hin). lia.
  - intros t r' [Hin|[-> Hr]]%elem_sent.
    + destruct (Hsent _ _ Hin) as [? ?]. split; [lia|done].
    + cbn in Hr. apply list_elem_of_singleton in Hr as ->. split; [lia|]. by exists k.
Qed.

Lemma after_send_app s now rs1 a1 rs2 a2 :
  after_send (after_send s now (rs1, a1)) now (rs2, a2) = after_send s now (rs1 ++ rs2, a2).
Proof. unfold after_send. cbn. by rewrite fmap_app, app_assoc. Qed.

Lemma reveal_all_ok l s now :
  session_ok s -> clock s <= now ->
  (forall i k at_ o, i ∈ l -> slot_at (abw s) i = Retired k at_ o -> at_ <= now) ->
  session_ok (after_send s now (reveal_all (abw s) l)).
Proof.
  revert s. induction l as [|i l IH]; intros s Hok Hc Hdue; cbn [reveal_all].
  { by apply after_send_nil. }
  pose proof (reveal_ok s i now Hok Hc ltac:(intros; eapply Hdue; [by left|done])) as H1.
  destruct (reveal (abw s) i) as [r a1] eqn:Er. cbn [fst snd] in H1. destruct (reveal_all a1 l) as [rs a2] eqn:Ers.
  rewrite <- after_send_app with (a1 := a1). rewrite <- Ers. apply (IH (after_send s now (option_list r, a1)) H1); cbn; [lia|].
  intros j k at_ o Hj Hslot. apply (Hdue j k at_ o); [by right|]. cbn in Hslot. rewrite <- Hslot. symmetry.
  destruct (reveal_cases (abw s) i) as [E|(k' & r' & E & _ & Hkey & _)]; rewrite Er in E; injection E as -> ->; [done|].
  rewrite slot_at_set in Hslot |- *.
  - by case_decide.
  - rewrite (len_slots _ (ok_slots _ Hok)). eapply slot_key_lt; [apply Hok|done].
  - rewrite (len_slots _ (ok_slots _ Hok)). eapply slot_key_lt; [apply Hok|done].
Qed.

Lemma reveals_due_ok s now :
  session_ok s -> clock s <= now -> session_ok (after_send s now (reveals_due (abw s) now)).
Proof.
  intros Hok Hc. unfold reveals_due. destruct (held (abw s) now); [by apply after_send_nil|].
  apply reveal_all_ok; [done..|]. intros i k at_ o Hin Hslot.
  apply list_elem_of_In, filter_In in Hin as [_ Hdue]. rewrite Hslot in Hdue. cbn in Hdue. by apply Z.leb_le.
Qed.

Lemma next_slot_ok a : slots_ok a -> (next_slot a < SLOTS)%nat /\ next_slot a <> active a.
Proof.
  intros [_ _ Ha _ _ _]. unfold next_slot, SLOTS in *. change (Z.to_nat ASSIGNMENT_SLOTS) with 16%nat in *.
  split; [apply Nat.mod_upper_bound; lia|]. intros Heq.
  destruct (decide (active a = 15%nat)) as [E|]; [rewrite E in Heq; done|]. rewrite Nat.mod_small in Heq; lia.
Qed.

(** Retiring the active slot and seeding the next with a new key. *)
Definition turned (s : Session) (now : Z) (key : bytes) (f : AbwSlotState -> AbwSlotState) : Session :=
  {| abw := f (seed (retire_active (abw s) now) (next_slot (abw s)) key); clock := now; used := key :: used s;
     retirements := ((now,.) <$> option_list (secret_key (slot_at (abw s) (active (abw s))))) ++ retirements s;
     sent := sent s; made_public := made_public s |}.

(** The functions that change no slot and no published flag. *)
Definition keeps_slots (f : AbwSlotState -> AbwSlotState) : Prop :=
  forall a, slots (f a) = slots a /\ active (f a) = active a /\ published (f a) = published a.

Lemma slots_ok_keeps a b :
  slots a = slots b -> active a = active b -> published a = published b -> slots_ok a -> slots_ok b.
Proof.
  intros E1 E2 E3 [? ? ? ? ? ?]. unfold slot_at in *. split; unfold slot_at; rewrite <- ?E1, <- ?E2, <- ?E3; done.
Qed.

Lemma turned_slots s now key k :
  slots_ok (abw s) -> slot_at (abw s) (active (abw s)) = Seeded k ->
  let a := seed (retire_active (abw s) now) (next_slot (abw s)) key in
  length (slots a) = SLOTS /\ length (published a) = SLOTS /\ active a = next_slot (abw s) /\
  (forall j, slot_at a j = if decide (j = next_slot (abw s)) then Seeded key
     else if decide (j = active (abw s)) then Retired k (now + REVEAL_AFTER) true else slot_at (abw s) j) /\
  (forall j, published_at a j = if decide (j = next_slot (abw s)) then false else published_at (abw s) j).
Proof.
  intros Hs Hact a. pose proof Hs as [Hl Hp Ha _ _ _]. destruct (next_slot_ok _ Hs) as [Hn Hne].
  unfold a, retire_active. rewrite Hact.
  split_and!; cbn [seed set_slot slots published active]; rewrite ?length_insert; try done; intros j.
  - unfold slot_at at 1. cbn [seed slots set_slot]. case_decide as E.
    + rewrite E, list_lookup_insert_eq; [done|]. rewrite length_insert. lia.
    + rewrite list_lookup_insert_ne by done. by rewrite <- (slot_at_set (abw s)) by lia.
  - unfold published_at at 1. cbn [seed published set_slot]. case_decide as E.
    + rewrite E, list_lookup_insert_eq; [done|lia].
    + by rewrite list_lookup_insert_ne.
Qed.

Lemma turned_ok s now key f :
  session_ok s -> clock s <= now -> key ∉ used s -> keeps_slots f -> session_ok (turned s now key f).
Proof.
  intros Hok Hc Hfresh Hf. pose proof Hok as [Hs Hu Hsu Hsec Hrev Hpub Hpu Hret Hra Hsent].
  pose proof Hs as [Hl Hp Ha [k0 Hact] Hseed Hdiff]. destruct (next_slot_ok _ Hs) as [Hn Hne].
  destruct (turned_slots s now key k0 Hs Hact) as (Hl' & Hp' & Hact' & Hslot & Hpublished).
  set (a := seed _ _ _) in *. destruct (Hf a) as (F1 & F2 & F3).
  assert (forall j, slot_at (f a) j = slot_at a j) as Fs by (intros; unfold slot_at; by rewrite F1).
  assert (forall j, published_at (f a) j = published_at a j) as Fp by (intros; unfold published_at; by rewrite F3).
  assert (forall j k, slot_key (slot_at a j) = Some k -> (j = next_slot (abw s) /\ k = key) \/
    (j <> next_slot (abw s) /\ slot_key (slot_at (abw s) j) = Some k)) as Hkeys.
  { intros j k. rewrite Hslot. case_decide; [intros [= <-]; by left|]. right. split; [done|].
    destruct (decide (j = active (abw s))) as [->|]; [by rewrite Hact|done]. }
  assert (forall k, k ∈ used s -> k <> key) as Hnew by (intros k Hk ->; done).
  assert (retirements (turned s now key f) = (now, k0) :: retirements s) as Hrt.
  { unfold turned. cbn. by rewrite Hact. }
  split; rewrite ?Hrt; cbn [turned abw clock used sent made_public]; fold a; try setoid_rewrite Fs; try setoid_rewrite Fp.
  - apply (slots_ok_keeps a); [done..|]. split; rewrite ?Hact'; try done.
    + exists key. rewrite Hslot. by rewrite decide_True.
    + intros j k. rewrite Hslot. case_decide as E; [done|]. case_decide; [done|]. by intros ?%Hseed.
    + intros j1 j2 k [[-> ->]|[Hj1 H1]]%Hkeys [[-> Hk]|[Hj2 H2]]%Hkeys; [done| | |by eapply Hdiff].
      * by apply Hu, Hnew in H2.
      * subst. by apply Hu, Hnew in H1.
  - intros j k [[_ ->]|[_ Hk]]%Hkeys; [by left|right; by eapply Hu].
  - intros k Hd. right. by apply Hsu.
  - intros j k Hk Hd. assert (slot_key (slot_at a j) = Some k) as Hkey by (by destruct (slot_at a j)).
    destruct (Hkeys _ _ Hkey) as [[_ ->]|[Hj Hkj]]; [by apply Hsu, Hnew in Hd|].
    rewrite Hslot, decide_False in Hk by done. case_decide as E; [|by eapply Hsec].
    injection Hk as <-. apply (Hsec (active (abw s)) k0); [by rewrite Hact|done].
  - intros j k at_. rewrite Hslot. case_decide; [done|]. case_decide; [done|]. apply Hrev.
  - intros j k Hkey Hk Hsk. rewrite Hpublished. destruct (Hkeys _ _ Hkey) as [[_ ->]|[Hj Hkj]].
    { by apply Hpu, Hnew in Hk. }
    rewrite decide_False by done. apply (Hpub j k); [done..|].
    rewrite Hslot, decide_False in Hsk by done. revert Hsk. case_decide as E; [|done]. rewrite E, Hact. done.
  - intros k Hk. right. by apply Hpu.
  - intros j k at_ o. rewrite Hslot. case_decide; [done|]. case_decide.
    + intros [= -> <- _]. exists now. split; [by left|lia].
    + intros Hj. destruct (Hret _ _ _ _ Hj) as (t0 & ? & ?). exists t0. split; [by right|done].
  - intros t0 k [[= -> ->]|Hin]%elem_of_cons; [lia|]. specialize (Hra _ _ Hin). lia.
  - intros t r Hin. destruct (Hsent _ _ Hin) as (? & k & ? & t0 & ? & ?). split; [lia|].
    exists k. split; [done|]. exists t0. split; [by right|done].
Qed.

(** A step that changes no slot, no published flag and nothing sent. *)
Lemma session_ok_keeps s a now :
  session_ok s -> clock s <= now ->
  slots a = slots (abw s) -> active a = active (abw s) -> published a = published (abw s) ->
  session_ok {| abw := a; clock := now; used := used s; retirements := retirements s; sent := sent s;
                made_public := made_public s |}.
Proof.
  intros [Hs Hu Hsu Hsec Hrev Hpub Hpu Hret Hra Hsent] Hc E1 E2 E3.
  assert (forall j, slot_at a j = slot_at (abw s) j) as Fs by (intros; unfold slot_at; by rewrite E1).
  split; cbn; try setoid_rewrite Fs; try done.
  - by apply (slots_ok_keeps (abw s)).
  - intros j k. unfold published_at. rewrite E3. apply Hpub.
  - intros t0 k Hin. specialize (Hra _ _ Hin). lia.
  - intros t r Hin. destruct (Hsent _ _ Hin) as [? ?]. split; [lia|done].
Qed.

Lemma rotate_ok s seen now key :
  session_ok s -> clock s <= seen <= now -> rotation_due (abw s) seen <> None -> key ∉ used s ->
  session_ok
    (let '(rs, a) := rotate (abw s) now key in
     {| abw := a; clock := now; used := key :: used s;
        retirements := ((now,.) <$> option_list (secret_key (slot_at (abw s) (active (abw s))))) ++ retirements s;
        sent := sent s ++ ((now,.) <$> rs); made_public := made_public s |}).
Proof.
  intros Hok Hc Hdue Hfresh. pose proof (ok_slots _ Hok) as Hs. destruct (next_slot_ok _ Hs) as [Hn Hne].
  assert (forall k at_ o, slot_at (abw s) (next_slot (abw s)) <> Retired k at_ o) as Hnr.
  { intros k at_ o E. apply Hdue. unfold rotation_due, next_slot_reveal_at. rewrite E. by rewrite orb_true_r. }
  pose proof (reveal_ok s (next_slot (abw s)) now Hok ltac:(lia) ltac:(intros ? ? ? E; by apply Hnr in E)) as H1.
  set (f a := {| slots := slots a; active := active a; shares_since_activation := 0; activated_at := now;
    held_until := held_until a; tip_rotation_pending := false; published := published a |}).
  pose proof (turned_ok _ now key f H1) as H2. unfold rotate.
  destruct (reveal_cases (abw s) (next_slot (abw s))) as [E|(k & r & E & _ & Hkey & _)]; rewrite E in H2 |- *;
    cbn [fst snd] in H2 |- *; unfold turned, after_send in H2; cbn [abw clock used retirements sent made_public fst snd] in H2.
  - apply H2; [lia|done|done].
  - change (next_slot (set_slot (abw s) _ _)) with (next_slot (abw s)) in H2.
    change (active (set_slot (abw s) _ _)) with (active (abw s)) in H2.
    rewrite slot_at_set, decide_False in H2; [|done|by rewrite (len_slots _ Hs)]. apply H2; [lia|done|done].
Qed.

Lemma resume_ok s closed_at opened_at :
  session_ok s -> clock s <= closed_at ->
  session_ok
    {| abw := connect (resume (abw s) closed_at) opened_at; clock := closed_at; used := used s;
       retirements := retirements s; sent := sent s; made_public := made_public s |}.
Proof.
  intros [Hs Hu Hsu Hsec Hrev Hpub Hpu Hret Hra Hsent] Hc. set (a := connect _ _).
  assert (forall j, slot_at a j = resume_slot closed_at (slot_at (abw s) j)) as Fs.
  { intros j. unfold slot_at, a. cbn. rewrite list_lookup_fmap. by destruct (slots (abw s) !! j). }
  assert (forall x, slot_key (resume_slot closed_at x) = slot_key x) as Fk by (by intros [|?|? ? []|? []]).
  assert (forall x, secret_key (resume_slot closed_at x) = secret_key x) as Fsk by (by intros [|?|? ? []|? []]).
  split; cbn [abw clock used retirements sent made_public]; try setoid_rewrite Fs; try setoid_rewrite Fk;
    try setoid_rewrite Fsk; try done.
  - destruct Hs as [Hl Hp Ha [k0 Hact] Hseed Hdiff]. split; unfold a; cbn; rewrite ?length_fmap; fold a; try done.
    + exists k0. by rewrite Fs, Hact.
    + intros i k. rewrite Fs. intros E. apply (Hseed i k). by destruct (slot_at (abw s) i) as [|?|? ? []|? []].
    + intros i j k. rewrite !Fs, !Fk. apply Hdiff.
  - intros i k at_ E. destruct (slot_at (abw s) i) as [|?|? ? []|? []] eqn:Ei; try done; injection E as <- _; by eapply Hrev.
  - intros i k at_ o E. destruct (slot_at (abw s) i) as [|?|k' at' []|? []] eqn:Ei; try done; injection E as <- <- _;
      destruct (Hret _ _ _ _ Ei) as (t0 & Hin & Hle); exists t0; (split; [done|]); [|lia].
    specialize (Hra _ _ Hin). lia.
  - intros t0 k Hin. specialize (Hra _ _ Hin). lia.
  - intros t r Hin. destruct (Hsent _ _ Hin) as [? ?]. split; [lia|done].
Qed.

Lemma published_ok s slot :
  session_ok s ->
  session_ok
    {| abw := (note_published (abw s) slot).2; clock := clock s; used := used s; retirements := retirements s;
       sent := sent s;
       made_public := option_list (slots (abw s) !! Z.to_nat slot ≫= secret_key) ++ made_public s |}.
Proof.
  intros Hok. pose proof Hok as [Hs Hu Hsu Hsec Hrev Hpub Hpu Hret Hra Hsent]. unfold note_published.
  destruct (slots (abw s) !! Z.to_nat slot ≫= secret_key) as [k0|] eqn:E0; cbn [snd option_list app]; [|by destruct s].
  assert (secret_key (slot_at (abw s) (Z.to_nat slot)) = Some k0) as Hk0.
  { unfold slot_at. by destruct (slots (abw s) !! Z.to_nat slot). }
  assert (slot_key (slot_at (abw s) (Z.to_nat slot)) = Some k0) as Hkey0 by (by destruct (slot_at _ _)).
  pose proof (slot_key_lt _ _ _ Hs Hkey0) as Hi.
  set (a := (if published_at _ _ then _ else _).2).
  assert (slots a = slots (abw s) /\ active a = active (abw s) /\
    published a = <[Z.to_nat slot := true]> (published (abw s))) as (F1 & F2 & F3)
    by (unfold a; by destruct (published_at _ _)).
  assert (forall j, slot_at a j = slot_at (abw s) j) as Fs by (intros; unfold slot_at; by rewrite F1).
  split; cbn [abw clock used retirements sent made_public]; try setoid_rewrite Fs; try done.
  - destruct Hs as [Hl Hp Ha [k1 Hact] Hseed Hdiff].
    split; rewrite ?F1, ?F2, ?F3, ?length_insert; try setoid_rewrite Fs; try done. by exists k1.
  - intros j k Hkj Hk Hsk. unfold published_at. rewrite F3. destruct (decide (j = Z.to_nat slot)) as [->|Hj].
    + rewrite list_lookup_insert_eq; [done|]. by rewrite (len_published _ Hs).
    + rewrite list_lookup_insert_ne by done. apply (Hpub j k); [done| |done].
      apply elem_of_cons in Hk as [->|?]; [|done]. destruct Hj. by eapply (keys_differ _ Hs).
  - intros k [->|Hk]%elem_of_cons; [by eapply Hu|by apply Hpu].
Qed.

Lemma session_step_ok s s' : session_ok s -> session_step s s' -> session_ok s'.
Proof.
  intros Hok Hstep. revert Hok.
  destruct Hstep as [s1|s1 slot|s1 now Hc|s1 seen now key Hc Hdue Hfresh|s1 now Hc|s1 closed opened Hc]; intros Hok.
  - apply session_ok_keeps; first [done|lia].
  - by apply published_ok.
  - by apply session_ok_keeps.
  - by apply (rotate_ok s1 seen).
  - pose proof (reveals_due_ok s1 now Hok Hc) as H1. by destruct (reveals_due _ _).
  - by apply resume_ok.
Qed.

Lemma start_ok now key : session_ok (session_start now key).
Proof.
  assert (forall j, slot_at (start now key) j = if decide (j = 0%nat) then Seeded key else Empty) as Fs.
  { intros j. unfold slot_at, start, seed. cbn [slots]. case_decide as E.
    - by rewrite E.
    - rewrite list_lookup_insert_ne by done. destruct (replicate SLOTS Empty !! j) as [x|] eqn:Ex; [|done].
      by apply lookup_replicate in Ex as [-> _]. }
  assert (forall k, ~ disclosed (session_start now key) k) as Hd.
  { intros k (t & r & Hin & _). by apply not_elem_of_nil in Hin. }
  split; cbn [session_start abw clock used retirements sent made_public]; try setoid_rewrite Fs; try done.
  - split; try setoid_rewrite Fs; try done; [vm_compute; lia|by exists key| |].
    + intros i k. by case_decide.
    + intros i j k. case_decide; [|done]. case_decide; [|done]. by subst.
  - intros i k. case_decide; [|done]. intros [= <-]. by left.
  - intros k Hk. by apply Hd in Hk.
  - intros i k at_. by case_decide.
  - intros i k _ Hn. by apply not_elem_of_nil in Hn.
  - intros k Hn. by apply not_elem_of_nil in Hn.
  - intros i k at_ o. by case_decide.
  - intros t0 k Hn. by apply not_elem_of_nil in Hn.
  - intros t r Hn. by apply not_elem_of_nil in Hn.
Qed.

Lemma session_reachable_ok s0 s : session_ok s0 -> session_reachable s0 s -> session_ok s.
Proof. intros H0. induction 1; [done|]. by eapply session_step_ok. Qed.

(** The pool never discloses a key early, and never credits work under a key
    that is known. Over any life of a session, with shares, tips, rotations
    where [rotation_due] asked for one, reveals, relayed blocks that publish a
    key, and reconnections: every reveal it sends, first or repeated, carries a
    key whose slot was retired at least [REVEAL_AFTER] before; the key a share
    is verified under as secret has been neither sent in a reveal nor published
    by a relayed block; no two slots hold one key; and the active slot always
    has a key to announce. *)
Theorem abw_keys_kept (now0 : Z) (key0 : bytes) (s : Session) :
  session_reachable (session_start now0 key0) s ->
  (forall t r, (t, r) ∈ sent s ->
     exists k t0, carries r k /\ ((t0, k) ∈ retirements s) /\ t0 + REVEAL_AFTER <= t) /\
  (forall slot k, key_for (abw s) slot = Some (k, Secret) ->
     (k ∉ made_public s) /\ forall t r, (t, r) ∈ sent s -> ~ carries r k) /\
  (forall i j k, slot_key (slot_at (abw s) i) = Some k -> slot_key (slot_at (abw s) j) = Some k -> i = j) /\
  exists k status, key_for (abw s) (Z.of_nat (active (abw s))) = Some (k, status) /\
    slot_at (abw s) (active (abw s)) = Seeded k.
Proof.
  intros Hr. apply session_reachable_ok in Hr as [Hs Hu Hsu Hsec Hrev Hpub Hpu Hret Hra Hsent]; [|apply start_ok].
  split_and!.
  - intros t r Hin. destruct (Hsent _ _ Hin) as (_ & k & ? & t0 & ? & ?). by exists k, t0.
  - intros slot k Hkey. unfold key_for in Hkey. destruct (slots (abw s) !! Z.to_nat slot) as [x|] eqn:E; [|done].
    assert (slot_at (abw s) (Z.to_nat slot) = x) as Hx by (unfold slot_at; by rewrite E).
    assert (secret_key x = Some k /\ published_at (abw s) (Z.to_nat slot) = false) as [Hsk Hp].
    { revert Hkey. destruct x; cbn; destruct (published_at _ _); try done; by intros [= ->]. }
    rewrite <- Hx in Hsk. split.
    + intros Hk. specialize (Hpub _ _ (secret_slot_key _ _ Hsk) Hk Hsk). congruence.
    + intros t r Hin Hc. apply (Hsec _ _ Hsk). by exists t, r.
  - apply Hs.
  - destruct (active_seeded _ Hs) as [k Hk]. exists k. unfold key_for. rewrite Nat2Z.id.
    unfold slot_at in Hk. destruct (slots (abw s) !! active (abw s)) as [x|] eqn:E; cbn in Hk |- *; [subst x|done].
    eexists. split; [done|]. unfold slot_at. by rewrite E.
Qed.

(** A session that rotates on age, then reveals the slot it left. *)
Definition example_keyed (n : Z) : bytes := le 16 n.

Lemma abw_keys_kept_witness : exists s, session_reachable (session_start 0 (example_keyed 1)) s /\
  length (sent s) = 1%nat /\ key_for (abw s) 1 = Some (example_keyed 2, Secret) /\
  example_keyed 2 ∉ made_public s.
Proof.
  set (s0 := session_start 0 (example_keyed 1)).
  set (s1 := let '(rs, a) := rotate (abw s0) ROTATE_AFTER (example_keyed 2) in
    {| abw := a; clock := ROTATE_AFTER; used := example_keyed 2 :: used s0;
       retirements := ((ROTATE_AFTER,.) <$> option_list (secret_key (slot_at (abw s0) (active (abw s0))))) ++ retirements s0;
       sent := sent s0 ++ ((ROTATE_AFTER,.) <$> rs); made_public := made_public s0 |}).
  set (s2 := let '(rs, a) := reveals_due (abw s1) (ROTATE_AFTER + REVEAL_AFTER) in
    {| abw := a; clock := ROTATE_AFTER + REVEAL_AFTER; used := used s1; retirements := retirements s1;
       sent := sent s1 ++ ((ROTATE_AFTER + REVEAL_AFTER,.) <$> rs); made_public := made_public s1 |}).
  assert (session_reachable s0 s2) as Hr.
  { eapply session_next; [eapply session_next; [apply session_here|]|].
    - apply (step_rotate s0 ROTATE_AFTER ROTATE_AFTER (example_keyed 2)); [by vm_compute|by vm_compute|].
      apply not_elem_of_cons. split; [by intros [=]%(f_equal (map bz))|apply not_elem_of_nil].
    - apply (step_reveals s1 (ROTATE_AFTER + REVEAL_AFTER)). by vm_compute. }
  assert (key_for (abw s2) 1 = Some (example_keyed 2, Secret)) as Hk by (vm_compute; reflexivity).
  exists s2. split; [exact Hr|]. split; [vm_compute; reflexivity|]. split; [exact Hk|].
  destruct (abw_keys_kept 0 (example_keyed 1) s2 Hr) as (_ & H & _). destruct (H 1 _ Hk) as [Hp _]. exact Hp.
Defined.

Lemma next_due_exact_witness : rotation_due (start 0 (example_keyed 1)) ROTATE_AFTER <> None.
Proof.
  destruct (next_due_exact (start 0 (example_keyed 1)) ROTATE_AFTER) as [_ H]; [vm_compute; reflexivity|].
  destruct H as [H|H]; [vm_compute; discriminate|vm_compute in H; discriminate|exact H].
Defined.
