(* ===== verification/Polled.v ===== *)
(** The socket every connection of the protocol reads and writes through
    ([core/src/poll.rs]), which waits no longer than it is told to, and a frame taken off
    one ([read_next_frame] and [read_frame] of [core/src/datum/framing.rs]). What the
    operating system answers, and what the clock says, are given in the order they are
    asked for. *)
From S2P Require Import Prelude AbwSlots Framing Channel.

(** ** What the system answers *)

Inductive ReadAnswer := Chunk (n : nat) | WouldBlock | ReadInterrupted | ReadEnd | ReadFault.
Inductive WriteAnswer := Wrote (n : nat) | WriteBlocks | WriteInterrupted | WriteFault.
Inductive WaitAnswer := Woken (socket_ready : bool) | WaitInterrupted | WaitFault.

(** An answer to each call and a reading of the clock, in nanoseconds, for each time it is
    looked at. *)
Record System := { os_read : nat -> ReadAnswer; os_write : nat -> WriteAnswer; os_wait : nat -> WaitAnswer; clock : nat -> Z }.

Inductive IoError := TimedOut | UnexpectedEof | InvalidData | WriteZero | OtherError.

(** [readable] with what the peer has sent and is not read, what was written, the calls
    made and each wait with the instant it was asked for at. *)
Record PolledSocket := {
  readable : bool; incoming : bytes; outgoing : bytes;
  n_read : nat; n_write : nat; n_wait : nat; n_clock : nat; waits : list (Z * Z);
}.

Definition socket_new (incoming : bytes) : PolledSocket :=
  {| readable := false; incoming := incoming; outgoing := []; n_read := 0; n_write := 0; n_wait := 0; n_clock := 0; waits := [] |}.

Section socket.
Context (os : System).

Definition ticked (s : PolledSocket) : PolledSocket :=
  {| readable := readable s; incoming := incoming s; outgoing := outgoing s; n_read := n_read s; n_write := n_write s;
     n_wait := n_wait s; n_clock := S (n_clock s); waits := waits s |}.

Definition now (s : PolledSocket) : Z * PolledSocket := (clock os (n_clock s), ticked s).

Definition waited (s : PolledSocket) (ready : bool) (at_ d : Z) : PolledSocket :=
  {| readable := readable s || ready; incoming := incoming s; outgoing := outgoing s; n_read := n_read s; n_write := n_write s;
     n_wait := S (n_wait s); n_clock := n_clock s; waits := waits s ++ [(at_, d)] |}.

Definition wait (s : PolledSocket) (at_ timeout : Z) : PolledSocket * result IoError () :=
  match os_wait os (n_wait s) with
  | Woken ready => (waited s ready at_ timeout, Ok ())
  | WaitInterrupted => (waited s false at_ timeout, Ok ())
  | WaitFault => (waited s false at_ timeout, Err OtherError)
  end.

(** The socket after a read that took bytes, or none. *)
Definition read_done (s : PolledSocket) (ready : bool) (n : nat) : PolledSocket :=
  {| readable := ready; incoming := drop n (incoming s); outgoing := outgoing s; n_read := S (n_read s); n_write := n_write s;
     n_wait := n_wait s; n_clock := n_clock s; waits := waits s |}.

(** [read] to a buffer of [len] bytes: a peer that has sent none gives none. *)
Definition read (s : PolledSocket) (len : nat) : PolledSocket * result IoError (option bytes) :=
  match os_read os (n_read s) with
  | Chunk n =>
    match take (S n `min` len) (incoming s) with
    | [] => (read_done s false 0, Ok None)
    | got => (read_done s (readable s) (length got), Ok (Some got))
    end
  | WouldBlock => (read_done s false 0, Ok None)
  | ReadInterrupted => (read_done s (readable s) 0, Ok None)
  | ReadEnd => (read_done s (readable s) 0, Ok (Some []))
  | ReadFault => (read_done s (readable s) 0, Err OtherError)
  end.

(** The loop of [read_exact], [started] and [idle_since] being instants; none where the
    fuel is out. *)
Fixpoint read_loop (fuel : nat) (s : PolledSocket) (len : nat) (got : bytes) (idle total started idle_since : Z)
    : option (PolledSocket * result IoError bytes) :=
  match fuel with
  | O => None
  | S fuel =>
    if (len <=? length got)%nat then Some (s, Ok got) else
    let '(t, s) := now s in
    if total <=? duration_since t started then Some (s, Err TimedOut) else
    if negb (readable s) then
      let '(t, s) := now s in
      let left := idle - duration_since t idle_since in
      if left <=? 0 then Some (s, Err TimedOut) else
      let '(t, s) := now s in
      match wait s t (Z.min left (sat_sub total (duration_since t started))) with
      | (s, Err e) => Some (s, Err e)
      | (s, Ok _) => read_loop fuel s len got idle total started idle_since
      end
    else
      match read s (len - length got) with
      | (s, Err e) => Some (s, Err e)
      | (s, Ok (Some [])) => Some (s, Err UnexpectedEof)
      | (s, Ok (Some more)) => let '(t, s) := now s in read_loop fuel s len (got ++ more) idle total started t
      | (s, Ok None) => read_loop fuel s len got idle total started idle_since
      end
  end.

Definition read_exact (fuel : nat) (s : PolledSocket) (len : nat) (idle total : Z) : option (PolledSocket * result IoError bytes) :=
  let '(started, s) := now s in read_loop fuel s len [] idle total started started.

Definition write_done (s : PolledSocket) (sent : bytes) : PolledSocket :=
  {| readable := readable s; incoming := incoming s; outgoing := outgoing s ++ sent; n_read := n_read s; n_write := S (n_write s);
     n_wait := n_wait s; n_clock := n_clock s; waits := waits s |}.

Fixpoint write_loop (fuel : nat) (s : PolledSocket) (rest : bytes) (deadline : Z) : option (PolledSocket * result IoError ()) :=
  match fuel with
  | O => None
  | S fuel =>
    match rest with
    | [] => Some (s, Ok ())
    | _ =>
      match os_write os (n_write s) with
      | Wrote O => Some (write_done s [], Err WriteZero)
      | Wrote n => write_loop fuel (write_done s (take n rest)) (drop n rest) deadline
      | WriteInterrupted => write_loop fuel (write_done s []) rest deadline
      | WriteBlocks =>
        let '(t, s) := now (write_done s []) in
        let left := duration_since deadline t in
        if left =? 0 then Some (s, Err TimedOut) else
        match wait s t left with
        | (s, Err e) => Some (s, Err e)
        | (s, Ok _) => write_loop fuel s rest deadline
        end
      | WriteFault => Some (write_done s [], Err OtherError)
      end
    end
  end.

Definition write_all (fuel : nat) (s : PolledSocket) (data : bytes) (timeout : Z) : option (PolledSocket * result IoError ()) :=
  let '(t, s) := now s in write_loop fuel s data (t + timeout).

(** ** A frame *)

Definition PARTIAL_HEADER_TIMEOUT : Z := from_secs 30.

Inductive FrameRead := Empty | Closed | Complete (header : FrameHeader) (body : bytes).

(** What follows a read that did not fail; [c] is what the caller's [unmask] changes. *)
Definition and_then {A B C} (c : C) (r : option (PolledSocket * result IoError A))
    (f : PolledSocket -> A -> option (PolledSocket * C * result IoError B)) : option (PolledSocket * C * result IoError B) :=
  match r with
  | None => None
  | Some (s, Err e) => Some (s, c, Err e)
  | Some (s, Ok a) => f s a
  end.

(** The header and the body that follow the bytes of a header already read. *)
Definition read_next_frame {C} (fuel : nat) (s : PolledSocket) (c : C) (unmask : C -> bytes -> FrameHeader * C)
    (max_len body_idle body_total : Z) : option (PolledSocket * C * result IoError FrameRead) :=
  let '(s, first) := read s HEADER_LEN in
  match first with
  | Err e => Some (s, c, Err e)
  | Ok None => Some (s, c, Ok Empty)
  | Ok (Some []) => Some (s, c, Ok Closed)
  | Ok (Some got) =>
    and_then c (read_exact fuel s (HEADER_LEN - length got) PARTIAL_HEADER_TIMEOUT PARTIAL_HEADER_TIMEOUT) (fun s more =>
      let '(header, c) := unmask c (got ++ more) in
      if max_len <? cmd_len header then Some (s, c, Err InvalidData) else
      and_then c (read_exact fuel s (Z.to_nat (cmd_len header)) body_idle body_total)
        (fun s body => Some (s, c, Ok (Complete header body))))
  end.

Definition left (s : PolledSocket) (deadline : Z) : Z * PolledSocket := let '(t, s) := now s in (duration_since deadline t, s).

Definition read_frame {C} (fuel : nat) (s : PolledSocket) (c : C) (unmask : C -> bytes -> FrameHeader * C) (max_len deadline : Z)
    : option (PolledSocket * C * result IoError (FrameHeader * bytes)) :=
  let '(idle, s) := left s deadline in
  let '(total, s) := left s deadline in
  and_then c (read_exact fuel s HEADER_LEN idle total) (fun s head =>
    let '(header, c) := unmask c head in
    if max_len <? cmd_len header then Some (s, c, Err InvalidData) else
    let '(idle, s) := left s deadline in
    let '(total, s) := left s deadline in
    and_then c (read_exact fuel s (Z.to_nat (cmd_len header)) idle total) (fun s body => Some (s, c, Ok (header, body)))).
End socket.

(** ** What is read *)

Section reads.
Context (os : System).

Lemma read_spec s len : let '(s2, r) := read os s len in
  outgoing s2 = outgoing s /\ waits s2 = waits s /\ n_clock s2 = n_clock s /\
  match r with
  | Ok (Some got) => incoming s = got ++ incoming s2 /\ (length got <= len)%nat
  | Ok None => incoming s2 = incoming s
  | Err e => incoming s2 = incoming s /\ e <> InvalidData
  end.
Proof.
  unfold read. destruct (os_read os (n_read s)) as [n| | | |]; try (cbn; rewrite ?drop_0; split_and!; try done; cbn; lia).
  destruct (take (S n `min` len) (incoming s)) as [|b l] eqn:E; [cbn; by rewrite drop_0|]. cbn [outgoing waits n_clock incoming read_done].
  split_and!; try done.
  - rewrite <- E. rewrite <- (take_drop (S n `min` len) (incoming s)) at 1. f_equal. rewrite length_take.
    generalize (S n `min` len)%nat as m. intros m. destruct (decide (m <= length (incoming s))%nat); [by rewrite Nat.min_l|].
    rewrite Nat.min_r by lia. by rewrite !drop_ge by lia.
  - rewrite <- E, length_take. lia.
Qed.

(** A wait asked for at an instant is over by the end of what is allowed. *)
Definition in_time (deadline limit : Z) (w : Z * Z) : Prop := w.2 <= sat_sub deadline w.1 /\ w.2 <= limit.

(** The clock does not go back. *)
Definition steady : Prop := forall i j, (i <= j)%nat -> clock os i <= clock os j.

(** A loop takes bytes off what came, in order, and no wait of it outlasts its limits. *)
Lemma read_loop_spec fuel : forall s len got idle total started idle_since s2 r, steady -> 0 <= total ->
  started <= clock os (n_clock s) -> idle_since <= clock os (n_clock s) -> (length got <= len)%nat ->
  read_loop os fuel s len got idle total started idle_since = Some (s2, r) ->
  exists more ws, incoming s = more ++ incoming s2 /\ outgoing s2 = outgoing s /\ waits s2 = waits s ++ ws /\
    Forall (in_time (started + total) idle) ws /\ (n_clock s <= n_clock s2)%nat /\
    match r with Ok b => b = got ++ more /\ length b = len | Err e => (length got + length more < len)%nat /\ e <> InvalidData end.
Proof.
  induction fuel as [|fuel IH]; intros s len got idle total started idle_since s2 r Hc Ht Hs Hi Hl; [done|]. cbn [read_loop].
  destruct (Nat.leb_spec len (length got)) as [Hle|Hgt].
  { intros [= <- <-]. exists [], []. rewrite !app_nil_r. split_and!; try done. lia. }
  assert (forall s2 e, e <> InvalidData -> incoming s2 = incoming s -> outgoing s2 = outgoing s -> waits s2 = waits s -> (n_clock s <= n_clock s2)%nat ->
    exists more ws, incoming s = more ++ incoming s2 /\ outgoing s2 = outgoing s /\ waits s2 = waits s ++ ws /\
      Forall (in_time (started + total) idle) ws /\ (n_clock s <= n_clock s2)%nat /\
      match (Err e : result IoError bytes) with Ok b => b = got ++ more /\ length b = len | Err e => (length got + length more < len)%nat /\ e <> InvalidData end) as Hstop.
  { intros s3 e He -> -> -> Hn. exists [], []. rewrite app_nil_r. split_and!; try done. cbn. lia. }
  unfold now. change (readable (ticked s)) with (readable s).
  destruct (Z.leb_spec total (duration_since (clock os (n_clock s)) started)) as [|Hel]; [intros [= <- <-]; apply Hstop; cbn; first [done|lia]|].
  pose proof (Hc (n_clock s) (S (n_clock s)) ltac:(lia)). pose proof (Hc (S (n_clock s)) (S (S (n_clock s))) ltac:(lia)).
  pose proof (Hc (S (S (n_clock s))) (S (S (S (n_clock s)))) ltac:(lia)).
  destruct (readable s); cbn [negb].
  - pose proof (read_spec (ticked s) (len - length got)) as Hr. destruct (read os (ticked s) (len - length got)) as [s3 [[more|]|e]]; destruct Hr as (Ho & Hw & Hn & Hr).
    + destruct more as [|b more]; [destruct Hr as [Hr _]; intros [= <- <-]; apply Hstop; rewrite ?Hw, ?Ho, ?Hn; cbn in *; first [by rewrite Hr|done|lia]|].
      destruct Hr as [Hr Hlen]. intros Hloop.
      apply IH in Hloop as (more2 & ws & E1 & E2 & E3 & E4 & E5 & E6); [|done|done|cbn; rewrite Hn; cbn; lia|cbn; apply Hc; lia|rewrite length_app; lia].
      exists ((b :: more) ++ more2), ws. cbn in E1, E2, E3, E5. rewrite <- app_assoc, <- E1. split; [done|].
      split; [by rewrite E2, Ho|]. split; [by rewrite E3, Hw|]. split; [done|]. split; [rewrite Hn in E5; cbn in E5; lia|].
      destruct r as [b2|e]; [by rewrite app_assoc|]. destruct E6 as [E6 E7]. split; [|done]. rewrite !length_app in *. lia.
    + intros Hloop. apply IH in Hloop as (more2 & ws & E1 & E2 & E3 & E4 & E5 & E6); [|done|done|rewrite Hn; cbn; lia..|lia].
      exists more2, ws. split; [rewrite <- E1; by rewrite Hr|]. split; [by rewrite E2, Ho|]. split; [by rewrite E3, Hw|]. split; [done|].
      split; [rewrite Hn in E5; cbn in E5; lia|done].
    + destruct Hr as [Hr He]. intros [= <- <-]. apply Hstop; rewrite ?Hw, ?Ho, ?Hn, ?Hr; cbn; first [done|lia].
  - change (n_clock (ticked s)) with (S (n_clock s)). change (n_clock (ticked (ticked s))) with (S (S (n_clock s))). destruct (Z.leb_spec (idle - duration_since (clock os (S (n_clock s))) idle_since) 0) as [|Hleft];
      [intros [= <- <-]; apply Hstop; cbn; first [done|lia]|].
    set (d := Z.min _ _). set (t := clock os (S (S (n_clock s)))).
    assert (in_time (started + total) idle (t, d)) as Hd.
    { unfold in_time, d, t, sat_sub, duration_since in *. cbn [fst snd]. lia. }
    unfold wait. change (n_wait (ticked (ticked (ticked s)))) with (n_wait s). destruct (os_wait os (n_wait s)) as [ready| |].
    + intros Hloop. apply IH in Hloop as (more2 & ws & E1 & E2 & E3 & E4 & E5 & E6); cbn in *; [|done|done|lia..].
      exists more2, ((t, d) :: ws). split; [done|]. split; [done|]. split; [by rewrite E3, <- app_assoc|]. split; [by constructor|]. split; [lia|done].
    + intros Hloop. apply IH in Hloop as (more2 & ws & E1 & E2 & E3 & E4 & E5 & E6); cbn in *; [|done|done|lia..].
      exists more2, ((t, d) :: ws). split; [done|]. split; [done|]. split; [by rewrite E3, <- app_assoc|]. split; [by constructor|]. split; [lia|done].
    + intros [= <- <-]. exists [], [(t, d)]. split; [done|]. split; [done|]. split; [done|]. split; [by constructor|]. cbn. split; [lia|]. split; [lia|done].
Qed.

(** Each turn looks at the clock, so the loop is over by the time the clock says so. *)
Lemma read_loop_ends n fuel : forall s len got idle total started idle_since, steady -> started + total <= clock os n ->
  (n < n_clock s + fuel)%nat -> (0 < fuel)%nat -> exists s2 r, read_loop os fuel s len got idle total started idle_since = Some (s2, r).
Proof.
  induction fuel as [|fuel IH]; intros s len got idle total started idle_since Hc Hn Hf Hpos; [lia|]. cbn [read_loop].
  destruct (len <=? length got)%nat; [by eexists _, _|]. unfold now. change (readable (ticked s)) with (readable s).
  destruct (Z.leb_spec total (duration_since (clock os (n_clock s)) started)) as [|Hel]; [by eexists _, _|].
  assert (n_clock s < n)%nat as Hlt.
  { apply Nat.nle_gt. intros Hle. pose proof (Hc _ _ Hle). unfold duration_since in Hel. lia. }
  destruct (readable s); cbn [negb].
  - pose proof (read_spec (ticked s) (len - length got)) as Hr. destruct (read os (ticked s) (len - length got)) as [s3 [[[|b more]|]|e]];
      [by eexists _, _| | |by eexists _, _]; destruct Hr as (_ & _ & Hk & _); cbn in Hk; apply IH; try done; cbn; rewrite ?Hk; lia.
  - change (n_clock (ticked s)) with (S (n_clock s)). destruct (_ <=? 0); [by eexists _, _|]. unfold wait.
    destruct (os_wait os _); [| |by eexists _, _]; apply IH; try done; cbn; lia.
Qed.

(** What [read_exact] takes is the next bytes of the stream, it ends once the clock is past
    its limit, and it waits past none. *)
Lemma read_exact_spec fuel s len idle total s2 r : steady -> 0 <= total -> read_exact os fuel s len idle total = Some (s2, r) ->
  exists more ws, incoming s = more ++ incoming s2 /\ outgoing s2 = outgoing s /\ waits s2 = waits s ++ ws /\
    Forall (in_time (clock os (n_clock s) + total) idle) ws /\ (n_clock s <= n_clock s2)%nat /\
    match r with Ok b => b = more /\ length b = len | Err e => (length more < len)%nat /\ e <> InvalidData end.
Proof.
  intros Hc Ht Hr. unfold read_exact, now in Hr. apply read_loop_spec in Hr as (more & ws & E1 & E2 & E3 & E4 & E5 & E6);
    [|done|done|cbn; apply Hc; lia..|cbn; lia]. cbn in E1, E2, E3, E5. exists more, ws. split_and!; try done; lia.
Qed.

Lemma read_exact_ends n fuel s len idle total : steady -> clock os (n_clock s) + total <= clock os n -> (n < n_clock s + fuel)%nat -> (0 < fuel)%nat ->
  exists s2 r, read_exact os fuel s len idle total = Some (s2, r).
Proof. intros Hc Hn Hf Hp. unfold read_exact, now. apply (read_loop_ends n); cbn; try done. lia. Qed.

(** ** A frame *)

Lemma and_then_some {A B C} (c c2 : C) (o : option (PolledSocket * result IoError A))
    (f : PolledSocket -> A -> option (PolledSocket * C * result IoError B)) s r :
  and_then c o f = Some (s, c2, r) ->
  exists s1 r1, o = Some (s1, r1) /\ match r1 with Ok a => f s1 a = Some (s, c2, r) | Err e => s = s1 /\ c2 = c /\ r = Err e end.
Proof. destruct o as [[s1 [a|e]]|]; [|cbn; intros [= <- <- <-]|done]; by eexists _, _. Qed.

(** More fuel changes nothing. *)
Lemma read_loop_more k fuel : forall s len got idle total started idle_since x,
  read_loop os fuel s len got idle total started idle_since = Some x -> read_loop os (fuel + k) s len got idle total started idle_since = Some x.
Proof.
  induction fuel as [|fuel IH]; intros s len got idle total started idle_since x; [done|]. cbn [Nat.add read_loop].
  destruct (len <=? length got)%nat; [done|]. unfold now. destruct (_ <=? _); [done|]. destruct (readable _); cbn [negb].
  - destruct (read os _ _) as [s3 [[[|b more]|]|e]]; [done|apply IH|apply IH|done].
  - destruct (_ <=? 0); [done|]. destruct (wait os _ _ _) as [s3 [[]|e]]; [apply IH|done].
Qed.

Lemma read_exact_more fuel fuel2 s len idle total x : (fuel <= fuel2)%nat -> read_exact os fuel s len idle total = Some x ->
  read_exact os fuel2 s len idle total = Some x.
Proof. intros Hf. unfold read_exact, now. replace fuel2 with (fuel + (fuel2 - fuel))%nat by lia. apply read_loop_more. Qed.

(** Time goes on. *)
Definition goes_on : Prop := forall t, exists n, t <= clock os n.

Lemma read_exact_total s len idle total : steady -> goes_on -> exists fuel s2 r, read_exact os fuel s len idle total = Some (s2, r).
Proof.
  intros Hc Hg. destruct (Hg (clock os (n_clock s) + total)) as [n Hn]. exists (S n).
  apply (read_exact_ends n); [done|done|lia|lia].
Qed.

(** How the bytes of a frame are taken: no more than its header and its body, and of one
    over what is allowed no more than its header; the header unmasked once it is whole. *)
Definition frame_taken {C} (s s2 : PolledSocket) (c c2 : C) (unmask : C -> bytes -> FrameHeader * C) (max_len : Z)
    (head body : bytes) (r : result IoError FrameRead) : Prop :=
  incoming s = head ++ body ++ incoming s2 /\ outgoing s2 = outgoing s /\ (length head <= HEADER_LEN)%nat /\
  let unmasked := length head = HEADER_LEN /\ c2 = (unmask c head).2 in
  let h := (unmask c head).1 in
  match r with
  | Ok (Complete h' b) => unmasked /\ h' = h /\ b = body /\ length b = Z.to_nat (cmd_len h) /\ cmd_len h <= max_len
  | Ok Empty | Ok Closed => c2 = c /\ head = [] /\ body = []
  | Err InvalidData => unmasked /\ max_len < cmd_len h /\ body = []
  | Err _ => unmasked /\ (length body < Z.to_nat (cmd_len h))%nat /\ cmd_len h <= max_len \/ c2 = c /\ body = []
  end.

Lemma read_next_frame_spec {C} fuel s (c c2 : C) unmask max_len idle total s2 r : steady -> 0 <= total ->
  read_next_frame os fuel s c unmask max_len idle total = Some (s2, c2, r) ->
  exists head body ws, frame_taken s s2 c c2 unmask max_len head body r /\ waits s2 = waits s ++ ws /\
    Forall (fun w => w.2 <= Z.max PARTIAL_HEADER_TIMEOUT idle) ws.
Proof.
  intros Hc Ht. unfold read_next_frame. pose proof (read_spec s HEADER_LEN) as Hr. unfold frame_taken.
  destruct (read os s HEADER_LEN) as [s1 [[got|]|e]]; destruct Hr as (Ho & Hws & _ & Hr).
  2:{ intros [= <- <- <-]. exists [], [], []. rewrite Hr, Hws, app_nil_r. split_and!; try done. cbn. lia. }
  2:{ destruct Hr as [Hr He]. intros [= <- <- <-]. exists [], [], []. rewrite Hr, Hws, app_nil_r. split_and!; try done; [cbn; lia|]. destruct e; try done; by right. }
  destruct Hr as [Hin Hlen]. destruct got as [|b0 got].
  { intros [= <- <- <-]. exists [], [], []. rewrite Hws, app_nil_r. split_and!; try done. }
  set (first := b0 :: got) in *. intros (s3 & r3 & Hread & Hk)%and_then_some.
  apply read_exact_spec in Hread as (more & ws & E1 & E2 & E3 & E4 & _ & E6); [|done|done].
  assert (Forall (fun w => w.2 <= Z.max PARTIAL_HEADER_TIMEOUT idle) ws) as Hw1 by (eapply Forall_impl; [exact E4|]; intros w [_ Hw]; lia).
  destruct r3 as [rest|e].
  2:{ destruct Hk as (-> & -> & ->), E6 as [E6 He]. exists (first ++ more), [], ws. rewrite Hin, E1, <- app_assoc, E3, Hws.
      split_and!; try done; [by rewrite E2|rewrite length_app; lia|]. destruct e; try done; by right. }
  destruct E6 as [-> Hmore]. assert (length (first ++ more) = HEADER_LEN) as Hhead by (rewrite length_app; lia).
  destruct (unmask c (first ++ more)) as [h c3] eqn:Eu. destruct (Z.ltb_spec max_len (cmd_len h)).
  { injection Hk as <- <- <-. exists (first ++ more), [], ws. rewrite Hin, E1, <- app_assoc, E3, Hws, Eu. split_and!; try done; [by rewrite E2|lia]. }
  apply and_then_some in Hk as (s4 & r4 & Hread & Hk). apply read_exact_spec in Hread as (body & ws2 & F1 & F2 & F3 & F4 & _ & F6); [|done|done].
  assert (Forall (fun w => w.2 <= Z.max PARTIAL_HEADER_TIMEOUT idle) (ws ++ ws2)) as Hw2.
  { apply Forall_app. split; [done|]. eapply Forall_impl; [exact F4|]. intros w [_ Hw]. lia. }
  exists (first ++ more), body, (ws ++ ws2). rewrite Hin, E1, F1, Eu. destruct r4 as [b|e].
  - destruct F6 as [-> Hb]. injection Hk as <- <- <-. rewrite F3, E3, Hws, <- !app_assoc. split_and!; try done; [by rewrite F2, E2|lia].
  - destruct Hk as (-> & -> & ->), F6 as [F6 He]. rewrite F3, E3, Hws, <- !app_assoc. split_and!; try done; [by rewrite F2, E2|lia|]. destruct e; try done; by left.
Qed.

Lemma read_next_frame_total {C} s (c : C) unmask max_len idle total : steady -> goes_on ->
  exists fuel s2 c2 r, read_next_frame os fuel s c unmask max_len idle total = Some (s2, c2, r).
Proof.
  intros Hc Hg. unfold read_next_frame. destruct (read os s HEADER_LEN) as [s1 [[[|b0 got]|]|e]]; try by exists O; eexists _, _, _.
  destruct (read_exact_total s1 (HEADER_LEN - length (b0 :: got)) PARTIAL_HEADER_TIMEOUT PARTIAL_HEADER_TIMEOUT Hc Hg) as (f1 & s3 & [more|e] & H1).
  2:{ exists f1. rewrite H1. by eexists _, _, _. }
  destruct (unmask c ((b0 :: got) ++ more)) as [h c3] eqn:Eu.
  destruct (read_exact_total s3 (Z.to_nat (cmd_len h)) idle total Hc Hg) as (f2 & s4 & r4 & H2).
  exists (f1 + f2)%nat. rewrite (read_exact_more f1 (f1 + f2) _ _ _ _ _ ltac:(lia) H1). cbn [and_then]. rewrite Eu.
  destruct (max_len <? _); [by eexists _, _, _|]. rewrite (read_exact_more f2 (f1 + f2) _ _ _ _ _ ltac:(lia) H2). destruct r4; by eexists _, _, _.
Qed.

(** A whole frame read by a deadline: the read ends, with no more than is allowed. *)
Lemma read_frame_total {C} s (c : C) unmask max_len deadline : steady -> goes_on ->
  exists fuel s2 c2 r, read_frame os fuel s c unmask max_len deadline = Some (s2, c2, r) /\
    forall h b, r = Ok (h, b) -> length b = Z.to_nat (cmd_len h) /\ cmd_len h <= max_len.
Proof.
  intros Hc Hg. unfold read_frame, left, now. set (s1 := ticked (ticked s)). cbn zeta.
  set (idle := duration_since _ (clock os (n_clock s))). set (total := duration_since _ (clock os (n_clock (ticked s)))).
  destruct (read_exact_total s1 HEADER_LEN idle total Hc Hg) as (f1 & s2 & [head|e] & H1).
  2:{ exists f1. rewrite H1. eexists _, _, _. split; [done|]. done. }
  destruct (unmask c head) as [h c3] eqn:Eu.
  destruct (read_exact_total (ticked (ticked s2)) (Z.to_nat (cmd_len h)) (duration_since deadline (clock os (n_clock s2)))
    (duration_since deadline (clock os (n_clock (ticked s2)))) Hc Hg) as (f2 & s3 & r3 & H2).
  exists (f1 + f2)%nat. rewrite (read_exact_more f1 (f1 + f2) _ _ _ _ _ ltac:(lia) H1). cbn [and_then]. rewrite Eu.
  destruct (Z.ltb_spec max_len (cmd_len h)); [eexists _, _, _; by split|].
  rewrite (read_exact_more f2 (f1 + f2) _ _ _ _ _ ltac:(lia) H2). destruct r3 as [body|e]; eexists _, _, _; (split; [done|]); [|done].
  intros h2 b [= <- <-]. split; [|lia].
  destruct (read_exact_spec f2 _ _ _ (duration_since deadline (clock os (n_clock (ticked s2)))) _ _ Hc ltac:(unfold duration_since; lia) H2)
    as (more & ws & _ & _ & _ & _ & _ & [_ Hb]). exact Hb.
Qed.

(** ** What is written *)

(** A write puts the data out in order, all of it where it succeeds. *)
Lemma write_loop_spec fuel : forall s rest deadline s2 r, write_loop os fuel s rest deadline = Some (s2, r) ->
  exists sent left, rest = sent ++ left /\ outgoing s2 = outgoing s ++ sent /\ incoming s2 = incoming s /\ (r = Ok () -> left = []).
Proof.
  induction fuel as [|fuel IH]; intros s rest deadline s2 r; [done|]. cbn [write_loop].
  destruct rest as [|b rest]; [intros [= <- <-]; exists [], []; by rewrite (app_nil_r (outgoing s))|]. set (data := b :: rest).
  assert (forall (e : IoError) s3, outgoing s3 = outgoing s -> incoming s3 = incoming s -> exists sent left, data = sent ++ left /\
    outgoing s3 = outgoing s ++ sent /\ incoming s3 = incoming s /\ ((Err e : result IoError ()) = Ok () -> left = [])) as Hstop
    by (intros e s3 -> ->; exists [], data; by rewrite (app_nil_r (outgoing s))).
  destruct (os_write os (n_write s)) as [[|n]| | |].
  - intros [= <- <-]. apply Hstop; [apply app_nil_r|done].
  - intros Hl. apply IH in Hl as (sent & left & E1 & E2 & E3 & E4). cbn in E2, E3. exists (take (S n) data ++ sent), left.
    rewrite <- app_assoc, <- E1, take_drop. by rewrite E2, app_assoc.
  - unfold now. destruct (_ =? 0); [intros [= <- <-]; apply Hstop; [apply app_nil_r|done]|]. unfold wait.
    destruct (os_wait os _); [| |intros [= <- <-]; apply Hstop; [apply app_nil_r|done]];
      intros Hl; apply IH in Hl as (sent & left & E1 & E2 & E3 & E4); cbn in E2, E3; rewrite app_nil_r in E2; (exists sent, left; split_and!; assumption).
  - intros Hl. apply IH in Hl as (sent & left & E1 & E2 & E3 & E4). cbn in E2, E3. rewrite app_nil_r in E2. (exists sent, left; split_and!; assumption).
  - intros [= <- <-]. apply Hstop; [apply app_nil_r|done].
Qed.

Lemma write_all_spec fuel s data timeout s2 : write_all os fuel s data timeout = Some (s2, Ok ()) -> outgoing s2 = outgoing s ++ data.
Proof. unfold write_all, now. intros (sent & left & -> & E & _ & Hl)%write_loop_spec. by rewrite (Hl eq_refl), app_nil_r, E. Qed.
End reads.

(** ** A frame across two ends *)

(** [unmask_header] of the receiving channel, as it is given to the read. *)
Lemma unmask_framed (a b : Channel) header body : linked a b -> frame_header_wf header -> zlen body < 2 ^ 22 ->
  exists head k, frame a header body = (head ++ body, set_tx a (tx_nonce a) k) /\ length head = HEADER_LEN /\
    unmask_header b head = (with_cmd_len (zlen body) header, set_rx b (rx_nonce b) k).
Proof.
  intros [_ _ Hr Hkr] Hh Hl. pose proof (zlen_nonneg body). unfold frame. rewrite (wrap_small 32) by (unfold uint; lia).
  set (h := with_cmd_len _ _). assert (frame_header_wf h) as Hwf by (destruct Hh; constructor; [split; [done|exact Hl]|done|done]).
  destruct (unmask_mask (tx_header_key a) h Hkr Hwf) as [Hum _]. pose proof (length_mask (tx_header_key a) h) as Hlen.
  destruct (mask (tx_header_key a) h) as [head k]. cbn [fst snd] in Hum, Hlen. exists head, k. split_and!; [done|done|]. unfold unmask_header. by rewrite <- Hr, Hum.
Qed.

(** A frame crosses whole. Two ends of a channel being in step, and a frame one of
    them made being the next bytes the other's socket takes, however the system cuts them
    up, refuses them for now or interrupts: the read ends; a frame it gives is the one
    made, its header and its body, with nothing of what follows taken; one over what is
    allowed is refused with its body not read; and no wait of it is longer than a partial
    header's limit or a body's. *)
Theorem frame_crosses_whole (os : System) (s : PolledSocket) (a b : Channel) (header : FrameHeader) (body rest : bytes)
    (max_len idle total : Z) :
  steady os -> goes_on os -> 0 <= total -> linked a b -> frame_header_wf header -> zlen body < 2 ^ 22 ->
  incoming s = (frame a header body).1 ++ rest ->
  exists fuel s2 b2 r ws, read_next_frame os fuel s b unmask_header max_len idle total = Some (s2, b2, r) /\
    waits s2 = waits s ++ ws /\ Forall (fun w => w.2 <= Z.max PARTIAL_HEADER_TIMEOUT idle) ws /\
    match r with
    | Ok (Complete h got) => h = with_cmd_len (zlen body) header /\ got = body /\ zlen body <= max_len /\ incoming s2 = rest /\
        key (rx_header_key b2) = key (tx_header_key (frame a header body).2)
    | Ok Empty | Ok Closed => incoming s2 = incoming s /\ b2 = b
    | Err InvalidData => max_len < zlen body /\ incoming s2 = body ++ rest
    | Err _ => zlen (incoming s2) <= zlen (incoming s)
    end.
Proof.
  intros Hc Hg Ht Hab Hh Hl Hin. destruct (unmask_framed a b header body Hab Hh Hl) as (head & k & Ef & Hhead & Eu).
  destruct (read_next_frame_total os s b unmask_header max_len idle total Hc Hg) as (fuel & s2 & b2 & r & Hr).
  destruct (read_next_frame_spec os _ _ _ _ _ _ _ _ _ _ Hc Ht Hr) as (got & taken & ws & (E1 & _ & _ & E2) & Hw & Hws).
  exists fuel, s2, b2, r, ws. split_and!; [done..|]. rewrite Hin, Ef in E1. cbn [fst] in E1. rewrite <- app_assoc in E1.
  assert (length got = HEADER_LEN -> got = head /\ body ++ rest = taken ++ incoming s2) as Hgot.
  { intros Hg2. apply app_inj_1 in E1 as [-> E1]; [done|congruence]. }
  assert (Z.to_nat (zlen body) = length body) as Hzl by (unfold zlen; lia).
  destruct r as [[| |h got2]|e].
  - destruct E2 as (-> & -> & ->). rewrite Hin, Ef. cbn [fst]. by rewrite <- app_assoc.
  - destruct E2 as (-> & -> & ->). rewrite Hin, Ef. cbn [fst]. by rewrite <- app_assoc.
  - destruct E2 as ([Hlen ->] & -> & -> & Hb & Hm). destruct (Hgot Hlen) as [-> E]. rewrite Eu in *. cbn [fst snd cmd_len with_cmd_len] in *.
    rewrite Hzl in Hb. apply app_inj_1 in E as [-> ->]; [|congruence]. by rewrite Ef.
  - assert (zlen (incoming s2) <= zlen (incoming s)) as Hlen
      by (rewrite Hin, Ef; cbn [fst]; rewrite <- app_assoc, E1, !zlen_app; pose proof (zlen_nonneg got); pose proof (zlen_nonneg taken); lia).
    destruct e; try exact Hlen. destruct E2 as ([Hg2 _] & Hm & ->). destruct (Hgot Hg2) as [-> E]. by rewrite Eu in Hm.
Qed.

(** ** An example *)

(** A system that gives what came a few bytes at a time, after refusals and interruptions,
    its clock going on by a millisecond. *)
Definition example_system : System :=
  {| os_read := fun n => match Nat.modulo n 3 with O => Chunk 2 | S O => WouldBlock | _ => ReadInterrupted end;
     os_write := fun n => if Nat.even n then Wrote 2 else WriteBlocks;
     os_wait := fun n => if Nat.even n then Woken true else WaitInterrupted;
     clock := fun n => Z.of_nat n * 10 ^ 6 |}.

Definition example_header : FrameHeader :=
  {| cmd_len := 0; reserved := 0; is_signed := false; is_encrypted_pubkey := false; is_encrypted_channel := true; proto_cmd := cmd.MINING |}.

Definition example_body : bytes := le 11 0x1122334455.

Definition example_reading : PolledSocket := socket_new ((frame example_channel example_header example_body).1 ++ le 3 7).

Lemma example_steady : steady example_system.
Proof. intros i j Hij. cbn. lia. Defined.

Lemma example_goes_on : goes_on example_system.
Proof. intros t. exists (Z.to_nat t). cbn. lia. Defined.

Lemma frame_crosses_whole_witness :
  (exists fuel s2 b2 r ws,
    read_next_frame example_system fuel example_reading example_peer unmask_header 65536 (from_secs 30) (from_secs 120) = Some (s2, b2, r) /\
    waits s2 = ws /\ Forall (fun w => w.2 <= from_secs 30) ws) /\
  exists s2 b2 h,
    read_next_frame example_system 80 example_reading example_peer unmask_header 65536 (from_secs 30) (from_secs 120) =
      Some (s2, b2, Ok (Complete h example_body)) /\ incoming s2 = le 3 7.
Proof.
  split.
  - destruct (frame_crosses_whole example_system example_reading example_channel example_peer example_header example_body (le 3 7)
      65536 (from_secs 30) (from_secs 120)) as (fuel & s2 & b2 & r & ws & Hr & Hw & Hws & _);
      [exact example_steady|exact example_goes_on|by vm_compute|by repeat constructor; vm_compute|by repeat constructor|by vm_compute|reflexivity|].
    exists fuel, s2, b2, r, ws. split; [exact Hr|]. split; [exact Hw|exact Hws].
  - eexists _, _, _. split; [vm_compute; reflexivity|reflexivity].
Defined.
