(* ===== verification/Config.v ===== *)
(** The pool's configuration message ([core/src/datum/messages/config.rs]) in its
    two versions, and the migration request ([messages/migration.rs]). *)
From S2P Require Import Prelude Reader Utf8 Messages Handshake.
From S2P Require Bulk.

Definition CONFIG_VERSION : Z := 1.
Definition CONFIG_VERSION_V3 : Z := 3.
Definition CONFIG_FLAG_ABW_DISABLED : Z := 0x01.
Definition MAX_PAYOUT_SCRIPT_LEN : Z := 83.
Definition MAX_COINBASE_TAG_LEN : Z := 81.
Definition MIGRATION_REVISION : Z := 0.
Definition MIGRATION_ACTION_REDIRECT : Z := 0.
Definition MIGRATION_ACTION_RETURN_HOME : Z := 1.
Definition MAX_MIGRATION_HOST_LEN : Z := 1024.

Definition push_counted (b : bytes) : bytes := [zb (zlen b)] ++ b.

Definition take_counted (what : string) (max : Z) : parser Messages.Error bytes :=
  len ← u8 what;
  _ ← require (negb (max <? len)) (TooLong what len);
  take_bytes len what.

Definition COINBASE_TAG_HOLDS_NUL : string :=
  "coinbase tag holds a NUL byte, which a C gateway reads as the end of the tag".

(** The bytes before the first NUL, which must be UTF-8. *)
Definition coinbase_tag_of (field : bytes) : result Messages.Error bytes :=
  let before_nul := take (default (length field) (position (fun b => bz b =? 0) field)) field in
  ok_or (Messages.Malformed "coinbase tag is not UTF-8") (from_utf8 before_nul).

Record V3Config := { resume_token : bytes; bulk_framing : bool; abw_disabled : bool }.

Record ClientConfig := {
  payout_script : bytes;
  prime_id : Z;
  coinbase_tag : bytes;
  min_difficulty : Z;
  v3 : option V3Config;
}.

Definition is_power_of_two (v : Z) : bool := (0 <? v) && (2 ^ Z.log2 v =? v).

Definition check_fields (c : ClientConfig) : result Messages.Error () :=
  _ ← ensure (negb (MAX_PAYOUT_SCRIPT_LEN <? zlen (payout_script c)))
        (TooLong "payout script" (zlen (payout_script c)));
  _ ← ensure (negb (MAX_COINBASE_TAG_LEN <? zlen (coinbase_tag c)))
        (TooLong "coinbase tag" (zlen (coinbase_tag c)));
  _ ← ensure (negb (existsb (fun b => bz b =? 0) (coinbase_tag c)))
        (Messages.Malformed COINBASE_TAG_HOLDS_NUL);
  _ ← ensure (is_power_of_two (min_difficulty c)) (MinDifficultyNotPowerOfTwo (min_difficulty c));
  ensure (negb (negb (is_some (v3 c)) && (2 ^ 32 <=? prime_id c))) (PrimeIdTooWide (prime_id c)).

Definition encode_config (c : ClientConfig) : result Messages.Error bytes :=
  _ ← check_fields c;
  Ok ([zb server_subcmd.CONFIG] ++
    match v3 c with
    | None =>
      [zb CONFIG_VERSION] ++ push_counted (payout_script c) ++ le 4 (prime_id c) ++
      push_counted (coinbase_tag c) ++ le 8 (min_difficulty c) ++ [zb 0] ++ [zb STRUCT_END]
    | Some v =>
      [zb CONFIG_VERSION_V3] ++ push_counted (payout_script c) ++ le 8 (prime_id c) ++
      resume_token v ++ push_counted (coinbase_tag c) ++ le 8 (min_difficulty c) ++
      [zb (if abw_disabled v then CONFIG_FLAG_ABW_DISABLED else 0)] ++ [zb STRUCT_END] ++
      (if bulk_framing v then Bulk.DBF_MARKER else [])
    end).

Definition read_config : parser Messages.Error ClientConfig :=
  _ ← open_message server_subcmd.CONFIG;
  version ← u8 "version";
  payout_script ← take_counted "payout script" MAX_PAYOUT_SCRIPT_LEN;
  '(prime_id, resume_token) ←
    (if version =? CONFIG_VERSION then
       p ← u32 "prime id"; mret (p, None)
     else if version =? CONFIG_VERSION_V3 then
       p ← u64 "prime id"; t ← arr RESUME_TOKEN_LEN "resume token"; mret (p, Some t)
     else fail (BadVersion version));
  field ← take_counted "coinbase tag" MAX_COINBASE_TAG_LEN;
  coinbase_tag ← lift (coinbase_tag_of field);
  min_difficulty ← u64 "min difficulty";
  flags ← u8 "flags";
  _ ← read_terminator;
  let known_flags := if is_some resume_token then CONFIG_FLAG_ABW_DISABLED else 0 in
  _ ← require (Z.land flags (lnot 8 known_flags) =? 0) (BadFlags flags);
  c ← get_reader;
  mret {| payout_script := payout_script; prime_id := prime_id; coinbase_tag := coinbase_tag;
          min_difficulty := min_difficulty;
          v3 := (fun t => {| resume_token := t;
                  bulk_framing := bool_decide (take (length Bulk.DBF_MARKER) (rest c) = Bulk.DBF_MARKER);
                  abw_disabled := has_bits flags CONFIG_FLAG_ABW_DISABLED |}) <$> resume_token |}.

Definition decode_config (data : bytes) : result Messages.Error ClientConfig :=
  parse_all read_config data.

(** ** Migration *)

Record MigrationTarget := { host : bytes; port : Z; pubkey : PublicKeys }.

Inductive MigrationRequest :=
| Redirect (t : MigrationTarget)
| ReturnHome.

Definition read_migration_target : parser Messages.Error MigrationTarget :=
  host_len ← u16 "host length";
  _ ← require (negb ((host_len =? 0) || (MAX_MIGRATION_HOST_LEN <=? host_len)))
        (OutOfRange "host" host_len);
  host ← take_bytes host_len "host";
  _ ← require (negb (existsb (fun b => bz b =? 0) host)) (Messages.Malformed "host holds a NUL byte");
  port ← u16 "port";
  _ ← require (negb (port =? 0)) (Messages.Malformed "port is 0");
  pubkey ← arr PUBLIC_KEYS_LEN "pubkey";
  mret {| host := from_utf8_lossy host; port := port; pubkey := public_keys_from_bytes pubkey |}.

Definition read_migration : parser Messages.Error MigrationRequest :=
  _ ← open_message server_subcmd.MIGRATION;
  revision ← u8 "revision";
  _ ← require (revision =? MIGRATION_REVISION) (BadVersion revision);
  action ← u8 "action";
  request ←
    (if action =? MIGRATION_ACTION_RETURN_HOME then mret ReturnHome
     else if action =? MIGRATION_ACTION_REDIRECT then t ← read_migration_target; mret (Redirect t)
     else fail (Messages.Malformed "unknown migration action"));
  _ ← read_final_terminator;
  mret request.

Definition decode_migration (data : bytes) : result Messages.Error MigrationRequest :=
  parse_all read_migration data.

(** ** The configuration read back *)

(** A [String] tag and the fields' widths, which the types of the source give. *)
Record config_wf (c : ClientConfig) : Prop := {
  wf_prime_id : uint 64 (prime_id c);
  wf_tag_utf8 : valid_utf8 (coinbase_tag c) = true;
  wf_min_difficulty : uint 64 (min_difficulty c);
  wf_resume_token : forall v, v3 c = Some v -> length (resume_token v) = RESUME_TOKEN_LEN;
}.

Lemma take_counted_ok what max b f tl :
  zlen b <= max -> max < 256 ->
  take_counted what max (Rd f (push_counted b ++ tl)) = Ok (b, Rd f tl).
Proof.
  intros Hb Hm. unfold take_counted, push_counted. pose proof (zlen_nonneg b). flat_app. parse_u8.
  erewrite bind_ok by (apply require_ok, negb_true_iff, Z.ltb_ge; done). cbn beta. by apply take_ok.
Qed.

Lemma coinbase_tag_of_ok t :
  valid_utf8 t = true -> existsb (fun b => bz b =? 0) t = false -> coinbase_tag_of t = Ok t.
Proof.
  intros Hv Hn. unfold coinbase_tag_of.
  assert (position (fun b => bz b =? 0) t = None) as ->.
  { apply position_None. apply Forall_forall. intros b Hb.
    destruct (bz b =? 0) eqn:H0; [|done]. rewrite <- Hn. symmetry. apply existsb_exists.
    exists b. by rewrite <- list_elem_of_In. }
  cbn [default from_option id]. rewrite take_ge by done. unfold from_utf8. by rewrite Hv.
Qed.

Lemma check_fields_inv c :
  check_fields c = Ok () ->
  zlen (payout_script c) <= MAX_PAYOUT_SCRIPT_LEN /\ zlen (coinbase_tag c) <= MAX_COINBASE_TAG_LEN /\
  existsb (fun b => bz b =? 0) (coinbase_tag c) = false /\
  is_power_of_two (min_difficulty c) = true /\
  (v3 c = None -> prime_id c < 2 ^ 32).
Proof.
  unfold check_fields. intros H.
  destruct (Z.ltb_spec MAX_PAYOUT_SCRIPT_LEN (zlen (payout_script c))); [done|].
  destruct (Z.ltb_spec MAX_COINBASE_TAG_LEN (zlen (coinbase_tag c))); [done|].
  destruct (existsb _ (coinbase_tag c)) eqn:He; [done|].
  cbn [negb ensure mbind result_bind] in H.
  destruct (is_power_of_two (min_difficulty c)); [|done]. cbn [ensure mbind result_bind] in H.
  split_and!; try done. intros Hn. rewrite Hn in H. cbn [is_some negb andb] in H.
  destruct (Z.leb_spec (2 ^ 32) (prime_id c)); [done|lia].
Qed.

(** the configuration the pool encodes, in either version, is the one the
    gateway decodes: payout script, prime id, tag, minimum difficulty, and under
    version 3 the resume token and both flags. *)
Theorem config_roundtrip (c : ClientConfig) (data : bytes) :
  config_wf c -> encode_config c = Ok data -> decode_config data = Ok c.
Proof.
  intros [Hp Ht Hm Hv] Henc. unfold encode_config in Henc.
  destruct (check_fields c) as [[]|] eqn:Hcheck; [|done]. cbn [mbind result_bind] in Henc.
  injection Henc as <-. apply check_fields_inv in Hcheck as (Hs & Hl & Hn & _ & Hpid).
  unfold decode_config, parse_all, new_reader.
  set (f := zb server_subcmd.CONFIG :: _) at 1. clearbody f. unfold read_config.
  erewrite bind_ok by (by apply open_message_ok). cbn beta.
  destruct c as [script pid tag diff [v|]]; cbn [payout_script prime_id coinbase_tag min_difficulty v3] in *.
  - flat_app. parse_u8. erewrite bind_ok by (by apply take_counted_ok). cbn beta.
    cbn [Z.eqb Pos.eqb CONFIG_VERSION CONFIG_VERSION_V3]. specialize (Hv v eq_refl).
    erewrite bind_ok; cycle 1.
    { erewrite bind_ok by (by apply u64_ok). cbn beta. by erewrite bind_ok by (by apply arr_ok). }
    cbn beta iota. erewrite bind_ok by (by apply take_counted_ok). cbn beta.
    erewrite bind_ok by (unfold lift; by rewrite coinbase_tag_of_ok). cbn beta.
    erewrite bind_ok by (by apply u64_ok). cbn beta.
    erewrite bind_ok by (apply (u8_ok _ (if abw_disabled v then _ else _)); by destruct (abw_disabled v)).
    cbn beta. erewrite bind_ok by apply read_terminator_ok. cbn beta zeta.
    erewrite bind_ok by (apply require_ok; by destruct (abw_disabled v)). cbn beta.
    erewrite bind_ok by done. cbn beta. cbn [rest]. unfold mret, parser_ret.
    cbn [fmap result_fmap fst option_fmap option_map].
    do 2 f_equal. destruct v as [tok bulk abw]; cbn [resume_token bulk_framing abw_disabled] in *.
    by destruct bulk, abw.
  - flat_app. parse_u8. erewrite bind_ok by (by apply take_counted_ok). cbn beta.
    cbn [Z.eqb Pos.eqb CONFIG_VERSION CONFIG_VERSION_V3]. specialize (Hpid eq_refl).
    erewrite bind_ok; cycle 1.
    { by erewrite bind_ok by (apply u32_ok; unfold uint in *; lia). }
    cbn beta iota. erewrite bind_ok by (by apply take_counted_ok). cbn beta.
    erewrite bind_ok by (unfold lift; by rewrite coinbase_tag_of_ok). cbn beta.
    erewrite bind_ok by (by apply u64_ok). cbn beta. parse_u8.
    by erewrite bind_ok by apply read_terminator_ok.
Qed.

Definition example_config : ClientConfig :=
  {| payout_script := zeros 22; prime_id := 2 ^ 40; coinbase_tag := zb <$> [0x70; 0x6f; 0x6f; 0x6c];
     min_difficulty := 1024;
     v3 := Some {| resume_token := zeros 40; bulk_framing := true; abw_disabled := false |} |}.

Lemma config_roundtrip_witness : exists data,
  encode_config example_config = Ok data /\ decode_config data = Ok example_config.
Proof.
  eexists. split; [vm_compute; reflexivity|].
  apply (config_roundtrip example_config); [|vm_compute; reflexivity].
  constructor; try (by vm_compute). by intros v [= <-].
Defined.

(** ** The migration request *)

Definition migration_bytes (r : MigrationRequest) : bytes :=
  [zb server_subcmd.MIGRATION] ++ [zb MIGRATION_REVISION] ++
  match r with
  | ReturnHome => [zb MIGRATION_ACTION_RETURN_HOME]
  | Redirect t => [zb MIGRATION_ACTION_REDIRECT] ++ le 2 (zlen (host t)) ++ host t ++
                  le 2 (port t) ++ public_keys_to_bytes (pubkey t)
  end ++ [zb STRUCT_END].

Record migration_target_wf (t : MigrationTarget) : Prop := {
  wf_host_utf8 : valid_utf8 (host t) = true;
  wf_host_length : 0 < zlen (host t) < MAX_MIGRATION_HOST_LEN;
  wf_host_no_nul : existsb (fun b => bz b =? 0) (host t) = false;
  wf_port : 0 < port t < 2 ^ 16;
  wf_pubkey_sign : length (sign_pk (pubkey t)) = PUBKEY_LEN;
  wf_pubkey_box : length (box_pk (pubkey t)) = PUBKEY_LEN;
}.

(** A migration request of the documented layout decodes to what it names. *)
Lemma decode_migration_bytes r :
  (forall t, r = Redirect t -> migration_target_wf t) ->
  decode_migration (migration_bytes r) = Ok r.
Proof.
  intros Hr. unfold decode_migration, parse_all, new_reader.
  set (f := migration_bytes r) at 1. clearbody f. unfold migration_bytes, read_migration. flat_app.
  erewrite bind_ok by (by apply open_message_ok). cbn beta. parse_u8.
  erewrite bind_ok by (by apply require_ok). cbn beta.
  destruct r as [t|]; flat_app; parse_u8.
  - destruct (Hr t eq_refl) as [Hu Hl Hn Hp Hs Hb]. unfold MAX_MIGRATION_HOST_LEN in Hl.
    cbn [Z.eqb Pos.eqb MIGRATION_ACTION_REDIRECT MIGRATION_ACTION_RETURN_HOME].
    erewrite bind_ok; cycle 1.
    { erewrite bind_ok; cycle 1.
      { unfold read_migration_target. erewrite bind_ok by (apply u16_ok; unfold uint; lia). cbn beta.
        erewrite bind_ok by (apply require_ok; rewrite (proj2 (Z.eqb_neq _ _)),
          (proj2 (Z.leb_gt _ _)) by (unfold MAX_MIGRATION_HOST_LEN; lia); done).
        cbn beta. erewrite bind_ok by (by apply take_ok). cbn beta.
        erewrite bind_ok by (by apply require_ok, negb_true_iff). cbn beta.
        erewrite bind_ok by (apply u16_ok; unfold uint; lia). cbn beta.
        erewrite bind_ok by (apply require_ok, negb_true_iff, Z.eqb_neq; lia). cbn beta.
        unfold public_keys_to_bytes.
        erewrite bind_ok by (apply arr_ok; rewrite length_app, Hs, Hb; done). done. }
      done. }
    cbn beta. erewrite bind_ok by apply read_final_terminator_ok. cbn beta.
    unfold mret, parser_ret. cbn [fmap result_fmap fst].
    rewrite from_utf8_lossy_valid by done. unfold public_keys_from_bytes.
    rewrite take_length_app, drop_length_app by done. by destruct t as [h p [s b]].
  - cbn [Z.eqb Pos.eqb MIGRATION_ACTION_REDIRECT MIGRATION_ACTION_RETURN_HOME].
    erewrite bind_ok by done. cbn beta. by erewrite bind_ok by apply read_final_terminator_ok.
Qed.
