(* ===== verification/Validation.v ===== *)
(** The job validation exchange ([core/src/datum/messages/validation.rs]): the
    transaction lists, the parent block reply, the short ids and their
    crosscheck. *)
From S2P Require Import Prelude Reader Header SipHash Messages.

Definition SUBCMD : Z := 0x50.

Module request.
Definition SHORT_TXN_LIST : Z := 0x10.
Definition TXNS : Z := 0x11.
Definition BLOCK_TXNS : Z := 0x12.
Definition PARENT_FETCH : Z := 0x14.
End request.

Module response.
Definition SHORT_TXN_LIST : Z := 0x90.
Definition TXNS : Z := 0x91.
Definition BLOCK_TXNS : Z := 0x92.
Definition PARENT_FETCH : Z := 0x94.
End response.

Definition JOB_INDEX_INVALID : Z := 0xff.
Definition MAX_SHORT_LIST_TXNS : Z := 16383.

Inductive TxnListStatus :=
| StatusOk | JobEmpty | NoTemplate | TooManyTxns | BadJobIndex | BadRequest
| UnknownStatus (code : Z).

#[global] Instance TxnListStatus_eq_dec : EqDecision TxnListStatus.
Proof. solve_decision. Defined.

Definition status_code (s : TxnListStatus) : Z :=
  match s with
  | StatusOk => 0x01 | JobEmpty => 0xf0 | NoTemplate => 0xf1 | TooManyTxns => 0xf2
  | BadJobIndex => 0xf3 | BadRequest => 0xf4 | UnknownStatus code => code
  end.

Definition status_from_code (code : Z) : TxnListStatus :=
  if code =? 0x01 then StatusOk else if code =? 0xf0 then JobEmpty
  else if code =? 0xf1 then NoTemplate else if code =? 0xf2 then TooManyTxns
  else if code =? 0xf3 then BadJobIndex else if code =? 0xf4 then BadRequest
  else UnknownStatus code.

Definition SELECTOR_AT : nat := 1.
Definition JOB_INDEX_AT : nat := 2.
Definition REQUEST_HEADER_LEN : nat := JOB_INDEX_AT + 1.
Definition PARENT_FETCH_REQUEST_LEN : nat := REQUEST_HEADER_LEN + 32.

Definition request_block_txns (job_index : Z) : bytes :=
  [zb SUBCMD; zb request.BLOCK_TXNS; zb job_index].

Inductive ParentFetchStatus :=
| Success | JobMismatch | Busy | Unavailable | RpcFailed | UnknownFetch (code : Z).

Definition parent_fetch_code (s : ParentFetchStatus) : Z :=
  match s with
  | Success => 0x01 | JobMismatch => 0xf0 | Busy => 0xf6 | Unavailable => 0xf7
  | RpcFailed => 0xf8 | UnknownFetch code => code
  end.

Record ParentFetchReply := {
  fetch_job_index : Z;
  fetch_status : ParentFetchStatus;
  parent_hash : bytes;
  fetch_block : bytes;
}.

Definition encode_parent_fetch (r : ParentFetchReply) : bytes :=
  [zb SUBCMD] ++ [zb response.PARENT_FETCH] ++ [zb (fetch_job_index r)] ++
  [zb (parent_fetch_code (fetch_status r))] ++ parent_hash r ++ le 4 (zlen (fetch_block r)) ++
  fetch_block r ++ [zb STRUCT_END].

Definition SHORT_ID_SIZE : nat := 4 + 2.
Definition SHORT_ID_MASK : Z := Z.shiftl 1 (8 * Z.of_nat SHORT_ID_SIZE) - 1.

Definition CROSSCHECK_SEED : bytes := zb <$>
  [0xA3; 0x4F; 0xC1; 0x9C; 0x5E; 0x88; 0x76; 0x12; 0x0A; 0x79; 0x3E; 0xF1; 0x6C; 0x93; 0x54; 0xAF;
   0xB8; 0x1D; 0xE8; 0x5A; 0x20; 0xC7; 0x94; 0x38; 0x6F; 0xA1; 0x02; 0xD9; 0x4A; 0x7B; 0xF0; 0x11].

Record ShortTxnList := {
  short_job_index : Z;
  short_status : TxnListStatus;
  short_ids : list Z;
  short_crosscheck : option bytes;
}.

Definition encode_short_list (l : ShortTxnList) : bytes :=
  [zb SUBCMD; zb response.SHORT_TXN_LIST; zb (short_job_index l); zb (status_code (short_status l))] ++
  if negb (bool_decide (short_status l = StatusOk)) then [] else
  le 2 (zlen (short_ids l)) ++
  if bool_decide (short_ids l = []) then [] else
  mjoin ((fun id => take SHORT_ID_SIZE (le 8 id)) <$> short_ids l) ++
  default [] (short_crosscheck l) ++ [zb STRUCT_END].

Record TxnList := {
  selector : Z;
  job_index : Z;
  txn_status : TxnListStatus;
  txns : list bytes;
}.

Definition txn_list_empty (selector job_index : Z) (status : TxnListStatus) : TxnList :=
  {| selector := selector; job_index := job_index; txn_status := status; txns := [] |}.

Definition TXN_SIZE_LEN : nat := 3.

Definition decode_txn_size : parser Error Z :=
  b ← arr TXN_SIZE_LEN "txn size";
  mret (Z.lor (le_val (take 2 b)) (Z.shiftl (le_val (drop 2 b)) 16)).

Definition encode_txn_size (len : Z) : bytes := le 2 len ++ [zb (Z.shiftr len 16)].

Definition body_of (want : Z) : parser Error () :=
  _ ← open_message SUBCMD;
  got ← u8 "response selector";
  require (got =? want) (WrongMessage want got).

Definition read_txn : parser Error bytes := len ← decode_txn_size; take_bytes len "txn".

Definition read_txn_list (selector : Z) : parser Error TxnList :=
  _ ← body_of selector;
  job_index ← u8 "job index";
  code ← u8 "status";
  let status := status_from_code code in
  if negb (bool_decide (status = StatusOk)) then mret (txn_list_empty selector job_index status) else
  stated ← u16 "txn count";
  txns ← parse_n stated read_txn;
  _ ← read_terminator;
  mret {| selector := selector; job_index := job_index; txn_status := status; txns := txns |}.

Definition decode_txn_list (data : bytes) (selector : Z) : result Error TxnList :=
  parse_all (read_txn_list selector) data.

Definition encode_txn_list (l : TxnList) : bytes :=
  [zb SUBCMD; zb (selector l); zb (job_index l); zb (status_code (txn_status l))] ++
  if negb (bool_decide (txn_status l = StatusOk)) then [] else
  le 2 (zlen (txns l)) ++ mjoin ((fun tx => encode_txn_size (zlen tx) ++ tx) <$> txns l) ++
  [zb STRUCT_END].

Definition short_id_key (gateway_pk pool_pk : bytes) : bytes :=
  zip_with (fun g p => zb (Z.lxor (Z.lxor (bz g) (bz p)) 0x55)) (take 16 gateway_pk) (take 16 pool_pk).

Definition short_id (hash key : bytes) : Z := Z.land (siphash24 key hash) SHORT_ID_MASK.

Definition crosscheck (hashes : list bytes) : bytes := foldl xor_bytes CROSSCHECK_SEED hashes.

(** ** Transaction lists *)

Definition status_wf (s : TxnListStatus) : Prop :=
  match s with
  | UnknownStatus c => uint 8 c /\ c ∉ [0x01; 0xf0; 0xf1; 0xf2; 0xf3; 0xf4]
  | _ => True
  end.

Record txn_list_wf (l : TxnList) : Prop := {
  wf_selector : uint 8 (selector l);
  wf_job_index : uint 8 (job_index l);
  wf_txn_status : status_wf (txn_status l);
  wf_txn_count : zlen (txns l) < 2 ^ 16;
  wf_txn_sizes : Forall (fun tx => zlen tx < 2 ^ 24) (txns l);
  wf_no_txns : txn_status l <> StatusOk -> txns l = [];
}.

Lemma status_code_back s : status_wf s -> uint 8 (status_code s) /\ status_from_code (status_code s) = s.
Proof.
  destruct s as [| | | | | |c]; cbn [status_wf]; try done. intros [Hc Hn]. split; [done|].
  cbn [status_code]. unfold status_from_code. rewrite !not_elem_of_cons in Hn. destruct_and!.
  by rewrite !(proj2 (Z.eqb_neq c _)) by done.
Qed.

Lemma status_from_code_wf c : uint 8 c -> status_wf (status_from_code c).
Proof.
  intros Hc. unfold status_from_code. repeat case_test; try done. reflect_Z.
  split; [done|]. rewrite !not_elem_of_cons. split_and!; try done. apply not_elem_of_nil.
Qed.

Lemma read_txn_ok tx f tl :
  zlen tx < 2 ^ 24 -> read_txn (Rd f ((encode_txn_size (zlen tx) ++ tx) ++ tl)) = Ok (tx, Rd f tl).
Proof.
  intros Hl. pose proof (zlen_nonneg tx). unfold read_txn, decode_txn_size, encode_txn_size. flat_app.
  change (zb (Z.shiftr (zlen tx) 16) :: tx ++ tl) with ([zb (Z.shiftr (zlen tx) 16)] ++ tx ++ tl).
  rewrite app_assoc. erewrite bind_ok; cycle 1.
  { erewrite bind_ok by (apply arr_ok; rewrite length_app, length_le; done). done. }
  cbn beta. apply take_ok. rewrite take_length_app, drop_length_app by apply length_le.
  rewrite le_val_le. change (256 ^ Z.of_nat 2) with (2 ^ 16). cbn [le_val].
  rewrite Z.shiftr_div_pow2 by done. rewrite bz_zb_small.
  - rewrite lor_shiftl_high by (try done; apply Z.mod_pos_bound; done).
    rewrite Z.mul_0_r, Z.add_0_r, Z.add_comm. rewrite Z.mul_comm. by apply Z.div_mod.
  - split; [apply Z.div_pos; done|]. apply Z.div_lt_upper_bound; done.
Qed.

(** What the gateway appends to a message after its end is not read. *)
Lemma txn_list_read_back (l : TxnList) (want : Z) (pad : bytes) :
  txn_list_wf l -> uint 8 want ->
  decode_txn_list (encode_txn_list l ++ pad) want =
  if selector l =? want then Ok l else Err (WrongMessage want (selector l)).
Proof.
  intros [Hs Hj Hst Hc Hsz Hno] Hw. unfold decode_txn_list, parse_all, new_reader.
  set (f := encode_txn_list l ++ pad) at 1. clearbody f. unfold encode_txn_list, read_txn_list, body_of.
  cbn [app]. destruct (status_code_back _ Hst) as [Hcode Hback].
  destruct (Z.eqb_spec (selector l) want) as [<-|Hne].
  - erewrite bind_ok; cycle 1.
    { erewrite bind_ok by (by apply open_message_ok). cbn beta.
      erewrite bind_ok by (by apply u8_ok). cbn beta. apply require_ok, Z.eqb_refl. }
    cbn beta. erewrite bind_ok by (by apply u8_ok). cbn beta.
    erewrite bind_ok by (by apply u8_ok). cbn beta zeta. rewrite Hback.
    case_bool_decide as Hok; cbn [negb].
    + pose proof (zlen_nonneg (txns l)). rewrite <- !app_assoc.
      erewrite bind_ok by (apply u16_ok; unfold uint; lia). cbn beta.
      erewrite bind_ok; cycle 1.
      { apply (parse_n_ok read_txn (fun tx => encode_txn_size (zlen tx) ++ tx)).
        intros tx f' tl Htx. apply read_txn_ok. by eapply Forall_forall in Hsz. }
      cbn beta. erewrite bind_ok by apply read_terminator_ok. by destruct l.
    + specialize (Hno Hok). unfold mret, parser_ret, txn_list_empty. cbn. by destruct l; cbn in *; subst.
  - unfold mbind at 1, parser_bind at 1. erewrite bind_ok by (by apply open_message_ok). cbn beta.
    erewrite bind_ok by (by apply u8_ok). cbn beta. unfold require, lift.
    by rewrite (proj2 (Z.eqb_neq _ _)).
Qed.

(** A transaction list the gateway encodes is the one the pool decodes under
    the selector it asked for, transaction for transaction, and a failure comes
    across as its status; a list answering another request is refused. *)
Theorem txn_list_roundtrip (l : TxnList) (want : Z) :
  txn_list_wf l -> uint 8 want ->
  decode_txn_list (encode_txn_list l) want =
  if selector l =? want then Ok l else Err (WrongMessage want (selector l)).
Proof. intros Hl Hw. by rewrite <- (txn_list_read_back l want []), app_nil_r by done. Qed.

Lemma txn_list_roundtrip_witness :
  let l := {| selector := response.BLOCK_TXNS; job_index := 3; txn_status := StatusOk;
              txns := [zeros 300; []; [zb 7]] |} in
  decode_txn_list (encode_txn_list l) response.BLOCK_TXNS = Ok l.
Proof.
  intros l. apply (txn_list_roundtrip l response.BLOCK_TXNS); [|done].
  constructor; try done. by repeat constructor.
Defined.

(** ** Short ids and the crosscheck *)

Lemma short_id_range h k : uint 48 (short_id h k).
Proof.
  unfold short_id. change SHORT_ID_MASK with (2 ^ 48 - 1). rewrite land_mask by done.
  apply Z.mod_pos_bound. done.
Qed.

(** Both sides derive the same short id key, whichever key comes first. *)
Lemma short_id_key_comm a b : short_id_key a b = short_id_key b a.
Proof.
  unfold short_id_key. generalize (take 16 a) (take 16 b). intros l.
  induction l as [|x l IH]; intros [|y k]; cbn; try done. rewrite IH. by rewrite (Z.lxor_comm (bz x)).
Qed.

Lemma xor_bytes_swap a x y :
  length x = length a -> length y = length a ->
  xor_bytes (xor_bytes a x) y = xor_bytes (xor_bytes a y) x.
Proof.
  revert x y. induction a as [|b a IH]; intros [|c x] [|d y] Hx Hy; cbn in *; try done.
  f_equal; [|apply IH; lia]. unfold xor_bytes. f_equal.
  rewrite !bz_zb_small; [|apply (uint_lxor 8); [done|apply bz_range..]
    |apply (uint_lxor 8); [done|apply bz_range..]].
  rewrite !Z.lxor_assoc. f_equal. apply Z.lxor_comm.
Qed.

(** The crosscheck does not depend on the order of the transactions. *)
Lemma crosscheck_perm l k :
  Forall (fun h => length h = 32%nat) l -> l ≡ₚ k -> crosscheck l = crosscheck k.
Proof.
  intros Hl Hp. unfold crosscheck.
  enough (forall s, length s = 32%nat -> foldl xor_bytes s l = foldl xor_bytes s k) as Hs by by apply Hs.
  induction Hp as [|h l k Hp IH|h1 h2 l|l k m Hp1 IH1 Hp2 IH2]; intros s Hsl; cbn [foldl]; [done|..].
  - apply Forall_cons in Hl as [Hh Hl]. apply IH; [done|]. rewrite length_xor_bytes by congruence. done.
  - apply Forall_cons in Hl as [Hh1 Hl]. apply Forall_cons in Hl as [Hh2 _].
    by rewrite xor_bytes_swap by congruence.
  - rewrite IH1 by done. apply IH2; [|done]. by rewrite <- Hp1.
Qed.
