(* ===== verification/Coinbase.v ===== *)
(** The coinbase the gateway builds and the pool reads back
    ([core/src/datum/coinbase.rs]): the scriptSig and its inverse, the choice of
    the dictated outputs, the layout, and the size and sigop budgets. *)
From S2P Require Import Prelude Reader Utf8 Bitcoin Script Transaction ShareMsg.
Import opcode.

Definition TAG_SEPARATOR : Z := 0x0f.
Definition TAG_END : Z := 0x00.
Definition UNIQUE_ID_PUSH_DATA_SIZE_NO_PRIME : Z := 1 + 2.
Definition UNIQUE_ID_PUSH_DATA_SIZE_V1 : Z := UNIQUE_ID_PUSH_DATA_SIZE_NO_PRIME + 4.
Definition UNIQUE_ID_PUSH_DATA_SIZE_V3 : Z := UNIQUE_ID_PUSH_DATA_SIZE_NO_PRIME + 8.
Definition ENPREFIX_SIZE : Z := 2.
Definition EXTRANONCE_PUSH_SIZE : Z := 1 + ENPREFIX_SIZE + Z.of_nat EXTRANONCE_SIZE.
Definition EXTRANONCE_PUSH_OPCODE : Z := EXTRANONCE_PUSH_SIZE - 1.
Definition TAG_MARKER_BYTES : Z := 2.
Definition MAX_COINBASE_SCRIPT_SIG_LEN : Z := 100.
Definition MAX_COINBASE_TAG_SPACE : Z := 86.
Definition WIDE_PRIME_PUSH_EXTRA_BYTES : Z := 4.
Definition SCRIPT_SIG_ROOM_FOR_EXTRANONCE : Z := MAX_COINBASE_SCRIPT_SIG_LEN - EXTRANONCE_PUSH_SIZE.
Definition OP_RETURN_EXTRANONCE_OUTPUT_SIZE : Z := MIN_OUTPUT_SIZE + 1 + EXTRANONCE_PUSH_SIZE.
Definition COINBASE_TX_VERSION : Z := 1.
Definition PRUNABLE_OP_RETURN : bytes := zb <$> [OP_RETURN; 0x01; 0x00].
Definition MIN_USEFUL_OUTPUT_ROOM : Z := 30.
Definition MAX_TXN_COUNT_SIZE : Z := 5.
Definition COINBASE_WITNESS_BYTES : Z := 36.
Definition UNIQUE_ID_PUSH_TARGET_BYTE_AT : Z := 1.
Definition HEADER_V2_SIZE : Z := 164.

Definition tag_space (wide_prime : bool) : Z :=
  MAX_COINBASE_TAG_SPACE - if wide_prime then WIDE_PRIME_PUSH_EXTRA_BYTES else 0.

Definition max_tag_bytes (wide_prime : bool) : Z := tag_space wide_prime - TAG_MARKER_BYTES.

Definition tag_push_data (primary secondary : bytes) : bytes :=
  primary ++ (match secondary with [] => [] | _ => zb TAG_SEPARATOR :: secondary end) ++ [zb TAG_END].

Definition unique_id_push (unique_id : Z) (prime_id : bytes) : bytes :=
  let len := UNIQUE_ID_PUSH_DATA_SIZE_NO_PRIME + zlen prime_id in
  [zb len] ++ [zb TARGET_BYTE_PLACEHOLDER] ++ le 2 unique_id ++ prime_id.

Record ScriptSigInputs := {
  height : Z;
  tag_primary : bytes;
  tag_secondary_in : bytes;
  unique_id : Z;
  prime_id : Z;
  wide_prime : bool;
  datum_active : bool;
}.

(** The tag push, its secondary tag shortened to the space. *)
Definition tag_push_data_that_fits (t : ScriptSigInputs) : option bytes :=
  let tag0 := tag_primary t in
  let tag1 := tag_secondary_in t in
  let space := tag_space (wide_prime t) in
  let data := tag_push_data tag0 tag1 in
  let data :=
    if space <? zlen data then
      let excess := zlen data - space in
      let kept := if excess <? zlen tag1 then take (Z.to_nat (zlen tag1 - excess)) tag1 else [] in
      tag_push_data tag0 kept
    else data in
  if zlen data <=? space then Some data else None.

(** The prime id as it is pushed. *)
Definition prime_bytes (t : ScriptSigInputs) : bytes :=
  if (prime_id t =? 0) && negb (datum_active t) then []
  else if wide_prime t then le 8 (prime_id t) else le 4 (wrap 32 (prime_id t)).

Definition script_sig (t : ScriptSigInputs) : option (bytes * Z) :=
  data ← tag_push_data_that_fits t;
  let script := height_push (height t) ++ encode_push data in
  let target_byte_index := zlen script + UNIQUE_ID_PUSH_TARGET_BYTE_AT in
  Some (script ++ unique_id_push (unique_id t) (prime_bytes t), target_byte_index).

Record ParsedScriptSig := { target_byte_index : Z; tag_secondary : bytes }.

(** The characters of a string that are not control characters: U+0000 to
    U+001F and U+007F to U+009F are. Every character takes a byte. *)
Definition is_control (c : bytes) : bool :=
  match c with
  | [b] => (bz b <? 0x20) || (bz b =? 0x7f)
  | [a; b] => (bz a =? 0xc2) && (0x80 <=? bz b) && (bz b <=? 0x9f)
  | _ => false
  end.

Fixpoint drop_control (fuel : nat) (s : bytes) : bytes :=
  match fuel, s with
  | O, _ | _, [] => []
  | S fuel, _ =>
    let n := (utf8_step s).1 in
    let c := take n s in
    (if is_control c then [] else c) ++ drop_control fuel (drop n s)
  end.

Definition decode_tag (b : bytes) : bytes :=
  let b := match last b with
           | Some e => if bz e =? TAG_END then take (length b - 1) b else b
           | None => b
           end in
  let s := from_utf8_lossy b in
  drop_control (length s) s.

(** [strip_prefix]. *)
Definition strip_prefix (p l : bytes) : option bytes :=
  if bool_decide (take (length p) l = p) then Some (drop (length p) l) else None.

(** Whether a push carries the pool's prime id. *)
Definition is_unique_id_push (prime_id : Z) (d : bytes) : bool :=
  if zlen d <? UNIQUE_ID_PUSH_DATA_SIZE_NO_PRIME then false else
  let id := drop (Z.to_nat UNIQUE_ID_PUSH_DATA_SIZE_NO_PRIME) d in
  if zlen d =? UNIQUE_ID_PUSH_DATA_SIZE_V1 then
    (prime_id <? 2 ^ 32) && bool_decide (id = take 4 (le 8 prime_id))
  else if zlen d =? UNIQUE_ID_PUSH_DATA_SIZE_V3 then bool_decide (id = le 8 prime_id)
  else false.

Definition parse_script_sig (tx : CoinbaseTx) (prime_id : Z) (coinbase_tag : bytes)
    : option ParsedScriptSig :=
  let pushes := script_pushes (Transaction.script_sig tx) in
  i ← position (fun p => is_unique_id_push prime_id (data p)) pushes;
  uid ← pushes !! i;
  let tag_push := match i with O => None | S i => data <$> pushes !! i end in
  tag ←
    match coinbase_tag with
    | [] => Some (from_option decode_tag [] (tag_push ≫= strip_prefix [zb TAG_SEPARATOR]))
    | _ =>
      after ← tag_push ≫= strip_prefix coinbase_tag;
      match after with
      | [] => None
      | marker :: rest =>
        if bz marker =? TAG_SEPARATOR then Some (decode_tag rest)
        else if bz marker =? TAG_END then Some [] else None
      end
    end;
  Some {| target_byte_index := script_sig_offset tx + data_at uid; tag_secondary := tag |}.

Record BlockLimits := {
  sizelimit : Z;
  weightlimit : Z;
  limits_txn_total_size : Z;
  limits_txn_total_weight : Z;
}.

Record CoinbaseSpec := {
  spec_coinbase_id : Z;
  spec_script_sig : bytes;
  target_byte_index_in_script : Z;
  enprefix : Z;
  witness_commitment : option bytes;
  pool_payout_script : bytes;
  spec_coinbase_value : Z;
  spec_outputs : list TxOut;
  limits : BlockLimits;
  sigop_budget : Z;
}.

Record BuiltCoinbase := { section : CoinbaseSection; built_target_byte_index : Z }.

Definition output_sigop_cost (script : bytes) : Z :=
  sumZ ((fun op =>
    if (op_code op =? OP_CHECKSIG) || (op_code op =? OP_CHECKSIGVERIFY) then WITNESS_SCALE_FACTOR
    else if (op_code op =? OP_CHECKMULTISIG) || (op_code op =? OP_CHECKMULTISIGVERIFY)
    then 20 * WITNESS_SCALE_FACTOR else 0) <$> script_ops script).

(** The loop of [select_outputs]: what is paid, the bytes and sigops left and
    the outputs taken. A continued turn passes over the output. *)
Fixpoint select_loop (value : Z) (outputs : list TxOut) (included : list TxOut)
    (paid remaining sigops_left : Z) : list TxOut * Z :=
  match outputs with
  | [] => (included, paid)
  | o :: outputs =>
    if (remaining <? MIN_USEFUL_OUTPUT_ROOM) || (value <=? paid) then (included, paid) else
    let cost := zlen (script_pubkey o) + MIN_OUTPUT_SIZE in
    let sigops := output_sigop_cost (script_pubkey o) in
    if (value <? sat_add 64 paid (Transaction.value o)) || (remaining <? cost) || (sigops_left <? sigops)
    then select_loop value outputs included paid remaining sigops_left
    else select_loop value outputs (included ++ [o]) (wrap 64 (paid + Transaction.value o))
           (remaining - cost) (sigops_left - sigops)
  end.

Definition select_outputs (p : CoinbaseSpec) (budget : Z) : list TxOut * Z :=
  select_loop (spec_coinbase_value p) (spec_outputs p) [] 0 budget (sigop_budget p).

Definition in_script (p : CoinbaseSpec) : bool :=
  zlen (spec_script_sig p) <=? SCRIPT_SIG_ROOM_FOR_EXTRANONCE.

Definition assemble_coinbase (p : CoinbaseSpec) (included : list TxOut) (paid : Z) : BuiltCoinbase :=
  let n_out := zlen included + 1 + Z.b2z (is_some (witness_commitment p)) in
  let script_sig_len := zlen (spec_script_sig p) + if in_script p then EXTRANONCE_PUSH_SIZE else 0 in
  let head :=
    le 4 COINBASE_TX_VERSION ++ encode_compact_size 1 ++ zeros HASH_SIZE ++ NULL_OUTPOINT_INDEX ++
    encode_compact_size script_sig_len in
  let target_byte_index := zlen head + target_byte_index_in_script p in
  let coinb1 :=
    head ++ spec_script_sig p ++
    if in_script p then [zb EXTRANONCE_PUSH_OPCODE] ++ be 2 (enprefix p)
    else SEQUENCE_FINAL ++ encode_compact_size (n_out + 1) ++ le 8 0 ++
         [zb (OP_RETURN_EXTRANONCE_OUTPUT_SIZE - MIN_OUTPUT_SIZE)] ++
         [zb OP_RETURN; zb EXTRANONCE_PUSH_OPCODE] ++ be 2 (enprefix p) in
  let coinb2 :=
    (if in_script p then SEQUENCE_FINAL ++ encode_compact_size n_out else []) ++
    mjoin ((fun o => encode_output (Transaction.value o) (script_pubkey o)) <$> included) ++
    (if paid <? spec_coinbase_value p
     then encode_output (spec_coinbase_value p - paid) (pool_payout_script p)
     else encode_output 0 PRUNABLE_OP_RETURN) ++
    from_option (encode_output 0) [] (witness_commitment p) ++
    zeros (Z.to_nat LOCK_TIME_SIZE) in
  {| section := {| coinbase_section_id := spec_coinbase_id p; coinb1 := coinb1; coinb2 := coinb2 |};
     built_target_byte_index := target_byte_index |}.

Definition MOST_UNDICTATED_OUTPUTS : Z := 3.

Definition fixed_bytes (p : CoinbaseSpec) : Z :=
  let s := section (assemble_coinbase p [] 0) in
  let count_growth :=
    zlen (encode_compact_size (zlen (spec_outputs p) + MOST_UNDICTATED_OUTPUTS)) -
    zlen (encode_compact_size MOST_UNDICTATED_OUTPUTS) in
  zlen (coinb1 s) + Z.of_nat EXTRANONCE_SIZE + zlen (coinb2 s) + count_growth.

(** The bytes the limits leave for the whole coinbase. *)
Definition coinbase_room (l : BlockLimits) : Z :=
  let around := HEADER_V2_SIZE + MAX_TXN_COUNT_SIZE in
  let size_used := wrap 64 (limits_txn_total_size l + around + COINBASE_WITNESS_BYTES) in
  let by_size := sat_sub (sizelimit l) size_used in
  let weight_used := wrap 64 (limits_txn_total_weight l + WITNESS_SCALE_FACTOR * around + COINBASE_WITNESS_BYTES) in
  let by_weight := sat_sub (weightlimit l) weight_used / WITNESS_SCALE_FACTOR in
  Z.min (Z.min by_size by_weight) MAX_COINBASE_SECTION_LEN.

Definition output_budget (fixed_bytes : Z) (l : BlockLimits) : Z :=
  sat_sub (coinbase_room l) fixed_bytes.

Definition build (p : CoinbaseSpec) : BuiltCoinbase * list TxOut :=
  let '(included, paid) := select_outputs p (output_budget (fixed_bytes p) (limits p)) in
  (assemble_coinbase p included paid, included).

(** ** The outputs chosen *)

Definition output_cost (o : TxOut) : Z := zlen (script_pubkey o) + MIN_OUTPUT_SIZE.
Definition output_values (l : list TxOut) : Z := sumZ (Transaction.value <$> l).

Lemma output_sigop_cost_nonneg s : 0 <= output_sigop_cost s.
Proof.
  unfold output_sigop_cost. apply sumZ_nonneg, Forall_fmap, Forall_forall. intros op _. cbn.
  repeat case_match; unfold WITNESS_SCALE_FACTOR; lia.
Qed.

Lemma sumZ_fmap_snoc {A} (f : A -> Z) l x : sumZ (f <$> l ++ [x]) = sumZ (f <$> l) + f x.
Proof. rewrite fmap_app, sumZ_app. cbn. lia. Qed.

Lemma select_loop_spec value outputs included paid remaining sigops out total :
  Forall (fun o => uint 64 (Transaction.value o)) outputs ->
  0 <= paid <= value -> value < 2 ^ 64 - 1 -> 0 <= remaining -> 0 <= sigops ->
  output_values included = paid ->
  select_loop value outputs included paid remaining sigops = (out, total) ->
  exists k, out = included ++ k /\ k `sublist_of` outputs /\
    output_values out = total /\ paid <= total <= value /\
    sumZ (output_cost <$> k) <= remaining /\
    sumZ ((fun o => output_sigop_cost (script_pubkey o)) <$> k) <= sigops.
Proof.
  intros Hv. revert included paid remaining sigops.
  induction Hv as [|o outputs Ho Hv IH]; intros included paid remaining sigops Hp Hval Hr Hs Hinc;
    cbn [select_loop].
  { intros [= <- <-]. exists []. rewrite app_nil_r. cbn. split_and!; (done || lia). }
  destruct (_ || (value <=? paid)) eqn:Hstop.
  { intros [= <- <-]. exists []. rewrite app_nil_r. cbn. split_and!; try (done || lia). apply sublist_nil_l. }
  destruct (_ || _ || (sigops <? _)) eqn:Hskip.
  - intros Hsel. destruct (IH _ _ _ _ Hp Hval Hr Hs Hinc Hsel) as (k & Hk & Hsub & Hrest).
    exists k. split; [done|]. split; [by apply sublist_cons|done].
  - reflect_Z. unfold uint in Ho. unfold sat_add in *.
    pose proof (output_sigop_cost_nonneg (script_pubkey o)).
    rewrite (wrap_small 64) by (unfold uint; lia).
    assert (output_values (included ++ [o]) = paid + Transaction.value o) as Hinc'.
    { unfold output_values in *. rewrite sumZ_fmap_snoc. lia. }
    change (zlen (script_pubkey o) + MIN_OUTPUT_SIZE) with (output_cost o) in *.
    intros Hsel. apply IH in Hsel; try lia.
    destruct Hsel as (k & -> & Hsub & Ht & Htot & Hc & Hsc).
    exists (o :: k). rewrite <- app_assoc. cbn [app] in *. rewrite <- app_assoc in Ht.
    split_and!; [done|by apply sublist_skip|done|lia|lia| |];
      cbn [fmap list_fmap]; rewrite sumZ_cons; lia.
Qed.

(** ** The size of what is built *)

(** The lengths that decide the size of a built coinbase. *)
Definition payout_bytes (p : CoinbaseSpec) (paid : Z) : bytes :=
  if paid <? spec_coinbase_value p
  then encode_output (spec_coinbase_value p - paid) (pool_payout_script p)
  else encode_output 0 PRUNABLE_OP_RETURN.

Definition output_count (p : CoinbaseSpec) (included : list TxOut) : Z :=
  zlen included + 1 + Z.b2z (is_some (witness_commitment p)) + Z.b2z (negb (in_script p)).

Definition section_len (s : CoinbaseSection) : Z := zlen (coinb1 s) + zlen (coinb2 s).

Lemma zlen_encode_output v s : zlen (encode_output v s) = 8 + zlen (encode_compact_size (zlen s)) + zlen s.
Proof. unfold encode_output. rewrite !zlen_app. unfold zlen at 1. rewrite length_le. lia. Qed.

Lemma zlen_encode_compact_size_1 n : n <= COMPACT_SIZE_MAX_1 -> zlen (encode_compact_size n) = 1.
Proof. intros. unfold encode_compact_size. by rewrite (proj2 (Z.leb_le _ _)) by done. Qed.

Lemma zlen_outputs l :
  Forall (fun o => zlen (script_pubkey o) <= COMPACT_SIZE_MAX_1) l ->
  zlen (mjoin ((fun o => encode_output (Transaction.value o) (script_pubkey o)) <$> l)) =
  sumZ (output_cost <$> l).
Proof.
  induction 1 as [|o l Ho Hl IH]; [done|].
  rewrite join_fmap_cons, zlen_app, IH, zlen_encode_output, zlen_encode_compact_size_1 by done.
  cbn [fmap list_fmap]. rewrite sumZ_cons. unfold output_cost, MIN_OUTPUT_SIZE, VALUE_SIZE. lia.
Qed.

(** Two coinbases of one specification differ in the output count, the
    dictated outputs and the pool's own. *)
Lemma section_len_diff p included paid :
  let parts inc paid := zlen (encode_compact_size (output_count p inc)) +
    zlen (mjoin ((fun o => encode_output (Transaction.value o) (script_pubkey o)) <$> inc)) +
    zlen (payout_bytes p paid) in
  section_len (section (assemble_coinbase p included paid)) - parts included paid =
  section_len (section (assemble_coinbase p [] 0)) - parts [] 0.
Proof.
  unfold section_len, assemble_coinbase, payout_bytes, output_count. cbn [section coinb1 coinb2].
  destruct (in_script p); cbn [negb Z.b2z];
    rewrite ?(Z.add_0_r (_ + 1 + _)), !zlen_app; lia.
Qed.

Lemma payout_bytes_le p paid :
  3 <= zlen (pool_payout_script p) -> 0 <= paid ->
  zlen (payout_bytes p paid) <= zlen (payout_bytes p 0).
Proof.
  intros Hs Hp. unfold payout_bytes.
  pose proof (zlen_encode_compact_size (zlen (pool_payout_script p))).
  assert (zlen (encode_output 0 PRUNABLE_OP_RETURN) = 12) as Hpr by done.
  destruct (Z.ltb_spec paid (spec_coinbase_value p)), (Z.ltb_spec 0 (spec_coinbase_value p));
    rewrite ?Hpr, ?zlen_encode_output; lia.
Qed.

Lemma length_sublist {A} (l k : list A) : l `sublist_of` k -> zlen l <= zlen k.
Proof. intros H. apply sublist_length in H. unfold zlen. lia. Qed.

Lemma assembled_len_bound p included paid :
  3 <= zlen (pool_payout_script p) -> 0 <= paid -> included `sublist_of` spec_outputs p ->
  Forall (fun o => zlen (script_pubkey o) <= COMPACT_SIZE_MAX_1) included ->
  section_len (section (assemble_coinbase p included paid)) + Z.of_nat EXTRANONCE_SIZE <=
  fixed_bytes p + sumZ (output_cost <$> included).
Proof.
  intros Hs Hp Hsub Hsc. pose proof (section_len_diff p included paid) as Hd. cbn beta zeta in Hd.
  pose proof (payout_bytes_le p paid Hs Hp). rewrite (zlen_outputs included Hsc) in Hd.
  change (zlen (mjoin (_ <$> []))) with 0 in Hd.
  assert (output_count p included <= zlen (spec_outputs p) + MOST_UNDICTATED_OUTPUTS) as Hc.
  { apply length_sublist in Hsub. unfold output_count, MOST_UNDICTATED_OUTPUTS.
    destruct (is_some _), (in_script p); cbn; lia. }
  apply zlen_encode_compact_size_mono in Hc.
  pose proof (zlen_encode_compact_size (output_count p [])).
  assert (zlen (encode_compact_size MOST_UNDICTATED_OUTPUTS) = 1) as H3 by done.
  unfold fixed_bytes. rewrite H3. unfold section_len in *. lia.
Qed.

Definition spec_wf (p : CoinbaseSpec) : Prop :=
  Forall (fun o => uint 64 (Transaction.value o) /\ zlen (script_pubkey o) <= COMPACT_SIZE_MAX_1)
    (spec_outputs p) /\
  0 <= spec_coinbase_value p < 2 ^ 64 - 1 /\ 0 <= sigop_budget p /\
  3 <= zlen (pool_payout_script p).

Definition limits_wf (l : BlockLimits) : Prop :=
  0 <= limits_txn_total_size l < 2 ^ 63 /\ 0 <= limits_txn_total_weight l < 2 ^ 63.

Lemma build_room p b included : spec_wf p -> build p = (b, included) ->
  included `sublist_of` spec_outputs p /\ output_values included <= spec_coinbase_value p /\
  sumZ ((fun o => output_sigop_cost (script_pubkey o)) <$> included) <= sigop_budget p /\
  (fixed_bytes p <= coinbase_room (limits p) ->
   0 < section_len (section b) + Z.of_nat EXTRANONCE_SIZE <= coinbase_room (limits p)).
Proof.
  intros (Houts & Hval & Hsig & Hpay). unfold build, select_outputs.
  destruct (select_loop _ _ _ _ _ _) as [inc paid] eqn:Hsel. intros [= <- <-].
  apply select_loop_spec in Hsel;
    [|by eapply Forall_impl; [exact Houts|intros ? []]|lia|lia|unfold output_budget, sat_sub; lia|done|done].
  destruct Hsel as (k & -> & Hsub & Hvals & Hpaid & Hcost & Hsig'). cbn [app] in *.
  split_and!; [done|lia|done|]. intros Hfix.
  assert (Forall (fun o => zlen (script_pubkey o) <= COMPACT_SIZE_MAX_1) k) as Hk.
  { apply Forall_forall. intros o Ho. eapply elem_of_sublist in Ho; [|exact Hsub].
    by eapply Forall_forall in Houts as [_ ?]. }
  pose proof (assembled_len_bound p k paid Hpay ltac:(lia) Hsub Hk) as Hlen.
  assert (0 < section_len (section (assemble_coinbase p k paid)) + Z.of_nat EXTRANONCE_SIZE) as Hpos.
  { unfold section_len. pose proof (zlen_nonneg (coinb1 (section (assemble_coinbase p k paid)))).
    pose proof (zlen_nonneg (coinb2 (section (assemble_coinbase p k paid)))).
    change (Z.of_nat EXTRANONCE_SIZE) with 12. lia. }
  unfold output_budget, sat_sub in Hcost. lia.
Qed.

Lemma coinbase_room_section l : coinbase_room l <= MAX_COINBASE_SECTION_LEN.
Proof. unfold coinbase_room. lia. Qed.

(** [build] keeps the block within its limits. The dictated outputs it
    carries are taken from the pool's list in order, pay no more than the
    coinbase's value and cost no more sigops than the budget; and where the
    fixed part of the coinbase fits the room the limits leave, the coinbase with
    its extranonce is no longer than the largest section the pool accepts, and
    the header, the transaction count, the coinbase with its witness and the
    block's transactions together exceed neither the size nor the weight
    limit. *)
Theorem build_within_limits (p : CoinbaseSpec) (b : BuiltCoinbase) (included : list TxOut) :
  spec_wf p -> limits_wf (limits p) ->
  build p = (b, included) ->
  included `sublist_of` spec_outputs p /\
  output_values included <= spec_coinbase_value p /\
  sumZ ((fun o => output_sigop_cost (script_pubkey o)) <$> included) <= sigop_budget p /\
  (fixed_bytes p <= coinbase_room (limits p) ->
   let len := section_len (section b) + Z.of_nat EXTRANONCE_SIZE in
   let around := HEADER_V2_SIZE + MAX_TXN_COUNT_SIZE in
   len <= MAX_COINBASE_SECTION_LEN /\
   around + len + COINBASE_WITNESS_BYTES + limits_txn_total_size (limits p)
     <= sizelimit (limits p) /\
   WITNESS_SCALE_FACTOR * (around + len) + COINBASE_WITNESS_BYTES +
     limits_txn_total_weight (limits p) <= weightlimit (limits p)).
Proof.
  intros Hwf [Hl1 Hl2] Hb. destruct (build_room p b included Hwf Hb) as (Hsub & Hvals & Hsig & Hroom).
  split_and!; [done..|]. intros Hfix. specialize (Hroom Hfix). cbn zeta.
  pose proof (coinbase_room_section (limits p)).
  set (len := section_len _ + _) in *. clearbody len. unfold coinbase_room, sat_sub in Hroom.
  rewrite !(wrap_small 64) in Hroom by
    (unfold uint, HEADER_V2_SIZE, MAX_TXN_COUNT_SIZE, COINBASE_WITNESS_BYTES, WITNESS_SCALE_FACTOR; lia).
  unfold WITNESS_SCALE_FACTOR in *.
  pose proof (Z.mul_div_le (Z.max 0 (weightlimit (limits p) - (limits_txn_total_weight (limits p) +
    4 * (HEADER_V2_SIZE + MAX_TXN_COUNT_SIZE) + COINBASE_WITNESS_BYTES))) 4 ltac:(lia)).
  lia.
Qed.

(** ** The transaction the section makes *)

Definition extranonce_push (p : CoinbaseSpec) (extranonce : bytes) : bytes :=
  [zb EXTRANONCE_PUSH_OPCODE] ++ be 2 (enprefix p) ++ extranonce.

Definition final_script (p : CoinbaseSpec) (extranonce : bytes) : bytes :=
  spec_script_sig p ++ if in_script p then extranonce_push p extranonce else [].

Definition payout_output (p : CoinbaseSpec) (paid : Z) : TxOut :=
  if paid <? spec_coinbase_value p
  then {| Transaction.value := spec_coinbase_value p - paid; script_pubkey := pool_payout_script p |}
  else {| Transaction.value := 0; script_pubkey := PRUNABLE_OP_RETURN |}.

Definition zero_output (script : bytes) : TxOut := {| Transaction.value := 0; script_pubkey := script |}.

(** The outputs of the coinbase, in order. *)
Definition final_outputs (p : CoinbaseSpec) (included : list TxOut) (paid : Z) (extranonce : bytes)
    : list TxOut :=
  (if in_script p then [] else [zero_output (zb OP_RETURN :: extranonce_push p extranonce)]) ++
  included ++ [payout_output p paid] ++ from_option (fun s => [zero_output s]) [] (witness_commitment p).

Definition assembled_tx (s : CoinbaseSection) (extranonce : bytes) : bytes :=
  coinb1 s ++ extranonce ++ coinb2 s.

Definition final_tx (p : CoinbaseSpec) (included : list TxOut) (paid : Z) (extranonce : bytes) : Tx :=
  coinbase_of COINBASE_TX_VERSION (final_script p extranonce) SEQUENCE_FINAL []
    (final_outputs p included paid extranonce) 0.

Lemma zlen_final_script p e :
  length e = EXTRANONCE_SIZE ->
  zlen (final_script p e) = zlen (spec_script_sig p) + if in_script p then EXTRANONCE_PUSH_SIZE else 0.
Proof.
  intros He. unfold final_script, extranonce_push. rewrite zlen_app. destruct (in_script p); [|done].
  rewrite !zlen_app. unfold zlen at 2 3 4. rewrite length_be, He. done.
Qed.

Lemma zlen_final_outputs p included paid e :
  zlen (final_outputs p included paid e) = output_count p included.
Proof.
  unfold final_outputs, output_count. rewrite !zlen_app. change (zlen [payout_output p paid]) with 1.
  destruct (in_script p), (witness_commitment p); cbn [from_option is_some Z.b2z negb];
    unfold zlen; cbn [length]; lia.
Qed.

Lemma payout_output_bytes p paid : tx_out_bytes (payout_output p paid) = payout_bytes p paid.
Proof. unfold payout_output, payout_bytes. by case_match. Qed.

Lemma op_return_output (n : Z) (e : bytes) :
  length e = EXTRANONCE_SIZE ->
  encode_output 0 (zb OP_RETURN :: [zb EXTRANONCE_PUSH_OPCODE] ++ be 2 n ++ e) =
  le 8 0 ++ [zb (OP_RETURN_EXTRANONCE_OUTPUT_SIZE - MIN_OUTPUT_SIZE)] ++
  [zb OP_RETURN; zb EXTRANONCE_PUSH_OPCODE] ++ be 2 n ++ e.
Proof.
  intros He. unfold encode_output.
  assert (zlen (zb OP_RETURN :: [zb EXTRANONCE_PUSH_OPCODE] ++ be 2 n ++ e) =
          OP_RETURN_EXTRANONCE_OUTPUT_SIZE - MIN_OUTPUT_SIZE) as ->; [|done].
  rewrite zlen_cons, !zlen_app. unfold zlen. rewrite length_be, He. done.
Qed.

Lemma assembled_tx_is_final p included paid e :
  length e = EXTRANONCE_SIZE ->
  assembled_tx (section (assemble_coinbase p included paid)) e =
  tx_stripped (final_tx p included paid e).
Proof.
  intros He. unfold tx_stripped, final_tx. rewrite tx_body_coinbase.
  cbn [coinbase_of tx_version tx_lock_time].
  rewrite zlen_final_script, zlen_final_outputs by done.
  unfold final_outputs, output_count. rewrite !fmap_app, !join_app, join_fmap_one, payout_output_bytes.
  unfold assembled_tx, assemble_coinbase, payout_bytes, final_script, extranonce_push, null_outpoint.
  cbn [section coinb1 coinb2].
  replace (mjoin (tx_out_bytes <$> from_option (fun s => [zero_output s]) [] (witness_commitment p)))
    with (from_option (encode_output 0) [] (witness_commitment p)).
  2:{ destruct (witness_commitment p); [|done]. cbn [from_option]. by rewrite join_fmap_one. }
  destruct (in_script p); cbn [negb Z.b2z].
  - rewrite Z.add_0_r, <- !app_assoc. cbn [fmap list_fmap mjoin list_join app]. done.
  - rewrite Z.add_0_r, app_nil_r, join_fmap_one. unfold tx_out_bytes at 1.
    cbn [zero_output Transaction.value script_pubkey].
    rewrite op_return_output by done.
    rewrite <- !app_assoc. cbn [app]. rewrite <- ?app_assoc. done.
Qed.

Definition spec_sizes (p : CoinbaseSpec) : Prop :=
  zlen (spec_script_sig p) < 2 ^ 32 /\ zlen (spec_outputs p) < 2 ^ 32 /\
  zlen (pool_payout_script p) < 2 ^ 32 /\
  zlen (default [] (witness_commitment p)) < 2 ^ 32.

Lemma build_inv p b included :
  spec_wf p -> build p = (b, included) ->
  exists paid, b = assemble_coinbase p included paid /\ included `sublist_of` spec_outputs p /\
    output_values included = paid /\ 0 <= paid <= spec_coinbase_value p.
Proof.
  intros (Houts & Hval & Hsig & _). unfold build, select_outputs.
  destruct (select_loop _ _ _ _ _ _) as [inc paid] eqn:Hsel. intros [= <- <-].
  apply select_loop_spec in Hsel;
    [|by eapply Forall_impl; [exact Houts|intros ? []]|lia|lia|unfold output_budget, sat_sub; lia|done|done].
  destruct Hsel as (k & -> & Hsub & Hvals & Hpaid & _). by exists paid.
Qed.

Lemma output_values_final p included paid e :
  output_values included = paid -> 0 <= paid <= spec_coinbase_value p ->
  output_values (final_outputs p included paid e) = spec_coinbase_value p.
Proof.
  intros Hi Hp. unfold final_outputs, output_values in *. rewrite !fmap_app, !sumZ_app, Hi.
  assert (sumZ (Transaction.value <$> [payout_output p paid]) = spec_coinbase_value p - paid) as ->.
  { unfold payout_output. destruct (Z.ltb_spec paid (spec_coinbase_value p)); cbn; lia. }
  destruct (in_script p), (witness_commitment p); cbn; lia.
Qed.

Lemma final_tx_wf p included paid e :
  spec_wf p -> spec_sizes p -> length e = EXTRANONCE_SIZE -> 0 <= paid ->
  included `sublist_of` spec_outputs p -> tx_wf (final_tx p included paid e).
Proof.
  intros (Houts & Hval & _ & _) (Hs & Ho & Hpay & Hwc) He Hpd Hsub.
  pose proof (length_sublist _ _ Hsub) as Hlen.
  assert (Forall tx_out_wf included) as Hinc.
  { apply Forall_forall. intros o Hin. eapply elem_of_sublist in Hin; [|exact Hsub].
    eapply Forall_forall in Houts as [? Hsc]; [|exact Hin].
    constructor; [done|]. unfold script_len_ok. unfold COMPACT_SIZE_MAX_1, COMPACT_SIZE_U16_TAG in Hsc. lia. }
  constructor; cbn [final_tx coinbase_of tx_version tx_inputs tx_outputs tx_lock_time].
  - done.
  - done.
  - constructor; [|constructor]. constructor; cbn; try done.
    unfold script_len_ok. rewrite zlen_final_script by done.
    destruct (in_script p); [change EXTRANONCE_PUSH_SIZE with 15|]; lia.
  - rewrite zlen_final_outputs. unfold output_count.
    destruct (is_some _), (in_script p); cbn; lia.
  - unfold final_outputs. apply Forall_app_2; [|apply Forall_app_2; [done|apply Forall_app_2]].
    + destruct (in_script p); constructor; [|constructor]. constructor; [done|].
      unfold script_len_ok, zero_output, extranonce_push. cbn [script_pubkey].
      rewrite zlen_cons, !zlen_app. unfold zlen. rewrite length_be, He. done.
    + constructor; [|constructor]. unfold payout_output.
      destruct (Z.ltb_spec paid (spec_coinbase_value p)); constructor; cbn [Transaction.value script_pubkey];
        unfold script_len_ok, uint; try lia; done.
    + destruct (witness_commitment p); cbn [from_option default] in *; constructor; [|constructor].
      constructor; [done|]. unfold script_len_ok, zero_output. cbn [script_pubkey]. cbn in Hwc. lia.
  - done.
Qed.

(** The assembled section, with an extranonce, through the pool's parser. *)
Lemma parse_assembled p included paid e :
  spec_wf p -> spec_sizes p -> length e = EXTRANONCE_SIZE -> included `sublist_of` spec_outputs p -> 0 <= paid ->
  exists off,
    parse_coinbase (assembled_tx (section (assemble_coinbase p included paid)) e) =
      Ok {| version := COINBASE_TX_VERSION; script_sig_offset := off;
            Transaction.script_sig := final_script p e; sequence := 2 ^ 32 - 1;
            outputs := final_outputs p included paid e; lock_time := 0; has_witness := false |} /\
    built_target_byte_index (assemble_coinbase p included paid) = off + target_byte_index_in_script p /\
    off + zlen (final_script p e) <= zlen (assembled_tx (section (assemble_coinbase p included paid)) e).
Proof.
  intros Hwf Hsz He Hsub Hpd. pose proof (final_tx_wf p included paid e Hwf Hsz He Hpd Hsub) as Htx.
  rewrite assembled_tx_is_final by done. eexists. split; [|split].
  - apply (parse_coinbase_body_ok _ _ _ [] _ _ (le 4 COINBASE_TX_VERSION) false [] _ Htx eq_refl); [|done].
    apply read_version_plain_ok; [done|]. unfold tx_body. rewrite <- !app_assoc.
    apply encode_compact_size_head. done.
  - cbn [built_target_byte_index assemble_coinbase]. rewrite !zlen_app, zlen_final_script by done.
    change (zlen (zeros HASH_SIZE)) with 32. change (zlen NULL_OUTPOINT_INDEX) with 4.
    change (zlen (encode_compact_size 1)) with 1. lia.
  - unfold tx_stripped, final_tx. rewrite tx_body_coinbase. cbn [coinbase_of tx_version tx_lock_time].
    rewrite !zlen_app.
    change (zlen null_outpoint) with 36. change (zlen (encode_compact_size 1)) with 1.
    pose proof (zlen_nonneg (mjoin (tx_out_bytes <$> final_outputs p included paid e))).
    pose proof (zlen_nonneg SEQUENCE_FINAL).
    pose proof (zlen_nonneg (encode_compact_size (zlen (final_outputs p included paid e)))).
    pose proof (zlen_nonneg (le 4 0)). lia.
Qed.

(** What the gateway mines is what the pool reads. The section [build]
    returns, with any extranonce spliced in, is a transaction the pool's parser
    accepts: version 1, no witness, and a scriptSig that carries the
    extranonce exactly where the tags left it room. Its outputs are, in order,
    the [OP_RETURN] of an extranonce the scriptSig could not hold, the dictated
    outputs [build] reports, the pool's payout and the witness commitment, and
    their values add up to the coinbase value; the target byte index [build]
    reports is the scriptSig's offset plus the index within it. *)
Theorem built_coinbase_parses (p : CoinbaseSpec) (b : BuiltCoinbase) (included : list TxOut)
    (extranonce : bytes) :
  spec_wf p -> spec_sizes p -> length extranonce = EXTRANONCE_SIZE ->
  build p = (b, included) ->
  exists off,
    parse_coinbase (assembled_tx (section b) extranonce) =
      Ok {| version := COINBASE_TX_VERSION; script_sig_offset := off;
            Transaction.script_sig := final_script p extranonce; sequence := 2 ^ 32 - 1;
            outputs := final_outputs p included (output_values included) extranonce;
            lock_time := 0; has_witness := false |} /\
    output_values (final_outputs p included (output_values included) extranonce) =
      spec_coinbase_value p /\
    built_target_byte_index b = off + target_byte_index_in_script p.
Proof.
  intros Hwf Hsz He Hb. destruct (build_inv _ _ _ Hwf Hb) as (paid & -> & Hsub & Hpaid & Hrange).
  rewrite Hpaid. destruct (parse_assembled p included paid extranonce Hwf Hsz He Hsub ltac:(lia)) as (off & Hp & Hi & _).
  exists off. split; [exact Hp|]. split; [by apply output_values_final|exact Hi].
Qed.

(** ** Reading the scriptSig back *)

Lemma length_height_bytes n v : zlen (height_bytes n v) <= Z.of_nat n.
Proof.
  revert v; induction n as [|n IH]; intros v; cbn [height_bytes]; [done|].
  case_match; [|unfold zlen; cbn [length]; lia]. rewrite zlen_cons. specialize (IH (Z.shiftr v 8)). lia.
Qed.

Lemma script_next_short_push bs tl :
  1 <= zlen bs <= 5 ->
  exists op, script_next ((zb (zlen bs) :: bs) ++ tl) 0 = Some (op, zlen (zb (zlen bs) :: bs)) /\
    from_option (fun d => zlen (data d)) 0 (push op) <= 5.
Proof.
  intros Hbs. assert (zb (zlen bs) :: bs = encode_push bs) as ->.
  { unfold encode_push. change MAX_DIRECT_PUSH with 75. by rewrite (proj2 (Z.ltb_ge 75 (zlen bs))) by lia. }
  eexists. split; [apply (script_next_push [] bs tl); lia|]. cbn. lia.
Qed.

(** The height push is one operation, and pushes five bytes at the most. *)
Lemma script_next_height h tl :
  uint 32 h ->
  exists op, script_next (height_push h ++ tl) 0 = Some (op, zlen (height_push h)) /\
    from_option (fun d => zlen (data d)) 0 (push op) <= 5.
Proof.
  unfold uint. intros Hh. unfold height_push.
  destruct (Z.eqb_spec h 0).
  { eexists. split; [apply (script_next_plain [] OP_0 tl)|]; done. }
  destruct ((1 <=? h) && (h <=? SMALL_INT_MAX)) eqn:Hsmall.
  { reflect_Z. unfold SMALL_INT_MAX, OP_16, OP_N_BASE, OP_1 in *. eexists. split.
    - apply (script_next_plain [] (0x51 - 1 + h) tl); [unfold uint; lia|].
      unfold push_length_bytes, MAX_DIRECT_PUSH, OP_PUSHDATA1, OP_PUSHDATA2, OP_PUSHDATA4.
      repeat case_test; reflect_Z; lia || done.
    - done. }
  pose proof (length_height_bytes 4 h) as Hlen.
  assert (1 <= zlen (height_bytes 4 h)) as Hpos.
  { cbn [height_bytes]. rewrite (proj2 (Z.ltb_lt 0 h)) by lia. rewrite zlen_cons.
    pose proof (zlen_nonneg (height_bytes 3 (Z.shiftr h 8))). cbn [height_bytes] in *. lia. }
  cbn zeta. destruct (last _) as [b|]; [destruct (has_bits _ _)|]; apply script_next_short_push;
    rewrite ?zlen_app; [change (zlen [zb 0]) with 1|..]; lia.
Qed.

Lemma unique_id_push_is_push t :
  let d := [zb TARGET_BYTE_PLACEHOLDER] ++ le 2 (unique_id t) ++ prime_bytes t in
  unique_id_push (unique_id t) (prime_bytes t) = encode_push d /\ 3 <= zlen d <= 11 /\
  zlen (encode_push d) = 1 + zlen d.
Proof.
  intros d. assert (zlen d = 3 + zlen (prime_bytes t)) as Hd.
  { unfold d. rewrite !zlen_app. change (zlen (le 2 _)) with 2. change (zlen [_]) with 1. lia. }
  assert (0 <= zlen (prime_bytes t) <= 8) as Hp by (unfold prime_bytes; repeat case_match; by cbv).
  unfold encode_push, unique_id_push. change MAX_DIRECT_PUSH with 75.
  rewrite (proj2 (Z.ltb_ge 75 (zlen d))) by lia. cbn [app]. rewrite zlen_cons.
  split_and!; try lia. by rewrite Hd.
Qed.

(** The pushes of a scriptSig of this layout. *)
Lemma script_pushes_layout t data tl :
  uint 32 (height t) -> 1 <= zlen data <= 255 ->
  let d := [zb TARGET_BYTE_PLACEHOLDER] ++ le 2 (unique_id t) ++ prime_bytes t in
  let before := height_push (height t) ++ encode_push data in
  exists hp tag_at rest,
    script_pushes (before ++ unique_id_push (unique_id t) (prime_bytes t) ++ tl) =
      hp ++ [{| data_at := tag_at; Script.data := data |};
             {| data_at := zlen before + 1; Script.data := d |}] ++ rest /\
    Forall (fun p => zlen (Script.data p) <= 5) hp.
Proof.
  intros Hh Hd d before. destruct (unique_id_push_is_push t) as (-> & Hdl & Hel). fold d in Hdl, Hel |- *.
  unfold script_pushes, script_ops.
  destruct (script_next_height (height t) (encode_push data ++ encode_push d ++ tl) Hh) as (hop & Hhop & Hlen).
  pose proof (script_next_push (height_push (height t)) data (encode_push d ++ tl) Hd) as Htag.
  pose proof (script_next_push before d tl ltac:(lia)) as Huid.
  unfold before in *. rewrite <- app_assoc in Huid |- *.
  rewrite (script_ops_from_step _ 0 _ _ (Z.le_refl 0) Hhop).
  rewrite (script_ops_from_step _ _ _ _ (zlen_nonneg _) Htag).
  rewrite (script_ops_from_step _ _ _ _ (zlen_nonneg _) Huid).
  exists (match push hop with Some p => [p] | None => [] end). eexists _, _. split.
  - assert (forall x, x + 1 = x + zlen (encode_push d) - zlen d) as -> by lia.
    destruct (push hop) as [p|] eqn:Hp; cbn [omap list_omap]; rewrite Hp; reflexivity.
  - destruct (push hop); constructor; [exact Hlen|constructor].
Qed.

(** What the pool shows of the secondary tag. *)
Definition shown_tag (kept : bytes) : bytes :=
  match kept with
  | [] => []
  | _ => let s := from_utf8_lossy kept in drop_control (length s) s
  end.

Lemma decode_tag_end kept : kept <> [] -> decode_tag (kept ++ [zb TAG_END]) = shown_tag kept.
Proof.
  intros Hk. unfold decode_tag. rewrite last_snoc. change (bz (zb TAG_END) =? TAG_END) with true. cbn iota.
  rewrite length_app, Nat.add_sub, take_app_length. by destruct kept.
Qed.

Lemma strip_prefix_app p l : strip_prefix p (p ++ l) = Some l.
Proof. unfold strip_prefix. by rewrite take_app_length, drop_app_length, bool_decide_eq_true_2. Qed.

Lemma tag_push_data_fits_inv t data :
  tag_push_data_that_fits t = Some data ->
  exists kept, data = tag_push_data (tag_primary t) kept /\ kept `prefix_of` tag_secondary_in t /\
    1 <= zlen data <= tag_space (wide_prime t).
Proof.
  unfold tag_push_data_that_fits. set (space := tag_space (wide_prime t)).
  assert (forall k, 1 <= zlen (tag_push_data (tag_primary t) k)) as Hpos.
  { intros k. unfold tag_push_data. rewrite !zlen_app. change (zlen [zb TAG_END]) with 1.
    pose proof (zlen_nonneg (tag_primary t)).
    pose proof (zlen_nonneg (match k with [] => [] | _ => zb TAG_SEPARATOR :: k end)). lia. }
  destruct (space <? zlen (tag_push_data _ _)) eqn:Hbig; cbn zeta; intros H;
    case_match eqn:Hfit; simplify_eq; apply Z.leb_le in Hfit; eexists; (split; [reflexivity|]);
    (split; [|split; [apply Hpos|done]]); [|done].
  case_match; [|apply prefix_nil]. eexists. symmetry. apply take_drop.
Qed.

(** A tag push that is the tag the pool expects yields the tag after it. *)
Lemma parse_tag_push (coinbase_tag kept : bytes) :
  match coinbase_tag with
  | [] => Some (from_option decode_tag [] (strip_prefix [zb TAG_SEPARATOR] (tag_push_data coinbase_tag kept)))
  | _ =>
    after ← strip_prefix coinbase_tag (tag_push_data coinbase_tag kept);
    match after with
    | [] => None
    | marker :: rest =>
      if bz marker =? TAG_SEPARATOR then Some (decode_tag rest)
      else if bz marker =? TAG_END then Some [] else None
    end
  end = Some (shown_tag kept).
Proof.
  unfold tag_push_data. destruct kept as [|k kept'].
  - destruct coinbase_tag; [done|]. rewrite strip_prefix_app. done.
  - set (kept := k :: kept'). destruct coinbase_tag.
    + pose proof (strip_prefix_app [zb TAG_SEPARATOR] (kept ++ [zb TAG_END])) as E.
      cbn [app] in E |- *. rewrite E. cbn [from_option]. by rewrite decode_tag_end.
    + rewrite strip_prefix_app. cbn [mbind option_bind app].
      change (bz (zb TAG_SEPARATOR) =? TAG_SEPARATOR) with true. cbn iota. by rewrite decode_tag_end.
Qed.

Lemma is_unique_id_push_own t :
  uint 64 (prime_id t) -> (wide_prime t = false -> uint 32 (prime_id t)) ->
  prime_id t <> 0 \/ datum_active t = true ->
  is_unique_id_push (prime_id t) ([zb TARGET_BYTE_PLACEHOLDER] ++ le 2 (unique_id t) ++ prime_bytes t) = true.
Proof.
  intros H64 H32 Hact. unfold prime_bytes.
  assert ((prime_id t =? 0) && negb (datum_active t) = false) as ->.
  { destruct Hact as [Hne| ->]; [apply Z.eqb_neq in Hne; by rewrite Hne|]. by rewrite andb_false_r. }
  unfold is_unique_id_push. destruct (wide_prime t).
  - change (drop _ _) with (le 8 (prime_id t)).
    change (bool_decide (le 8 (prime_id t) = le 8 (prime_id t)) = true). by apply bool_decide_eq_true_2.
  - specialize (H32 eq_refl). rewrite (wrap_small 32) by done. change (drop _ _) with (le 4 (prime_id t)).
    change ((prime_id t <? 2 ^ 32) && bool_decide (le 4 (prime_id t) = le 4 (prime_id t)) = true).
    rewrite bool_decide_eq_true_2 by done. by rewrite (proj2 (Z.ltb_lt _ _)) by apply H32.
Qed.

Lemma is_unique_id_push_short prime d : zlen d <= 5 -> is_unique_id_push prime d = false.
Proof.
  intros Hd. unfold is_unique_id_push. change UNIQUE_ID_PUSH_DATA_SIZE_V1 with 7.
  change UNIQUE_ID_PUSH_DATA_SIZE_V3 with 11. repeat case_match; reflect_Z; lia || done.
Qed.

Lemma parse_script_sig_ok t tx script tail idx data :
  uint 32 (height t) -> uint 64 (prime_id t) -> (wide_prime t = false -> uint 32 (prime_id t)) ->
  prime_id t <> 0 \/ datum_active t = true ->
  tag_push_data_that_fits t = Some data -> is_unique_id_push (prime_id t) data = false ->
  script_sig t = Some (script, idx) -> Transaction.script_sig tx = script ++ tail ->
  exists kept, kept `prefix_of` tag_secondary_in t /\ 0 <= idx < zlen script /\
    parse_script_sig tx (prime_id t) (tag_primary t) =
      Some {| target_byte_index := script_sig_offset tx + idx; tag_secondary := shown_tag kept |}.
Proof.
  intros Hh H64 H32 Hact Hfit Hnot Hs Htx. unfold script_sig in Hs. rewrite Hfit in Hs.
  cbn [mbind option_bind] in Hs. injection Hs as <- <-.
  destruct (tag_push_data_fits_inv _ _ Hfit) as (kept & Hdata & Hpre & Hlen).
  exists kept. split; [done|]. set (before := height_push (height t) ++ encode_push data).
  split.
  - unfold UNIQUE_ID_PUSH_TARGET_BYTE_AT. rewrite zlen_app. pose proof (zlen_nonneg before).
    assert (2 <= zlen (unique_id_push (unique_id t) (prime_bytes t))) as H2; [|lia].
    unfold unique_id_push. rewrite !zlen_app. change (zlen (le 2 _)) with 2.
    pose proof (zlen_nonneg (prime_bytes t)). change (zlen [_]) with 1. lia.
  - assert (1 <= zlen data <= 255) as Hdl by (unfold tag_space, MAX_COINBASE_TAG_SPACE, WIDE_PRIME_PUSH_EXTRA_BYTES in Hlen; case_match; lia).
    destruct (script_pushes_layout t data tail Hh Hdl) as (hp & tag_at & rest & Hpushes & Hhp).
    fold before in Hpushes, Htx. unfold parse_script_sig. rewrite Htx, <- app_assoc, Hpushes.
    cbn [app]. rewrite cons_middle, (app_assoc hp).
    rewrite position_app_first; [|apply Forall_app_2; [|by repeat constructor]|by apply is_unique_id_push_own].
    2:{ eapply Forall_impl; [exact Hhp|]. intros p. apply is_unique_id_push_short. }
    rewrite length_app, Nat.add_1_r. cbn [mbind option_bind].
    rewrite (list_lookup_middle (hp ++ [_]) _ _ (S (length hp))) by (rewrite length_app; cbn; lia).
    cbn [mbind option_bind]. rewrite <- app_assoc. cbn [app]. rewrite (list_lookup_middle hp) by done.
    cbn [fmap option_fmap option_map Script.data data_at]. subst data.
    pose proof (parse_tag_push (tag_primary t) kept) as Htag. destruct (tag_primary t); cbn [mbind option_bind] in *.
    + by injection Htag as ->.
    + by rewrite Htag.
Qed.

(** [parse_script_sig] inverts [script_sig]. From a coinbase whose
    scriptSig starts with what the gateway built for the pool's prime id, the
    pool finds the unique-id push at the byte the gateway reports (a target
    byte placeholder), and the secondary tag it shows is the gateway's own, cut
    to a prefix where the space required it and freed of control characters.
    The one tag push this cannot be said of is one that is itself the unique-id
    push of this prime id, which the hypothesis excludes. *)
Theorem script_sig_reads_back (t : ScriptSigInputs) (tx : CoinbaseTx) (script tail : bytes)
    (idx : Z) (data : bytes) :
  uint 32 (height t) -> uint 64 (prime_id t) -> (wide_prime t = false -> uint 32 (prime_id t)) ->
  prime_id t <> 0 \/ datum_active t = true ->
  tag_push_data_that_fits t = Some data -> is_unique_id_push (prime_id t) data = false ->
  script_sig t = Some (script, idx) ->
  Transaction.script_sig tx = script ++ tail ->
  exists kept, kept `prefix_of` tag_secondary_in t /\
    script !! Z.to_nat idx = Some (zb TARGET_BYTE_PLACEHOLDER) /\
    parse_script_sig tx (prime_id t) (tag_primary t) =
      Some {| target_byte_index := script_sig_offset tx + idx; tag_secondary := shown_tag kept |}.
Proof.
  intros Hh H64 H32 Hact Hfit Hnot Hs Htx.
  destruct (parse_script_sig_ok t tx script tail idx data) as (kept & Hpre & Hidx & Hparse); try done.
  exists kept. split; [done|]. split; [|done]. clear Htx Hparse Hidx. unfold script_sig in Hs. rewrite Hfit in Hs.
  cbn [mbind option_bind] in Hs. injection Hs as <- <-. unfold UNIQUE_ID_PUSH_TARGET_BYTE_AT.
  set (before := height_push (height t) ++ encode_push data).
  rewrite lookup_app_r by (unfold zlen; lia).
  by replace (Z.to_nat (zlen before + 1) - length before)%nat with 1%nat by (unfold zlen; lia).
Qed.

(** A specification for the witnesses: two dictated outputs, of which the second
    pays more than is left. *)
Definition example_spec : CoinbaseSpec :=
  {| spec_coinbase_id := 1; spec_script_sig := replicate 20 (zb 1); target_byte_index_in_script := 12;
     enprefix := 0xbeef; witness_commitment := Some (replicate 38 (zb 0x6a));
     pool_payout_script := replicate 22 (zb 7); spec_coinbase_value := 5000;
     spec_outputs := [{| Transaction.value := 3000; script_pubkey := replicate 22 (zb 1) |};
                      {| Transaction.value := 2500; script_pubkey := replicate 22 (zb 2) |};
                      {| Transaction.value := 1000; script_pubkey := replicate 22 (zb 3) |}];
     limits := {| sizelimit := 4000000; weightlimit := 4000000; limits_txn_total_size := 900;
                  limits_txn_total_weight := 3600 |};
     sigop_budget := 80000 |}.

Lemma example_spec_wf : spec_wf example_spec /\ spec_sizes example_spec /\ limits_wf (limits example_spec).
Proof.
  unfold spec_wf, spec_sizes, limits_wf. split_and!; [|by vm_compute..].
  cbn [example_spec spec_outputs].
  apply Forall_cons_2; [by vm_compute|apply Forall_cons_2; [by vm_compute|]].
  apply Forall_cons_2; [by vm_compute|apply Forall_nil_2].
Qed.

Lemma build_within_limits_witness :
  output_values (build example_spec).2 = 4000 /\
  fixed_bytes example_spec <= coinbase_room (limits example_spec) /\
  section_len (section (build example_spec).1) + Z.of_nat EXTRANONCE_SIZE <= MAX_COINBASE_SECTION_LEN.
Proof.
  split; [vm_compute; reflexivity|]. split; [vm_compute; discriminate|].
  destruct example_spec_wf as (Hwf & _ & Hl).
  destruct (build_within_limits example_spec _ _ Hwf Hl (surjective_pairing _)) as (_ & _ & _ & H).
  apply H. vm_compute. discriminate.
Defined.

Lemma built_coinbase_parses_witness : exists off,
  built_target_byte_index (build example_spec).1 = off + 12.
Proof.
  destruct example_spec_wf as (Hwf & Hs & _).
  destruct (built_coinbase_parses example_spec _ _ (zeros EXTRANONCE_SIZE) Hwf Hs eq_refl
    (surjective_pairing _)) as (off & _ & _ & H). exists off. exact H.
Defined.

Definition example_tags : ScriptSigInputs :=
  {| height := 840000; tag_primary := zb <$> [80; 111; 111; 108]; tag_secondary_in := zb <$> [109; 101];
     unique_id := 7; prime_id := 12345; wide_prime := false; datum_active := true |}.

Lemma script_sig_reads_back_witness : exists kept,
  kept `prefix_of` tag_secondary_in example_tags /\
  (from_option fst [] (script_sig example_tags)) !! 14%nat = Some (zb TARGET_BYTE_PLACEHOLDER).
Proof.
  destruct (script_sig_reads_back example_tags
    {| version := 1; script_sig_offset := 42;
       Transaction.script_sig := from_option fst [] (script_sig example_tags) ++ [];
       sequence := 0; outputs := []; lock_time := 0; has_witness := false |}
    (from_option fst [] (script_sig example_tags)) [] 14
    (from_option id [] (tag_push_data_that_fits example_tags))) as (kept & Hk & Hb & _);
    try (vm_compute; reflexivity); try (by vm_compute); [by left|]. exists kept. split; [exact Hk|exact Hb].
Defined.

(** A pool whose payout script is empty, and a block with room for exactly one
    dictated output besides the fixed part. *)
Definition short_payout_spec : CoinbaseSpec :=
  {| spec_coinbase_id := 1; spec_script_sig := replicate 20 (zb 1); target_byte_index_in_script := 12;
     enprefix := 1; witness_commitment := None; pool_payout_script := []; spec_coinbase_value := 3000;
     spec_outputs := [{| Transaction.value := 3000; script_pubkey := replicate 22 (zb 1) |}];
     limits := {| sizelimit := 1000 + 205 + 95 + 31; weightlimit := 4000000;
                  limits_txn_total_size := 1000; limits_txn_total_weight := 4000 |};
     sigop_budget := 80000 |}.

(** The measurement of [fixed_bytes] is an upper bound only for a payout
    script of three bytes or more: the output that stands in for the pool's
    payout once the dictated outputs take the whole value is an [OP_RETURN] of
    three. With an empty payout script, which the pool's configuration message
    can carry, [build] returns a coinbase three bytes over the room the block
    has left. *)
Theorem short_payout_script_overruns :
  fixed_bytes short_payout_spec <= coinbase_room (limits short_payout_spec) /\
  section_len (section (build short_payout_spec).1) + Z.of_nat EXTRANONCE_SIZE =
    coinbase_room (limits short_payout_spec) + 3.
Proof. split; [vm_compute; discriminate|vm_compute; reflexivity]. Qed.
