(* ===== verification/Window.v ===== *)
(** The share window of the pool's ledger ([prime/src/ledger.rs]): the newest
    shares whose difficulty reaches the window's work, and what each identity
    holds of it. A failed [expect] and an index out of range are [None]. *)
From S2P Require Import Prelude.

Definition MAX_SHARES : Z := Z.shiftl 1 22.

Record Share := {
  share_accepted_at : Z;
  identity : bytes;
  share_difficulty : Z;
  share_block_hash : bytes;
  share_tag : bytes;
}.

Record IdentityState := { work : Z; tag_secondary : bytes }.

Record WindowShare := { difficulty : Z; accepted_at : Z; credit : nat }.

(** [WindowShare::new]. *)
Definition window_share (s : Share) (index : nat) : WindowShare :=
  {| difficulty := share_difficulty s;
     accepted_at := if share_accepted_at s <? 2 ^ 32 then share_accepted_at s else 2 ^ 32 - 1;
     credit := index |}.

Record IdentityEntry := { name : bytes; state : IdentityState; entry_shares : Z }.

(** The last index released comes first in [free]. *)
Record Identities := {
  by_name : gmap bytes nat;
  entries : list (option IdentityEntry);
  free : list nat;
}.

Record Contents := { shares : list WindowShare; identities : Identities; total_work : Z }.

Definition no_identities : Identities := {| by_name := ∅; entries := []; free := [] |}.
Definition contents_default : Contents :=
  {| shares := []; identities := no_identities; total_work := 0 |}.

Definition new_entry (name : bytes) : IdentityEntry :=
  {| name := name; state := {| work := 0; tag_secondary := [] |}; entry_shares := 0 |}.

(** The index of a name, a released one or a new one where it has none. *)
Definition index_of (ids : Identities) (n : bytes) : option (nat * Identities) :=
  match by_name ids !! n with
  | Some i => Some (i, ids)
  | None =>
    let entry := new_entry n in
    match free ids with
    | i :: free =>
      if (i <? length (entries ids))%nat then
        Some (i, {| by_name := <[n := i]> (by_name ids); entries := <[i := Some entry]> (entries ids);
                    free := free |})
      else None
    | [] =>
      let entries := entries ids ++ [Some entry] in
      let i := (length entries - 1)%nat in
      if Z.of_nat i <? 2 ^ 32 then
        Some (i, {| by_name := <[n := i]> (by_name ids); entries := entries; free := [] |})
      else None
    end
  end.

Definition entry_at (ids : Identities) (i : nat) : option IdentityEntry := mjoin (entries ids !! i).

(** An entry changed through [entry_mut]. *)
Definition put_entry (ids : Identities) (i : nat) (e : IdentityEntry) : Identities :=
  {| by_name := by_name ids; entries := <[i := Some e]> (entries ids); free := free ids |}.

Definition release (ids : Identities) (i : nat) : Identities :=
  match entry_at ids i with
  | Some entry =>
    {| by_name := delete (name entry) (by_name ids); entries := <[i := None]> (entries ids);
       free := i :: free ids |}
  | None => ids
  end.

Definition identities_iter (ids : Identities) : list (bytes * IdentityState) :=
  (fun e => (name e, state e)) <$> omap id (entries ids).

Definition push (c : Contents) (s : Share) : option Contents :=
  '(index, ids) ← index_of (identities c) (identity s);
  entry ← entry_at ids index;
  let w := share_difficulty s in
  let entry :=
    {| name := name entry;
       state := {| work := work (state entry) + w; tag_secondary := share_tag s |};
       entry_shares := entry_shares entry + 1 |} in
  Some {| shares := shares c ++ [window_share s index]; identities := put_entry ids index entry;
          total_work := total_work c + w |}.

Definition drop_oldest (c : Contents) : option Contents :=
  match shares c with
  | [] => Some c
  | oldest :: rest =>
    let w := difficulty oldest in
    let index := credit oldest in
    entry ← entry_at (identities c) index;
    let entry :=
      {| name := name entry;
         state := {| work := work (state entry) - w; tag_secondary := tag_secondary (state entry) |};
         entry_shares := entry_shares entry - 1 |} in
    let ids := put_entry (identities c) index entry in
    let ids := if entry_shares entry =? 0 then release ids index else ids in
    Some {| shares := rest; identities := ids; total_work := total_work c - w |}
  end.

(** The first loop of [trim]; each turn drops a share. *)
Fixpoint trim_work (fuel : nat) (window : Z) (c : Contents) : option Contents :=
  match fuel with
  | O => Some c
  | S fuel =>
    if (1 <? zlen (shares c)) && (window <? total_work c) then
      let over := total_work c - window in
      oldest ← head (shares c);
      if over <? difficulty oldest then Some c
      else drop_oldest c ≫= trim_work fuel window
    else Some c
  end.

(** The second. *)
Fixpoint trim_count (fuel : nat) (max_shares : nat) (c : Contents) : option Contents :=
  match fuel with
  | O => Some c
  | S fuel =>
    if (max_shares <? length (shares c))%nat then drop_oldest c ≫= trim_count fuel max_shares
    else Some c
  end.

Definition trim (c : Contents) (window : Z) (max_shares : nat) : option Contents :=
  c ← trim_work (length (shares c)) window c;
  trim_count (length (shares c)) max_shares c.

(** [record_batch] and [Contents::read] both take shares one at a time: pushed,
    then trimmed. *)
Fixpoint push_all (window : Z) (max_shares : nat) (c : Contents) (l : list Share) : option Contents :=
  match l with
  | [] => Some c
  | s :: l => c ← push c s; c ← trim c window max_shares; push_all window max_shares c l
  end.

(** ** What the contents represent

    The abstract window is the list of its shares, oldest first. *)

Definition credited (n : bytes) (l : list Share) : list Share := filter (fun s => identity s = n) l.
Definition work_of (l : list Share) : Z := sumZ (share_difficulty <$> l).

(** The entry an identity has in a window, none where no share credits it. *)
Definition entry_of (n : bytes) (l : list Share) : option IdentityEntry :=
  match last (credited n l) with
  | None => None
  | Some s => Some {| name := n; state := {| work := work_of (credited n l); tag_secondary := share_tag s |};
                      entry_shares := zlen (credited n l) |}
  end.

Definition lookup_name (ids : Identities) (n : bytes) : option IdentityEntry :=
  by_name ids !! n ≫= entry_at ids.

Record ids_wf (ids : Identities) : Prop := {
  wf_by_index : forall i e, entry_at ids i = Some e -> by_name ids !! name e = Some i;
  wf_by_name : forall n i, by_name ids !! n = Some i -> exists e, entry_at ids i = Some e /\ name e = n;
  wf_free_nodup : NoDup (free ids);
  wf_free : forall i, i ∈ free ids <-> entries ids !! i = Some None;
}.

Record represents (l : list Share) (c : Contents) : Prop := {
  rep_ids : ids_wf (identities c);
  rep_rows : Forall2 (fun s w => w = window_share s (credit w) /\
                                by_name (identities c) !! identity s = Some (credit w)) l (shares c);
  rep_lookup : forall n, lookup_name (identities c) n = entry_of n l;
  rep_total : total_work c = work_of l;
}.

Lemma credited_app n l k : credited n (l ++ k) = credited n l ++ credited n k.
Proof. apply filter_app. Qed.

Lemma credited_cons n s l : credited n (s :: l) = if decide (identity s = n) then s :: credited n l else credited n l.
Proof. unfold credited. rewrite filter_cons. by destruct (decide (identity s = n)). Qed.

Lemma work_of_app l k : work_of (l ++ k) = work_of l + work_of k.
Proof. unfold work_of. by rewrite fmap_app, sumZ_app. Qed.

Lemma work_of_cons s l : work_of (s :: l) = share_difficulty s + work_of l.
Proof. done. Qed.

Lemma entry_at_insert ids i j o :
  (i < length (entries ids))%nat ->
  mjoin (<[i := o]> (entries ids) !! j) = if decide (i = j) then o else entry_at ids j.
Proof.
  intros Hi. destruct (decide (i = j)) as [->|Hne].
  - by rewrite list_lookup_insert_eq.
  - by rewrite list_lookup_insert_ne.
Qed.

Lemma entry_at_lt ids i e : entry_at ids i = Some e -> (i < length (entries ids))%nat.
Proof. unfold entry_at. intros H. destruct (entries ids !! i) eqn:E; [|done]. by eapply lookup_lt_Some. Qed.

(** ** Identities *)

Lemma put_entry_ok ids i e0 e :
  ids_wf ids -> entry_at ids i = Some e0 -> name e = name e0 ->
  ids_wf (put_entry ids i e) /\
  forall n, lookup_name (put_entry ids i e) n = if decide (n = name e) then Some e else lookup_name ids n.
Proof.
  intros [H1 H2 H3 H4] He0 Hn. pose proof (entry_at_lt _ _ _ He0) as Hi.
  assert (forall j, entry_at (put_entry ids i e) j = if decide (i = j) then Some e else entry_at ids j) as Hat.
  { intros j. unfold entry_at at 1, put_entry. cbn [entries]. by apply entry_at_insert. }
  split; [split|].
  - intros j e'. rewrite Hat. destruct (decide (i = j)) as [<-|]; [|apply H1].
    intros [= <-]. rewrite Hn. by apply H1.
  - intros n j Hj. cbn [put_entry by_name] in Hj. destruct (H2 n j Hj) as (e' & He' & <-). rewrite Hat.
    destruct (decide (i = j)) as [<-|]; [|by eauto]. exists e. split; [done|]. congruence.
  - done.
  - intros j. cbn [put_entry free entries]. rewrite H4. destruct (decide (i = j)) as [<-|].
    + rewrite list_lookup_insert_eq by done. unfold entry_at in He0. split; [|done].
      intros Hf. by rewrite Hf in He0.
    + by rewrite list_lookup_insert_ne.
  - intros n. unfold lookup_name. cbn [put_entry by_name]. destruct (decide (n = name e)) as [->|Hne].
    + rewrite Hn, (H1 _ _ He0). cbn. rewrite Hat. by rewrite decide_True.
    + destruct (by_name ids !! n) as [j|] eqn:Hj; cbn; [|done]. rewrite Hat. rewrite decide_False; [done|].
      intros ->. destruct (H2 _ _ Hj) as (? & ? & <-). congruence.
Qed.

Lemma release_ok ids i e :
  ids_wf ids -> entry_at ids i = Some e ->
  ids_wf (release ids i) /\ by_name (release ids i) = delete (name e) (by_name ids) /\
  length (entries (release ids i)) = length (entries ids) /\
  forall n, lookup_name (release ids i) n = if decide (n = name e) then None else lookup_name ids n.
Proof.
  intros [H1 H2 H3 H4] He. pose proof (entry_at_lt _ _ _ He) as Hi. unfold release. rewrite He.
  set (ids' := Build_Identities _ _ _).
  assert (forall j, entry_at ids' j = if decide (i = j) then None else entry_at ids j) as Hat.
  { intros j. unfold entry_at at 1, ids'. cbn [entries]. by apply entry_at_insert. }
  assert (forall n j, by_name ids !! n = Some j -> n <> name e -> i <> j) as Hother.
  { intros n j Hj Hne ->. destruct (H2 _ _ Hj) as (? & ? & <-). congruence. }
  split; [split|split; [done|split; [apply length_insert|]]].
  - intros j e'. rewrite Hat. destruct (decide (i = j)) as [<-|Hij]; [done|]. intros Hj.
    cbn [ids' by_name]. rewrite lookup_delete_ne; [by apply H1|]. intros Heq.
    apply H1 in Hj, He. congruence.
  - intros n j Hj. cbn [ids' by_name] in Hj. apply lookup_delete_Some in Hj as [Hne Hj]. rewrite Hat.
    rewrite decide_False by (by eapply Hother). by apply H2.
  - cbn [ids' free]. constructor; [|done]. rewrite H4. intros Hf. unfold entry_at in He. by rewrite Hf in He.
  - intros j. cbn [ids' free entries]. rewrite elem_of_cons, H4. destruct (decide (i = j)) as [<-|Hij].
    + rewrite list_lookup_insert_eq by done. split; [done|by left].
    + rewrite list_lookup_insert_ne by done. split; [by intros [->|]|by right].
  - intros n. unfold lookup_name. cbn [ids' by_name]. destruct (decide (n = name e)) as [->|Hne].
    + by rewrite lookup_delete_eq.
    + rewrite lookup_delete_ne by done. destruct (by_name ids !! n) as [j|] eqn:Hj; cbn; [|done].
      rewrite Hat, decide_False; [done|]. by eapply Hother.
Qed.

(** An entry added for a name that has none, in a slot that holds none. *)
Lemma add_entry_ok ids ids' i n :
  ids_wf ids -> by_name ids !! n = None -> entry_at ids i = None ->
  (forall j, entry_at ids' j = if decide (i = j) then Some (new_entry n) else entry_at ids j) ->
  by_name ids' = <[n := i]> (by_name ids) ->
  NoDup (free ids') -> (forall j, j ∈ free ids' <-> entries ids' !! j = Some None) ->
  ids_wf ids' /\ entry_at ids' i = Some (default (new_entry n) (lookup_name ids n)) /\
  forall m, m <> n -> lookup_name ids' m = lookup_name ids m.
Proof.
  intros [H1 H2 H3 H4] Hn Hi Hat Hby Hnd Hfree. split; [split|split].
  - intros j e. rewrite Hat, Hby. case_decide as Hj.
    + intros [= <-]. cbn. by rewrite lookup_insert_eq, Hj.
    + intros He. rewrite lookup_insert_ne; [by apply H1|]. intros ->. apply H1 in He. congruence.
  - intros m j. rewrite Hby, lookup_insert_Some. intros [[<- <-]|[Hm Hj]].
    + exists (new_entry n). by rewrite Hat, decide_True.
    + destruct (H2 _ _ Hj) as (e & He & Hme). exists e. rewrite Hat, decide_False; [done|]. congruence.
  - done.
  - done.
  - rewrite Hat, decide_True by done. unfold lookup_name. by rewrite Hn.
  - intros m Hm. unfold lookup_name. rewrite Hby, lookup_insert_ne by done.
    destruct (by_name ids !! m) as [j|] eqn:Hj; cbn; [|done]. rewrite Hat, decide_False; [done|].
    intros ->. destruct (H2 _ _ Hj) as (e & He & _). congruence.
Qed.

Lemma entry_at_snoc ids e j l :
  entries ids = l -> mjoin ((l ++ [Some e]) !! j) = if decide (length l = j) then Some e else entry_at ids j.
Proof.
  intros <-. unfold entry_at. case_decide as Hj; [subst; by rewrite list_lookup_middle|].
  destruct (decide (j < length (entries ids))%nat).
  - by rewrite lookup_app_l by lia.
  - rewrite lookup_app_r by lia. rewrite (lookup_ge_None_2 (entries ids)) by lia.
    by rewrite lookup_ge_None_2 by (cbn; lia).
Qed.

Lemma index_of_ok ids n :
  ids_wf ids -> Z.of_nat (length (entries ids)) < 2 ^ 32 ->
  exists i ids', index_of ids n = Some (i, ids') /\ ids_wf ids' /\
    by_name ids' = <[n := i]> (by_name ids) /\
    entry_at ids' i = Some (default (new_entry n) (lookup_name ids n)) /\
    (forall m, m <> n -> lookup_name ids' m = lookup_name ids m) /\
    length (entries ids') =
      (length (entries ids) + if decide (by_name ids !! n = None /\ free ids = []) then 1 else 0)%nat.
Proof.
  intros Hwf Hlen. pose proof Hwf as [H1 H2 H3 H4]. unfold index_of.
  destruct (by_name ids !! n) as [i|] eqn:Hn.
  { exists i, ids. destruct (H2 _ _ Hn) as (e & He & Hne). unfold lookup_name. rewrite Hn. cbn [mbind option_bind].
    rewrite He, decide_False by (by intros [? _]).
    split_and!; try done; by rewrite insert_id. }
  destruct (free ids) as [|i fr] eqn:Hfree.
  - replace (length (entries ids ++ [Some (new_entry n)]) - 1)%nat with (length (entries ids))
      by (rewrite length_app; cbn; lia).
    rewrite (proj2 (Z.ltb_lt _ _)), decide_True by done. eexists _, _. split; [reflexivity|].
    destruct (add_entry_ok ids (Build_Identities (<[n := length (entries ids)]> (by_name ids))
      (entries ids ++ [Some (new_entry n)]) []) (length (entries ids)) n Hwf Hn) as (Hw & He & Ho);
      try done; [|by intros j; apply entry_at_snoc| |by split_and!; try done; cbn [entries]; rewrite length_app].
    + unfold entry_at. by rewrite lookup_ge_None_2.
    + intros j. cbn [free entries]. rewrite H4, lookup_app. destruct (entries ids !! j); [done|].
      split; [done|]. by destruct (j - _)%nat as [|[|k]].
  - assert (entries ids !! i = Some None) as Hslot by (apply H4; by left).
    pose proof (lookup_lt_Some _ _ _ Hslot) as Hi. rewrite (proj2 (Nat.ltb_lt _ _)), decide_False by (done || by intros [_ ?]).
    eexists _, _. split; [reflexivity|]. apply NoDup_cons in H3 as [Hnotin Hnd].
    destruct (add_entry_ok ids (Build_Identities (<[n := i]> (by_name ids))
      (<[i := Some (new_entry n)]> (entries ids)) fr) i n Hwf Hn) as (Hw & He & Ho);
      try done; [|by intros j; apply entry_at_insert| |split_and!; try done; by rewrite Nat.add_0_r; apply length_insert].
    + unfold entry_at. by rewrite Hslot.
    + intros j. cbn [free entries]. destruct (decide (i = j)) as [<-|Hij].
      * by rewrite list_lookup_insert_eq.
      * rewrite list_lookup_insert_ne, <- H4, elem_of_cons by done. split; [by right|by intros [->|]].
Qed.

(** The names of distinct slots in use are distinct identities of the shares. *)
Lemma slot_names l c (idx : list nat) :
  represents l c -> NoDup idx -> Forall (fun i => is_Some (entry_at (identities c) i)) idx ->
  exists ns, length ns = length idx /\ NoDup ns /\
    forall n, n ∈ ns -> n ∈ (identity <$> l) /\ exists i, i ∈ idx /\ by_name (identities c) !! n = Some i.
Proof.
  intros [[H1 H2 H3 H4] Hrows Hlook _]. induction idx as [|i idx IH]; intros Hnd Hall.
  { exists []. split_and!; [done|constructor|by intros ? ?%not_elem_of_nil]. }
  apply NoDup_cons in Hnd as [Hni Hnd]. apply Forall_cons in Hall as [[e He] Hall].
  destruct (IH Hnd Hall) as (ns & Hlen & Hnds & Hns). pose proof (H1 _ _ He) as Hby.
  exists (name e :: ns). split_and!; [cbn; lia| |].
  - constructor; [|done]. intros Hin. destruct (Hns _ Hin) as (_ & j & Hj & Hbj). congruence.
  - intros n [->|Hin]%elem_of_cons.
    + split; [|exists i; split; [by left|done]]. pose proof (Hlook (name e)) as Hl. unfold lookup_name in Hl.
      rewrite Hby in Hl. cbn [mbind option_bind] in Hl. rewrite He in Hl. unfold entry_of in Hl.
      destruct (last (credited (name e) l)) as [s|] eqn:Hlast; [|done].
      apply last_Some_elem_of, list_elem_of_filter in Hlast as [<- Hin]. by apply list_elem_of_fmap_2.
    + destruct (Hns _ Hin) as (? & j & ? & ?). split; [done|]. exists j. split; [by right|done].
Qed.

(** No more slots are in use than there are shares. *)
Lemma entries_bound l c :
  represents l c -> free (identities c) = [] -> (length (entries (identities c)) <= length l)%nat.
Proof.
  intros Hrep Hfree. destruct (slot_names l c (seq 0 (length (entries (identities c)))) Hrep)
    as (ns & Hlen & Hnd & Hns).
  - apply NoDup_ListNoDup, seq_NoDup.
  - apply Forall_forall. intros i Hi%elem_of_seq. destruct Hrep as [[_ _ _ H4] _ _ _].
    destruct (entry_at (identities c) i) as [e|] eqn:He; [by exists e|]. exfalso.
    destruct (lookup_lt_is_Some_2 (entries (identities c)) i ltac:(lia)) as [o Ho].
    unfold entry_at in He. rewrite Ho in He. cbn in He. subst o.
    apply H4 in Ho. rewrite Hfree in Ho. by apply not_elem_of_nil in Ho.
  - rewrite length_seq in Hlen. rewrite <- Hlen, <- (length_fmap identity l).
    apply submseteq_length, NoDup_submseteq; [done|]. intros n Hn. by destruct (Hns n Hn).
Qed.

(** ** Pushing and dropping *)

Lemma push_ok l c s max :
  represents l c -> (length (entries (identities c)) <= S max)%nat -> Z.of_nat max < 2 ^ 32 - 1 ->
  (length l <= max)%nat ->
  exists c', push c s = Some c' /\ represents (l ++ [s]) c' /\
    (length (entries (identities c')) <= S max)%nat.
Proof.
  intros Hrep Hent Hmax Hlen. pose proof Hrep as [Hwf Hrows Hlook Htot].
  destruct (index_of_ok (identities c) (identity s) Hwf ltac:(lia))
    as (i & ids & Hidx & Hwf' & Hby & He & Hother & Hsize).
  unfold push. rewrite Hidx. cbn [mbind option_bind]. rewrite He. cbn [mbind option_bind].
  set (e' := Build_IdentityEntry _ _ _). eexists. split; [reflexivity|].
  assert (name (default (new_entry (identity s)) (lookup_name (identities c) (identity s))) = identity s) as Hname.
  { rewrite Hlook. unfold entry_of. by destruct (last _). }
  destruct (put_entry_ok ids i _ e' Hwf' He eq_refl) as [Hwf'' Hlook'].
  split; [split; cbn [identities shares total_work]|].
  - done.
  - cbn [put_entry by_name]. apply Forall2_app.
    + eapply Forall2_impl; [exact Hrows|]. intros s' w [Hw Hc]. split; [done|]. rewrite Hby.
      destruct (decide (identity s = identity s')) as [Heq|Hne]; [|by rewrite lookup_insert_ne].
      rewrite <- Heq in Hc |- *. rewrite lookup_insert_eq. f_equal. destruct Hwf' as [_ _ _ _].
      unfold index_of in Hidx. rewrite Hc in Hidx. congruence.
    + constructor; [|constructor]. split; [done|]. rewrite Hby. apply lookup_insert_eq.
  - intros n. rewrite Hlook'. cbn [e' name]. rewrite Hname. unfold entry_of at 1.
    rewrite credited_app, credited_cons. change (credited n []) with (@nil Share).
    destruct (decide (n = identity s)) as [->|Hne].
    + rewrite decide_True by done. rewrite last_snoc. unfold e'. rewrite Hname.
      f_equal. rewrite Hlook. unfold entry_of. rewrite work_of_app, zlen_app.
      destruct (last (credited (identity s) l)) as [s'|] eqn:Hlast; cbn -[work_of zlen].
      * f_equal. f_equal. unfold work_of at 3. cbn. lia.
      * apply last_None in Hlast. rewrite Hlast. f_equal. f_equal. unfold work_of at 2. cbn. lia.
    + rewrite decide_False by done. rewrite app_nil_r, Hother by done. apply Hlook.
  - rewrite work_of_app, Htot. unfold work_of at 3. cbn. lia.
  - cbn [identities put_entry entries]. rewrite length_insert, Hsize.
    case_decide as Hc; [|lia]. destruct Hc as [_ Hfree]. pose proof (entries_bound _ _ Hrep Hfree). lia.
Qed.

Lemma drop_oldest_ok s l c :
  represents (s :: l) c ->
  exists c', drop_oldest c = Some c' /\ represents l c' /\
    length (entries (identities c')) = length (entries (identities c)) /\ shares c' = tail (shares c).
Proof.
  intros [Hwf Hrows Hlook Htot]. unfold drop_oldest.
  apply Forall2_cons_inv_l in Hrows as (w & ws & [Hw Hc] & Hrows & Hshares). rewrite Hshares.
  pose proof (Hlook (identity s)) as Hls. unfold lookup_name in Hls. rewrite Hc in Hls. cbn [mbind option_bind] in Hls.
  unfold entry_of in Hls. rewrite credited_cons, decide_True in Hls by done.
  destruct (last (s :: credited (identity s) l)) as [z|] eqn:Hlast; [|by apply last_None in Hlast].
  rewrite Hls. cbn [mbind option_bind name state entry_shares]. set (e' := Build_IdentityEntry _ _ _).
  assert (difficulty w = share_difficulty s) as Hd by (by rewrite Hw).
  destruct (put_entry_ok (identities c) (credit w) _ e' Hwf Hls eq_refl) as [Hwf' Hlook'].
  assert (entry_shares e' = zlen (credited (identity s) l)) as Hcount by (cbn; rewrite zlen_cons; lia).
  eexists. split; [reflexivity|]. cbn [identities shares total_work].
  change (zlen (s :: credited (identity s) l) - 1) with (entry_shares e'). rewrite Hcount.
  assert (entry_at (put_entry (identities c) (credit w) e') (credit w) = Some e') as He'.
  { pose proof (Hlook' (identity s)) as H. rewrite decide_True in H by done.
    unfold lookup_name in H. cbn [put_entry by_name] in H. by rewrite Hc in H. }
  assert (forall n, n <> identity s -> entry_of n l = entry_of n (s :: l)) as Hsame.
  { intros n Hne. unfold entry_of. by rewrite credited_cons, decide_False. }
  assert (total_work c - difficulty w = work_of l) as Htot' by (rewrite Htot, work_of_cons; lia).
  destruct (Z.eqb_spec (zlen (credited (identity s) l)) 0) as [Hzero|Hpos].
  - destruct (release_ok _ _ _ Hwf' He') as (Hwf'' & Hby & Hlen & Hrel).
    assert (credited (identity s) l = []) as Hnil by (destruct (credited _ _); [done|rewrite zlen_cons in Hzero; unfold zlen in Hzero; lia]).
    split_and!; [split; cbn [identities shares total_work]|rewrite Hlen; apply length_insert|done]; try done.
    + eapply Forall2_impl_in; [exact Hrows|]. intros s' w' Hin [Hw' Hc']. split; [done|].
      rewrite Hby. cbn [put_entry by_name e' name]. rewrite lookup_delete_ne; [done|]. intros Heq.
      apply (not_elem_of_nil s'). rewrite <- Hnil. by apply list_elem_of_filter.
    + intros n. rewrite Hrel, Hlook'. cbn [e' name]. case_decide as Hn; [|by rewrite Hlook, Hsame].
      subst n. unfold entry_of. by rewrite Hnil.
  - split_and!; [split; cbn [identities shares total_work]|apply length_insert|done]; try done.
    intros n. rewrite Hlook'. cbn [e' name]. case_decide as Hn; [|by rewrite Hlook, Hsame].
    subst n. unfold entry_of. destruct (credited (identity s) l) as [|s1 k] eqn:Hk; [done|].
    rewrite last_cons in Hlast. destruct (last (s1 :: k)) as [z'|] eqn:Hl2; [|by apply last_None in Hl2].
    injection Hlast as ->. unfold e'. cbn [name state tag_secondary]. f_equal. rewrite <- Hcount. cbn [work].
    rewrite work_of_cons, Hd. f_equal. f_equal. lia.
Qed.

(** ** The window of a history

    The newest shares, taken until their difficulty reaches the window's work or
    their count the bound: the specification [trim] is held to. *)

Fixpoint newest (window : Z) (max : nat) (r : list Share) : list Share :=
  match max, r with
  | S max, s :: r => if window <=? 0 then [] else s :: newest (window - share_difficulty s) max r
  | _, _ => []
  end.

Lemma newest_cons w m s r :
  newest w (S m) (s :: r) = if w <=? 0 then [] else s :: newest (w - share_difficulty s) m r.
Proof. done. Qed.

Definition window_of (window : Z) (max : nat) (l : list Share) : list Share :=
  reverse (newest window max (reverse l)).

Definition positive (l : list Share) : Prop := Forall (fun s => 0 < share_difficulty s) l.

Lemma work_of_nonneg l : positive l -> 0 <= work_of l.
Proof. intros H. apply sumZ_nonneg, Forall_fmap. eapply Forall_impl; [exact H|]. cbn. lia. Qed.

Lemma work_of_reverse l : work_of (reverse l) = work_of l.
Proof. unfold work_of. rewrite fmap_reverse. apply sumZ_perm, reverse_Permutation. Qed.

Lemma newest_narrow w w' m m' r :
  w' <= w -> (m' <= m)%nat -> newest w' m' (newest w m r) = newest w' m' r.
Proof.
  revert w w' m m'. induction r as [|s r IH]; intros w w' m m' Hw Hm; destruct m as [|m], m' as [|m']; cbn; try done; try lia.
  destruct (Z.leb_spec w 0), (Z.leb_spec w' 0); cbn; try done; try lia.
  f_equal. apply IH; lia.
Qed.

Lemma newest_enough w m r k :
  positive r -> w <= work_of r -> newest w m (r ++ k) = newest w m r.
Proof.
  intros Hr. revert w m. induction Hr as [|s r Hs Hr IH]; intros w m Hw; destruct m as [|m]; cbn; try done.
  - destruct k; [done|]. unfold work_of in Hw. cbn in Hw. by rewrite (proj2 (Z.leb_le w 0)).
  - case_match; [done|]. f_equal. apply IH. rewrite work_of_cons in Hw. lia.
Qed.

Lemma newest_all w m r s :
  positive r -> work_of r < w -> (length r < m)%nat -> newest w m (r ++ [s]) = r ++ [s].
Proof.
  intros Hr. revert w m. induction Hr as [|x r Hx Hr IH]; intros w m Hw Hm; (destruct m as [|m]; cbn in Hm; [lia|]); cbn.
  - unfold work_of in Hw. cbn in Hw. rewrite (proj2 (Z.leb_gt w 0)) by lia. by destruct m.
  - rewrite work_of_cons in Hw. pose proof (work_of_nonneg r Hr).
    rewrite (proj2 (Z.leb_gt w 0)) by lia. f_equal. apply IH; lia.
Qed.

Lemma newest_take w m n r : (length r <= n)%nat -> newest w m r = take m (newest w n r).
Proof.
  revert w m n. induction r as [|s r IH]; intros w m n Hn; destruct m as [|m], n as [|n]; cbn in *; try done; try lia.
  case_match; [done|]. cbn. f_equal. apply IH. lia.
Qed.

Lemma length_newest w m r : (length (newest w m r) <= m)%nat.
Proof.
  revert w m. induction r as [|s r IH]; intros w m; destruct m as [|m]; cbn; try lia.
  case_match; cbn; [lia|]. specialize (IH (w - share_difficulty s) m). lia.
Qed.

Lemma newest_prefix w m r : newest w m r `prefix_of` r.
Proof.
  revert w m. induction r as [|s r IH]; intros w m; destruct m as [|m]; cbn; try apply prefix_nil.
  case_match; [apply prefix_nil|]. by apply prefix_cons.
Qed.

Lemma window_of_suffix w m l : window_of w m l `suffix_of` l.
Proof.
  unfold window_of. destruct (newest_prefix w m (reverse l)) as [k Hk]. exists (reverse k).
  apply (f_equal reverse) in Hk. by rewrite reverse_involutive, reverse_app in Hk.
Qed.

Lemma length_window_of w m l : (length (window_of w m l) <= m)%nat.
Proof. unfold window_of. rewrite length_reverse. apply length_newest. Qed.

Lemma positive_suffix k l : k `suffix_of` l -> positive l -> positive k.
Proof. intros [p ->] H. by apply Forall_app in H as [_ H]. Qed.

Lemma window_of_narrow w w' m l : w' <= w -> window_of w' m (window_of w m l) = window_of w' m l.
Proof. intros. unfold window_of. by rewrite reverse_involutive, newest_narrow. Qed.

(** Taking shares one at a time loses nothing. *)
Lemma window_of_snoc w m l s :
  0 <= share_difficulty s -> window_of w m (window_of w m l ++ [s]) = window_of w m (l ++ [s]).
Proof.
  intros. unfold window_of. rewrite !reverse_snoc, reverse_involutive. f_equal.
  destruct m as [|m]; [done|]. rewrite !newest_cons. case_match; [done|]. f_equal.
  apply newest_narrow; lia.
Qed.

(** ** [trim] *)

Lemma trim_work_ok fuel w l c :
  represents l c -> positive l -> 1 <= w -> (length l <= fuel)%nat ->
  exists c', trim_work fuel w c = Some c' /\ represents (window_of w (length l) l) c' /\
    length (entries (identities c')) = length (entries (identities c)) /\
    (length (shares c') <= length (shares c))%nat.
Proof.
  revert fuel c. induction l as [|s l IH]; intros fuel c Hrep Hpos Hw Hf.
  { exists c. split; [|by split]. destruct fuel; [done|]. cbn. destruct Hrep as [_ Hrows _ _].
    apply Forall2_nil_inv_l in Hrows. by rewrite Hrows. }
  destruct fuel as [|fuel]; [cbn in Hf; lia|]. apply Forall_cons in Hpos as [Hs Hpos].
  pose proof (work_of_nonneg l Hpos) as Hnn. pose proof Hrep as [_ Hrows _ Htot].
  rewrite work_of_cons in Htot. pose proof (Forall2_length _ _ _ Hrows) as Hlen.
  apply Forall2_cons_inv_l in Hrows as (x & ws & [Hx _] & _ & Hsh).
  assert (difficulty x = share_difficulty s) as Hd by (by rewrite Hx).
  assert (positive (reverse l)) as Hposr by (by apply Forall_reverse).
  cbn [trim_work]. destruct (Z.ltb_spec (work_of l) w) as [Hstop|Hgo].
  - exists c. split.
    + rewrite Hsh. cbn [head mbind option_bind]. rewrite Htot. case_match; [|done].
      by rewrite (proj2 (Z.ltb_lt _ (difficulty x))) by lia.
    + split; [|by split]. unfold window_of. rewrite reverse_cons, newest_all;
        [|done|by rewrite work_of_reverse|rewrite length_reverse; cbn; lia].
      by rewrite reverse_snoc, reverse_involutive.
  - assert ((1 <? zlen (shares c)) && (w <? total_work c) = true) as ->.
    { apply andb_true_iff. split; apply Z.ltb_lt; [|lia]. rewrite Hsh, zlen_cons.
      destruct l as [|s2 l]; [unfold work_of in Hgo; cbn in Hgo; lia|]. rewrite Hsh in Hlen. cbn in Hlen. unfold zlen. lia. }
    rewrite Hsh. cbn [head mbind option_bind]. rewrite (proj2 (Z.ltb_ge _ (difficulty x))) by lia.
    destruct (drop_oldest_ok _ _ _ Hrep) as (c1 & Hc1 & Hrep1 & Hent & Hsh1). rewrite Hc1. cbn [mbind option_bind].
    destruct (IH fuel c1 Hrep1 Hpos Hw ltac:(cbn in Hf; lia)) as (c2 & Hc2 & Hrep2 & Hent2 & Hle).
    exists c2. split; [done|]. rewrite Hsh1, Hsh in Hle. cbn [tail length] in *.
    split; [|split; [congruence|lia]]. replace (window_of w (S (length l)) (s :: l)) with (window_of w (length l) l); [done|].
    unfold window_of. rewrite reverse_cons. rewrite (newest_enough w _ (reverse l) [s]); [|done|by rewrite work_of_reverse].
    f_equal. rewrite (newest_take _ _ (S (length l))) by (rewrite length_reverse; lia).
    apply take_ge. rewrite (prefix_length _ _ (newest_prefix _ _ _)). by rewrite length_reverse.
Qed.

Lemma trim_count_ok fuel m l c :
  represents l c -> (length l <= fuel)%nat ->
  exists c', trim_count fuel m c = Some c' /\ represents (drop (length l - m) l) c' /\
    length (entries (identities c')) = length (entries (identities c)).
Proof.
  revert fuel c. induction l as [|s l IH]; intros fuel c Hrep Hf;
    pose proof (Forall2_length _ _ _ (rep_rows _ _ Hrep)) as Hlen.
  { exists c. split; [|by split]. destruct fuel; [done|]. cbn. rewrite <- Hlen. done. }
  destruct fuel as [|fuel]; [cbn in Hf; lia|]. cbn [trim_count]. rewrite <- Hlen.
  destruct (Nat.ltb_spec m (length (s :: l))) as [Hm|Hm].
  - destruct (drop_oldest_ok _ _ _ Hrep) as (c1 & Hc1 & Hrep1 & Hent & Hsh1). rewrite Hc1. cbn [mbind option_bind].
    destruct (IH fuel c1 Hrep1 ltac:(cbn in Hf; lia)) as (c2 & Hc2 & Hrep2 & Hent2).
    exists c2. split; [done|]. cbn [length] in *. replace (S (length l) - m)%nat with (S (length l - m)) by lia.
    cbn [drop]. split; [done|congruence].
  - exists c. split; [done|]. replace (length (s :: l) - m)%nat with 0%nat by lia. by split.
Qed.

Lemma trim_ok w m l c :
  represents l c -> positive l -> 1 <= w ->
  exists c', trim c w m = Some c' /\ represents (window_of w m l) c' /\
    length (entries (identities c')) = length (entries (identities c)).
Proof.
  intros Hrep Hpos Hw. unfold trim. pose proof (Forall2_length _ _ _ (rep_rows _ _ Hrep)) as Hlen. rewrite <- Hlen.
  destruct (trim_work_ok (length l) w l c Hrep Hpos Hw ltac:(lia)) as (c1 & Hc1 & Hrep1 & Hent1 & Hle).
  rewrite Hc1. cbn [mbind option_bind].
  destruct (trim_count_ok (length (shares c1)) m _ _ Hrep1) as (c2 & Hc2 & Hrep2 & Hent2).
  { by rewrite (Forall2_length _ _ _ (rep_rows _ _ Hrep1)). }
  exists c2. split; [done|]. split; [|congruence].
  replace (window_of w m l) with (drop (length (window_of w (length l) l) - m) (window_of w (length l) l)); [done|].
  unfold window_of. rewrite (newest_take w m (length l)) by (by rewrite length_reverse).
  set (r := newest w (length l) (reverse l)). rewrite length_reverse.
  rewrite <- (take_drop m r) at 2. rewrite reverse_app.
  apply drop_length_app. rewrite length_reverse, length_drop. done.
Qed.

Lemma window_of_app w m a b :
  positive b -> window_of w m (window_of w m a ++ b) = window_of w m (a ++ b).
Proof.
  intros Hb. induction b as [|s b IH] using rev_ind.
  { rewrite !app_nil_r. apply window_of_narrow. lia. }
  apply Forall_app in Hb as [Hb Hs]. apply Forall_cons in Hs as [Hs _].
  rewrite !app_assoc. rewrite <- (window_of_snoc w m (_ ++ b)), IH by (done || lia). apply window_of_snoc. lia.
Qed.

Lemma push_all_ok w m k c l :
  represents k c -> positive k -> positive l -> 1 <= w -> (length k <= m)%nat ->
  (length (entries (identities c)) <= S m)%nat -> Z.of_nat m < 2 ^ 32 - 1 ->
  exists c', push_all w m c l = Some c' /\
    represents (match l with [] => k | _ => window_of w m (k ++ l) end) c' /\
    (length (entries (identities c')) <= S m)%nat.
Proof.
  revert k c. induction l as [|s l IH]; intros k c Hrep Hk Hl Hw Hlen Hent Hm; [by exists c|].
  apply Forall_cons in Hl as [Hs Hl]. cbn [push_all].
  destruct (push_ok k c s m Hrep Hent Hm Hlen) as (c1 & Hc1 & Hrep1 & Hent1). rewrite Hc1. cbn [mbind option_bind].
  assert (positive (k ++ [s])) as Hks by (apply Forall_app_2; [done|by constructor]).
  destruct (trim_ok w m _ _ Hrep1 Hks Hw) as (c2 & Hc2 & Hrep2 & Hent2). rewrite Hc2. cbn [mbind option_bind].
  destruct (IH _ c2 Hrep2 (positive_suffix _ _ (window_of_suffix _ _ _) Hks) Hl Hw (length_window_of _ _ _)
    ltac:(lia) Hm) as (c3 & Hc3 & Hrep3 & Hent3).
  exists c3. split; [done|]. split; [|done]. destruct l as [|s2 l]; [done|].
  by rewrite window_of_app, <- app_assoc in Hrep3.
Qed.

Lemma represents_default : represents [] contents_default.
Proof.
  split; [split|constructor|done|done].
  - done.
  - intros n i H. cbn in H. by rewrite lookup_empty in H.
  - constructor.
  - intros i. split; [by intros ?%not_elem_of_nil|done].
Qed.

(** Two contents that represent one window show the same identities, whatever
    slots hold them. *)
Lemma identities_iter_spec l c n st :
  represents l c -> (n, st) ∈ identities_iter (identities c) <-> state <$> entry_of n l = Some st.
Proof.
  intros [[H1 H2 _ _] _ Hlook _]. unfold identities_iter. rewrite list_elem_of_fmap. split.
  - intros (e & [= -> ->] & He). apply list_elem_of_omap in He as (o & Ho & [= ->]).
    apply list_elem_of_lookup_1 in Ho as [i Hi].
    assert (entry_at (identities c) i = Some e) as Hat by (unfold entry_at; by rewrite Hi).
    rewrite <- Hlook. unfold lookup_name. rewrite (H1 _ _ Hat). cbn [mbind option_bind]. by rewrite Hat.
  - rewrite <- Hlook. unfold lookup_name. destruct (by_name _ !! n) as [i|] eqn:Hi; [|done].
    cbn [mbind option_bind]. destruct (H2 _ _ Hi) as (e & He & <-). rewrite He. intros [= <-]. exists e. split; [done|].
    apply list_elem_of_omap. exists (Some e). split; [|done]. unfold entry_at in He.
    destruct (entries (identities c) !! i) as [o|] eqn:E; [|done]. cbn in He. subst o. by eapply list_elem_of_lookup_2.
Qed.

(** What is older than the window may go. *)
Lemma newest_take_prefix w m j r :
  (length (newest w m r) <= j)%nat -> newest w m (take j r) = newest w m r.
Proof.
  revert w m j. induction r as [|s r IH]; intros w m j Hj; [by rewrite take_nil|].
  destruct m as [|m]; [by destruct (take j _)|]. rewrite newest_cons in Hj. destruct j as [|j].
  - case_match eqn:Hw; [|cbn in Hj; lia]. rewrite newest_cons, Hw. done.
  - cbn [take]. rewrite !newest_cons. case_match; [done|]. f_equal. apply IH. cbn in Hj. lia.
Qed.

Lemma window_of_drop w m n l :
  (n + length (window_of w m l) <= length l)%nat -> window_of w m (drop n l) = window_of w m l.
Proof.
  unfold window_of. rewrite length_reverse. intros Hn. f_equal.
  rewrite <- (newest_take_prefix w m (length l - n) (reverse l)) by lia. f_equal.
  replace (reverse l) with (reverse (drop n l) ++ reverse (take n l)) by (by rewrite <- reverse_app, take_drop).
  symmetry. apply take_length_app.
  rewrite length_reverse, length_drop. done.
Qed.

Lemma suffix_drop {A} (k l : list A) n : k `suffix_of` l -> (n + length k <= length l)%nat -> k `suffix_of` drop n l.
Proof.
  intros [p ->] Hn. rewrite length_app in Hn. exists (drop n p). apply drop_app_le. lia.
Qed.
