(* ===== verification/Rows.v ===== *)
(** The packed rows of the pool's ledger file ([prime/src/ledger/store.rs],
    [blocks.rs], [db.rs]): shares, found blocks, owed blocks and confirmation
    readings, each with its inverse. A [f64] is the 64 bits it is stored as, and
    a parse that fails ([.ok()?]) is [None]. *)
From S2P Require Import Prelude Reader Utf8 Window.

Definition NAME_SEPARATOR : Z := 0x00.

Definition split_at_separator (rest : bytes) : bytes * bytes :=
  match position (fun b => bz b =? NAME_SEPARATOR) rest with
  | Some i => (take i rest, drop (S i) rest)
  | None => (rest, [])
  end.

(** [read(..).ok()], the cursor dropped. *)
Definition read_row {A} (p : parser Truncated A) (row : bytes) : option A := ok (parse_all p row).

Definition pack (s : Share) : bytes :=
  le 8 (share_accepted_at s) ++ le 8 (share_difficulty s) ++ share_block_hash s ++
  identity s ++ [zb NAME_SEPARATOR] ++ share_tag s.

Definition unpack (row : bytes) : option Share :=
  read_row (
    accepted_at ← u64 "accepted_at";
    difficulty ← u64 "difficulty";
    hash ← arr 32 "hash";
    c ← get_reader;
    let '(identity, tag) := split_at_separator (rest c) in
    mret {| share_accepted_at := accepted_at; identity := from_utf8_lossy identity;
            share_difficulty := difficulty; share_block_hash := hash;
            share_tag := from_utf8_lossy tag |}) row.

Record RowHead := { head_accepted_at : Z; head_difficulty : Z; head_block_hash : bytes }.

Definition unpack_head (row : bytes) : option RowHead :=
  read_row (
    accepted_at ← u64 "accepted_at";
    difficulty ← u64 "difficulty";
    block_hash ← arr 32 "hash";
    mret {| head_accepted_at := accepted_at; head_difficulty := difficulty;
            head_block_hash := block_hash |}) row.

(** ** Blocks, what they owe and their readings *)

Record Payout := { payout_identity : bytes; sats : Z }.

Record OwedBlock := {
  owed_found_at : Z;
  owed_height : Z;
  owed_block_hash : bytes;
  settled_at : option Z;
  owed_entries : list Payout;
}.

Definition owed_total (o : OwedBlock) : Z := wrap 64 (sumZ (sats <$> owed_entries o)).

Record ConfirmationReading := { checked_at : Z; confirmations : Z }.

Definition NOT_STORED : Z := - 2 ^ 63.
Definition node_stores_block (r : ConfirmationReading) : bool := negb (confirmations r =? NOT_STORED).

Record FoundBlock := {
  block_found_at : Z;
  block_height : Z;
  found_block_hash : bytes;
  paid_to_split : Z;
  paid_to_pool : Z;
  finder : bytes;
  block_tag : bytes;
  network_difficulty_bits : Z;
  cumulative_work_then : Z;
}.

Definition pack_owed (o : OwedBlock) : bytes :=
  le 8 (owed_found_at o) ++ le 4 (owed_height o) ++ le 8 (owed_total o) ++
  le 8 (default 0 (settled_at o)) ++ le 2 (zlen (owed_entries o)) ++
  mjoin ((fun p => le 2 (zlen (payout_identity p)) ++ payout_identity p ++ le 8 (sats p))
    <$> owed_entries o).

Definition read_owed_entry : parser Truncated Payout :=
  len ← u16 "identity length";
  identity ← take_bytes len "identity";
  sats ← u64 "sats";
  mret {| payout_identity := from_utf8_lossy identity; sats := sats |}.

(** The key of a row, which must be a hash. *)
Definition hash_key (key : bytes) : option bytes :=
  if bool_decide (length key = 32%nat) then Some key else None.

Definition unpack_owed (hash row : bytes) : option OwedBlock :=
  block_hash ← hash_key hash;
  read_row (
    found_at ← u64 "found_at";
    height ← u32 "height";
    _ ← advance 8 "total";
    settled ← u64 "settled_at";
    count ← u16 "entry count";
    entries ← parse_n count read_owed_entry;
    mret {| owed_found_at := found_at; owed_height := height; owed_block_hash := block_hash;
            settled_at := if negb (settled =? 0) then Some settled else None;
            owed_entries := entries |}) row.

Definition pack_block (b : FoundBlock) : bytes :=
  le 8 (block_found_at b) ++ le 4 (block_height b) ++ le 8 (paid_to_split b) ++
  le 8 (paid_to_pool b) ++ le 8 (network_difficulty_bits b) ++ le 16 (cumulative_work_then b) ++
  finder b ++ [zb NAME_SEPARATOR] ++ block_tag b.

Definition unpack_block (hash row : bytes) : option FoundBlock :=
  block_hash ← hash_key hash;
  read_row (
    found_at ← u64 "found_at";
    height ← u32 "height";
    paid_to_split ← u64 "paid_to_split";
    paid_to_pool ← u64 "paid_to_pool";
    network_difficulty ← arr 8 "network difficulty";
    cumulative_work ← arr 16 "cumulative work";
    c ← get_reader;
    let '(finder, tag) := split_at_separator (rest c) in
    mret {| block_found_at := found_at; block_height := height; found_block_hash := block_hash;
            paid_to_split := paid_to_split; paid_to_pool := paid_to_pool;
            finder := from_utf8_lossy finder; block_tag := from_utf8_lossy tag;
            network_difficulty_bits := le_val network_difficulty;
            cumulative_work_then := le_val cumulative_work |}) row.

(** An [i64] in two's complement. *)
Definition le_signed (n : nat) (z : Z) : bytes := le n (z mod 256 ^ Z.of_nat n).
Definition signed_val (w u : Z) : Z := if u <? 2 ^ (w - 1) then u else u - 2 ^ w.

Definition pack_confirmations (c : ConfirmationReading) : bytes :=
  le 8 (checked_at c) ++ le_signed 8 (confirmations c).

Definition unpack_confirmations (hash row : bytes) : option (bytes * ConfirmationReading) :=
  block_hash ← hash_key hash;
  read_row (
    checked_at ← u64 "checked_at";
    confirmations ← arr 8 "confirmations";
    mret (block_hash, {| checked_at := checked_at;
                         confirmations := signed_val 64 (le_val confirmations) |})) row.

(** ** Round trips *)

(** A name of a row: an identity or a tag is a string, and the first of the two
    holds no separator. *)
Definition is_string (s : bytes) : Prop := valid_utf8 s = true.
Definition is_name (s : bytes) : Prop := is_string s /\ zb NAME_SEPARATOR ∉ s.

Record share_row_wf (s : Share) : Prop := {
  row_accepted_at : uint 64 (share_accepted_at s);
  row_difficulty : uint 64 (share_difficulty s);
  row_hash : length (share_block_hash s) = 32%nat;
  row_identity : is_name (identity s);
  row_tag : is_string (share_tag s);
}.

Record block_row_wf (b : FoundBlock) : Prop := {
  row_block_found_at : uint 64 (block_found_at b);
  row_block_height : uint 32 (block_height b);
  row_block_hash : length (found_block_hash b) = 32%nat;
  row_paid_to_split : uint 64 (paid_to_split b);
  row_paid_to_pool : uint 64 (paid_to_pool b);
  row_difficulty_bits : uint 64 (network_difficulty_bits b);
  row_cumulative_work : uint 128 (cumulative_work_then b);
  row_finder : is_name (finder b);
  row_block_tag : is_string (block_tag b);
}.

Record owed_row_wf (o : OwedBlock) : Prop := {
  row_owed_found_at : uint 64 (owed_found_at o);
  row_owed_height : uint 32 (owed_height o);
  row_owed_hash : length (owed_block_hash o) = 32%nat;
  row_settled : forall t, settled_at o = Some t -> 0 < t < 2 ^ 64;
  row_count : zlen (owed_entries o) < 2 ^ 16;
  row_entries : Forall (fun p => is_string (payout_identity p) /\ zlen (payout_identity p) < 2 ^ 16 /\
                                 uint 64 (sats p)) (owed_entries o);
}.

Lemma split_at_separator_join a b :
  zb NAME_SEPARATOR ∉ a -> split_at_separator (a ++ [zb NAME_SEPARATOR] ++ b) = (a, b).
Proof.
  intros Ha. unfold split_at_separator. cbn [app]. rewrite position_app_first; [|clear b|done].
  - rewrite take_app_length. f_equal. change (a ++ zb NAME_SEPARATOR :: b) with (a ++ [zb NAME_SEPARATOR] ++ b).
    rewrite app_assoc. apply drop_length_app. rewrite length_app. cbn. lia.
  - apply Forall_forall. intros c Hc. apply Z.eqb_neq. intros Hz. apply Ha.
    replace (zb NAME_SEPARATOR) with c; [done|]. rewrite <- (zb_bz c). by rewrite Hz.
Qed.

Lemma signed_val_wrap z : - 2 ^ 63 <= z < 2 ^ 63 -> signed_val 64 (z mod 2 ^ 64) = z.
Proof.
  intros Hz. unfold signed_val. change (64 - 1) with 63. destruct (Z.ltb_spec z 0).
  - replace (z mod 2 ^ 64) with (z + 2 ^ 64) by (apply Z.mod_unique_pos with (-1); lia).
    rewrite (proj2 (Z.ltb_ge _ _)) by lia. lia.
  - rewrite Z.mod_small by lia. by rewrite (proj2 (Z.ltb_lt _ _)) by lia.
Qed.

Lemma hash_key_ok h : length h = 32%nat -> hash_key h = Some h.
Proof. intros. unfold hash_key. by rewrite bool_decide_eq_true_2. Qed.

#[export] Hint Resolve row_accepted_at row_difficulty row_hash row_block_found_at row_block_height
  row_paid_to_split row_paid_to_pool row_owed_found_at row_owed_height : reader.

Lemma unpack_pack s : share_row_wf s -> unpack (pack s) = Some s.
Proof.
  intros Hwf. pose proof Hwf as [? ? ? [Hid Hsep] Htag]. unfold unpack, pack, read_row, parse_all, new_reader. parse.
  cbn [rest]. rewrite split_at_separator_join by done. cbn -[from_utf8_lossy].
  rewrite !from_utf8_lossy_valid by done. by destruct s.
Qed.

Lemma unpack_head_pack s :
  share_row_wf s ->
  unpack_head (pack s) = Some {| head_accepted_at := share_accepted_at s;
                                 head_difficulty := share_difficulty s;
                                 head_block_hash := share_block_hash s |}.
Proof. intros Hwf. pose proof Hwf as [? ? ? _ _]. unfold unpack_head, pack, read_row, parse_all, new_reader. parse. done. Qed.

Lemma unpack_block_pack b : block_row_wf b -> unpack_block (found_block_hash b) (pack_block b) = Some b.
Proof.
  intros Hwf. pose proof Hwf as [? ? Hh ? ? Hd Hw [Hf Hsep] Htag].
  unfold unpack_block, pack_block, read_row, parse_all, new_reader. rewrite hash_key_ok by done. cbn [mbind option_bind].
  do 4 parse_step. do 2 (erewrite bind_ok by (apply arr_ok; by rewrite length_le); cbn beta iota). parse.
  cbn [rest]. rewrite split_at_separator_join by done. cbn -[from_utf8_lossy le_val le].
  rewrite !from_utf8_lossy_valid, !le_val_le_small by done. by destruct b.
Qed.

Lemma read_owed_entry_ok p f tl :
  is_string (payout_identity p) /\ zlen (payout_identity p) < 2 ^ 16 /\ uint 64 (sats p) ->
  read_owed_entry (Rd f ((le 2 (zlen (payout_identity p)) ++ payout_identity p ++ le 8 (sats p)) ++ tl)) =
  Ok (p, Rd f tl).
Proof.
  intros (Hs & Hlen & Hsats). unfold read_owed_entry. rewrite <- !app_assoc.
  erewrite bind_ok by (apply u16_ok; unfold uint; pose proof (zlen_nonneg (payout_identity p)); lia). cbn beta iota.
  parse. rewrite ret_ok, from_utf8_lossy_valid by done. by destruct p.
Qed.

Lemma unpack_owed_pack o : owed_row_wf o -> unpack_owed (owed_block_hash o) (pack_owed o) = Some o.
Proof.
  intros Hwf. pose proof Hwf as [? ? Hh Hset Hcount Hent].
  unfold unpack_owed, pack_owed, read_row, parse_all, new_reader. rewrite hash_key_ok by done. cbn [mbind option_bind].
  set (f := le 8 _ ++ _). unfold f at 2. do 2 parse_step.
  erewrite bind_ok by (apply advance_ok; unfold zlen; by rewrite length_le). cbn beta iota.
  erewrite bind_ok; [|apply u64_ok; unfold uint; destruct (settled_at o) as [t|] eqn:E; cbn; [specialize (Hset t eq_refl)|]; lia].
  erewrite bind_ok by (apply u16_ok; unfold uint; pose proof (zlen_nonneg (owed_entries o)); lia). cbn beta iota.
  rewrite <- (app_nil_r (mjoin _)).
  erewrite bind_ok; [|apply (parse_n_ok read_owed_entry); intros p f' tl Hp; apply read_owed_entry_ok;
    by eapply Forall_forall in Hent]. cbn. destruct o as [? ? ? st ?]; cbn in *. do 2 f_equal.
  destruct st as [t|]; [|done]. specialize (Hset t eq_refl). cbn. by rewrite (proj2 (Z.eqb_neq t 0)) by lia.
Qed.

Lemma unpack_confirmations_pack hash r :
  length hash = 32%nat -> uint 64 (checked_at r) -> - 2 ^ 63 <= confirmations r < 2 ^ 63 ->
  unpack_confirmations hash (pack_confirmations r) = Some (hash, r).
Proof.
  intros Hh Hc Hr. unfold unpack_confirmations, pack_confirmations, read_row, parse_all, new_reader, le_signed.
  rewrite hash_key_ok by done. cbn [mbind option_bind]. parse_step.
  rewrite <- (app_nil_r (le 8 (confirmations r mod _))).
  erewrite bind_ok by (apply arr_ok; by rewrite length_le). cbn -[le_val le signed_val].
  rewrite le_val_le. rewrite Z.mod_mod by done. change (256 ^ Z.of_nat 8) with (2 ^ 64).
  rewrite signed_val_wrap by done. by destruct r.
Qed.

(** Every row the pool writes to its ledger reads back as what was written:
    a share, a found block and an owed block with its entries, under their
    hashes as keys, and a confirmation reading, down to the negative counts of
    a block off the best chain and the sentinel of one the node does not
    store. *)
Theorem rows_roundtrip (s : Share) (b : FoundBlock) (o : OwedBlock) (r : ConfirmationReading) :
  share_row_wf s -> block_row_wf b -> owed_row_wf o ->
  uint 64 (checked_at r) -> - 2 ^ 63 <= confirmations r < 2 ^ 63 ->
  unpack (pack s) = Some s /\
  unpack_block (found_block_hash b) (pack_block b) = Some b /\
  unpack_owed (owed_block_hash o) (pack_owed o) = Some o /\
  unpack_confirmations (found_block_hash b) (pack_confirmations r) = Some (found_block_hash b, r).
Proof.
  intros Hs Hb Ho Hc Hr. split_and!.
  - by apply unpack_pack.
  - by apply unpack_block_pack.
  - by apply unpack_owed_pack.
  - apply unpack_confirmations_pack; [apply Hb|done..].
Qed.

Lemma is_name_dec s : valid_utf8 s && bool_decide (zb NAME_SEPARATOR ∉ s) = true -> is_name s.
Proof. intros [Hs Hn]%andb_true_iff. split; [done|]. by apply bool_decide_eq_true_1 in Hn. Qed.

Definition example_share : Share :=
  {| share_accepted_at := 1750000000; identity := zb <$> [98; 99; 49]; share_difficulty := 16384;
     share_block_hash := zeros 32; share_tag := [] |}.
Definition example_block : FoundBlock :=
  {| block_found_at := 1; block_height := 840000; found_block_hash := zeros 32; paid_to_split := 5;
     paid_to_pool := 6; finder := zb <$> [98; 99]; block_tag := zb <$> [116]; network_difficulty_bits := 0;
     cumulative_work_then := 2 ^ 100 |}.
Definition example_owed : OwedBlock :=
  {| owed_found_at := 1; owed_height := 2; owed_block_hash := zeros 32; settled_at := Some 3;
     owed_entries := [{| payout_identity := zb <$> [98]; sats := 1000 |}] |}.

Lemma example_share_row_wf : share_row_wf example_share.
Proof. split; first [apply is_name_dec; by vm_compute|by vm_compute]. Qed.
Lemma example_block_wf : block_row_wf example_block.
Proof. split; first [apply is_name_dec; by vm_compute|by vm_compute]. Qed.
Lemma example_owed_wf : owed_row_wf example_owed.
Proof.
  split; [by vm_compute..|by intros t [= <-]|by vm_compute|].
  apply Forall_cons_2; [by vm_compute|apply Forall_nil_2].
Qed.

Lemma rows_roundtrip_witness :
  unpack_confirmations (zeros 32) (pack_confirmations {| checked_at := 7; confirmations := NOT_STORED |}) =
  Some (zeros 32, {| checked_at := 7; confirmations := NOT_STORED |}).
Proof.
  destruct (rows_roundtrip example_share example_block example_owed {| checked_at := 7; confirmations := NOT_STORED |}
    example_share_row_wf example_block_wf example_owed_wf) as (_ & _ & _ & H); [by vm_compute|by vm_compute|exact H].
Defined.
