(* ===== verification/Ledger.v ===== *)
(** The ledger of the pool ([prime/src/ledger.rs], [prime/src/ledger/store.rs]):
    the share rows on disk, the window kept beside them, its resizing as the
    network difficulty moves, and the re-read that widens it while shares keep
    arriving. *)
From stdpp Require Import sorting.
From S2P Require Import Prelude Reader Utf8 Window Rows.

Definition SECS_PER_MINUTE : Z := 60.
Definition NTIME_WINDOW_SECS : Z := 2 * (60 * SECS_PER_MINUTE).
Definition CLOCK_STEP_MARGIN_SECS : Z := 10 * SECS_PER_MINUTE.
Definition ACCEPTED_HASH_RETENTION_SECS : Z := 2 * NTIME_WINDOW_SECS + CLOCK_STEP_MARGIN_SECS.
Definition MAX_ACCEPTED_HASHES : Z := Z.shiftl 1 20.
Definition MAX_RETAINED_PER_CALL : Z := 4096.

(** The database's share table: a transaction reads its rows in the order of
    their keys. *)
Class SharesTable := {
  table : Type;
  rows : table -> list (Z * bytes);
  insert_row : Z -> bytes -> table -> table;
  remove_row : Z -> table -> table;
  rows_insert : forall t k v, Forall (fun r => r.1 < k) (rows t) ->
    rows (insert_row k v t) = rows t ++ [(k, v)];
  rows_remove : forall t k, rows (remove_row k t) = filter (fun r => r.1 <> k) (rows t);
}.

(** A table for the witnesses: its rows, oldest first, each key inserted once. *)
#[refine] Definition example_table : SharesTable :=
  {| table := list (Z * bytes); rows t := t;
     insert_row k v t := t ++ [(k, v)];
     remove_row k t := filter (fun r => r.1 <> k) t |}.
Proof. all: done. Defined.

Record ReadBack := { skipped : Z; truncated : bool }.

Section ledger.
Context `{SharesTable}.

(** [stored_work] is the row of [META] the ledger's counter is kept in. *)
Record Store := { db : table; next_seq : Z; retain_bound : option Z; stored_work : Z }.

Fixpoint insert_rows (seq : Z) (shares : list Share) (t : table) : table :=
  match shares with
  | [] => t
  | s :: shares => insert_rows (seq + 1) shares (insert_row seq (pack s) t)
  end.

(** One transaction: [commits] is whether the database commits it. *)
Definition insert_batch (st : Store) (shares : list Share) (work : Z) (commits : bool) : option Store :=
  if commits then
    Some {| db := insert_rows (next_seq st) shares (db st); next_seq := next_seq st + zlen shares;
            retain_bound := retain_bound st; stored_work := work |}
  else None.

(** The loop of [accepted_since], over the rows newest first. *)
Fixpoint accepted_loop (cutoff max : Z) (newest_first : list (Z * bytes))
    (collected : list (Z * bytes)) : list (Z * bytes) :=
  match newest_first with
  | [] => collected
  | (_, value) :: newest_first =>
    if zlen collected <? max then
      match unpack_head value with
      | None => accepted_loop cutoff max newest_first collected
      | Some head =>
        if head_accepted_at head <? cutoff then collected
        else accepted_loop cutoff max newest_first (collected ++ [(head_accepted_at head, head_block_hash head)])
      end
    else collected
  end.

Definition accepted_since (st : Store) (cutoff max : Z) : list (Z * bytes) :=
  reverse (accepted_loop cutoff max (reverse (rows (db st))) []).

(** The rows [retain] removes: the loop over the surplus, stopped at the first
    row that is read back. *)
Fixpoint oldest_rows (position recent_from keep_after : Z) (surplus : list (Z * bytes)) : list Z :=
  match surplus with
  | [] => []
  | (seq, value) :: surplus =>
    let read_back := (recent_from <=? position) &&
      match unpack_head value with Some h => keep_after <=? head_accepted_at h | None => false end in
    if read_back then [] else seq :: oldest_rows (position + 1) recent_from keep_after surplus
  end.

Definition retain (st : Store) (floor keep_after keep_newest : Z) (commits : bool) : Store :=
  match retain_bound st with
  | None => st
  | Some configured =>
    let count := zlen (rows (db st)) in
    let surplus := Z.min (sat_sub count (Z.max configured floor)) MAX_RETAINED_PER_CALL in
    let recent_from := sat_sub count keep_newest in
    let oldest := oldest_rows 0 recent_from keep_after (take (Z.to_nat surplus) (rows (db st))) in
    if commits then
      {| db := foldl (fun t seq => remove_row seq t) (db st) oldest; next_seq := next_seq st;
         retain_bound := retain_bound st; stored_work := stored_work st |}
    else st
  end.

(** The first pass of [read_window], over the rows newest first. *)
Record WalkBack := { walk_work : Z; counted : nat; start : option Z; walk_skipped : Z; hit_count_cap : bool }.

Fixpoint walk_back (window : Z) (max_shares : nat) (newest_first : list (Z * bytes)) (w : WalkBack) : WalkBack :=
  if walk_work w <? window then
    if (max_shares <=? counted w)%nat then
      {| walk_work := walk_work w; counted := counted w; start := start w;
         walk_skipped := walk_skipped w; hit_count_cap := true |}
    else
      match newest_first with
      | [] => w
      | (seq, value) :: newest_first =>
        walk_back window max_shares newest_first
          match unpack_head value with
          | Some head =>
            {| walk_work := sat_add 128 (walk_work w) (head_difficulty head); counted := S (counted w);
               start := Some seq; walk_skipped := walk_skipped w; hit_count_cap := hit_count_cap w |}
          | None =>
            {| walk_work := walk_work w; counted := counted w; start := start w;
               walk_skipped := walk_skipped w + 1; hit_count_cap := hit_count_cap w |}
          end
      end
  else w.

Definition read_window (snapshot : list (Z * bytes)) (window : Z) (max_shares : nat)
    : ReadBack * list Share :=
  let w := walk_back window max_shares (reverse snapshot)
    {| walk_work := 0; counted := 0; start := None; walk_skipped := 0; hit_count_cap := false |} in
  let read_back := {| skipped := walk_skipped w; truncated := (walk_work w <? window) && negb (hit_count_cap w) |} in
  match start w with
  | None => (read_back, [])
  | Some start => (read_back, omap (fun r => unpack r.2) (filter (fun r => start <= r.1) snapshot))
  end.

(** [Contents::read] over [read_window]. *)
Definition contents_read (snapshot : list (Z * bytes)) (window : Z) (max_shares : nat)
    : option (Contents * ReadBack) :=
  let '(read_back, shares) := read_window snapshot window max_shares in
  contents ← push_all window max_shares contents_default shares;
  Some (contents, read_back).

Record Reread := { reread_snapshot : list (Z * bytes); reread_window : Z; reread_max_shares : nat }.

Definition reread_read (r : Reread) : option (Contents * ReadBack) :=
  contents_read (reread_snapshot r) (reread_window r) (reread_max_shares r).

Record Ledger := {
  contents : Contents;
  window : Z;
  store : option Store;
  cumulative_work : Z;
  max_shares : nat;
  count_capped : bool;
  reread_due : bool;
  recorded_during_reread : option (list Share);
}.

Definition is_count_capped (c : Contents) (window : Z) (max_shares : nat) : bool :=
  (max_shares <=? length (shares c))%nat && (total_work c <? window).

(** The ledger with other contents, its count cap read off them. *)
Definition with_contents (l : Ledger) (c : Contents) : Ledger :=
  {| contents := c; window := window l; store := store l; cumulative_work := cumulative_work l;
     max_shares := max_shares l; count_capped := is_count_capped c (window l) (max_shares l);
     reread_due := reread_due l; recorded_during_reread := recorded_during_reread l |}.

Definition ledger_trim (l : Ledger) : option Ledger :=
  with_contents l <$> trim (contents l) (window l) (max_shares l).

(** [contents.push(share); trim()], share by share. *)
Fixpoint push_and_trim (l : Ledger) (shares : list Share) : option Ledger :=
  match shares with
  | [] => Some l
  | s :: shares => c ← push (contents l) s; l ← ledger_trim (with_contents l c); push_and_trim l shares
  end.

Definition set_window (l : Ledger) (new_window : Z) : option Ledger :=
  let new_window := Z.max new_window 1 in
  ledger_trim
    {| contents := contents l; window := new_window; store := store l;
       cumulative_work := cumulative_work l; max_shares := max_shares l; count_capped := count_capped l;
       reread_due := reread_due l || ((window l <? new_window) && is_some (store l));
       recorded_during_reread := recorded_during_reread l |}.

Definition set_recorded (l : Ledger) (r : option (list Share)) : Ledger :=
  {| contents := contents l; window := window l; store := store l; cumulative_work := cumulative_work l;
     max_shares := max_shares l; count_capped := count_capped l; reread_due := reread_due l;
     recorded_during_reread := r |}.

Definition set_store (l : Ledger) (st : option Store) : Ledger :=
  {| contents := contents l; window := window l; store := st; cumulative_work := cumulative_work l;
     max_shares := max_shares l; count_capped := count_capped l; reread_due := reread_due l;
     recorded_during_reread := recorded_during_reread l |}.

Definition set_cumulative_work (l : Ledger) (w : Z) : Ledger :=
  {| contents := contents l; window := window l; store := store l; cumulative_work := w;
     max_shares := max_shares l; count_capped := count_capped l; reread_due := reread_due l;
     recorded_during_reread := recorded_during_reread l |}.

(** [record_batch]: the shares are on disk, or the error leaves the ledger as it
    was. The second outcome is of the retention's transaction. *)
Definition record_batch (l : Ledger) (shares : list Share) (commits retain_commits : bool)
    : option (Ledger * bool) :=
  match shares with
  | [] => Some (l, true)
  | _ =>
    let newest := foldr (fun s m => Z.max (share_accepted_at s) m) 0 shares in
    let keep_after := sat_sub newest ACCEPTED_HASH_RETENTION_SECS in
    let work := foldl (fun work s => wrap 128 (work + share_difficulty s)) (cumulative_work l) shares in
    let inserted :=
      match store l with
      | Some st => Some <$> insert_batch st shares work commits
      | None => Some None
      end in
    match inserted with
    | None => Some (l, false)
    | Some st =>
      l ← push_and_trim (set_cumulative_work (set_store l st) work) shares;
      match recorded_during_reread l with
      | Some recorded => Some (set_recorded l (Some (recorded ++ shares)), true)
      | None =>
        match store l with
        | None => Some (l, true)
        | Some st =>
          let floor := Z.of_nat (length (Window.shares (contents l))) in
          Some (set_store l (Some (retain st floor keep_after MAX_ACCEPTED_HASHES retain_commits)), true)
        end
      end
    end
  end.

Definition begin_reread (l : Ledger) (reads : bool) : Ledger * option Reread :=
  if negb (reread_due l) || is_some (recorded_during_reread l) then (l, None) else
  match store l with
  | None => (l, None)
  | Some st =>
    if reads then
      (set_recorded l (Some []),
       Some {| reread_snapshot := rows (db st); reread_window := window l; reread_max_shares := max_shares l |})
    else (l, None)
  end.

(** A failed read installs nothing. *)
Definition finish_reread (l : Ledger) (read_to : Z) (read : option Contents) : option Ledger :=
  let recorded := default [] (recorded_during_reread l) in
  let l := set_recorded l None in
  match read with
  | None => Some l
  | Some c =>
    l ← ledger_trim
      {| contents := c; window := window l; store := store l; cumulative_work := cumulative_work l;
         max_shares := max_shares l; count_capped := count_capped l;
         reread_due := read_to <? window l; recorded_during_reread := recorded_during_reread l |};
    push_and_trim l recorded
  end.

(** ** Transitions

    A ledger and the re-read running beside it, if one is. *)

Definition shares_ok (shares : list Share) : Prop :=
  Forall (fun s => share_row_wf s /\ 0 < share_difficulty s) shares.

Inductive step : Ledger * option Reread -> option (Ledger * option Reread) -> Prop :=
| step_record l p shares commits retain_commits :
    shares_ok shares ->
    step (l, p) ((fun r => (r.1, p)) <$> record_batch l shares commits retain_commits)
| step_window l p w : uint 128 w -> step (l, p) ((fun l => (l, p)) <$> set_window l w)
| step_begin l p reads :
    step (l, p) (let '(l, r) := begin_reread l reads in Some (l, match r with Some r => Some r | None => p end))
| step_finish l r fails :
    step (l, Some r)
      (match (if fails : bool then Some None else (fun c => Some c.1) <$> reread_read r) with
       | None => None
       | Some read => (fun l => (l, None)) <$> finish_reread l (reread_window r) read
       end).

(** ** The invariant *)

(** The window is the one the store gives: not while a widening waits for its
    re-read, nor without a store to read. *)
Definition exact (l : Ledger) : bool := is_some (store l) && negb (reread_due l).

(** The rows of a store are these shares, under ascending sequence numbers
    below the next one. *)
Record holds (st : Store) (stored : list Share) : Prop := {
  holds_rows : (rows (db st)).*2 = pack <$> stored;
  holds_sorted : StronglySorted (fun a b : Z * bytes => a.1 < b.1) (rows (db st));
  holds_next : Forall (fun r => r.1 < next_seq st) (rows (db st));
}.

Record ledger_ok (l : Ledger) (p : option Reread) (stored : list Share) : Prop := {
  ok_max : (1 <= max_shares l)%nat /\ Z.of_nat (max_shares l) < 2 ^ 32 - 1;
  ok_window : 1 <= window l < 2 ^ 128;
  ok_store : forall st, store l = Some st -> holds st stored;
  ok_stored : shares_ok stored;
  ok_work : forall st, store l = Some st -> stored_work st = cumulative_work l;
  ok_contents : exists k, represents k (contents l) /\ k `suffix_of` stored /\
    window_of (window l) (max_shares l) k = k /\
    (exact l = true -> k = window_of (window l) (max_shares l) stored);
  ok_entries : (length (entries (identities (contents l))) <= S (max_shares l))%nat;
  ok_capped : count_capped l = is_count_capped (contents l) (window l) (max_shares l);
  ok_reread :
    match p, recorded_during_reread l with
    | None, None => True
    | Some r, Some recorded => exists snap,
        (reread_snapshot r).*2 = pack <$> snap /\
        StronglySorted (fun a b : Z * bytes => a.1 < b.1) (reread_snapshot r) /\
        stored = snap ++ recorded /\ reread_max_shares r = max_shares l /\ 1 <= reread_window r < 2 ^ 128 /\
        is_some (store l) = true
    | _, _ => False
    end;
}.

Lemma shares_ok_positive l : shares_ok l -> positive l.
Proof. intros H0. eapply Forall_impl; [exact H0|]. by intros ? []. Qed.

Lemma push_and_trim_all l shares :
  shares <> [] ->
  push_and_trim l shares = with_contents l <$> push_all (window l) (max_shares l) (contents l) shares.
Proof.
  revert l. induction shares as [|s shares IH]; intros l Hne; [done|]. cbn [push_and_trim push_all].
  destruct (push (contents l) s) as [c|]; cbn [mbind option_bind fmap option_fmap option_map]; [|done].
  unfold ledger_trim. cbn [contents with_contents window max_shares].
  destruct (trim c (window l) (max_shares l)) as [c2|]; cbn [mbind option_bind fmap option_fmap option_map]; [|done].
  destruct shares as [|s2 shares]; [done|]. rewrite IH by done. done.
Qed.

Lemma rows_insert_rows seq shares t :
  Forall (fun r => r.1 < seq) (rows t) ->
  rows (insert_rows seq shares t) = rows t ++ zip (seqZ seq (zlen shares)) (pack <$> shares).
Proof.
  revert seq t. induction shares as [|s shares IH]; intros seq t Ht; cbn [insert_rows].
  { cbn. by rewrite zip_with_nil_r, app_nil_r. }
  rewrite zlen_cons, seqZ_cons by (pose proof (zlen_nonneg shares); lia).
  rewrite IH; [|rewrite rows_insert by done; apply Forall_app_2].
  - rewrite rows_insert by done. rewrite <- app_assoc. cbn. do 3 f_equal. f_equal; lia.
  - eapply Forall_impl; [exact Ht|]. cbn. lia.
  - constructor; [cbn; lia|constructor].
Qed.

Definition ascending (l : list (Z * bytes)) : Prop := StronglySorted (fun a b : Z * bytes => a.1 < b.1) l.

Lemma ascending_app l k :
  ascending (l ++ k) <-> ascending l /\ ascending k /\ Forall (fun a => Forall (fun b => a.1 < b.1) k) l.
Proof.
  unfold ascending. induction l as [|x l IH]; cbn [app].
  - split; [intros ?; split_and!; [constructor|done|constructor]|by intros (_ & ? & _)].
  - split.
    + intros [Hs Hall]%StronglySorted_inv. apply IH in Hs as (? & ? & ?). apply Forall_app in Hall as [? ?].
      split_and!; [by constructor|done|by constructor].
    + intros ([Hs Hall]%StronglySorted_inv & ? & [? ?]%Forall_cons). constructor; [by apply IH|].
      by apply Forall_app_2.
Qed.

Lemma ascending_zip seq (l : list bytes) : ascending (zip (seqZ seq (zlen l)) l).
Proof.
  revert seq. induction l as [|x l IH]; intros seq; [constructor|].
  rewrite zlen_cons, seqZ_cons by (pose proof (zlen_nonneg l); lia). cbn.
  replace (Z.pred (1 + zlen l)) with (zlen l) by lia. constructor; [apply IH|].
  apply Forall_forall. intros [k v] Hin. apply elem_of_zip_l, elem_of_seqZ in Hin. cbn. lia.
Qed.

Lemma insert_batch_holds st stored shares work st' :
  holds st stored -> insert_batch st shares work true = Some st' -> holds st' (stored ++ shares).
Proof.
  intros [Hrows Hsort Hnext] [= <-]. split; cbn [db next_seq]; rewrite ?rows_insert_rows by done.
  - rewrite fmap_app, Hrows, snd_zip, fmap_app; [done|].
    rewrite length_fmap, length_seqZ. unfold zlen. lia.
  - apply ascending_app. split_and!; [done| |].
    + replace (zlen shares) with (zlen (pack <$> shares)) by (unfold zlen; by rewrite length_fmap). apply ascending_zip.
    + eapply Forall_impl; [exact Hnext|]. intros [k v] Hk. apply Forall_forall. intros [k2 v2] Hin.
      apply elem_of_zip_l, elem_of_seqZ in Hin. cbn in *. lia.
  - apply Forall_app_2; [eapply Forall_impl; [exact Hnext|]; cbn; pose proof (zlen_nonneg shares); lia|].
    apply Forall_forall. intros [k v] Hin. apply elem_of_zip_l, elem_of_seqZ in Hin. cbn. lia.
Qed.

(** ** Retention *)

Lemma oldest_rows_prefix pos from after surplus :
  exists n, oldest_rows pos from after surplus = (take n surplus).*1 /\ (n <= length surplus)%nat.
Proof.
  revert pos. induction surplus as [|[seq v] surplus IH]; intros pos; cbn [oldest_rows]; [by exists 0%nat|].
  destruct (_ && _); [exists 0%nat; by split; [|cbn; lia]|].
  destruct (IH (pos + 1)) as (n & -> & Hn). exists (S n). by split; [|cbn; lia].
Qed.

Lemma remove_first_rows n t :
  ascending (rows t) -> rows (foldl (fun t seq => remove_row seq t) t (take n (rows t)).*1) = drop n (rows t).
Proof.
  revert t. induction n as [|n IH]; intros t Hs; [done|].
  destruct (rows t) as [|[k v] l] eqn:Hrows; [done|]. cbn [take fmap list_fmap foldl drop fst].
  assert (rows (remove_row k t) = l) as Hl.
  { rewrite rows_remove, Hrows. apply StronglySorted_inv in Hs as [Hs Hall].
    rewrite filter_cons_False by (cbn; naive_solver). apply filter_all.
    eapply Forall_impl; [exact Hall|]. cbn. lia. }
  rewrite <- Hl at 1. rewrite IH; [by rewrite Hl|]. rewrite Hl. by apply StronglySorted_inv in Hs as [].
Qed.

Lemma retain_work st floor after newest commits : stored_work (retain st floor after newest commits) = stored_work st.
Proof. unfold retain. destruct (retain_bound st); [|done]. by destruct commits. Qed.

Lemma retain_holds st stored floor after newest commits :
  holds st stored -> 0 <= floor ->
  exists n, holds (retain st floor after newest commits) (drop n stored) /\
    (n = 0%nat \/ Z.of_nat n + floor <= zlen stored).
Proof.
  intros Hst Hfloor. pose proof Hst as [Hrows Hsort Hnext]. unfold retain.
  destruct (retain_bound st) as [configured|]; [|by exists 0%nat; split; [|left]]. cbn zeta.
  destruct commits; [|by exists 0%nat; split; [|left]].
  assert (zlen (rows (db st)) = zlen stored) as Hlen.
  { unfold zlen. rewrite <- (length_fmap snd), Hrows. by rewrite length_fmap. }
  set (surplus := Z.min _ _).
  destruct (oldest_rows_prefix 0 (sat_sub (zlen (rows (db st))) newest) after (take (Z.to_nat surplus) (rows (db st))))
    as (n & -> & Hn). rewrite take_take. set (m := (n `min` Z.to_nat surplus)%nat).
  exists m. split; [split; cbn [db next_seq]; rewrite ?remove_first_rows by done|].
  - by rewrite fmap_drop, Hrows, fmap_drop.
  - rewrite <- (take_drop m (rows (db st))) in Hsort. by apply ascending_app in Hsort as (_ & ? & _).
  - by apply Forall_drop.
  - destruct (decide (m = 0%nat)); [by left|right]. unfold surplus, sat_sub, MAX_RETAINED_PER_CALL in *. lia.
Qed.
(** ** Reading the window back *)

Lemma newest_sat w m ss d x :
  0 <= x -> 0 <= d -> w < 2 ^ 128 -> x < w ->
  newest (w - sat_add 128 x d) m ss = newest (w - x - d) m ss.
Proof.
  intros Hx Hd Hw Hxw. unfold sat_add. destruct (Z.leb_spec (x + d) (2 ^ 128 - 1)).
  - rewrite Z.min_l by lia. f_equal. lia.
  - rewrite Z.min_r by lia. destruct m as [|m], ss as [|s ss]; try done. rewrite !newest_cons.
    by rewrite !(proj2 (Z.leb_le _ 0)) by lia.
Qed.

(** The walk back counts the shares of the window and stops at the key of the
    oldest of them. *)
Lemma walk_back_spec w m rs ss k x :
  rs.*2 = pack <$> ss -> shares_ok ss -> 0 <= walk_work x < 2 ^ 128 -> w < 2 ^ 128 -> (counted x = k)%nat ->
  let taken := newest (w - walk_work x) (m - k) ss in
  start (walk_back w m rs x) = match length taken with O => start x | S n => fst <$> rs !! n end.
Proof.
  intros Hrs Hok. revert rs k x Hrs. induction Hok as [|s ss [Hs Hd] Hok IH]; intros rs k x Hrs Hx Hw Hk; cbn zeta.
  { apply fmap_nil_inv in Hrs as ->. cbn [walk_back]. destruct (m - k)%nat; cbn; repeat case_match; done. }
  destruct rs as [|[seq v] rs]; [done|]. injection Hrs as -> Hrs.
  cbn [walk_back]. rewrite Hk. destruct (Z.ltb_spec (walk_work x) w) as [Hlt|Hge].
  - destruct (Nat.leb_spec m k) as [Hm|Hm].
    + by replace (m - k)%nat with 0%nat by lia.
    + rewrite unpack_head_pack by done. cbn [head_difficulty].
      replace (m - k)%nat with (S (m - S k)) by lia. rewrite newest_cons, (proj2 (Z.leb_gt _ 0)) by lia.
      pose proof (row_difficulty _ Hs) as Hu. unfold uint in Hu.
      rewrite (IH rs (S k)); cbn [walk_work counted start]; [|done|unfold sat_add; lia|done|done].
      rewrite newest_sat by lia. cbn [length]. by destruct (length (newest _ _ ss)).
  - destruct (m - k)%nat as [|j]; [done|]. rewrite newest_cons. by rewrite (proj2 (Z.leb_le _ 0)) by lia.
Qed.

Lemma filter_from_key l i k v :
  ascending l -> l !! i = Some (k, v) -> filter (fun r => k <= r.1) l = drop i l.
Proof.
  intros Hs Hi. rewrite <- (take_drop_middle _ _ _ Hi) in Hs. apply ascending_app in Hs as (_ & Hs & Hlt).
  rewrite <- (take_drop_middle _ _ _ Hi) at 1. rewrite filter_app, filter_none, filter_all; cbn [app].
  - symmetry. by apply drop_S.
  - apply StronglySorted_inv in Hs as [_ Hall]. constructor; [cbn; lia|].
    eapply Forall_impl; [exact Hall|]. cbn. lia.
  - eapply Forall_impl; [exact Hlt|]. intros r Hr. apply Forall_cons in Hr as [Hr _]. cbn in *. lia.
Qed.

Lemma omap_unpack rs ss : rs.*2 = pack <$> ss -> shares_ok ss -> omap (fun r : Z * bytes => unpack r.2) rs = ss.
Proof.
  intros Hrs Hok. revert rs Hrs. induction Hok as [|s ss [Hs _] Hok IH]; intros [|[k v] rs] Hrs; try done.
  injection Hrs as -> Hrs. cbn [omap list_omap snd]. rewrite unpack_pack by done. f_equal. by apply IH.
Qed.

Lemma shares_ok_suffix k l : k `suffix_of` l -> shares_ok l -> shares_ok k.
Proof. intros [p ->] H0. by apply Forall_app in H0 as [_ H0]. Qed.

Lemma read_window_spec snapshot snap w m :
  snapshot.*2 = pack <$> snap -> ascending snapshot -> shares_ok snap -> 1 <= w < 2 ^ 128 ->
  (read_window snapshot w m).2 = window_of w m snap.
Proof.
  intros Hrows Hsort Hok Hw. unfold read_window, window_of. set (x0 := Build_WalkBack _ _ _ _ _).
  assert ((reverse snapshot).*2 = pack <$> reverse snap) as Hrev by (rewrite !fmap_reverse; by f_equal).
  pose proof (walk_back_spec w m (reverse snapshot) (reverse snap) 0 x0 Hrev (proj2 (Forall_reverse _ _) Hok)
    ltac:(by cbn) (proj2 Hw) eq_refl) as Hst. cbn zeta in Hst.
  change (walk_work x0) with 0 in Hst. rewrite Z.sub_0_r, Nat.sub_0_r in Hst.
  destruct (newest_prefix w m (reverse snap)) as [tl Htl]. set (taken := newest w m (reverse snap)) in *.
  rewrite Hst. destruct (length taken) as [|n] eqn:Hn.
  { cbn. apply nil_length_inv in Hn. by rewrite Hn. }
  assert (length snapshot = length snap) as Hlen by (rewrite <- (length_fmap snd), Hrows; by rewrite length_fmap).
  assert (S n <= length snap)%nat as Hle.
  { rewrite <- Hn, <- (length_reverse snap), Htl, length_app. lia. }
  destruct (lookup_lt_is_Some_2 (reverse snapshot) n ltac:(rewrite length_reverse; lia)) as [[k v] Hk].
  rewrite Hk. cbn [fmap option_fmap option_map fst snd].
  rewrite reverse_lookup in Hk by lia. rewrite (filter_from_key _ _ _ _ Hsort Hk).
  rewrite (omap_unpack _ (drop (length snapshot - S n) snap)).
  - rewrite <- (reverse_involutive snap), Htl, reverse_app, Hlen. apply drop_length_app.
    rewrite length_reverse. apply (f_equal length) in Htl. rewrite length_app, length_reverse in Htl. lia.
  - by rewrite !fmap_drop, Hrows.
  - eapply shares_ok_suffix; [|done]. eexists. symmetry. apply take_drop.
Qed.

Lemma contents_read_ok snapshot snap w m :
  snapshot.*2 = pack <$> snap -> ascending snapshot -> shares_ok snap -> 1 <= w < 2 ^ 128 ->
  Z.of_nat m < 2 ^ 32 - 1 ->
  exists c rb, contents_read snapshot w m = Some (c, rb) /\ represents (window_of w m snap) c /\
    (length (entries (identities c)) <= S m)%nat.
Proof.
  intros Hrows Hsort Hok Hw Hm. unfold contents_read.
  pose proof (read_window_spec snapshot snap w m Hrows Hsort Hok Hw) as Hread.
  destruct (read_window snapshot w m) as [rb shares]. cbn in Hread. subst shares.
  assert (positive (window_of w m snap)) as Hpos.
  { eapply positive_suffix; [apply window_of_suffix|]. by apply shares_ok_positive. }
  destruct (push_all_ok w m [] contents_default _ represents_default (Forall_nil_2 _) Hpos ltac:(lia)
    ltac:(cbn; lia) ltac:(cbn; lia) Hm) as (c & Hc & Hrep & Hent).
  exists c, rb. rewrite Hc. split; [done|]. split; [|done].
  destruct (window_of w m snap) as [|s l] eqn:Hwin; [done|]. cbn [app] in Hrep.
  rewrite <- Hwin in Hrep |- *. by rewrite window_of_narrow in Hrep by lia.
Qed.

(** ** Every transition keeps the invariant *)

(** Shares pushed onto a trimmed suffix of the stored shares. *)
Lemma push_stored l shares k stored :
  shares <> [] -> represents k (contents l) -> k `suffix_of` stored -> shares_ok (stored ++ shares) ->
  window_of (window l) (max_shares l) k = k -> 1 <= window l ->
  (length (entries (identities (contents l))) <= S (max_shares l))%nat -> Z.of_nat (max_shares l) < 2 ^ 32 - 1 ->
  exists c, push_and_trim l shares = Some (with_contents l c) /\
    represents (window_of (window l) (max_shares l) (k ++ shares)) c /\
    (length (entries (identities c)) <= S (max_shares l))%nat.
Proof.
  intros Hne Hrep Hsuf Hok Hk Hw Hent Hm. rewrite push_and_trim_all by done.
  apply Forall_app in Hok as [Hok1 Hok2].
  destruct (push_all_ok (window l) (max_shares l) k (contents l) shares Hrep) as (c & -> & Hc & Hce);
    try done; [|by apply shares_ok_positive|rewrite <- Hk; apply length_window_of|].
  { eapply positive_suffix; [exact Hsuf|]. by apply shares_ok_positive. }
  exists c. destruct shares; [done|]. by split_and!.
Qed.

Lemma suffix_app_r {A} (k l t : list A) : k `suffix_of` l -> k ++ t `suffix_of` l ++ t.
Proof. intros [p ->]. exists p. by rewrite app_assoc. Qed.

(** The window of shares appended, whether or not the window is exact. *)
Lemma window_appended (P : Prop) w m k stored shares :
  k `suffix_of` stored -> shares_ok shares -> (P -> k = window_of w m stored) ->
  let k2 := window_of w m (k ++ shares) in
  k2 `suffix_of` stored ++ shares /\ window_of w m k2 = k2 /\ (P -> k2 = window_of w m (stored ++ shares)).
Proof.
  intros Hsuf Hok Hdue. split_and!.
  - etransitivity; [apply window_of_suffix|by apply suffix_app_r].
  - apply window_of_narrow. lia.
  - intros Hd. rewrite (Hdue Hd). apply window_of_app. by apply shares_ok_positive.
Qed.

Lemma trim_ledger_ok l k stored :
  represents k (contents l) -> k `suffix_of` stored -> shares_ok stored -> 1 <= window l ->
  exists c, ledger_trim l = Some (with_contents l c) /\
    represents (window_of (window l) (max_shares l) k) c /\
    length (entries (identities c)) = length (entries (identities (contents l))).
Proof.
  intros Hrep Hsuf Hok Hw. unfold ledger_trim.
  destruct (trim_ok (window l) (max_shares l) k (contents l) Hrep) as (c & -> & Hc & He); [|done|by exists c].
  eapply positive_suffix; [exact Hsuf|by apply shares_ok_positive].
Qed.
Lemma set_window_ok l p stored w :
  ledger_ok l p stored -> uint 128 w ->
  exists l', set_window l w = Some l' /\ ledger_ok l' p stored.
Proof.
  intros [Hmax Hwin Hst Hok Hwork (k & Hrep & Hsuf & Hk & Hdue) Hent Hcap Hre] Hw. unfold uint in Hw. unfold set_window.
  set (l1 := Build_Ledger _ _ _ _ _ _ _ _).
  destruct (trim_ledger_ok l1 k stored Hrep Hsuf Hok ltac:(cbn; lia)) as (c & -> & Hc & He). cbn in He, Hc.
  exists (with_contents l1 c). split; [done|]. split; cbn [with_contents l1 max_shares window store cumulative_work contents count_capped
    reread_due recorded_during_reread]; try done; [lia| |by rewrite He].
  exists (window_of (Z.max w 1) (max_shares l) k). split_and!; [done| | |].
  - etransitivity; [apply window_of_suffix|done].
  - apply window_of_narrow. lia.
  - unfold exact in *. cbn [with_contents l1 store reread_due].
    intros [Hs [Hd Hn]%negb_true_iff%orb_false_iff]%andb_true_iff.
    rewrite Hs, Hd in *. rewrite (Hdue eq_refl). rewrite andb_true_r in Hn. apply Z.ltb_ge in Hn.
    by apply window_of_narrow.
Qed.

Lemma begin_reread_ok l p stored reads :
  ledger_ok l p stored ->
  ledger_ok (begin_reread l reads).1 (match (begin_reread l reads).2 with Some r => Some r | None => p end) stored.
Proof.
  intros Hl. pose proof Hl as [Hmax Hwin Hst Hok Hwork Hcont Hent Hcap Hre]. unfold begin_reread.
  destruct (negb (reread_due l) || is_some (recorded_during_reread l)) eqn:Hskip; [done|].
  apply orb_false_iff in Hskip as [_ Hrec]. destruct (store l) as [st|] eqn:Hstore; [|done]. destruct reads; [|done].
  cbn [fst snd]. destruct (recorded_during_reread l); [done|]. destruct p; [done|].
  split; cbn [set_recorded max_shares window store cumulative_work contents count_capped recorded_during_reread]; try done.
  - by rewrite Hstore.
  - by rewrite Hstore.
  - exists stored. destruct (Hst st eq_refl) as [Hr Hs Hn]. cbn [reread_snapshot reread_window reread_max_shares].
    split_and!; first [done|lia|by rewrite app_nil_r|by rewrite Hstore].
Qed.

(** What [insert_batch] leaves where it commits, or where there is no store. *)
Lemma inserted_holds l stored shares work commits st :
  (forall st, store l = Some st -> holds st stored) ->
  match store l with Some st => Some <$> insert_batch st shares work commits | None => Some None end = Some st ->
  is_some st = is_some (store l) /\
  forall st', st = Some st' -> holds st' (stored ++ shares) /\ stored_work st' = work.
Proof.
  intros Hst. destruct (store l) as [st0|]; [|by intros [= <-]]. unfold insert_batch. destruct commits; [|done].
  cbn. intros [= <-]. split; [done|]. intros st' [= <-]. split; [|done].
  apply (insert_batch_holds st0 _ _ work); [by apply Hst|done].
Qed.

Lemma record_batch_ok l p stored shares commits retain_commits :
  ledger_ok l p stored -> shares_ok shares ->
  exists l' res, record_batch l shares commits retain_commits = Some (l', res) /\
    exists n, ledger_ok l' p (if res : bool then drop n (stored ++ shares) else stored).
Proof.
  intros Hl Hnew. pose proof Hl as [Hmax Hwin Hst Hok Hwork (k & Hrep & Hsuf & Hk & Hdue) Hent Hcap Hre].
  unfold record_batch. destruct shares as [|s0 ss] eqn:Hss.
  { exists l, true. split; [done|]. exists 0%nat. by rewrite app_nil_r. }
  rewrite <- Hss in *. assert (shares <> []) as Hne by (by rewrite Hss). clear Hss.
  set (after := sat_sub _ _). set (work := foldl _ _ _). cbn zeta.
  destruct (match store l with Some st => Some <$> insert_batch st shares _ commits | None => Some None end)
    as [st|] eqn:Hins; [|exists l, false; split; [done|by exists 0%nat]].
  destruct (inserted_holds _ _ _ _ _ _ Hst Hins) as [Hsome Hholds]. clear Hins.
  assert (shares_ok (stored ++ shares)) as Hall by (by apply Forall_app_2).
  set (l1 := set_cumulative_work (set_store l st) work).
  destruct (push_stored l1 shares k stored Hne Hrep Hsuf Hall Hk ltac:(cbn; lia) Hent ltac:(cbn; lia))
    as (c & -> & Hc & Hce). cbn [mbind option_bind with_contents l1 set_cumulative_work set_store
      recorded_during_reread store contents window max_shares] in *.
  destruct (window_appended (exact l = true) (window l) (max_shares l) k stored shares Hsuf Hnew Hdue)
    as (Hsuf2 & Hk2 & Hex2). set (k2 := window_of (window l) (max_shares l) (k ++ shares)) in *.
  assert (forall n, (n = 0 \/ n + length k2 <= length (stored ++ shares))%nat ->
    k2 `suffix_of` drop n (stored ++ shares) /\
    (exact l = true -> k2 = window_of (window l) (max_shares l) (drop n (stored ++ shares)))) as Hdrop.
  { intros n [->|Hn]; [by rewrite drop_0|]. split; [by apply suffix_drop|]. intros Hex. specialize (Hex2 Hex).
    rewrite window_of_drop; [done|]. by rewrite <- Hex2. }
  assert (exact (with_contents l1 c) = exact l) as Hexact by (unfold exact; cbn; by rewrite Hsome).
  destruct (recorded_during_reread l) as [recorded|] eqn:Hrec.
  - eexists _, true. split; [reflexivity|]. exists 0%nat. cbn [drop].
    split; cbn [set_recorded max_shares window store cumulative_work contents count_capped recorded_during_reread]; try done.
    + intros st' Hs. by apply Hholds.
    + intros st' Hs. by apply Hholds.
    + exists k2. split_and!; try done. intros Hx. apply Hex2. by rewrite <- Hexact.
    + destruct p as [r|]; [|done]. destruct Hre as (snap & ? & ? & -> & ? & ? & Hs). exists snap.
      split_and!; first [done|by rewrite app_assoc|by rewrite <- Hs, <- Hsome|tauto].
  - destruct p; [done|]. destruct st as [st|].
    + pose proof (Forall2_length _ _ _ (rep_rows _ _ Hc)) as Hlen.
      destruct (retain_holds st (stored ++ shares) (Z.of_nat (length (Window.shares c))) after MAX_ACCEPTED_HASHES
        retain_commits (proj1 (Hholds st eq_refl)) ltac:(lia)) as (n & Hret & Hn).
      destruct (Hdrop n) as [Hs2 He2]; [destruct Hn; [by left|right; unfold zlen in *; lia]|].
      eexists _, true. split; [reflexivity|]. exists n.
      split; cbn [set_store with_contents max_shares window store cumulative_work contents count_capped recorded_during_reread]; try done.
      * by intros st' [= <-].
      * by apply Forall_drop.
      * intros st' [= <-]. rewrite retain_work. by apply Hholds.
      * exists k2. split_and!; try done. intros Hx. apply He2. rewrite <- Hexact. exact Hx.
      * cbn. by rewrite Hrec.
    + eexists _, true. split; [reflexivity|]. exists 0%nat. cbn [drop].
      split; cbn [with_contents max_shares window store cumulative_work contents count_capped recorded_during_reread]; try done.
      * exists k2. by split_and!.
      * cbn. by rewrite Hrec.
Qed.

Lemma finish_reread_ok l r stored (fails : bool) :
  ledger_ok l (Some r) stored ->
  exists read l', (if fails then Some None else (fun c => Some c.1) <$> reread_read r) = Some read /\
    finish_reread l (reread_window r) read = Some l' /\ ledger_ok l' None stored.
Proof.
  intros [Hmax Hwin Hst Hok Hwork Hcont Hent Hcap Hre].
  destruct (recorded_during_reread l) as [recorded|] eqn:Hrec; [|done].
  destruct Hre as (snap & Hrows & Hsort & Hsplit & Hm & Hrw & Hstore).
  destruct fails.
  { exists None, (set_recorded l None). split_and!; [done..|]. split; try done. }
  assert (shares_ok snap /\ shares_ok recorded) as [Hsnap Hrecok] by (rewrite Hsplit in Hok; by apply Forall_app in Hok).
  destruct (contents_read_ok (reread_snapshot r) snap (reread_window r) (reread_max_shares r) Hrows Hsort Hsnap Hrw
    ltac:(rewrite Hm; lia)) as (c & rb & Hread & Hrep & Hce). rewrite Hm in *.
  unfold reread_read. rewrite Hm, Hread. cbn [fmap option_fmap option_map fst].
  eexists (Some c). unfold finish_reread. rewrite Hrec. cbn [default]. set (l1 := Build_Ledger _ _ _ _ _ _ _ _).
  destruct (trim_ledger_ok l1 _ snap Hrep (window_of_suffix _ _ _) Hsnap ltac:(cbn; lia)) as (c1 & -> & Hc1 & He1).
  cbn [l1 contents window max_shares set_recorded] in Hc1, He1. cbn [mbind option_bind].
  set (k1 := window_of (window l) (max_shares l) (window_of (reread_window r) (max_shares l) snap)) in *.
  assert (k1 `suffix_of` snap) as Hs1.
  { etransitivity; [apply window_of_suffix|apply window_of_suffix]. }
  assert ((reread_window r <? window l) = false -> k1 = window_of (window l) (max_shares l) snap) as Hx1.
  { intros Hlt%Z.ltb_ge. by apply window_of_narrow. }
  assert (window_of (window l) (max_shares l) k1 = k1) as Hk1 by (apply window_of_narrow; lia).
  destruct (decide (recorded = [])) as [->|Hne].
  - exists (with_contents l1 c1). rewrite app_nil_r in Hsplit. subst snap.
    split_and!; [done..|]. split; cbn [with_contents l1 max_shares window store cumulative_work contents count_capped
      recorded_during_reread set_recorded]; try done; [|lia].
    exists k1. split_and!; try done. unfold exact. cbn. rewrite Hstore. intros Hd. apply Hx1. by destruct (_ <? _).
  - destruct (push_stored (with_contents l1 c1) recorded k1 snap Hne Hc1 Hs1 ltac:(by rewrite <- Hsplit) Hk1
      ltac:(cbn; lia) ltac:(cbn; lia) ltac:(cbn; lia)) as (c2 & Hpush & Hc2 & He2).
    destruct (window_appended ((reread_window r <? window l) = false) (window l) (max_shares l) k1 snap recorded
      Hs1 Hrecok Hx1) as (Hs2 & Hk2 & Hx2).
    eexists. split; [done|]. split; [exact Hpush|]. rewrite Hsplit in *.
    split; cbn [with_contents l1 max_shares window store cumulative_work contents count_capped recorded_during_reread set_recorded]; try done.
    eexists. split_and!; [exact Hc2|done..|]. unfold exact. cbn. rewrite Hstore. intros Hd. apply Hx2. by destruct (_ <? _).
Qed.

(** [Ledger::new], its window sized as given, and [load_from] and [attach] on it. *)
Definition ledger_new (initial_window : Z) (max : nat) : Ledger :=
  {| contents := contents_default; window := initial_window; store := None; cumulative_work := 0;
     max_shares := max; count_capped := false; reread_due := false; recorded_during_reread := None |}.

Definition load (l : Ledger) (st : Store) : option (Ledger * ReadBack) :=
  '(c, read_back) ← contents_read (rows (db st)) (window l) (max_shares l);
  l ← ledger_trim (with_contents l c);
  Some (l, read_back).

Definition attach (st : Store) (initial_window : Z) (max : nat) : option Ledger :=
  '(l, read_back) ← load (ledger_new initial_window max) st;
  Some (set_store (set_cumulative_work l (stored_work st)) (Some st)).

Inductive reachable (l0 : Ledger) : Ledger * option Reread -> Prop :=
| reach_start : reachable l0 (l0, None)
| reach_step s s' : reachable l0 s -> step s (Some s') -> reachable l0 s'.

Lemma step_ok l p stored next :
  ledger_ok l p stored -> step (l, p) next ->
  exists l' p' stored', next = Some (l', p') /\ ledger_ok l' p' stored'.
Proof.
  intros Hl Hstep. inversion Hstep as [? ? shares commits rc Hsh|? ? w Hw|? ? reads|? r fails]; subst.
  - destruct (record_batch_ok l p stored shares commits rc Hl Hsh) as (l' & res & -> & n & Hl').
    by eexists l', p, _.
  - destruct (set_window_ok l p stored w Hl Hw) as (l' & -> & Hl'). by exists l', p, stored.
  - pose proof (begin_reread_ok l p stored reads Hl) as Hb. destruct (begin_reread l reads) as [l' r].
    by eexists l', _, stored.
  - destruct (finish_reread_ok l r stored fails Hl) as (read & l' & -> & -> & Hl'). by exists l', None, stored.
Qed.

Lemma ledger_trim_store l l' : ledger_trim l = Some l' -> store l' = store l.
Proof. unfold ledger_trim. destruct (trim _ _ _); cbn; [|done]. by intros [= <-]. Qed.

Lemma push_and_trim_store l shares l' : push_and_trim l shares = Some l' -> store l' = store l.
Proof.
  destruct (decide (shares = [])) as [->|Hne]; [by intros [= <-]|]. rewrite push_and_trim_all by done.
  destruct (push_all _ _ _ _); cbn; [|done]. by intros [= <-].
Qed.

(** A ledger with a store keeps it. *)
Lemma step_store l p l' p' : step (l, p) (Some (l', p')) -> is_some (store l') = is_some (store l).
Proof.
  intros Hstep. inversion Hstep as [? ? shares commits rc Hsh Hl Hr|? ? w Hw Hl Hr|? ? reads Hl Hr|? r fails Hl Hr]; subst; clear Hstep.
  - unfold record_batch in Hr. destruct shares as [|s0 ss]; [by injection Hr as <- <-|].
    set (shares := s0 :: ss) in *. cbn zeta in Hr.
    destruct (match store l with Some st => Some <$> insert_batch st shares _ commits | None => Some None end)
      as [st|] eqn:Hins; [|by injection Hr as <- <-].
    assert (is_some st = is_some (store l)) as Hsome.
    { destruct (store l) as [st0|]; [|by injection Hins as <-]. unfold insert_batch in Hins. destruct commits; [|done].
      by injection Hins as <-. }
    destruct (push_and_trim _ shares) as [l1|] eqn:Hpush; cbn [mbind option_bind fmap option_fmap option_map] in Hr; [|done].
    apply push_and_trim_store in Hpush. cbn in Hpush. rewrite Hpush in Hr.
    destruct (recorded_during_reread l1); [injection Hr as <- <-; cbn; by rewrite Hpush|].
    destruct st as [st|]; injection Hr as <- <-; cbn; [done|by rewrite Hpush].
  - destruct (set_window l w) as [l1|] eqn:Hset; cbn in Hr; [|done]. injection Hr as <- <-.
    by apply ledger_trim_store in Hset as ->.
  - unfold begin_reread in Hr. destruct (_ || _); [by injection Hr as <- _|].
    destruct (store l) as [st|] eqn:E; [destruct reads|]; injection Hr as <- _; cbn; by rewrite E.
  - destruct (if fails then _ else _) as [read|]; [|done].
    destruct (finish_reread l (reread_window r) read) as [l1|] eqn:Hfin; cbn in Hr; [|done]. injection Hr as <- <-.
    unfold finish_reread in Hfin. destruct read as [c|]; [|by injection Hfin as <-].
    destruct (ledger_trim _) as [l2|] eqn:Htrim; cbn [mbind option_bind] in Hfin; [|done].
    apply push_and_trim_store in Hfin as ->. by apply ledger_trim_store in Htrim as ->.
Qed.

Lemma attach_ok st stored w m :
  holds st stored -> shares_ok stored -> 1 <= w < 2 ^ 128 -> (1 <= m)%nat -> Z.of_nat m < 2 ^ 32 - 1 ->
  exists l, attach st w m = Some l /\ ledger_ok l None stored /\
    window l = w /\ max_shares l = m /\ store l = Some st /\ exact l = true /\ cumulative_work l = stored_work st.
Proof.
  intros Hst Hok Hw Hm1 Hm. pose proof Hst as [Hrows Hsort Hnext]. unfold attach, load. cbn [ledger_new window max_shares].
  destruct (contents_read_ok _ _ w m Hrows Hsort Hok Hw Hm) as (c & rb & -> & Hrep & Hent).
  cbn [mbind option_bind]. set (l1 := with_contents _ c).
  destruct (trim_ledger_ok l1 _ stored Hrep (window_of_suffix _ _ _) Hok ltac:(cbn; lia)) as (c1 & -> & Hc1 & He1).
  cbn [l1 with_contents ledger_new contents window max_shares mbind option_bind] in *.
  rewrite window_of_narrow in Hc1 by lia.
  eexists. split; [reflexivity|]. split_and!; try done. split; cbn; try done.
  - by intros st' [= <-].
  - by intros st' [= <-].
  - eexists. split_and!; [exact Hc1|apply window_of_suffix|apply window_of_narrow; lia|done].
  - lia.
Qed.

(** C1: The share window is exact. Start the pool on a store and let it record
    batches (which may fail to commit), resize the window, and re-read the
    store while shares keep arriving, in any order. No [expect] or index ever
    fails; and whenever no widening waits for its re-read, what the window
    holds is what the rows on disk give: the newest shares whose difficulty
    reaches the window's work, at most [max_shares] of them, with each
    identity's work the sum over exactly those shares, its tag the newest
    share's, and the total work theirs. Retention removes no row the window
    holds, so a restart reads the same window back, and the work counter with
    it. *)
Theorem window_is_exact (st : Store) (stored0 : list Share) (w : Z) (m : nat)
    (l : Ledger) (p : option Reread) (l0 : Ledger) :
  holds st stored0 -> shares_ok stored0 -> 1 <= w < 2 ^ 128 -> (1 <= m)%nat -> Z.of_nat m < 2 ^ 32 - 1 ->
  attach st w m = Some l0 -> reachable l0 (l, p) ->
  (forall next, step (l, p) next -> next <> None) /\
  exists stored st', store l = Some st' /\ holds st' stored /\ stored_work st' = cumulative_work l /\
    (reread_due l = false ->
     represents (window_of (window l) (max_shares l) stored) (contents l) /\
     exists l2, attach st' (window l) (max_shares l) = Some l2 /\
       total_work (contents l2) = total_work (contents l) /\
       forall n, lookup_name (identities (contents l2)) n = lookup_name (identities (contents l)) n).
Proof.
  intros Hst Hok Hw Hm1 Hm Hatt Hreach.
  assert (exists stored, ledger_ok l p stored /\ is_some (store l) = true) as (stored & Hl & Hsome).
  { destruct (attach_ok st stored0 w m Hst Hok Hw Hm1 Hm) as (l1 & Hl1 & Hok1 & _ & _ & Hs1 & _). rewrite Hatt in Hl1.
    injection Hl1 as <-. remember (l, p) as s eqn:Hs. revert l p Hs. induction Hreach as [|[l1 p1] s' Hreach IH Hstep].
    - intros l p [= <- <-]. exists stored0. by rewrite Hs1.
    - intros l p ->. destruct (IH l1 p1 eq_refl) as (stored & Hl1 & Hs2).
      destruct (step_ok _ _ _ _ Hl1 Hstep) as (l' & p' & stored' & [= <- <-] & Hl').
      exists stored'. split; [done|]. rewrite <- Hs2. by eapply step_store. }
  split.
  { intros next Hstep. by destruct (step_ok _ _ _ _ Hl Hstep) as (? & ? & ? & -> & _). }
  pose proof Hl as [[Hm1' Hm'] Hwin Hst' Hok' Hwork (k & Hrep & Hsuf & Hk & Hex) _ _ _].
  destruct (store l) as [st'|] eqn:Hstore; [|done]. exists stored, st'. specialize (Hst' st' eq_refl). specialize (Hwork st' eq_refl).
  split_and!; [done..|]. intros Hdue. unfold exact in Hex. rewrite Hstore, Hdue in Hex. specialize (Hex eq_refl). subst k.
  split; [done|].
  destruct (attach_ok st' stored (window l) (max_shares l) Hst' Hok' Hwin Hm1' Hm')
    as (l2 & Hl2 & [_ _ _ _ _ (k2 & Hrep2 & _ & _ & Hex2) _ _ _] & Hw2 & Hm2 & _ & He2 & _). exists l2. split; [done|].
  rewrite Hw2, Hm2 in Hex2. rewrite (Hex2 He2) in Hrep2.
  split; [by rewrite (rep_total _ _ Hrep2), (rep_total _ _ Hrep)|].
  intros n. by rewrite (rep_lookup _ _ Hrep2), (rep_lookup _ _ Hrep).
Qed.
End ledger.

(** Three shares of two identities, recorded on a store that keeps two rows. *)
Definition example_share_of (id d t : Z) : Share :=
  {| share_accepted_at := t; identity := [zb id]; share_difficulty := d; share_block_hash := zeros 32;
     share_tag := [zb 116] |}.

Definition example_store : @Store example_table :=
  @Build_Store example_table [] 0 (Some 2) 0.

Definition example_batch : list Share :=
  [example_share_of 97 8 100; example_share_of 98 4 101; example_share_of 97 6 102].

Lemma example_batch_ok : shares_ok example_batch.
Proof.
  unfold shares_ok, example_batch.
  repeat (apply Forall_cons_2; [split; [split; first [apply is_name_dec; by vm_compute|by vm_compute]|by vm_compute]|]).
  apply Forall_nil_2.
Qed.

Lemma window_is_exact_witness : exists l0 l res st',
  @attach example_table example_store 10 4 = Some l0 /\
  @record_batch example_table l0 example_batch true true = Some (l, res) /\ store l = Some st' /\
  (reread_due l = false -> exists l2, @attach example_table st' (window l) (max_shares l) = Some l2 /\
     total_work (contents l2) = total_work (contents l)).
Proof.
  assert (@holds example_table example_store []) as Hst by (split; [done|constructor|constructor]).
  destruct (@attach_ok example_table example_store [] 10 4 Hst) as (l0 & Hatt & Hl0 & _);
    [constructor|lia|lia|lia|].
  destruct (@record_batch_ok example_table l0 None [] example_batch true true Hl0 example_batch_ok)
    as (l & res & Hrec & _).
  destruct (@window_is_exact example_table example_store [] 10 4 l None l0) as [_ (stored & st' & Hst' & _ & _ & H)].
  - done.
  - constructor.
  - lia.
  - lia.
  - lia.
  - done.
  - eapply reach_step; [apply reach_start|].
    pose proof (@step_record example_table l0 None example_batch true true example_batch_ok) as Hs.
    by rewrite Hrec in Hs.
  - exists l0, l, res, st'. split; [exact Hatt|]. split; [exact Hrec|]. split; [exact Hst'|].
    intros Hdue. destruct (H Hdue) as (_ & l2 & Hl2 & Ht & _). exists l2. split; [exact Hl2|exact Ht].
Defined.
