(* ===== verification/GroupCommit.v ===== *)
(** Shares recorded by many connections at once in shared commits
    ([prime/src/ledger/group_commit.rs]): the callers of [record] as threads that
    take the lock of the group one at a time, sleep on its condition variable, and
    take turns to lead a commit of the ledger ([Ledger.record_batch]). *)
From S2P Require Import Prelude.
From S2P Require Import Window Ledger.
From stdpp Require Import relations.

Local Open Scope Z_scope.

Section group_commit.
Context `{SharesTable}.

Definition MAX_BATCH : nat := 4096.

(** [Result<usize, String>]: the rows retention removed, or the error. *)
Definition Recorded : Type := result string Z.

Record State := {
  next_ticket : Z;
  queued : list (Z * Share);
  committing : bool;
  results : gmap Z Recorded;
}.

Definition group_new : State := {| next_ticket := 0; queued := []; committing := false; results := ∅ |}.

(** Where a caller is in [record]: at the head of its loop, about to take the lock;
    asleep in [done.wait]; with a batch taken, before [record_batch]; with its
    outcome ([None] when it panicked), before [Finish] is dropped; returned, or
    unwound by the panic. *)
Inductive Caller :=
| Ready (ticket : Z)
| Waiting (ticket : Z)
| Leading (ticket : Z) (batch : list (Z * Share))
| Finishing (ticket : Z) (tickets : list Z) (outcome : option Recorded)
| Returned (ticket : Z) (r : Recorded)
| Unwound (ticket : Z).

(** Up to the loop: a ticket, and the share queued under it. *)
Definition enqueue (st : State) (share : Share) : State * Z :=
  ({| next_ticket := wrap 64 (next_ticket st + 1); queued := queued st ++ [(next_ticket st, share)];
      committing := committing st; results := results st |}, next_ticket st).

(** One turn of the loop, to where it lets go of the lock. *)
Definition turn (st : State) (ticket : Z) : State * Caller :=
  match results st !! ticket with
  | Some r =>
    ({| next_ticket := next_ticket st; queued := queued st; committing := committing st;
        results := delete ticket (results st) |}, Returned ticket r)
  | None =>
    if committing st then (st, Waiting ticket) else
    let taken := Nat.min (length (queued st)) MAX_BATCH in
    ({| next_ticket := next_ticket st; queued := drop taken (queued st); committing := true;
        results := results st |}, Leading ticket (take taken (queued st)))
  end.

Definition share_result (outcome : Recorded) (i : nat) : Recorded :=
  match outcome with
  | Ok removed => if (i =? 0)%nat then Ok removed else Ok 0
  | Err e => Err e
  end.

Definition publish (outcome : Recorded) (tickets : list Z) (results : gmap Z Recorded) : gmap Z Recorded :=
  foldl (fun m e => <[e.2 := share_result outcome e.1]> m) results (imap pair tickets).

Definition take_result (outcome : option Recorded) : Recorded :=
  default (Err "the ledger commit panicked"%string) outcome.

(** [Drop for Finish], but for [notify_all]. *)
Definition finish (st : State) (tickets : list Z) (outcome : option Recorded) : State :=
  {| next_ticket := next_ticket st; queued := queued st; committing := false;
     results := publish (take_result outcome) tickets (results st) |}.

(** [notify_all]: a caller asleep goes back for the lock. *)
Definition wake (c : Caller) : Caller := match c with Waiting t => Ready t | c => c end.

(** ** The callers, the group and the ledger

    [asked] is the share of each caller, in the order the calls took the lock, and
    [calls] the calls of [record_batch] with their outcomes: neither is in the
    program. The ledger goes with the re-read that may run beside it. *)
Record Sys := {
  group : State;
  callers : list Caller;
  ledger : Ledger * option Reread;
  asked : list Share;
  calls : list (list (Z * Share) * option Recorded);
}.

Definition set_caller (s : Sys) (st : State) (i : nat) (c : Caller) : Sys :=
  {| group := st; callers := <[i := c]> (callers s); ledger := ledger s; asked := asked s; calls := calls s |}.

(** [record], up to where it first lets go of the lock. *)
Definition record (s : Sys) (share : Share) : Sys :=
  let '(st, ticket) := enqueue (group s) share in
  let '(st, c) := turn st ticket in
  {| group := st; callers := callers s ++ [c]; ledger := ledger s; asked := asked s ++ [share]; calls := calls s |}.

(** How [record_batch] ends: the shares recorded with the rows removed, an error, or
    a panic of the database, which leaves the ledger as it was. *)
Inductive attempt (l : Ledger) (shares : list Share) : Ledger -> option Recorded -> Prop :=
| attempt_recorded l' commits retain_commits removed :
    record_batch l shares commits retain_commits = Some (l', true) -> attempt l shares l' (Some (Ok removed))
| attempt_failed l' commits retain_commits e :
    record_batch l shares commits retain_commits = Some (l', false) -> attempt l shares l' (Some (Err e))
| attempt_panicked : attempt l shares l None.

Definition committed (s : Sys) (i : nat) (ticket : Z) (batch : list (Z * Share)) (l : Ledger)
    (outcome : option Recorded) : Sys :=
  {| group := group s; callers := <[i := Finishing ticket batch.*1 outcome]> (callers s);
     ledger := (l, (ledger s).2); asked := asked s; calls := calls s ++ [(batch, outcome)] |}.

Definition finished (s : Sys) (i : nat) (ticket : Z) (tickets : list Z) (outcome : option Recorded) : Sys :=
  {| group := finish (group s) tickets outcome;
     callers := <[i := if is_some outcome then Ready ticket else Unwound ticket]> (wake <$> callers s);
     ledger := ledger s; asked := asked s; calls := calls s |}.

(** The steps by which the calls under way go on. *)
Inductive moves : Sys -> Sys -> Prop :=
| move_turn s i ticket : callers s !! i = Some (Ready ticket) ->
    moves s (let '(st, c) := turn (group s) ticket in set_caller s st i c)
| move_commit s i ticket batch l outcome : callers s !! i = Some (Leading ticket batch) ->
    attempt (ledger s).1 batch.*2 l outcome -> moves s (committed s i ticket batch l outcome)
| move_finish s i ticket tickets outcome : callers s !! i = Some (Finishing ticket tickets outcome) ->
    moves s (finished s i ticket tickets outcome).

(** What other threads do at the ledger: resize its window, and re-read the store.
    Only the calls of [record] record shares. *)
Inductive other : Ledger * option Reread -> Ledger * option Reread -> Prop :=
| other_window l p w l' : uint 128 w -> set_window l w = Some l' -> other (l, p) (l', p)
| other_begin l p reads :
    other (l, p) (let '(l, r) := begin_reread l reads in (l, match r with Some r => Some r | None => p end))
| other_finish l r (fails : bool) read l' :
    (if fails then Some None else (fun c => Some c.1) <$> reread_read r) = Some read ->
    finish_reread l (reread_window r) read = Some l' -> other (l, Some r) (l', None).

(** Any step: a new call, one of those, a caller that wakes without being notified,
    or another thread at the ledger. *)
Inductive step_sys : Sys -> Sys -> Prop :=
| step_call s share : shares_ok [share] -> step_sys s (record s share)
| step_move s s' : moves s s' -> step_sys s s'
| step_spurious s i ticket : callers s !! i = Some (Waiting ticket) ->
    step_sys s (set_caller s (group s) i (Ready ticket))
| step_ledger s l : other (ledger s) l ->
    step_sys s {| group := group s; callers := callers s; ledger := l; asked := asked s; calls := calls s |}.

Definition start (l0 : Ledger) : Sys :=
  {| group := group_new; callers := []; ledger := (l0, None); asked := []; calls := [] |}.
Definition runs (l0 : Ledger) (s : Sys) : Prop := rtc step_sys (start l0) s.

(** ** The ledger the calls leave

    These batches handed to [record_batch] one after the other, with these outcomes,
    and what other threads do at the ledger anywhere between them. *)
Inductive replays (l0 : Ledger) : list (list Share * option Recorded) -> Ledger * option Reread -> Prop :=
| replays_start : replays l0 [] (l0, None)
| replays_commit batches l p shares l' outcome :
    replays l0 batches (l, p) -> attempt l shares l' outcome -> replays l0 (batches ++ [(shares, outcome)]) (l', p)
| replays_other batches l l' : replays l0 batches l -> other l l' -> replays l0 batches l'.

(** The shares of the batches that were recorded. *)
Definition recorded_shares (batches : list (list Share * option Recorded)) : list Share :=
  batches ≫= fun b => match b.2 with Some (Ok _) => b.1 | _ => [] end.

Lemma other_step l l' : other l l' -> step l (Some l').
Proof.
  intros [l1 p w l2 Hw Hset|l1 p reads|l1 r fails read l2 Hread Hfin].
  - pose proof (step_window l1 p w Hw) as Hs. by rewrite Hset in Hs.
  - pose proof (step_begin l1 p reads) as Hs. by destruct (begin_reread l1 reads).
  - pose proof (step_finish l1 r fails) as Hs. by rewrite Hread, Hfin in Hs.
Qed.

Lemma other_ok l l' stored : other l l' -> ledger_ok l.1 l.2 stored -> ledger_ok l'.1 l'.2 stored.
Proof.
  intros [l1 p w l2 Hw Hset|l1 p reads|l1 r fails read l2 Hread Hfin] Hok; cbn [fst snd] in *.
  - destruct (set_window_ok l1 p stored w Hok Hw) as (l3 & E & ?). rewrite Hset in E. by injection E as ->.
  - pose proof (begin_reread_ok l1 p stored reads Hok) as Hb. by destruct (begin_reread l1 reads).
  - destruct (finish_reread_ok l1 r stored fails Hok) as (read' & l3 & E & Hf & ?). rewrite Hread in E. injection E as <-.
    rewrite Hfin in Hf. by injection Hf as ->.
Qed.

Lemma ledger_trim_work l l' : ledger_trim l = Some l' -> cumulative_work l' = cumulative_work l.
Proof. unfold ledger_trim. destruct (trim _ _ _); cbn; [|done]. by intros [= <-]. Qed.

Lemma push_and_trim_work l shares l' : push_and_trim l shares = Some l' -> cumulative_work l' = cumulative_work l.
Proof.
  destruct (decide (shares = [])) as [->|Hne]; [by intros [= <-]|]. rewrite push_and_trim_all by done.
  destruct (push_all _ _ _ _); cbn; [|done]. by intros [= <-].
Qed.

Lemma other_work l l' : other l l' -> cumulative_work l'.1 = cumulative_work l.1.
Proof.
  intros [l1 p w l2 Hw Hset|l1 p reads|l1 r fails read l2 Hread Hfin]; cbn [fst].
  - by apply ledger_trim_work in Hset.
  - unfold begin_reread. destruct (_ || _); [done|]. destruct (store l1); [|done]. by destruct reads.
  - unfold finish_reread in Hfin. destruct read as [c|]; [|by injection Hfin as <-].
    destruct (ledger_trim _) as [l3|] eqn:Ht; [|done]. apply push_and_trim_work in Hfin as ->. by apply ledger_trim_work in Ht.
Qed.

(** The work of shares added to a counter of [u128]. *)
Definition add_work (work : Z) (shares : list Share) : Z :=
  foldl (fun work s => wrap 128 (work + share_difficulty s)) work shares.

Lemma record_batch_work l shares commits retain_commits l' res :
  record_batch l shares commits retain_commits = Some (l', res) ->
  cumulative_work l' = (if res : bool then add_work (cumulative_work l) shares else cumulative_work l) /\
  (res = false -> l' = l).
Proof.
  unfold record_batch. destruct shares as [|s0 ss] eqn:Hss; [by intros [= <- <-]|]. rewrite <- Hss. cbn zeta.
  destruct (match store l with Some st => Some <$> insert_batch st shares _ commits | None => Some None end)
    as [st|]; [|by intros [= <- <-]].
  destruct (push_and_trim _ shares) as [l1|] eqn:Hpush; [|done]. apply push_and_trim_work in Hpush. cbn in Hpush.
  cbn [mbind option_bind]. fold (add_work (cumulative_work l) shares) in Hpush.
  destruct (recorded_during_reread l1); [by intros [= <- <-]|]. destruct (store l1); by intros [= <- <-].
Qed.

Lemma drop_append {A} n (l k : list A) : exists m, drop n l ++ k = drop m (l ++ k).
Proof.
  exists (Nat.min n (length l)). rewrite drop_app. replace (Nat.min n (length l) - length l)%nat with 0%nat by lia.
  cbn [drop]. f_equal. destruct (decide (n <= length l)%nat); [f_equal; lia|]. rewrite !drop_ge; [done|lia..].
Qed.

Lemma recorded_shares_snoc batches shares outcome :
  recorded_shares (batches ++ [(shares, outcome)]) =
  recorded_shares batches ++ match outcome with Some (Ok _) => shares | _ => [] end.
Proof. unfold recorded_shares. rewrite bind_app. cbn. by rewrite app_nil_r. Qed.

(** What a ledger so reached holds: what it began with and the shares recorded since,
    in their order, less the oldest that retention removed. *)
Lemma replays_holds l0 batches l stored0 :
  replays l0 batches l -> Forall (fun b => shares_ok b.1) batches -> ledger_ok l0 None stored0 ->
  exists n, ledger_ok l.1 l.2 (drop n (stored0 ++ recorded_shares batches)).
Proof.
  intros Hr Hok H0. induction Hr as [|batches l p shares l' outcome Hr IH Ha|batches l l' Hr IH Ho].
  - exists 0%nat. cbn. by rewrite app_nil_r.
  - apply Forall_app in Hok as [Hok Hsh]. apply Forall_cons in Hsh as [Hsh _]. destruct (IH Hok) as [n Hl]. cbn [fst snd] in *.
    rewrite recorded_shares_snoc, app_assoc. set (stored := stored0 ++ recorded_shares batches) in *.
    destruct Ha as [l' c rc removed Hrec|l' c rc e Hrec|]; rewrite ?app_nil_r; [| |by exists n].
    + destruct (record_batch_ok l p _ shares c rc Hl Hsh) as (l2 & res & E & k & Hk). rewrite Hrec in E.
      injection E as <- <-. destruct (drop_append n stored shares) as [m Hm]. rewrite Hm, drop_drop in Hk. by eexists.
    + apply record_batch_work in Hrec as [_ ->]; [by exists n|done].
  - destruct (IH Hok) as [n Hl]. exists n. by eapply other_ok.
Qed.

Lemma replays_work l0 batches l :
  replays l0 batches l -> cumulative_work l.1 = add_work (cumulative_work l0) (recorded_shares batches).
Proof.
  intros Hr. induction Hr as [|batches l p shares l' outcome Hr IH Ha|batches l l' Hr IH Ho]; [done| |].
  - cbn [fst] in *. rewrite recorded_shares_snoc. unfold add_work in *. rewrite foldl_app, <- IH.
    destruct Ha as [l' c rc removed Hrec|l' c rc e Hrec|]; [..|done]; by apply record_batch_work in Hrec as [-> _].
  - by rewrite (other_work _ _ Ho).
Qed.

Lemma replays_reachable l0 batches l :
  replays l0 batches l -> Forall (fun b => shares_ok b.1) batches -> reachable l0 l.
Proof.
  intros Hr Hok. induction Hr as [|batches l p shares l' outcome Hr IH Ha|batches l l' Hr IH Ho]; [apply reach_start| |].
  - apply Forall_app in Hok as [Hok Hsh]. apply Forall_cons in Hsh as [Hsh _]. cbn in Hsh.
    destruct Ha as [l' c rc n Hrec|l' c rc e Hrec|]; [..|by apply IH]; (eapply reach_step; [by apply IH|]);
      pose proof (step_record l p shares c rc Hsh) as Hstep; by rewrite Hrec in Hstep.
  - eapply reach_step; [by apply IH|]. by apply other_step.
Qed.

(** ** The invariant *)

Definition ticket_of (c : Caller) : Z :=
  match c with
  | Ready t | Waiting t | Leading t _ | Finishing t _ _ | Returned t _ | Unwound t => t
  end.
Definition leads (c : Caller) : bool := match c with Leading _ _ | Finishing _ _ _ => true | _ => false end.
Definition done (c : Caller) : bool := match c with Returned _ _ | Unwound _ => true | _ => false end.

Definition tickets_of (shares : list Share) : list (Z * Share) := imap (fun i share => (Z.of_nat i, share)) shares.

(** The batch a leader has taken and not committed. *)
Definition flight_of (c : option Caller) : list (Z * Share) := match c with Some (Leading _ b) => b | _ => [] end.

(** [r] is what the call of [record_batch] that carried the ticket gives it. *)
Definition answer (calls : list (list (Z * Share) * option Recorded)) (t : Z) (r : Recorded) : Prop :=
  exists b outcome j share, (b, outcome) ∈ calls /\ b !! j = Some (t, share) /\ r = share_result (take_result outcome) j.

(** [o] is the caller that leads, and [landed] the calls whose results are published. *)
Record inv (s : Sys) (o : option nat) (landed : list (list (Z * Share) * option Recorded)) : Prop := {
  inv_asked : length (asked s) = length (callers s);
  inv_next : next_ticket (group s) = Z.of_nat (length (callers s));
  inv_ok : shares_ok (asked s);
  inv_ticket : forall i c, callers s !! i = Some c -> ticket_of c = Z.of_nat i;
  inv_leader : forall i c, callers s !! i = Some c -> leads c = true <-> o = Some i;
  inv_bound : forall i, o = Some i -> is_Some (callers s !! i);
  inv_committing : committing (group s) = is_some o;
  inv_order : mjoin (calls s).*1 ++ flight_of (o ≫= (callers s !!.)) ++ queued (group s) = tickets_of (asked s);
  inv_sizes : Forall (fun c => (1 <= length c.1 <= MAX_BATCH)%nat) (calls s);
  inv_flight : forall i t b, callers s !! i = Some (Leading t b) -> (1 <= length b <= MAX_BATCH)%nat;
  inv_landed : match o ≫= (callers s !!.) with
               | Some (Finishing _ ts outcome) => exists b, calls s = landed ++ [(b, outcome)] /\ ts = b.*1
               | _ => calls s = landed
               end;
  inv_answered : forall b outcome j t share, (b, outcome) ∈ landed -> b !! j = Some (t, share) ->
    results (group s) !! t = Some (share_result (take_result outcome) j) \/
    exists c, callers s !! Z.to_nat t = Some c /\ done c = true;
  inv_results : forall t r, results (group s) !! t = Some r -> answer landed t r;
  inv_returned : forall i t r, callers s !! i = Some (Returned t r) -> answer (calls s) t r;
  inv_waiting : forall i t, callers s !! i = Some (Waiting t) -> o <> None;
}.

Lemma tickets_of_snoc l x : tickets_of (l ++ [x]) = tickets_of l ++ [(Z.of_nat (length l), x)].
Proof. unfold tickets_of. rewrite imap_app. cbn. by rewrite Nat.add_0_r. Qed.

Lemma tickets_of_spec l t x : (t, x) ∈ tickets_of l <-> exists i, t = Z.of_nat i /\ l !! i = Some x.
Proof.
  unfold tickets_of. rewrite elem_of_lookup_imap. split.
  - intros (i & y & [= -> ->] & Hi). by exists i.
  - intros (i & -> & Hi). by exists i, x.
Qed.

Lemma tickets_of_nodup l : NoDup (tickets_of l).*1.
Proof.
  apply NoDup_alt. intros i j t. unfold tickets_of. rewrite !list_lookup_fmap, !list_lookup_imap.
  destruct (l !! i); [|done]. destruct (l !! j); [|done]. cbn. intros [= <-] [= Hj]. lia.
Qed.

Lemma landed_sub s o landed x : inv s o landed -> x ∈ landed -> x ∈ calls s.
Proof.
  intros Hi Hx. pose proof (inv_landed _ _ _ Hi) as Hl. destruct (o ≫= _) as [[]|]; try (by rewrite Hl).
  destruct Hl as (b & -> & _). apply elem_of_app. by left.
Qed.

Lemma answer_sub calls calls' t r : (forall x, x ∈ calls -> x ∈ calls') -> answer calls t r -> answer calls' t r.
Proof. intros Hs (b & oc & j & sh & ? & ? & ?). exists b, oc, j, sh. auto. Qed.

Lemma leader_other {A} (o : option nat) (l : list A) i x : o <> Some i -> o ≫= (<[i := x]> l !!.) = o ≫= (l !!.).
Proof. destruct o as [k|]; [|done]. intros Hne. cbn. apply list_lookup_insert_ne. congruence. Qed.

(** A caller that does not lead goes on to a state in which it does not lead. *)
Lemma inv_caller s o landed st i c c' :
  inv s o landed -> callers s !! i = Some c -> leads c = false -> leads c' = false -> ticket_of c' = ticket_of c ->
  next_ticket st = next_ticket (group s) -> queued st = queued (group s) -> committing st = committing (group s) ->
  (done c = true -> done c' = true) ->
  (forall t r, results st !! t = Some r -> results (group s) !! t = Some r) ->
  (forall t r, results (group s) !! t = Some r -> results st !! t = Some r \/ (t = ticket_of c /\ done c' = true)) ->
  (forall t r, c' = Returned t r -> answer landed t r) ->
  (forall t, c' = Waiting t -> o <> None) ->
  inv (set_caller s st i c') o landed.
Proof.
  intros Hi Hc Hl Hl' Ht Hn Hq Hcm Hd Hr1 Hr2 Hret Hw. pose proof (lookup_lt_Some _ _ _ Hc) as Hlt.
  pose proof (inv_ticket _ _ _ Hi i c Hc) as Hti.
  assert (o <> Some i) as Ho by (intros E; apply (inv_leader _ _ _ Hi i c Hc) in E; congruence).
  assert (forall k d, <[i := c']> (callers s) !! k = Some d -> k = i /\ d = c' \/ k <> i /\ callers s !! k = Some d) as Hlook.
  { intros k d. destruct (decide (k = i)) as [->|Hne].
    - rewrite list_lookup_insert_eq by done. intros [= <-]. by left.
    - rewrite list_lookup_insert_ne by done. by right. }
  destruct Hi. split; cbn [set_caller group callers asked calls]; try done; rewrite ?leader_other by done.
  - by rewrite length_insert.
  - by rewrite length_insert, Hn.
  - intros k d [[-> ->]|[_ Hk]]%Hlook; [congruence|eauto].
  - intros k d [[-> ->]|[_ Hk]]%Hlook; [|eauto]. rewrite Hl'. split; [done|congruence].
  - intros k Hk. destruct (decide (k = i)) as [->|]; [done|]. rewrite list_lookup_insert_ne by done. auto.
  - congruence.
  - by rewrite Hq.
  - intros k t b [[-> <-]|[_ Hk]]%Hlook; [done|eauto].
  - exact inv_landed0.
  - intros b oc j t sh Hb Hj. destruct (inv_answered0 b oc j t sh Hb Hj) as [Hres|(d & Hd' & Hdone)].
    + destruct (Hr2 _ _ Hres) as [?|[-> ?]]; [by left|right]. exists c'. rewrite Hti, Nat2Z.id. by rewrite list_lookup_insert_eq.
    + right. destruct (decide (Z.to_nat t = i)) as [E|Hne].
      * exists c'. rewrite E in *. rewrite list_lookup_insert_eq by done. split; [done|]. apply Hd. congruence.
      * exists d. by rewrite list_lookup_insert_ne.
  - auto.
  - intros k t r [[-> E]|[_ Hk]]%Hlook; [|eauto]. eapply answer_sub; [|by apply Hret]. intros x Hx.
    destruct (o ≫= _) as [[]|]; try (by rewrite inv_landed0). destruct inv_landed0 as (b & -> & _).
    apply elem_of_app. by left.
  - intros k t [[-> E]|[_ Hk]]%Hlook; [by eapply Hw|eauto].
Qed.


Lemma inv_start l0 : inv (start l0) None [].
Proof.
  split; cbn; try done; [apply Forall_nil_2..|]. intros b oc j t sh Hb. by apply not_elem_of_nil in Hb.
Qed.

(** A call, before its first turn. *)
Definition arrived (s : Sys) (share : Share) : Sys :=
  {| group := (enqueue (group s) share).1; callers := callers s ++ [Ready (next_ticket (group s))];
     ledger := ledger s; asked := asked s ++ [share]; calls := calls s |}.

Lemma record_arrived s share :
  record s share =
  let '(st, c) := turn (group (arrived s share)) (next_ticket (group s)) in
  set_caller (arrived s share) st (length (callers s)) c.
Proof.
  unfold record, set_caller, arrived. cbn [enqueue fst group callers ledger asked calls].
  destruct (turn _ _) as [st c]. f_equal.
  by rewrite insert_app_r_alt, Nat.sub_diag by lia.
Qed.

Lemma inv_arrived s o landed share :
  inv s o landed -> shares_ok [share] -> Z.of_nat (S (length (callers s))) < 2 ^ 64 ->
  inv (arrived s share) o landed.
Proof.
  intros Hi Hsh Hlt.
  assert (forall k d, (callers s ++ [Ready (next_ticket (group s))]) !! k = Some d ->
    callers s !! k = Some d \/ k = length (callers s) /\ d = Ready (next_ticket (group s))) as Hlook.
  { intros k d [?|[Hk [Hz <-]%list_lookup_singleton_Some]]%lookup_app_Some; [by left|right]. split; [lia|done]. }
  assert (o ≫= ((callers s ++ [Ready (next_ticket (group s))]) !!.) = o ≫= (callers s !!.)) as Ho.
  { destruct o as [k|]; [|done]. destruct (inv_bound _ _ _ Hi k eq_refl) as [d Hd]. cbn. rewrite Hd. by apply lookup_app_l_Some. }
  destruct Hi. split; unfold arrived; cbn [enqueue fst group callers asked calls next_ticket queued committing results]; rewrite ?Ho; try done.
  - rewrite !length_app. cbn. lia.
  - rewrite length_app, inv_next0, wrap_small; cbn; [lia|unfold uint; lia].
  - apply Forall_app. by split.
  - intros k d [?|[-> ->]]%Hlook; [eauto|done].
  - intros k d [?|[-> ->]]%Hlook; [eauto|]. cbn. split; [done|]. intros Hk.
    destruct (inv_bound0 _ Hk) as [d Hd]. apply lookup_lt_Some in Hd. lia.
  - intros k Hk. destruct (inv_bound0 _ Hk) as [d Hd]. exists d. by apply lookup_app_l_Some.
  - by rewrite tickets_of_snoc, !app_assoc, <- (app_assoc _ (flight_of _)), inv_order0, inv_asked0, inv_next0.
  - intros k t b [?|[-> ?]]%Hlook; [eauto|done].
  - intros b oc j t sh Hb Hj. destruct (inv_answered0 b oc j t sh Hb Hj) as [?|(d & Hd & ?)]; [by left|right].
    exists d. split; [by apply lookup_app_l_Some|done].
  - intros k t r [?|[-> ?]]%Hlook; [eauto|done].
  - intros k t [?|[-> ?]]%Hlook; [eauto|done].
Qed.

(** A caller back for the lock finds its result, or its share in the queue when
    nobody leads. *)
Lemma ready_queued s landed i t :
  inv s None landed -> callers s !! i = Some (Ready t) -> results (group s) !! t = None -> queued (group s) <> [].
Proof.
  intros Hi Hc Hr Hq. pose proof (inv_ticket _ _ _ Hi _ _ Hc) as Ht. cbn in Ht. subst t.
  pose proof (lookup_lt_Some _ _ _ Hc) as Hlt. rewrite <- (inv_asked _ _ _ Hi) in Hlt.
  apply lookup_lt_is_Some in Hlt as [sh Hsh].
  assert ((Z.of_nat i, sh) ∈ tickets_of (asked s)) as Hin by (apply tickets_of_spec; by exists i).
  rewrite <- (inv_order _ _ _ Hi), Hq in Hin. cbn in Hin. rewrite app_nil_r in Hin.
  pose proof (inv_landed _ _ _ Hi) as Hl. cbn in Hl. rewrite Hl in Hin.
  apply list_elem_of_join in Hin as (b & Hb & ([b' oc] & -> & Hbo)%list_elem_of_fmap). cbn in Hb.
  apply list_elem_of_lookup_1 in Hb as [j Hj].
  destruct (inv_answered _ _ _ Hi _ _ _ _ _ Hbo Hj) as [?|(d & Hd & Hdone)]; [congruence|].
  rewrite Nat2Z.id, Hc in Hd. by injection Hd as <-.
Qed.

Lemma inv_turn s o landed i t :
  inv s o landed -> callers s !! i = Some (Ready t) ->
  exists o', inv (let '(st, c) := turn (group s) t in set_caller s st i c) o' landed.
Proof.
  intros Hi Hc. unfold turn. destruct (results (group s) !! t) as [r|] eqn:Hr; [|destruct (committing (group s)) eqn:Hcm].
  - exists o. eapply inv_caller; try done; cbn [results ticket_of done].
    + intros t' r'. destruct (decide (t = t')) as [->|Hne]; [by rewrite lookup_delete_eq|by rewrite lookup_delete_ne].
    + intros t' r' Hr'. destruct (decide (t = t')) as [->|Hne]; [by right|left; by rewrite lookup_delete_ne].
    + intros t' r' [= <- <-]. by eapply inv_results.
  - exists o. eapply inv_caller; try done; [by left|]. intros _ _. rewrite (inv_committing _ _ _ Hi) in Hcm. by destruct o.
  - rewrite (inv_committing _ _ _ Hi) in Hcm. destruct o; [done|]. pose proof (ready_queued s landed i t Hi Hc Hr) as Hq.
    pose proof (lookup_lt_Some _ _ _ Hc) as Hlt. set (k := Nat.min (length (queued (group s))) MAX_BATCH).
    assert (1 <= length (take k (queued (group s))) <= MAX_BATCH)%nat as Hk.
    { rewrite length_take. assert (1 <= MAX_BATCH)%nat by (unfold MAX_BATCH; lia). destruct (queued (group s)); [done|]. cbn [length] in *. lia. }
    assert (forall n d, <[i := Leading t (take k (queued (group s)))]> (callers s) !! n = Some d ->
      n = i /\ d = Leading t (take k (queued (group s))) \/ n <> i /\ callers s !! n = Some d) as Hlook.
    { intros n d. destruct (decide (n = i)) as [->|Hne].
      - rewrite list_lookup_insert_eq by done. intros [= <-]. by left.
      - rewrite list_lookup_insert_ne by done. by right. }
    exists (Some i). clearbody k. destruct Hi. split; cbn [set_caller group callers asked calls next_ticket queued committing results mbind option_bind];
      rewrite ?list_lookup_insert_eq by done; rewrite ?length_insert; try done.
    + intros n d [[-> ->]|[? ?]]%Hlook; [|eauto]. by rewrite <- (inv_ticket0 _ _ Hc).
    + intros n d [[-> ->]|[Hn Hd]]%Hlook; [done|]. rewrite (inv_leader0 _ _ Hd). split; [done|congruence].
    + intros n [= <-]. by rewrite list_lookup_insert_eq.
    + cbn [flight_of]. by rewrite take_drop.
    + intros n t' b [[-> [= -> ->]]|[_ ?]]%Hlook; [done|eauto].
    + intros b oc j t' sh Hb Hj. destruct (inv_answered0 b oc j t' sh Hb Hj) as [?|(d & Hd & ?)]; [by left|right].
      exists d. split; [|done]. rewrite list_lookup_insert_ne; [done|]. intros ->. rewrite Hc in Hd. by injection Hd as <-.
    + intros n t' r [[-> ?]|[_ ?]]%Hlook; [done|eauto].
Qed.

Lemma inv_commit s o landed i t batch l outcome :
  inv s o landed -> callers s !! i = Some (Leading t batch) -> inv (committed s i t batch l outcome) o landed.
Proof.
  intros Hi Hc. pose proof (lookup_lt_Some _ _ _ Hc) as Hlt. pose proof (proj1 (inv_leader _ _ _ Hi _ _ Hc) eq_refl) as ->.
  assert (forall n d, <[i := Finishing t batch.*1 outcome]> (callers s) !! n = Some d ->
    n = i /\ d = Finishing t batch.*1 outcome \/ n <> i /\ callers s !! n = Some d) as Hlook.
  { intros n d. destruct (decide (n = i)) as [->|Hne].
    - rewrite list_lookup_insert_eq by done. intros [= <-]. by left.
    - rewrite list_lookup_insert_ne by done. by right. }
  destruct Hi. cbn [mbind option_bind] in *. rewrite Hc in *. cbn [flight_of] in *.
  split; cbn [committed group callers asked calls mbind option_bind];
    rewrite ?list_lookup_insert_eq by done; rewrite ?length_insert; try done.
  - intros n d [[-> ->]|[_ Hd]]%Hlook; [by rewrite <- (inv_ticket0 _ _ Hc)|eauto].
  - intros n d [[-> ->]|[_ Hd]]%Hlook; [done|eauto].
  - intros n [= <-]. by rewrite list_lookup_insert_eq.
  - cbn [flight_of]. rewrite fmap_app, join_app, <- inv_order0. cbn. by rewrite app_nil_r, <- app_assoc.
  - apply Forall_app. split; [done|]. apply Forall_singleton. by eapply inv_flight0.
  - intros n t' b [[-> ?]|[_ ?]]%Hlook; [done|eauto].
  - exists batch. by rewrite inv_landed0.
  - intros b oc j t' sh Hb Hj. destruct (inv_answered0 b oc j t' sh Hb Hj) as [?|(d & Hd & ?)]; [by left|right].
    exists d. split; [|done]. rewrite list_lookup_insert_ne; [done|]. intros E. rewrite <- E, Hc in Hd. by injection Hd as <-.
  - intros n t' r [[-> ?]|[_ Hn]]%Hlook; [done|]. eapply answer_sub; [|by eapply inv_returned0].
    intros x Hx. apply elem_of_app. by left.
Qed.

(** The results published: each ticket's by its place in the batch. *)
Lemma publish_spec outcome (tickets : list Z) : forall (m : gmap Z Recorded) n (t : Z),
  NoDup tickets ->
  foldl (fun m e => <[e.2 := share_result outcome e.1]> m) m (imap (fun i x => ((n + i)%nat, x)) tickets) !! t =
  match list_find (fun x => x = t) tickets with
  | Some (j, _) => Some (share_result outcome (n + j))
  | None => m !! t
  end.
Proof.
  induction tickets as [|x l IH]; intros m n t Hnd; [done|]. apply NoDup_cons in Hnd as [Hx Hnd].
  cbn [imap foldl fst snd list_find]. rewrite (imap_ext _ (fun i x => ((S n + i)%nat, x))) by (intros; cbn; f_equal; lia).
  rewrite IH by done. destruct (decide (x = t)) as [->|Hne].
  - replace (list_find (fun x => x = t) l) with (@None (nat * Z)); [by rewrite lookup_insert_eq|].
    symmetry. apply list_find_None. apply Forall_forall. by intros y Hy ->.
  - destruct (list_find _ l) as [[j y]|]; cbn; [by rewrite Nat.add_succ_r|by rewrite lookup_insert_ne].
Qed.

Lemma publish_in outcome tickets m j t : NoDup tickets -> tickets !! j = Some t -> publish outcome tickets m !! t = Some (share_result outcome j).
Proof.
  intros Hnd Hj. unfold publish. rewrite (imap_ext _ (fun i x => ((0 + i)%nat, x))) by done. rewrite publish_spec by done.
  destruct (list_find _ _) as [[k y]|] eqn:Hf.
  - apply list_find_Some in Hf as (Hk & -> & _). by rewrite (NoDup_lookup _ _ _ _ Hnd Hj Hk).
  - apply list_find_None in Hf. eapply Forall_forall in Hf; [|by eapply list_elem_of_lookup_2]. done.
Qed.

Lemma publish_out outcome tickets m t : NoDup tickets -> t ∉ tickets -> publish outcome tickets m !! t = m !! t.
Proof.
  intros Hnd Ht. unfold publish. rewrite (imap_ext _ (fun i x => ((0 + i)%nat, x))) by done. rewrite publish_spec by done.
  destruct (list_find _ _) as [[k y]|] eqn:Hf; [|done]. apply list_find_Some in Hf as (Hk & -> & _).
  by apply list_elem_of_lookup_2 in Hk.
Qed.

Lemma inv_finish s o landed i t tickets outcome :
  inv s o landed -> callers s !! i = Some (Finishing t tickets outcome) ->
  inv (finished s i t tickets outcome) None (calls s).
Proof.
  intros Hi Hc. pose proof (lookup_lt_Some _ _ _ Hc) as Hlt. pose proof (proj1 (inv_leader _ _ _ Hi _ _ Hc) eq_refl) as ->.
  set (c' := if is_some outcome then Ready t else Unwound t).
  assert (forall n d, <[i := c']> (wake <$> callers s) !! n = Some d ->
    n = i /\ d = c' \/ n <> i /\ exists d0, callers s !! n = Some d0 /\ d = wake d0) as Hlook.
  { intros n d. destruct (decide (n = i)) as [->|Hne].
    - rewrite list_lookup_insert_eq by (by rewrite length_fmap). intros [= <-]. by left.
    - rewrite list_lookup_insert_ne, list_lookup_fmap by done. intros (d0 & Hd0 & ->)%fmap_Some_1. right. eauto. }
  destruct Hi. cbn [mbind option_bind] in *. rewrite Hc in *. destruct inv_landed0 as (b & Hcalls & ->).
  assert (NoDup (mjoin (calls s).*1).*1 /\ NoDup b.*1 /\ forall b' oc, (b', oc) ∈ landed -> forall x, x ∈ b'.*1 -> x ∉ b.*1) as (_ & Hnb & Hdis).
  { pose proof (tickets_of_nodup (asked s)) as Hnd. rewrite <- inv_order0, fmap_app in Hnd. apply NoDup_app in Hnd as (Hnd & _ & _).
    split; [done|]. rewrite Hcalls, fmap_app, join_app, fmap_app in Hnd. apply NoDup_app in Hnd as (_ & Hd & Hnb).
    cbn in Hd, Hnb. rewrite app_nil_r in Hd, Hnb. split; [done|]. intros b' oc Hb' x Hx. apply Hd.
    apply list_elem_of_fmap in Hx as (y & -> & Hy). apply list_elem_of_fmap_2, list_elem_of_join. exists b'.
    split; [done|]. by apply (list_elem_of_fmap_2 fst _ (b', oc)). }
  split; unfold finished, finish; cbn [group callers asked calls next_ticket queued committing results mbind option_bind];
    rewrite ?length_insert, ?length_fmap; fold c'; try done.
  - intros n d [[-> ->]|(_ & d0 & Hd0 & ->)]%Hlook.
    + rewrite <- (inv_ticket0 _ _ Hc). unfold c'. by destruct (is_some outcome).
    + rewrite <- (inv_ticket0 _ _ Hd0). by destruct d0.
  - intros n d [[-> ->]|(Hn & d0 & Hd0 & ->)]%Hlook; split; try done.
    + unfold c'. by destruct (is_some outcome).
    + intros Hl. assert (leads d0 = true) as Hl0 by (by destruct d0). apply (inv_leader0 _ _ Hd0) in Hl0. congruence.
  - intros n t' b' [[-> E]|(Hn & d0 & Hd0 & E)]%Hlook.
    + unfold c' in E. by destruct (is_some outcome).
    + destruct d0; try done. injection E as <- <-. eauto.
  - intros b' oc j t' sh Hb Hj. rewrite Hcalls in Hb. apply elem_of_app in Hb as [Hb|Hb%list_elem_of_singleton].
    + assert (t' ∉ b.*1) as Hout. { eapply Hdis; [done|]. apply list_elem_of_lookup_2 in Hj. by apply (list_elem_of_fmap_2 fst) in Hj. }
      rewrite publish_out by done. destruct (inv_answered0 b' oc j t' sh Hb Hj) as [?|(d & Hd & Hdone)]; [by left|right].
      exists (wake d). rewrite list_lookup_insert_ne, list_lookup_fmap, Hd by (intros E; rewrite <- E, Hc in Hd; by injection Hd as <-).
      split; [done|]. by destruct d.
    + injection Hb as -> ->. left. apply publish_in; [done|]. by rewrite list_lookup_fmap, Hj.
  - intros t' r. destruct (decide (t' ∈ b.*1)) as [Hin|Hin].
    + apply list_elem_of_lookup_1 in Hin as [j Hj]. rewrite (publish_in _ _ _ j) by done. intros [= <-].
      apply list_lookup_fmap_Some in Hj as ([t2 sh] & -> & Hj). exists b, outcome, j, sh. split_and!; [|done|done].
      rewrite Hcalls. apply elem_of_app. right. by apply list_elem_of_singleton.
    + rewrite publish_out by done. intros Hr. eapply answer_sub; [|by apply inv_results0]. intros x Hx.
      rewrite Hcalls. apply elem_of_app. by left.
  - intros n t' r [[-> E]|(Hn & d0 & Hd0 & E)]%Hlook.
    + unfold c' in E. by destruct (is_some outcome).
    + destruct d0; try done. injection E as <- <-. eauto.
  - intros n t' [[-> E]|(Hn & d0 & Hd0 & E)]%Hlook; [unfold c' in E; by destruct (is_some outcome)|by destruct d0].
Qed.

Lemma inv_move s s' o landed : inv s o landed -> moves s s' -> exists o' landed', inv s' o' landed'.
Proof.
  intros Hi Hm. revert Hi. destruct Hm as [s i t Hc|s i t b l outcome Hc Ha|s i t ts outcome Hc]; intros Hi.
  - destruct (inv_turn _ _ _ _ _ Hi Hc) as [o' ?]. by exists o', landed.
  - exists o, landed. by apply inv_commit.
  - exists None, (calls s). by eapply inv_finish.
Qed.

Lemma callers_move s s' : moves s s' -> length (callers s') = length (callers s).
Proof.
  intros [? i t Hc|? i t b l outcome Hc Ha|? i t ts outcome Hc]; cbn.
  - destruct (turn _ _). cbn. apply length_insert.
  - apply length_insert.
  - by rewrite length_insert, length_fmap.
Qed.

Lemma inv_step s s' o landed :
  inv s o landed -> step_sys s s' -> Z.of_nat (length (callers s')) < 2 ^ 64 -> exists o' landed', inv s' o' landed'.
Proof.
  intros Hi Hs. revert Hi. destruct Hs as [s sh Hsh|s s' Hm|s i t Hc|s l Hl]; intros Hi Hlt.
  - rewrite record_arrived in *. assert (Z.of_nat (S (length (callers s))) < 2 ^ 64) as Hlt'.
    { destruct (turn _ _). cbn in Hlt. rewrite length_insert, length_app in Hlt. cbn in Hlt. lia. }
    destruct (inv_turn (arrived s sh) o landed (length (callers s)) (next_ticket (group s))) as [o' ?];
      [by apply inv_arrived| |by exists o', landed].
    cbn. by rewrite lookup_app_r, Nat.sub_diag by lia.
  - by eapply inv_move.
  - exists o, landed. eapply (inv_caller s o landed (group s) i (Waiting t)); try done. by left.
  - exists o, landed. by destruct Hi.
Qed.

Lemma callers_step s s' : step_sys s s' -> (length (callers s) <= length (callers s'))%nat.
Proof.
  intros [? sh Hsh|? ? Hm|? i t Hc|? l Hl]; cbn; try lia.
  - unfold record. cbn. destruct (turn _ _). cbn. rewrite length_app. lia.
  - by rewrite (callers_move _ _ Hm).
  - by rewrite length_insert.
Qed.

Lemma runs_inv l0 s : runs l0 s -> Z.of_nat (length (callers s)) < 2 ^ 64 -> exists o landed, inv s o landed.
Proof.
  unfold runs. intros Hr. pattern s. eapply rtc_ind_r; [|clear Hr|exact Hr].
  - intros _. exists None, []. apply inv_start.
  - intros s1 s2 _ Hs IH Hlt. pose proof (callers_step _ _ Hs). destruct IH as (o & landed & Hi); [lia|].
    by eapply inv_step.
Qed.

(** The batches handed over, without their tickets. *)
Definition batches_of (s : Sys) : list (list Share * option Recorded) := (fun c => (c.1.*2, c.2)) <$> calls s.

Lemma runs_replays l0 s : runs l0 s -> replays l0 (batches_of s) (ledger s).
Proof.
  unfold runs. intros Hr. pattern s. eapply rtc_ind_r; [|clear Hr|exact Hr]; [apply replays_start|].
  intros s1 s2 _ Hs IH. destruct Hs as [s1 sh Hsh|s1 s2 Hm|s1 i t Hc|s1 l Hl]; [| |done|by eapply replays_other].
  - unfold record. cbn. by destruct (turn _ _).
  - destruct Hm as [s1 i t Hc|s1 i t b l outcome Hc Ha|s1 i t ts outcome Hc]; [by destruct (turn _ _)| |done].
    unfold batches_of, committed. cbn [calls ledger]. rewrite fmap_app. eapply replays_commit; [|exact Ha].
    by rewrite <- surjective_pairing.
Qed.

Lemma batches_ok s o landed : inv s o landed -> Forall (fun b => shares_ok b.1) (batches_of s).
Proof.
  intros Hi. apply Forall_fmap, Forall_forall. intros [b oc] Hb. cbn. apply Forall_forall.
  intros sh ([t sh'] & -> & Hin)%list_elem_of_fmap. cbn.
  assert ((t, sh') ∈ tickets_of (asked s)) as (k & _ & Hk)%tickets_of_spec.
  { rewrite <- (inv_order _ _ _ Hi). apply elem_of_app. left. apply list_elem_of_join. exists b. split; [done|].
    by apply (list_elem_of_fmap_2 fst _ (b, oc)). }
  pose proof (inv_ok _ _ _ Hi) as Hok. eapply Forall_forall in Hok; [exact Hok|by eapply list_elem_of_lookup_2].
Qed.


(** ** Every call returns *)

Definition weight (c : Caller) : nat := match c with Leading _ _ => 2 | Finishing _ _ _ => 1 | _ => 0 end.
Definition is_ready (c : Caller) : nat := match c with Ready _ => 1 | _ => 0 end.

(** The steps left at most: three for each share in the queue and what the leader has
    left, each with a turn of every caller after it, and the turns now due. *)
Definition steps_left (s : Sys) : nat :=
  (3 * length (queued (group s)) + sum_list (weight <$> callers s)) * S (length (callers s)) +
  sum_list (is_ready <$> callers s).

Lemma sum_insert {A} (f : A -> nat) (l : list A) i x y :
  l !! i = Some x -> (sum_list (f <$> <[i := y]> l) + f x = sum_list (f <$> l) + f y)%nat.
Proof.
  revert i. induction l as [|z l IH]; intros [|i] Hx; try done.
  - injection Hx as ->. cbn. lia.
  - specialize (IH i Hx). change (f z + sum_list (f <$> <[i := y]> l) + f x = f z + sum_list (f <$> l) + f y)%nat. lia.
Qed.

Lemma sum_ready l : (sum_list (is_ready <$> l) <= length l)%nat.
Proof. induction l as [|[] l IH]; cbn in *; lia. Qed.

Lemma sum_wake l : sum_list (weight <$> (wake <$> l)) = sum_list (weight <$> l).
Proof. rewrite <- list_fmap_compose. f_equal. apply list_fmap_ext. by intros ? []. Qed.

Lemma move_decreases s s' o landed : inv s o landed -> moves s s' -> (steps_left s' < steps_left s)%nat.
Proof.
  intros Hi Hm. unfold steps_left. rewrite (callers_move _ _ Hm). revert Hi. set (N := S (length (callers s))).
  destruct Hm as [s i t Hc|s i t b l outcome Hc Ha|s i t ts outcome Hc]; intros Hi.
  - unfold turn. destruct (results (group s) !! t) as [r|] eqn:Hr; [|destruct (committing (group s)) eqn:Hcm];
      cbn [set_caller group callers queued];
      match goal with |- context [<[i := ?c]> _] =>
        pose proof (sum_insert weight _ _ _ c Hc) as Hw; pose proof (sum_insert is_ready _ _ _ c Hc) as Hb end; cbn [weight is_ready] in Hw, Hb; [nia..|].
    rewrite (inv_committing _ _ _ Hi) in Hcm. destruct o; [done|]. pose proof (ready_queued _ _ _ _ Hi Hc Hr) as Hq.
    rewrite length_drop. assert (1 <= Nat.min (length (queued (group s))) MAX_BATCH)%nat as Hk.
    { unfold MAX_BATCH. destruct (queued (group s)); [done|]. cbn [length]. lia. }
    set (k := Nat.min _ _) in *. assert (k <= length (queued (group s)))%nat by lia. clearbody k.
    assert (N > 0)%nat by lia. nia.
  - cbn [committed group callers]. pose proof (sum_insert weight _ _ _ (Finishing t b.*1 outcome) Hc) as Hw.
    pose proof (sum_insert is_ready _ _ _ (Finishing t b.*1 outcome) Hc) as Hb. cbn [weight is_ready] in Hw, Hb. nia.
  - cbn [finished group callers finish queued]. set (c' := if is_some outcome then Ready t else Unwound t).
    assert ((wake <$> callers s) !! i = Some (Finishing t ts outcome)) as Hc2 by (by rewrite list_lookup_fmap, Hc).
    pose proof (sum_insert weight _ _ _ c' Hc2) as Hw. rewrite sum_wake in Hw. cbn [weight] in Hw.
    pose proof (sum_ready (<[i := c']> (wake <$> callers s))) as Hb. rewrite length_insert, length_fmap in Hb.
    assert (weight c' = 0)%nat as Hc0 by (unfold c'; by destruct (is_some outcome)). nia.
Qed.

Lemma stuck_done s o landed :
  inv s o landed -> Forall (fun c => done c = true) (callers s) \/ exists s', moves s s'.
Proof.
  intros Hi. destruct (decide (Forall (fun c => done c = true) (callers s))) as [?|Hn]; [by left|right].
  apply not_Forall_Exists in Hn; [|apply _]. apply Exists_exists in Hn as (c & Hc & Hd).
  destruct o as [k|] eqn:Ho.
  - destruct (inv_bound _ _ _ Hi k eq_refl) as [d Hd']. pose proof (proj2 (inv_leader _ _ _ Hi _ _ Hd') eq_refl) as Hl.
    destruct d; try done; eexists.
    + eapply move_commit; [exact Hd'|apply attempt_panicked].
    + by eapply move_finish.
  - apply list_elem_of_lookup_1 in Hc as [i Hc]. destruct c; try (by destruct Hd).
    + eexists. by eapply move_turn.
    + by destruct (inv_waiting _ _ _ Hi _ _ Hc).
    + discriminate (proj1 (inv_leader _ _ _ Hi _ _ Hc) eq_refl).
    + discriminate (proj1 (inv_leader _ _ _ Hi _ _ Hc) eq_refl).
Qed.

(** C13: No caller waits forever. Wherever the calls of [record] are, and in whatever
    order they are scheduled from there, each step is one of at most [steps_left]; as
    long as a call has neither returned nor been unwound by a panic, one of them can
    take a step. No wakeup is lost, and no commit that fails or panics leaves the
    others asleep. *)
Theorem every_call_returns (l0 : Ledger) (s : Sys) :
  runs l0 s -> Z.of_nat (length (callers s)) < 2 ^ 64 ->
  forall n s', nsteps moves n s s' ->
    (n <= steps_left s)%nat /\ (Forall (fun c => done c = true) (callers s') \/ exists s'', moves s' s'').
Proof.
  intros Hr Hlt n s' Hn. destruct (runs_inv l0 s Hr Hlt) as (o & landed & Hi).
  enough (n + steps_left s' <= steps_left s /\ exists o' landed', inv s' o' landed')%nat as [Hle (o' & landed' & Hi')].
  { split; [lia|]. by eapply stuck_done. }
  clear Hr Hlt. revert o landed Hi. induction Hn as [s|n s1 s2 s3 Hm Hn IH]; intros o landed Hi; [split; [lia|eauto]|].
  destruct (inv_move _ _ _ _ Hi Hm) as (o' & landed' & Hi'). pose proof (move_decreases _ _ _ _ Hi Hm).
  destruct (IH _ _ Hi') as [? ?]. split; [lia|done].
Qed.

End group_commit.

(** ** Examples

    Two calls on a ledger with no file: the first leads and commits its share while
    the second sleeps, then takes its result; the second wakes to lead. *)

Definition example_ledger : @Ledger example_table := @ledger_new example_table 10 4.
Definition example_first : Share := example_share_of 97 8 100.
Definition example_second : Share := example_share_of 98 4 101.
Definition example_recorded : @Ledger example_table :=
  default example_ledger (fst <$> @record_batch example_table example_ledger [example_first] true true).

Definition example_called : @Sys example_table := record (record (start example_ledger) example_first) example_second.
Definition example_committed : @Sys example_table :=
  committed example_called 0 0 [(0, example_first)] example_recorded (Some (Ok 3)).
Definition example_finished : @Sys example_table := finished example_committed 0 0 [0] (Some (Ok 3)).
Definition example_returned : @Sys example_table :=
  let '(st, c) := turn (group example_finished) 0 in set_caller example_finished st 0 c.

Lemma example_record_batch :
  @record_batch example_table example_ledger [example_first] true true = Some (example_recorded, true).
Proof. by vm_compute. Qed.

Lemma example_share_ok x : x ∈ example_batch -> shares_ok [x].
Proof. intros Hx. apply Forall_singleton. pose proof example_batch_ok as Hok. by eapply Forall_forall in Hok. Qed.

Lemma example_runs : runs example_ledger example_returned.
Proof.
  unfold runs. eapply rtc_l; [apply (step_call _ example_first), example_share_ok; left|].
  eapply rtc_l; [apply (step_call _ example_second), example_share_ok; right; left|].
  eapply rtc_l; [apply step_move, (move_commit example_called 0 0 [(0, example_first)] example_recorded (Some (Ok 3)));
    [reflexivity|exact (attempt_recorded _ _ _ _ _ _ example_record_batch)]|].
  eapply rtc_l; [apply step_move, (move_finish example_committed 0 0 [0] (Some (Ok 3))); reflexivity|].
  eapply rtc_l; [apply step_move, (move_turn example_finished 0 0); reflexivity|]. apply rtc_refl.
Qed.


Lemma every_call_returns_witness : exists s', moves example_returned s'.
Proof.
  destruct (every_call_returns example_ledger example_returned example_runs eq_refl 0 example_returned) as [_ [Hd|Hs]].
  - apply nsteps_O.
  - exfalso. pose proof (Forall_lookup_1 _ _ 1%nat (Ready 1) Hd eq_refl) as Hn. discriminate Hn.
  - exact Hs.
Defined.
