(* ===== verification/Split.v ===== *)
(** Dividing a block's value over the window ([prime/src/ledger/split.rs]): the
    operator fee, the weights read off the window, and the amounts. *)
From stdpp Require Import sorting.
From S2P Require Import Prelude Coinbaser Window Rows.

Definition MIN_PAYOUT : Z := 546.
Definition BASIS_POINTS_PER_UNIT : Z := 10000.

Definition basis_points_of (work bps : Z) : Z := sat_mul 128 work bps / BASIS_POINTS_PER_UNIT.
Definition fee_on (fee_bps value : Z) : Z := wrap 64 (basis_points_of value fee_bps).
Definition miners_share (fee_bps value : Z) : Z := wrap 64 (value - fee_on fee_bps value).

(** An identity and its weight. *)
Definition weight : Type := bytes * Z.

(** [str]'s order: of the bytes, a prefix first. *)
Fixpoint bytes_le (a b : bytes) : bool :=
  match a, b with
  | [], _ => true
  | _ :: _, [] => false
  | x :: a, y :: b => (bz x <? bz y) || ((bz x =? bz y) && bytes_le a b)
  end.

Definition most_work_first (x y : weight) : Prop :=
  y.2 < x.2 \/ (x.2 = y.2 /\ bytes_le x.1 y.1 = true).

#[global] Instance most_work_first_dec : RelDecision most_work_first.
Proof. intros x y. unfold most_work_first. apply _. Defined.

(** [while let Some(w) = entries.last()]: the entries newest first, popped while
    the last one's amount is under the minimum. *)
Fixpoint drop_small (value min_payout work : Z) (rev_entries : list weight) : list weight * Z :=
  match rev_entries with
  | [] => ([], work)
  | (_, w) :: rest =>
    if work =? 0 then ([], work)
    else if min_payout <=? sat_mul 128 value w / work then (reverse rev_entries, work)
    else drop_small value min_payout (work - w) rest
  end.

Fixpoint amounts (left work : Z) (entries : list weight) : list Payout :=
  match entries with
  | [] => []
  | (identity, w) :: entries =>
    if work =? 0 then []
    else
      let amount := wrap 64 (sat_mul 128 left w / work) in
      (if amount =? 0 then [] else [{| payout_identity := identity; sats := amount |}]) ++
      amounts (left - amount) (work - w) entries
  end.

Definition total_weight (entries : list weight) : Z := sumZ (snd <$> entries).

Definition split_with (entries : list weight) (value min_payout : Z) (max_outputs : nat) : list Payout :=
  let total := total_weight entries in
  if (total =? 0) || (value =? 0) || (max_outputs =? 0)%nat then []
  else
    let entries := take max_outputs (merge_sort most_work_first entries) in
    let '(entries, work) := drop_small value min_payout (total_weight entries) (reverse entries) in
    amounts value work entries.

Definition split (entries : list weight) (value : Z) : list Payout :=
  split_with entries value MIN_PAYOUT (Z.to_nat MAX_COINBASER_OUTPUTS).

(** [Ledger::weights]. *)
Definition weights (c : Contents) : list weight :=
  (fun p => (p.1, work p.2)) <$> identities_iter (identities c).

Definition split_of (c : Contents) (fee_bps value : Z) : list Payout :=
  split (weights c) (miners_share fee_bps value).

(** ** The amounts *)

Definition nonneg (entries : list weight) : Prop := Forall (fun e => 0 <= e.2) entries.

#[global] Instance nonneg_perm : Proper (Permutation ==> iff) nonneg.
Proof. intros l k H. unfold nonneg. by rewrite H. Qed.

Lemma total_weight_nonneg entries : nonneg entries -> 0 <= total_weight entries.
Proof. intros H. apply sumZ_nonneg, Forall_fmap. eapply Forall_impl; [exact H|]. done. Qed.

Lemma total_weight_cons e entries : total_weight (e :: entries) = e.2 + total_weight entries.
Proof. done. Qed.

Lemma total_weight_app l k : total_weight (l ++ k) = total_weight l + total_weight k.
Proof. unfold total_weight. by rewrite fmap_app, sumZ_app. Qed.

Lemma total_weight_perm l k : l ≡ₚ k -> total_weight l = total_weight k.
Proof. intros H. apply sumZ_perm. by rewrite H. Qed.

(** A quotient whose cross product is larger is larger. *)
Lemma div_cross_le a b c d : 0 < c -> 0 < d -> b * c <= a * d -> b / d <= a / c.
Proof.
  intros Hc Hd H. apply Z.div_le_lower_bound; [done|].
  pose proof (Z.mul_div_le b d Hd). nia.
Qed.

(** What is left over grows in proportion to the weight left. *)
Lemma left_grows left w work value total :
  0 < work -> 0 <= w <= work -> 0 <= left -> 0 < total -> value * work <= left * total ->
  value * (work - w) <= (left - left * w / work) * total.
Proof.
  intros Hwork Hw Hl Ht H. pose proof (Z.mul_div_le (left * w) work Hwork) as Hdiv.
  set (a := left * w / work) in *.
  assert (value * (work - w) * work <= (left - a) * total * work) as Hmul; [|nia].
  assert (a * work * total <= left * w * total) by nia.
  assert (value * work * (work - w) <= left * total * (work - w)) by nia. nia.
Qed.

Definition pays_at_least (value total : Z) (e : weight) (p : Payout) : Prop :=
  payout_identity p = e.1 /\ value * e.2 / total <= sats p.

Lemma amounts_spec value total left entries :
  nonneg entries -> 0 < total -> 0 <= left < 2 ^ 64 -> left * total_weight entries < 2 ^ 128 ->
  value * total_weight entries <= left * total ->
  Forall (fun e => 0 < value * e.2 / total) entries -> 0 < total_weight entries ->
  Forall2 (pays_at_least value total) entries (amounts left (total_weight entries) entries) /\
  sumZ (sats <$> amounts left (total_weight entries) entries) = left.
Proof.
  intros Hnn Ht. revert left. induction Hnn as [|[n w] entries Hw Hnn IH]; intros left Hl Hmax Hcross Hpos Hsum; [done|].
  rewrite total_weight_cons in *. cbn [snd] in *. pose proof (total_weight_nonneg _ Hnn) as Hrest.
  set (rest := total_weight entries) in *. apply Forall_cons in Hpos as [Hp Hpos]. cbn [snd] in Hp.
  cbn [amounts]. rewrite (proj2 (Z.eqb_neq (w + rest) 0)) by lia.
  assert (sat_mul 128 left w = left * w) as -> by (unfold sat_mul; nia).
  assert (0 <= left * w / (w + rest) <= left) as Ha.
  { split; [apply Z.div_pos; nia|]. apply Z.div_le_upper_bound; nia. }
  rewrite wrap_small by (unfold uint; lia).
  assert (value * w / total <= left * w / (w + rest)) as Hle by (apply div_cross_le; nia).
  rewrite (proj2 (Z.eqb_neq (left * w / (w + rest)) 0)) by lia. cbn [app].
  replace (w + rest - w) with rest by lia.
  pose proof (left_grows left w (w + rest) value total ltac:(lia) ltac:(lia) ltac:(lia) Ht Hcross) as Hgrow.
  replace (w + rest - w) with rest in Hgrow by lia.
  destruct (decide (rest = 0)) as [Hz|Hnz].
  - assert (entries = []) as ->.
    { destruct entries as [|e entries]; [done|]. apply Forall_cons in Hpos as [He _].
      apply Forall_cons in Hnn as [? Hnn]. unfold rest in Hz. rewrite total_weight_cons in Hz.
      pose proof (total_weight_nonneg _ Hnn). assert (e.2 = 0) as Hez by lia. rewrite Hez, Z.mul_0_r in He.
      rewrite Z.div_0_l in He; lia. }
    cbn [amounts]. split; [constructor; [by split|constructor]|].
    rewrite Hz, Z.add_0_r, Z.div_mul by lia. cbn. lia.
  - destruct (IH (left - left * w / (w + rest))) as [Hall Hs]; try lia; try done.
    split; [constructor; [by split|done]|]. cbn [fmap list_fmap]. rewrite sumZ_cons, Hs. cbn. lia.
Qed.

(** ** The identities kept *)


(** Every identity is at least as heavy as the last of a sorted list. *)
Lemma sorted_last entries (e : weight) :
  StronglySorted most_work_first (entries ++ [e]) -> Forall (fun x => e.2 <= x.2) (entries ++ [e]).
Proof.
  intros Hs. apply Forall_app_2; [|by repeat constructor].
  induction entries as [|x entries IH]; constructor.
  - apply StronglySorted_inv in Hs as [_ Hall]. apply Forall_app in Hall as [_ Hall].
    apply Forall_cons in Hall as [[H|[H _]] _]; lia.
  - apply IH. by apply StronglySorted_inv in Hs as [].
Qed.

(** The identities from the [n]th on: with any of them the last of those paid,
    its amount would be under the minimum. *)
Definition too_small (value min_payout : Z) (n : nat) (entries : list weight) : Prop :=
  forall pre e post, entries = pre ++ e :: post -> (n <= length pre)%nat ->
    value * e.2 / total_weight (pre ++ [e]) < min_payout.

Lemma too_small_whole value min_payout entries : too_small value min_payout (length entries) entries.
Proof. intros pre e post -> Hn. rewrite length_app in Hn. cbn in Hn. lia. Qed.

Lemma too_small_snoc value min_payout n entries e :
  too_small value min_payout n entries -> value * e.2 / total_weight (entries ++ [e]) < min_payout ->
  too_small value min_payout n (entries ++ [e]).
Proof.
  intros H He pre x post Heq Hn. destruct post as [|y post _] using rev_ind.
  - apply app_inj_tail in Heq as [-> ->]. done.
  - rewrite app_comm_cons, app_assoc in Heq. apply app_inj_tail in Heq as [-> _]. by eapply H.
Qed.

(** Where nobody has any weight every amount is nothing. *)
Lemma too_small_zero value min_payout n entries :
  1 <= min_payout -> nonneg entries -> total_weight entries = 0 -> too_small value min_payout n entries.
Proof.
  intros Hmin Hnn Hz pre e post -> _. apply Forall_app in Hnn as [Hpre Hnn]. apply Forall_cons in Hnn as [He Hpost].
  rewrite total_weight_app, total_weight_cons in Hz.
  pose proof (total_weight_nonneg _ Hpre). pose proof (total_weight_nonneg _ Hpost).
  replace e.2 with 0 by lia. rewrite Z.mul_0_r, Zdiv_0_l. lia.
Qed.

Lemma drop_small_spec value min_payout entries :
  nonneg entries -> 0 <= value -> 1 <= min_payout -> value * total_weight entries < 2 ^ 128 ->
  StronglySorted most_work_first entries ->
  exists kept work, drop_small value min_payout (total_weight entries) (reverse entries) = (kept, work) /\
    (kept = [] \/ (kept `prefix_of` entries /\ work = total_weight kept /\ 0 < work /\
                   Forall (fun e => min_payout <= value * e.2 / work) kept)) /\
    too_small value min_payout (length kept) entries.
Proof.
  intros Hnn Hv Hmin. induction entries as [|[n w] entries IH] using rev_ind; intros Hmax Hs.
  { exists [], 0. split_and!; [done|by left|]. intros [|? ?] e post; done. }
  apply Forall_app in Hnn as [Hnn Hw]. apply Forall_cons in Hw as [Hw _]. cbn in Hw.
  pose proof (total_weight_nonneg _ Hnn) as Hrest. rewrite total_weight_app in *.
  change (total_weight [(n, w)]) with (w + 0) in *. rewrite Z.add_0_r in *. set (rest := total_weight entries) in *.
  rewrite reverse_snoc. cbn [drop_small]. destruct (Z.eqb_spec (rest + w) 0) as [Hz|Hz].
  { eexists [], _. split_and!; [done|by left|]. apply too_small_zero; [done| |].
    - apply Forall_app_2; [done|by repeat constructor].
    - rewrite total_weight_app. change (total_weight [(n, w)]) with (w + 0). lia. }
  assert (0 <= value * rest) by nia.
  assert (sat_mul 128 value w = value * w) as -> by (unfold sat_mul; apply Z.min_l; lia).
  destruct (Z.leb_spec min_payout (value * w / (rest + w))) as [Hge|Hlt].
  - eexists _, _. split; [reflexivity|]. rewrite reverse_cons, reverse_involutive.
    split; [right|by apply too_small_whole].
    split_and!; [done|rewrite total_weight_app; fold rest; change (total_weight [(n, w)]) with (w + 0); lia|lia|].
    eapply Forall_impl; [by apply sorted_last|]. cbn. intros e He. etransitivity; [exact Hge|].
    apply Z.div_le_mono; nia.
  - replace (rest + w - w) with rest by lia. destruct IH as (kept & work & Hd & Hk); [done|nia| |].
    { by apply StronglySorted_app_1_l in Hs. }
    exists kept, work. destruct Hk as [Hk Hsmall]. split_and!; [done| |].
    { destruct Hk as [Hk|(Hp & Hrest')]; [by left|right]. split; [|done]. etransitivity; [exact Hp|]. by eexists. }
    apply too_small_snoc; [done|]. rewrite total_weight_app. change (total_weight [(n, w)]) with (w + 0).
    fold rest. rewrite Z.add_0_r. exact Hlt.
Qed.

(** [sort_by] on a total order. *)
#[global] Instance most_work_first_total : Total most_work_first.
Proof.
  intros [a x] [b y]. unfold most_work_first. cbn.
  assert (forall a b, bytes_le a b = true \/ bytes_le b a = true) as Hle.
  { clear. induction a as [|x a IH]; intros [|y b]; cbn; auto.
    destruct (Z.ltb_spec (bz x) (bz y)), (Z.ltb_spec (bz y) (bz x)), (Z.eqb_spec (bz x) (bz y)),
      (Z.eqb_spec (bz y) (bz x)); cbn; auto; lia. }
  destruct (Hle a b), (Hle b a); destruct (Z.lt_total x y) as [|[]]; auto.
Qed.

Lemma bytes_le_trans a b c : bytes_le a b = true -> bytes_le b c = true -> bytes_le a c = true.
Proof.
  revert b c. induction a as [|x a IH]; intros [|y b] [|z c]; cbn; try done.
  intros [H1|H1]%orb_true_iff [H2|H2]%orb_true_iff; apply orb_true_iff; reflect_Z; destr_and; reflect_Z;
    repeat match goal with H : _ && _ = true |- _ => apply andb_true_iff in H as [? ?] end; reflect_Z.
  all: try (left; apply Z.ltb_lt; lia). right. apply andb_true_iff. split; [apply Z.eqb_eq; lia|by eapply IH].
Qed.

#[global] Instance most_work_first_trans : Transitive most_work_first.
Proof.
  intros [a x] [b y] [c z]. unfold most_work_first. cbn.
  intros [?|[? ?]] [?|[? ?]]; try (left; lia). right. split; [lia|by eapply bytes_le_trans].
Qed.

(** ** The split *)

Lemma split_with_spec entries value min_payout max_outputs :
  nonneg entries -> 0 <= value < 2 ^ 64 -> 1 <= min_payout -> value * total_weight entries < 2 ^ 128 ->
  let out := split_with entries value min_payout max_outputs in
  exists kept, kept `prefix_of` take max_outputs (merge_sort most_work_first entries) /\
    sumZ (sats <$> out) = (if decide (kept = []) then 0 else value) /\
    Forall2 (pays_at_least value (total_weight kept)) kept out /\
    Forall (fun p => min_payout <= sats p) out /\ (kept = [] \/ 0 < total_weight kept) /\
    too_small value min_payout (length kept) (take max_outputs (merge_sort most_work_first entries)).
Proof.
  intros Hnn Hv Hmin Hmax out. unfold out, split_with. clear out.
  destruct (_ || (max_outputs =? 0)%nat) eqn:Hzero.
  { exists []. split; [apply prefix_nil|]. rewrite decide_True by done. split_and!; try done; [by left|].
    assert (merge_sort most_work_first entries ≡ₚ entries) as Hperm by apply merge_sort_Permutation.
    apply orb_true_iff in Hzero as [[Hz|Hz]%orb_true_iff|Hz].
    - apply Z.eqb_eq in Hz. rewrite <- (total_weight_perm _ _ Hperm) in Hz. rewrite <- Hperm in Hnn.
      intros pre e post Heq Hn.
      eapply (too_small_zero value min_payout 0 (merge_sort most_work_first entries) Hmin Hnn Hz pre e); [|lia].
      rewrite <- (take_drop max_outputs (merge_sort _ _)), Heq, <- app_assoc. reflexivity.
    - apply Z.eqb_eq in Hz as ->. intros pre e post _ _. rewrite Z.mul_0_l, Zdiv_0_l. lia.
    - apply Nat.eqb_eq in Hz as ->. intros [|? ?] e post; done. }
  set (sorted := merge_sort most_work_first entries).
  assert (sorted ≡ₚ entries) as Hperm by apply merge_sort_Permutation.
  assert (nonneg (take max_outputs sorted)) as Hnt by (apply Forall_take; by rewrite Hperm).
  assert (total_weight (take max_outputs sorted) <= total_weight entries) as Hle.
  { rewrite <- (total_weight_perm _ _ Hperm). rewrite <- (take_drop max_outputs sorted) at 2.
    rewrite total_weight_app. assert (nonneg (drop max_outputs sorted)) as Hd by (apply Forall_drop; by rewrite Hperm).
    pose proof (total_weight_nonneg _ Hd). lia. }
  assert (StronglySorted most_work_first (take max_outputs sorted)) as Hsort.
  { eapply StronglySorted_app_1_l. rewrite take_drop. apply StronglySorted_merge_sort; apply _. }
  destruct (drop_small_spec value min_payout _ Hnt ltac:(lia) Hmin ltac:(nia) Hsort) as (kept & work & -> & Hk & Hsmall).
  exists kept. destruct Hk as [->|(Hpre & -> & Hpos & Hall)].
  { split; [apply prefix_nil|]. rewrite decide_True by done. split_and!; try done. by left. }
  assert (nonneg kept /\ total_weight kept <= total_weight (take max_outputs sorted)) as [Hkn Hkle].
  { destruct Hpre as [k Hk]. rewrite Hk in Hnt |- *. apply Forall_app in Hnt as [? Hn].
    split; [done|]. rewrite total_weight_app. pose proof (total_weight_nonneg _ Hn). lia. }
  destruct (amounts_spec value (total_weight kept) value kept Hkn Hpos Hv ltac:(nia) ltac:(lia)) as [Hamt Hsum];
    [by eapply Forall_impl; [exact Hall|]; cbn; lia|done|].
  split; [done|]. rewrite decide_False by (intros ->; done). split_and!; [done..| |by right|done].
  apply Forall_forall. intros p Hp. apply list_elem_of_lookup_1 in Hp as [i Hi].
  destruct (Forall2_lookup_r _ _ _ _ _ Hamt Hi) as (e & He & [_ Hpay]).
  eapply Forall_lookup_1 in Hall; [|exact He]. lia.
Qed.

(** ** The weights of the window *)

Definition weight_of (n : bytes) (l : list Share) : Z := work_of (credited n l).

Lemma weights_names c l : represents l c -> NoDup (weights c).*1.
Proof.
  intros [[H1 _ _ _] _ _ _]. unfold weights, identities_iter. rewrite <- !list_fmap_compose.
  assert (forall k off, (forall i e, k !! i = Some (Some e) -> entry_at (identities c) (off + i) = Some e) ->
    NoDup (name <$> omap id k)) as Hgen.
  { induction k as [|o k IH]; intros off Hk; [constructor|].
    assert (NoDup (name <$> omap id k)) as Hnd.
    { apply (IH (S off)). intros i e Hi. rewrite Nat.add_succ_comm. by apply Hk. }
    destruct o as [e|]; [|done]. cbn. constructor; [|done].
    intros (e2 & Hn & Hin)%list_elem_of_fmap. apply list_elem_of_omap in Hin as (o & Ho & [= ->]).
    apply list_elem_of_lookup_1 in Ho as [i Hi].
    pose proof (H1 _ _ (Hk 0%nat e eq_refl)) as Ha. pose proof (H1 _ _ (Hk (S i) e2 Hi)) as Hb.
    rewrite Hn in Ha. rewrite Ha in Hb. injection Hb. lia. }
  apply (Hgen _ 0%nat). intros i e Hi. unfold entry_at. cbn. by rewrite Hi.
Qed.

Lemma weights_spec c l n w :
  represents l c -> (n, w) ∈ weights c <-> n ∈ (identity <$> l) /\ w = weight_of n l.
Proof.
  intros Hrep. unfold weights. split.
  - intros ([n2 st] & [= -> ->] & Hin)%list_elem_of_fmap. apply (identities_iter_spec _ _ _ _ Hrep) in Hin. unfold entry_of in Hin.
    destruct (last (credited n2 l)) as [s|] eqn:Hl; [|done]. cbn in Hin. injection Hin as <-.
    apply last_Some_elem_of, list_elem_of_filter in Hl as [<- Hin]. split; [by apply list_elem_of_fmap_2|done].
  - intros [(s & -> & Hin)%list_elem_of_fmap ->].
    assert (s ∈ credited (identity s) l) as Hc by (by apply list_elem_of_filter).
    destruct (last (credited (identity s) l)) as [z|] eqn:Hl; [|apply last_None in Hl; rewrite Hl in Hc; by apply not_elem_of_nil in Hc].
    apply list_elem_of_fmap.
    eexists (_, _). split; [|apply (identities_iter_spec _ _ _ _ Hrep); unfold entry_of; rewrite Hl; reflexivity]. done.
Qed.

(** The weights of distinct identities that cover the window add up to it. *)
Lemma sum_weights l ns :
  NoDup ns -> (forall s, s ∈ l -> identity s ∈ ns) -> sumZ ((fun n => weight_of n l) <$> ns) = work_of l.
Proof.
  intros Hnd. induction l as [|s l IH]; intros Hcov.
  { clear. induction ns as [|n ns IH]; [done|]. cbn [fmap list_fmap]. rewrite sumZ_cons, IH. done. }
  rewrite work_of_cons, <- IH by (intros; apply Hcov; by right).
  assert (identity s ∈ ns) as Hin by (apply Hcov; by left). clear IH Hcov.
  induction Hnd as [|n ns Hn Hnd IH]; [by apply not_elem_of_nil in Hin|].
  cbn [fmap list_fmap]. rewrite !sumZ_cons. unfold weight_of at 1 3. rewrite credited_cons.
  case_decide as Hs.
  - rewrite work_of_cons. subst n.
    assert (((fun n => weight_of n (s :: l)) <$> ns) = ((fun n => weight_of n l) <$> ns)) as ->; [|lia].
    apply list_fmap_ext. intros i n Hi. unfold weight_of. rewrite credited_cons, decide_False; [done|].
    intros <-. apply Hn. by eapply list_elem_of_lookup_2.
  - apply elem_of_cons in Hin as [Heq|Hin]; [by destruct Hs|]. rewrite (IH Hin). lia.
Qed.

Lemma weights_total c l : represents l c -> total_weight (weights c) = work_of l.
Proof.
  intros Hrep. rewrite <- (sum_weights l (weights c).*1 (weights_names _ _ Hrep)).
  - unfold total_weight. f_equal. rewrite <- list_fmap_compose. apply list_fmap_ext. intros i [n w] Hi. cbn.
    apply list_elem_of_lookup_2, (weights_spec _ _ _ _ Hrep) in Hi as [_ ->]. done.
  - intros s Hs. apply list_elem_of_fmap. eexists (_, _). split; [reflexivity|].
    apply (weights_spec _ _ _ _ Hrep). split; [apply list_elem_of_fmap; by exists s|reflexivity].
Qed.

(** The identities of a window by their work, heaviest first and then by name. *)
Definition heaviest_first (l : list Share) (order : list bytes) : Prop :=
  NoDup order /\ (forall n, n ∈ order <-> n ∈ identity <$> l) /\
  StronglySorted (fun a b => most_work_first (a, weight_of a l) (b, weight_of b l)) order.

(** The work of the first [n] of them. *)
Definition work_of_first (n : nat) (l : list Share) (order : list bytes) : Z :=
  sumZ ((fun i => weight_of i l) <$> take n order).

Lemma sorted_fmap {A B} (R : B -> B -> Prop) (f : A -> B) l :
  StronglySorted R (f <$> l) -> StronglySorted (fun a b => R (f a) (f b)) l.
Proof.
  induction l as [|a l IH]; [constructor|]. rewrite fmap_cons.
  intros [Hs Hall]%StronglySorted_inv. constructor; [by apply IH|]. apply Forall_forall. intros b Hb.
  eapply Forall_forall in Hall; [exact Hall|by apply list_elem_of_fmap_2].
Qed.

Lemma weights_sorted c l :
  represents l c ->
  exists order, heaviest_first l order /\
    merge_sort most_work_first (weights c) = (fun n => (n, weight_of n l)) <$> order.
Proof.
  intros Hrep. set (sorted := merge_sort most_work_first (weights c)).
  assert (sorted ≡ₚ weights c) as Hperm by apply merge_sort_Permutation.
  assert (sorted = (fun n => (n, weight_of n l)) <$> sorted.*1) as Hs.
  { rewrite <- list_fmap_compose. rewrite <- (list_fmap_id sorted) at 1. apply list_fmap_ext. intros i [n w] Hi.
    apply list_elem_of_lookup_2 in Hi. rewrite Hperm in Hi. apply (weights_spec _ _ _ _ Hrep) in Hi as [_ ->]. done. }
  exists sorted.*1. split; [|exact Hs]. split_and!.
  - rewrite Hperm. by eapply weights_names.
  - intros n. rewrite Hperm. split.
    + intros ([n2 w] & -> & Hin)%list_elem_of_fmap. by apply (weights_spec _ _ _ _ Hrep) in Hin as [? _].
    + intros Hn. apply list_elem_of_fmap. exists (n, weight_of n l). split; [done|].
      by apply (weights_spec _ _ _ _ Hrep).
  - assert (StronglySorted most_work_first sorted) as Hss by (apply StronglySorted_merge_sort; apply _).
    rewrite Hs in Hss. by apply sorted_fmap in Hss.
Qed.

Lemma total_weight_first n l order :
  total_weight (take n ((fun i => (i, weight_of i l)) <$> order)) = work_of_first n l order.
Proof. unfold total_weight, work_of_first. rewrite <- fmap_take, <- list_fmap_compose. done. Qed.

(** What a split of [payable] over the shares [l] is to be. *)
Record fair_split (l : list Share) (payable : Z) (out : list Payout) : Prop := {
  fair_total : out = [] \/ sumZ (sats <$> out) = payable;
  fair_count : (length out <= Z.to_nat MAX_COINBASER_OUTPUTS)%nat;
  fair_names : NoDup (payout_identity <$> out);
  fair_each : Forall (fun p => MIN_PAYOUT <= sats p /\ payout_identity p ∈ (identity <$> l) /\
    payable * weight_of (payout_identity p) l / work_of l <= sats p) out;
  fair_whole : l <> [] -> MIN_PAYOUT <= payable -> sumZ (sats <$> out) = payable;
  fair_nothing : payable < MIN_PAYOUT -> out = [];
  fair_order : exists order, heaviest_first l order /\
    payout_identity <$> out = take (length out) order /\
    Forall (fun p => payable * weight_of (payout_identity p) l / work_of_first (length out) l order <= sats p) out /\
    (forall n i, (length out <= n < Z.to_nat MAX_COINBASER_OUTPUTS)%nat -> order !! n = Some i ->
       payable * weight_of i l / work_of_first (S n) l order < MIN_PAYOUT);
}.

(** What is kept of the identities in their order, read off the order itself. *)
Lemma kept_in_order c l value outs kept out :
  represents l c -> kept `prefix_of` take outs (merge_sort most_work_first (weights c)) ->
  Forall2 (pays_at_least value (total_weight kept)) kept out ->
  too_small value MIN_PAYOUT (length kept) (take outs (merge_sort most_work_first (weights c))) ->
  exists order, heaviest_first l order /\
    payout_identity <$> out = take (length out) order /\
    Forall (fun p => value * weight_of (payout_identity p) l / work_of_first (length out) l order <= sats p) out /\
    (forall n i, (length out <= n < outs)%nat -> order !! n = Some i ->
       value * weight_of i l / work_of_first (S n) l order < MIN_PAYOUT).
Proof.
  intros Hrep Hpre Hpays Hsmall. destruct (weights_sorted c l Hrep) as (order & Hfirst & Hs). rewrite Hs in Hpre, Hsmall.
  exists order. split; [exact Hfirst|]. pose proof (Forall2_length _ _ _ Hpays) as Hlen.
  set (f := fun n => (n, weight_of n l)) in *.
  assert (kept = take (length out) (f <$> order)) as Hkept.
  { pose proof (prefix_length _ _ Hpre) as Hl. rewrite length_take in Hl. destruct Hpre as [k Hk].
    assert (take (length kept) (take outs (f <$> order)) = kept) as <- by (by rewrite Hk, take_app_length).
    rewrite take_take, <- Hlen. f_equal. lia. }
  split_and!.
  - transitivity (kept.*1).
    + clear -Hpays. induction Hpays as [|e p ks os [Hp _] _ IH]; [done|]. cbn. by rewrite IH, Hp.
    + rewrite Hkept, fmap_take, <- list_fmap_compose. by rewrite list_fmap_id.
  - rewrite <- total_weight_first. fold f. rewrite <- Hkept.
    apply Forall_lookup_2. intros i p Hp. destruct (Forall2_lookup_r _ _ _ _ _ Hpays Hp) as (e & He & [-> Hle]).
    rewrite Hkept in He. apply lookup_take_Some in He as [He _]. apply list_lookup_fmap_Some in He as (n & -> & _).
    exact Hle.
  - intros n i [Hn Houts] Hi. rewrite <- total_weight_first. fold f.
    assert ((f <$> order) !! n = Some (f i)) as Hfi by (by rewrite list_lookup_fmap, Hi).
    unfold weight in *. rewrite (take_S_r _ _ _ Hfi). apply (Hsmall _ (f i) (drop (S n) (take outs (f <$> order)))).
    + rewrite <- (take_drop_middle (take outs (f <$> order)) n (f i)) at 1 by (rewrite lookup_take_lt by lia; exact Hfi).
      rewrite take_take. do 2 f_equal. lia.
    + rewrite length_take, length_fmap. apply lookup_lt_Some in Hi. lia.
Qed.

Lemma weight_of_pos n l : positive l -> n ∈ identity <$> l -> 0 < weight_of n l.
Proof.
  intros Hpos (s & -> & Hs)%list_elem_of_fmap. unfold weight_of.
  assert (s ∈ credited (identity s) l) as Hc by (by apply list_elem_of_filter).
  apply list_elem_of_split in Hc as (a & b & Hab).
  assert (positive (credited (identity s) l)) as Hp.
  { apply Forall_forall. intros x [_ Hx]%list_elem_of_filter. by eapply Forall_forall in Hpos. }
  rewrite Hab in Hp |- *. apply Forall_app in Hp as [Ha Hp]. apply Forall_cons in Hp as [Hs0 Hb].
  pose proof (work_of_nonneg _ Ha). pose proof (work_of_nonneg _ Hb). rewrite work_of_app, work_of_cons. lia.
Qed.

Lemma split_of_fair (c : Contents) (l : list Share) (fee_bps value : Z) :
  represents l c -> positive l -> 0 <= fee_bps <= BASIS_POINTS_PER_UNIT -> 0 <= value < 2 ^ 64 ->
  value * work_of l < 2 ^ 128 ->
  fair_split l (value - value * fee_bps / BASIS_POINTS_PER_UNIT) (split_of c fee_bps value).
Proof.
  intros Hrep Hpos Hfee Hv Hmax.
  set (out := split_of c fee_bps value). set (payable := value - _).
  assert (miners_share fee_bps value = payable /\ 0 <= payable <= value) as [Hms Hpay].
  { unfold payable, miners_share, fee_on, basis_points_of, BASIS_POINTS_PER_UNIT in *.
    assert (0 <= value * fee_bps / 10000 <= value) as Hf.
    { split; [apply Z.div_pos; nia|]. apply Z.div_le_upper_bound; nia. }
    assert (sat_mul 128 value fee_bps = value * fee_bps) as -> by (unfold sat_mul; apply Z.min_l; nia).
    rewrite (wrap_small 64 (_ / _)) by (unfold uint; lia). rewrite wrap_small by (unfold uint; lia). lia. }
  unfold out, split_of, split in *. rewrite Hms. clearbody payable. clear out.
  assert (nonneg (weights c)) as Hnn.
  { apply Forall_forall. intros [n w] Hin. apply (weights_spec _ _ _ _ Hrep) in Hin as [_ ->]. cbn.
    apply work_of_nonneg, Forall_forall. intros s [_ Hin]%list_elem_of_filter. by eapply Forall_forall in Hpos. }
  pose proof (weights_total c l Hrep) as Htot. pose proof (work_of_nonneg l Hpos) as Hw.
  set (outs := Z.to_nat MAX_COINBASER_OUTPUTS).
  destruct (split_with_spec (weights c) payable MIN_PAYOUT outs Hnn ltac:(lia) ltac:(done)
    ltac:(rewrite Htot; nia)) as (kept & Hpre & Hsum & Hpays & Hmin & Hk0 & Hsmall).
  set (out := split_with _ _ _ _) in *.
  assert (payout_identity <$> out = kept.*1) as Hnames.
  { clear -Hpays. clearbody out. induction Hpays as [|e p ks os [Hp _] _ IH]; [done|]. cbn. by rewrite IH, Hp. }
  assert (exists k, kept ++ k ≡ₚ weights c) as [k Hk].
  { destruct Hpre as [k Hk]. exists (k ++ drop outs (merge_sort most_work_first (weights c))).
    rewrite app_assoc, <- Hk, take_drop. apply merge_sort_Permutation. }
  assert (nonneg kept /\ total_weight kept <= work_of l) as [Hkn Hle].
  { rewrite <- Hk in Hnn. apply Forall_app in Hnn as [? Hn]. split; [done|].
    rewrite <- Htot, <- (total_weight_perm _ _ Hk), total_weight_app. pose proof (total_weight_nonneg _ Hn). lia. }
  assert (out = [] \/ sumZ (sats <$> out) = payable) as Hall.
  { destruct (decide (kept = [])) as [->|]; [left|by right]. by inversion Hpays. }
  pose proof (kept_in_order c l payable outs kept out Hrep Hpre Hpays Hsmall) as Horder.
  split; [exact Hall| | | | | |exact Horder].
  - rewrite <- (Forall2_length _ _ _ Hpays). etransitivity; [by apply prefix_length|]. rewrite length_take. lia.
  - rewrite Hnames. pose proof (weights_names c l Hrep) as Hnd. rewrite <- Hk, fmap_app in Hnd.
    by apply NoDup_app in Hnd as [? _].
  - apply Forall_forall. intros p Hp. split; [by eapply Forall_forall in Hmin|].
    apply list_elem_of_lookup_1 in Hp as [i Hi].
    destruct (Forall2_lookup_r _ _ _ _ _ Hpays Hi) as ([n w] & He & [-> Hamt]). cbn [fst snd] in *.
    assert ((n, w) ∈ weights c) as Hin.
    { rewrite <- Hk. apply elem_of_app. left. by eapply list_elem_of_lookup_2. }
    apply (weights_spec _ _ _ _ Hrep) in Hin as [Hin ->]. split; [done|].
    assert (0 <= weight_of n l) by (exact (Forall_lookup_1 _ _ _ _ Hkn He)).
    destruct Hk0 as [->|Hk0]; [done|].
    etransitivity; [|exact Hamt]. apply Z.div_le_compat_l; nia.
  - intros Hne Henough. destruct Hall as [Hnil|]; [|done]. exfalso.
    destruct Horder as (order & (Hnd & Hin & _) & _ & _ & Hmore). rewrite Hnil in Hmore.
    destruct l as [|s l]; [done|]. destruct order as [|i order].
    { eapply not_elem_of_nil, (proj2 (Hin (identity s))). by left. }
    specialize (Hmore 0%nat i ltac:(unfold outs, MAX_COINBASER_OUTPUTS; cbn [length]; lia) eq_refl).
    change (work_of_first 1 (s :: l) (i :: order)) with (weight_of i (s :: l) + 0) in Hmore.
    pose proof (weight_of_pos i (s :: l) Hpos (proj1 (Hin i) ltac:(by left))) as Hwi.
    rewrite Z.add_0_r, Z.div_mul in Hmore by lia. lia.
  - intros Hfew. destruct Hall as [|Hsum']; [done|]. destruct out as [|p out']; [done|]. exfalso.
    apply Forall_cons in Hmin as [Hp Hmin]. cbn [fmap list_fmap] in Hsum'. rewrite sumZ_cons in Hsum'.
    assert (0 <= sumZ (sats <$> out')); [|lia].
    apply sumZ_nonneg, Forall_fmap. eapply Forall_impl; [exact Hmin|]. cbn. unfold MIN_PAYOUT. lia.
Qed.

(** C4: A block's value is divided fairly and completely. Of the value left
    after the operator's fee, the split of a window that holds any share pays
    exactly all of it when it reaches the dust minimum, and nothing when it does
    not. The identities with work in the window, each once, heaviest first and
    by name among equals, are paid in that order, from the first one on and no
    more than [MAX_COINBASER_OUTPUTS] of them: one further identity would, last
    of those paid, get less than the minimum. Every payout is at least the
    minimum, and at least its identity's share, rounded down, of the work of
    those paid, which is no less than its share of the whole window's, so
    leaving small miners out never costs the others. For a value and a window
    whose product fits the 128 bits it is computed in. *)
Theorem split_is_fair (c : Contents) (l : list Share) (fee_bps value : Z) :
  represents l c -> positive l -> 0 <= fee_bps <= BASIS_POINTS_PER_UNIT -> 0 <= value < 2 ^ 64 ->
  value * work_of l < 2 ^ 128 ->
  let out := split_of c fee_bps value in
  let payable := value - value * fee_bps / BASIS_POINTS_PER_UNIT in
  (l <> [] -> MIN_PAYOUT <= payable -> sumZ (sats <$> out) = payable) /\
  (payable < MIN_PAYOUT -> out = []) /\
  (length out <= Z.to_nat MAX_COINBASER_OUTPUTS)%nat /\ NoDup (payout_identity <$> out) /\
  Forall (fun p => MIN_PAYOUT <= sats p /\ payout_identity p ∈ (identity <$> l) /\
                   payable * weight_of (payout_identity p) l / work_of l <= sats p) out /\
  exists order, heaviest_first l order /\
    payout_identity <$> out = take (length out) order /\
    Forall (fun p => payable * weight_of (payout_identity p) l / work_of_first (length out) l order <= sats p) out /\
    (forall n i, (length out <= n < Z.to_nat MAX_COINBASER_OUTPUTS)%nat -> order !! n = Some i ->
       payable * weight_of i l / work_of_first (S n) l order < MIN_PAYOUT).
Proof.
  intros Hrep Hpos Hfee Hv Hmax out payable.
  destruct (split_of_fair c l fee_bps value Hrep Hpos Hfee Hv Hmax)
    as [Htotal Hcount Hnames Heach Hwhole Hnothing Horder].
  by split_and!.
Qed.

Lemma split_is_fair_witness :
  let c := default contents_default (push_all 100 8 contents_default
    [{| share_accepted_at := 1; identity := [zb 97]; share_difficulty := 30; share_block_hash := []; share_tag := [] |};
     {| share_accepted_at := 2; identity := [zb 98]; share_difficulty := 60; share_block_hash := []; share_tag := [] |}]) in
  split_of c 100 100000 = [{| payout_identity := [zb 98]; sats := 66000 |}; {| payout_identity := [zb 97]; sats := 33000 |}] /\
  sumZ (sats <$> split_of c 100 100000) = 99000.
Proof.
  intros c. split; [vm_compute; reflexivity|].
  set (l := [{| share_accepted_at := 1; identity := [zb 97]; share_difficulty := 30; share_block_hash := []; share_tag := [] |};
     {| share_accepted_at := 2; identity := [zb 98]; share_difficulty := 60; share_block_hash := []; share_tag := [] |}]) in *.
  assert (positive l) as Hpos by (repeat constructor; done).
  assert (represents (window_of 100 8 l) c) as Hrep.
  { destruct (push_all_ok 100 8 [] contents_default l represents_default (Forall_nil_2 _) Hpos)
      as (c' & Hc & Hrep & _); [lia|cbn; lia|cbn; lia|lia|]. unfold c. fold l. rewrite Hc. exact Hrep. }
  destruct (split_is_fair c (window_of 100 8 l) 100 100000 Hrep) as [H _];
    [exact Hpos|unfold BASIS_POINTS_PER_UNIT; lia|lia|vm_compute; reflexivity|].
  apply H; [vm_compute; discriminate|vm_compute; discriminate].
Defined.
