(* ===== verification/Accounting.v ===== *)
(** What an accepted share and a found block do to the pool's books
    ([prime/src/accounting.rs]): the hashes that make a share count once, and
    what a block that left miners unpaid owes them. *)
From S2P Require Import Prelude Window Rows Ledger Split.

(** ** The hashes of accepted shares

    [order] is the [VecDeque], its front first. *)

Record AcceptedShareHashes := {
  accepted_at : gmap bytes Z;
  order : list (Z * bytes);
  capacity : nat;
}.

Definition hashes_new (capacity : nat) : AcceptedShareHashes :=
  {| accepted_at := ∅; order := []; capacity := Nat.max capacity 1 |}.

(** [forget]: the hash leaves the map only under its own time. *)
Definition forget (held : gmap bytes Z) (e : Z * bytes) : gmap bytes Z :=
  if decide (held !! e.2 = Some e.1) then delete e.2 held else held.

Fixpoint expire_loop (now : Z) (held : gmap bytes Z) (order : list (Z * bytes))
    : gmap bytes Z * list (Z * bytes) :=
  match order with
  | [] => (held, [])
  | e :: rest =>
    if now <=? sat_add 64 e.1 ACCEPTED_HASH_RETENTION_SECS then (held, order)
    else expire_loop now (forget held e) rest
  end.

(** [while self.order.len() >= self.capacity]. *)
Fixpoint cap_loop (capacity : nat) (held : gmap bytes Z) (order : list (Z * bytes))
    : gmap bytes Z * list (Z * bytes) :=
  match order with
  | [] => (held, [])
  | e :: rest => if (capacity <=? length order)%nat then cap_loop capacity (forget held e) rest else (held, order)
  end.

Definition hold (s : AcceptedShareHashes) (hash : bytes) (at_ now : Z) : bool * AcceptedShareHashes :=
  let '(held, order) := expire_loop now (accepted_at s) (order s) in
  if is_some (held !! hash) then
    (false, {| accepted_at := held; order := order; capacity := capacity s |})
  else
    let '(held, order) := cap_loop (capacity s) held order in
    (true, {| accepted_at := <[hash := at_]> held; order := order ++ [(at_, hash)]; capacity := capacity s |}).

Definition hash_insert (s : AcceptedShareHashes) (hash : bytes) (now : Z) := hold s hash now now.
Definition hash_restore (s : AcceptedShareHashes) (hash : bytes) (at_ now : Z) := hold s hash at_ now.
Definition hash_remove (s : AcceptedShareHashes) (hash : bytes) : bool * AcceptedShareHashes :=
  (is_some (accepted_at s !! hash),
   {| accepted_at := delete hash (accepted_at s); order := order s; capacity := capacity s |}).

(** What happens to the hashes: a share claimed, or a claim released because the
    ledger could not record the share. *)
Inductive hash_op := Claim (hash : bytes) (now : Z) | Unclaim (hash : bytes).

Definition run_op (s : AcceptedShareHashes) (op : hash_op) : AcceptedShareHashes :=
  match op with Claim h now => (hash_insert s h now).2 | Unclaim h => (hash_remove s h).2 end.

(** ** Holding a hash

    The hash is held for a time while no later entry could have pushed it out. *)
Definition holds_hash (h : bytes) (t : Z) (k : nat) (s : AcceptedShareHashes) : Prop :=
  accepted_at s !! h = Some t /\
  exists pre post, order s = (pre ++ ((t, h) :: post)) /\ ((t, h) ∉ pre) /\ (length post <= k)%nat.

Lemma forget_other held e t h : e <> (t, h) -> held !! h = Some t -> forget held e !! h = Some t.
Proof.
  intros Hne Hh. unfold forget. case_decide as He; [|done]. destruct e as [t' h']. cbn in *.
  rewrite lookup_delete_ne; [done|]. intros ->. congruence.
Qed.

Lemma expire_loop_keeps now held pre post t h :
  held !! h = Some t -> (t, h) ∉ pre -> now <= sat_add 64 t ACCEPTED_HASH_RETENTION_SECS ->
  exists held' pre', expire_loop now held (pre ++ ((t, h) :: post)) = (held', pre' ++ ((t, h) :: post)) /\
    held' !! h = Some t /\ ((t, h) ∉ pre') /\ (length pre' <= length pre)%nat.
Proof.
  intros Hh Hpre Hnow. revert held Hh. induction pre as [|e pre IH]; intros held Hh; cbn [app expire_loop].
  - cbn [fst]. rewrite (proj2 (Z.leb_le _ _)) by done. exists held, []. split_and!; try done.
  - case_match; [exists held, (e :: pre); by split_and!|].
    apply not_elem_of_cons in Hpre as [Hne Hpre].
    destruct (IH Hpre (forget held e)) as (held' & pre' & -> & ? & ? & ?); [by apply forget_other|].
    exists held', pre'. split_and!; [done..|cbn; lia].
Qed.

Lemma cap_loop_keeps cap held pre post t h :
  held !! h = Some t -> (t, h) ∉ pre -> (S (length post) < cap)%nat ->
  exists held' pre', cap_loop cap held (pre ++ ((t, h) :: post)) = (held', pre' ++ ((t, h) :: post)) /\
    held' !! h = Some t /\ ((t, h) ∉ pre') /\ (length pre' <= length pre)%nat.
Proof.
  intros Hh Hpre Hcap. revert held Hh. induction pre as [|e pre IH]; intros held Hh; cbn [app cap_loop].
  - rewrite (proj2 (Nat.leb_gt _ _)) by (cbn; lia). exists held, []. by split_and!.
  - case_match; [|exists held, (e :: pre); by split_and!].
    apply not_elem_of_cons in Hpre as [Hne Hpre].
    destruct (IH Hpre (forget held e)) as (held' & pre' & -> & ? & ? & ?); [by apply forget_other|].
    exists held', pre'. split_and!; [done..|cbn; lia].
Qed.

(** Another operation leaves the hash held, one entry further from the end
    where it added one. *)
Lemma run_op_holds h t k s op :
  holds_hash h t k s -> (S k < capacity s)%nat -> op <> Unclaim h ->
  (forall h' now, op = Claim h' now -> now <= sat_add 64 t ACCEPTED_HASH_RETENTION_SECS) ->
  holds_hash h t (S k) (run_op s op) /\ capacity (run_op s op) = capacity s.
Proof.
  intros (Hh & pre & post & Hord & Hpre & Hk) Hcap Hun Hnow. destruct op as [h' now|h']; cbn [run_op].
  - specialize (Hnow _ _ eq_refl). unfold hash_insert, hold. rewrite Hord.
    destruct (expire_loop_keeps now _ pre post t h Hh Hpre Hnow) as (held & pre1 & -> & Hh1 & Hpre1 & _).
    destruct (held !! h') as [t'|] eqn:Hh'; cbn [is_some].
    { split; [|done]. split; [done|]. exists pre1, post. split_and!; [done..|lia]. }
    destruct (cap_loop_keeps (capacity s) held pre1 post t h Hh1 Hpre1 ltac:(lia)) as (held2 & pre2 & -> & Hh2 & Hpre2 & _).
    cbn [snd]. split; [|done]. split; cbn [accepted_at order].
    + rewrite lookup_insert_ne; [done|]. intros ->. congruence.
    + exists pre2, (post ++ [(now, h')]). rewrite <- app_assoc. split_and!; [done..|rewrite length_app; cbn; lia].
  - split; [|done]. split; [|exists pre, post; split_and!; [done..|lia]].
    cbn. rewrite lookup_delete_ne; [done|]. by intros ->.
Qed.

Lemma claim_holds s h now :
  (now, h) ∉ order s -> (1 <= capacity s)%nat -> (hash_insert s h now).1 = true ->
  holds_hash h now 0 (hash_insert s h now).2 /\ capacity (hash_insert s h now).2 = capacity s.
Proof.
  intros Hfresh Hcap. unfold hash_insert, hold.
  assert (forall held order, (now, h) ∉ order -> (now, h) ∉ (expire_loop now held order).2) as He.
  { intros held order. revert held. induction order as [|e order IH]; intros held Hn; cbn; [done|].
    case_match; [done|]. apply IH. by apply not_elem_of_cons in Hn as []. }
  assert (forall held order, (now, h) ∉ order -> (now, h) ∉ (cap_loop (capacity s) held order).2) as Hc.
  { intros held order. revert held. induction order as [|e order IH]; intros held Hn; cbn [cap_loop]; [done|].
    case_match; [|done]. apply IH. by apply not_elem_of_cons in Hn as []. }
  specialize (He (accepted_at s) (order s) Hfresh). destruct (expire_loop now _ _) as [held ord].
  destruct (is_some _); [done|]. specialize (Hc held ord He). destruct (cap_loop _ held ord) as [held2 ord2].
  cbn. intros _. split; [|done]. split; [apply lookup_insert_eq|]. exists ord2, []. by split_and!.
Qed.

(** C2: A share is credited once. Once a share's hash is claimed at a time (and
    its claim is not released), then after fewer further operations than the
    capacity, in any order, with the pool's clock stepping either way up to the
    end of the retention, every resend of the share is refused. The one claim
    this leaves out is of a hash claimed and released within that same second,
    whose first entry is still queued: it leaves with that entry, as the code
    says of itself. *)
Theorem share_credited_once (s : AcceptedShareHashes) (h : bytes) (t now : Z) (ops : list hash_op) :
  let s1 := (hash_insert s h t).2 in
  (now <= sat_add 64 t ACCEPTED_HASH_RETENTION_SECS) -> (t, h) ∉ order s ->
  (hash_insert s h t).1 = true -> (S (length ops) < capacity s)%nat ->
  Forall (fun op => op <> Unclaim h /\
    forall h' now', op = Claim h' now' -> now' <= sat_add 64 t ACCEPTED_HASH_RETENTION_SECS) ops ->
  (hash_insert (foldl run_op s1 ops) h now).1 = false.
Proof.
  intros s1 Hnow Hfresh Hclaim Hcap Hops.
  destruct (claim_holds s h t Hfresh ltac:(lia) Hclaim) as [Hhold Hcap1]. fold s1 in Hhold, Hcap1.
  assert (forall k s2, holds_hash h t k s2 -> (S (k + length ops) < capacity s2)%nat ->
    holds_hash h t (k + length ops) (foldl run_op s2 ops) ) as Hrun.
  { clear -Hops. induction Hops as [|op ops [Hun Hop] Hops IH]; intros k s2 Hh Hc; cbn [foldl length].
    - by rewrite Nat.add_0_r.
    - cbn in Hc. destruct (run_op_holds h t k s2 op Hh ltac:(lia) Hun Hop) as [Hh' Hc'].
      rewrite <- Nat.add_succ_comm. apply IH; [done|lia]. }
  destruct (Hrun 0%nat s1 Hhold ltac:(lia)) as (Hh & pre & post & Hord & Hpre & _).
  unfold hash_insert, hold. rewrite Hord.
  destruct (expire_loop_keeps now _ pre post t h Hh Hpre Hnow) as (held & pre1 & -> & Hh1 & _).
  by rewrite Hh1.
Qed.

Lemma share_credited_once_witness :
  (hash_insert (foldl run_op (hash_insert (hashes_new 4) (zeros 32) 1000).2
    [Claim [zb 1] 1005; Claim (zeros 32) 1006]) (zeros 32) 9000).1 = false.
Proof.
  apply (share_credited_once (hashes_new 4) (zeros 32) 1000 9000).
  - vm_compute. discriminate.
  - apply not_elem_of_nil.
  - vm_compute. reflexivity.
  - cbn. lia.
  - apply Forall_cons_2; [|apply Forall_cons_2; [|apply Forall_nil_2]].
    + split; [discriminate|]. intros h' now' [= <- <-]. vm_compute. discriminate.
    + split; [discriminate|]. intros h' now' [= <- <-]. vm_compute. discriminate.
Defined.

(** ** What an unpaid block owes

    The entries of [record_unpaid_outputs]. *)
Definition scale_entries (unpaid : list Payout) (available : Z) : list Payout :=
  let dictated := wrap 64 (sumZ (sats <$> unpaid)) in
  if available <? dictated then
    filter (fun p => 0 < sats p)
      ((fun p => {| payout_identity := payout_identity p;
                    sats := wrap 64 (sats p * available / dictated) |}) <$> unpaid)
  else unpaid.

Definition owed_block (height found_at : Z) (block_hash : bytes) (entries : list Payout) : option OwedBlock :=
  let owed := {| owed_found_at := found_at; owed_height := height; owed_block_hash := block_hash;
                 settled_at := None; owed_entries := entries |} in
  if owed_total owed =? 0 then None else Some owed.

Definition unpaid_owed (fee_bps paid_to_split paid_to_pool height now : Z) (block_hash : bytes)
    (unpaid_outputs : list Payout) : option OwedBlock :=
  let value := sat_add 64 paid_to_split paid_to_pool in
  let fee := fee_on fee_bps value in
  let available := sat_sub paid_to_pool fee in
  owed_block height now block_hash (scale_entries unpaid_outputs available).

(** [record_owed_block]: the coinbase paid the window nothing, so the split of
    what the pool received is owed. [address_script] decodes an identity. *)
Definition window_owed (address_script : bytes -> option bytes) (c : Contents)
    (fee_bps paid_to_pool height now : Z) (block_hash : bytes) : option OwedBlock :=
  owed_block height now block_hash
    (filter (fun p => is_some (address_script (payout_identity p)) = true) (split_of c fee_bps paid_to_pool)).

(** The owed record [record_block] writes, if any. *)
Definition block_owed (address_script : bytes -> option bytes) (c : Contents)
    (fee_bps paid_to_split paid_to_pool height now : Z) (block_hash : bytes)
    (unpaid_outputs : list Payout) : option OwedBlock :=
  if negb (bool_decide (unpaid_outputs = [])) then
    unpaid_owed fee_bps paid_to_split paid_to_pool height now block_hash unpaid_outputs
  else if paid_to_split =? 0 then window_owed address_script c fee_bps paid_to_pool height now block_hash
  else None.

Lemma scaled_sum (l : list Payout) available dictated :
  Forall (fun p => 0 <= sats p) l -> 0 <= available -> 0 < dictated ->
  sumZ ((fun p => sats p * available / dictated) <$> l) * dictated <= sumZ (sats <$> l) * available.
Proof.
  intros Hl Ha Hd. induction Hl as [|p l Hp Hl IH]; [done|]. cbn [fmap list_fmap]. rewrite !sumZ_cons.
  pose proof (Z.mul_div_le (sats p * available) dictated Hd). nia.
Qed.

Lemma sumZ_filter_le (P : Payout -> Prop) `{!forall p, Decision (P p)} l :
  Forall (fun p => 0 <= sats p) l -> sumZ (sats <$> filter P l) <= sumZ (sats <$> l).
Proof.
  induction 1 as [|p l Hp Hl IH]; [done|]. rewrite filter_cons. case_decide; cbn [fmap list_fmap]; rewrite !sumZ_cons; lia.
Qed.

(** What a block leaves owed is covered by what the pool received. When the
    coinbase left dictated outputs out, the amounts recorded as owed add up to
    no more than the pool's payout script received beyond the operator's fee,
    no miner is owed more than the coinbase left out, and nobody the coinbase
    did not leave out is owed anything; a record is written exactly when some
    amount is owed. *)
Theorem owed_is_covered (fee_bps paid_to_split paid_to_pool height now : Z) (hash : bytes)
    (unpaid : list Payout) :
  Forall (fun p => uint 64 (sats p)) unpaid -> sumZ (sats <$> unpaid) < 2 ^ 64 ->
  uint 64 paid_to_pool -> 0 <= fee_on fee_bps (sat_add 64 paid_to_split paid_to_pool) ->
  let available := sat_sub paid_to_pool (fee_on fee_bps (sat_add 64 paid_to_split paid_to_pool)) in
  match unpaid_owed fee_bps paid_to_split paid_to_pool height now hash unpaid with
  | None => sumZ (sats <$> scale_entries unpaid available) = 0
  | Some o => settled_at o = None /\ owed_block_hash o = hash /\
      0 < owed_total o /\ owed_total o = sumZ (sats <$> owed_entries o) /\ owed_total o <= available /\
      Forall (fun e => exists p, p ∈ unpaid /\ payout_identity p = payout_identity e /\ sats e <= sats p)
        (owed_entries o)
  end.
Proof.
  intros Hu Hsum Hpool Hfee available. unfold unpaid_owed. fold available.
  assert (0 <= available) as Ha by (unfold available, sat_sub; lia).
  assert (Forall (fun p => 0 <= sats p) unpaid) as Hnn by (eapply Forall_impl; [exact Hu|]; unfold uint; cbn; lia).
  assert (0 <= sumZ (sats <$> unpaid)) as Hs0 by (by apply sumZ_nonneg, Forall_fmap).
  assert (Forall (fun e => 0 <= sats e /\ exists p, p ∈ unpaid /\ payout_identity p = payout_identity e /\ sats e <= sats p)
    (scale_entries unpaid available) /\
    sumZ (sats <$> scale_entries unpaid available) <= Z.min available (sumZ (sats <$> unpaid))) as [Hent Hle].
  { unfold scale_entries. rewrite (wrap_small 64) by (unfold uint; lia).
    destruct (Z.ltb_spec available (sumZ (sats <$> unpaid))) as [Hlt|Hge].
    - set (d := sumZ (sats <$> unpaid)) in *.
      assert (forall p, uint 64 (sats p) -> 0 <= sats p * available / d <= sats p) as Hdiv.
      { unfold uint. intros p Hp. split; [apply Z.div_pos; nia|]. apply Z.div_le_upper_bound; nia. }
      assert (Forall (fun p => 0 <= sats p) ((fun p => {| payout_identity := payout_identity p;
        sats := wrap 64 (sats p * available / d) |}) <$> unpaid)) as Hsn.
      { apply Forall_fmap, Forall_forall. intros p _. cbn. apply uint_wrap. lia. }
      split.
      + apply Forall_forall. intros e [_ Hin]%list_elem_of_filter.
        apply list_elem_of_fmap in Hin as (p & -> & Hin). eapply Forall_forall in Hu; [|exact Hin]. cbn [sats payout_identity].
        pose proof (Hdiv p Hu). rewrite wrap_small by (unfold uint in *; lia). split; [lia|]. exists p. by split_and!; [| |lia].
      + etransitivity; [by apply sumZ_filter_le|]. rewrite <- list_fmap_compose.
        assert (((sats ∘ (fun p => {| payout_identity := payout_identity p; sats := wrap 64 (sats p * available / d) |}))
          <$> unpaid) = ((fun p => sats p * available / d) <$> unpaid)) as ->.
        { apply list_fmap_ext. intros i p Hi. cbn. eapply Forall_lookup_1 in Hu; [|exact Hi]. pose proof (Hdiv p Hu).
          apply wrap_small. unfold uint in *. lia. }
        pose proof (scaled_sum unpaid available d Hnn Ha ltac:(lia)). fold d in H. nia.
    - split; [|lia]. apply Forall_forall. intros e He. eapply Forall_forall in Hnn as ?; [|exact He].
      split; [done|]. by exists e. }
  set (entries := scale_entries unpaid available) in *.
  assert (0 <= sumZ (sats <$> entries)) as He0.
  { apply sumZ_nonneg, Forall_fmap. eapply Forall_impl; [exact Hent|]. by intros ? []. }
  unfold owed_block, owed_total. cbn [owed_entries]. rewrite (wrap_small 64) by (unfold uint; lia).
  destruct (Z.eqb_spec (sumZ (sats <$> entries)) 0); [done|]. unfold owed_total. cbn [owed_entries settled_at owed_block_hash].
  rewrite (wrap_small 64) by (unfold uint; lia). split_and!; try done; try lia.
  eapply Forall_impl; [exact Hent|]. by intros ? [].
Qed.

Lemma owed_is_covered_witness :
  match unpaid_owed 100 0 1000 840000 5 (zeros 32)
    [{| payout_identity := [zb 97]; sats := 900 |}; {| payout_identity := [zb 98]; sats := 600 |}] with
  | None => False
  | Some o => owed_total o <= 990
  end.
Proof.
  pose proof (owed_is_covered 100 0 1000 840000 5 (zeros 32)
    [{| payout_identity := [zb 97]; sats := 900 |}; {| payout_identity := [zb 98]; sats := 600 |}]) as H.
  destruct (unpaid_owed _ _ _ _ _ _ _) as [o|] eqn:E; [|by vm_compute in E].
  apply H; [repeat constructor; by vm_compute|by vm_compute|by vm_compute|by vm_compute].
Defined.
