(* ===== verification/Blocks.v ===== *)
(** The pool's records of the blocks it found, what they owe and their
    confirmation readings ([prime/src/ledger/blocks.rs]), kept in memory and in
    three tables of the ledger file. The database is the class [KvTable]. *)
From stdpp Require Import sorting.
From S2P Require Import Prelude Reader Utf8 Window Rows.

(** The database's key-value tables: a transaction reads each key's row once. *)
Class KvTable := {
  kv : Type;
  kv_rows : kv -> list (bytes * bytes);
  kv_insert : bytes -> bytes -> kv -> kv;
  kv_remove : bytes -> kv -> kv;
  kv_nodup : forall t, NoDup (kv_rows t).*1;
  kv_insert_spec : forall t k v k2 v2,
    (k2, v2) ∈ kv_rows (kv_insert k v t) <-> (k2 = k /\ v2 = v) \/ (k2 <> k /\ (k2, v2) ∈ kv_rows t);
  kv_remove_spec : forall t k k2 v2,
    (k2, v2) ∈ kv_rows (kv_remove k t) <-> k2 <> k /\ (k2, v2) ∈ kv_rows t;
}.

(** A table for the witnesses: a finite map. *)
#[refine] Definition example_kv : KvTable :=
  {| kv := gmap bytes bytes; kv_rows t := map_to_list t; kv_insert k v t := <[k := v]> t;
     kv_remove k t := delete k t |}.
Proof.
  - intros t. apply NoDup_fst_map_to_list.
  - intros t k v k2 v2. rewrite !elem_of_map_to_list, lookup_insert_Some.
    split; intros [[-> ->]|[? ?]]; auto.
  - intros t k k2 v2. rewrite !elem_of_map_to_list, lookup_delete_Some.
    split; intros [? ?]; auto.
Defined.

#[global] Instance Payout_eq_dec : EqDecision Payout.
Proof. solve_decision. Defined.
#[global] Instance ConfirmationReading_eq_dec : EqDecision ConfirmationReading.
Proof. solve_decision. Defined.

Section records.
Context `{KvTable}.

Record Tables := { blocks_table : kv; owed_table : kv; chain_state_table : kv }.

Record BlockRecords := {
  db : option Tables;
  blocks : list FoundBlock;
  owed : list OwedBlock;
  readings : gmap bytes ConfirmationReading;
}.

Definition block (r : BlockRecords) (hash : bytes) : option FoundBlock :=
  List.find (fun b => bool_decide (found_block_hash b = hash)) (blocks r).

(** [put]: the row written to one table; a ledger with no file writes nothing.
    [commits] is whether the database commits the transaction. *)
Definition put (d : option Tables) (write : Tables -> Tables) (commits : bool) : option (option Tables) :=
  match d with
  | None => Some None
  | Some t => if commits then Some (Some (write t)) else None
  end.

Definition put_block (b : FoundBlock) (t : Tables) : Tables :=
  {| blocks_table := kv_insert (found_block_hash b) (pack_block b) (blocks_table t);
     owed_table := owed_table t; chain_state_table := chain_state_table t |}.
Definition put_owed (o : OwedBlock) (t : Tables) : Tables :=
  {| blocks_table := blocks_table t;
     owed_table := kv_insert (owed_block_hash o) (pack_owed o) (owed_table t);
     chain_state_table := chain_state_table t |}.
Definition put_reading (h : bytes) (c : ConfirmationReading) (t : Tables) : Tables :=
  {| blocks_table := blocks_table t; owed_table := owed_table t;
     chain_state_table := kv_insert h (pack_confirmations c) (chain_state_table t) |}.
Definition remove_rows (h : bytes) (t : Tables) : Tables :=
  {| blocks_table := kv_remove h (blocks_table t); owed_table := kv_remove h (owed_table t);
     chain_state_table := kv_remove h (chain_state_table t) |}.

(** Each operation returns whether it succeeded; an error leaves the records as
    they were. *)
Definition record_block (r : BlockRecords) (b : FoundBlock) (commits : bool) : BlockRecords * bool :=
  if is_some (block r (found_block_hash b)) then (r, true) else
  match put (db r) (put_block b) commits with
  | None => (r, false)
  | Some d => ({| db := d; blocks := blocks r ++ [b]; owed := owed r; readings := readings r |}, true)
  end.

Definition record_confirmations (r : BlockRecords) (hash : bytes) (reading : ConfirmationReading)
    (commits : bool) : BlockRecords * option (option ConfirmationReading) :=
  match put (db r) (put_reading hash reading) commits with
  | None => (r, None)
  | Some d => ({| db := d; blocks := blocks r; owed := owed r; readings := <[hash := reading]> (readings r) |},
               Some (readings r !! hash))
  end.

Definition owed_index (r : BlockRecords) (hash : bytes) : option nat :=
  position (fun o => bool_decide (owed_block_hash o = hash)) (owed r).

Definition record_owed (r : BlockRecords) (o : OwedBlock) (commits : bool) : BlockRecords * bool :=
  if is_some (owed_index r (owed_block_hash o)) then (r, true) else
  match put (db r) (put_owed o) commits with
  | None => (r, false)
  | Some d => ({| db := d; blocks := blocks r; owed := owed r ++ [o]; readings := readings r |}, true)
  end.

Definition settled (o : OwedBlock) (t : Z) : OwedBlock :=
  {| owed_found_at := owed_found_at o; owed_height := owed_height o; owed_block_hash := owed_block_hash o;
     settled_at := Some (Z.max t 1); owed_entries := owed_entries o |}.

(** [Ok(None)], [Ok(Some(owed))] or the error. *)
Definition settle_owed (r : BlockRecords) (hash : bytes) (t : Z) (commits : bool)
    : BlockRecords * option (option OwedBlock) :=
  match owed_index r hash ≫= (fun i => (fun o => (i, o)) <$> owed r !! i) with
  | None => (r, Some None)
  | Some (index, o) =>
    if is_some (settled_at o) then (r, Some (Some o)) else
    match put (db r) (put_owed (settled o t)) commits with
    | None => (r, None)
    | Some d => ({| db := d; blocks := blocks r; owed := <[index := settled o t]> (owed r); readings := readings r |},
                 Some (Some (settled o t)))
    end
  end.

Definition remove_at {A} (i : option nat) (l : list A) : list A :=
  match i with Some i => take i l ++ drop (S i) l | None => l end.

Record Voided := { voided_block : option FoundBlock; voided_owed : option OwedBlock }.

Definition void_block (r : BlockRecords) (hash : bytes) (commits : bool) : BlockRecords * option Voided :=
  let b := position (fun b => bool_decide (found_block_hash b = hash)) (blocks r) in
  let o := owed_index r hash in
  if negb (is_some b) && negb (is_some o) && negb (is_some (readings r !! hash)) then
    (r, Some {| voided_block := None; voided_owed := None |})
  else
    match put (db r) (remove_rows hash) commits with
    | None => (r, None)
    | Some d =>
      ({| db := d; blocks := remove_at b (blocks r); owed := remove_at o (owed r);
          readings := delete hash (readings r) |},
       Some {| voided_block := b ≫= (fun i => blocks r !! i); voided_owed := o ≫= (fun i => owed r !! i) |})
    end.

(** [read_packed]: a row that does not unpack is skipped. *)
Definition read_packed {A} (t : kv) (unpack : bytes -> bytes -> option A) : list A :=
  omap (fun r => unpack r.1 r.2) (kv_rows t).

Definition by_found (found_at height : Z) (f2 h2 : Z) : Prop := found_at < f2 \/ (found_at = f2 /\ height <= h2).

Definition block_before (a b : FoundBlock) : Prop :=
  by_found (block_found_at a) (block_height a) (block_found_at b) (block_height b).
Definition owed_before (a b : OwedBlock) : Prop :=
  by_found (owed_found_at a) (owed_height a) (owed_found_at b) (owed_height b).
#[global] Instance block_before_dec : RelDecision block_before.
Proof. intros a b. unfold block_before, by_found. apply _. Defined.
#[global] Instance owed_before_dec : RelDecision owed_before.
Proof. intros a b. unfold owed_before, by_found. apply _. Defined.

Definition open (t : Tables) : BlockRecords :=
  {| db := Some t; blocks := merge_sort block_before (read_packed (blocks_table t) unpack_block);
     owed := merge_sort owed_before (read_packed (owed_table t) unpack_owed);
     readings := list_to_map (read_packed (chain_state_table t) unpack_confirmations) |}.

(** ** The tables hold what memory does *)

Section table.
Context {A : Type} (key : A -> bytes) (pack : A -> bytes).

Definition table_holds (t : kv) (l : list A) : Prop :=
  NoDup (key <$> l) /\ forall k v, (k, v) ∈ kv_rows t <-> exists a, a ∈ l /\ k = key a /\ v = pack a.

Definition index_of_key (k : bytes) (l : list A) : option nat :=
  position (fun a => bool_decide (key a = k)) l.

Lemma table_insert t l a :
  table_holds t l -> key a ∉ (key <$> l) -> table_holds (kv_insert (key a) (pack a) t) (l ++ [a]).
Proof.
  intros [Hnd Hin] Hfresh. split.
  - rewrite fmap_app. apply NoDup_app. split_and!; [done| |by apply NoDup_singleton].
    intros x Hx [->|Hn]%elem_of_cons; [done|by apply not_elem_of_nil in Hn].
  - intros k v. rewrite kv_insert_spec, Hin. split.
    + intros [[-> ->]|[Hne (b & Hb & -> & ->)]]; [exists a|exists b]; (split; [apply elem_of_app|done]);
        [right; by left|by left].
    + intros (b & [Hb|[->|Hn]%elem_of_cons]%elem_of_app & -> & ->); [right|by left|by apply not_elem_of_nil in Hn].
      split; [|by exists b]. intros Heq. apply Hfresh. rewrite <- Heq. by apply list_elem_of_fmap_2.
Qed.

Lemma nodup_key (l : list A) i j a b : NoDup (key <$> l) -> l !! i = Some a -> l !! j = Some b -> key a = key b -> i = j.
Proof.
  intros Hnd Hi Hj Hk. eapply NoDup_lookup; [exact Hnd| |].
  - by rewrite list_lookup_fmap, Hi.
  - by rewrite list_lookup_fmap, Hj, Hk.
Qed.

Lemma table_update t l i a a' :
  table_holds t l -> l !! i = Some a -> key a' = key a ->
  table_holds (kv_insert (key a') (pack a') t) (<[i := a']> l).
Proof.
  intros [Hnd Hin] Hi Hk. pose proof (lookup_lt_Some _ _ _ Hi) as Hlt.
  assert (key <$> <[i := a']> l = key <$> l) as Hkeys.
  { rewrite list_fmap_insert. rewrite list_insert_id; [done|]. by rewrite list_lookup_fmap, Hi, Hk. }
  split; [by rewrite Hkeys|]. intros k v. rewrite kv_insert_spec, Hin. split.
  - intros [[-> ->]|[Hne (b & Hb & -> & ->)]].
    + exists a'. split; [|done]. eapply list_elem_of_lookup_2. by apply list_lookup_insert_eq.
    + exists b. split; [|done]. apply list_elem_of_lookup_1 in Hb as [j Hj]. apply (list_elem_of_lookup_2 _ j).
      rewrite list_lookup_insert_ne; [done|]. intros ->. congruence.
  - intros (b & Hb & -> & ->). apply list_elem_of_lookup_1 in Hb as [j Hj].
    destruct (decide (i = j)) as [<-|Hij]; [rewrite list_lookup_insert_eq in Hj by done; injection Hj as <-; by left|].
    rewrite list_lookup_insert_ne in Hj by done. right. split.
    + intros Heq. apply Hij. eapply (nodup_key l); try done. by rewrite Heq.
    + exists b. split; [by eapply list_elem_of_lookup_2|done].
Qed.

Lemma index_of_key_None k l : index_of_key k l = None -> k ∉ (key <$> l).
Proof.
  intros H0%position_None (a & -> & Ha)%list_elem_of_fmap. eapply Forall_forall in H0; [|exact Ha].
  by apply bool_decide_eq_false_1 in H0.
Qed.

Lemma remove_at_split (l : list A) i a :
  l !! i = Some a -> exists p q, l = p ++ a :: q /\ remove_at (Some i) l = p ++ q /\ length p = i.
Proof.
  intros Hi. exists (take i l), (drop (S i) l). split_and!; [by rewrite take_drop_middle|done|].
  apply length_take_le. apply lookup_lt_Some in Hi. lia.
Qed.

Lemma remove_at_key l k :
  NoDup (key <$> l) -> NoDup (key <$> remove_at (index_of_key k l) l) /\
  forall a, a ∈ remove_at (index_of_key k l) l <-> a ∈ l /\ key a <> k.
Proof.
  intros Hnd. destruct (index_of_key k l) as [i|] eqn:Hi.
  - destruct (position_Some _ _ _ Hi) as (a & Ha & Hka & _). apply bool_decide_eq_true_1 in Hka. subst k.
    destruct (remove_at_split l i a Ha) as (p & q & -> & -> & _). rewrite fmap_app, fmap_cons in Hnd.
    apply NoDup_app in Hnd as (Hp & Hpq & [Hq Hnq]%NoDup_cons). split.
    + rewrite fmap_app. apply NoDup_app. split_and!; [done| |done]. intros x Hx Hx2. apply (Hpq x Hx). by right.
    + intros b. rewrite !elem_of_app, elem_of_cons. split.
      * intros [Hb|Hb]; (split; [auto|]); intros Heq.
        -- apply (Hpq (key b)); [by apply list_elem_of_fmap_2|rewrite Heq; by left].
        -- apply Hq. rewrite <- Heq. by apply list_elem_of_fmap_2.
      * intros [[?|[->|?]] ?]; auto; done.
  - split; [done|]. cbn. intros a. split; [|by intros []]. intros Ha. split; [done|].
    intros <-. apply index_of_key_None in Hi. apply Hi. by apply list_elem_of_fmap_2.
Qed.

Lemma table_remove t l k :
  table_holds t l -> table_holds (kv_remove k t) (remove_at (index_of_key k l) l) /\
  forall a, a ∈ remove_at (index_of_key k l) l <-> a ∈ l /\ key a <> k.
Proof.
  intros [Hnd Hin]. destruct (remove_at_key l k Hnd) as [Hnd' Hel]. split; [|done]. split; [done|]. intros k2 v. rewrite kv_remove_spec, Hin. split.
  - intros (Hne & a & Ha & -> & ->). exists a. split; [by apply Hel|done].
  - intros (a & [Ha Hne]%Hel & -> & ->). split; [done|by exists a].
Qed.

Lemma read_packed_holds t l (unpack : bytes -> bytes -> option A) :
  table_holds t l -> (forall a, a ∈ l -> unpack (key a) (pack a) = Some a) -> read_packed t unpack ≡ₚ l.
Proof.
  intros [Hnd Hin] Hun.
  assert (forall rows, (forall r, r ∈ rows -> exists a, a ∈ l /\ r.1 = key a /\ r.2 = pack a) ->
    key <$> omap (fun r => unpack r.1 r.2) rows = rows.*1) as Hkeys.
  { induction rows as [|[k v] rows IH]; intros Hr; [done|].
    destruct (Hr (k, v) (list_elem_of_here _ _)) as (a & Ha & Hk & Hv). cbn in Hk, Hv. subst.
    cbn [omap list_omap fst snd]. rewrite Hun by done. cbn [fmap list_fmap]. f_equal. apply IH. intros r Hrr. apply Hr. by right. }
  assert (key <$> read_packed t unpack = (kv_rows t).*1) as Hk.
  { apply Hkeys. intros [k v] Hr. by apply Hin in Hr as (a & ? & ? & ?); exists a. }
  apply NoDup_Permutation; [|by eapply NoDup_fmap_1|].
  - apply (NoDup_fmap_1 key). rewrite Hk. apply kv_nodup.
  - intros a. unfold read_packed. rewrite list_elem_of_omap. split.
    + intros ([k v] & Hr & Hu). apply Hin in Hr as (b & Hb & -> & ->). cbn in Hu. rewrite Hun in Hu by done. by injection Hu as <-.
    + intros Ha. exists (key a, pack a). split; [by apply Hin; exists a|by apply Hun].
Qed.
End table.

(** ** The records through any run of operations *)

#[local] Arguments pack_block : simpl never.
#[local] Arguments pack_owed : simpl never.
#[local] Arguments pack_confirmations : simpl never.

Inductive RecordOp :=
  | OpBlock (b : FoundBlock)
  | OpReading (hash : bytes) (c : ConfirmationReading)
  | OpOwed (o : OwedBlock)
  | OpSettle (hash : bytes) (t : Z)
  | OpVoid (hash : bytes).

(** An operation, and whether the database commits what it writes. *)
Definition run_op (r : BlockRecords) (op : RecordOp * bool) : BlockRecords :=
  match op.1 with
  | OpBlock b => (record_block r b op.2).1
  | OpReading h c => (record_confirmations r h c op.2).1
  | OpOwed o => (record_owed r o op.2).1
  | OpSettle h t => (settle_owed r h t op.2).1
  | OpVoid h => (void_block r h op.2).1
  end.

Definition run_ops (r : BlockRecords) (ops : list (RecordOp * bool)) : BlockRecords := foldl run_op r ops.

Definition reading_wf (h : bytes) (c : ConfirmationReading) : Prop :=
  length h = 32%nat /\ uint 64 (checked_at c) /\ - 2 ^ 63 <= confirmations c < 2 ^ 63.

(** The arguments are values of their types. *)
Definition op_wf (op : RecordOp) : Prop :=
  match op with
  | OpBlock b => block_row_wf b
  | OpReading h c => reading_wf h c
  | OpOwed o => owed_row_wf o
  | OpSettle h t => uint 64 t
  | OpVoid h => True
  end.

Definition no_rows (t : Tables) : Prop :=
  kv_rows (blocks_table t) = [] /\ kv_rows (owed_table t) = [] /\ kv_rows (chain_state_table t) = [].

Definition readings_hold (t : kv) (m : gmap bytes ConfirmationReading) : Prop :=
  forall k v, (k, v) ∈ kv_rows t <-> exists c, m !! k = Some c /\ v = pack_confirmations c.

Record records_ok (r : BlockRecords) (t : Tables) : Prop := {
  rec_db : db r = Some t;
  rec_blocks : table_holds found_block_hash pack_block (blocks_table t) (blocks r);
  rec_owed : table_holds owed_block_hash pack_owed (owed_table t) (owed r);
  rec_readings : readings_hold (chain_state_table t) (readings r);
  rec_blocks_wf : forall b, b ∈ blocks r -> block_row_wf b;
  rec_owed_wf : forall o, o ∈ owed r -> owed_row_wf o;
  rec_readings_wf : forall h c, readings r !! h = Some c -> reading_wf h c;
}.

Lemma owed_index_eq r h : owed_index r h = index_of_key owed_block_hash h (owed r).
Proof. done. Qed.

Lemma block_None r h : block r h = None -> h ∉ (found_block_hash <$> blocks r).
Proof.
  unfold block. intros Hf (b & -> & Hb)%list_elem_of_fmap.
  apply list_elem_of_In in Hb. pose proof (find_none _ _ Hf _ Hb) as Hn. by apply bool_decide_eq_false_1 in Hn.
Qed.

Lemma settled_wf o t : uint 64 t -> owed_row_wf o -> owed_row_wf (settled o t).
Proof.
  intros Ht [? ? ? ? ? ?]. split; try done. intros t' [= <-]. unfold uint in Ht. lia.
Qed.

Lemma elem_snoc {A} (x a : A) l : x ∈ l ++ [a] -> x ∈ l \/ x = a.
Proof. intros [?|[->|Hn]%elem_of_cons]%elem_of_app; [by left|by right|by apply not_elem_of_nil in Hn]. Qed.

Lemma readings_insert t m h c :
  readings_hold t m -> readings_hold (kv_insert h (pack_confirmations c) t) (<[h := c]> m).
Proof.
  intros Hm k v. rewrite kv_insert_spec, (Hm k v). split.
  - intros [[-> ->]|[Hne (c' & ? & ->)]]; [exists c; by rewrite lookup_insert_eq|].
    exists c'. by rewrite lookup_insert_ne.
  - intros (c' & Hc & ->). destruct (decide (k = h)) as [->|Hne].
    + rewrite lookup_insert_eq in Hc. left. by injection Hc as <-.
    + rewrite lookup_insert_ne in Hc by done. right. split; [done|by exists c'].
Qed.

Lemma readings_remove t m h : readings_hold t m -> readings_hold (kv_remove h t) (delete h m).
Proof.
  intros Hm k v. rewrite kv_remove_spec, (Hm k v). split.
  - intros [Hne (c & ? & ->)]. exists c. by rewrite lookup_delete_ne.
  - intros (c & [Hne Hc]%lookup_delete_Some & ->). split; [done|by exists c].
Qed.

(** An operation whose write commits leaves a good state; one that changes
    nothing leaves the one it had. *)
Lemma run_op_ok r t op : records_ok r t -> op_wf op.1 -> exists t', records_ok (run_op r op) t'.
Proof.
  intros [Hdb Hb Ho Hr Hbw How Hrw] Hwf. destruct op as [op commits]. unfold run_op.
  assert (exists t', records_ok r t') as Hsame by (exists t; by split).
  destruct op as [b|h c|o|h s|h]; cbn [fst snd] in *;
    unfold record_block, record_confirmations, record_owed, settle_owed, void_block, put; rewrite ?Hdb.
  - destruct (block r (found_block_hash b)) eqn:E; [done|]. destruct commits; [|done].
    exists (put_block b t). split; cbn; try done.
    + apply table_insert; [done|by apply block_None].
    + intros b' [Hin| ->]%elem_snoc; auto.
  - destruct commits; [|done]. exists (put_reading h c t). split; cbn; try done.
    + by apply readings_insert.
    + intros h' c' [[-> ->]|[_ Hc]]%lookup_insert_Some; auto.
  - destruct (owed_index r (owed_block_hash o)) eqn:E; [done|]. destruct commits; [|done].
    exists (put_owed o t). split; cbn; try done.
    + apply table_insert; [done|by apply index_of_key_None].
    + intros o' [Hin| ->]%elem_snoc; auto.
  - destruct (owed_index r h) as [i|] eqn:E; cbn; [|done]. destruct (owed r !! i) as [o|] eqn:Ei; cbn; [|done].
    destruct (settled_at o); [done|]. destruct commits; [|done].
    exists (put_owed (settled o s) t). split; cbn; try done.
    + exact (table_update owed_block_hash pack_owed _ _ i o (settled o s) Ho Ei eq_refl).
    + intros o' [j Hj]%list_elem_of_lookup_1. destruct (decide (i = j)) as [<-|Hij].
      * rewrite list_lookup_insert_eq in Hj by (by eapply lookup_lt_Some). injection Hj as <-.
        apply settled_wf; [done|]. apply How. by eapply list_elem_of_lookup_2.
      * rewrite list_lookup_insert_ne in Hj by done. apply How. by eapply list_elem_of_lookup_2.
  - destruct (_ && _); [done|]. destruct commits; [|done].
    pose proof (table_remove found_block_hash pack_block _ _ h Hb) as [? Hbel].
    pose proof (table_remove owed_block_hash pack_owed _ _ h Ho) as [? Hoel].
    exists (remove_rows h t). split; cbn; try done.
    + by apply readings_remove.
    + intros b' [? _]%Hbel. auto.
    + intros o' [? _]%Hoel. auto.
    + intros h' c' [_ ?]%lookup_delete_Some. auto.
Qed.

Lemma run_ops_ok ops r t :
  records_ok r t -> Forall (fun op => op_wf op.1) ops -> exists t', records_ok (run_ops r ops) t'.
Proof.
  revert r t. induction ops as [|op ops IH]; intros r t Hr Hwf; [by exists t|].
  inversion Hwf; subst. destruct (run_op_ok r t op Hr) as [t' Ht']; [done|]. by apply (IH _ t').
Qed.

Lemma table_holds_nil {A} (key : A -> bytes) pack t : kv_rows t = [] -> table_holds key pack t [].
Proof.
  intros Ht. split; [apply NoDup_nil_2|]. intros k v. rewrite Ht. split.
  - intros Hn. by apply not_elem_of_nil in Hn.
  - intros (a & Hn & _). by apply not_elem_of_nil in Hn.
Qed.

Lemma open_empty_ok t : no_rows t -> records_ok (open t) t.
Proof.
  intros (Hb & Ho & Hc).
  assert (blocks (open t) = [] /\ owed (open t) = [] /\ readings (open t) = ∅) as (E1 & E2 & E3).
  { unfold open, read_packed. cbn. by rewrite Hb, Ho, Hc. }
  split; rewrite ?E1, ?E2, ?E3; try done.
  - by apply table_holds_nil.
  - by apply table_holds_nil.
  - intros k v. rewrite Hc. split; [intros Hn; by apply not_elem_of_nil in Hn|by intros (c & ? & _)].
  - intros b Hn. by apply not_elem_of_nil in Hn.
  - intros b Hn. by apply not_elem_of_nil in Hn.
Qed.

#[global] Instance block_before_total : Total block_before.
Proof. intros a b. unfold block_before, by_found. lia. Qed.
#[global] Instance owed_before_total : Total owed_before.
Proof. intros a b. unfold owed_before, by_found. lia. Qed.

Lemma open_reads_back r t :
  records_ok r t ->
  blocks (open t) ≡ₚ blocks r /\ owed (open t) ≡ₚ owed r /\ readings (open t) = readings r.
Proof.
  intros [_ Hb Ho Hr Hbw How Hrw]. cbn. split_and!.
  - rewrite merge_sort_Permutation. apply (read_packed_holds found_block_hash pack_block); [done|].
    intros b Hin. by apply unpack_block_pack, Hbw.
  - rewrite merge_sort_Permutation. apply (read_packed_holds owed_block_hash pack_owed); [done|].
    intros o Hin. by apply unpack_owed_pack, How.
  - assert (table_holds fst (fun x => pack_confirmations x.2) (chain_state_table t) (map_to_list (readings r))) as Hh.
    { split; [apply NoDup_fst_map_to_list|]. intros k v. rewrite (Hr k v). split.
      - intros (c & Hc & ->). exists (k, c). split; [by apply elem_of_map_to_list|done].
      - intros ([k' c] & Hc%elem_of_map_to_list & -> & ->). by exists c. }
    assert (read_packed (chain_state_table t) unpack_confirmations ≡ₚ map_to_list (readings r)) as Hp.
    { apply (read_packed_holds _ _ _ _ _ Hh). intros [k c] Hin%elem_of_map_to_list.
      apply Hrw in Hin as (? & ? & ?). by apply unpack_confirmations_pack. }
    rewrite <- (list_to_map_to_list (readings r)). apply list_to_map_proper; [|done].
    rewrite Hp. apply NoDup_fst_map_to_list.
Qed.


(** ** Settling a debt *)

Definition debt (r : BlockRecords) (h : bytes) : option OwedBlock :=
  owed_index r h ≫= (fun i => owed r !! i).

Definition voids (h : bytes) (op : RecordOp) : bool :=
  match op with OpVoid h' => bool_decide (h' = h) | _ => false end.

Lemma keyed_lookup {A} (key : A -> bytes) (l : list A) h a :
  NoDup (key <$> l) -> (index_of_key key h l ≫= (fun i => l !! i)) = Some a <-> a ∈ l /\ key a = h.
Proof.
  intros Hnd. split.
  - destruct (index_of_key key h l) as [i|] eqn:E; cbn; [|done]. intros Hi.
    destruct (position_Some _ _ _ E) as (b & Hb & Hk & _). rewrite Hi in Hb. injection Hb as <-.
    apply bool_decide_eq_true_1 in Hk. split; [by eapply list_elem_of_lookup_2|done].
  - intros [[j Hj]%list_elem_of_lookup_1 Hk]. destruct (index_of_key key h l) as [i|] eqn:E; cbn.
    + destruct (position_Some _ _ _ E) as (b & Hb & Hkb & _). apply bool_decide_eq_true_1 in Hkb.
      assert (i = j) as -> by (eapply (nodup_key key l); try done; congruence). done.
    + apply index_of_key_None in E. destruct E. rewrite <- Hk. apply list_elem_of_fmap_2.
      by eapply list_elem_of_lookup_2.
Qed.

Lemma debt_spec r t h o : records_ok r t -> debt r h = Some o <-> o ∈ owed r /\ owed_block_hash o = h.
Proof. intros Hok. apply keyed_lookup, (rec_owed _ _ Hok). Qed.

Lemma block_eq r h : block r h = index_of_key found_block_hash h (blocks r) ≫= (fun i => blocks r !! i).
Proof.
  unfold block, index_of_key. induction (blocks r) as [|c l IH]; [done|]. cbn.
  destruct (bool_decide _); [done|]. rewrite IH. by destruct (position _ l).
Qed.

Lemma block_spec r t h b : records_ok r t -> block r h = Some b <-> b ∈ blocks r /\ found_block_hash b = h.
Proof.
  intros Hok. rewrite block_eq. apply keyed_lookup, (rec_blocks _ _ Hok).
Qed.

(** An operation that does not void the block leaves a settled debt alone. *)
Lemma run_op_keeps_settled r t op h o :
  records_ok r t -> debt r h = Some o -> is_some (settled_at o) = true -> voids h op.1 = false ->
  o ∈ owed (run_op r op).
Proof.
  intros Hok [Hin Hh]%(debt_spec _ _ _ _ Hok) Hset Hv. destruct op as [op commits]. unfold run_op.
  destruct op as [b|h' c|o'|h' s|h']; cbn [fst snd] in *;
    unfold record_block, record_confirmations, record_owed, settle_owed, void_block.
  - destruct (is_some (block _ _)); [exact Hin|]. destruct (put _ _ _); exact Hin.
  - destruct (put _ _ _); exact Hin.
  - destruct (is_some (owed_index _ _)); [exact Hin|]. destruct (put _ _ _); [|exact Hin]. apply elem_of_app. by left.
  - destruct (owed_index r h') as [i|] eqn:E; cbn; [|exact Hin]. destruct (owed r !! i) as [o2|] eqn:Ei; cbn; [|exact Hin].
    destruct (is_some (settled_at o2)) eqn:Es; [exact Hin|]. destruct (put _ _ _); [|exact Hin]. cbn.
    apply list_elem_of_lookup_1 in Hin as [j Hj]. apply (list_elem_of_lookup_2 _ j).
    rewrite list_lookup_insert_ne; [done|]. intros ->. congruence.
  - destruct (_ && _); [exact Hin|]. destruct (put _ _ _); [|exact Hin]. cbn.
    apply (table_remove owed_block_hash pack_owed _ _ h' (rec_owed _ _ Hok)). split; [done|].
    apply bool_decide_eq_false_1 in Hv. congruence.
Qed.

Lemma run_ops_keeps_settled ops r t h o :
  records_ok r t -> Forall (fun op => op_wf op.1) ops -> Forall (fun op => voids h op.1 = false) ops ->
  debt r h = Some o -> is_some (settled_at o) = true -> debt (run_ops r ops) h = Some o.
Proof.
  revert r t. induction ops as [|op ops IH]; intros r t Hok Hwf Hv Hd Hs; [done|].
  inversion Hwf; inversion Hv; subst. destruct (run_op_ok r t op Hok) as [t' Hok']; [done|].
  apply (IH _ t'); try done. apply (debt_spec _ t'); [done|]. split.
  - by eapply run_op_keeps_settled.
  - by apply (debt_spec _ _ _ _ Hok) in Hd as [_ ?].
Qed.

Lemma settle_returns r t h s r' o :
  records_ok r t -> uint 64 s -> settle_owed r h s true = (r', Some (Some o)) ->
  debt r' h = Some o /\
  exists o1, debt r h = Some o1 /\ o = (if is_some (settled_at o1) then o1 else settled o1 s).
Proof.
  intros Hok Hs Heq. pose proof Heq as Hrun.
  assert (exists t', records_ok r' t') as [t' Hok'].
  { replace r' with (run_op r (OpSettle h s, true)) by (cbn; by rewrite Heq). by apply (run_op_ok r t). }
  unfold settle_owed in Heq. unfold debt at 2. destruct (owed_index r h) as [i|] eqn:E; cbn in Heq |- *; [|by injection Heq].
  destruct (owed r !! i) as [o1|] eqn:Ei; cbn in Heq |- *; [|by injection Heq].
  assert (debt r h = Some o1) as [Hin1 Hk1]%(debt_spec _ _ _ _ Hok) by (unfold debt; by rewrite E).
  destruct (is_some (settled_at o1)) eqn:Es.
  - injection Heq as <- <-. split; [by apply (debt_spec _ _ _ _ Hok)|]. exists o1. by rewrite Es.
  - destruct (put _ _ _) as [d|]; [|by injection Heq]. injection Heq as <- <-. split.
    + apply (debt_spec _ _ _ _ Hok'). split; [|done]. cbn. apply (list_elem_of_lookup_2 _ i).
      apply list_lookup_insert_eq. by eapply lookup_lt_Some.
    + exists o1. by rewrite Es.
Qed.

(** A debt is settled once. On records reached by any sequence of
    operations, settling the debt of a block stamps it with the time given, at
    least 1, unless it was settled before, when it keeps the time it had. After
    that, through any operations that do not void that block, failed writes
    included, the debt stays as it was settled: settling it again at any time
    returns it and changes nothing, and a restart reads it back. *)
Theorem settlement_is_final (t0 : Tables) (before after : list (RecordOp * bool)) (h : bytes) (s s2 : Z)
    (commits : bool) (r1 : BlockRecords) (o : OwedBlock) :
  no_rows t0 -> Forall (fun op => op_wf op.1) (before ++ after) -> uint 64 s ->
  settle_owed (run_ops (open t0) before) h s true = (r1, Some (Some o)) ->
  Forall (fun op => voids h op.1 = false) after ->
  (exists o1, debt (run_ops (open t0) before) h = Some o1 /\
     settled_at o = (if is_some (settled_at o1) then settled_at o1 else Some (Z.max s 1)) /\
     owed_entries o = owed_entries o1) /\
  let r2 := run_ops r1 after in
  settle_owed r2 h s2 commits = (r2, Some (Some o)) /\
  exists t, db r2 = Some t /\ o ∈ owed (open t).
Proof.
  intros H0 [Hbw Haw]%Forall_app Hs Hset Hv.
  destruct (run_ops_ok before _ _ (open_empty_ok _ H0) Hbw) as [t Hok].
  destruct (settle_returns _ _ _ _ _ _ Hok Hs Hset) as (Hd & o1 & Hd1 & Ho).
  assert (is_some (settled_at o) = true) as Hsome by (rewrite Ho; by destruct (is_some (settled_at o1)) eqn:E).
  split; [exists o1; rewrite Ho; by destruct (is_some (settled_at o1))|].
  assert (exists t1, records_ok r1 t1) as [t1 Hok1].
  { replace r1 with (run_op (run_ops (open t0) before) (OpSettle h s, true)) by (cbn; by rewrite Hset).
    by apply (run_op_ok _ t). }
  intros r2. destruct (run_ops_ok after _ _ Hok1 Haw) as [t2 Hok2].
  pose proof (run_ops_keeps_settled after _ _ _ _ Hok1 Haw Hv Hd Hsome) as Hd2. fold r2 in Hok2, Hd2. split.
  - unfold settle_owed. unfold debt in Hd2. destruct (owed_index r2 h) as [i|]; [|done]. cbn in Hd2 |- *.
    rewrite Hd2. cbn. by rewrite Hsome.
  - exists t2. split; [apply Hok2|]. rewrite (proj1 (proj2 (open_reads_back _ _ Hok2))).
    by apply (debt_spec _ _ _ _ Hok2) in Hd2 as [? _].
Qed.

(** What a void that commits leaves, whether or not it had anything to remove. *)
Lemma void_block_removes r t h :
  records_ok r t -> exists r', void_block r h true =
    (r', Some {| voided_block := block r h; voided_owed := debt r h |}) /\
    blocks r' = remove_at (index_of_key found_block_hash h (blocks r)) (blocks r) /\
    owed r' = remove_at (index_of_key owed_block_hash h (owed r)) (owed r) /\
    readings r' = delete h (readings r).
Proof.
  intros Hok. unfold void_block. rewrite block_eq, owed_index_eq. unfold debt. rewrite owed_index_eq.
  change (position _ (blocks r)) with (index_of_key found_block_hash h (blocks r)).
  destruct (index_of_key found_block_hash h (blocks r)) as [i|] eqn:Eb;
    destruct (index_of_key owed_block_hash h (owed r)) as [j|] eqn:Eo; cbn [is_some negb andb];
    try (unfold put; rewrite (rec_db _ _ Hok); by eexists).
  destruct (readings r !! h) eqn:Er; cbn [is_some negb]; [unfold put; rewrite (rec_db _ _ Hok); by eexists|].
  exists r. by rewrite delete_id.
Qed.

Lemma void_leaves {A} (key : A -> bytes) (P : bytes -> option A) (P' : bytes -> option A) (l l' : list A) h :
  (forall k a, P k = Some a <-> a ∈ l /\ key a = k) -> (forall k a, P' k = Some a <-> a ∈ l' /\ key a = k) ->
  (forall a, a ∈ l' <-> a ∈ l /\ key a <> h) ->
  forall k, P' k = (if bool_decide (k = h) then None else P k).
Proof.
  intros HP HP' Hl k. apply option_eq. intros a. rewrite HP', Hl. case_bool_decide as Hk.
  - split; [|done]. intros [[_ ?] ?]. congruence.
  - rewrite HP. split; [intros [[? _] ?]; done|]. intros [? ?]. split; [split; [done|congruence]|done].
Qed.

(** Voiding a block forgets it. On records reached by any sequence of
    operations, a void that commits returns the block and the debt recorded
    under the hash, and leaves no block, no debt and no reading of it, in memory
    or after a restart, while the block, debt and reading of every other hash
    stay as they were. *)
Theorem void_forgets_only_the_block (t0 : Tables) (ops : list (RecordOp * bool)) (h : bytes) :
  no_rows t0 -> Forall (fun op => op_wf op.1) ops ->
  let r := run_ops (open t0) ops in
  exists r' t, void_block r h true =
    (r', Some {| voided_block := block r h; voided_owed := debt r h |}) /\
    db r' = Some t /\
    (forall b, b ∈ blocks (open t) <-> b ∈ blocks r /\ found_block_hash b <> h) /\
    (forall o, o ∈ owed (open t) <-> o ∈ owed r /\ owed_block_hash o <> h) /\
    readings (open t) = delete h (readings r) /\
    forall h2, block r' h2 = (if bool_decide (h2 = h) then None else block r h2) /\
               debt r' h2 = (if bool_decide (h2 = h) then None else debt r h2) /\
               readings r' !! h2 = (if bool_decide (h2 = h) then None else readings r !! h2).
Proof.
  intros H0 Hwf r. destruct (run_ops_ok ops _ _ (open_empty_ok _ H0) Hwf) as [t Hok]. fold r in Hok.
  destruct (void_block_removes r t h Hok) as (r' & Hvoid & Hb & Ho & Hr).
  destruct (run_op_ok r t (OpVoid h, true) Hok) as [t' Hok']; [done|].
  unfold run_op in Hok'. cbn [fst snd] in Hok'. rewrite Hvoid in Hok'. cbn [fst] in Hok'.
  destruct (open_reads_back _ _ Hok') as (Hob & Hoo & Hor).
  destruct (table_remove _ _ _ _ h (rec_blocks _ _ Hok)) as [_ Hbel].
  destruct (table_remove _ _ _ _ h (rec_owed _ _ Hok)) as [_ Hoel]. rewrite <- Hb in Hbel. rewrite <- Ho in Hoel.
  exists r', t'. split_and!; [done|apply Hok'| | | |].
  - intros b. by rewrite Hob.
  - intros o. by rewrite Hoo.
  - by rewrite Hor.
  - intros h2. split_and!.
    + apply (void_leaves found_block_hash _ _ (blocks r) (blocks r')); [|intros; by eapply block_spec|done].
      intros; by eapply block_spec.
    + apply (void_leaves owed_block_hash _ _ (owed r) (owed r')); [|intros; by eapply debt_spec|done].
      intros; by eapply debt_spec.
    + rewrite Hr. case_bool_decide; [subst; by apply lookup_delete_eq|by apply lookup_delete_ne].
Qed.
End records.

(** ** A run on a concrete table *)

#[local] Existing Instance example_kv.

Definition example_tables : Tables :=
  {| blocks_table := (∅ : gmap bytes bytes); owed_table := (∅ : gmap bytes bytes);
     chain_state_table := (∅ : gmap bytes bytes) |}.

Definition example_before : list (RecordOp * bool) :=
  [(OpBlock example_block, true); (OpOwed {| owed_found_at := 1; owed_height := 2; owed_block_hash := zeros 32;
      settled_at := None; owed_entries := [] |}, true);
   (OpReading (zeros 32) {| checked_at := 5; confirmations := -1 |}, false)].

Definition example_after : list (RecordOp * bool) :=
  [(OpReading (zeros 32) {| checked_at := 9; confirmations := NOT_STORED |}, true); (OpSettle (zeros 32) 8, true);
   (OpVoid (replicate 32 (zb 1)), true)].

Lemma example_tables_empty : no_rows example_tables.
Proof. by vm_compute. Qed.

Lemma example_before_wf : Forall (fun op => op_wf op.1) example_before.
Proof.
  apply Forall_cons_2; [exact example_block_wf|]. apply Forall_cons_2; [|apply Forall_cons_2; [|apply Forall_nil_2]].
  - split; [by vm_compute..|done|by vm_compute|apply Forall_nil_2].
  - by vm_compute.
Qed.

Lemma example_after_wf : Forall (fun op => op_wf op.1) example_after.
Proof. repeat (apply Forall_cons_2; [by vm_compute|]). apply Forall_nil_2. Qed.


Definition example_settled : BlockRecords * option (option OwedBlock) :=
  settle_owed (run_ops (open example_tables) example_before) (zeros 32) 0 true.

Definition example_settled_debt : OwedBlock :=
  {| owed_found_at := 1; owed_height := 2; owed_block_hash := zeros 32; settled_at := Some 1; owed_entries := [] |}.

Lemma example_settled_eq : example_settled.2 = Some (Some example_settled_debt).
Proof. by vm_compute. Qed.

Lemma settlement_is_final_witness :
  settled_at example_settled_debt = Some 1 /\
  let r2 := run_ops example_settled.1 example_after in
  settle_owed r2 (zeros 32) 7 true = (r2, Some (Some example_settled_debt)).
Proof.
  destruct (settlement_is_final example_tables example_before example_after (zeros 32) 0 7 true example_settled.1
    example_settled_debt) as [_ [H _]].
  - exact example_tables_empty.
  - exact (Forall_app_2 _ _ _ example_before_wf example_after_wf).
  - by vm_compute.
  - rewrite <- example_settled_eq. apply surjective_pairing.
  - repeat (apply Forall_cons_2; [vm_compute; reflexivity|]). apply Forall_nil_2.
  - split; [reflexivity|exact H].
Defined.

Lemma void_forgets_only_the_block_witness :
  let r := run_ops (open example_tables) example_before in
  exists r' t, void_block r (zeros 32) true =
    (r', Some {| voided_block := Some example_block; voided_owed := debt r (zeros 32) |}) /\
    db r' = Some t /\ forall b, b ∈ blocks (open t) <-> b ∈ [example_block] /\ found_block_hash b <> zeros 32.
Proof.
  intros r. destruct (void_forgets_only_the_block example_tables example_before (zeros 32) example_tables_empty
    example_before_wf) as (r' & t & Hv & Hdb & Hb & _).
  exists r', t. split; [exact Hv|split; [exact Hdb|exact Hb]].
Defined.
