(* ===== verification/Confirmations.v ===== *)
(** The passes that re-read the confirmations of the blocks the pool found
    ([prime/src/confirmations.rs]), over the records of [Blocks]. A pass lets go of
    the records while it asks the node, so other threads work on them in between:
    what they do is part of a pass. *)
From stdpp Require Import sorting.
From S2P Require Import Prelude.
From S2P Require Import Window Rows Blocks.

Section confirmations.
Context `{KvTable}.

Definition CONFIRMED_DEPTH : Z := 100.
Definition MAX_PER_PASS : nat := 32.

Definition on_best_chain (r : ConfirmationReading) : bool := 0 <=? confirmations r.

(** [None] orders before every [Some]. *)
Definition key_le (a b : option Z) : Prop :=
  match a, b with
  | None, _ => True
  | Some _, None => False
  | Some a, Some b => a <= b
  end.
#[global] Instance key_le_dec : RelDecision key_le.
Proof. intros [a|] [b|]; cbn; apply _. Defined.

Definition entry_le (a b : option Z * bytes) : Prop := key_le a.1 b.1.
#[global] Instance entry_le_dec : RelDecision entry_le.
Proof. intros a b. unfold entry_le. apply _. Defined.

Definition due_entry (r : BlockRecords) (b : FoundBlock) : option (option Z * bytes) :=
  match readings r !! found_block_hash b with
  | None => Some (None, found_block_hash b)
  | Some s =>
    if confirmations s <? CONFIRMED_DEPTH then Some (Some (checked_at s), found_block_hash b) else None
  end.

Definition due_entries (r : BlockRecords) : list (option Z * bytes) := omap (due_entry r) (blocks r).

Definition due (r : BlockRecords) : list bytes :=
  snd <$> take MAX_PER_PASS (merge_sort entry_le (due_entries r)).

(** ** What a reading says of its block *)

Inductive OffChain := NotOnBestChain (confirmations : Z) | NotStored.

Definition off_chain_text (state : ConfirmationReading) : OffChain :=
  if node_stores_block state then NotOnBestChain (confirmations state) else NotStored.

Inductive OwedNote :=
| AlreadySettled (total miners : Z)
| NotOwed (total miners : Z)
| NoDebt.

Definition owed_note (owed : option OwedBlock) : OwedNote :=
  match owed with
  | Some o =>
    if is_some (settled_at o) then AlreadySettled (owed_total o) (zlen (owed_entries o))
    else NotOwed (owed_total o) (zlen (owed_entries o))
  | None => NoDebt
  end.

(** The lines written to the log: at level info, error and warning. *)
Inductive Report :=
| BackOnBestChain (confirmations : Z)
| LeftBestChain (text : OffChain) (note : OwedNote)
| StillOffChain (text : OffChain).

Definition was_on_chain (previous : option ConfirmationReading) : bool :=
  match previous with None => true | Some p => on_best_chain p end.

Definition report (state : ConfirmationReading) (previous : option ConfirmationReading)
    (owed : option OwedBlock) : option Report :=
  if on_best_chain state then
    if negb (was_on_chain previous) then Some (BackOnBestChain (confirmations state)) else None
  else if was_on_chain previous then Some (LeftBestChain (off_chain_text state) (owed_note owed))
  else if match previous with
          | Some p => negb (eqb (node_stores_block p) (node_stores_block state))
          | None => false
          end
  then Some (StillOffChain (off_chain_text state))
  else None.

(** ** A pass

    [before] is what other threads do between the last pass and this one,
    [during] what they do while the node is asked about a block; [node] is its
    answer, [None] when the read fails, and [commits] whether the database commits
    the reading. *)
Record Pass := {
  pass_now : Z;
  before : list (RecordOp * bool);
  during : bytes -> list (RecordOp * bool);
  node : bytes -> option (option Z);
  commits : bytes -> bool;
}.

Definition owed_for (r : BlockRecords) (hash : bytes) : option OwedBlock :=
  List.find (fun o => bool_decide (owed_block_hash o = hash)) (owed r).

Definition check_block (p : Pass) (s : BlockRecords * list (bytes * Report)) (hash : bytes)
    : BlockRecords * list (bytes * Report) :=
  let '(r, log) := s in
  let r := run_ops r (during p hash) in
  match node p hash with
  | None => (r, log)
  | Some answer =>
    let state := {| checked_at := pass_now p; confirmations := default NOT_STORED answer |} in
    if negb (is_some (block r hash)) then (r, log) else
    match record_confirmations r hash state (commits p hash) with
    | (r, None) => (r, log)
    | (r, Some previous) =>
      (r, log ++ match report state previous (owed_for r hash) with Some e => [(hash, e)] | None => [] end)
    end
  end.

Definition check_blocks (s : BlockRecords * list (bytes * Report)) (p : Pass)
    : BlockRecords * list (bytes * Report) :=
  let '(r, log) := s in
  let r := run_ops r (before p) in
  foldl (check_block p) (r, log) (due r).

Definition run_passes (r : BlockRecords) (passes : list Pass) : BlockRecords * list (bytes * Report) :=
  foldl check_blocks (r, []) passes.

(** ** The order in which blocks are due *)

#[global] Instance entry_le_trans : Transitive entry_le.
Proof. intros [[a|] x] [[b|] y] [[c|] z]; unfold entry_le; cbn; solve [done|lia]. Qed.
#[global] Instance entry_le_total : Total entry_le.
Proof. intros [[a|] x] [[b|] y]; unfold entry_le; cbn; try (by left); try (by right). lia. Qed.

(** The order a block is read by, and whether it is under the depth. *)
Definition read_key (r : BlockRecords) (h : bytes) : option Z := checked_at <$> readings r !! h.
Definition under_depth (r : BlockRecords) (h : bytes) : Prop :=
  match readings r !! h with None => True | Some s => confirmations s < CONFIRMED_DEPTH end.

Definition distinct (r : BlockRecords) : Prop := NoDup (found_block_hash <$> blocks r).
Definition recorded (r : BlockRecords) (h : bytes) : Prop := h ∈ found_block_hash <$> blocks r.

Lemma block_Some r h : is_some (block r h) = true <-> recorded r h.
Proof.
  unfold block, recorded. split.
  - destruct (List.find _ _) as [b|] eqn:Hf; [|done]. intros _. apply find_some in Hf as [Hb Hh].
    apply bool_decide_eq_true_1 in Hh as <-. apply list_elem_of_In in Hb. by apply list_elem_of_fmap_2.
  - intros Hin. destruct (List.find _ _) as [b|] eqn:Hf; [done|]. exfalso. revert Hin. by apply block_None.
Qed.

Lemma due_entry_spec r b e :
  due_entry r b = Some e <->
  e = (read_key r (found_block_hash b), found_block_hash b) /\ under_depth r (found_block_hash b).
Proof.
  unfold due_entry, read_key, under_depth. destruct (readings r !! found_block_hash b) as [s|]; cbn; [|naive_solver].
  destruct (Z.ltb_spec (confirmations s) CONFIRMED_DEPTH); split; try naive_solver. intros [_ ?]. lia.
Qed.

Lemma due_entries_spec r k h :
  (k, h) ∈ due_entries r <-> recorded r h /\ k = read_key r h /\ under_depth r h.
Proof.
  unfold due_entries, recorded. rewrite list_elem_of_omap, list_elem_of_fmap. split.
  - intros (b & Hb & [[= -> ->] Hd]%due_entry_spec). split_and!; try done. by exists b.
  - intros ((b & -> & Hb) & -> & Hd). exists b. split; [done|]. by apply due_entry_spec.
Qed.

Lemma due_entries_nodup r : distinct r -> NoDup (due_entries r).*2.
Proof.
  unfold distinct, due_entries. induction (blocks r) as [|b l IH]; intros Hnd; [constructor|].
  cbn in Hnd. apply NoDup_cons in Hnd as [Hb Hnd]. cbn [omap list_omap].
  destruct (due_entry r b) as [e|] eqn:He; [|by apply IH]. cbn [fmap list_fmap]. apply NoDup_cons. split; [|by apply IH].
  apply due_entry_spec in He as [-> _]. cbn. intros ([k h] & Hh & Hin)%list_elem_of_fmap. apply Hb.
  apply list_elem_of_omap in Hin as (b2 & Hb2 & [[= -> ->] _]%due_entry_spec). cbn in Hh. rewrite Hh.
  by apply list_elem_of_fmap_2.
Qed.

Lemma due_sublist r : exists l, merge_sort entry_le (due_entries r) = take MAX_PER_PASS (merge_sort entry_le (due_entries r)) ++ l /\
  due_entries r ≡ₚ take MAX_PER_PASS (merge_sort entry_le (due_entries r)) ++ l.
Proof.
  exists (drop MAX_PER_PASS (merge_sort entry_le (due_entries r))). rewrite take_drop. split; [done|].
  by rewrite merge_sort_Permutation.
Qed.

Lemma due_nodup r : distinct r -> NoDup (due r).
Proof.
  intros Hd%due_entries_nodup. destruct (due_sublist r) as (l & _ & Hp). rewrite Hp, fmap_app in Hd.
  by apply NoDup_app in Hd as [? _].
Qed.

Lemma due_recorded r h : h ∈ due r -> recorded r h /\ under_depth r h.
Proof.
  unfold due. intros ([k x] & -> & Hin)%list_elem_of_fmap. destruct (due_sublist r) as (l & _ & Hp).
  assert ((k, x) ∈ due_entries r) as (?&?&?)%due_entries_spec by (rewrite Hp; apply elem_of_app; by left). done.
Qed.

(** A block under the depth is read this pass, or a full pass goes to blocks
    due before it. *)
Lemma due_or_full r h :
  distinct r -> recorded r h -> under_depth r h ->
  h ∈ due r \/
  (length (due r) = MAX_PER_PASS /\
   Forall (fun x => x <> h /\ key_le (read_key r x) (read_key r h)) (due r)).
Proof.
  intros Hd Hr Hu. set (s := merge_sort entry_le (due_entries r)). pose proof (due_entries_nodup r Hd) as Hnd.
  assert (s ≡ₚ due_entries r) as Hp by apply merge_sort_Permutation.
  assert ((read_key r h, h) ∈ take MAX_PER_PASS s ++ drop MAX_PER_PASS s) as [Hin|Hin]%elem_of_app.
  { rewrite take_drop, Hp. by apply due_entries_spec. }
  - left. by apply (list_elem_of_fmap_2 snd) in Hin.
  - right. split.
    + unfold due. fold s. rewrite length_fmap, length_take. apply list_elem_of_lookup_1 in Hin as [i Hi].
      apply lookup_lt_Some in Hi. rewrite length_drop in Hi. lia.
    + apply Forall_forall. unfold due. fold s. intros x ([k y] & -> & Hx)%list_elem_of_fmap. cbn.
      assert ((k, y) ∈ due_entries r) as (_ & -> & _)%due_entries_spec by (rewrite <- Hp, <- (take_drop MAX_PER_PASS s); apply elem_of_app; by left).
      split.
      * intros ->. rewrite <- Hp, <- (take_drop MAX_PER_PASS s), fmap_app in Hnd. apply NoDup_app in Hnd as (_ & Hnd & _).
        eapply Hnd; [apply (list_elem_of_fmap_2 snd); exact Hx|apply (list_elem_of_fmap_2 snd); exact Hin].
      * assert (StronglySorted entry_le s) as Hs by (apply Sorted_StronglySorted, Sorted_merge_sort; apply _).
        rewrite <- (take_drop MAX_PER_PASS s) in Hs.
        eapply (StronglySorted_app_1_elem_of _ _ _ _ _ Hs Hx Hin).
Qed.

(** ** What other threads do to the order *)

(** Only the passes record readings, so other threads record, owe, settle and void. *)
Definition foreign (op : RecordOp) : bool := match op with OpReading _ _ => false | _ => true end.
Definition found (ops : list (RecordOp * bool)) : nat :=
  length (filter (fun op => match op.1 with OpBlock _ => true | _ => false end = true) ops).

(** The blocks due before [h], those in [skip] left out. *)
Definition is_before (r : BlockRecords) (h : bytes) (key : option Z) (skip : list bytes) (x : bytes) : Prop :=
  under_depth r x /\ x <> h /\ key_le (read_key r x) key /\ x ∉ skip.
#[global] Instance under_depth_dec r h : Decision (under_depth r h).
Proof. unfold under_depth. destruct (readings r !! h); apply _. Defined.
#[global] Instance is_before_dec r h key skip x : Decision (is_before r h key skip x).
Proof. unfold is_before. apply _. Defined.
Definition ahead (r : BlockRecords) (h : bytes) (key : option Z) (skip : list bytes) : nat :=
  length (filter (is_before r h key skip) (found_block_hash <$> blocks r)).

Lemma filter_length_le {A} (P Q : A -> Prop) `{!forall x, Decision (P x)} `{!forall x, Decision (Q x)} (l k : list A) :
  NoDup l -> (forall x, x ∈ l -> P x -> x ∈ k /\ Q x) -> (length (filter P l) <= length (filter Q k))%nat.
Proof.
  intros Hl Himp. apply submseteq_length. apply NoDup_submseteq; [by apply NoDup_filter|].
  intros x [HP Hx]%list_elem_of_filter. apply list_elem_of_filter. naive_solver.
Qed.

Lemma distinct_snoc r b : distinct r -> is_some (block r (found_block_hash b)) = false ->
  NoDup (found_block_hash <$> blocks r ++ [b]).
Proof.
  intros Hd Hb. rewrite fmap_app. apply NoDup_app. split_and!; [done| |apply NoDup_singleton].
  intros x Hx ->%list_elem_of_singleton. by apply block_Some in Hx; rewrite Hb in Hx.
Qed.

Lemma remove_at_spec r h :
  distinct r ->
  NoDup (found_block_hash <$> remove_at (index_of_key found_block_hash h (blocks r)) (blocks r)) /\
  forall x, x ∈ found_block_hash <$> remove_at (index_of_key found_block_hash h (blocks r)) (blocks r) <->
    recorded r x /\ x <> h.
Proof.
  unfold distinct, recorded. intros Hd. destruct (index_of_key found_block_hash h (blocks r)) as [i|] eqn:Hi.
  - destruct (position_Some _ _ _ Hi) as (a & Ha & Hka & _). apply bool_decide_eq_true_1 in Hka. subst h.
    destruct (remove_at_split _ i a Ha) as (p & q & Hpq & -> & _). rewrite Hpq in Hd |- *.
    rewrite !fmap_app, fmap_cons in *. apply NoDup_app in Hd as (Hp & Hdis & [Hq Hnq]%NoDup_cons). split.
    + apply NoDup_app. split_and!; [done| |done]. intros x Hx Hx2. apply (Hdis x Hx). by right.
    + intros x. rewrite !elem_of_app, elem_of_cons. specialize (Hdis x). set_solver.
  - cbn. split; [done|]. apply index_of_key_None in Hi. intros x. split; [|by intros []]. intros Hx.
    split; [done|]. by intros ->.
Qed.

(** What a step of another thread leaves of the blocks, and that the readings of
    those left are what they were. *)
Record foreign_spec (r : BlockRecords) (op : RecordOp * bool) (r' : BlockRecords) : Prop := {
  foreign_distinct : distinct r';
  foreign_readings : forall x, recorded r' x -> readings r' !! x = readings r !! x;
  foreign_recorded : forall x, recorded r x -> voids x op.1 = false -> recorded r' x;
  foreign_fresh : exists fresh, (length fresh <= found [op])%nat /\
    forall x, recorded r' x -> recorded r x \/ x ∈ fresh;
}.

Lemma foreign_same r op r' : distinct r -> blocks r' = blocks r -> readings r' = readings r -> foreign_spec r op r'.
Proof.
  unfold distinct, recorded. intros Hd Hb Hr. split; unfold distinct, recorded; rewrite ?Hb, ?Hr; try done.
  exists []. split; [cbn; lia|auto].
Qed.

Lemma foreign_step r op : distinct r -> foreign op.1 = true -> foreign_spec r op (run_op r op).
Proof.
  intros Hd Hf. destruct op as [[b|h c|o|h t|h] ok]; [|done| | |]; unfold run_op; cbn [fst snd].
  - unfold record_block. destruct (is_some (block r (found_block_hash b))) eqn:Hb; [by apply foreign_same|].
    destruct (put (db r) (put_block b) ok) as [d|]; [|by apply foreign_same].
    split; [by apply distinct_snoc|done| |].
    + intros x Hx _. unfold recorded. cbn [fst blocks]. rewrite fmap_app. apply elem_of_app. by left.
    + exists [found_block_hash b]. split; [done|]. intros x. unfold recorded. cbn [fst blocks].
      rewrite fmap_app, elem_of_app. intros [?|?]; auto.
  - unfold record_owed. destruct (is_some _); [by apply foreign_same|]. destruct (put _ _ ok); by apply foreign_same.
  - unfold settle_owed. destruct (owed_index r h ≫= _) as [[i o]|]; [|by apply foreign_same].
    destruct (is_some _); [by apply foreign_same|]. destruct (put _ _ ok); by apply foreign_same.
  - unfold void_block. destruct (_ && _); [by apply foreign_same|]. destruct (put _ _ ok); [|by apply foreign_same].
    destruct (remove_at_spec r h Hd) as [Hnd Hel]. split; [exact Hnd| | |].
    + intros x [_ Hx]%Hel. cbn. by rewrite lookup_delete_ne.
    + intros x Hx Hv. apply Hel. split; [done|]. intros ->. cbn in Hv. by rewrite bool_decide_eq_true_2 in Hv.
    + exists []. split; [cbn; lia|]. intros x [? _]%Hel. auto.
Qed.

Lemma is_before_readings r r' h key skip x :
  readings r' !! x = readings r !! x -> is_before r' h key skip x -> is_before r h key skip x.
Proof. unfold is_before, under_depth, read_key. by intros ->. Qed.

Lemma ahead_fresh r r' h key skip skip' fresh :
  distinct r' ->
  (forall x, recorded r' x -> is_before r' h key skip x -> recorded r x /\ is_before r h key skip' x \/ x ∈ fresh) ->
  (ahead r' h key skip <= ahead r h key skip' + length fresh)%nat.
Proof.
  intros Hd Himp. unfold ahead. rewrite <- length_app. apply submseteq_length.
  apply NoDup_submseteq; [by apply NoDup_filter|]. intros x [HP Hx]%list_elem_of_filter.
  apply elem_of_app. destruct (Himp x Hx HP) as [[? ?]|?]; [left|by right]. by apply list_elem_of_filter.
Qed.

Lemma found_cons op ops : found (op :: ops) = (found [op] + found ops)%nat.
Proof. unfold found. rewrite !filter_cons. by destruct (decide _). Qed.

Lemma foreign_ops ops : forall r h key skip,
  distinct r -> Forall (fun op => foreign op.1 = true) ops ->
  distinct (run_ops r ops) /\ (ahead (run_ops r ops) h key skip <= ahead r h key skip + found ops)%nat /\
  (recorded r h -> Forall (fun op => voids h op.1 = false) ops ->
   recorded (run_ops r ops) h /\ readings (run_ops r ops) !! h = readings r !! h).
Proof.
  induction ops as [|op ops IH]; intros r h key skip Hd Hf; [split_and!; [done|cbn; lia|done]|].
  apply Forall_cons in Hf as [Hop Hf]. destruct (foreign_step r op Hd Hop) as [Hd' Hr Hrec (fresh & Hlen & Hfr)].
  change (run_ops r (op :: ops)) with (run_ops (run_op r op) ops).
  destruct (IH (run_op r op) h key skip Hd' Hf) as (Hdd & Hah & Hh). split_and!; [done| |].
  - assert (ahead (run_op r op) h key skip <= ahead r h key skip + length fresh)%nat.
    { apply ahead_fresh; [done|]. intros x Hx Hb. destruct (Hfr x Hx) as [?|?]; [left|by right].
      split; [done|]. by eapply is_before_readings; [apply Hr|]. }
    rewrite found_cons. lia.
  - intros Hrh [Hv Hvs]%Forall_cons. destruct Hh as [? Heq]; [by apply Hrec|done|]. split; [done|].
    rewrite Heq. by apply Hr, Hrec.
Qed.

(** ** A pass in which every read succeeds *)

Record reads_all (h : bytes) (p : Pass) : Prop := {
  reads_before : Forall (fun op => foreign op.1 = true /\ voids h op.1 = false) (before p);
  reads_during : forall x, Forall (fun op => foreign op.1 = true /\ voids h op.1 = false) (during p x);
  reads_node : forall x, is_some (node p x) = true;
  reads_commit : forall x, commits p x = true;
}.

Lemma check_block_reads h p s x :
  reads_all h p ->
  let r := run_ops s.1 (during p x) in let r' := (check_block p s x).1 in
  blocks r' = blocks r /\
  (recorded r x /\ (exists c, checked_at c = pass_now p /\ readings r' = <[x := c]> (readings r)) \/
   ~ recorded r x /\ r' = r).
Proof.
  intros [_ _ Hn Hc]. destruct s as [r0 log]. cbn [fst]. unfold check_block. specialize (Hn x). specialize (Hc x).
  destruct (node p x) as [a|]; [|done]. rewrite Hc. set (r := run_ops r0 (during p x)).
  destruct (is_some (block r x)) eqn:Hb; cbn [negb].
  - apply block_Some in Hb. unfold record_confirmations, put.
    destruct (db r); cbn; (split; [done|]); left; (split; [done|]); (eexists; split; [|reflexivity]; done).
  - split; [done|]. right. split; [|done]. intros Hx%block_Some. congruence.
Qed.

(** One read: [x] is read, [h] kept, and what was before [h] but for [x] stays. *)
Lemma check_block_step h p s x key skip :
  reads_all h p -> distinct s.1 -> recorded s.1 h -> ~ key_le (Some (pass_now p)) key ->
  let r' := (check_block p s x).1 in
  distinct r' /\ recorded r' h /\
  (ahead r' h key skip <= ahead s.1 h key (x :: skip) + found (during p x))%nat /\
  (x <> h -> readings r' !! h = readings s.1 !! h) /\
  (x = h -> exists c, readings r' !! h = Some c /\ checked_at c = pass_now p).
Proof.
  intros Hp Hd Hh Hkey r'. destruct (check_block_reads h p s x Hp) as [Hb Hr]. fold r' in Hb, Hr.
  pose proof (reads_during h p Hp x) as Hdur. rewrite Forall_and in Hdur. destruct Hdur as [Hf Hv].
  destruct (foreign_ops _ s.1 h key (x :: skip) Hd Hf) as (Hd' & Hah & Hhh).
  destruct (Hhh Hh Hv) as [Hrec Hread]. set (r := run_ops s.1 (during p x)) in *.
  assert (distinct r') as Hdr by (unfold distinct; rewrite Hb; exact Hd').
  assert (forall y, recorded r' y <-> recorded r y) as Hrr by (intros y; unfold recorded; by rewrite Hb).
  split_and!; [done|by apply Hrr| | |].
  - enough (ahead r' h key skip <= ahead r h key (x :: skip))%nat by lia. etrans; [apply (ahead_fresh r r' h key skip (x :: skip) [])|cbn; lia]; [done|].
    intros y Hy Hbef. left. apply Hrr in Hy. split; [done|]. destruct (decide (y = x)) as [->|Hne].
    + exfalso. destruct Hr as [(_ & c & Hc & Hr)|[Hx _]]; [|done]. destruct Hbef as (_ & _ & Hk & _).
      unfold read_key in Hk. rewrite Hr, lookup_insert_eq in Hk. cbn in Hk. by rewrite Hc in Hk.
    + apply (is_before_readings r r').
      { destruct Hr as [(_ & c & _ & ->)|[_ ->]]; [|done]. by rewrite lookup_insert_ne. }
      destruct Hbef as (? & ? & ? & ?). split_and!; [done..|]. by apply not_elem_of_cons.
  - intros Hne. destruct Hr as [(_ & c & _ & ->)|[_ ->]]; [|done]. by rewrite lookup_insert_ne.
  - intros ->. destruct Hr as [(_ & c & Hc & ->)|[Hn _]]; [|done]. exists c. by rewrite lookup_insert_eq.
Qed.

Definition found_during (p : Pass) (l : list bytes) : nat := sum_list ((fun x => found (during p x)) <$> l).

Lemma check_loop h p key l : forall s,
  reads_all h p -> distinct s.1 -> recorded s.1 h -> ~ key_le (Some (pass_now p)) key -> NoDup l ->
  let r' := (foldl (check_block p) s l).1 in
  distinct r' /\ recorded r' h /\ (ahead r' h key [] <= ahead s.1 h key l + found_during p l)%nat /\
  (h ∉ l -> readings r' !! h = readings s.1 !! h) /\
  (h ∈ l -> exists c, readings r' !! h = Some c /\ checked_at c = pass_now p).
Proof.
  induction l as [|x l IH]; intros s Hp Hd Hh Hkey Hnd.
  { cbn. split_and!; [done|done|lia|done|]. intros Hn. by apply not_elem_of_nil in Hn. }
  apply NoDup_cons in Hnd as [Hx Hnd].
  destruct (check_block_step h p s x key l Hp Hd Hh Hkey) as (Hd' & Hh' & Hah & Hne & Heq).
  destruct (IH (check_block p s x) Hp Hd' Hh' Hkey Hnd) as (Hd2 & Hh2 & Hah2 & Hno & Hyes).
  cbn [foldl]. split_and!; [done|done| | |].
  - unfold found_during in *. cbn [fmap list_fmap sum_list]. cbn in *. lia.
  - intros [Hxh Hl]%not_elem_of_cons. rewrite Hno by done. apply Hne. by intros ->.
  - intros Hin. destruct (decide (h ∈ l)) as [Hl|Hl]; [by apply Hyes|].
    apply elem_of_cons in Hin as [->|?]; [|done]. rewrite Hno by done. by apply Heq.
Qed.

(** ** Every block under the depth is read *)

(** The blocks other threads record while the passes run. *)
Fixpoint found_in (s : BlockRecords * list (bytes * Report)) (passes : list Pass) : nat :=
  match passes with
  | [] => 0
  | p :: passes =>
    found (before p) + found_during p (due (run_ops s.1 (before p))) + found_in (check_blocks s p) passes
  end.

Lemma filter_split_skip r h key l :
  distinct r -> NoDup l ->
  Forall (fun x => recorded r x /\ under_depth r x /\ x <> h /\ key_le (read_key r x) key) l ->
  (ahead r h key l + length l <= ahead r h key [])%nat.
Proof.
  intros Hd Hl Hall. unfold ahead. rewrite Nat.add_comm, <- length_app. apply submseteq_length.
  apply NoDup_submseteq.
  - apply NoDup_app. split_and!; [done| |by apply NoDup_filter]. intros x Hx [(_ & _ & _ & Hn) _]%list_elem_of_filter. done.
  - intros x [Hx|[(?&?&?&?) ?]%list_elem_of_filter]%elem_of_app; apply list_elem_of_filter.
    + eapply Forall_forall in Hall as (?&?&?&?); [|exact Hx]. split; [|done]. split_and!; try done. apply not_elem_of_nil.
    + split; [|done]. split_and!; try done. apply not_elem_of_nil.
Qed.

Lemma one_pass h p s key :
  reads_all h p -> distinct s.1 -> recorded s.1 h -> ~ key_le (Some (pass_now p)) key ->
  let r := run_ops s.1 (before p) in let s' := check_blocks s p in
  distinct s'.1 /\ recorded s'.1 h /\
  ((exists c, readings s'.1 !! h = Some c /\ checked_at c = pass_now p) \/
   readings s'.1 !! h = readings s.1 !! h /\
   (read_key s.1 h = key -> under_depth s.1 h ->
    ahead s'.1 h key [] + MAX_PER_PASS <= ahead s.1 h key [] + found (before p) + found_during p (due r))%nat).
Proof.
  intros Hp Hd Hh Hkey r s'. pose proof (reads_before h p Hp) as Hbef. rewrite Forall_and in Hbef. destruct Hbef as [Hf Hv].
  destruct (foreign_ops (before p) s.1 h key [] Hd Hf) as (Hdr & Hah & Hhh). destruct (Hhh Hh Hv) as [Hrec Hread]. fold r in Hdr, Hah, Hrec, Hread.
  assert (s' = foldl (check_block p) (r, s.2) (due r)) as -> by (unfold s'; by destruct s).
  destruct (check_loop h p key (due r) (r, s.2) Hp Hdr Hrec Hkey (due_nodup r Hdr)) as (Hd' & Hh' & Hah' & Hno & Hyes).
  split_and!; [done|done|]. destruct (decide (h ∈ due r)) as [Hin|Hin]; [left; by apply Hyes|right].
  split; [by rewrite Hno|]. intros Hk Hu. cbn [fst] in Hah'.
  assert (read_key r h = key) as Hkr by (unfold read_key in *; by rewrite Hread).
  assert (under_depth r h) as Hur by (unfold under_depth in *; by rewrite Hread).
  destruct (due_or_full r h Hdr Hrec Hur) as [?|[Hlen Hall]]; [done|]. rewrite Hkr in Hall.
  assert (ahead r h key (due r) + length (due r) <= ahead r h key [])%nat; [|lia].
  apply filter_split_skip; [done|by apply due_nodup|]. apply Forall_forall. intros x Hx.
  eapply Forall_forall in Hall as [? ?]; [|exact Hx]. by destruct (due_recorded r x Hx).
Qed.

Lemma passes_read passes : forall s h key,
  distinct s.1 -> recorded s.1 h -> Forall (reads_all h) passes ->
  Forall (fun p => ~ key_le (Some (pass_now p)) key) passes ->
  under_depth s.1 h -> read_key s.1 h = key ->
  (ahead s.1 h key [] + found_in s passes < MAX_PER_PASS * length passes)%nat ->
  exists c, readings (foldl check_blocks s passes).1 !! h = Some c /\ checked_at c ∈ pass_now <$> passes.
Proof.
  assert (forall passes s h key, distinct s.1 -> recorded s.1 h -> Forall (reads_all h) passes ->
    Forall (fun p => ~ key_le (Some (pass_now p)) key) passes ->
    (exists c, readings s.1 !! h = Some c) ->
    exists c, readings (foldl check_blocks s passes).1 !! h = Some c /\
      (readings s.1 !! h = Some c \/ checked_at c ∈ pass_now <$> passes)) as Hstay.
  { clear passes. induction passes as [|p passes IH]; intros s h key Hd Hh Hp Hk [c Hc]; [exists c; auto|].
    apply Forall_cons in Hp as [Hp Hps]. apply Forall_cons in Hk as [Hk Hks]. cbn [foldl fmap list_fmap].
    destruct (one_pass h p s key Hp Hd Hh Hk) as (Hd' & Hh' & [(c1 & Hc1 & Ht)|[Heq _]]).
    - destruct (IH (check_blocks s p) h key Hd' Hh' Hps Hks) as (c2 & Hc2 & [Hold|Hnew]); [by exists c1| |].
      + exists c2. split; [done|]. right. rewrite Hc1 in Hold. injection Hold as ->. rewrite Ht. apply list_elem_of_here.
      + exists c2. split; [done|]. right. by apply list_elem_of_further.
    - destruct (IH (check_blocks s p) h key Hd' Hh' Hps Hks) as (c2 & Hc2 & [Hold|Hnew]); [exists c; by rewrite Heq| |].
      + exists c2. split; [done|]. left. by rewrite <- Heq.
      + exists c2. split; [done|]. right. by apply list_elem_of_further. }
  induction passes as [|p passes IH]; intros s h key Hd Hh Hp Hk Hu Hkey Hn; [cbn in Hn; lia|].
  apply Forall_cons in Hp as [Hp Hps]. apply Forall_cons in Hk as [Hk Hks]. cbn [foldl fmap list_fmap].
  destruct (one_pass h p s key Hp Hd Hh Hk) as (Hd' & Hh' & [(c1 & Hc1 & Ht)|[Heq Hah]]).
  - destruct (Hstay passes (check_blocks s p) h key Hd' Hh' Hps Hks) as (c2 & Hc2 & [Hold|Hnew]); [by exists c1| |];
      exists c2; (split; [done|]).
    + rewrite Hc1 in Hold. injection Hold as ->. rewrite Ht. apply list_elem_of_here.
    + by apply list_elem_of_further.
  - specialize (Hah Hkey Hu). cbn [found_in length] in Hn.
    destruct (IH (check_blocks s p) h key Hd' Hh' Hps Hks) as (c & Hc & Hin).
    + unfold under_depth in *. by rewrite Heq.
    + unfold read_key in *. by rewrite Heq.
    + lia.
    + exists c. split; [done|]. by apply list_elem_of_further.
Qed.

(** However many blocks are stuck under the confirmed depth, a block under it is
    read within [ceil(due / MAX_PER_PASS)] passes when the reads succeed: if the
    blocks due at the start, with those other threads record on the way, are at most
    what the passes read, one of the passes reads it. The clock only has to be past
    the block's last reading. *)
Theorem every_due_block_is_read (r : BlockRecords) (h : bytes) (passes : list Pass) :
  distinct r -> recorded r h -> under_depth r h ->
  Forall (reads_all h) passes ->
  Forall (fun p => match readings r !! h with Some c => checked_at c < pass_now p | None => True end) passes ->
  (length (due_entries r) + found_in (r, []) passes <= MAX_PER_PASS * length passes)%nat ->
  exists c, readings (run_passes r passes).1 !! h = Some c /\ checked_at c ∈ pass_now <$> passes.
Proof.
  intros Hd Hr Hu Hp Hclock Hn. apply (passes_read passes (r, []) h (read_key r h)); try done.
  - eapply Forall_impl; [exact Hclock|]. intros p. unfold read_key. destruct (readings r !! h) as [c|]; cbn; [lia|auto].
  - enough (ahead r h (read_key r h) [] < length (due_entries r))%nat by (cbn [fst]; lia).
    enough (length (h :: filter (is_before r h (read_key r h) []) (found_block_hash <$> blocks r)) <=
      length (due_entries r).*2)%nat as Hlt.
    { rewrite length_fmap in Hlt. unfold ahead. cbn [length] in Hlt. lia. }
    apply submseteq_length, NoDup_submseteq.
    + apply NoDup_cons. split; [|by apply NoDup_filter]. by intros [(_ & ? & _) _]%list_elem_of_filter.
    + intros x Hx. assert (recorded r x /\ under_depth r x) as [Hx1 Hx2].
      { apply elem_of_cons in Hx as [->|[(? & _) ?]%list_elem_of_filter]; done. }
      apply (list_elem_of_fmap_2 snd (due_entries r) (read_key r x, x)). by apply due_entries_spec.
Qed.

(** ** What the log says of a block *)

Definition off_chain (r : BlockRecords) (h : bytes) : bool := negb (was_on_chain (readings r !! h)).
Definition is_left (e : Report) : bool := match e with LeftBestChain _ _ => true | _ => false end.
Definition is_back (e : Report) : bool := match e with BackOnBestChain _ => true | _ => false end.
Definition lines (h : bytes) (f : Report -> bool) (log : list (bytes * Report)) : nat :=
  length (filter (fun e => e.1 = h /\ f e.2 = true) log).

(** The log has reported a block's departure once more than its return exactly
    when its last reading has it off the best chain. *)
Definition reported (h : bytes) (s : BlockRecords * list (bytes * Report)) : Prop :=
  lines h is_left s.2 = (lines h is_back s.2 + Nat.b2n (off_chain s.1 h))%nat.

Record leaves (h : bytes) (p : Pass) : Prop := {
  leaves_before : Forall (fun op => foreign op.1 = true /\ voids h op.1 = false) (before p);
  leaves_during : forall x, Forall (fun op => foreign op.1 = true /\ voids h op.1 = false) (during p x);
}.

Lemma lines_app h f log log' : lines h f (log ++ log') = (lines h f log + lines h f log')%nat.
Proof. unfold lines. by rewrite filter_app, length_app. Qed.

Lemma leaves_ops h ops r :
  Forall (fun op => foreign op.1 = true /\ voids h op.1 = false) ops -> distinct r -> recorded r h ->
  distinct (run_ops r ops) /\ recorded (run_ops r ops) h /\ readings (run_ops r ops) !! h = readings r !! h.
Proof.
  rewrite Forall_and. intros [Hf Hv] Hd Hr. destruct (foreign_ops ops r h None [] Hd Hf) as (? & _ & Hh).
  by destruct (Hh Hr Hv).
Qed.

Lemma report_counts h x state previous owed :
  let e := match report state previous owed with Some e => [(x, e)] | None => [] end in
  (x <> h -> forall f, lines h f e = 0%nat) /\
  (x = h -> (lines h is_left e + Nat.b2n (negb (was_on_chain previous)) =
             lines h is_back e + Nat.b2n (negb (on_best_chain state)))%nat).
Proof.
  cbv zeta. split.
  - intros Hne f. unfold lines. destruct (report _ _ _); [|done]. rewrite filter_cons_False; [done|]. by intros [? _].
  - intros ->. unfold report, lines. destruct (on_best_chain state), (was_on_chain previous); cbn [negb Nat.b2n]; [done| | |].
    + by rewrite filter_cons_False, filter_cons_True by naive_solver.
    + by rewrite filter_cons_True, filter_cons_False by naive_solver.
    + destruct (match previous with Some _ => _ | None => _ end); [|done]. by rewrite !filter_cons_False by naive_solver.
Qed.

Lemma check_block_reported h p s x :
  leaves h p -> distinct s.1 /\ recorded s.1 h /\ reported h s ->
  let s' := check_block p s x in distinct s'.1 /\ recorded s'.1 h /\ reported h s'.
Proof.
  intros Hp (Hd & Hh & Hrep). destruct s as [r log]. cbn [fst snd] in *.
  destruct (leaves_ops h _ r (leaves_during h p Hp x) Hd Hh) as (Hd' & Hh' & Hread). unfold check_block.
  set (r1 := run_ops r (during p x)) in *.
  assert (reported h (r1, log)) as Hrep1 by (unfold reported, off_chain in *; cbn [fst snd] in *; by rewrite Hread).
  destruct (node p x) as [a|]; [|done]. destruct (negb _); [done|]. unfold record_confirmations.
  destruct (put (db r1) _ _) as [d|]; [|done]. split_and!; [done|done|]. unfold reported. cbn [fst snd].
  set (state := {| checked_at := _; confirmations := _ |}). set (owed := owed_for _ _).
  rewrite !lines_app. destruct (report_counts h x state (readings r1 !! x) owed) as [Hne Heq].
  unfold reported, off_chain in *. cbn [fst snd readings] in *. destruct (decide (x = h)) as [->|Hxh].
  - rewrite lookup_insert_eq. cbn [was_on_chain]. specialize (Heq eq_refl). lia.
  - rewrite !Hne, lookup_insert_ne by done. lia.
Qed.

Lemma foldl_inv {A B} (I : A -> Prop) (f : A -> B -> A) (P : B -> Prop) l : forall a,
  Forall P l -> I a -> (forall a b, P b -> I a -> I (f a b)) -> I (foldl f a l).
Proof.
  induction l as [|b l IH]; intros a Hl Ha Hf; [done|]. apply Forall_cons in Hl as [Hb Hl]. cbn. apply IH; auto.
Qed.

(** Each time a found block leaves the best chain the log reports it once, and
    once when it is back: over any run of passes, whatever the node answers and
    whether or not the reads and the writes succeed, the departures reported are the
    returns reported, and one more exactly when the last reading has the block off
    the chain. *)
Theorem departures_reported_once (r : BlockRecords) (h : bytes) (passes : list Pass) :
  distinct r -> recorded r h -> off_chain r h = false -> Forall (leaves h) passes ->
  let s := run_passes r passes in
  lines h is_left s.2 = (lines h is_back s.2 + Nat.b2n (off_chain s.1 h))%nat.
Proof.
  intros Hd Hr Hoff Hp. cbv zeta.
  enough (distinct (run_passes r passes).1 /\ recorded (run_passes r passes).1 h /\ reported h (run_passes r passes))
    as (_ & _ & ?) by done.
  apply (foldl_inv (fun s => distinct s.1 /\ recorded s.1 h /\ reported h s) _ (leaves h)); [done| |].
  - split_and!; [done|done|]. unfold reported. cbn [fst snd]. by rewrite Hoff.
  - intros [r1 log] p Hl (Hd1 & Hr1 & Hrep). unfold check_blocks.
    destruct (leaves_ops h _ r1 (leaves_before h p Hl) Hd1 Hr1) as (Hd2 & Hr2 & Hread).
    apply (foldl_inv (fun s => distinct s.1 /\ recorded s.1 h /\ reported h s) _ (fun _ => True)); [by apply Forall_true| |].
    + split_and!; [done|done|]. unfold reported, off_chain in *. cbn [fst snd] in *. by rewrite Hread.
    + intros s x _ Hs. by apply check_block_reported.
Qed.

(** Every reading kept is of a block on record: one voided while the node was
    asked about it gets none. *)
Definition readings_of_blocks (r : BlockRecords) : Prop := forall h, is_Some (readings r !! h) -> recorded r h.

Lemma foreign_keeps_readings r op : distinct r -> foreign op.1 = true -> readings_of_blocks r -> readings_of_blocks (run_op r op).
Proof.
  intros Hd Hf Hr. destruct op as [[b|h c|o|h t|h] ok]; [|done| | |]; unfold run_op, readings_of_blocks; cbn [fst snd].
  - unfold record_block. destruct (is_some _); [done|]. destruct (put _ _ ok); [|done]. cbn. intros h Hh.
    unfold recorded. cbn. rewrite fmap_app. apply elem_of_app. left. by apply Hr.
  - unfold record_owed. destruct (is_some _); [done|]. by destruct (put _ _ ok).
  - unfold settle_owed. destruct (owed_index r h ≫= _) as [[i o]|]; [|done]. destruct (is_some _); [done|].
    by destruct (put _ _ ok).
  - unfold void_block. destruct (_ && _); [done|]. destruct (put _ _ ok); [|done]. cbn. intros x Hx.
    destruct (remove_at_spec r h Hd) as [_ Hel]. apply Hel. destruct (decide (h = x)) as [->|Hne].
    + rewrite lookup_delete_eq in Hx. by destruct Hx.
    + rewrite lookup_delete_ne in Hx by done. split; [by apply Hr|]. by intros ->.
Qed.

Definition foreign_pass (p : Pass) : Prop :=
  Forall (fun op => foreign op.1 = true) (before p) /\ forall x, Forall (fun op => foreign op.1 = true) (during p x).

Lemma foreign_ops_keep_readings ops r :
  Forall (fun op => foreign op.1 = true) ops -> distinct r /\ readings_of_blocks r ->
  distinct (run_ops r ops) /\ readings_of_blocks (run_ops r ops).
Proof.
  intros Hf Hr. apply (foldl_inv (fun r => distinct r /\ readings_of_blocks r) _ (fun op => foreign op.1 = true)); [done|done|].
  intros r1 op Hop [Hd Hrd]. split; [by apply foreign_step|by apply foreign_keeps_readings].
Qed.

Lemma check_block_keeps_readings p s x :
  foreign_pass p -> distinct s.1 /\ readings_of_blocks s.1 ->
  distinct (check_block p s x).1 /\ readings_of_blocks (check_block p s x).1.
Proof.
  intros [_ Hf] Hr. destruct s as [r log]. cbn [fst] in Hr. unfold check_block.
  destruct (foreign_ops_keep_readings _ r (Hf x) Hr) as [Hd Hrd]. set (r1 := run_ops r (during p x)) in *.
  destruct (node p x); [|done]. destruct (is_some (block r1 x)) eqn:Hb; cbn [negb]; [|done]. unfold record_confirmations.
  destruct (put _ _ _); [|done]. cbn. split; [done|]. intros h Hh. destruct (decide (x = h)) as [->|Hne].
  - by apply block_Some in Hb.
  - cbn in Hh. rewrite lookup_insert_ne in Hh by done. by apply Hrd.
Qed.

(** Whatever other threads record, settle or void between and during the passes,
    and whatever the node answers, every reading the records keep is of a block they
    hold: a block voided while the node was asked about it gets no reading. *)
Theorem readings_are_of_blocks (r : BlockRecords) (passes : list Pass) :
  distinct r -> readings_of_blocks r -> Forall foreign_pass passes ->
  readings_of_blocks (run_passes r passes).1.
Proof.
  intros Hd Hr Hp.
  enough (distinct (run_passes r passes).1 /\ readings_of_blocks (run_passes r passes).1) as [_ ?] by done.
  apply (foldl_inv (fun s => distinct s.1 /\ readings_of_blocks s.1) _ foreign_pass); [done|done|].
  intros [r1 log] p [Hb Hdur] Hs. unfold check_blocks.
  apply (foldl_inv (fun s => distinct s.1 /\ readings_of_blocks s.1) _ (fun _ => True)); [by apply Forall_true| |].
  - by apply foreign_ops_keep_readings.
  - intros s x _ Hs'. by apply check_block_keeps_readings.
Qed.

End confirmations.

(** ** Examples *)

#[local] Existing Instance example_kv.

(** Forty blocks the node does not store and never will, with one found after. *)
Definition example_found (n : Z) : FoundBlock :=
  {| block_found_at := 1000 + n; block_height := 100; found_block_hash := le 32 n; paid_to_split := 1;
     paid_to_pool := 1; finder := []; block_tag := []; network_difficulty_bits := 0; cumulative_work_then := 1 |}.
Definition example_stuck : BlockRecords :=
  {| db := None; blocks := (fun n => example_found (Z.of_nat n)) <$> seq 0 40; owed := []; readings := ∅ |}.
Definition example_pass (now : Z) (ops : list (RecordOp * bool)) : Pass :=
  {| pass_now := now; before := ops; during := fun _ => []; node := fun _ => Some None; commits := fun _ => true |}.
Definition example_passes : list Pass := [example_pass 2000 [(OpBlock (example_found 77), true)]; example_pass 2300 []].

Lemma example_distinct : distinct example_stuck.
Proof. unfold distinct. apply (proj1 (bool_decide_eq_true (NoDup (found_block_hash <$> blocks example_stuck)))). vm_compute. reflexivity. Qed.
Lemma example_recorded : recorded example_stuck (le 32 39).
Proof. apply block_Some. by vm_compute. Qed.
Lemma example_found_in : (length (due_entries example_stuck) + found_in (example_stuck, []) example_passes <=
  MAX_PER_PASS * length example_passes)%nat.
Proof. apply Nat.leb_le. by vm_compute. Qed.

Lemma every_due_block_is_read_witness :
  exists c, readings (run_passes example_stuck example_passes).1 !! le 32 39 = Some c /\
    checked_at c ∈ pass_now <$> example_passes.
Proof.
  apply every_due_block_is_read; [exact example_distinct|exact example_recorded|exact I| | |exact example_found_in].
  - repeat constructor; intros; repeat constructor.
  - repeat constructor.
Defined.

Lemma departures_reported_once_witness :
  let s := run_passes example_stuck example_passes in
  lines (le 32 39) is_left s.2 = (lines (le 32 39) is_back s.2 + Nat.b2n (off_chain s.1 (le 32 39)))%nat.
Proof.
  apply departures_reported_once; [exact example_distinct|exact example_recorded|reflexivity|].
  repeat constructor; intros; repeat constructor.
Defined.

Lemma readings_are_of_blocks_witness : readings_of_blocks (run_passes example_stuck example_passes).1.
Proof.
  apply readings_are_of_blocks; [exact example_distinct| |].
  - intros h [c Hc]. cbn in Hc. rewrite lookup_empty in Hc. discriminate.
  - repeat constructor; intros; repeat constructor.
Defined.
