(* ===== verification/Splits.v ===== *)
(** What the pool dictated and what a coinbase pays of it: the outputs of a split
    ([prime/src/payout.rs]), the splits a session remembers
    ([DictatedSplits] of [prime/src/verify.rs]), and the check of a coinbase
    against the split its job names ([check_outputs] of
    [prime/src/verify/rebuild.rs]). *)
From S2P Require Import Prelude Reader Bitcoin Transaction Messages ShareMsg AbwMsg Rows.

Definition MAX_SPLITS : nat := 64.
Definition SAVED_SPLITS : nat := 8.

(** The split's [outputs] are shared between consecutive splits; a value here. *)
Record DictatedOutput := { dictated_payout : Payout; dictated_script : bytes }.

Definition dictated_output (d : DictatedOutput) : TxOut :=
  {| Transaction.value := sats (dictated_payout d); script_pubkey := dictated_script d |}.

(** The payouts an address decodes for; the others stay with the pool. *)
Definition outputs_for (address_script : bytes -> option bytes) (split : list Payout) : list DictatedOutput :=
  omap (fun p => (fun s => {| dictated_payout := p; dictated_script := s |}) <$> address_script (payout_identity p))
    split.

(** ** The splits of a session *)

Record DictatedSplit := {
  split_outputs : list DictatedOutput;
  split_value : Z;
  split_prev_hash : bytes;
  sent_at : Z;
}.

Record DictatedSplits := { last_id : Z; by_id : gmap Z DictatedSplit; order : list Z }.

Definition no_splits : DictatedSplits := {| last_id := 0; by_id := ∅; order := [] |}.

Definition next_id (s : DictatedSplits) : Z :=
  let next := wrap 8 (last_id s + 1) in if next =? 0 then 1 else next.

(** [while self.order.len() > n]. *)
Fixpoint keep_loop (n : nat) (by_id : gmap Z DictatedSplit) (order : list Z) : gmap Z DictatedSplit * list Z :=
  match order with
  | [] => (by_id, [])
  | oldest :: rest => if (n <? length order)%nat then keep_loop n (delete oldest by_id) rest else (by_id, order)
  end.

Definition keep_newest (s : DictatedSplits) (n : nat) : DictatedSplits :=
  let '(by_id, order) := keep_loop n (by_id s) (order s) in
  {| last_id := last_id s; by_id := by_id; order := order |}.

Definition record_split (s : DictatedSplits) (id : Z) (split : DictatedSplit) : DictatedSplits :=
  keep_newest
    {| last_id := id; by_id := <[id := split]> (by_id s);
       order := filter (fun held => held <> id) (order s) ++ [id] |} MAX_SPLITS.

Definition get_split (s : DictatedSplits) (id : Z) : option DictatedSplit := by_id s !! id.

Definition retain_prev (s : DictatedSplits) (keep : bytes -> bool) : DictatedSplits :=
  let by_id := filter (fun e => keep (split_prev_hash e.2) = true) (by_id s) in
  {| last_id := last_id s; by_id := by_id;
     order := filter (fun id => is_some (by_id !! id) = true) (order s) |}.

(** The splits to save: those on the tip or a recent one, if there is a tip. *)
Definition take_splits (s : DictatedSplits) (tip : option bytes) (recent : bytes -> bool) : DictatedSplits :=
  let s :=
    match tip with
    | Some t => retain_prev s (fun prev => bool_decide (t = prev) || recent prev)
    | None => s
    end in
  keep_newest s SAVED_SPLITS.

(** ** The check of a coinbase's outputs *)

Record Payments := { paid_to_split : Z; paid_to_pool : Z; unpaid_outputs : list Payout }.

Definition matches (out : TxOut) (d : DictatedOutput) : bool :=
  (sats (dictated_payout d) =? Transaction.value out) && bool_decide (dictated_script d = script_pubkey out).

(** The loop over the outputs: [next], [paid], [paid_to_split] and
    [paid_to_pool] are its state. *)
Fixpoint pay_loop (payout_script : bytes) (dictated : list DictatedOutput) (outs : list TxOut)
    (next : nat) (paid : list bool) (to_split to_pool : Z) : result RejectReason (list bool * Z * Z) :=
  match outs with
  | [] => Ok (paid, to_split, to_pool)
  | out :: outs =>
    if Transaction.value out =? 0 then pay_loop payout_script dictated outs next paid to_split to_pool else
    match position (matches out) (drop next dictated) with
    | Some pos =>
      pay_loop payout_script dictated outs (next + (pos + 1)) (<[(next + pos)%nat := true]> paid)
        (sat_add 64 to_split (Transaction.value out)) to_pool
    | None =>
      if bool_decide (script_pubkey out = payout_script)
      then pay_loop payout_script dictated outs next paid to_split (sat_add 64 to_pool (Transaction.value out))
      else Err BadCoinbaseOutputs
    end
  end.

(** The recorded split the share's job names. *)
Definition named_split (splits : DictatedSplits) (j : JobSection) (s : PowSubmit) : option DictatedSplit :=
  if subsidy_only s then None else get_split splits (coinbaser_id j).

Definition unpaid (payout_script : bytes) (dictated : list DictatedOutput) (paid : list bool) : list Payout :=
  (fun e => dictated_payout e.1) <$>
    filter (fun e : DictatedOutput * bool => e.2 = false /\ dictated_script e.1 <> payout_script) (zip dictated paid).

Definition check_outputs (payout_script : bytes) (splits : DictatedSplits) (j : JobSection) (tx : CoinbaseTx)
    (s : PowSubmit) : result RejectReason Payments :=
  let recorded := named_split splits j s in
  _ ← ensure (match recorded with
              | Some d => bool_decide (split_prev_hash d = prev_hash j) && (split_value d =? coinbase_value j)
              | None => true
              end) BadCoinbaserId;
  let dictated := from_option split_outputs [] recorded in
  '(paid, to_split, to_pool) ←
    pay_loop payout_script dictated (outputs tx) 0 (replicate (length dictated) false) 0 0;
  _ ← ensure (subsidy_only s || (sat_add 64 to_split to_pool =? coinbase_value j)) BadCoinbase;
  Ok {| paid_to_split := to_split; paid_to_pool := to_pool; unpaid_outputs := unpaid payout_script dictated paid |}.

(** ** The splits held *)

(** The order lists the splits held, each once, at most [MAX_SPLITS]. *)
Record splits_ok (s : DictatedSplits) : Prop := {
  splits_nodup : NoDup (order s);
  splits_held : forall id, id ∈ order s <-> is_Some (by_id s !! id);
  splits_bound : (length (order s) <= MAX_SPLITS)%nat;
}.

Lemma keep_loop_spec n m l :
  NoDup l -> exists old kept, l = old ++ kept /\ (length kept <= n)%nat /\
    (old <> [] -> length kept = n) /\
    (keep_loop n m l).2 = kept /\
    forall id, (keep_loop n m l).1 !! id = (if decide (id ∈ old) then None else m !! id).
Proof.
  revert m. induction l as [|x l IH]; intros m Hnd; cbn [keep_loop].
  { exists [], []. split_and!; try done. cbn. lia. }
  destruct (Nat.ltb_spec n (length (x :: l))) as [Hlt|Hge].
  - apply NoDup_cons in Hnd as [Hx Hnd]. destruct (IH (delete x m) Hnd) as (old & kept & -> & Hk & Hfull & E2 & E1).
    exists (x :: old), kept. split_and!; [done|done| |done|].
    + intros _. destruct old; [|by apply Hfull]. cbn [app length] in *. lia.
    + intros id. rewrite E1. destruct (decide (id ∈ x :: old)) as [Hin|Hn].
      * case_decide; [done|]. apply elem_of_cons in Hin as [->|]; [by rewrite lookup_delete_eq|done].
      * rewrite not_elem_of_cons in Hn. destruct Hn as [Hne Hn]. rewrite decide_False by done.
        by rewrite lookup_delete_ne.
  - exists [], (x :: l). by split_and!.
Qed.

Lemma keep_newest_ok s n :
  NoDup (order s) -> (forall id, id ∈ order s <-> is_Some (by_id s !! id)) -> (n <= MAX_SPLITS)%nat ->
  splits_ok (keep_newest s n) /\ (length (order (keep_newest s n)) <= n)%nat /\
  (forall id, id ∈ drop (length (order s) - n) (order s) -> by_id (keep_newest s n) !! id = by_id s !! id) /\
  (forall id x, by_id (keep_newest s n) !! id = Some x -> by_id s !! id = Some x).
Proof.
  intros Hnd Hheld Hn. destruct (keep_loop_spec n (by_id s) (order s) Hnd) as (old & kept & E & Hk & Hfull & E2 & E1).
  unfold keep_newest. destruct (keep_loop _ _ _) as [m l]. cbn [fst snd] in E1, E2. subst l. cbn [order by_id].
  rewrite E in Hnd, Hheld. apply NoDup_app in Hnd as (Hold & Hdis & Hkept). split_and!.
  - split; cbn [order by_id]; [done| |lia]. intros id. rewrite E1. specialize (Hheld id).
    rewrite elem_of_app in Hheld. case_decide as Hin.
    + split; [intros Hk'; by destruct (Hdis id Hin)|by intros []].
    + rewrite <- Hheld. split; [auto|intros [?|?]; done].
  - done.
  - intros id Hin. rewrite E1, decide_False; [done|]. intros Hid. apply (Hdis id Hid).
    rewrite E, length_app in Hin. destruct old as [|o old]; [cbn [app] in Hin; by apply (subseteq_drop _ _) in Hin|].
    rewrite (Hfull ltac:(done)) in Hin. by rewrite Nat.add_sub, drop_app_length in Hin.
  - intros id x. rewrite E1. by case_decide.
Qed.

Lemma record_split_ok s id split :
  splits_ok s ->
  splits_ok (record_split s id split) /\ get_split (record_split s id split) id = Some split /\
  (forall id2, id2 ∈ drop (S (length (order s)) - MAX_SPLITS) (order s) -> id2 <> id -> id ∉ order s ->
     get_split (record_split s id split) id2 = get_split s id2).
Proof.
  intros [Hnd Hheld Hb]. unfold record_split, get_split.
  set (s1 := {| last_id := id; by_id := _; order := _ |}).
  assert (NoDup (order s1)) as Hnd1.
  { cbn. apply NoDup_app. split_and!; [by apply NoDup_filter| |by apply NoDup_singleton].
    intros x [Hx _]%list_elem_of_filter Hn. by apply list_elem_of_singleton in Hn. }
  assert (forall id2, id2 ∈ order s1 <-> is_Some (by_id s1 !! id2)) as Hh1.
  { intros id2. cbn. rewrite elem_of_app, list_elem_of_filter, list_elem_of_singleton, Hheld.
    destruct (decide (id2 = id)) as [->|Hne].
    - rewrite lookup_insert_eq. split; [by eexists|by right].
    - rewrite lookup_insert_ne by done. split; [by intros [[_ ?]|?]|by left]. }
  destruct (keep_newest_ok s1 MAX_SPLITS Hnd1 Hh1 ltac:(lia)) as (Hok & _ & Hget & _).
  split; [done|]. split.
  - rewrite Hget; [by cbn; rewrite lookup_insert_eq|]. cbn [order s1]. rewrite drop_app_le.
    + apply elem_of_app. right. by left.
    + rewrite length_app. cbn [length]. unfold MAX_SPLITS. lia.
  - intros id2 Hin Hne Hfresh. rewrite Hget; [by cbn; rewrite lookup_insert_ne|]. cbn [order s1].
    rewrite (filter_all (fun held => held <> id)).
    + rewrite length_app, Nat.add_1_r, drop_app_le by (unfold MAX_SPLITS in *; lia).
      apply elem_of_app. by left.
    + apply Forall_forall. by intros x Hx ->.
Qed.

(** The id of the [i]-th split a session dictates. *)
Definition split_id (i : nat) : Z := 1 + Z.of_nat i mod 255.

(** Dictating a split under the id the session gives it. *)
Definition dictate (s : DictatedSplits) (split : DictatedSplit) : DictatedSplits := record_split s (next_id s) split.

Lemma split_id_differs i j : (i < j)%nat -> (j < i + 255)%nat -> split_id i <> split_id j.
Proof.
  intros. unfold split_id. intros Heq. assert (Z.of_nat i mod 255 = Z.of_nat j mod 255) as Hm by lia. clear Heq.
  Z.to_euclidean_division_equations. nia.
Qed.

Lemma next_split_id n : (let next := wrap 8 (split_id n + 1) in if next =? 0 then 1 else next) = split_id (S n).
Proof.
  unfold split_id, wrap. cbn zeta. change (2 ^ 8) with 256. rewrite Nat2Z.inj_succ.
  set (z := Z.of_nat n) in *. assert (0 <= z) by lia. clearbody z.
  destruct (Z.eqb_spec ((1 + z mod 255 + 1) mod 256) 0); Z.to_euclidean_division_equations; lia.
Qed.

(** After dictating a list of splits: the order is the newest ids. *)
Record dictated_list (l : list DictatedSplit) (s : DictatedSplits) : Prop := {
  dl_ok : splits_ok s;
  dl_last : last_id s = match length l with O => 0 | S n => split_id n end;
  dl_order : order s = split_id <$> seq (length l - MAX_SPLITS) (length l `min` MAX_SPLITS);
  dl_get : forall i x, l !! i = Some x -> (length l - MAX_SPLITS <= i)%nat -> by_id s !! split_id i = Some x;
}.

Lemma keep_newest_drop s n : NoDup (order s) -> order (keep_newest s n) = drop (length (order s) - n) (order s).
Proof.
  intros Hnd. destruct (keep_loop_spec n (by_id s) (order s) Hnd) as (old & kept & E & Hk & Hfull & E2 & _).
  unfold keep_newest. destruct (keep_loop _ _ _) as [m k]. cbn [snd] in E2. subst k. cbn [order]. rewrite E, length_app.
  destruct old as [|o old].
  - cbn. replace (length kept - n)%nat with 0%nat by lia. done.
  - rewrite (Hfull ltac:(done)), Nat.add_sub. by rewrite drop_app_length.
Qed.

Lemma dictate_list l s x : dictated_list l s -> dictated_list (l ++ [x]) (dictate s x).
Proof.
  intros [Hok Hlast Horder Hget]. unfold dictate. set (n := length l) in *.
  assert (next_id s = split_id n) as Hid.
  { unfold next_id. rewrite Hlast. destruct n as [|m]; [done|apply next_split_id]. }
  assert (forall id2, id2 ∈ order s -> id2 <> split_id n) as Hfresh.
  { intros id2 Hin Heq. pose proof Hin as Hin'. rewrite Horder in Hin.
    apply list_elem_of_fmap in Hin as (i & -> & Hi%elem_of_seq). unfold MAX_SPLITS in Hi.
    apply (split_id_differs i n); [lia|lia|done]. }
  destruct (record_split_ok s (next_id s) x Hok) as (Hok' & Hnew & Hold). rewrite Hid in *.
  split; rewrite ?length_app, ?Nat.add_1_r; fold n; cbn [length].
  - done.
  - unfold record_split, keep_newest. by destruct (keep_loop _ _ _).
  - unfold record_split. rewrite keep_newest_drop; cbn [order].
    2:{ apply NoDup_app. split_and!; [apply NoDup_filter, Hok| |by apply NoDup_singleton].
        intros y [Hy _]%list_elem_of_filter Hn. by apply list_elem_of_singleton in Hn. }
    rewrite (filter_all (fun held => held <> split_id n)) by (by apply Forall_forall).
    rewrite Horder.
    assert ((split_id <$> seq (n - MAX_SPLITS) (n `min` MAX_SPLITS)) ++ [split_id n] =
      split_id <$> seq (n - MAX_SPLITS) (S (n `min` MAX_SPLITS))) as ->.
    { rewrite seq_S, fmap_app. cbn. do 3 f_equal. unfold MAX_SPLITS. lia. }
    rewrite length_fmap, length_seq, <- fmap_drop, drop_seq. f_equal. unfold MAX_SPLITS. f_equal; lia.
  - intros i y Hi Hw. destruct (decide (i = n)) as [->|Hin].
    + rewrite lookup_app_r in Hi by done. unfold n in Hi. rewrite Nat.sub_diag in Hi. injection Hi as <-. exact Hnew.
    + assert (i < n)%nat as Hlt.
      { apply lookup_lt_Some in Hi. rewrite length_app in Hi. cbn in Hi. unfold n in *. lia. }
      rewrite lookup_app_l in Hi by done. unfold get_split in Hold. unfold MAX_SPLITS in *.
      rewrite Hold; [by apply Hget; [|lia]| | |].
      * rewrite Horder, length_fmap, length_seq, <- fmap_drop, drop_seq.
        apply list_elem_of_fmap_2, elem_of_seq. lia.
      * apply split_id_differs; lia.
      * intros Hin2. by apply (Hfresh (split_id n)).
Qed.

Lemma no_splits_list : dictated_list [] no_splits.
Proof.
  split; try done. split; cbn; [apply NoDup_nil_2| |lia]. intros id. rewrite lookup_empty.
  split; [intros Hn; by apply not_elem_of_nil in Hn|by intros []].
Qed.

(** A job that names a coinbaser id is checked against the split dictated
    under it. However many splits a session dictates, each under the id it
    gives ([1] to [255] and round again, never [0]), the newest [MAX_SPLITS] are
    held, each under its own id, and no other id finds one; so an id comes round
    again only long after its split was dropped. What is saved with the session
    is the newest [SAVED_SPLITS] of them. *)
Theorem split_ids_name_the_newest (l : list DictatedSplit) :
  let s := foldl dictate no_splits l in
  let n := length l in
  (forall i x, l !! i = Some x -> (n - MAX_SPLITS <= i)%nat -> get_split s (split_id i) = Some x) /\
  (forall id x, get_split s id = Some x -> exists i, id = split_id i /\ l !! i = Some x /\ (n - MAX_SPLITS <= i)%nat) /\
  (forall i x, l !! i = Some x -> (n - SAVED_SPLITS <= i)%nat ->
     get_split (take_splits s None (fun _ => false)) (split_id i) = Some x) /\
  (length (order (take_splits s None (fun _ => false))) <= SAVED_SPLITS)%nat /\
  next_id s = split_id n.
Proof.
  intros s n.
  assert (dictated_list l s) as [Hok Hlast Horder Hget].
  { unfold s. clear s n. induction l as [|x l IH] using rev_ind; [apply no_splits_list|].
    rewrite foldl_app. by apply dictate_list. }
  fold n in Hlast, Horder, Hget. destruct Hok as [Hnd Hheld Hb].
  destruct (keep_newest_ok s SAVED_SPLITS Hnd Hheld ltac:(unfold SAVED_SPLITS, MAX_SPLITS; lia)) as (_ & Hlen & Hsaved & _).
  split_and!.
  - done.
  - intros id x Hx. assert (id ∈ order s) as Hin by (apply Hheld; by eexists). rewrite Horder in Hin.
    apply list_elem_of_fmap in Hin as (i & -> & Hi%elem_of_seq). exists i. split; [done|].
    destruct (lookup_lt_is_Some_2 l i) as [y Hy]; [unfold MAX_SPLITS in *; fold n; lia|].
    rewrite Hy. unfold get_split in Hx. rewrite (Hget i y Hy ltac:(lia)) in Hx. split; [done|lia].
  - intros i x Hx Hi. unfold take_splits, get_split.
    pose proof (lookup_lt_Some _ _ _ Hx) as Hlt. fold n in Hlt. unfold SAVED_SPLITS, MAX_SPLITS in *.
    rewrite Hsaved; [by apply Hget; [|lia]|].
    rewrite Horder, length_fmap, length_seq, <- fmap_drop, drop_seq. apply list_elem_of_fmap_2, elem_of_seq. lia.
  - exact Hlen.
  - unfold next_id. rewrite Hlast. destruct n as [|m]; [done|apply next_split_id].
Qed.

(** ** What an accepted coinbase pays *)

Definition is_payment (o : TxOut) : bool := negb (Transaction.value o =? 0).

(** The dictated outputs a list of flags marks, and those it does not. *)
Definition flagged (b : bool) (dictated : list DictatedOutput) (paid : list bool) : list DictatedOutput :=
  (filter (fun e => e.2 = b) (zip dictated paid)).*1.

Definition sats_of (l : list DictatedOutput) : Z := sumZ ((fun d => sats (dictated_payout d)) <$> l).

Lemma sats_of_cons d l : sats_of (d :: l) = sats (dictated_payout d) + sats_of l.
Proof. done. Qed.

Lemma sats_of_parts script l :
  sats_of l = sats_of (filter (fun d => dictated_script d <> script) l) +
    sats_of (filter (fun d => dictated_script d = script) l).
Proof.
  induction l as [|d l IH]; [done|]. destruct (decide (dictated_script d = script)).
  - rewrite filter_cons_False, filter_cons_True, !sats_of_cons by naive_solver. lia.
  - rewrite filter_cons_True, (filter_cons_False _ d), !sats_of_cons by naive_solver. lia.
Qed.

Lemma flagged_app b l1 l2 f1 f2 :
  length l1 = length f1 -> flagged b (l1 ++ l2) (f1 ++ f2) = flagged b l1 f1 ++ flagged b l2 f2.
Proof. intros. unfold flagged. by rewrite zip_with_app, filter_app, fmap_app. Qed.

Lemma flagged_same b l : flagged b l (replicate (length l) b) = l.
Proof.
  induction l as [|x l IH]; [done|]. unfold flagged in *. cbn [length replicate zip zip_with].
  rewrite filter_cons_True by done. cbn. by rewrite IH.
Qed.

Lemma flagged_other b l : flagged b l (replicate (length l) (negb b)) = [].
Proof.
  induction l as [|x l IH]; [done|]. unfold flagged in *. cbn [length replicate zip zip_with].
  rewrite filter_cons_False by (by destruct b). exact IH.
Qed.

Lemma flagged_sublist b l f : flagged b l f `sublist_of` l.
Proof.
  revert f. induction l as [|x l IH]; intros [|y f]; try apply sublist_nil_l. unfold flagged in *.
  cbn [zip zip_with]. destruct (decide (y = b)).
  - rewrite filter_cons_True by done. by apply sublist_skip.
  - rewrite filter_cons_False by done. by apply sublist_cons.
Qed.

Lemma flagged_perm l f : length l = length f -> flagged true l f ++ flagged false l f ≡ₚ l.
Proof.
  revert f. induction l as [|x l IH]; intros [|y f] Hlen; try done. injection Hlen as Hlen.
  specialize (IH f Hlen). unfold flagged in *. cbn [zip zip_with]. destruct y.
  - rewrite filter_cons_True, filter_cons_False by done. cbn. by rewrite IH.
  - rewrite filter_cons_False, filter_cons_True by done. cbn. by rewrite <- Permutation_middle, IH.
Qed.

Lemma unpaid_flagged script l f :
  unpaid script l f = dictated_payout <$> filter (fun d => dictated_script d <> script) (flagged false l f).
Proof.
  revert f. induction l as [|x l IH]; intros [|y f]; try done. specialize (IH f). unfold unpaid, flagged in *.
  cbn [zip zip_with filter list_filter fst snd].
  destruct y; (destruct (decide (dictated_script x = script)); repeat case_decide; destr_and; try tauto);
    cbn [fmap list_fmap fst filter list_filter]; repeat case_decide; try tauto;
    cbn [fmap list_fmap fst]; first [exact IH|by f_equal].
Qed.

Lemma matches_eq o d : matches o d = true -> o = dictated_output d.
Proof. unfold matches. intros. reflect_Z. destruct o. unfold dictated_output. cbn in *. by subst. Qed.

Lemma matches_own d : matches (dictated_output d) d = true.
Proof. unfold matches, dictated_output. cbn. by rewrite Z.eqb_refl, bool_decide_eq_true_2. Qed.

Lemma sat_add_sat a b c : 0 <= b -> 0 <= c -> sat_add 64 (sat_add 64 a b) c = sat_add 64 a (b + c).
Proof. unfold sat_add. lia. Qed.

Lemma is_payment_values l : Forall (fun o => uint 64 (Transaction.value o)) l ->
  0 <= sumZ (Transaction.value <$> l).
Proof. intros. apply sumZ_nonneg, Forall_fmap. eapply Forall_impl; [done|]. by intros o []. Qed.

(** From the state with [before] passed over, the loop marks a part of what is
    left, in order, and every other output pays the pool. *)
Lemma pay_loop_sound script before rest outs flags to_split to_pool paid to_split' to_pool' :
  Forall (fun o => uint 64 (Transaction.value o)) outs -> length flags = length before ->
  to_split < 2 ^ 64 -> to_pool < 2 ^ 64 ->
  pay_loop script (before ++ rest) outs (length before) (flags ++ replicate (length rest) false)
    to_split to_pool = Ok (paid, to_split', to_pool') ->
  exists marks pool, length marks = length rest /\ paid = flags ++ marks /\
    filter (fun o => is_payment o = true) outs ≡ₚ (dictated_output <$> flagged true rest marks) ++ pool /\
    Forall (fun o => script_pubkey o = script) pool /\
    to_split' = sat_add 64 to_split (sats_of (flagged true rest marks)) /\
    to_pool' = sat_add 64 to_pool (sumZ (Transaction.value <$> pool)).
Proof.
  intros Hu. revert before rest flags to_split to_pool.
  induction Hu as [|o outs Ho Hu IH]; intros before rest flags a b Hl Ha Hb; cbn [pay_loop].
  { intros [= <- <- <-]. exists (replicate (length rest) false), []. rewrite length_replicate.
    rewrite (flagged_other true). split_and!; try done; unfold sat_add, sats_of; cbn [fmap list_fmap sumZ foldr]; lia. }
  destruct (Z.eqb_spec (Transaction.value o) 0) as [Hz|Hnz].
  { rewrite filter_cons_False by (unfold is_payment; by rewrite Hz). intros Hrun. by apply IH in Hrun. }
  rewrite filter_cons_True by (unfold is_payment; by rewrite (proj2 (Z.eqb_neq _ _) Hnz)).
  rewrite drop_app_length.
  assert (forall m f, sat_add 64 m f < 2 ^ 64) as Hlt by (unfold sat_add; lia).
  destruct (position _ rest) as [pos|] eqn:Hpos.
  - apply position_Some in Hpos as (d & Hd & ->%matches_eq & _).
    rewrite <- (take_drop_middle rest pos d Hd) at 1 2. pose proof (lookup_lt_Some _ _ _ Hd) as Hin.
    set (l1 := take pos rest) in *. set (l2 := drop (S pos) rest) in *.
    assert (length l1 = pos) as Hl1 by (unfold l1; rewrite length_take; lia).
    intros Hrun. replace (<[(length before + pos)%nat := true]> (flags ++ replicate (length (l1 ++ d :: l2)) false))
      with ((flags ++ replicate pos false ++ [true]) ++ replicate (length l2) false) in Hrun.
    2:{ rewrite length_app, Hl1. cbn [length]. rewrite replicate_add. cbn [replicate].
        rewrite insert_app_r_alt, Hl by lia. replace (length before + pos - length before)%nat with pos by lia.
        rewrite insert_app_r_alt by (rewrite length_replicate; lia). rewrite length_replicate, Nat.sub_diag.
        cbn. by rewrite <- !app_assoc. }
    replace (length before + (pos + 1))%nat with (length (before ++ l1 ++ [d])) in Hrun
      by (rewrite !length_app; cbn; lia).
    replace (before ++ l1 ++ d :: l2) with ((before ++ l1 ++ [d]) ++ l2) in Hrun by (by rewrite <- !app_assoc).
    apply IH in Hrun; [|rewrite !length_app, length_replicate; cbn; lia|done|done].
    destruct Hrun as (marks & pool & Hm & -> & Hperm & Hpool & -> & ->).
    exists (replicate pos false ++ true :: marks), pool.
    assert (flagged true rest (replicate pos false ++ true :: marks) = d :: flagged true l2 marks) as Hf.
    { rewrite <- (take_drop_middle rest pos d Hd). fold l1 l2.
      rewrite flagged_app by (by rewrite length_replicate). rewrite <- Hl1 at 1.
      change false with (negb true). by rewrite flagged_other. }
    rewrite Hf. split_and!; [|by rewrite <- !app_assoc| |done| |done].
    + rewrite <- (take_drop_middle rest pos d Hd). fold l1 l2. rewrite !length_app, length_replicate. cbn. lia.
    + cbn [fmap list_fmap app]. by rewrite Hperm.
    + unfold sats_of. cbn [fmap list_fmap]. rewrite sumZ_cons, sat_add_sat; [done|apply Ho|].
      pose proof (is_payment_values (dictated_output <$> flagged true l2 marks)) as Hn.
      rewrite <- list_fmap_compose in Hn. apply Hn. apply Forall_forall. intros x Hx.
      eapply Forall_forall in Hu; [exact Hu|]. apply (list_elem_of_filter (fun o => is_payment o = true)).
      rewrite Hperm, elem_of_app. by left.
  - case_bool_decide as Hs; [|done]. intros Hrun. apply IH in Hrun; [|done..].
    destruct Hrun as (marks & pool & Hm & -> & Hperm & Hpool & -> & ->).
    exists marks, (o :: pool). split_and!; [done|done| |by constructor|done|].
    + rewrite Hperm. apply Permutation_middle.
    + cbn [fmap list_fmap]. rewrite sumZ_cons, sat_add_sat; [done|apply Ho|].
      apply is_payment_values, Forall_forall. intros x Hx.
      eapply Forall_forall in Hu; [exact Hu|]. apply (list_elem_of_filter (fun o => is_payment o = true)).
      rewrite Hperm, elem_of_app. by right.
Qed.

Lemma pay_loop_payments script dictated outs next paid a b :
  pay_loop script dictated outs next paid a b =
  pay_loop script dictated (filter (fun o => is_payment o = true) outs) next paid a b.
Proof.
  revert next paid a b. induction outs as [|o outs IH]; intros next paid a b; [done|]. cbn [pay_loop].
  destruct (Z.eqb_spec (Transaction.value o) 0) as [Hz|Hnz].
  - rewrite filter_cons_False by (unfold is_payment; by rewrite Hz). apply IH.
  - rewrite filter_cons_True by (unfold is_payment; by rewrite (proj2 (Z.eqb_neq _ _) Hnz)). cbn [pay_loop].
    rewrite (proj2 (Z.eqb_neq _ _) Hnz). by repeat case_match.
Qed.

Lemma position_sublist {A} (f : A -> bool) d inc l :
  d :: inc `sublist_of` l -> f d = true ->
  exists pos, position f l = Some pos /\ inc `sublist_of` drop (S pos) l.
Proof.
  intros Hsub Hd. induction l as [|x l IH]; [by apply sublist_nil_r in Hsub|]. cbn [position].
  destruct (f x) eqn:Hx.
  - exists 0%nat. split; [done|]. cbn. rewrite drop_0.
    inversion Hsub; subst; [done|]. by eapply sublist_cons_l in H1 as (?&?&->&?); apply sublist_app_r; exists [], inc; eauto using sublist_nil_l, sublist_cons.
  - inversion Hsub as [|? ? ? Hs|? ? ? Hs]; subst; [congruence|]. destruct (IH Hs) as (pos & Hpos & Hrest).
    exists (S pos). rewrite Hpos. by split.
Qed.

(** Any of the dictated outputs, in their order, and then outputs of the pool
    are accepted, and what is dictated counts as paid to the split. *)
Lemma pay_loop_complete script dictated inc pool next paid a b :
  inc `sublist_of` drop next dictated ->
  Forall (fun d => 0 < sats (dictated_payout d)) inc ->
  Forall (fun o => script_pubkey o = script /\ 0 <= Transaction.value o) pool ->
  exists paid' a' b', pay_loop script dictated ((dictated_output <$> inc) ++ pool) next paid a b = Ok (paid', a', b') /\
    Z.min (a + sats_of inc) (2 ^ 64 - 1) <= a'.
Proof.
  revert next paid a b. induction inc as [|d inc IH]; intros next paid a b Hsub Hnz Hpool.
  - cbn [fmap list_fmap app]. clear Hsub Hnz. change (sats_of []) with 0. rewrite Z.add_0_r. revert next paid a b.
    induction Hpool as [|o pool [Ho Hv] Hpool IH]; intros next paid a b.
    { eexists _, _, _. split; [done|]. lia. }
    cbn [pay_loop].
    case_match; [apply IH|]. case_match.
    { match goal with |- context [pay_loop _ _ _ ?n ?p ?x b] =>
        destruct (IH n p x b) as (paid' & a' & b' & E & Hle) end.
      exists paid', a', b'. split; [exact E|]. unfold sat_add in Hle. lia. }
    rewrite bool_decide_eq_true_2 by done. apply IH.
  - apply Forall_cons in Hnz as [Hd Hnz]. cbn [fmap list_fmap app pay_loop].
    rewrite (proj2 (Z.eqb_neq (Transaction.value (dictated_output d)) 0)) by (cbn; lia).
    destruct (position_sublist (matches (dictated_output d)) d inc _ Hsub (matches_own d)) as (pos & -> & Hrest).
    rewrite drop_drop in Hrest. replace (next + S pos)%nat with (next + (pos + 1))%nat in Hrest by lia.
    edestruct (IH (next + (pos + 1))%nat) as (paid' & a' & b' & E & Hle); [exact Hrest|done|done|].
    exists paid', a', b'. split; [exact E|]. unfold sat_add in Hle. cbn [dictated_output Transaction.value] in Hle.
    assert (0 <= sats_of inc); [|rewrite sats_of_cons; lia].
    apply sumZ_nonneg, Forall_fmap. eapply Forall_impl; [exact Hnz|]. cbn. lia.
Qed.

(** The outputs the pool dictated to the job of a share. *)
Definition dictated_to (splits : DictatedSplits) (j : JobSection) (s : PowSubmit) : list DictatedOutput :=
  from_option split_outputs [] (named_split splits j s).

(** What [check_outputs] decides, once the loop has run. *)
Lemma check_outputs_sound script splits j tx s p :
  Forall (fun o => uint 64 (Transaction.value o)) (outputs tx) ->
  check_outputs script splits j tx s = Ok p ->
  exists marks pool, length marks = length (dictated_to splits j s) /\
    filter (fun o => is_payment o = true) (outputs tx) ≡ₚ
      (dictated_output <$> flagged true (dictated_to splits j s) marks) ++ pool /\
    Forall (fun o => script_pubkey o = script) pool /\
    paid_to_split p = sat_add 64 0 (sats_of (flagged true (dictated_to splits j s) marks)) /\
    paid_to_pool p = sat_add 64 0 (sumZ (Transaction.value <$> pool)) /\
    unpaid_outputs p = unpaid script (dictated_to splits j s) marks /\
    (forall d, named_split splits j s = Some d -> split_prev_hash d = prev_hash j /\ split_value d = coinbase_value j) /\
    (subsidy_only s = false -> sat_add 64 (paid_to_split p) (paid_to_pool p) = coinbase_value j).
Proof.
  intros Hu. unfold check_outputs. fold (dictated_to splits j s).
  destruct (ensure _ _) as [u|] eqn:Hrec; [apply ensure_ok in Hrec|done]. cbn.
  destruct (pay_loop _ _ _ _ _ _ _) as [[[paid a] b]|] eqn:Hloop; [cbn|done].
  destruct (ensure _ _) as [u2|] eqn:Htot; [apply ensure_ok in Htot|done]. cbn. intros [= <-]. cbn.
  destruct (pay_loop_sound script [] (dictated_to splits j s) (outputs tx) [] 0 0 paid a b Hu eq_refl
    ltac:(lia) ltac:(lia) Hloop) as (marks & pool & Hm & -> & Hperm & Hpool & -> & ->).
  exists marks, pool. split_and!; try done.
  - intros d Hd. rewrite Hd in Hrec. by reflect_Z.
  - intros Hs. rewrite Hs in Htot. cbn [orb] in Htot. by reflect_Z.
Qed.

(** What an honest coinbase carries passes the check. *)
Lemma check_outputs_complete script splits j tx s inc pool :
  Forall (fun o => uint 64 (Transaction.value o)) (outputs tx) -> coinbase_value j < 2 ^ 64 - 1 ->
  (forall d, named_split splits j s = Some d -> split_prev_hash d = prev_hash j /\ split_value d = coinbase_value j) ->
  filter (fun o => is_payment o = true) (outputs tx) = (dictated_output <$> inc) ++ pool ->
  inc `sublist_of` dictated_to splits j s -> Forall (fun o => script_pubkey o = script) pool ->
  sumZ (Transaction.value <$> outputs tx) = coinbase_value j ->
  exists p, check_outputs script splits j tx s = Ok p /\ sats_of inc <= paid_to_split p /\
    paid_to_split p + paid_to_pool p = coinbase_value j.
Proof.
  intros Hu Hval Hnamed Hpay Hsub Hpool Hsum.
  assert (Forall (fun o => 0 < Transaction.value o) ((dictated_output <$> inc) ++ pool)) as Hpos.
  { rewrite <- Hpay. apply Forall_forall. intros o [Hp Ho]%list_elem_of_filter. eapply Forall_forall in Hu as [Hu _]; [|exact Ho].
    unfold is_payment in Hp. reflect_Z. lia. }
  apply Forall_app in Hpos as [Hpos1 Hpos2]. rewrite Forall_fmap in Hpos1.
  unfold check_outputs. fold (dictated_to splits j s).
  replace (match named_split splits j s with Some d => _ | None => true end) with true.
  2:{ destruct (named_split splits j s) as [d|]; [|done]. destruct (Hnamed d eq_refl) as [-> ->].
      by rewrite bool_decide_eq_true_2, Z.eqb_refl. }
  cbn [ensure mbind result_bind].
  destruct (pay_loop_complete script (dictated_to splits j s) inc pool 0
    (replicate (length (dictated_to splits j s)) false) 0 0) as (paid & a & b & E & Hle).
  { by rewrite drop_0. } { exact Hpos1. }
  { apply Forall_forall. intros o Ho. eapply Forall_forall in Hpool; [|exact Ho].
    eapply Forall_forall in Hpos2; [|exact Ho]. cbn in Hpos2. split; [done|lia]. }
  rewrite pay_loop_payments, Hpay, E. cbn.
  pose proof (pay_loop_sound script [] (dictated_to splits j s) (outputs tx) [] 0 0 paid a b Hu eq_refl
    ltac:(lia) ltac:(lia)) as Hsound. cbn [app length] in Hsound.
  rewrite pay_loop_payments, Hpay in Hsound. destruct (Hsound E) as (marks & pool2 & _ & _ & Hperm & _ & Ha & Hb).
  assert (sats_of (flagged true (dictated_to splits j s) marks) + sumZ (Transaction.value <$> pool2) = coinbase_value j) as Htot.
  { rewrite <- Hsum. transitivity (sumZ (Transaction.value <$> ((dictated_output <$> flagged true (dictated_to splits j s) marks) ++ pool2))).
    - rewrite fmap_app, sumZ_app, <- list_fmap_compose. done.
    - rewrite <- (sumZ_perm _ _ (fmap_Permutation Transaction.value _ _ Hperm)), <- Hpay. clear.
      induction (outputs tx) as [|o l IH]; [done|]. destruct (decide (is_payment o = true)) as [Hp|Hp].
      + rewrite filter_cons_True by done. cbn [fmap list_fmap]. rewrite !sumZ_cons, IH. lia.
      + rewrite filter_cons_False by done. rewrite IH. cbn [fmap list_fmap]. rewrite sumZ_cons.
        unfold is_payment in Hp. destruct (Z.eqb_spec (Transaction.value o) 0); [lia|done]. }
  assert (0 <= sats_of (flagged true (dictated_to splits j s) marks) /\ 0 <= sumZ (Transaction.value <$> pool2)) as [Hn1 Hn2].
  { assert (Forall (fun o => uint 64 (Transaction.value o)) ((dictated_output <$> flagged true (dictated_to splits j s) marks) ++ pool2)) as Hu2.
    { rewrite <- Hperm, <- Hpay. apply Forall_forall. intros o [_ Ho]%list_elem_of_filter.
      by eapply Forall_forall in Hu. }
    apply Forall_app in Hu2 as [H1 H2]. apply is_payment_values in H1, H2. rewrite <- list_fmap_compose in H1. by split. }
  unfold sat_add in Ha, Hb. rewrite (proj2 (Z.eqb_eq (sat_add 64 a b) (coinbase_value j))) by (unfold sat_add; lia).
  rewrite orb_true_r. cbn. eexists. split; [done|]. cbn. lia.
Qed.


Definition example_dictated : list DictatedOutput :=
  (fun n => {| dictated_payout := {| payout_identity := [zb n]; sats := 1000 * n |}; dictated_script := [zb n; zb 1] |})
    <$> [1; 2; 3].
Definition example_pool_script : bytes := [zb 7; zb 7].
Definition example_dictated_split : DictatedSplit :=
  {| split_outputs := example_dictated; split_value := ShareMsg.coinbase_value example_job;
     split_prev_hash := ShareMsg.prev_hash example_job; sent_at := 0 |}.
Definition example_splits : DictatedSplits := foldl dictate no_splits (replicate 3 example_dictated_split).
Definition example_paying_tx : CoinbaseTx :=
  {| Transaction.version := 1; script_sig_offset := 0; Transaction.script_sig := []; Transaction.sequence := 0;
     outputs := [{| Transaction.value := 0; script_pubkey := [] |};
                 dictated_output {| dictated_payout := {| payout_identity := []; sats := 2000 |}; dictated_script := [zb 2; zb 1] |};
                 {| Transaction.value := 5000000000 - 2000; script_pubkey := example_pool_script |}];
     Transaction.lock_time := 0; has_witness := false |}.

