(* ===== verification/Bounded.v ===== *)
(** The map and the set that forget their oldest entry once they are past a
    capacity ([prime/src/bounded.rs]), and their refinement of a plain list of
    entries, oldest first. *)
From S2P Require Import Prelude.

Section bounded_map.
Context {K V : Type} `{Countable K}.

Record BoundedMap := { entries : gmap K V; order : list K; capacity : nat }.

Definition new (capacity : nat) : BoundedMap := {| entries := ∅; order := []; capacity := Nat.max capacity 1 |}.

Definition len (m : BoundedMap) : nat := size (entries m).
Definition is_empty (m : BoundedMap) : bool := (len m =? 0)%nat.
Definition get (m : BoundedMap) (key : K) : option V := entries m !! key.

Definition forget_order (order : list K) (key : K) : list K :=
  match position (fun k => bool_decide (k = key)) order with
  | Some pos => delete pos order
  | None => order
  end.

Definition get_renewed (m : BoundedMap) (key : K) : BoundedMap * option V :=
  let order :=
    if is_some (entries m !! key) then forget_order (order m) key ++ [key] else order m in
  ({| entries := entries m; order := order; capacity := capacity m |}, entries m !! key).

(** [while self.entries.len() > self.capacity]. *)
Fixpoint forget_oldest (capacity : nat) (entries : gmap K V) (order : list K) : gmap K V * list K :=
  match order with
  | [] => (entries, [])
  | oldest :: rest =>
    if (capacity <? size entries)%nat then forget_oldest capacity (delete oldest entries) rest
    else (entries, order)
  end.

Definition insert (m : BoundedMap) (key : K) (value : V) : BoundedMap * option V :=
  let replaced := entries m !! key in
  let order := (if is_some replaced then forget_order (order m) key else order m) ++ [key] in
  let '(entries, order) := forget_oldest (capacity m) (<[key := value]> (entries m)) order in
  ({| entries := entries; order := order; capacity := capacity m |}, replaced).

Definition remove (m : BoundedMap) (key : K) : BoundedMap * option V :=
  match entries m !! key with
  | None => (m, None)
  | Some removed =>
    ({| entries := delete key (entries m); order := forget_order (order m) key; capacity := capacity m |},
     Some removed)
  end.

Definition retain (keep : K -> V -> bool) (m : BoundedMap) : BoundedMap :=
  let entries := filter (fun e => keep e.1 e.2 = true) (entries m) in
  {| entries := entries; order := filter (fun k => is_some (entries !! k) = true) (order m); capacity := capacity m |}.

(** ** The entries as a list, oldest first *)

Definition others (key : K) (l : list (K * V)) : list (K * V) := filter (fun e => e.1 <> key) l.
Definition queue_get (l : list (K * V)) (key : K) : option V := snd <$> head (filter (fun e => e.1 = key) l).
Definition queue_renew (l : list (K * V)) (key : K) : list (K * V) :=
  match queue_get l key with Some v => others key l ++ [(key, v)] | None => l end.
Definition queue_insert (capacity : nat) (l : list (K * V)) (key : K) (value : V) : list (K * V) :=
  let l := others key l ++ [(key, value)] in drop (length l - capacity) l.

Inductive map_op :=
| OpGet (key : K)
| OpGetRenewed (key : K)
| OpInsert (key : K) (value : V)
| OpRemove (key : K)
| OpRetain (keep : K -> V -> bool).

(** What an operation answers, with the number of entries after it. *)
Definition run_map_op (m : BoundedMap) (o : map_op) : BoundedMap * (option V * nat) :=
  let '(m, answer) :=
    match o with
    | OpGet key => (m, get m key)
    | OpGetRenewed key => get_renewed m key
    | OpInsert key value => insert m key value
    | OpRemove key => remove m key
    | OpRetain keep => (retain keep m, None)
    end in
  (m, (answer, len m)).

Definition run_queue_op (capacity : nat) (l : list (K * V)) (o : map_op) : list (K * V) * (option V * nat) :=
  let '(l, answer) :=
    match o with
    | OpGet key => (l, queue_get l key)
    | OpGetRenewed key => (queue_renew l key, queue_get l key)
    | OpInsert key value => (queue_insert capacity l key value, queue_get l key)
    | OpRemove key => (others key l, queue_get l key)
    | OpRetain keep => (filter (fun e => keep e.1 e.2 = true) l, None)
    end in
  (l, (answer, length l)).

(** The answers to a sequence of operations. *)
Fixpoint answers {S} (run : S -> map_op -> S * (option V * nat)) (s : S) (ops : list map_op)
    : list (option V * nat) :=
  match ops with
  | [] => []
  | o :: ops => let '(s, a) := run s o in a :: answers run s ops
  end.

(** The map holds the entries of the list. *)
Record holds (l : list (K * V)) (m : BoundedMap) : Prop := {
  holds_keys : NoDup l.*1;
  holds_order : order m = l.*1;
  holds_entries : entries m = list_to_map l;
}.

Lemma forget_order_others (keys : list K) key : NoDup keys -> forget_order keys key = filter (fun k => k <> key) keys.
Proof.
  unfold forget_order. induction 1 as [|k keys Hk Hnd IH]; [done|]. cbn [position].
  destruct (decide (k = key)) as [->|Hne].
  - rewrite bool_decide_eq_true_2, filter_cons_False by naive_solver. cbn. symmetry. apply filter_all.
    apply Forall_forall. by intros x Hx ->.
  - rewrite bool_decide_eq_false_2, filter_cons_True by done. rewrite <- IH.
    by destruct (position _ keys).
Qed.

Lemma fst_filter (P : K -> Prop) `{!forall k, Decision (P k)} (l : list (K * V)) :
  (filter (fun e => P e.1) l).*1 = filter P l.*1.
Proof.
  induction l as [|[k v] l IH]; [done|]. destruct (decide (P k)).
  - rewrite filter_cons_True by done. cbn [fmap list_fmap fst]. rewrite filter_cons_True by done. by f_equal.
  - rewrite filter_cons_False by done. cbn [fmap list_fmap fst]. by rewrite filter_cons_False by done.
Qed.

Lemma keys_others key (l : list (K * V)) : (filter (fun e => e.1 <> key) l).*1 = filter (fun k => k <> key) l.*1.
Proof. exact (fst_filter (fun k => k <> key) l). Qed.

Lemma entries_filter (P : K * V -> Prop) `{!forall e, Decision (P e)} l :
  NoDup l.*1 -> filter P (list_to_map l : gmap K V) = list_to_map (filter P l).
Proof.
  induction l as [|[k v] l IH]; intros Hnd; [apply map_filter_empty|]. cbn in Hnd. apply NoDup_cons in Hnd as [Hk Hnd].
  rewrite list_to_map_cons, map_filter_insert, IH by done. cbn [fst snd]. case_decide as HP.
  - by rewrite filter_cons_True.
  - rewrite filter_cons_False by done. rewrite map_filter_delete, IH by done. apply delete_id.
    apply not_elem_of_list_to_map_1. intros Hin. apply Hk. apply list_elem_of_fmap in Hin as (e & -> & He).
    apply list_elem_of_filter in He as [_ He]. by apply list_elem_of_fmap_2.
Qed.

Lemma queue_get_entries (l : list (K * V)) key : NoDup l.*1 -> (list_to_map l : gmap K V) !! key = queue_get l key.
Proof.
  unfold queue_get. induction l as [|[k v] l IH]; intros Hnd; [done|]. cbn in Hnd. apply NoDup_cons in Hnd as [Hk Hnd].
  rewrite list_to_map_cons. destruct (decide (k = key)) as [->|Hne].
  - by rewrite lookup_insert_eq, filter_cons_True.
  - by rewrite lookup_insert_ne, filter_cons_False, IH by done.
Qed.

Lemma holds_get l m key : holds l m -> entries m !! key = queue_get l key.
Proof. intros [Hnd _ ->]. by apply queue_get_entries. Qed.

Lemma holds_len l m : holds l m -> len m = length l.
Proof.
  intros [Hnd _ He]. unfold len. rewrite He, <- (length_fmap fst). symmetry.
  rewrite <- size_dom, dom_list_to_map_L. by rewrite size_list_to_set.
Qed.

Lemma holds_filter l m cap (P : K * V -> Prop) `{!forall e, Decision (P e)} :
  holds l m ->
  holds (filter P l) {| entries := filter P (entries m); order := (filter P l).*1; capacity := cap |}.
Proof.
  intros [Hnd Ho He]. split; cbn; [|done|by rewrite He, entries_filter].
  eapply sublist_NoDup; [exact Hnd|]. apply fmap_sublist, sublist_filter.
Qed.

Lemma holds_others l m key : holds l m ->
  holds (others key l)
    {| entries := delete key (entries m); order := filter (fun k => k <> key) (order m); capacity := capacity m |}.
Proof.
  intros Hm. pose proof (holds_filter l m (capacity m) (fun e => e.1 <> key) Hm) as Hf.
  destruct Hm as [Hnd Ho He]. rewrite keys_others in Hf.
  replace (delete key (entries m)) with (filter (fun e : K * V => e.1 <> key) (entries m)); [by rewrite Ho|].
  apply map_eq. intros k. destruct (decide (k = key)) as [->|Hne].
  - rewrite lookup_delete_eq. apply map_lookup_filter_None. right. intros x _ Hx. by apply Hx.
  - rewrite lookup_delete_ne by done. rewrite map_lookup_filter. destruct (entries m !! k); [|done]. cbn.
    by rewrite option_guard_True.
Qed.

Lemma holds_snoc l m key value cap : holds l m -> key ∉ l.*1 ->
  holds (l ++ [(key, value)])
    {| entries := <[key := value]> (entries m); order := order m ++ [key]; capacity := cap |}.
Proof.
  intros [Hnd Ho He] Hk. split; cbn; rewrite ?fmap_app, ?Ho; [|done|].
  - apply NoDup_app. split_and!; [done| |by apply NoDup_singleton]. intros x Hx Hx'.
    apply list_elem_of_singleton in Hx' as ->. done.
  - rewrite He. rewrite list_to_map_snoc; done.
Qed.

Lemma others_fresh key (l : list (K * V)) : key ∉ (others key l).*1.
Proof.
  intros Hin. apply list_elem_of_fmap in Hin as (e & -> & [He _]%list_elem_of_filter). done.
Qed.

Lemma others_absent key (l : list (K * V)) : queue_get l key = None -> others key l = l.
Proof.
  unfold queue_get, others. intros Hn. apply filter_all, Forall_forall. intros e He Hk.
  assert (e ∈ filter (fun e => e.1 = key) l) as Hin by (by apply list_elem_of_filter).
  destruct (filter _ l); [by apply not_elem_of_nil in Hin|done].
Qed.

Lemma filter_agree {A} (P Q : A -> Prop) `{!forall x, Decision (P x)} `{!forall x, Decision (Q x)} (l : list A) :
  (forall x, x ∈ l -> P x <-> Q x) -> filter P l = filter Q l.
Proof.
  induction l as [|x l IH]; intros Heq; [done|].
  assert (filter P l = filter Q l) as E by (apply IH; intros; apply Heq; by right).
  destruct (decide (P x)) as [Hx|Hx]; pose proof (Heq x ltac:(left)) as Hq.
  - rewrite !filter_cons_True by tauto. by f_equal.
  - by rewrite !filter_cons_False by tauto.
Qed.

Lemma retained_key (P : K * V -> Prop) `{!forall e, Decision (P e)} l e :
  NoDup l.*1 -> e ∈ l -> is_some ((list_to_map (filter P l) : gmap K V) !! e.1) = true <-> P e.
Proof.
  intros Hnd He. destruct e as [k v]. cbn [fst]. rewrite <- entries_filter by done.
  rewrite map_lookup_filter. rewrite (elem_of_list_to_map_1 l k v) by done. cbn.
  destruct (decide (P (k, v))) as [HP|HP].
  - by rewrite option_guard_True.
  - by rewrite option_guard_False.
Qed.

(** Dropping from the front what is past the capacity. *)
Lemma forget_oldest_drop cap (l : list (K * V)) : NoDup l.*1 ->
  forget_oldest cap (list_to_map l) l.*1 =
  (list_to_map (drop (length l - cap) l), (drop (length l - cap) l).*1).
Proof.
  induction l as [|[k v] l IH]; intros Hnd; [done|]. cbn [fmap list_fmap fst forget_oldest].
  assert (size (list_to_map ((k, v) :: l) : gmap K V) = length ((k, v) :: l)) as ->.
  { rewrite <- (holds_len ((k, v) :: l) {| entries := list_to_map ((k, v) :: l); order := ((k, v) :: l).*1; capacity := 0 |}).
    - done.
    - by split. }
  cbn in Hnd. apply NoDup_cons in Hnd as [Hk Hnd]. destruct (Nat.ltb_spec cap (length ((k, v) :: l))) as [Hlt|Hge].
  - rewrite list_to_map_cons, delete_insert_id by (by apply not_elem_of_list_to_map_1). rewrite IH by done.
    cbn [length] in *. by replace (S (length l) - cap)%nat with (S (length l - cap))%nat by lia.
  - by replace (length ((k, v) :: l) - cap)%nat with 0%nat by lia.
Qed.

Lemma renewed_order l m key : holds l m ->
  (if is_some (entries m !! key) then forget_order (order m) key else order m) = filter (fun k => k <> key) (order m).
Proof.
  intros Hm. pose proof (holds_get l m key Hm) as Hg. destruct Hm as [Hnd Ho He].
  destruct (entries m !! key) as [v|]; cbn [is_some]; [apply forget_order_others; by rewrite Ho|].
  rewrite Ho, <- keys_others. f_equal. symmetry. by apply others_absent.
Qed.

Lemma insert_holds l m key value : holds l m ->
  holds (queue_insert (capacity m) l key value) (insert m key value).1 /\
  (insert m key value).2 = queue_get l key /\ capacity (insert m key value).1 = capacity m.
Proof.
  intros Hm. pose proof (holds_get l m key Hm) as Hg. unfold insert, queue_insert.
  rewrite (renewed_order l m key Hm).
  pose proof (holds_snoc _ _ key value 0 (holds_others l m key Hm) (others_fresh key l)) as Hs. cbn in Hs.
  rewrite insert_delete_eq in Hs. destruct Hs as [Hnd Ho He]. cbn in Ho, He. rewrite He, Ho.
  rewrite forget_oldest_drop by done. cbn. split_and!; [|done|done].
  split; cbn; [|done|done]. rewrite fmap_drop. eapply sublist_NoDup; [exact Hnd|apply sublist_drop].
Qed.

Lemma run_map_op_holds l m o : holds l m ->
  holds (run_queue_op (capacity m) l o).1 (run_map_op m o).1 /\
  (run_map_op m o).2 = (run_queue_op (capacity m) l o).2 /\
  capacity (run_map_op m o).1 = capacity m.
Proof.
  intros Hm.
  assert (forall l2 m2 (a : option V), holds l2 m2 -> capacity m2 = capacity m ->
    holds l2 m2 /\ (a, len m2) = (a, length l2) /\ capacity m2 = capacity m) as Hdone.
  { intros l2 m2 a Hm2 Hc. split_and!; [done| |done]. by rewrite (holds_len l2 m2 Hm2). }
  destruct o as [key|key|key value|key|keep]; unfold run_map_op, run_queue_op.
  - unfold get. rewrite (holds_get l m key Hm). by apply Hdone.
  - unfold get_renewed, queue_renew. rewrite (holds_get l m key Hm) in *. apply Hdone; [|done].
    pose proof (renewed_order l m key Hm) as Hr. rewrite (holds_get l m key Hm) in Hr.
    pose proof (holds_get l m key Hm) as Hg.
    destruct (queue_get l key) as [v|]; cbn [is_some] in *; [|by destruct m; cbn in *].
    rewrite Hr. pose proof (holds_snoc _ _ key v (capacity m) (holds_others l m key Hm) (others_fresh key l)) as Hs.
    cbn in Hs. by rewrite insert_delete_eq, insert_id in Hs.
  - destruct (insert_holds l m key value Hm) as (Hi & Ha & Hc). destruct (insert m key value) as [m2 a].
    cbn in Hi, Ha, Hc. subst a. by apply Hdone.
  - pose proof (holds_get l m key Hm) as Hg. pose proof (renewed_order l m key Hm) as Hr. unfold remove.
    destruct (entries m !! key) as [v|]; cbn [is_some] in Hr; rewrite <- Hg.
    + apply Hdone; [|done]. rewrite Hr. by apply holds_others.
    + apply Hdone; [|done]. by rewrite others_absent.
  - apply Hdone; [|done]. unfold retain. destruct Hm as [Hnd Ho He].
    pose proof (holds_filter l m (capacity m) (fun e => keep e.1 e.2 = true) ltac:(by split)) as Hf.
    replace (filter (fun k => is_some (_ !! k) = true) (order m)) with (filter (fun e => keep e.1 e.2 = true) l).*1; [done|].
    destruct Hf as [_ _ Hf]. cbn in Hf. rewrite Hf, Ho. clear - Hnd.
    rewrite <- (fst_filter (fun k => is_some ((list_to_map _ : gmap K V) !! k) = true)).
    f_equal. apply filter_agree. intros e He. symmetry. by apply retained_key.
Qed.

Lemma queue_op_len cap l o : (1 <= cap)%nat -> (length l <= cap)%nat ->
  (length (run_queue_op cap l o).1 <= cap)%nat /\ (run_queue_op cap l o).2.2 = length (run_queue_op cap l o).1.
Proof.
  intros Hc Hl. split; [|by destruct o]. pose proof (fun key => length_filter (fun e : K * V => e.1 <> key) l) as Ho.
  destruct o as [key|key|key value|key|keep]; cbn; try done.
  - unfold queue_renew, queue_get. destruct (filter (fun e => e.1 = key) l) as [|[k v] rest] eqn:Hf; [done|].
    assert ((k, v) ∈ filter (fun e => e.1 = key) l) as Hin by (rewrite Hf; left).
    apply list_elem_of_filter in Hin as [Hk Hin]. cbn in Hk |- *. unfold others. rewrite length_app. cbn [length].
    pose proof (length_filter_lt (fun e : K * V => e.1 <> key) l (k, v) Hin ltac:(naive_solver)). lia.
  - unfold queue_insert. rewrite length_drop. lia.
  - etrans; [apply Ho|done].
  - etrans; [apply length_filter|done].
Qed.

Lemma new_holds n : holds [] (new n).
Proof. split; [apply NoDup_nil_2|done|done]. Qed.

(** The bounded map is a queue of entries. Whatever operations run on a map
    made with a capacity [n], every answer and every length is that of a plain
    list of entries, oldest first, on which an insertion puts the entry at the
    end, dropping what the capacity no longer admits from the front, a renewing
    read moves its entry to the end, and a removal or a retention leaves the
    others in their order; and at most [max n 1] entries are held. In
    particular the hash map and the queue of keys never disagree. *)
Theorem bounded_map_is_a_queue (n : nat) (ops : list map_op) :
  let cap := Nat.max n 1 in
  answers run_map_op (new n) ops = answers (run_queue_op cap) [] ops /\
  Forall (fun a => (a.2 <= cap)%nat) (answers run_map_op (new n) ops).
Proof.
  intros cap.
  assert (forall ops l m, holds l m -> capacity m = cap -> (length l <= cap)%nat ->
    answers run_map_op m ops = answers (run_queue_op cap) l ops /\
    Forall (fun a => (a.2 <= cap)%nat) (answers (run_queue_op cap) l ops)) as Hgen.
  { clear ops. induction ops as [|o ops IH]; intros l m Hm Hc Hl; [done|]. cbn [answers].
    pose proof (queue_op_len cap l o ltac:(lia) Hl) as [Hlen Ha].
    destruct (run_map_op_holds l m o Hm) as (Hm2 & Hans & Hcap). rewrite Hc in *.
    destruct (run_map_op m o) as [m2 a], (run_queue_op cap l o) as [l2 a2]. cbn in *. subst a2.
    destruct (IH l2 m2 Hm2 Hcap Hlen) as [E Hall]. rewrite E. split; [done|]. constructor; [lia|done]. }
  destruct (Hgen ops [] (new n) (new_holds n) eq_refl ltac:(cbn; lia)) as [E Hall]. by rewrite E.
Qed.
End bounded_map.
Arguments BoundedMap : clear implicits.
Arguments BoundedMap K V {_ _}.

(** ** The set *)

Section bounded_set.
Context {T : Type} `{Countable T}.

Definition BoundedSet := BoundedMap T unit.

Definition set_new (capacity : nat) : BoundedSet := new capacity.
Definition set_len (s : BoundedSet) : nat := len s.
Definition set_is_empty (s : BoundedSet) : bool := is_empty s.
Definition contains (s : BoundedSet) (value : T) : bool := is_some (get s value).
Definition set_insert (s : BoundedSet) (value : T) : BoundedSet * bool :=
  if is_some (get s value) then (s, false) else ((insert s value tt).1, true).
Definition set_remove (s : BoundedSet) (value : T) : BoundedSet * bool :=
  let '(s, removed) := remove s value in (s, is_some removed).

(** The members, oldest first. *)
Definition members (s : BoundedSet) : list T := order s.

Lemma set_insert_capacity (s : BoundedSet) v : capacity (set_insert s v).1 = capacity s.
Proof.
  unfold set_insert, insert. destruct (is_some (get s v)); [done|]. by destruct (forget_oldest _ _ _).
Qed.

Lemma set_insert_spec l (s : BoundedSet) v : holds l s ->
  exists l2, holds l2 (set_insert s v).1 /\ contains s v = negb (set_insert s v).2 /\
    (forall w, contains s w = bool_decide (w ∈ members s)) /\
    members (set_insert s v).1 =
      (if contains s v then members s else drop (S (length (members s)) - capacity s) (members s ++ [v])).
Proof.
  intros Hs. unfold set_insert, contains, get, members.
  assert (forall w, is_some (entries s !! w) = bool_decide (w ∈ order s)) as Hmem.
  { intros w. destruct Hs as [Hnd -> ->]. case_bool_decide as Hin.
    - apply list_elem_of_fmap in Hin as ([k u] & -> & Hin). by rewrite (elem_of_list_to_map_1 l k u).
    - by rewrite not_elem_of_list_to_map_1. }
  destruct (entries s !! v) as [u|] eqn:Hv; cbn [is_some]; [by exists l|].
  destruct (insert_holds l s v tt Hs) as (Hi & Ha & Hc). eexists. split; [exact Hi|].
  split_and!; [done|done|]. cbn [fst]. destruct Hi as [_ -> _]. unfold queue_insert.
  rewrite others_absent by (by rewrite <- (holds_get l s v Hs)). destruct Hs as [_ -> _].
  rewrite fmap_drop, fmap_app, length_app, length_fmap, Nat.add_1_r. done.
Qed.
End bounded_set.
Arguments BoundedSet : clear implicits.
Arguments BoundedSet T {_ _}.
