(* ===== verification/Jobs.v ===== *)
(** The jobs of a connection ([prime/src/verify/jobs.rs]): the sections its
    shares install, the tips they are kept for, the transactions and verdicts
    held for a job, and the sections a share is rebuilt on. The state is the
    [Verifier] of [prime/src/verify.rs]. *)
From stdpp Require Import sorting.
From S2P Require Import Prelude Reader Window Bitcoin Transaction Address Messages ShareMsg AbwMsg Config Rows Splits Bounded.

Definition MAX_COINBASE_TYPES : Z := 6.
Definition TIP_GRACE_SECS : Z := 1.
Definition MAX_RECENT_TIPS : nat := 3.
Definition UNSEEN_PARENT_SECS : Z := 120.
Definition MAX_INSTALLING_SHARES : nat := 4096.
Definition MAX_JOBS_HOLDING_TXNS : nat := 4.
Definition MAX_BLOCK_CHECKS : nat := 64.
Definition MAX_INSTALLED_COINBASE_BYTES : Z := 2 * MAX_JOBS * MAX_COINBASE_SECTION_LEN.

Inductive JobTxns :=
| Unrequested
| Requested
| Held (txns : list bytes)
| Refused (reason : RejectReason).

Inductive BlockCheck :=
| Valid (version : Z)
| Invalid (reason : RejectReason)
| Unavailable (retry_at : Z).

Record ReplacedTip := { replaced_hash : bytes; replaced_at : Z }.

Record JobState := {
  installed_job : JobSection;
  coinbases : gmap Z CoinbaseSection;
  parent_seen : bool;
  evicted : bool;
  installed_at : Z;
  generation : Z;
  txns : JobTxns;
  checks : gmap bytes BlockCheck;
}.

Record SharePolicy := { config : ClientConfig; chain : option Chain }.

Record NextBlock := {
  next_prev_hash : option bytes;
  next_bits : Z;
  next_height : option Z;
  next_mintime : option Z;
}.

Record Verifier := {
  policy : SharePolicy;
  jobs : list (option JobState);
  splits : DictatedSplits;
  tip : option bytes;
  next : option NextBlock;
  recent_tips : list ReplacedTip;
  next_generation : Z;
  installed_by : BoundedSet bytes;
  installed_coinbase_bytes : Z;
  installed_coinbase_bytes_cap : Z;
}.

#[global] Instance JobSection_eq_dec : EqDecision JobSection.
Proof. solve_decision. Defined.
#[global] Instance CoinbaseSection_eq_dec : EqDecision CoinbaseSection.
Proof. solve_decision. Defined.
#[global] Instance Chain_eq_dec : EqDecision Chain.
Proof. solve_decision. Defined.

Definition verifier_new (p : SharePolicy) : Verifier :=
  {| policy := p; jobs := replicate (Z.to_nat MAX_JOBS) None; splits := no_splits; tip := None; next := None;
     recent_tips := []; next_generation := 1; installed_by := set_new MAX_INSTALLING_SHARES;
     installed_coinbase_bytes := 0; installed_coinbase_bytes_cap := MAX_INSTALLED_COINBASE_BYTES |}.

Definition set_jobs (v : Verifier) (jobs : list (option JobState)) : Verifier :=
  {| policy := policy v; jobs := jobs; splits := splits v; tip := tip v; next := next v;
     recent_tips := recent_tips v; next_generation := next_generation v; installed_by := installed_by v;
     installed_coinbase_bytes := installed_coinbase_bytes v;
     installed_coinbase_bytes_cap := installed_coinbase_bytes_cap v |}.

(** The slot of a job id: a [u8], and there are [MAX_JOBS] slots. *)
Definition job_slot (v : Verifier) (id : Z) : option JobState := mjoin (jobs v !! Z.to_nat id).
Definition set_slot (v : Verifier) (at_ : nat) (st : JobState) : Verifier := set_jobs v (<[at_ := Some st]> (jobs v)).

Definition coinbase_bytes (cb : CoinbaseSection) : Z := zlen (coinb1 cb) + zlen (coinb2 cb).

Definition coinbases_bytes (m : gmap Z CoinbaseSection) : Z :=
  sumZ ((fun e => coinbase_bytes e.2) <$> map_to_list m).

(** [JobState::coinbase_bytes]. *)
Definition state_coinbase_bytes (st : JobState) : Z := coinbases_bytes (coinbases st).

Definition set_txns (st : JobState) (t : JobTxns) (c : gmap bytes BlockCheck) : JobState :=
  {| installed_job := installed_job st; coinbases := coinbases st; parent_seen := parent_seen st;
     evicted := evicted st; installed_at := installed_at st; generation := generation st; txns := t; checks := c |}.

Definition set_seen (st : JobState) : JobState :=
  {| installed_job := installed_job st; coinbases := coinbases st; parent_seen := true;
     evicted := evicted st; installed_at := installed_at st; generation := generation st;
     txns := txns st; checks := checks st |}.

Definition evict (st : JobState) : JobState :=
  {| installed_job := installed_job st; coinbases := coinbases st; parent_seen := parent_seen st;
     evicted := true; installed_at := installed_at st; generation := generation st;
     txns := Unrequested; checks := ∅ |}.

(** ** The tips *)

Definition parent_is_kept (tip : option bytes) (recent_tips : list ReplacedTip) (prev_hash : bytes) : bool :=
  bool_decide (tip = Some prev_hash) || existsb (fun t => bool_decide (replaced_hash t = prev_hash)) recent_tips.

Definition parent_kept (v : Verifier) (prev_hash : bytes) : bool := parent_is_kept (tip v) (recent_tips v) prev_hash.

Definition recent_tip (v : Verifier) (prev_hash : bytes) : bool :=
  existsb (fun t => bool_decide (replaced_hash t = prev_hash)) (recent_tips v).

Definition within_tip_grace (v : Verifier) (prev_hash : bytes) (now : Z) : bool :=
  existsb (fun t => bool_decide (replaced_hash t = prev_hash) && (sat_sub now (replaced_at t) <=? TIP_GRACE_SECS))
    (recent_tips v).

(** The two loops of [set_tip]: the tips past the grace, then those past the
    number kept, leave from the front. *)
Fixpoint drop_expired_tips (now : Z) (tips : list ReplacedTip) : list ReplacedTip :=
  match tips with
  | [] => []
  | t :: rest => if TIP_GRACE_SECS <? sat_sub now (replaced_at t) then drop_expired_tips now rest else tips
  end.

Fixpoint drop_surplus_tips (tips : list ReplacedTip) : list ReplacedTip :=
  match tips with
  | [] => []
  | t :: rest => if (MAX_RECENT_TIPS <? length tips)%nat then drop_surplus_tips rest else tips
  end.

Definition evict_off_tips (tip : option bytes) (recent : list ReplacedTip) (now : Z) (st : JobState) : JobState :=
  if evicted st then st
  else if parent_is_kept tip recent (prev_hash (installed_job st)) then set_seen st
  else if parent_seen st || (UNSEEN_PARENT_SECS <? sat_sub now (installed_at st)) then evict st
  else st.

Definition evict_jobs_off_recent_tips (v : Verifier) (now : Z) : Verifier :=
  set_jobs v ((fun slot : option JobState => evict_off_tips (tip v) (recent_tips v) now <$> slot) <$> jobs v).

Definition set_tip (v : Verifier) (new_tip : option bytes) (now : Z) : Verifier :=
  let recent :=
    if bool_decide (tip v = new_tip) then recent_tips v
    else
      let pushed := recent_tips v ++ from_option (fun h => [{| replaced_hash := h; replaced_at := now |}]) [] (tip v) in
      drop_surplus_tips (drop_expired_tips now pushed) in
  let v :=
    {| policy := policy v; jobs := jobs v; splits := splits v; tip := new_tip; next := next v;
       recent_tips := recent; next_generation := next_generation v; installed_by := installed_by v;
       installed_coinbase_bytes := installed_coinbase_bytes v;
       installed_coinbase_bytes_cap := installed_coinbase_bytes_cap v |} in
  if is_some new_tip then evict_jobs_off_recent_tips v now else v.

(** ** The job of a slot *)

(** The share carries no job, or the slot's. *)
Definition carries_slot_job (s : PowSubmit) (st : JobState) : bool :=
  match ShareMsg.job s with None => true | Some j => bool_decide (j = installed_job st) end.

Definition installed_generation (v : Verifier) (s : PowSubmit) : option Z :=
  st ← job_slot v (job_id s);
  if carries_slot_job s st then Some (generation st) else None.

Definition live_job (v : Verifier) (id gen : Z) : option JobState :=
  st ← job_slot v id;
  if (generation st =? gen) && negb (evicted st) then Some st else None.

Definition job (v : Verifier) (id gen : Z) : option JobSection := installed_job <$> live_job v id gen.
Definition job_txns (v : Verifier) (id gen : Z) : option JobTxns := txns <$> live_job v id gen.

Definition holds_txns (t : JobTxns) : bool := match t with Held _ => true | _ => false end.

Definition older (a b : Z * nat) : Prop := a.1 < b.1 \/ (a.1 = b.1 /\ (a.2 <= b.2)%nat).

(** The slots that hold transactions, with their generations. *)
Definition held_entry (e : nat * option JobState) : option (Z * nat) :=
  match e with
  | (at_, Some st) => if holds_txns (txns st) then Some (generation st, at_) else None
  | (_, None) => None
  end.

Definition holding (js : list (option JobState)) : list (Z * nat) := omap held_entry (imap pair js).

Definition release (v : Verifier) (at_ : nat) : Verifier :=
  match mjoin (jobs v !! at_) with
  | Some st => set_slot v at_ (set_txns st Unrequested ∅)
  | None => v
  end.

#[global] Instance older_dec : RelDecision older.
Proof. intros a b. unfold older. apply _. Defined.

Definition release_oldest_held_txns (v : Verifier) : Verifier :=
  let h := holding (jobs v) in
  if (length h <? MAX_JOBS_HOLDING_TXNS)%nat then v
  else foldl release v (snd <$> take (length h - MAX_JOBS_HOLDING_TXNS) (merge_sort older h)).

Definition set_job_txns (v : Verifier) (id gen : Z) (t : JobTxns) : Verifier * bool :=
  match live_job v id gen with
  | None => (v, false)
  | Some st =>
    let v := set_slot v (Z.to_nat id) (set_txns st t (checks st)) in
    (if holds_txns t then release_oldest_held_txns v else v, true)
  end.

Definition block_check (v : Verifier) (id gen : Z) (digest : bytes) : option BlockCheck :=
  st ← live_job v id gen; checks st !! digest.

Definition record_block_check (v : Verifier) (id gen : Z) (digest : bytes) (check : BlockCheck) : Verifier :=
  match live_job v id gen with
  | None => v
  | Some st =>
    let held := if (MAX_BLOCK_CHECKS <=? size (checks st))%nat then ∅ else checks st in
    set_slot v (Z.to_nat id) (set_txns st (txns st) (<[digest := check]> held))
  end.

(** ** The sections of a share *)

Definition brings_new_job (v : Verifier) (s : PowSubmit) : bool :=
  match ShareMsg.job s with
  | None => false
  | Some j => match job_slot v (job_id s) with None => true | Some st => bool_decide (installed_job st <> j) end
  end.

Definition check_coinbase_id (s : PowSubmit) : result RejectReason () :=
  ensure (if subsidy_only s then coinbase_id s =? COINBASE_ID_SUBSIDY_ONLY else coinbase_id s <? MAX_COINBASE_TYPES)
    BadCoinbaseId.

Definition parent_unseen (v : Verifier) (s : PowSubmit) (prev : bytes) : bool :=
  match job_slot v (job_id s) with
  | Some st => negb (evicted st) && negb (parent_seen st) && bool_decide (prev_hash (installed_job st) = prev)
  | None => false
  end.

Definition names_evicted_job (v : Verifier) (s : PowSubmit) : bool :=
  match job_slot v (job_id s) with
  | Some st =>
    evicted st && match ShareMsg.job s with
                  | None => true
                  | Some j => bool_decide (prev_hash j = prev_hash (installed_job st))
                  end
  | None => false
  end.

Definition resolve (v : Verifier) (s : PowSubmit) : result RejectReason (JobSection * CoinbaseSection) :=
  let slot := job_slot v (job_id s) in
  let new_job := brings_new_job v s in
  j ← match ShareMsg.job s, new_job with
      | Some j, true => Ok j
      | _, _ => ok_or BadJobId (installed_job <$> slot)
      end;
  cb ← match ShareMsg.coinbase s with
       | Some cb =>
         _ ← ensure (coinbase_section_id cb =? coinbase_id s) CoinbaseIdMismatch;
         _ ← ensure (coinbase_bytes cb <=? MAX_COINBASE_SECTION_LEN) CoinbaseTooLarge;
         Ok cb
       | None =>
         ok_or CoinbaseMissing
           (if new_job then None else slot ≫= fun st => coinbases st !! coinbase_id s)
       end;
  Ok (j, cb).

Definition new_state (v : Verifier) (j : JobSection) (now : Z) : JobState :=
  {| installed_job := j; coinbases := ∅; parent_seen := parent_kept v (prev_hash j); evicted := false;
     installed_at := now; generation := next_generation v; txns := Unrequested; checks := ∅ |}.

(** Installing a new job in its slot. *)
Definition install_job (v : Verifier) (id : Z) (j : JobSection) (now : Z) : Verifier :=
  {| policy := policy v; jobs := <[Z.to_nat id := Some (new_state v j now)]> (jobs v);
     splits := splits v; tip := tip v; next := next v; recent_tips := recent_tips v;
     next_generation := wrap 64 (next_generation v + 1); installed_by := installed_by v;
     installed_coinbase_bytes := installed_coinbase_bytes v;
     installed_coinbase_bytes_cap := installed_coinbase_bytes_cap v |}.

Definition add_coinbase (st : JobState) (cb : CoinbaseSection) : JobState :=
  {| installed_job := installed_job st; coinbases := <[coinbase_section_id cb := cb]> (coinbases st);
     parent_seen := parent_seen st; evicted := evicted st; installed_at := installed_at st;
     generation := generation st; txns := txns st; checks := checks st |}.

Definition install_coinbase (v : Verifier) (id : Z) (cb : CoinbaseSection) : option Verifier :=
  st ← job_slot v id;
  Some (set_slot v (Z.to_nat id) (add_coinbase st cb)).

Definition note_installed (v : Verifier) (bytes_installed : Z) (by_ : option bytes) : Verifier :=
  {| policy := policy v; jobs := jobs v; splits := splits v; tip := tip v; next := next v;
     recent_tips := recent_tips v; next_generation := next_generation v;
     installed_by := match by_ with Some h => (set_insert (installed_by v) h).1 | None => installed_by v end;
     installed_coinbase_bytes := bytes_installed;
     installed_coinbase_bytes_cap := installed_coinbase_bytes_cap v |}.

(** The coinbase of the share's id in its slot. *)
Definition slot_coinbase (v : Verifier) (s : PowSubmit) (cb : CoinbaseSection) : option CoinbaseSection :=
  st ← job_slot v (job_id s); coinbases st !! coinbase_section_id cb.

Definition changes_slot (v : Verifier) (s : PowSubmit) : bool :=
  brings_new_job v s ||
  match ShareMsg.coinbase s with
  | Some cb => brings_new_job v s || bool_decide (slot_coinbase v s cb <> Some cb)
  | None => false
  end.

(** The installed coinbase bytes once the share's sections are in. *)
Definition projected_bytes (v : Verifier) (s : PowSubmit) : Z :=
  let new_job := brings_new_job v s in
  let released := if new_job then from_option state_coinbase_bytes 0 (job_slot v (job_id s)) else 0 in
  let replaced :=
    match ShareMsg.coinbase s with
    | Some cb => if new_job then 0 else from_option coinbase_bytes 0 (slot_coinbase v s cb)
    | None => 0
    end in
  let added := from_option coinbase_bytes 0 (ShareMsg.coinbase s) in
  sat_sub (installed_coinbase_bytes v) (released + replaced) + added.

(** [None] where an [expect] fails. *)
Definition install_sections (v : Verifier) (s : PowSubmit) (raw_pow_hash : bytes) (now : Z)
    : option (result RejectReason Verifier) :=
  let changes := changes_slot v s in
  if changes && contains (installed_by v) raw_pow_hash then Some (Err DuplicateWork) else
  let projected := projected_bytes v s in
  if is_some (ShareMsg.coinbase s) && (installed_coinbase_bytes_cap v <? projected)
  then Some (Err CoinbaseTooLarge) else
  v ← (if brings_new_job v s
       then j ← ShareMsg.job s; Some (install_job v (job_id s) j now)
       else Some v);
  v ← match ShareMsg.coinbase s with
      | Some cb => install_coinbase v (job_id s) cb
      | None => Some v
      end;
  let v := note_installed v projected (if changes then Some raw_pow_hash else None) in
  Some (Ok (if is_some (tip v) then evict_jobs_off_recent_tips v now else v)).

(** ** Slots and what they add up to *)

Definition slot_sum (f : JobState -> Z) (js : list (option JobState)) : Z := sumZ (from_option f 0 <$> js).

Lemma slot_sum_insert f js i o o' : js !! i = Some o ->
  slot_sum f (<[i := o']> js) = slot_sum f js - from_option f 0 o + from_option f 0 o'.
Proof.
  unfold slot_sum. revert i. induction js as [|x js IH]; intros [|i] Hi; try done.
  - injection Hi as ->. cbn. lia.
  - change (<[S i := o']> (x :: js)) with (x :: <[i := o']> js). cbn [fmap list_fmap]. rewrite !sumZ_cons.
    rewrite IH by exact Hi. lia.
Qed.

Lemma slot_sum_map f (g : JobState -> JobState) js : (forall st, f (g st) = f st) ->
  slot_sum f ((fun slot : option JobState => g <$> slot) <$> js) = slot_sum f js.
Proof.
  intros Hfg. unfold slot_sum. rewrite <- list_fmap_compose. f_equal. apply list_fmap_ext.
  intros _ [st|] _; [apply Hfg|done].
Qed.

Lemma coinbases_bytes_insert m k cb : 
  coinbases_bytes (<[k := cb]> m) = coinbases_bytes m - from_option coinbase_bytes 0 (m !! k) + coinbase_bytes cb.
Proof.
  assert (forall m, m !! k = None -> coinbases_bytes (<[k := cb]> m) = coinbases_bytes m + coinbase_bytes cb) as Hnew.
  { intros m0 Hn. unfold coinbases_bytes.
    rewrite (sumZ_perm _ _ (fmap_Permutation _ _ _ (map_to_list_insert m0 k cb Hn))).
    cbn [fmap list_fmap]. rewrite sumZ_cons. cbn. lia. }
  destruct (m !! k) as [old|] eqn:Hk; [|rewrite Hnew by done; cbn; lia]. cbn.
  assert (coinbases_bytes m = coinbases_bytes (delete k m) + coinbase_bytes old) as Hd.
  { unfold coinbases_bytes. rewrite (sumZ_perm _ _ (fmap_Permutation _ _ _ (Permutation_sym (map_to_list_delete m k old Hk)))).
    cbn [fmap list_fmap]. rewrite sumZ_cons. cbn. lia. }
  rewrite <- insert_delete_eq, Hnew by apply lookup_delete_eq. lia.
Qed.

(** The slots that hold transactions, by position. *)
Definition holds_at (js : list (option JobState)) (i : nat) (st : JobState) : Prop :=
  js !! i = Some (Some st) /\ holds_txns (txns st) = true.

Lemma elem_of_holding js g i :
  (g, i) ∈ holding js <-> exists st, holds_at js i st /\ g = generation st.
Proof.
  unfold holding, holds_at. rewrite list_elem_of_omap. split.
  - intros ([k o] & Hin & Hf). apply elem_of_lookup_imap in Hin as (k2 & o2 & Heq & Ho).
    apply pair_eq in Heq as [<- <-]. destruct o as [st|]; cbn in Hf; [|done].
    destruct (holds_txns (txns st)) eqn:Ht; [|done].
    injection Hf as <- <-. by exists st.
  - intros (st & (Hi & Ht) & ->). exists (i, Some st). split; [|cbn; by rewrite Ht].
    apply elem_of_lookup_imap. by exists i, (Some st).
Qed.

Lemma holding_positions js : NoDup (holding js).*2.
Proof.
  unfold holding.
  assert (forall (f : nat -> nat), (forall i j, (i < j)%nat -> (f i < f j)%nat) ->
    NoDup (omap held_entry (imap (fun i x => (f i, x)) js)).*2 /\
    forall i, i ∈ (omap held_entry (imap (fun i x => (f i, x)) js)).*2 -> (f 0%nat <= i)%nat) as Hgen.
  { induction js as [|x js IH]; intros f Hf; [split; [apply NoDup_nil_2|intros i Hn; by apply not_elem_of_nil in Hn]|].
    rewrite imap_cons. cbn [omap list_omap].
    destruct (IH (f ∘ S)) as [Hnd Hge]; [intros; apply Hf; lia|].
    pose proof (Hf 0%nat 1%nat ltac:(lia)) as H01. change ((f ∘ S) 0%nat) with (f 1%nat) in Hge.
    destruct (held_entry (f 0%nat, x)) as [[g k]|] eqn:He; cbn [fmap list_fmap snd].
    - assert (k = f 0%nat) as ->.
      { destruct x as [st|]; cbn in He; [|done]. destruct (holds_txns _); [by injection He|done]. }
      split.
      + apply NoDup_cons. split; [|exact Hnd]. intros Hin. specialize (Hge _ Hin). lia.
      + intros i [->|Hi]%elem_of_cons; [done|]. specialize (Hge _ Hi). lia.
    - split; [exact Hnd|]. intros i Hi. specialize (Hge _ Hi). lia. }
  apply (Hgen id). intros. cbn. lia.
Qed.

(** Fewer slots hold transactions when those that do are among [pos]. *)
Lemma holding_le js (pos : list nat) :
  (forall i st, holds_at js i st -> i ∈ pos) -> (length (holding js) <= length pos)%nat.
Proof.
  intros Hin. rewrite <- (length_fmap snd). apply submseteq_length, NoDup_submseteq; [apply holding_positions|].
  intros i ([g k] & -> & He)%list_elem_of_fmap. apply elem_of_holding in He as (st & Hst & ->). by eapply Hin.
Qed.

Lemma holding_sub js js' :
  (forall i st, holds_at js' i st -> exists st0, holds_at js i st0) -> (length (holding js') <= length (holding js))%nat.
Proof.
  intros Hsub. rewrite <- (length_fmap snd (holding js)). apply holding_le. intros i st Hst.
  destruct (Hsub i st Hst) as [st0 H0]. apply list_elem_of_fmap. exists (generation st0, i). split; [done|].
  apply elem_of_holding. by exists st0.
Qed.

(** ** The invariant of the state *)

Record state_ok (st : JobState) : Prop := {
  so_checks : (size (checks st) <= MAX_BLOCK_CHECKS)%nat;
  so_evicted : evicted st = true -> txns st = Unrequested /\ checks st = ∅;
}.

(** Everything but the bound on the jobs that hold transactions. *)
Record slots_wf (v : Verifier) : Prop := {
  sw_slots : length (jobs v) = Z.to_nat MAX_JOBS;
  sw_bytes : installed_coinbase_bytes v = slot_sum state_coinbase_bytes (jobs v);
  sw_cap : installed_coinbase_bytes v <= installed_coinbase_bytes_cap v;
  sw_next : 0 < next_generation v;
  sw_gen : forall i st, jobs v !! i = Some (Some st) -> 0 < generation st < next_generation v;
  sw_unique : forall i k st st', jobs v !! i = Some (Some st) -> jobs v !! k = Some (Some st') ->
    generation st = generation st' -> i = k;
  sw_tips : (length (recent_tips v) <= MAX_RECENT_TIPS)%nat;
  sw_state : forall i st, jobs v !! i = Some (Some st) -> state_ok st;
  sw_installers : exists l, holds l (installed_by v);
  sw_capacity : (1 <= capacity (installed_by v))%nat;
}.

Definition holders_bounded (v : Verifier) : Prop := (length (holding (jobs v)) <= MAX_JOBS_HOLDING_TXNS)%nat.

(** A slot's job, with other transactions and verdicts, or evicted. *)
Record kept_state (st st' : JobState) : Prop := {
  ks_job : installed_job st' = installed_job st;
  ks_coinbases : coinbases st' = coinbases st;
  ks_generation : generation st' = generation st;
  ks_evicted : evicted st = true -> evicted st' = true;
  ks_ok : state_ok st -> state_ok st';
}.

#[global] Instance kept_state_refl : Reflexive kept_state.
Proof. by split. Qed.

Definition kept_slots (js js' : list (option JobState)) : Prop := Forall2 (option_Forall2 kept_state) js js'.

Lemma kept_slots_refl js : kept_slots js js.
Proof. apply Forall_Forall2_diag, Forall_forall. intros [st|] _; constructor. reflexivity. Qed.

Lemma kept_slots_lookup js js' i st' : kept_slots js js' -> js' !! i = Some (Some st') ->
  exists st, js !! i = Some (Some st) /\ kept_state st st'.
Proof.
  intros Hk Hi. destruct (Forall2_lookup_r _ _ _ _ _ Hk Hi) as (o & Ho & Hr).
  inversion Hr; subst. by eexists.
Qed.

Lemma kept_slots_insert js i st st' : js !! i = Some (Some st) -> kept_state st st' ->
  kept_slots js (<[i := Some st']> js).
Proof.
  intros Hi Hs. rewrite <- (list_insert_id js i (Some st)) at 1 by done.
  apply Forall2_insert; [apply kept_slots_refl|by constructor].
Qed.

Lemma kept_slots_map js f : (forall st, kept_state st (f st)) ->
  kept_slots js ((fun slot : option JobState => f <$> slot) <$> js).
Proof.
  intros Hf. induction js as [|[st|] js IH]; constructor; try done; constructor. apply Hf.
Qed.

Lemma slots_wf_kept v js : slots_wf v -> kept_slots (jobs v) js -> slots_wf (set_jobs v js).
Proof.
  intros [Hlen Hbytes Hcap Hnext Hgen Hun Htips Hst Hin Hcapacity] Hk. split; cbn; try done.
  - rewrite <- Hlen. symmetry. by eapply Forall2_length.
  - rewrite Hbytes. clear - Hk. induction Hk as [|o o' js js' Ho Hk IH]; [done|]. unfold slot_sum in *.
    cbn [fmap list_fmap]. rewrite !sumZ_cons, IH. f_equal.
    destruct Ho as [st st' Hs|]; [|done]. cbn. unfold state_coinbase_bytes. by rewrite (ks_coinbases _ _ Hs).
  - intros i st' Hi. destruct (kept_slots_lookup _ _ _ _ Hk Hi) as (st & Hi0 & Hs).
    rewrite (ks_generation _ _ Hs). by eapply Hgen.
  - intros i k st1 st2 H1 H2. destruct (kept_slots_lookup _ _ _ _ Hk H1) as (s1 & H1' & K1).
    destruct (kept_slots_lookup _ _ _ _ Hk H2) as (s2 & H2' & K2).
    rewrite (ks_generation _ _ K1), (ks_generation _ _ K2). by eapply Hun.
  - intros i st' Hi. destruct (kept_slots_lookup _ _ _ _ Hk Hi) as (st & Hi0 & Hs).
    eapply ks_ok; [exact Hs|]. by eapply Hst.
Qed.

Lemma evict_kept st : kept_state st (evict st).
Proof. split; try done. intros _. split; cbn; [unfold MAX_BLOCK_CHECKS; rewrite map_size_empty; lia|done]. Qed.

Lemma set_seen_kept st : kept_state st (set_seen st).
Proof. split; try done. by intros []. Qed.

Lemma evict_off_tips_kept tip recent now st : kept_state st (evict_off_tips tip recent now st).
Proof. unfold evict_off_tips. repeat case_match; first [reflexivity|apply set_seen_kept|apply evict_kept]. Qed.

Lemma evict_off_tips_holds tip recent now st :
  holds_txns (txns (evict_off_tips tip recent now st)) = true -> holds_txns (txns st) = true.
Proof. unfold evict_off_tips. by repeat case_match. Qed.

Lemma evict_jobs_kept v now : kept_slots (jobs v) (jobs (evict_jobs_off_recent_tips v now)).
Proof. apply kept_slots_map. intros. apply evict_off_tips_kept. Qed.

Lemma evict_jobs_holding v now :
  (length (holding (jobs (evict_jobs_off_recent_tips v now))) <= length (holding (jobs v)))%nat.
Proof.
  apply holding_sub. intros i st [Hi Ht]. cbn in Hi. rewrite list_lookup_fmap in Hi.
  destruct (jobs v !! i) as [[st0|]|] eqn:E; cbn in Hi; try done. injection Hi as <-. exists st0.
  split; [done|]. by eapply evict_off_tips_holds.
Qed.

(** The two parts together. *)
Record jobs_ok (v : Verifier) : Prop := { jo_slots : slots_wf v; jo_holders : holders_bounded v }.

Lemma evict_jobs_ok v now : jobs_ok v -> jobs_ok (evict_jobs_off_recent_tips v now).
Proof.
  intros [Hw Hh]. split; [apply slots_wf_kept; [done|apply evict_jobs_kept]|].
  pose proof (evict_jobs_holding v now). unfold holders_bounded in *. lia.
Qed.

Lemma drop_surplus_tips_le l : (length (drop_surplus_tips l) <= MAX_RECENT_TIPS)%nat.
Proof.
  induction l as [|t l IH]; [cbn; lia|]. cbn [drop_surplus_tips].
  destruct (Nat.ltb_spec MAX_RECENT_TIPS (length (t :: l))); [exact IH|lia].
Qed.

Lemma set_tip_ok v t now : jobs_ok v -> jobs_ok (set_tip v t now).
Proof.
  intros [Hw Hh]. unfold set_tip. cbn zeta. set (v2 := {| policy := _ |}).
  assert (jobs_ok v2) as H2.
  { split; [|exact Hh]. destruct Hw as [? ? ? ? ? ? ? ? ? ?]. split; cbn; try done.
    case_bool_decide; [done|apply drop_surplus_tips_le]. }
  destruct (is_some t); [by apply evict_jobs_ok|exact H2].
Qed.

Lemma set_txns_kept st t c : evicted st = false -> (size c <= MAX_BLOCK_CHECKS)%nat -> kept_state st (set_txns st t c).
Proof. intros He Hc. split; try done. intros _. split; [done|]. cbn. congruence. Qed.

Lemma release_kept st : kept_state st (set_txns st Unrequested ∅).
Proof. split; try done. intros _. split; cbn; [rewrite map_size_empty; unfold MAX_BLOCK_CHECKS; lia|done]. Qed.

Lemma kept_slots_trans js1 js2 js3 : kept_slots js1 js2 -> kept_slots js2 js3 -> kept_slots js1 js3.
Proof.
  intros H12 H23. revert js3 H23. induction H12 as [|o1 o2 js1 js2 H H12 IH]; intros js3 H23; inversion H23; subst; [done|].
  constructor; [|by apply IH]. inversion H; subst; match goal with H : option_Forall2 _ _ _ |- _ => inversion H; subst end;
    try (constructor; fail); try done. constructor.
  match goal with A : kept_state _ _, B : kept_state _ _, C : option_Forall2 _ _ _ |- _ => inversion C; subst; destruct A, B end.
  all: try (split; try congruence; naive_solver).
Qed.

(** Releasing slots empties those, and no others. *)
Lemma release_slots v ats : exists js, foldl release v ats = set_jobs v js /\ kept_slots (jobs v) js /\
  (forall i, i ∉ ats -> js !! i = jobs v !! i) /\ (forall i st, holds_at js i st -> i ∉ ats).
Proof.
  revert v. induction ats as [|at_ ats IH]; intros v.
  { exists (jobs v). split_and!; [by destruct v|apply kept_slots_refl|done|by intros ?? _ ?%not_elem_of_nil]. }
  cbn [foldl]. destruct (IH (release v at_)) as (js & -> & Hk & Hsame & Hnot). unfold release in *.
  destruct (jobs v !! at_) as [[st|]|] eqn:E; cbn [mjoin option_join] in *.
  - exists js. cbn [set_slot set_jobs jobs] in *. split_and!; [done| | |].
    + eapply kept_slots_trans; [|exact Hk]. eapply kept_slots_insert; [exact E|apply release_kept].
    + intros i [Hne Hi]%not_elem_of_cons. rewrite Hsame by done. by rewrite list_lookup_insert_ne.
    + intros i st' Hst [->|Hi]%elem_of_cons; [|by eapply Hnot].
      assert (at_ ∉ ats) as Hn by (by eapply Hnot). destruct Hst as [Hst Ht]. rewrite (Hsame at_ Hn) in Hst.
      rewrite list_lookup_insert_eq in Hst by (by eapply lookup_lt_Some). by injection Hst as <-.
  - exists js. split_and!; [done|done| |].
    + intros i [Hne Hi]%not_elem_of_cons. by apply Hsame.
    + intros i st' Hst [->|Hi]%elem_of_cons; [|by eapply Hnot].
      assert (at_ ∉ ats) as Hn by (by eapply Hnot). destruct Hst as [Hst Ht]. rewrite (Hsame at_ Hn) in Hst. congruence.
  - exists js. split_and!; [done|done| |].
    + intros i [Hne Hi]%not_elem_of_cons. by apply Hsame.
    + intros i st' Hst [->|Hi]%elem_of_cons; [|by eapply Hnot].
      assert (at_ ∉ ats) as Hn by (by eapply Hnot). destruct Hst as [Hst Ht]. rewrite (Hsame at_ Hn) in Hst. congruence.
Qed.

#[global] Instance older_total : Total older.
Proof. intros [g1 i1] [g2 i2]. unfold older. cbn. lia. Qed.
#[global] Instance older_trans : Transitive older.
Proof. intros [g1 i1] [g2 i2] [g3 i3]. unfold older. cbn. lia. Qed.

(** What is released is older than what stays, and at most
    [MAX_JOBS_HOLDING_TXNS] slots stay. *)
Lemma release_oldest_spec v : slots_wf v -> exists js, release_oldest_held_txns v = set_jobs v js /\
  kept_slots (jobs v) js /\ (length (holding js) <= MAX_JOBS_HOLDING_TXNS)%nat /\
  (forall i st, holds_at js i st -> holds_at (jobs v) i st) /\
  (forall i k st0 st, holds_at (jobs v) i st0 -> js !! i <> Some (Some st0) -> holds_at js k st ->
     generation st0 < generation st).
Proof.
  intros Hw. unfold release_oldest_held_txns.
  set (h := holding (jobs v)). destruct (Nat.ltb_spec (length h) MAX_JOBS_HOLDING_TXNS) as [Hlt|Hge].
  { exists (jobs v). split_and!; [by destruct v|apply kept_slots_refl|unfold h in *; lia|done|].
    intros i k st0 st [Hi _] Hn. congruence. }
  set (sorted := merge_sort older h). set (n := (length h - MAX_JOBS_HOLDING_TXNS)%nat).
  assert (sorted ≡ₚ h) as Hperm by apply merge_sort_Permutation.
  assert (NoDup sorted.*2) as Hnd.
  { rewrite Hperm. apply holding_positions. }
  destruct (release_slots v (snd <$> take n sorted)) as (js & -> & Hk & Hsame & Hnot).
  exists js. split; [done|]. split; [done|].
  assert (forall i st, holds_at js i st -> holds_at (jobs v) i st) as Hold.
  { intros i st Hst. pose proof (Hnot i st Hst) as Hn. destruct Hst as [Hi Ht].
    rewrite Hsame in Hi by done. by split. }
  assert (forall i st, holds_at (jobs v) i st -> (generation st, i) ∈ sorted) as Hin.
  { intros i st Hst. rewrite Hperm. apply elem_of_holding. by exists st. }
  assert (forall k st, holds_at js k st -> (generation st, k) ∈ drop n sorted) as Hstay.
  { intros k st Hst. specialize (Hin k st (Hold _ _ Hst)). rewrite <- (take_drop n sorted) in Hin.
    apply elem_of_app in Hin as [Hin|Hin]; [|done]. exfalso. apply (Hnot _ _ Hst).
    apply list_elem_of_fmap. by exists (generation st, k). }
  split_and!.
  - transitivity (length (drop n sorted).*2).
    + apply holding_le. intros i st Hst. apply list_elem_of_fmap. exists (generation st, i). split; [done|].
      by apply Hstay.
    + rewrite length_fmap, length_drop. rewrite (Permutation_length Hperm). unfold n. lia.
  - exact Hold.
  - intros i k st0 st H0 Hn Hst.
    assert ((generation st0, i) ∈ take n sorted) as Htake.
    { specialize (Hin i st0 H0). rewrite <- (take_drop n sorted) in Hin. apply elem_of_app in Hin as [|Hin]; [done|].
      exfalso. apply Hn. rewrite Hsame; [apply H0|]. intros Hi. rewrite <- (take_drop n sorted), fmap_app in Hnd.
      apply NoDup_app in Hnd as (_ & Hdis & _). apply (Hdis i Hi). apply list_elem_of_fmap.
      by exists (generation st0, i). }
    assert (older (generation st0, i) (generation st, k)) as Hle.
    { assert (Sorted older sorted) as Hs by apply Sorted_merge_sort, _.
      apply Sorted_StronglySorted in Hs; [|intros ???; apply older_trans].
      rewrite <- (take_drop n sorted) in Hs. eapply StronglySorted_app_1_elem_of; [exact Hs|done|by apply Hstay]. }
    destruct Hle as [Hlt|[Heq _]]; [exact Hlt|]. cbn in Heq.
    assert (i = k) as ->.
    { eapply sw_unique; [exact Hw|apply H0|apply (Hold _ _ Hst)|done]. }
    exfalso. apply Hn. pose proof (Hold _ _ Hst) as [Hv _]. destruct H0 as [H0 _]. rewrite H0 in Hv.
    injection Hv as <-. apply Hst.
Qed.

Lemma job_slot_lookup v id st : job_slot v id = Some st -> jobs v !! Z.to_nat id = Some (Some st).
Proof. unfold job_slot. by destruct (jobs v !! Z.to_nat id) as [[|]|]; cbn; intros [= ->]. Qed.

Lemma live_job_inv v id gen st : live_job v id gen = Some st ->
  jobs v !! Z.to_nat id = Some (Some st) /\ generation st = gen /\ evicted st = false.
Proof.
  unfold live_job. destruct (job_slot v id) as [st0|] eqn:E; cbn; [|done].
  destruct ((generation st0 =? gen) && negb (evicted st0)) eqn:Hb; [|done]. intros [= <-]. reflect_Z.
  split_and!; [by apply job_slot_lookup|done|done].
Qed.

Lemma kept_set_slot v i st st' : jobs v !! i = Some (Some st) -> kept_state st st' ->
  kept_slots (jobs v) (jobs (set_slot v i st')).
Proof. apply kept_slots_insert. Qed.

(** Setting one slot's transactions leaves at most one more slot holding some. *)
Lemma holding_insert js i st st' : js !! i = Some (Some st) ->
  (length (holding (<[i := Some st']> js)) <= length (holding js) + if holds_txns (txns st') then 1 else 0)%nat.
Proof.
  intros Hi. destruct (holds_txns (txns st')) eqn:Ht.
  - rewrite <- (length_fmap snd (holding js)). transitivity (length (i :: (holding js).*2)); [|cbn; lia].
    apply holding_le. intros k st2 [Hk Ht2]. destruct (decide (i = k)) as [->|Hne]; [by left|].
    rewrite list_lookup_insert_ne in Hk by done. right. apply list_elem_of_fmap. exists (generation st2, k).
    split; [done|]. apply elem_of_holding. by exists st2.
  - rewrite Nat.add_0_r. apply holding_sub. intros k st2 [Hk Ht2].
    destruct (decide (i = k)) as [->|Hne].
    + rewrite list_lookup_insert_eq in Hk by (by eapply lookup_lt_Some). injection Hk as <-. congruence.
    + rewrite list_lookup_insert_ne in Hk by done. by exists st2.
Qed.

(** [set_job_txns], whole. *)
Lemma set_job_txns_spec v id gen t : jobs_ok v ->
  (live_job v id gen = None /\ set_job_txns v id gen t = (v, false)) \/
  exists st js, live_job v id gen = Some st /\ set_job_txns v id gen t = (set_jobs v js, true) /\
    kept_slots (jobs v) js /\ (length (holding js) <= MAX_JOBS_HOLDING_TXNS)%nat /\
    let set := <[Z.to_nat id := Some (set_txns st t (checks st))]> (jobs v) in
    (holds_txns t = false -> js = set) /\
    (forall i st2, holds_at js i st2 -> holds_at set i st2) /\
    (forall i k st0 st2, holds_at set i st0 -> js !! i <> Some (Some st0) -> holds_at js k st2 ->
       generation st0 < generation st2).
Proof.
  intros [Hw Hh]. unfold set_job_txns. destruct (live_job v id gen) as [st|] eqn:Hl; [right|by left].
  apply live_job_inv in Hl as (Hi & Hg & He). exists st.
  pose proof (sw_state _ Hw _ _ Hi) as [Hc _].
  assert (kept_slots (jobs v) (jobs (set_slot v (Z.to_nat id) (set_txns st t (checks st))))) as Hk
    by (eapply kept_set_slot; [exact Hi|by apply set_txns_kept]).
  pose proof (slots_wf_kept v _ Hw Hk) as Hw2.
  pose proof (holding_insert (jobs v) _ _ (set_txns st t (checks st)) Hi) as Hn. cbn [set_txns txns] in Hn.
  unfold holders_bounded in Hh. destruct (holds_txns t) eqn:Ht.
  - destruct (release_oldest_spec _ Hw2) as (js & E & Hk2 & Hlen & Hold & Hgen). exists js.
    split; [done|]. split; [by f_equal|]. split; [by eapply kept_slots_trans|]. by split_and!.
  - eexists. split; [done|]. split; [done|]. split; [exact Hk|]. split; [lia|]. split_and!; [done|done|].
    intros i k st0 st2 [H0 _] Hne. by destruct Hne.
Qed.

Lemma set_job_txns_ok v id gen t : jobs_ok v -> jobs_ok (set_job_txns v id gen t).1.
Proof.
  intros Hv. destruct (set_job_txns_spec v id gen t Hv) as [[_ ->]|(st & js & _ & -> & Hk & Hlen & _)]; [done|].
  destruct Hv as [Hw Hh]. split; [by apply slots_wf_kept|done].
Qed.

Lemma record_block_check_kept v id gen digest check : jobs_ok v ->
  exists js, record_block_check v id gen digest check = set_jobs v js /\ kept_slots (jobs v) js /\
    (length (holding js) <= length (holding (jobs v)))%nat.
Proof.
  intros [Hw Hh]. unfold record_block_check. destruct (live_job v id gen) as [st|] eqn:Hl.
  - apply live_job_inv in Hl as (Hi & Hg & He). pose proof (sw_state _ Hw _ _ Hi) as [Hc _]. eexists. split; [done|].
    split.
    + apply kept_slots_insert with st; [done|]. apply set_txns_kept; [done|].
      destruct (Nat.leb_spec MAX_BLOCK_CHECKS (size (checks st))).
      * rewrite map_size_insert_None by done. rewrite map_size_empty. unfold MAX_BLOCK_CHECKS. lia.
      * rewrite map_size_insert. unfold MAX_BLOCK_CHECKS in *. destruct (checks st !! digest); cbn; lia.
    + apply holding_sub. intros k st2 [Hk Ht2]. destruct (decide (Z.to_nat id = k)) as [<-|Hne].
      * rewrite list_lookup_insert_eq in Hk by (by eapply lookup_lt_Some). injection Hk as <-. by exists st.
      * rewrite list_lookup_insert_ne in Hk by done. by exists st2.
  - exists (jobs v). split; [by destruct v|]. split; [apply kept_slots_refl|done].
Qed.

Lemma record_block_check_ok v id gen digest check : jobs_ok v -> jobs_ok (record_block_check v id gen digest check).
Proof.
  intros Hv. destruct (record_block_check_kept v id gen digest check Hv) as (js & -> & Hk & Hlen).
  destruct Hv as [Hw Hh]. split; [by apply slots_wf_kept|]. unfold holders_bounded in *. change (jobs (set_jobs v js)) with js. lia.
Qed.

(** ** What installing sections leaves *)

Definition with_coinbase (s : PowSubmit) (st : JobState) : JobState :=
  match ShareMsg.coinbase s with Some cb => add_coinbase st cb | None => st end.

(** The state of the share's slot its sections go into. *)
Definition base_state (v : Verifier) (s : PowSubmit) (now : Z) : option JobState :=
  if brings_new_job v s then (fun j => new_state v j now) <$> ShareMsg.job s else job_slot v (job_id s).

Definition after_install (v : Verifier) (s : PowSubmit) (h : bytes) (st : JobState) : Verifier :=
  {| policy := policy v; jobs := <[Z.to_nat (job_id s) := Some (with_coinbase s st)]> (jobs v);
     splits := splits v; tip := tip v; next := next v; recent_tips := recent_tips v;
     next_generation := if brings_new_job v s then wrap 64 (next_generation v + 1) else next_generation v;
     installed_by := if changes_slot v s then (set_insert (installed_by v) h).1 else installed_by v;
     installed_coinbase_bytes := projected_bytes v s;
     installed_coinbase_bytes_cap := installed_coinbase_bytes_cap v |}.

Lemma resolve_base v s j cb now : resolve v s = Ok (j, cb) ->
  exists st, base_state v s now = Some st /\ installed_job st = j /\
    (brings_new_job v s = false -> job_slot v (job_id s) = Some st) /\
    (ShareMsg.coinbase s = Some cb \/ (ShareMsg.coinbase s = None /\ brings_new_job v s = false /\
       coinbases st !! coinbase_id s = Some cb)) /\
    (forall cb2, ShareMsg.coinbase s = Some cb2 ->
       coinbase_section_id cb2 = coinbase_id s /\ coinbase_bytes cb2 <= MAX_COINBASE_SECTION_LEN).
Proof.
  unfold resolve, base_state. intros Hr.
  destruct (match ShareMsg.job s, brings_new_job v s with Some j, true => Ok j | _, _ => _ end) as [j0|] eqn:Hj; [|done].
  cbn in Hr.
  assert (exists st, (if brings_new_job v s then (fun j => new_state v j now) <$> ShareMsg.job s
      else job_slot v (job_id s)) = Some st /\ installed_job st = j0 /\
    (brings_new_job v s = false -> job_slot v (job_id s) = Some st)) as (st & Hb & Hst & Hold).
  { destruct (brings_new_job v s) eqn:Hn.
    - unfold brings_new_job in Hn. destruct (ShareMsg.job s) as [j1|]; [|done]. injection Hj as ->. by eexists.
    - assert (ok_or BadJobId (installed_job <$> job_slot v (job_id s)) = Ok j0) as E by (by destruct (ShareMsg.job s)).
      destruct (job_slot v (job_id s)) as [st|]; [|done]. injection E as <-. by exists st. }
  rewrite Hb. exists st. destruct (ShareMsg.coinbase s) as [cb1|] eqn:Hc.
  - destruct (ensure (coinbase_section_id cb1 =? _) _) as [u|] eqn:H1; [apply ensure_ok in H1|done]. cbn in Hr.
    destruct (ensure (coinbase_bytes cb1 <=? _) _) as [u2|] eqn:H2; [apply ensure_ok in H2|done]. cbn in Hr.
    injection Hr as <- <-. reflect_Z. split_and!; try done; [by left|]. by intros cb2 [= <-].
  - destruct (brings_new_job v s) eqn:Hn; [done|]. rewrite (Hold eq_refl) in Hr. cbn in Hr.
    destruct (coinbases st !! coinbase_id s) as [cb0|] eqn:Hcb; [|done]. injection Hr as <- <-.
    split_and!; try done. by right.
Qed.

Lemma sat_sub_0 a : 0 <= a -> sat_sub a 0 = a.
Proof. unfold sat_sub. lia. Qed.

Lemma install_sections_eq v s h now j cb : 
  length (jobs v) = Z.to_nat MAX_JOBS -> uint 8 (job_id s) -> resolve v s = Ok (j, cb) ->
  exists st, base_state v s now = Some st /\
  install_sections v s h now = Some (
    if changes_slot v s && contains (installed_by v) h then Err DuplicateWork
    else if is_some (ShareMsg.coinbase s) && (installed_coinbase_bytes_cap v <? projected_bytes v s)
    then Err CoinbaseTooLarge
    else Ok (let v2 := after_install v s h st in if is_some (tip v) then evict_jobs_off_recent_tips v2 now else v2)).
Proof.
  intros Hlen Hid Hr. apply (resolve_base v s j cb now) in Hr as (st & Hb & _ & Hold & _).
  exists st. split; [done|]. unfold install_sections. destruct (changes_slot v s && _); [done|].
  destruct (is_some _ && (_ <? _)); [done|].
  assert ((Z.to_nat (job_id s) < length (jobs v))%nat) as Hin.
  { rewrite Hlen. unfold uint in Hid. unfold MAX_JOBS. lia. }
  unfold base_state in Hb. unfold after_install, with_coinbase. destruct (brings_new_job v s).
  - destruct (ShareMsg.job s) as [j1|]; [|done]. injection Hb as <-. cbn [mbind option_bind option_fmap].
    destruct (ShareMsg.coinbase s) as [cb1|]; [|by destruct (changes_slot v s)].
    unfold install_coinbase, job_slot, install_job, set_slot. cbn [jobs].
    rewrite list_lookup_insert_eq by done. cbn. rewrite list_insert_insert_eq. by destruct (changes_slot v s).
  - cbn [mbind option_bind]. specialize (Hold eq_refl). destruct (ShareMsg.coinbase s) as [cb1|].
    + unfold install_coinbase. rewrite Hold. cbn. by destruct (changes_slot v s).
    + rewrite list_insert_id by (by apply job_slot_lookup). by destruct (changes_slot v s).
Qed.

Lemma coinbase_bytes_nonneg cb : 0 <= coinbase_bytes cb.
Proof. unfold coinbase_bytes. pose proof (zlen_nonneg (coinb1 cb)). pose proof (zlen_nonneg (coinb2 cb)). lia. Qed.

Lemma coinbases_bytes_nonneg m : 0 <= coinbases_bytes m.
Proof. apply sumZ_nonneg, Forall_fmap, Forall_forall. intros e _. apply coinbase_bytes_nonneg. Qed.

Lemma coinbases_bytes_lookup m k cb : m !! k = Some cb -> coinbase_bytes cb <= coinbases_bytes m.
Proof.
  intros Hk. pose proof (coinbases_bytes_insert (delete k m) k cb) as H. rewrite insert_delete_eq, insert_id in H by done.
  rewrite lookup_delete_eq in H. cbn in H. pose proof (coinbases_bytes_nonneg (delete k m)). lia.
Qed.

Lemma slot_sum_lookup js i o : js !! i = Some o ->
  from_option state_coinbase_bytes 0 o <= slot_sum state_coinbase_bytes js.
Proof.
  intros Hi. pose proof (slot_sum_insert state_coinbase_bytes js i o None Hi) as H. cbn in H.
  assert (0 <= slot_sum state_coinbase_bytes (<[i := None]> js)) as Hn; [|lia].
  apply sumZ_nonneg, Forall_fmap, Forall_forall. intros [st|] _; [apply coinbases_bytes_nonneg|done].
Qed.

(** The state of a slot after [add_coinbase], in bytes. *)
Lemma with_coinbase_bytes s st : state_coinbase_bytes (with_coinbase s st) =
  state_coinbase_bytes st - from_option coinbase_bytes 0 (cb ← ShareMsg.coinbase s; coinbases st !! coinbase_section_id cb)
  + from_option coinbase_bytes 0 (ShareMsg.coinbase s).
Proof.
  unfold with_coinbase, state_coinbase_bytes. destruct (ShareMsg.coinbase s) as [cb|]; cbn; [|lia].
  apply coinbases_bytes_insert.
Qed.

Lemma slot_lookup v s : length (jobs v) = Z.to_nat MAX_JOBS -> uint 8 (job_id s) ->
  jobs v !! Z.to_nat (job_id s) = Some (job_slot v (job_id s)).
Proof.
  intros Hlen Hid. unfold job_slot.
  destruct (lookup_lt_is_Some_2 (jobs v) (Z.to_nat (job_id s))) as [o Ho].
  { rewrite Hlen. unfold uint in Hid. unfold MAX_JOBS. lia. }
  by rewrite Ho.
Qed.

(** The projected total is the total. *)
Lemma projected_exact v s now st : slots_wf v -> uint 8 (job_id s) -> base_state v s now = Some st ->
  projected_bytes v s =
  slot_sum state_coinbase_bytes (<[Z.to_nat (job_id s) := Some (with_coinbase s st)]> (jobs v)).
Proof.
  intros Hw Hid Hb. pose proof (slot_lookup v s (sw_slots _ Hw) Hid) as Hslot.
  rewrite (slot_sum_insert _ _ _ _ _ Hslot), <- (sw_bytes _ Hw). cbn [from_option]. rewrite with_coinbase_bytes.
  pose proof (slot_sum_lookup _ _ _ Hslot) as Hle. rewrite <- (sw_bytes _ Hw) in Hle.
  unfold projected_bytes, slot_coinbase, base_state in *.
  destruct (brings_new_job v s).
  - destruct (ShareMsg.job s) as [j|]; [|done]. injection Hb as <-. unfold state_coinbase_bytes at 3.
    cbn [new_state coinbases]. change (coinbases_bytes ∅) with 0. 
    destruct (ShareMsg.coinbase s) as [cb|]; cbn [mbind option_bind from_option];
      rewrite ?lookup_empty; cbn [from_option]; rewrite sat_sub_le by lia; lia.
  - rewrite Hb in *. cbn [from_option mbind option_bind] in *.
    destruct (ShareMsg.coinbase s) as [cb|]; cbn [mbind option_bind from_option] in *.
    + destruct (coinbases st !! coinbase_section_id cb) as [old|] eqn:Ho; cbn [from_option].
      * pose proof (coinbases_bytes_lookup _ _ _ Ho). unfold state_coinbase_bytes in *.
        rewrite sat_sub_le by lia. lia.
      * pose proof (coinbases_bytes_nonneg (coinbases st)). unfold state_coinbase_bytes in *. rewrite sat_sub_le by lia. lia.
    + pose proof (coinbases_bytes_nonneg (coinbases st)). unfold state_coinbase_bytes in *. rewrite sat_sub_le by lia. lia.
Qed.

Lemma with_coinbase_fields s st :
  installed_job (with_coinbase s st) = installed_job st /\ generation (with_coinbase s st) = generation st /\
  txns (with_coinbase s st) = txns st /\ checks (with_coinbase s st) = checks st /\
  evicted (with_coinbase s st) = evicted st /\ parent_seen (with_coinbase s st) = parent_seen st.
Proof. unfold with_coinbase. by destruct (ShareMsg.coinbase s). Qed.

(** The slot's state before the coinbase goes in: a new job's, or the slot's. *)
Lemma base_state_cases v s now st : length (jobs v) = Z.to_nat MAX_JOBS -> uint 8 (job_id s) ->
  base_state v s now = Some st ->
  (brings_new_job v s = true /\ exists j, ShareMsg.job s = Some j /\ st = new_state v j now) \/
  (brings_new_job v s = false /\ jobs v !! Z.to_nat (job_id s) = Some (Some st)).
Proof.
  intros Hlen Hid Hb. pose proof (slot_lookup v s Hlen Hid) as Hslot. unfold base_state in Hb.
  destruct (brings_new_job v s); [left|right].
  - destruct (ShareMsg.job s) as [j|]; [|done]. injection Hb as <-. split; [done|]. by exists j.
  - by rewrite Hslot, Hb.
Qed.

Definition fits (v : Verifier) (s : PowSubmit) : Prop :=
  is_some (ShareMsg.coinbase s) = false \/ projected_bytes v s <= installed_coinbase_bytes_cap v.

Lemma projected_fits v s : slots_wf v -> fits v s -> projected_bytes v s <= installed_coinbase_bytes_cap v.
Proof.
  intros Hw [Hn|Hp]; [|done]. transitivity (installed_coinbase_bytes v); [|by apply sw_cap].
  assert (0 <= installed_coinbase_bytes v) as H0.
  { rewrite (sw_bytes _ Hw). apply sumZ_nonneg, Forall_fmap, Forall_forall.
    intros [st|] _; [apply coinbases_bytes_nonneg|done]. }
  assert (0 <= from_option state_coinbase_bytes 0 (job_slot v (job_id s))) as H1.
  { destruct (job_slot v (job_id s)); [apply coinbases_bytes_nonneg|done]. }
  unfold projected_bytes, sat_sub. destruct (ShareMsg.coinbase s); [done|]. cbn. destruct (brings_new_job v s); lia.
Qed.

Lemma after_slot v s h st i st' : jobs (after_install v s h st) !! i = Some (Some st') ->
  (i = Z.to_nat (job_id s) /\ st' = with_coinbase s st) \/
  (i <> Z.to_nat (job_id s) /\ jobs v !! i = Some (Some st')).
Proof.
  unfold after_install. cbn [jobs]. intros [(-> & [= <-] & _)|[Hne Hi]]%list_lookup_insert_Some; [by left|].
  right. split; [congruence|done].
Qed.

(** No other slot has the generation the share's slot ends with. *)
Lemma base_generation v s h now st : slots_wf v -> uint 8 (job_id s) -> next_generation v < 2 ^ 64 - 1 ->
  base_state v s now = Some st ->
  0 < generation st < next_generation (after_install v s h st) /\
  next_generation v <= next_generation (after_install v s h st) /\
  (forall k st2, jobs v !! k = Some (Some st2) -> generation st2 = generation st -> k = Z.to_nat (job_id s)) /\
  state_ok st.
Proof.
  intros Hw Hid Hng Hb. pose proof (sw_next _ Hw) as Hnext.
  destruct (base_state_cases v s now st (sw_slots _ Hw) Hid Hb) as [(Hn & j & Hj & ->)|(Hn & Hi)];
    unfold after_install; cbn [next_generation]; rewrite Hn.
  - rewrite wrap_small by (unfold uint; lia). cbn [new_state generation]. split_and!; try lia.
    + intros k st2 Hk Heq. pose proof (sw_gen _ Hw _ _ Hk). lia.
    + split; [cbn; rewrite map_size_empty; lia|done].
  - pose proof (sw_gen _ Hw _ _ Hi). split_and!; try lia; [|by eapply sw_state].
    intros k st2 Hk Heq. by eapply sw_unique.
Qed.

Lemma after_install_wf v s h now st :
  slots_wf v -> uint 8 (job_id s) -> next_generation v < 2 ^ 64 - 1 -> base_state v s now = Some st -> fits v s ->
  slots_wf (after_install v s h st).
Proof.
  intros Hw Hid Hng Hb Hfit. pose proof (projected_exact v s now st Hw Hid Hb) as Hbytes.
  pose proof (projected_fits v s Hw Hfit) as Hcap.
  destruct (base_generation v s h now st Hw Hid Hng Hb) as (Hlt & Hle & Hsole & Hok).
  destruct (with_coinbase_fields s st) as (Fj & Fg & Ft & Fc & Fe & _).
  destruct Hw as [Hlen Hb0 Hc0 Hnext Hgen Hun Htips Hst [l Hl] Hcapacity]. split; try done.
  - cbn. by rewrite length_insert.
  - lia.
  - intros i st' [[-> ->]|[Hne Hi]]%after_slot; [by rewrite Fg|]. specialize (Hgen _ _ Hi). lia.
  - intros i k s1 s2 [[-> ->]|[Hn1 H1]]%after_slot [[-> ->]|[Hn2 H2]]%after_slot Heq; try done.
    + rewrite Fg in Heq. by destruct (Hn2 (Hsole _ _ H2 (eq_sym Heq))).
    + rewrite Fg in Heq. by destruct (Hn1 (Hsole _ _ H1 Heq)).
    + by eapply Hun.
  - intros i st' [[-> ->]|[Hne Hi]]%after_slot; [|by eapply Hst].
    destruct Hok. by split; rewrite ?Fc, ?Fe, ?Ft.
  - cbn. destruct (changes_slot v s); [|by exists l].
    destruct (set_insert_spec l (installed_by v) h Hl) as (l2 & Hl2 & _). by exists l2.
  - cbn. destruct (changes_slot v s); [|done]. by rewrite set_insert_capacity.
Qed.

Lemma after_install_holding v s h now st : slots_wf v -> uint 8 (job_id s) -> base_state v s now = Some st ->
  (length (holding (jobs (after_install v s h st))) <= length (holding (jobs v)))%nat.
Proof.
  intros Hw Hid Hb. apply holding_sub. intros i st' [[[-> ->]|[Hne Hi]]%after_slot Ht]; [|by exists st'].
  destruct (with_coinbase_fields s st) as (_ & _ & Ft & _). rewrite Ft in Ht.
  destruct (base_state_cases v s now st (sw_slots _ Hw) Hid Hb) as [(_ & j & _ & ->)|(_ & Hi)]; [done|by exists st].
Qed.

Lemma install_sections_ok v s h now j cb v2 :
  jobs_ok v -> uint 8 (job_id s) -> next_generation v < 2 ^ 64 - 1 -> resolve v s = Ok (j, cb) ->
  install_sections v s h now = Some (Ok v2) -> jobs_ok v2.
Proof.
  intros [Hw Hh] Hid Hng Hr Hi.
  destruct (install_sections_eq v s h now j cb (sw_slots _ Hw) Hid Hr) as (st & Hb & E).
  rewrite E in Hi. injection Hi as Hi. destruct (_ && contains _ _); [done|].
  destruct (is_some (ShareMsg.coinbase s) && _) eqn:Hfit; [done|]. injection Hi as <-.
  assert (fits v s) as Hf.
  { unfold fits. apply andb_false_iff in Hfit as [|Hc]; [by left|]. right. by apply Z.ltb_ge in Hc. }
  assert (jobs_ok (after_install v s h st)) as Hok.
  { split; [by eapply after_install_wf|]. pose proof (after_install_holding v s h now st Hw Hid Hb).
    unfold holders_bounded in *. lia. }
  destruct (is_some (tip v)); [by apply evict_jobs_ok|done].
Qed.

(** ** What a generation names *)

(** A slot's job of an earlier state is the same job or one with a new
    generation, and an evicted job stays evicted. *)
Record later (v v2 : Verifier) : Prop := {
  la_next : next_generation v <= next_generation v2;
  la_slot : forall i st2, jobs v2 !! i = Some (Some st2) ->
    next_generation v <= generation st2 \/
    exists st, jobs v !! i = Some (Some st) /\ generation st = generation st2 /\
      installed_job st = installed_job st2 /\ (evicted st = true -> evicted st2 = true);
}.

#[global] Instance later_refl : Reflexive later.
Proof. intros v. split; [done|]. intros i st Hi. right. by exists st. Qed.

#[global] Instance later_trans : Transitive later.
Proof.
  intros v1 v2 v3 [N1 S1] [N2 S2]. split; [lia|]. intros i st3 H3.
  destruct (S2 i st3 H3) as [?|(st2 & H2 & G2 & J2 & E2)]; [left; lia|].
  destruct (S1 i st2 H2) as [?|(st1 & H1 & G1 & J1 & E1)]; [left; lia|].
  right. exists st1. split_and!; [done|congruence|congruence|auto].
Qed.

Lemma kept_later v v2 : kept_slots (jobs v) (jobs v2) -> next_generation v2 = next_generation v -> later v v2.
Proof.
  intros Hk Hn. split; [lia|]. intros i st2 H2. right.
  destruct (kept_slots_lookup _ _ _ _ Hk H2) as (st & Hi & [Kj _ Kg Ke _]). by exists st.
Qed.

Lemma set_tip_later v t now : later v (set_tip v t now).
Proof.
  apply kept_later.
  - unfold set_tip. cbn zeta. destruct (is_some t); [|apply kept_slots_refl].
    apply kept_slots_map. intros. apply evict_off_tips_kept.
  - unfold set_tip. by destruct (is_some t).
Qed.

Lemma set_job_txns_later v id gen t : jobs_ok v -> later v (set_job_txns v id gen t).1.
Proof.
  intros Hv. destruct (set_job_txns_spec v id gen t Hv) as [[_ ->]|(st & js & _ & -> & Hk & _)]; [done|].
  by apply kept_later.
Qed.

Lemma record_block_check_later v id gen digest check : jobs_ok v -> later v (record_block_check v id gen digest check).
Proof.
  intros Hv. destruct (record_block_check_kept v id gen digest check Hv) as (js & -> & Hk & _). by apply kept_later.
Qed.

Lemma install_sections_later v s h now j cb v2 :
  jobs_ok v -> uint 8 (job_id s) -> next_generation v < 2 ^ 64 - 1 -> resolve v s = Ok (j, cb) ->
  install_sections v s h now = Some (Ok v2) -> later v v2.
Proof.
  intros [Hw Hh] Hid Hng Hr Hi.
  destruct (install_sections_eq v s h now j cb (sw_slots _ Hw) Hid Hr) as (st & Hb & E).
  rewrite E in Hi. injection Hi as Hi. destruct (_ && contains _ _); [done|].
  destruct (is_some (ShareMsg.coinbase s) && _); [done|]. injection Hi as <-.
  destruct (base_generation v s h now st Hw Hid Hng Hb) as (_ & Hle & _).
  assert (later v (after_install v s h st)) as Hl.
  { split; [exact Hle|]. intros i st2 [[-> ->]|[Hne Hi]]%after_slot; [|by right; exists st2].
    destruct (with_coinbase_fields s st) as (Fj & Fg & _ & _ & Fe & _). rewrite Fj, Fg, Fe.
    destruct (base_state_cases v s now st (sw_slots _ Hw) Hid Hb) as [(_ & j1 & _ & ->)|(_ & Hi)]; [by left|].
    right. by exists st. }
  destruct (is_some (tip v)); [|done]. etransitivity; [exact Hl|]. apply kept_later; [apply evict_jobs_kept|done].
Qed.

Lemma later_job v v2 id gen j j2 : jobs_ok v -> later v v2 ->
  job v id gen = Some j -> job v2 id gen = Some j2 -> j2 = j.
Proof.
  intros [Hw _] [_ Hs] H1 H2. unfold job in *.
  destruct (live_job v id gen) as [st|] eqn:L1; [|done]. destruct (live_job v2 id gen) as [st2|] eqn:L2; [|done].
  cbn in *. apply live_job_inv in L1 as (I1 & G1 & _), L2 as (I2 & G2 & _).
  pose proof (sw_gen _ Hw _ _ I1). destruct (Hs _ _ I2) as [?|(st1 & I1' & G & J & _)]; [lia|].
  rewrite I1 in I1'. injection I1' as <-. congruence.
Qed.

Lemma later_gone v v2 id gen : later v v2 -> gen < next_generation v ->
  live_job v id gen = None -> live_job v2 id gen = None.
Proof.
  intros [_ Hs] Hg Hl. destruct (live_job v2 id gen) as [st2|] eqn:L2; [|done].
  apply live_job_inv in L2 as (I2 & G2 & E2). destruct (Hs _ _ I2) as [?|(st & I & G & J & E)]; [lia|].
  unfold live_job, job_slot in Hl. rewrite I in Hl. cbn in Hl. rewrite G, G2, Z.eqb_refl in Hl.
  destruct (evicted st); [rewrite E in E2 by done; done|done].
Qed.
