(* ===== verification/Verify.v ===== *)
(** Verifying a share ([prime/src/verify.rs], [prime/src/verify/rebuild.rs]):
    the share is rebuilt from the sections it names, checked against the
    connection's jobs, splits and tip, and its sections installed. *)
From S2P Require Import Prelude Reader Window Bitcoin Script Transaction Address Target Header Messages ShareMsg AbwMsg.
From S2P Require Import AbwSlots Config Rows Coinbase Splits Bounded Jobs.

Definition NTIME_WINDOW_SECS : Z := 2 * 3600.
Definition SPLIT_GRACE_SECS : Z := 10.
Definition MAX_RELAY_TARGET_SHIFT : Z := 2.
Definition VERSION_ROLLING_MASK : Z := 0x1fffe000.

Record RebuiltShare := {
  rb_is_block : bool;
  rb_difficulty : Z;
  rb_block_hash : bytes;
  rb_raw_pow_hash : bytes;
  rb_prev_hash : bytes;
  rb_job_bits : Z;
  rb_header : bytes;
  rb_coinbase_tx : bytes;
  rb_height : Z;
  rb_txn_count : Z;
  rb_coinbaser_id : Z;
  rb_paid_to_split : Z;
  rb_paid_to_pool : Z;
  rb_unpaid_outputs : list Payout;
  rb_tag_secondary : bytes;
  rb_version : Z;
  rb_coinbase_digest : bytes;
  rb_job_generation : option Z;
}.

Record Refusal := { reason : RejectReason; rebuilt : option RebuiltShare }.

Definition unreferenced (reason : RejectReason) : Refusal := {| reason := reason; rebuilt := None |}.

Definition set_job_generation (r : RebuiltShare) (gen : option Z) : RebuiltShare :=
  {| rb_is_block := rb_is_block r; rb_difficulty := rb_difficulty r; rb_block_hash := rb_block_hash r;
     rb_raw_pow_hash := rb_raw_pow_hash r; rb_prev_hash := rb_prev_hash r; rb_job_bits := rb_job_bits r;
     rb_header := rb_header r; rb_coinbase_tx := rb_coinbase_tx r; rb_height := rb_height r;
     rb_txn_count := rb_txn_count r; rb_coinbaser_id := rb_coinbaser_id r; rb_paid_to_split := rb_paid_to_split r;
     rb_paid_to_pool := rb_paid_to_pool r; rb_unpaid_outputs := rb_unpaid_outputs r;
     rb_tag_secondary := rb_tag_secondary r; rb_version := rb_version r; rb_coinbase_digest := rb_coinbase_digest r;
     rb_job_generation := gen |}.

(** ** The template *)

Record TemplateSummary := {
  template_prev_hash : bytes;
  template_height : Z;
  template_coinbase_value : Z;
  template_bits : Z;
  template_mintime : Z;
}.

Definition set_next (v : Verifier) (n : option NextBlock) : Verifier :=
  {| policy := policy v; jobs := jobs v; splits := splits v; tip := tip v; next := n;
     recent_tips := recent_tips v; next_generation := next_generation v; installed_by := installed_by v;
     installed_coinbase_bytes := installed_coinbase_bytes v;
     installed_coinbase_bytes_cap := installed_coinbase_bytes_cap v |}.

Definition set_template (v : Verifier) (template : option TemplateSummary) : Verifier * bool :=
  let n := (fun t => {| next_prev_hash := Some (template_prev_hash t); next_bits := template_bits t;
                        next_height := Some (template_height t); next_mintime := Some (template_mintime t) |})
             <$> template in
  let changed := bool_decide (next_bits <$> next v <> next_bits <$> n) in
  (set_next v n, changed).

Definition next_target (v : Verifier) : option Target := n ← next v; bits_to_target (next_bits n).

Definition next_on (v : Verifier) (prev_hash : bytes) : option NextBlock :=
  n ← next v;
  if (match next_prev_hash n with
      | Some parent => bool_decide (parent = prev_hash)
      | None => bool_decide (tip v = Some prev_hash)
      end) then Some n else None.

Definition allows_min_difficulty_blocks (chain : option Chain) : bool :=
  match chain with Some Test_chain | Some Testnet4 => true | _ => false end.

Definition meets_own_bits (r : RebuiltShare) : bool :=
  match bits_to_target (rb_job_bits r) with Some t => meets_target (rb_block_hash r) t | None => false end.

Definition is_block_candidate (r : RebuiltShare) : bool := rb_is_block r || meets_own_bits r.

Definition relayable (v : Verifier) (r : RebuiltShare) : bool :=
  if negb (meets_own_bits r) then false
  else if allows_min_difficulty_blocks (chain (policy v)) then true
  else match next_on v (rb_prev_hash r) with
       | Some next => rb_job_bits r =? next_bits next
       | None =>
         match next_target v, bits_to_target (rb_job_bits r) with
         | Some next, Some own => bytes_le own (shl_saturating next MAX_RELAY_TARGET_SHIFT)
         | _, _ => true
         end
       end.

(** ** The splits *)

Definition set_splits (v : Verifier) (s : DictatedSplits) : Verifier :=
  {| policy := policy v; jobs := jobs v; splits := s; tip := tip v; next := next v;
     recent_tips := recent_tips v; next_generation := next_generation v; installed_by := installed_by v;
     installed_coinbase_bytes := installed_coinbase_bytes v;
     installed_coinbase_bytes_cap := installed_coinbase_bytes_cap v |}.

Definition next_coinbaser_id (v : Verifier) : Z := next_id (splits v).

Definition record_dictated (v : Verifier) (id value : Z) (prev_hash : bytes) (outputs : list DictatedOutput)
    (now : Z) : Verifier :=
  set_splits v (record_split (splits v) id
    {| split_outputs := outputs; split_value := value; split_prev_hash := prev_hash; sent_at := now |}).

Definition take_verifier_splits (v : Verifier) : DictatedSplits * Verifier :=
  (take_splits (splits v) (tip v) (recent_tip v), set_splits v no_splits).

Definition restore_splits (v : Verifier) (s : DictatedSplits) : Verifier := set_splits v s.

Definition reason_for_decode_error (e : Messages.Error) : RejectReason :=
  match e with
  | BadExtranonceSize _ => RejectBadExtranonceSize
  | BadUsername => RejectBadUsername
  | BadMerkleCount _ => RejectBadMerkleCount
  | BadBlake2bSection | MissingBlake2bSection => RejectBadBlake2bSection
  | _ => Other
  end.

(** ** Rebuilding *)

Section rebuilding.
Context `{Digests}.

(** Whether the share's hash meets the target its target byte names. *)
Definition meets_share_target (s : PowSubmit) (r : RebuiltShare) : bool :=
  meets_target (rb_raw_pow_hash r) (target_for_exponent (target_byte s)).

(** [None] where an index would be out of range. *)
Definition rebuild_share (v : Verifier) (j : JobSection) (cb : CoinbaseSection) (s : PowSubmit)
    (abw_key : option bytes) : option (result RejectReason RebuiltShare) :=
  let c := config (policy v) in
  if (MAX_TARGET_EXPONENT <? target_byte s) || (target_byte s <? floor_log2 (min_difficulty c))
  then Some (Err BadTarget) else
  let tx := assemble cb (zeros EXTRANONCE_SIZE) in
  match parse_coinbase tx with
  | Err _ => Some (Err BadCoinbase)
  | Ok parsed =>
    if has_witness parsed then Some (Err BadCoinbase) else
    match parse_script_sig parsed (Config.prime_id c) (coinbase_tag c) with
    | None => Some (Err MissingPoolTag)
    | Some ps =>
      let at_ := Coinbase.target_byte_index ps in
      if negb (ShareMsg.target_byte_index j =? at_) then Some (Err TargetMismatch) else
      tx ← set_byte tx at_ (target_byte s);
      match check_outputs (Config.payout_script c) (splits v) j parsed s with
      | Err e => Some (Err e)
      | Ok pay =>
        let merkle_root := job_merkle_root j tx (subsidy_only s) in
        match share_header s j merkle_root abw_key with
        | None => Some (Err BadCoinbase)
        | Some h =>
          let hashes := pow_hashes h in
          Some (Ok
            {| rb_is_block := from_option (meets_target (pow_block_hash hashes)) false (next_target v);
               rb_difficulty := difficulty s;
               rb_block_hash := pow_block_hash hashes;
               rb_raw_pow_hash := pow_raw_hash hashes;
               rb_prev_hash := ShareMsg.prev_hash j;
               rb_job_bits := le_val (nbits j);
               rb_header := serialize h;
               rb_coinbase_tx := tx;
               rb_height := job_height j;
               rb_txn_count := txn_count j;
               rb_coinbaser_id := coinbaser_id j;
               rb_paid_to_split := paid_to_split pay;
               rb_paid_to_pool := paid_to_pool pay;
               rb_unpaid_outputs := unpaid_outputs pay;
               rb_tag_secondary := Coinbase.tag_secondary ps;
               rb_version := Z.land (share_version s) (lnot 32 V2_FLAG);
               rb_coinbase_digest := sha256d (coinb1 cb ++ coinb2 cb ++ [zb (Z.b2z (subsidy_only s))]);
               rb_job_generation := None |})
        end
      end
    end
  end.

(** The slot key of the share, where the session has slots; the refusal
    otherwise. *)
Definition slot_key_of (s : PowSubmit) (abw : option AbwSlotState) : option (option (bytes * SlotKeyStatus)) :=
  match abw with
  | None => Some None
  | Some a =>
    match abw_slot s ≫= key_for a with
    | Some k => Some (Some k)
    | None => None
    end
  end.

Definition rebuild (v : Verifier) (s : PowSubmit) (abw : option AbwSlotState)
    : option (result Refusal RebuiltShare) :=
  match check_coinbase_id s with
  | Err e => Some (Err (unreferenced e))
  | Ok _ =>
    let stale := if names_evicted_job v s then Some StaleBlock else None in
    match resolve v s with
    | Err e => Some (Err (unreferenced (default e stale)))
    | Ok (j, cb) =>
      match slot_key_of s abw with
      | None => Some (Err (unreferenced (default BadAbwSlot stale)))
      | Some slot_key =>
        let revealed := match slot_key with Some (_, RevealedKey) => true | _ => false end in
        let first := match stale with
                     | Some r => Some r
                     | None => if revealed then Some BadAbwSlot else None
                     end in
        r ← rebuild_share v j cb s (fst <$> slot_key);
        match r with
        | Err e => Some (Err (unreferenced (default e first)))
        | Ok share =>
          match first with
          | Some e => Some (Err {| reason := e; rebuilt := Some share |})
          | None => Some (Ok share)
          end
        end
      end
    end
  end.

(** ** Checking *)

Definition check_job_header (v : Verifier) (s : PowSubmit) (r : RebuiltShare) : result RejectReason () :=
  match next_on v (rb_prev_hash r) with
  | None => Ok ()
  | Some n =>
    _ ← ensure (allows_min_difficulty_blocks (chain (policy v)) || (rb_job_bits r =? next_bits n)) BadTarget;
    _ ← ensure (match next_height n with Some h => h =? rb_height r | None => true end) HeaderFieldMismatch;
    ensure (match next_mintime n with Some m => negb (block_time s <? m) | None => true end) BadNtime
  end.

Definition is_printable (b : byte) : bool := (0x21 <=? bz b) && (bz b <=? 0x7e).

Definition check_username_and_time (s : PowSubmit) (now : Z) : result RejectReason () :=
  _ ← ensure (negb (bool_decide (username s = []) || (Z.of_nat MAX_USERNAME_LEN <? zlen (username s)) ||
                    negb (forallb is_printable (username s)) ||
                    bool_decide (head (username s) = Some (zb 0x2e)))) RejectBadUsername;
  ensure (negb (NTIME_WINDOW_SECS <? Z.abs (block_time s - now))) BadNtime.

Definition check_split (v : Verifier) (s : PowSubmit) (r : RebuiltShare) (now : Z) : result RejectReason () :=
  if subsidy_only s || negb (rb_paid_to_split r =? 0) || (rb_coinbaser_id r =? 0) || rb_is_block r then Ok () else
  match get_split (splits v) (rb_coinbaser_id r) with
  | Some d =>
    ensure (negb (negb (bool_decide (split_outputs d = [])) && (SPLIT_GRACE_SECS <? sat_sub now (sent_at d)))) NoSplit
  | None => Ok ()
  end.

Definition check_share (v : Verifier) (s : PowSubmit) (r : RebuiltShare) (now : Z) : result RejectReason () :=
  _ ← ensure (negb (match tip v with
                    | Some t =>
                      negb (bool_decide (rb_prev_hash r = t)) && negb (within_tip_grace v (rb_prev_hash r) now) &&
                      (negb (rb_is_block r) || parent_unseen v s (rb_prev_hash r))
                    | None => false
                    end)) StaleBlock;
  _ ← check_split v s r now;
  check_username_and_time s now.

Definition check_rebuilt (v : Verifier) (s : PowSubmit) (r : RebuiltShare) (now : Z) (meets : bool)
    : option (Verifier * result RejectReason ()) :=
  match check_job_header v s r with
  | Err e => Some (v, Err e)
  | Ok _ =>
    installed ← (if meets || rb_is_block r then install_sections v s (rb_raw_pow_hash r) now else Some (Ok v));
    match installed with
    | Err e => Some (v, Err e)
    | Ok v =>
      Some (v, _ ← check_share v s r now; ensure meets HighHash)
    end
  end.

Definition verify (v : Verifier) (s : PowSubmit) (abw : option AbwSlotState) (now : Z)
    : option (Verifier * result Refusal RebuiltShare) :=
  r ← rebuild v s abw;
  match r with
  | Err refusal =>
    Some (v, Err {| reason := reason refusal;
                    rebuilt := (fun r => set_job_generation r (installed_generation v s)) <$> rebuilt refusal |})
  | Ok share =>
    '(v, checked) ← check_rebuilt v s share now (meets_share_target s share);
    let share := set_job_generation share (installed_generation v s) in
    Some (v, match checked with
             | Ok _ => Ok share
             | Err e => Err {| reason := e; rebuilt := Some share |}
             end)
  end.
End rebuilding.

(** ** Verification always answers *)

(** The target byte the pool finds lies within the transaction. *)
Lemma parse_script_sig_bounds tx prime tag ps : parse_script_sig tx prime tag = Some ps ->
  script_sig_offset tx <= Coinbase.target_byte_index ps < script_sig_offset tx + zlen (Transaction.script_sig tx).
Proof.
  unfold parse_script_sig. destruct (position _ _) as [i|] eqn:Hpos; cbn [mbind option_bind]; [|done].
  apply position_Some in Hpos as (p & Hp & Huid & _). rewrite Hp. cbn [mbind option_bind].
  match goal with |- (?x ≫= _) = _ -> _ => destruct x as [t|]; cbn [mbind option_bind]; [|done] end.
  intros [= <-]. cbn [Coinbase.target_byte_index].
  apply list_elem_of_lookup_2, script_pushes_bounds in Hp. unfold is_unique_id_push in Huid.
  destruct (Z.ltb_spec (zlen (data p)) UNIQUE_ID_PUSH_DATA_SIZE_NO_PRIME) as [|Hlen]; [done|].
  unfold UNIQUE_ID_PUSH_DATA_SIZE_NO_PRIME in Hlen. lia.
Qed.

Section verification.
Context `{Digests}.

Lemma rebuild_share_returns v j cb s key : exists r, rebuild_share v j cb s key = Some r.
Proof.
  unfold rebuild_share. cbn zeta. destruct (_ || _); [by eexists|].
  destruct (parse_coinbase _) as [parsed|] eqn:Hparse; [|by eexists].
  destruct (has_witness parsed); [by eexists|].
  destruct (parse_script_sig _ _ _) as [ps|] eqn:Hps; [|by eexists].
  destruct (negb _); [by eexists|].
  apply parse_script_sig_bounds in Hps. apply parse_coinbase_bounds in Hparse as (H0 & Hlen & _).
  unfold set_byte. rewrite (proj2 (Z.ltb_lt _ _)) by lia. cbn [mbind option_bind].
  repeat case_match; by eexists.
Qed.

Lemma rebuild_returns v s abw : exists r, rebuild v s abw = Some r.
Proof.
  unfold rebuild. destruct (check_coinbase_id s); [|by eexists]. cbn zeta.
  destruct (resolve v s) as [[j cb]|]; [|by eexists].
  destruct (slot_key_of s abw) as [key|]; [|by eexists].
  destruct (rebuild_share_returns v j cb s (fst <$> key)) as [r ->]. cbn [mbind option_bind].
  repeat case_match; by eexists.
Qed.

(** What a rebuilt share was rebuilt from. *)
Record rebuilt_from (v : Verifier) (s : PowSubmit) (abw : option AbwSlotState) (r : RebuiltShare)
    (j : JobSection) (cb : CoinbaseSection) (parsed : CoinbaseTx) (h : BlockHeaderV2) : Prop := {
  rf_sections : resolve v s = Ok (j, cb);
  rf_target : floor_log2 (min_difficulty (config (policy v))) <= target_byte s <= MAX_TARGET_EXPONENT;
  rf_parsed : parse_coinbase (assemble cb (zeros EXTRANONCE_SIZE)) = Ok parsed;
  rf_witness : has_witness parsed = false;
  rf_coinbase : coinbase_tx j cb (target_byte s) = Some (rb_coinbase_tx r);
  rf_paid : check_outputs (Config.payout_script (config (policy v))) (splits v) j parsed s =
    Ok {| paid_to_split := rb_paid_to_split r; paid_to_pool := rb_paid_to_pool r; unpaid_outputs := rb_unpaid_outputs r |};
  rf_key : exists key, slot_key_of s abw = Some key /\
    share_header s j (job_merkle_root j (rb_coinbase_tx r) (subsidy_only s)) (fst <$> key) = Some h;
  rf_hashes : rb_raw_pow_hash r = pow_raw_hash (pow_hashes h) /\ rb_block_hash r = pow_block_hash (pow_hashes h);
  rf_header : rb_header r = serialize h;
  rf_block : rb_is_block r = from_option (meets_target (rb_block_hash r)) false (next_target v);
  rf_job : rb_prev_hash r = ShareMsg.prev_hash j /\ rb_job_bits r = le_val (nbits j) /\ rb_height r = job_height j /\
    rb_coinbaser_id r = coinbaser_id j /\ rb_difficulty r = difficulty s;
}.

Lemma rebuild_share_inv v j cb s key r : rebuild_share v j cb s key = Some (Ok r) ->
  exists parsed h,
    floor_log2 (min_difficulty (config (policy v))) <= target_byte s <= MAX_TARGET_EXPONENT /\
    parse_coinbase (assemble cb (zeros EXTRANONCE_SIZE)) = Ok parsed /\ has_witness parsed = false /\
    coinbase_tx j cb (target_byte s) = Some (rb_coinbase_tx r) /\
    check_outputs (Config.payout_script (config (policy v))) (splits v) j parsed s =
      Ok {| paid_to_split := rb_paid_to_split r; paid_to_pool := rb_paid_to_pool r; unpaid_outputs := rb_unpaid_outputs r |} /\
    share_header s j (job_merkle_root j (rb_coinbase_tx r) (subsidy_only s)) key = Some h /\
    rb_raw_pow_hash r = pow_raw_hash (pow_hashes h) /\ rb_block_hash r = pow_block_hash (pow_hashes h) /\
    rb_header r = serialize h /\ rb_is_block r = from_option (meets_target (rb_block_hash r)) false (next_target v) /\
    (rb_prev_hash r = ShareMsg.prev_hash j /\ rb_job_bits r = le_val (nbits j) /\ rb_height r = job_height j /\
     rb_coinbaser_id r = coinbaser_id j /\ rb_difficulty r = difficulty s).
Proof.
  unfold rebuild_share. cbn zeta. destruct (_ || _) eqn:Htb; [done|]. reflect_Z.
  destruct (parse_coinbase _) as [parsed|] eqn:Hparse; [|done].
  destruct (has_witness parsed) eqn:Hw; [done|].
  destruct (parse_script_sig _ _ _) as [ps|] eqn:Hps; [|done].
  destruct (negb _) eqn:Hidx; [done|]. reflect_Z. unfold coinbase_tx. rewrite Hidx.
  destruct (set_byte _ _ _) as [tx|]; cbn [mbind option_bind]; [|done].
  destruct (check_outputs _ _ _ _ _) as [pay|] eqn:Hpay; [|done].
  destruct (share_header _ _ _ _) as [h|] eqn:Hh; [|done]. intros [= <-]. cbn.
  exists parsed, h. split_and!; try done; try lia. rewrite Hpay. by destruct pay.
Qed.

Lemma rebuild_sections v s abw share : rebuild v s abw = Some (Ok share) -> exists jc, resolve v s = Ok jc.
Proof.
  unfold rebuild. destruct (check_coinbase_id s); [|done]. cbn zeta. destruct (resolve v s) as [jc|]; [|done].
  by exists jc.
Qed.

(** What a call of [verify] leaves of the state. *)
Record verified (v v2 : Verifier) : Prop := {
  vd_ok : jobs_ok v2;
  vd_later : later v v2;
  vd_next : next_generation v2 <= next_generation v + 1;
  vd_cap : installed_coinbase_bytes_cap v2 = installed_coinbase_bytes_cap v;
}.

Lemma verified_refl v : jobs_ok v -> verified v v.
Proof. intros. split; first [done|reflexivity|lia]. Qed.

Lemma install_sections_verified v s h now jc : 
  jobs_ok v -> uint 8 (job_id s) -> next_generation v < 2 ^ 64 - 1 -> resolve v s = Ok jc ->
  exists r, install_sections v s h now = Some r /\
    forall v2, r = Ok v2 -> verified v v2.
Proof.
  intros Hv Hid Hng Hr. destruct jc as [j cb].
  destruct (install_sections_eq v s h now j cb (sw_slots _ (jo_slots _ Hv)) Hid Hr) as (st & Hb & E).
  rewrite E. eexists. split; [done|]. intros v2 Hv2. rewrite Hv2 in E. split.
  - by eapply install_sections_ok.
  - by eapply install_sections_later.
  - destruct (_ && contains _ _); [done|]. destruct (is_some (ShareMsg.coinbase s) && _); [done|].
    injection Hv2 as <-. pose proof (sw_next _ (jo_slots _ Hv)).
    assert (next_generation (after_install v s h st) <= next_generation v + 1) as Hn.
    { unfold after_install. cbn [next_generation]. destruct (brings_new_job v s); [|lia].
      rewrite wrap_small by (unfold uint; lia). lia. }
    by destruct (is_some (tip v)).
  - destruct (_ && contains _ _); [done|]. destruct (is_some (ShareMsg.coinbase s) && _); [done|].
    injection Hv2 as <-. by destruct (is_some (tip v)).
Qed.

Lemma verify_returns v s abw now : jobs_ok v -> uint 8 (job_id s) -> next_generation v < 2 ^ 64 - 1 ->
  exists v2 r, verify v s abw now = Some (v2, r) /\ verified v v2.
Proof.
  intros Hv Hid Hng. pose proof (verified_refl v Hv) as Hrefl. unfold verify.
  destruct (rebuild_returns v s abw) as [r Hr]. rewrite Hr. cbn [mbind option_bind].
  destruct r as [share|refusal]; [|by eexists _, _].
  destruct (rebuild_sections v s abw share Hr) as [jc Hjc]. unfold check_rebuilt.
  destruct (check_job_header v s share); [|by eexists _, _].
  destruct (install_sections_verified v s (rb_raw_pow_hash share) now jc Hv Hid Hng Hjc) as (ri & Hi & Hok).
  destruct (meets_share_target s share || rb_is_block share).
  - rewrite Hi. cbn [mbind option_bind]. destruct ri as [v2|e]; [|by eexists _, _].
    eexists _, _. split; [done|by apply Hok].
  - cbn [mbind option_bind]. by eexists _, _.
Qed.

(** ** The states of a connection *)

Inductive verifier_step : Verifier -> Verifier -> Prop :=
| step_set_tip v t now : verifier_step v (set_tip v t now)
| step_set_template v t : verifier_step v (set_template v t).1
| step_record_dictated v value prev outs now :
    verifier_step v (record_dictated v (next_coinbaser_id v) value prev outs now)
| step_take_splits v : verifier_step v (take_verifier_splits v).2
| step_restore_splits v s : verifier_step v (restore_splits v s)
| step_set_job_txns v id gen t : verifier_step v (set_job_txns v id gen t).1
| step_record_block_check v id gen digest check : verifier_step v (record_block_check v id gen digest check)
| step_verify v s abw now v2 r : uint 8 (job_id s) -> verify v s abw now = Some (v2, r) -> verifier_step v v2.

(** The states [n] steps from a new connection. *)
Definition reachable (p : SharePolicy) (n : nat) (v : Verifier) : Prop :=
  nsteps verifier_step n (verifier_new p) v.

Lemma step_verified v v2 : jobs_ok v -> next_generation v < 2 ^ 64 - 1 -> verifier_step v v2 -> verified v v2.
Proof.
  intros Hv Hng Hs.
  assert (forall n, verified v (set_next v n)) as Hset1.
  { intros n. destruct Hv as [[? ? ? ? ? ? ? ? ? ?] ?].
    split; [split; [split|]|split|cbn; lia|]; cbn; try done. intros i st Hi. right. by exists st. }
  assert (forall sp, verified v (set_splits v sp)) as Hset2.
  { intros sp. destruct Hv as [[? ? ? ? ? ? ? ? ? ?] ?].
    split; [split; [split|]|split|cbn; lia|]; cbn; try done. intros i st Hi. right. by exists st. }
  destruct Hs as [v t now|v t|v value prev outs now|v|v sp|v id gen t|v id gen digest check|v s abw now v2 r Hid Hver];
    try apply Hset1; try apply Hset2.
  - split; [by apply set_tip_ok|apply set_tip_later| |]; unfold set_tip; cbn zeta; destruct (is_some t); cbn; lia || done.
  - split; [by apply set_job_txns_ok|by apply set_job_txns_later| |];
      destruct (set_job_txns_spec v id gen t Hv) as [[_ ->]|(st & js & _ & -> & _)]; cbn; lia || done.
  - split; [by apply record_block_check_ok|by apply record_block_check_later| |];
      destruct (record_block_check_kept v id gen digest check Hv) as (js & -> & _); cbn; lia || done.
  - destruct (verify_returns v s abw now Hv Hid Hng) as (v3 & r3 & E & Hok). rewrite E in Hver. by injection Hver as <- _.
Qed.

Lemma verifier_new_ok p : jobs_ok (verifier_new p).
Proof.
  assert (forall i st, replicate (Z.to_nat MAX_JOBS) (@None JobState) !! i <> Some (Some st)) as Hnone.
  { intros i st [? _]%lookup_replicate_1. done. }
  split; [split|]; cbn [verifier_new jobs installed_coinbase_bytes installed_coinbase_bytes_cap next_generation
    recent_tips installed_by]; try done.
  - intros i st Hi. by destruct (Hnone i st).
  - intros i k st st' Hi. by destruct (Hnone i st).
  - cbn. lia.
  - intros i st Hi. by destruct (Hnone i st).
  - exists []. apply new_holds.
  - cbn. unfold MAX_INSTALLING_SHARES. lia.
  - unfold holders_bounded. apply Nat.leb_le. by vm_compute.
Qed.

(** Along a run, the state stays sound, and each state is later than the
    first. *)
Lemma run_verified n v v2 : jobs_ok v -> next_generation v + Z.of_nat n < 2 ^ 64 - 1 -> nsteps verifier_step n v v2 ->
  jobs_ok v2 /\ later v v2 /\ next_generation v2 <= next_generation v + Z.of_nat n /\
  installed_coinbase_bytes_cap v2 = installed_coinbase_bytes_cap v.
Proof.
  intros Hv Hn Hr. revert Hv Hn. induction Hr as [v|n v v1 v2 Hs Hr IH]; intros Hv Hn.
  - split_and!; [done|reflexivity|lia|done].
  - destruct (step_verified v v1 Hv ltac:(lia) Hs) as [Hok Hl Hnx Hc].
    destruct IH as (H1 & H2 & H3 & H4); [done|lia|]. split_and!; [done|by etransitivity|lia|congruence].
Qed.

(** C9: A connection's state never runs away. In every state a connection
    reaches by the calls the server makes (tips, templates, splits, transaction
    lists, verdicts, and shares of every content, honest or not), the total of
    installed coinbase bytes is the sum of what the slots hold and within the
    cap, at most four jobs hold transactions and three replaced tips are kept,
    every slot holds at most 64 verdicts, and none when its job is evicted; and a further
    share is always answered: no index and no [expect] of [verify] fails. *)
Theorem connection_state_is_bounded (p : SharePolicy) (n : nat) (v : Verifier) :
  Z.of_nat n < 2 ^ 64 - 2 -> reachable p n v ->
  length (jobs v) = Z.to_nat MAX_JOBS /\
  installed_coinbase_bytes v = slot_sum state_coinbase_bytes (jobs v) /\
  installed_coinbase_bytes v <= MAX_INSTALLED_COINBASE_BYTES /\
  (length (holding (jobs v)) <= MAX_JOBS_HOLDING_TXNS)%nat /\
  (length (recent_tips v) <= MAX_RECENT_TIPS)%nat /\
  (forall i st, jobs v !! i = Some (Some st) -> (size (checks st) <= MAX_BLOCK_CHECKS)%nat /\
     (evicted st = true -> txns st = Unrequested /\ checks st = ∅)) /\
  (forall s abw now, uint 8 (job_id s) -> exists v2 r, verify v s abw now = Some (v2, r)).
Proof.
  intros Hn Hr. destruct (run_verified n _ v (verifier_new_ok p) ltac:(cbn; lia) Hr) as ([Hw Hh] & _ & Hng & Hcap).
  cbn in Hng, Hcap. pose proof Hw as [? Hb Hc ? ? ? ? Hst ? ?]. rewrite Hcap in Hc. split_and!; try done.
  - intros i st Hi. by destruct (Hst i st Hi).
  - intros s abw now Hid. destruct (verify_returns v s abw now ltac:(by split) Hid ltac:(lia)) as (v2 & r & E & _).
    by exists v2, r.
Qed.

(** A generation names one job for the life of the connection. The server
    asks a gateway for a job's transactions, proposes its block to the node and
    records the verdict under the job's slot and generation, while other shares
    replace and evict jobs. However many steps lie between, what is found under
    the same slot and generation is the same job section; and once the job is
    replaced or evicted nothing is found there again, so no transactions and no
    verdict of one job are ever taken for another's. *)
Theorem generation_names_one_job (p : SharePolicy) (n m : nat) (v v2 : Verifier) (id gen : Z) :
  Z.of_nat n + Z.of_nat m < 2 ^ 64 - 2 -> reachable p n v -> nsteps verifier_step m v v2 ->
  (forall j j2, job v id gen = Some j -> job v2 id gen = Some j2 -> j2 = j) /\
  (forall j v3 k, job v id gen = Some j -> job v2 id gen = None ->
     Z.of_nat n + Z.of_nat m + Z.of_nat k < 2 ^ 64 - 2 -> nsteps verifier_step k v2 v3 ->
     job v3 id gen = None /\ job_txns v3 id gen = None /\ forall digest, block_check v3 id gen digest = None).
Proof.
  intros Hn Hr Hs. destruct (run_verified n _ v (verifier_new_ok p) ltac:(cbn; lia) Hr) as (Hv & _ & Hng & _).
  cbn in Hng. destruct (run_verified m v v2 Hv ltac:(lia) Hs) as (Hv2 & Hl & Hng2 & _). split.
  - intros j j2. by apply later_job.
  - intros j v3 k Hj Hnone Hk Hs3. destruct (run_verified k v2 v3 Hv2 ltac:(lia) Hs3) as (_ & Hl3 & _ & _).
    unfold job in Hj, Hnone. destruct (live_job v id gen) as [st|] eqn:E; [|done].
    destruct (live_job v2 id gen) as [st2|] eqn:E2; [done|].
    apply live_job_inv in E as (Hi & Hg & _). pose proof (sw_gen _ (jo_slots _ Hv) _ _ Hi).
    pose proof (la_next _ _ Hl). assert (live_job v3 id gen = None) as E3 by (eapply later_gone; [exact Hl3|lia|exact E2]).
    unfold job, job_txns, block_check. by rewrite E3.
Qed.

(** ** What an accepted share is *)

Lemma install_result v s h now j cb v2 : length (jobs v) = Z.to_nat MAX_JOBS -> uint 8 (job_id s) ->
  resolve v s = Ok (j, cb) -> install_sections v s h now = Some (Ok v2) ->
  tip v2 = tip v /\ splits v2 = splits v /\ recent_tips v2 = recent_tips v /\
  installed_generation v2 s <> None /\
  exists st, job_slot v2 (job_id s) = Some st /\ installed_job st = j /\ coinbases st !! coinbase_id s = Some cb /\
    installed_generation v2 s = Some (generation st).
Proof.
  intros Hlen Hid Hr Hi. destruct (install_sections_eq v s h now j cb Hlen Hid Hr) as (st & Hb & E).
  rewrite E in Hi. injection Hi as Hi. destruct (_ && contains _ _); [done|].
  destruct (is_some (ShareMsg.coinbase s) && _); [done|]. injection Hi as <-.
  destruct (resolve_base v s j cb now Hr) as (st0 & Hb0 & Hj & Hold & Hcb & Hid2). rewrite Hb in Hb0. injection Hb0 as <-.
  pose proof (with_coinbase_fields s st) as (Fj & Fg & _).
  assert (jobs (after_install v s h st) !! Z.to_nat (job_id s) = Some (Some (with_coinbase s st))) as Hslot.
  { apply list_lookup_insert_eq. rewrite Hlen. unfold uint in Hid. unfold MAX_JOBS. lia. }
  assert (coinbases (with_coinbase s st) !! coinbase_id s = Some cb) as Hcoin.
  { unfold with_coinbase. destruct Hcb as [Hc|(Hc & _ & Hl)]; rewrite Hc; [|done].
    destruct (Hid2 cb Hc) as [<- _]. cbn. apply lookup_insert_eq. }
  assert (carries_slot_job s (with_coinbase s st) = true) as Hcarry.
  { unfold carries_slot_job. rewrite Fj. unfold base_state in Hb. destruct (ShareMsg.job s) as [j1|] eqn:Hjs; [|done].
    apply bool_decide_eq_true_2. destruct (brings_new_job v s) eqn:Hn; [by injection Hb as <-|].
    unfold brings_new_job in Hn. rewrite Hjs, Hb in Hn. apply bool_decide_eq_false_1 in Hn.
    by destruct (decide (installed_job st = j1)). }
  assert (forall st2, evict_off_tips (tip v) (recent_tips v) now (with_coinbase s st) = st2 \/ with_coinbase s st = st2 ->
    installed_job st2 = j /\ coinbases st2 !! coinbase_id s = Some cb /\ generation st2 = generation st /\
    carries_slot_job s st2 = true) as Hkept.
  { intros st2 Hst2. assert (kept_state (with_coinbase s st) st2) as [Kj Kc Kg _ _].
    { destruct Hst2 as [<-|<-]; [apply evict_off_tips_kept|reflexivity]. }
    unfold carries_slot_job in *. rewrite Kj, Kc, Kg, Fj, Fg in *. by split_and!. }
  cbn zeta. destruct (is_some (tip v)); (split; [done|]); (split; [done|]); (split; [done|]).
  - set (v2 := evict_jobs_off_recent_tips _ now).
    assert (job_slot v2 (job_id s) = Some (evict_off_tips (tip v) (recent_tips v) now (with_coinbase s st))) as Hs2.
    { unfold job_slot, v2. cbn [evict_jobs_off_recent_tips set_jobs jobs]. rewrite list_lookup_fmap, Hslot. done. }
    destruct (Hkept _ (or_introl eq_refl)) as (K1 & K2 & K3 & K4).
    unfold installed_generation. rewrite Hs2. cbn. rewrite K4. split; [done|]. by eexists.
  - assert (job_slot (after_install v s h st) (job_id s) = Some (with_coinbase s st)) as Hs2.
    { unfold job_slot. by rewrite Hslot. }
    destruct (Hkept _ (or_intror eq_refl)) as (K1 & K2 & K3 & K4).
    unfold installed_generation. rewrite Hs2. cbn. rewrite K4. split; [done|]. by eexists.
Qed.

Lemma length_raw_pow_hash h : length (pow_raw_hash (pow_hashes h)) = TARGET_BYTES.
Proof. apply length_blake2b_256. Qed.

Lemma rebuild_inv v s abw share : rebuild v s abw = Some (Ok share) ->
  check_coinbase_id s = Ok () /\ names_evicted_job v s = false /\
  exists j cb key, resolve v s = Ok (j, cb) /\ slot_key_of s abw = Some key /\
    (forall k st, key = Some (k, st) -> st = Secret) /\ rebuild_share v j cb s (fst <$> key) = Some (Ok share).
Proof.
  unfold rebuild. destruct (check_coinbase_id s) as [[]|]; [|done]. cbn zeta.
  destruct (resolve v s) as [[j cb]|]; [|done]. destruct (slot_key_of s abw) as [key|]; [|done].
  destruct (rebuild_share v j cb s (fst <$> key)) as [r|] eqn:Hr; cbn [mbind option_bind]; [|done].
  destruct r as [share0|]; [|done]. destruct (names_evicted_job v s); [done|].
  intros Hs. split; [done|]. split; [done|]. exists j, cb, key.
  destruct key as [[k []]|]; try done; injection Hs as <-; by split_and!; try done; intros ?? [= <- <-].
Qed.

Lemma verify_inv v s abw now v2 r : verify v s abw now = Some (v2, Ok r) ->
  exists share, rebuild v s abw = Some (Ok share) /\ r = set_job_generation share (installed_generation v2 s) /\
    check_job_header v s share = Ok () /\ meets_share_target s share = true /\
    install_sections v s (rb_raw_pow_hash share) now = Some (Ok v2) /\ check_share v2 s share now = Ok ().
Proof.
  unfold verify. destruct (rebuild v s abw) as [[share|]|]; cbn [mbind option_bind]; [|done|done].
  unfold check_rebuilt. destruct (check_job_header v s share) as [[]|] eqn:Hh; [|done].
  destruct (if _ || _ then _ else _) as [[v3|]|] eqn:Hi; cbn [mbind option_bind]; [|done|done].
  destruct (check_share v3 s share now) as [[]|] eqn:Hc; cbn [mbind result_bind]; [|done].
  destruct (meets_share_target s share) eqn:Hm; cbn [ensure]; [|done]. intros [= <- <-].
  cbn [orb] in Hi. exists share. by split_and!.
Qed.

Lemma check_username_and_time_inv s now : check_username_and_time s now = Ok () ->
  username s <> [] /\ Forall (fun b => 0x21 <= bz b <= 0x7e) (username s) /\
  Z.abs (block_time s - now) <= NTIME_WINDOW_SECS.
Proof.
  unfold check_username_and_time. destruct (ensure _ RejectBadUsername) as [u|] eqn:Hu; [apply ensure_ok in Hu|done].
  cbn [mbind result_bind]. intros Ht. apply ensure_ok in Ht. reflect_Z. split_and!; [done| |lia].
  match goal with H : forallb _ _ = true |- _ => rewrite forallb_forall in H; rename H into Hall end.
  apply Forall_forall. intros b Hb. apply list_elem_of_In, Hall in Hb. unfold is_printable in Hb. reflect_Z. lia.
Qed.

(** C7: What the pool credits is work. When [verify] accepts a share, there is
    a job and a coinbase, those the share carries or those its slot holds, and
    now installed in that slot under the generation reported, such that: the
    coinbase paid what the pool dictated ([check_outputs] accepts it, and what
    it pays is what is reported); the header the share is the solution of is the
    one of that job, of the merkle root over that coinbase with the share's
    target byte, and of a slot key that is still secret where the session has
    slots; the hash reported is that header's, and as a number times the
    credited difficulty is at most 2^224, the difficulty being above half the
    pool's minimum; the job's
    parent is the tip, or a tip replaced within the grace, or the share is a
    block by the node's own next target on a parent the node has reported; and
    its time is within two hours of the pool's clock. *)
Theorem accepted_share_is_work (v v2 : Verifier) (s : PowSubmit) (abw : option AbwSlotState) (now : Z)
    (r : RebuiltShare) :
  length (jobs v) = Z.to_nat MAX_JOBS -> uint 8 (job_id s) -> uint 8 (target_byte s) ->
  verify v s abw now = Some (v2, Ok r) ->
  exists j cb parsed key h st,
    resolve v s = Ok (j, cb) /\
    job_slot v2 (job_id s) = Some st /\ installed_job st = j /\ coinbases st !! coinbase_id s = Some cb /\
    rb_job_generation r = Some (generation st) /\
    parse_coinbase (assemble cb (zeros EXTRANONCE_SIZE)) = Ok parsed /\
    check_outputs (Config.payout_script (config (policy v))) (splits v) j parsed s =
      Ok {| paid_to_split := rb_paid_to_split r; paid_to_pool := rb_paid_to_pool r;
            unpaid_outputs := rb_unpaid_outputs r |} /\
    coinbase_tx j cb (target_byte s) = Some (rb_coinbase_tx r) /\
    share_header s j (job_merkle_root j (rb_coinbase_tx r) (subsidy_only s)) key = Some h /\
    match abw with
    | Some a => exists slot k, abw_slot s = Some slot /\ key_for a slot = Some (k, Secret) /\ key = Some k
    | None => key = None
    end /\
    rb_raw_pow_hash r = pow_raw_hash (pow_hashes h) /\ rb_block_hash r = pow_block_hash (pow_hashes h) /\
    rb_difficulty r = 2 ^ target_byte s /\ be_val (rb_raw_pow_hash r) * rb_difficulty r <= 2 ^ 224 /\
    min_difficulty (config (policy v)) < 2 * rb_difficulty r /\
    (forall t, tip v = Some t ->
       rb_prev_hash r = t \/ within_tip_grace v (rb_prev_hash r) now = true \/
       (parent_unseen v2 s (rb_prev_hash r) = false /\
        exists target, next_target v = Some target /\ meets_target (rb_block_hash r) target = true)) /\
    username s <> [] /\ Z.abs (block_time s - now) <= NTIME_WINDOW_SECS.
Proof.
  intros Hlen Hid Htb Hver. apply verify_inv in Hver as (share & Hreb & -> & Hjh & Hmeets & Hinst & Hchk).
  apply rebuild_inv in Hreb as (Hcid & Hevict & j & cb & key & Hres & Hkey & Hsecret & Hrs).
  apply rebuild_share_inv in Hrs as (parsed & h & Hrange & Hparse & Hwit & Hcb & Hpay & Hh & Hraw & Hblk & Hser & Hisb &
    Hprev & Hbits & Hheight & Hcoin & Hdiff).
  destruct (install_result v s _ now j cb v2 Hlen Hid Hres Hinst) as (Ht & Hsp & Hrt & _ & st & Hslot & Hij & Hic & Hgen).
  exists j, cb, parsed, (fst <$> key), h, st. cbn [set_job_generation rb_job_generation rb_paid_to_split rb_paid_to_pool
    rb_unpaid_outputs rb_coinbase_tx rb_raw_pow_hash rb_block_hash rb_difficulty rb_prev_hash].
  assert (difficulty s = 2 ^ target_byte s) as Hd.
  { unfold difficulty, difficulty_for_exponent. change (64 - 1) with (2 ^ 6 - 1). rewrite land_mask by done.
    unfold MAX_TARGET_EXPONENT, uint in *. rewrite Z.mod_small by lia. rewrite Z.shiftl_1_l. done. }
  assert (0 <= target_byte s < DIFF1_EXPONENT) as He.
  { unfold MAX_TARGET_EXPONENT, uint, DIFF1_EXPONENT in *. lia. }
  unfold check_share in Hchk. destruct (ensure _ StaleBlock) as [u|] eqn:Hstale; [apply ensure_ok in Hstale|done].
  cbn [mbind result_bind] in Hchk. destruct (check_split v2 s share now) as [u2|]; [|done].
  cbn [mbind result_bind] in Hchk. apply check_username_and_time_inv in Hchk as (Hun & _ & Htime).
  rewrite Hdiff, Hd. split_and!; try done.
  - destruct abw as [a|]; unfold slot_key_of in Hkey; [|by injection Hkey as <-].
    destruct (abw_slot s) as [slot|]; [|done]. cbn in Hkey. destruct (key_for a slot) as [[k st0]|] eqn:Hk; [|done].
    injection Hkey as <-. rewrite (Hsecret k st0 eq_refl) in Hk. by exists slot, k.
  - unfold meets_share_target in Hmeets. rewrite meets_target_for_exponent in Hmeets;
      [|rewrite Hraw; apply length_raw_pow_hash|done].
    apply Z.leb_le in Hmeets. unfold DIFF1_EXPONENT in *.
    transitivity (2 ^ (224 - target_byte s) * 2 ^ target_byte s); [apply Z.mul_le_mono_nonneg_r; lia|].
    rewrite <- Z.pow_add_r by lia. by replace (224 - target_byte s + target_byte s) with 224 by lia.
  - unfold floor_log2 in Hrange. destruct (Z.eqb_spec (min_difficulty (config (policy v))) 0) as [->|Hnz]; [lia|].
    destruct (Z.lt_ge_cases (min_difficulty (config (policy v))) 0); [lia|].
    pose proof (Z.log2_spec (min_difficulty (config (policy v))) ltac:(lia)) as [_ Hlog].
    eapply Z.lt_le_trans; [exact Hlog|]. rewrite <- Z.pow_succ_r by lia. apply Z.pow_le_mono_r; lia.
  - intros t Htip. rewrite Ht, Htip in Hstale. apply negb_true_iff in Hstale.
    unfold within_tip_grace in *. rewrite Hrt in Hstale.
    destruct (bool_decide_reflect (rb_prev_hash share = t)) as [->|Hne]; [by left|]. right.
    destruct (existsb _ (recent_tips v)); [by left|]. right. cbn [negb andb] in Hstale.
    apply orb_false_iff in Hstale as [Hb Hp]. split; [done|]. rewrite Hisb in Hb.
    destruct (next_target v) as [target|]; [|done]. exists target. split; [done|].
    apply negb_false_iff in Hb. exact Hb.
Qed.

(** Only new work changes what a connection holds. Whatever a gateway sends
    and however it is answered, the state is unchanged unless the share was
    rebuilt and its hash meets the target it claims (at least the pool's minimum)
    or makes it a block by the node's next target; and where the sections of its
    slot change, its hash had not installed sections on this connection before
    and now counts as having done so, so a share resent under other job or
    coinbase ids fills nothing. The job of any other slot is then still there,
    under its generation. *)
Theorem sections_need_fresh_work (v v2 : Verifier) (s : PowSubmit) (abw : option AbwSlotState) (now : Z)
    (res : result Refusal RebuiltShare) :
  jobs_ok v -> uint 8 (job_id s) -> verify v s abw now = Some (v2, res) ->
  v2 = v \/
  exists share jc, rebuild v s abw = Some (Ok share) /\ resolve v s = Ok jc /\
    floor_log2 (min_difficulty (config (policy v))) <= target_byte s /\
    (meets_target (rb_raw_pow_hash share) (target_for_exponent (target_byte s)) = true \/
     exists target, next_target v = Some target /\ meets_target (rb_block_hash share) target = true) /\
    (changes_slot v s = true ->
       contains (installed_by v) (rb_raw_pow_hash share) = false /\
       last (members (installed_by v2)) = Some (rb_raw_pow_hash share)) /\
    (forall i st, i <> Z.to_nat (job_id s) -> jobs v !! i = Some (Some st) ->
       exists st2, jobs v2 !! i = Some (Some st2) /\ kept_state st st2).
Proof.
  intros Hv Hid Hver. unfold verify in Hver.
  destruct (rebuild v s abw) as [[share|refusal]|] eqn:Hreb; cbn [mbind option_bind] in Hver; [|left; by injection Hver|done].
  unfold check_rebuilt in Hver. destruct (check_job_header v s share); [|left; by injection Hver as <- _].
  pose proof Hreb as Hinv. apply rebuild_inv in Hinv as (_ & _ & j & cb & key & Hres & _ & _ & Hrs).
  apply rebuild_share_inv in Hrs as (parsed & h & Hrange & _ & _ & _ & _ & _ & _ & _ & _ & Hisb & _).
  destruct (meets_share_target s share || rb_is_block share) eqn:Hwork; cbn [mbind option_bind] in Hver;
    [|left; by injection Hver as <- _].
  destruct (install_sections_eq v s (rb_raw_pow_hash share) now j cb (sw_slots _ (jo_slots _ Hv)) Hid Hres)
    as (st & Hb & Hinst).
  rewrite Hinst in Hver. cbn [mbind option_bind] in Hver.
  destruct (changes_slot v s && contains _ _) eqn:Hdup; [left; by injection Hver as <- _|].
  destruct (is_some (ShareMsg.coinbase s) && _); [left; by injection Hver as <- _|].
  right. exists share, (j, cb). split_and!; [done|done|lia| | |]; injection Hver as <- _.
  - apply orb_true_iff in Hwork as [Hm|Hm]; [by left|]. right. rewrite Hisb in Hm.
    destruct (next_target v) as [target|]; [|done]. by exists target.
  - intros Hch. rewrite Hch in Hdup. cbn [andb] in Hdup. split; [done|].
    destruct (sw_installers _ (jo_slots _ Hv)) as [l Hl].
    destruct (set_insert_spec l (installed_by v) (rb_raw_pow_hash share) Hl) as (_ & _ & _ & _ & Hmem).
    rewrite Hdup in Hmem. cbn zeta.
    replace (installed_by _) with (installed_by (after_install v s (rb_raw_pow_hash share) st)) by (by destruct (is_some _)).
    unfold after_install. cbn [installed_by]. rewrite Hch, Hmem. rewrite drop_app_le.
    + apply last_snoc.
    + pose proof (sw_capacity _ (jo_slots _ Hv)). lia.
  - intros i st0 Hne Hi. cbn zeta.
    assert (jobs (after_install v s (rb_raw_pow_hash share) st) !! i = Some (Some st0)) as Hi2.
    { unfold after_install. cbn [jobs]. by rewrite list_lookup_insert_ne. }
    destruct (is_some (tip v)); [|by exists st0].
    cbn [evict_jobs_off_recent_tips set_jobs jobs]. rewrite list_lookup_fmap, Hi2. eexists. split; [done|].
    apply evict_off_tips_kept.
Qed.

(** C10: Staleness outranks every other fault, and changes nothing. A share that
    names an evicted job is answered [StaleBlock] whatever else is wrong with
    it (short of a coinbase id no work can carry); a share on a slot whose key has been revealed, when its job is not
    evicted and its sections resolve, is answered [BadAbwSlot]. In both cases
    nothing is installed, and the refusal carries the share as rebuilt exactly when it could be
    rebuilt, so that the gateway gets the hash it computed. *)
Theorem stale_and_revealed_outrank (v : Verifier) (s : PowSubmit) (abw : option AbwSlotState) (now : Z) :
  check_coinbase_id s = Ok () ->
  (names_evicted_job v s = true ->
     exists shown, verify v s abw now = Some (v, Err {| reason := StaleBlock; rebuilt := shown |}) /\
       (forall share, shown = Some share -> exists j cb key share0, resolve v s = Ok (j, cb) /\
          slot_key_of s abw = Some key /\ rebuild_share v j cb s (fst <$> key) = Some (Ok share0) /\
          share = set_job_generation share0 (installed_generation v s)) /\
       (forall j cb key share0, resolve v s = Ok (j, cb) -> slot_key_of s abw = Some key ->
          rebuild_share v j cb s (fst <$> key) = Some (Ok share0) -> is_Some shown)) /\
  (forall j cb k, names_evicted_job v s = false -> resolve v s = Ok (j, cb) ->
     slot_key_of s abw = Some (Some (k, RevealedKey)) ->
     exists shown, verify v s abw now = Some (v, Err {| reason := BadAbwSlot; rebuilt := shown |}) /\
       (is_Some shown <-> exists share0, rebuild_share v j cb s (Some k) = Some (Ok share0))).
Proof.
  intros Hid. unfold verify, rebuild. rewrite Hid. cbn zeta. split.
  - intros ->. cbn [default from_option].
    destruct (resolve v s) as [[j cb]|] eqn:Hres; [|eexists; split; [done|split; [done|done]]].
    destruct (slot_key_of s abw) as [key|] eqn:Hkey; [|eexists; split; [done|split; [done|done]]].
    destruct (rebuild_share_returns v j cb s (fst <$> key)) as [r Hr]. rewrite Hr. cbn [mbind option_bind].
    destruct r as [share|e]; cbn; eexists; (split; [done|]); split; try done.
    + intros share2 [= <-]. by exists j, cb, key, share.
    + intros j2 cb2 key2 share2 [= <- <-] [= <-] Hr2. by rewrite Hr in Hr2.
  - intros j cb k -> Hres Hkey. rewrite Hres, Hkey. cbn [fst fmap option_fmap option_map].
    destruct (rebuild_share_returns v j cb s (Some k)) as [r Hr]. rewrite Hr. cbn [mbind option_bind].
    destruct r as [share|e]; cbn; eexists; (split; [done|]); split; try done.
    + intros _. by exists share.
    + intros [? [=]].
Qed.

(** ** An honest share is accepted *)

Lemma sublist_fmap_inv {A B} (f : A -> B) k l : k `sublist_of` f <$> l -> exists k', k = f <$> k' /\ k' `sublist_of` l.
Proof.
  revert k. induction l as [|x l IH]; intros k; cbn [fmap list_fmap].
  - intros ->%sublist_nil_r. by exists [].
  - intros Hs. apply sublist_cons_r in Hs as [Hs|(k2 & -> & Hs)]; destruct (IH _ Hs) as (k' & -> & Hk').
    + exists k'. split; [done|by apply sublist_cons].
    + exists (x :: k'). split; [done|by apply sublist_skip].
Qed.

Lemma dictated_payments inc :
  filter (fun o => is_payment o = true) (dictated_output <$> inc) =
    dictated_output <$> filter (fun d => is_payment (dictated_output d) = true) inc /\
  sats_of (filter (fun d => is_payment (dictated_output d) = true) inc) = output_values (dictated_output <$> inc).
Proof.
  induction inc as [|d inc [IH1 IH2]]; [done|]. unfold output_values in *. cbn [fmap list_fmap]. rewrite sumZ_cons.
  destruct (decide (is_payment (dictated_output d) = true)) as [Hp|Hp].
  - rewrite !filter_cons_True by done. rewrite sats_of_cons. cbn [fmap list_fmap]. split; [by f_equal|].
    rewrite IH2. done.
  - rewrite !filter_cons_False by done. split; [done|]. rewrite IH2. unfold is_payment in Hp.
    destruct (Z.eqb_spec (Transaction.value (dictated_output d)) 0); [lia|done].
Qed.

(** The payments of a built coinbase: the outputs included, then the pool's. *)
Lemma final_outputs_payments p included paid e :
  exists pool, filter (fun o => is_payment o = true) (final_outputs p included paid e) =
    filter (fun o => is_payment o = true) included ++ pool /\
  Forall (fun o => script_pubkey o = pool_payout_script p) pool.
Proof.
  unfold final_outputs. rewrite !filter_app.
  assert (forall l, filter (fun o => is_payment o = true) (zero_output <$> l) = []) as Hz.
  { intros l. apply filter_none, Forall_fmap, Forall_forall. by intros x _. }
  replace (filter (fun o => is_payment o = true) (if in_script p then [] else _)) with (@nil TxOut).
  2:{ destruct (in_script p); [done|]. symmetry. apply (Hz [_]). }
  replace (filter (fun o => is_payment o = true) (from_option _ [] (witness_commitment p))) with (@nil TxOut).
  2:{ destruct (witness_commitment p); [|done]. symmetry. apply (Hz [_]). }
  rewrite app_nil_r. cbn [app]. eexists. split; [done|]. unfold payout_output.
  destruct (paid <? spec_coinbase_value p); [|by constructor]. apply Forall_forall.
  intros o [_ ->%list_elem_of_singleton]%list_elem_of_filter. done.
Qed.

(** The coinbase a gateway builds for the configuration and the split the pool
    sent it. *)
Record honest_coinbase (c : ClientConfig) (d : DictatedSplit) (t : ScriptSigInputs) (p : CoinbaseSpec)
    (b : BuiltCoinbase) (included : list TxOut) : Prop := {
  hc_height : uint 32 (Coinbase.height t);
  hc_prime : Coinbase.prime_id t = Config.prime_id c /\ uint 64 (Config.prime_id c) /\
    (wide_prime t = false -> uint 32 (Config.prime_id c)) /\ (Config.prime_id c <> 0 \/ datum_active t = true);
  hc_tag : tag_primary t = coinbase_tag c;
  hc_tag_push : exists data, tag_push_data_that_fits t = Some data /\ is_unique_id_push (Config.prime_id c) data = false;
  hc_script : Coinbase.script_sig t = Some (spec_script_sig p, target_byte_index_in_script p);
  hc_payout : pool_payout_script p = Config.payout_script c;
  hc_outputs : spec_outputs p = dictated_output <$> split_outputs d;
  hc_spec : spec_wf p /\ spec_sizes p /\ fixed_bytes p <= coinbase_room (limits p);
  hc_build : build p = (b, included);
  hc_pays : 0 < output_values included;
}.

(** The job it is mined on, on the pool's tip. *)
Record honest_job (v : Verifier) (d : DictatedSplit) (p : CoinbaseSpec) (b : BuiltCoinbase) (j : JobSection) : Prop := {
  hj_index : ShareMsg.target_byte_index j = built_target_byte_index b;
  hj_value : coinbase_value j = spec_coinbase_value p /\ split_value d = spec_coinbase_value p;
  hj_prev : tip v = Some (ShareMsg.prev_hash j) /\ split_prev_hash d = ShareMsg.prev_hash j;
  hj_split : get_split (splits v) (coinbaser_id j) = Some d;
  hj_template : forall n, next_on v (ShareMsg.prev_hash j) = Some n ->
    le_val (nbits j) = next_bits n /\ (forall h, next_height n = Some h -> h = job_height j);
}.

(** The share: its sections, its proof of work, its user and its time. *)
Record honest_share (v : Verifier) (s : PowSubmit) (abw : option AbwSlotState) (now : Z) (j : JobSection)
    (cb : CoinbaseSection) (tx : bytes) (key : option bytes) (h : BlockHeaderV2) : Prop := {
  hs_sections : resolve v s = Ok (j, cb);
  hs_ids : uint 8 (job_id s) /\ coinbase_id s < MAX_COINBASE_TYPES /\ subsidy_only s = false;
  hs_live : names_evicted_job v s = false;
  hs_target : floor_log2 (min_difficulty (config (policy v))) <= target_byte s <= MAX_TARGET_EXPONENT;
  hs_key : match abw with
           | Some a => exists slot k, abw_slot s = Some slot /\ key_for a slot = Some (k, Secret) /\ key = Some k
           | None => key = None
           end;
  hs_tx : coinbase_tx j cb (target_byte s) = Some tx;
  hs_header : share_header s j (job_merkle_root j tx false) key = Some h;
  hs_work : meets_target (pow_raw_hash (pow_hashes h)) (target_for_exponent (target_byte s)) = true;
  hs_user : username s <> [] /\ (length (username s) <= MAX_USERNAME_LEN)%nat /\
    forallb is_printable (username s) = true /\ head (username s) <> Some (zb 0x2e);
  hs_time : Z.abs (block_time s - now) <= NTIME_WINDOW_SECS;
  hs_mintime : forall n m, next_on v (ShareMsg.prev_hash j) = Some n -> next_mintime n = Some m -> m <= block_time s;
  hs_fresh : changes_slot v s && contains (installed_by v) (pow_raw_hash (pow_hashes h)) = false;
  hs_room : is_some (ShareMsg.coinbase s) && (installed_coinbase_bytes_cap v <? projected_bytes v s) = false;
}.

(** The coinbase of an honest gateway, through the pool's eyes. *)
Lemma honest_coinbase_read c d t p b included :
  honest_coinbase c d t p b included -> exists parsed kept,
    parse_coinbase (assemble (section b) (zeros EXTRANONCE_SIZE)) = Ok parsed /\ has_witness parsed = false /\
    kept `prefix_of` tag_secondary_in t /\
    parse_script_sig parsed (Config.prime_id c) (coinbase_tag c) =
      Some {| Coinbase.target_byte_index := built_target_byte_index b; tag_secondary := shown_tag kept |} /\
    coinbase_bytes (section b) <= MAX_COINBASE_SECTION_LEN /\
    outputs parsed = final_outputs p included (output_values included) (zeros EXTRANONCE_SIZE) /\
    (exists inc, included = dictated_output <$> inc /\ inc `sublist_of` split_outputs d) /\
    sumZ (Transaction.value <$> outputs parsed) = spec_coinbase_value p.
Proof.
  intros [Hh (Hpr & H64 & H32 & Hact) Htag (data & Hfit & Hnot) Hscript Hpay Houts (Hwf & Hsz & Hroom) Hb _].
  destruct (build_inv _ _ _ Hwf Hb) as (paid & Eb & Hsub & Hpaid & Hrange). rewrite Hpaid in *.
  destruct (build_room p b included Hwf Hb) as (_ & _ & _ & Hlen). specialize (Hlen Hroom).
  pose proof (coinbase_room_section (limits p)) as Hmax. subst b.
  destruct (parse_assembled p included paid (zeros EXTRANONCE_SIZE) Hwf Hsz eq_refl Hsub ltac:(lia))
    as (off & Hparse & Hidx & _).
  eexists. rewrite <- Hpr in *.
  destruct (parse_script_sig_ok t
    {| Transaction.version := COINBASE_TX_VERSION; script_sig_offset := off;
       Transaction.script_sig := final_script p (zeros EXTRANONCE_SIZE); Transaction.sequence := 2 ^ 32 - 1;
       outputs := final_outputs p included paid (zeros EXTRANONCE_SIZE); Transaction.lock_time := 0; has_witness := false |}
    (spec_script_sig p) (if in_script p then extranonce_push p (zeros EXTRANONCE_SIZE) else [])
    (target_byte_index_in_script p) data) as (kept & Hpre & _ & Hps); try done.
  exists kept. split; [exact Hparse|]. split; [done|]. split; [done|]. rewrite <- Htag.
  split; [rewrite Hidx; exact Hps|]. split; [|split; [done|split]].
  - unfold coinbase_bytes, section_len in *. change (Z.of_nat EXTRANONCE_SIZE) with 12 in *. lia.
  - rewrite Houts in Hsub. by apply sublist_fmap_inv.
  - by apply (output_values_final p included paid (zeros EXTRANONCE_SIZE)).
Qed.

Lemma honest_share_rebuilt v s abw now d t p b included j tx key h :
  honest_coinbase (config (policy v)) d t p b included -> honest_job v d p b j ->
  honest_share v s abw now j (section b) tx key h ->
  exists share kept, rebuild v s abw = Some (Ok share) /\ resolve v s = Ok (j, section b) /\
    kept `prefix_of` tag_secondary_in t /\ rb_tag_secondary share = shown_tag kept /\
    rb_raw_pow_hash share = pow_raw_hash (pow_hashes h) /\ rb_block_hash share = pow_block_hash (pow_hashes h) /\
    rb_header share = serialize h /\ rb_coinbase_tx share = tx /\
    output_values included <= rb_paid_to_split share /\
    rb_paid_to_split share + rb_paid_to_pool share = spec_coinbase_value p /\
    rb_prev_hash share = ShareMsg.prev_hash j /\ rb_job_bits share = le_val (nbits j) /\
    rb_height share = job_height j /\ rb_difficulty share = difficulty s.
Proof.
  intros Hc [Hidx [Hval Hsval] [Htip Hsprev] Hsplit Htempl] Hs.
  destruct (honest_coinbase_read _ _ _ _ _ _ Hc) as (parsed & kept & Hparse & Hwit & Hpre & Hps & Hlen & Houts &
    (inc & Einc & Hinc) & Hsum).
  destruct Hs as [Hres (Hid & Htypes & Hsub) Hlive Htb Hkey Htx Hh _ _ _ _ _ _].
  pose proof (hc_spec _ _ _ _ _ _ Hc) as [(_ & Hcv & _) _].
  destruct (final_outputs_payments p included (output_values included) (zeros EXTRANONCE_SIZE)) as (pool & Hpays & Hpool).
  destruct (dictated_payments inc) as [Hdp1 Hdp2].
  assert (named_split (splits v) j s = Some d) as Hnamed by (unfold named_split; by rewrite Hsub).
  destruct (check_outputs_complete (Config.payout_script (config (policy v))) (splits v) j parsed s
    (filter (fun d => is_payment (dictated_output d) = true) inc) pool) as (pay & Hpay & Hpaid & Htot).
  { by apply parse_coinbase_bounds in Hparse as (_ & _ & ?). }
  { lia. }
  { intros d2 Hd2. rewrite Hnamed in Hd2. injection Hd2 as <-. split; [done|congruence]. }
  { rewrite Houts, Hpays, Einc, Hdp1. done. }
  { unfold dictated_to. rewrite Hnamed. cbn. etransitivity; [apply sublist_filter|done]. }
  { by rewrite <- (hc_payout _ _ _ _ _ _ Hc). }
  { congruence. }
  unfold rebuild. replace (check_coinbase_id s) with (@Ok RejectReason () ()).
  2:{ unfold check_coinbase_id. rewrite Hsub. by rewrite (proj2 (Z.ltb_lt _ _) Htypes). }
  cbn zeta. rewrite Hlive, Hres.
  assert (exists k, slot_key_of s abw = Some k /\ fst <$> k = key /\ match k with Some (_, RevealedKey) => false | _ => true end = true)
    as (k & -> & Hk & Hrev).
  { unfold slot_key_of. destruct abw as [a|]; [|exists None; by subst key].
    destruct Hkey as (slot & k & -> & Hk & ->). cbn. rewrite Hk. by exists (Some (k, Secret)). }
  rewrite Hk. unfold rebuild_share. cbn zeta.
  rewrite (proj2 (Z.ltb_ge _ _)), (proj2 (Z.ltb_ge _ _)) by lia. cbn [orb].
  rewrite Hparse, Hwit, Hps. cbn [Coinbase.target_byte_index Coinbase.tag_secondary]. rewrite Hidx, Z.eqb_refl. cbn [negb].
  unfold coinbase_tx in Htx. rewrite Hidx in Htx. rewrite Htx. cbn [mbind option_bind]. rewrite Hpay, Hsub, Hh.
  cbn zeta. eexists _, kept.
  destruct k as [[k []]|]; try done; (split; [done|]); cbn; rewrite Einc, <- Hdp2; (split_and!; try done; try lia).
Qed.

Lemma check_username_and_time_ok s now :
  username s <> [] -> (length (username s) <= MAX_USERNAME_LEN)%nat -> forallb is_printable (username s) = true ->
  head (username s) <> Some (zb 0x2e) -> Z.abs (block_time s - now) <= NTIME_WINDOW_SECS ->
  check_username_and_time s now = Ok ().
Proof.
  intros Hne Hlen Hp Hdot Ht. unfold check_username_and_time.
  rewrite !bool_decide_eq_false_2, Hp by done.
  by rewrite !(proj2 (Z.ltb_ge _ _)) by (unfold zlen; lia).
Qed.

(** Honest work is credited: a share of a job that commits to a coinbase built from the
    pool's configuration and the split it dictated for the tip passes every check. *)
Lemma honest_share_accepted (v : Verifier) (s : PowSubmit) (abw : option AbwSlotState) (now : Z) (d : DictatedSplit)
    (t : ScriptSigInputs) (p : CoinbaseSpec) (b : BuiltCoinbase) (included : list TxOut) (j : JobSection)
    (tx : bytes) (key : option bytes) (h : BlockHeaderV2) :
  jobs_ok v -> honest_coinbase (config (policy v)) d t p b included -> honest_job v d p b j ->
  honest_share v s abw now j (section b) tx key h ->
  exists v2 r kept, verify v s abw now = Some (v2, Ok r) /\
    rb_raw_pow_hash r = pow_raw_hash (pow_hashes h) /\ rb_block_hash r = pow_block_hash (pow_hashes h) /\
    rb_header r = serialize h /\ rb_coinbase_tx r = tx /\ rb_difficulty r = difficulty s /\
    output_values included <= rb_paid_to_split r /\
    rb_paid_to_split r + rb_paid_to_pool r = spec_coinbase_value p /\
    kept `prefix_of` tag_secondary_in t /\ rb_tag_secondary r = shown_tag kept.
Proof.
  intros Hv Hc Hj Hs.
  destruct (honest_share_rebuilt v s abw now d t p b included j tx key h Hc Hj Hs) as (share & kept & Hreb & Hres & Hpre &
    Htag & Hraw & Hblk & Hser & Hctx & Hpaid & Htot & Hprev & Hbits & Hheight & Hdiff).
  destruct Hs as [_ (Hid & _ & Hsub) _ _ _ _ _ Hwork (Hu1 & Hu2 & Hu3 & Hu4) Htime Hmin Hfresh Hroom].
  destruct Hj as [_ _ [Htip _] _ Htempl].
  assert (check_job_header v s share = Ok ()) as Hjh.
  { unfold check_job_header. rewrite Hprev. destruct (next_on v (ShareMsg.prev_hash j)) as [n|] eqn:Hn; [|done].
    destruct (Htempl n eq_refl) as [Hb Hh]. rewrite Hbits, Hb, Z.eqb_refl, orb_true_r. cbn.
    replace (match next_height n with Some h0 => h0 =? rb_height share | None => true end) with true.
    2:{ destruct (next_height n) as [h0|]; [|done]. rewrite (Hh h0 eq_refl), Hheight. by rewrite Z.eqb_refl. }
    cbn. destruct (next_mintime n) as [m|] eqn:Hm; [|done]. specialize (Hmin n m eq_refl Hm).
    by rewrite (proj2 (Z.ltb_ge _ _)). }
  destruct (install_sections_eq v s (rb_raw_pow_hash share) now j (section b) (sw_slots _ (jo_slots _ Hv)) Hid Hres)
    as (st & _ & Hinst).
  rewrite Hraw, Hfresh, Hroom in Hinst. rewrite <- Hraw in Hinst.
  destruct (install_result v s _ now j (section b) _ (sw_slots _ (jo_slots _ Hv)) Hid Hres Hinst)
    as (Htip2 & Hsp2 & _ & _ & _).
  match type of Hinst with _ = Some (Ok ?x) => set (v2 := x) in * end.
  assert (check_share v2 s share now = Ok ()) as Hchk.
  { unfold check_share. rewrite Htip2, Htip, Hprev, bool_decide_eq_true_2 by done. cbn [negb andb ensure mbind result_bind].
    unfold check_split. pose proof (hc_pays _ _ _ _ _ _ Hc).
    rewrite (proj2 (Z.eqb_neq (rb_paid_to_split share) 0)) by lia. rewrite Hsub. cbn [negb orb mbind result_bind].
    by apply check_username_and_time_ok. }
  exists v2, (set_job_generation share (installed_generation v2 s)), kept. split; [|by split_and!].
  unfold verify. rewrite Hreb. cbn [mbind option_bind]. unfold check_rebuilt. rewrite Hjh.
  unfold meets_share_target. rewrite Hraw, Hwork. cbn [orb]. rewrite <- Hraw, Hinst. cbn [mbind option_bind].
  by rewrite Hchk.
Qed.
End verification.

(** ** A gateway and a pool, for the witnesses *)

Definition example_policy : SharePolicy :=
  {| config := {| Config.payout_script := replicate 22 (zb 7); Config.prime_id := 12345;
                  coinbase_tag := tag_primary example_tags; min_difficulty := 1; v3 := None |};
     chain := Some Main |}.

Definition example_mined_spec : CoinbaseSpec :=
  {| spec_coinbase_id := 1; spec_script_sig := from_option fst [] (Coinbase.script_sig example_tags);
     target_byte_index_in_script := 14; enprefix := 0xbeef; witness_commitment := Some (replicate 38 (zb 0x6a));
     pool_payout_script := replicate 22 (zb 7); spec_coinbase_value := 10000;
     spec_outputs := dictated_output <$> example_dictated;
     limits := {| sizelimit := 4000000; weightlimit := 4000000; limits_txn_total_size := 900;
                  limits_txn_total_weight := 3600 |};
     sigop_budget := 80000 |}.

Definition example_built : BuiltCoinbase := (build example_mined_spec).1.

Definition example_mined_job : JobSection :=
  {| ShareMsg.prev_hash := le 32 7; ShareMsg.target_byte_index := built_target_byte_index example_built;
     nbits := le 4 0x1d00ffff; coinbaser_id := 1; job_height := 840000; coinbase_value := 10000; txn_count := 0;
     txn_total_weight := 0; txn_total_size := 0; txn_total_sigops := 0; merkle_branches := [] |}.

Definition example_mined_share : PowSubmit :=
  {| job_id := 5; coinbase_id := 1; is_block := false; subsidy_only := false; quickdiff := false;
     target_byte := 0; ntime := 1000; share_nonce := 1; share_version := V2_FLAG + 0x20000000;
     share_extranonce_field := le 12 9; username := zb <$> [0x62; 0x2e; 0x77];
     use_time_offset := false; ShareMsg.job := Some example_mined_job; coinbase := Some (section example_built);
     blake2b := {| sia_ntime := sia_words 0 3; sia_nonce := sia_words 1 2; section_time_on_wire := 1000 |};
     abw_slot := None |}.

Definition example_dictated_at : DictatedSplit :=
  {| split_outputs := example_dictated; split_value := 10000; split_prev_hash := le 32 7; sent_at := 900 |}.

Definition example_verifier : Verifier :=
  record_dictated (set_tip (verifier_new example_policy) (Some (le 32 7)) 900) 1 10000 (le 32 7) example_dictated 900.

Definition example_mined_tx : bytes :=
  default [] (coinbase_tx example_mined_job (section example_built) 0).

Definition example_mined_header : BlockHeaderV2 :=
  let _ := zero_digests in
  default example_header
    (share_header example_mined_share example_mined_job
       (@job_merkle_root zero_digests example_mined_job example_mined_tx false) None).

Lemma example_verifier_reached : @reachable zero_digests example_policy 2 example_verifier.
Proof.
  eapply nsteps_l; [apply (@step_set_tip zero_digests _ (Some (le 32 7)) 900)|].
  eapply nsteps_l; [apply (@step_record_dictated zero_digests _ 10000 (le 32 7) example_dictated 900)|].
  apply nsteps_O.
Defined.

Lemma connection_state_is_bounded_witness :
  exists v2 r, @verify zero_digests example_verifier example_mined_share None 1010 = Some (v2, r).
Proof.
  destruct (@connection_state_is_bounded zero_digests example_policy 2 example_verifier) as (_ & _ & _ & _ & _ & _ & Hv);
    [done|apply example_verifier_reached|]. apply Hv. by vm_compute.
Defined.

(** The state after the share, and what it was accepted as. *)
Definition example_answer : option (Verifier * result Refusal RebuiltShare) :=
  @verify zero_digests example_verifier example_mined_share None 1010.

Definition example_after : Verifier := from_option fst example_verifier example_answer.

Lemma example_answer_ok : exists r, example_answer = Some (example_after, Ok r).
Proof.
  unfold example_after. destruct example_answer as [[v2 [r|e]]|] eqn:E; [by exists r|exfalso|exfalso];
    apply (f_equal (fun a => match a with Some (_, Ok _) => true | _ => false end)) in E; vm_compute in E; discriminate.
Defined.

Lemma example_share_bytes : uint 8 (job_id example_mined_share) /\ uint 8 (target_byte example_mined_share).
Proof. by vm_compute. Defined.

Lemma accepted_share_is_work_witness : exists r,
  example_answer = Some (example_after, Ok r) /\ rb_difficulty r = 1 /\ be_val (rb_raw_pow_hash r) * rb_difficulty r <= 2 ^ 224.
Proof.
  destruct example_answer_ok as [r Hr]. exists r. split; [exact Hr|].
  destruct (@accepted_share_is_work zero_digests example_verifier example_after example_mined_share None 1010 r)
    as (j & cb & parsed & key & h & st & _ & _ & _ & _ & _ & _ & _ & _ & _ & _ & _ & _ & Hd & Hw & _);
    [reflexivity|apply example_share_bytes|apply example_share_bytes|exact Hr|].
  split; [rewrite Hd; reflexivity|exact Hw].
Defined.

Lemma generation_names_one_job_witness : exists j,
  job example_after 5 1 = Some j /\
  forall j2, job (set_tip example_after (Some (le 32 8)) 1020) 5 1 = Some j2 -> j2 = j.
Proof.
  assert (@reachable zero_digests example_policy 3 example_after) as Hr.
  { unfold reachable. eapply nsteps_r; [apply example_verifier_reached|].
    apply (@step_verify zero_digests example_verifier example_mined_share None 1010 example_after
      (from_option snd (Err (unreferenced Other)) example_answer)); [by vm_compute|].
    unfold example_after. fold example_answer. destruct example_answer as [[v2 r]|] eqn:E; [done|exfalso].
    apply (f_equal is_some) in E. vm_compute in E. discriminate. }
  exists example_mined_job. split; [vm_compute; reflexivity|]. intros j2 Hj2.
  destruct (@generation_names_one_job zero_digests example_policy 3 1 example_after
    (set_tip example_after (Some (le 32 8)) 1020) 5 1) as [Hsame _]; [by vm_compute|exact Hr| |].
  - eapply nsteps_l; [apply (@step_set_tip zero_digests _ (Some (le 32 8)) 1020)|apply nsteps_O].
  - apply (Hsame example_mined_job j2); [vm_compute; reflexivity|exact Hj2].
Defined.

Lemma example_verifier_ok : jobs_ok example_verifier.
Proof.
  destruct (@run_verified zero_digests 2 (verifier_new example_policy) example_verifier) as [Hok _];
    [apply verifier_new_ok|by vm_compute|apply example_verifier_reached|exact Hok].
Defined.

Lemma example_installs :
  (next_generation example_after =? next_generation example_verifier) = false /\
  changes_slot example_verifier example_mined_share = true.
Proof. split; vm_compute; reflexivity. Defined.

Lemma sections_need_fresh_work_witness : exists share,
  last (members (installed_by example_after)) = Some (rb_raw_pow_hash share).
Proof.
  destruct example_answer_ok as [r Hr].
  destruct (@sections_need_fresh_work zero_digests example_verifier example_after example_mined_share None 1010 (Ok r))
    as [E|(share & jc & _ & _ & _ & _ & Hch & _)];
    [apply example_verifier_ok|apply example_share_bytes|exact Hr| |].
  - exfalso. destruct example_installs as [Hn _]. rewrite E, Z.eqb_refl in Hn. discriminate.
  - exists share. apply Hch, example_installs.
Defined.

(** The tip has been replaced twice, long ago, when the job is named again. *)
Definition example_stale : Verifier :=
  set_tip (set_tip example_after (Some (le 32 8)) 1020) (Some (le 32 9)) 1100.

Lemma stale_and_revealed_outrank_witness : exists shown,
  @verify zero_digests example_stale example_mined_share None 1101 =
    Some (example_stale, Err {| reason := StaleBlock; rebuilt := shown |}).
Proof.
  destruct (@stale_and_revealed_outrank zero_digests example_stale example_mined_share None 1101) as [Hs _].
  - vm_compute. reflexivity.
  - destruct Hs as (shown & Hs & _); [vm_compute; reflexivity|]. exists shown. exact Hs.
Defined.
