(* ===== verification/Relay.v ===== *)
(** A found block on its way to the node ([prime/src/relay.rs]): the transactions
    a gateway sends for a job checked against the job's merkle branches, the block
    proposed to the node with the witness its coinbase commits to, and the block
    submitted once its transactions form the root its header commits to. The node's
    answers, one per attempt, are arguments. *)
From S2P Require Import Prelude Reader Bitcoin Script Transaction.
From S2P Require Import Target Header Messages ShareMsg Window Rows Coinbase Splits Bounded Jobs Verify.

Definition SUBMIT_ATTEMPTS : nat := 3.
Definition PROPOSAL_ATTEMPTS : nat := 2.

Definition WITNESS_COMMITMENT_PREFIX : bytes := zb <$> [0x6a; 0x24; 0xaa; 0x21; 0xa9; 0xed].
Definition SEGWIT_MARKER_AND_FLAG : bytes := zb <$> [0x00; 0x01].
Definition WITNESS_RESERVED_VALUE_STACK : bytes := [zb 1; zb 32] ++ zeros 32.
Definition TX_VERSION_LEN : nat := 4.
Definition TX_LOCK_TIME_LEN : nat := 4.

(** [rpc::Error], as far as a retry depends on it. *)
Inductive NodeError := Unauthorized | OtherError.
Definition is_unauthorized (e : NodeError) : bool := match e with Unauthorized => true | OtherError => false end.

(** [null], or the reason the node gives. *)
Definition Answer : Type := result NodeError (option string).

(** Why the pool does not relay. *)
Inductive Mismatch :=
| WrongCount (sent : nat) (job : Z)
| Undecodable (i : nat) (e : TxError)
| WrongBranches
| BadHeader
| NoTransactions
| MutatedTree (count : nat)
| WrongRoot (count : nat) (root committed : bytes).

Inductive Relayed :=
| Accepted
| RejectedByNode (reason : string)
| RejectedByPool (why : Mismatch)
| Unknown.

Definition starts_with (script prefix : bytes) : bool := bool_decide (take (length prefix) script = prefix).

Definition with_witness_reserved_value (coinbase : bytes) : bytes :=
  let commits :=
    match parse_coinbase coinbase with
    | Ok tx => negb (has_witness tx) && existsb (fun out => starts_with (script_pubkey out) WITNESS_COMMITMENT_PREFIX) (outputs tx)
    | Err _ => false
    end in
  if negb commits || (length coinbase <? TX_VERSION_LEN + TX_LOCK_TIME_LEN)%nat then coinbase else
  let lock_time_at := (length coinbase - TX_LOCK_TIME_LEN)%nat in
  take TX_VERSION_LEN coinbase ++ SEGWIT_MARKER_AND_FLAG ++
  drop TX_VERSION_LEN (take lock_time_at coinbase) ++ WITNESS_RESERVED_VALUE_STACK ++ drop lock_time_at coinbase.

(** A loop over attempts, from the one given; [fuel] is those left. *)
Fixpoint propose_loop (fuel attempt : nat) (answers : nat -> Answer) : Answer :=
  match fuel, answers attempt with
  | S fuel, Err e =>
    if (attempt <? PROPOSAL_ATTEMPTS)%nat && negb (is_unauthorized e) then propose_loop fuel (S attempt) answers
    else Err e
  | _, answer => answer
  end.

Fixpoint submit_loop (tries attempt : nat) (answers : nat -> Answer) : Relayed :=
  match tries with
  | O => Unknown
  | S tries =>
    match answers attempt with
    | Ok None => Accepted
    | Ok (Some reason) =>
      if String.eqb reason "duplicate" || String.eqb reason "inconclusive" then Accepted else RejectedByNode reason
    | Err e => if is_unauthorized e then Unknown else submit_loop tries (S attempt) answers
    end
  end.

Definition submit_with_retries (answers : nat -> Answer) : Relayed := submit_loop SUBMIT_ATTEMPTS 1 answers.

Section relay.
Context `{Digests}.

Definition block_of (rebuilt : RebuiltShare) (coinbase : bytes) (txns : list bytes) : bytes :=
  serialize_block (rb_header rebuilt) coinbase txns.

(** The node is asked about the block, each attempt answered in turn. *)
Definition propose (node : bytes -> nat -> Answer) (rebuilt : RebuiltShare) (txns : list bytes) : Answer :=
  let coinbase := with_witness_reserved_value (rb_coinbase_tx rebuilt) in
  propose_loop PROPOSAL_ATTEMPTS 1 (node (block_of rebuilt coinbase txns)).

(** The transaction ids, or the first that does not decode. *)
Fixpoint txids_from (i : nat) (txns : list bytes) : result Mismatch (list bytes) :=
  match txns with
  | [] => Ok []
  | raw :: txns =>
    id ← map_err (Undecodable i) (txid raw);
    ids ← txids_from (S i) txns;
    Ok (id :: ids)
  end.

(** [None] where an [expect] of [merkle_branches] fails. *)
Definition txns_match_job (txns : list bytes) (txn_count : Z) (merkle_branches : list bytes)
    : option (result Mismatch ()) :=
  if negb (zlen txns =? txn_count) then Some (Err (WrongCount (length txns) txn_count)) else
  match txids_from 0 txns with
  | Err e => Some (Err e)
  | Ok ids =>
    branches ← Bitcoin.merkle_branches ids;
    Some (ensure (bool_decide (branches = merkle_branches)) WrongBranches)
  end.

Definition block_matches_header (rebuilt : RebuiltShare) (txns : list bytes) : result Mismatch () :=
  committed ← ok_or BadHeader (Header.merkle_root <$> deserialize (rb_header rebuilt));
  ids ← txids_from 0 txns;
  let ids := sha256d (rb_coinbase_tx rebuilt) :: ids in
  tree ← ok_or NoTransactions (merkle_tree_root ids);
  _ ← ensure (negb (mutated tree)) (MutatedTree (length ids));
  ensure (bool_decide (root tree = committed)) (WrongRoot (length ids) (root tree) committed).

Definition submit (node : bytes -> nat -> Answer) (rebuilt : RebuiltShare) (txns : list bytes) : Relayed :=
  match block_matches_header rebuilt txns with
  | Err why => RejectedByPool why
  | Ok _ => submit_with_retries (node (block_of rebuilt (rb_coinbase_tx rebuilt) txns))
  end.

(** ** A job's transactions form its blocks *)

Lemma txids_from_ok txns : forall i ids, txids_from i txns = Ok ids -> forall k, txids_from k txns = Ok ids.
Proof.
  induction txns as [|raw txns IH]; intros i ids; [done|]. cbn. destruct (txid raw) as [id|e]; cbn; [|done].
  destruct (txids_from (S i) txns) as [l|] eqn:Hl; cbn; [|done]. intros [= <-] k. by rewrite (IH _ _ Hl (S k)).
Qed.

Lemma txns_match_job_returns txns n branches : exists r, txns_match_job txns n branches = Some r.
Proof.
  unfold txns_match_job. destruct (negb _); [by eexists|]. destruct (txids_from 0 txns) as [ids|e]; [|by eexists].
  destruct (merkle_branches_root (zeros 32) ids) as (b & _ & -> & _). cbn. by eexists.
Qed.

Lemma txns_match_job_ok txns n branches :
  txns_match_job txns n branches = Some (Ok ()) ->
  exists ids, txids_from 0 txns = Ok ids /\ Bitcoin.merkle_branches ids = Some branches /\ zlen txns = n.
Proof.
  unfold txns_match_job. destruct (Z.eqb_spec (zlen txns) n); [|done]. cbn.
  destruct (txids_from 0 txns) as [ids|]; [|done]. intros Hm. exists ids. split; [done|].
  destruct (Bitcoin.merkle_branches ids) as [b|] eqn:Hb; cbn in Hm; [|done].
  injection Hm as Hm. unfold ensure in Hm. by case_bool_decide as E; [subst b|].
Qed.

(** C14: What the pool takes as a job's transactions is what it needs to relay a block
    found on the job. The check of any transactions against any job returns, with an
    error or without; and where it took the transactions, for every share rebuilt on the job, whatever its coinbase, the header's merkle root is the
    root over that coinbase and those transactions, so the block goes to the node:
    the one thing that can stop it is a tree with a repeated pair, which the node
    would refuse. A subsidy-only share needs no transactions at all. *)
Theorem job_txns_form_the_block (r : RebuiltShare) (h : BlockHeaderV2) (j : JobSection) (subsidy_only : bool)
    (txns : list bytes) :
  (exists taken, txns_match_job txns (txn_count j) (ShareMsg.merkle_branches j) = Some taken) /\
  (header_wf h -> rb_header r = serialize h ->
   Header.merkle_root h = job_merkle_root j (rb_coinbase_tx r) subsidy_only ->
   (if subsidy_only then txns = [] else txns_match_job txns (txn_count j) (ShareMsg.merkle_branches j) = Some (Ok ())) ->
   block_matches_header r txns = Ok () \/
   block_matches_header r txns = Err (MutatedTree (S (length txns))) /\ subsidy_only = false).
Proof.
  split; [apply txns_match_job_returns|].
  intros Hwf Hh Hroot Htx. unfold block_matches_header. rewrite Hh, deserialize_serialize by done. cbn [fmap option_fmap option_map ok_or mbind result_bind].
  assert (exists ids, txids_from 0 txns = Ok ids /\ length ids = length txns /\
    Bitcoin.merkle_branches ids = Some (if subsidy_only then [] else ShareMsg.merkle_branches j)) as (ids & Hids & Hlen & Hb).
  { destruct subsidy_only; [subst txns; by exists []|]. destruct (txns_match_job_ok _ _ _ Htx) as (ids & Hids & Hb & _).
    exists ids. split_and!; [done| |done]. clear -Hids. revert Hids. generalize 0%nat. revert ids.
    induction txns as [|raw txns IH]; intros ids i; cbn; [by intros [= <-]|].
    destruct (txid raw); cbn; [|done]. destruct (txids_from (S i) txns) eqn:E; cbn; [|done].
    intros [= <-]. cbn. f_equal. by eapply IH. }
  rewrite Hids. cbn [mbind result_bind].
  destruct (merkle_branches_root (sha256d (rb_coinbase_tx r)) ids) as (b & t & Hb' & Htree & Ht). rewrite Htree.
  rewrite Hb in Hb'. injection Hb' as <-. cbn [ok_or mbind result_bind]. destruct (mutated t) eqn:Hm; cbn [negb ensure mbind result_bind].
  - right. cbn [length]. rewrite Hlen. split; [done|]. destruct subsidy_only; [|done]. subst txns.
    injection Hids as <-. cbn in Htree. injection Htree as <-. done.
  - left. unfold ensure. rewrite bool_decide_eq_true_2; [done|]. by rewrite Hroot.
Qed.

(** ** The witness added for a proposal *)

Definition commits_to_witnesses (outs : list TxOut) : bool :=
  existsb (fun out => starts_with (script_pubkey out) WITNESS_COMMITMENT_PREFIX) outs.

Lemma witness_reserved_value_bytes (ver : Z) (script seq : bytes) (outs : list TxOut) (lock : Z) :
  let t := coinbase_of ver script seq [zeros 32] outs lock in
  tx_wf t ->
  with_witness_reserved_value (tx_stripped t) =
  (if commits_to_witnesses outs then tx_with_witness t else tx_stripped t) /\
  with_witness_reserved_value (tx_with_witness t) = tx_with_witness t.
Proof.
  intros t Hwf. destruct (parse_coinbase_roundtrip ver script seq [zeros 32] outs lock Hwf) as (o1 & o2 & Hp1 & _ & Hp2 & _).
  fold t in Hp1, Hp2. unfold with_witness_reserved_value. rewrite Hp1, Hp2. cbn [has_witness outputs negb andb].
  split; [|done]. fold (commits_to_witnesses outs). destruct (commits_to_witnesses outs); [|done]. cbn [negb orb].
  assert (length (tx_stripped t) = 8 + length (tx_body t))%nat as Hlen.
  { unfold tx_stripped. rewrite !length_app, !length_le. lia. }
  unfold TX_VERSION_LEN, TX_LOCK_TIME_LEN. rewrite (proj2 (Nat.ltb_ge _ _)) by lia.
  unfold tx_stripped, tx_with_witness. rewrite !length_app, !length_le.
  replace (4 + (length (tx_body t) + 4) - 4)%nat with (length (le 4 (tx_version t) ++ tx_body t)) by (rewrite length_app, length_le; lia).
  rewrite !app_assoc, <- (app_assoc (le 4 (tx_version t)) (tx_body t)), !(app_assoc (le 4 (tx_version t)) (tx_body t)).
  rewrite take_app_length, drop_app_length, <- !app_assoc.
  rewrite (take_length_app 4), (drop_length_app 4) by apply length_le. done.
Qed.

(** The block proposed to the node is the one that would be found. The witness
    added to a coinbase that commits to witnesses makes the transaction the node
    expects, the reserved value in its one input, and leaves the transaction id,
    which the merkle root commits to, as it was; a coinbase that commits to none is
    proposed as it is, and none gets the witness twice. *)
Theorem reserved_value_keeps_txid (ver : Z) (script seq : bytes) (outs : list TxOut) (lock : Z) :
  let t := coinbase_of ver script seq [zeros 32] outs lock in
  tx_wf t ->
  let proposed := with_witness_reserved_value (tx_stripped t) in
  txid proposed = txid (tx_stripped t) /\ with_witness_reserved_value proposed = proposed /\
  (commits_to_witnesses outs = true -> proposed = tx_with_witness t) /\
  (commits_to_witnesses outs = false -> proposed = tx_stripped t).
Proof.
  intros t Hwf. destruct (witness_reserved_value_bytes ver script seq outs lock Hwf) as [H1 H2]. fold t in H1, H2.
  destruct (txid_stripped t Hwf) as [Ht1 Ht2]. cbv zeta. rewrite H1.
  destruct (commits_to_witnesses outs); rewrite ?H1, ?H2, ?Ht1, ?Ht2; by split_and!.
Qed.
End relay.

(** ** Examples *)

Definition example_txn : bytes :=
  tx_stripped (coinbase_of 2 [zb 1; zb 7] SEQUENCE_FINAL [] [{| value := 1; script_pubkey := [zb 0x51] |}] 0).

Definition example_committing : list TxOut :=
  [{| value := 5; script_pubkey := [zb 0x51] |}; {| value := 0; script_pubkey := WITNESS_COMMITMENT_PREFIX ++ zeros 32 |}].

Lemma example_committing_wf : tx_wf (coinbase_of 2 [zb 1; zb 7] SEQUENCE_FINAL [zeros 32] example_committing 0).
Proof. by repeat (constructor || split). Qed.

Lemma reserved_value_keeps_txid_witness :
  with_witness_reserved_value (tx_stripped (coinbase_of 2 [zb 1; zb 7] SEQUENCE_FINAL [zeros 32] example_committing 0)) =
  tx_with_witness (coinbase_of 2 [zb 1; zb 7] SEQUENCE_FINAL [zeros 32] example_committing 0).
Proof.
  destruct (@reserved_value_keeps_txid example_digests 2 [zb 1; zb 7] SEQUENCE_FINAL example_committing 0 example_committing_wf)
    as (_ & _ & Hc & _). apply Hc. reflexivity.
Defined.

(** A job of one transaction, and a share mined on it. *)
Definition example_txn_id : bytes := match @txid example_digests example_txn with Ok id => id | Err _ => [] end.
Definition example_one_txn_job : JobSection :=
  {| ShareMsg.prev_hash := le 32 7; ShareMsg.target_byte_index := 50; nbits := le 4 0x1d00ffff; coinbaser_id := 3;
     job_height := 100; coinbase_value := 5000000000; txn_count := 1; txn_total_weight := 800;
     txn_total_size := 200; txn_total_sigops := 4; ShareMsg.merkle_branches := [example_txn_id] |}.
Definition example_block_header : BlockHeaderV2 :=
  {| Header.version := 0x20000000; prev_block := le 32 7;
     Header.merkle_root := @job_merkle_root example_digests example_one_txn_job (zeros 60) false; time := 5;
     bits := 0x1d00ffff; nonce := 1; nonce2 := 2; nonce3 := 3; extranonce := le 16 11;
     time_offset := 600; txcount := 2; flags := 4 + 3; xor_key_mask_clear_bits := 12;
     xor_key := le 16 1; Header.height := 100; mm_rhs := zeros 32 |}.
Definition example_relayed : RebuiltShare :=
  {| rb_is_block := true; rb_difficulty := 1; rb_block_hash := zeros 32; rb_raw_pow_hash := zeros 32;
     rb_prev_hash := le 32 7; rb_job_bits := 0x1d00ffff; rb_header := serialize example_block_header;
     rb_coinbase_tx := zeros 60; rb_height := 100; rb_txn_count := 1; rb_coinbaser_id := 3; rb_paid_to_split := 0;
     rb_paid_to_pool := 0; rb_unpaid_outputs := []; rb_tag_secondary := []; rb_version := 0x20000000;
     rb_coinbase_digest := zeros 32; rb_job_generation := Some 1 |}.

Lemma job_txns_form_the_block_witness :
  @block_matches_header example_digests example_relayed [example_txn] = Ok () \/
  @block_matches_header example_digests example_relayed [example_txn] = Err (MutatedTree 2) /\ false = false.
Proof.
  apply (@job_txns_form_the_block example_digests example_relayed example_block_header example_one_txn_job false).
  - by repeat (constructor || split).
  - reflexivity.
  - reflexivity.
  - vm_compute. reflexivity.
Defined.
