(* ===== verification/Shares.v ===== *)
(** A gateway's shares on its connection ([prime/src/connection/shares.rs], with
    the cache of [prime/src/txns.rs] and the parts of [connection.rs] and
    [connection/assignments.rs] they go through): a share is verified, held while its
    job's transactions or its parent are awaited, decided by the node's verdict on its
    job's block, credited, relayed and answered. What goes out, to the gateway, the
    node and the ledger, is appended to a log. *)
From S2P Require Import Prelude Reader Bitcoin Transaction Address Target Header Messages ShareMsg AbwMsg Validation.
From S2P Require Import AbwSlots Window Config Rows Ledger Accounting Splits Bounded Jobs Verify Relay.

Definition TXNS_TIMEOUT : Z := from_secs 20.
Definition MAX_TXN_REQUESTS : nat := 8.
Definition MAX_HELD_SHARES : nat := 4096.
Definition UNSEEN_PARENT_HOLD : Z := from_secs 10.
Definition PROPOSAL_RETRY_SECS : Z := 10.

Inductive Awaiting := AwaitTxns | AwaitParent (until : Z).


Record HeldShare := {
  held_share : PowSubmit;
  held_verified : result Refusal RebuiltShare;
  held_generation : Z;
  held_received_at : Z;
  awaiting : Awaiting;
}.

Definition claimed_hash (h : HeldShare) : option bytes := rb_block_hash <$> ok (held_verified h).

(** [HeldShare::hash]. *)
Definition held_hash (h : HeldShare) : option bytes :=
  match held_verified h with
  | Ok r => Some (rb_block_hash r)
  | Err refusal => rb_block_hash <$> rebuilt refusal
  end.

Definition awaits_parent (h : HeldShare) : bool := match awaiting h with AwaitParent _ => true | AwaitTxns => false end.
Definition parent_hold_until (h : HeldShare) : option Z :=
  match awaiting h with AwaitParent until => Some until | AwaitTxns => None end.

Record TxnRequest := { req_job_id : Z; req_generation : Z; req_sent_at : Z }.
Definition deadline (r : TxnRequest) : Z := req_sent_at r + TXNS_TIMEOUT.

Inductive JobVerdict :=
| NotNeeded
| PendingTxns (gen : Z)
| ValidJob (txns : list bytes)
| RelayOnly (txns : list bytes)
| InvalidJob (reason : RejectReason)
| Unchecked (reason : RejectReason) (txns : list bytes).

Inductive Txns := TxnsReady (txns : list bytes) | TxnsPending | TxnsRefused (reason : RejectReason).

Definition block_check_from (proposal : Answer) (version now : Z) : BlockCheck * bool :=
  let unavailable := (Jobs.Unavailable (sat_add 64 now PROPOSAL_RETRY_SECS), true) in
  match proposal with
  | Ok None => (Valid version, true)
  | Err _ => unavailable
  | Ok (Some reason) =>
    if String.eqb reason "duplicate" then (Valid version, true)
    else if String.eqb reason "duplicate-inconclusive" then unavailable
    else if String.eqb reason "inconclusive-not-best-prevblk" then (Invalid StaleBlock, true)
    else if String.eqb reason "bad-diffbits" then (Invalid BadTarget, true)
    else if String.eqb reason "bad-header-height" || String.eqb reason "bad-cb-height" then (Invalid HeaderFieldMismatch, true)
    else if String.eqb reason "bad-txnmrklroot" || String.eqb reason "bad-txns-duplicate" then (Invalid HeaderMerkleMismatch, true)
    else if String.prefix "time-" reason then (Invalid BadNtime, false)
    else if String.prefix "bad-version" reason then (Invalid RejectBadVersion, false)
    else if String.prefix "bad-cb-" reason then (Invalid BadCoinbase, true)
    else (Invalid Other, true)
  end.

(** ** The connection

    What goes out: an answer, an anti-block-withholding receipt and a request for
    a job's transactions to the gateway; a block proposed and a block submitted to
    the node, with its answer; a share recorded to the ledger, and a found block to
    the records. *)
Inductive Event :=
| Answered (r : ShareResponse)
| Receipt (c : CandidateRef)
| Requested_txns (job_id : Z)
| Proposed (s : PowSubmit) (gen : Z) (r : RebuiltShare) (txns : list bytes) (answer : Answer)
| Submitted (r : RebuiltShare) (txns : list bytes) (relayed : Relayed)
| Credited (s : PowSubmit) (r : RebuiltShare) (now : Z)
| Found (s : PowSubmit) (r : RebuiltShare) (now : Z).

(** The transactions held by hash; one no job names any more is found dead. *)
Record TxnCache := { cached : gmap bytes bytes; added_since_sweep : Z }.
Definition SWEEP_EVERY : Z := 2 ^ 16.

(** A connection and what it shares with the others: the hashes of accepted
    shares, the blocks relayed and the cache. *)
Record Connection := {
  verifier : Verifier;
  abw : option AbwSlotState;
  held : list HeldShare;
  txn_requests : list TxnRequest;
  accepted_hashes : AcceptedShareHashes;
  relayed_blocks : BoundedSet bytes;
  txn_cache : TxnCache;
  log : list Event;
}.

Definition set_verifier (c : Connection) (v : Verifier) : Connection :=
  {| verifier := v; abw := abw c; held := held c; txn_requests := txn_requests c; accepted_hashes := accepted_hashes c;
     relayed_blocks := relayed_blocks c; txn_cache := txn_cache c; log := log c |}.
Definition set_abw (c : Connection) (a : option AbwSlotState) : Connection :=
  {| verifier := verifier c; abw := a; held := held c; txn_requests := txn_requests c; accepted_hashes := accepted_hashes c;
     relayed_blocks := relayed_blocks c; txn_cache := txn_cache c; log := log c |}.
Definition set_held (c : Connection) (h : list HeldShare) : Connection :=
  {| verifier := verifier c; abw := abw c; held := h; txn_requests := txn_requests c; accepted_hashes := accepted_hashes c;
     relayed_blocks := relayed_blocks c; txn_cache := txn_cache c; log := log c |}.
Definition set_requests (c : Connection) (r : list TxnRequest) : Connection :=
  {| verifier := verifier c; abw := abw c; held := held c; txn_requests := r; accepted_hashes := accepted_hashes c;
     relayed_blocks := relayed_blocks c; txn_cache := txn_cache c; log := log c |}.
Definition set_shared (c : Connection) (a : AcceptedShareHashes) (r : BoundedSet bytes) (t : TxnCache) : Connection :=
  {| verifier := verifier c; abw := abw c; held := held c; txn_requests := txn_requests c; accepted_hashes := a;
     relayed_blocks := r; txn_cache := t; log := log c |}.
Definition add_log (c : Connection) (e : Event) : Connection :=
  {| verifier := verifier c; abw := abw c; held := held c; txn_requests := txn_requests c; accepted_hashes := accepted_hashes c;
     relayed_blocks := relayed_blocks c; txn_cache := txn_cache c; log := log c ++ [e] |}.

(** What a handler meets: the clocks (read once for a handler, an instant in
    nanoseconds), whether a write to the gateway succeeds after what has gone out,
    the node's answer to each attempt with a block, whether an address can be paid,
    whether the ledger records a share, and which cached transactions are alive. *)
Record Env := {
  unix_now : Z;
  instant_now : Z;
  write_ok : list Event -> bool;
  node_proposal : bytes -> nat -> Answer;
  node_submission : bytes -> nat -> Answer;
  payable : bytes -> bool;
  records : PowSubmit -> RebuiltShare -> bool;
  alive : bytes -> bool;
}.

(** A handler: a failed write ends the connection, and an [expect] or an index out
    of range would panic. *)
Inductive Failure := Io | Panic.
Definition M (A : Type) : Type := Connection -> Connection * result Failure A.
#[global] Instance M_ret : MRet M := fun A a c => (c, Ok a).
#[global] Instance M_bind : MBind M := fun A B f m c =>
  match m c with (c, Ok a) => f a c | (c, Err e) => (c, Err e) end.

Definition get : M Connection := fun c => (c, Ok c).
Definition modify (f : Connection -> Connection) : M () := fun c => (f c, Ok ()).
Definition note (e : Event) : M () := modify (fun c => add_log c e).
Definition send (env : Env) (e : Event) : M () := fun c =>
  if write_ok env (log c) then (add_log c e, Ok ()) else (c, Err Io).
Definition or_panic {A} (o : option A) : M A := fun c => (c, match o with Some a => Ok a | None => Err Panic end).

Definition hold_claim (hash : bytes) (now : Z) : M bool := fun c =>
  let '(fresh, a) := hash_insert (accepted_hashes c) hash now in
  (set_shared c a (relayed_blocks c) (txn_cache c), Ok fresh).
Definition release_claim (hash : bytes) : M () :=
  modify (fun c => set_shared c (hash_remove (accepted_hashes c) hash).2 (relayed_blocks c) (txn_cache c)).
Definition push_held (h : HeldShare) : M () := modify (fun c => set_held c (held c ++ [h])).

Definition abw_slot_of (c : Connection) (s : PowSubmit) : option Z :=
  if is_some (abw c) then ShareMsg.abw_slot s else None.

(** [holds]: a share held here rebuilt to [hash]. *)
Definition holds_share (c : Connection) (hash : bytes) : bool :=
  existsb (fun h => bool_decide (held_hash h = Some hash)) (held c).

Section shares.
Context `{Digests}.

(** ** The cache of transactions *)

(** The serialization held, when a job still names it, or the one given, held from
    now on; the dead entries are removed once enough were added. *)
Definition intern (alive : bytes -> bool) (cache : TxnCache) (key raw : bytes) : TxnCache * bytes :=
  let fresh :=
    let held := <[key := raw]> (cached cache) in
    let added := added_since_sweep cache + 1 in
    (if SWEEP_EVERY <=? added
     then {| cached := filter (fun e => e.1 = key \/ alive e.1 = true) held; added_since_sweep := 0 |}
     else {| cached := held; added_since_sweep := added |}, raw) in
  match cached cache !! key with
  | Some kept => if alive key then (cache, kept) else fresh
  | None => fresh
  end.

Fixpoint intern_all (alive : bytes -> bool) (cache : TxnCache) (raws : list bytes) : TxnCache * list bytes :=
  match raws with
  | [] => (cache, [])
  | raw :: raws =>
    let '(cache, txn) := intern alive cache (sha256d raw) raw in
    let '(cache, txns) := intern_all alive cache raws in
    (cache, txn :: txns)
  end.

(** ** The job of a share *)

Definition verify_and_claim (s : PowSubmit) (now : Z) : M (result Refusal RebuiltShare) :=
  c ← get;
  '(v, verified) ← or_panic (verify (verifier c) s (abw c) now);
  _ ← modify (fun c => set_verifier c v);
  match verified with
  | Err refusal => mret (Err refusal)
  | Ok r =>
    fresh ← hold_claim (rb_block_hash r) now;
    mret (if fresh : bool then Ok r else Err {| reason := DuplicateWork; rebuilt := Some r |})
  end.

Definition request_txns (env : Env) (s : PowSubmit) (gen : Z) : M () :=
  _ ← send env (Requested_txns (job_id s));
  modify (fun c => set_requests (set_verifier c (set_job_txns (verifier c) (job_id s) gen Requested).1)
    (txn_requests c ++ [{| req_job_id := job_id s; req_generation := gen; req_sent_at := instant_now env |}])).

Definition job_txns (env : Env) (s : PowSubmit) (gen : Z) : M Txns :=
  c ← get;
  match Jobs.job (verifier c) (job_id s) gen with
  | None => mret (TxnsRefused StaleBlock)
  | Some j =>
    if subsidy_only s || (txn_count j =? 0) then mret (TxnsReady []) else
    match Jobs.job_txns (verifier c) (job_id s) gen with
    | Some (Jobs.Held txns) => mret (TxnsReady txns)
    | Some Jobs.Requested => mret TxnsPending
    | Some (Jobs.Refused reason) => mret (TxnsRefused reason)
    | None => mret (TxnsRefused StaleBlock)
    | Some Unrequested =>
      if (MAX_TXN_REQUESTS <=? length (txn_requests c))%nat then mret (TxnsRefused Other) else
      _ ← request_txns env s gen;
      mret TxnsPending
    end
  end.

Definition check_block (env : Env) (s : PowSubmit) (r : RebuiltShare) (gen : Z) (txns : list bytes) (now : Z)
    : M BlockCheck :=
  let proposal := propose (node_proposal env) r txns in
  _ ← note (Proposed s gen r txns proposal);
  let '(check, whole_job) := block_check_from proposal (rb_version r) now in
  _ ← (if whole_job
       then modify (fun c => set_verifier c (record_block_check (verifier c) (job_id s) gen (rb_coinbase_digest r) check))
       else mret ());
  mret check.

(** The share as rebuilt where its job's validity matters, and whether it is to be
    credited. *)
Definition to_decide (c : Connection) (verified : result Refusal RebuiltShare) : option (RebuiltShare * bool) :=
  match verified with
  | Ok r => Some (r, true)
  | Err {| reason := reason; rebuilt := Some r |} =>
    if relayable (verifier c) r &&
       (negb (bool_decide (reason = DuplicateWork)) || negb (contains (relayed_blocks c) (rb_block_hash r)))
    then Some (r, false) else None
  | Err _ => None
  end.

(** What the node's verdict says of the share. *)
Definition verdict_of (check : BlockCheck) (r : RebuiltShare) (txns : list bytes) : JobVerdict :=
  match check with
  | Valid version =>
    if negb (Z.land (Z.lxor version (rb_version r)) (lnot 32 VERSION_ROLLING_MASK) =? 0) then InvalidJob RejectBadVersion
    else ValidJob txns
  | Invalid StaleBlock => Unchecked StaleBlock txns
  | Invalid reason => InvalidJob reason
  | Jobs.Unavailable _ => Unchecked Other txns
  end.

Definition job_verdict (env : Env) (s : PowSubmit) (verified : result Refusal RebuiltShare) (now : Z) : M JobVerdict :=
  c ← get;
  match to_decide c verified with
  | None => mret NotNeeded
  | Some (r, credited) =>
    let refused reason := if credited then InvalidJob reason else NotNeeded in
    match rb_job_generation r with
    | None => mret (refused StaleBlock)
    | Some gen =>
      txns ← job_txns env s gen;
      match txns with
      | TxnsPending => mret (PendingTxns gen)
      | TxnsRefused reason => mret (refused reason)
      | TxnsReady txns =>
        if negb credited then mret (RelayOnly txns) else
        c ← get;
        check ← match block_check (verifier c) (job_id s) gen (rb_coinbase_digest r) with
                | Some (Jobs.Unavailable retry_at) =>
                  if retry_at <=? now then check_block env s r gen txns now else mret (Jobs.Unavailable retry_at)
                | Some check => mret check
                | None => check_block env s r gen txns now
                end;
        mret (verdict_of check r txns)
      end
    end
  end.

(** ** Relaying, crediting and answering *)

Definition note_published_slot (s : PowSubmit) : M () :=
  modify (fun c =>
    match abw_slot_of c s, abw c with
    | Some slot, Some a => set_abw c (Some (note_published a slot).2)
    | _, _ => c
    end).

Definition relay_and_record (env : Env) (s : PowSubmit) (r : RebuiltShare) (txns : list bytes) (now : Z) : M () :=
  c ← get;
  let '(blocks, fresh) := set_insert (relayed_blocks c) (rb_block_hash r) in
  _ ← modify (fun c => set_shared c (accepted_hashes c) blocks (txn_cache c));
  if negb fresh then mret () else
  let relayed := submit (node_submission env) r txns in
  _ ← note (Submitted r txns relayed);
  match relayed with
  | RejectedByNode _ | RejectedByPool _ => mret ()
  | Relay.Accepted =>
    _ ← note_published_slot s;
    note (Found s r now)
  | Relay.Unknown =>
    _ ← note_published_slot s;
    _ ← modify (fun c => set_shared c (accepted_hashes c) (set_remove (relayed_blocks c) (rb_block_hash r)).1 (txn_cache c));
    note (Found s r now)
  end.

Definition send_abw_receipt (env : Env) (s : PowSubmit) (r : RebuiltShare) : M () :=
  c ← get;
  match abw_slot_of c s with
  | None => mret ()
  | Some slot => send env (Receipt (candidate_new slot (rb_raw_pow_hash r)))
  end.

Definition credit (env : Env) (s : PowSubmit) (r : RebuiltShare) (now : Z) : M ShareVerdict :=
  if negb (payable env (address_of (username s))) then mret (Rejected RejectBadUsername) else
  if records env s r then
    _ ← note (Credited s r now);
    mret AbwMsg.Accepted
  else
    _ ← release_claim (rb_block_hash r);
    mret (Rejected Other).

Record ShareOutcome := { outcome_verdict : ShareVerdict; outcome_raw_pow_hash : option bytes }.

Definition on_accepted (env : Env) (s : PowSubmit) (r : RebuiltShare) (txns : list bytes) (now : Z) : M ShareOutcome :=
  _ ← (if meets_own_bits r then relay_and_record env s r txns now else mret ());
  _ ← modify (fun c => set_abw c (note_share <$> abw c));
  verdict ← credit env s r now;
  _ ← (if is_block_candidate r then send_abw_receipt env s r else mret ());
  mret {| outcome_verdict := verdict; outcome_raw_pow_hash := Some (rb_raw_pow_hash r) |}.

Definition may_reference (s : PowSubmit) (r : RebuiltShare) (received_at : Z) : M bool :=
  c ← get;
  if negb (is_some (abw_slot_of c s)) then mret false else
  if negb (meets_share_target s r) then mret true else
  if sat_add 64 received_at NTIME_WINDOW_SECS <? block_time s then mret false else
  _ ← hold_claim (rb_block_hash r) received_at;
  mret true.

Definition on_refused (env : Env) (s : PowSubmit) (refusal : Refusal) (relay : option (list bytes)) (received_at : Z)
    : M ShareOutcome :=
  _ ← match rebuilt refusal, relay with
      | Some r, Some txns => relay_and_record env s r txns received_at
      | _, _ => mret ()
      end;
  shown ← match rebuilt refusal with
          | Some r => may ← may_reference s r received_at; mret (if may : bool then Some r else None)
          | None => mret None
          end;
  _ ← match shown with
      | Some r => if is_block_candidate r then send_abw_receipt env s r else mret ()
      | None => mret ()
      end;
  mret {| outcome_verdict := Rejected (reason refusal); outcome_raw_pow_hash := rb_raw_pow_hash <$> shown |}.

(** The outcome of a share, once its job is decided. *)
Definition outcome_of (env : Env) (s : PowSubmit) (verified : result Refusal RebuiltShare) (verdict : JobVerdict)
    (received_at : Z) : M ShareOutcome :=
  match verified, verdict with
  | Ok r, ValidJob txns => on_accepted env s r txns received_at
  | Ok r, verdict =>
    let '(reason, txns) :=
      match verdict with
      | InvalidJob reason => (reason, None)
      | Unchecked reason txns => (reason, Some txns)
      | _ => (Other, None)
      end in
    c ← get;
    _ ← (if negb (is_some (abw_slot_of c s)) then release_claim (rb_block_hash r) else mret ());
    let relay := if meets_own_bits r then txns else None in
    on_refused env s {| reason := reason; rebuilt := Some r |} relay received_at
  | Err refusal, RelayOnly txns => on_refused env s refusal (Some txns) received_at
  | Err refusal, _ => on_refused env s refusal None received_at
  end.

Definition answer (env : Env) (s : PowSubmit) (verified : result Refusal RebuiltShare) (verdict : JobVerdict)
    (received_at : Z) : M () :=
  outcome ← outcome_of env s verified verdict received_at;
  c ← get;
  let abw_ref := hash ← outcome_raw_pow_hash outcome; slot ← abw_slot_of c s; Some (candidate_new slot hash) in
  send env (Answered
    {| AbwMsg.verdict := outcome_verdict outcome; response_nonce := share_nonce s;
       response_target_byte := target_byte s; response_job_id := job_id s; abw_ref := abw_ref |}).

(** ** Settling a share *)

(** Whether a share refused as stale is held for its parent, and under which
    generation. *)
Definition parent_hold_of (env : Env) (c : Connection) (s : PowSubmit) (verified : result Refusal RebuiltShare)
    (parent_hold : option Z) : option (Z * Z) :=
  match verified, parent_hold with
  | Err {| reason := StaleBlock; rebuilt := Some r |}, Some until =>
    if instant_now env <? until then
      match rb_job_generation r with
      | Some gen => if parent_unseen (verifier c) s (rb_prev_hash r) then Some (gen, until) else None
      | None => None
      end
    else None
  | _, _ => None
  end.

(** A resend of a held share. *)
Definition resent (c : Connection) (verified : result Refusal RebuiltShare) : bool :=
  match verified with
  | Err {| reason := DuplicateWork; rebuilt := Some r |} | Err {| reason := StaleBlock; rebuilt := Some r |} =>
    holds_share c (rb_block_hash r)
  | _ => false
  end.

Definition decide_share (env : Env) (s : PowSubmit) (verified : result Refusal RebuiltShare) (received_at : Z) : M () := fun c =>
  match job_verdict env s verified received_at c with
  | (c, Err e) =>
    ((match verified with Ok r => release_claim (rb_block_hash r) c | Err _ => (c, Ok ()) end).1, Err e)
  | (c, Ok (PendingTxns gen)) =>
    if (length (held c) <? MAX_HELD_SHARES)%nat then
      push_held {| held_share := s; held_verified := verified; held_generation := gen; held_received_at := received_at;
                   awaiting := AwaitTxns |} c
    else answer env s verified (InvalidJob Other) received_at c
  | (c, Ok verdict) => answer env s verified verdict received_at c
  end.

Definition settle (env : Env) (s : PowSubmit) (verified : result Refusal RebuiltShare) (received_at : Z)
    (parent_hold : option Z) : M () :=
  c ← get;
  if resent c verified then
    decide_share env s (Err {| reason := DuplicateWork; rebuilt := None |}) received_at
  else
    match parent_hold_of env c s verified parent_hold with
    | Some (gen, until) =>
      if (MAX_HELD_SHARES <=? length (held c))%nat then decide_share env s verified received_at else
      push_held {| held_share := s; held_verified := verified; held_generation := gen; held_received_at := received_at;
                   awaiting := AwaitParent until |}
    | None => decide_share env s verified received_at
    end.

(** ** The messages *)

Definition on_undecodable_share (env : Env) (plain : bytes) (e : Messages.Error) : M () :=
  let prefix := default SharePrefix_default (ShareMsg.prefix plain) in
  send env (Answered
    {| AbwMsg.verdict := Rejected (reason_for_decode_error e); response_nonce := prefix_nonce prefix;
       response_target_byte := prefix_target_byte prefix; response_job_id := prefix_job_id prefix; abw_ref := None |}).

Definition on_share (env : Env) (plain : bytes) : M () :=
  match ShareMsg.decode plain with
  | Err e => on_undecodable_share env plain e
  | Ok s =>
    verified ← verify_and_claim s (unix_now env);
    settle env s verified (unix_now env) (Some (instant_now env + UNSEEN_PARENT_HOLD))
  end.

Fixpoint settle_released (env : Env) (released : list HeldShare) : M () :=
  match released with
  | [] => mret ()
  | h :: rest =>
    _ ← match awaiting h with
        | AwaitTxns => settle env (held_share h) (held_verified h) (held_received_at h) None
        | AwaitParent until =>
          verified ← verify_and_claim (held_share h) (unix_now env);
          settle env (held_share h) verified (held_received_at h) (Some until)
        end;
    settle_released env rest
  end.

Definition release_held (env : Env) (matches : HeldShare -> bool) : M () :=
  c ← get;
  _ ← modify (fun c => set_held c (filter (fun h => matches h = false) (held c)));
  settle_released env (filter (fun h => matches h = true) (held c)).

Definition of_job (id gen : Z) (h : HeldShare) : bool := (job_id (held_share h) =? id) && (held_generation h =? gen).

(** The transactions of a response, checked against the job. *)
Definition checked_txns (env : Env) (list : TxnList) (j : JobSection) : M JobTxns :=
  if bool_decide (txn_status list = StatusOk) then
    c ← get;
    let '(cache, txns) := intern_all (alive env) (txn_cache c) (Validation.txns list) in
    _ ← modify (fun c => set_shared c (accepted_hashes c) (relayed_blocks c) cache);
    matched ← or_panic (txns_match_job txns (txn_count j) (ShareMsg.merkle_branches j));
    mret (match matched with Ok _ => Jobs.Held txns | Err _ => Jobs.Refused HeaderMerkleMismatch end)
  else mret (Jobs.Refused Other).

Definition on_block_txns (env : Env) (plain : bytes) : M () :=
  if negb (bool_decide (bz <$> plain !! SELECTOR_AT = Some response.BLOCK_TXNS)) then mret () else
  match decode_txn_list plain response.BLOCK_TXNS with
  | Err _ => mret ()
  | Ok list =>
    c ← get;
    match position (fun r => req_job_id r =? job_index list) (txn_requests c) with
    | None => mret ()
    | Some at_ =>
      request ← or_panic (txn_requests c !! at_);
      _ ← modify (fun c => set_requests c (delete at_ (txn_requests c)));
      match Jobs.job (verifier c) (req_job_id request) (req_generation request) with
      | None => release_held env (fun h => job_id (held_share h) =? req_job_id request)
      | Some j =>
        txns ← checked_txns env list j;
        _ ← modify (fun c => set_verifier c (set_job_txns (verifier c) (req_job_id request) (req_generation request) txns).1);
        release_held env (of_job (req_job_id request) (req_generation request))
      end
    end
  end.

(** [while let Some(at) = ...]: a request sent meanwhile is not due yet, so there
    are as many turns as requests at most. *)
Fixpoint expire_loop (fuel : nat) (env : Env) : M () :=
  c ← get;
  match position (fun r => deadline r <=? instant_now env) (txn_requests c) with
  | None => mret ()
  | Some at_ =>
    match fuel with
    | O => or_panic None
    | S fuel =>
      request ← or_panic (txn_requests c !! at_);
      _ ← modify (fun c => set_requests c (delete at_ (txn_requests c)));
      _ ← modify (fun c => set_verifier c (set_job_txns (verifier c) (req_job_id request) (req_generation request) (Jobs.Refused Other)).1);
      _ ← release_held env (of_job (req_job_id request) (req_generation request));
      expire_loop fuel env
    end
  end.

Definition expire_txn_requests (env : Env) : M () :=
  c ← get; expire_loop (length (txn_requests c)) env.

Fixpoint release_jobs (env : Env) (jobs : list (Z * Z)) : M () :=
  match jobs with
  | [] => mret ()
  | (id, gen) :: rest => _ ← release_held env (of_job id gen); release_jobs env rest
  end.

Definition answer_orphaned_held (env : Env) : M () :=
  c ← get;
  let orphaned := filter (fun h => Jobs.job (verifier c) (job_id (held_share h)) (held_generation h) = None) (held c) in
  release_jobs env ((fun h => (job_id (held_share h), held_generation h)) <$> orphaned).

Definition parent_hold_due (now : Z) (h : HeldShare) : bool :=
  from_option (fun until => until <=? now) false (parent_hold_until h).

Definition expire_parent_holds (env : Env) : M () :=
  c ← get;
  if negb (existsb (parent_hold_due (instant_now env)) (held c)) then mret ()
  else release_held env (parent_hold_due (instant_now env)).

(** The tip and the template of the node; a new tip settles again the shares held
    for a parent. The rotation and the notification that follow are [AbwSlots]'. *)
Definition notify_tip_change (env : Env) (current : option bytes) (template : option TemplateSummary) : M () :=
  c ← get;
  if bool_decide (current <> tip (verifier c)) then
    _ ← modify (fun c => set_verifier c (set_template (set_tip (verifier c) current (unix_now env)) template).1);
    release_held env awaits_parent
  else modify (fun c => set_verifier c (set_template (verifier c) template).1).

(** What the connection's loop does with shares, each with what it meets: a message
    taken, a timer gone through, the node's tip looked at. *)
Inductive input :=
| ShareReceived (plain : bytes)
| BlockTxnsReceived (plain : bytes)
| TipLookedAt (current : option bytes) (template : option TemplateSummary)
| TxnRequestsExpire
| ParentHoldsExpire
| OrphansAnswered.

Definition handle (env : Env) (i : input) : M () :=
  match i with
  | ShareReceived plain => on_share env plain
  | BlockTxnsReceived plain => on_block_txns env plain
  | TipLookedAt current template => notify_tip_change env current template
  | TxnRequestsExpire => expire_txn_requests env
  | ParentHoldsExpire => expire_parent_holds env
  | OrphansAnswered => answer_orphaned_held env
  end.

(** [Drop]: the claims of the shares not answered are released. *)
Definition close (c : Connection) : Connection :=
  set_shared c
    (foldl (fun a hash => (hash_remove a hash).2) (accepted_hashes c) (omap claimed_hash (held c)))
    (relayed_blocks c) (txn_cache c).
End shares.
