(* ===== verification/Credits.v ===== *)
(** What the handling of shares ([Shares]) guarantees: no share is credited on a job
    whose block the node has not validated, every share is answered once or held,
    what a connection holds is bounded, and no handler panics or runs forever. *)
From S2P Require Import Prelude Reader Bitcoin Transaction Address Header Coinbase Messages ShareMsg AbwMsg Validation.
From S2P Require Import AbwSlots Window Config Rows Ledger Accounting Splits Bounded Jobs Verify Relay Shares.

(** ** What a step of the verifier leaves in its slots *)

(** The same job, with the verdicts and the transactions it had, or without. *)
Record inherits (st st' : JobState) : Prop := {
  in_generation : generation st' = generation st;
  in_job : installed_job st' = installed_job st;
  in_live : evicted st' = false -> evicted st = false;
  in_checks : checks st' = ∅ \/ checks st' = checks st;
  in_txns : txns st' = Unrequested /\ (evicted st' = true \/ holds_txns (txns st) = true) \/ txns st' = txns st;
}.

#[global] Instance inherits_refl : Reflexive inherits.
Proof. intros st. split; auto. Qed.

Definition blank (st : JobState) : Prop := checks st = ∅ /\ txns st = Unrequested.

(** A slot inherits, or holds a job installed since. *)
Definition inherits_slots (v v' : Verifier) : Prop :=
  next_generation v <= next_generation v' /\
  forall i st', jobs v' !! i = Some (Some st') ->
    (blank st' /\ next_generation v <= generation st') \/ exists st, jobs v !! i = Some (Some st) /\ inherits st st'.

#[global] Instance inherits_slots_refl : Reflexive inherits_slots.
Proof. intros v. split; [done|]. intros i st Hi. right. by exists st. Qed.

Lemma inherits_trans st1 st2 st3 : inherits st1 st2 -> inherits st2 st3 -> inherits st1 st3.
Proof.
  intros [G1 J1 L1 C1 T1] [G2 J2 L2 C2 T2]. split; [congruence|congruence|auto|destruct C1, C2; first [left; congruence|right; congruence]|].
  destruct T2 as [[T2 [E|E]]|T2].
  - left. auto.
  - destruct T1 as [[T1 _]|T1]; [by rewrite T1 in E|]. left. rewrite <- T1. auto.
  - destruct T1 as [[T1 [E|E]]|T1]; [left|left|right; congruence]; (split; [congruence|]); [|auto].
    left. destruct (evicted st3) eqn:E3; [done|]. by rewrite L2 in E.
Qed.

Lemma inherits_blank st st' : inherits st st' -> blank st -> blank st'.
Proof. intros [_ _ _ C T] [? ?]. split; [destruct C|destruct T as [[]|]]; congruence. Qed.

#[global] Instance inherits_slots_trans : Transitive inherits_slots.
Proof.
  intros v1 v2 v3 [N12 H12] [N23 H23]. split; [lia|]. intros i st Hi.
  destruct (H23 i st Hi) as [[? ?]|(st2 & Hi2 & H2)]; [left; split; [done|lia]|].
  destruct (H12 i st2 Hi2) as [[? ?]|(st1 & Hi1 & H1)].
  - left. split; [by eapply inherits_blank|]. by rewrite (in_generation _ _ H2).
  - right. exists st1. split; [done|]. by eapply inherits_trans.
Qed.

Lemma inherits_map v v' f : (forall st, inherits st (f st)) ->
  jobs v' = (fun slot : option JobState => f <$> slot) <$> jobs v -> next_generation v' = next_generation v ->
  inherits_slots v v'.
Proof.
  intros Hf Hj Hn. split; [lia|]. intros i st' Hi. rewrite Hj, list_lookup_fmap in Hi. destruct (jobs v !! i) as [[st|]|] eqn:E; cbn in Hi; try done.
  injection Hi as <-. right. exists st. split; [done|apply Hf].
Qed.

Lemma evict_inherits tip recent now st : inherits st (evict_off_tips tip recent now st).
Proof. unfold evict_off_tips. destruct (evicted st) eqn:E; repeat case_match; first [reflexivity|split; auto]. Qed.

Lemma evict_jobs_inherits v now : inherits_slots v (evict_jobs_off_recent_tips v now).
Proof. eapply inherits_map; [|done|done]. intros. apply evict_inherits. Qed.

Lemma set_tip_inherits v t now : inherits_slots v (set_tip v t now).
Proof.
  unfold set_tip. cbn zeta. match goal with |- context [if is_some t then _ ?v1 _ else _] => set (v1' := v1) end.
  assert (inherits_slots v v1') as H1 by (split; [done|]; intros i st Hi; right; by exists st).
  destruct (is_some t); [|done]. etrans; [exact H1|apply evict_jobs_inherits].
Qed.

Lemma install_inherits v s h now jc v2 :
  jobs_ok v -> uint 8 (job_id s) -> next_generation v < 2 ^ 64 - 1 -> resolve v s = Ok jc ->
  install_sections v s h now = Some (Ok v2) -> inherits_slots v v2.
Proof.
  intros Hv Hid Hng Hr Hi. destruct jc as [j cb]. pose proof (install_sections_later _ _ _ _ _ _ _ Hv Hid Hng Hr Hi) as [Hn _].
  destruct (install_sections_eq v s h now j cb (sw_slots _ (jo_slots _ Hv)) Hid Hr) as (st & Hb & E).
  rewrite E in Hi. injection Hi as Hi. destruct (_ && contains _ _); [done|].
  destruct (is_some (ShareMsg.coinbase s) && _); [done|]. injection Hi as <-.
  assert (next_generation v <= next_generation (after_install v s h st)) as Hn1.
  { by destruct (is_some (tip v)). }
  assert (inherits_slots v (after_install v s h st)) as Ha.
  { split; [done|]. intros i st' [[-> ->]|[_ Hi]]%after_slot; [|right; by exists st'].
    destruct (with_coinbase_fields s st) as (Fj & Fg & Ft & Fc & Fe & _).
    destruct (base_state_cases v s now st (sw_slots _ (jo_slots _ Hv)) Hid Hb) as [(_ & j0 & _ & ->)|(_ & Hi)].
    - left. split; [split; by rewrite ?Fc, ?Ft|by rewrite Fg].
    - right. exists st. split; [done|]. split; rewrite ?Fj, ?Fg, ?Fc, ?Ft, ?Fe; auto. }
  destruct (is_some (tip v)); [|done]. etrans; [exact Ha|apply evict_jobs_inherits].
Qed.

Definition releasable (v : Verifier) (i : nat) : Prop :=
  forall st, jobs v !! i = Some (Some st) -> holds_txns (txns st) = true \/ txns st = Unrequested.

Lemma release_inherits v i : releasable v i ->
  inherits_slots v (release v i) /\ forall k, releasable v k -> releasable (release v i) k.
Proof.
  intros Hh. unfold release. destruct (jobs v !! i) as [[st|]|] eqn:E; cbn [mjoin option_join]; try done.
  split; [split; [done|]|].
  - intros k st' Hi. right. cbn in Hi. apply list_lookup_insert_Some in Hi as [(<- & [= <-] & _)|[Hne Hi]]; [|by exists st'].
    exists st. split; [done|]. split; auto. cbn. destruct (Hh st E) as [?|Hu]; [auto|right; congruence].
  - intros k Hk st' Hi. cbn in Hi. apply list_lookup_insert_Some in Hi as [(<- & [= <-] & _)|[Hne Hi]]; [by right|by apply Hk].
Qed.

Lemma release_oldest_inherits v : inherits_slots v (release_oldest_held_txns v).
Proof.
  unfold release_oldest_held_txns. destruct (_ <? _)%nat; [done|]. set (h := holding (jobs v)).
  assert (Forall (releasable v) (snd <$> take (length h - MAX_JOBS_HOLDING_TXNS) (sorting.merge_sort older h))) as Hl.
  { apply Forall_forall. intros i ([g k] & -> & Hi%elem_of_take)%list_elem_of_fmap st Hst. destruct Hi as (n & Hi & _).
    apply list_elem_of_lookup_2 in Hi. rewrite sorting.merge_sort_Permutation in Hi. apply elem_of_holding in Hi as (st2 & [Hst2 Ht] & _).
    cbn in Hst. rewrite Hst in Hst2. injection Hst2 as <-. by left. }
  revert Hl. generalize (snd <$> take (length h - MAX_JOBS_HOLDING_TXNS) (sorting.merge_sort older h)). clear h.
  intros l Hl. revert v Hl. induction l as [|a l IH]; intros v Hl; [done|]. apply Forall_cons in Hl as [Ha Hl].
  destruct (release_inherits v a Ha) as [Hin Hk]. cbn [foldl]. etrans; [exact Hin|]. apply IH. by eapply Forall_impl.
Qed.

(** A slot's transactions set: what every slot inherits, or the transactions set. *)
Lemma set_job_txns_slots v id gen t i st' :
  jobs (set_job_txns v id gen t).1 !! i = Some (Some st') ->
  (blank st' /\ next_generation v <= generation st') \/
  (exists st, jobs v !! i = Some (Some st) /\ inherits st st' /\ (i <> Z.to_nat id \/ live_job v id gen = None)) \/
  exists st, i = Z.to_nat id /\ live_job v id gen = Some st /\ inherits (set_txns st t (checks st)) st'.
Proof.
  unfold set_job_txns. destruct (live_job v id gen) as [st|] eqn:Hl; [|intros Hi; right; left; exists st'; by split_and!; [| |right]].
  set (v1 := set_slot v (Z.to_nat id) _).
  assert (inherits_slots v1 (if holds_txns t then release_oldest_held_txns v1 else v1)) as [_ Hr]
    by (destruct (holds_txns t); [apply release_oldest_inherits|reflexivity]).
  cbn [fst]. intros Hi. destruct (Hr i st' Hi) as [?|(s1 & Hs1 & Hin)]; [by left|right].
  cbn in Hs1. apply list_lookup_insert_Some in Hs1 as [(<- & [= <-] & _)|[Hne Hs1]]; [right; by exists st|left].
  exists s1. split_and!; [done|done|left; congruence].
Qed.

Lemma record_block_check_slots v id gen digest check i st' :
  jobs (record_block_check v id gen digest check) !! i = Some (Some st') ->
  jobs v !! i = Some (Some st') \/
  exists st m, live_job v id gen = Some st /\ st' = set_txns st (txns st) (<[digest := check]> m) /\ (m = ∅ \/ m = checks st).
Proof.
  unfold record_block_check. destruct (live_job v id gen) as [st|] eqn:Hl; [|by left].
  cbn. intros [(_ & [= <-] & _)|[_ Hi]]%list_lookup_insert_Some; [right|by left].
  exists st, (if (MAX_BLOCK_CHECKS <=? size (checks st))%nat then ∅ else checks st). split_and!; [done|done|].
  destruct (MAX_BLOCK_CHECKS <=? size (checks st))%nat; auto.
Qed.

Lemma record_block_check_kept_txns v id gen digest check i st' :
  jobs (record_block_check v id gen digest check) !! i = Some (Some st') ->
  exists st, jobs v !! i = Some (Some st) /\ txns st' = txns st /\ generation st' = generation st /\ evicted st' = evicted st.
Proof.
  unfold record_block_check. destruct (live_job v id gen) as [st|] eqn:Hl; [|intros Hi; by exists st'].
  apply live_job_inv in Hl as (Hl & _).
  cbn. intros [(<- & [= <-] & _)|[_ Hi]]%list_lookup_insert_Some; [by exists st|by exists st'].
Qed.

Section credits.
Context `{Digests}.

Lemma verify_inherits v s abw now v2 r :
  jobs_ok v -> uint 8 (job_id s) -> next_generation v < 2 ^ 64 - 1 -> verify v s abw now = Some (v2, r) -> inherits_slots v v2.
Proof.
  intros Hv Hid Hng. unfold verify. destruct (rebuild v s abw) as [[share|]|] eqn:Hr; cbn [mbind option_bind]; [|by intros [= <- _]|done].
  destruct (rebuild_sections v s abw share Hr) as [jc Hjc]. unfold check_rebuilt.
  destruct (check_job_header v s share) as [[]|]; cbn [mbind option_bind]; [|by intros [= <- _]].
  destruct (_ || rb_is_block share).
  - destruct (install_sections v s (rb_raw_pow_hash share) now) as [[v3|]|] eqn:Hi; cbn [mbind option_bind]; [| |done].
    + intros [= <- _]. by eapply install_inherits.
    + by intros [= <- _].
  - cbn [mbind option_bind]. by intros [= <- _].
Qed.

(** ** The invariant of a connection *)

(** The share is rebuilt on the job: its coinbase, its header's merkle root and the
    fields the server reads from the job. *)
Record on_job (s : PowSubmit) (r : RebuiltShare) (j : JobSection) : Prop := {
  oj_coinbase : exists cb, coinbase_tx j cb (target_byte s) = Some (rb_coinbase_tx r) /\
    rb_coinbase_digest r = sha256d (coinb1 cb ++ coinb2 cb ++ [zb (Z.b2z (subsidy_only s))]);
  oj_header : exists h, rb_header r = serialize h /\
    Header.merkle_root h = job_merkle_root j (rb_coinbase_tx r) (subsidy_only s);
  oj_fields : rb_prev_hash r = ShareMsg.prev_hash j /\ rb_job_bits r = le_val (nbits j) /\ rb_height r = job_height j;
}.

(** The transactions are the job's, or the share's block has none. *)
Definition txns_of (s : PowSubmit) (j : JobSection) (txns : list bytes) : Prop :=
  txns = [] /\ (subsidy_only s = true \/ txn_count j = 0) \/
  txns_match_job txns (txn_count j) (ShareMsg.merkle_branches j) = Some (Ok ()).

(** The node was asked about a block of the job with this coinbase and the job's
    transactions, and found it valid. *)
Definition proposed (log : list Event) (j : JobSection) (digest : bytes) (version : Z) : Prop :=
  exists s gen r txns answer,
    Proposed s gen r txns answer ∈ log /\ on_job s r j /\ rb_coinbase_digest r = digest /\ rb_version r = version /\
    (answer = Ok None \/ answer = Ok (Some "duplicate"%string)) /\ txns_of s j txns.

(** The node found the share's job valid with the share's coinbase and a version that
    differs in the bits a miner rolls alone. *)
Definition validated (log : list Event) (s : PowSubmit) (r : RebuiltShare) : Prop :=
  exists j version, on_job s r j /\ proposed log j (rb_coinbase_digest r) version /\
    Z.land (Z.lxor version (rb_version r)) (lnot 32 VERSION_ROLLING_MASK) = 0.

Record slot_ok (log : list Event) (st : JobState) : Prop := {
  sl_checks : forall d version, checks st !! d = Some (Valid version) -> proposed log (installed_job st) d version;
  sl_txns : forall t, txns st = Jobs.Held t ->
    txns_match_job t (txn_count (installed_job st)) (ShareMsg.merkle_branches (installed_job st)) = Some (Ok ());
}.

(** A share as verified is rebuilt on the job of its generation, while it is installed. *)
Definition sound (v : Verifier) (s : PowSubmit) (verified : result Refusal RebuiltShare) : Prop :=
  forall r gen, verified = Ok r -> rb_job_generation r = Some gen ->
    gen < next_generation v /\ forall st, live_job v (job_id s) gen = Some st -> on_job s r (installed_job st).

(** A share held for transactions is held under a generation given out. *)
Definition held_ok (v : Verifier) (h : HeldShare) : Prop :=
  uint 8 (job_id (held_share h)) /\ sound v (held_share h) (held_verified h) /\
  (awaiting h = AwaitTxns -> held_generation h < next_generation v).

(** The transactions a share is held for are requested, and the request for a job's
    transactions is outstanding while they are. *)
Definition awaited (shares : list HeldShare) (requests : list TxnRequest) (v : Verifier) : Prop :=
  forall id gen st, uint 8 id -> live_job v id gen = Some st ->
    (txns st = Requested -> exists r, r ∈ requests /\ req_job_id r = id /\ req_generation r = gen) /\
    (forall h, h ∈ shares -> awaiting h = AwaitTxns -> job_id (held_share h) = id -> held_generation h = gen ->
       txns st = Requested).

Definition slots_ok (log : list Event) (v : Verifier) : Prop :=
  forall i st, jobs v !! i = Some (Some st) -> slot_ok log st.

Definition credits_ok (log : list Event) : Prop :=
  forall pre s r now post, log = pre ++ Credited s r now :: post -> validated pre s r.

(** [k] is how many more shares may be verified before the counter of generations
    could wrap. *)
Record conn_ok (k : Z) (c : Connection) : Prop := {
  co_jobs : jobs_ok (verifier c);
  co_gen : 0 <= k /\ next_generation (verifier c) + k < 2 ^ 64 - 1;
  co_held : (length (held c) <= MAX_HELD_SHARES)%nat;
  co_requests : (length (txn_requests c) <= MAX_TXN_REQUESTS)%nat;
  co_shares : Forall (held_ok (verifier c)) (held c);
  co_ids : Forall (fun r => uint 8 (req_job_id r)) (txn_requests c);
  co_awaited : awaited (held c) (txn_requests c) (verifier c);
  co_slots : slots_ok (log c) (verifier c);
  co_credits : credits_ok (log c);
}.

(** What an answer names a share by, and a gateway tells its shares apart by: its
    job, its target byte and its nonce. *)
Definition ShareKey : Type := Z * Z * Z.
Definition key_of (s : PowSubmit) : ShareKey := (job_id s, target_byte s, share_nonce s).
Definition held_key (h : HeldShare) : ShareKey := key_of (held_share h).

(** Of a message taken: of the share, or what can be read of one that is none. *)
Definition taken_key (plain : bytes) : ShareKey :=
  match ShareMsg.decode plain with
  | Ok s => key_of s
  | Err _ => let p := default SharePrefix_default (ShareMsg.prefix plain) in
             (prefix_job_id p, prefix_target_byte p, prefix_nonce p)
  end.

Definition answer_key (e : Event) : option ShareKey :=
  match e with
  | Answered r => Some (response_job_id r, response_target_byte r, response_nonce r)
  | _ => None
  end.
Definition answers (log : list Event) : list ShareKey := omap answer_key log.
Definition is_credit (e : Event) : bool := match e with Credited _ _ _ => true | _ => false end.

(** The shares answered or held. *)
Definition settled (c : Connection) : list ShareKey := answers (log c) ++ (held_key <$> held c).

Definition due_requests (env : Env) (c : Connection) : nat :=
  length (filter (fun r => (deadline r <=? instant_now env) = true) (txn_requests c)).

(** What a handler does to a connection it takes the shares [n] from: they are
    answered or held, each once, nothing said is unsaid, and no request is due that was not. *)
Record drift (env : Env) (n : list ShareKey) (c c' : Connection) : Prop := {
  dr_settled : settled c' ≡ₚ settled c ++ n;
  dr_later : later (verifier c) (verifier c');
  dr_log : log c `prefix_of` log c';
  dr_due : (due_requests env c' <= due_requests env c)%nat;
}.

Record moved (env : Env) (k : Z) (n : list ShareKey) (c c' : Connection) : Prop := {
  mv_ok : conn_ok k c';
  mv_drift : drift env n c c';
}.

Lemma mv_later env k n c c' : moved env k n c c' -> later (verifier c) (verifier c').
Proof. intros [_ []]. done. Qed.
Lemma mv_log env k n c c' : moved env k n c c' -> log c `prefix_of` log c'.
Proof. intros [_ []]. done. Qed.

Definition wp (env : Env) {A} (m : M A) (Q : A -> Connection -> Prop) (c : Connection) : Prop :=
  match m c with
  | (c', Ok a) => Q a c'
  | (c', Err Io) => conn_ok 0 c' /\ exists sent, write_ok env sent = false
  | (_, Err Panic) => False
  end.

Lemma wp_ret {env A} (a : A) (Q : A -> Connection -> Prop) c : Q a c -> wp env (mret a) Q c.
Proof. done. Qed.

Lemma wp_bind {env A B} (m : M A) (f : A -> M B) (Q : B -> Connection -> Prop) c :
  wp env m (fun a c' => wp env (f a) Q c') c -> wp env (m ≫= f) Q c.
Proof. unfold wp, mbind, M_bind. by destruct (m c) as [c' [a|[]]]. Qed.

Lemma wp_mono {env A} (m : M A) (Q Q' : A -> Connection -> Prop) c :
  wp env m Q c -> (forall a c', Q a c' -> Q' a c') -> wp env m Q' c.
Proof. unfold wp. destruct (m c) as [c' [a|[]]]; auto. Qed.

Lemma wp_get {env} (Q : Connection -> Connection -> Prop) c : Q c c -> wp env get Q c.
Proof. done. Qed.

Lemma wp_modify {env} f (Q : () -> Connection -> Prop) c : Q () (f c) -> wp env (modify f) Q c.
Proof. done. Qed.

Lemma conn_ok_le k k' c : conn_ok k c -> 0 <= k' <= k -> conn_ok k' c.
Proof. intros [] ?. split; try done. lia. Qed.

Lemma conn_ok_io k c : conn_ok k c -> conn_ok 0 c.
Proof. intros Hc. eapply conn_ok_le; [exact Hc|]. destruct (co_gen _ _ Hc). lia. Qed.

Lemma proposed_sub log log' j d version :
  (forall e, e ∈ log -> e ∈ log') -> proposed log j d version -> proposed log' j d version.
Proof. intros Hs (s & gen & r & t & a & Hin & ?). exists s, gen, r, t, a. split; [by apply Hs|done]. Qed.

Lemma validated_sub log log' s r : (forall e, e ∈ log -> e ∈ log') -> validated log s r -> validated log' s r.
Proof. intros Hs (j & v & ? & Hp & ?). exists j, v. split_and!; [done|by eapply proposed_sub|done]. Qed.

Lemma slots_ok_sub log log' v : (forall e, e ∈ log -> e ∈ log') -> slots_ok log v -> slots_ok log' v.
Proof.
  intros Hs Hv i st Hi. destruct (Hv i st Hi) as [Hc Ht]. split; [|done]. intros d w Hd. by eapply proposed_sub, Hc.
Qed.

Lemma slot_ok_blank log st : blank st -> slot_ok log st.
Proof. intros [Hc Ht]. split; [by rewrite Hc; intros ?? ?%lookup_empty_Some|by rewrite Ht]. Qed.

Lemma slot_ok_inherits log st st' : inherits st st' -> slot_ok log st -> slot_ok log st'.
Proof.
  intros [Hg Hj _ Hc Ht] [H1 H2]. split.
  - intros d w. rewrite Hj. destruct Hc as [->| ->]; [by intros ?%lookup_empty_Some|apply H1].
  - intros t. rewrite Hj. destruct Ht as [[-> _]| ->]; [done|apply H2].
Qed.

Lemma slots_ok_inherits log v v' : inherits_slots v v' -> slots_ok log v -> slots_ok log v'.
Proof.
  intros [_ Hin] Hv i st' Hi. destruct (Hin i st' Hi) as [[? _]|(st & Hst & ?)]; [by apply slot_ok_blank|].
  eapply slot_ok_inherits; [done|by eapply Hv].
Qed.

(** Parts of the state the invariant does not speak of. *)
Lemma conn_ok_same k c c' :
  conn_ok k c -> verifier c' = verifier c -> held c' = held c -> txn_requests c' = txn_requests c -> log c' = log c ->
  conn_ok k c'.
Proof. intros [] E1 E2 E3 E4. split; rewrite ?E1, ?E2, ?E3, ?E4; done. Qed.

Lemma drift_same env c c' :
  verifier c' = verifier c -> held c' = held c -> txn_requests c' = txn_requests c -> log c' = log c -> drift env [] c c'.
Proof. intros E1 E2 E3 E4. split; [|by rewrite E1| |]; unfold settled, due_requests; rewrite ?E2, ?E3, ?E4, ?app_nil_r; done. Qed.

Lemma moved_same env k c c' :
  conn_ok k c -> verifier c' = verifier c -> held c' = held c -> txn_requests c' = txn_requests c -> log c' = log c ->
  moved env k [] c c'.
Proof. intros Hc E1 E2 E3 E4. split; [by eapply conn_ok_same|by apply drift_same]. Qed.

Lemma moved_refl env k c : conn_ok k c -> moved env k [] c c.
Proof. intros Hc. by apply moved_same. Qed.

Lemma drift_trans env n1 n2 c1 c2 c3 : drift env n1 c1 c2 -> drift env n2 c2 c3 -> drift env (n1 ++ n2) c1 c3.
Proof. intros [S1 T1 L1 D1] [S2 T2 L2 D2]. split; [by rewrite S2, S1, app_assoc|by etrans|by etrans|lia]. Qed.

Lemma moved_trans env k1 k2 n1 n2 c1 c2 c3 :
  moved env k1 n1 c1 c2 -> moved env k2 n2 c2 c3 -> moved env k2 (n1 ++ n2) c1 c3.
Proof. intros [_ D1] [O2 D2]. split; [done|by eapply drift_trans]. Qed.

Lemma conn_ok_event k c e :
  conn_ok k c -> (forall s r now, e = Credited s r now -> validated (log c) s r) -> conn_ok k (add_log c e).
Proof.
  intros [] He. split; cbn; try done.
  - eapply slots_ok_sub; [|done]. intros x Hx. apply elem_of_app. by left.
  - intros pre s r now post Heq. destruct post as [|x post _] using rev_ind.
    + apply app_inj_tail in Heq as [<- ->]. by eapply He.
    + rewrite app_comm_cons, app_assoc in Heq. apply app_inj_tail in Heq as [Heq _]. by eapply co_credits0.
Qed.

Lemma moved_event env k c e :
  conn_ok k c -> (forall s r now, e = Credited s r now -> validated (log c) s r) ->
  moved env k (option_list (answer_key e)) c (add_log c e).
Proof.
  intros Hc He. split; [by apply conn_ok_event|split; [|done| |done]].
  - unfold settled, answers. cbn [add_log log held]. rewrite omap_app. cbn [omap list_omap].
    destruct (answer_key e); cbn [option_list]; rewrite ?app_nil_r; [|done].
    by rewrite <- !app_assoc, (Permutation_app_comm (held_key <$> held c)).
  - cbn. by eexists.
Qed.

Lemma send_spec env k c e :
  conn_ok k c -> is_credit e = false -> wp env (send env e) (fun _ c' => moved env k (option_list (answer_key e)) c c') c.
Proof.
  intros Hc He. unfold wp, send. destruct (write_ok env (log c)) eqn:Hw; [|by split; [eapply conn_ok_io|eexists]].
  apply moved_event; [done|]. by intros s r now ->.
Qed.

Lemma note_spec env k c e :
  conn_ok k c -> answer_key e = None -> (forall s r now, e = Credited s r now -> validated (log c) s r) ->
  wp env (note e) (fun _ c' => c' = add_log c e /\ moved env k [] c c') c.
Proof. intros Hc Ha He. apply wp_modify. split; [done|]. pose proof (moved_event env k c e Hc He) as Hm. by rewrite Ha in Hm. Qed.

Lemma sound_later v v2 s verified : jobs_ok v -> later v v2 -> sound v s verified -> sound v2 s verified.
Proof.
  intros Hv Hl Hs r gen Hr Hg. destruct (Hs r gen Hr Hg) as [Hlt Hj]. pose proof (la_next _ _ Hl). split; [lia|].
  intros st2 H2. destruct (live_job v (job_id s) gen) as [st|] eqn:E; [|by rewrite (later_gone _ _ _ _ Hl Hlt E) in H2].
  assert (installed_job st2 = installed_job st) as ->; [|by apply Hj].
  eapply (later_job v v2 (job_id s) gen); [done|done|unfold job; by rewrite E|unfold job; by rewrite H2].
Qed.

Lemma held_ok_later v v2 l : jobs_ok v -> later v v2 -> Forall (held_ok v) l -> Forall (held_ok v2) l.
Proof.
  intros Hv Hl Hf. eapply Forall_impl; [exact Hf|]. intros h (? & ? & Hg). split_and!; [done|by apply sound_later with v|].
  intros Ha. specialize (Hg Ha). pose proof (la_next _ _ Hl). lia.
Qed.

(** What is awaited stays awaited in a slot that inherits. *)
Lemma awaited_slot shares requests v id gen st st' :
  awaited shares requests v -> uint 8 id -> jobs v !! Z.to_nat id = Some (Some st) -> inherits st st' ->
  generation st' = gen -> evicted st' = false ->
  (txns st' = Requested -> exists r, r ∈ requests /\ req_job_id r = id /\ req_generation r = gen) /\
  (forall h, h ∈ shares -> awaiting h = AwaitTxns -> job_id (held_share h) = id -> held_generation h = gen ->
     txns st' = Requested).
Proof.
  intros Ha Hid Hi [Hg _ Hlive _ Ht] Hgen He. rewrite Hg in Hgen.
  assert (live_job v id gen = Some st) as Hl.
  { unfold live_job, job_slot. rewrite Hi. cbn. by rewrite Hgen, Z.eqb_refl, (Hlive He). }
  destruct (Ha id gen st Hid Hl) as [Hreq Hheld]. destruct Ht as [[Ht [E|E]]|Ht]; [congruence| |].
  - split; [by rewrite Ht|]. intros h Hh Haw Hj Hhg. by rewrite (Hheld h Hh Haw Hj Hhg) in E.
  - rewrite Ht. split; [done|]. exact Hheld.
Qed.

Lemma awaited_inherits shares requests v v' :
  awaited shares requests v -> Forall (held_ok v) shares -> inherits_slots v v' -> awaited shares requests v'.
Proof.
  intros Ha Hok [_ Hin] id gen st' Hid (Hi & Hg & He)%live_job_inv.
  destruct (Hin _ _ Hi) as [[[_ Ht] Hfresh]|(st & Hst & Hi')]; [|by eapply awaited_slot].
  split; [by rewrite Ht|]. intros h Hh Haw _ Hhg. rewrite Forall_forall in Hok.
  destruct (Hok h Hh) as (_ & _ & Hlt). specialize (Hlt Haw). lia.
Qed.

Lemma moved_verifier env k k' c v :
  conn_ok k c -> jobs_ok v -> later (verifier c) v -> 0 <= k' /\ next_generation v + k' < 2 ^ 64 - 1 ->
  slots_ok (log c) v -> awaited (held c) (txn_requests c) v -> moved env k' [] c (set_verifier c v).
Proof.
  intros [] Hv Hl Hg Hs Ha. split; [split; try done|split; [by rewrite app_nil_r|done|done|done]].
  by apply held_ok_later with (verifier c).
Qed.

Lemma hold_claim_spec env k c hash now :
  conn_ok k c -> wp env (hold_claim hash now) (fun _ c' => moved env k [] c c' /\ log c' = log c /\ verifier c' = verifier c) c.
Proof.
  intros Hc. unfold wp, hold_claim. destruct (hash_insert _ _ _) as [fresh a]. split; [by apply moved_same|done].
Qed.

(** ** The job of a share *)

Lemma rebuild_share_digest v j cb s key r : rebuild_share v j cb s key = Some (Ok r) ->
  rb_coinbase_digest r = sha256d (coinb1 cb ++ coinb2 cb ++ [zb (Z.b2z (subsidy_only s))]).
Proof.
  unfold rebuild_share. cbn zeta. destruct (_ || _); [done|]. destruct (parse_coinbase _); [|done].
  destruct (has_witness _); [done|]. destruct (Coinbase.parse_script_sig _ _ _); [|done]. destruct (negb _); [done|].
  destruct (set_byte _ _ _); cbn [mbind option_bind]; [|done]. destruct (check_outputs _ _ _ _ _); [|done].
  destruct (share_header _ _ _ _); [|done]. by intros [= <-].
Qed.

Lemma verify_sound v s abw now v2 verified : jobs_ok v -> uint 8 (job_id s) -> next_generation v < 2 ^ 64 - 1 ->
  verify v s abw now = Some (v2, verified) -> sound v2 s verified.
Proof.
  intros Hv Hid Hng Hver r gen -> Hgen.
  destruct (verify_returns v s abw now Hv Hid Hng) as (v3 & r3 & E & [Hv2 _ _ _]). rewrite Hver in E. injection E as <- <-.
  apply verify_inv in Hver as (share & Hreb & -> & _ & _ & Hinst & _).
  apply rebuild_inv in Hreb as (_ & _ & j & cb & key & Hres & _ & _ & Hrs).
  pose proof (rebuild_share_digest _ _ _ _ _ _ Hrs) as Hd.
  apply rebuild_share_inv in Hrs as (parsed & h & _ & _ & _ & Hcb & _ & Hh & _ & _ & Hser & _ & Hprev & Hbits & Hheight & _ & _).
  destruct (install_result v s _ now j cb v2 (sw_slots _ (jo_slots _ Hv)) Hid Hres Hinst) as (_ & _ & _ & _ & st & Hslot & Hij & _ & Hig).
  cbn in Hgen. rewrite Hig in Hgen. injection Hgen as <-.
  pose proof (job_slot_lookup _ _ _ Hslot) as Hi. split; [by apply (sw_gen _ (jo_slots _ Hv2) _ _ Hi)|].
  intros st2 (Hi2 & _ & _)%live_job_inv. rewrite Hi in Hi2. injection Hi2 as <-. rewrite Hij. split.
  - by exists cb.
  - exists h. split; [done|]. unfold share_header in Hh.
    destruct (job_header _ _ _ _ _ _ _) as [h0|] eqn:E0; [|done]. injection Hh as <-. cbn.
    unfold job_header in E0. cbn zeta in E0. destruct (_ <=? _); [done|]. by injection E0 as <-.
  - done.
Qed.

Lemma verify_and_claim_spec env k c s now : conn_ok (k + 1) c -> 0 <= k -> uint 8 (job_id s) ->
  wp env (verify_and_claim s now) (fun verified c' => moved env k [] c c' /\ sound (verifier c') s verified) c.
Proof.
  intros Hc Hk Hid. pose proof (co_jobs _ _ Hc) as Hv. destruct (co_gen _ _ Hc) as [_ Hg].
  destruct (verify_returns (verifier c) s (abw c) now Hv Hid ltac:(lia)) as (v2 & verified & E & [Hok Hl Hn _]).
  unfold verify_and_claim. apply wp_bind, wp_get. rewrite E. apply wp_bind, wp_ret, wp_bind, wp_modify.
  assert (moved env k [] c (set_verifier c v2)) as Hm.
  { assert (inherits_slots (verifier c) v2) as Hin by (eapply verify_inherits; [done|done|lia|done]).
    apply moved_verifier with (k + 1); [done|done|done|lia|by eapply slots_ok_inherits, (co_slots _ _ Hc)|].
    eapply awaited_inherits; [apply (co_awaited _ _ Hc)|apply (co_shares _ _ Hc)|done]. }
  pose proof (verify_sound _ _ _ _ _ _ Hv Hid ltac:(lia) E) as Hs. destruct verified as [r|refusal]; [|by apply wp_ret].
  apply wp_bind. eapply wp_mono; [by apply hold_claim_spec with (env := env) (k := k), Hm|].
  intros fresh c' (Hm' & _ & Hver). apply wp_ret. split; [by apply (moved_trans env k k [] [] _ _ _ Hm Hm')|].
  rewrite Hver. destruct fresh; [done|]. by intros ? ?.
Qed.

(** ** The transactions and the verdict of a job *)

Lemma slot_ok_txns log st t : slot_ok log st ->
  (forall l, t = Jobs.Held l ->
     txns_match_job l (txn_count (installed_job st)) (ShareMsg.merkle_branches (installed_job st)) = Some (Ok ())) ->
  slot_ok log (set_txns st t (checks st)).
Proof. intros [Hc _] Ht. by split. Qed.

(** What setting a job's transactions leaves of the invariant. *)
Lemma set_txns_verifier log v id gen t : jobs_ok v -> slots_ok log v ->
  (forall st l, live_job v id gen = Some st -> t = Jobs.Held l ->
     txns_match_job l (txn_count (installed_job st)) (ShareMsg.merkle_branches (installed_job st)) = Some (Ok ())) ->
  let v' := (set_job_txns v id gen t).1 in
  jobs_ok v' /\ later v v' /\ next_generation v' = next_generation v /\ slots_ok log v'.
Proof.
  intros Hv Hs Ht. split_and!.
  - by apply set_job_txns_ok.
  - by apply set_job_txns_later.
  - by destruct (set_job_txns_spec v id gen t Hv) as [[_ ->]|(st & js & _ & -> & _)].
  - intros i st' Hi. destruct (set_job_txns_slots _ _ _ _ _ _ Hi) as [[? _]|[(st & Hst & Hin & _)|(st & _ & Hl & Hin)]].
    + by apply slot_ok_blank.
    + eapply slot_ok_inherits; [done|by eapply Hs].
    + eapply slot_ok_inherits; [done|]. apply slot_ok_txns; [|by intros; eapply Ht].
      apply live_job_inv in Hl as (Hl & _). by eapply Hs.
Qed.

(** The transactions of a job set: what is awaited still is, when a request is
    outstanding if they were set to requested, and no share is held for them
    otherwise. *)
Lemma awaited_set_txns shares requests shares' requests' v id gen t : jobs_ok v -> uint 8 id ->
  awaited shares requests v -> Forall (held_ok v) shares ->
  (forall h, h ∈ shares' -> h ∈ shares) ->
  (forall r, r ∈ requests -> r ∈ requests' \/ (req_job_id r = id /\ req_generation r = gen)) ->
  (t = Requested /\ (exists r, r ∈ requests' /\ req_job_id r = id /\ req_generation r = gen) \/
   t <> Requested /\ (forall h, h ∈ shares' -> awaiting h = AwaitTxns -> job_id (held_share h) = id -> held_generation h <> gen)) ->
  awaited shares' requests' (set_job_txns v id gen t).1.
Proof.
  intros Hv Hid Ha Hok Hsub Hreq Ht id' gen' st' Hid' (Hi & Hg & He)%live_job_inv.
  destruct (set_job_txns_slots _ _ _ _ _ _ Hi) as [[[_ Hb] Hfresh]|[(st & Hst & Hin & Hother)|(st & Hid2 & Hl & Hin)]].
  - split; [by rewrite Hb|]. intros h Hh Haw _ Hhg. rewrite Forall_forall in Hok.
    destruct (Hok h (Hsub h Hh)) as (_ & _ & Hlt). specialize (Hlt Haw). lia.
  - destruct (awaited_slot _ _ _ _ _ _ _ Ha Hid' Hst Hin Hg He) as [A1 A2]. split; [|by eauto].
    intros Hr. destruct (A1 Hr) as (r & Hrin & <- & <-). destruct (Hreq r Hrin) as [?|[E1 E2]]; [by exists r|].
    exfalso. destruct Hother as [Hne|Hnone]; [by rewrite E1 in Hne|].
    assert (live_job v id gen = Some st) as Hl; [|congruence]. destruct Hin as [Hg' _ Hlive _ _].
    unfold live_job, job_slot. rewrite <- E1, Hst. cbn. by rewrite <- E2, <- Hg, Hg', Z.eqb_refl, (Hlive He).
  - unfold uint in *. assert (id' = id) as -> by lia. destruct Hin as [Hgen _ Hlive _ Htx]. cbn in Hgen, Hlive, Htx.
    apply live_job_inv in Hl as (_ & Hlg & _). assert (gen' = gen) as -> by congruence.
    destruct Ht as [[-> Hex]|[Hne Hno]].
    + split; [done|]. intros h Hh Haw Hj Hhg. destruct Htx as [[_ [E|E]]|?]; [congruence|done|done].
    + split; [|by intros h Hh Haw Hj Hhg; destruct (Hno h Hh Haw Hj)]. intros Hr.
      destruct Htx as [[E _]|E]; congruence.
Qed.

Lemma record_check_moved env k c id gen digest check : conn_ok k c ->
  (forall st version, live_job (verifier c) id gen = Some st -> check = Valid version ->
     proposed (log c) (installed_job st) digest version) ->
  moved env k [] c (set_verifier c (record_block_check (verifier c) id gen digest check)).
Proof.
  intros Hc Hp. pose proof (co_jobs _ _ Hc) as Hv. apply moved_verifier with k; [done|..].
  - by apply record_block_check_ok.
  - by apply record_block_check_later.
  - destruct (co_gen _ _ Hc). destruct (record_block_check_kept (verifier c) id gen digest check Hv) as (js & -> & _); cbn; lia.
  - intros i st' Hi. destruct (record_block_check_slots _ _ _ _ _ _ _ Hi) as [Hst|(st & m & Hl & -> & Hm)]; [by eapply (co_slots _ _ Hc)|].
    pose proof (live_job_inv _ _ _ _ Hl) as (Hst & _). destruct (co_slots _ _ Hc _ _ Hst) as [Hck Htx]. split; [|done].
    cbn. intros d version [[<- Heq]|[_ Hd]]%lookup_insert_Some; [by eapply Hp|].
    destruct Hm as [->| ->]; [by apply lookup_empty_Some in Hd|by apply Hck].
  - intros id' gen' st' Hid' (Hi & Hg & He)%live_job_inv.
    assert (exists st, jobs (verifier c) !! Z.to_nat id' = Some (Some st) /\ txns st' = txns st /\
      generation st' = generation st /\ evicted st' = evicted st) as (st & Hst & Et & Eg & Ee).
    { apply record_block_check_kept_txns in Hi. done. }
    rewrite Et. apply (co_awaited _ _ Hc id' gen' st Hid'). unfold live_job, job_slot. rewrite Hst. cbn.
    by rewrite <- Eg, <- Ee, Hg, He, Z.eqb_refl.
Qed.

Definition requested (c : Connection) (s : PowSubmit) (gen : Z) : Prop :=
  exists st, live_job (verifier c) (job_id s) gen = Some st /\ txns st = Requested.

Lemma set_requested v id gen st : jobs_ok v -> live_job v id gen = Some st ->
  live_job (set_job_txns v id gen Requested).1 id gen = Some (set_txns st Requested (checks st)).
Proof.
  intros Hv Hl. unfold set_job_txns. rewrite Hl. apply live_job_inv in Hl as (Hi & Hg & He).
  unfold live_job, job_slot. cbn. rewrite list_lookup_insert_eq by (by eapply lookup_lt_Some). cbn.
  by rewrite Hg, He, Z.eqb_refl.
Qed.

Lemma request_txns_spec env k c s gen st : conn_ok k c -> uint 8 (job_id s) ->
  live_job (verifier c) (job_id s) gen = Some st -> (length (txn_requests c) < MAX_TXN_REQUESTS)%nat ->
  wp env (request_txns env s gen) (fun _ c' => moved env k [] c c' /\ requested c' s gen) c.
Proof.
  intros Hc Hid Hl Hlen. unfold request_txns. apply wp_bind. unfold wp, send. destruct (write_ok env (log c)) eqn:Hw; [|by split; [eapply conn_ok_io|eexists]].
  pose proof (moved_event env k c (Requested_txns (job_id s)) Hc ltac:(done)) as [C1 D1]. set (c1 := add_log c _) in *.
  cbn [modify]. destruct C1 as [Hv Hg Hheld Hreqs Hsh Hids Haw Hsl Hcr].
  destruct (set_txns_verifier (log c1) _ (job_id s) gen Requested Hv Hsl ltac:(done)) as (Hv' & Hlat & Hn & Hsl').
  set (v' := (set_job_txns (verifier c1) (job_id s) gen Requested).1) in *.
  set (req := {| req_job_id := job_id s; req_generation := gen; req_sent_at := instant_now env |}).
  split; [split; [split|]|]; cbn [set_requests set_verifier verifier held txn_requests log]; try done.
  - by rewrite Hn.
  - rewrite length_app. cbn. lia.
  - by apply held_ok_later with (verifier c1).
  - apply Forall_app. by split; [|apply Forall_singleton].
  - apply awaited_set_txns with (held c1) (txn_requests c1); try done.
    + intros r Hr. left. apply elem_of_app. by left.
    + left. split; [done|]. exists req. split; [|done]. apply elem_of_app. right. by apply list_elem_of_singleton.
  - eapply (drift_trans env [] []); [exact D1|]. split; [|done|done|].
    + by rewrite app_nil_r.
    + unfold due_requests. cbn [set_requests set_verifier txn_requests]. rewrite filter_app, length_app.
      rewrite (filter_cons_False _ req); [cbn; lia|]. unfold req, deadline, TXNS_TIMEOUT, from_secs. cbn [req_sent_at]. lia.
  - exists (set_txns st Requested (checks st)). split; [|done]. by apply set_requested.
Qed.

Lemma job_txns_spec env k c s gen : conn_ok k c -> uint 8 (job_id s) ->
  wp env (job_txns env s gen) (fun t c' => moved env k [] c c' /\
    (t = TxnsPending -> requested c' s gen) /\
    forall txns, t = TxnsReady txns -> c' = c /\ exists st, live_job (verifier c) (job_id s) gen = Some st /\ txns_of s (installed_job st) txns) c.
Proof.
  intros Hc Hid. unfold job_txns. apply wp_bind, wp_get. unfold job, Jobs.job_txns.
  destruct (live_job (verifier c) (job_id s) gen) as [st|] eqn:Hl; cbn [fmap option_fmap option_map];
    [|apply wp_ret; split; [by apply moved_refl|done]].
  match goal with |- wp env _ ?Q _ => set (post := Q) end.
  assert (forall txns, txns_of s (installed_job st) txns -> wp env (mret (TxnsReady txns)) post c) as Hready.
  { intros txns Ht. apply wp_ret. split; [by apply moved_refl|]. split; [done|]. intros l [= <-]. split; [done|]. by exists st. }
  assert (forall reason, wp env (mret (TxnsRefused reason)) post c) as Hrefused.
  { intros reason. apply wp_ret. by split; [apply moved_refl|]. }
  destruct (subsidy_only s || _) eqn:Hnone.
  { apply Hready. left. split; [done|]. apply orb_true_iff in Hnone as [?|?%Z.eqb_eq]; auto. }
  destruct (txns st) as [| |txns|] eqn:Ht; try by apply Hrefused.
  - destruct (Nat.leb_spec MAX_TXN_REQUESTS (length (txn_requests c))); [by apply Hrefused|].
    apply wp_bind. eapply wp_mono; [by eapply request_txns_spec|]. intros [] c' [Hm Hr]. apply wp_ret. by split_and!.
  - apply wp_ret. split; [by apply moved_refl|]. split; [|done]. intros _. by exists st.
  - apply Hready. right. apply live_job_inv in Hl as (Hi & _). by apply (co_slots _ _ Hc _ _ Hi).
Qed.

Lemma block_check_valid proposal version now w whole :
  block_check_from proposal version now = (Valid w, whole) ->
  w = version /\ (proposal = Ok None \/ proposal = Ok (Some "duplicate"%string)).
Proof.
  unfold block_check_from. destruct proposal as [[reason|]|]; [|by intros [= <- _]; auto|done].
  destruct (String.eqb_spec reason "duplicate") as [->|_]; [by intros [= <- _]; auto|].
  repeat (case_match; try done).
Qed.

Lemma check_block_spec env k c s r gen st txns now : conn_ok k c ->
  live_job (verifier c) (job_id s) gen = Some st -> txns_of s (installed_job st) txns -> on_job s r (installed_job st) ->
  wp env (check_block env s r gen txns now) (fun check c' => moved env k [] c c' /\
    forall version, check = Valid version -> proposed (log c') (installed_job st) (rb_coinbase_digest r) version) c.
Proof.
  intros Hc Hl Ht Hon. unfold check_block. set (proposal := propose (node_proposal env) r txns).
  apply wp_bind. eapply wp_mono; [by apply note_spec with (env := env) (k := k)|]. intros [] c1 [-> Hm].
  destruct (block_check_from proposal (rb_version r) now) as [check whole] eqn:E.
  assert (forall version, check = Valid version ->
    proposed (log (add_log c (Proposed s gen r txns proposal))) (installed_job st) (rb_coinbase_digest r) version) as Hp.
  { intros version ->. apply block_check_valid in E as [-> Ha]. exists s, gen, r, txns, proposal.
    split_and!; try done. cbn. apply elem_of_app. right. by apply list_elem_of_singleton. }
  apply wp_bind. destruct whole; [|by apply wp_ret, wp_ret].
  apply wp_modify, wp_ret. split; [|exact Hp].
  apply (moved_trans env k k [] [] _ _ _ Hm). apply record_check_moved; [by eapply mv_ok|].
  cbn. intros st2 version Hl2 ->. rewrite Hl in Hl2. injection Hl2 as <-. by apply Hp.
Qed.

Lemma verdict_of_valid check r txns txns' : verdict_of check r txns = ValidJob txns' ->
  exists version, check = Valid version /\ Z.land (Z.lxor version (rb_version r)) (lnot 32 VERSION_ROLLING_MASK) = 0.
Proof.
  destruct check as [version|reason|retry]; cbn; [|by destruct reason|done].
  destruct (Z.eqb_spec (Z.land (Z.lxor version (rb_version r)) (lnot 32 VERSION_ROLLING_MASK)) 0); [|done]. by exists version.
Qed.

(** The check kept for the share's coinbase, or a fresh one. *)
Lemma check_spec env k c s r gen st txns now : conn_ok k c ->
  live_job (verifier c) (job_id s) gen = Some st -> txns_of s (installed_job st) txns -> on_job s r (installed_job st) ->
  wp env (match block_check (verifier c) (job_id s) gen (rb_coinbase_digest r) with
      | Some (Jobs.Unavailable retry_at) =>
        if retry_at <=? now then check_block env s r gen txns now else mret (Jobs.Unavailable retry_at)
      | Some check => mret check
      | None => check_block env s r gen txns now
      end) (fun check c' => moved env k [] c c' /\
    forall version, check = Valid version -> proposed (log c') (installed_job st) (rb_coinbase_digest r) version) c.
Proof.
  intros Hc Hl Ht Hon. pose proof (check_block_spec env k c s r gen st txns now Hc Hl Ht Hon) as Hcheck.
  unfold block_check. rewrite Hl. cbn [mbind option_bind].
  destruct (checks st !! rb_coinbase_digest r) as [[w|reason|retry]|] eqn:E; [| | |exact Hcheck].
  - apply wp_ret. split; [by apply moved_refl|]. intros version [= <-]. apply live_job_inv in Hl as (Hi & _).
    by apply (co_slots _ _ Hc _ _ Hi).
  - apply wp_ret. by split; [apply moved_refl|].
  - destruct (retry <=? now); [exact Hcheck|]. apply wp_ret. by split; [apply moved_refl|].
Qed.

(** A verdict to credit has the node's validation behind it, and a pending one a
    request. *)
Definition backed (c : Connection) (s : PowSubmit) (verified : result Refusal RebuiltShare) (vd : JobVerdict) : Prop :=
  (forall r txns, verified = Ok r -> vd = ValidJob txns -> validated (log c) s r) /\
  (forall gen, vd = PendingTxns gen -> requested c s gen).

Lemma job_verdict_spec env k c s verified now : conn_ok k c -> uint 8 (job_id s) -> sound (verifier c) s verified ->
  wp env (job_verdict env s verified now) (fun vd c' => moved env k [] c c' /\ backed c' s verified vd) c.
Proof.
  intros Hc Hid Hs. unfold job_verdict. apply wp_bind, wp_get.
  match goal with |- wp env _ ?Q _ => set (post := Q) end.
  assert (forall vd, (forall txns, vd <> ValidJob txns) -> (forall gen, vd <> PendingTxns gen) -> wp env (mret vd) post c) as Hother.
  { intros vd Hvd Hp. apply wp_ret. split; [by apply moved_refl|]. split; [by intros r txns _ ->; destruct (Hvd txns)|].
    intros gen ->. by destruct (Hp gen). }
  destruct (to_decide c verified) as [[r credited]|] eqn:Hd; [|by apply Hother].
  destruct (rb_job_generation r) as [gen|] eqn:Hgen; [|by destruct credited; apply Hother].
  apply wp_bind. eapply wp_mono; [by apply job_txns_spec|]. intros t c1 (Hm & Hpend & Ht).
  destruct t as [txns| |reason].
  - destruct (Ht txns eq_refl) as [-> (st & Hl & Htx)]. destruct credited; cbn [negb]; [|by apply Hother].
    destruct verified as [r0|[reason [r0|]]]; cbn in Hd; [|by destruct (relayable _ _ && _)|done]. injection Hd as ->.
    destruct (Hs r gen eq_refl Hgen) as [_ Hj]. specialize (Hj st Hl).
    apply wp_bind, wp_get. apply wp_bind. eapply wp_mono; [by eapply check_spec|]. intros check c2 [Hm2 Hp].
    apply wp_ret. split; [done|]. split.
    + intros r2 txns2 [= <-] (version & -> & Hver)%verdict_of_valid.
      exists (installed_job st), version. split_and!; [done|by apply Hp|done].
    + intros gen2 E. destruct check as [w|reason|]; cbn in E; [by destruct (negb _)|by destruct reason|done].
  - apply wp_ret. split; [done|]. split; [done|]. intros gen2 [= <-]. by apply Hpend.
  - apply wp_ret. by destruct credited.
Qed.

(** ** Relaying, crediting and answering *)

Lemma moved_step {A B} env k1 k2 n1 n2 (m : M A) (f : A -> M B) c :
  wp env m (fun _ c1 => moved env k1 n1 c c1) c ->
  (forall a c1, moved env k1 n1 c c1 -> wp env (f a) (fun _ c2 => moved env k2 n2 c1 c2) c1) ->
  wp env (m ≫= f) (fun _ c2 => moved env k2 (n1 ++ n2) c c2) c.
Proof.
  intros Hm Hf. apply wp_bind. eapply wp_mono; [exact Hm|]. intros a c1 H1.
  eapply wp_mono; [by apply Hf|]. intros b c2 H2. exact (moved_trans _ _ _ _ _ _ _ _ H1 H2).
Qed.

Lemma moved_bind {A B} env k n1 n2 (m : M A) (f : A -> M B) c :
  wp env m (fun _ c1 => moved env k n1 c c1) c ->
  (forall a c1, moved env k n1 c c1 -> wp env (f a) (fun _ c2 => moved env k n2 c1 c2) c1) ->
  wp env (m ≫= f) (fun _ c2 => moved env k (n1 ++ n2) c c2) c.
Proof. apply moved_step. Qed.

Lemma moved_ret {A} env k (a : A) c : conn_ok k c -> wp env (mret a) (fun _ c' => moved env k [] c c') c.
Proof. intros Hc. by apply wp_ret, moved_refl. Qed.

Lemma moved_shared env k f c : conn_ok k c ->
  (forall c, verifier (f c) = verifier c /\ held (f c) = held c /\ txn_requests (f c) = txn_requests c /\ log (f c) = log c) ->
  wp env (modify f) (fun _ c' => moved env k [] c c') c.
Proof. intros Hc Hf. apply wp_modify. destruct (Hf c) as (? & ? & ? & ?). by apply moved_same. Qed.

Lemma moved_note env k e c : conn_ok k c -> answer_key e = None -> is_credit e = false ->
  wp env (note e) (fun _ c' => moved env k [] c c') c.
Proof.
  intros Hc Ha He. eapply wp_mono; [by apply (note_spec env k); [| |intros s r now ->]|]. by intros [] c' [_ Hm].
Qed.

Lemma note_published_spec env k s c : conn_ok k c -> wp env (note_published_slot s) (fun _ c' => moved env k [] c c') c.
Proof. intros Hc. apply moved_shared; [done|]. intros c0. by destruct (abw_slot_of c0 s), (abw c0). Qed.

Lemma relay_spec env k s r txns now c : conn_ok k c ->
  wp env (relay_and_record env s r txns now) (fun _ c' => moved env k [] c c') c.
Proof.
  intros Hc. unfold relay_and_record. apply wp_bind, wp_get. destruct (set_insert _ _) as [blocks fresh].
  apply (moved_bind env k [] []); [by apply moved_shared|]. intros [] c1 H1. pose proof (mv_ok _ _ _ _ _ H1) as C1.
  destruct fresh; [|by apply moved_ret]. cbn [negb].
  apply (moved_bind env k [] []); [by apply moved_note|]. intros [] c2 H2. pose proof (mv_ok _ _ _ _ _ H2) as C2.
  destruct (submit _ _ _); try by apply moved_ret.
  - apply (moved_bind env k [] []); [by apply note_published_spec|]. intros [] c3 H3. apply moved_note; [by eapply mv_ok|done|done].
  - apply (moved_bind env k [] []); [by apply note_published_spec|]. intros [] c3 H3. pose proof (mv_ok _ _ _ _ _ H3) as C3.
    apply (moved_bind env k [] []); [by apply moved_shared|]. intros [] c4 H4. apply moved_note; [by eapply mv_ok|done|done].
Qed.

Lemma receipt_spec env k s r c : conn_ok k c -> wp env (send_abw_receipt env s r) (fun _ c' => moved env k [] c c') c.
Proof.
  intros Hc. unfold send_abw_receipt. apply wp_bind, wp_get. destruct (abw_slot_of c s); [|by apply moved_ret].
  by apply (send_spec env k).
Qed.

Lemma release_claim_spec env k hash c : conn_ok k c -> wp env (release_claim hash) (fun _ c' => moved env k [] c c') c.
Proof. intros Hc. by apply moved_shared. Qed.

Lemma credit_spec env k s r now c : conn_ok k c -> validated (log c) s r ->
  wp env (credit env s r now) (fun _ c' => moved env k [] c c') c.
Proof.
  intros Hc Hv. unfold credit. destruct (payable _ _); [|by apply moved_ret]. cbn [negb]. destruct (records _ _ _).
  - apply (moved_bind env k [] []).
    + eapply wp_mono; [by apply (note_spec env k); [| |intros s0 r0 now0 [= <- <- <-]]|]. by intros [] c' [_ Hm].
    + intros [] c1 H1. apply moved_ret. by eapply mv_ok.
  - apply (moved_bind env k [] []); [by apply release_claim_spec|]. intros [] c1 H1. apply moved_ret. by eapply mv_ok.
Qed.

Lemma on_accepted_spec env k s r txns now c : conn_ok k c -> validated (log c) s r ->
  wp env (on_accepted env s r txns now) (fun _ c' => moved env k [] c c') c.
Proof.
  intros Hc Hv. unfold on_accepted. apply (moved_bind env k [] []).
  { destruct (meets_own_bits r); [by apply relay_spec|by apply moved_ret]. }
  intros [] c1 H1. apply (moved_bind env k [] []); [by apply moved_shared; [eapply mv_ok|]|].
  intros [] c2 H2. apply (moved_bind env k [] []).
  { apply credit_spec; [by eapply mv_ok|]. eapply validated_sub; [|exact Hv].
    pose proof (mv_log _ _ _ _ _ (moved_trans _ _ _ _ _ _ _ _ H1 H2)) as [l ->]. intros e He. apply elem_of_app. by left. }
  intros v c3 H3. apply (moved_bind env k [] []).
  { destruct (is_block_candidate r); [apply receipt_spec|apply moved_ret]; by eapply mv_ok. }
  intros [] c4 H4. apply moved_ret. by eapply mv_ok.
Qed.

Lemma may_reference_spec env k s r at_ c : conn_ok k c -> wp env (may_reference s r at_) (fun _ c' => moved env k [] c c') c.
Proof.
  intros Hc. unfold may_reference. apply wp_bind, wp_get. destruct (negb (is_some _)); [by apply moved_ret|].
  destruct (negb _); [by apply moved_ret|]. destruct (_ <? _); [by apply moved_ret|].
  apply (moved_bind env k [] []).
  - eapply wp_mono; [by apply hold_claim_spec with (env := env)|]. by intros b c' [Hm _].
  - intros b c1 H1. apply moved_ret. by eapply mv_ok.
Qed.

Lemma on_refused_spec env k s refusal relay at_ c : conn_ok k c ->
  wp env (on_refused env s refusal relay at_) (fun _ c' => moved env k [] c c') c.
Proof.
  intros Hc. unfold on_refused. apply (moved_bind env k [] []).
  { destruct (rebuilt refusal), relay; first [by apply relay_spec|by apply moved_ret]. }
  intros [] c1 H1. pose proof (mv_ok _ _ _ _ _ H1) as C1. apply (moved_bind env k [] []).
  { destruct (rebuilt refusal) as [r|]; [|by apply moved_ret]. apply (moved_bind env k [] []); [by apply may_reference_spec|].
    intros b c2 H2. apply moved_ret. by eapply mv_ok. }
  intros shown c2 H2. pose proof (mv_ok _ _ _ _ _ H2) as C2. apply (moved_bind env k [] []).
  { destruct shown as [r|]; [destruct (is_block_candidate r)|]; first [by apply receipt_spec|by apply moved_ret]. }
  intros [] c3 H3. apply moved_ret. by eapply mv_ok.
Qed.

Lemma outcome_spec env k s verified vd at_ c : conn_ok k c -> backed c s verified vd ->
  wp env (outcome_of env s verified vd at_) (fun _ c' => moved env k [] c c') c.
Proof.
  intros Hc Hb. destruct verified as [r|refusal].
  - assert (forall reason txns, wp env (c ← get;
      _ ← (if negb (is_some (abw_slot_of c s)) then release_claim (rb_block_hash r) else mret ());
      on_refused env s {| reason := reason; rebuilt := Some r |} (if meets_own_bits r then txns else None) at_)
      (fun _ c' => moved env k [] c c') c) as Href.
    { intros reason txns. apply wp_bind, wp_get. apply (moved_bind env k [] []).
      - destruct (negb _); [by apply release_claim_spec|by apply moved_ret].
      - intros [] c1 H1. apply on_refused_spec. by eapply mv_ok. }
    destruct vd; try apply Href. apply on_accepted_spec; [done|]. by eapply (proj1 Hb).
  - destruct vd; by apply on_refused_spec.
Qed.

Lemma answer_spec env k s verified vd at_ c : conn_ok k c -> backed c s verified vd ->
  wp env (answer env s verified vd at_) (fun _ c' => moved env k [key_of s] c c') c.
Proof.
  intros Hc Hb. apply (moved_bind env k [] [key_of s]); [by apply outcome_spec|]. intros o c1 H1.
  apply wp_bind, wp_get. apply (send_spec env k); [by eapply mv_ok|done].
Qed.

(** ** Settling a share *)

Lemma push_held_spec env k h c : conn_ok k c -> (length (held c) < MAX_HELD_SHARES)%nat -> held_ok (verifier c) h ->
  (awaiting h = AwaitTxns -> requested c (held_share h) (held_generation h)) ->
  wp env (push_held h) (fun _ c' => moved env k [held_key h] c c') c.
Proof.
  intros [] Hlen Hh Hr. apply wp_modify. split; [split; try done|split; [|done|done|done]]; cbn [set_held held log verifier txn_requests].
  - rewrite length_app. cbn. lia.
  - apply Forall_app. by split; [|apply Forall_singleton].
  - intros id gen st Hid Hl. destruct (co_awaited0 id gen st Hid Hl) as [A1 A2]. split; [done|].
    intros h' [Hh'|Hh']%elem_of_app; [by apply A2|]. apply list_elem_of_singleton in Hh' as ->.
    intros Haw <- <-. destruct (Hr Haw) as (st2 & Hl2 & Ht). rewrite Hl in Hl2. by injection Hl2 as <-.
  - unfold settled. cbn [set_held held log]. by rewrite fmap_app, app_assoc.
Qed.

Lemma wp_trans {A} env k n m (f : M A) c c1 : moved env k n c c1 ->
  wp env f (fun _ c' => moved env k m c1 c') c1 -> wp env f (fun _ c' => moved env k (n ++ m) c c') c1.
Proof.
  intros H1 Hf. eapply wp_mono; [exact Hf|]. intros a c2 H2.
  exact (moved_trans _ _ _ _ _ _ _ _ H1 H2).
Qed.

Lemma decide_spec env k s verified at_ c : conn_ok k c -> uint 8 (job_id s) -> sound (verifier c) s verified ->
  wp env (decide_share env s verified at_) (fun _ c' => moved env k [key_of s] c c') c.
Proof.
  intros Hc Hid Hs. pose proof (job_verdict_spec env k c s verified at_ Hc Hid Hs) as Hjv.
  unfold wp at 1 in Hjv. unfold wp, decide_share. destruct (job_verdict env s verified at_ c) as [c1 [vd|[]]].
  - destruct Hjv as [Hm Hb]. pose proof (mv_ok _ _ _ _ _ Hm) as C1.
    assert (forall (f : M ()), wp env f (fun _ c' => moved env k [key_of s] c1 c') c1 -> wp env f (fun _ c' => moved env k [key_of s] c c') c1) as Hvia.
    { intros f. by apply (wp_trans env k [] [key_of s]). }
    assert (backed c1 s verified (InvalidJob Other)) as Hinv by by split.
    destruct vd; try (by apply (Hvia (answer _ _ _ _ _)), (answer_spec env k)).
    destruct (Nat.ltb_spec (length (held c1)) MAX_HELD_SHARES); [|by apply (Hvia (answer _ _ _ _ _)), (answer_spec env k)].
    apply (Hvia (push_held _)). destruct Hb as [_ Hr]. specialize (Hr _ eq_refl). apply push_held_spec; [done|done| |done].
    split_and!; [done|eapply sound_later; [apply (co_jobs _ _ Hc)|by eapply mv_later|done]|]. intros _.
    destruct Hr as (st & (Hi & <- & _)%live_job_inv & _). by apply (sw_gen _ (jo_slots _ (co_jobs _ _ C1)) _ _ Hi).
  - destruct verified as [r|]; cbn [fst]; [|done]. destruct Hjv as [Hjv ?]. split; [|done]. by apply (conn_ok_same 0 c1).
  - done.
Qed.

Lemma settle_spec env k s verified at_ hold c : conn_ok k c -> uint 8 (job_id s) -> sound (verifier c) s verified ->
  wp env (settle env s verified at_ hold) (fun _ c' => moved env k [key_of s] c c') c.
Proof.
  intros Hc Hid Hs. unfold settle. apply wp_bind, wp_get. destruct (resent c verified); [by apply decide_spec|].
  destruct (parent_hold_of env c s verified hold) as [[gen until]|]; [|by apply decide_spec].
  destruct (Nat.leb_spec MAX_HELD_SHARES (length (held c))); [by apply decide_spec|]. by apply push_held_spec.
Qed.

Lemma settle_released_spec env k l c : 0 <= k -> conn_ok (k + Z.of_nat (length l)) c -> Forall (held_ok (verifier c)) l ->
  wp env (settle_released env l) (fun _ c' => moved env k (held_key <$> l) c c') c.
Proof.
  intros Hk. revert c. induction l as [|h l IH]; intros c Hc Hl; cbn [settle_released length] in *.
  { apply moved_ret. by rewrite Z.add_0_r in Hc. }
  apply Forall_cons in Hl as [(Hid & Hs & _) Hl]. set (k' := k + Z.of_nat (length l)).
  assert (conn_ok k' c) as Hc' by (eapply conn_ok_le; [exact Hc|lia]).
  change (held_key <$> h :: l) with ([held_key h] ++ (held_key <$> l)).
  apply (moved_step env k' k [held_key h] (held_key <$> l)).
  - destruct (awaiting h) as [|until]; [by apply settle_spec|].
    apply wp_bind. eapply wp_mono; [apply (verify_and_claim_spec env k'); [|lia|done]|].
    { replace (k' + 1) with (k + Z.of_nat (S (length l))) by lia. done. }
    intros verified c1 [Hm Hv]. eapply wp_mono; [apply (settle_spec env k'); [by eapply mv_ok|done|done]|].
    intros [] c2 H2. exact (moved_trans _ _ _ _ _ _ _ _ Hm H2).
  - intros [] c1 H1. apply IH; [by eapply mv_ok|]. eapply held_ok_later; [apply (co_jobs _ _ Hc)|by eapply mv_later|done].
Qed.

Lemma filter_split {A} (f : A -> bool) (l : list A) :
  filter (fun x => f x = false) l ++ filter (fun x => f x = true) l ≡ₚ l.
Proof.
  induction l as [|x l IH]; [done|]. rewrite !filter_cons. destruct (f x) eqn:E; rewrite ?E;
    repeat case_decide; try congruence; rewrite <- ?Permutation_middle; by constructor.
Qed.

Lemma Forall_kept {A} (P Q : A -> Prop) `{!forall x, Decision (Q x)} (l : list A) : Forall P l -> Forall P (filter Q l).
Proof. rewrite !Forall_forall. intros Hl x [_ Hx]%list_elem_of_filter. by apply Hl. Qed.

Definition HOLD : Z := Z.of_nat MAX_HELD_SHARES.
Lemma HOLD_eq : HOLD = 4096.
Proof. done. Qed.

(** The shares kept are as the invariant needs them, though not all those held. *)
Lemma release_spec env k matches c : 0 <= k ->
  conn_ok (k + HOLD) (set_held c (filter (fun h => matches h = false) (held c))) ->
  (length (held c) <= MAX_HELD_SHARES)%nat -> Forall (held_ok (verifier c)) (held c) ->
  wp env (release_held env matches) (fun _ c' => moved env k [] c c') c.
Proof.
  intros Hk Hc Hmax Hsh. unfold release_held. apply wp_bind, wp_get, wp_bind, wp_modify.
  pose proof (filter_split matches (held c)) as Hlen.
  set (released := filter (fun h => matches h = true) (held c)) in *. set (kept := filter (fun h => matches h = false) (held c)) in *.
  assert (conn_ok (k + Z.of_nat (length released)) (set_held c kept)) as C1.
  { eapply conn_ok_le; [exact Hc|]. apply Permutation_length in Hlen. rewrite length_app in Hlen. unfold HOLD. lia. }
  eapply wp_mono; [apply settle_released_spec; [done|exact C1|by apply Forall_kept]|].
  intros [] c2 [Hok [Hs Hl Hp Hd]]. split; [done|split; [|done|done|done]].
  rewrite Hs, app_nil_r. unfold settled. cbn [set_held held log]. by rewrite <- app_assoc, <- fmap_app, Hlen.
Qed.

Lemma conn_ok_kept k c (P : HeldShare -> Prop) `{!forall h, Decision (P h)} : conn_ok k c -> conn_ok k (set_held c (filter P (held c))).
Proof.
  intros []. split; try done; cbn [set_held held verifier txn_requests].
  - pose proof (length_filter P (held c)). lia.
  - by apply Forall_kept.
  - intros id gen st Hid Hl. destruct (co_awaited0 id gen st Hid Hl) as [A1 A2]. split; [done|].
    intros h [_ Hh]%list_elem_of_filter. by apply A2.
Qed.

Lemma release_ok_spec env k matches c : 0 <= k -> conn_ok (k + HOLD) c ->
  wp env (release_held env matches) (fun _ c' => moved env k [] c c') c.
Proof. intros Hk Hc. apply release_spec; [done|by apply conn_ok_kept|apply (co_held _ _ Hc)|apply (co_shares _ _ Hc)]. Qed.

(** ** The messages and the timers *)

Lemma checked_txns_spec env list j c (Q : JobTxns -> Connection -> Prop) :
  (forall t c', verifier c' = verifier c -> held c' = held c -> txn_requests c' = txn_requests c -> log c' = log c ->
     t <> Requested -> (forall l, t = Jobs.Held l -> txns_match_job l (txn_count j) (ShareMsg.merkle_branches j) = Some (Ok ())) -> Q t c') ->
  wp env (checked_txns env list j) Q c.
Proof.
  intros HQ. unfold checked_txns. case_bool_decide; [|by apply wp_ret, HQ].
  apply wp_bind, wp_get. destruct (intern_all _ _ _) as [cache txns]. apply wp_bind, wp_modify, wp_bind.
  destruct (txns_match_job_returns txns (txn_count j) (ShareMsg.merkle_branches j)) as [m E]. rewrite E. apply wp_ret, wp_ret.
  apply HQ; try done; destruct m as [[]|]; try done. by intros l [= <-].
Qed.

(** A request taken off the queue and its job's transactions set: the shares it does
    not concern are held as they should be. *)
Lemma settle_request env k c c' i req t matches : conn_ok k c -> txn_requests c !! i = Some req ->
  verifier c' = (set_job_txns (verifier c) (req_job_id req) (req_generation req) t).1 -> held c' = held c ->
  txn_requests c' = delete i (txn_requests c) -> log c' = log c -> t <> Requested ->
  (forall st l, live_job (verifier c) (req_job_id req) (req_generation req) = Some st -> t = Jobs.Held l ->
     txns_match_job l (txn_count (installed_job st)) (ShareMsg.merkle_branches (installed_job st)) = Some (Ok ())) ->
  (forall h, of_job (req_job_id req) (req_generation req) h = true -> matches h = true) ->
  conn_ok k (set_held c' (filter (fun h => matches h = false) (held c'))) /\ Forall (held_ok (verifier c')) (held c') /\
  drift env [] c c' /\ ((deadline req <=? instant_now env) = true -> (due_requests env c' < due_requests env c)%nat).
Proof.
  intros [Hv Hg Hheld Hreqs Hsh Hids Haw Hsl Hcr] Hi Ever Eheld Ereq Elog Ht Hm Hmatch.
  destruct (set_txns_verifier (log c) _ (req_job_id req) (req_generation req) t Hv Hsl Hm) as (Hv' & Hlat & Hn & Hsl').
  rewrite <- Ever in *. set (P := fun r => (deadline r <=? instant_now env) = true).
  assert (txn_requests c = take i (txn_requests c) ++ req :: drop (S i) (txn_requests c)) as E
    by (symmetry; by apply take_drop_middle).
  assert (length (filter P (txn_requests c)) = (length (filter P (txn_requests c')) + length (filter P [req]))%nat) as Hd.
  { rewrite Ereq, delete_take_drop. rewrite E at 1. rewrite !filter_app, filter_cons, !length_app, filter_cons, filter_nil.
    destruct (decide (P req)); cbn [length]; lia. }
  assert (Forall (held_ok (verifier c')) (held c)) as Hsh' by by apply held_ok_later with (verifier c).
  assert (uint 8 (req_job_id req)) as Hid by (rewrite Forall_forall in Hids; eapply Hids, list_elem_of_lookup_2, Hi).
  split_and!; [split|by rewrite Eheld|split|]; cbn [set_held held log verifier txn_requests].
  - done.
  - by rewrite Hn.
  - rewrite Eheld. pose proof (length_filter (fun h => matches h = false) (held c)). lia.
  - rewrite Ereq. pose proof (length_delete (txn_requests c) i ltac:(by eexists)). lia.
  - rewrite Eheld. by apply Forall_kept.
  - rewrite Ereq, delete_take_drop. rewrite E in Hids. apply Forall_app in Hids as [H1 H2]. apply Forall_app. split; [done|].
    by apply Forall_cons in H2 as [_ ?].
  - rewrite Ever. apply awaited_set_txns with (held c) (txn_requests c); try done.
    + intros h. rewrite Eheld. by intros [_ ?]%list_elem_of_filter.
    + intros r Hr. rewrite Ereq, delete_take_drop. rewrite E in Hr.
      apply elem_of_app in Hr as [Hr|[->|Hr]%elem_of_cons]; [left; apply elem_of_app; by left|by right|left; apply elem_of_app; by right].
    + right. split; [done|]. intros h [Hh _]%list_elem_of_filter _ Hj Hgen.
      rewrite Hmatch in Hh; [done|]. unfold of_job. by rewrite Hj, Hgen, !Z.eqb_refl.
  - by rewrite Elog.
  - by rewrite Elog.
  - unfold settled. by rewrite Elog, Eheld, app_nil_r.
  - done.
  - by rewrite Elog.
  - unfold due_requests. fold P. lia.
  - intros Hr. unfold due_requests. fold P. rewrite Hd, filter_cons_True by done. cbn. lia.
Qed.

Lemma release_request env k c c' i req t matches : 0 <= k -> conn_ok (k + HOLD) c -> txn_requests c !! i = Some req ->
  verifier c' = (set_job_txns (verifier c) (req_job_id req) (req_generation req) t).1 -> held c' = held c ->
  txn_requests c' = delete i (txn_requests c) -> log c' = log c -> t <> Requested ->
  (forall st l, live_job (verifier c) (req_job_id req) (req_generation req) = Some st -> t = Jobs.Held l ->
     txns_match_job l (txn_count (installed_job st)) (ShareMsg.merkle_branches (installed_job st)) = Some (Ok ())) ->
  (forall h, of_job (req_job_id req) (req_generation req) h = true -> matches h = true) ->
  wp env (release_held env matches) (fun _ c2 => moved env k [] c c2 /\
    ((deadline req <=? instant_now env) = true -> (due_requests env c2 < due_requests env c)%nat)) c'.
Proof.
  intros Hk Hc Hi Ever Eheld Ereq Elog Ht Hm Hmatch.
  destruct (settle_request env (k + HOLD) c c' i req t matches Hc Hi Ever Eheld Ereq Elog Ht Hm Hmatch) as (Hok & Hsh & Hd & Hlt).
  eapply wp_mono; [apply (release_spec env k); [done|exact Hok|by rewrite Eheld; apply (co_held _ _ Hc)|done]|].
  intros [] c2 [O2 D2]. split; [split; [done|by apply (drift_trans env [] [] _ _ _ Hd D2)]|].
  intros Hr. specialize (Hlt Hr). pose proof (dr_due _ _ _ _ D2). lia.
Qed.

Lemma on_block_txns_spec env k plain c : 0 <= k -> conn_ok (k + HOLD) c ->
  wp env (on_block_txns env plain) (fun _ c' => moved env k [] c c') c.
Proof.
  intros Hk Hc. assert (conn_ok k c) as Hk0 by (eapply conn_ok_le; [exact Hc|rewrite HOLD_eq; lia]).
  unfold on_block_txns. destruct (negb _); [by apply moved_ret|]. destruct (decode_txn_list _ _) as [list|]; [|by apply moved_ret].
  apply wp_bind, wp_get. destruct (position _ _) as [i|] eqn:Hpos; [|by apply moved_ret].
  destruct (position_Some _ _ _ Hpos) as (req & Hi & _). rewrite Hi. apply wp_bind, wp_ret, wp_bind, wp_modify.
  unfold job. destruct (live_job (verifier c) (req_job_id req) (req_generation req)) as [st|] eqn:Hl; cbn [fmap option_fmap option_map].
  - apply wp_bind, checked_txns_spec. intros t c2 E1 E2 E3 E4 Ht Hm. apply wp_bind, wp_modify.
    eapply wp_mono; [eapply (release_request env k c _ i req t)|by intros [] c3 [H3 _]]; try done; cbn in *; try congruence.
    intros st2 l Hl2. rewrite Hl in Hl2. injection Hl2 as <-. apply Hm.
  - eapply wp_mono; [eapply (release_request env k c _ i req Unrequested)|by intros [] c3 [H3 _]]; try done; cbn.
    + unfold set_job_txns. by rewrite Hl.
    + unfold of_job. intros h [? _]%andb_prop. done.
Qed.

Lemma expire_loop_spec env fuel : forall k c, 0 <= k -> conn_ok (k + Z.of_nat fuel * HOLD) c -> (due_requests env c <= fuel)%nat ->
  wp env (expire_loop fuel env) (fun _ c' => moved env k [] c c' /\ due_requests env c' = 0%nat) c.
Proof.
  assert (forall c i r, txn_requests c !! i = Some r -> (deadline r <=? instant_now env) = true -> (0 < due_requests env c)%nat) as Hpos0.
  { intros c i r Hi Hr. unfold due_requests. destruct (filter _ _) as [|x l] eqn:E; [|cbn; lia].
    assert (r ∈ filter (fun r => (deadline r <=? instant_now env) = true) (txn_requests c)) as Hin
      by (apply list_elem_of_filter; split; [done|by eapply list_elem_of_lookup_2]).
    rewrite E in Hin. by apply not_elem_of_nil in Hin. }
  assert (forall c, position (fun r => deadline r <=? instant_now env) (txn_requests c) = None -> due_requests env c = 0%nat) as Hnone.
  { intros c Hpos%position_None. unfold due_requests. induction Hpos as [|r l Hr Hl IH]; [done|].
    rewrite filter_cons_False; [done|congruence]. }
  induction fuel as [|fuel IH]; intros k c Hk Hc Hdue; cbn [expire_loop]; apply wp_bind, wp_get;
    (destruct (position _ _) as [i|] eqn:Hpos;
      [destruct (position_Some _ _ _ Hpos) as (req & Hi & Hr & _); pose proof (Hpos0 _ _ _ Hi Hr)
      |apply wp_ret; split; [apply moved_refl; eapply conn_ok_le; [exact Hc|rewrite HOLD_eq; lia]|by apply Hnone]]).
  - lia.
  - rewrite Hi. apply wp_bind, wp_ret, wp_bind, wp_modify, wp_bind, wp_modify, wp_bind.
    set (k' := k + Z.of_nat fuel * HOLD).
    eapply wp_mono; [eapply (release_request env k' c _ i req (Jobs.Refused Other)); try done|].
    + unfold k'. rewrite HOLD_eq. lia.
    + by replace (k' + HOLD) with (k + Z.of_nat (S fuel) * HOLD) by (unfold k'; lia).
    + intros [] c1 [H1 Hlt]. specialize (Hlt Hr). eapply wp_mono; [apply (IH k); [done|by eapply mv_ok|lia]|].
      intros [] c2 [H2 Hz]. split; [|done]. exact (moved_trans _ _ _ _ _ _ _ _ H1 H2).
Qed.

Lemma expire_requests_spec env k c : 0 <= k -> conn_ok (k + 8 * HOLD) c ->
  wp env (expire_txn_requests env) (fun _ c' => moved env k [] c c' /\ due_requests env c' = 0%nat) c.
Proof.
  intros Hk Hc. unfold expire_txn_requests. apply wp_bind, wp_get. pose proof (co_requests _ _ Hc). apply expire_loop_spec; [done| |].
  - eapply conn_ok_le; [exact Hc|]. unfold MAX_TXN_REQUESTS in *. rewrite HOLD_eq in *. lia.
  - apply length_filter.
Qed.

Lemma release_jobs_spec env l : forall k c, 0 <= k -> conn_ok (k + Z.of_nat (length l) * HOLD) c ->
  wp env (release_jobs env l) (fun _ c' => moved env k [] c c') c.
Proof.
  induction l as [|[id gen] l IH]; intros k c Hk Hc; cbn [release_jobs length] in *.
  { apply moved_ret. by rewrite Z.add_0_r in Hc. }
  apply (moved_step env (k + Z.of_nat (length l) * HOLD) k [] []).
  - apply release_ok_spec; [rewrite HOLD_eq; lia|]. eapply conn_ok_le; [exact Hc|rewrite ?HOLD_eq; lia].
  - intros [] c1 H1. apply IH; [done|by eapply mv_ok].
Qed.

Lemma orphans_spec env k c : 0 <= k -> conn_ok (k + HOLD * HOLD) c ->
  wp env (answer_orphaned_held env) (fun _ c' => moved env k [] c c') c.
Proof.
  intros Hk Hc. unfold answer_orphaned_held. apply wp_bind, wp_get, release_jobs_spec; [done|]. eapply conn_ok_le; [exact Hc|].
  rewrite length_fmap. pose proof (co_held _ _ Hc) as Hmax. fold HOLD. assert (Z.of_nat (length (held c)) <= HOLD) by (unfold HOLD; lia).
  match goal with |- context [length (filter ?P ?l)] => pose proof (length_filter P l) end.
  rewrite HOLD_eq in *. lia.
Qed.

Lemma parent_holds_spec env k c : 0 <= k -> conn_ok (k + HOLD) c ->
  wp env (expire_parent_holds env) (fun _ c' => moved env k [] c c') c.
Proof.
  intros Hk Hc. unfold expire_parent_holds. apply wp_bind, wp_get. destruct (negb _); [|by apply release_ok_spec].
  apply moved_ret. eapply conn_ok_le; [exact Hc|rewrite ?HOLD_eq; lia].
Qed.

Lemma decode_job_id plain s : ShareMsg.decode plain = Ok s -> uint 8 (job_id s).
Proof.
  unfold ShareMsg.decode, parse_all. destruct (decode_share _) as [[x r0]|] eqn:E; [|done]. cbn. intros [= ->].
  unfold decode_share in E. apply bind_inv in E as (p & r1 & Hp & E).
  assert (uint 8 (prefix_job_id p)) as Hid by (unfold read_prefix in Hp; pinv; done). clear Hp.
  unfold lift in *. pinv. cbn. done.
Qed.

Lemma inherits_same v v' : jobs v' = jobs v -> next_generation v' = next_generation v -> inherits_slots v v'.
Proof. intros Hj Hn. split; [lia|]. intros i st Hi. right. exists st. by rewrite <- Hj. Qed.

Lemma moved_inherits env k c v : conn_ok k c -> verified (verifier c) v -> next_generation v = next_generation (verifier c) ->
  inherits_slots (verifier c) v -> moved env k [] c (set_verifier c v).
Proof.
  intros Hc [Hv Hl _ _] Hn Hin. destruct (co_gen _ _ Hc). apply moved_verifier with k; [done|done|done|lia| |].
  - by eapply slots_ok_inherits, (co_slots _ _ Hc).
  - eapply awaited_inherits; [apply (co_awaited _ _ Hc)|apply (co_shares _ _ Hc)|done].
Qed.

Lemma moved_template env k c t : conn_ok k c -> moved env k [] c (set_verifier c (set_template (verifier c) t).1).
Proof.
  intros Hc. apply moved_inherits; [done| |done|by apply inherits_same].
  apply step_verified; [apply (co_jobs _ _ Hc)|destruct (co_gen _ _ Hc); lia|constructor].
Qed.

Lemma moved_tip env k c t now : conn_ok k c -> moved env k [] c (set_verifier c (set_tip (verifier c) t now)).
Proof.
  intros Hc. apply moved_inherits; [done| | |apply set_tip_inherits].
  - apply step_verified; [apply (co_jobs _ _ Hc)|destruct (co_gen _ _ Hc); lia|constructor].
  - unfold set_tip. cbn zeta. by destruct (is_some t).
Qed.

(** How many generations a handler may use. *)
Definition BUDGET : Z := HOLD * HOLD.
Lemma BUDGET_eq : BUDGET = 2 ^ 24.
Proof. done. Qed.

(** The shares a handler takes. *)
Definition received (i : input) : list ShareKey := match i with ShareReceived plain => [taken_key plain] | _ => [] end.

Lemma tip_spec env k current template c : 0 <= k -> conn_ok (k + HOLD) c ->
  wp env (notify_tip_change env current template) (fun _ c' => moved env k [] c c') c.
Proof.
  intros Hk Hc. unfold notify_tip_change. apply wp_bind, wp_get. case_bool_decide.
  - apply wp_bind, wp_modify. pose proof (moved_tip env (k + HOLD) c current (unix_now env) Hc) as H1.
    pose proof (moved_template env (k + HOLD) _ template (mv_ok _ _ _ _ _ H1)) as H2.
    eapply wp_mono; [apply (release_ok_spec env k); [done|exact (mv_ok _ _ _ _ _ H2)]|].
    intros [] c3 H3. exact (moved_trans _ _ _ _ _ _ _ _ H1 (moved_trans _ _ _ _ _ _ _ _ H2 H3)).
  - apply wp_modify, moved_template. eapply conn_ok_le; [exact Hc|rewrite HOLD_eq; lia].
Qed.

Lemma on_share_spec env k plain c : 0 <= k -> conn_ok (k + 1) c ->
  wp env (on_share env plain) (fun _ c' => moved env k [taken_key plain] c c') c.
Proof.
  intros Hk Hc. unfold on_share, taken_key. destruct (ShareMsg.decode plain) as [s|e] eqn:E.
  - pose proof (decode_job_id _ _ E) as Hid. apply wp_bind. eapply wp_mono; [by apply (verify_and_claim_spec env k)|].
    intros verified c1 [Hm Hs]. eapply wp_mono; [by apply (settle_spec env k); [eapply mv_ok| |]|].
    intros [] c2 H2. exact (moved_trans _ _ _ _ _ _ _ _ Hm H2).
  - apply (send_spec env k); [|done]. eapply conn_ok_le; [exact Hc|lia].
Qed.

Lemma handle_spec env k i c : 0 <= k -> conn_ok (k + BUDGET) c ->
  wp env (handle env i) (fun _ c' => moved env k (received i) c c') c.
Proof.
  intros Hk Hc. rewrite BUDGET_eq in Hc.
  assert (forall b, 0 <= b <= 2 ^ 24 -> conn_ok (k + b) c) as Hb by (intros; eapply conn_ok_le; [exact Hc|lia]).
  assert (conn_ok (k + HOLD) c) as H1 by (rewrite HOLD_eq; by apply Hb). destruct i; cbn [handle received].
  - by apply on_share_spec; [|apply Hb].
  - by apply on_block_txns_spec.
  - by apply tip_spec.
  - eapply wp_mono; [apply (expire_requests_spec env k); [done|rewrite HOLD_eq; by apply Hb]|]. by intros [] c' [? _].
  - by apply parent_holds_spec.
  - apply orphans_spec; [done|]. rewrite HOLD_eq. by apply Hb.
Qed.

(** ** A connection served *)

(** What the rest of the server changes between two handlers: the splits dictated,
    the slots of the assignment, and what the connections share. *)
Definition between (c : Connection) (splits : DictatedSplits) (a : option AbwSlotState) (hashes : AcceptedShareHashes)
    (blocks : BoundedSet bytes) (cache : TxnCache) : Connection :=
  set_shared (set_abw (set_verifier c (set_splits (verifier c) splits)) a) hashes blocks cache.

Definition connection_new (p : SharePolicy) (a : option AbwSlotState) (hashes : AcceptedShareHashes)
    (blocks : BoundedSet bytes) (cache : TxnCache) : Connection :=
  {| verifier := verifier_new p; abw := a; held := []; txn_requests := []; accepted_hashes := hashes;
     relayed_blocks := blocks; txn_cache := cache; log := [] |}.

(** A connection after [n] handlers that returned, and the shares it took. *)
Inductive served (p : SharePolicy) : nat -> list ShareKey -> Connection -> Prop :=
| served_new a hashes blocks cache : served p 0 [] (connection_new p a hashes blocks cache)
| served_handle env i n shares c c' :
    served p n shares c -> handle env i c = (c', Ok ()) -> served p (S n) (shares ++ received i) c'
| served_between n shares c splits a hashes blocks cache :
    served p n shares c -> served p n shares (between c splits a hashes blocks cache).

Lemma served_ok p N n shares c : Z.of_nat N * 2 ^ 24 < 2 ^ 63 -> (n <= N)%nat -> served p n shares c ->
  conn_ok (Z.of_nat (N - n) * BUDGET) c /\ settled c ≡ₚ shares.
Proof.
  intros HN Hn Hs. induction Hs as [a hashes blocks cache|env i n shares c c' Hs IH Hh|n shares c splits a hashes blocks cache Hs IH].
  - split; [|done]. split; cbn; try done.
    + apply verifier_new_ok.
    + rewrite BUDGET_eq. lia.
    + lia.
    + lia.
    + intros id gen st Hid (Hi & _)%live_job_inv. by apply lookup_replicate_1 in Hi as [? _].
    + intros i st Hi. by apply lookup_replicate_1 in Hi as [? _].
    + intros pre s r now post Hl. by destruct pre.
  - destruct (IH ltac:(lia)) as [Hc Hst]. pose proof (handle_spec env (Z.of_nat (N - S n) * BUDGET) i c) as Hw.
    unfold wp in Hw. rewrite Hh in Hw. destruct Hw as [Hok Hd].
    + rewrite BUDGET_eq. lia.
    + by replace (Z.of_nat (N - S n) * BUDGET + BUDGET) with (Z.of_nat (N - n) * BUDGET) by (rewrite BUDGET_eq; lia).
    + split; [done|]. by rewrite (dr_settled _ _ _ _ Hd), Hst.
  - destruct (IH Hn) as [Hc Hst]. split; [|done].
    destruct Hc as [Hv Hg Hheld Hreqs Hsh Hids Haw Hsl Hcr]. split; try done; cbn.
    + apply (step_verified (verifier c)); [done|destruct Hg; lia|]. apply (step_restore_splits (verifier c) splits).
Qed.

(** C6: No share is lost and a gateway cannot make the server hold without bound.
    The shares answered, each by the job, the target byte and the nonce its answer
    names, and the shares still held are together exactly the shares the connection
    took: each of them once, and no other, through any order of shares, messages that
    are no share, transactions received, tips, expiries, refusals by the node and
    shares settled again. And it holds at most [MAX_HELD_SHARES] shares and
    [MAX_TXN_REQUESTS] requests. *)
Theorem every_share_answered_or_held (p : SharePolicy) (n : nat) (shares : list ShareKey) (c : Connection) :
  Z.of_nat n * 2 ^ 24 < 2 ^ 63 -> served p n shares c ->
  answers (log c) ++ ((fun h => key_of (held_share h)) <$> held c) ≡ₚ shares /\
  (length (held c) <= MAX_HELD_SHARES)%nat /\ (length (txn_requests c) <= MAX_TXN_REQUESTS)%nat.
Proof.
  intros Hn Hs. destruct (served_ok p n n shares c Hn ltac:(lia) Hs) as [Hc Hst]. split_and!; [done|..]; apply Hc.
Qed.

Lemma handle_served p n shares c env i : Z.of_nat (S n) * 2 ^ 24 < 2 ^ 63 -> served p n shares c ->
  wp env (handle env i) (fun _ c' => moved env 0 (received i) c c') c.
Proof.
  intros Hn Hs. destruct (served_ok p (S n) n shares c Hn ltac:(lia) Hs) as [Hc _]. apply handle_spec; [done|].
  replace (S n - n)%nat with 1%nat in Hc by lia. by rewrite Z.mul_1_l in Hc.
Qed.

(** C3: No share is credited on a job whose block the node has not validated. Whenever
    a share is credited, even by a handler the connection then fails in, the node has
    before been asked about a block built on the share's own job, with a coinbase of
    the same digest, with the job's transactions, and has found it valid; and the
    version it found valid differs from the share's in the bits a miner may roll
    alone. *)
Theorem credited_share_was_validated (p : SharePolicy) (n : nat) (shares : list ShareKey) (c c' : Connection) (env : Env) (i : input)
    (res : result Failure ()) (pre post : list Event) (s : PowSubmit) (r : RebuiltShare) (now : Z) :
  Z.of_nat (S n) * 2 ^ 24 < 2 ^ 63 -> served p n shares c -> handle env i c = (c', res) ->
  log c' = pre ++ Credited s r now :: post ->
  exists j version, on_job s r j /\
    Z.land (Z.lxor version (rb_version r)) (lnot 32 VERSION_ROLLING_MASK) = 0 /\
    exists s0 gen r0 txns answer, Proposed s0 gen r0 txns answer ∈ pre /\ on_job s0 r0 j /\
      rb_coinbase_digest r0 = rb_coinbase_digest r /\ rb_version r0 = version /\
      (answer = Ok None \/ answer = Ok (Some "duplicate"%string)) /\ txns_of s0 j txns.
Proof.
  intros Hn Hs Hh Hl. pose proof (handle_served p n shares c env i Hn Hs) as Hw. unfold wp in Hw. rewrite Hh in Hw.
  assert (credits_ok (log c')) as Hcr.
  { destruct res as [[]|[]]; [apply Hw|apply Hw|done]. }
  destruct (Hcr _ _ _ _ _ Hl) as (j & version & Hj & Hp & Hm). by exists j, version.
Qed.

(** C11: A handler returns. None loops forever, none panics on an index out of range, on a
    request that is not there or on a merkle tree, whatever the gateway sends and the
    node answers; and only a write the gateway's socket refused ends one early. *)
Theorem handlers_return (p : SharePolicy) (n : nat) (shares : list ShareKey) (c : Connection) (env : Env) (i : input) :
  Z.of_nat (S n) * 2 ^ 24 < 2 ^ 63 -> served p n shares c ->
  exists c', handle env i c = (c', Ok ()) \/
    (handle env i c = (c', Err Io) /\ exists sent, write_ok env sent = false).
Proof.
  intros Hn Hs. pose proof (handle_served p n shares c env i Hn Hs) as Hw. unfold wp in Hw.
  destruct (handle env i c) as [c' [[]|[]]]; [exists c'; by left|exists c'; right; split; [done|apply Hw]|done].
Qed.

(** C12: No share waits past its request. Once the expired requests have been gone
    through, every share still held for the transactions of an installed job has a
    request outstanding for that very job, sent less than [TXNS_TIMEOUT] ago; so with
    each pass the shares left waiting are those a gateway can still answer for. *)
Theorem no_share_waits_past_its_request (p : SharePolicy) (n : nat) (shares : list ShareKey) (c c' : Connection) (env : Env)
    (h : HeldShare) (j : JobSection) :
  Z.of_nat (S n) * 2 ^ 24 < 2 ^ 63 -> served p n shares c -> handle env TxnRequestsExpire c = (c', Ok ()) ->
  h ∈ held c' -> awaiting h = AwaitTxns -> Jobs.job (verifier c') (job_id (held_share h)) (held_generation h) = Some j ->
  exists req, req ∈ txn_requests c' /\ req_job_id req = job_id (held_share h) /\
    req_generation req = held_generation h /\ instant_now env < req_sent_at req + TXNS_TIMEOUT.
Proof.
  intros Hn Hs Hh Hin Haw Hj. destruct (served_ok p (S n) n shares c Hn ltac:(lia) Hs) as [Hc _].
  replace (S n - n)%nat with 1%nat in Hc by lia. rewrite Z.mul_1_l, BUDGET_eq in Hc.
  pose proof (expire_requests_spec env 0 c ltac:(done)) as Hw. unfold wp in Hw. cbn [handle] in Hh. rewrite Hh in Hw.
  destruct Hw as [[Hok _] Hdue]; [eapply conn_ok_le; [exact Hc|rewrite HOLD_eq; lia]|].
  unfold Jobs.job in Hj. destruct (live_job _ _ _) as [st|] eqn:Hl; [|done].
  pose proof (co_shares _ _ Hok) as Hsh. rewrite Forall_forall in Hsh. destruct (Hsh h Hin) as [Hid _].
  destruct (co_awaited _ _ Hok _ _ st Hid Hl) as [A1 A2]. destruct (A1 (A2 h Hin Haw eq_refl eq_refl)) as (req & Hreq & E1 & E2).
  exists req. split_and!; [done|done|done|]. unfold due_requests in Hdue. apply length_zero_iff_nil in Hdue.
  destruct (Z.leb_spec (deadline req) (instant_now env)) as [Hle|?]; [|done].
  assert (req ∈ filter (fun r => (deadline r <=? instant_now env) = true) (txn_requests c')) as Hf
    by (apply list_elem_of_filter; split; [by apply Z.leb_le|done]).
  rewrite Hdue in Hf. by apply not_elem_of_nil in Hf.
Qed.

(** ** The claims of a closed connection *)

Lemma unclaimed_all hashes : forall a hash, (hash ∈ hashes \/ accepted_at a !! hash = None) ->
  accepted_at (foldl (fun a hash => (hash_remove a hash).2) a hashes) !! hash = None.
Proof.
  induction hashes as [|x hashes IH]; intros a hash [Hin|Hn]; cbn [foldl]; try done.
  - by apply not_elem_of_nil in Hin.
  - apply IH. apply elem_of_cons in Hin as [->|Hin]; [right|by left]. cbn. apply lookup_delete_eq.
  - apply IH. right. cbn. destruct (decide (x = hash)) as [->|Hne]; [apply lookup_delete_eq|by rewrite lookup_delete_ne].
Qed.

(** A share held when its connection closes can be sent again. Its hash, claimed
    when it verified, is released with the connection, so the next connection takes the
    share as new rather than refusing it as work already done. *)
Theorem close_releases_claims (c : Connection) (h : HeldShare) (hash : bytes) (now : Z) :
  h ∈ held c -> claimed_hash h = Some hash -> (hash_insert (accepted_hashes (close c)) hash now).1 = true.
Proof.
  intros Hin Hc.
  assert (accepted_at (accepted_hashes (close c)) !! hash = None) as Hn.
  { apply unclaimed_all. left. apply list_elem_of_omap. by exists h. }
  unfold hash_insert, hold.
  assert (forall held order, held !! hash = None -> (Accounting.expire_loop now held order).1 !! hash = None) as He.
  { intros m l. revert m. induction l as [|e l IH]; intros m Hm; cbn; [done|]. destruct (_ <=? _); [done|]. apply IH.
    unfold forget. case_decide; [|done]. by apply lookup_delete_None; right. }
  specialize (He _ (Accounting.order (accepted_hashes (close c))) Hn).
  destruct (Accounting.expire_loop _ _ _) as [m l]. cbn in He. rewrite He. cbn [is_some]. by destruct (cap_loop _ _ _).
Qed.
End credits.

(** ** Examples *)

Definition example_env : Env :=
  {| unix_now := 1010; instant_now := 0; write_ok := fun _ => true; node_proposal := fun _ _ => Ok None;
     node_submission := fun _ _ => Ok None; payable := fun _ => true; records := fun _ _ => true; alive := fun _ => true |}.

Definition example_connection : Connection :=
  connection_new example_policy None (hashes_new 16) (set_new 4) {| cached := ∅; added_since_sweep := 0 |}.

Definition example_tip : input := TipLookedAt (Some (le 32 7)) None.

(** A new connection told of the tip and of a split dictated. *)
Definition example_on_tip : Connection := (@handle zero_digests example_env example_tip example_connection).1.
Definition example_dictated_conn : Connection :=
  between example_on_tip (splits (record_dictated (verifier example_on_tip) 1 10000 (le 32 7) example_dictated 900)) None
    (accepted_hashes example_on_tip) (relayed_blocks example_on_tip) (txn_cache example_on_tip).

Lemma handled (env : Env) (i : input) (c : Connection) :
  (@handle zero_digests env i c).2 = Ok () -> @handle zero_digests env i c = ((@handle zero_digests env i c).1, Ok ()).
Proof. by destruct (@handle zero_digests env i c) as [c' r]; cbn; intros ->. Defined.

Lemma example_dictated_served : @served zero_digests example_policy 1 [] example_dictated_conn.
Proof.
  apply served_between. apply (@served_handle zero_digests example_policy example_env example_tip 0 [] example_connection).
  - apply served_new.
  - apply handled. vm_compute. reflexivity.
Defined.

Definition example_credit : input := ShareReceived (ShareMsg.encode example_mined_share).
Definition example_credited : Connection := (@handle zero_digests example_env example_credit example_dictated_conn).1.

(** The same share on a job with a transaction. *)
Definition example_txn_job : JobSection :=
  {| ShareMsg.prev_hash := le 32 7; ShareMsg.target_byte_index := built_target_byte_index example_built;
     nbits := le 4 0x1d00ffff; coinbaser_id := 1; job_height := 840000; coinbase_value := 10000; txn_count := 1;
     txn_total_weight := 0; txn_total_size := 0; txn_total_sigops := 0; ShareMsg.merkle_branches := [zeros 32] |}.

Definition example_txn_share : PowSubmit :=
  {| job_id := 5; coinbase_id := 1; is_block := false; subsidy_only := false; quickdiff := false;
     target_byte := 0; ntime := 1000; share_nonce := 1; share_version := V2_FLAG + 0x20000000;
     share_extranonce_field := le 12 9; username := zb <$> [0x62; 0x2e; 0x77];
     use_time_offset := false; ShareMsg.job := Some example_txn_job; coinbase := Some (section example_built);
     blake2b := {| sia_ntime := sia_words 0 3; sia_nonce := sia_words 1 2; section_time_on_wire := 1000 |};
     abw_slot := None |}.

Definition example_wait : input := ShareReceived (ShareMsg.encode example_txn_share).
Definition example_waiting : Connection := (@handle zero_digests example_env example_wait example_dictated_conn).1.

Lemma example_waiting_served : @served zero_digests example_policy 2 [(5, 0, 1)] example_waiting.
Proof.
  apply (@served_handle zero_digests example_policy example_env example_wait 1 [] example_dictated_conn);
    [apply example_dictated_served|].
  apply handled. vm_compute. reflexivity.
Defined.

Lemma every_share_answered_or_held_witness :
  answers (log example_waiting) ++ ((fun h => key_of (held_share h)) <$> held example_waiting) ≡ₚ [(5, 0, 1)] /\
  (length (held example_waiting) = 1)%nat.
Proof.
  destruct (@every_share_answered_or_held zero_digests example_policy 2 [(5, 0, 1)] example_waiting) as [Hn _];
    [by vm_compute|apply example_waiting_served|].
  split; [exact Hn|vm_compute; reflexivity].
Defined.

Lemma credited_at (l : list Event) k : from_option is_credit false (l !! k) = true ->
  exists s r now, l = take k l ++ Credited s r now :: drop (S k) l.
Proof.
  destruct (l !! k) as [e|] eqn:E; cbn; [|done]. destruct e as [| | | | |s r now|]; cbn; try done. intros _. exists s, r, now.
  symmetry. by apply take_drop_middle.
Defined.

Lemma credited_share_was_validated_witness : exists s r now s0 gen r0 txns answer,
  log example_credited = take 3 (log example_credited) ++ Credited s r now :: drop 4 (log example_credited) /\
  Proposed s0 gen r0 txns answer ∈ take 3 (log example_credited) /\ rb_coinbase_digest r0 = rb_coinbase_digest r.
Proof.
  destruct (credited_at (log example_credited) 3) as (s & r & now & Hl); [vm_compute; reflexivity|].
  destruct (@credited_share_was_validated zero_digests example_policy 1 [] example_dictated_conn example_credited
    example_env example_credit (Ok ()) (take 3 (log example_credited)) (drop 4 (log example_credited)) s r now)
    as (j & version & _ & _ & s0 & gen & r0 & txns & answer & Hp & _ & Hd & _);
    [by vm_compute|apply example_dictated_served|apply handled; vm_compute; reflexivity|exact Hl|].
  exists s, r, now, s0, gen, r0, txns, answer. by split_and!.
Defined.

Definition example_refusing_env : Env :=
  {| unix_now := 1010; instant_now := 0; write_ok := fun _ => false; node_proposal := fun _ _ => Ok None;
     node_submission := fun _ _ => Ok None; payable := fun _ => true; records := fun _ _ => true; alive := fun _ => true |}.

(** A write the socket refuses ends the handler that would answer. *)
Lemma handlers_return_witness : exists c',
  @handle zero_digests example_refusing_env example_credit example_dictated_conn = (c', Err Io).
Proof.
  destruct (@handlers_return zero_digests example_policy 1 [] example_dictated_conn example_refusing_env example_credit)
    as (c' & [H|[H _]]); [by vm_compute|apply example_dictated_served| |by exists c'].
  exfalso. apply (f_equal (fun p => match p.2 with Ok _ => true | Err _ => false end)) in H. vm_compute in H. discriminate.
Defined.

Lemma found_at {A} (P : A -> Prop) (l : list A) (k : nat) : from_option P False (l !! k) -> exists x, x ∈ l /\ P x.
Proof. destruct (l !! k) as [x|] eqn:E; cbn; [|done]. exists x. split; [by eapply list_elem_of_lookup_2|done]. Defined.

Definition example_passed : Connection := (@handle zero_digests example_env TxnRequestsExpire example_waiting).1.

Lemma example_held : exists h, h ∈ held example_passed /\ awaiting h = AwaitTxns /\
  Jobs.job (verifier example_passed) (job_id (held_share h)) (held_generation h) = Some example_txn_job.
Proof. apply (found_at _ _ 0). vm_compute. split; reflexivity. Defined.

Lemma no_share_waits_past_its_request_witness : exists h req,
  h ∈ held example_passed /\ req ∈ txn_requests example_passed /\ req_job_id req = job_id (held_share h) /\
  0 < req_sent_at req + TXNS_TIMEOUT.
Proof.
  destruct example_held as (h & Hh & Haw & Hjob).
  destruct (@no_share_waits_past_its_request zero_digests example_policy 2 [(5, 0, 1)] example_waiting example_passed example_env h
    example_txn_job) as (req & Hin & Hid & _ & Hlt);
    [by vm_compute|apply example_waiting_served|apply handled; vm_compute; reflexivity|exact Hh|exact Haw|exact Hjob|].
  exists h, req. split; [exact Hh|]. split; [exact Hin|]. split; [exact Hid|exact Hlt].
Defined.

Lemma close_releases_claims_witness : exists h,
  h ∈ held example_waiting /\ claimed_hash h = Some (zeros 32) /\
  (hash_insert (accepted_hashes (close example_waiting)) (zeros 32) 1020).1 = true.
Proof.
  destruct (found_at (fun h => claimed_hash h = Some (zeros 32)) (held example_waiting) 0) as (h & Hin & Hc); [vm_compute; reflexivity|].
  exists h. split; [exact Hin|]. split; [exact Hc|].
  exact (close_releases_claims example_waiting h (zeros 32) 1020 Hin Hc).
Defined.

(** Two shares held for a job replaced since, their hashes claimed. *)
Definition example_orphan (hash : bytes) : HeldShare :=
  {| held_share := example_mined_share;
     held_verified := Ok {| rb_is_block := false; rb_difficulty := 1; rb_block_hash := hash; rb_raw_pow_hash := hash;
       rb_prev_hash := le 32 7; rb_job_bits := 0; rb_header := []; rb_coinbase_tx := []; rb_height := 1; rb_txn_count := 1;
       rb_coinbaser_id := 1; rb_paid_to_split := 0; rb_paid_to_pool := 0; rb_unpaid_outputs := []; rb_tag_secondary := [];
       rb_version := 0; rb_coinbase_digest := zeros 32; rb_job_generation := Some 1 |};
     held_generation := 1; held_received_at := 1000; awaiting := AwaitTxns |}.

Definition example_orphaned : Connection :=
  {| verifier := verifier_new example_policy; abw := None; held := [example_orphan (le 32 1); example_orphan (le 32 2)];
     txn_requests := []; relayed_blocks := set_new 4; txn_cache := {| cached := ∅; added_since_sweep := 0 |}; log := [];
     accepted_hashes := (hash_insert (hash_insert (hashes_new 16) (le 32 1) 1000).2 (le 32 2) 1000).2 |}.

(** When the write of one share's answer fails, the shares released with it and not
    settled yet keep their claims: closing the connection releases the claims of the
    shares still held alone, so the next connection refuses the second share as work
    already done. *)
Lemma failed_release_keeps_claims :
  let c := @handle zero_digests example_refusing_env OrphansAnswered example_orphaned in
  c.2 = Err Io /\ held c.1 = [] /\ (hash_insert (accepted_hashes (close c.1)) (le 32 1) 1020).1 = true /\
  (hash_insert (accepted_hashes (close c.1)) (le 32 2) 1020).1 = false.
Proof. vm_compute. split_and!; reflexivity. Qed.
