(* ===== verification/Payout.v ===== *)
(** Dictating a split ([prime/src/payout.rs], and [on_coinbaser_request] of
    [prime/src/connection.rs]): a window's split as outputs to the scripts its
    identities' addresses decode to, the response that carries them, the check of the
    value a gateway asks for, and the record the later coinbases are held to; with the
    share's identity as [credit_share] of [accounting.rs] records it. *)
From S2P Require Import Prelude Reader Script Transaction Address Messages ShareMsg Coinbaser Window Rows Ledger.
From S2P Require Import Split Config Splits Jobs Verify.

(** ** Whole numbers in 64-bit floats

    [n as f64] rounds to the nearest multiple of the unit in the last place, of 53
    significant bits, ties to the even multiple; halving and doubling such a number is
    exact, and the cast back truncates and saturates. *)
Definition f64_of_u64 (n : Z) : Z :=
  if n <? 2 ^ 53 then n else
  let unit := 2 ^ (Z.log2 n - 52) in
  let '(q, r) := (n / unit, n mod unit) in
  if (unit <? 2 * r) || ((2 * r =? unit) && Z.odd q) then (q + 1) * unit else q * unit.

(** [value_is_plausible], the node's template being [reference]. *)
Definition value_is_plausible (reference : option Z) (value : Z) : bool :=
  match reference with
  | None => true
  | Some reference =>
    let low := f64_of_u64 reference / 2 in
    let high := Z.min (f64_of_u64 reference * 2) (2 ^ 64 - 1) in
    (low <=? value) && (value <=? high)
  end.

Section payout.
Context {codec : AddressCodec}.

(** [chain.and_then(Chain::address_prefixes)]. *)
Definition prefixes_of (chain : option Chain) : option Prefixes := c ← chain; address_prefixes c.

Definition address_script (chain : option Chain) (address : bytes) : option bytes :=
  to_output_script address (prefixes_of chain).

(** What the handler reads of the server: the window, the operator's fee, the chain and
    the value of the node's template. *)
Record PayoutServer := {
  window : Contents;
  fee_bps : Z;
  server_chain : option Chain;
  template_value : option Z;
}.

Definition dictated_outputs (srv : PayoutServer) (value : Z) : list DictatedOutput :=
  outputs_for (address_script (server_chain srv)) (split_of (window srv) (fee_bps srv) value).

(** The outputs and the response carrying them; none where [expect] would panic. *)
Definition dictate_response (srv : PayoutServer) (value id : Z) : option (list DictatedOutput * bytes) :=
  let dictated := dictated_outputs srv value in
  payload ← ok (encode_coinbaser_response
    {| response_value := value; response_coinbaser_id := id; response_outputs := dictated_output <$> dictated |});
  Some (dictated, payload).

(** [on_coinbaser_request]: the verifier after it and the message sent, if one is.
    [within_budget] is what the connection's budget of requests answers. *)
Definition on_coinbaser_request (srv : PayoutServer) (v : Verifier) (within_budget : bool) (plain : bytes)
    (now : Z) : option (Verifier * option bytes) :=
  match decode_coinbaser_request plain with
  | Err _ => Some (v, None)
  | Ok req =>
    if negb within_budget then Some (v, None)
    else if negb (value_is_plausible (template_value srv) (request_value req)) then Some (v, None)
    else
      let id := next_coinbaser_id v in
      '(dictated, payload) ← dictate_response srv (request_value req) id;
      Some (record_dictated v id (request_value req) (request_prev_hash req) dictated now, Some payload)
  end.

(** The share [credit_share] records. *)
Definition credited_share (username : bytes) (r : RebuiltShare) (now : Z) : Share :=
  {| share_accepted_at := now; identity := identity_of username; share_difficulty := rb_difficulty r;
     share_block_hash := rb_block_hash r; share_tag := rb_tag_secondary r |}.


(** ** The response encodes *)

Lemma encode_outputs_ok outs : forall blob total, Forall split_output_ok outs -> exists blob' total',
  encode_outputs outs blob total = Ok (blob', total').
Proof.
  induction outs as [|o outs IH]; intros blob total Ho; [by eexists _, _|].
  apply Forall_cons in Ho as [[_ [Hmin Hmax]] Ho]. cbn [encode_outputs].
  rewrite (proj2 (Z.ltb_ge _ _) Hmin), (proj2 (Z.ltb_ge _ _) Hmax). cbn [orb negb ensure mbind result_bind].
  by apply IH.
Qed.

Lemma blobs_len outs : Forall (fun o => zlen (script_pubkey o) <= MAX_SCRIPT_LEN) outs ->
  zlen (mjoin (blob_of <$> outs)) <= (9 + MAX_SCRIPT_LEN) * zlen outs.
Proof.
  induction 1 as [|o outs Ho _ IH]; [done|]. rewrite join_fmap_cons, zlen_app, zlen_cons.
  set (rest := zlen (mjoin _)) in *. unfold blob_of. rewrite !zlen_app. change (zlen [zb (zlen (script_pubkey o))]) with 1.
  assert (zlen (le 8 (Transaction.value o)) = 8) as -> by (unfold zlen; by rewrite length_le).
  change MAX_SCRIPT_LEN with 34 in *.
  lia.
Qed.

(** The static assertion of [payout.rs], as the encoder needs it. *)
Lemma response_encodes (r : CoinbaserResponse) :
  Forall split_output_ok (response_outputs r) -> Forall (fun o => zlen (script_pubkey o) <= MAX_SCRIPT_LEN) (response_outputs r) ->
  zlen (response_outputs r) <= MAX_COINBASER_OUTPUTS -> values (response_outputs r) <= response_value r < 2 ^ 64 ->
  exists data, encode_coinbaser_response r = Ok data.
Proof.
  intros Hok Hlen Hn [Hv H64]. unfold encode_coinbaser_response. rewrite (proj2 (Z.ltb_ge _ _) Hn). cbn [negb ensure mbind result_bind].
  destruct (encode_outputs_ok (response_outputs r) [zb (response_coinbaser_id r)] 0 Hok) as (blob & total & E). rewrite E.
  cbn [mbind result_bind]. apply encode_outputs_spec in E as (-> & _ & ->); [|by apply split_output_ok_uint|lia].
  pose proof (values_nonneg_uint _ (split_output_ok_uint _ Hok)).
  rewrite (proj2 (Z.ltb_ge (response_value r) _)) by lia. cbn [negb ensure mbind result_bind].
  pose proof (blobs_len _ Hlen) as Hb. rewrite (proj2 (Z.ltb_ge MAX_COINBASER_BLOB_LEN _)); [eexists; reflexivity|].
  rewrite zlen_app. change (zlen [zb (response_coinbaser_id r)]) with 1. change MAX_SCRIPT_LEN with 34 in *.
  change MAX_COINBASER_OUTPUTS with 1024 in *. change MAX_COINBASER_BLOB_LEN with 65535. lia.
Qed.

(** ** What is dictated *)

Lemma outputs_for_spec script split d : d ∈ outputs_for script split ->
  dictated_payout d ∈ split /\ script (payout_identity (dictated_payout d)) = Some (dictated_script d).
Proof.
  unfold outputs_for. intros (p & Hp & Hd)%list_elem_of_omap. destruct (script (payout_identity p)) as [s|] eqn:E; [|done].
  cbn in Hd. injection Hd as <-. by cbn.
Qed.

Lemma outputs_for_payouts script split : dictated_payout <$> outputs_for script split `sublist_of` split.
Proof.
  unfold outputs_for. induction split as [|p split IH]; [done|]. cbn. destruct (script (payout_identity p)); cbn.
  - by constructor.
  - by constructor.
Qed.

Lemma outputs_for_all script split : Forall (fun p => is_some (script (payout_identity p)) = true) split ->
  dictated_payout <$> outputs_for script split = split.
Proof.
  unfold outputs_for. induction 1 as [|p split Hp _ IH]; [done|]. cbn. destruct (script (payout_identity p)); [|done]. cbn. by f_equal.
Qed.

Lemma sumZ_sublist l k : l `sublist_of` k -> Forall (fun x => 0 <= x) k -> sumZ l <= sumZ k.
Proof.
  induction 1 as [|x l k _ IH|x l k _ IH]; intros Hk; [done|..]; apply Forall_cons in Hk as [Hx Hk]; rewrite !sumZ_cons;
    specialize (IH Hk); lia.
Qed.

(** The half and the double of a number below 2 ^ 53 are exact. *)
Lemma plausible_exact reference value : reference < 2 ^ 53 ->
  value_is_plausible (Some reference) value = true <-> reference / 2 <= value <= 2 * reference.
Proof.
  intros Hr. unfold value_is_plausible, f64_of_u64. rewrite (proj2 (Z.ltb_lt _ _) Hr).
  rewrite Z.min_l by lia. rewrite andb_true_iff, !Z.leb_le. lia.
Qed.

Lemma next_id_range s : 1 <= next_id s < 256.
Proof.
  unfold next_id, wrap. change (2 ^ 8) with 256. destruct (Z.eqb_spec ((last_id s + 1) mod 256) 0); [lia|].
  pose proof (Z.mod_pos_bound (last_id s + 1) 256). lia.
Qed.

Lemma request_bounds data r : decode_coinbaser_request data = Ok r -> uint 64 (request_value r).
Proof.
  unfold decode_coinbaser_request, parse_all. destruct (decode_coinbaser_request_from _) as [[a rd]|] eqn:E; [|done].
  intros [= <-]. unfold decode_coinbaser_request_from in E. apply bind_inv in E as (? & ? & _ & E).
  apply bind_inv in E as (v & ? & Hv & E). apply u64_inv in Hv as [Hv _].
  apply bind_inv in E as (? & ? & _ & E). apply bind_inv in E as (? & ? & _ & E). by apply ret_inv in E as [<- _].
Qed.

Section dictated.
Context {laws : AddressLaws}.
Context (srv : PayoutServer) (l : list Share).
Context (Hwindow : represents l (window srv)) (Hpositive : positive l).
Context (Hfee : 0 <= fee_bps srv <= BASIS_POINTS_PER_UNIT) (Hwork : 2 ^ 64 * work_of l < 2 ^ 128).

(** The value left to the miners. *)
Definition miners_value (value : Z) : Z := value - value * fee_bps srv / BASIS_POINTS_PER_UNIT.

(** The record of what one output of a split is. *)
Definition pays_miner (value : Z) (d : DictatedOutput) : Prop :=
  let p := dictated_payout d in
  payout_identity p ∈ (identity <$> l) /\ address_script (server_chain srv) (payout_identity p) = Some (dictated_script d) /\
  MIN_PAYOUT <= sats p /\ miners_value value * weight_of (payout_identity p) l / work_of l <= sats p.

Lemma dictated_fair value : uint 64 value ->
  let outs := dictated_outputs srv value in
  Forall (pays_miner value) outs /\ 0 <= sats_of outs <= miners_value value /\ miners_value value <= value /\ (length outs <= Z.to_nat MAX_COINBASER_OUTPUTS)%nat /\
  NoDup ((fun d => payout_identity (dictated_payout d)) <$> outs) /\
  (Forall (fun n => is_some (address_script (server_chain srv) n) = true) (identity <$> l) ->
   outs = [] \/ sats_of outs = miners_value value).
Proof.
  intros Hv outs. pose proof (work_of_nonneg l Hpositive) as Hw0. unfold uint in Hv.
  destruct (split_of_fair (window srv) l (fee_bps srv) value Hwindow Hpositive Hfee Hv ltac:(nia)) as [Htot Hcount Hnames Heach _ _ _].
  fold (miners_value value) in *. set (split := split_of _ _ _) in *.
  assert (dictated_payout <$> outs `sublist_of` split) as Hsub by apply outputs_for_payouts.
  assert (sats_of outs = sumZ (sats <$> (dictated_payout <$> outs))) as Hsats by (unfold sats_of; by rewrite <- list_fmap_compose).
  assert (Forall (fun x => 0 <= x) (sats <$> split)) as Hpos.
  { apply Forall_fmap. eapply Forall_impl; [exact Heach|]. unfold MIN_PAYOUT. cbn. lia. }
  assert (0 <= miners_value value <= value) as Hm.
  { unfold miners_value, BASIS_POINTS_PER_UNIT in *. assert (0 <= value * fee_bps srv / 10000 <= value); [|lia].
    split; [apply Z.div_pos; nia|apply Z.div_le_upper_bound; nia]. }
  assert (sumZ (sats <$> split) <= miners_value value) as Hle by (destruct Htot as [->| ->]; cbn; lia).
  pose proof (sumZ_sublist _ _ (fmap_sublist sats _ _ Hsub) Hpos) as Hs.
  split_and!; try lia.
  - apply Forall_forall. intros d Hd. destruct (outputs_for_spec _ _ _ Hd) as [Hp Hscript]. rewrite Forall_forall in Heach.
    destruct (Heach _ Hp) as (? & ? & ?). by split_and!.
  - rewrite Hsats. apply sumZ_nonneg, Forall_forall. intros x Hx. rewrite Forall_forall in Hpos. apply Hpos.
    by apply (sublist_subseteq _ _ (fmap_sublist sats _ _ Hsub)).
  - apply sublist_length in Hsub. rewrite length_fmap in Hsub.
    by etransitivity.
  - change (NoDup (payout_identity ∘ dictated_payout <$> outs)). rewrite list_fmap_compose. eapply sublist_NoDup; [exact Hnames|]. by apply fmap_sublist.
  - intros Hall. rewrite Hsats. unfold outs, dictated_outputs. fold split. rewrite outputs_for_all.
    + destruct Htot as [->|Htot]; [by left|by right].
    + eapply Forall_impl; [exact Heach|]. cbn. intros p (_ & Hin & _). rewrite Forall_forall in Hall. by apply Hall.
Qed.

(** On a chain with known prefixes, identities in canonical form are paid to
    different scripts. *)
Lemma dictated_scripts_differ value c : uint 64 value -> prefixes_of (server_chain srv) = Some c ->
  Forall (fun n => canonical n = n) (identity <$> l) -> NoDup (dictated_script <$> dictated_outputs srv value).
Proof.
  intros Hv Hc Hcanon. destruct (dictated_fair value Hv) as (Hpays & _ & _ & _ & Hnd & _).
  set (outs := dictated_outputs srv value) in *. clearbody outs. unfold address_script in *.
  apply NoDup_fmap_2_strong; [|by eapply NoDup_fmap_1].
  intros d e Hd He Hs. rewrite Forall_forall in Hpays. rewrite Forall_forall in Hcanon.
  destruct (Hpays _ Hd) as (Hind & Hsd & _), (Hpays _ He) as (Hine & Hse & _).
  unfold address_script in *. rewrite Hc in *. apply to_output_script_on in Hsd, Hse.
  pose proof (address_form_inj _ _ _ _ _ Hsd Hse Hs) as Hname. rewrite !Hcanon in Hname by done.
  apply list_elem_of_lookup_1 in Hd as [i Hi], He as [j Hj].
  assert (i = j) as ->; [|congruence].
  eapply (NoDup_lookup _ i j); [exact Hnd|rewrite list_lookup_fmap, Hi; reflexivity|rewrite list_lookup_fmap, Hj; cbn; congruence].
Qed.

Lemma dictate_response_ok value id : uint 64 value -> uint 8 id -> exists payload,
  dictate_response srv value id = Some (dictated_outputs srv value, payload) /\
  (value < 2 ^ 64 - 1 -> decode_coinbaser_response payload =
     Ok {| response_value := value; response_coinbaser_id := id; response_outputs := dictated_output <$> dictated_outputs srv value |}).
Proof.
  intros Hv Hid. destruct (dictated_fair value Hv) as (Hpays & Hsum & Hsum2 & Hcount & _). set (outs := dictated_outputs srv value) in *.
  set (r := {| response_value := value; response_coinbaser_id := id; response_outputs := dictated_output <$> outs |}).
  assert (values (response_outputs r) = sats_of outs) as Hvals by (unfold values, sats_of; cbn; by rewrite <- list_fmap_compose).
  assert (Forall (fun d => split_output_ok (dictated_output d) /\ zlen (dictated_script d) <= MAX_SCRIPT_LEN) outs) as Hok.
  { apply Forall_forall. intros d Hd. pose proof Hpays as Hpay. rewrite Forall_forall in Hpay. destruct (Hpay _ Hd) as (_ & Hs & Hmin & _).
    apply to_output_script_form in Hs as (c & _ & [Hlen _]%address_form_valid).
    split; [|lia]. split; cbn [Transaction.value script_pubkey dictated_output].
    - assert (sats (dictated_payout d) <= sats_of outs) as Hle.
      { clear -Hd Hpays. revert Hpays. induction outs as [|e outs IH]; [by apply not_elem_of_nil in Hd|]. intros [He Ho]%Forall_cons.
        assert (0 <= sats_of outs) by (apply sumZ_nonneg, Forall_fmap; eapply Forall_impl; [exact Ho|]; intros ? (_ & _ & Hm & _); unfold MIN_PAYOUT in Hm; cbn; lia).
        rewrite sats_of_cons. apply elem_of_cons in Hd as [->|Hd]; [lia|]. specialize (IH Hd Ho). destruct He as (_ & _ & Hm & _).
        unfold MIN_PAYOUT in Hm. lia. }
      unfold MIN_PAYOUT in Hmin. unfold uint in *. lia.
    - unfold MIN_COINBASER_OUTPUT_SCRIPT_LEN, MAX_COINBASER_OUTPUT_SCRIPT_LEN, MAX_SCRIPT_LEN, WITNESS_SCRIPT_PREFIX_SIZE, WITNESS_V1_PROGRAM_SIZE in *. lia. }
  assert (Forall split_output_ok (response_outputs r)) as Hok1 by (cbn; apply Forall_fmap; eapply Forall_impl; [exact Hok|by intros ? []]).
  destruct (response_encodes r) as [payload E]; [done|cbn; apply Forall_fmap; eapply Forall_impl; [exact Hok|by intros ? []]| | |].
  - cbn. unfold zlen. rewrite length_fmap. unfold MAX_COINBASER_OUTPUTS in *. lia.
  - rewrite Hvals. unfold uint in Hv. cbn. lia.
  - exists payload. unfold dictate_response. fold outs r. rewrite E. cbn. split; [done|]. intros Hlt.
    apply coinbaser_response_roundtrip; [unfold uint in Hv; cbn; lia|done|by apply split_output_ok_uint|done].
Qed.

End dictated.
(** The identity a share is recorded under is canonical, and is paid the script of the
    address its miner wrote. *)
Lemma credited_identity_canonical username r now : canonical (identity (credited_share username r now)) = identity (credited_share username r now).
Proof. apply canonical_idemp. Qed.

Lemma credited_identity_paid `{!AddressLaws} chain username r now s : address_script chain (address_of username) = Some s ->
  address_script chain (identity (credited_share username r now)) = Some s.
Proof. apply canonical_pays. Qed.

(** What the pool answers a coinbaser request with is what it holds the coinbase
    to. The handler always returns; it answers exactly the requests that decode, are
    within the budget and name a plausible value (by [plausible_exact], one within a
    factor of two of the node's template). The answer decodes at the gateway to
    the outputs recorded under its id, with the value and previous block asked for. They
    total at most the value less the operator's fee, and all of it when every miner of
    the window can be paid, unless nobody reaches the minimum; each pays the script of
    the address of a miner in the window, at least the minimum and that miner's share of
    the work; and on a chain the node named, to a script no other output has. *)
Theorem coinbaser_request_answered `{!AddressLaws} (srv : PayoutServer) (l : list Share) (v : Verifier)
    (within_budget : bool) (plain : bytes) (now : Z) :
  represents l (window srv) -> positive l -> 0 <= fee_bps srv <= BASIS_POINTS_PER_UNIT ->
  2 ^ 64 * work_of l < 2 ^ 128 -> splits_ok (splits v) ->
  exists v2 out, on_coinbaser_request srv v within_budget plain now = Some (v2, out) /\
    (is_some out = true <-> within_budget = true /\ exists req, decode_coinbaser_request plain = Ok req /\
       value_is_plausible (template_value srv) (request_value req) = true) /\
    match out with
    | None => v2 = v
    | Some payload => exists req d,
        decode_coinbaser_request plain = Ok req /\ get_split (splits v2) (next_coinbaser_id v) = Some d /\
        split_value d = request_value req /\ split_prev_hash d = request_prev_hash req /\
        (request_value req < 2 ^ 64 - 1 -> decode_coinbaser_response payload =
          Ok {| response_value := request_value req; response_coinbaser_id := next_coinbaser_id v;
                response_outputs := dictated_output <$> split_outputs d |}) /\
        sats_of (split_outputs d) <= miners_value srv (request_value req) /\
        (Forall (fun n => is_some (address_script (server_chain srv) n) = true) (identity <$> l) ->
         split_outputs d = [] \/ sats_of (split_outputs d) = miners_value srv (request_value req)) /\
        Forall (pays_miner srv l (request_value req)) (split_outputs d) /\
        (forall c, prefixes_of (server_chain srv) = Some c -> Forall (fun n => canonical n = n) (identity <$> l) ->
         NoDup (dictated_script <$> split_outputs d))
    end.
Proof.
  intros Hrep Hpos Hfee Hwork Hsplits. unfold on_coinbaser_request.
  destruct (decode_coinbaser_request plain) as [req|e] eqn:Edec.
  2:{ exists v, None. split; [done|]. split; [|done]. split; [done|]. by intros (_ & r & [=] & _). }
  destruct within_budget; cbn [negb].
  2:{ exists v, None. split; [done|]. split; [|done]. split; [done|]. by intros ([=] & _). }
  destruct (value_is_plausible (template_value srv) (request_value req)) eqn:Ep; cbn [negb].
  2:{ exists v, None. split; [done|]. split; [|done]. split; [done|]. intros (_ & r & [= <-] & Hr). congruence. }
  pose proof (request_bounds _ _ Edec) as Hv. pose proof (next_id_range (splits v)) as Hid.
  destruct (dictate_response_ok srv l Hrep Hpos Hfee Hwork (request_value req) (next_coinbaser_id v) Hv) as (payload & -> & Hdec).
  { unfold uint, next_coinbaser_id. lia. }
  cbn [mbind option_bind]. eexists _, _. split; [done|]. split.
  { split; [|done]. intros _. split; [done|]. by exists req. }
  destruct (record_split_ok (splits v) (next_coinbaser_id v)
    {| split_outputs := dictated_outputs srv (request_value req); split_value := request_value req;
       split_prev_hash := request_prev_hash req; sent_at := now |} Hsplits) as (_ & Hget & _).
  destruct (dictated_fair srv l Hrep Hpos Hfee Hwork (request_value req) Hv) as (Hpays & Hsum & _ & _ & _ & Hall).
  eexists req, _. split; [done|]. split; [exact Hget|]. cbn [split_value split_prev_hash split_outputs].
  split_and!; try done; [lia|]. intros c Hc Hcanon. by apply (dictated_scripts_differ srv l Hrep Hpos Hfee Hwork _ c).
Qed.

End payout.

(** ** An example: two miners, one of them writing the address in uppercase *)

#[local] Existing Instances letter_codec letter_laws.

Definition example_window_shares : list Share :=
  [{| share_accepted_at := 1; identity := identity_of (example_upper ++ text ".RIG1"); share_difficulty := 30;
      share_block_hash := []; share_tag := [] |};
   {| share_accepted_at := 2; identity := identity_of example_base58; share_difficulty := 60;
      share_block_hash := []; share_tag := [] |}].
Definition example_contents : Contents := default contents_default (push_all 100 8 contents_default example_window_shares).
Definition example_payout_server : PayoutServer :=
  {| window := example_contents; fee_bps := 100; server_chain := Some Main; template_value := Some 90000 |}.
Definition example_idle_verifier : Verifier := set_splits example_verifier no_splits.
Definition example_request : bytes := encode_coinbaser_request {| request_value := 100000; request_prev_hash := le 32 9 |}.

Lemma example_represents : represents (window_of 100 8 example_window_shares) example_contents.
Proof.
  destruct (push_all_ok 100 8 [] contents_default example_window_shares represents_default (Forall_nil_2 _))
    as (c & Hc & Hrep & _); [repeat constructor; done|lia|cbn; lia|cbn; lia|lia|].
  unfold example_contents. rewrite Hc. exact Hrep.
Qed.

Lemma coinbaser_request_answered_witness : exists v2 payload d,
  on_coinbaser_request example_payout_server example_idle_verifier true example_request 7 = Some (v2, Some payload) /\
  get_split (splits v2) 1 = Some d /\ sats_of (split_outputs d) = 99000 /\
  NoDup (dictated_script <$> split_outputs d) /\
  decode_coinbaser_response payload = Ok {| response_value := 100000; response_coinbaser_id := 1;
    response_outputs := dictated_output <$> split_outputs d |}.
Proof.
  assert (splits_ok (splits example_idle_verifier)) as Hs.
  { split; cbn; [constructor| |unfold MAX_SPLITS; lia]. intros id. rewrite lookup_empty. split; [by intros ?%not_elem_of_nil|by intros []]. }
  destruct (coinbaser_request_answered example_payout_server (window_of 100 8 example_window_shares) example_idle_verifier true
    example_request 7 example_represents) as (v2 & out & Hrun & Hsome & Hout).
  - repeat constructor; done.
  - cbn. unfold BASIS_POINTS_PER_UNIT. lia.
  - vm_compute. reflexivity.
  - exact Hs.
  - destruct out as [payload|].
    2:{ exfalso. destruct Hsome as [_ Hsome]. discriminate Hsome. split; [reflexivity|]. eexists. split; vm_compute; reflexivity. }
    destruct Hout as (req & d & Hreq & Hget & _ & _ & Hdec & _ & Htotal & _ & Hnd).
    exists v2, payload, d. split; [exact Hrun|]. split; [exact Hget|].
    assert (req = {| request_value := 100000; request_prev_hash := le 32 9 |}) as ->.
    { vm_compute in Hreq. injection Hreq as <-. vm_compute. reflexivity. }
    split; [|split].
    + destruct Htotal as [Hnil|Ht]; [repeat constructor; vm_compute; reflexivity| |rewrite Ht; vm_compute; reflexivity].
      exfalso. revert Hget. assert (exists d2, get_split (splits v2) 1 = Some d2 /\ split_outputs d2 <> []) as (d2 & Hd2 & Hne).
      { vm_compute in Hrun. injection Hrun as <- _. eexists. split; [vm_compute; reflexivity|vm_compute; discriminate]. }
      intros Hget. change (next_coinbaser_id example_idle_verifier) with 1 in Hget. congruence.
    + apply (Hnd MAIN); [reflexivity|]. repeat constructor; vm_compute; reflexivity.
    + apply Hdec. reflexivity.
Defined.
