(* ===== verification/StratumDifficulty.v ===== *)
(** The number a [mining.set_difficulty] carries ([core/src/stratum_difficulty.rs]), and
    the target a miner takes from it ([target_for_difficulty] of [core/src/target.rs]):
    the announcement of every power of two, which is what the gateway announces, is read
    back as that power, whose target is the one the gateway checks shares against. *)
From Stdlib Require Import SpecFloat.
From S2P Require Import Prelude Text Float Target.

Definition DIFF1_RATIO_NUMERATOR : Z := 0xffff.
Definition DIFF1_RATIO_SHIFT : Z := 16.
Definition LONG_DOUBLE_SIGNIFICAND_BITS : Z := 64.
Definition FRACTION_DECIMAL_SCALE : Z := 152587890625.
Definition FRACTION_DECIMAL_DIGITS : nat := 16.

Definition round_to_significand (v : Z) : Z :=
  let bits := if v =? 0 then 0 else Z.log2 v + 1 in
  if bits <=? LONG_DOUBLE_SIGNIFICAND_BITS then v else
  let shift := bits - LONG_DOUBLE_SIGNIFICAND_BITS in
  let kept := Z.shiftr v shift in
  let dropped := Z.land v (Z.shiftl 1 shift - 1) in
  let half := Z.shiftl 1 (shift - 1) in
  let rounded := if (half <? dropped) || ((dropped =? half) && (Z.land kept 1 =? 1)) then kept + 1 else kept in
  Z.shiftl rounded shift.

Definition format (n : Z) : bytes :=
  let product := round_to_significand (n * DIFF1_RATIO_NUMERATOR) in
  let whole := Z.shiftr product DIFF1_RATIO_SHIFT in
  let fraction := Z.land product (Z.shiftl 1 DIFF1_RATIO_SHIFT - 1) in
  if fraction =? 0 then decimal whole else
  decimal whole ++ [POINT] ++ trim_end DIGIT_0 (padded FRACTION_DECIMAL_DIGITS (decimal (fraction * FRACTION_DECIMAL_SCALE))).

Definition pool_difficulty (announced : f64) : option f64 :=
  if negb (is_finite announced) || f64_le announced f64_zero then None else
  let ratio := f64_div (f64_of_Z DIFF1_RATIO_NUMERATOR) (f64_of_Z (Z.shiftl 1 DIFF1_RATIO_SHIFT)) in
  Some (f64_max (f64_round (f64_div announced ratio)) (f64_of_Z 1)).

(** ** The target of a difficulty *)

Definition QUOTIENT_BITS : Z := 64.
Definition QUOTIENT_BYTES : nat := 12.

Definition target_for_difficulty (d : f64) : Target :=
  if is_nan d || f64_le d f64_zero then replicate TARGET_BYTES (zb 0xff) else
  let q := f64_div (f64_scaled 1 QUOTIENT_BITS) d in
  if negb (is_finite q) || f64_le (f64_scaled 1 (8 * Z.of_nat QUOTIENT_BYTES)) q then replicate TARGET_BYTES (zb 0xff) else
  let qb := be 16 (Z.max (f64_to_u128 q) 1) in
  drop (16 - QUOTIENT_BYTES) qb ++ zeros (TARGET_BYTES - QUOTIENT_BYTES).

(** ** What a text says *)

(** A decimal's value: the integer of its digits and how many follow the point. *)
Definition decimal_value (s : bytes) : option (Z * nat) :=
  match position (fun b => bool_decide (b = POINT)) s with
  | None => v ← digits_value 0 s; Some (v, 0%nat)
  | Some i => v ← digits_value 0 (take i s ++ drop (S i) s); Some (v, length s - S i)%nat
  end.

(** [s] says [m * 2 ^ e]. *)
Definition says (s : bytes) (m e : Z) : Prop := exists v k, decimal_value s = Some (v, k) /\
  v * 2 ^ Z.max 0 (- e) = m * 2 ^ Z.max 0 e * 10 ^ Z.of_nat k.

(** A reader of decimals that is right where a double is: what says a double, in lowest
    terms, is read as it. *)
Definition reads_doubles (parse : bytes -> option f64) : Prop :=
  forall s m e, says s m e -> Z.odd m = true -> 0 < m < 2 ^ 53 -> - 1074 <= e <= 971 -> parse s = Some (f64_scaled m e).

Definition power_check (k : Z) : bool :=
  match decimal_value (format (2 ^ k)) with
  | Some (v, n) => v * 2 ^ Z.max 0 (16 - k) =? 0xffff * 2 ^ Z.max 0 (k - 16) * 10 ^ Z.of_nat n
  | None => false
  end &&
  match pool_difficulty (f64_scaled 0xffff (k - 16)) with
  | Some d => bool_decide (target_for_difficulty d = target_for_exponent k) && f64_le d (f64_scaled 1 k) && f64_le (f64_scaled 1 k) d
  | None => false
  end.

Lemma power_checked k : 0 <= k < 64 -> power_check k = true.
Proof.
  intros Hk. assert (forallb power_check (seqZ 0 64) = true) as Hall by (vm_compute; done).
  rewrite forallb_forall in Hall. specialize (Hall k). rewrite <- list_elem_of_In, elem_of_seqZ in Hall. by apply Hall.
Qed.

Example format_vectors :
  format 0 = text "0" /\ format 1 = text "0.9999847412109375" /\ format 3 = text "2.9999542236328125" /\
  format 16384 = text "16383.75" /\ format 65535 = text "65534.0000152587890625" /\ format 65536 = text "65535" /\
  format (2 ^ 48 + 1) = text "281470681743360.9999847412109375" /\ format 9007199254740993 = text "9007061815787521" /\
  format 12345678901234567 = text "12345490521124379.705078125" /\ format (2 ^ 64 - 1) = text "18446462598732840959".
Proof. by vm_compute. Qed.

(** The gateway's announcement of a power of two, read and turned back. *)
Lemma power_says k : 0 <= k < 64 -> says (format (2 ^ k)) 0xffff (k - 16).
Proof.
  intros Hk. pose proof (power_checked k Hk) as Hc. unfold power_check in Hc. apply andb_true_iff in Hc as [Hs _].
  destruct (decimal_value _) as [[v n]|] eqn:E; [|done]. exists v, n. split; [done|]. apply Z.eqb_eq in Hs.
  replace (- (k - 16)) with (16 - k) by lia. done.
Qed.

Lemma power_read parse k : reads_doubles parse -> 0 <= k < 64 -> exists d, (parse (format (2 ^ k)) ≫= pool_difficulty) = Some d /\
  target_for_difficulty d = target_for_exponent (floor_log2 (2 ^ k)).
Proof.
  intros Hp Hk. rewrite (Hp _ _ _ (power_says k Hk)) by (done || lia). cbn [mbind option_bind].
  pose proof (power_checked k Hk) as Hc. unfold power_check in Hc. apply andb_true_iff in Hc as [_ Hd].
  destruct (pool_difficulty _) as [d|]; [|done]. exists d. split; [done|]. apply andb_true_iff in Hd as [Hd _].
  apply andb_true_iff in Hd as [Ht _]. apply bool_decide_eq_true in Ht.
  unfold floor_log2. rewrite (proj2 (Z.eqb_neq _ _)) by (pose proof (Z.pow_pos_nonneg 2 k); lia). by rewrite Z.log2_pow2 by lia.
Qed.

(** C31: A miner mines at the difficulty the gateway checks. The gateway's difficulties are
    powers of two; what it announces for one says exactly [65535 / 65536] of it, and the
    miner that reads the text as a double and divides the ratio out gets the power back,
    whose target is, byte for byte, the one the gateway holds the share to. *)
Theorem announced_difficulty_is_read_back (parse : bytes -> option f64) (k : Z) : reads_doubles parse -> 0 <= k < 64 ->
  says (format (2 ^ k)) 0xffff (k - 16) /\
  exists d, (parse (format (2 ^ k)) ≫= pool_difficulty) = Some d /\
    f64_le d (f64_scaled 1 k) = true /\ f64_le (f64_scaled 1 k) d = true /\
    target_for_difficulty d = target_for_exponent (floor_log2 (2 ^ k)).
Proof.
  intros Hp Hk. split; [by apply power_says|]. destruct (power_read parse k Hp Hk) as (d & Ed & Et). exists d. split; [done|].
  rewrite (Hp _ _ _ (power_says k Hk)) in Ed by (done || lia). cbn [mbind option_bind] in Ed.
  pose proof (power_checked k Hk) as Hc. unfold power_check in Hc. rewrite Ed in Hc. apply andb_true_iff in Hc as [_ Hd].
  apply andb_true_iff in Hd as [Hd Hge]. apply andb_true_iff in Hd as [_ Hle]. by split_and!.
Qed.

(** ** A reader *)

Fixpoint odd_part (p : positive) : positive * nat :=
  match p with xO p => let '(m, j) := odd_part p in (m, S j) | _ => (p, 0%nat) end.

Lemma odd_part_scaled p j : Z.odd (Z.pos p) = true -> exists q, Z.pos p * 2 ^ Z.of_nat j = Z.pos q /\ odd_part q = (p, j).
Proof.
  intros Hp. induction j as [|j [q [Eq Hq]]].
  { exists p. split; [apply Z.mul_1_r|]. destruct p; [done|discriminate Hp|done]. }
  exists (xO q). split; [|cbn; by rewrite Hq]. rewrite Nat2Z.inj_succ, Z.pow_succ_r by lia. lia.
Qed.

Definition example_parse (s : bytes) : option f64 :=
  '(v, k) ← decimal_value s;
  match v * 2 ^ 1074 / 10 ^ Z.of_nat k with
  | Z.pos p => let '(m, j) := odd_part p in Some (f64_scaled (Z.pos m) (Z.of_nat j - 1074))
  | _ => Some f64_zero
  end.

Lemma example_parse_reads : reads_doubles example_parse.
Proof.
  intros s m e (v & k & Ev & Hv) Hodd Hm He. unfold example_parse. rewrite Ev. cbn [mbind option_bind].
  assert (v * 2 ^ 1074 = m * 2 ^ (e + 1074) * 10 ^ Z.of_nat k) as ->.
  { replace 1074 with (Z.max 0 (- e) + (1074 - Z.max 0 (- e))) at 1 by lia. rewrite Z.pow_add_r by lia.
    replace (e + 1074) with (Z.max 0 e + (1074 - Z.max 0 (- e))) by lia. rewrite Z.pow_add_r by lia. rewrite Z.mul_assoc, Hv. lia. }
  rewrite Z.div_mul by (pose proof (Z.pow_pos_nonneg 10 (Z.of_nat k)); lia). destruct m as [|p|p]; [lia| |lia].
  destruct (odd_part_scaled p (Z.to_nat (e + 1074)) Hodd) as (q & Eq & Hq). rewrite Z2Nat.id in Eq by lia. rewrite Eq, Hq.
  do 2 f_equal. lia.
Qed.

Lemma announced_difficulty_is_read_back_witness :
  exists d, (example_parse (format (2 ^ 14)) ≫= pool_difficulty) = Some d /\ target_for_difficulty d = target_for_exponent 14.
Proof.
  destruct (announced_difficulty_is_read_back example_parse 14 example_parse_reads ltac:(lia)) as (_ & d & Ed & _ & _ & Ht).
  exists d. split; [exact Ed|]. exact Ht.
Defined.
