(* ===== verification/HashCount.v ===== *)
(** A difficulty as the gateway's configuration writes it ([gateway/src/difficulty.rs]): a
    share difficulty, or a count of hashes with a suffix of the SI, which is what the
    settings page shows and reads back. *)
From Stdlib Require Import SpecFloat.
From S2P Require Import Prelude Float Json Text Target.

(** ** Of the standard library *)

(** [{x:.p}] of what is finite and not negative: the exact value to [p] digits, ties to
    even. *)
Definition f64_fixed (p : nat) (x : f64) : bytes :=
  let n := match x with
    | S754_finite _ m e =>
      let num := Z.pos m * 10 ^ Z.of_nat p * 2 ^ Z.max 0 e in
      let den := 2 ^ Z.max 0 (- e) in
      let q := num / den in let r := num mod den in
      if (den <? 2 * r) || ((den =? 2 * r) && Z.odd q) then q + 1 else q
    | _ => 0
    end in
  if (p =? 0)%nat then decimal n
  else decimal (n / 10 ^ Z.of_nat p) ++ [POINT] ++ padded p (decimal (n mod 10 ^ Z.of_nat p)).

Definition is_ascii_alphabetic (b : byte) : bool := is_ascii_uppercase b || is_ascii_lowercase b.
Definition byte_to_ascii_uppercase (b : byte) : byte := if is_ascii_lowercase b then zb (bz b - 0x20) else b.

(** The order of two texts, by their bytes. *)
Fixpoint bytes_cmp (a b : bytes) : comparison :=
  match a, b with
  | [], [] => Eq
  | [], _ => Lt
  | _, [] => Gt
  | x :: a, y :: b => match bz x ?= bz y with Eq => bytes_cmp a b | c => c end
  end.

(** ** Hash counts *)

Definition MAX : Z := Z.shiftl 1 30.
Definition HASHES_SHIFT : Z := 32.
Definition SUFFIXES : bytes := text "KMGTPEZYRQ".
Definition PRINTED_SUFFIXES : bytes := text "kMGTPEZYRQ".
Definition I32_MAX : Z := 2 ^ 31 - 1.

Inductive Parsed := Exact (d : Z) | RoundedUp (d : Z) | Legacy (d : Z).

Definition parse_integer (n : Z) : option Parsed :=
  if n =? 0 then None else
  if n <=? I32_MAX then Some (Legacy n) else
  let minimum := (n + (2 ^ HASHES_SHIFT - 1)) / 2 ^ HASHES_SHIFT in
  if MAX <? minimum then None else
  let d := pow2_ceil minimum in
  Some (if n <? wrap 64 (Z.shiftl d HASHES_SHIFT) then RoundedUp d else Exact d).

Definition estimate (hashes : f64) : Z :=
  let minimum := f64_to_u64 (f64_ceil (f64_min (f64_div hashes (f64_of_Z (Z.shiftl 1 HASHES_SHIFT))) (f64_of_Z MAX))) in
  pow2_ceil (Z.max minimum 1).

Definition parse_real (hashes : f64) : option Parsed :=
  if negb (is_finite hashes) || f64_le hashes f64_zero || f64_lt (f64_of_Z (Z.shiftl MAX HASHES_SHIFT)) hashes then None else
  let d := estimate hashes in
  Some (if f64_lt hashes (f64_of_Z (wrap 64 (Z.shiftl d HASHES_SHIFT))) then RoundedUp d else Exact d).

(** The digits, without leading zeros, and the power of ten they are of. *)
Record Decimal := { dec_digits : bytes; dec_exponent : Z }.

Definition text_cmp (a b : bytes) : comparison :=
  match (length a ?= length b)%nat with Eq => bytes_cmp a b | c => c end.

(** [10u128.checked_pow(e)]. *)
Definition checked_pow10 (e : Z) : option Z := if 10 ^ e <? 2 ^ 128 then Some (10 ^ e) else None.

Definition cmp_boundary (s : Decimal) (boundary : Z) : comparison :=
  if 0 <? dec_exponent s then
    let unit := checked_pow10 (dec_exponent s - 1) in
    let rounded := from_option (fun u => (boundary + 5 * u) / (10 * u)) 0 unit in
    if rounded =? 0 then Gt else text_cmp (dec_digits s) (decimal rounded)
  else text_cmp (dec_digits s) (decimal boundary ++ replicate (Z.to_nat (Z.abs (dec_exponent s))) DIGIT_0).

(** A text without its suffix, and the power of ten the suffix is of. *)
Definition without_suffix (s : bytes) : option (bytes * Z) :=
  c ← last s;
  if is_ascii_alphabetic c
  then k ← position (fun b => bool_decide (b = byte_to_ascii_uppercase c)) SUFFIXES; Some (take (length s - 1) s, 3 * (Z.of_nat k + 1))
  else Some (s, 0).

Section parse.
(** [10f64.powi], whose precision is the platform's. *)
Context (powi10 : Z -> f64).

Definition parse_decimal (s : bytes) : option Parsed :=
  '(number, suffix_exponent) ← without_suffix s;
  let '(int, frac) := default (number, []) (split_once POINT number) in
  if (length int + length frac =? 0)%nat || negb (forallb is_ascii_digit (int ++ frac)) then None else
  let hashes := f64_mul (f64_of_ratio (default 0 (digits_value 0 (int ++ frac))) (10 ^ zlen frac)) (powi10 suffix_exponent) in
  let digits := trim_start (fun b => bool_decide (b = DIGIT_0)) (int ++ frac) in
  if bool_decide (digits = []) || negb (is_finite hashes) then None else
  let dec := {| dec_digits := digits; dec_exponent := suffix_exponent - zlen frac |} in
  let above v := match cmp_boundary dec (Z.shiftl v HASHES_SHIFT) with Gt => true | _ => false end in
  let d := estimate hashes in
  d ← (if (1 <? d) && negb (above (d / 2)) then Some (d / 2)
    else if above d then if MAX <=? d then None else Some (d * 2)
    else Some d);
  Some (match cmp_boundary dec (Z.shiftl d HASHES_SHIFT) with Lt => RoundedUp d | _ => Exact d end).

Definition parse `{!Json, !JsonRest} (v : value) : option Parsed :=
  match as_u64 v with
  | Some n => parse_integer n
  | None =>
    if is_some (as_i64 v) then None else
    match as_f64 v with
    | Some x => parse_real x
    | None => s ← as_str v; parse_decimal s
    end
  end.
End parse.

(** The loop over the suffixes: ten turns at most. *)
Fixpoint scale (fuel : nat) (v : f64) (i : nat) : f64 * nat :=
  match fuel with
  | O => (v, i)
  | S fuel =>
    if f64_le (f64_of_ratio 99995 100) v && (i + 1 <? length PRINTED_SUFFIXES)%nat
    then scale fuel (f64_div v (f64_of_Z 1000)) (S i) else (v, i)
  end.

Definition format (difficulty : Z) : bytes :=
  let v := f64_of_Z (Z.shiftl difficulty HASHES_SHIFT) in
  if f64_lt v (f64_of_Z 1000) then f64_fixed 0 v else
  let '(v, i) := scale (length PRINTED_SUFFIXES) (f64_div v (f64_of_Z 1000)) 0 in
  f64_fixed 1 v ++ from_option (fun b => [b]) [] (PRINTED_SUFFIXES !! i).

Example formats :
  format 0 = text "0" /\ format 1 = text "4.3G" /\ format 512 = text "2.2T" /\ format 1024 = text "4.4T" /\ format MAX = text "4.6E".
Proof. by vm_compute. Qed.

(** ** What is shown is read back *)

Definition exact_powi10 (n : Z) : f64 := f64_of_Z (10 ^ n).

Lemma parse_decimal_powi powi10 powi10' s number e : without_suffix s = Some (number, e) -> powi10 e = powi10' e ->
  parse_decimal powi10 s = parse_decimal powi10' s.
Proof. intros Hs He. unfold parse_decimal. rewrite Hs. cbn [mbind option_bind]. by rewrite He. Qed.

(** The powers of ten whose product is a double. *)
Definition exact_powers (powi10 : Z -> f64) : Prop := forall n, 0 <= n <= 22 -> powi10 n = exact_powi10 n.

Definition shown_check (k : Z) : bool :=
  from_option (fun p => p.2 <=? 22) false (without_suffix (format (2 ^ k))) &&
  from_option (fun p => 0 <=? p.2) false (without_suffix (format (2 ^ k))) &&
  match parse_decimal exact_powi10 (format (2 ^ k)) with Some (Exact d) => d =? 2 ^ k | _ => false end.

Lemma shown_checked k : 0 <= k <= 30 -> shown_check k = true.
Proof.
  intros Hk. assert (forallb shown_check (seqZ 0 31) = true) as Hall by (vm_compute; done).
  rewrite forallb_forall in Hall. apply Hall. apply list_elem_of_In, elem_of_seqZ. lia.
Qed.

(** The difficulties the configuration may hold are the powers of two up to [MAX], and the
    text each is shown as, of two to four digits, is read back as it and nothing else. *)
Theorem shown_difficulty_is_read_back (powi10 : Z -> f64) (k : Z) : exact_powers powi10 -> 0 <= k <= 30 ->
  parse_decimal powi10 (format (2 ^ k)) = Some (Exact (2 ^ k)).
Proof.
  intros Hp Hk. pose proof (shown_checked k Hk) as Hc. unfold shown_check in Hc. apply andb_prop in Hc as [Hc Hd]. apply andb_prop in Hc as [Hhi Hlo].
  destruct (without_suffix (format (2 ^ k))) as [[number e]|] eqn:Hs; [|done]. cbn [from_option snd] in Hhi, Hlo.
  rewrite (parse_decimal_powi powi10 exact_powi10 _ _ _ Hs) by (apply Hp; lia).
  destruct (parse_decimal exact_powi10 _) as [[d| |]|]; try done. apply Z.eqb_eq in Hd. by subst d.
Qed.

Lemma shown_difficulty_is_read_back_witness : exact_powers exact_powi10 /\ parse_decimal exact_powi10 (text "4.4T") = Some (Exact 1024).
Proof.
  assert (exact_powers exact_powi10) as Hp by done. split; [done|]. assert (text "4.4T" = format (2 ^ 10)) as -> by by vm_compute.
  by apply shown_difficulty_is_read_back.
Defined.

(** An integer past the share difficulties is a count of hashes: the power of two it gives is
    the least that is not fewer. *)
Theorem hash_count_rounds_up (n d : Z) (p : Parsed) : uint 64 n -> parse_integer n = Some p -> p = Exact d \/ p = RoundedUp d ->
  (exists k, 0 <= k <= 30 /\ d = 2 ^ k) /\ d / 2 * 2 ^ 32 < n <= d * 2 ^ 32 /\ (p = Exact d <-> n = d * 2 ^ 32).
Proof.
  intros Hn Hp Hd. unfold parse_integer in Hp. destruct (Z.eqb_spec n 0); [done|].
  destruct (Z.leb_spec n I32_MAX) as [|Hbig]; [by injection Hp as <-; destruct Hd|].
  set (m := (n + (2 ^ HASHES_SHIFT - 1)) / 2 ^ HASHES_SHIFT) in Hp. unfold I32_MAX in Hbig.
  assert (m * 2 ^ 32 < n + 2 ^ 32 /\ n <= m * 2 ^ 32) as [Hlo Hhi].
  { subst m. unfold HASHES_SHIFT. pose proof (Z.div_mod (n + (2 ^ 32 - 1)) (2 ^ 32) ltac:(done)).
    pose proof (Z.mod_pos_bound (n + (2 ^ 32 - 1)) (2 ^ 32) ltac:(done)). lia. }
  destruct (Z.ltb_spec MAX m) as [|Hm]; [done|]. change MAX with (2 ^ 30) in Hm.
  assert (0 < m) as Hpos by lia. assert (uint 64 m) as Hu by (unfold uint; lia).
  destruct (pow2_bounds m Hu Hpos) as (_ & _ & _ & (k & Hk & Ek) & Hc).
  destruct (Z.leb_spec m (2 ^ 63)) as [_|]; [|lia]. rewrite Ek in Hc, Hp.
  assert (k <= 30) as Hk30.
  { apply Z.nlt_ge. intros Hlt. assert (2 ^ 31 <= 2 ^ k) by (apply Z.pow_le_mono_r; lia). lia. }
  assert (0 < 2 ^ k <= 2 ^ 30) as Hr by (split; [by apply Z.pow_pos_nonneg|by apply Z.pow_le_mono_r]).
  assert (wrap 64 (Z.shiftl (2 ^ k) HASHES_SHIFT) = 2 ^ k * 2 ^ 32) as Hs
    by (unfold wrap, HASHES_SHIFT; rewrite Z.shiftl_mul_pow2 by done; apply Z.mod_small; lia).
  rewrite Hs in Hp. assert (2 ^ k / 2 <= m - 1) as Hhalf by (apply Z.lt_le_pred, Z.div_lt_upper_bound; lia).
  assert (p = Exact (2 ^ k) <-> n = 2 ^ k * 2 ^ 32) as He.
  { injection Hp as <-. destruct (Z.ltb_spec n (2 ^ k * 2 ^ 32)); (split; [|intros]); [done|lia|intros _; lia|done]. }
  assert (d = 2 ^ k) as -> by (injection Hp as <-; destruct (n <? 2 ^ k * 2 ^ 32), Hd as [[=]|[=]]; done).
  split; [by exists k|]. split; [lia|done].
Qed.

Lemma hash_count_rounds_up_witness : uint 64 (4400 * 10 ^ 9) /\ parse_integer (4400 * 10 ^ 9) = Some (RoundedUp 2048) /\
  2048 / 2 * 2 ^ 32 < 4400 * 10 ^ 9 <= 2048 * 2 ^ 32.
Proof.
  assert (uint 64 (4400 * 10 ^ 9)) as Hu by by vm_compute. assert (parse_integer (4400 * 10 ^ 9) = Some (RoundedUp 2048)) as Hp by by vm_compute.
  split_and!; [done|done|..]; by apply (hash_count_rounds_up _ 2048 _ Hu Hp); right.
Defined.

Example parsed_counts :
  let parse s := parse_decimal exact_powi10 (text s) in
  parse "2.2T" = Some (Exact 512) /\ parse "4.5T" = Some (RoundedUp 2048) /\ parse "1023" = Some (RoundedUp 1) /\
  parse "1.2Z" = None /\ parse "4e12" = None /\ parse "4398046511104" = Some (Exact 1024) /\ parse "" = None.
Proof. by vm_compute. Qed.
