(* ===== verification/Vardiff.v ===== *)
(** Variable difficulty ([gateway/src/vardiff.rs]): the difficulty a miner is served,
    as a state machine over notifies and accepted shares, with what
    [stratum/connection.rs] announces of it. An instant is in nanoseconds. *)
From S2P Require Import Prelude Target AbwSlots.

Definition MS_PER_SECOND : Z := 1000.
Definition MS_PER_MINUTE : Z := MS_PER_SECOND * 60.
Definition MIN_SAMPLE_MS : Z := MS_PER_SECOND.
Definition RATE_TOLERANCE : Z := 2.
Definition MIN_QUICKDIFF_SHIFT : Z := 2.
Definition MIN_SHARES_TO_DOUBLE : Z := 16.
Definition MAX_VARDIFF_TARGET_SHARES_MIN : Z := 60 * 1000 / 3.

Record NotifyDifficulty := { announce : option Z; diff : Z }.

Record VardiffParams := {
  min : Z;
  target_shares_min : Z;
  quickdiff_count : Z;
  quickdiff_delta : Z;
}.

Record Vardiff := {
  params : VardiffParams;
  current : Z;
  last_sent : Z;
  quickdiff_active : bool;
  quickdiff_value : Z;
  shares_since_snapshot : Z;
  snapshot_at : Z;
}.

Definition vardiff_new (p : VardiffParams) (now : Z) : Vardiff :=
  {| params := p; current := min p; last_sent := 0; quickdiff_active := false; quickdiff_value := 0;
     shares_since_snapshot := 0; snapshot_at := now |}.

Definition set_current (v : Vardiff) (c : Z) : Vardiff :=
  {| params := params v; current := c; last_sent := last_sent v; quickdiff_active := quickdiff_active v;
     quickdiff_value := quickdiff_value v; shares_since_snapshot := shares_since_snapshot v; snapshot_at := snapshot_at v |}.
Definition set_shares (v : Vardiff) (n at_ : Z) : Vardiff :=
  {| params := params v; current := current v; last_sent := last_sent v; quickdiff_active := quickdiff_active v;
     quickdiff_value := quickdiff_value v; shares_since_snapshot := n; snapshot_at := at_ |}.
Definition set_sent (v : Vardiff) (d : Z) : Vardiff :=
  {| params := params v; current := current v; last_sent := d; quickdiff_active := quickdiff_active v;
     quickdiff_value := quickdiff_value v; shares_since_snapshot := shares_since_snapshot v; snapshot_at := snapshot_at v |}.
Definition set_quickdiff (v : Vardiff) (active : bool) (value : Z) : Vardiff :=
  {| params := params v; current := current v; last_sent := last_sent v; quickdiff_active := active;
     quickdiff_value := value; shares_since_snapshot := shares_since_snapshot v; snapshot_at := snapshot_at v |}.

Definition reset_snapshot (v : Vardiff) (now : Z) : Vardiff := set_shares v 0 now.

Definition mark_sent (v : Vardiff) : Z * Vardiff :=
  let v := if current v =? 0 then set_current v (min (params v)) else v in
  (current v, set_sent v (current v)).

Definition target_ms (v : Vardiff) : Z := MS_PER_MINUTE / Z.max (target_shares_min (params v)) 1.
Definition change_pending (v : Vardiff) : bool := negb (current v =? last_sent v).
(** [saturating_duration_since(..).as_millis() as u64]. *)
Definition elapsed_ms (v : Vardiff) (now : Z) : Z := wrap 64 (duration_since now (snapshot_at v) / 10 ^ 6).

Definition ms_per_share (v : Vardiff) (now : Z) : option Z :=
  let n := shares_since_snapshot v in
  let delta := elapsed_ms v now in
  if (n =? 0) || (delta <? MIN_SAMPLE_MS) then None else Some (Z.max (delta / n) 1).

Definition halve (v : Vardiff) (now : Z) : Vardiff :=
  reset_snapshot (set_current v (Z.max (Z.shiftr (current v) 1) (min (params v)))) now.

Definition adjust_to_rate (v : Vardiff) (ms now : Z) : Vardiff :=
  let target := target_ms v in
  if target * RATE_TOLERANCE <? ms then halve v now
  else if (MIN_SHARES_TO_DOUBLE <=? shares_since_snapshot v) && (ms <? target / RATE_TOLERANCE) then
    reset_snapshot (set_current v (wrap 64 (Z.shiftl (current v) 1))) now
  else v.

Definition adjust_on_notify (v : Vardiff) (now : Z) : Vardiff :=
  if change_pending v then v
  else if shares_since_snapshot v =? 0 then
    if MS_PER_MINUTE <? elapsed_ms v now then halve v now else v
  else match ms_per_share v now with
       | Some ms => adjust_to_rate v ms now
       | None => v
       end.

Definition quick_raise (v : Vardiff) (ms now : Z) : Vardiff :=
  let factor := target_ms v / ms in
  let raw := sat_mul 64 factor (current v) in
  reset_snapshot (set_current v
    (Z.max (Z.max (pow2_floor raw) 1) (wrap 64 (Z.shiftl (current v) MIN_QUICKDIFF_SHIFT)))) now.

Definition adjust_on_share (v : Vardiff) (now : Z) : bool * Vardiff :=
  if change_pending v || (shares_since_snapshot v <? quickdiff_count (params v)) then (false, v) else
  match ms_per_share v now with
  | None => (false, v)
  | Some ms =>
    if negb (quickdiff_active v) && (ms <? target_ms v / Z.max (quickdiff_delta (params v)) 1)
    then (true, quick_raise v ms now)
    else (false, adjust_to_rate v ms now)
  end.

Definition on_share_accepted (v : Vardiff) (now : Z) : bool * Vardiff :=
  adjust_on_share (set_shares v (wrap 64 (shares_since_snapshot v + 1)) (snapshot_at v)) now.

Definition on_notify (v : Vardiff) (floor : Z) (quickdiff : bool) (now : Z) : NotifyDifficulty * Vardiff :=
  let v := if quickdiff then v else adjust_on_notify v now in
  let v := set_current v (Z.max (current v) floor) in
  let '(announced, v) :=
    if negb (last_sent v =? current v) then let '(d, v) := mark_sent v in (Some d, v) else (None, v) in
  let v := set_quickdiff v quickdiff (if quickdiff then last_sent v else quickdiff_value v) in
  ({| announce := announced; diff := last_sent v |}, v).

(** ** What a connection does with it *)

(** A subscription announces the difficulty; a notify announces a changed one first; an
    accepted share asks for a quickdiff notify, which follows at once when there is a
    job, under the floor of that moment. *)
Inductive vardiff_event :=
| Subscribed (now : Z)
| Notified (floor : Z) (now : Z)
| ShareAccepted (now : Z) (quick_notify : option (Z * Z)).

(** What the miner was sent and what the jobs were recorded at, oldest first. *)
Inductive served := Announced (d : Z) | Recorded (floor d : Z).

Record Served := { machine : Vardiff; log : list served }.

Definition notify_with (s : Served) (v : Vardiff) (floor : Z) (quickdiff : bool) (now : Z) : Served :=
  let '(n, v) := on_notify v floor quickdiff now in
  {| machine := v; log := log s ++ (Announced <$> option_list (announce n)) ++ [Recorded floor (diff n)] |}.

Definition serve (s : Served) (e : vardiff_event) : Served :=
  match e with
  | Subscribed now =>
    let '(d, v) := mark_sent (machine s) in {| machine := reset_snapshot v now; log := log s ++ [Announced d] |}
  | Notified floor now => notify_with s (machine s) floor false now
  | ShareAccepted now quick =>
    let '(raised, v) := on_share_accepted (machine s) now in
    match raised, quick with
    | true, Some (floor, at_) => notify_with s v floor true at_
    | _, _ => {| machine := v; log := log s |}
    end
  end.

Definition served_new (p : VardiffParams) (now : Z) : Served := {| machine := vardiff_new p now; log := [] |}.

(** ** Powers of two *)

Definition is_pow2 (z : Z) : Prop := exists k, 0 <= k < 64 /\ z = 2 ^ k.

Lemma pow2_range z : is_pow2 z -> 1 <= z < 2 ^ 64.
Proof. intros (k & Hk & ->). split; [pose proof (Z.pow_pos_nonneg 2 k); lia|apply Z.pow_lt_mono_r; lia]. Qed.

Lemma pow2_max x y : is_pow2 x -> is_pow2 y -> is_pow2 (Z.max x y).
Proof. intros Hx Hy. by destruct (Z.max_spec x y) as [[_ ->]|[_ ->]]. Qed.

Lemma pow2_shr x : is_pow2 x -> Z.shiftr x 1 = 0 \/ is_pow2 (Z.shiftr x 1).
Proof.
  intros (k & Hk & ->). rewrite Z.shiftr_div_pow2 by lia. destruct (decide (k = 0)) as [->|]; [by left|]. right.
  exists (k - 1). split; [lia|]. by rewrite <- Z.pow_sub_r by lia.
Qed.

Lemma pow2_shl x n : 0 <= n -> is_pow2 x -> wrap 64 (Z.shiftl x n) = 0 \/ is_pow2 (wrap 64 (Z.shiftl x n)).
Proof.
  intros Hn (k & Hk & ->). rewrite Z.shiftl_mul_pow2, <- Z.pow_add_r by lia. unfold wrap.
  destruct (decide (k + n < 64)) as [Hlt|Hge].
  - right. exists (k + n). split; [lia|]. apply Z.mod_small. split; [apply Z.pow_nonneg; lia|apply Z.pow_lt_mono_r; lia].
  - left. replace (k + n) with ((k + n - 64) + 64) by lia. rewrite Z.pow_add_r by lia. apply Z.mod_mul. lia.
Qed.

Lemma pow2_shl_small x n : 0 <= n -> x * 2 ^ n < 2 ^ 64 -> is_pow2 x -> wrap 64 (Z.shiftl x n) = x * 2 ^ n.
Proof.
  intros Hn Hlt Hx. apply pow2_range in Hx. rewrite Z.shiftl_mul_pow2 by lia. apply Z.mod_small.
  pose proof (Z.pow_pos_nonneg 2 n). nia.
Qed.

Lemma pow2_floor_pow2 v : 0 <= v < 2 ^ 64 -> pow2_floor v = 0 \/ is_pow2 (pow2_floor v).
Proof.
  intros Hv. unfold pow2_floor, floor_log2. destruct (Z.eqb_spec v 0) as [->|Hne]; [by left|]. right. exists (Z.log2 v).
  rewrite Z.shiftl_1_l. split; [|done]. split; [apply Z.log2_nonneg|]. apply Z.log2_lt_pow2; lia.
Qed.

(** A served difficulty is exactly the one its target byte names. *)
Lemma target_byte_exact d : is_pow2 d -> difficulty_for_exponent (floor_log2 d) = d /\ uint 6 (floor_log2 d).
Proof.
  intros (k & Hk & ->). unfold floor_log2. rewrite (proj2 (Z.eqb_neq _ _)) by (pose proof (Z.pow_pos_nonneg 2 k); lia).
  rewrite Z.log2_pow2 by lia. split; [|unfold uint; lia]. unfold difficulty_for_exponent. change (64 - 1) with (2 ^ 6 - 1).
  rewrite land_mask, Z.mod_small, Z.shiftl_1_l by lia. done.
Qed.

(** ** The invariant *)

Definition zero_or_pow2 (z : Z) : Prop := z = 0 \/ is_pow2 z.

Lemma zero_or_pow2_max x y : zero_or_pow2 x -> zero_or_pow2 y -> zero_or_pow2 (Z.max x y).
Proof.
  intros [->|Hx] [->|Hy]; [by left| | |right; by apply pow2_max]; right.
  - pose proof (pow2_range y Hy). by rewrite Z.max_r by lia.
  - pose proof (pow2_range x Hx). by rewrite Z.max_l by lia.
Qed.

(** What the machine keeps, once [sent] is what was last announced; [small] says that
    doubling did not reach past 64 bits. *)
Record machine_ok (p : VardiffParams) (small : Prop) (v : Vardiff) : Prop := {
  mo_params : params v = p;
  mo_current : zero_or_pow2 (current v);
  mo_sent : zero_or_pow2 (last_sent v);
  mo_unsent : last_sent v = 0 -> current v = min p;
  mo_min : small -> min p <= current v /\ (last_sent v = 0 \/ min p <= last_sent v);
}.

(** What an adjustment may change. *)
Record adjusted (p : VardiffParams) (small : Prop) (v v2 : Vardiff) : Prop := {
  ad_params : params v2 = params v;
  ad_sent : last_sent v2 = last_sent v;
  ad_current : current v2 = current v \/
    (last_sent v <> 0 /\ zero_or_pow2 (current v2) /\ (small -> min p <= current v2));
}.

Lemma adjusted_ok p small v v2 : machine_ok p small v -> adjusted p small v v2 -> machine_ok p small v2.
Proof.
  intros [Hp Hc Hs Hu Hm] [Ep Es Ec]. split; rewrite ?Ep, ?Es; try done.
  - by destruct Ec as [->|(_ & ? & _)].
  - intros H0. destruct Ec as [->|(? & _)]; [auto|done].
  - intros Hsm. destruct (Hm Hsm) as [? ?]. destruct Ec as [->|(_ & _ & Hx)]; [done|]. split; [by apply Hx|done].
Qed.

Section machine.
Context (p : VardiffParams) (small : Prop) (Hmin : is_pow2 (min p)).

Lemma halve_adjusted v now : machine_ok p small v -> change_pending v = false -> adjusted p small v (halve v now).
Proof.
  intros [Hp Hc Hs Hu _] Hpend. apply negb_false_iff, Z.eqb_eq in Hpend. split; [done|done|]. right. cbn. rewrite Hp.
  pose proof (pow2_range _ Hmin). split; [intros H0; rewrite (Hu H0) in Hpend; lia|]. split; [|lia].
  apply zero_or_pow2_max; [|by right]. destruct Hc as [->|Hc]; [by left|by apply pow2_shr].
Qed.

Lemma adjust_to_rate_adjusted v ms now : machine_ok p small v -> change_pending v = false ->
  (small -> current v < 2 ^ 62) -> adjusted p small v (adjust_to_rate v ms now).
Proof.
  intros Hv Hpend Hsmall. unfold adjust_to_rate. destruct (_ <? ms); [by apply halve_adjusted|]. destruct (_ && _); [|by split; [..|left]].
  destruct Hv as [Hp Hc Hs Hu Hm]. apply negb_false_iff, Z.eqb_eq in Hpend. pose proof (pow2_range _ Hmin).
  split; [done|done|]. right. cbn. split; [intros H0; rewrite (Hu H0) in Hpend; lia|]. split.
  - destruct Hc as [->|Hc]; [by left|by apply pow2_shl].
  - intros Hsm. specialize (Hsmall Hsm). destruct (Hm Hsm) as [Hle _].
    destruct Hc as [Hc|Hc]; [lia|]. rewrite (pow2_shl_small _ 1) by (try done; lia). lia.
Qed.

Lemma quick_raise_adjusted v ms now : machine_ok p small v -> change_pending v = false -> 1 <= ms ->
  0 <= target_ms v -> (small -> current v < 2 ^ 62) -> adjusted p small v (quick_raise v ms now).
Proof.
  intros [Hp Hc Hs Hu Hm] Hpend Hms Htarget Hsmall. apply negb_false_iff, Z.eqb_eq in Hpend. pose proof (pow2_range _ Hmin).
  split; [done|done|]. right. unfold quick_raise. cbn. split; [intros H0; rewrite (Hu H0) in Hpend; lia|].
  assert (0 <= current v) as Hc0 by (destruct Hc as [->|Hc]; [lia|apply pow2_range in Hc; lia]).
  assert (0 <= target_ms v / ms) by (apply Z.div_pos; lia). split.
  - apply zero_or_pow2_max; [apply zero_or_pow2_max|].
    + apply pow2_floor_pow2. unfold sat_mul. nia.
    + right. by exists 0.
    + destruct Hc as [->|Hc]; [by left|by apply pow2_shl].
  - intros Hsm. specialize (Hsmall Hsm). destruct (Hm Hsm) as [Hle _]. destruct Hc as [Hc|Hc]; [lia|].
    rewrite (pow2_shl_small _ MIN_QUICKDIFF_SHIFT) by (try done; unfold MIN_QUICKDIFF_SHIFT; lia). unfold MIN_QUICKDIFF_SHIFT. lia.
Qed.

Lemma ms_per_share_pos v now ms : ms_per_share v now = Some ms -> 1 <= ms.
Proof. unfold ms_per_share. destruct (_ || _); [done|]. intros [= <-]. lia. Qed.

Lemma target_ms_nonneg v : 0 <= target_ms v.
Proof. unfold target_ms. apply Z.div_pos; [by vm_compute|lia]. Qed.

Lemma adjust_on_notify_adjusted v now : machine_ok p small v -> (small -> last_sent v < 2 ^ 62) ->
  adjusted p small v (adjust_on_notify v now).
Proof.
  intros Hv Hsmall. unfold adjust_on_notify. destruct (change_pending v) eqn:Hpend; [by split; [..|left]|].
  assert (current v = last_sent v) as E by (by apply negb_false_iff, Z.eqb_eq in Hpend).
  destruct (shares_since_snapshot v =? 0).
  - destruct (_ <? _); [by apply halve_adjusted|by split; [..|left]].
  - destruct (ms_per_share v now) as [ms|]; [|by split; [..|left]]. apply adjust_to_rate_adjusted; [done|done|by rewrite E].
Qed.

Lemma adjust_on_share_adjusted v now : machine_ok p small v -> (small -> last_sent v < 2 ^ 62) ->
  adjusted p small v (adjust_on_share v now).2.
Proof.
  intros Hv Hsmall. unfold adjust_on_share. destruct (change_pending v) eqn:Hpend; [by split; [..|left]|].
  assert (current v = last_sent v) as E by (by apply negb_false_iff, Z.eqb_eq in Hpend). cbn [orb].
  destruct (_ <? _); [by split; [..|left]|]. destruct (ms_per_share v now) as [ms|] eqn:Ems; [|by split; [..|left]].
  apply ms_per_share_pos in Ems. destruct (_ && _); cbn [snd].
  - apply quick_raise_adjusted; try done; [apply target_ms_nonneg|by rewrite E].
  - apply adjust_to_rate_adjusted; [done|done|by rewrite E].
Qed.

End machine.

Section notify.
Context (p : VardiffParams) (small : Prop) (Hmin : is_pow2 (min p)).

Lemma mark_sent_ok v : machine_ok p small v -> let '(d, v2) := mark_sent v in
  machine_ok p small v2 /\ last_sent v2 = d /\ current v2 = d /\ is_pow2 d /\ (small -> min p <= d).
Proof.
  intros [Hp Hc Hs Hu Hm]. pose proof (pow2_range _ Hmin). unfold mark_sent.
  destruct (Z.eqb_spec (current v) 0) as [E|E]; cbn; rewrite ?Hp.
  - split; [|by split_and!]. split; cbn; rewrite ?Hp; [done|by right|by right|lia|]. intros _. lia.
  - destruct Hc as [Hc|Hc]; [lia|]. pose proof (pow2_range _ Hc). split; [|split_and!; try done; apply Hm].
    split; cbn; [done|by right|by right|lia|]. intros Hsm. destruct (Hm Hsm). lia.
Qed.

Lemma on_notify_ok v floor quickdiff now : machine_ok p small v -> (small -> last_sent v < 2 ^ 62) -> zero_or_pow2 floor ->
  let '(n, v2) := on_notify v floor quickdiff now in
  machine_ok p small v2 /\ last_sent v2 = diff n /\ is_pow2 (diff n) /\ floor <= diff n /\ (small -> min p <= diff n) /\
  match announce n with Some d => d = diff n | None => last_sent v = diff n end.
Proof.
  intros Hv Hsmall Hfloor. unfold on_notify. set (v1 := if quickdiff then v else _).
  assert (machine_ok p small v1 /\ last_sent v1 = last_sent v) as [[Hp Hc Hs Hu Hm] Hsent].
  { unfold v1. destruct quickdiff; [done|]. pose proof (adjust_on_notify_adjusted p small Hmin v now Hv Hsmall) as Ha.
    split; [by eapply adjusted_ok|by destruct Ha]. }
  clearbody v1. clear Hv. cbn zeta. set (c := Z.max (current v1) floor). pose proof (pow2_range _ Hmin) as Hm1.
  assert (zero_or_pow2 c) as Hc2 by (by apply zero_or_pow2_max).
  destruct (Z.eqb_spec (last_sent (set_current v1 c)) (current (set_current v1 c))) as [E|E]; cbn [set_current last_sent current] in E; cbn [negb].
  - (* the difficulty already sent *)
    assert (is_pow2 c) as Hc3. { destruct Hc2 as [H0|]; [|done]. rewrite H0 in E. specialize (Hu E). lia. }
    cbn. rewrite <- Hsent, E. split_and!; try done; [|lia|].
    + split; cbn; [done|by right|by rewrite E; right| |].
      * intros H0. pose proof (pow2_range _ Hc3). lia.
      * intros Hsm. rewrite E. destruct (Hm Hsm) as [? _]. lia.
    + intros Hsm. destruct (Hm Hsm). lia.
  - unfold mark_sent. cbn [set_current current params]. destruct (Z.eqb_spec c 0) as [E0|E0]; cbn; rewrite ?Hp.
    + split_and!; try done; [|lia]. split; cbn; [done|by right|by right|lia|]. intros _. lia.
    + destruct Hc2 as [|Hc3]; [done|]. pose proof (pow2_range _ Hc3). split_and!; try done; [|lia|].
      * split; cbn; [done|by right|by right|lia|]. intros Hsm. destruct (Hm Hsm). lia.
      * intros Hsm. destruct (Hm Hsm). lia.
Qed.

End notify.

(** ** What the miner is told *)

Definition announced_in (l : list served) : list Z := omap (fun e => match e with Announced d => Some d | _ => None end) l.
Definition below_overflow (l : list served) : Prop := Forall (fun d => d < 2 ^ 62) (announced_in l).

(** A job recorded at [d] under [floor], after [pre]. *)
Definition fair_record (p : VardiffParams) (pre : list served) (floor d : Z) : Prop :=
  last (announced_in pre) = Some d /\ is_pow2 d /\ floor <= d /\ (below_overflow pre -> min p <= d).

Record served_ok (p : VardiffParams) (s : Served) : Prop := {
  sv_machine : machine_ok p (below_overflow (log s)) (machine s);
  sv_last : last_sent (machine s) = default 0 (last (announced_in (log s)));
  sv_log : forall pre floor d post, log s = pre ++ Recorded floor d :: post -> fair_record p pre floor d;
}.

Definition floors_ok (e : vardiff_event) : Prop :=
  match e with
  | Notified floor _ => zero_or_pow2 floor
  | ShareAccepted _ (Some (floor, _)) => zero_or_pow2 floor
  | _ => True
  end.

Lemma announced_app l k : announced_in (l ++ k) = announced_in l ++ announced_in k.
Proof. apply omap_app. Qed.

Lemma below_app l k : below_overflow (l ++ k) -> below_overflow l.
Proof. unfold below_overflow. rewrite announced_app. by intros [? _]%Forall_app. Qed.

Lemma below_last s p : served_ok p s -> below_overflow (log s) -> last_sent (machine s) < 2 ^ 62.
Proof.
  intros [_ -> _] Hb. destruct (last (announced_in (log s))) as [d|] eqn:E; [|done]. cbn.
  apply last_Some in E as [l E]. unfold below_overflow in Hb. rewrite E in Hb. apply Forall_app in Hb as [_ Hb]. by inversion Hb.
Qed.

Lemma machine_weaken p (P Q : Prop) v : (Q -> P) -> machine_ok p P v -> machine_ok p Q v.
Proof. intros Himp [? ? ? ? Hm]. split; [done..|]. intros Hq. by apply Hm, Himp. Qed.

(** An entry splits a log that ends in [k] either before it or in it. *)
Lemma log_snoc_split (l k pre post : list served) e : l ++ k = pre ++ e :: post ->
  (exists post2, l = pre ++ e :: post2) \/ exists k1, pre = l ++ k1 /\ k = k1 ++ e :: post.
Proof.
  intros E. apply app_eq_app in E as (m & [[-> E]|[-> E]]); [|right; by exists m].
  destruct m as [|x m]; [right; exists []; by rewrite !app_nil_r|]. injection E as <- ->. left. by exists m.
Qed.

Section served.
Context (p : VardiffParams) (Hmin : is_pow2 (min p)).

Lemma notify_with_ok s v floor quickdiff now : served_ok p s -> machine_ok p (below_overflow (log s)) v ->
  last_sent v = last_sent (machine s) -> zero_or_pow2 floor -> served_ok p (notify_with s v floor quickdiff now).
Proof.
  intros Hs Hv Hsame Hfloor. pose proof (on_notify_ok p (below_overflow (log s)) Hmin v floor quickdiff now Hv) as Hn.
  unfold notify_with. destruct (on_notify v floor quickdiff now) as [n v2].
  destruct Hn as (Hv2 & Hlast & Hpow & Hfl & Hle & Hann); [|done|].
  { rewrite Hsame. by apply below_last with p. }
  destruct Hs as [_ Hsent Hlog].
  assert (last (announced_in (log s ++ (Announced <$> option_list (announce n)))) = Some (diff n)) as Hlast2.
  { rewrite announced_app. destruct (announce n) as [d|]; cbn.
    - by rewrite last_snoc, Hann.
    - rewrite app_nil_r. rewrite Hsame, Hsent in Hann. pose proof (pow2_range _ Hpow).
      destruct (last (announced_in (log s))); cbn in Hann; [by subst|lia]. }
  split; cbn [machine log].
  - eapply machine_weaken; [|exact Hv2]. apply below_app.
  - rewrite app_assoc, announced_app. cbn. by rewrite app_nil_r, Hlast2, Hlast.
  - intros pre fl d post E. rewrite app_assoc in E. apply log_snoc_split in E as [[post2 E]|(k1 & -> & E)].
    + apply log_snoc_split in E as [[post3 E]|(k1 & -> & E)]; [by eapply Hlog|].
      exfalso. assert (Recorded fl d ∈ Announced <$> option_list (announce n)) as Hin by (rewrite E; apply elem_of_app; right; left).
      by apply list_elem_of_fmap in Hin as (? & ? & _).
    + destruct k1 as [|x k1]; [|by destruct k1]. injection E as <- <- _. rewrite app_nil_r. split_and!; try done.
      intros Hb. apply Hle. by eapply below_app.
Qed.

Lemma serve_ok s e : served_ok p s -> floors_ok e -> served_ok p (serve s e).
Proof.
  intros Hs He. destruct e as [now|floor now|now quick]; cbn [serve].
  - pose proof (mark_sent_ok p (below_overflow (log s)) Hmin (machine s) (sv_machine _ _ Hs)) as Hm. destruct (mark_sent (machine s)) as [d v].
    destruct Hm as ([Hp Hc Hse Hu Hmn] & Hl & Hcur & Hpow & Hle). split; cbn [machine log].
    + apply machine_weaken with (P := below_overflow (log s)); [apply below_app|]. by split.
    + rewrite announced_app. cbn. by rewrite last_snoc.
    + intros pre fl d2 post E. apply log_snoc_split in E as [[post2 E]|(k1 & -> & E)]; [by eapply sv_log|].
      by destruct k1 as [|? [|]].
  - by apply notify_with_ok; [|apply Hs|..].
  - pose proof (sv_machine _ _ Hs) as Hm.
    assert (machine_ok p (below_overflow (log s)) (set_shares (machine s) (wrap 64 (shares_since_snapshot (machine s) + 1)) (snapshot_at (machine s)))) as Hm2
      by (by destruct Hm; split).
    pose proof (adjust_on_share_adjusted p (below_overflow (log s)) Hmin _ now Hm2 (below_last _ _ Hs)) as Ha.
    unfold on_share_accepted. destruct (adjust_on_share _ now) as [raised v]. cbn [snd] in Ha.
    assert (machine_ok p (below_overflow (log s)) v) as Hv by (by eapply adjusted_ok).
    assert (last_sent v = last_sent (machine s)) as Hl by (by destruct Ha).
    assert (served_ok p {| machine := v; log := log s |}) as Hstay by (split; cbn; [done|rewrite Hl; apply Hs|apply Hs]).
    destruct raised, quick as [[floor at_]|]; [by apply notify_with_ok|done..].
Qed.

(** A miner's work is judged by the difficulty it was told. Whatever shares, notifies
    and times the connection sees, every job is recorded at the difficulty announced to
    the miner last, a power of two, so that the target byte in the job's header names it
    exactly; it is at least the pool's minimum of that moment and, as long as no
    difficulty near the 64-bit limit is announced, at least the configured minimum. *)
Theorem miner_is_told_its_difficulty (now : Z) (es : list vardiff_event) (pre post : list served) (floor d : Z) :
  Forall floors_ok es -> log (foldl serve (served_new p now) es) = pre ++ Recorded floor d :: post ->
  last (announced_in pre) = Some d /\ difficulty_for_exponent (floor_log2 d) = d /\ uint 6 (floor_log2 d) /\
  floor <= d /\ (Forall (fun a => a < 2 ^ 62) (announced_in pre) -> min p <= d).
Proof.
  intros Hes Hlog. assert (served_ok p (foldl serve (served_new p now) es)) as Hs.
  { assert (served_ok p (served_new p now)) as H0.
    { pose proof (pow2_range _ Hmin). split; cbn; [split; cbn; [done|by right|by left|done|]|done|].
      - intros _. split; [lia|by left].
      - intros [] ? ? ?; done. }
    clear Hlog. revert H0. generalize (served_new p now). induction Hes as [|e es He _ IH]; intros s H0; [done|]. cbn.
    by apply IH, serve_ok. }
  destruct (sv_log _ _ Hs _ _ _ _ Hlog) as (Hlast & Hpow & Hfl & Hle).
  destruct (target_byte_exact _ Hpow). by split_and!.
Qed.

End served.

(** ** A miner that sends nothing *)

(** Times more than a minute apart, the first after [since]. *)
Fixpoint minute_apart (since : Z) (ts : list Z) : Prop :=
  match ts with
  | [] => True
  | t :: ts => (MS_PER_MINUTE + 1) * 10 ^ 6 <= t - since < 2 ^ 64 * 10 ^ 6 /\ minute_apart t ts
  end.

Definition notify_all (v : Vardiff) (floor : Z) (ts : list Z) : Vardiff :=
  foldl (fun v t => (on_notify v floor false t).2) v ts.

Lemma elapsed_minute v t : (MS_PER_MINUTE + 1) * 10 ^ 6 <= t - snapshot_at v < 2 ^ 64 * 10 ^ 6 ->
  (MS_PER_MINUTE <? elapsed_ms v t) = true.
Proof.
  intros [Hlo Hhi]. unfold elapsed_ms, duration_since, MS_PER_MINUTE, MS_PER_SECOND in *. rewrite Z.max_r by lia.
  assert (1000 * 60 + 1 <= (t - snapshot_at v) / 10 ^ 6) by (apply Z.div_le_lower_bound; lia).
  assert ((t - snapshot_at v) / 10 ^ 6 < 2 ^ 64) by (apply Z.div_lt_upper_bound; lia).
  rewrite wrap_small by (unfold uint; lia). apply Z.ltb_lt. lia.
Qed.

Lemma silent_notify v floor t : 1 <= min (params v) -> last_sent v = current v -> shares_since_snapshot v = 0 ->
  (MS_PER_MINUTE + 1) * 10 ^ 6 <= t - snapshot_at v < 2 ^ 64 * 10 ^ 6 ->
  let v2 := (on_notify v floor false t).2 in
  params v2 = params v /\ current v2 = Z.max (Z.max (Z.shiftr (current v) 1) (min (params v))) floor /\
  last_sent v2 = current v2 /\ shares_since_snapshot v2 = 0 /\ snapshot_at v2 = t.
Proof.
  intros Hmin Hsent Hn Ht v2. unfold v2, on_notify, adjust_on_notify, change_pending. rewrite Hsent, Z.eqb_refl, Hn. cbn [negb Z.eqb].
  rewrite (elapsed_minute v t Ht). cbn [set_current last_sent current halve reset_snapshot set_shares].
  destruct (Z.eqb_spec (last_sent v) (Z.max (Z.max (Z.shiftr (current v) 1) (min (params v))) floor)) as [E|E]; cbn [negb].
  - cbn. by rewrite <- E.
  - unfold mark_sent. cbn [current set_current set_shares]. rewrite (proj2 (Z.eqb_neq _ 0)) by lia. by cbn.
Qed.

Lemma shiftr_max_floor c m f k : 0 <= c -> 0 <= m -> 0 <= k ->
  Z.max f (Z.max m (Z.shiftr (Z.max (Z.max (Z.shiftr c 1) m) f) k)) = Z.max f (Z.max m (Z.shiftr c (k + 1))).
Proof.
  intros Hc Hm Hk. pose proof (Z.pow_pos_nonneg 2 k). rewrite !Z.shiftr_div_pow2 by lia.
  assert (forall x y, x <= y -> x / 2 ^ k <= y / 2 ^ k) as Hmono by (intros; apply Z.div_le_mono; lia).
  assert (forall x, 0 <= x -> 0 <= x / 2 ^ k <= x) as Hself.
  { intros x Hx. split; [apply Z.div_pos; lia|]. apply Z.div_le_upper_bound; [lia|]. nia. }
  rewrite Z.pow_add_r, Z.mul_comm, <- Z.div_div by lia. change (2 ^ 1) with 2.
  assert (0 <= c / 2) by (apply Z.div_pos; lia). set (h := c / 2) in *.
  pose proof (Hself h ltac:(lia)). pose proof (Hself m Hm). pose proof (Hmono h (Z.max (Z.max h m) f) ltac:(lia)).
  destruct (Z.max_spec (Z.max h m) f) as [[Hx ->]|[Hx ->]].
  - pose proof (Hself f ltac:(lia)). pose proof (Hmono h f ltac:(lia)). lia.
  - destruct (Z.max_spec h m) as [[Hy ->]|[Hy ->]]; [|lia]. pose proof (Hmono h m ltac:(lia)). lia.
Qed.

(** A miner that sends nothing is lowered until it can. Each notify more than a
    minute after the last halves the difficulty, down to the configured minimum and the
    pool's, and no further; so whatever difficulty a miner was raised to, sixty-four such
    notifies bring it to the larger of the two, and it has been told. *)
Theorem silent_miner_is_lowered (v : Vardiff) (floor : Z) (ts : list Z) :
  1 <= min (params v) -> uint 64 (current v) -> last_sent v = current v -> shares_since_snapshot v = 0 ->
  minute_apart (snapshot_at v) ts ->
  let v2 := notify_all v floor ts in
  (ts <> [] -> current v2 = Z.max floor (Z.max (min (params v)) (Z.shiftr (current v) (Z.of_nat (length ts))))) /\
  last_sent v2 = current v2 /\
  ((64 <= length ts)%nat -> last_sent v2 = Z.max floor (min (params v))).
Proof.
  intros Hmin Hc Hsent Hn Hts v2.
  assert (forall us v, us <> [] -> 1 <= min (params v) -> 0 <= current v -> last_sent v = current v -> shares_since_snapshot v = 0 ->
    minute_apart (snapshot_at v) us ->
    current (notify_all v floor us) = Z.max floor (Z.max (min (params v)) (Z.shiftr (current v) (Z.of_nat (length us)))) /\
    last_sent (notify_all v floor us) = current (notify_all v floor us)) as Hmain.
  { clear. intros us. induction us as [|t us IH]; intros v Hne Hmin Hc Hsent Hn Hts; [done|]. destruct Hts as [Ht Hts].
    destruct (silent_notify v floor t Hmin Hsent Hn Ht) as (Hp & Hcur & Hs & Hsh & Hat).
    change (notify_all v floor (t :: us)) with (notify_all (on_notify v floor false t).2 floor us).
    set (v1 := (on_notify v floor false t).2) in *. destruct us as [|t2 us].
    - cbn [notify_all foldl length]. rewrite Hs, Hcur. change (Z.of_nat 1) with 1. split; [lia|done].
    - assert (0 <= Z.shiftr (current v) 1) by (by apply Z.shiftr_nonneg).
      destruct (IH v1) as [IHc IHs]; [done|by rewrite Hp|lia|done|done|by rewrite Hat|]. split; [|done].
      rewrite IHc, Hp, Hcur, shiftr_max_floor by lia. do 3 f_equal. cbn [length]. lia. }
  destruct Hc as [Hc0 Hc1]. split; [|split].
  - intros Hne. by apply Hmain.
  - destruct ts as [|t ts]; [done|]. by apply Hmain.
  - intros H64. destruct ts as [|t ts]; [cbn in H64; lia|].
    destruct (Hmain (t :: ts) v ltac:(done) Hmin ltac:(lia) Hsent Hn Hts) as [Hcur Hl]. unfold v2. rewrite Hl, Hcur.
    rewrite (Z.shiftr_eq_0 (current v)); [lia|lia|].
    assert (Z.log2 (current v) < 64); [|lia]. destruct (decide (current v = 0)) as [->|]; [done|]. apply Z.log2_lt_pow2; lia.
Qed.

(** At the most shares a minute the configuration accepts, the comment on
    [MAX_VARDIFF_TARGET_SHARES_MIN] says that the quotients a measured rate is compared
    with are still nonzero; but the measure is at least one millisecond, so a quotient of
    one is never undercut, and no rate raises the difficulty. *)
Theorem vardiff_bound_never_raises (v : Vardiff) (now : Z) :
  target_shares_min (params v) = MAX_VARDIFF_TARGET_SHARES_MIN -> 3 <= quickdiff_delta (params v) ->
  min (params v) <= current v -> 0 <= min (params v) ->
  (on_share_accepted v now).1 = false /\ current (on_share_accepted v now).2 <= current v /\
  current (adjust_on_notify v now) <= current v.
Proof.
  intros Ht Hd Hmin H0.
  assert (Z.shiftr (current v) 1 <= current v).
  { rewrite Z.shiftr_div_pow2 by lia. apply Z.div_le_upper_bound; lia. }
  assert (forall w ms, params w = params v -> current w = current v -> 1 <= ms ->
    current (adjust_to_rate w ms now) <= current v /\ (ms <? target_ms w / Z.max (quickdiff_delta (params w)) 1) = false) as Hrate.
  { intros w ms Hp Hc Hms. assert (target_ms w = 3) as Htm by (unfold target_ms; rewrite Hp, Ht; reflexivity). split.
    - unfold adjust_to_rate. rewrite Htm. destruct (_ <? ms); [cbn; rewrite Hp, Hc; lia|]. change (3 / RATE_TOLERANCE) with 1.
      rewrite (proj2 (Z.ltb_ge ms 1)), andb_false_r by lia. lia.
    - rewrite Htm, Hp. apply Z.ltb_ge. assert (3 / Z.max (quickdiff_delta (params v)) 1 <= 1); [|lia].
      apply Z.lt_succ_r, Z.div_lt_upper_bound; lia. }
  unfold on_share_accepted, adjust_on_share, adjust_on_notify. split_and!.
  3:{ destruct (change_pending v); [lia|]. destruct (_ =? 0); [destruct (_ <? _); [cbn|]; lia|].
      destruct (ms_per_share v now) as [ms|] eqn:E; [|lia]. apply ms_per_share_pos in E. by apply Hrate. }
  all: set (w := set_shares v _ _); destruct (_ || _); [cbn; lia || done|];
    destruct (ms_per_share w now) as [ms|] eqn:E; [|cbn; lia || done]; apply ms_per_share_pos in E;
    destruct (Hrate w ms eq_refl eq_refl E) as [Hr ->]; rewrite andb_false_r; cbn [fst snd]; done.
Qed.

(** ** An example *)

Definition example_params : VardiffParams := {| min := 16384; target_shares_min := 8; quickdiff_count := 8; quickdiff_delta := 8 |}.

(** A subscription, a job under the pool's minimum, eight shares in two seconds with the
    quickdiff notify they bring, and the next job. *)
Definition example_events : list vardiff_event :=
  [Subscribed 0; Notified 65536 (from_secs 1)] ++ replicate 7 (ShareAccepted (from_secs 2) None) ++
  [ShareAccepted (from_secs 2) (Some (65536, from_secs 2)); Notified 65536 (from_secs 3)].

Definition example_log : list served :=
  [Announced 16384; Announced 65536; Recorded 65536 65536; Announced 1048576; Recorded 65536 1048576; Recorded 65536 1048576].

Lemma miner_is_told_its_difficulty_witness :
  log (foldl serve (served_new example_params 0) example_events) = example_log /\
  last (announced_in (take 5 example_log)) = Some 1048576 /\ 16384 <= 1048576.
Proof.
  split; [vm_compute; reflexivity|].
  destruct (miner_is_told_its_difficulty example_params ltac:(by exists 14) 0 example_events (take 5 example_log) [] 65536 1048576)
    as (Hlast & _ & _ & _ & Hmin); [|vm_compute; reflexivity|].
  - repeat constructor; by exists 16.
  - split; [exact Hlast|]. apply Hmin. repeat constructor.
Defined.

Definition example_raised : Vardiff :=
  {| params := example_params; current := 2 ^ 30; last_sent := 2 ^ 30; quickdiff_active := false; quickdiff_value := 0;
     shares_since_snapshot := 0; snapshot_at := 0 |}.

Lemma silent_miner_is_lowered_witness :
  last_sent (notify_all example_raised 65536 (from_secs <$> [61; 122; 200])) = 2 ^ 27.
Proof.
  destruct (silent_miner_is_lowered example_raised 65536 (from_secs <$> [61; 122; 200])) as (Hcur & Hsent & _).
  - cbn. lia.
  - split; vm_compute; [discriminate|reflexivity].
  - reflexivity.
  - reflexivity.
  - repeat split; vm_compute; (discriminate || reflexivity).
  - rewrite Hsent, Hcur; [|discriminate]. vm_compute. reflexivity.
Defined.
