(* ===== verification/NotifyId.v ===== *)
(** The job id a [mining.notify] carries and a [mining.submit] names
    ([gateway/src/stratum/notify_id.rs]), and the fields of a submit that are written in
    hexadecimal ([parse_sia_field] of [stratum/connection/shares.rs]): their text, and the
    parser that takes them back. Text is its UTF-8 bytes. *)
From S2P Require Import Prelude Text Hex Header ShareMsg.

(** ** The ids *)

(** [CoinbaseKind] of [gateway/src/job.rs]. *)
Inductive CoinbaseKind := Pooled | SubsidyOnly.

#[export] Instance CoinbaseKind_eq_dec : EqDecision CoinbaseKind.
Proof. solve_decision. Defined.

Definition POOLED_WIRE_ID : Z := 1.
Definition wire_id (k : CoinbaseKind) : Z := match k with Pooled => POOLED_WIRE_ID | SubsidyOnly => COINBASE_ID_SUBSIDY_ONLY end.

Definition JOB_INDEX_XOR : Z := 0xC0DE.
Definition JOB_ID_TIME_CHARS : nat := 8.
Definition JOB_ID_CHARS : nat := 14.
Definition JOB_ID_INDEX_AT : nat := 10.
Definition NOTIFY_ID_CHARS : nat := JOB_ID_CHARS + 2.
Definition QUICKDIFF_PREFIX : byte := zb 0x51.
Definition EMPTY_WORK_PREFIX : byte := zb 0x4e.

Definition stratum_job_id (created_at slot : Z) : bytes :=
  hex_fixed 8 created_at ++ hex_fixed 2 slot ++ hex_fixed 4 (Z.lxor slot JOB_INDEX_XOR).

Definition slot_of (id : bytes) : option Z :=
  s ← str_get id JOB_ID_INDEX_AT JOB_ID_CHARS;
  raw ← from_str_radix16 16 s;
  let idx := Z.lxor raw JOB_INDEX_XOR in
  if MAX_JOBS <=? idx then None else Some idx.

Inductive NotifyPrefix := Plain | Quickdiff | EmptyWork.

#[export] Instance NotifyPrefix_eq_dec : EqDecision NotifyPrefix.
Proof. solve_decision. Defined.

Definition prefix_for (k : CoinbaseKind) : NotifyPrefix := match k with SubsidyOnly => EmptyWork | Pooled => Plain end.
Definition coinbase_of (p : NotifyPrefix) : CoinbaseKind := match p with Plain | Quickdiff => Pooled | EmptyWork => SubsidyOnly end.

Definition prefix_text (p : NotifyPrefix) : bytes :=
  match p with Plain => [] | Quickdiff => [QUICKDIFF_PREFIX] | EmptyWork => [EMPTY_WORK_PREFIX] end.

(** [notify_id] of the job with the stratum id [id]. *)
Definition notify_id (p : NotifyPrefix) (id : bytes) : bytes :=
  prefix_text p ++ id ++ hex_fixed 2 (wire_id (coinbase_of p)).

Record NotifyId := { id_slot : Z; id_prefix : NotifyPrefix }.

Definition parse_notify_id (s : bytes) : option (NotifyId * bytes) :=
  '(p, rest) ←
    (if (length s =? NOTIFY_ID_CHARS)%nat then Some (Plain, s)
     else if (length s =? S NOTIFY_ID_CHARS)%nat then
       match s with
       | b :: rest => if bool_decide (b = QUICKDIFF_PREFIX) then Some (Quickdiff, rest)
                      else if bool_decide (b = EMPTY_WORK_PREFIX) then Some (EmptyWork, rest) else None
       | [] => None
       end
     else None);
  id ← str_get rest 0 JOB_ID_CHARS;
  slot ← slot_of id;
  digits ← str_get rest JOB_ID_CHARS NOTIFY_ID_CHARS;
  coinbase_id ← from_str_radix16 8 digits;
  if negb (coinbase_id =? wire_id (coinbase_of p)) then None else
  Some ({| id_slot := slot; id_prefix := p |}, id).

Definition parse_sia_field (s : bytes) : option bytes :=
  if (length s =? 2 * SIA_WORDS_LEN)%nat then hex_decode s
  else if (length s =? 2 * SIA_WORD_LEN)%nat then (fun z => sia_words z 0) <$> from_str_radix16 32 s
  else None.

(** ** Round trips *)

Lemma job_id_ascii t s : Forall (fun b => bz b < 0x80) (stratum_job_id t s).
Proof. unfold stratum_job_id. rewrite !Forall_app. split_and!; apply below_128. Qed.

Lemma slot_of_job_id t s : uint 8 s -> slot_of (stratum_job_id t s) = Some s.
Proof.
  intros Hs. assert (uint 16 (Z.lxor s JOB_INDEX_XOR)) as Hx.
  { apply uint_lxor; [done| |by split]. unfold uint in *. lia. }
  unfold slot_of. pose proof (job_id_ascii t s) as Ha. unfold stratum_job_id in *. rewrite <- (app_nil_r (hex_fixed 4 _)), app_assoc in *.
  replace JOB_ID_INDEX_AT with (length (hex_fixed 8 t ++ hex_fixed 2 s)) by (by rewrite length_app, !length_hex_fixed).
  replace JOB_ID_CHARS with (length (hex_fixed 8 t ++ hex_fixed 2 s) + length (hex_fixed 4 (Z.lxor s JOB_INDEX_XOR)))%nat
    by (by rewrite length_app, !length_hex_fixed).
  rewrite str_get_ascii by done. cbn [mbind option_bind]. unfold uint in Hx.
  rewrite from_hex_fixed by (change (16 ^ Z.of_nat 4) with (2 ^ 16); lia). cbn [mbind option_bind].
  rewrite Z.lxor_assoc, Z.lxor_nilpotent, Z.lxor_0_r. unfold uint in Hs.
  by rewrite (proj2 (Z.leb_gt MAX_JOBS s)) by (unfold MAX_JOBS; lia).
Qed.

(** A submitted job id names what was notified: the parser gives back the slot, the
    prefix and the stratum id of every id a notify can carry, whatever the time and the
    slot of its job; and no id of one prefix reads as an id of another. *)
Theorem notify_id_roundtrip (p : NotifyPrefix) (created_at slot : Z) :
  uint 32 created_at -> uint 8 slot ->
  parse_notify_id (notify_id p (stratum_job_id created_at slot)) =
    Some ({| id_slot := slot; id_prefix := p |}, stratum_job_id created_at slot).
Proof.
  intros _ Hs. set (id := stratum_job_id created_at slot). set (tail := hex_fixed 2 (wire_id (coinbase_of p))).
  assert (length id = JOB_ID_CHARS) as Hid by (unfold id, stratum_job_id; by rewrite !length_app, !length_hex_fixed).
  assert (length tail = 2%nat) as Ht by apply length_hex_fixed.
  assert (0 <= wire_id (coinbase_of p) < 256) as Hw by (by destruct p).
  assert (parse_notify_id (notify_id p id) = (id2 ← str_get (id ++ tail) 0 JOB_ID_CHARS;
    slot ← slot_of id2; digits ← str_get (id ++ tail) JOB_ID_CHARS NOTIFY_ID_CHARS;
    coinbase_id ← from_str_radix16 8 digits;
    if negb (coinbase_id =? wire_id (coinbase_of p)) then None else Some ({| id_slot := slot; id_prefix := p |}, id2))) as ->.
  { unfold parse_notify_id, notify_id. fold tail. assert (length (id ++ tail) = NOTIFY_ID_CHARS) as Hl by (by rewrite length_app, Hid, Ht).
    destruct p; cbn [prefix_text app]; rewrite ?length_cons, Hl; reflexivity. }
  assert (Forall (fun b => bz b < 0x80) (id ++ tail)) as Ha by (apply Forall_app; split; [apply job_id_ascii|apply below_128]).
  pose proof (str_get_ascii [] id tail Ha) as E1. cbn [app length Nat.add] in E1. rewrite Hid in E1. rewrite E1. cbn [mbind option_bind].
  assert (slot_of id = Some slot) as -> by (by apply slot_of_job_id). cbn [mbind option_bind].
  pose proof (str_get_ascii id tail []) as E2. rewrite app_nil_r, Hid, Ht in E2.
  change (JOB_ID_CHARS + 2)%nat with NOTIFY_ID_CHARS in E2. rewrite E2 by done. cbn [mbind option_bind].
  unfold tail. rewrite from_hex_fixed by (change (16 ^ Z.of_nat 2) with 256; change (2 ^ 8) with 256; lia). cbn [mbind option_bind].
  by rewrite Z.eqb_refl.
Qed.

(** A field of words is read back from either width. *)
Lemma sia_field_read words : length words = SIA_WORDS_LEN -> parse_sia_field (hex_encode words) = Some words.
Proof.
  intros Hl. unfold parse_sia_field. rewrite length_hex_encode.
  by rewrite Hl, Nat.eqb_refl, hex_decode_encode.
Qed.

Lemma notify_id_roundtrip_witness :
  parse_notify_id (notify_id EmptyWork (stratum_job_id 0x6625a3d5 0x3c)) =
    Some ({| id_slot := 0x3c; id_prefix := EmptyWork |}, stratum_job_id 0x6625a3d5 0x3c).
Proof. apply notify_id_roundtrip; by split. Defined.
