(* ===== verification/Template.v ===== *)
(** The block template a node serves ([gateway/src/template.rs]): the fields a job is
    built from, read out of the node's JSON, the totals of its transactions, and the
    rules that refuse it. The JSON value is [serde_json]'s: a class of its accessors. *)
From S2P Require Import Prelude Json Hex Bitcoin Script Validation.

(** ** The template *)

Record Txn := { txn_raw : bytes; txn_txid : bytes; txn_witness_hash : bytes }.

Record TxnTotals := { total_fee : Z; total_weight : Z; total_size : Z; total_sigops : Z }.

Record Template := {
  tmpl_height : Z;
  tmpl_coinbase_value : Z;
  mintime : Z;
  curtime : Z;
  tmpl_sizelimit : Z;
  tmpl_weightlimit : Z;
  sigoplimit : Z;
  tmpl_version : Z;
  tmpl_nbits : Z;
  tmpl_prev_hash : bytes;
  tmpl_witness_commitment : bytes;
  blake2b_rule : bool;
  reduced_data : bool;
  txns : list Txn;
  totals : TxnTotals;
}.

Definition witness_hashes (t : Template) : list bytes := txn_witness_hash <$> txns t.

(** The reasons a template is refused, for the texts of [Refused]. *)
Inductive RefusedFor := MissingFee | FeesOverValue (fee : Z) | PayoutScriptTooLong (n : Z).
Inductive TemplateError := Field (key : json_key) | Refused (why : RefusedFor) | TooManyTxns.

Definition HASH_HEX_CHARS : nat * nat := (64, 64)%nat.
Definition BITS_HEX_CHARS : nat * nat := (8, 8)%nat.
Definition WITNESS_COMMITMENT_HEX_CHARS : nat * nat := (38, 95)%nat.

Section json.
Context `{!Json}.

Definition or_err {A} (o : option A) (e : TemplateError) : result TemplateError A :=
  match o with Some a => Ok a | None => Err e end.

Definition u64_field (v : value) (key : json_key) : result TemplateError Z :=
  match as_u64 (at_key v key) with
  | Some n => if negb (n =? 0) then Ok n else Err (Field key)
  | None => Err (Field key)
  end.

Definition str_field (v : value) (key : json_key) (len : nat * nat) : result TemplateError bytes :=
  match as_str (at_key v key) with
  | Some s => if (len.1 <=? length s)%nat && (length s <=? len.2)%nat then Ok s else Err (Field key)
  | None => Err (Field key)
  end.

Definition hash_field (v : value) (key : json_key) : result TemplateError bytes :=
  s ← str_field v key HASH_HEX_CHARS; or_err (hash_from_display_hex s) (Field key).

Definition rule_present (v : value) (rule : bytes) : bool :=
  match as_array (at_key v "rules") with
  | Some a => existsb (fun r => bool_decide (as_str r = Some rule)) a
  | None => false
  end.

(** The sums so far, in 64 bits. *)
Record Sums := { sum_fee : Z; sum_weight : Z; sum_size : Z; sum_sigops : Z }.

Definition decode_txn (t : value) (s : Sums) : result TemplateError (Txn * Sums) :=
  txid ← hash_field t "txid";
  witness_hash ← hash_field t "hash";
  fee ← match as_i64 (at_key t "fee") with
        | Some f => if 0 <=? f then Ok (wrap 64 (sum_fee s + f)) else Err (Refused MissingFee)
        | None => Err (Refused MissingFee)
        end;
  let sigops := wrap 64 (sum_sigops s + default 0 (as_u64 (at_key t "sigops"))) in
  let weight := wrap 64 (sum_weight s + default 0 (as_u64 (at_key t "weight"))) in
  data ← or_err (as_str (at_key t "data")) (Field "data");
  raw ← or_err (hex_decode data) (Field "data");
  Ok ({| txn_raw := raw; txn_txid := txid; txn_witness_hash := witness_hash |},
      {| sum_fee := fee; sum_weight := weight; sum_size := wrap 64 (sum_size s + zlen raw); sum_sigops := sigops |}).

Fixpoint decode_txns (l : list value) (s : Sums) : result TemplateError (list Txn * Sums) :=
  match l with
  | [] => Ok ([], s)
  | t :: l =>
    '(txn, s) ← decode_txn t s;
    '(rest, s) ← decode_txns l s;
    Ok (txn :: rest, s)
  end.

Definition RULE_BLAKE2B : bytes := String.list_byte_of_string "!blake2b".
Definition RULE_REDUCED_DATA : bytes := String.list_byte_of_string "reduced_data".

Definition decode_template (v : value) : result TemplateError Template :=
  height ← u64_field v "height";
  coinbase_value ← u64_field v "coinbasevalue";
  mintime ← u64_field v "mintime";
  sigoplimit ← u64_field v "sigoplimit";
  curtime ← u64_field v "curtime";
  sizelimit ← u64_field v "sizelimit";
  weightlimit ← u64_field v "weightlimit";
  version ← u64_field v "version";
  bits ← str_field v "bits" BITS_HEX_CHARS;
  wc_hex ← str_field v "default_witness_commitment" WITNESS_COMMITMENT_HEX_CHARS;
  witness_commitment ← or_err (hex_decode wc_hex) (Field "default_witness_commitment");
  nbits ← or_err (from_str_radix16 32 bits) (Field "bits");
  prev_hash ← hash_field v "previousblockhash";
  list ← or_err (as_array (at_key v "transactions")) (Field "transactions");
  _ ← ensure (zlen list <=? MAX_SHORT_LIST_TXNS) TooManyTxns;
  '(txns, s) ← decode_txns list {| sum_fee := 0; sum_weight := 0; sum_size := 0; sum_sigops := 0 |};
  _ ← ensure (sum_fee s <=? coinbase_value) (Refused (FeesOverValue (sum_fee s)));
  Ok {| tmpl_height := wrap 32 height; tmpl_coinbase_value := coinbase_value; mintime := mintime; curtime := curtime;
        tmpl_sizelimit := sizelimit; tmpl_weightlimit := weightlimit; sigoplimit := sigoplimit;
        tmpl_version := wrap 32 version; tmpl_nbits := nbits; tmpl_prev_hash := prev_hash;
        tmpl_witness_commitment := witness_commitment; blake2b_rule := rule_present v RULE_BLAKE2B;
        reduced_data := rule_present v RULE_REDUCED_DATA; txns := txns;
        totals := {| total_fee := sum_fee s; total_weight := wrap 32 (sum_weight s); total_size := wrap 32 (sum_size s);
                     total_sigops := wrap 32 (sum_sigops s) |} |}.

Definition parse_template (v : value) (payout_script : bytes) : result TemplateError Template :=
  t ← decode_template v;
  if reduced_data t && negb (output_script_size_is_valid payout_script)
  then Err (Refused (PayoutScriptTooLong (zlen payout_script))) else Ok t.

(** ** What a decoded template is *)

Record template_wf (t : Template) : Prop := {
  tw_height : uint 32 (tmpl_height t);
  tw_value : 1 <= tmpl_coinbase_value t < 2 ^ 64;
  tw_curtime : 1 <= curtime t < 2 ^ 64;
  tw_version : uint 32 (tmpl_version t);
  tw_nbits : uint 32 (tmpl_nbits t);
  tw_prev_hash : length (tmpl_prev_hash t) = 32%nat;
  tw_commitment : (length (tmpl_witness_commitment t) < 48)%nat;
  tw_txns : zlen (txns t) <= MAX_SHORT_LIST_TXNS;
  tw_txids : Forall (fun x => length (txn_txid x) = 32%nat) (txns t);
  tw_limits : uint 64 (tmpl_sizelimit t) /\ uint 64 (tmpl_weightlimit t) /\ uint 64 (sigoplimit t);
  tw_fee : 0 <= total_fee (totals t) <= tmpl_coinbase_value t;
  tw_totals : uint 32 (total_weight (totals t)) /\ uint 32 (total_size (totals t)) /\ uint 32 (total_sigops (totals t));
}.

Lemma or_err_inv {A} (o : option A) e a : or_err o e = Ok a -> o = Some a.
Proof. destruct o; [by intros [= ->]|done]. Qed.

Lemma length_hex_decode s l : hex_decode s = Some l -> length s = (2 * length l)%nat.
Proof.
  revert l. induction s as [s IH] using (induction_ltof1 _ length). unfold ltof in IH. destruct s as [|x [|y s]]; intros l; cbn.
  - by intros [= <-].
  - done.
  - destruct (hex_value x), (hex_value y); try done. cbn. destruct (hex_decode s) as [k|] eqn:E; [|done]. cbn.
    intros [= <-]. cbn. rewrite (IH s) with (l := k); [lia|cbn; lia|done].
Qed.

Lemma hash_field_length v key h : hash_field v key = Ok h -> length h = 32%nat.
Proof.
  unfold hash_field. destruct (str_field v key _) as [s|]; [|done]. cbn. intros Hh%or_err_inv. revert Hh.
  unfold hash_from_display_hex, display_hex_bytes. destruct (hex_decode s) as [d|]; [|done]. cbn.
  destruct (_ =? _)%nat eqn:E; [|done]. intros [= <-]. apply Nat.eqb_eq in E. unfold reversed. by rewrite length_reverse.
Qed.

Lemma str_field_length v key lo hi s : str_field v key (lo, hi) = Ok s -> (lo <= length s <= hi)%nat.
Proof.
  unfold str_field. destruct (as_str _) as [x|]; [|done]. destruct (_ && _) eqn:E; [|done]. intros [= <-].
  by apply andb_true_iff in E as [?%Nat.leb_le ?%Nat.leb_le].
Qed.

Lemma from_radix_range w s n : from_str_radix16 w s = Some n -> n < 2 ^ w.
Proof.
  unfold from_str_radix16. destruct s as [|b r]; [done|]. destruct (hex_number 0 _) as [z|]; [|done]. cbn.
  destruct (Z.ltb_spec z (2 ^ w)); [|done]. by intros [= <-].
Qed.

Lemma hex_value_range b d : hex_value b = Some d -> 0 <= d < 16.
Proof.
  unfold hex_value. repeat case_match; try done; intros [= <-];
    repeat match goal with H : _ && _ = true |- _ => apply andb_true_iff in H as [?%Z.leb_le ?%Z.leb_le] end; lia.
Qed.

Lemma hex_number_nonneg s acc n : 0 <= acc -> hex_number acc s = Some n -> 0 <= n.
Proof.
  revert acc. induction s as [|b s IH]; intros acc Ha; cbn; [by intros [= <-]|]. destruct (hex_value b) as [d|] eqn:E; [|done].
  cbn. apply hex_value_range in E. apply IH. lia.
Qed.

Lemma from_radix_nonneg w s n : from_str_radix16 w s = Some n -> 0 <= n.
Proof.
  unfold from_str_radix16. destruct s as [|b r]; [done|]. destruct (hex_number 0 _) as [z|] eqn:E; [|done]. cbn.
  destruct (z <? 2 ^ w); [|done]. intros [= <-]. by apply hex_number_nonneg in E.
Qed.

Lemma decode_txns_spec l : forall s out s2, decode_txns l s = Ok (out, s2) ->
  length out = length l /\ Forall (fun x => length (txn_txid x) = 32%nat) out /\
  (uint 64 (sum_fee s) -> uint 64 (sum_fee s2)).
Proof.
  induction l as [|t l IH]; intros s out s2; cbn; [by intros [= <- <-]|].
  destruct (decode_txn t s) as [[txn s1]|] eqn:E; [|done]. cbn. destruct (decode_txns l s1) as [[rest s3]|] eqn:E2; [|done]. cbn.
  intros [= <- <-]. destruct (IH _ _ _ E2) as (Hl & Hf & Hu). unfold decode_txn in E.
  destruct (hash_field t "txid") as [txid|] eqn:Et; [|done]. cbn in E. destruct (hash_field t "hash") as [wh|]; [|done]. cbn in E.
  destruct (match as_i64 (at_key t "fee") with Some f => _ | None => _ end) as [fee|] eqn:Ef; [|done]. cbn in E.
  destruct (or_err (as_str _) _) as [d|]; [|done]. cbn in E. destruct (or_err (hex_decode d) _) as [raw|]; [|done]. cbn in E.
  injection E as <- <-. split; [cbn; by rewrite Hl|]. split; [constructor; [by apply hash_field_length in Et|done]|].
  intros _. apply Hu. cbn. destruct (as_i64 _) as [f|]; [|done]. destruct (0 <=? f); [|done]. injection Ef as <-. apply uint_wrap. lia.
Qed.

Lemma u64_field_range `{!JsonLaws} v key n : u64_field v key = Ok n -> 1 <= n < 2 ^ 64.
Proof.
  unfold u64_field. destruct (as_u64 _) as [x|] eqn:E; [|done]. apply as_u64_range in E. unfold uint in E.
  destruct (Z.eqb_spec x 0); [done|]. intros [= <-]. lia.
Qed.

(** What [parse_template] gives is well formed, its fees within its coinbase value, and
    pays the script it was checked with where the rule on scripts is in force. *)
Lemma parse_template_wf `{!JsonLaws} v payout_script t : parse_template v payout_script = Ok t ->
  template_wf t /\ (reduced_data t = true -> output_script_size_is_valid payout_script = true).
Proof.
  unfold parse_template. destruct (decode_template v) as [t0|] eqn:E; [|done]. cbn.
  destruct (reduced_data t0 && _) eqn:Er; [done|]. intros [= <-]. split.
  2:{ intros Hr. rewrite Hr in Er. by apply negb_false_iff in Er. }
  revert E. unfold decode_template.
  repeat match goal with
  | |- context [u64_field v ?k] => destruct (u64_field v k) as [?|] eqn:?; [|done]; cbn [mbind result_bind]
  end.
  destruct (str_field v "bits" _) as [bits|] eqn:Eb; [|done]. cbn [mbind result_bind].
  destruct (str_field v "default_witness_commitment" _) as [wc|] eqn:Ew; [|done]. cbn [mbind result_bind].
  destruct (or_err (hex_decode wc) _) as [commitment|] eqn:Ec; [|done]. cbn [mbind result_bind].
  destruct (or_err (from_str_radix16 32 bits) _) as [nbits|] eqn:En; [|done]. cbn [mbind result_bind].
  destruct (hash_field v "previousblockhash") as [prev|] eqn:Ep; [|done]. cbn [mbind result_bind].
  destruct (or_err (as_array _) _) as [l|]; [|done]. cbn [mbind result_bind].
  unfold ensure. destruct (Z.leb_spec (zlen l) MAX_SHORT_LIST_TXNS); [|done]. cbn [mbind result_bind].
  destruct (decode_txns l _) as [[out s]|] eqn:Ed; [|done]. cbn [mbind result_bind].
  match goal with |- context [sum_fee s <=? ?c] => destruct (Z.leb_spec (sum_fee s) c); [|done] end. cbn [mbind result_bind]. intros [= <-].
  apply decode_txns_spec in Ed as (Hl & Hf & Hu). apply or_err_inv in Ec, En. apply length_hex_decode in Ec.
  apply str_field_length in Ew. pose proof (from_radix_range _ _ _ En). pose proof (from_radix_nonneg _ _ _ En).
  apply hash_field_length in Ep. specialize (Hu ltac:(done)).
  repeat match goal with H : u64_field _ _ = Ok _ |- _ => apply u64_field_range in H end. unfold uint in *.
  constructor; cbn; unfold uint; try done; try lia; try (split_and!; apply uint_wrap; lia); try (apply uint_wrap; lia).
  unfold zlen in *. lia.
Qed.

End json.
