(* ===== verification/GatewayAbw.v ===== *)
(** The gateway's end of anti-block-withholding ([gateway/src/datum/abw.rs] and
    [datum/session/assignments.rs]): the commitments it holds, the messages that change
    them, and the two ends of one session in step with what is in flight between them. An
    index the code panics on is none. *)
From S2P Require Import Prelude Reader Bitcoin Header Messages AbwMsg AbwSlots.

Record AbwAssignment := { assigned_slot : Z; assigned_key_hash : bytes }.

#[export] Instance AbwAssignment_eq_dec : EqDecision AbwAssignment.
Proof. solve_decision. Defined.

Record AbwAssignments := { key_hashes : list (option bytes); active_slot : option Z }.

Definition assignments_default : AbwAssignments := {| key_hashes := replicate SLOTS None; active_slot := None |}.

(** [self.key_hashes[slot as usize]]. *)
Definition hash_at (g : AbwAssignments) (slot : Z) : option (option bytes) := key_hashes g !! Z.to_nat slot.

Definition set_hash (g : AbwAssignments) (slot : Z) (h : option bytes) (act : option Z) : AbwAssignments :=
  {| key_hashes := <[Z.to_nat slot := h]> (key_hashes g); active_slot := act |}.

Definition assignment (g : AbwAssignments) : option (option AbwAssignment) :=
  match active_slot g with
  | None => Some None
  | Some slot =>
    held ← hash_at g slot;
    Some ((fun h : bytes => {| assigned_slot := slot; assigned_key_hash := h |}) <$> (held : option bytes))
  end.

Definition holds (g : AbwAssignments) (a : AbwAssignment) : option bool :=
  held ← hash_at g (assigned_slot a); Some (bool_decide (held = Some (assigned_key_hash a))).

Definition install (g : AbwAssignments) (slot : Z) (key_hash : bytes) (is_active : bool) : option AbwAssignments :=
  _ ← hash_at g slot;
  Some (set_hash g slot (Some key_hash) (if is_active then Some slot else active_slot g)).

Definition activate (g : AbwAssignments) (slot : Z) : option (AbwAssignments * bool) :=
  held ← hash_at g slot;
  Some (if is_some held then ({| key_hashes := key_hashes g; active_slot := Some slot |}, true) else (g, false)).

Section handlers.
Context `{Digests}.

Definition reveal_key (g : AbwAssignments) (slot : Z) (xor_key : bytes) : option (AbwAssignments * bool) :=
  held ← hash_at g slot;
  Some (
    if match held with Some hash => negb (bool_decide (xor_key_hash xor_key = hash)) | None => false end then (g, false)
    else (set_hash g slot None (if bool_decide (active_slot g = Some slot) then None else active_slot g), true)).

(** What a handler made of a message, and whether it asks for a job on the same tip. *)
Inductive AbwHandled := Handled (refresh : bool) | Malformed | Ignored | NotAbw.

Definition on_abw_notice (g : AbwAssignments) (plain : bytes) : option (AbwAssignments * AbwHandled) :=
  match decode_notice plain with
  | Err _ => Some (g, Malformed)
  | Ok n => g ← install g (notice_slot n) (notice_key_hash n) (AbwMsg.active n); Some (g, Handled (AbwMsg.active n))
  end.

Definition on_abw_activation (g : AbwAssignments) (plain : bytes) : option (AbwAssignments * AbwHandled) :=
  match decode_activation plain with
  | Err _ => Some (g, Malformed)
  | Ok slot => '(g, ok) ← activate g slot; Some (g, if (ok : bool) then Handled true else Ignored)
  end.

Definition on_abw_reveal (g : AbwAssignments) (plain : bytes) : option (AbwAssignments * AbwHandled) :=
  match decode_reveal plain with
  | Err _ => Some (g, Malformed)
  | Ok r => '(g, ok) ← reveal_key g (reveal_slot r) (reveal_xor_key r); Some (g, if (ok : bool) then Handled false else Ignored)
  end.

(** The arms of [on_mining] for these messages. *)
Definition on_abw_message (g : AbwAssignments) (plain : bytes) : option (AbwAssignments * AbwHandled) :=
  match plain with
  | [] => Some (g, NotAbw)
  | b :: _ =>
    if bz b =? subcmd.ASSIGNMENT_NOTICE then on_abw_notice g plain
    else if bz b =? subcmd.ACTIVATION then on_abw_activation g plain
    else if bz b =? subcmd.REVEAL then on_abw_reveal g plain
    else Some (g, NotAbw)
  end.

(** Every message understood, in order. *)
Fixpoint receive (g : AbwAssignments) (msgs : list bytes) : option AbwAssignments :=
  match msgs with
  | [] => Some g
  | m :: msgs => match on_abw_message g m with Some (g, Handled _) => receive g msgs | _ => None end
  end.

(** ** The two ends of a session

    The pool's session, the gateway's commitments and the messages sent and not yet
    received, in order. A new connection starts the gateway over and opens with the
    session's notices. *)

Record Wire := { pool : Session; gw : AbwAssignments; in_flight : list bytes }.

Definition pool_moves (w : Wire) (s : Session) (msgs : list bytes) : Wire :=
  {| pool := s; gw := gw w; in_flight := in_flight w ++ msgs |}.

Definition wire_open (now : Z) (key : bytes) : Wire :=
  {| pool := session_start now key; gw := assignments_default; in_flight := notices (start now key) |}.

Definition after_rotation (s : Session) (now : Z) (key : bytes) : Session :=
  let '(rs, a) := rotate (abw s) now key in
  {| abw := a; clock := now; used := key :: used s;
     retirements := ((now,.) <$> option_list (secret_key (slot_at (abw s) (active (abw s))))) ++ retirements s;
     sent := sent s ++ ((now,.) <$> rs); made_public := made_public s |}.

Definition after_reveals (s : Session) (now : Z) : Session :=
  let '(rs, a) := reveals_due (abw s) now in
  {| abw := a; clock := now; used := used s; retirements := retirements s;
     sent := sent s ++ ((now,.) <$> rs); made_public := made_public s |}.

Definition with_abw (s : Session) (a : AbwSlotState) (now : Z) (public : list bytes) : Session :=
  {| abw := a; clock := now; used := used s; retirements := retirements s; sent := sent s; made_public := public |}.

Inductive wire_step (w : Wire) : Wire -> Prop :=
| wire_share :
    wire_step w (pool_moves w (with_abw (pool w) (note_share (abw (pool w))) (clock (pool w)) (made_public (pool w))) [])
| wire_published slot :
    wire_step w (pool_moves w (with_abw (pool w) (note_published (abw (pool w)) slot).2 (clock (pool w))
      (option_list (slots (abw (pool w)) !! Z.to_nat slot ≫= secret_key) ++ made_public (pool w))) [])
| wire_tip now : clock (pool w) <= now ->
    wire_step w (pool_moves w (with_abw (pool w) (note_tip (abw (pool w)) now).2 now (made_public (pool w))) [])
| wire_rotate seen now key : clock (pool w) <= seen <= now -> rotation_due (abw (pool w)) seen <> None ->
    key ∉ used (pool w) -> length key = 16%nat ->
    let a := (rotate (abw (pool w)) now key).2 in
    wire_step w (pool_moves w (after_rotation (pool w) now key)
      ((reveal_payload <$> (rotate (abw (pool w)) now key).1) ++ option_list (notice a (active a) true)))
| wire_reveals now : clock (pool w) <= now ->
    wire_step w (pool_moves w (after_reveals (pool w) now) (reveal_payload <$> (reveals_due (abw (pool w)) now).1))
| wire_reopen closed_at opened_at : clock (pool w) <= closed_at ->
    let a := connect (resume (abw (pool w)) closed_at) opened_at in
    wire_step w {| pool := with_abw (pool w) a closed_at (made_public (pool w)); gw := assignments_default;
                   in_flight := notices a |}
| wire_deliver m rest g handled : in_flight w = m :: rest -> on_abw_message (gw w) m = Some (g, handled) ->
    wire_step w {| pool := pool w; gw := g; in_flight := rest |}.

Inductive wired (now0 : Z) (key0 : bytes) : Wire -> Prop :=
| wired_open : wired now0 key0 (wire_open now0 key0)
| wired_step w w2 : wired now0 key0 w -> wire_step w w2 -> wired now0 key0 w2.

(** ** In step *)

Definition keys16 (a : AbwSlotState) : Prop := forall i k, slot_key (slot_at a i) = Some k -> length k = 16%nat.

Record in_step (a : AbwSlotState) (g : AbwAssignments) : Prop := {
  is_length : length (key_hashes g) = SLOTS;
  is_active : active_slot g = Some (Z.of_nat (active a));
  is_hashes : forall i, (i < SLOTS)%nat -> key_hashes g !! i = Some (xor_key_hash <$> secret_key (slot_at a i));
}.

Lemma receive_app g l k : receive g (l ++ k) = (g2 ← receive g l; receive g2 k).
Proof. revert g. induction l as [|m l IH]; intros g; [done|]. cbn. destruct (on_abw_message g m) as [[? []]|]; done. Qed.

Lemma slot_ok_nat i : (i < SLOTS)%nat -> slot_ok (Z.of_nat i).
Proof. unfold SLOTS, slot_ok. change (Z.to_nat ASSIGNMENT_SLOTS) with 16%nat. unfold ASSIGNMENT_SLOTS. lia. Qed.

Lemma on_notice_message g i kh act : (i < SLOTS)%nat -> length (key_hashes g) = SLOTS -> length kh = 32%nat ->
  on_abw_message g (encode_notice {| AbwMsg.active := act; notice_slot := Z.of_nat i; notice_key_hash := kh |}) =
    Some (set_hash g (Z.of_nat i) (Some kh) (if act then Some (Z.of_nat i) else active_slot g), Handled act).
Proof.
  intros Hi Hl Hk. unfold on_abw_message, encode_notice, message. cbn [app].
  change (bz (zb subcmd.ASSIGNMENT_NOTICE) =? subcmd.ASSIGNMENT_NOTICE) with true. cbn iota. unfold on_abw_notice.
  match goal with |- context [decode_notice ?d] => change d with
    (encode_notice {| AbwMsg.active := act; notice_slot := Z.of_nat i; notice_key_hash := kh |}) end.
  rewrite decode_encode_notice by (by try apply slot_ok_nat). unfold install, hash_at. cbn [notice_slot notice_key_hash AbwMsg.active].
  rewrite Nat2Z.id. destruct (lookup_lt_is_Some_2 (key_hashes g) i ltac:(lia)) as [x ->]. done.
Qed.

Lemma on_reveal_message g i k h : (i < SLOTS)%nat -> length k = 16%nat -> key_hashes g !! i = Some h ->
  h = Some (xor_key_hash k) \/ h = None -> active_slot g <> Some (Z.of_nat i) ->
  on_abw_message g (encode_reveal {| reveal_slot := Z.of_nat i; reveal_xor_key := k |}) =
    Some (set_hash g (Z.of_nat i) None (active_slot g), Handled false).
Proof.
  intros Hi Hk Hh Hcase Hact. unfold on_abw_message, encode_reveal, message. cbn [app].
  change (bz (zb subcmd.REVEAL) =? subcmd.ASSIGNMENT_NOTICE) with false. change (bz (zb subcmd.REVEAL) =? subcmd.ACTIVATION) with false.
  change (bz (zb subcmd.REVEAL) =? subcmd.REVEAL) with true. cbn iota. unfold on_abw_reveal.
  match goal with |- context [decode_reveal ?d] => change d with
    (encode_reveal {| reveal_slot := Z.of_nat i; reveal_xor_key := k |}) end.
  rewrite decode_encode_reveal by (by try apply slot_ok_nat). unfold reveal_key, hash_at. cbn [reveal_slot reveal_xor_key].
  rewrite Nat2Z.id, Hh. cbn [mbind option_bind]. rewrite (bool_decide_eq_false_2 (active_slot g = _)) by done.
  destruct Hcase as [->| ->]; [|done]. by rewrite bool_decide_eq_true_2.
Qed.

Lemma in_step_set a g i x h : in_step a g -> length (slots a) = SLOTS -> (i < SLOTS)%nat ->
  h = xor_key_hash <$> secret_key x ->
  in_step (set_slot a i x) (set_hash g (Z.of_nat i) h (active_slot g)).
Proof.
  intros [Hl Ha Hh] Hs Hi ->. split; cbn; [by rewrite length_insert|done|]. intros j Hj. rewrite slot_at_set by lia. rewrite Nat2Z.id.
  case_decide as E; [subst j; apply list_lookup_insert_eq; lia|]. rewrite list_lookup_insert_ne by done. by apply Hh.
Qed.

(** What a reveal tells the gateway is what it left at the pool. *)
Lemma receive_reveal a g i : slots_ok a -> keys16 a -> in_step a g ->
  exists g2, receive g (reveal_payload <$> option_list (reveal a i).1) = Some g2 /\ in_step (reveal a i).2 g2.
Proof.
  intros Hs Hk Hg. unfold reveal.
  assert (forall k r, (slot_at a i = Revealed k r \/ exists t o, slot_at a i = Retired k t o) -> exists g2,
    receive g [encode_reveal {| reveal_slot := Z.of_nat i; reveal_xor_key := k |}] = Some g2 /\
    in_step (set_slot a i (Revealed k None)) g2) as Hsend.
  { intros k r Hslot. assert (slot_key (slot_at a i) = Some k) as Hkey by (destruct Hslot as [->|(?&?&->)]; done).
    pose proof (slot_key_lt _ _ _ Hs Hkey) as Hi. pose proof (is_hashes _ _ Hg i Hi) as Hh.
    destruct (active_seeded _ Hs) as [k0 Hact]. eexists. split.
    - cbn [receive]. rewrite (on_reveal_message g i k _ Hi (Hk _ _ Hkey) Hh); [reflexivity| |].
      + destruct Hslot as [->|(?&?&->)]; [by right|by left].
      + rewrite (is_active _ _ Hg). intros [= E]. apply Nat2Z.inj in E. subst i. rewrite Hact in Hslot.
        by destruct Hslot as [|(?&?&?)].
    - apply in_step_set; [done|apply Hs|done|done]. }
  destruct (slot_at a i) as [|k|k t o|k [t|]] eqn:E; cbn [fst snd option_list fmap list_fmap reveal_payload];
    try (by exists g).
  - apply (Hsend k None). right. by eexists _, _.
  - apply (Hsend k (Some t)). by left.
Qed.

Lemma reveal_keeps a i : slots_ok a -> keys16 a -> slots_ok (reveal a i).2 /\ keys16 (reveal a i).2 /\ active (reveal a i).2 = active a.
Proof.
  intros Hs Hk. destruct (reveal_cases a i) as [->|(k & r & -> & _ & Hkey & Hcase)]; cbn [snd]; [done|].
  pose proof (slot_key_lt _ _ _ Hs Hkey) as Hi. split; [|split; [|done]].
  - apply slots_ok_set; try done; [|by intros k' [= <-]]. destruct (active_seeded _ Hs) as [k0 Hact]. intros ->. rewrite Hact in Hcase.
    by destruct Hcase as [(?&?&?)|(?&?)].
  - intros j k'. rewrite slot_at_set by (rewrite (len_slots _ Hs); lia). case_decide; [intros [= <-]; by eapply Hk|apply Hk].
Qed.

Lemma receive_reveal_all l : forall a g, slots_ok a -> keys16 a -> in_step a g ->
  exists g2, receive g (reveal_payload <$> (reveal_all a l).1) = Some g2 /\ in_step (reveal_all a l).2 g2.
Proof.
  induction l as [|i l IH]; intros a g Hs Hk Hg; cbn [reveal_all]; [by exists g|].
  destruct (receive_reveal a g i Hs Hk Hg) as (g1 & H1 & Hg1). destruct (reveal_keeps a i Hs Hk) as (Hs1 & Hk1 & _).
  destruct (reveal a i) as [r a1]; cbn [fst snd] in *. destruct (IH a1 g1 Hs1 Hk1 Hg1) as (g2 & H2 & Hg2).
  destruct (reveal_all a1 l) as [rs a2]; cbn [fst snd] in *. exists g2. split; [|done]. by rewrite fmap_app, receive_app, H1.
Qed.

Lemma length_xor_key_hash k : length (xor_key_hash k) = 32%nat.
Proof. apply length_tagged_sha256. Qed.

(** The retired slots of a session's notices, told to a gateway that starts over. *)
Lemma receive_retired a l : forall g, length (key_hashes g) = SLOTS -> Forall (fun i => (i < SLOTS)%nat /\ is_retired (slot_at a i) = true) l ->
  exists g2, receive g (omap (fun i => notice a i false) l) = Some g2 /\ length (key_hashes g2) = SLOTS /\
    active_slot g2 = active_slot g /\
    forall i, (i < SLOTS)%nat -> key_hashes g2 !! i = if decide (i ∈ l) then Some (xor_key_hash <$> secret_key (slot_at a i)) else key_hashes g !! i.
Proof.
  induction l as [|i l IH]; intros g Hl Hr; [exists g; split_and!; try done; intros; by rewrite decide_False by apply not_elem_of_nil|].
  apply Forall_cons in Hr as [[Hi Hret] Hr]. destruct (slot_at a i) as [| |k t o|] eqn:E; try done.
  cbn [omap list_omap]. unfold notice at 1. rewrite E. cbn [secret_key fmap option_fmap option_map receive].
  rewrite on_notice_message by (try done; apply length_xor_key_hash).
  destruct (IH (set_hash g (Z.of_nat i) (Some (xor_key_hash k)) (active_slot g))) as (g2 & H2 & Hl2 & Ha2 & Hh2).
  { cbn. by rewrite length_insert. } { done. }
  exists g2. split_and!; [exact H2|done|done|]. intros j Hj. rewrite Hh2 by done. cbn [key_hashes set_hash]. rewrite Nat2Z.id.
  destruct (decide (j ∈ l)) as [Hin|Hin]; [by rewrite decide_True by (by right)|].
  destruct (decide (j = i)) as [->|Hne].
  - rewrite decide_True by (by left). rewrite list_lookup_insert_eq by lia. by rewrite E.
  - rewrite decide_False by (by intros [|]%elem_of_cons). by rewrite list_lookup_insert_ne.
Qed.

Lemma receive_notices a : slots_ok a -> exists g, receive assignments_default (notices a) = Some g /\ in_step a g.
Proof.
  intros Hs. unfold notices. set (l := List.filter _ _).
  assert (Forall (fun i => (i < SLOTS)%nat /\ is_retired (slot_at a i) = true) l) as Hl.
  { apply Forall_forall. intros i [Hin Hr]%list_elem_of_In%filter_In. apply in_seq in Hin. split; [lia|done]. }
  destruct (receive_retired a l assignments_default ltac:(apply length_replicate) Hl) as (g & Hg & Hlen & _ & Hh).
  destruct (active_seeded _ Hs) as [k Hact]. pose proof (active_lt _ Hs) as Hal. unfold notice at 2. rewrite Hact.
  cbn [secret_key fmap option_fmap option_map option_list]. rewrite receive_app, Hg. cbn [mbind option_bind receive option_list].
  change (option_list (Some ?x)) with [x]. cbn [receive].
  rewrite on_notice_message by (try done; apply length_xor_key_hash). eexists. split; [reflexivity|].
  split; cbn [key_hashes active_slot set_hash]; [by rewrite length_insert|done|]. intros i Hi. rewrite Nat2Z.id.
  destruct (decide (i = active a)) as [->|Hne]; [rewrite list_lookup_insert_eq by lia; by rewrite Hact|].
  rewrite list_lookup_insert_ne, Hh by done. destruct (decide (i ∈ l)) as [|Hin]; [done|].
  cbn [assignments_default key_hashes]. rewrite lookup_replicate_2 by done.
  assert (is_retired (slot_at a i) = false) as Hr.
  { apply not_true_iff_false. intros Hr. apply Hin, list_elem_of_In, filter_In. split; [apply in_seq; lia|done]. }
  destruct (slot_at a i) as [|k'| |] eqn:E; try done. exfalso. apply Hne. by eapply seeded_active.
Qed.

Lemma in_step_same_keys a b g : active a = active b -> (forall i, secret_key (slot_at a i) = secret_key (slot_at b i)) ->
  in_step a g -> in_step b g.
Proof. intros Ha Hk [Hl Hact Hh]. split; [done|congruence|]. intros i Hi. rewrite <- Hk. by apply Hh. Qed.

(** ** The invariant *)

Record wire_ok (w : Wire) : Prop := {
  wo_session : session_ok (pool w);
  wo_keys : keys16 (abw (pool w));
  wo_step : exists g, receive (gw w) (in_flight w) = Some g /\ in_step (abw (pool w)) g;
}.

Lemma receive_more w s msgs g2 g : receive (gw w) (in_flight w) = Some g -> receive g msgs = Some g2 ->
  receive (gw (pool_moves w s msgs)) (in_flight (pool_moves w s msgs)) = Some g2.
Proof. intros H1 H2. cbn. by rewrite receive_app, H1. Qed.

Lemma keys16_set a i x : keys16 a -> (i < length (slots a))%nat -> (forall k, slot_key x = Some k -> length k = 16%nat) ->
  keys16 (set_slot a i x).
Proof. intros Hk Hi Hx j k. rewrite slot_at_set by done. case_decide; [apply Hx|apply Hk]. Qed.

Lemma keys16_same a b : (forall i, slot_key (slot_at b i) = slot_key (slot_at a i)) -> keys16 a -> keys16 b.
Proof. intros E Hk i k. rewrite E. apply Hk. Qed.

Lemma reveal_all_keeps l : forall a, slots_ok a -> keys16 a -> keys16 (reveal_all a l).2.
Proof.
  induction l as [|i l IH]; intros a Hs Hk; [done|]. cbn [reveal_all]. destruct (reveal_keeps a i Hs Hk) as (Hs1 & Hk1 & _).
  destruct (reveal a i) as [r a1]; cbn [fst snd] in *. specialize (IH a1 Hs1 Hk1). by destruct (reveal_all a1 l).
Qed.

(** The slots after a rotation: the next one seeded, the active one retired. *)
Lemma in_step_turned s now key g : slots_ok (abw s) -> keys16 (abw s) -> length key = 16%nat -> in_step (abw s) g ->
  let a := seed (retire_active (abw s) now) (next_slot (abw s)) key in
  keys16 a /\ in_step a (set_hash g (Z.of_nat (next_slot (abw s))) (Some (xor_key_hash key)) (Some (Z.of_nat (next_slot (abw s))))).
Proof.
  intros Hs Hk Hkey [Hl Ha Hh]. destruct (active_seeded _ Hs) as [k0 Hact]. destruct (next_slot_ok _ Hs) as [Hn _].
  destruct (turned_slots s now key k0 Hs Hact) as (_ & _ & Hact' & Hslot & _). cbn zeta. split.
  - intros i k. rewrite Hslot. repeat case_decide; [by intros [= <-]| |apply Hk]. intros [= <-]. apply (Hk (active (abw s))). by rewrite Hact.
  - split; cbn [key_hashes active_slot set_hash]; [by rewrite length_insert|by rewrite Hact'|]. intros i Hi. rewrite Nat2Z.id, Hslot.
    case_decide as E; [subst i; by rewrite list_lookup_insert_eq by lia|]. rewrite list_lookup_insert_ne, Hh by done.
    case_decide as E2; [by rewrite E2, Hact|done].
Qed.

Lemma rotate_in_step s now key g : slots_ok (abw s) -> keys16 (abw s) -> length key = 16%nat -> in_step (abw s) g ->
  let '(rs, a) := rotate (abw s) now key in
  keys16 a /\ exists g2, receive g ((reveal_payload <$> rs) ++ option_list (notice a (active a) true)) = Some g2 /\ in_step a g2.
Proof.
  intros Hs Hk Hkey Hg. unfold rotate. destruct (next_slot_ok _ Hs) as [Hn _].
  destruct (receive_reveal (abw s) g (next_slot (abw s)) Hs Hk Hg) as (g1 & H1 & Hg1).
  destruct (reveal_keeps (abw s) (next_slot (abw s)) Hs Hk) as (Hs1 & Hk1 & Ha1).
  destruct (reveal (abw s) (next_slot (abw s))) as [r a1]; cbn [fst snd] in *.
  set (s1 := with_abw s a1 now (made_public s)).
  assert (next_slot (abw s1) = next_slot (abw s)) as En by (unfold next_slot; cbn; by rewrite Ha1).
  destruct (in_step_turned s1 now key g1 Hs1 Hk1 Hkey Hg1) as [Hk2 Hg2]. rewrite En in Hk2, Hg2. cbn [s1 abw with_abw] in Hk2, Hg2.
  set (a2 := seed _ _ _) in *. split; [by apply (keys16_same a2)|].
  eexists. split; [|by apply (in_step_same_keys a2); [| |exact Hg2]]. rewrite receive_app, H1.
  cbn [mbind option_bind]. unfold notice. cbn [active slots]. unfold slot_at. cbn [slots].
  change (default Empty (slots a2 !! active a2)) with (slot_at a2 (active a2)).
  assert (active a2 = next_slot (abw s)) as -> by done.
  assert (slot_at a2 (next_slot (abw s)) = Seeded key) as ->.
  { unfold slot_at, a2, seed. cbn [slots]. rewrite list_lookup_insert_eq; [done|]. unfold retire_active.
    destruct (slot_at a1 (active a1)); cbn; rewrite ?length_insert, (len_slots _ Hs1); done. }
  cbn [secret_key fmap option_fmap option_map option_list receive].
  change (option_list (Some ?x)) with [x]. cbn [receive].
  rewrite on_notice_message by first [done|apply Hg1|apply length_xor_key_hash]. done.
Qed.

Lemma note_published_same a slot : active (note_published a slot).2 = active a /\ slots (note_published a slot).2 = slots a.
Proof. unfold note_published. destruct (slots a !! _ ≫= secret_key); [|done]. by destruct (published_at a _). Qed.

Lemma resume_keys closed_at x : slot_key (resume_slot closed_at x) = slot_key x.
Proof. by destruct x as [|?|? ? []|? []]. Qed.

Lemma wire_step_ok w w2 : wire_ok w -> wire_step w w2 -> wire_ok w2.
Proof.
  intros [Hok Hk (g & Hg & Hin)] Hstep. pose proof (ok_slots _ Hok) as Hs.
  assert (forall a now public, session_ok (with_abw (pool w) a now public) -> active a = active (abw (pool w)) ->
    slots a = slots (abw (pool w)) -> wire_ok (pool_moves w (with_abw (pool w) a now public) [])) as Hquiet.
  { intros a now public Ho Ha Hsl. assert (forall i, slot_at a i = slot_at (abw (pool w)) i) as Es by (intros; unfold slot_at; by rewrite Hsl).
    split; [done|apply (keys16_same (abw (pool w))); [|done]; intros; cbn; by rewrite Es|]. exists g. split; [by eapply receive_more|].
    apply (in_step_same_keys (abw (pool w))); [done| |done]. intros. cbn. by rewrite Es. }
  destruct Hstep as [|slot|now Hc|seen now key Hc Hdue Hfresh Hkey a|now Hc|closed opened Hc a|m rest g1 handled Hm Hd].
  - apply Hquiet; try done. eapply session_step_ok; [done|apply step_share].
  - destruct (note_published_same (abw (pool w)) slot). apply Hquiet; try done. eapply session_step_ok; [done|apply step_published].
  - apply Hquiet; try done. eapply session_step_ok; [done|by apply step_tip].
  - pose proof (rotate_in_step (pool w) now key g Hs Hk Hkey Hin) as Hr. subst a.
    pose proof (session_step_ok _ _ Hok (step_rotate _ seen now key Hc Hdue Hfresh)) as Ho. unfold after_rotation.
    destruct (rotate (abw (pool w)) now key) as [rs a]; cbn [fst snd] in *. destruct Hr as [Hk2 (g2 & H2 & Hin2)].
    split; [done|done|]. exists g2. split; [by eapply receive_more|done].
  - pose proof (session_step_ok _ _ Hok (step_reveals _ now Hc)) as Ho. unfold after_reveals, reveals_due in *.
    destruct (held (abw (pool w)) now); cbn [fst snd] in *.
    { split; [done|done|]. exists g. split; [by eapply receive_more|done]. }
    set (l := List.filter _ _) in *. destruct (receive_reveal_all l _ g Hs Hk Hin) as (g2 & H2 & Hin2).
    pose proof (reveal_all_keeps l _ Hs Hk) as Hk2. destruct (reveal_all (abw (pool w)) l) as [rs a]; cbn [fst snd] in *.
    split; [done|done|]. exists g2. split; [by eapply receive_more|done].
  - pose proof (session_step_ok _ _ Hok (step_reopen _ closed opened Hc)) as Ho. destruct (receive_notices a (ok_slots _ Ho)) as (g2 & H2 & Hin2).
    split; [done| |by exists g2]. apply (keys16_same (abw (pool w))); [|done]. intros i. cbn. unfold slot_at, a. cbn.
    rewrite list_lookup_fmap. destruct (slots (abw (pool w)) !! i); cbn; [apply resume_keys|done].
  - split; [done|done|]. exists g. split; [|done]. cbn [gw in_flight pool]. rewrite Hm in Hg. cbn [receive] in Hg.
    rewrite Hd in Hg. by destruct handled.
Qed.

Lemma wire_open_ok now key : length key = 16%nat -> wire_ok (wire_open now key).
Proof.
  intros Hkey. pose proof (start_ok now key) as Ho. destruct (receive_notices _ (ok_slots _ Ho)) as (g & Hg & Hin).
  split; [done| |by exists g]. intros i k. pose proof (ok_used _ Ho i k) as Hu. intros Hi. apply Hu in Hi. cbn in Hi.
  by apply list_elem_of_singleton in Hi as ->.
Qed.

Lemma wired_ok now key w : length key = 16%nat -> wired now key w -> wire_ok w.
Proof. intros Hkey. induction 1; [by apply wire_open_ok|by eapply wire_step_ok]. Qed.

Lemma hash_at_lt g i : length (key_hashes g) = SLOTS -> (i < SLOTS)%nat -> exists h, hash_at g (Z.of_nat i) = Some h.
Proof. intros Hl Hi. unfold hash_at. rewrite Nat2Z.id. apply lookup_lt_is_Some_2. lia. Qed.

(** C30: The two ends of anti-block-withholding stay in step. Over any life of a session
    (shares, tips, blocks that publish a key, rotations where [rotation_due] asked for one,
    reveals, and reconnections on which the gateway starts over), and however far the
    gateway is behind: the next message it reads is one it accepts, never malformed, ignored
    or out of the array; and once it has read them all, the slot it gives its jobs is the
    pool's active one, committed to by the hash of the key the pool will verify their shares
    under, and a commitment is held exactly while the pool has not disclosed its key. *)
Theorem abw_in_step (now0 : Z) (key0 : bytes) (w : Wire) : length key0 = 16%nat -> wired now0 key0 w ->
  (forall m rest, in_flight w = m :: rest -> exists g refresh, on_abw_message (gw w) m = Some (g, Handled refresh)) /\
  (in_flight w = [] ->
    (exists k, slot_at (abw (pool w)) (active (abw (pool w))) = Seeded k /\
       assignment (gw w) = Some (Some {| assigned_slot := Z.of_nat (active (abw (pool w))); assigned_key_hash := xor_key_hash k |})) /\
    forall i h, (i < SLOTS)%nat -> exists b, holds (gw w) {| assigned_slot := Z.of_nat i; assigned_key_hash := h |} = Some b /\
       (b = true <-> exists k, secret_key (slot_at (abw (pool w)) i) = Some k /\ xor_key_hash k = h)).
Proof.
  intros Hkey Hw. apply wired_ok in Hw as [Hok Hk (g & Hg & [Hl Ha Hh])]; [|done]. split.
  { intros m rest E. rewrite E in Hg. cbn [receive] in Hg. destruct (on_abw_message (gw w) m) as [[g1 []]|]; try done. by eexists _, _. }
  intros E. rewrite E in Hg. injection Hg as Eg. subst g. split.
  - destruct (active_seeded _ (ok_slots _ Hok)) as [k Hact]. exists k. split; [done|]. unfold assignment. rewrite Ha. unfold hash_at.
    rewrite Nat2Z.id, Hh by apply (active_lt _ (ok_slots _ Hok)). by rewrite Hact.
  - intros i h Hi. unfold holds, hash_at. cbn [assigned_slot assigned_key_hash]. rewrite Nat2Z.id, Hh by done. cbn [mbind option_bind].
    eexists. split; [reflexivity|]. rewrite bool_decide_eq_true. destruct (secret_key _) as [k|]; cbn; split.
    + intros [= <-]. by exists k.
    + by intros (k' & [= ->] & <-).
    + done.
    + by intros (k' & ? & _).
Qed.

End handlers.

(** A session that rotates on age, and whose gateway has read its notices. *)
Definition read_all `{Digests} (w : Wire) : Wire :=
  {| pool := pool w; gw := default (gw w) (receive (gw w) (in_flight w)); in_flight := [] |}.

Lemma read_all_wired `{Digests} now key w g : wired now key w -> receive (gw w) (in_flight w) = Some g -> wired now key (read_all w).
Proof.
  intros Hw Hr. unfold read_all. rewrite Hr. cbn [default]. revert Hw Hr. destruct w as [s h fl]. revert h.
  induction fl as [|m fl IH]; intros h Hw; cbn [gw in_flight pool receive] in *; [by intros [= <-]|].
  destruct (on_abw_message h m) as [[h1 hd]|] eqn:E; [|done]. destruct hd; try done. apply IH.
  eapply wired_step; [exact Hw|]. exact (wire_deliver {| pool := s; gw := h; in_flight := m :: fl |} m fl h1 _ eq_refl E).
Qed.

Definition example_opened : Wire := read_all (H := example_digests) (wire_open (H := example_digests) 0 (example_keyed 1)).

Definition example_rotated : Wire :=
  let a := (rotate (abw (pool example_opened)) ROTATE_AFTER (example_keyed 2)).2 in
  pool_moves example_opened (after_rotation (pool example_opened) ROTATE_AFTER (example_keyed 2))
    ((reveal_payload <$> (rotate (abw (pool example_opened)) ROTATE_AFTER (example_keyed 2)).1) ++
     option_list (notice (H := example_digests) a (active a) true)).

Lemma abw_in_step_witness : let w := read_all (H := example_digests) example_rotated in
  wired (H := example_digests) 0 (example_keyed 1) w /\
  assignment (gw w) = Some (Some {| assigned_slot := 1; assigned_key_hash := xor_key_hash (H := example_digests) (example_keyed 2) |}) /\
  (exists b, holds (gw w) {| assigned_slot := 0; assigned_key_hash := xor_key_hash (H := example_digests) (example_keyed 1) |} = Some b /\ b = true).
Proof.
  intros w. assert (wired (H := example_digests) 0 (example_keyed 1) w) as Hw.
  { assert (forall v, is_some (receive (H := example_digests) (gw v) (in_flight v)) = true -> wired (H := example_digests) 0 (example_keyed 1) v ->
      wired (H := example_digests) 0 (example_keyed 1) (read_all (H := example_digests) v)) as Hread.
    { intros v Hv Hwv. destruct (receive _ _) as [g|] eqn:E; [|done]. by eapply read_all_wired. }
    apply Hread; [vm_compute; reflexivity|]. eapply wired_step; [apply Hread; [|apply wired_open]; vm_compute; reflexivity|].
    apply (wire_rotate _ ROTATE_AFTER); [by vm_compute|by vm_compute| |reflexivity].
    apply not_elem_of_cons. split; [by intros [=]%(f_equal (map bz))|apply not_elem_of_nil]. }
  destruct (abw_in_step (H := example_digests) 0 (example_keyed 1) w eq_refl Hw) as [_ Hs].
  destruct (Hs eq_refl) as [(k & Hk & Ha) Hh]. split; [exact Hw|]. split.
  - rewrite Ha. vm_compute in Hk. injection Hk as <-. vm_compute. reflexivity.
  - destruct (Hh 0%nat (xor_key_hash (H := example_digests) (example_keyed 1))) as (b & Hb & Hiff); [vm_compute; lia|].
    exists b. split; [exact Hb|]. apply Hiff. exists (example_keyed 1). split; vm_compute; reflexivity.
Defined.
