(* ===== verification/GatewayJob.v ===== *)
(** The gateway's jobs ([gateway/src/job.rs], [job/builder.rs]): the two coinbases of a template, the header every share on the job
    starts from, and the table the jobs are served from. A job's flag for a replaced
    previous block, which every holder of the job shares, is kept in the table by the
    job's serial; the cache of commitments holds what [commitment] computes and is left
    out. *)
From S2P Require Import Prelude Reader Bitcoin Script Transaction Target Header Messages ShareMsg Coinbaser Config Coinbase.
From S2P Require Import Hex AbwSlots GatewayAbw NotifyId Validation Template.

(** ** Jobs *)

(** What the builder reads of the configuration. *)
Record JobConfig := {
  protocol_job_slots : Z;
  pool_output_script : bytes;
  coinbase_tag_primary : bytes;
  coinbase_tag_secondary : bytes;
  coinbase_unique_id : Z;
}.

(** [Config::payout_script]. *)
Definition config_payout_script (c : JobConfig) (pool : option ClientConfig) : bytes :=
  match pool with Some p => Config.payout_script p | None => pool_output_script c end.

Record Job := {
  serial : Z;
  slot : Z;
  job_stratum_id : bytes;
  template : Template;
  block_target : Target;
  job_prevblock_hidden : bytes;
  job_section : JobSection;
  pooled_coinbase : BuiltCoinbase;
  subsidy_only_coinbase : BuiltCoinbase;
  coinbaser_outputs : list TxOut;
  job_pool_payout_script : bytes;
  is_datum_job : bool;
  job_abw : option AbwAssignment;
  created_at : Z;
}.

Inductive BuildError :=
| PayoutScriptSize (n : Z)
| TagsDoNotFit
| TooManyBranches (n : Z)
| BadBits.

Record JobInputs := {
  in_serial : Z;
  in_template : Template;
  pool_config : option ClientConfig;
  in_coinbaser : option CoinbaserResponse;
  in_abw : option AbwAssignment;
}.

Definition ENPREFIX_XOR : Z := 0xB10C.

Definition filter_coinbaser (t : Template) (coinbaser : option CoinbaserResponse) : CoinbaserResponse :=
  match coinbaser with
  | None => {| response_value := tmpl_coinbase_value t; response_coinbaser_id := 0; response_outputs := [] |}
  | Some r =>
    {| response_value := response_value r; response_coinbaser_id := response_coinbaser_id r;
       response_outputs := filter (fun o => negb (reduced_data t) || output_script_size_is_valid (script_pubkey o) = true)
                             (response_outputs r) |}
  end.

Definition coinbase_spec (t : Template) (script : bytes) (index enprefix : Z) (payout_script : bytes)
    (outs : list TxOut) (sigops : Z) (kind : CoinbaseKind) : CoinbaseSpec :=
  {| spec_coinbase_id := wire_id kind; spec_script_sig := script; target_byte_index_in_script := index;
     Coinbase.enprefix := enprefix;
     witness_commitment := match kind with Pooled => Some (tmpl_witness_commitment t) | SubsidyOnly => None end;
     Coinbase.pool_payout_script := payout_script;
     spec_coinbase_value := match kind with
       | Pooled => tmpl_coinbase_value t
       | SubsidyOnly => wrap 64 (tmpl_coinbase_value t - total_fee (totals t))
       end;
     spec_outputs := outs;
     limits := {| sizelimit := tmpl_sizelimit t; weightlimit := tmpl_weightlimit t;
                  limits_txn_total_size := total_size (totals t); limits_txn_total_weight := total_weight (totals t) |};
     sigop_budget := sigops |}.

Definition pooled_sigops (t : Template) (payout_script : bytes) : Z :=
  sat_sub (sat_sub (sigoplimit t) (total_sigops (totals t))) (output_sigop_cost payout_script).

(** The pooled coinbase, the subsidy-only one and the outputs the first includes. *)
Definition build_coinbases (t : Template) (script : bytes) (index enprefix : Z) (payout_script : bytes)
    (outputs : list TxOut) : BuiltCoinbase * BuiltCoinbase * list TxOut :=
  let '(subsidy_only, _) := Coinbase.build (coinbase_spec t script index enprefix payout_script [] 0 SubsidyOnly) in
  let '(pooled, included) :=
    Coinbase.build (coinbase_spec t script index enprefix payout_script outputs (pooled_sigops t payout_script) Pooled) in
  (pooled, subsidy_only, included).

Definition job_tags (c : JobConfig) (t : Template) (pool : option ClientConfig) : ScriptSigInputs :=
  {| Coinbase.height := tmpl_height t;
     tag_primary := match pool with Some p => coinbase_tag p | None => coinbase_tag_primary c end;
     tag_secondary_in := coinbase_tag_secondary c;
     unique_id := wrap 16 (coinbase_unique_id c);
     Coinbase.prime_id := match pool with Some p => Config.prime_id p | None => 0 end;
     wide_prime := match pool with Some p => is_some (v3 p) | None => false end;
     datum_active := is_some pool |}.

Section jobs.
Context `{Digests}.

(** [build]; none where [merkle_branches] would panic. [unix_now] and [now] are the two
    clocks it reads. *)
Definition build_job (c : JobConfig) (j : JobInputs) (unix_now now : Z) : option (result BuildError Job) :=
  let t := in_template j in
  let slot := wrap 8 (in_serial j mod protocol_job_slots c) in
  let enprefix := Z.lxor (wrap 16 (in_serial j)) ENPREFIX_XOR in
  let payout_script := config_payout_script c (pool_config j) in
  if (zlen payout_script =? 0) || (MAX_PAYOUT_SCRIPT_LEN <? zlen payout_script)
  then Some (Err (PayoutScriptSize (zlen payout_script))) else
  match Coinbase.script_sig (job_tags c t (pool_config j)) with
  | None => Some (Err TagsDoNotFit)
  | Some (script, index) =>
    let split := filter_coinbaser t (in_coinbaser j) in
    let '(pooled, subsidy_only, included) := build_coinbases t script index enprefix payout_script (response_outputs split) in
    branches ← Bitcoin.merkle_branches (txn_txid <$> txns t);
    Some (
      if MAX_MERKLE_BRANCHES <? zlen branches then Err (TooManyBranches (zlen branches)) else
      match bits_to_target (tmpl_nbits t) with
      | None => Err BadBits
      | Some target =>
        Ok {| serial := in_serial j; slot := slot; job_stratum_id := stratum_job_id (wrap 32 unix_now) slot; template := t;
              block_target := target; job_prevblock_hidden := prevblock_hidden (tmpl_prev_hash t);
              job_section :=
                {| ShareMsg.prev_hash := tmpl_prev_hash t;
                   ShareMsg.target_byte_index := wrap 16 (built_target_byte_index pooled);
                   nbits := le 4 (tmpl_nbits t); coinbaser_id := response_coinbaser_id split; job_height := tmpl_height t;
                   coinbase_value := tmpl_coinbase_value t; txn_count := wrap 32 (zlen (txns t));
                   txn_total_weight := total_weight (totals t); txn_total_size := total_size (totals t);
                   txn_total_sigops := total_sigops (totals t); merkle_branches := branches |};
              pooled_coinbase := pooled; subsidy_only_coinbase := subsidy_only; coinbaser_outputs := included;
              job_pool_payout_script := payout_script; is_datum_job := is_some (pool_config j); job_abw := in_abw j;
              created_at := now |}
      end)
  end.

Definition job_coinbase (j : Job) (kind : CoinbaseKind) : BuiltCoinbase :=
  match kind with Pooled => pooled_coinbase j | SubsidyOnly => subsidy_only_coinbase j end.

Definition full_coinbase (j : Job) (kind : CoinbaseKind) (target_byte : Z) : option bytes :=
  coinbase_tx (job_section j) (section (job_coinbase j kind)) target_byte.

Definition job_hash_stages (j : Job) (h : BlockHeaderV2) : HashStages :=
  match job_abw j with Some a => hash_stages_with_key_hash h (assigned_key_hash a) | None => hash_stages h end.

Definition job_raw_pow_hash (j : Job) (h : BlockHeaderV2) : bytes := raw_pow_hash h (job_hash_stages j h).

Record H2Commitment := { commitment_header : BlockHeaderV2; commitment_h2 : bytes }.

Definition commitment (j : Job) (kind : CoinbaseKind) (target_byte : Z) : option H2Commitment :=
  tx ← full_coinbase j kind target_byte;
  let subsidy_only := bool_decide (kind = SubsidyOnly) in
  h ← job_header (job_section j) (as_i32 (tmpl_version (template j))) (wrap 32 (curtime (template j)))
        (job_merkle_root (job_section j) tx subsidy_only) subsidy_only target_byte (is_some (job_abw j));
  Some {| commitment_header := h; commitment_h2 := stage_h2 (job_hash_stages j h) |}.

(** The header with its extranonce and the words of a submit. *)
Definition set_extranonce (h : BlockHeaderV2) (e : bytes) : BlockHeaderV2 :=
  {| Header.version := Header.version h; Header.prev_block := Header.prev_block h;
     Header.merkle_root := Header.merkle_root h; Header.time := Header.time h; Header.bits := Header.bits h;
     Header.nonce := Header.nonce h; Header.nonce2 := Header.nonce2 h; Header.nonce3 := Header.nonce3 h;
     Header.extranonce := e; Header.time_offset := Header.time_offset h; Header.txcount := Header.txcount h;
     Header.flags := Header.flags h; Header.xor_key_mask_clear_bits := Header.xor_key_mask_clear_bits h;
     Header.xor_key := Header.xor_key h; Header.height := Header.height h; Header.mm_rhs := Header.mm_rhs h |}.

Definition submitted_header (j : Job) (kind : CoinbaseKind) (target_byte : Z) (e sia_ntime sia_nonce : bytes)
    : option BlockHeaderV2 :=
  c ← commitment j kind target_byte;
  Some (set_sia_fields (set_extranonce (commitment_header c) e) sia_ntime sia_nonce).

Definition ntime_hex : bytes := hex_encode (sia_words 0 0).

(** [assemble] of [submit_block.rs]: the block a header of the job is found for. *)
Definition assemble_block (j : Job) (kind : CoinbaseKind) (target_byte : Z) (header : bytes) : option bytes :=
  coinbase ← full_coinbase j kind target_byte;
  let others := match kind with SubsidyOnly => [] | Pooled => txn_raw <$> txns (template j) end in
  Some (serialize_block header coinbase others).

End jobs.

(** ** The table of jobs *)

Record Publication := { pub_job : Job; pub_kind : CoinbaseKind; pub_sequence : Z }.

(** [stale] holds the serials of the jobs whose flag is set. *)
Record JobTable := {
  slots : list (option Job);
  current : option Publication;
  published : Z;
  keep : Z;
  table_tip : option bytes;
  stale : gset Z;
}.

Definition table_new (n : nat) (keep : Z) : JobTable :=
  {| slots := replicate n None; current := None; published := 0; keep := keep; table_tip := None; stale := ∅ |}.

Definition set_table_tip (t : JobTable) (prev_hash : bytes) : JobTable :=
  {| slots := slots t; current := current t; published := published t; keep := keep t; table_tip := Some prev_hash;
     stale := stale t |}.

Definition prev_of (j : Job) : bytes := tmpl_prev_hash (template j).
Definition installed (t : JobTable) : list Job := omap id (slots t).
Arguments installed : simpl never.
Definition is_stale_prevblock (t : JobTable) (j : Job) : bool := bool_decide (serial j ∈ stale t).

Definition mark (t : JobTable) (p : Job -> bool) : gset Z :=
  stale t ∪ list_to_set (serial <$> filter (fun j => p j = true) (installed t)).

Definition publish (t : JobTable) (j : Job) (kind : CoinbaseKind) (now : Z) : JobTable * bool :=
  let prev_hash := prev_of j in
  if from_option (fun tip => negb (bool_decide (tip = prev_hash))) false (table_tip t) then (t, false) else
  let marked := mark t (fun other => bool_decide (kind = SubsidyOnly) || negb (bool_decide (prev_of other = prev_hash))) in
  let kept := (fun s => match s with
               | Some held => if keep t <? duration_since now (created_at held) then None else Some held
               | None => None
               end) <$> slots t in
  let n := published t + 1 in
  ({| slots := <[Z.to_nat (slot j) := Some j]> kept;
      current := Some {| pub_job := j; pub_kind := kind; pub_sequence := n |};
      published := n; keep := keep t; table_tip := table_tip t; stale := marked |}, true).

Definition mark_stale_off (t : JobTable) (prev_hash : bytes) : JobTable :=
  {| slots := slots t; current := current t; published := published t; keep := keep t; table_tip := table_tip t;
     stale := mark t (fun other => negb (bool_decide (prev_of other = prev_hash))) |}.

Definition job_at (t : JobTable) (slot : Z) : option Job := mjoin (slots t !! Z.to_nat slot).

(** ** What a built job is *)

Lemma zlen_height_push h : zlen (height_push h) <= 6.
Proof.
  unfold height_push. destruct (h =? 0); [done|]. destruct (_ && _); [done|]. pose proof (length_height_bytes 4 h).
  cbn zeta. destruct (last _) as [b|]; [destruct (has_bits _ _)|]; rewrite zlen_cons, ?zlen_app; change (zlen [zb 0]) with 1; lia.
Qed.

Lemma script_sig_bounds t script i : Coinbase.script_sig t = Some (script, i) -> 0 <= i < zlen script /\ zlen script <= 106.
Proof.
  unfold Coinbase.script_sig. destruct (tag_push_data_that_fits t) as [data|] eqn:E; [|done]. cbn [mbind option_bind]. intros [= <- <-].
  apply tag_push_data_fits_inv in E as (kept & _ & _ & Hd). destruct (unique_id_push_is_push t) as (Hu & Hul & Hue).
  rewrite Hu. unfold UNIQUE_ID_PUSH_TARGET_BYTE_AT. rewrite !zlen_app, Hue. cbn [app] in Hul |- *.
  pose proof (zlen_height_push (Coinbase.height t)). pose proof (zlen_nonneg (height_push (Coinbase.height t))).
  assert (zlen data <= 86) by (unfold tag_space, MAX_COINBASE_TAG_SPACE, WIDE_PRIME_PUSH_EXTRA_BYTES in Hd; case_match; lia).
  assert (zlen data <= zlen (encode_push data) <= zlen data + 2).
  { unfold encode_push. destruct (_ <? _); cbn [app]; rewrite !zlen_cons; lia. }
  lia.
Qed.

(** The target byte of an assembled coinbase is inside its first part, and close to its
    start. *)
Lemma assembled_index p included paid i :
  target_byte_index_in_script p = i -> 0 <= i < zlen (spec_script_sig p) -> zlen (spec_script_sig p) < 2 ^ 32 ->
  let b := assemble_coinbase p included paid in
  built_target_byte_index b = 41 + zlen (encode_compact_size (zlen (spec_script_sig p) + if in_script p then EXTRANONCE_PUSH_SIZE else 0)) + i /\
  0 <= built_target_byte_index b < zlen (coinb1 (section b)) /\ built_target_byte_index b <= 50 + i.
Proof.
  intros Hi Hr Hs b. unfold b, assemble_coinbase. cbn [built_target_byte_index section coinb1].
  set (len := zlen (spec_script_sig p) + _). pose proof (zlen_encode_compact_size len) as Hc.
  rewrite Hi, !zlen_app. change (zlen (le 4 COINBASE_TX_VERSION)) with 4. change (zlen (encode_compact_size 1)) with 1.
  change (zlen (zeros HASH_SIZE)) with 32. change (zlen NULL_OUTPOINT_INDEX) with 4.
  match goal with |- context [zlen (if in_script p then ?a else ?c)] => pose proof (zlen_nonneg (if in_script p then a else c)) end.
  pose proof (zlen_nonneg (encode_compact_size len)). unfold MAX_COMPACT_SIZE_LEN in *. lia.
Qed.

Lemma build_assembles p : exists included paid, Coinbase.build p = (assemble_coinbase p included paid, included).
Proof. unfold Coinbase.build. destruct (select_outputs p _) as [included paid]. by exists included, paid. Qed.

(** The specification of one of a job's coinbases. *)
Definition job_spec (c : JobConfig) (j : JobInputs) (script : bytes) (index : Z) (kind : CoinbaseKind) : CoinbaseSpec :=
  let t := in_template j in
  let payout_script := config_payout_script c (pool_config j) in
  coinbase_spec t script index (Z.lxor (wrap 16 (in_serial j)) ENPREFIX_XOR) payout_script
    (match kind with Pooled => response_outputs (filter_coinbaser t (in_coinbaser j)) | SubsidyOnly => [] end)
    (match kind with Pooled => pooled_sigops t payout_script | SubsidyOnly => 0 end) kind.

Section built.
Context `{Digests}.

Record job_built (c : JobConfig) (j : JobInputs) (b : Job) : Prop := {
  jb_serial : serial b = in_serial j;
  jb_slot : slot b = wrap 8 (in_serial j mod protocol_job_slots c);
  jb_id : exists unix_now, job_stratum_id b = stratum_job_id (wrap 32 unix_now) (slot b);
  jb_template : template b = in_template j;
  jb_hidden : job_prevblock_hidden b = prevblock_hidden (tmpl_prev_hash (in_template j));
  jb_abw : job_abw b = in_abw j;
  jb_pooled : is_datum_job b = is_some (pool_config j);
  jb_payout : 1 <= zlen (config_payout_script c (pool_config j)) <= MAX_PAYOUT_SCRIPT_LEN;
  jb_target : bits_to_target (tmpl_nbits (in_template j)) = Some (block_target b);
  jb_coinbases : exists script i, Coinbase.script_sig (job_tags c (in_template j) (pool_config j)) = Some (script, i) /\
    Coinbase.build (job_spec c j script i Pooled) = (pooled_coinbase b, coinbaser_outputs b) /\
    (Coinbase.build (job_spec c j script i SubsidyOnly)).1 = subsidy_only_coinbase b;
  jb_branches : Bitcoin.merkle_branches (txn_txid <$> txns (in_template j)) = Some (merkle_branches (job_section b)) /\
    zlen (merkle_branches (job_section b)) <= MAX_MERKLE_BRANCHES;
  jb_section : job_section b =
    {| ShareMsg.prev_hash := tmpl_prev_hash (in_template j);
       ShareMsg.target_byte_index := wrap 16 (built_target_byte_index (pooled_coinbase b));
       nbits := le 4 (tmpl_nbits (in_template j)); coinbaser_id := response_coinbaser_id (filter_coinbaser (in_template j) (in_coinbaser j));
       job_height := tmpl_height (in_template j); coinbase_value := tmpl_coinbase_value (in_template j);
       txn_count := wrap 32 (zlen (txns (in_template j))); txn_total_weight := total_weight (totals (in_template j));
       txn_total_size := total_size (totals (in_template j)); txn_total_sigops := total_sigops (totals (in_template j));
       merkle_branches := merkle_branches (job_section b) |};
}.

(** The builder returns, and what it returns is built from its inputs. *)
Lemma build_job_spec c j unix_now now : exists r, build_job c j unix_now now = Some r /\
  forall b, r = Ok b -> job_built c j b.
Proof.
  unfold build_job. cbn zeta. set (payout := config_payout_script c (pool_config j)).
  destruct ((zlen payout =? 0) || _) eqn:Epay; [by eexists|].
  destruct (Coinbase.script_sig _) as [[script i]|] eqn:Es; [|by eexists].
  unfold build_coinbases. fold (job_spec c j script i SubsidyOnly). fold (job_spec c j script i Pooled).
  change (coinbase_spec _ script i _ payout [] 0 SubsidyOnly) with (job_spec c j script i SubsidyOnly).
  change (coinbase_spec _ script i _ payout _ _ Pooled) with (job_spec c j script i Pooled).
  destruct (Coinbase.build (job_spec c j script i SubsidyOnly)) as [subsidy sub_inc] eqn:Esub.
  destruct (Coinbase.build (job_spec c j script i Pooled)) as [pooled included] eqn:Epool.
  destruct (merkle_branches_root (zeros 32) (txn_txid <$> txns (in_template j))) as (branches & _ & Eb & _). rewrite Eb.
  cbn [mbind option_bind]. eexists. split; [reflexivity|]. intros b.
  destruct (Z.ltb_spec MAX_MERKLE_BRANCHES (zlen branches)); [done|].
  destruct (bits_to_target _) as [target|] eqn:Et; [|done]. intros [= <-].
  apply orb_false_iff in Epay as [Hnz%Z.eqb_neq Hmax%Z.ltb_ge]. pose proof (zlen_nonneg payout).
  constructor; try done; [by eexists|fold payout; lia|]. exists script, i. by rewrite Esub.
Qed.

(** Either coinbase of a job puts the target byte where the job's section says. *)
Lemma job_coinbase_index c j b kind : job_built c j b ->
  built_target_byte_index (job_coinbase b kind) = ShareMsg.target_byte_index (job_section b) /\
  0 <= ShareMsg.target_byte_index (job_section b) < zlen (coinb1 (section (job_coinbase b kind))).
Proof.
  intros Hb. destruct (jb_coinbases _ _ _ Hb) as (script & i & Es & Ep & Esub). apply script_sig_bounds in Es as [Hi Hlen].
  rewrite (jb_section _ _ _ Hb). cbn [ShareMsg.target_byte_index].
  destruct (build_assembles (job_spec c j script i Pooled)) as (inc & paid & E1).
  destruct (build_assembles (job_spec c j script i SubsidyOnly)) as (inc2 & paid2 & E2).
  rewrite E1 in Ep. rewrite E2 in Esub. cbn in Esub. injection Ep as Ep _.
  destruct (assembled_index (job_spec c j script i Pooled) inc paid i eq_refl Hi ltac:(cbn; lia)) as (Hp & Hpr & Hps).
  destruct (assembled_index (job_spec c j script i SubsidyOnly) inc2 paid2 i eq_refl Hi ltac:(cbn; lia)) as (Hq & Hqr & _).
  rewrite Ep in Hp, Hpr, Hps. rewrite Esub in Hq, Hqr.
  rewrite (wrap_small 16) by (unfold uint; lia). unfold in_script in *. cbn in Hp, Hq. rewrite <- Hp in Hq.
  destruct kind; cbn [job_coinbase]; [done|]. rewrite <- Hq. done.
Qed.

Lemma job_full_coinbase c j b kind target_byte : job_built c j b -> exists tx,
  full_coinbase b kind target_byte = Some tx.
Proof.
  intros Hb. destruct (job_coinbase_index c j b kind Hb) as [_ Hr]. unfold full_coinbase, coinbase_tx, set_byte.
  rewrite (proj2 (Z.ltb_lt _ _)); [by eexists|]. unfold assemble. rewrite zlen_app.
  match goal with |- context [zlen (?a ++ ?b)] => pose proof (zlen_nonneg (a ++ b)) end. lia.
Qed.

(** The transactions a block of the kind holds beside its coinbase. *)
Definition others (t : Template) (kind : CoinbaseKind) : list Txn :=
  match kind with Pooled => txns t | SubsidyOnly => [] end.

(** A job can be worked on, and a block found on it is whole. The builder returns
    for every template the node serves; and for a job it built, either coinbase, every
    target byte and whatever a miner submits, there is a coinbase with the target byte
    in it and a header over it: of the template's previous block, height, bits and time,
    with the nonces submitted and the number of the block's transactions, and whose
    merkle root is the root of the tree over the coinbase and the transactions the block
    submitted to the node holds. *)
Theorem built_job_serves (c : JobConfig) (j : JobInputs) (unix_now now : Z) :
  template_wf (in_template j) ->
  exists r, build_job c j unix_now now = Some r /\
    forall b, r = Ok b -> forall kind target_byte e sia_ntime sia_nonce, exists tx h m,
      full_coinbase b kind target_byte = Some tx /\
      submitted_header b kind target_byte e sia_ntime sia_nonce = Some h /\
      Header.prev_block h = tmpl_prev_hash (in_template j) /\ Header.height h = as_i32 (tmpl_height (in_template j)) /\
      Header.bits h = tmpl_nbits (in_template j) /\ Header.time h = wrap 32 (curtime (in_template j)) /\
      Header.extranonce h = e /\ (Header.nonce h, Header.nonce2 h) = sia_halves sia_nonce /\
      (Header.time_offset h, Header.nonce3 h) = sia_halves sia_ntime /\
      Header.txcount h = 1 + zlen (others (in_template j) kind) /\
      merkle_tree_root (sha256d tx :: (txn_txid <$> others (in_template j) kind)) =
        Some {| root := Header.merkle_root h; mutated := m |} /\
      assemble_block b kind target_byte (serialize h) =
        Some (serialize_block (serialize h) tx (txn_raw <$> others (in_template j) kind)).
Proof.
  intros Ht. destruct (build_job_spec c j unix_now now) as (r & Er & Hr). exists r. split; [done|].
  intros b Eb kind target_byte e ntime nonce. specialize (Hr b Eb).
  destruct (job_full_coinbase c j b kind target_byte Hr) as [tx Etx]. exists tx. rewrite Etx.
  unfold submitted_header, commitment, assemble_block. rewrite Etx, (jb_template _ _ _ Hr). cbn [mbind option_bind].
  pose proof (jb_branches _ _ _ Hr) as [Ebr _]. pose proof (tw_txns _ Ht) as Hn. pose proof (tw_nbits _ Ht) as Hnb.
  pose proof (zlen_nonneg (txns (in_template j))) as Hn0. unfold MAX_SHORT_LIST_TXNS in Hn.
  destruct (merkle_branches_root (sha256d tx) (txn_txid <$> others (in_template j) kind)) as (bs & tree & Ebs & Etree & Eroot).
  assert (merkle_root_from_branches (sha256d tx) (if bool_decide (kind = SubsidyOnly) then [] else merkle_branches (job_section b)) = root tree) as Hroot.
  { rewrite <- Eroot. f_equal. destruct kind; cbn [others fmap list_fmap] in Ebs; [rewrite Ebr in Ebs|unfold Bitcoin.merkle_branches in Ebs];
      injection Ebs as <-; reflexivity. }
  unfold job_header. rewrite (jb_section _ _ _ Hr). cbn [txn_count ShareMsg.prev_hash nbits job_height].
  rewrite (wrap_small 32 (zlen _)) by (unfold uint; lia). rewrite le_val_le_small by done.
  unfold job_merkle_root. cbn [merkle_branches].
  assert (zlen (others (in_template j) kind) = if bool_decide (kind = SubsidyOnly) then 0 else zlen (txns (in_template j))) as Hcount by (by destruct kind).
  rewrite (proj2 (Z.leb_gt _ _)) by (destruct (bool_decide _); lia). cbn [mbind option_bind commitment_header].
  destruct (sia_halves nonce) as [n n2] eqn:En, (sia_halves ntime) as [off n3] eqn:Eo. unfold set_sia_fields. rewrite En, Eo.
  eexists _, (mutated tree). split; [done|]. split; [reflexivity|]. cbn [Header.prev_block Header.height Header.bits Header.time
    Header.extranonce Header.nonce Header.nonce2 Header.time_offset Header.nonce3 Header.txcount Header.merkle_root set_extranonce].
  split_and!; try done.
  - rewrite Hcount. destruct (bool_decide _); lia.
  - rewrite Etree, Hroot. by destruct tree.
  - by destruct kind.
Qed.

End built.

(** ** An example: a template of two transactions *)

Definition example_template : Template :=
  {| tmpl_height := 21; tmpl_coinbase_value := 5000000000; mintime := 1700000000; curtime := 1700000100;
     tmpl_sizelimit := 4000000; tmpl_weightlimit := 4000000; sigoplimit := 80000; tmpl_version := 0x20000000;
     tmpl_nbits := 0x207fffff; tmpl_prev_hash := le 32 9; tmpl_witness_commitment := replicate 38 (zb 0x6a);
     blake2b_rule := true; reduced_data := false;
     txns := [{| txn_raw := [zb 1]; txn_txid := le 32 3; txn_witness_hash := le 32 4 |};
              {| txn_raw := [zb 2]; txn_txid := le 32 5; txn_witness_hash := le 32 6 |}];
     totals := {| total_fee := 1000; total_weight := 400; total_size := 100; total_sigops := 4 |} |}.

Definition example_job_config : JobConfig :=
  {| protocol_job_slots := 256; pool_output_script := replicate 22 (zb 7); coinbase_tag_primary := le 5 0x6162636465;
     coinbase_tag_secondary := le 3 0x616263; coinbase_unique_id := 4242 |}.

Definition example_inputs : JobInputs :=
  {| in_serial := 300; in_template := example_template; pool_config := None; in_coinbaser := None; in_abw := None |}.

Lemma example_template_wf : template_wf example_template.
Proof.
  constructor; try (by vm_compute); try (by split); by repeat constructor.
Qed.

Lemma built_job_serves_witness : exists b : Job,
  @build_job example_digests example_job_config example_inputs 77 5 = Some (Ok b) /\
  exists h : BlockHeaderV2, @submitted_header example_digests b Pooled 14 (zeros 16) (sia_words 7 8) (sia_words 9 10) = Some h /\
    Header.nonce h = 9 /\ Header.txcount h = 3.
Proof.
  destruct (@built_job_serves example_digests example_job_config example_inputs 77 5 example_template_wf) as (r & Er & Hr).
  assert (match @build_job example_digests example_job_config example_inputs 77 5 with Some (Ok _) => True | _ => False end) as Hok
    by (vm_compute; exact I).
  rewrite Er in Hok. destruct r as [b|e]; [|destruct Hok]. exists b. split; [exact Er|].
  destruct (Hr b eq_refl Pooled 14 (zeros 16) (sia_words 7 8) (sia_words 9 10)) as (tx & h & m & _ & Eh & _ & _ & _ & _ & _ & En & _ & Et & _).
  exists h. split; [exact Eh|]. split; [|exact Et]. by injection En.
Defined.

(** ** The table over its history *)

Inductive table_op := SetTip (prev_hash : bytes) | Publish (j : Job) (kind : CoinbaseKind) (now : Z) | MarkStaleOff (prev_hash : bytes).

Definition table_step (t : JobTable) (op : table_op) : JobTable :=
  match op with
  | SetTip h => set_table_tip t h
  | Publish j kind now => (publish t j kind now).1
  | MarkStaleOff h => mark_stale_off t h
  end.

Definition run_table (n : nat) (keep : Z) (ops : list table_op) : JobTable := foldl table_step (table_new n keep) ops.

Definition fits (n : nat) (j : Job) : Prop := (Z.to_nat (slot j) < n)%nat.

(** Every job in a slot and still good builds on the previous block of the work served
    last, which is in its own slot. *)
Record table_ok (n : nat) (keep0 : Z) (t : JobTable) : Prop := {
  to_slots : length (slots t) = n;
  to_keep : keep t = keep0;
  to_good : forall other, other ∈ installed t -> is_stale_prevblock t other = false ->
    exists p, current t = Some p /\ prev_of other = prev_of (pub_job p);
  to_current : forall p, current t = Some p -> pub_sequence p = published t /\
    (fits n (pub_job p) -> job_at t (slot (pub_job p)) = Some (pub_job p));
}.

Lemma elem_installed t j : j ∈ installed t <-> exists i, slots t !! i = Some (Some j).
Proof.
  unfold installed. rewrite list_elem_of_omap. split.
  - intros (o & Ho & Hj). apply list_elem_of_lookup in Ho as [i Hi]. exists i. by destruct o; cbn in Hj; [injection Hj as ->|].
  - intros [i Hi]. exists (Some j). split; [by apply list_elem_of_lookup_2 in Hi|done].
Qed.

Lemma elem_mark t f s : s ∈ mark t f <-> s ∈ stale t \/ exists j, j ∈ installed t /\ f j = true /\ s = serial j.
Proof.
  unfold mark. rewrite elem_of_union, elem_of_list_to_set, list_elem_of_fmap. split; intros [Hs|Hs]; auto; right.
  - destruct Hs as (j & -> & [Hf Hj]%list_elem_of_filter). by exists j.
  - destruct Hs as (j & Hj & Hf & ->). exists j. split; [done|]. by apply list_elem_of_filter.
Qed.

(** The slots a publication leaves: the jobs young enough, and the job itself. *)
Definition kept_slots (t : JobTable) (now : Z) : list (option Job) :=
  (fun s => match s with
            | Some held => if keep t <? duration_since now (created_at held) then None else Some held
            | None => None
            end) <$> slots t.

Lemma kept_installed t now i j : kept_slots t now !! i = Some (Some j) ->
  slots t !! i = Some (Some j) /\ duration_since now (created_at j) <= keep t.
Proof.
  unfold kept_slots. rewrite list_lookup_fmap. destruct (slots t !! i) as [[h|]|]; cbn; try done.
  destruct (Z.ltb_spec (keep t) (duration_since now (created_at h))); [done|]. intros [= <-]. done.
Qed.

Record published_as (n : nat) (t t2 : JobTable) (j : Job) (kind : CoinbaseKind) (now : Z) : Prop := {
  pa_current : current t2 = Some {| pub_job := j; pub_kind := kind; pub_sequence := published t + 1 |};
  pa_published : published t2 = published t + 1;
  pa_at : fits n j -> job_at t2 (slot j) = Some j;
  pa_from : forall other, other ∈ installed t2 -> other = j \/ (other ∈ installed t /\ duration_since now (created_at other) <= keep t);
  pa_kept : forall i other, slots t !! i = Some (Some other) -> duration_since now (created_at other) <= keep t ->
    i <> Z.to_nat (slot j) -> slots t2 !! i = Some (Some other);
  pa_stale : forall s, s ∈ stale t2 <-> s ∈ stale t \/ exists other, other ∈ installed t /\ serial other = s /\
    (kind = SubsidyOnly \/ prev_of other <> prev_of j);
  pa_rest : length (slots t2) = length (slots t) /\ keep t2 = keep t /\ table_tip t2 = table_tip t;
}.

Lemma publish_table_spec t j kind now : let '(t2, accepted) := publish t j kind now in
  (accepted = false <-> exists tip, table_tip t = Some tip /\ tip <> prev_of j) /\
  if accepted then published_as (length (slots t)) t t2 j kind now else t2 = t.
Proof.
  unfold publish. destruct (from_option _ false (table_tip t)) eqn:Et.
  { split; [|done]. split; [|done]. intros _. destruct (table_tip t) as [tip|]; [|done]. exists tip. split; [done|].
    cbn in Et. by apply negb_true_iff, bool_decide_eq_false_1 in Et. }
  split.
  { split; [done|]. intros (tip & Htip & Hne). rewrite Htip in Et. cbn in Et. apply negb_false_iff, bool_decide_eq_true_1 in Et. done. }
  fold (kept_slots t now). constructor; cbn; try done.
  - intros Hf. unfold job_at. cbn. rewrite list_lookup_insert_eq; [done|]. unfold kept_slots. by rewrite length_fmap.
  - intros other Ho. apply elem_installed in Ho as [i Hi]. cbn in Hi. apply list_lookup_insert_Some in Hi as [(_ & [= ->] & _)|[_ Hi]]; [by left|].
    right. apply kept_installed in Hi as [? ?]. split; [|done]. apply elem_installed. by exists i.
  - intros i other Hi Ha Hne. rewrite list_lookup_insert_ne by done. unfold kept_slots. rewrite list_lookup_fmap, Hi. cbn.
    by rewrite (proj2 (Z.ltb_ge _ _)).
  - intros s. rewrite elem_mark. apply or_iff_compat_l. split.
    + intros (o & Ho & Hf & ->). exists o. split_and!; [done..|].
      apply orb_true_iff in Hf as [Hf|Hf]; [left; by apply bool_decide_eq_true_1 in Hf|right; by apply negb_true_iff, bool_decide_eq_false_1 in Hf].
    + intros (o & Ho & <- & Hk). exists o. split_and!; [done| |done]. apply orb_true_iff.
      destruct Hk as [->|Hk]; [by left|right]. by apply negb_true_iff, bool_decide_eq_false_2.
  - split_and!; [|done..]. rewrite length_insert. unfold kept_slots. apply length_fmap.
Qed.

Lemma table_step_ok n keep0 t op : table_ok n keep0 t -> table_ok n keep0 (table_step t op).
Proof.
  intros Hok. pose proof Hok as [Hn Hk Hgood Hcur]. destruct op as [h|j kind now|h]; cbn [table_step]; [by constructor| |].
  - pose proof (publish_table_spec t j kind now) as Hp. destruct (publish t j kind now) as [t2 []]; destruct Hp as [_ Hp]; cbn [fst]; [|by subst].
    destruct Hp as [Hc2 Hpub Hat Hfrom _ Hst (Hl & Hk2 & _)]. constructor; [congruence..| |].
    + intros other Ho Hs. exists {| pub_job := j; pub_kind := kind; pub_sequence := published t + 1 |}. split; [done|]. cbn.
      apply Hfrom in Ho as [->|[Ho _]]; [done|]. destruct (decide (prev_of other = prev_of j)) as [|Hne]; [done|].
      apply bool_decide_eq_false_1 in Hs as []. apply Hst. right. exists other. auto.
    + intros p. rewrite Hc2. intros [= <-]. cbn. split; [done|]. rewrite Hn in Hat. exact Hat.
  - constructor; try done. intros other Ho Hs. apply Hgood; [exact Ho|]. apply bool_decide_eq_false_2. intros Hin.
    apply bool_decide_eq_false_1 in Hs as []. cbn. apply elem_mark. by left.
Qed.

Lemma run_table_ok n keep0 ops : table_ok n keep0 (run_table n keep0 ops).
Proof.
  unfold run_table. assert (table_ok n keep0 (table_new n keep0)) as Hnew.
  { constructor; try done; [cbn; apply length_replicate|]. intros other Ho. apply elem_installed in Ho as [i Hi]. cbn in Hi.
    by apply lookup_replicate in Hi as [? _]. }
  revert Hnew. generalize (table_new n keep0). induction ops as [|op ops IH]; intros t Ht; [done|]. cbn. by apply IH, table_step_ok.
Qed.

(** Miners are held to one tip. Whatever jobs the template thread and the session
    thread publish, in whatever order, every job a share can name that is not marked
    stale builds on the previous block of the work served last; and that work can be
    named, under the number of its publication. A publication is refused exactly when
    the newest template builds on another block, and then changes nothing; otherwise the
    job is served and can be named, the jobs on another previous block are stale, every
    job already there is stale when the work announces a tip, a job with a serial of its
    own is not, and no other job younger than the retention is lost but the one whose
    slot is taken. *)
Theorem job_table_serves_one_tip (n : nat) (keep0 : Z) (ops : list table_op) (j : Job) (kind : CoinbaseKind) (now : Z) :
  let t := run_table n keep0 ops in
  (forall other, other ∈ installed t -> is_stale_prevblock t other = false ->
    exists p, current t = Some p /\ prev_of other = prev_of (pub_job p)) /\
  (forall p, current t = Some p -> pub_sequence p = published t /\
    (fits n (pub_job p) -> job_at t (slot (pub_job p)) = Some (pub_job p))) /\
  let '(t2, accepted) := publish t j kind now in
  (accepted = false <-> exists tip, table_tip t = Some tip /\ tip <> prev_of j) /\
  if accepted then
    current t2 = Some {| pub_job := j; pub_kind := kind; pub_sequence := published t + 1 |} /\
    (fits n j -> job_at t2 (slot j) = Some j) /\
    (forall other, other ∈ installed t2 -> other <> j -> is_stale_prevblock t2 other = false ->
      kind = Pooled /\ prev_of other = prev_of j) /\
    (serial j ∉ stale t -> (forall other, other ∈ installed t -> serial other <> serial j) -> is_stale_prevblock t2 j = false) /\
    (forall i other, slots t !! i = Some (Some other) -> duration_since now (created_at other) <= keep0 ->
      i <> Z.to_nat (slot j) -> slots t2 !! i = Some (Some other))
  else t2 = t.
Proof.
  intros t. pose proof (run_table_ok n keep0 ops) as [Hn Hk Hgood Hcur]. fold t in Hn, Hk, Hgood, Hcur.
  split; [done|]. split; [done|]. pose proof (publish_table_spec t j kind now) as Hp. destruct (publish t j kind now) as [t2 []];
    destruct Hp as [Href Hp]; (split; [exact Href|]); [|done]. destruct Hp as [Hc2 Hpub Hat Hfrom Hkept Hst _].
  rewrite Hn in Hat. rewrite Hk in Hkept. split_and!; try done.
  - intros other Ho Hne Hs. apply Hfrom in Ho as [|[Ho _]]; [done|]. apply bool_decide_eq_false_1 in Hs. rewrite Hst in Hs.
    destruct kind; [|destruct Hs; right; exists other; auto]. split; [done|].
    destruct (decide (prev_of other = prev_of j)) as [|Hd]; [done|]. destruct Hs. right. exists other. auto.
  - intros Hfresh Hser. apply bool_decide_eq_false_2. rewrite Hst. intros [|(o & Ho & Hso & _)]; [done|]. by apply (Hser o Ho).
Qed.
