(* ===== verification/GatewayPool.v ===== *)
(** What the gateway holds about the pool ([gateway/src/datum.rs], [tally.rs]): the view
    of the connection, the shares queued for it and their tallies, the counter that
    rate-limits a log line, and the order the configured pools are tried in. An instant
    is in nanoseconds. *)
From S2P Require Import Prelude Target Config AbwSlots GatewayAbw NotifyId Header Template GatewayJob.

(** ** Tallies *)

Record Tally := { tally_count : Z; tally_diff : Z }.
Record ShareTallies := { accepted : Tally; rejected : Tally }.

Definition tally_zero : Tally := {| tally_count := 0; tally_diff := 0 |}.

Definition tally_add (t : Tally) (diff : Z) : Tally :=
  {| tally_count := wrap 64 (tally_count t + 1); tally_diff := sat_add 64 (tally_diff t) diff |}.

Definition tally_merge (t other : Tally) : Tally :=
  {| tally_count := sat_add 64 (tally_count t) (tally_count other);
     tally_diff := sat_add 64 (tally_diff t) (tally_diff other) |}.

(** ** An event that recurs *)

Definition REPEATED_EVENT_LOG_INTERVAL : Z := from_secs 10.

Record RepeatedEvent := { last_logged_at : option Z; since_last_line : Z }.

Definition repeated_new : RepeatedEvent := {| last_logged_at := None; since_last_line := 0 |}.

Definition occurred (e : RepeatedEvent) (now : Z) : RepeatedEvent * option Z :=
  let n := wrap 64 (since_last_line e + 1) in
  if from_option (fun t => duration_since now t <? REPEATED_EVENT_LOG_INTERVAL) false (last_logged_at e)
  then ({| last_logged_at := last_logged_at e; since_last_line := n |}, None)
  else ({| last_logged_at := Some now; since_last_line := 0 |}, Some n).

(** ** The view of the connection *)

Definition MIN_QUEUE_CAPACITY : nat := 64.
Definition MIN_COINBASER_VALUE : Z := 31250000.
Definition COINBASER_WAIT : Z := from_secs 5.

Record PendingCoinbaser := {
  pending_value : Z;
  pending_prev_hash : bytes;
  pending_template : Template;
  pending_new_block : bool;
  requested_at : Z;
}.

Definition with_rounded_min_difficulty (c : ClientConfig) : ClientConfig :=
  {| payout_script := payout_script c; prime_id := prime_id c; coinbase_tag := coinbase_tag c;
     min_difficulty := pow2_ceil (min_difficulty c); v3 := v3 c |}.

Definition config_abw_disabled (c : ClientConfig) : bool := from_option abw_disabled false (v3 c).

Record QueuedShare := {
  queued_job : Job;
  queued_prefix : NotifyPrefix;
  queued_is_block : bool;
  queued_target_byte : Z;
  queued_header : BlockHeaderV2;
  queued_username : bytes;
}.

Record SessionView := {
  view_config : option ClientConfig;
  view_motd : bytes;
  view_abw : AbwAssignments;
  coinbaser_request : option PendingCoinbaser;
  abw_unheld : RepeatedEvent;
}.

Definition view_default : SessionView :=
  {| view_config := None; view_motd := []; view_abw := assignments_default; coinbaser_request := None;
     abw_unheld := repeated_new |}.

Inductive AbwState := NotRequired | Awaiting | Assigned (a : AbwAssignment).

#[export] Instance AbwState_eq_dec : EqDecision AbwState.
Proof. solve_decision. Defined.

Record PoolState := {
  view : SessionView;
  tallies : ShareTallies;
  queue : list QueuedShare;
  queue_capacity : nat;
  queue_full : RepeatedEvent;
  current_pool : nat;
}.

Definition pool_new (queue_capacity : nat) : PoolState :=
  {| view := view_default; tallies := {| accepted := tally_zero; rejected := tally_zero |}; queue := [];
     queue_capacity := Nat.max queue_capacity MIN_QUEUE_CAPACITY; queue_full := repeated_new; current_pool := 0 |}.

Definition set_view (p : PoolState) (v : SessionView) : PoolState :=
  {| view := v; tallies := tallies p; queue := queue p; queue_capacity := queue_capacity p; queue_full := queue_full p;
     current_pool := current_pool p |}.

Definition set_queue (p : PoolState) (q : list QueuedShare) (full : RepeatedEvent) : PoolState :=
  {| view := view p; tallies := tallies p; queue := q; queue_capacity := queue_capacity p; queue_full := full;
     current_pool := current_pool p |}.

(** None where the slot is outside the array. *)
Definition abw_state (p : PoolState) : option AbwState :=
  if negb (from_option (fun c => is_some (v3 c) && negb (config_abw_disabled c)) false (view_config (view p)))
  then Some NotRequired else
  held ← assignment (view_abw (view p));
  Some (from_option Assigned Awaiting held).

Definition tally (p : PoolState) (ok : bool) (diff : Z) : PoolState :=
  {| view := view p;
     tallies := if ok then {| accepted := tally_add (accepted (tallies p)) diff; rejected := rejected (tallies p) |}
                else {| accepted := accepted (tallies p); rejected := tally_add (rejected (tallies p)) diff |};
     queue := queue p; queue_capacity := queue_capacity p; queue_full := queue_full p; current_pool := current_pool p |}.

Definition is_active (p : PoolState) : bool := is_some (view_config (view p)).
Definition pool_config (p : PoolState) : option ClientConfig := view_config (view p).
Definition pool_min_difficulty (p : PoolState) : Z := from_option min_difficulty 0 (view_config (view p)).

Definition set_request (v : SessionView) (r : option PendingCoinbaser) : SessionView :=
  {| view_config := view_config v; view_motd := view_motd v; view_abw := view_abw v; coinbaser_request := r;
     abw_unheld := abw_unheld v |}.

Definition set_abw (v : SessionView) (a : AbwAssignments) : SessionView :=
  {| view_config := view_config v; view_motd := view_motd v; view_abw := a; coinbaser_request := coinbaser_request v;
     abw_unheld := abw_unheld v |}.

Definition set_unheld (v : SessionView) (e : RepeatedEvent) : SessionView :=
  {| view_config := view_config v; view_motd := view_motd v; view_abw := view_abw v;
     coinbaser_request := coinbaser_request v; abw_unheld := e |}.

Definition request_coinbaser (p : PoolState) (t : Template) (new_block : bool) (now : Z) : PoolState * bool :=
  if tmpl_coinbase_value t <? MIN_COINBASER_VALUE then (p, false)
  else if negb (is_active p) then (p, false)
  else (set_view p (set_request (view p) (Some
          {| pending_value := tmpl_coinbase_value t; pending_prev_hash := tmpl_prev_hash t; pending_template := t;
             pending_new_block := new_block; requested_at := now |})), true).

Definition clear_after_disconnect (p : PoolState) : PoolState * bool :=
  (set_queue (set_view p view_default) [] (queue_full p), is_active p).

Definition take_queued_shares (p : PoolState) : PoolState * list QueuedShare :=
  (set_queue p [] (queue_full p), queue p).

Definition queue_share (p : PoolState) (s : QueuedShare) (now : Z) : PoolState :=
  if (queue_capacity p <=? length (queue p))%nat then set_queue p (queue p) (occurred (queue_full p) now).1
  else set_queue p (queue p ++ [s]) (queue_full p).

(** ** The order the pools are tried in *)

Record PoolRotation := { rotation_count : nat; rotation_index : nat; failures : Z }.
Record Next := { next_index : nat; delay : bool; shutdown : bool }.

Definition rotation_new (count : nat) : PoolRotation :=
  {| rotation_count := count; rotation_index := 0; failures := 0 |}.

Definition rotation_next (r : PoolRotation) (was_active : bool) (return_to : option nat) : PoolRotation * Next :=
  let failed := if was_active then 1 else sat_add 64 (failures r) 1 in
  let index := match return_to with
               | Some i => i
               | None => if was_active then rotation_index r else ((rotation_index r + 1) mod rotation_count r)%nat
               end in
  ({| rotation_count := rotation_count r; rotation_index := index; failures := failed |},
   {| next_index := index; delay := negb (is_some return_to) && (index <=? rotation_index r)%nat;
      shutdown := failed =? Z.of_nat (rotation_count r) + 1 |}).

(** The rotation over the sessions that ended, each with whether it received a
    configuration and the pool a probe reached. *)
Fixpoint rotation_run (r : PoolRotation) (ends : list (bool * option nat)) : PoolRotation * list Next :=
  match ends with
  | [] => (r, [])
  | (was_active, return_to) :: ends =>
    let '(r, n) := rotation_next r was_active return_to in
    let '(r, ns) := rotation_run r ends in (r, n :: ns)
  end.

#[export] Instance V3Config_eq_dec : EqDecision V3Config.
Proof. solve_decision. Defined.
#[export] Instance ClientConfig_eq_dec : EqDecision ClientConfig.
Proof. solve_decision. Defined.

(** [Session::on_config]: the view once the pool's configuration is in, and whether the
    templates are rebuilt. *)
Definition on_config (s : SessionView) (motd : bytes) (c : ClientConfig) : SessionView * bool :=
  let previous := view_config s in
  ({| view_config := Some c;
      view_motd := match previous with None => motd | Some _ => view_motd s end;
      view_abw := if from_option (fun p => negb (Bool.eqb (config_abw_disabled p) (config_abw_disabled c))) false previous
                  then assignments_default else view_abw s;
      coinbaser_request := coinbaser_request s; abw_unheld := abw_unheld s |},
   negb (bool_decide (previous = Some c))).

Inductive ConfigHandled := ConfigBad | ConfigIgnored | ConfigTaken (rebuild : bool).

(** [Session::on_config_message]: the view, the resume token and what became of the
    message; a bad one ends the session. *)
Definition on_config_message (protocol_v3 : bool) (s : SessionView) (token : option bytes) (motd plain : bytes)
    : SessionView * option bytes * ConfigHandled :=
  match Config.decode_config plain with
  | Err _ => (s, token, ConfigBad)
  | Ok c =>
    match v3 c, protocol_v3 with
    | Some _, false => (s, token, ConfigIgnored)
    | Some v, true =>
      let '(s, rebuild) := on_config s motd (with_rounded_min_difficulty c) in (s, Some (resume_token v), ConfigTaken rebuild)
    | None, _ =>
      let '(s, rebuild) := on_config s motd (with_rounded_min_difficulty c) in (s, token, ConfigTaken rebuild)
    end
  end.

(** ** Counting *)

Fixpoint occurrences (e : RepeatedEvent) (times : list Z) : RepeatedEvent * list (Z * Z) :=
  match times with
  | [] => (e, [])
  | t :: times =>
    let '(e, report) := occurred e t in
    let '(e, reports) := occurrences e times in (e, option_list ((t,.) <$> report) ++ reports)
  end.

(** Every occurrence is in one report or in the count kept for the next. *)
Lemma occurrences_counted times : forall e, 0 <= since_last_line e -> since_last_line e + zlen times < 2 ^ 64 ->
  let '(e2, reports) := occurrences e times in
  since_last_line e + zlen times = sumZ (snd <$> reports) + since_last_line e2 /\ Forall (fun r => 1 <= r.2) reports.
Proof.
  induction times as [|t times IH]; intros e He Hlt; cbn [occurrences]; [split; [change (zlen _) with 0; cbn; lia|constructor]|].
  rewrite zlen_cons in *. pose proof (zlen_nonneg times). unfold occurred.
  rewrite (wrap_small 64) by (unfold uint; lia).
  destruct (from_option _ false _).
  - specialize (IH {| last_logged_at := last_logged_at e; since_last_line := since_last_line e + 1 |} ltac:(cbn; lia) ltac:(cbn; lia)).
    destruct (occurrences _ times) as [e2 reports]. cbn [since_last_line] in IH. destruct IH as [IH1 IH2].
    change (option_list ((t,.) <$> None) ++ reports) with reports. split; [lia|done].
  - specialize (IH {| last_logged_at := Some t; since_last_line := 0 |} ltac:(cbn; lia) ltac:(cbn; lia)).
    destruct (occurrences _ times) as [e2 reports]. cbn [since_last_line] in IH. destruct IH as [IH1 IH2].
    change (option_list ((t,.) <$> Some ?n)) with [(t, n)]. cbn [app fmap list_fmap]. rewrite sumZ_cons. cbn [snd].
    split; [lia|]. constructor; [cbn; lia|done].
Qed.

(** ** The rotation *)

Lemma rotation_fails n : forall r f, (0 < rotation_count r)%nat -> Z.of_nat (rotation_count r) < 2 ^ 63 -> (rotation_index r < rotation_count r)%nat ->
  0 <= f -> failures r = Z.min f (2 ^ 64 - 1) ->
  forall k nx, (rotation_run r (replicate n (false, None))).2 !! k = Some nx ->
    next_index nx = ((rotation_index r + S k) mod rotation_count r)%nat /\
    (shutdown nx = true <-> f + Z.of_nat (S k) = Z.of_nat (rotation_count r) + 1) /\
    (delay nx = true <-> next_index nx = 0%nat).
Proof.
  induction n as [|n IH]; intros r f Hc Hb Hi Hf Hr k nx; [done|]. cbn [replicate rotation_run].
  unfold rotation_next. set (r1 := {| rotation_count := _ |}).
  assert (failures r1 = Z.min (f + 1) (2 ^ 64 - 1)) as Hr1 by (unfold r1; cbn [failures]; rewrite Hr; unfold sat_add; lia).
  assert (rotation_index r1 < rotation_count r)%nat as Hi1 by (unfold r1; cbn; apply Nat.mod_upper_bound; lia).
  specialize (IH r1 (f + 1) Hc Hb Hi1 ltac:(lia) Hr1). destruct (rotation_run r1 _) as [r2 ns]. cbn [snd] in *.
  destruct k as [|k]; cbn [lookup list_lookup].
  - intros [= <-]. cbn [next_index shutdown delay is_some negb andb]. split; [done|]. split.
    + rewrite Hr. unfold sat_add. rewrite Z.eqb_eq. lia.
    + rewrite Nat.leb_le. destruct (decide (rotation_index r + 1 = rotation_count r)%nat) as [->|Hne].
      * rewrite Nat.Div0.mod_same. split; [done|lia].
      * rewrite Nat.mod_small by lia. split; lia.
  - intros Hk. destruct (IH k nx Hk) as (H1 & H2 & H3). split_and!; [|rewrite H2; unfold r1; cbn [rotation_count]; lia|done].
    rewrite H1. unfold r1. cbn [rotation_index rotation_count]. rewrite Nat.Div0.add_mod_idemp_l. f_equal. lia.
Qed.

(** No pool is left untried before miners are cut off. Once a session on a pool was
    active, or from the start, each session that fails is followed by one on the pool
    after it in the configured order, round to the first; the reconnection is delayed
    exactly when a round starts over; and clients are shut down at exactly one failure
    of an outage, however long it lasts: after an active session, the failure by which
    each pool has failed since; from the start, the one after that. *)
Theorem every_pool_is_tried (r : PoolRotation) (was_active : bool) (n : nat) :
  (rotation_index r < rotation_count r)%nat -> Z.of_nat (rotation_count r) < 2 ^ 63 ->
  let r1 := if was_active then (rotation_next r true None).1 else rotation_new (rotation_count r) in
  let i := rotation_index r1 in
  length (rotation_run r1 (replicate n (false, None))).2 = n /\
  (forall k nx, (rotation_run r1 (replicate n (false, None))).2 !! k = Some nx ->
    next_index nx = ((i + S k) mod rotation_count r)%nat /\ (delay nx = true <-> next_index nx = 0%nat) /\
    (shutdown nx = true <-> S k = rotation_count r + (if was_active then 0 else 1))%nat) /\
  forall j, (j < rotation_count r)%nat -> exists k, (k < rotation_count r)%nat /\ ((i + k) mod rotation_count r = j)%nat.
Proof.
  intros Hi Hb r1 i. set (f := if was_active then 1 else 0).
  assert (rotation_count r1 = rotation_count r) as Ec by (unfold r1; by destruct was_active).
  assert (i < rotation_count r)%nat as Hi1 by (unfold i, r1; destruct was_active; cbn; lia).
  split; [|split].
  - clear. generalize r1. induction n as [|n IH]; intros r0; [done|]. cbn [replicate rotation_run].
    destruct (rotation_next r0 false None) as [r2 nx]. specialize (IH r2). destruct (rotation_run r2 _). cbn in *. by rewrite IH.
  - intros k nx Hk. rewrite <- Ec. destruct (rotation_fails n r1 f) with (k := k) (nx := nx) as (H1 & H2 & H3); try done; rewrite ?Ec; try done; try lia.
    + unfold f. by destruct was_active.
    + unfold r1, f. by destruct was_active.
    + rewrite Ec in H1, H2. split_and!; [done..|]. rewrite H2. unfold f. destruct was_active; lia.
  - intros j Hj. destruct (decide (i <= j)%nat).
    + exists (j - i)%nat. split; [lia|]. replace (i + (j - i))%nat with j by lia. by apply Nat.mod_small.
    + exists (rotation_count r + j - i)%nat. split; [lia|]. replace (i + (rotation_count r + j - i))%nat with (j + 1 * rotation_count r)%nat by lia.
      rewrite Nat.Div0.mod_add. by apply Nat.mod_small.
Qed.

Lemma every_pool_is_tried_witness : exists nx,
  (rotation_run (rotation_new 3) (replicate 5 (false, None))).2 !! 3%nat = Some nx /\ shutdown nx = true.
Proof.
  destruct (every_pool_is_tried (rotation_new 3) false 5) as (_ & H & _); [apply Nat.ltb_lt; reflexivity|reflexivity|].
  exists {| next_index := 1; delay := false; shutdown := true |}. split; [reflexivity|].
  destruct (H 3%nat {| next_index := 1; delay := false; shutdown := true |} eq_refl) as (_ & _ & Hs). apply Hs. reflexivity.
Defined.
