(* ===== verification/GatewayUser.v ===== *)
(** The stratum username ([gateway/src/username.rs], with [username_param] of
    [stratum/connection.rs] and [validate_username_modifiers] of [config.rs]): the address
    its shares are credited to, the modifier that spreads them over addresses, and the
    username a share carries to the pool. Text is its UTF-8 bytes; a proportion is an
    IEEE double, whose sums and products are those of [SpecFloat]. *)
From Stdlib Require Import SpecFloat.
From S2P Require Import Prelude Text Float Reader Utf8 Hex Address ShareMsg.

(** [x.max(0.0)]: the other where one is not a number. *)
Definition max_zero (x : f64) : f64 := if is_nan x || f64_lt x f64_zero then f64_zero else x.

(** [x.ceil() as i64]: saturating, zero for what is not a number. *)
Definition ceil_i64 (x : f64) : Z :=
  match x with
  | S754_nan | S754_zero _ => 0
  | S754_infinity neg => if neg then - 2 ^ 63 else 2 ^ 63 - 1
  | S754_finite neg m e =>
    let v := if neg then - Z.pos m else Z.pos m in
    let c := if 0 <=? e then v * 2 ^ e else - ((- v) / 2 ^ (- e)) in
    Z.max (- 2 ^ 63) (Z.min c (2 ^ 63 - 1))
  end.

Record ModifierRange := { range_address : bytes; proportion : f64 }.
Record UsernameModifier := { modifier_name : bytes; ranges : list ModifierRange }.
Record Parsed := { parsed_address : bytes; parsed_worker : bytes; parsed_modifier : option UsernameModifier }.

Definition TILDE : byte := zb 0x7e.
Definition DOT : byte := zb 0x2e.

Definition find_modifier (modifiers : list UsernameModifier) (name : bytes) : option UsernameModifier :=
  snd <$> list_find (fun m => modifier_name m = name) modifiers.

Definition parse (username : bytes) (modifiers : list UsernameModifier) : Parsed :=
  let named :=
    '(base, name) ← split_once TILDE username;
    m ← find_modifier modifiers name; Some (base, m) in
  let '(base, modifier) := match named with Some (base, m) => (base, Some m) | None => (username, None) end in
  let '(address, worker) := split_address_worker base in
  {| parsed_address := address; parsed_worker := worker; parsed_modifier := modifier |}.

Definition user_address_of (username : bytes) (modifiers : list UsernameModifier) : bytes :=
  parsed_address (parse username modifiers).

Definition SELECTOR_SPACE : f64 := S754_finite false (2 ^ 52) (-36).
Definition SELECTOR_MAX : Z := 65535.

Definition range_end (cumulative : f64) : Z :=
  Z.min (wrap_i64 (ceil_i64 (f64_mul cumulative SELECTOR_SPACE) - 1)) SELECTOR_MAX.

Fixpoint uncovered_loop (rs : list ModifierRange) (sum : f64) : option f64 :=
  match rs with
  | [] => Some (SFsub f64_prec f64_emax (S754_finite false (2 ^ 52) (-52)) sum)
  | r :: rs =>
    let sum := f64_add sum (proportion r) in
    if SELECTOR_MAX <=? range_end sum then None else uncovered_loop rs sum
  end.

Definition uncovered_share (m : UsernameModifier) : option f64 := uncovered_loop (ranges m) f64_zero.

(** [u16::from_le_bytes([hash[31], hash[30]])]. *)
Definition hash_byte (hash : bytes) (i : nat) : Z := bz (default (zb 0) (hash !! i)).
Definition selector (hash : bytes) : Z := hash_byte hash 31 + 256 * hash_byte hash 30.

Fixpoint pick_range (rs : list ModifierRange) (sum : f64) (sel : Z) : option ModifierRange :=
  match rs with
  | [] => None
  | r :: rs =>
    let sum := f64_add sum (max_zero (proportion r)) in
    if sel <=? range_end sum then Some r else pick_range rs sum sel
  end.

Definition apply_modifier (modifiers : list UsernameModifier) (pool_address username hash : bytes) : option bytes :=
  let p := parse username modifiers in
  m ← parsed_modifier p;
  Some match pick_range (ranges m) f64_zero (selector hash) with
       | Some r => (if bool_decide (range_address r = []) then parsed_address p else range_address r) ++ parsed_worker p
       | None => pool_address
       end.

Section payable.
Context `{!AddressCodec}.

Definition is_payable (username : bytes) (modifiers : list UsernameModifier) : bool :=
  is_valid (user_address_of username modifiers) None.

Definition refuses_username (require_address_username : bool) (modifiers : list UsernameModifier) (username : bytes) : bool :=
  require_address_username && negb (is_payable username modifiers).

Inductive ModifierError := NotPayable (address : bytes) | Negative (address : bytes).

(** The check of one modifier: the error it stops the configuration with, or the
    proportion it warns of. *)
Definition validate_modifier (m : UsernameModifier) : result ModifierError (option f64) :=
  match list_find (fun r => range_address r <> [] /\ is_valid (range_address r) None = false) (ranges m) with
  | Some (_, r) => Err (NotPayable (range_address r))
  | None =>
    match list_find (fun r => f64_lt (proportion r) f64_zero = true) (ranges m) with
    | Some (_, r) => Err (Negative (range_address r))
    | None => Ok (uncovered_share m)
    end
  end.
End payable.

(** ** The username on the wire *)

Record DatumUsers := { pool_pass_full_users : bool; pool_pass_workers : bool }.

(** The [while] loop: [end] is at most the length, and 0 is a boundary. *)
Fixpoint cut_to_boundary (s : bytes) (end_ : nat) : nat :=
  if is_char_boundary s end_ then end_ else match end_ with O => O | S e => cut_to_boundary s e end.

Definition starts_with_dot (s : bytes) : bool := bool_decide (head s = Some DOT).

Definition wire_full (d : DatumUsers) (pool_address username : bytes) : bytes :=
  if (negb (pool_pass_full_users d) && negb (pool_pass_workers d)) || bool_decide (username = []) then pool_address
  else if pool_pass_full_users d && negb (starts_with_dot username) then username
  else pool_address ++ (if starts_with_dot username then [] else [DOT]) ++ username.

Definition for_wire (d : DatumUsers) (pool_address username : bytes) : bytes :=
  let full := wire_full d pool_address username in
  take (cut_to_boundary full (Nat.min (length full) MAX_USERNAME_LEN)) full.

(** [username_param]: the parameter, cut at its first NUL. *)
Definition username_param (param : option bytes) : bytes :=
  let username := default (String.list_byte_of_string "NULL") param in
  take (default (length username) (position (fun b => bz b =? 0) username)) username.

(** The username of a share's credit ([credited_username]). *)
Definition credited_username (modifiers : list UsernameModifier) (pool_address username hash : bytes) : bytes :=
  default username (apply_modifier modifiers pool_address username hash).

(** ** The ranges

    The end of each range, from the sum of the proportions so far. *)
Fixpoint range_ends (rs : list ModifierRange) (sum : f64) : list Z :=
  match rs with
  | [] => []
  | r :: rs => let sum := f64_add sum (proportion r) in range_end sum :: range_ends rs sum
  end.

(** The configuration takes no negative proportion, and JSON holds numbers alone. *)
Definition range_ok (r : ModifierRange) : Prop := f64_lt (proportion r) f64_zero = false /\ is_nan (proportion r) = false.

Lemma max_zero_ok r : range_ok r -> max_zero (proportion r) = proportion r.
Proof. intros [H1 H2]. unfold max_zero. by rewrite H1, H2. Qed.

Lemma pick_range_spec rs : forall sum sel, Forall range_ok rs ->
  match pick_range rs sum sel with
  | Some r => exists k, rs !! k = Some r /\ (exists e, range_ends rs sum !! k = Some e /\ sel <= e) /\
      Forall (fun e => e < sel) (take k (range_ends rs sum))
  | None => Forall (fun e => e < sel) (range_ends rs sum)
  end.
Proof.
  induction rs as [|r rs IH]; intros sum sel Hok; cbn [pick_range range_ends]; [constructor|].
  apply Forall_cons in Hok as [Hr Hok]. rewrite max_zero_ok by done.
  destruct (Z.leb_spec sel (range_end (f64_add sum (proportion r)))) as [Hle|Hgt].
  - exists 0%nat. split; [done|]. split; [|constructor]. by eexists.
  - specialize (IH (f64_add sum (proportion r)) sel Hok). destruct (pick_range rs _ sel) as [r2|].
    + destruct IH as (k & Hk & He & Hall). exists (S k). split_and!; [done|done|]. by constructor.
    + by constructor.
Qed.

Lemma uncovered_spec rs : forall sum, uncovered_loop rs sum = None <-> exists e, e ∈ range_ends rs sum /\ SELECTOR_MAX <= e.
Proof.
  induction rs as [|r rs IH]; intros sum; cbn [uncovered_loop range_ends].
  { split; [done|]. by intros (e & ?%not_elem_of_nil & _). }
  destruct (Z.leb_spec SELECTOR_MAX (range_end (f64_add sum (proportion r)))) as [Hle|Hgt].
  - split; [|done]. intros _. eexists. split; [by left|done].
  - rewrite IH. split.
    + intros (e & ? & ?). exists e. split; [by right|done].
    + intros (e & [->|?]%elem_of_cons & ?); [lia|by exists e].
Qed.

Lemma selector_range hash : 0 <= selector hash <= SELECTOR_MAX.
Proof. unfold selector, hash_byte, SELECTOR_MAX. pose proof (bz_range (default (zb 0) (hash !! 31%nat))). pose proof (bz_range (default (zb 0) (hash !! 30%nat))). lia. Qed.

(** A modifier spreads a miner's shares as it is written. For a username that names a
    modifier the configuration accepted, every share is paid, with the miner's worker
    name, to the first range whose end the share's selector does not pass (to the miner's
    own address where the range names none); the ends are where the running sum of the
    proportions falls in the 65536 selectors. The gateway's own address is paid exactly
    the selectors past every range, and none at all unless the configuration warned that
    the proportions leave some; a username that names no modifier is credited as it is. *)
Theorem modifier_pays_its_ranges `{!AddressCodec} (modifiers : list UsernameModifier) (pool_address username hash : bytes) :
  let p := parse username modifiers in
  match parsed_modifier p with
  | None => credited_username modifiers pool_address username hash = username
  | Some m =>
    m ∈ modifiers /\
    forall warned, validate_modifier m = Ok warned -> Forall (fun r => is_nan (proportion r) = false) (ranges m) ->
      let ends := range_ends (ranges m) f64_zero in
      let paid := credited_username modifiers pool_address username hash in
      (exists k r e, ranges m !! k = Some r /\ ends !! k = Some e /\ selector hash <= e /\
        Forall (fun e => e < selector hash) (take k ends) /\
        paid = (if bool_decide (range_address r = []) then parsed_address p else range_address r) ++ parsed_worker p /\
        (range_address r = [] \/ is_valid (range_address r) None = true)) \/
      (Forall (fun e => e < selector hash) ends /\ paid = pool_address /\ warned <> None)
  end.
Proof.
  cbn zeta. unfold credited_username, apply_modifier. destruct (parsed_modifier (parse username modifiers)) as [m|] eqn:Em; [|done].
  split.
  { unfold parse in Em. destruct (split_once TILDE username) as [[base name]|] eqn:Es; cbn in Em.
    - unfold find_modifier in Em. destruct (list_find _ modifiers) as [[i m2]|] eqn:Ef; cbn in Em;
        destruct (split_address_worker _); cbn in Em; [injection Em as ->|done].
      apply list_find_Some in Ef as (Hi & _). by eapply list_elem_of_lookup_2.
    - by destruct (split_address_worker _). }
  intros warned Hv Hnan. cbn [mbind option_bind default]. unfold validate_modifier in Hv.
  destruct (list_find _ (ranges m)) as [[]|] eqn:Ea in Hv; [done|]. destruct (list_find _ (ranges m)) as [[]|] eqn:En in Hv; [done|].
  injection Hv as <-. apply list_find_None in Ea. apply list_find_None in En.
  assert (Forall range_ok (ranges m)) as Hok.
  { apply Forall_forall. intros r Hr. rewrite Forall_forall in En, Hnan. split; [|by apply Hnan]. specialize (En r Hr).
    by destruct (f64_lt (proportion r) f64_zero). }
  pose proof (pick_range_spec (ranges m) f64_zero (selector hash) Hok) as Hp. destruct (pick_range _ _ _) as [r|].
  - left. destruct Hp as (k & Hk & (e & He & Hle) & Hall). exists k, r, e. split_and!; try done.
    destruct (decide (range_address r = [])) as [|Hne]; [by left|right]. rewrite Forall_forall in Ea.
    destruct (is_valid (range_address r) None) eqn:E; [done|]. destruct (Ea r); [|done]. by eapply list_elem_of_lookup_2.
  - right. split_and!; [done|done|]. intros [e [He Hmax]]%uncovered_spec. rewrite Forall_forall in Hp. specialize (Hp e He).
    pose proof (selector_range hash). lia.
Qed.

(** ** Cutting text

    Text cut at a boundary is text on both sides. *)
Lemma utf8_step_boundary l i : l <> [] -> (utf8_step l).2 = true -> is_char_boundary l i = true ->
  i = 0%nat \/ ((utf8_step l).1 <= i)%nat.
Proof.
  unfold is_char_boundary. intros Hl Hok Hb. assert (forall b lo hi more, lead b = Some (lo, hi, more) -> 0x80 <= lo /\ hi <= 0xbf) as Hlead.
  { intros b lo hi more. unfold lead. repeat (match goal with |- (if ?c then _ else _) = _ -> _ => destruct c; [intros [= <- <- _]; lia|] end). done. }
  destruct l as [|b l]; [done|]. destruct i as [|i]; [by left|]. right. cbn [utf8_step lookup list_lookup] in *.
  destruct (bz b <? 0x80); cbn [fst]; [lia|]. destruct (lead (bz b)) as [[[lo hi] more]|] eqn:El; [|done]. apply Hlead in El.
  assert (forall x, in_range lo hi x = true -> continuation x = true) as Hr.
  { intros [x|]; [|done]. unfold continuation, in_range. rewrite !andb_true_iff, !Z.leb_le. lia. }
  assert (forall j, continuation (l !! j) = true -> i <> j) as Hne.
  { intros j Hj ->. unfold continuation, in_range in Hj. destruct (l !! j) as [x|]; [|done]. rewrite andb_true_iff, !Z.leb_le in Hj.
    rewrite negb_true_iff, andb_false_iff, Z.leb_gt, Z.ltb_ge in Hb. lia. }
  destruct (in_range lo hi (l !! 0%nat)) eqn:E0; cbn [negb] in *; [|done]. apply Hr, Hne in E0.
  destruct more as [|[|more]]; [cbn; lia| |].
  - destruct (continuation (l !! 1%nat)) eqn:E1; [|done]. apply Hne in E1. cbn. lia.
  - destruct (continuation (l !! 1%nat)) eqn:E1; cbn [negb] in *; [|done]. destruct (continuation (l !! 2%nat)) eqn:E2; [|done].
    apply Hne in E1, E2. cbn. lia.
Qed.

Lemma boundary_drop l n i : (n <= length l)%nat -> is_char_boundary l (n + i) = is_char_boundary (drop n l) i.
Proof.
  intros Hn. unfold is_char_boundary. rewrite lookup_drop. destruct (l !! (n + i)%nat); [done|]. rewrite length_drop.
  destruct (Nat.eqb_spec (n + i) (length l)), (Nat.eqb_spec i (length l - n)); lia.
Qed.

Lemma valid_take_drop f : forall l i, (length l <= f)%nat -> valid_utf8 l = true -> is_char_boundary l i = true ->
  valid_utf8 (take i l) = true /\ valid_utf8 (drop i l) = true.
Proof.
  induction f as [|f IH]; intros [|b l] i Hl Hv Hb; try (by rewrite take_nil, drop_nil); [cbn in Hl; lia|].
  set (s := b :: l) in *. rewrite valid_utf8_step in Hv by done. apply andb_true_iff in Hv as [Hok Hv].
  destruct (utf8_step_boundary s i ltac:(done) Hok Hb) as [->|Hle].
  { rewrite take_0, drop_0. split; [done|]. rewrite valid_utf8_step by done. by rewrite Hok. }
  pose proof (utf8_step_le s Hok) as Hs. pose proof (utf8_step_pos b l) as Hp. fold s in Hp. set (n := (utf8_step s).1) in *.
  destruct (IH (drop n s) (i - n)%nat) as [Ht Hd].
  { rewrite length_drop. lia. } { done. } { rewrite <- boundary_drop by lia. by replace (n + (i - n))%nat with i by lia. }
  rewrite drop_drop in Hd. replace (n + (i - n))%nat with i in Hd by lia. split; [|done].
  replace (take i s) with (take n s ++ take (i - n) (drop n s)).
  - unfold n. by rewrite valid_utf8_app_step.
  - rewrite take_drop_commute. replace (n + (i - n))%nat with i by lia. rewrite <- (take_drop n (take i s)) at 2.
    f_equal. rewrite take_take. f_equal. lia.
Qed.

Lemma valid_cut l i : valid_utf8 l = true -> is_char_boundary l i = true -> valid_utf8 (take i l) = true /\ valid_utf8 (drop i l) = true.
Proof. by apply (valid_take_drop (length l)). Qed.

(** A character of one byte is between boundaries. *)
Lemma ascii_boundary l i b : l !! i = Some b -> bz b < 0x80 -> is_char_boundary l i = true.
Proof. intros E Hb. unfold is_char_boundary. rewrite E. rewrite negb_true_iff, andb_false_iff, Z.leb_gt. by left. Qed.

Lemma boundary_length l : is_char_boundary l (length l) = true.
Proof. unfold is_char_boundary. rewrite lookup_ge_None_2 by lia. apply Nat.eqb_refl. Qed.


Lemma boundary_zero s : valid_utf8 s = true -> is_char_boundary s 0 = true.
Proof.
  destruct s as [|b s]; [done|]. rewrite valid_utf8_step by done. intros [Hok _]%andb_true_iff. unfold is_char_boundary. cbn [lookup list_lookup].
  rewrite negb_true_iff, andb_false_iff, Z.leb_gt, Z.ltb_ge. cbn [utf8_step] in Hok. destruct (Z.ltb_spec (bz b) 0x80); [by left|right].
  destruct (lead (bz b)) as [[[lo hi] more]|] eqn:El; [|done]. unfold lead in El.
  repeat match type of El with (if ?c then _ else _) = _ => destruct c eqn:?; [reflect_Z; lia|] end. done.
Qed.

Lemma boundary_near f : forall s n, (length s <= f)%nat -> valid_utf8 s = true -> (n <= length s)%nat ->
  exists k, (k <= n <= k + 3)%nat /\ is_char_boundary s k = true.
Proof.
  induction f as [|f IH]; intros [|b s] n Hl Hv Hn; cbn in Hl; try lia;
    [exists 0%nat; split; [cbn in Hn; lia|done]..|].
  set (l := b :: s) in *. pose proof Hv as Hv0. rewrite valid_utf8_step in Hv by done. apply andb_true_iff in Hv as [Hok Hv].
  pose proof (utf8_step_pos b s) as Hp. fold l in Hp. pose proof (utf8_step_le l Hok) as Hle.
  assert ((utf8_step l).1 <= 4)%nat as H4.
  { clear. unfold l. cbn [utf8_step]. repeat case_match; cbn; lia. }
  set (m := (utf8_step l).1) in *. destruct (decide (n < m)%nat).
  { exists 0%nat. split; [lia|]. by apply boundary_zero. }
  destruct (IH (drop m l) (n - m)%nat) as (k & Hk & Hb); [rewrite length_drop; unfold l in *; cbn in *; lia|done|rewrite length_drop; lia|].
  exists (m + k)%nat. split; [lia|]. by rewrite boundary_drop.
Qed.

Lemma cut_to_boundary_spec s n : valid_utf8 s = true -> (n <= length s)%nat ->
  let k := cut_to_boundary s n in (k <= n <= k + 3)%nat /\ is_char_boundary s k = true.
Proof.
  intros Hv Hn. destruct (boundary_near (length s) s n ltac:(lia) Hv Hn) as (k0 & Hk0 & Hb0). cbn zeta.
  assert (k0 <= cut_to_boundary s n <= n /\ is_char_boundary s (cut_to_boundary s n) = true)%nat as [? ?]; [|split; [lia|done]].
  clear Hn. destruct Hk0 as [Hle _]. revert Hle. induction n as [|n IH]; intros Hle; cbn [cut_to_boundary];
    match goal with |- context [if is_char_boundary s ?k then _ else _] => destruct (is_char_boundary s k) eqn:E end;
    (try by split; [lia|done]).
  - assert (k0 = 0%nat) by lia. subst. congruence.
  - destruct (decide (k0 = S n)) as [->|]; [congruence|]. destruct IH; [lia|]. split; [lia|done].
Qed.

Lemma username_param_ok param : (forall u, param = Some u -> valid_utf8 u = true) ->
  valid_utf8 (username_param param) = true /\ zb 0 ∉ username_param param.
Proof.
  intros Hp. unfold username_param. set (u := default _ param).
  assert (valid_utf8 u = true) as Hu by (unfold u; destruct param; [by apply Hp|by vm_compute]).
  destruct (position _ u) as [i|] eqn:E; cbn [default].
  - apply position_Some in E as (b & Hb & Hz & Hbefore). split.
    + apply (valid_cut u i Hu). apply (ascii_boundary u i b Hb). apply Z.eqb_eq in Hz. lia.
    + intros Hin. rewrite Forall_forall in Hbefore. by apply Hbefore in Hin.
  - apply position_None in E. rewrite firstn_all. split; [done|]. intros Hin. rewrite Forall_forall in E. by apply E in Hin.
Qed.

(** What the parser takes a username apart into is text, and holds no NUL it did not. *)
Definition text_ok (s : bytes) : Prop := valid_utf8 s = true /\ zb 0 ∉ s.

Lemma text_ok_cut s i : text_ok s -> is_char_boundary s i = true -> text_ok (take i s) /\ text_ok (drop i s).
Proof.
  intros [Hv Hn] Hb. destruct (valid_cut s i Hv Hb) as [H1 H2]. repeat split; try done; intros Hin; apply Hn.
  - apply elem_of_take in Hin as (j & Hj & _). by eapply list_elem_of_lookup_2.
  - apply list_elem_of_lookup in Hin as [j Hj]. rewrite lookup_drop in Hj. by eapply list_elem_of_lookup_2.
Qed.

Lemma text_ok_app a b : text_ok a -> text_ok b -> text_ok (a ++ b).
Proof. intros [Ha Hna] [Hb Hnb]. split; [by apply valid_utf8_app|]. by intros [|]%elem_of_app. Qed.

Lemma parse_text_ok username modifiers : text_ok username ->
  text_ok (parsed_address (parse username modifiers)) /\ text_ok (parsed_worker (parse username modifiers)).
Proof.
  intros Hu. assert (forall s, text_ok s -> text_ok (split_address_worker s).1 /\ text_ok (split_address_worker s).2) as Hsplit.
  { intros s Hs. unfold split_address_worker. destruct (position _ s) as [i|] eqn:E; cbn [fst snd]; [|split; [done|by split; [done|apply not_elem_of_nil]]].
    apply text_ok_cut; [done|]. apply position_Some in E as (b & Hb & Hd & _). apply (ascii_boundary s i b Hb). apply Z.eqb_eq in Hd. lia. }
  assert (forall base name, split_once TILDE username = Some (base, name) -> text_ok base) as Hbase.
  { intros base name. unfold split_once. destruct (position _ username) as [i|] eqn:E; cbn [mbind option_bind]; [|done]. intros [= <- _].
    apply text_ok_cut; [done|]. apply position_Some in E as (b & Hb & Hd & _). apply (ascii_boundary _ i b Hb).
    apply bool_decide_eq_true_1 in Hd as ->. by vm_compute. }
  unfold parse. destruct (split_once TILDE username) as [[base name]|] eqn:Es; cbn [mbind option_bind].
  - specialize (Hbase _ _ eq_refl). destruct (find_modifier modifiers name); cbn [mbind option_bind].
    + specialize (Hsplit base Hbase). by destruct (split_address_worker base).
    + specialize (Hsplit username Hu). by destruct (split_address_worker username).
  - specialize (Hsplit username Hu). by destruct (split_address_worker username).
Qed.

Lemma credited_text_ok modifiers pool_address username hash : text_ok username -> text_ok pool_address ->
  Forall (fun m => Forall (fun r => text_ok (range_address r)) (ranges m)) modifiers ->
  text_ok (credited_username modifiers pool_address username hash).
Proof.
  intros Hu Hp Hm. destruct (parse_text_ok username modifiers Hu) as [Ha Hw]. unfold credited_username, apply_modifier.
  destruct (parsed_modifier _) as [m|] eqn:Em; cbn [mbind option_bind default]; [|done].
  assert (m ∈ modifiers) as Hin.
  { unfold parse in Em. destruct (split_once TILDE username) as [[base name]|]; cbn [mbind option_bind] in Em.
    - unfold find_modifier in Em. destruct (list_find _ modifiers) as [[i m2]|] eqn:Ef; cbn [fmap option_fmap option_map mbind option_bind snd] in Em;
        destruct (split_address_worker _); cbn [parsed_modifier] in Em; [injection Em as ->|done].
      apply list_find_Some in Ef as (Hi & _). by eapply list_elem_of_lookup_2.
    - by destruct (split_address_worker _). }
  rewrite Forall_forall in Hm. specialize (Hm m Hin). destruct (pick_range _ _ _) as [r|] eqn:Er; [|done].
  apply text_ok_app; [|done]. case_bool_decide; [done|].
  assert (forall rs sum, pick_range rs sum (selector hash) = Some r -> r ∈ rs) as Hpick.
  { clear. induction rs as [|r2 rs IH]; intros sum; cbn [pick_range]; [done|]. case_match; [intros [= ->]; by left|].
    intros ?%IH. by right. }
  rewrite Forall_forall in Hm. eapply Hm, Hpick, Er.
Qed.

Lemma wire_full_text_ok d pool_address username : text_ok pool_address -> text_ok username -> text_ok (wire_full d pool_address username).
Proof.
  intros Hp Hu. unfold wire_full. do 2 (case_match; [done|]). apply text_ok_app; [done|]. apply text_ok_app; [|done].
  destruct (starts_with_dot username); (split; [by vm_compute|]); [apply not_elem_of_nil|]. by intros ?%list_elem_of_singleton.
Qed.

(** The pool reads the username the gateway means. Whatever a miner sends as its
    username, a NUL in it included, and however the modifiers credit the share: the
    username put on the wire is what the configuration selects, in full where it fits,
    and otherwise cut by at most three bytes below the protocol's limit, between
    characters; and the pool's decoder takes back that username and stops where it
    ends. *)
Theorem wire_username_is_read (d : DatumUsers) (modifiers : list UsernameModifier) (pool_address : bytes)
    (param : option bytes) (hash f tl : bytes) :
  (forall u, param = Some u -> valid_utf8 u = true) -> text_ok pool_address ->
  Forall (fun m => Forall (fun r => text_ok (range_address r)) (ranges m)) modifiers ->
  let full := wire_full d pool_address (credited_username modifiers pool_address (username_param param) hash) in
  let wire := for_wire d pool_address (credited_username modifiers pool_address (username_param param) hash) in
  (length full <= MAX_USERNAME_LEN -> wire = full)%nat /\
  (wire `prefix_of` full) /\ (Nat.min (length full) MAX_USERNAME_LEN - 3 <= length wire <= MAX_USERNAME_LEN)%nat /\
  read_username (Rd f (wire ++ zb 0 :: tl)) = Ok (wire, Rd f tl).
Proof.
  intros Hparam Hpool Hm full wire. pose proof (username_param_ok param Hparam) as Hu.
  assert (text_ok full) as Hfull by (apply wire_full_text_ok; [done|]; by apply credited_text_ok).
  destruct (cut_to_boundary_spec full (Nat.min (length full) MAX_USERNAME_LEN) (proj1 Hfull) ltac:(lia)) as [Hk Hb].
  unfold wire, for_wire. fold full. set (k := cut_to_boundary _ _) in *.
  destruct (text_ok_cut full k Hfull Hb) as [[Hv Hn] _]. split_and!.
  - intros Hle. assert (k = length full) as ->; [|apply firstn_all].
    unfold k. rewrite Nat.min_l by done. destruct (length full) eqn:E; [cbn; by destruct (is_char_boundary full 0)|]. cbn [cut_to_boundary]. rewrite <- E. by rewrite boundary_length.
  - exists (drop k full). by rewrite take_drop.
  - rewrite length_take. lia.
  - rewrite length_take. lia.
  - apply read_username_ok; [done..|]. rewrite length_take. lia.
Qed.

(** ** Examples: the modifier of three tenths and a half *)

Definition example_modifier : UsernameModifier :=
  {| modifier_name := text "split";
     ranges := [{| range_address := example_lower; proportion := S754_finite false 5404319552844595 (-54) |};
                {| range_address := []; proportion := S754_finite false (2 ^ 52) (-53) |}] |}.

Definition example_selector (n : Z) : bytes := zeros 30 ++ [zb (n / 256); zb n].

Example example_modifier_pays :
  credited_username [example_modifier] (text "pool") (text "me.rig~split") (example_selector 0x4ccc) = example_lower ++ text ".rig" /\
  credited_username [example_modifier] (text "pool") (text "me.rig~split") (example_selector 0x4ccd) = text "me.rig" /\
  credited_username [example_modifier] (text "pool") (text "me.rig~split") (example_selector 0xcccc) = text "me.rig" /\
  credited_username [example_modifier] (text "pool") (text "me.rig~split") (example_selector 0xcccd) = text "pool" /\
  credited_username [example_modifier] (text "pool") (text "me.rig~typo") (example_selector 7) = text "me.rig~typo".
Proof. split_and!; vm_compute; reflexivity. Qed.

Lemma modifier_pays_its_ranges_witness : exists k r, ranges example_modifier !! k = Some r /\
  credited_username [example_modifier] (text "pool") (text "me.rig~split") (example_selector 0x4ccd) =
    (if bool_decide (range_address r = []) then text "me" else range_address r) ++ text ".rig".
Proof.
  destruct (modifier_pays_its_ranges (H := letter_codec) [example_modifier] (text "pool") (text "me.rig~split") (example_selector 0x4ccd)) as [_ H].
  destruct (H (uncovered_share example_modifier)) as [(k & r & e & Hk & _ & _ & _ & Hp & _)|[Hall _]].
  - vm_compute. reflexivity.
  - repeat constructor.
  - exists k, r. split; [exact Hk|exact Hp].
  - apply Forall_cons in Hall as [_ Hall]. apply Forall_cons in Hall as [Hc _]. vm_compute in Hc. discriminate.
Defined.

Lemma wire_username_is_read_witness :
  let wire := for_wire {| pool_pass_full_users := true; pool_pass_workers := true |} (text "pool")
    (credited_username [] (text "pool") (username_param (Some (text "me.rig" ++ [zb 0; zb 0x78]))) (zeros 32)) in
  wire = text "me.rig" /\ read_username (Rd [] (wire ++ [zb 0; zb 1])) = Ok (wire, Rd [] [zb 1]).
Proof.
  destruct (wire_username_is_read {| pool_pass_full_users := true; pool_pass_workers := true |} [] (text "pool")
    (Some (text "me.rig" ++ [zb 0; zb 0x78])) (zeros 32) [] [zb 1]) as (Hfull & _ & _ & Hread).
  - intros u [= <-]. vm_compute. reflexivity.
  - split; [vm_compute; reflexivity|]. intros Hin%list_elem_of_In. vm_compute in Hin. repeat (destruct Hin as [Hin|Hin]; [discriminate|]). exact Hin.
  - constructor.
  - split; [|exact Hread]. etransitivity; [apply Hfull; apply Nat.leb_le; vm_compute; reflexivity|]. vm_compute. reflexivity.
Defined.
