(* ===== verification/GatewayShares.v ===== *)
(** Sending the queued shares and reading the verdicts
    ([gateway/src/datum/session/shares.rs], with the coinbaser answers of
    [datum/session.rs]): the message of a share, the sections it carries once per
    connection, and what the pool rebuilds from them. *)
From S2P Require Import Prelude Reader Bitcoin Utf8 Address Target Header Messages ShareMsg Coinbaser AbwMsg AbwSlots Config Coinbase.
From S2P Require Import Bounded Jobs Verify Template NotifyId GatewayAbw GatewayJob GatewayPool GatewayUser.

Definition SHARE_ACK_GRACE : Z := from_secs 25.
Definition SHARE_ACK_TIMEOUT : Z := from_secs 30.

(** ** The sections of a job, each sent once *)

Record SentSections := {
  sent_serial : Z;
  job_section_sent : bool;
  pooled_coinbase_sent : bool;
  subsidy_only_coinbase_sent : bool;
}.

Definition sent_new (serial : Z) : SentSections :=
  {| sent_serial := serial; job_section_sent := false; pooled_coinbase_sent := false; subsidy_only_coinbase_sent := false |}.

Definition coinbase_sent (s : SentSections) (kind : CoinbaseKind) : bool :=
  match kind with Pooled => pooled_coinbase_sent s | SubsidyOnly => subsidy_only_coinbase_sent s end.

(** The flag it had, and the state with it set. *)
Definition mark_coinbase_sent (s : SentSections) (kind : CoinbaseKind) : bool * SentSections :=
  (coinbase_sent s kind,
   match kind with
   | Pooled => {| sent_serial := sent_serial s; job_section_sent := job_section_sent s; pooled_coinbase_sent := true;
                  subsidy_only_coinbase_sent := subsidy_only_coinbase_sent s |}
   | SubsidyOnly => {| sent_serial := sent_serial s; job_section_sent := job_section_sent s;
                       pooled_coinbase_sent := pooled_coinbase_sent s; subsidy_only_coinbase_sent := true |}
   end).

(** None where the slot is outside the vector. *)
Definition sections_for (sent : list (option SentSections)) (q : QueuedShare)
    : option (list (option SentSections) * (option JobSection * option CoinbaseSection)) :=
  let job := queued_job q in
  let at_ := Z.to_nat (slot job) in
  entry ← sent !! at_;
  let s := default (sent_new (serial job)) entry in
  let s := if sent_serial s =? serial job then s else sent_new (serial job) in
  let job_part := if job_section_sent s then None else Some (job_section job) in
  let s := {| sent_serial := sent_serial s; job_section_sent := true; pooled_coinbase_sent := pooled_coinbase_sent s;
              subsidy_only_coinbase_sent := subsidy_only_coinbase_sent s |} in
  let kind := coinbase_of (queued_prefix q) in
  let '(was, s) := mark_coinbase_sent s kind in
  let coinbase_part := if (was : bool) then None else Some (section (job_coinbase job kind)) in
  Some (<[at_ := Some s]> sent, (job_part, coinbase_part)).

Definition pow_submit (q : QueuedShare) (extranonce username : bytes) (job_part : option JobSection)
    (coinbase_part : option CoinbaseSection) : PowSubmit :=
  let h := queued_header q in
  let b := blake2b_from_header h in
  {| job_id := slot (queued_job q); coinbase_id := wire_id (coinbase_of (queued_prefix q));
     is_block := queued_is_block q; subsidy_only := bool_decide (queued_prefix q = EmptyWork);
     quickdiff := bool_decide (queued_prefix q = Quickdiff); target_byte := queued_target_byte q;
     ntime := fst (sia_halves (sia_ntime b)); share_nonce := Header.nonce h;
     share_version := Z.lor V2_FLAG (wrap 32 (Header.version h)); share_extranonce_field := extranonce;
     username := username; use_time_offset := negb (Z.land (Header.flags h) FLAG_USE_TIME_OFFSET =? 0);
     ShareMsg.job := job_part; coinbase := coinbase_part; blake2b := b;
     abw_slot := assigned_slot <$> job_abw (queued_job q) |}.

(** ** The session *)

(** What [Session] and the shared [PoolState] hold of shares and of the split asked for. *)
Record ShareSession := {
  pool_state : PoolState;
  sent_sections : list (option SentSections);
  last_share_sent_at : option Z;
  last_share_accepted_at : option Z;
  awaiting_coinbaser : option PendingCoinbaser;
}.

Definition session_opened (p : PoolState) (slots : nat) : ShareSession :=
  {| pool_state := p; sent_sections := replicate slots None; last_share_sent_at := None; last_share_accepted_at := None;
     awaiting_coinbaser := None |}.

Definition set_pool (s : ShareSession) (p : PoolState) : ShareSession :=
  {| pool_state := p; sent_sections := sent_sections s; last_share_sent_at := last_share_sent_at s;
     last_share_accepted_at := last_share_accepted_at s; awaiting_coinbaser := awaiting_coinbaser s |}.

Definition set_awaiting (s : ShareSession) (p : option PendingCoinbaser) : ShareSession :=
  {| pool_state := pool_state s; sent_sections := sent_sections s; last_share_sent_at := last_share_sent_at s;
     last_share_accepted_at := last_share_accepted_at s; awaiting_coinbaser := p |}.

(** [get_or_insert]ing the grace: the first share, and the first after a silence, does not
    count as waiting for a verdict since before it. *)
Definition note_sent (s : ShareSession) (sent : list (option SentSections)) (now : Z) : ShareSession :=
  {| pool_state := pool_state s; sent_sections := sent; last_share_sent_at := Some now;
     last_share_accepted_at :=
       if from_option (fun t => SHARE_ACK_GRACE <? duration_since now t) true (last_share_sent_at s)
       then Some now else last_share_accepted_at s;
     awaiting_coinbaser := awaiting_coinbaser s |}.

Record UserConfig := { datum_users : DatumUsers; pool_address : bytes }.

(** The session after a share, and the message sent for it; the write succeeds. *)
Definition send_share (c : UserConfig) (t : JobTable) (s : ShareSession) (q : QueuedShare) (now : Z)
    : option (ShareSession * option PowSubmit) :=
  let job := queued_job q in
  if negb (from_option (fun held => serial held =? serial job) false (job_at t (slot job))) then Some (s, None) else
  let v := view (pool_state s) in
  held ← match job_abw job with Some a => holds (view_abw v) a | None => Some true end;
  if negb held then Some (set_pool s (set_view (pool_state s) (set_unheld v (occurred (abw_unheld v) now).1)), None) else
  match share_extranonce (Header.extranonce (queued_header q)) with
  | None => Some (s, None)
  | Some extranonce =>
    '(sent, (job_part, coinbase_part)) ← sections_for (sent_sections s) q;
    let username := for_wire (datum_users c) (pool_address c) (queued_username q) in
    Some (note_sent s sent now, Some (pow_submit q extranonce username job_part coinbase_part))
  end.

Fixpoint send_shares (c : UserConfig) (t : JobTable) (s : ShareSession) (l : list QueuedShare) (now : Z)
    : option (ShareSession * list bytes) :=
  match l with
  | [] => Some (s, [])
  | q :: l =>
    '(s, m) ← send_share c t s q now;
    '(s, ms) ← send_shares c t s l now;
    Some (s, option_list (encode <$> m) ++ ms)
  end.

(** [send_pending]: the session and the payloads sent. *)
Definition send_pending (c : UserConfig) (protocol_v3 : bool) (t : JobTable) (s : ShareSession) (now : Z)
    : option (ShareSession * list bytes) :=
  let p := pool_state s in
  let '(s, requests) :=
    match coinbaser_request (view p) with
    | Some r =>
      (set_awaiting (set_pool s (set_view p (set_request (view p) None))) (Some r),
       [encode_coinbaser_request {| request_value := pending_value r; request_prev_hash := pending_prev_hash r |}])
    | None => (s, [])
    end in
  waiting ← (if negb protocol_v3 then Some false
             else if negb (is_active (pool_state s)) then Some true
             else (fun state => bool_decide (state = Awaiting)) <$> abw_state (pool_state s));
  if (waiting : bool) then Some (s, requests) else
  let '(p, batch) := take_queued_shares (pool_state s) in
  '(s, shares) ← send_shares c t (set_pool s p) batch now;
  Some (s, requests ++ shares).

Definition on_share_response (s : ShareSession) (r : ShareResponse) (now : Z) : ShareSession :=
  let diff := if response_target_byte r =? TARGET_BYTE_PLACEHOLDER then Z.max (pool_min_difficulty (pool_state s)) 1
              else difficulty_for_exponent (response_target_byte r) in
  let ok := match verdict r with Accepted | AcceptedTentatively => true | Rejected _ => false end in
  {| pool_state := tally (pool_state s) ok diff; sent_sections := sent_sections s;
     last_share_sent_at := last_share_sent_at s;
     last_share_accepted_at := if ok then Some now else last_share_accepted_at s;
     awaiting_coinbaser := awaiting_coinbaser s |}.

(** The two timeouts of [run]. *)
Definition share_ack_timed_out (s : ShareSession) : bool :=
  match last_share_sent_at s, last_share_accepted_at s with
  | Some sent, Some acked => (acked <? sent) && (SHARE_ACK_TIMEOUT <=? duration_since sent acked)
  | _, _ => false
  end.

Definition coinbaser_timed_out (s : ShareSession) (now : Z) : ShareSession * option PendingCoinbaser :=
  match awaiting_coinbaser s with
  | Some p => if COINBASER_WAIT <=? duration_since now (requested_at p) then (set_awaiting s None, Some p) else (s, None)
  | None => (s, None)
  end.

(** [on_coinbaser_response]: the request it answers, with the split. *)
Definition on_coinbaser_response (s : ShareSession) (plain : bytes)
    : ShareSession * option (PendingCoinbaser * CoinbaserResponse) :=
  match decode_coinbaser_response plain with
  | Ok r =>
    match awaiting_coinbaser s with
    | Some p => if pending_value p =? response_value r then (set_awaiting s None, Some (p, r)) else (s, None)
    | None => (s, None)
    end
  | Err _ =>
    match awaiting_coinbaser s with
    | Some p =>
      (set_awaiting s None,
       Some (p, {| response_value := pending_value p; response_coinbaser_id := 0; response_outputs := [] |}))
    | None => (s, None)
    end
  end.

(** ** The header the pool rebuilds *)

Section rebuilding.
Context `{Digests}.

(** The key the pool holds for the slot the job commits to. *)
Definition key_for_job (j : Job) (key : option bytes) : Prop :=
  match job_abw j, key with
  | None, None => True
  | Some a, Some k => xor_key_hash k = assigned_key_hash a
  | _, _ => False
  end.

Lemma job_raw_pow_hash_eq j h : job_raw_pow_hash j h =
  raw_pow_hash h (hash_stages_with_key_hash h (match job_abw j with Some a => assigned_key_hash a | None => xor_key_hash (xor_key h) end)).
Proof. unfold job_raw_pow_hash, job_hash_stages. by destruct (job_abw j). Qed.

(** The version's top bit is the flag's, on the wire and in the hash. *)
Lemma version_masked v : let w := as_i32 (Z.land (Z.lor V2_FLAG (wrap 32 v)) (lnot 32 V2_FLAG)) in
  Z.lor (wrap 32 w) V2_FLAG = Z.lor (wrap 32 v) V2_FLAG /\
  Z.land (wrap 32 w) (lnot 32 V2_FLAG) = Z.land (wrap 32 v) (lnot 32 V2_FLAG).
Proof.
  set (x := wrap 32 v). assert (0 <= x < 2 ^ 32) as Hx by (unfold x, wrap; apply Z.mod_pos_bound; lia).
  assert (Z.land (Z.lor V2_FLAG x) (lnot 32 V2_FLAG) = Z.land x (lnot 32 V2_FLAG)) as ->.
  { rewrite Z.land_lor_distr_l. change (Z.land V2_FLAG (lnot 32 V2_FLAG)) with 0. apply Z.lor_0_l. }
  assert (0 <= Z.land x (lnot 32 V2_FLAG) < 2 ^ 31) as Hm.
  { change (lnot 32 V2_FLAG) with (2 ^ 31 - 1). rewrite land_mask by done. by apply Z.mod_pos_bound. }
  rewrite as_i32_small by done. cbn zeta. rewrite wrap_small by (unfold uint; lia). split.
  - assert (x = Z.land x (Z.lor (lnot 32 V2_FLAG) V2_FLAG)) as Ex.
    { change (Z.lor (lnot 32 V2_FLAG) V2_FLAG) with (2 ^ 32 - 1). rewrite land_mask by done. by rewrite Z.mod_small. }
    rewrite Ex at 2. rewrite Z.land_lor_distr_r, <- Z.lor_assoc. f_equal.
    apply Z.bits_inj'. intros n Hn. rewrite Z.lor_spec, Z.land_spec. by destruct (Z.testbit x n), (Z.testbit V2_FLAG n).
  - by rewrite <- Z.land_assoc.
Qed.

(** A header with another version and key. *)
Definition rekeyed (h : BlockHeaderV2) (v : Z) (key : bytes) : BlockHeaderV2 :=
  {| Header.version := v; Header.prev_block := Header.prev_block h; Header.merkle_root := Header.merkle_root h;
     Header.time := Header.time h; Header.bits := Header.bits h; Header.nonce := Header.nonce h;
     Header.nonce2 := Header.nonce2 h; Header.nonce3 := Header.nonce3 h; Header.extranonce := Header.extranonce h;
     Header.time_offset := Header.time_offset h; Header.txcount := Header.txcount h; Header.flags := Header.flags h;
     Header.xor_key_mask_clear_bits := Header.xor_key_mask_clear_bits h; Header.xor_key := key;
     Header.height := Header.height h; Header.mm_rhs := Header.mm_rhs h |}.

Lemma rekeyed_hash h v key kh : Z.lor (wrap 32 v) V2_FLAG = Z.lor (wrap 32 (Header.version h)) V2_FLAG ->
  raw_pow_hash (rekeyed h v key) (hash_stages_with_key_hash (rekeyed h v key) kh) =
  raw_pow_hash h (hash_stages_with_key_hash h kh).
Proof.
  intros E. set (h2 := rekeyed h v key).
  assert (stage_h2 (hash_stages_with_key_hash h2 kh) = stage_h2 (hash_stages_with_key_hash h kh)) as E2.
  { unfold hash_stages_with_key_hash. cbn [stage_h2]. change (Header.version h2) with v. rewrite E. reflexivity. }
  unfold raw_pow_hash.
  change (stage_work_root (hash_stages_with_key_hash h2 kh)) with (work_root (stage_h2 (hash_stages_with_key_hash h2 kh)) (Header.extranonce h)).
  change (stage_work_root (hash_stages_with_key_hash h kh)) with (work_root (stage_h2 (hash_stages_with_key_hash h kh)) (Header.extranonce h)).
  rewrite E2. reflexivity.
Qed.

Lemma sia_words_halves f : length f = SIA_WORDS_LEN -> sia_words (sia_halves f).1 (sia_halves f).2 = f.
Proof.
  intros Hl. unfold sia_words, sia_halves. cbn [fst snd]. unfold SIA_WORDS_LEN in Hl. rewrite <- (take_drop SIA_WORD_LEN f) at 3. f_equal.
  - rewrite <- (length_take_le f SIA_WORD_LEN) at 1 by lia. apply le_le_val.
  - replace SIA_WORD_LEN with (length (drop SIA_WORD_LEN f)) at 1 by (rewrite length_drop; lia). apply le_le_val.
Qed.

Lemma share_extranonce_back e x : length e = HEADER_EXTRANONCE_SIZE -> share_extranonce e = Some x -> header_extranonce x = e.
Proof.
  intros _. unfold share_extranonce, header_extranonce. case_bool_decide as E; [|done]. intros [= <-]. rewrite <- E. apply take_drop.
Qed.

(** What the pool makes of the message of a share. *)
Lemma pool_header (q : QueuedShare) (e sia_ntime sia_nonce x username : bytes)
    (job_part : option JobSection) (coinbase_part : option CoinbaseSection) (key : option bytes) :
  let j := queued_job q in
  let kind := coinbase_of (queued_prefix q) in
  submitted_header j kind (queued_target_byte q) e sia_ntime sia_nonce = Some (queued_header q) ->
  length e = HEADER_EXTRANONCE_SIZE -> share_extranonce e = Some x ->
  length sia_ntime = SIA_WORDS_LEN -> length sia_nonce = SIA_WORDS_LEN -> key_for_job j key ->
  let s := pow_submit q x username job_part coinbase_part in
  exists tx h, coinbase_tx (job_section j) (section (job_coinbase j kind)) (target_byte s) = Some tx /\
    share_header s (job_section j) (job_merkle_root (job_section j) tx (subsidy_only s)) key = Some h /\
    pow_raw_hash (pow_hashes h) = job_raw_pow_hash j (queued_header q) /\
    (key = None -> serialize h = serialize (queued_header q)).
Proof.
  intros j kind Hsub Hle Hx Hlt Hln Hkey s. unfold submitted_header, commitment, full_coinbase in Hsub.
  change (target_byte s) with (queued_target_byte q).
  destruct (coinbase_tx _ _ _) as [tx|]; cbn [mbind option_bind] in Hsub; [|done]. exists tx.
  assert (subsidy_only s = bool_decide (kind = SubsidyOnly)) as Es by (unfold s, kind, pow_submit; cbn [subsidy_only]; by destruct (queued_prefix q)).
  rewrite Es. unfold job_header in Hsub at 1. unfold share_header, job_header. rewrite Es.
  destruct (2 ^ 16 <=? _); cbn [mbind option_bind] in Hsub |- *; [done|]. cbn [commitment_header] in Hsub.
  unfold set_sia_fields in Hsub. destruct (sia_halves sia_nonce) as [n n2] eqn:En, (sia_halves sia_ntime) as [off n3] eqn:Eo.
  set (h0 := queued_header q) in *. injection Hsub as Eh.
  assert (Header.flags h0 = 0) as Ef by (by rewrite <- Eh). assert (use_time_offset s = false) as Eu.
  { cbn [s pow_submit use_time_offset]. fold h0. by rewrite Ef. }
  assert (sia_nonce = sia_words (Header.nonce h0) (Header.nonce2 h0)) as Ewn.
  { rewrite <- (sia_words_halves sia_nonce Hln), En, <- Eh. done. }
  assert (sia_ntime = sia_words (Header.time_offset h0) (Header.nonce3 h0)) as Ewt.
  { rewrite <- (sia_words_halves sia_ntime Hlt), Eo, <- Eh. done. }
  assert (blake2b s = {| ShareMsg.sia_ntime := sia_ntime; ShareMsg.sia_nonce := sia_nonce; section_time_on_wire := time_on_wire h0 |}) as Eb.
  { cbn [s pow_submit blake2b]. unfold blake2b_from_header. fold h0. by rewrite Ewn, Ewt. }
  unfold set_sia_fields. rewrite Eb. cbn [ShareMsg.sia_ntime ShareMsg.sia_nonce]. rewrite En, Eo, Eu.
  set (w := as_i32 _). eexists. split; [done|]. split; [reflexivity|].
  match goal with |- pow_raw_hash (pow_hashes ?h) = _ /\ _ => set (h2 := h) end.
  assert (h2 = rekeyed h0 w (default (zeros 16) key)) as E2.
  { unfold h2, rekeyed. rewrite <- Eh. cbn [Header.prev_block Header.merkle_root Header.time Header.bits Header.nonce Header.nonce2
      Header.nonce3 Header.extranonce Header.time_offset Header.txcount Header.flags Header.xor_key_mask_clear_bits Header.height Header.mm_rhs].
    assert (header_extranonce (share_extranonce_field s) = e) as -> by (by apply share_extranonce_back).
    assert (is_some key = is_some (job_abw j)) as -> by (unfold key_for_job in Hkey; destruct (job_abw j), key; done).
    f_equal. unfold block_time. rewrite Eu, Eb. cbn [section_time_on_wire]. unfold time_on_wire. rewrite Ef. cbn [Z.land Z.eqb].
    by rewrite <- Eh. }
  assert (w = as_i32 (Z.land (Z.lor V2_FLAG (wrap 32 (Header.version h0))) (lnot 32 V2_FLAG))) as Ew by reflexivity.
  destruct (version_masked (Header.version h0)) as [Hv1 Hv2]. rewrite <- Ew in Hv1, Hv2. rewrite E2. split.
  - unfold pow_hashes, hash_stages. cbn [pow_raw_hash]. rewrite rekeyed_hash by done. rewrite job_raw_pow_hash_eq.
    change (Header.xor_key (rekeyed h0 w (default (zeros 16) key))) with (default (zeros 16) key). unfold key_for_job in Hkey. destruct (job_abw j) as [a|], key as [k|]; try done; cbn [default from_option].
    + change (id k) with k. by rewrite Hkey.
    + by rewrite <- Eh.
  - intros ->. unfold serialize, rekeyed. cbn [Header.version Header.xor_key default]. rewrite Hv2.
    assert (zeros 16 = Header.xor_key h0) as -> by (by rewrite <- Eh). reflexivity.
Qed.

(** C29: The pool rebuilds the hash the gateway computed. For every job, prefix, target byte
    and submit, whatever sections and username the message carries: from the job's section
    and the coinbase it names, and with the key whose hash the job committed to (or none),
    the pool's header has the raw hash the gateway judged the share by, in anti-block-withholding
    too; and without a key it is byte for byte the gateway's header, so a block is the
    same block for both. *)
Theorem pool_rebuilds_the_hash (q : QueuedShare) (e sia_ntime sia_nonce x username : bytes)
    (job_part : option JobSection) (coinbase_part : option CoinbaseSection) (key : option bytes) :
  let j := queued_job q in
  let kind := coinbase_of (queued_prefix q) in
  submitted_header j kind (queued_target_byte q) e sia_ntime sia_nonce = Some (queued_header q) ->
  length e = HEADER_EXTRANONCE_SIZE -> share_extranonce e = Some x ->
  length sia_ntime = SIA_WORDS_LEN -> length sia_nonce = SIA_WORDS_LEN -> key_for_job j key ->
  let s := pow_submit q x username job_part coinbase_part in
  exists tx h, coinbase_tx (job_section j) (section (job_coinbase j kind)) (target_byte s) = Some tx /\
    share_header s (job_section j) (job_merkle_root (job_section j) tx (subsidy_only s)) key = Some h /\
    pow_raw_hash (pow_hashes h) = job_raw_pow_hash j (queued_header q) /\
    (key = None -> serialize h = serialize (queued_header q)).
Proof. apply pool_header. Qed.

End rebuilding.

(** ** The sections reach the pool *)

Section sections.
Context `{Digests}.

(** The jobs by serial, each built once, and what is built of them. *)
Variable job_of : Z -> Job.

Record sendable (n : nat) (j : Job) : Prop := {
  sd_serial : job_of (serial j) = j;
  sd_slot : uint 8 (slot j) /\ (Z.to_nat (slot j) < n)%nat;
  sd_ids : forall kind, coinbase_section_id (section (job_coinbase j kind)) = wire_id kind;
  sd_sizes : forall kind, coinbase_bytes (section (job_coinbase j kind)) <= MAX_COINBASE_SECTION_LEN;
}.

(** The calls the pool makes beside the verification of a share. *)
Inductive pool_call (v : Verifier) : Verifier -> Prop :=
| call_set_tip t now : pool_call v (set_tip v t now)
| call_set_template t : pool_call v (set_template v t).1
| call_record_dictated value prev outs now : pool_call v (record_dictated v (next_coinbaser_id v) value prev outs now)
| call_take_splits : pool_call v (take_verifier_splits v).2
| call_restore_splits s : pool_call v (restore_splits v s)
| call_set_job_txns id gen t : pool_call v (set_job_txns v id gen t).1
| call_record_block_check id gen digest check : pool_call v (record_block_check v id gen digest check).

(** A connection's two ends: the sections the gateway has sent, and the pool's verifier. A
    share that carries sections is one the pool accepts. *)
Inductive told (n : nat) (p : SharePolicy) : list (option SentSections) -> Verifier -> Prop :=
| told_open : told n p (replicate n None) (verifier_new p)
| told_call sent v v2 : told n p sent v -> pool_call v v2 -> told n p sent v2
| told_share sent v q x username sent2 job_part coinbase_part abw now v2 r :
    told n p sent v -> sendable n (queued_job q) -> next_generation v < 2 ^ 64 - 1 ->
    sections_for sent q = Some (sent2, (job_part, coinbase_part)) ->
    verify v (pow_submit q x username job_part coinbase_part) abw now = Some (v2, r) ->
    (job_part = None /\ coinbase_part = None) \/ (exists share, r = Ok share) ->
    told n p sent2 v2.

(** What the pool holds of a slot is what was sent of its job. *)
Definition slot_told (v : Verifier) (i : nat) (ss : SentSections) : Prop :=
  let j := job_of (sent_serial ss) in
  i = Z.to_nat (slot j) /\ job_section_sent ss = true /\
  exists st, jobs v !! i = Some (Some st) /\ installed_job st = job_section j /\
    forall kind, coinbase_sent ss kind = true -> coinbases st !! wire_id kind = Some (section (job_coinbase j kind)).

Definition in_sync (sent : list (option SentSections)) (v : Verifier) : Prop :=
  forall i ss, sent !! i = Some (Some ss) -> slot_told v i ss.

Lemma slot_told_kept v v2 i ss js : slot_told v i ss -> js !! i = jobs v !! i -> Jobs.kept_slots js (jobs v2) -> slot_told v2 i ss.
Proof.
  intros (Hi & Hs & st & Hst & Hj & Hk) E Hkept. split_and!; [done..|]. rewrite <- E in Hst.
  destruct (Forall2_lookup_l _ _ _ _ _ Hkept Hst) as (o & Ho & Hr). inversion Hr as [a b Hab|]; subst.
  exists b. split; [done|]. destruct Hab as [Kj Kc _ _ _]. rewrite Kj, Kc. by split.
Qed.

Lemma in_sync_kept sent v v2 : in_sync sent v -> Jobs.kept_slots (jobs v) (jobs v2) -> in_sync sent v2.
Proof. intros Hs Hk i ss Hi. eapply slot_told_kept; [by apply Hs|reflexivity|done]. Qed.

Lemma pool_call_ok v v2 : jobs_ok v -> pool_call v v2 -> jobs_ok v2 /\ Jobs.kept_slots (jobs v) (jobs v2).
Proof.
  intros Hv Hc.
  assert (forall n, jobs_ok (set_next v n)) as Hset1.
  { intros n. destruct Hv as [[? ? ? ? ? ? ? ? ? ?] ?]. split; [split|]; cbn; done. }
  assert (forall sp, jobs_ok (set_splits v sp)) as Hset2.
  { intros sp. destruct Hv as [[? ? ? ? ? ? ? ? ? ?] ?]. split; [split|]; cbn; done. }
  destruct Hc as [t now|t|value prev outs now| |s|id gen t|id gen digest check].
  - split; [by apply set_tip_ok|]. unfold set_tip. cbn zeta. set (w := {| policy := _ |}). change (jobs v) with (jobs w).
    destruct (is_some t); [apply evict_jobs_kept|apply kept_slots_refl].
  - split; [apply Hset1|apply kept_slots_refl].
  - split; [apply Hset2|apply kept_slots_refl].
  - split; [apply Hset2|apply kept_slots_refl].
  - split; [apply Hset2|apply kept_slots_refl].
  - split; [by apply set_job_txns_ok|]. destruct (set_job_txns_spec v id gen t Hv) as [[_ ->]|(st & js & _ & -> & Hk & _)];
      [apply kept_slots_refl|exact Hk].
  - split; [by apply record_block_check_ok|]. by destruct (record_block_check_kept v id gen digest check Hv) as (js & -> & Hk & _).
Qed.

(** What verifying a share leaves of the slots. *)
Lemma verify_jobs v s abw now v2 r : length (jobs v) = Z.to_nat MAX_JOBS -> uint 8 (job_id s) ->
  verify v s abw now = Some (v2, r) ->
  (v2 = v /\ forall share, r <> Ok share) \/
  exists j cb st, resolve v s = Ok (j, cb) /\ base_state v s now = Some st /\
    Jobs.kept_slots (<[Z.to_nat (job_id s) := Some (with_coinbase s st)]> (jobs v)) (jobs v2).
Proof.
  intros Hlen Hid Hv. unfold verify in Hv. destruct (rebuild v s abw) as [[share|]|] eqn:Hr; cbn [mbind option_bind] in Hv; [|left; by injection Hv as <- <-|done].
  unfold check_rebuilt in Hv. destruct (check_job_header v s share) as [[]|]; [|left; cbn [mbind option_bind] in Hv; by injection Hv as <- <-].
  destruct (meets_share_target s share || rb_is_block share) eqn:Em.
  - destruct (rebuild_sections v s abw share Hr) as [[j cb] Hres].
    destruct (install_sections_eq v s (rb_raw_pow_hash share) now j cb Hlen Hid Hres) as (st & Hb & E).
    rewrite E in Hv. destruct (_ && contains _ _); [by left; injection Hv as <- <-|].
    destruct (is_some (ShareMsg.coinbase s) && _); [by left; injection Hv as <- <-|]. right. exists j, cb, st. split; [done|]. split; [done|].
    cbn [mbind option_bind] in Hv. injection Hv as <- _. set (v3 := after_install _ _ _ _). change (<[Z.to_nat (job_id s) := _]> _) with (jobs v3).
    destruct (is_some (tip v)); [apply evict_jobs_kept|apply kept_slots_refl].
  - left. cbn [mbind option_bind] in Hv. destruct (check_share v s share now) as [[]|]; cbn [mbind result_bind] in Hv; [|by injection Hv as <- <-].
    apply orb_false_iff in Em as [Em _]. rewrite Em in Hv. cbn [ensure] in Hv. by injection Hv as <- <-.
Qed.

Record sections_spec (sent : list (option SentSections)) (q : QueuedShare) (sent2 : list (option SentSections))
    (job_part : option JobSection) (coinbase_part : option CoinbaseSection) (s0 ss : SentSections) : Prop := {
  sp_before : s0 = sent_new (serial (queued_job q)) \/
    (sent !! Z.to_nat (slot (queued_job q)) = Some (Some s0) /\ sent_serial s0 = serial (queued_job q));
  sp_again : forall s, sent !! Z.to_nat (slot (queued_job q)) = Some (Some s) -> sent_serial s = serial (queued_job q) -> s0 = s;
  sp_after : sent2 = <[Z.to_nat (slot (queued_job q)) := Some ss]> sent;
  sp_range : (Z.to_nat (slot (queued_job q)) < length sent)%nat;
  sp_job : job_part = if job_section_sent s0 then None else Some (job_section (queued_job q));
  sp_coinbase : coinbase_part = if coinbase_sent s0 (coinbase_of (queued_prefix q)) then None
    else Some (section (job_coinbase (queued_job q) (coinbase_of (queued_prefix q))));
  sp_serial : sent_serial ss = serial (queued_job q);
  sp_sent : job_section_sent ss = true;
  sp_kinds : forall k, coinbase_sent ss k = bool_decide (k = coinbase_of (queued_prefix q)) || coinbase_sent s0 k;
}.

Lemma sections_for_total sent q : (Z.to_nat (slot (queued_job q)) < length sent)%nat ->
  exists sent2 job_part coinbase_part s0 ss, sections_for sent q = Some (sent2, (job_part, coinbase_part)) /\
    sections_spec sent q sent2 job_part coinbase_part s0 ss.
Proof.
  intros Hl. unfold sections_for. destruct (lookup_lt_is_Some_2 sent _ Hl) as [entry E]. rewrite E. cbn [mbind option_bind].
  set (s0 := if _ =? _ then _ else _). unfold mark_coinbase_sent. cbn zeta. eexists _, _, _, s0, _.
  assert (sent_serial s0 = serial (queued_job q)) as Hs0 by (unfold s0; destruct (Z.eqb_spec (sent_serial (default (sent_new (serial (queued_job q))) entry)) (serial (queued_job q))); done).
  split; [reflexivity|]. split; try done; try (by destruct (queued_prefix q)).
  - unfold s0. destruct entry as [s|]; cbn [default from_option]; [|left; by case_match].
    destruct (Z.eqb_spec (sent_serial (id s)) (serial (queued_job q))); [by right|by left].
  - intros s Es Hser. rewrite E in Es. injection Es as ->. unfold s0. cbn [default from_option]. 
    destruct (Z.eqb_spec (sent_serial (id s)) (serial (queued_job q))) as [|Hne]; [done|by destruct Hne].
  - intros k. destruct (queued_prefix q), k; cbn; done.
Qed.

Lemma sections_for_inv sent q sent2 job_part coinbase_part : sections_for sent q = Some (sent2, (job_part, coinbase_part)) ->
  exists s0 ss, sections_spec sent q sent2 job_part coinbase_part s0 ss.
Proof.
  intros E. assert (Z.to_nat (slot (queued_job q)) < length sent)%nat as Hl.
  { apply lookup_lt_is_Some. unfold sections_for in E. destruct (sent !! _); [by eexists|done]. }
  destruct (sections_for_total sent q Hl) as (s2 & jp & cp & s0 & ss & E2 & Hs). rewrite E2 in E. injection E as -> -> ->. by exists s0, ss.
Qed.

(** What the next share resolves to. *)
Lemma sections_resolve n sent v q x username sent2 job_part coinbase_part : jobs_ok v -> in_sync sent v -> sendable n (queued_job q) ->
  sections_for sent q = Some (sent2, (job_part, coinbase_part)) ->
  resolve v (pow_submit q x username job_part coinbase_part) =
    Ok (job_section (queued_job q), section (job_coinbase (queued_job q) (coinbase_of (queued_prefix q)))).
Proof.
  intros Hv Hsync [Hser [Hid _] Hids Hsz] E. apply sections_for_inv in E as (s0 & ss & [Hbefore _ _ _ -> -> _ _ _]).
  set (j := queued_job q) in *. set (kind := coinbase_of (queued_prefix q)) in *.
  unfold resolve, brings_new_job. cbn [pow_submit ShareMsg.job coinbase job_id coinbase_id]. fold j kind.
  destruct Hbefore as [->|[Hs0 Eser]].
  - assert (coinbase_sent (sent_new (serial j)) kind = false) as -> by (by destruct kind). cbn [job_section_sent sent_new].
    rewrite Hids, Z.eqb_refl, (proj2 (Z.leb_le _ _) (Hsz kind)).
    destruct (job_slot v (slot j)) as [st|]; [|done]. case_bool_decide as Hne; [done|].
    cbn. by destruct (decide (installed_job st = job_section j)) as [->|].
  - destruct (Hsync _ _ Hs0) as (_ & Hsent & st & Hst & Hjob & Hk). rewrite Eser, Hser in Hjob, Hk. rewrite Hsent.
    assert (job_slot v (slot j) = Some st) as -> by (unfold job_slot; by rewrite Hst). cbn [fmap option_fmap option_map ok_or mbind result_bind].
    destruct (coinbase_sent s0 kind) eqn:Ek.
    + cbn [option_bind]. rewrite (Hk kind Ek), Hjob. done.
    + rewrite Hids, Z.eqb_refl, (proj2 (Z.leb_le _ _) (Hsz kind)), Hjob. done.
Qed.

Lemma wire_id_inj k k2 : wire_id k = wire_id k2 -> k = k2.
Proof. by destruct k, k2. Qed.

(** The coinbases of an honest gateway never use up the room for them. *)
Definition small_state (st : JobState) : Prop :=
  forall k cb, coinbases st !! k = Some cb -> (exists kind, k = wire_id kind) /\ coinbase_bytes cb <= MAX_COINBASE_SECTION_LEN.

Definition small_slots (js : list (option JobState)) : Prop := forall i st, js !! i = Some (Some st) -> small_state st.

Lemma alter_bytes k o m : m !! k = None ->
  coinbases_bytes (partial_alter (fun _ => o) k m) = from_option coinbase_bytes 0 o + coinbases_bytes m.
Proof.
  intros Hk. destruct o as [cb|]; cbn [from_option].
  - change (partial_alter (fun _ => Some cb) k m) with (<[k := cb]> m). rewrite coinbases_bytes_insert, Hk. cbn. lia.
  - change (partial_alter (fun _ => None) k m) with (delete k m). by rewrite delete_id.
Qed.

Lemma small_state_bytes st : small_state st -> 0 <= state_coinbase_bytes st <= 2 * MAX_COINBASE_SECTION_LEN.
Proof.
  intros Hs. unfold state_coinbase_bytes. split; [apply coinbases_bytes_nonneg|].
  set (m := coinbases st) in *. assert (forall k, k <> wire_id Pooled -> k <> wire_id SubsidyOnly -> m !! k = None) as Hnone.
  { intros k Hk1 Hk2. destruct (m !! k) as [cb|] eqn:E; [|done]. destruct (Hs _ _ E) as [[kind ->] _]. by destruct kind. }
  assert (forall kind, from_option coinbase_bytes 0 (m !! wire_id kind) <= MAX_COINBASE_SECTION_LEN) as Hle.
  { intros kind. destruct (m !! wire_id kind) as [cb|] eqn:E; cbn; [by apply (Hs _ _ E)|by vm_compute]. }
  pose proof (Hle Pooled) as Hp. pose proof (Hle SubsidyOnly) as Hsub.
  assert (coinbases_bytes m <= from_option coinbase_bytes 0 (m !! wire_id Pooled) + from_option coinbase_bytes 0 (m !! wire_id SubsidyOnly)); [|lia].
  assert (m = partial_alter (fun _ => m !! wire_id Pooled) (wire_id Pooled)
    (partial_alter (fun _ => m !! wire_id SubsidyOnly) (wire_id SubsidyOnly) ∅)) as Em.
  { apply map_eq. intros k. destruct (decide (k = wire_id Pooled)) as [->|Hk1]; [by rewrite lookup_partial_alter_eq|].
    rewrite lookup_partial_alter_ne by done. destruct (decide (k = wire_id SubsidyOnly)) as [->|Hk2]; [by rewrite lookup_partial_alter_eq|].
    rewrite lookup_partial_alter_ne, lookup_empty by done. by apply Hnone. }
  rewrite Em at 1. rewrite !alter_bytes; [|done|by rewrite lookup_partial_alter_ne]. change (coinbases_bytes ∅) with 0. lia.
Qed.

Lemma small_slots_room js : length js = Z.to_nat MAX_JOBS -> small_slots js -> slot_sum state_coinbase_bytes js <= MAX_INSTALLED_COINBASE_BYTES.
Proof.
  intros Hl Hs. assert (slot_sum state_coinbase_bytes js <= zlen js * (2 * MAX_COINBASE_SECTION_LEN)) as Hle.
  { clear Hl. induction js as [|o js IH]; [done|]. unfold slot_sum in *. cbn [fmap list_fmap]. rewrite sumZ_cons, zlen_cons.
    assert (small_slots js) as Hs2 by (intros i st Hi; by apply (Hs (S i) st)). specialize (IH Hs2).
    assert (from_option state_coinbase_bytes 0 o <= 2 * MAX_COINBASE_SECTION_LEN); [|lia].
    destruct o as [st|]; cbn; [|by vm_compute]. apply small_state_bytes. by apply (Hs 0%nat). }
  unfold zlen in Hle. rewrite Hl in Hle. unfold MAX_INSTALLED_COINBASE_BYTES, MAX_JOBS in *. lia.
Qed.

Lemma small_slots_kept js js2 : small_slots js -> Jobs.kept_slots js js2 -> small_slots js2.
Proof.
  intros Hs Hk i st Hi k cb. destruct (kept_slots_lookup _ _ _ _ Hk Hi) as (st0 & Hi0 & [_ Kc _ _ _]). rewrite Kc. by apply (Hs i st0).
Qed.

(** What a share with its sections leaves of a slot. *)
Lemma small_with_coinbase n v q x username jp cp now st sent2 sent : in_sync sent v -> sendable n (queued_job q) ->
  length (jobs v) = Z.to_nat MAX_JOBS -> small_slots (jobs v) ->
  sections_for sent q = Some (sent2, (jp, cp)) -> base_state v (pow_submit q x username jp cp) now = Some st ->
  small_slots (<[Z.to_nat (slot (queued_job q)) := Some (with_coinbase (pow_submit q x username jp cp) st)]> (jobs v)).
Proof.
  intros Hsync [_ [Hid _] Hids Hsz] Hlen Hs E Hb i st2 Hi. apply list_lookup_insert_Some in Hi as [(<- & [= <-] & _)|[_ Hi]]; [|by apply (Hs i)].
  assert (small_state st) as Hst.
  { destruct (base_state_cases v (pow_submit q x username jp cp) now st Hlen Hid Hb) as [(_ & j & _ & ->)|[_ Hi]]; [|by apply (Hs _ _ Hi)].
    intros k cb. cbn. by rewrite lookup_empty. }
  apply sections_for_inv in E as (s0 & ss & [_ _ _ _ _ -> _ _ _]). unfold with_coinbase. cbn [pow_submit ShareMsg.coinbase].
  destruct (coinbase_sent s0 _); [done|]. intros k cb. cbn [add_coinbase coinbases]. rewrite lookup_insert_Some.
  intros [[<- <-]|[_ Hk]]; [|by apply Hst]. split; [by eexists|done].
Qed.

Record told_inv (n : nat) (sent : list (option SentSections)) (v : Verifier) : Prop := {
  ti_length : length sent = n;
  ti_jobs : jobs_ok v;
  ti_sync : in_sync sent v;
  ti_small : small_slots (jobs v);
  ti_cap : installed_coinbase_bytes_cap v = MAX_INSTALLED_COINBASE_BYTES;
}.

Lemma pool_call_cap v v2 : jobs_ok v -> pool_call v v2 -> installed_coinbase_bytes_cap v2 = installed_coinbase_bytes_cap v.
Proof.
  intros Hv [t now|t|value prev outs now| |s|id gen t|id gen digest check]; try done.
  - unfold set_tip. cbn zeta. by destruct (is_some t).
  - by destruct (set_job_txns_spec v id gen t Hv) as [[_ ->]|(st & js & _ & -> & _)].
  - by destruct (record_block_check_kept v id gen digest check Hv) as (js & -> & _).
Qed.

(** The slot of a share whose sections went in. *)
Lemma share_told sent v v2 m q s0 ss now st :
  in_sync sent v -> length (jobs v) = Z.to_nat MAX_JOBS -> uint 8 (job_id m) -> job_of (serial (queued_job q)) = queued_job q ->
  let j := queued_job q in let kind := coinbase_of (queued_prefix q) in
  job_id m = slot j -> coinbase_id m = wire_id kind ->
  (forall k, coinbase_section_id (section (job_coinbase j k)) = wire_id k) ->
  s0 = sent_new (serial j) \/ (sent !! Z.to_nat (slot j) = Some (Some s0) /\ sent_serial s0 = serial j) ->
  ShareMsg.job m = (if job_section_sent s0 then None else Some (job_section j)) ->
  sent_serial ss = serial j -> job_section_sent ss = true ->
  (forall k, coinbase_sent ss k = bool_decide (k = kind) || coinbase_sent s0 k) ->
  resolve v m = Ok (job_section j, section (job_coinbase j kind)) -> base_state v m now = Some st ->
  Jobs.kept_slots (<[Z.to_nat (job_id m) := Some (with_coinbase m st)]> (jobs v)) (jobs v2) ->
  slot_told v2 (Z.to_nat (slot j)) ss.
Proof.
  intros Hs Hlen Hid Hser j kind Ej Ec Hids Hbefore Hjob Hss Hsent Hkinds Hres Hb Hk.
  destruct (resolve_base v m _ _ now Hres) as (st1 & Hb1 & Hinst & Hslot & Hcbs & Hnew). rewrite Hb in Hb1. injection Hb1 as <-.
  rewrite Ej in *. assert ((Z.to_nat (slot j) < length (jobs v))%nat) as Hl by (rewrite Hlen; unfold uint, MAX_JOBS in *; lia).
  destruct (Forall2_lookup_l _ _ _ _ _ Hk (list_lookup_insert_eq _ _ (Some (with_coinbase m st)) Hl)) as (o & Ho & Hr).
  inversion Hr as [? b [Kj Kc _ _ _] Ea Eb|]. rewrite <- Eb in Ho. unfold slot_told. rewrite Hss. change (job_of (serial j)) with (job_of (serial (queued_job q))). rewrite Hser. fold j. split_and!; [done..|].
  exists b. split; [done|]. destruct (with_coinbase_fields m st) as (Fj & _). rewrite Kj, Kc, Fj. split; [done|].
  assert (forall k, k <> kind -> coinbases (with_coinbase m st) !! wire_id k = coinbases st !! wire_id k) as Hne.
  { intros k Hk2. unfold with_coinbase. destruct (ShareMsg.coinbase m) as [cb|] eqn:Ecb; [|done]. cbn [add_coinbase coinbases].
    destruct (Hnew cb eq_refl) as [-> _]. rewrite lookup_insert_ne; [done|]. rewrite Ec. by intros <-%wire_id_inj. }
  intros k Hck. destruct (decide (k = kind)) as [->|Hk2].
  - unfold with_coinbase. destruct Hcbs as [E|(E & _ & Hst)]; rewrite E; [|by rewrite <- Ec].
    cbn [add_coinbase coinbases]. rewrite <- Hids. apply lookup_insert_eq.
  - rewrite Hne by done. rewrite Hkinds, bool_decide_eq_false_2 in Hck by done. cbn [orb] in Hck.
    destruct Hbefore as [->|[Hs0 Eser]]; [by destruct k|]. destruct (Hs _ _ Hs0) as (_ & Hsent0 & st2 & Hst2 & _ & Hk3).
    rewrite Hsent0 in Hjob. assert (brings_new_job v m = false) as Hold by (unfold brings_new_job; by rewrite Hjob).
    specialize (Hslot Hold). unfold job_slot in Hslot. rewrite Hst2 in Hslot. injection Hslot as ->.
    rewrite Eser in Hk3. change (job_of (serial j)) with (job_of (serial (queued_job q))) in Hk3. rewrite Hser in Hk3. by apply Hk3.
Qed.

Lemma told_ok n p sent v : told n p sent v -> told_inv n sent v.
Proof.
  induction 1 as [|sent v v2 Ht [Hn Hv Hs Hsm Hcap] Hc|sent v q x username sent2 jp cp abw now v2 r Ht [Hn Hv Hs Hsm Hcap] Hq Hng E Hver Hcar].
  - split; [apply length_replicate|apply verifier_new_ok| | |done].
    + intros i ss Hi. by apply lookup_replicate in Hi as [? _].
    + intros i st Hi. by apply lookup_replicate in Hi as [? _].
  - destruct (pool_call_ok v v2 Hv Hc) as [Hv2 Hk]. pose proof (pool_call_cap v v2 Hv Hc).
    split; [done|done|by eapply in_sync_kept|by eapply small_slots_kept|congruence].
  - pose proof (sections_resolve n sent v q x username sent2 jp cp Hv Hs Hq E) as Hres. pose proof Hq as [Hser [Hid Hlt] Hids _].
    destruct (sections_for_inv _ _ _ _ _ E) as (s0 & ss & [Hbefore _ -> Hrange Hjp Hcp Hss Hsent Hkinds]).
    set (m := pow_submit q x username jp cp) in *. set (j := queued_job q) in *. set (kind := coinbase_of (queued_prefix q)) in *.
    assert (length (jobs v) = Z.to_nat MAX_JOBS) as Hlen by apply (sw_slots _ (jo_slots _ Hv)).
    assert (jobs_ok v2 /\ installed_coinbase_bytes_cap v2 = installed_coinbase_bytes_cap v) as [Hv2 Hcap2].
    { destruct (verify_returns v m abw now Hv Hid Hng) as (v3 & r3 & E3 & Hok). rewrite E3 in Hver. injection Hver as <- _. split; apply Hok. }
    assert (small_slots (jobs v2)) as Hsm2.
    { destruct (verify_jobs v m abw now v2 r Hlen Hid Hver) as [[-> _]|(j2 & cb2 & st & _ & Hb & Hk)]; [done|].
      eapply small_slots_kept; [|exact Hk]. by eapply small_with_coinbase. }
    split; [by rewrite length_insert|done| |done|congruence].
    assert (forall i ss2, i <> Z.to_nat (slot j) -> sent !! i = Some (Some ss2) ->
      forall o, Jobs.kept_slots (<[Z.to_nat (slot j) := o]> (jobs v)) (jobs v2) -> slot_told v2 i ss2) as Hother.
    { intros i ss2 Hne Hi o Hk. eapply slot_told_kept; [by apply Hs| |exact Hk]. by rewrite list_lookup_insert_ne. }
    destruct (verify_jobs v m abw now v2 r Hlen Hid Hver) as [[-> Hr]|(j2 & cb2 & st & Hres2 & Hb & Hk)].
    { destruct Hcar as [[-> ->]|[share ->]]; [|by destruct (Hr share)]. intros i ss2 Hi.
      destruct (decide (i = Z.to_nat (slot j))) as [->|Hne]; [|rewrite list_lookup_insert_ne in Hi by done; by apply Hs].
      rewrite list_lookup_insert_eq in Hi by done. injection Hi as <-.
      destruct Hbefore as [->|[Hs0 Eser]]; [done|]. destruct (Hs _ _ Hs0) as (Ei & Hs1 & st & Hst & Hj & Hkk).
      split; [by rewrite Hss, <- Eser|]. split; [done|]. exists st. rewrite Hss, <- Eser. split_and!; [done..|].
      intros k Hck. apply Hkk. rewrite Hkinds in Hck. apply orb_true_iff in Hck as [Hck|]; [|done]. apply bool_decide_eq_true_1 in Hck as ->.
      by destruct (coinbase_sent s0 kind). }
    rewrite Hres in Hres2. injection Hres2 as <- <-. intros i ss2 Hi.
    destruct (decide (i = Z.to_nat (slot j))) as [->|Hne]; [|rewrite list_lookup_insert_ne in Hi by done; by eapply Hother].
    rewrite list_lookup_insert_eq in Hi by done. injection Hi as <-.
    by apply (share_told sent v v2 m q s0 ss now st).
Qed.

(** C28: A share arrives with its job. Over any life of a connection, in which the pool
    changes tips, templates, splits, transaction lists and verdicts as it does, evicts
    jobs, and accepts the shares that bring sections: the next share, of whatever job and
    prefix, resolves at the pool to that job's own section and that prefix's own coinbase
    section, though a slot is used again by a newer job and each section is sent once;
    and the next share of the same work carries no section at all. *)
Theorem share_arrives_with_its_job (n : nat) (p : SharePolicy) (sent : list (option SentSections)) (v : Verifier)
    (q : QueuedShare) (x username : bytes) :
  told n p sent v -> sendable n (queued_job q) ->
  exists sent2 job_part coinbase_part, sections_for sent q = Some (sent2, (job_part, coinbase_part)) /\
    resolve v (pow_submit q x username job_part coinbase_part) =
      Ok (job_section (queued_job q), section (job_coinbase (queued_job q) (coinbase_of (queued_prefix q)))) /\
    forall q2, queued_job q2 = queued_job q -> coinbase_of (queued_prefix q2) = coinbase_of (queued_prefix q) ->
      exists sent3, sections_for sent2 q2 = Some (sent3, (None, None)).
Proof.
  intros Ht Hq. destruct (told_ok _ _ _ _ Ht) as [Hn Hv Hs _ _]. pose proof Hq as [_ [_ Hlt] _ _].
  destruct (sections_for_total sent q ltac:(by rewrite Hn)) as (sent2 & jp & cp & s0 & ss & E & Hspec).
  exists sent2, jp, cp. split; [done|]. split; [by eapply sections_resolve|]. intros q2 Ej Ek.
  destruct Hspec as [_ _ -> Hrange _ _ Hss Hsent Hkinds].
  destruct (sections_for_total (<[Z.to_nat (slot (queued_job q)) := Some ss]> sent) q2) as (sent3 & jp2 & cp2 & s2 & ss2 & E2 & [_ Hagain _ _ -> -> _ _ _]).
  { rewrite Ej, length_insert. done. }
  rewrite (Hagain ss) in E2; [|rewrite Ej; by apply list_lookup_insert_eq|by rewrite Ej].
  rewrite Hsent, Hkinds, Ek, bool_decide_eq_true_2 in E2 by done. cbn [orb] in E2. by exists sent3.
Qed.

End sections.

(** ** Examples: a share of a job that commits to a key, and the first of a connection *)

Definition example_keyed_inputs : JobInputs :=
  {| in_serial := 300; in_template := example_template; GatewayJob.pool_config := None; in_coinbaser := None;
     in_abw := Some {| assigned_slot := 3; assigned_key_hash := xor_key_hash (H := example_digests) (replicate 16 (zb 5)) |} |}.

(** The share of a job: a miner's words and the header they make, where all is well. *)
Definition example_queued (D : Digests) (c : JobConfig) (j : JobInputs) (target_byte : Z) : option QueuedShare :=
  match @build_job D c j 1700000100 0 with
  | Some (Ok b) =>
    (fun h => {| queued_job := b; queued_prefix := Plain; queued_is_block := false; queued_target_byte := target_byte;
                 queued_header := h; queued_username := text "bc1.rig" |})
      <$> @submitted_header D b Pooled target_byte (zeros 4 ++ le 12 77) (sia_words 7 8) (sia_words 9 10)
  | _ => None
  end.

Lemma example_queued_inv D c j target_byte (P : QueuedShare -> bool) : from_option P false (example_queued D c j target_byte) = true ->
  exists q, @build_job D c j 1700000100 0 = Some (Ok (queued_job q)) /\ P q = true /\
    queued_prefix q = Plain /\ queued_target_byte q = target_byte /\
    @submitted_header D (queued_job q) Pooled target_byte (zeros 4 ++ le 12 77) (sia_words 7 8) (sia_words 9 10) = Some (queued_header q).
Proof.
  unfold example_queued. destruct (build_job c j 1700000100 0) as [[b|]|]; [|done..].
  destruct (submitted_header b Pooled _ _ _ _) as [h|] eqn:E; [|done]. intros HP. eexists. split; [|split; [exact HP|]]; done.
Defined.

Lemma pool_rebuilds_the_hash_witness : exists q h,
  share_header (pow_submit q (le 12 77) (text "rig") None None) (job_section (queued_job q))
    (job_merkle_root (H := example_digests) (job_section (queued_job q))
      (default [] (coinbase_tx (job_section (queued_job q)) (section (job_coinbase (queued_job q) Pooled)) 14)) false)
    (Some (replicate 16 (zb 5))) = Some h /\
  pow_raw_hash (pow_hashes (H := example_digests) h) = job_raw_pow_hash (H := example_digests) (queued_job q) (queued_header q).
Proof.
  destruct (example_queued_inv example_digests example_job_config example_keyed_inputs 14
    (fun q => bool_decide (assigned_key_hash <$> job_abw (queued_job q) = Some (xor_key_hash (H := example_digests) (replicate 16 (zb 5))))))
    as (q & _ & Hk & Hp & Ht & Hh); [vm_compute; reflexivity|].
  apply bool_decide_eq_true_1 in Hk. exists q. 
  destruct (pool_rebuilds_the_hash (H := example_digests) q (zeros 4 ++ le 12 77) (sia_words 7 8) (sia_words 9 10) (le 12 77) (text "rig") None None
    (Some (replicate 16 (zb 5)))) as (tx & h & Etx & Eh & Er & _).
  - rewrite Hp, Ht. exact Hh.
  - reflexivity.
  - reflexivity.
  - reflexivity.
  - reflexivity.
  - unfold key_for_job. destruct (job_abw (queued_job q)) as [a|]; [|discriminate]. injection Hk as Hk. symmetry. exact Hk.
  - exists h. cbn [pow_submit target_byte subsidy_only] in Etx, Eh. rewrite Hp, Ht in Etx. rewrite Hp in Eh.
    change (coinbase_of Plain) with Pooled in Etx. rewrite Etx. split; [exact Eh|exact Er].
Defined.

Definition example_sendable (q : QueuedShare) : bool :=
  let j := queued_job q in
  (0 <=? slot j) && (slot j <? 256) &&
  forallb (fun k => (coinbase_section_id (section (job_coinbase j k)) =? wire_id k) &&
                    (coinbase_bytes (section (job_coinbase j k)) <=? MAX_COINBASE_SECTION_LEN)) [Pooled; SubsidyOnly].

Lemma share_arrives_with_its_job_witness : exists q job_part coinbase_part,
  resolve (verifier_new example_policy) (pow_submit q (le 12 77) (text "rig") job_part coinbase_part) =
    Ok (job_section (queued_job q), section (job_coinbase (queued_job q) Pooled)).
Proof.
  destruct (example_queued_inv example_digests example_job_config example_inputs 14 example_sendable) as (q & _ & Hs & Hp & _);
    [vm_compute; reflexivity|].
  exists q. unfold example_sendable in Hs. apply andb_true_iff in Hs as [Hs Hk]. apply andb_true_iff in Hs as [H1 H2].
  apply Z.leb_le in H1. apply Z.ltb_lt in H2.
  destruct (share_arrives_with_its_job (H := example_digests) (fun _ => queued_job q) 256 example_policy (replicate 256 None)
    (verifier_new example_policy) q (le 12 77) (text "rig")) as (sent2 & jp & cp & _ & Hr & _).
  - apply told_open.
  - cbn [forallb] in Hk. apply andb_true_iff in Hk as [Hk1 Hk2]. apply andb_true_iff in Hk2 as [Hk2 _].
    apply andb_true_iff in Hk1 as [Hi1 Hz1]. apply andb_true_iff in Hk2 as [Hi2 Hz2].
    apply Z.eqb_eq in Hi1, Hi2. apply Z.leb_le in Hz1, Hz2.
    split; [reflexivity|split; [split; [exact H1|exact H2]|lia]| |]; intros []; assumption.
  - exists jp, cp. rewrite Hp in Hr. exact Hr.
Defined.
