(* ===== verification/GatewayReplies.v ===== *)
(** What the gateway answers the pool's validation requests with
    ([gateway/src/datum/validation_replies.rs], with the limits of
    [core/src/datum/messages/validation.rs]): the short transaction list of a job, named
    transactions, all of them, or the block before it. The node is a function from the
    block asked for to the value it returns, none where the call fails. *)
From S2P Require Import Prelude Reader Hex Bitcoin Transaction SipHash Framing Channel Messages Target Header ShareMsg Relay.
From S2P Require Import Validation Json Template NotifyId GatewayJob.

(** ** The limits of a reply *)

Definition MAX_MINING_PAD_LEN : Z := 100.
Definition PARENT_FETCH_REPLY_OVERHEAD : Z := (Z.of_nat REQUEST_HEADER_LEN + 1) + Z.of_nat HASH_SIZE + 4 + 1.
Definition MAX_PARENT_FETCH_BLOCK_LEN : Z := MAX_PLAINTEXT_LEN - PARENT_FETCH_REPLY_OVERHEAD - MAX_MINING_PAD_LEN.
Definition TXN_LIST_REPLY_OVERHEAD : Z := (Z.of_nat REQUEST_HEADER_LEN + 1) + 2 + 1.
Definition MAX_TXN_LIST_TXN_BYTES : Z := MAX_PLAINTEXT_LEN - TXN_LIST_REPLY_OVERHEAD - MAX_MINING_PAD_LEN.

(** ** The job asked about *)

Record SlotLookupFailure := { failure_job_index : Z; failure_status : TxnListStatus }.

Definition job_slot (c : JobConfig) (t : JobTable) (index : Z) : result SlotLookupFailure Job :=
  if protocol_job_slots c <=? index
  then Err {| failure_job_index := JOB_INDEX_INVALID; failure_status := BadJobIndex |}
  else ok_or {| failure_job_index := index; failure_status := JobEmpty |} (job_at t index).

(** The job a request names by the byte at [JOB_INDEX_AT]. *)
Definition lookup_job (c : JobConfig) (t : JobTable) (plain : bytes) : result SlotLookupFailure Job :=
  i ← ok_or {| failure_job_index := JOB_INDEX_INVALID; failure_status := BadRequest |} (bz <$> plain !! JOB_INDEX_AT);
  job_slot c t i.

(** ** The parts of a reply *)

Definition short_list_empty (job_index : Z) (status : TxnListStatus) : ShortTxnList :=
  {| short_job_index := job_index; short_status := status; short_ids := []; short_crosscheck := None |}.

Definition short_txn_list (pool_sign_pk sign_pk : bytes) (j : Job) : ShortTxnList :=
  let hashes := witness_hashes (template j) in
  if MAX_SHORT_LIST_TXNS <? zlen hashes then short_list_empty (slot j) Validation.TooManyTxns else
  let key := short_id_key sign_pk pool_sign_pk in
  {| short_job_index := slot j; short_status := StatusOk; short_ids := (fun h => short_id h key) <$> hashes;
     short_crosscheck := if bool_decide (hashes = []) then None else Some (crosscheck hashes) |}.

(** The indexes in turn, each marked; none where one is past the end or was listed. *)
Fixpoint mark_listed (listed : list bool) (ids : list Z) : option (list bool) :=
  match ids with
  | [] => Some listed
  | i :: ids =>
    was ← listed !! Z.to_nat i;
    if (was : bool) then None else mark_listed (<[Z.to_nat i := true]> listed) ids
  end.

Definition requested_ids (plain : bytes) (txn_count : Z) : option (list Z) :=
  rest ← (if (REQUEST_HEADER_LEN <=? length plain)%nat then Some (drop REQUEST_HEADER_LEN plain) else None);
  '(count, c) ← ok (u16 (E := Error) "index count" (new_reader rest));
  if (count =? 0) || (txn_count <? count) then None else
  '(b, _) ← ok (take_bytes (E := Error) (count * 2) "indexes" c);
  let ids := le_val <$> (as_chunks 2 b).1 in
  _ ← mark_listed (replicate (Z.to_nat txn_count) false) ids;
  Some ids.

(** None where an index is past the end of the transactions, which [requested_ids]
    rules out. *)
Definition txn_list (lookup : result SlotLookupFailure Job) (plain : bytes) (all : bool) : option TxnList :=
  let selector := if all then response.BLOCK_TXNS else response.TXNS in
  match lookup with
  | Err f => Some (txn_list_empty selector (failure_job_index f) (failure_status f))
  | Ok j =>
    let txns := Template.txns (template j) in
    let ids := if all then Some (seqZ 0 (zlen txns)) else requested_ids plain (zlen txns) in
    match ids with
    | None => Some (txn_list_empty selector (slot j) BadRequest)
    | Some ids =>
      picked ← mapM (fun i => txn_raw <$> txns !! Z.to_nat i) ids;
      let reply_bytes := wrap 64 (sumZ ((fun raw => Z.of_nat TXN_SIZE_LEN + zlen raw) <$> picked)) in
      Some (if MAX_TXN_LIST_TXN_BYTES <? reply_bytes then txn_list_empty selector (slot j) Validation.TooManyTxns else
            {| selector := selector; Validation.job_index := slot j; txn_status := StatusOk; Validation.txns := picked |})
    end
  end.

Section replies.
Context `{!Json}.

(** [getblock] of a hash in hexadecimal, without its fields decoded. *)
Definition fetch_parent (getblock : bytes -> option value) (hash_hex : bytes) : ParentFetchStatus * bytes :=
  match getblock hash_hex with
  | Some v =>
    match as_str v ≫= hex_decode with
    | Some block =>
      if negb (bool_decide (block = [])) && (zlen block <=? MAX_PARENT_FETCH_BLOCK_LEN)
      then (Success, block) else (RpcFailed, [])
    | None => (RpcFailed, [])
    end
  | None => (Unavailable, [])
  end.

Definition parent_reply (getblock : bytes -> option value) (lookup : result SlotLookupFailure Job) (idx : Z) (hash : bytes)
    : ParentFetchReply :=
  let '(status, block) :=
    match lookup with
    | Ok j => if bool_decide (prev_of j = hash) then fetch_parent getblock (hash_to_display_hex (prev_of j)) else (JobMismatch, [])
    | Err _ => (JobMismatch, [])
    end in
  {| fetch_job_index := idx; fetch_status := status; parent_hash := hash; fetch_block := block |}.

(** [response_to]; the outer option is none where an index would panic, the inner where
    nothing is answered. *)
Definition response_to (c : JobConfig) (t : JobTable) (getblock : bytes -> option value) (pool_sign_pk sign_pk plain : bytes)
    : option (option bytes) :=
  match bz <$> plain !! SELECTOR_AT with
  | None => Some None
  | Some sub =>
    let lookup := lookup_job c t plain in
    if sub =? request.SHORT_TXN_LIST then
      Some (Some (encode_short_list match lookup with
        | Ok j => short_txn_list pool_sign_pk sign_pk j
        | Err f => short_list_empty (failure_job_index f) (failure_status f)
        end))
    else if (sub =? request.TXNS) || (sub =? request.BLOCK_TXNS) then
      list ← txn_list lookup plain (sub =? request.BLOCK_TXNS);
      Some (Some (encode_txn_list list))
    else if sub =? request.PARENT_FETCH then
      if negb (length plain =? PARENT_FETCH_REQUEST_LEN)%nat then Some None else
      idx ← plain !! JOB_INDEX_AT;
      Some (Some (encode_parent_fetch (parent_reply getblock lookup (bz idx) (drop REQUEST_HEADER_LEN plain))))
    else Some None
  end.

End replies.

(** ** The indexes a request lists *)

Lemma mark_listed_spec ids : forall listed,
  is_some (mark_listed listed ids) = true <->
  NoDup (Z.to_nat <$> ids) /\ Forall (fun i => listed !! Z.to_nat i = Some false) ids.
Proof.
  induction ids as [|i ids IH]; intros listed; cbn [mark_listed fmap list_fmap].
  - split; [intros _; split; constructor|done].
  - destruct (listed !! Z.to_nat i) as [was|] eqn:E; cbn [mbind option_bind].
    2:{ split; [done|]. intros [_ Hf]. inversion Hf as [|? ? H1]; subst. by rewrite E in H1. }
    destruct was; cbn.
    + split; [done|]. intros [_ Hf]. inversion Hf as [|? ? H1]; subst. by rewrite E in H1.
    + rewrite IH, NoDup_cons, Forall_cons. split.
      * intros [Hn Hf]. split_and!; [|done|done|].
        -- intros (k & Hk & Hin)%list_elem_of_fmap. rewrite Forall_forall in Hf. specialize (Hf k Hin). cbn beta in Hf.
           rewrite <- Hk in Hf. rewrite list_lookup_insert_eq in Hf by (by eapply lookup_lt_Some). done.
        -- rewrite Forall_forall in Hf |- *. intros k Hin. specialize (Hf k Hin). cbn beta in Hf.
           destruct (decide (Z.to_nat i = Z.to_nat k)) as [Heq|Hne].
           ++ rewrite <- Heq in Hf. by rewrite list_lookup_insert_eq in Hf by (by eapply lookup_lt_Some).
           ++ by rewrite list_lookup_insert_ne in Hf by done.
      * intros [[Hnin Hn] [_ Hf]]. split; [done|]. rewrite Forall_forall in Hf |- *. intros k Hin.
        rewrite list_lookup_insert_ne; [by apply Hf|]. intros Heq. apply Hnin. rewrite Heq. by apply list_elem_of_fmap_2.
Qed.

Lemma as_chunks_join (f : Z -> bytes) n ids : (0 < n)%nat -> (forall i, length (f i) = n) ->
  as_chunks n (mjoin (f <$> ids)) = (f <$> ids, []).
Proof.
  intros Hn Hf. induction ids as [|i ids IH]; [done|]. rewrite join_fmap_cons, as_chunks_app, IH by done. done.
Qed.

Lemma as_chunks_whole n k (b : bytes) : (0 < n)%nat -> length b = (k * n)%nat ->
  mjoin (as_chunks n b).1 = b /\ length (as_chunks n b).1 = k /\ Forall (fun c => length c = n) (as_chunks n b).1.
Proof.
  intros Hn. revert b. induction k as [|k IH]; intros b Hb; [destruct b; [done|cbn in Hb; lia]|].
  rewrite <- (take_drop n b). rewrite as_chunks_app by (rewrite ?length_take; lia).
  destruct (IH (drop n b) ltac:(rewrite length_drop; lia)) as (Hj & Hl & Hf).
  destruct (as_chunks n (drop n b)) as [chunks tail]. cbn [fst] in *.
  change (take n b ++ mjoin chunks = take n b ++ drop n b /\ S (length chunks) = S k /\ Forall (fun c => length c = n) (take n b :: chunks)).
  rewrite Hj, Hl. split_and!; [done|done|].
  constructor; [rewrite length_take; lia|done].
Qed.


Lemma ids_of_chunks (chunks : list bytes) : Forall (fun c => length c = 2%nat) chunks -> le 2 <$> (le_val <$> chunks) = chunks.
Proof. induction 1 as [|c l Hc _ IH]; [done|]. rewrite !fmap_cons, IH. f_equal. rewrite <- Hc at 1. apply le_le_val. Qed.

(** What a request for named transactions lists: three bytes, the count, the indexes and
    whatever the pool pads it with. *)
Definition lists_ids (plain : bytes) (ids : list Z) : Prop := exists pre pad,
  plain = pre ++ le 2 (zlen ids) ++ mjoin (le 2 <$> ids) ++ pad /\ length pre = REQUEST_HEADER_LEN.

Lemma length_join_le2 ids : length (mjoin (le 2 <$> ids)) = (length ids * 2)%nat.
Proof. induction ids as [|i ids IH]; [done|]. rewrite join_fmap_cons, length_app, IH, length_le. cbn. lia. Qed.

(** What reads a request back. *)
Lemma read_count rest : (2 <= length rest)%nat ->
  u16 (E := Error) "index count" (new_reader rest) = Ok (le_val (take 2 rest), Rd rest (drop 2 rest)).
Proof.
  intros Hl. unfold new_reader. rewrite <- (take_drop 2 rest) at 2.
  rewrite <- (le_le_val (take 2 rest)) at 1. rewrite length_take_le by done. apply u16_ok.
  pose proof (le_val_range (take 2 rest)) as Hr. rewrite length_take_le in Hr by done. exact Hr.
Qed.

Lemma read_count_short rest : (length rest < 2)%nat -> ok (u16 (E := Error) "index count" (new_reader rest)) = None.
Proof.
  intros Hl. unfold u16, uint_le, arr, mbind, parser_bind, take_bytes, zlen. cbn [Reader.rest new_reader].
  by rewrite (proj2 (Z.ltb_lt _ _)) by lia.
Qed.

Lemma NoDup_to_nat (ids : list Z) n : Forall (fun i => 0 <= i < n) ids -> NoDup (Z.to_nat <$> ids) <-> NoDup ids.
Proof.
  intros Hf. split; [apply NoDup_fmap_1|]. intros Hn. apply NoDup_fmap_2_strong; [|done].
  rewrite Forall_forall in Hf. intros x y Hx%Hf Hy%Hf. lia.
Qed.

Lemma not_listed n ids : Forall (fun i => replicate (Z.to_nat n) false !! Z.to_nat i = Some false) ids ->
  Forall (fun i => 0 <= i) ids -> Forall (fun i => 0 <= i < n) ids.
Proof.
  intros Hf Hp. rewrite Forall_forall in Hf, Hp |- *. intros i Hi. specialize (Hf i Hi). specialize (Hp i Hi).
  apply lookup_replicate_1 in Hf as [_ Hlt]. cbn in Hp. lia.
Qed.

Lemma listed_length n ids : NoDup ids -> Forall (fun i => 0 <= i < n) ids -> zlen ids <= Z.max n 0.
Proof.
  intros Hn Hf. unfold zlen.
  assert (NoDup (Z.to_nat <$> ids)) as Hnd by by eapply NoDup_to_nat.
  assert ((Z.to_nat <$> ids) ⊆ seq 0 (Z.to_nat n)) as Hsub.
  { intros k (i & -> & Hi)%list_elem_of_fmap. rewrite Forall_forall in Hf. specialize (Hf i Hi). cbn in Hf. apply elem_of_seq. lia. }
  pose proof (submseteq_length _ _ (NoDup_submseteq _ _ Hnd Hsub)) as Hlen. rewrite length_fmap, length_seq in Hlen. lia.
Qed.

(** A request is taken exactly where it lists indexes of the template, one at least and
    none twice. *)
Lemma requested_ids_exact (plain : bytes) (n : Z) (ids : list Z) : 0 <= n <= MAX_SHORT_LIST_TXNS ->
  requested_ids plain n = Some ids <->
  lists_ids plain ids /\ ids <> [] /\ NoDup ids /\ Forall (fun i => 0 <= i < n) ids.
Proof.
  intros Hn. unfold MAX_SHORT_LIST_TXNS in Hn. unfold requested_ids, lists_ids. split.
  - destruct (Nat.leb_spec REQUEST_HEADER_LEN (length plain)) as [Hl|]; [|done]. cbn [mbind option_bind].
    set (rest := drop REQUEST_HEADER_LEN plain). destruct (decide (length rest < 2)%nat) as [Hs|Hs]; [by rewrite read_count_short|].
    rewrite read_count by lia. cbn [ok mbind option_bind]. set (count := le_val (take 2 rest)).
    destruct ((count =? 0) || _) eqn:Ec; [done|]. apply orb_false_iff in Ec as [H0%Z.eqb_neq Hmax%Z.ltb_ge].
    pose proof (le_val_range (take 2 rest)) as Hr. fold count in Hr.
    unfold take_bytes. cbn [Reader.rest Reader.full]. set (tail := drop 2 rest).
    destruct (Z.ltb_spec (zlen tail) (count * 2)) as [|Ht]; [done|]. cbn [ok mbind option_bind].
    destruct (as_chunks_whole 2 (Z.to_nat count) (take (Z.to_nat (count * 2)) tail) ltac:(lia)) as (Hj & Hc & Hf).
    { rewrite length_take_le; unfold zlen in Ht; lia. }
    set (chunks := (as_chunks 2 (take (Z.to_nat (count * 2)) tail)).1) in *.
    destruct (mark_listed _ _) as [listed|] eqn:Em; [|done]. cbn [mbind option_bind]. intros [= <-].
    assert (is_some (mark_listed (replicate (Z.to_nat n) false) (le_val <$> chunks)) = true) as [Hnd Hall]%mark_listed_spec by by rewrite Em.
    apply not_listed in Hall. 2:{ apply Forall_fmap, Forall_true. intros c. apply le_val_range. }
    split_and!; [|by destruct chunks; [cbn [length] in Hc; lia|]|by eapply NoDup_to_nat|done].
    exists (take REQUEST_HEADER_LEN plain), (drop (Z.to_nat (count * 2)) tail).
    rewrite length_take_le by done. split; [|done]. rewrite ids_of_chunks, Hj by done.
    unfold zlen at 1. rewrite length_fmap, Hc, Z2Nat.id by lia. subst count.
    replace 2%nat with (length (take 2 rest)) at 1 by (rewrite length_take_le; lia). rewrite le_le_val.
    rewrite take_drop. unfold tail. rewrite take_drop. unfold rest. by rewrite take_drop.
  - intros ((pre & pad & -> & Hpre) & Hne & Hnd & Hall). pose proof (listed_length n ids Hnd Hall) as Hlen.
    rewrite (proj2 (Nat.leb_le _ _)) by (rewrite length_app; lia). cbn [mbind option_bind].
    rewrite <- Hpre, drop_app_length. pose proof (zlen_nonneg ids).
    assert (ids <> [] -> zlen ids <> 0) as Hnz by (unfold zlen; destruct ids; [done|cbn [length]; lia]). specialize (Hnz Hne).
    unfold new_reader. rewrite u16_ok by (unfold uint; lia). cbn [ok mbind option_bind].
    rewrite (proj2 (Z.eqb_neq _ _)), (proj2 (Z.ltb_ge _ _)) by lia. cbn [orb].
    rewrite take_ok by (unfold zlen; rewrite length_join_le2; lia). cbn [ok mbind option_bind].
    rewrite as_chunks_join by (lia || intros; apply length_le). cbn [fst].
    assert (le_val <$> (le 2 <$> ids) = ids) as ->.
    { rewrite <- list_fmap_compose. rewrite <- (list_fmap_id ids) at 2. apply Forall_fmap_ext_1.
      eapply Forall_impl; [exact Hall|]. intros i Hi. change (le_val (le 2 i) = i). apply le_val_le_small.
      cbn beta in Hi. change (256 ^ Z.of_nat 2) with 65536. lia. }
    assert (is_some (mark_listed (replicate (Z.to_nat n) false) ids) = true) as Hm.
    { apply mark_listed_spec. split; [by eapply NoDup_to_nat|]. eapply Forall_impl; [exact Hall|]. intros i Hi. cbn beta in Hi |- *.
      apply lookup_replicate_2. lia. }
    by destruct (mark_listed _ ids).
Qed.

(** ** What a template lets a reply hold *)

(** What is asked of the transactions the node served: their number is checked when the
    template is read, and their lengths can be added up. *)
Record served_txns (t : Template) : Prop := {
  st_count : zlen (txns t) <= MAX_SHORT_LIST_TXNS;
  st_size : Forall (fun x => zlen (txn_raw x) < 2 ^ 48) (txns t);
}.

Lemma sumZ_bound (l : list Z) b : Forall (fun x => 0 <= x <= b) l -> 0 <= b -> 0 <= sumZ l <= zlen l * b.
Proof.
  intros Hl Hb. induction Hl as [|x l Hx _ IH]; [unfold zlen; cbn [sumZ foldr length]; lia|]. rewrite sumZ_cons.
  replace (zlen (x :: l)) with (zlen l + 1) by (unfold zlen; cbn [length]; lia).
  rewrite Z.mul_add_distr_r. cbn beta in Hx. lia.
Qed.

Lemma sumZ_elem (l : list Z) x : x ∈ l -> Forall (fun y => 0 <= y) l -> x <= sumZ l.
Proof.
  induction 1 as [x l|x y l _ IH]; intros Hf; inversion Hf as [|? ? Hy Hl]; subst; rewrite sumZ_cons.
  - pose proof (sumZ_nonneg l Hl). lia.
  - specialize (IH Hl). lia.
Qed.

(** The transactions picked, whose sum never wraps. *)
Lemma picked_sum t ids picked : served_txns t -> NoDup ids -> Forall (fun i => 0 <= i < zlen (txns t)) ids ->
  mapM (fun i => txn_raw <$> txns t !! Z.to_nat i) ids = Some picked ->
  let bytes := sumZ ((fun raw => Z.of_nat TXN_SIZE_LEN + zlen raw) <$> picked) in
  wrap 64 bytes = bytes /\ zlen picked = zlen ids /\ Forall (fun raw => zlen raw < 2 ^ 48) picked.
Proof.
  intros [Hc Hs] Hn Hf Hm. cbn zeta. apply mapM_Some in Hm. pose proof (Forall2_length _ _ _ Hm) as Hl.
  assert (Forall (fun raw => zlen raw < 2 ^ 48) picked) as Hp.
  { apply Forall_forall. intros raw Hin. apply list_elem_of_lookup in Hin as [k Hk].
    destruct (Forall2_lookup_r _ _ _ _ _ Hm Hk) as (i & _ & Hi). apply fmap_Some in Hi as (x & Hx & ->).
    rewrite Forall_forall in Hs. by apply Hs, (list_elem_of_lookup_2 _ _ _ Hx). }
  pose proof (listed_length _ ids Hn Hf) as Hlen. unfold MAX_SHORT_LIST_TXNS in Hc. pose proof (zlen_nonneg (txns t)).
  assert (zlen picked = zlen ids) as Hz by (unfold zlen; by rewrite Hl). split_and!; [|done|done].
  pose proof (sumZ_bound ((fun raw => Z.of_nat TXN_SIZE_LEN + zlen raw) <$> picked) (2 ^ 49)) as Hb.
  unfold TXN_SIZE_LEN in *. apply wrap_small. unfold uint. destruct Hb as [Hb1 Hb2].
  - apply Forall_fmap. eapply Forall_impl; [exact Hp|]. intros raw Hr. cbn beta in Hr |- *. pose proof (zlen_nonneg raw). cbn. lia.
  - done.
  - split; [done|]. replace (zlen (_ <$> picked)) with (zlen picked) in Hb2 by (unfold zlen; by rewrite length_fmap). lia.
Qed.

Lemma all_ids n : 0 <= n -> NoDup (seqZ 0 n) /\ Forall (fun i => 0 <= i < n) (seqZ 0 n).
Proof. intros Hn. split; [apply NoDup_seqZ|]. apply Forall_forall. intros i Hi%elem_of_seqZ. lia. Qed.

Lemma picks (t : Template) ids : Forall (fun i => 0 <= i < zlen (txns t)) ids ->
  exists picked, mapM (fun i => txn_raw <$> txns t !! Z.to_nat i) ids = Some picked.
Proof.
  induction 1 as [|i ids Hi _ (picked & IH)]; [by exists []|].
  destruct (lookup_lt_is_Some_2 (txns t) (Z.to_nat i)) as [x Hx]; [unfold zlen in Hi; lia|].
  exists (txn_raw x :: picked). cbn. by rewrite Hx, IH.
Qed.

Lemma picks_all (t : Template) :
  mapM (fun i => txn_raw <$> txns t !! Z.to_nat i) (seqZ 0 (zlen (txns t))) = Some (txn_raw <$> txns t).
Proof.
  apply mapM_Some_2, Forall2_same_length_lookup_2.
  - unfold zlen. rewrite length_seqZ, length_fmap. lia.
  - intros k i raw Hi Hr. apply lookup_seqZ in Hi as [-> Hk]. rewrite list_lookup_fmap in Hr.
    replace (Z.to_nat (0 + Z.of_nat k)) with k by lia. done.
Qed.

(** ** A reply fits a frame *)

Section fitting.
Context `{!Json}.

(** Every list answered: the indexes are within the template, so it is always given. *)
Lemma txn_list_given lookup plain all : (forall j, lookup = Ok j -> served_txns (template j)) ->
  exists l, txn_list lookup plain all = Some l /\
  (txn_status l = StatusOk ->
   let bytes := sumZ ((fun raw => Z.of_nat TXN_SIZE_LEN + zlen raw) <$> Validation.txns l) in
   bytes <= MAX_TXN_LIST_TXN_BYTES /\ zlen (Validation.txns l) <= MAX_SHORT_LIST_TXNS) /\
  (txn_status l <> StatusOk -> Validation.txns l = []).
Proof.
  intros Hj. unfold txn_list. destruct lookup as [j|f]; [|by eexists]. specialize (Hj j eq_refl). cbn zeta.
  set (ids := if all then _ else _).
  assert (forall l, ids = Some l -> NoDup l /\ Forall (fun i => 0 <= i < zlen (txns (template j))) l) as Hids.
  { intros l. subst ids. destruct all; [intros [= <-]; apply all_ids, zlen_nonneg|].
    intros (_ & _ & Hn & Hf)%requested_ids_exact; [done|]. split; [apply zlen_nonneg|apply Hj]. }
  destruct ids as [l|]; [|by eexists]. destruct (Hids l eq_refl) as [Hn Hf].
  destruct (picks (template j) l Hf) as [picked Hp]. rewrite Hp. cbn [mbind option_bind].
  destruct (picked_sum _ _ _ Hj Hn Hf Hp) as (Hw & Hz & _). rewrite Hw.
  eexists. split; [reflexivity|]. destruct (Z.ltb_spec MAX_TXN_LIST_TXN_BYTES (sumZ ((fun raw => Z.of_nat TXN_SIZE_LEN + zlen raw) <$> picked))); [done|].
  split; [|done]. intros _. cbn. split; [done|]. rewrite Hz. pose proof (listed_length _ _ Hn Hf). pose proof (st_count _ Hj).
  pose proof (zlen_nonneg (txns (template j))). lia.
Qed.

Lemma zlen_encode_txn_list l :
  zlen (encode_txn_list l) =
  if bool_decide (txn_status l = StatusOk)
  then TXN_LIST_REPLY_OVERHEAD + sumZ ((fun raw => Z.of_nat TXN_SIZE_LEN + zlen raw) <$> Validation.txns l) else 4.
Proof.
  unfold encode_txn_list. rewrite zlen_app. case_bool_decide; cbn [negb]; [|done]. rewrite !zlen_app.
  assert (forall k : list bytes, zlen (mjoin ((fun tx => encode_txn_size (zlen tx) ++ tx) <$> k)) =
    sumZ ((fun raw => Z.of_nat TXN_SIZE_LEN + zlen raw) <$> k)) as ->.
  { induction k as [|tx k IH]; [done|]. rewrite join_fmap_cons, fmap_cons, sumZ_cons, zlen_app, IH.
    unfold encode_txn_size. rewrite !zlen_app. unfold zlen at 1. rewrite length_le.
    change (zlen [zb (Z.shiftr (zlen tx) 16)]) with 1. unfold TXN_SIZE_LEN. lia. }
  unfold zlen at 2. rewrite length_le. unfold TXN_LIST_REPLY_OVERHEAD.
  change (zlen [zb STRUCT_END]) with 1. change (Z.of_nat REQUEST_HEADER_LEN) with 3.
  match goal with |- zlen ?l + _ = _ => change (zlen l) with 4 end. lia.
Qed.

Lemma crosscheck_length hashes : (length (crosscheck hashes) <= 32)%nat.
Proof.
  unfold crosscheck. assert (forall s, (length (foldl xor_bytes s hashes) <= length s)%nat) as Hf; [|apply (Hf CROSSCHECK_SEED)].
  induction hashes as [|h l IH]; intros s; cbn; [done|]. rewrite IH. unfold xor_bytes. rewrite length_zip_with. lia.
Qed.

Lemma zlen_short_list l : zlen (short_ids l) <= MAX_SHORT_LIST_TXNS -> (forall x, short_crosscheck l = Some x -> (length x <= 32)%nat) ->
  zlen (encode_short_list l) <= 4 + 2 + 6 * MAX_SHORT_LIST_TXNS + 32 + 1.
Proof.
  intros Hs Hx. unfold encode_short_list. rewrite zlen_app.
  match goal with |- zlen ?l + _ <= _ => change (zlen l) with 4 end. unfold MAX_SHORT_LIST_TXNS in *.
  case_bool_decide; cbn [negb]; [|change (zlen []) with 0; lia]. rewrite zlen_app. unfold zlen at 1. rewrite length_le.
  case_bool_decide; [change (zlen []) with 0; lia|]. rewrite !zlen_app. change (zlen [zb STRUCT_END]) with 1.
  assert (zlen (default [] (short_crosscheck l)) <= 32).
  { destruct (short_crosscheck l) as [x|]; [|done]. specialize (Hx x eq_refl). unfold zlen. cbn. lia. }
  assert (forall k, zlen (mjoin ((fun id => take SHORT_ID_SIZE (le 8 id)) <$> k)) = 6 * zlen k) as ->; [|lia].
  induction k as [|x k IH]; [done|]. rewrite join_fmap_cons, zlen_app, IH. unfold zlen. rewrite length_take, length_le. cbn [length]. 
  change (Nat.min SHORT_ID_SIZE 8) with 6%nat. lia.
Qed.

Lemma zlen_encode_parent_fetch r : length (parent_hash r) = 32%nat ->
  zlen (encode_parent_fetch r) = PARENT_FETCH_REPLY_OVERHEAD + zlen (fetch_block r).
Proof.
  intros Hl. unfold encode_parent_fetch. rewrite !zlen_app. unfold zlen at 5 6. rewrite length_le, Hl. unfold PARENT_FETCH_REPLY_OVERHEAD.
  repeat match goal with |- context [zlen [?b]] => change (zlen [b]) with 1 end.
  change (Z.of_nat REQUEST_HEADER_LEN) with 3. change (Z.of_nat HASH_SIZE) with 32. lia.
Qed.

Lemma fetch_parent_fits getblock h status block : fetch_parent getblock h = (status, block) ->
  zlen block <= MAX_PARENT_FETCH_BLOCK_LEN /\ (status = Success <-> block <> []).
Proof.
  unfold fetch_parent. assert (zlen (@nil byte) <= MAX_PARENT_FETCH_BLOCK_LEN) by done.
  destruct (getblock h) as [v|]; [|by intros [= <- <-]]. destruct (as_str v ≫= hex_decode) as [b|]; [|by intros [= <- <-]].
  case_bool_decide; cbn [negb andb]; [by intros [= <- <-]|]. destruct (Z.leb_spec (zlen b) MAX_PARENT_FETCH_BLOCK_LEN); by intros [= <- <-].
Qed.

(** The pool's every validation request is answered or passed over without a panic, and
    an answer fits a frame of the channel with whatever it is padded by, so none is dropped
    as too large: neither the transactions of a job, named or all, nor its short list, nor
    the block before it. *)
Theorem validation_replies_fit (c : JobConfig) (t : JobTable) (getblock : bytes -> option value)
    (pool_sign_pk sign_pk plain : bytes) :
  (forall i j, job_at t i = Some j -> served_txns (template j)) ->
  exists r, response_to c t getblock pool_sign_pk sign_pk plain = Some r /\
  forall reply, r = Some reply -> zlen reply + MAX_MINING_PAD_LEN <= MAX_PLAINTEXT_LEN.
Proof.
  intros Hs. unfold response_to. destruct (bz <$> plain !! SELECTOR_AT) as [sub|]; [|by eexists].
  assert (forall j, lookup_job c t plain = Ok j -> served_txns (template j)) as Hj.
  { intros j. unfold lookup_job, job_slot. destruct (bz <$> plain !! JOB_INDEX_AT) as [i|]; [|done]. cbn.
    destruct (protocol_job_slots c <=? i); [done|]. destruct (job_at t i) as [j0|] eqn:E; [|done]. intros [= <-]. by eapply Hs. }
  destruct (sub =? request.SHORT_TXN_LIST).
  { eexists. split; [reflexivity|]. intros reply [= <-].
    match goal with |- context [encode_short_list ?l] => pose proof (zlen_short_list l) as Hz end.
    etrans; [apply Z.add_le_mono_r, Hz|done]; destruct (lookup_job c t plain) as [j|f]; try done; unfold short_txn_list;
      destruct (Z.ltb_spec MAX_SHORT_LIST_TXNS (zlen (witness_hashes (template j)))); cbn; try done.
    - unfold zlen in *. by rewrite length_fmap.
    - case_bool_decide; [done|]. intros x [= <-]. apply crosscheck_length. }
  destruct (_ || _).
  { destruct (txn_list_given (lookup_job c t plain) plain (sub =? request.BLOCK_TXNS) Hj) as (l & -> & Hok & _). cbn [mbind option_bind].
    eexists. split; [reflexivity|]. intros reply [= <-]. rewrite zlen_encode_txn_list. case_bool_decide as E; [|done].
    destruct (Hok E) as [Hb _]. unfold MAX_TXN_LIST_TXN_BYTES in Hb. lia. }
  destruct (sub =? request.PARENT_FETCH); [|by eexists]. destruct (Nat.eqb_spec (length plain) PARENT_FETCH_REQUEST_LEN) as [Hl|]; [|by eexists].
  cbn [negb]. destruct (lookup_lt_is_Some_2 plain JOB_INDEX_AT) as [idx ->]; [rewrite Hl; unfold PARENT_FETCH_REQUEST_LEN, REQUEST_HEADER_LEN; lia|].
  cbn [mbind option_bind]. eexists. split; [reflexivity|]. intros reply [= <-].
  assert (length (drop REQUEST_HEADER_LEN plain) = 32%nat) as Hh by (rewrite length_drop, Hl; done).
  unfold parent_reply. set (f := match lookup_job c t plain with Ok _ => _ | Err _ => _ end). destruct f as [status block] eqn:Ef.
  rewrite zlen_encode_parent_fetch by done. cbn [fetch_block]. enough (zlen block <= MAX_PARENT_FETCH_BLOCK_LEN) as Hb.
  { unfold MAX_PARENT_FETCH_BLOCK_LEN in Hb. lia. }
  subst f. destruct (lookup_job c t plain) as [j|]; [|by injection Ef as <- <-]. case_bool_decide; [|by injection Ef as <- <-].
  by apply fetch_parent_fits in Ef as [Hb _].
Qed.

End fitting.

(** ** The pool takes a job's transactions *)

Section transactions.
Context `{Digests, !Json}.

(** The node's ids are those of the transactions it serves. *)
Definition txids_hold (t : Template) : Prop := Forall (fun x => txid (txn_raw x) = Ok (txn_txid x)) (txns t).

Lemma txids_of (l : list Txn) : Forall (fun x => txid (txn_raw x) = Ok (txn_txid x)) l -> forall i,
  txids_from i (txn_raw <$> l) = Ok (txn_txid <$> l).
Proof. induction 1 as [|x l Hx _ IH]; intros i; [done|]. rewrite !fmap_cons. cbn [txids_from]. rewrite Hx. cbn. by rewrite IH. Qed.

Lemma built_txns_match c i j : job_built c i j -> served_txns (in_template i) -> txids_hold (in_template i) ->
  txns_match_job (txn_raw <$> txns (template j)) (txn_count (job_section j)) (merkle_branches (job_section j)) = Some (Ok ()).
Proof.
  intros Hb Hs Hx. destruct (jb_branches _ _ _ Hb) as [Hm _]. rewrite (jb_section _ _ _ Hb), (jb_template _ _ _ Hb).
  cbn [txn_count merkle_branches]. unfold txns_match_job. pose proof (st_count _ Hs) as Hc. unfold MAX_SHORT_LIST_TXNS in Hc.
  pose proof (zlen_nonneg (txns (in_template i))). rewrite wrap_small by (unfold uint; lia).
  unfold zlen at 1. rewrite length_fmap. fold (zlen (txns (in_template i))). rewrite Z.eqb_refl. cbn [negb].
  rewrite txids_of by done. rewrite Hm. cbn [mbind option_bind]. unfold ensure. by rewrite bool_decide_eq_true_2.
Qed.

(** C18: The transactions the gateway answers with are what the pool asked the job for. Asked
    for the transactions of a job of its table, it answers, and the pool reads of the
    answer, whatever pads it, the job and the transactions of its template, one for one;
    they pass the pool's check against the section the job's shares carried, so the job
    is valid and its blocks can be relayed. Where they take more than a frame carries the
    pool reads that instead, and no transactions. *)
Theorem pool_takes_the_job_txns (c : JobConfig) (i : JobInputs) (unix_now now : Z) (j : Job) (t : JobTable)
    (getblock : bytes -> option value) (pool_sign_pk sign_pk rest pad : bytes) :
  build_job c i unix_now now = Some (Ok j) -> 0 < protocol_job_slots c <= 256 -> job_at t (slot j) = Some j ->
  served_txns (in_template i) -> txids_hold (in_template i) ->
  exists reply list,
  response_to c t getblock pool_sign_pk sign_pk (request_block_txns (slot j) ++ rest) = Some (Some reply) /\
  decode_txn_list (reply ++ pad) response.BLOCK_TXNS = Ok list /\ Validation.job_index list = slot j /\
  if sumZ ((fun x => Z.of_nat TXN_SIZE_LEN + zlen (txn_raw x)) <$> txns (in_template i)) <=? MAX_TXN_LIST_TXN_BYTES
  then txn_status list = StatusOk /\ Validation.txns list = txn_raw <$> txns (in_template i) /\
    txns_match_job (Validation.txns list) (txn_count (job_section j)) (merkle_branches (job_section j)) = Some (Ok ())
  else txn_status list = Validation.TooManyTxns /\ Validation.txns list = [].
Proof.
  intros Hbuild Hslots Hat Hs Hx. destruct (build_job_spec c i unix_now now) as (r & Hr & Hspec).
  rewrite Hbuild in Hr. injection Hr as <-. pose proof (Hspec j eq_refl) as Hb.
  pose proof (jb_slot _ _ _ Hb) as Hslot. pose proof (Z.mod_pos_bound (in_serial i) (protocol_job_slots c) ltac:(lia)) as Hmod.
  rewrite wrap_small in Hslot by (unfold uint; lia).
  unfold response_to, request_block_txns. cbn [app fmap option_fmap option_map lookup list_lookup SELECTOR_AT].
  rewrite bz_zb_small by done. cbn [Z.eqb request.SHORT_TXN_LIST request.TXNS request.BLOCK_TXNS Pos.eqb orb].
  unfold lookup_job. cbn [fmap option_fmap option_map lookup list_lookup JOB_INDEX_AT]. rewrite bz_zb_small by lia.
  cbn [ok_or mbind result_bind]. unfold job_slot. rewrite (proj2 (Z.leb_gt _ _)) by lia. rewrite Hat. cbn [ok_or].
  unfold txn_list. cbn zeta. pose proof (built_txns_match _ _ _ Hb Hs Hx) as Hmatch. rewrite (jb_template _ _ _ Hb) in Hmatch |- *.
  pose proof (picks_all (in_template i)) as Hpick. destruct (all_ids (zlen (txns (in_template i))) ltac:(apply zlen_nonneg)) as [Hn Hf].
  rewrite Hpick. cbn [mbind option_bind]. destruct (picked_sum _ _ _ Hs Hn Hf Hpick) as (Hw & Hlen & Hsize). rewrite Hw.
  rewrite <- list_fmap_compose. unfold compose.
  match goal with |- context [sumZ ?l] => set (total := sumZ l) end.
  assert (uint 8 (slot j)) as Hu by (unfold uint; lia).
  destruct (Z.ltb_spec MAX_TXN_LIST_TXN_BYTES total) as [Hbig|Hfit].
  - rewrite (proj2 (Z.leb_gt _ _)) by done. eexists _, _. split; [reflexivity|].
    rewrite txn_list_read_back; [|by constructor|done]. by rewrite Z.eqb_refl.
  - rewrite (proj2 (Z.leb_le _ _)) by done. eexists _, _. split; [reflexivity|].
    rewrite txn_list_read_back; [rewrite Z.eqb_refl; by split_and!| |done]. constructor; try done; cbn [Validation.txns].
    + rewrite Hlen. pose proof (st_count _ Hs). unfold MAX_SHORT_LIST_TXNS in *. pose proof (zlen_nonneg (txns (in_template i))).
      unfold zlen in *. rewrite length_seqZ. lia.
    + apply Forall_fmap, Forall_forall. intros x Hin. cbn.
      assert (Z.of_nat TXN_SIZE_LEN + zlen (txn_raw x) <= total) as Hle.
      { apply sumZ_elem; [apply list_elem_of_fmap; by exists x|]. apply Forall_fmap, Forall_true. intros y. cbn. pose proof (zlen_nonneg (txn_raw y)). lia. }
      change MAX_TXN_LIST_TXN_BYTES with 4194180 in Hfit. unfold TXN_SIZE_LEN in Hle. lia.
Qed.
End transactions.

(** ** An example *)

Definition example_text_json : Json :=
  {| value := bytes; at_key v _ := v; as_u64 _ := None; as_i64 _ := None; as_str v := Some v; as_array _ := None |}.

Definition example_raw (n : Z) : bytes :=
  le 4 2 ++ [zb 1] ++ zeros 32 ++ le 4 n ++ [zb 0] ++ le 4 0 ++ [zb 1] ++ le 8 n ++ [zb 1; zb 0x51] ++ le 4 0.

Definition example_served_txn (n : Z) : Txn :=
  {| txn_raw := example_raw n;
     txn_txid := match @txid example_digests (example_raw n) with Ok h => h | Err _ => [] end;
     txn_witness_hash := le 32 n |}.

Definition example_served_inputs : JobInputs :=
  {| in_serial := 300;
     in_template :=
       {| tmpl_height := 21; tmpl_coinbase_value := 5000000000; mintime := 1700000000; curtime := 1700000100;
          tmpl_sizelimit := 4000000; tmpl_weightlimit := 4000000; sigoplimit := 80000; tmpl_version := 0x20000000;
          tmpl_nbits := 0x207fffff; tmpl_prev_hash := le 32 9; tmpl_witness_commitment := replicate 38 (zb 0x6a);
          blake2b_rule := true; reduced_data := false; txns := example_served_txn <$> [5; 6; 7];
          totals := {| total_fee := 1000; total_weight := 400; total_size := 100; total_sigops := 4 |} |};
     pool_config := None; in_coinbaser := None; in_abw := None |}.

Definition example_job : option Job :=
  match @build_job example_digests example_job_config example_served_inputs 77 5 with Some (Ok j) => Some j | _ => None end.

(** A table that serves the job alone. *)
Definition example_table (j : Job) : JobTable := (publish (table_new 256 10) j Pooled 5).1.

Lemma example_served : served_txns (in_template example_served_inputs) /\ @txids_hold example_digests (in_template example_served_inputs).
Proof. split; [constructor; [by vm_compute|by repeat constructor]|]. repeat constructor; by vm_compute. Qed.

Lemma pool_takes_the_job_txns_witness : exists j reply list, example_job = Some j /\
  @response_to example_text_json example_job_config (example_table j) (fun _ => None) (zeros 32) (zeros 32)
    (request_block_txns (slot j)) = Some (Some reply) /\
  decode_txn_list (reply ++ zeros 3) response.BLOCK_TXNS = Ok list /\ length (Validation.txns list) = 3%nat.
Proof.
  destruct example_job as [j|] eqn:E; [|by vm_compute in E]. exists j.
  assert (@build_job example_digests example_job_config example_served_inputs 77 5 = Some (Ok j)) as Hb.
  { unfold example_job in E. destruct (build_job _ _ _ _) as [[j0|]|]; try done. by injection E as ->. }
  assert (from_option (fun j => job_at (example_table j) (slot j)) None example_job = example_job) as Hat by by vm_compute.
  rewrite E in Hat. cbn [from_option] in Hat. destruct example_served as [Hs Hx].
  destruct (@pool_takes_the_job_txns example_digests example_text_json example_job_config example_served_inputs 77 5 j (example_table j)
    (fun _ => None) (zeros 32) (zeros 32) [] (zeros 3) Hb ltac:(done) Hat Hs Hx) as (reply & list & Hr & Hd & _ & Hl).
  exists reply, list. split; [done|]. rewrite app_nil_r in Hr. split; [exact Hr|]. split; [exact Hd|].
  match goal with Hl : if ?b then _ else _ |- _ => assert (b = true) as Hfit by by vm_compute end. rewrite Hfit in Hl.
  destruct Hl as (_ & -> & _). by vm_compute.
Defined.

Lemma validation_replies_fit_witness : exists j r, example_job = Some j /\
  @response_to example_text_json example_job_config (example_table j) (fun h => Some (hex_encode h)) (zeros 32) (zeros 32)
    ([zb 0x50; zb request.PARENT_FETCH; zb (slot j)] ++ le 32 9) = Some r /\
  forall reply, r = Some reply -> zlen reply <= MAX_PLAINTEXT_LEN - 100.
Proof.
  destruct example_job as [j|] eqn:E; [|by vm_compute in E]. exists j.
  destruct (@validation_replies_fit example_text_json example_job_config (example_table j) (fun h => Some (hex_encode h)) (zeros 32) (zeros 32)
    ([zb 0x50; zb request.PARENT_FETCH; zb (slot j)] ++ le 32 9)) as (r & Hr & Hf).
  - intros i k Hk.
    enough (template k = in_template example_served_inputs) as -> by apply example_served.
    unfold job_at, example_table, publish in Hk. cbn [table_tip table_new from_option fst slots] in Hk. revert Hk.
    rewrite list_lookup_insert. case_decide as Hd; cbn [mjoin option_join].
    + intros [= <-]. unfold example_job in E. destruct (@build_job_spec example_digests example_job_config example_served_inputs 77 5) as (r & Er & Hb).
      rewrite Er in E. destruct r as [j0|]; [|done]. injection E as ->. by apply (jb_template _ _ _ (Hb j eq_refl)).
    + rewrite list_lookup_fmap. destruct (replicate _ None !! Z.to_nat i) as [x|] eqn:Ex; [|done].
      apply lookup_replicate_1 in Ex as [-> _]. done.
  - exists r. split; [done|]. split; [exact Hr|]. intros reply Hreply. specialize (Hf reply Hreply). unfold MAX_MINING_PAD_LEN in Hf. lia.
Defined.
