(* ===== verification/GatewaySession.v ===== *)
(** A connection of the gateway to a pool, turn by turn ([gateway/src/datum/session.rs],
    with [probe] and [run_forever] of [gateway/src/datum.rs]): what a turn sends, what it makes
    of a message, when it ends the connection, how long it sleeps, and where the gateway
    goes from there. The frames are those the channel of [Channel] gives; an instant is
    read where the code reads it. *)
From S2P Require Import Prelude Reader Hex Bitcoin Framing Channel Messages Validation AbwMsg AbwSlots Coinbaser Config.
From S2P Require Import Json Template NotifyId GatewayAbw GatewayJob GatewayPool GatewayUser GatewayShares GatewayReplies.

Record SessionConfig := {
  session_jobs : JobConfig;
  session_users : UserConfig;
  protocol_v3 : bool;
  global_timeout : Z;
  pool_sign_pk : bytes;
  identity_sign_pk : bytes;
  motd : bytes;
}.

(** ** Sending *)

(** A message with the pad drawn for it, a byte at least. *)
Definition mining_padded (payload pad : bytes) : option bytes :=
  first ← head pad;
  Some (payload ++ take (Z.to_nat (1 + bz first mod MAX_MINING_PAD_LEN)) pad).

(** [send_mining] up to the write: the frame, or none for a message that is too large and is
    passed over. *)
Definition send_mining `{Crypto} (ch : Channel) (payload pad : bytes) : option (result ChannelError (option bytes) * Channel) :=
  padded ← mining_padded payload pad;
  let '(r, ch) := encrypt ch cmd.MINING padded None in
  Some (match r with Ok wire => Ok (Some wire) | Err (TooLarge _) => Ok None | Err e => Err e end, ch).

(** A message that leaves room for the pad is never passed over. *)
Lemma fitting_message_sent `{Crypto} ch payload pad r ch2 :
  zlen payload + MAX_MINING_PAD_LEN <= MAX_PLAINTEXT_LEN -> send_mining ch payload pad = Some (r, ch2) -> r <> Ok None.
Proof.
  intros Hfit. unfold send_mining, mining_padded. destruct pad as [|b pad]; [done|]. cbn [head mbind option_bind].
  set (padded := payload ++ _). assert (zlen padded <= MAX_PLAINTEXT_LEN) as Hz.
  { subst padded. unfold MAX_MINING_PAD_LEN in *. pose proof (Z.mod_pos_bound (bz b) 100 ltac:(done)) as Hb.
    rewrite zlen_app. unfold zlen at 2. rewrite length_take. lia. }
  unfold encrypt. destruct (precomp ch) as [k|]; [|by intros [= <- <-]]. cbn [ok_or mbind result_bind].
  rewrite (proj2 (Z.ltb_ge _ _)) by done. cbn [negb ensure mbind result_bind].
  destruct (crypto_box_easy_afternm _ _ _) as [ct|]; [|by intros [= <- <-]]. cbn [ok_or].
  destruct (frame _ _ _) as [out c2]. by intros [= <- <-].
Qed.

Inductive SessionError := IoError | ChannelFailed | GlobalTimeout | ShareAckTimeout | BadConfig.

(** What a turn does outside the session: a message on the channel, a request that is
    settled ([publish::on_coinbaser]), and the template thread woken. *)
Inductive Effect :=
| SendMining (payload : bytes)
| Settled (p : PendingCoinbaser) (split : option CoinbaserResponse)
| WakeRaise | WakeRebuild | WakeRefresh.

Record Session := {
  shares : ShareSession;
  session_token : option bytes;
  last_server_message_at : Z;
}.

Definition set_shares (s : Session) (x : ShareSession) : Session :=
  {| shares := x; session_token := session_token s; last_server_message_at := last_server_message_at s |}.

Definition session_open (p : PoolState) (slots : nat) (token : option bytes) (now : Z) : Session :=
  {| shares := session_opened p slots; session_token := token; last_server_message_at := now |}.

Section session.
Context `{Digests, !Json}.
Context (c : SessionConfig).

(** ** A message *)

Definition on_config_frame (s : Session) (plain : bytes) : Session * list Effect * option SessionError :=
  let p := pool_state (shares s) in
  let '(v, token, handled) := on_config_message (protocol_v3 c) (view p) (session_token s) (motd c) plain in
  ({| shares := set_pool (shares s) (set_view p v); session_token := token; last_server_message_at := last_server_message_at s |},
   match handled with ConfigTaken true => [WakeRebuild] | _ => [] end,
   match handled with ConfigBad => Some BadConfig | _ => None end).

Definition on_abw_frame (s : Session) (plain : bytes) : option (Session * list Effect) :=
  let p := pool_state (shares s) in
  '(a, handled) ← on_abw_message (view_abw (view p)) plain;
  Some (set_shares s (set_pool (shares s) (set_view p (set_abw (view p) a))),
        match handled with Handled true => [WakeRefresh] | _ => [] end).

(** [on_mining]; none where an index would panic. *)
Definition on_mining (t : JobTable) (getblock : bytes -> option value) (s : Session) (is_signed : bool) (plain : bytes) (now : Z)
    : option (Session * list Effect * option SessionError) :=
  match bz <$> head plain with
  | None => Some (s, [], None)
  | Some sub =>
    if sub =? server_subcmd.CONFIG then Some (if is_signed then on_config_frame s plain else (s, [], None))
    else if sub =? server_subcmd.MIGRATION then Some (s, [], None)
    else if (sub =? subcmd.ASSIGNMENT_NOTICE) || (sub =? subcmd.ACTIVATION) || (sub =? subcmd.REVEAL) then
      '(s, e) ← on_abw_frame s plain; Some (s, e, None)
    else if (sub =? subcmd.CANDIDATE_RECEIPT) || (sub =? subcmd.CANDIDATE_RELEASE) then Some (s, [], None)
    else if sub =? server_subcmd.COINBASER then
      let '(x, told) := on_coinbaser_response (shares s) plain in
      Some (set_shares s x, (fun '(p, r) => Settled p (Some r)) <$> option_list told, None)
    else if sub =? server_subcmd.SHARE_RESPONSE then
      Some (match decode_share_response plain with Ok r => set_shares s (on_share_response (shares s) r now) | Err _ => s end,
            [], None)
    else if sub =? Validation.SUBCMD then
      reply ← response_to (session_jobs c) t getblock (pool_sign_pk c) (identity_sign_pk c) plain;
      Some (s, SendMining <$> option_list reply, None)
    else if sub =? server_subcmd.BLOCKNOTIFY then Some (s, [WakeRaise], None)
    else Some (s, [], None)
  end.

(** ** A turn *)

(** What the socket gives: it is not readable, or a frame is read of it. *)
Inductive SocketRead :=
| NotReadable
| ReadFailed
| ReadClosed
| ReadEmpty
| Undecrypted
| Frame (proto_cmd : Z) (is_signed : bool) (plain : bytes).

(** What a turn meets: the probe of an earlier pool, the table of jobs, the node, the
    socket, whether it may be written to, and the instants read in order. *)
Record Turn := {
  probe_found : option nat;
  turn_table : JobTable;
  turn_getblock : bytes -> option value;
  turn_socket : SocketRead;
  turn_writes : bool;
  at_start : Z;
  at_send : Z;
  at_expiry : Z;
  at_left : Z;
  at_wait : Z;
  at_heard : Z;
  at_verdict : Z;
}.

Inductive Next := Ends (e : result SessionError nat) | Sleeps (d : Z) | Goes.

Definition until_coinbaser_due (x : ShareSession) (left now : Z) : Z :=
  match awaiting_coinbaser x with
  | Some p => Z.min left (sat_sub COINBASER_WAIT (duration_since now (requested_at p)))
  | None => left
  end.

(** A write that fails ends the connection, and what it was about is forgotten with it. *)
Definition sent (writes : bool) (effects : list Effect) (next : Next) : Next :=
  if negb writes && existsb (fun e => match e with SendMining _ => true | _ => false end) effects then Ends (Err IoError) else next.

Definition on_frame (s : Session) (i : Turn) : option (Session * list Effect * Next) :=
  match turn_socket i with
  | NotReadable => Some (s, [], Goes)
  | ReadFailed | ReadClosed => Some (s, [], Ends (Err IoError))
  | ReadEmpty => Some (s, [], Goes)
  | Undecrypted => Some (s, [], Ends (Err ChannelFailed))
  | Frame proto_cmd is_signed plain =>
    let s := {| shares := shares s; session_token := session_token s; last_server_message_at := at_heard i |} in
    if proto_cmd =? cmd.MINING then
      '(s, effects, failed) ← on_mining (turn_table i) (turn_getblock i) s is_signed plain (at_verdict i);
      Some (s, effects, match failed with Some e => Ends (Err e) | None => sent (turn_writes i) effects Goes end)
    else Some (s, [], Goes)
  end.

(** What follows [send_pending]. *)
Definition after_sending (s : Session) (i : Turn) : option (Session * list Effect * Next) :=
  let '(x, unanswered) := coinbaser_timed_out (shares s) (at_expiry i) in
  let s := set_shares s x in
  let given_up := (fun p => Settled p None) <$> option_list unanswered in
  let left := sat_sub (global_timeout c) (duration_since (at_left i) (last_server_message_at s)) in
  match turn_socket i with
  | NotReadable => Some (s, given_up, Sleeps (until_coinbaser_due (shares s) left (at_wait i)))
  | _ => '(s, effects, next) ← on_frame s i; Some (s, given_up ++ effects, next)
  end.

(** One turn of the loop of [Session::run]. *)
Definition turn (s : Session) (i : Turn) : option (Session * list Effect * Next) :=
  match probe_found i with
  | Some preferred => Some (s, [], Ends (Ok preferred))
  | None =>
    if global_timeout c <=? duration_since (at_start i) (last_server_message_at s) then Some (s, [], Ends (Err GlobalTimeout)) else
    if share_ack_timed_out (shares s) then Some (s, [], Ends (Err ShareAckTimeout)) else
    '(x, payloads) ← send_pending (session_users c) (protocol_v3 c) (turn_table i) (shares s) (at_send i);
    let s := set_shares s x in
    let effects := SendMining <$> payloads in
    match sent (turn_writes i) effects Goes with
    | Ends e => Some (s, effects, Ends e)
    | _ => '(s, more, next) ← after_sending s i; Some (s, effects ++ more, next)
    end
  end.

End session.

(** ** Between two connections *)

(** A pass of the probe over the pools before the one in use: the first that answers, and
    whether the connection was over before one did. *)
Fixpoint probe_pass (answers stopped : nat -> bool) (i n : nat) : option nat :=
  match n with
  | O => None
  | S n => if stopped i then None else if answers i then Some i else probe_pass answers stopped (S i) n
  end.

Record Supervisor := {
  sup_rotation : PoolRotation;
  resume_tokens : list (option bytes);
  sup_pool : PoolState;
  sup_index : nat;
}.

(** [pool.current.store]. *)
Definition at_pool (p : PoolState) (index : nat) : PoolState :=
  {| view := view p; tallies := tallies p; queue := queue p; queue_capacity := queue_capacity p; queue_full := queue_full p;
     current_pool := index |}.

Definition supervisor_new (pools : nat) (p : PoolState) : Supervisor :=
  {| sup_rotation := rotation_new pools; resume_tokens := replicate pools None; sup_pool := at_pool p 0; sup_index := 0 |}.

Record Reconnect := { shuts_down : bool; wakes_rebuild : bool; delays : bool }.

(** The turn of [run_forever] once a connection, left as [s], has ended. *)
Definition session_over (pooled_mining_only : bool) (sup : Supervisor) (s : Session) (outcome : result SessionError nat)
    : Supervisor * Reconnect :=
  let '(p, was_active) := clear_after_disconnect (pool_state (shares s)) in
  let return_to := ok outcome in
  let '(r, n) := rotation_next (sup_rotation sup) was_active return_to in
  ({| sup_rotation := r; resume_tokens := <[sup_index sup := session_token s]> (resume_tokens sup);
      sup_pool := at_pool p (next_index n);
      sup_index := next_index n |},
   {| shuts_down := pooled_mining_only && shutdown n; wakes_rebuild := was_active; delays := delay n |}).

(** ** What becomes of a request for a split *)

(** What happens to the requests on one connection: one is put on the wire, or settled with
    the pool's split or without one. *)
Inductive Settlement := Asks (p : PendingCoinbaser) | Settles (p : PendingCoinbaser) (split : option CoinbaserResponse).

(** A request waits until it is settled, once, with a split of its value if with one; or
    until a newer takes its place. *)
Inductive settles : option PendingCoinbaser -> list Settlement -> option PendingCoinbaser -> Prop :=
| settles_nil held : settles held [] held
| settles_asks held p tr last : settles (Some p) tr last -> settles held (Asks p :: tr) last
| settles_one p split tr last :
    (forall r, split = Some r -> response_value r = pending_value p) ->
    settles None tr last -> settles (Some p) (Settles p split :: tr) last.

Lemma settles_app held tr mid tr2 last : settles held tr mid -> settles mid tr2 last -> settles held (tr ++ tr2) last.
Proof. induction 1; intros H2; cbn; [done|constructor; auto|constructor; auto]. Qed.

Definition settlement (e : Effect) : option Settlement := match e with Settled p split => Some (Settles p split) | _ => None end.

Lemma answer_settles s plain s2 told : on_coinbaser_response s plain = (s2, told) ->
  pool_state s2 = pool_state s /\ (awaiting_coinbaser s2 = awaiting_coinbaser s \/ awaiting_coinbaser s2 = None) /\
  settles (awaiting_coinbaser s) ((fun '(p, r) => Settles p (Some r)) <$> option_list told) (awaiting_coinbaser s2).
Proof.
  unfold on_coinbaser_response. destruct (decode_coinbaser_response plain) as [r|e]; destruct (awaiting_coinbaser s) as [p|] eqn:E.
  - destruct (Z.eqb_spec (pending_value p) (response_value r)) as [Hv|]; intros [= <- <-]; rewrite ?E; (split; [done|split; [auto|]]); cbn; constructor; [|constructor].
    by intros r2 [= <-].
  - intros [= <- <-]. rewrite E. split_and!; [done|auto|constructor].
  - intros [= <- <-]. split_and!; [done|auto|]. cbn. constructor; [by intros r2 [= <-]|constructor].
  - intros [= <- <-]. rewrite E. split_and!; [done|auto|constructor].
Qed.

Lemma given_up_settles s now s2 told : coinbaser_timed_out s now = (s2, told) ->
  settles (awaiting_coinbaser s) ((fun p => Settles p None) <$> option_list told) (awaiting_coinbaser s2) /\
  forall p, awaiting_coinbaser s2 = Some p -> duration_since now (requested_at p) < COINBASER_WAIT.
Proof.
  unfold coinbaser_timed_out. destruct (awaiting_coinbaser s) as [p|] eqn:E; [|intros [= <- <-]; rewrite E; split; [constructor|done]].
  destruct (Z.leb_spec COINBASER_WAIT (duration_since now (requested_at p))); intros [= <- <-]; cbn; rewrite ?E.
  - split; [constructor; [done|constructor]|done].
  - split; [constructor|by intros q [= <-]].
Qed.

Lemma send_share_awaiting u t s q now s2 m : send_share u t s q now = Some (s2, m) -> awaiting_coinbaser s2 = awaiting_coinbaser s.
Proof.
  unfold send_share. destruct (negb _); [by intros [= <- <-]|]. destruct (match job_abw _ with Some a => _ | None => _ end) as [held|]; [|done].
  cbn. destruct held; cbn; [|by intros [= <- <-]]. case_match; [|by intros [= <- <-]].
  destruct (sections_for _ _) as [[sent [a b]]|]; [|done]. cbn. by intros [= <- <-].
Qed.

Lemma send_shares_awaiting u t l now : forall s s2 ms, send_shares u t s l now = Some (s2, ms) -> awaiting_coinbaser s2 = awaiting_coinbaser s.
Proof.
  induction l as [|q l IH]; intros s s2 ms; cbn; [by intros [= <- <-]|]. destruct (send_share u t s q now) as [[s1 m]|] eqn:E; [|done].
  cbn. destruct (send_shares u t s1 l now) as [[s3 k]|] eqn:E2; [|done]. cbn. intros [= <- <-].
  rewrite (IH _ _ _ E2). by eapply send_share_awaiting.
Qed.

(** [send_pending] puts the request left for it on the wire and touches no other. *)
Lemma send_pending_asks u v3 t s now s2 payloads : send_pending u v3 t s now = Some (s2, payloads) ->
  settles (awaiting_coinbaser s) (Asks <$> option_list (coinbaser_request (view (pool_state s)))) (awaiting_coinbaser s2) /\
  forall p, coinbaser_request (view (pool_state s)) = Some p ->
    encode_coinbaser_request {| request_value := pending_value p; request_prev_hash := pending_prev_hash p |} ∈ payloads.
Proof.
  unfold send_pending. set (req := coinbaser_request (view (pool_state s))).
  destruct (match req with Some r => _ | None => _ end) as [s1 requests] eqn:E1.
  assert (settles (awaiting_coinbaser s) (Asks <$> option_list req) (awaiting_coinbaser s1) /\
    forall p, req = Some p -> requests = [encode_coinbaser_request {| request_value := pending_value p; request_prev_hash := pending_prev_hash p |}])
    as [Hs Hreq].
  { destruct req as [r|]; injection E1 as <- <-; cbn; split; [apply settles_asks, settles_nil|by intros p [= <-]|apply settles_nil|done]. }
  destruct (if negb v3 then _ else _) as [waiting|]; [|done]. cbn [mbind option_bind]. destruct waiting.
  - intros [= <- <-]. split; [done|]. intros p ->%Hreq. by apply list_elem_of_singleton.
  - destruct (take_queued_shares (pool_state s1)) as [p0 batch]. destruct (send_shares u t (set_pool s1 p0) batch now) as [[s3 k]|] eqn:E2; [|done].
    cbn. intros [= <- <-]. apply send_shares_awaiting in E2. cbn in E2. rewrite E2. split; [done|]. intros p ->%Hreq.
    apply elem_of_app. left. by apply list_elem_of_singleton.
Qed.

Section turns.
Context `{Digests, !Json}.
Context (c : SessionConfig).

(** No message touches the request but the answer to it; and nothing but a signed one
    changes the pool's configuration. *)
Lemma on_mining_settles t getblock s signed plain now s2 effects failed :
  on_mining c t getblock s signed plain now = Some (s2, effects, failed) ->
  settles (awaiting_coinbaser (shares s)) (omap settlement effects) (awaiting_coinbaser (shares s2)) /\
  (awaiting_coinbaser (shares s2) = awaiting_coinbaser (shares s) \/ awaiting_coinbaser (shares s2) = None) /\
  (signed = false -> view_config (view (pool_state (shares s2))) = view_config (view (pool_state (shares s))) /\ failed = None) /\
  last_server_message_at s2 = last_server_message_at s.
Proof.
  unfold on_mining. destruct (bz <$> head plain) as [sub|]; [|intros [= <- <- <-]; split_and!; [constructor|by left|done|done]].
  destruct (sub =? _).
  { unfold on_config_frame. destruct (on_config_message _ _ _ _ _) as [[v token] handled].
    destruct signed; intros [= <- <- <-]; [|split_and!; [constructor|by left|done|done]]. cbn. split_and!; [|by left|done|done].
    destruct handled as [| |[]]; cbn; constructor. }
  destruct (sub =? _); [intros [= <- <- <-]; split_and!; [constructor|by left|done|done]|].
  destruct (_ || _).
  { unfold on_abw_frame. destruct (on_abw_message _ _) as [[a handled]|]; [|done]. cbn. intros [= <- <- <-].
    split_and!; [|by left|done|done]. destruct handled as [[]| | |]; cbn; constructor. }
  destruct (_ || _); [intros [= <- <- <-]; split_and!; [constructor|by left|done|done]|].
  destruct (sub =? _).
  { destruct (on_coinbaser_response (shares s) plain) as [x told] eqn:E. intros [= <- <- <-]. apply answer_settles in E as (Ep & Eo & E).
    split_and!; [|done|cbn; by rewrite Ep|done]. cbn. destruct told as [[p r]|]; exact E. }
  destruct (sub =? _).
  { destruct (decode_share_response plain) as [r|]; intros [= <- <- <-]; (split_and!; [constructor|by left| |done]); [|done].
    cbn. intros _. split; [|done]. unfold tally. by destruct (match verdict r with Accepted | AcceptedTentatively => true | _ => false end). }
  destruct (sub =? _).
  { destruct (response_to _ _ _ _ _ _) as [reply|]; [|done]. cbn. intros [= <- <- <-]. split_and!; [|by left|done|done].
    destruct reply; constructor. }
  destruct (sub =? _); intros [= <- <- <-]; (split_and!; [constructor|by left|done|done]).
Qed.

Lemma no_settlements (payloads : list bytes) : omap settlement (SendMining <$> payloads) = [].
Proof. induction payloads; [done|]. by cbn. Qed.

Lemma omap_given_up (l : list PendingCoinbaser) : omap settlement ((fun p => Settled p None) <$> l) = (fun p => Settles p None) <$> l.
Proof. induction l as [|p l IH]; [done|]. cbn. by f_equal. Qed.

Definition goes_on (next : Next) : Prop := match next with Ends _ => False | _ => True end.

Lemma sent_goes_on writes effects next : goes_on (sent writes effects next) -> sent writes effects next = next.
Proof. unfold sent. by destruct (_ && _). Qed.

Lemma after_sending_settles s i s2 effects next : after_sending c s i = Some (s2, effects, next) -> goes_on next ->
  settles (awaiting_coinbaser (shares s)) (omap settlement effects) (awaiting_coinbaser (shares s2)) /\
  (forall p, awaiting_coinbaser (shares s2) = Some p ->
    duration_since (at_expiry i) (requested_at p) < COINBASER_WAIT /\
    forall d, next = Sleeps d -> d <= sat_sub COINBASER_WAIT (duration_since (at_wait i) (requested_at p))).
Proof.
  unfold after_sending. destruct (coinbaser_timed_out (shares s) (at_expiry i)) as [x told] eqn:Et. apply given_up_settles in Et as [Hg Hdue].
  cbn zeta. intros Hturn Hgo.
  assert (exists more, effects = ((fun p => Settled p None) <$> option_list told) ++ more /\
    settles (awaiting_coinbaser x) (omap settlement more) (awaiting_coinbaser (shares s2)) /\
    (awaiting_coinbaser (shares s2) = awaiting_coinbaser x \/ awaiting_coinbaser (shares s2) = None) /\
    forall d, next = Sleeps d -> forall p, awaiting_coinbaser x = Some p -> d <= sat_sub COINBASER_WAIT (duration_since (at_wait i) (requested_at p)))
    as (more & -> & Hm & Hor & Hd).
  { destruct (turn_socket i) as [| | | | |proto_cmd signed plain] eqn:Es; unfold on_frame in Hturn; rewrite ?Es in Hturn.
    - injection Hturn as <- <- <-. exists []. rewrite app_nil_r. split_and!; [done|constructor|by left|]. intros d [= <-] p Hp. cbn.
      unfold until_coinbaser_due. cbn. rewrite Hp. lia.
    - injection Hturn as <- <- <-. done.
    - injection Hturn as <- <- <-. done.
    - injection Hturn as <- <- <-. exists []. split_and!; [done|constructor|by left|done].
    - injection Hturn as <- <- <-. done.
    - destruct (proto_cmd =? cmd.MINING); cycle 1.
      { injection Hturn as <- <- <-. exists []. split_and!; [done|constructor|by left|done]. }
      destruct (on_mining _ _ _ _ _ _ _) as [[[s3 e] failed]|] eqn:Em; [|done]. cbn in Hturn. injection Hturn as <- <- <-.
      apply on_mining_settles in Em as (Hs & Ho & _). exists e. split_and!; [done|done|done|].
      destruct failed; [done|]. apply sent_goes_on in Hgo. by rewrite Hgo. }
  rewrite omap_app, omap_given_up. split; [by eapply settles_app|]. intros p Hp. destruct Hor as [Hor|Hor]; [|by rewrite Hor in Hp].
  rewrite Hor in Hp. split; [by apply Hdue|]. intros d Hn. by apply Hd.
Qed.

(** What a turn puts on the wire and settles. *)
Definition turn_trace (s : Session) (effects : list Effect) : list Settlement :=
  (Asks <$> option_list (coinbaser_request (view (pool_state (shares s))))) ++ omap settlement effects.

Lemma turn_settles s i s2 effects next : turn c s i = Some (s2, effects, next) -> goes_on next ->
  settles (awaiting_coinbaser (shares s)) (turn_trace s effects) (awaiting_coinbaser (shares s2)) /\
  (forall p, coinbaser_request (view (pool_state (shares s))) = Some p ->
    SendMining (encode_coinbaser_request {| request_value := pending_value p; request_prev_hash := pending_prev_hash p |}) ∈ effects) /\
  (forall p, awaiting_coinbaser (shares s2) = Some p ->
    duration_since (at_expiry i) (requested_at p) < COINBASER_WAIT /\
    forall d, next = Sleeps d -> d <= sat_sub COINBASER_WAIT (duration_since (at_wait i) (requested_at p))).
Proof.
  unfold turn. destruct (probe_found i); [by intros [= <- <- <-]|]. destruct (_ <=? _); [by intros [= <- <- <-]|].
  destruct (share_ack_timed_out _); [by intros [= <- <- <-]|]. destruct (send_pending _ _ _ _ _) as [[x payloads]|] eqn:Es; [|done].
  apply send_pending_asks in Es as [Hask Hin]. cbn [mbind option_bind].
  destruct (sent _ _ _) as [e|d|] eqn:Ew; [by intros [= <- <- <-]| |];
    (destruct (after_sending _ _ _) as [[[s3 more] n]|] eqn:Ea; [|done]); cbn; intros [= <- <- <-] Hgo;
    destruct (after_sending_settles _ _ _ _ _ Ea Hgo) as [Hs Hd]; (split_and!; [|intros p Hp; apply elem_of_app; left; by apply list_elem_of_fmap_2, Hin|done]);
    unfold turn_trace; rewrite omap_app, no_settlements; by eapply settles_app.
Qed.

(** A connection from its start: its turns that do not end it, and what other threads do
    to the state of the pool in between. *)
Inductive session_run (s0 : Session) : list Settlement -> Session -> Prop :=
| run_nothing : session_run s0 [] s0
| run_turn tr s i s2 effects next :
    session_run s0 tr s -> turn c s i = Some (s2, effects, next) -> goes_on next -> session_run s0 (tr ++ turn_trace s effects) s2
| run_others tr s p : session_run s0 tr s -> session_run s0 tr (set_shares s (set_pool (shares s) p)).

(** C19: A request for a split never strands its template. On every connection, whatever the
    pool sends and other threads do: a request left for the connection is on the wire
    after its next turn; each is settled once at most, with a split of its value or with
    none, and only a newer request takes the place of one that waits; a turn that leaves
    one waiting came before its deadline, and sleeps no longer than until then. *)
Theorem requests_are_settled (p : PoolState) (n : nat) (token : option bytes) (opened : Z) (tr : list Settlement) (s : Session) :
  session_run (session_open p n token opened) tr s ->
  settles None tr (awaiting_coinbaser (shares s)) /\
  forall i s2 effects next, turn c s i = Some (s2, effects, next) -> goes_on next ->
    settles None (tr ++ turn_trace s effects) (awaiting_coinbaser (shares s2)) /\
    (forall q, coinbaser_request (view (pool_state (shares s))) = Some q ->
      SendMining (encode_coinbaser_request {| request_value := pending_value q; request_prev_hash := pending_prev_hash q |}) ∈ effects) /\
    (forall q, awaiting_coinbaser (shares s2) = Some q -> at_expiry i < requested_at q + COINBASER_WAIT /\
      forall d, next = Sleeps d -> at_wait i + d <= Z.max (at_wait i) (requested_at q + COINBASER_WAIT)).
Proof.
  intros Hrun. assert (settles None tr (awaiting_coinbaser (shares s))) as Hs.
  { induction Hrun as [|tr s i s2 effects next _ IH Ht Hgo|tr s q _ IH]; [constructor| |done].
    eapply settles_app; [exact IH|]. by apply (turn_settles s i s2 effects next). }
  split; [done|]. intros i s2 effects next Ht Hgo. destruct (turn_settles _ _ _ _ _ Ht Hgo) as (Ha & Hin & Hd).
  split_and!; [by eapply settles_app|done|]. intros q Hq. destruct (Hd q Hq) as [Hlt Hsleep].
  unfold duration_since, COINBASER_WAIT, sat_sub in *. change (from_secs 5) with 5000000000 in *. split; [lia|].
  intros d Hn. specialize (Hsleep d Hn). lia.
Qed.
End turns.

(** A pass of the probe reports the first pool that answers, while the connection lasts. *)
Lemma probe_pass_first answers stopped n : forall i found, probe_pass answers stopped i n = Some found ->
  (i <= found < i + n)%nat /\ answers found = true /\ forall k, (i <= k < found)%nat -> answers k = false.
Proof.
  induction n as [|n IH]; intros i found; cbn; [done|]. destruct (stopped i); [done|]. destruct (answers i) eqn:E.
  - intros [= <-]. split_and!; [lia..|done|]. intros k Hk. lia.
  - intros (Hr & Ha & Hk)%IH. split_and!; [lia..|done|]. intros k Hb. destruct (decide (k = i)) as [->|]; [done|]. apply Hk. lia.
Qed.

(** What ends with a connection: its configuration, commitments, request and queued shares;
    what is kept: the tallies and every pool's token. *)
Lemma session_over_clears po sup s outcome : (sup_index sup < length (resume_tokens sup))%nat ->
  let '(sup2, _) := session_over po sup s outcome in
  view (sup_pool sup2) = view_default /\ queue (sup_pool sup2) = [] /\ tallies (sup_pool sup2) = tallies (pool_state (shares s)) /\
  resume_tokens sup2 !! sup_index sup = Some (session_token s) /\
  forall k, k <> sup_index sup -> resume_tokens sup2 !! k = resume_tokens sup !! k.
Proof.
  intros Hi. unfold session_over. destruct (clear_after_disconnect _) as [p was] eqn:E. destruct (rotation_next _ _ _) as [r n].
  unfold clear_after_disconnect in E. injection E as <- <-. cbn. split_and!; try done.
  - by rewrite list_lookup_insert_eq.
  - intros k Hk. by rewrite list_lookup_insert_ne.
Qed.

(** ** An example: a request that is never answered *)

Definition example_session_config : SessionConfig :=
  {| session_jobs := example_job_config; session_users := {| datum_users := {| pool_pass_full_users := false; pool_pass_workers := false |}; pool_address := [] |};
     protocol_v3 := true; global_timeout := from_secs 60; pool_sign_pk := zeros 32; identity_sign_pk := zeros 32; motd := [] |}.

Definition example_pending : PendingCoinbaser :=
  {| pending_value := 5000000000; pending_prev_hash := le 32 9; pending_template := example_template;
     pending_new_block := true; requested_at := 0 |}.

Definition example_asking : PoolState := set_view (pool_new 8) (set_request view_default (Some example_pending)).

(** A turn that finds nothing to read, at one instant. *)
Definition example_turn (now : Z) : @Turn example_text_json :=
  {| probe_found := None; turn_table := table_new 8 0; turn_getblock := fun _ => None; turn_socket := NotReadable; turn_writes := true;
     at_start := now; at_send := now; at_expiry := now; at_left := now; at_wait := now; at_heard := now; at_verdict := now |}.

Lemma requests_are_settled_witness : exists tr s s2 effects,
  @session_run example_digests example_text_json example_session_config (session_open (pool_new 8) 8 None 0) tr s /\
  tr = [Asks example_pending] /\ awaiting_coinbaser (shares s) = Some example_pending /\
  @turn example_digests example_text_json example_session_config s (example_turn (from_secs 5)) = Some (s2, effects, Sleeps (from_secs 55)) /\
  settles None (tr ++ turn_trace s effects) (awaiting_coinbaser (shares s2)) /\ effects = [Settled example_pending None].
Proof.
  destruct (@turn example_digests example_text_json example_session_config
    (set_shares (session_open (pool_new 8) 8 None 0) (set_pool (session_opened (pool_new 8) 8) example_asking)) (example_turn 1)) as [[[s e] n]|] eqn:E;
    [|by vm_compute in E].
  assert (e = [SendMining (encode_coinbaser_request {| request_value := 5000000000; request_prev_hash := le 32 9 |})] /\
    n = Sleeps (from_secs 5 - 1) /\ awaiting_coinbaser (shares s) = Some example_pending /\
    @turn example_digests example_text_json example_session_config s (example_turn (from_secs 5)) =
      Some (set_shares s (set_awaiting (shares s) None), [Settled example_pending None], Sleeps (from_secs 55))) as (He & Hn & Ha & Ht).
  { vm_compute in E. injection E as <- <- <-. split_and!; by vm_compute. }
  assert (@session_run example_digests example_text_json example_session_config (session_open (pool_new 8) 8 None 0)
    ([] ++ turn_trace (set_shares (session_open (pool_new 8) 8 None 0) (set_pool (session_opened (pool_new 8) 8) example_asking)) e) s) as Hrun.
  { eapply run_turn; [|exact E|by rewrite Hn]. apply (run_others _ _ _ (session_open (pool_new 8) 8 None 0) example_asking), run_nothing. }
  subst e. eexists _, s, _, _. split; [exact Hrun|]. split; [reflexivity|]. split; [exact Ha|]. split; [exact Ht|]. split; [|reflexivity].
  by apply (@requests_are_settled example_digests example_text_json example_session_config (pool_new 8) 8 None 0 _ s Hrun) in Ht as (Hs & _).
Defined.
