(* ===== verification/Mining.v ===== *)
(** From the pool to the pool: a job the gateway builds from the pool's configuration and
    the split the pool dictated, a share mined on it, and the pool's verdict. What the
    other files prove of each end is composed here. *)
From S2P Require Import Prelude Reader Bitcoin Script Transaction Address Target Header Messages ShareMsg Coinbaser AbwSlots Config Coinbase.
From S2P Require Import Bounded Jobs Splits Verify Template NotifyId GatewayAbw GatewayJob GatewayPool GatewayUser GatewayShares.

(** ** The sizes of a job's coinbases *)

(** What a template leaves is room enough for a coinbase without outputs of its own. *)
Definition COINBASE_FIXED_MAX : Z := 400.

Lemma fixed_bytes_bound p : zlen (spec_script_sig p) <= 106 -> zlen (pool_payout_script p) <= MAX_PAYOUT_SCRIPT_LEN ->
  zlen (default [] (witness_commitment p)) < 48 -> fixed_bytes p <= COINBASE_FIXED_MAX.
Proof.
  intros Hs Hp Hw. unfold MAX_PAYOUT_SCRIPT_LEN in Hp. unfold fixed_bytes, assemble_coinbase. cbn [section coinb1 coinb2].
  set (len := zlen (spec_script_sig p) + _).
  pose proof (zlen_encode_compact_size len) as Hlen. pose proof (zlen_encode_compact_size 1) as H1c.
  assert (forall n, zlen (encode_compact_size n) <= 9) as Hcs.
  { intros n. pose proof (zlen_encode_compact_size n). unfold MAX_COMPACT_SIZE_LEN in *. lia. }
  assert (forall n, 0 <= zlen (encode_compact_size n)) as Hcs0 by (intros; apply zlen_nonneg).
  assert (forall v s, zlen (encode_output v s) <= 17 + zlen s) as Hout.
  { intros v s. rewrite zlen_encode_output. specialize (Hcs (zlen s)). lia. }
  assert (zlen (if 0 <? spec_coinbase_value p then encode_output (spec_coinbase_value p - 0) (pool_payout_script p)
    else encode_output 0 PRUNABLE_OP_RETURN) <= 100) as Hpay.
  { pose proof (Hout (spec_coinbase_value p - 0) (pool_payout_script p)). pose proof (Hout 0 PRUNABLE_OP_RETURN) as Hpr.
    change (zlen PRUNABLE_OP_RETURN) with 3 in Hpr. case_match; lia. }
  assert (zlen (from_option (encode_output 0) [] (witness_commitment p)) <= 65) as Hwit.
  { destruct (witness_commitment p) as [w|]; cbn [from_option default] in *; [|by vm_compute]. change (id w) with w in Hw. pose proof (Hout 0 w). lia. }
  pose proof (Hcs (zlen (spec_outputs p) + MOST_UNDICTATED_OUTPUTS)). pose proof (Hcs0 MOST_UNDICTATED_OUTPUTS).
  pose proof (Hcs len). pose proof (Hcs 1). unfold COINBASE_FIXED_MAX.
  change (Z.of_nat EXTRANONCE_SIZE) with 12.
  destruct (in_script p); rewrite !zlen_app; cbn [fmap list_fmap mjoin list_join]; rewrite ?zlen_app;
    change (zlen (le 4 COINBASE_TX_VERSION)) with 4; change (zlen (zeros HASH_SIZE)) with 32; change (zlen NULL_OUTPOINT_INDEX) with 4;
    change (zlen SEQUENCE_FINAL) with 4; change (zlen (zeros (Z.to_nat LOCK_TIME_SIZE))) with 4; change (zlen (be 2 (enprefix p))) with 2; change (zlen (@nil byte)) with 0.
  - pose proof (Hcs (zlen (@nil TxOut) + 1 + Z.b2z (is_some (witness_commitment p)))).
    change (zlen [zb EXTRANONCE_PUSH_OPCODE]) with 1. lia.
  - pose proof (Hcs (zlen (@nil TxOut) + 1 + Z.b2z (is_some (witness_commitment p)) + 1)). change (zlen (le 8 0)) with 8.
    change (zlen [zb (OP_RETURN_EXTRANONCE_OUTPUT_SIZE - MIN_OUTPUT_SIZE)]) with 1.
    change (zlen [zb opcode.OP_RETURN; zb EXTRANONCE_PUSH_OPCODE]) with 2. lia.
Qed.

Section mining.
Context `{Digests}.

(** ** A job of the pool's configuration and split *)

(** The inputs of a job whose configuration, split and tip are those of the pool's
    verifier: what [coinbaser_request_answered] says the gateway decodes, on a template the
    pool's node would build on. *)
Record pooled_inputs (v : Verifier) (cfg : JobConfig) (j : JobInputs) (id : Z) (d : DictatedSplit) : Prop := {
  pi_template : template_wf (in_template j) /\ tmpl_coinbase_value (in_template j) < 2 ^ 64 - 1;
  pi_config : GatewayJob.pool_config j = Some (with_rounded_min_difficulty (config (policy v)));
  pi_prime : uint 64 (Config.prime_id (config (policy v))) /\
    (v3 (config (policy v)) = None -> uint 32 (Config.prime_id (config (policy v))));
  pi_payout : 3 <= zlen (Config.payout_script (config (policy v)));
  pi_tag : forall data, tag_push_data_that_fits (job_tags cfg (in_template j) (GatewayJob.pool_config j)) = Some data ->
    is_unique_id_push (Config.prime_id (config (policy v))) data = false;
  pi_split : in_coinbaser j =
    Some {| response_value := tmpl_coinbase_value (in_template j); response_coinbaser_id := id;
            response_outputs := dictated_output <$> split_outputs d |};
  pi_dictated : get_split (splits v) id = Some d /\ split_value d = tmpl_coinbase_value (in_template j) /\
    split_prev_hash d = tmpl_prev_hash (in_template j);
  pi_outputs : zlen (split_outputs d) <= MAX_COINBASER_OUTPUTS /\
    Forall (fun o => split_output_ok (dictated_output o) /\ output_script_size_is_valid (dictated_script o) = true) (split_outputs d);
  pi_tip : tip v = Some (tmpl_prev_hash (in_template j));
  pi_next : forall n, next_on v (tmpl_prev_hash (in_template j)) = Some n ->
    tmpl_nbits (in_template j) = next_bits n /\ (forall h, next_height n = Some h -> h = tmpl_height (in_template j)) /\
    (forall m, next_mintime n = Some m -> m <= wrap 32 (curtime (in_template j)));
  pi_room : COINBASE_FIXED_MAX <= coinbase_room
    {| sizelimit := tmpl_sizelimit (in_template j); weightlimit := tmpl_weightlimit (in_template j);
       limits_txn_total_size := total_size (totals (in_template j));
       limits_txn_total_weight := total_weight (totals (in_template j)) |};
}.

Lemma filter_kept t (outs : list TxOut) : Forall (fun o => output_script_size_is_valid (script_pubkey o) = true) outs ->
  filter (fun o => negb (reduced_data t) || output_script_size_is_valid (script_pubkey o) = true) outs = outs.
Proof.
  induction 1 as [|o l Ho _ IH]; [done|]. rewrite filter_cons_True; [by rewrite IH|]. rewrite Ho. apply orb_true_r.
Qed.

Section job.
Context (v : Verifier) (cfg : JobConfig) (j : JobInputs) (id : Z) (d : DictatedSplit) (b : Job).
Hypothesis Hin : pooled_inputs v cfg j id d.
Hypothesis Hb : job_built cfg j b.
#[local] Abbreviation t := (in_template j).
#[local] Abbreviation c := (config (policy v)).

Lemma job_payout : config_payout_script cfg (GatewayJob.pool_config j) = Config.payout_script c.
Proof. by rewrite (pi_config _ _ _ _ _ Hin). Qed.

Lemma job_outputs : response_outputs (filter_coinbaser t (in_coinbaser j)) = dictated_output <$> split_outputs d.
Proof.
  rewrite (pi_split _ _ _ _ _ Hin). cbn [filter_coinbaser response_outputs]. apply filter_kept, Forall_fmap.
  eapply Forall_impl; [apply (pi_outputs _ _ _ _ _ Hin)|]. intros o [_ Ho]. exact Ho.
Qed.

Lemma job_spec_ok script i kind : Coinbase.script_sig (job_tags cfg t (GatewayJob.pool_config j)) = Some (script, i) ->
  let p := job_spec cfg j script i kind in
  spec_wf p /\ spec_sizes p /\ fixed_bytes p <= coinbase_room (limits p).
Proof.
  intros Hs. apply script_sig_bounds in Hs as [_ Hlen]. pose proof (pi_template _ _ _ _ _ Hin) as [Ht Hval].
  pose proof (jb_payout _ _ _ Hb) as Hpay. pose proof (tw_value _ Ht). pose proof (tw_fee _ Ht). pose proof (tw_commitment _ Ht) as Hw.
  pose proof (pi_outputs _ _ _ _ _ Hin) as [Hmax Houts]. pose proof (pi_payout _ _ _ _ _ Hin) as Hp3.
  unfold MAX_PAYOUT_SCRIPT_LEN in Hpay. cbn zeta. split; [|split].
  - unfold spec_wf. cbn [job_spec coinbase_spec spec_outputs spec_coinbase_value sigop_budget Coinbase.pool_payout_script].
    rewrite job_outputs, job_payout.
    assert (0 <= wrap 64 (tmpl_coinbase_value (in_template j) - total_fee (totals (in_template j))) < 2 ^ 64 - 1) as Hsub by (rewrite wrap_small; unfold uint; lia).
    split_and!; [| | |destruct kind; [unfold pooled_sigops, sat_sub; lia|done]|done].
    + destruct kind; [|constructor]. apply Forall_fmap. eapply Forall_impl; [exact Houts|].
      intros o [[Hu Hl] _]. unfold COMPACT_SIZE_MAX_1, COMPACT_SIZE_U16_TAG, MAX_COINBASER_OUTPUT_SCRIPT_LEN in *. split; [done|]. cbn in Hl |- *. lia.
    + destruct kind; lia.
    + destruct kind; lia.
  - unfold spec_sizes. cbn [job_spec coinbase_spec spec_outputs spec_script_sig Coinbase.pool_payout_script witness_commitment].
    rewrite job_outputs. split_and!; [lia| |lia|].
    + destruct kind; [|done]. unfold zlen in *. rewrite length_fmap. unfold MAX_COINBASER_OUTPUTS in Hmax. lia.
    + destruct kind; cbn; [unfold zlen; lia|done].
  - etransitivity; [apply fixed_bytes_bound|apply (pi_room _ _ _ _ _ Hin)]; cbn [job_spec coinbase_spec spec_script_sig Coinbase.pool_payout_script witness_commitment].
    + exact Hlen.
    + unfold MAX_PAYOUT_SCRIPT_LEN. lia.
    + destruct kind; cbn; [unfold zlen; lia|by vm_compute].
Qed.

(** Either coinbase of the job is within the room the protocol gives one. *)
Lemma job_sections kind : coinbase_section_id (section (job_coinbase b kind)) = wire_id kind /\
  coinbase_bytes (section (job_coinbase b kind)) <= MAX_COINBASE_SECTION_LEN.
Proof.
  destruct (jb_coinbases _ _ _ Hb) as (script & i & Es & Ep & Esub).
  assert (exists included, Coinbase.build (job_spec cfg j script i kind) = (job_coinbase b kind, included)) as [included Eb].
  { destruct kind; cbn [job_coinbase]; [by eexists|]. destruct (Coinbase.build (job_spec cfg j script i SubsidyOnly)) as [x inc]. cbn in Esub.
    subst x. by eexists. }
  destruct (job_spec_ok script i kind Es) as (Hwf & _ & Hroom). split.
  - destruct (build_assembles (job_spec cfg j script i kind)) as (inc & paid & E). rewrite E in Eb. injection Eb as <- _. done.
  - destruct (build_room _ _ _ Hwf Eb) as (_ & _ & _ & Hlen). specialize (Hlen Hroom). pose proof (coinbase_room_section (limits (job_spec cfg j script i kind))).
    unfold coinbase_bytes, section_len in *. change (Z.of_nat EXTRANONCE_SIZE) with 12 in *. lia.
Qed.

Lemma job_is_honest : 0 < output_values (coinbaser_outputs b) -> exists script i,
  honest_coinbase c d (job_tags cfg t (GatewayJob.pool_config j)) (job_spec cfg j script i Pooled) (pooled_coinbase b) (coinbaser_outputs b) /\
  honest_job v d (job_spec cfg j script i Pooled) (pooled_coinbase b) (job_section b).
Proof.
  intros Hpays. destruct (jb_coinbases _ _ _ Hb) as (script & i & Es & Ep & _). exists script, i.
  pose proof (pi_template _ _ _ _ _ Hin) as [Ht _]. pose proof (pi_config _ _ _ _ _ Hin) as Hcfg.
  pose proof (pi_prime _ _ _ _ _ Hin) as [H64 H32]. pose proof (pi_dictated _ _ _ _ _ Hin) as (Hget & Hdval & Hdprev).
  pose proof (jb_section _ _ _ Hb) as Hsec. fold t in Hsec. split.
  - constructor; try done.
    + by apply tw_height.
    + fold c in H64, H32. rewrite Hcfg. cbn. split_and!; try done; [|by right]. fold c. destruct (v3 c); [done|]. intros _. by apply H32.
    + by rewrite Hcfg.
    + unfold Coinbase.script_sig in Es. destruct (tag_push_data_that_fits _) as [data|] eqn:E; [|done]. exists data. split; [done|].
      by apply (pi_tag _ _ _ _ _ Hin).
    + cbn [job_spec coinbase_spec Coinbase.pool_payout_script]. apply job_payout.
    + cbn [job_spec coinbase_spec spec_outputs]. apply job_outputs.
    + by apply job_spec_ok.
  - constructor.
    + symmetry. apply (job_coinbase_index cfg j b Pooled Hb).
    + rewrite Hsec. done.
    + rewrite Hsec. split; [apply (pi_tip _ _ _ _ _ Hin)|done].
    + rewrite Hsec. cbn [coinbaser_id]. by rewrite (pi_split _ _ _ _ _ Hin).
    + rewrite Hsec. cbn [ShareMsg.prev_hash nbits job_height]. intros n Hn. destruct (pi_next _ _ _ _ _ Hin n Hn) as (Hbits & Hh & _).
      rewrite le_val_le_small by (apply (tw_nbits _ Ht)). by split.
Qed.
End job.

(** ** A share mined on it *)

(** What a miner found on the job and when the pool sees it: the gateway's own check
    passed, the hash is new to the pool, its job is not evicted, and the key behind the
    job's commitment is still the pool's secret. *)
Record mined (v : Verifier) (b : Job) (q : QueuedShare) (m : PowSubmit) (abw : option AbwSlotState) (now : Z) : Prop := {
  md_job : queued_job q = b /\ coinbase_of (queued_prefix q) = Pooled;
  md_header : exists e sia_ntime sia_nonce, length e = HEADER_EXTRANONCE_SIZE /\
    length sia_ntime = SIA_WORDS_LEN /\ length sia_nonce = SIA_WORDS_LEN /\
    submitted_header b Pooled (queued_target_byte q) e sia_ntime sia_nonce = Some (queued_header q);
  md_work : meets_target (job_raw_pow_hash b (queued_header q)) (target_for_exponent (queued_target_byte q)) = true;
  md_target : floor_log2 (min_difficulty (config (policy v))) <= queued_target_byte q <= MAX_TARGET_EXPONENT;
  md_key : match job_abw b, abw with
           | None, None => True
           | Some a, Some keys => exists k, key_for keys (assigned_slot a) = Some (k, Secret) /\ xor_key_hash k = assigned_key_hash a
           | _, _ => False
           end;
  md_user : username m <> [] /\ (length (username m) <= MAX_USERNAME_LEN)%nat /\
    forallb is_printable (username m) = true /\ head (username m) <> Some (zb 0x2e);
  md_time : Z.abs (wrap 32 (curtime (template b)) - now) <= NTIME_WINDOW_SECS;
  md_live : names_evicted_job v m = false;
  md_fresh : contains (installed_by v) (job_raw_pow_hash b (queued_header q)) = false;
}.

(** What [send_share] sends. *)
Lemma send_share_inv users t s q now s2 m : send_share users t s q now = Some (s2, Some m) ->
  exists x sent jp cp, share_extranonce (Header.extranonce (queued_header q)) = Some x /\
    sections_for (sent_sections s) q = Some (sent, (jp, cp)) /\ sent_sections s2 = sent /\
    m = pow_submit q x (for_wire (datum_users users) (pool_address users) (queued_username q)) jp cp.
Proof.
  unfold send_share. destruct (negb _); [done|]. cbn zeta.
  destruct (match job_abw (queued_job q) with Some a => _ | None => _ end) as [held|]; cbn [mbind option_bind]; [|done].
  destruct held; cbn [negb]; [|done]. destruct (share_extranonce _) as [x|]; [|done].
  destruct (sections_for _ _) as [[sent [jp cp]]|]; cbn [mbind option_bind]; [|done]. intros [= <- <-]. by exists x, sent, jp, cp.
Qed.

Lemma submitted_fields b kind tb e sia_ntime sia_nonce h : submitted_header b kind tb e sia_ntime sia_nonce = Some h ->
  Header.extranonce h = e /\ Header.time h = wrap 32 (curtime (template b)) /\ Header.flags h = 0.
Proof.
  unfold submitted_header, commitment. destruct (full_coinbase b kind tb) as [tx|]; cbn [mbind option_bind]; [|done].
  unfold job_header. destruct (_ <=? _); cbn [mbind option_bind]; [done|]. unfold set_sia_fields.
  destruct (sia_halves sia_nonce), (sia_halves sia_ntime). by intros [= <-].
Qed.

(** The time the pool reads is the template's. *)
Lemma sent_block_time q x u jp cp t : Header.time (queued_header q) = wrap 32 t -> Header.flags (queued_header q) = 0 ->
  block_time (pow_submit q x u jp cp) = wrap 32 t.
Proof.
  intros Et Ef. unfold block_time. cbn [pow_submit use_time_offset blake2b]. rewrite Ef. cbn [Z.land Z.eqb negb].
  cbn [blake2b_from_header section_time_on_wire]. unfold time_on_wire. by rewrite Ef.
Qed.

Lemma job_sendable v cfg j id d b job_of n : pooled_inputs v cfg j id d -> job_built cfg j b ->
  protocol_job_slots cfg = Z.of_nat n -> (1 <= n <= 256)%nat -> job_of (serial b) = b -> sendable job_of n b.
Proof.
  intros Hin Hb Hn Hr Hof. assert (0 <= in_serial j mod protocol_job_slots cfg < Z.of_nat n) by (rewrite Hn; apply Z.mod_pos_bound; lia).
  split; [done| |intros kind; by eapply job_sections..]. rewrite (jb_slot _ _ _ Hb), wrap_small by (unfold uint; lia). unfold uint. lia.
Qed.

(** The coinbases of an honest gateway leave room for the next. *)
Lemma room_left job_of n sent v q x u sent2 jp cp : told_inv job_of n sent v -> sendable job_of n (queued_job q) ->
  sections_for sent q = Some (sent2, (jp, cp)) ->
  let m := pow_submit q x u jp cp in
  is_some (ShareMsg.coinbase m) && (installed_coinbase_bytes_cap v <? projected_bytes v m) = false.
Proof.
  intros [Hlen Hv Hsync Hsmall Hcap] Hs Hsec m. pose proof (sections_resolve job_of n sent v q x u sent2 jp cp Hv Hsync Hs Hsec) as Hres.
  destruct (resolve_base v m _ _ 0 Hres) as (st & Hbase & _). pose proof (sd_slot _ _ _ Hs) as [Hslot _].
  rewrite (projected_exact v m 0 st (jo_slots _ Hv) Hslot Hbase), Hcap. apply andb_false_iff. right. apply Z.ltb_ge.
  pose proof (sw_slots _ (jo_slots _ Hv)) as Hl. apply small_slots_room; [by rewrite length_insert|].
  by eapply small_with_coinbase.
Qed.

(** C16: An honest miner's work is credited, whatever was sent before it. Take a job the
    gateway built from the pool's configuration, with a tag that does not read as the
    push of the pool's id, and from the split of valid outputs the pool dictated for its
    tip, some of which the job pays, on a template that leaves room for a coinbase and
    whose bits, height and least time are those the pool's node gives for the next block,
    where it gives any. Whatever
    sections the gateway has sent and the pool installed so far, the message [send_share]
    makes of a share on the job is accepted by the pool, if the share's header meets the
    target it is sent under, that target is within the pool's bounds, the pool has not
    evicted the job nor taken the hash before, the key behind the job's commitment is
    still the pool's secret, the template's time is within [NTIME_WINDOW_SECS] of the
    pool's clock, and the username is not empty, not too long, printable and does not
    begin with a dot. Then its hash is the one the gateway computed, the coinbase is the
    job's, to the split goes at least what the gateway included of it and to the pool the
    rest of the template's value, and without a key in the header the block is the same
    bytes at both ends. *)
Theorem mined_share_is_credited (job_of : Z -> Job) (n : nat) (p : SharePolicy) (v : Verifier) (cfg : JobConfig)
    (j : JobInputs) (id : Z) (d : DictatedSplit) (b : Job) (unix_now created : Z) (users : UserConfig) (t : JobTable)
    (s s2 : ShareSession) (q : QueuedShare) (sent_now : Z) (m : PowSubmit) (abw : option AbwSlotState) (now : Z) :
  told job_of n p (sent_sections s) v -> pooled_inputs v cfg j id d ->
  protocol_job_slots cfg = Z.of_nat n -> (1 <= n <= 256)%nat ->
  build_job cfg j unix_now created = Some (Ok b) -> job_of (serial b) = b -> 0 < output_values (coinbaser_outputs b) ->
  send_share users t s q sent_now = Some (s2, Some m) -> mined v b q m abw now ->
  exists v2 r, verify v m abw now = Some (v2, Ok r) /\
    rb_raw_pow_hash r = job_raw_pow_hash b (queued_header q) /\
    full_coinbase b Pooled (queued_target_byte q) = Some (rb_coinbase_tx r) /\
    rb_difficulty r = difficulty m /\
    output_values (coinbaser_outputs b) <= rb_paid_to_split r /\
    rb_paid_to_split r + rb_paid_to_pool r = tmpl_coinbase_value (in_template j) /\
    (job_abw b = None -> rb_header r = serialize (queued_header q)).
Proof.
  intros Ht Hin Hn Hr Hbuild Hof Hpays Hsend [[Eq Ek] (e & ntime & nonce & He & Hlt & Hln & Hsub) Hwork Htb Hkey Huser Htime Hlive Hfresh].
  destruct (build_job_spec cfg j unix_now created) as (r0 & Er & Hb). rewrite Er in Hbuild. injection Hbuild as ->. specialize (Hb b eq_refl).
  pose proof (job_sendable v cfg j id d b job_of n Hin Hb Hn Hr Hof) as Hs. pose proof (told_ok _ _ _ _ _ Ht) as Htold. pose proof Htold as [_ Hv Hsync _ _].
  apply send_share_inv in Hsend as (x & sent & jp & cp & Hx & Hsec & _ & Em). subst b.
  set (u := for_wire _ _ _) in Em.
  destruct (submitted_fields _ _ _ _ _ _ _ Hsub) as (Ee & Et & Ef). rewrite Ee in Hx.
  destruct (job_is_honest v cfg j id d _ Hin Hb Hpays) as (script & i & Hc & Hj).
  set (key := match job_abw (queued_job q), abw with Some a, Some keys => fst <$> key_for keys (assigned_slot a) | _, _ => None end).
  assert (key_for_job (queued_job q) key) as Hkj.
  { unfold key_for_job, key. destruct (job_abw (queued_job q)) as [a|], abw as [keys|]; try done. by destruct Hkey as (k & -> & Hk). }
  rewrite <- Ek in Hsub.
  destruct (pool_header q e ntime nonce x u jp cp key Hsub He Hx Hlt Hln Hkj) as (tx & h & Htx & Hh & Hhash & Hser).
  assert (subsidy_only m = false) as Hso by (rewrite Em; cbn [pow_submit subsidy_only]; by destruct (queued_prefix q)).
  assert (honest_share v m abw now (job_section (queued_job q)) (section (pooled_coinbase (queued_job q))) tx key h) as Hshare.
  { rewrite <- Em, Ek in *. rewrite Hso in Hh. constructor; rewrite ?Hhash; try done.
    - pose proof (sections_resolve job_of n _ v q x u sent jp cp Hv Hsync Hs Hsec) as Hres. by rewrite Ek, <- Em in Hres.
    - split_and!; [rewrite Em; apply Hs|rewrite Em; cbn [pow_submit coinbase_id]; by rewrite Ek|done].
    - by rewrite Em.
    - unfold key. rewrite Em. cbn [pow_submit ShareMsg.abw_slot]. destruct (job_abw (queued_job q)) as [a|], abw as [keys|]; try done.
      destruct Hkey as (k & Hkey & _). exists (assigned_slot a), k. by rewrite Hkey.
    - by rewrite Em.
    - rewrite Em. by erewrite sent_block_time.
    - intros next mt Hn1 Hm. rewrite Em. erewrite sent_block_time by done. rewrite (jb_section _ _ _ Hb) in Hn1. cbn [ShareMsg.prev_hash] in Hn1.
      destruct (pi_next _ _ _ _ _ Hin next Hn1) as (_ & _ & Hmin). rewrite (jb_template _ _ _ Hb). by apply Hmin.
    - by rewrite Hfresh, andb_false_r.
    - rewrite Em. by eapply room_left. }
  destruct (honest_share_accepted v m abw now d _ _ _ _ _ tx key h Hv Hc Hj Hshare)
    as (v2 & r & kept & Hver & Hraw & _ & Hhead & Hctx & Hdiff & Hpaid & Htot & _).
  exists v2, r. split_and!; [done|by rewrite Hraw|rewrite Hctx; unfold full_coinbase; by rewrite <- Htx, Ek|done..|].
  intros Habw. rewrite Hhead. apply Hser. unfold key. by rewrite Habw.
Qed.

End mining.

(** ** An example: the pool, its gateway, and the first share on a connection *)

Definition example_dictated_now : DictatedSplit :=
  {| split_outputs := example_dictated; split_value := tmpl_coinbase_value example_template;
     split_prev_hash := tmpl_prev_hash example_template; sent_at := 1700000090 |}.

Definition example_tip_set : Verifier := set_tip (verifier_new example_policy) (Some (tmpl_prev_hash example_template)) 1700000000.

Definition example_pool : Verifier :=
  record_dictated example_tip_set (next_coinbaser_id example_tip_set) (tmpl_coinbase_value example_template)
    (tmpl_prev_hash example_template) example_dictated 1700000090.

Definition example_pooled_inputs : JobInputs :=
  {| in_serial := 300; in_template := example_template;
     GatewayJob.pool_config := Some (with_rounded_min_difficulty (config example_policy));
     in_coinbaser := Some {| response_value := tmpl_coinbase_value example_template;
                             response_coinbaser_id := next_coinbaser_id example_tip_set;
                             response_outputs := dictated_output <$> example_dictated |};
     in_abw := None |}.

Lemma example_is_pooled : pooled_inputs example_pool example_job_config example_pooled_inputs (next_coinbaser_id example_tip_set) example_dictated_now.
Proof.
  constructor.
  - split; [exact example_template_wf|reflexivity].
  - reflexivity.
  - split; [split; vm_compute; [discriminate|reflexivity]|]. intros _. split; vm_compute; [discriminate|reflexivity].
  - vm_compute. discriminate.
  - intros data Hd. assert (from_option (fun data => is_unique_id_push 12345 data) false
      (tag_push_data_that_fits (job_tags example_job_config example_template (GatewayJob.pool_config example_pooled_inputs))) = false) as E by (vm_compute; reflexivity).
    change (in_template example_pooled_inputs) with example_template in Hd. rewrite Hd in E. exact E.
  - reflexivity.
  - split_and!; [vm_compute|..]; reflexivity.
  - split; [vm_compute; discriminate|]. apply (bool_decide_unpack _). by vm_compute.
  - reflexivity.
  - intros n Hn. vm_compute in Hn. discriminate.
  - vm_compute. discriminate.
Defined.

Definition example_users : UserConfig := {| datum_users := {| pool_pass_full_users := true; pool_pass_workers := true |}; pool_address := text "pool" |}.

Definition example_session : ShareSession := session_opened (pool_new 10) 256.

(** The share is sent, and found to be what [mined] asks. *)
Definition example_mined (q : QueuedShare) : bool :=
  let b := queued_job q in
  match send_share example_users (publish (table_new 256 0) b Pooled 0).1 example_session q 5 with
  | Some (s2, Some m) =>
    (0 <? output_values (coinbaser_outputs b)) &&
    meets_target (job_raw_pow_hash (H := zero_digests) b (queued_header q)) (target_for_exponent 0) &&
    negb (is_some (job_abw b)) &&
    negb (bool_decide (username m = [])) && (zlen (username m) <=? Z.of_nat MAX_USERNAME_LEN) && forallb is_printable (username m) &&
    negb (bool_decide (head (username m) = Some (zb 0x2e))) &&
    (Z.abs (wrap 32 (curtime (template b)) - 1700000110) <=? NTIME_WINDOW_SECS) &&
    negb (names_evicted_job example_pool m) &&
    negb (contains (installed_by example_pool) (job_raw_pow_hash (H := zero_digests) b (queued_header q)))
  | _ => false
  end.

Lemma mined_share_is_credited_witness : exists m v2 r,
  verify (H := zero_digests) example_pool m None 1700000110 = Some (v2, Ok r) /\
  rb_paid_to_split r + rb_paid_to_pool r = 5000000000.
Proof.
  destruct (example_queued_inv zero_digests example_job_config example_pooled_inputs 0 example_mined) as (q & Hb & Hm & Hp & Ht & Hh);
    [vm_compute; reflexivity|].
  unfold example_mined in Hm.
  destruct (send_share example_users _ example_session q 5) as [[s2 [m|]]|] eqn:Hs; try discriminate.
  repeat match type of Hm with _ && _ = true => let E := fresh "E" in apply andb_true_iff in Hm as [Hm E] end.
  exists m.
  destruct (mined_share_is_credited (H := zero_digests) (fun _ => queued_job q) 256 example_policy example_pool example_job_config
    example_pooled_inputs (next_coinbaser_id example_tip_set) example_dictated_now (queued_job q) 1700000100 0 example_users
    (publish (table_new 256 0) (queued_job q) Pooled 0).1 example_session s2 q 5 m None 1700000110)
    as (v2 & r & Hv & _ & _ & _ & _ & Hsum & _).
  - eapply told_call; [eapply told_call; [apply told_open|apply call_set_tip]|apply call_record_dictated].
  - exact example_is_pooled.
  - reflexivity.
  - lia.
  - exact Hb.
  - reflexivity.
  - apply Z.ltb_lt. exact Hm.
  - exact Hs.
  - constructor.
    + split; [reflexivity|]. by rewrite Hp.
    + exists (zeros 4 ++ le 12 77), (sia_words 7 8), (sia_words 9 10). rewrite Ht. split_and!; [reflexivity..|exact Hh].
    + rewrite Ht. assumption.
    + rewrite Ht. split; vm_compute; discriminate.
    + by destruct (job_abw (queued_job q)).
    + repeat match goal with E : negb (bool_decide _) = true |- _ => apply negb_true_iff, bool_decide_eq_false_1 in E end.
      split_and!; [assumption|unfold zlen in *; lia|assumption..].
    + by apply Z.leb_le.
    + by apply negb_true_iff.
    + by apply negb_true_iff.
  - exists v2, r. split; [exact Hv|exact Hsum].
Defined.
