(* ===== verification/Publish.v ===== *)
(** Serving work ([gateway/src/publish.rs], with [template/waker.rs], what
    [template/poller.rs] decides and [Gateway::publish] of [gateway.rs]): the template
    thread and the session thread build jobs of one template each and publish them to one
    table. A thread is the list of what it is yet to do, one item for each lock it takes,
    and the steps of the two interleave in any order. The sleep between the two
    publications of a job is the steps that come in between. *)
From S2P Require Import Prelude Reader Hex Bitcoin Target Messages Coinbaser AbwSlots Config.
From S2P Require Import Template NotifyId GatewayAbw GatewayJob GatewayPool GatewayShares.

(** ** What wakes the template thread *)

Inductive PendingBlock := AnyBlock | NamedBlock (hash_hex : bytes).
Record PendingWakes := { wake_block : option PendingBlock; rebuild_requested : bool; refresh_requested : bool }.
Inductive Wake := BlockWake (hash_hex : option bytes) (rebuild : bool) | RebuildWake | RefreshWake | TimeoutWake.

Definition wakes_default : PendingWakes := {| wake_block := None; rebuild_requested := false; refresh_requested := false |}.

Definition pending_hash (b : PendingBlock) : option bytes := match b with AnyBlock => None | NamedBlock h => Some h end.

Definition raise_block (p : PendingWakes) (hash_hex : option bytes) : PendingWakes :=
  {| wake_block := Some match hash_hex, wake_block p with
                        | Some h, (None | Some (NamedBlock _)) => NamedBlock h
                        | _, _ => AnyBlock
                        end;
     rebuild_requested := rebuild_requested p; refresh_requested := refresh_requested p |}.

Definition request_rebuild (p : PendingWakes) : PendingWakes :=
  {| wake_block := wake_block p; rebuild_requested := true; refresh_requested := refresh_requested p |}.

Definition request_refresh (p : PendingWakes) : PendingWakes :=
  {| wake_block := wake_block p; rebuild_requested := rebuild_requested p; refresh_requested := true |}.

(** Whether the wait ends before its timeout. *)
Definition woken (p : PendingWakes) : bool := is_some (wake_block p) || rebuild_requested p || refresh_requested p.

(** What [wait] returns once it ends, and what it leaves. *)
Definition take_wake (p : PendingWakes) : PendingWakes * Wake :=
  (wakes_default,
   match wake_block p with
   | Some b => BlockWake (pending_hash b) (rebuild_requested p)
   | None => if rebuild_requested p then RebuildWake else if refresh_requested p then RefreshWake else TimeoutWake
   end).

(** ** What the poller decides *)

Definition REPEAT_WINDOW : Z := 2500 * 10 ^ 6.
Definition NOTIFY_PATIENCE : Z := from_secs 4.

Inductive Action := BuildOn (new_block : bool) | Skip.
Inductive Wanted := Fetch | AwaitTip | Nothing.

Record Poller := {
  last_prev_hash : option bytes;
  no_blake2b_rule_reported : option Z;
  last_block_change_at : option Z;
  force_clean : bool;
}.

Definition poller_new : Poller :=
  {| last_prev_hash := None; no_blake2b_rule_reported := None; last_block_change_at := None; force_clean := false |}.

Definition classify (p : Poller) (t : Template) (now : Z) : Poller * Action :=
  let tip_changed := negb (bool_decide (last_prev_hash p = Some (tmpl_prev_hash t))) in
  let new_block := tip_changed || force_clean p in
  if negb (blake2b_rule t) then
    ({| last_prev_hash := Some (tmpl_prev_hash t);
        no_blake2b_rule_reported := if negb (bool_decide (no_blake2b_rule_reported p = Some (tmpl_height t)))
                                    then Some (tmpl_height t) else no_blake2b_rule_reported p;
        last_block_change_at := last_block_change_at p; force_clean := false |}, Skip)
  else
    ({| last_prev_hash := if tip_changed then Some (tmpl_prev_hash t) else last_prev_hash p;
        no_blake2b_rule_reported := no_blake2b_rule_reported p;
        last_block_change_at := if tip_changed then Some now else last_block_change_at p; force_clean := false |},
     BuildOn new_block).

Definition on_rebuild (p : Poller) : Poller :=
  {| last_prev_hash := last_prev_hash p; no_blake2b_rule_reported := no_blake2b_rule_reported p;
     last_block_change_at := last_block_change_at p; force_clean := true |}.

Definition poller_served (p : Poller) : option bytes := hash_to_display_hex <$> last_prev_hash p.

Definition on_block_notification (p : Poller) (hash_hex : option bytes) (now : Z) : bool :=
  match hash_hex with
  | Some h => negb (bool_decide (poller_served p = Some h))
  | None => negb (from_option (fun t => duration_since now t <? REPEAT_WINDOW) false (last_block_change_at p))
  end.

Definition on_wake (p : Poller) (w : Wake) (now : Z) : Poller * Wanted :=
  match w with
  | BlockWake hash_hex rebuild =>
    let p := if rebuild then on_rebuild p else p in
    (p, if on_block_notification p hash_hex now then AwaitTip else if rebuild then Fetch else Nothing)
  | RebuildWake => (on_rebuild p, Fetch)
  | RefreshWake | TimeoutWake => (p, Fetch)
  end.

(** [await_new_tip] over the reads of the best block, each with the time elapsed when it
    returned; none while the wait goes on. *)
Fixpoint await_new_tip (p : Poller) (reads : list (option bytes * Z)) : option bool :=
  match reads with
  | [] => None
  | (best, elapsed) :: reads =>
    match best with
    | None => Some true
    | Some h => if negb (bool_decide (poller_served p = Some h)) then Some true
                else if NOTIFY_PATIENCE <=? elapsed then Some (force_clean p) else await_new_tip p reads
    end
  end.

(** Whether a fetched template starts a new block ([run]): a tip no job was served on is
    announced as one. *)
Definition starts_block (t : JobTable) (tmpl : Template) (new_block : bool) : bool :=
  new_block || from_option (fun p => negb (bool_decide (prev_of (pub_job p) = tmpl_prev_hash tmpl))) true (current t).

(** ** What a thread is yet to do *)

Inductive BuildKind := Priority | Full (new_block : bool).

Definition announces_tip (b : BuildKind) : bool := match b with Priority => true | Full new_block => new_block end.

Inductive Task :=
| OnTemplate (t : Template) (new_block : bool) (cfg : option ClientConfig)
| Building (t : Template) (what : BuildKind) (cfg : option ClientConfig) (split : option CoinbaserResponse)
| MarkingOff (prev_hash : bytes)
| Assembling (t : Template) (what : BuildKind) (cfg : option ClientConfig) (split : option CoinbaserResponse)
    (abw : option AbwAssignment)
| Publishing (j : Job) (kinds : list CoinbaseKind)
| Requesting (t : Template) (new_block : bool) (cfg : ClientConfig)
| OnCoinbaser (pending : PendingCoinbaser) (split : option CoinbaserResponse)
| ReadingConfig (pending : PendingCoinbaser) (split : option CoinbaserResponse).

(** What the two threads share of [Gateway], and the session that is open. *)
Record Work := {
  work_jobs : JobTable;
  work_session : ShareSession;
  next_job_serial : Z;
  work_error : option BuildError;
}.

Definition work_pool (w : Work) : PoolState := pool_state (work_session w).

Definition set_jobs (w : Work) (t : JobTable) : Work :=
  {| work_jobs := t; work_session := work_session w; next_job_serial := next_job_serial w; work_error := work_error w |}.
Definition set_session (w : Work) (s : ShareSession) : Work :=
  {| work_jobs := work_jobs w; work_session := s; next_job_serial := next_job_serial w; work_error := work_error w |}.

(** [on_template]: the tip moves, and what follows. *)
Definition on_template (w : Work) (t : Template) (new_block : bool) (cfg : option ClientConfig) : Work * list Task :=
  (set_jobs w (set_table_tip (work_jobs w) (tmpl_prev_hash t)),
   match cfg with
   | None => [Building t (Full new_block) None None]
   | Some c => (if new_block then [Building t Priority (Some c) None] else []) ++ [Requesting t new_block c]
   end).

Definition requesting (w : Work) (t : Template) (new_block : bool) (cfg : ClientConfig) (now : Z) : Work * list Task :=
  let '(p, asked) := request_coinbaser (work_pool w) t new_block now in
  (set_session w (set_pool (work_session w) p),
   if negb asked && negb new_block then [Building t (Full false) (Some cfg) None] else []).

(** [build] up to the commitment the job takes; none where the assignments panic. *)
Definition building (w : Work) (t : Template) (what : BuildKind) (cfg : option ClientConfig) (split : option CoinbaserResponse)
    : option (list Task) :=
  state ← abw_state (work_pool w);
  Some match cfg, state with
       | None, _ | Some _, NotRequired => [Assembling t what cfg split None]
       | Some _, Assigned a => [Assembling t what cfg split (Some a)]
       | Some _, Awaiting => [MarkingOff (tmpl_prev_hash t)]
       end.

Section publishing.
Context `{Digests}.
Context (c : JobConfig).

(** The rest of [build], with the publications that follow; none where the builder
    panics. *)
Definition assembling (w : Work) (t : Template) (what : BuildKind) (cfg : option ClientConfig) (split : option CoinbaserResponse)
    (abw : option AbwAssignment) (unix_now now : Z) : option (Work * list Task) :=
  built ← build_job c {| in_serial := next_job_serial w; in_template := t; GatewayJob.pool_config := cfg; in_coinbaser := split;
                         in_abw := abw |} unix_now now;
  let taken error := {| work_jobs := work_jobs w; work_session := work_session w;
                        next_job_serial := wrap 64 (next_job_serial w + 1); work_error := error |} in
  Some match built with
       | Ok j => (taken None, [Publishing j (if announces_tip what then [SubsidyOnly; Pooled] else [Pooled])])
       | Err e => (taken (Some e), [])
       end.

(** [Gateway::publish], once for each coinbase left; a refusal ends the build. *)
Definition publishing (w : Work) (j : Job) (kinds : list CoinbaseKind) (now : Z) : Work * list Task :=
  match kinds with
  | [] => (w, [])
  | k :: kinds =>
    let '(t, accepted) := publish (work_jobs w) j k now in
    (set_jobs w t, if (accepted : bool) then (match kinds with [] => [] | _ => [Publishing j kinds] end) else [])
  end.

Definition on_coinbaser (w : Work) (p : PendingCoinbaser) (split : option CoinbaserResponse) : list Task :=
  if negb (bool_decide (table_tip (work_jobs w) = Some (tmpl_prev_hash (pending_template p)))) then []
  else [ReadingConfig p split].

Definition reading_config (w : Work) (p : PendingCoinbaser) (split : option CoinbaserResponse) : list Task :=
  let cfg := GatewayPool.pool_config (work_pool w) in
  if negb (is_some split) && pending_new_block p && is_some cfg then []
  else [Building (pending_template p) (Full false) cfg split].

Definition run_task (w : Work) (k : Task) (unix_now now : Z) : option (Work * list Task) :=
  match k with
  | OnTemplate t new_block cfg => Some (on_template w t new_block cfg)
  | Building t what cfg split => (w,.) <$> building w t what cfg split
  | MarkingOff prev_hash => Some (set_jobs w (mark_stale_off (work_jobs w) prev_hash), [])
  | Assembling t what cfg split abw => assembling w t what cfg split abw unix_now now
  | Publishing j kinds => Some (publishing w j kinds now)
  | Requesting t new_block cfg => Some (requesting w t new_block cfg now)
  | OnCoinbaser p split => Some (w, on_coinbaser w p split)
  | ReadingConfig p split => Some (w, reading_config w p split)
  end.

(** ** The two threads *)

Record System := { work : Work; template_thread : list Task; session_thread : list Task }.

Definition system_new (p : PoolState) (n : nat) (keep : Z) : System :=
  {| work := {| work_jobs := table_new n keep; work_session := session_opened p n; next_job_serial := 0; work_error := None |};
     template_thread := []; session_thread := [] |}.

Definition with_work (s : System) (w : Work) : System :=
  {| work := w; template_thread := template_thread s; session_thread := session_thread s |}.

(** Whose turn it is, what the session thread hears, and what others do to the pool's
    state meanwhile: anything but to the request held, and to a slot past the array. *)
Inductive thread_step (s : System) : System -> Prop :=
| template_runs k ks w new unix_now now :
    template_thread s = k :: ks -> run_task (work s) k unix_now now = Some (w, new) ->
    thread_step s {| work := w; template_thread := new ++ ks; session_thread := session_thread s |}
| session_runs k ks w new unix_now now :
    session_thread s = k :: ks -> run_task (work s) k unix_now now = Some (w, new) ->
    thread_step s {| work := w; template_thread := template_thread s; session_thread := new ++ ks |}
| request_sent r :
    session_thread s = [] -> coinbaser_request (view (work_pool (work s))) = Some r ->
    thread_step s (with_work s (set_session (work s) (set_awaiting (set_pool (work_session (work s))
      (set_view (work_pool (work s)) (set_request (view (work_pool (work s))) None))) (Some r))))
| answer_heard plain ss told :
    session_thread s = [] -> on_coinbaser_response (work_session (work s)) plain = (ss, told) ->
    thread_step s {| work := set_session (work s) ss; template_thread := template_thread s;
                     session_thread := (fun '(p, r) => OnCoinbaser p (Some r)) <$> option_list told |}
| answer_given_up now ss told :
    session_thread s = [] -> coinbaser_timed_out (work_session (work s)) now = (ss, told) ->
    thread_step s {| work := set_session (work s) ss; template_thread := template_thread s;
                     session_thread := (fun p => OnCoinbaser p None) <$> option_list told |}
| session_ends :
    session_thread s = [] ->
    thread_step s (with_work s (set_session (work s)
      (session_opened (clear_after_disconnect (work_pool (work s))).1 (length (sent_sections (work_session (work s)))))))
| pool_changes p :
    coinbaser_request (view p) = coinbaser_request (view (work_pool (work s))) -> is_some (assignment (view_abw (view p))) = true ->
    thread_step s (with_work s (set_session (work s) (set_pool (work_session (work s)) p))).

(** The template thread, through with one template, fetches another. *)
Inductive system_step (s : System) : System -> Prop :=
| threads_run s2 : thread_step s s2 -> system_step s s2
| template_fetched t new_block cfg :
    template_thread s = [] -> template_wf t ->
    system_step s {| work := work s; template_thread := [OnTemplate t (starts_block (work_jobs (work s)) t new_block) cfg];
                     session_thread := session_thread s |}.

(** ** What every job is built from *)

(** The split an answer to a request for that value gives: what it decodes to if it is for
    that value, no output if it does not decode. *)
Definition split_answered (value : Z) (plain : bytes) : option CoinbaserResponse :=
  match decode_coinbaser_response plain with
  | Ok r => if value =? response_value r then Some r else None
  | Err _ => Some {| response_value := value; response_coinbaser_id := 0; response_outputs := [] |}
  end.

(** The session thread hears the answer to the request it made for the template, and goes
    on with that split. *)
Record hears (plain : bytes) (t : Template) (r : CoinbaserResponse) (s s2 : System) : Prop := {
  he_split : split_answered (tmpl_coinbase_value t) plain = Some r;
  he_session : session_thread s = [];
  he_request : exists p, awaiting_coinbaser (work_session (work s)) = Some p /\ pending_template p = t /\
    on_coinbaser_response (work_session (work s)) plain = (work_session (work s2), Some (p, r)) /\
    session_thread s2 = [OnCoinbaser p (Some r)];
}.

(** The tasks of a list, one by one. *)
Ltac each_task := cbn; rewrite ?Forall_cons, ?Forall_nil; cbn; split_and?; done.

(** Somewhere between the two states the pool answered the template's request with that
    split. *)
Definition pool_answered (s0 s : System) (t : Template) (r : CoinbaserResponse) : Prop :=
  exists plain s1 s2, rtc system_step s0 s1 /\ system_step s1 s2 /\ hears plain t r s1 s2 /\ rtc system_step s2 s.

Section answers.
Context (answered : Template -> CoinbaserResponse -> Prop).

Definition split_for (t : Template) (split : option CoinbaserResponse) : Prop :=
  forall r, split = Some r -> answered t r.

Record inputs_ok (i : JobInputs) : Prop := {
  io_template : template_wf (in_template i);
  io_split : split_for (in_template i) (in_coinbaser i);
  io_commits : GatewayJob.pool_config i = None -> in_abw i = None;
}.

Record pending_ok (p : PendingCoinbaser) : Prop := {
  po_template : template_wf (pending_template p);
  po_value : pending_value p = tmpl_coinbase_value (pending_template p);
  po_prev : pending_prev_hash p = tmpl_prev_hash (pending_template p);
}.

Definition task_ok (k : Task) : Prop :=
  match k with
  | OnTemplate t _ _ | Requesting t _ _ => template_wf t
  | Building t _ _ split => template_wf t /\ split_for t split
  | Assembling t _ cfg split abw => template_wf t /\ split_for t split /\ (cfg = None -> abw = None)
  | OnCoinbaser p split | ReadingConfig p split => pending_ok p /\ split_for (pending_template p) split
  | MarkingOff _ | Publishing _ _ => True
  end.

Definition task_jobs (k : Task) : list Job := match k with Publishing j _ => [j] | _ => [] end.
Definition jobs_of (w : Work) (ks : list Task) : list Job :=
  installed (work_jobs w) ++ from_option (fun p => [pub_job p]) [] (current (work_jobs w)) ++ (ks ≫= task_jobs).
Definition all_jobs (s : System) : list Job := jobs_of (work s) (template_thread s ++ session_thread s).

Definition made (below : Z) (j : Job) : Prop := exists i, job_built c i j /\ inputs_ok i /\ 0 <= serial j < below.

Record work_ok (n : nat) (keep0 : Z) (w : Work) : Prop := {
  wo_table : table_ok n keep0 (work_jobs w);
  wo_serial : 0 <= next_job_serial w;
  wo_request : forall p, coinbaser_request (view (work_pool w)) = Some p -> pending_ok p;
  wo_awaiting : forall p, awaiting_coinbaser (work_session w) = Some p -> pending_ok p;
  wo_abw : is_some (assignment (view_abw (view (work_pool w)))) = true;
}.

(** The jobs a step leaves: those there were and the one it built, if any, under the next
    serial. *)
Definition jobs_from (w : Work) (ks : list Task) (w2 : Work) (ks2 : list Task) : Prop :=
  exists fresh : option Job,
    (forall j, j ∈ jobs_of w2 ks2 -> fresh = Some j \/ j ∈ jobs_of w ks) /\
    (forall j, fresh = Some j -> made (next_job_serial w2) j /\ serial j = next_job_serial w) /\
    next_job_serial w <= next_job_serial w2 <= next_job_serial w + 1 /\
    (is_some fresh = true -> next_job_serial w2 = next_job_serial w + 1).

Lemma jobs_from_same w ks w2 ks2 : next_job_serial w2 = next_job_serial w ->
  (forall j, j ∈ jobs_of w2 ks2 -> j ∈ jobs_of w ks) -> jobs_from w ks w2 ks2.
Proof. intros E Hj. exists None. split_and!; [auto|done|lia..|done]. Qed.

Lemma elem_jobs_of w ks j : j ∈ jobs_of w ks <->
  j ∈ installed (work_jobs w) \/ (exists p, current (work_jobs w) = Some p /\ pub_job p = j) \/ exists k, k ∈ ks /\ j ∈ task_jobs k.
Proof.
  unfold jobs_of. rewrite !elem_of_app. apply or_iff_compat_l. apply Morphisms_Prop.or_iff_morphism.
  - destruct (current (work_jobs w)) as [p|]; cbn [from_option].
    + split; [intros ->%list_elem_of_singleton; by exists p|intros (q & [= <-] & <-); by apply list_elem_of_singleton].
    + split; [by intros ?%not_elem_of_nil|by intros (? & ? & _)].
  - rewrite list_elem_of_bind. split; intros (k & ? & ?); by exists k.
Qed.

Lemma assigned_state w : is_some (assignment (view_abw (view (work_pool w)))) = true -> exists st, abw_state (work_pool w) = Some st.
Proof.
  intros Ha. unfold abw_state. destruct (negb _); [by eexists|]. destruct (assignment _); [|done]. by eexists.
Qed.

Lemma run_task_returns n keep0 w k unix_now now : work_ok n keep0 w -> is_some (run_task w k unix_now now) = true.
Proof.
  intros [_ _ _ _ Ha]. destruct k; cbn [run_task]; try done.
  - unfold building. destruct (assigned_state w Ha) as [st ->]. done.
  - unfold assembling. match goal with |- context [build_job c ?i] => destruct (build_job_spec c i unix_now now) as (r & -> & _) end. done.
Qed.

Lemma work_ok_jobs n keep0 w t : work_ok n keep0 w -> table_ok n keep0 t -> work_ok n keep0 (set_jobs w t).
Proof. intros [? ? ? ? ?] Ht. by constructor. Qed.

(** What a step leaves of the work is sound, and so is what it is yet to do. *)
Record step_ok (n : nat) (keep0 : Z) (w : Work) (ks : list Task) (w2 : Work) (ks2 : list Task) : Prop := {
  st_work : work_ok n keep0 w2;
  st_tasks : Forall task_ok ks2;
  st_jobs : jobs_from w ks w2 ks2;
}.

Lemma on_template_ok n keep0 w t new_block cfg : work_ok n keep0 w -> template_wf t ->
  let '(w2, new) := on_template w t new_block cfg in step_ok n keep0 w [OnTemplate t new_block cfg] w2 new.
Proof.
  intros Hw Ht. assert (split_for t None) by done. split.
  - apply work_ok_jobs; [done|]. apply (table_step_ok n keep0 _ (SetTip _)), Hw.
  - destruct cfg as [cc|]; [destruct new_block|]; each_task.
  - apply jobs_from_same; [done|]. intros j. rewrite !elem_jobs_of. intros [Hj|[Hj|(k & Hk & Hj)]]; [by left|by right; left|].
    destruct cfg as [cc|]; [destruct new_block|]; cbn in Hk; set_solver.
Qed.

Lemma requesting_ok n keep0 w t new_block cfg now : work_ok n keep0 w -> template_wf t ->
  let '(w2, new) := requesting w t new_block cfg now in step_ok n keep0 w [Requesting t new_block cfg] w2 new.
Proof.
  intros [Hi Hs Hr Ha Hb] Ht. assert (split_for t None) by done. unfold requesting, request_coinbaser.
  destruct (_ <? _); [|destruct (negb (is_active _))]; (split; [split; try done| |apply jobs_from_same; [done|]]).
  all: try (intros j; rewrite !elem_jobs_of; cbn [set_session work_jobs]; intros [Hj|[Hj|(k & Hk & Hj)]]; [by left|by right; left|]).
  all: try (destruct new_block; each_task).
  all: try (destruct new_block; cbn in Hk; set_solver).
  intros p. cbn. intros [= <-]. by split.
Qed.

Lemma building_ok n keep0 w t what cfg split new : work_ok n keep0 w -> template_wf t -> split_for t split ->
  building w t what cfg split = Some new -> step_ok n keep0 w [Building t what cfg split] w new.
Proof.
  intros Hw Ht Hsp. unfold building. destruct (abw_state (work_pool w)) as [st|]; cbn [mbind option_bind]; [|done]. intros [= <-].
  split; [done| |apply jobs_from_same; [done|]].
  - destruct cfg as [cc|]; [destruct st|]; each_task.
  - intros j. rewrite !elem_jobs_of. intros [Hj|[Hj|(k & Hk & Hj)]]; [by left|by right; left|].
    destruct cfg as [cc|]; [destruct st|]; apply list_elem_of_singleton in Hk as ->; set_solver.
Qed.

Lemma assembling_ok n keep0 w t what cfg split abw unix_now now w2 new : work_ok n keep0 w -> next_job_serial w < 2 ^ 64 - 1 ->
  template_wf t -> split_for t split -> (cfg = None -> abw = None) ->
  assembling w t what cfg split abw unix_now now = Some (w2, new) -> step_ok n keep0 w [Assembling t what cfg split abw] w2 new.
Proof.
  intros [Hi Hs Hr Ha Hb] Hlt Ht Hsp Hc. unfold assembling. set (inputs := {| in_serial := _ |}).
  destruct (build_job_spec c inputs unix_now now) as (r & -> & Hbuilt). cbn [mbind option_bind].
  assert (inputs_ok inputs) as Hin by (by split). destruct r as [j|e]; intros [= <- <-]; cbn.
  - specialize (Hbuilt j eq_refl). pose proof (jb_serial _ _ _ Hbuilt) as Hser. cbn in Hser. split.
    + split; cbn; try done. rewrite wrap_small; unfold uint; lia.
    + each_task.
    + exists (Some j). cbn [next_job_serial]. rewrite wrap_small by (unfold uint; lia). split_and!; [| |lia..].
      * intros j2. rewrite !elem_jobs_of. cbn [work_jobs]. intros [Hj|[Hj|(k & ->%list_elem_of_singleton & Hj)]]; [by right; left|by right; right; left|].
        cbn in Hj. apply list_elem_of_singleton in Hj as ->. by left.
      * intros j2 [= <-]. split; [|done]. exists inputs. split_and!; [done..|lia|lia].
  - split; [split; cbn; try done|by constructor|].
    + rewrite wrap_small; unfold uint; lia.
    + exists None. cbn [next_job_serial]. rewrite wrap_small by (unfold uint; lia). split_and!; [|done|lia..|done].
      intros j2. rewrite !elem_jobs_of. cbn [work_jobs]. intros [Hj|[Hj|(k & ?%not_elem_of_nil & _)]]; [by right; left|by right; right; left|done].
Qed.

Lemma publish_ok n keep0 w j kinds now : work_ok n keep0 w ->
  let '(w2, new) := publishing w j kinds now in step_ok n keep0 w [Publishing j kinds] w2 new.
Proof.
  intros Hw. destruct kinds as [|k kinds]; cbn [publishing].
  { split; [done|each_task|]. apply jobs_from_same; [done|]. intros j2. rewrite !elem_jobs_of.
    intros [Hj|[Hj|(x & ?%not_elem_of_nil & _)]]; [by left|by right; left|done]. }
  pose proof (table_step_ok n keep0 (work_jobs w) (Publish j k now) (wo_table _ _ _ Hw)) as Ht. cbn [table_step] in Ht.
  pose proof (publish_table_spec (work_jobs w) j k now) as Hp. destruct (publish (work_jobs w) j k now) as [t2 accepted]; destruct Hp as [_ Hp].
  split; [by apply work_ok_jobs|destruct accepted, kinds; each_task|]. apply jobs_from_same; [done|]. intros j2. rewrite !elem_jobs_of. cbn [set_jobs work_jobs].
  assert (j2 ∈ task_jobs (Publishing j (k :: kinds)) <-> j2 = j) as Hmine by apply list_elem_of_singleton.
  assert (j2 = j -> exists x, x ∈ [Publishing j (k :: kinds)] /\ j2 ∈ task_jobs x) as Hself.
  { intros E. eexists. split; [by apply list_elem_of_singleton|by apply Hmine]. }
  destruct accepted; [|subst t2].
  - intros [Hj|[(p & Ep & <-)|(x & Hx & Hj)]].
    + apply (pa_from _ _ _ _ _ _ Hp) in Hj as [Hj|[Hj _]]; [right; right; by apply Hself|by left].
    + rewrite (pa_current _ _ _ _ _ _ Hp) in Ep. injection Ep as <-. right; right. by apply Hself.
    + right; right. apply Hself. destruct kinds; [by apply not_elem_of_nil in Hx|]. apply list_elem_of_singleton in Hx as ->.
      by apply list_elem_of_singleton in Hj.
  - intros [Hj|[Hj|(x & ?%not_elem_of_nil & _)]]; [by left|by right; left|done].
Qed.

Lemma run_task_ok n keep0 w k unix_now now w2 new : work_ok n keep0 w -> next_job_serial w < 2 ^ 64 - 1 -> task_ok k ->
  run_task w k unix_now now = Some (w2, new) -> step_ok n keep0 w [k] w2 new.
Proof.
  intros Hw Hlt Hk Hr.
  assert (forall ks, Forall task_ok ks -> (ks ≫= task_jobs) = [] -> step_ok n keep0 w [k] w ks) as Hsame.
  { intros ks Hks E. split; [done|done|]. apply jobs_from_same; [done|]. intros j. unfold jobs_of. rewrite E, app_nil_r, !elem_of_app. tauto. }
  destruct k as [t nb cfg|t what cfg split|h|t what cfg split abw|j kinds|t nb cfg|p split|p split]; cbn [run_task task_ok] in *.
  - apply (inj Some) in Hr. pose proof (on_template_ok n keep0 w t nb cfg Hw Hk) as H1. by rewrite Hr in H1.
  - destruct (building w t what cfg split) as [ks|] eqn:E; [|done]. injection Hr as <- <-. destruct Hk. by eapply building_ok.
  - injection Hr as <- <-. split; [|each_task|].
    + apply work_ok_jobs; [done|]. by apply (table_step_ok n keep0 _ (MarkStaleOff h)), Hw.
    + apply jobs_from_same; [done|]. intros j. rewrite !elem_jobs_of. intros [Hj|[Hj|(x & ?%not_elem_of_nil & _)]]; [by left|by right; left|done].
  - destruct Hk as (? & ? & ?). by eapply assembling_ok.
  - apply (inj Some) in Hr. pose proof (publish_ok n keep0 w j kinds now Hw) as H1. by rewrite Hr in H1.
  - apply (inj Some) in Hr. pose proof (requesting_ok n keep0 w t nb cfg now Hw Hk) as H1. by rewrite Hr in H1.
  - injection Hr as <- <-. apply Hsame; unfold on_coinbaser; destruct (negb _); try done. by apply Forall_singleton.
  - injection Hr as <- <-. apply Hsame; unfold reading_config; destruct (negb _ && _ && _); try done.
    destruct Hk as [[Ht _ _] Hs]. each_task.
Qed.

(** ** The system *)

Record system_ok (n : nat) (keep0 : Z) (s : System) : Prop := {
  so_work : work_ok n keep0 (work s);
  so_tasks : Forall task_ok (template_thread s ++ session_thread s);
  so_made : forall j, j ∈ all_jobs s -> made (next_job_serial (work s)) j;
  so_unique : forall j j2, j ∈ all_jobs s -> j2 ∈ all_jobs s -> serial j = serial j2 -> j = j2;
}.

Lemma made_more a b j : made a j -> a <= b -> made b j.
Proof. intros (i & Hb & Hi & Hs) Hle. exists i. split_and!; [done..|lia|lia]. Qed.

(** What one step, or so many, add: jobs of new serials. *)
Definition onward (m : Z) (s s2 : System) : Prop :=
  next_job_serial (work s) <= next_job_serial (work s2) <= next_job_serial (work s) + m /\
  forall j, j ∈ all_jobs s2 -> j ∈ all_jobs s \/ next_job_serial (work s) <= serial j.

(** One task run, whichever thread's. *)
Lemma ran_ok n keep0 s k w2 new before rest unix_now now s2 : system_ok n keep0 s -> next_job_serial (work s) < 2 ^ 64 - 1 ->
  run_task (work s) k unix_now now = Some (w2, new) ->
  template_thread s ++ session_thread s = before ++ k :: rest -> work s2 = w2 ->
  template_thread s2 ++ session_thread s2 = before ++ new ++ rest ->
  system_ok n keep0 s2 /\ onward 1 s s2.
Proof.
  intros [Hw Htasks Hmade Huniq] Hlt Hr E E2 E3. rewrite E in Htasks. apply Forall_app in Htasks as [Hb [Hk Hrest]%Forall_cons].
  destruct (run_task_ok n keep0 (work s) k unix_now now w2 new Hw Hlt Hk Hr) as [Hw2 Hnew (fresh & Hfrom & Hfresh & Hser & Hnext)].
  assert (forall j, j ∈ all_jobs s <-> j ∈ jobs_of (work s) [k] \/ exists x, x ∈ before ++ rest /\ j ∈ task_jobs x) as Hs.
  { intros j. unfold all_jobs. rewrite E, !elem_jobs_of. set_unfold. naive_solver. }
  assert (forall j, j ∈ all_jobs s2 -> fresh = Some j \/ j ∈ all_jobs s) as Hs2.
  { intros j. unfold all_jobs at 1. rewrite E2, E3. intros Hj. rewrite Hs.
    assert (j ∈ jobs_of w2 new \/ exists x, x ∈ before ++ rest /\ j ∈ task_jobs x) as [Hj2|Hj2].
    { revert Hj. rewrite !elem_jobs_of. set_unfold. naive_solver. }
    - apply Hfrom in Hj2 as [|]; auto.
    - auto. }
  assert (forall j, fresh = Some j -> forall j2, j2 ∈ all_jobs s -> serial j2 <> serial j) as Hne.
  { intros j Hj j2 Hj2 Eser. destruct (Hfresh j Hj) as [_ Hsj]. destruct (Hmade j2 Hj2) as (_ & _ & _ & Hlt2). lia. }
  split; [split|].
  - by rewrite E2.
  - rewrite E3. by rewrite !Forall_app.
  - rewrite E2. intros j Hj. apply Hs2 in Hj as [Hj|Hj]; [by apply Hfresh|]. eapply made_more; [by apply Hmade|lia].
  - intros j j2 Hj Hj2 Eser. apply Hs2 in Hj as [Hj|Hj], Hj2 as [Hj2|Hj2].
    + congruence.
    + by destruct (Hne j Hj j2 Hj2).
    + by destruct (Hne j2 Hj2 j Hj).
    + by apply Huniq.
  - unfold onward. rewrite E2. split; [lia|]. intros j [Hj|Hj]%Hs2; [right; by destruct (Hfresh j Hj) as [_ ->]|by left].
Qed.

(** What the session hears changes neither table nor jobs. *)
Lemma heard_ok n keep0 s ss ks : system_ok n keep0 s ->
  (forall p, coinbaser_request (view (pool_state ss)) = Some p -> pending_ok p) ->
  (forall p, awaiting_coinbaser ss = Some p -> pending_ok p) -> is_some (assignment (view_abw (view (pool_state ss)))) = true ->
  Forall task_ok ks -> ks ≫= task_jobs = session_thread s ≫= task_jobs ->
  let s2 := {| work := set_session (work s) ss; template_thread := template_thread s; session_thread := ks |} in
  system_ok n keep0 s2 /\ onward 1 s s2.
Proof.
  intros [[Ht Hser Hr Ha Hb] Htasks Hmade Huniq] Hr2 Ha2 Hb2 Hks Ej s2. apply Forall_app in Htasks as [Htt _].
  assert (all_jobs s2 = all_jobs s) as Ejobs.
  { unfold all_jobs, jobs_of. cbn [s2 work set_session work_jobs template_thread session_thread]. by rewrite !bind_app, Ej. }
  split; [split|split; [cbn; lia|]]; rewrite ?Ejobs; [by constructor|by apply Forall_app|exact Hmade|exact Huniq|auto].
Qed.

Lemma answer_heard_spec s plain s2 told : on_coinbaser_response s plain = (s2, told) ->
  pool_state s2 = pool_state s /\ (awaiting_coinbaser s2 = awaiting_coinbaser s \/ awaiting_coinbaser s2 = None) /\
  forall p r, told = Some (p, r) -> awaiting_coinbaser s = Some p /\ split_answered (pending_value p) plain = Some r.
Proof.
  unfold on_coinbaser_response, split_answered. destruct (decode_coinbaser_response plain) as [r|e]; destruct (awaiting_coinbaser s) as [p|] eqn:E.
  - destruct (Z.eqb_spec (pending_value p) (response_value r)); intros [= <- <-]; cbn; (split_and!; [done|auto|]); [|done].
    intros p2 r2 [= <- <-]. split; [done|]. by rewrite (proj2 (Z.eqb_eq _ _)).
  - intros [= <- <-]. rewrite E. split_and!; [done|auto|done].
  - intros [= <- <-]. cbn. split_and!; [done|auto|]. by intros p2 r2 [= <- <-].
  - intros [= <- <-]. rewrite E. split_and!; [done|auto|done].
Qed.

Lemma thread_step_ok n keep0 s s2 : system_ok n keep0 s -> next_job_serial (work s) < 2 ^ 64 - 1 -> thread_step s s2 ->
  (forall plain t r, hears plain t r s s2 -> answered t r) -> system_ok n keep0 s2 /\ onward 1 s s2.
Proof.
  intros Hok Hlt Hstep Hans. pose proof Hok as [[Ht Hser Hr Ha Hb] Htasks _ _]. apply Forall_app in Htasks as [_ Hst].
  destruct Hstep as [k ks w new unix now E Er|k ks w new unix now E Er|r E Er|plain ss tld E Eh|now ss tld E Eh|E|p Ep Eb].
  - apply (ran_ok n keep0 s k w new [] (ks ++ session_thread s) unix now); [done..|by rewrite E|done|]. cbn [template_thread session_thread]. by rewrite <- app_assoc.
  - apply (ran_ok n keep0 s k w new (template_thread s) ks unix now); [done..|by rewrite E|done|done].
  - apply heard_ok; try done. intros p [= <-]. by apply Hr.
  - pose proof (answer_heard_spec _ _ _ _ Eh) as (Ep & Eaw & Et). apply heard_ok; rewrite ?Ep; try done.
    + intros p Hp. destruct Eaw as [Eaw|Eaw]; rewrite Eaw in Hp; [by apply Ha|done].
    + destruct tld as [[p r]|]; [|by apply Forall_nil]. destruct (Et p r eq_refl) as [Hp Hv]. specialize (Ha p Hp).
      apply Forall_singleton. split; [done|]. intros r2 [= <-]. apply (Hans plain). destruct Ha as [_ Hval _].
      split; [by rewrite <- Hval|done|]. exists p. split_and!; [done|done|done|done].
    + rewrite E. by destruct tld as [[]|].
  - unfold coinbaser_timed_out in Eh. destruct (awaiting_coinbaser _) as [p|] eqn:Ew.
    2:{ injection Eh as <- <-. apply heard_ok; try done; rewrite ?E; try done. by rewrite Ew. }
    destruct (_ <=? _); injection Eh as <- <-; (apply heard_ok; try done; rewrite ?E, ?Ew; try done).
    apply Forall_singleton. split; [by apply Ha|done].
  - by apply heard_ok.
  - apply heard_ok; try done. intros p2. cbn. rewrite Ep. apply Hr.
Qed.

Lemma system_step_ok n keep0 s s2 : system_ok n keep0 s -> next_job_serial (work s) < 2 ^ 64 - 1 -> system_step s s2 ->
  (forall plain t r, hears plain t r s s2 -> answered t r) -> system_ok n keep0 s2 /\ onward 1 s s2.
Proof.
  intros Hok Hlt [s3 Hs|t nb cfg E Ht] Hans; [by apply (thread_step_ok n keep0 s)|]. split.
  2:{ split; [cbn; lia|]. intros j. unfold all_jobs, jobs_of. cbn [work template_thread session_thread]. rewrite E. by left. }
  destruct Hok as [Hw Htasks Hmade Huniq]. rewrite E in Htasks. 
  assert (all_jobs {| work := work s; template_thread := [OnTemplate t (starts_block (work_jobs (work s)) t nb) cfg]; session_thread := session_thread s |} = all_jobs s) as Ej.
  { unfold all_jobs, jobs_of. cbn [work template_thread session_thread]. by rewrite E. }
  split; rewrite ?Ej; [done|by apply Forall_cons|done|done].
Qed.

Lemma system_new_ok capacity n keep0 : system_ok n keep0 (system_new (pool_new capacity) n keep0).
Proof.
  assert (all_jobs (system_new (pool_new capacity) n keep0) = []) as Ej.
  { unfold all_jobs, jobs_of. cbn. rewrite !app_nil_r. unfold installed. cbn. by induction n. }
  split; [split; try done; apply (run_table_ok n keep0 [])|by apply Forall_nil|rewrite Ej..]; [intros j ?%not_elem_of_nil; done|intros j j2 ?%not_elem_of_nil; done].
Qed.

End answers.

Lemma onward_trans m m2 s s2 s3 : onward m s s2 -> onward m2 s2 s3 -> onward (m + m2) s s3.
Proof.
  intros [H1 Hj1] [H2 Hj2]. split; [lia|]. intros j [Hj|Hj]%Hj2; [by apply Hj1|right; lia].
Qed.

(** A run in which what the pool answers is known. *)
Lemma system_runs answered n keep0 k s s2 : system_ok answered n keep0 s -> next_job_serial (work s) + Z.of_nat k < 2 ^ 64 ->
  nsteps system_step k s s2 -> (forall t r, pool_answered s s2 t r -> answered t r) ->
  system_ok answered n keep0 s2 /\ onward (Z.of_nat k) s s2.
Proof.
  revert s. induction k as [|k IH]; intros s Hok Hlt Hn Hans; inversion Hn as [|? ? s3 ? Hs Hrest]; subst.
  { split; [done|]. split; [lia|auto]. }
  destruct (system_step_ok answered n keep0 s s3 Hok ltac:(lia) Hs) as [Hok3 Hon].
  { intros plain t r Hh. apply Hans. exists plain, s, s3. split_and!; [done..|by eapply rtc_nsteps_2]. }
  destruct (IH s3 Hok3 ltac:(destruct Hon; lia) Hrest) as [Hok2 Hon2].
  { intros t r (plain & s4 & s5 & H1 & H2 & H3 & H4). apply Hans. exists plain, s4, s5. split_and!; [by eapply rtc_l|done..]. }
  split; [done|]. replace (Z.of_nat (S k)) with (1 + Z.of_nat k) by lia. by eapply onward_trans.
Qed.

(** C21: The work served is sound, whatever the threads interleave. In every state the
    template thread and the session thread reach, with the pool's answers, timeouts,
    reconnections and changes of configuration in between: every job served, installed or
    about to be published is built from one well-formed template, committed to no key
    unless pooled, has a slot of the table, and has no split or the one an answer of the
    pool gave, heard earlier in the run as the answer to the request made for that
    template: what the answer decodes to, its outputs included, which is for that
    template's value, or no output where it does not decode. A serial names one job for
    good: two jobs of one serial, at any two moments of a run, are the same job. The work
    served can be named; every job a share can name and is not stale is on the tip of the
    work served; and what a thread is to do next runs without a panic. For runs of fewer
    than 2^64 steps, by the end of which the counter of the serials has not wrapped. *)
Theorem published_work_is_sound (capacity n : nat) (keep0 : Z) (k : nat) (s : System) :
  protocol_job_slots c = Z.of_nat n -> (1 <= n <= 256)%nat -> Z.of_nat k < 2 ^ 64 ->
  let s0 := system_new (pool_new capacity) n keep0 in nsteps system_step k s0 s ->
  (forall j, j ∈ all_jobs s -> (exists i, job_built c i j /\ inputs_ok (pool_answered s0 s) i) /\ fits n j) /\
  (forall k1 k2 s1 j j2, nsteps system_step k1 s0 s1 -> nsteps system_step k2 s1 s -> k = (k1 + k2)%nat ->
    j ∈ all_jobs s1 -> j2 ∈ all_jobs s -> serial j = serial j2 -> j = j2) /\
  (forall p, current (work_jobs (work s)) = Some p -> job_at (work_jobs (work s)) (slot (pub_job p)) = Some (pub_job p)) /\
  (forall other, other ∈ installed (work_jobs (work s)) -> is_stale_prevblock (work_jobs (work s)) other = false ->
    exists p, current (work_jobs (work s)) = Some p /\ prev_of other = prev_of (pub_job p)) /\
  (forall task rest unix_now now, template_thread s = task :: rest \/ session_thread s = task :: rest ->
    is_some (run_task (work s) task unix_now now) = true).
Proof.
  intros Hn Hr Hk s0 Hrun.
  destruct (system_runs (pool_answered s0 s) n keep0 k s0 s (system_new_ok _ capacity n keep0) Hk Hrun ltac:(done)) as [[Hw _ Hmade Huniq] _].
  assert (forall j, j ∈ all_jobs s -> (exists i, job_built c i j /\ inputs_ok (pool_answered s0 s) i) /\ fits n j) as Hsound.
  { intros j Hj. destruct (Hmade j Hj) as (i & Hb & Hi & _). split; [by exists i|].
    assert (0 <= in_serial i mod protocol_job_slots c < Z.of_nat n) by (rewrite Hn; apply Z.mod_pos_bound; lia).
    unfold fits. rewrite (jb_slot _ _ _ Hb), wrap_small by (unfold uint; lia). lia. }
  destruct (wo_table _ _ _ Hw) as [_ _ Hgood Hcur]. split_and!; [done| | |done|].
  - intros k1 k2 s1 j j2 H1 H2 E Hj Hj2 Eser.
    destruct (system_runs (fun _ _ => True) n keep0 k1 s0 s1 (system_new_ok _ capacity n keep0) ltac:(cbn; lia) H1 ltac:(done)) as [Hok1 [Hs1 _]].
    destruct (system_runs (fun _ _ => True) n keep0 k2 s1 s Hok1 ltac:(cbn in Hs1; lia) H2 ltac:(done)) as [_ [_ Hfrom]].
    destruct (Hfrom j2 Hj2) as [Hin|Hle]; [by apply (so_unique _ _ _ _ Hok1)|].
    destruct (so_made _ _ _ _ Hok1 j Hj) as (_ & _ & _ & Hlt). lia.
  - intros p Hp. apply (Hcur p Hp), Hsound. unfold all_jobs. rewrite elem_jobs_of. right; left. by exists p.
  - intros task rest unix_now now _. by eapply run_task_returns.
Qed.

(** ** A new tip *)

Definition plain (k : Task) : Prop := match k with OnTemplate _ _ _ => False | _ => True end.

(** Nothing a task leads to moves the tip, which a template alone does. *)
Lemma run_task_plain w k unix_now now w2 new : run_task w k unix_now now = Some (w2, new) ->
  Forall plain new /\ (plain k -> table_tip (work_jobs w2) = table_tip (work_jobs w)).
Proof.
  destruct k as [t nb cfg|t what cfg split|h|t what cfg split abw|j kinds|t nb cfg|p split|p split]; cbn [run_task plain].
  - intros [= <- <-]. split; [destruct cfg as [cc|]; [destruct nb|]; each_task|done].
  - unfold building. destruct (abw_state (work_pool w)) as [st|]; cbn; [|done]. intros [= <- <-].
    split; [destruct cfg as [cc|]; [destruct st|]; each_task|done].
  - intros [= <- <-]. split; [each_task|done].
  - unfold assembling. destruct (build_job _ _ _ _) as [[b|e]|]; cbn; [| |done]; intros [= <- <-]; (split; [each_task|done]).
  - intros E. apply (inj Some) in E. destruct kinds as [|kind kinds]; cbn [publishing] in E; [injection E as <- <-; split; [each_task|done]|].
    pose proof (publish_table_spec (work_jobs w) j kind now) as Hp. destruct (publish (work_jobs w) j kind now) as [t2 accepted].
    injection E as <- <-. destruct Hp as [_ Hp]. split; [destruct accepted, kinds; each_task|]. intros _. cbn.
    destruct accepted; [apply (pa_rest _ _ _ _ _ _ Hp)|by subst].
  - unfold requesting. destruct (request_coinbaser _ _ _ _) as [p asked]. intros [= <- <-]. split; [destruct asked, nb; each_task|done].
  - intros [= <- <-]. split; [unfold on_coinbaser; destruct (negb _); each_task|done].
  - intros [= <- <-]. split; [unfold reading_config; destruct (negb _ && _ && _); each_task|done].
Qed.

(** What the miners are sent of a template: its work, or none on another tip until the
    pool commits to a key, unless no job of it can be built. *)
Definition served (t : Template) (cfg : option ClientConfig) (w : Work) : Prop :=
  (exists p, current (work_jobs w) = Some p /\ prev_of (pub_job p) = tmpl_prev_hash t) \/
  (forall j, j ∈ installed (work_jobs w) -> prev_of j = tmpl_prev_hash t \/ is_stale_prevblock (work_jobs w) j = true) \/
  (exists i unix_now now e, in_template i = t /\ GatewayJob.pool_config i = cfg /\ in_coinbaser i = None /\
    build_job c i unix_now now = Some (Err e)).

Lemma publish_on_tip w j kind now t : table_tip (work_jobs w) = Some (tmpl_prev_hash t) ->
  let '(t2, accepted) := publish (work_jobs w) j kind now in
  if accepted then current t2 = Some {| pub_job := j; pub_kind := kind; pub_sequence := published (work_jobs w) + 1 |} /\
    prev_of j = tmpl_prev_hash t else t2 = work_jobs w /\ prev_of j <> tmpl_prev_hash t.
Proof.
  intros Htip. pose proof (publish_table_spec (work_jobs w) j kind now) as Hp. destruct (publish (work_jobs w) j kind now) as [t2 accepted].
  destruct Hp as [Href Hp]. rewrite Htip in Href. destruct accepted.
  - split; [apply (pa_current _ _ _ _ _ _ Hp)|]. destruct (decide (prev_of j = tmpl_prev_hash t)) as [|Hne]; [done|].
    destruct Href as [_ Href]. discriminate Href. exists (tmpl_prev_hash t). split; [done|]. congruence.
  - split; [done|]. destruct Href as [Href _]. destruct (Href eq_refl) as (tip & [= <-] & Hne). congruence.
Qed.

Lemma run_served t cfg0 w k unix_now now w2 new : table_tip (work_jobs w) = Some (tmpl_prev_hash t) -> plain k -> served t cfg0 w ->
  run_task w k unix_now now = Some (w2, new) -> served t cfg0 w2.
Proof.
  intros Htip Hk Hs. assert (forall w3, work_jobs w3 = work_jobs w -> served t cfg0 w3) as Hsame by (intros w3 E; unfold served in *; by rewrite E).
  destruct k as [t0 nb cfg|t0 what cfg split|h|t0 what cfg split abw|j kinds|t0 nb cfg|p split|p split]; cbn [run_task]; try done.
  - destruct (building _ _ _ _ _); [|done]. intros [= <- <-]. by apply Hsame.
  - intros [= <- <-]. destruct Hs as [Hs|[Hs|Hs]]; [by left| |by right; right]. right; left. intros j Hj. destruct (Hs j Hj) as [|Hst]; [by left|].
    right. apply bool_decide_eq_true_1 in Hst. apply bool_decide_eq_true_2, elem_mark. by left.
  - unfold assembling. destruct (build_job _ _ _ _) as [[b|e]|]; cbn; [| |done]; intros [= <- <-]; by apply Hsame.
  - intros E. apply (inj Some) in E. destruct kinds as [|kind kinds]; cbn [publishing] in E; [injection E as <- <-; done|].
    pose proof (publish_on_tip w j kind now t Htip) as Hp. destruct (publish (work_jobs w) j kind now) as [t2 accepted]. injection E as <- <-.
    destruct accepted; [|by apply Hsame; destruct Hp]. left. destruct Hp as [Hc Hj]. eexists. split; [exact Hc|exact Hj].
  - unfold requesting. destruct (request_coinbaser _ _ _ _) as [p asked]. intros [= <- <-]. by apply Hsame.
  - intros [= <- <-]. done.
  - intros [= <- <-]. done.
Qed.

(** The task by which the template comes to be served. *)
Definition works_on (t : Template) (cfg0 : option ClientConfig) (k : Task) : Prop :=
  match k with
  | Building t0 _ cfg split | Assembling t0 _ cfg split _ => t0 = t /\ cfg = cfg0 /\ split = None
  | MarkingOff h => h = tmpl_prev_hash t
  | Publishing j kinds => prev_of j = tmpl_prev_hash t /\ kinds <> []
  | _ => False
  end.

Lemma run_works t cfg0 w k unix_now now w2 new : table_tip (work_jobs w) = Some (tmpl_prev_hash t) -> works_on t cfg0 k ->
  run_task w k unix_now now = Some (w2, new) -> served t cfg0 w2 \/ exists k2, head new = Some k2 /\ works_on t cfg0 k2.
Proof.
  intros Htip Hk. destruct k as [t0 nb cfg|t0 what cfg split|h|t0 what cfg split abw|j kinds|t0 nb cfg|p split|p split];
    cbn [run_task works_on] in *; try done.
  - destruct Hk as (-> & -> & ->). unfold building. destruct (abw_state (work_pool w)) as [st|]; cbn; [|done]. intros [= <- <-]. right.
    destruct cfg0 as [cc|]; [destruct st|]; eexists; split; done.
  - subst h. intros [= <- <-]. left; right; left. intros j Hj. destruct (decide (prev_of j = tmpl_prev_hash t)) as [|Hne]; [by left|].
    right. apply bool_decide_eq_true_2, elem_mark. right. exists j. split_and!; [exact Hj| |done]. by apply negb_true_iff, bool_decide_eq_false_2.
  - destruct Hk as (-> & -> & ->). unfold assembling. set (i := {| in_serial := _ |}). destruct (build_job_spec c i unix_now now) as (r & Er & Hb). rewrite Er. cbn.
    destruct r as [b|e]; intros [= <- <-].
    + right. eexists. split; [done|]. cbn. split; [|by destruct (announces_tip what)].
      unfold prev_of. by rewrite (jb_template _ _ _ (Hb b eq_refl)).
    + left; right; right. by exists i, unix_now, now, e.
  - intros E. apply (inj Some) in E. destruct Hk as [Hj Hne]. destruct kinds as [|kind kinds]; [done|]. cbn [publishing] in E.
    pose proof (publish_on_tip w j kind now t Htip) as Hp. destruct (publish (work_jobs w) j kind now) as [t2 accepted]. injection E as <- <-.
    destruct accepted; [|by destruct Hp]. left; left. destruct Hp as [Hc _]. eexists. split; [exact Hc|exact Hj].
Qed.

(** How much a task may still lead to. *)
Definition weight (k : Task) : nat :=
  match k with
  | MarkingOff _ => 1 | Publishing _ kinds => 1 + length kinds | Assembling _ _ _ _ _ => 4 | Building _ _ _ _ => 5
  | Requesting _ _ _ | ReadingConfig _ _ => 6 | OnCoinbaser _ _ => 7 | OnTemplate _ _ _ => 12
  end%nat.

Definition todo (ks : list Task) : nat := sum_list_with weight ks.

Lemma run_task_shrinks w k unix_now now w2 new : run_task w k unix_now now = Some (w2, new) -> (todo new < weight k)%nat.
Proof.
  unfold todo. destruct k as [t nb cfg|t what cfg split|h|t what cfg split abw|j kinds|t nb cfg|p split|p split]; cbn [run_task weight].
  - intros [= <- <-]. destruct cfg as [cc|]; [destruct nb|]; cbn; lia.
  - unfold building. destruct (abw_state (work_pool w)) as [st|]; cbn; [|done]. intros [= <- <-]. destruct cfg as [cc|]; [destruct st|]; cbn; lia.
  - intros [= <- <-]. cbn. lia.
  - unfold assembling. destruct (build_job _ _ _ _) as [[b|e]|]; cbn; [| |done]; intros [= <- <-]; destruct what as [|[]]; cbn; lia.
  - intros E. apply (inj Some) in E. destruct kinds as [|kind kinds]; cbn [publishing] in E; [injection E as <- <-; cbn; lia|].
    destruct (publish (work_jobs w) j kind now) as [t2 []]; injection E as <- <-; [destruct kinds|]; cbn; lia.
  - unfold requesting. destruct (request_coinbaser _ _ _ _) as [p asked]. intros [= <- <-]. destruct asked, nb; cbn; lia.
  - intros [= <- <-]. unfold on_coinbaser. destruct (negb _); cbn; lia.
  - intros [= <- <-]. unfold reading_config. destruct (negb _ && _ && _); cbn; lia.
Qed.

(** While the threads run, no task but the first of a template moves the tip. *)
Record underway (t : Template) (cfg : option ClientConfig) (s : System) : Prop := {
  uw_session : Forall plain (session_thread s);
  uw_template : template_thread s = [OnTemplate t true cfg] \/
    (Forall plain (template_thread s) /\ table_tip (work_jobs (work s)) = Some (tmpl_prev_hash t) /\
     (served t cfg (work s) \/ exists k, head (template_thread s) = Some k /\ works_on t cfg k));
}.

Lemma underway_same t cfg s s2 : underway t cfg s -> work_jobs (work s2) = work_jobs (work s) ->
  template_thread s2 = template_thread s -> Forall plain (session_thread s2) -> underway t cfg s2.
Proof. intros [_ Ht] E1 E2 Hp. split; [done|]. unfold served in *. by rewrite E1, E2. Qed.

Lemma underway_step t cfg s s2 : underway t cfg s -> thread_step s s2 -> underway t cfg s2.
Proof.
  intros Hu Hstep. pose proof Hu as [Hs Ht].
  destruct Hstep as [k ks w new unix now E Er|k ks w new unix now E Er|r E Er|plain0 ss tld E Eh|now ss tld E Eh|E|p Ep Eb];
    try (by eapply underway_same).
  - destruct (run_task_plain _ _ _ _ _ _ Er) as [Hnew Htip]. split; [done|]. right. cbn [template_thread work].
    destruct Ht as [Ht|(Hp & Etip & Hd)].
    + rewrite E in Ht. injection Ht as -> ->. cbn [run_task] in Er. injection Er as <- <-. rewrite app_nil_r. split; [done|]. split; [done|].
      right. destruct cfg as [cc|]; eexists; (split; [done|done]).
    + rewrite E in Hp, Hd. apply Forall_cons in Hp as [Hk Hp]. split; [by apply Forall_app|]. split; [by rewrite Htip|].
      destruct Hd as [Hd|(k2 & [= <-] & Hd)]; [left; by eapply run_served|].
      destruct (run_works t cfg (work s) k unix now w new Etip Hd Er) as [|(k2 & Hk2 & Hw)]; [by left|]. right. exists k2. split; [|done].
      by destruct new.
  - destruct (run_task_plain _ _ _ _ _ _ Er) as [Hnew Htip]. rewrite E in Hs. apply Forall_cons in Hs as [Hk Hks].
    split; [by apply Forall_app|]. cbn [template_thread work]. destruct Ht as [Ht|(Hp & Etip & Hd)]; [by left|right].
    split; [done|]. split; [by rewrite Htip|]. destruct Hd as [Hd|Hd]; [left; by eapply run_served|by right].
  - eapply underway_same; [done|done|done|]. cbn. destruct tld as [[]|]; [by apply Forall_singleton|by apply Forall_nil].
  - eapply underway_same; [done|done|done|]. cbn. destruct tld; [by apply Forall_singleton|by apply Forall_nil].
Qed.

Lemma session_plain s s2 : Forall plain (session_thread s) -> system_step s s2 -> Forall plain (session_thread s2).
Proof.
  intros Hs [s3 Hstep|]; [|done].
  destruct Hstep as [k ks w new unix now E Er|k ks w new unix now E Er|r E Er|plain0 ss tld E Eh|now ss tld E Eh|E|p Ep Eb]; try done.
  - destruct (run_task_plain _ _ _ _ _ _ Er) as [Hnew _]. rewrite E in Hs. apply Forall_cons in Hs as [_ Hs]. by apply Forall_app.
  - cbn. destruct tld as [[]|]; [by apply Forall_singleton|by apply Forall_nil].
  - cbn. destruct tld; [by apply Forall_singleton|by apply Forall_nil].
Qed.

Lemma session_plain_star s s2 : Forall plain (session_thread s) -> rtc system_step s s2 -> Forall plain (session_thread s2).
Proof. intros Hs Hrun. induction Hrun as [|x y z Hxy _ IH]; [done|]. by apply IH, (session_plain x). Qed.

Lemma underway_star t cfg s s2 : underway t cfg s -> rtc thread_step s s2 -> underway t cfg s2.
Proof. intros Hs Hrun. induction Hrun as [|x y z Hxy _ IH]; [done|]. by apply IH, (underway_step t cfg x). Qed.

(** A new tip reaches the miners. Whatever the session thread does meanwhile, once the
    template thread is through with a template that starts a new block, work on its tip is
    served, or the work of every other tip is stale because the pool has yet to commit to a
    key, or no job of the template can be built; nothing published since is on another
    tip. And it is through after at most twelve steps of its own. *)
Theorem new_tip_is_served (s0 s : System) (capacity n : nat) (keep0 : Z) (t : Template) (cfg : option ClientConfig) :
  rtc system_step (system_new (pool_new capacity) n keep0) s0 -> template_thread s0 = [OnTemplate t true cfg] ->
  rtc thread_step s0 s ->
  (template_thread s = [] -> table_tip (work_jobs (work s)) = Some (tmpl_prev_hash t) /\ served t cfg (work s)) /\
  (todo (template_thread s0) <= 12)%nat /\
  forall k ks unix_now now w new, template_thread s = k :: ks -> run_task (work s) k unix_now now = Some (w, new) ->
    (todo (new ++ ks) < todo (template_thread s))%nat.
Proof.
  intros Hreach E0 Hrun.
  assert (Forall plain (session_thread s0)) as Hp0 by (eapply session_plain_star; [|exact Hreach]; by apply Forall_nil).
  split_and!.
  - intros Ee. assert (underway t cfg s0) as Hu by (split; [done|by left]).
    destruct (underway_star t cfg s0 s Hu Hrun) as [_ Ht].
    rewrite Ee in Ht. destruct Ht as [|(_ & Htip & [Hd|(k & ? & _)])]; done.
  - by rewrite E0.
  - intros k ks unix_now now w new E Er. apply run_task_shrinks in Er. rewrite E. unfold todo in *. rewrite sum_list_with_app. cbn. lia.
Qed.

(** The template thread alone, step by step. *)
Fixpoint run_template (k : nat) (s : System) (unix_now now : Z) : option System :=
  match k, template_thread s with
  | O, _ => Some s
  | S k, task :: rest =>
    '(w, new) ← run_task (work s) task unix_now now;
    run_template k {| work := w; template_thread := new ++ rest; session_thread := session_thread s |} unix_now now
  | S _, [] => None
  end.

Lemma run_template_steps k s unix_now now s2 : run_template k s unix_now now = Some s2 -> nsteps thread_step k s s2.
Proof.
  revert s. induction k as [|k IH]; intros s; cbn; [intros [= ->]; apply nsteps_O|].
  destruct (template_thread s) as [|task rest] eqn:E; [done|]. destruct (run_task (work s) task unix_now now) as [[w new]|] eqn:Er; [|done].
  cbn. intros Hr. eapply nsteps_l; [by eapply template_runs|by apply IH].
Defined.

Lemma threads_are_steps k s s2 : nsteps thread_step k s s2 -> nsteps system_step k s s2.
Proof. induction 1 as [|k x y z Hxy _ IH]; [apply nsteps_O|]. eapply nsteps_l; [by apply threads_run|done]. Defined.
End publishing.

(** ** A notification that asks for nothing takes a refresh with it *)

(** [wait] reports a refresh together with a block notification as the notification; where
    the poller ignores that one, no template is fetched and the refresh is gone. *)
Lemma refresh_lost_with_notification (w : PendingWakes) (p : Poller) (hash_hex : bytes) (now : Z) :
  wake_block w = None -> rebuild_requested w = false -> poller_served p = Some hash_hex ->
  let '(left_, wake) := take_wake (raise_block (request_refresh w) (Some hash_hex)) in
  left_ = wakes_default /\ on_wake p wake now = (p, Nothing).
Proof.
  intros Hb Hr Hs. unfold take_wake, raise_block, request_refresh. cbn [wake_block rebuild_requested refresh_requested]. rewrite Hb, Hr.
  split; [done|]. cbn [on_wake pending_hash on_block_notification]. rewrite Hs. by rewrite bool_decide_eq_true_2.
Qed.

(** ** An example: the first template of a gateway without a pool *)

Definition example_start : System := system_new (pool_new 10) 256 (from_secs 300).

Definition example_fetched : System :=
  {| work := work example_start;
     template_thread := [OnTemplate example_template (starts_block (work_jobs (work example_start)) example_template false) None];
     session_thread := [] |}.

Definition example_published : option System := run_template (H := example_digests) example_job_config 5 example_fetched 1700000100 5.

Lemma example_published_spec : exists s p, example_published = Some s /\ template_thread s = [] /\ current (work_jobs (work s)) = Some p /\
  serial (pub_job p) = 0.
Proof.
  assert (from_option (fun s => bool_decide (length (template_thread s) = 0%nat) &&
    from_option (fun p => serial (pub_job p) =? 0) false (current (work_jobs (work s)))) false example_published = true) as E by (vm_compute; reflexivity).
  destruct example_published as [s|]; [|discriminate]. cbn [from_option] in E. apply andb_true_iff in E as [E1 E2].
  destruct (current (work_jobs (work s))) as [p|] eqn:Ep; [|discriminate]. exists s, p. split_and!; [done| |done|by apply Z.eqb_eq].
  apply bool_decide_eq_true_1 in E1. by apply nil_length_inv.
Defined.

Lemma example_fetches : system_step (H := example_digests) example_job_config example_start example_fetched.
Proof. apply (template_fetched (H := example_digests) example_job_config example_start example_template false None); [reflexivity|exact example_template_wf]. Defined.

Lemma published_work_is_sound_witness : exists s p, example_published = Some s /\
  current (work_jobs (work s)) = Some p /\ job_at (work_jobs (work s)) 0 = Some (pub_job p).
Proof.
  destruct example_published_spec as (s & p & E & _ & Ep & Es). exists s, p. split; [exact E|]. split; [exact Ep|].
  destruct (published_work_is_sound (H := example_digests) example_job_config 10 256 (from_secs 300) 6 s) as (Hsound & _ & Hcur & _); [reflexivity|lia|lia| |].
  - eapply nsteps_l; [exact example_fetches|]. apply threads_are_steps. by eapply run_template_steps.
  - specialize (Hcur p Ep). assert (slot (pub_job p) = 0) as Eslot; [|rewrite Eslot in Hcur; exact Hcur].
    destruct (Hsound (pub_job p)) as [(i & Hb & _) _].
    + unfold all_jobs. apply elem_jobs_of. right; left. by exists p.
    + rewrite (jb_slot _ _ _ Hb), <- (jb_serial _ _ _ Hb), Es. reflexivity.
Defined.

Lemma new_tip_is_served_witness : exists s, example_published = Some s /\
  table_tip (work_jobs (work s)) = Some (tmpl_prev_hash example_template).
Proof.
  destruct example_published_spec as (s & p & E & Et & _ & _). exists s. split; [exact E|].
  destruct (new_tip_is_served (H := example_digests) example_job_config example_fetched s 10 256 (from_secs 300) example_template None)
    as [Hs _]; [|reflexivity| |by apply Hs].
  - apply rtc_once. exact example_fetches.
  - eapply rtc_nsteps_2, run_template_steps. exact E.
Defined.
