(* ===== verification/SeenShares.v ===== *)
(** The hashes the gateway has already accepted ([gateway/src/seen_shares.rs]) and the
    blocks it has already found ([first_find] of [gateway.rs]): a table of the shares of
    jobs inside the stale window, which grows only when dropping the others frees too
    little, and the newest blocks. *)
From S2P Require Import Prelude Bitcoin AbwSlots.

Definition MIN_CAPACITY : Z := 1024.
Definition MIN_FREED_PERCENT : Z := 5.
Definition GROWTH_PERCENT : Z := 25.

Record SeenShareHashes := { seen : gmap bytes Z; seen_capacity : Z; seen_window : Z }.

Definition seen_new (capacity window : Z) : SeenShareHashes :=
  {| seen := ∅; seen_capacity := Z.max capacity MIN_CAPACITY; seen_window := window |}.

(** [retain]: the shares of jobs inside the window. *)
Definition still_fresh (window now : Z) (m : gmap bytes Z) : gmap bytes Z :=
  filter (fun e => duration_since now e.2 <= window) m.

Definition seen_insert (s : SeenShareHashes) (h : bytes) (job_created_at now : Z) : SeenShareHashes * bool :=
  if is_some (seen s !! h) then (s, false) else
  let held := Z.of_nat (size (seen s)) in
  let s :=
    if seen_capacity s <=? held then
      let kept := still_fresh (seen_window s) now (seen s) in
      let freed := held - Z.of_nat (size kept) in
      {| seen := kept;
         seen_capacity := if freed <? wrap 64 (seen_capacity s * MIN_FREED_PERCENT) / 100
                          then wrap 64 (seen_capacity s + wrap 64 (seen_capacity s * GROWTH_PERCENT) / 100)
                          else seen_capacity s;
         seen_window := seen_window s |}
    else s in
  ({| seen := <[h := job_created_at]> (seen s); seen_capacity := seen_capacity s; seen_window := seen_window s |}, true).

Definition MAX_FOUND_BLOCKS : nat := 64.

Definition first_find (found : list bytes) (hash : bytes) : list bytes * bool :=
  if bool_decide (hash ∈ found) then (found, false)
  else ((if (MAX_FOUND_BLOCKS <=? length found)%nat then tail found else found) ++ [hash], true).

(** ** Shares over time *)

(** A share as [check_share] takes it: the hash, when its job was created, when its age
    was read and when the table was locked for it. *)
Record Attempt := { at_hash : bytes; at_created : Z; at_checked : Z; at_inserted : Z }.

(** The checks of a share's age and hash. *)
Definition attempt (s : SeenShareHashes) (a : Attempt) : SeenShareHashes * bool :=
  if seen_window s <? duration_since (at_checked a) (at_created a) then (s, false)
  else seen_insert s (at_hash a) (at_created a) (at_inserted a).

Fixpoint attempts (s : SeenShareHashes) (l : list Attempt) : SeenShareHashes * list bool :=
  match l with
  | [] => (s, [])
  | a :: l => let '(s, v) := attempt s a in let '(s, vs) := attempts s l in (s, v :: vs)
  end.

Lemma still_fresh_lookup w now m h c : still_fresh w now m !! h = Some c <-> m !! h = Some c /\ duration_since now c <= w.
Proof. unfold still_fresh. by rewrite map_lookup_filter_Some. Qed.

Lemma still_fresh_size w now m : (size (still_fresh w now m) <= size m)%nat.
Proof. apply map_subseteq_size, map_filter_subseteq. Qed.

(** The table stays within its capacity, and grows by a quarter when more than
    nineteen in twenty of its shares are fresh. *)
Record table_fits (n : Z) (s : SeenShareHashes) : Prop := {
  tf_size : Z.of_nat (size (seen s)) <= seen_capacity s;
  tf_capacity : MIN_CAPACITY <= seen_capacity s < 2 ^ 56;
  tf_seen : Z.of_nat (size (seen s)) <= n;
}.

Lemma seen_insert_fits n s h c now : table_fits n s -> 0 <= n < 2 ^ 55 ->
  let '(s2, v) := seen_insert s h c now in
  table_fits (n + 1) s2 /\ seen_window s2 = seen_window s /\
  (seen_capacity s2 = seen_capacity s \/
   (seen_capacity s2 = seen_capacity s + seen_capacity s / 4 /\
    19 * seen_capacity s < 20 * Z.of_nat (size (still_fresh (seen_window s) now (seen s))) + 20)) /\
  (forall k x, seen s !! k = Some x -> duration_since now x <= seen_window s -> seen s2 !! k = Some x).
Proof.
  intros [Hs [Hc1 Hc2] Hn] Hn2. unfold MIN_CAPACITY in *. unfold seen_insert. destruct (seen s !! h) as [x|] eqn:E.
  { cbn [is_some]. split_and!; [split; unfold MIN_CAPACITY; lia|done|by left|done]. }
  cbn [is_some]. destruct (Z.leb_spec (seen_capacity s) (Z.of_nat (size (seen s)))) as [Hfull|Hroom].
  - set (kept := still_fresh _ _ _). pose proof (still_fresh_size (seen_window s) now (seen s)) as Hk. fold kept in Hk.
    assert (kept !! h = None) as Eh. { destruct (kept !! h) eqn:Ek; [|done]. apply still_fresh_lookup in Ek as [Ek _]. congruence. }
    rewrite (wrap_small 64 (_ * MIN_FREED_PERCENT)) by (unfold uint, MIN_FREED_PERCENT; lia).
    rewrite (wrap_small 64 (_ * GROWTH_PERCENT)) by (unfold uint, GROWTH_PERCENT; lia).
    assert (seen_capacity s * GROWTH_PERCENT / 100 = seen_capacity s / 4) as -> by (unfold GROWTH_PERCENT; change 100 with (25 * 4); rewrite Z.mul_comm; by rewrite Z.div_mul_cancel_l).
    assert (seen_capacity s * MIN_FREED_PERCENT / 100 = seen_capacity s / 20) as -> by (unfold MIN_FREED_PERCENT; change 100 with (5 * 20); rewrite Z.mul_comm; by rewrite Z.div_mul_cancel_l).
    pose proof (Z.mul_div_le (seen_capacity s) 4 ltac:(lia)). pose proof (Z.mul_div_le (seen_capacity s) 20 ltac:(lia)).
    pose proof (Z.mul_succ_div_gt (seen_capacity s) 4 ltac:(lia)). pose proof (Z.mul_succ_div_gt (seen_capacity s) 20 ltac:(lia)).
    rewrite wrap_small by (unfold uint; lia).
    split_and!; cbn.
    + assert (size (<[h := c]> kept) = S (size kept)) as Hsz by (by apply map_size_insert_None).
      split; cbn; rewrite ?Hsz; destruct (Z.ltb_spec (Z.of_nat (size (seen s)) - Z.of_nat (size kept)) (seen_capacity s / 20)); unfold MIN_CAPACITY; lia.
    + done.
    + destruct (Z.ltb_spec (Z.of_nat (size (seen s)) - Z.of_nat (size kept)) (seen_capacity s / 20)); [right; split; [done|lia]|by left].
    + intros k x Hx Hf. rewrite lookup_insert_ne by congruence. by apply still_fresh_lookup.
  - split_and!; cbn; [|done|by left|].
    + assert (size (<[h := c]> (seen s)) = S (size (seen s))) as Hsz by (by apply map_size_insert_None).
      split; cbn; rewrite ?Hsz; unfold MIN_CAPACITY; lia.
    + intros k x Hx _. by rewrite lookup_insert_ne by congruence.
Qed.

Lemma seen_insert_verdict s h c now : let '(s2, v) := seen_insert s h c now in
  if v then seen s !! h = None /\ seen s2 !! h = Some c else seen s !! h <> None /\ s2 = s.
Proof. unfold seen_insert. destruct (seen s !! h) eqn:E; cbn; [done|]. split; [done|]. apply lookup_insert_eq. Qed.

(** A share that is taken by a table with no room makes it drop what is past the window. *)
Definition prunes (s : SeenShareHashes) (a : Attempt) : Prop :=
  (attempt s a).2 = true /\ seen_capacity s <= Z.of_nat (size (seen s)).

(** What survives a share: an entry is dropped only where the table is full, and only
    when its job is past the window. *)
Lemma attempt_keeps s a h c : seen s !! h = Some c ->
  seen (attempt s a).1 !! h = Some c \/ (prunes s a /\ seen_window s < duration_since (at_inserted a) c).
Proof.
  intros Hh. unfold prunes, attempt, seen_insert. case_match; [by left|]. destruct (seen s !! at_hash a) eqn:E; cbn [is_some]; [by left|].
  assert (at_hash a <> h) by congruence. destruct (Z.leb_spec (seen_capacity s) (Z.of_nat (size (seen s)))) as [Hfull|]; cbn;
    rewrite lookup_insert_ne by done; [|by left].
  destruct (Z.le_gt_cases (duration_since (at_inserted a) c) (seen_window s)) as [Hf|]; [left|by right].
  by apply still_fresh_lookup.
Qed.

Lemma attempt_window s a : seen_window (attempt s a).1 = seen_window s.
Proof. unfold attempt, seen_insert. by repeat (case_match; cbn in *). Qed.

(** An accepted share was inside the window, not in the table, and is in it afterwards. *)
Lemma attempt_accepted s a : (attempt s a).2 = true ->
  duration_since (at_checked a) (at_created a) <= seen_window s /\ seen s !! at_hash a = None /\
  seen (attempt s a).1 !! at_hash a = Some (at_created a).
Proof.
  unfold attempt, seen_insert. destruct (Z.ltb_spec (seen_window s) (duration_since (at_checked a) (at_created a))); [done|].
  destruct (seen s !! at_hash a) eqn:E; cbn [is_some]; [done|]. intros _. split_and!; [done|done|]. cbn. apply lookup_insert_eq.
Qed.

Lemma attempt_fits n s a : table_fits n s -> 0 <= n < 2 ^ 55 -> table_fits (n + 1) (attempt s a).1.
Proof.
  intros Hf Hn. unfold attempt. case_match; [destruct Hf; split; cbn; lia|].
  pose proof (seen_insert_fits n s (at_hash a) (at_created a) (at_inserted a) Hf Hn) as Hi. destruct (seen_insert _ _ _ _). apply Hi.
Qed.

Lemma attempts_cons s a l : attempts s (a :: l) =
  ((attempts (attempt s a).1 l).1, (attempt s a).2 :: (attempts (attempt s a).1 l).2).
Proof. cbn. destruct (attempt s a) as [s1 v]. cbn. by destruct (attempts s1 l). Qed.

Lemma attempts_fit l : forall n s, table_fits n s -> 0 <= n -> n + Z.of_nat (length l) < 2 ^ 55 ->
  table_fits (n + Z.of_nat (length l)) (attempts s l).1.
Proof.
  induction l as [|a l IH]; intros n s Hf Hn Hl; [cbn; by rewrite Z.add_0_r|]. rewrite attempts_cons. cbn [fst]. rewrite length_cons in *.
  replace (n + Z.of_nat (S (length l))) with (n + 1 + Z.of_nat (length l)) by lia.
  apply IH; [apply attempt_fits; [done|lia]|lia|lia].
Qed.

(** A hash in the table is accepted again only after a share that found its job past
    the window. *)
Lemma attempts_remember l : forall s k h c b, seen s !! h = Some c -> l !! k = Some b -> at_hash b = h ->
  (attempts s l).2 !! k = Some true ->
  duration_since (at_checked b) (at_created b) <= seen_window s /\
  exists m d, (m < k)%nat /\ l !! m = Some d /\ prunes (attempts s (take m l)).1 d /\
    seen_window s < duration_since (at_inserted d) c.
Proof.
  induction l as [|a l IH]; intros s k h c b Hs Hl Hb Hv; [done|]. rewrite attempts_cons in Hv. cbn [snd] in Hv. destruct k as [|k]; cbn in Hl, Hv.
  - apply (inj Some) in Hl as ->, Hv. apply attempt_accepted in Hv as (_ & Hv & _). congruence.
  - destruct (attempt_keeps s a h c Hs) as [Hk|[Hp Hd]].
    + destruct (IH _ _ _ _ _ Hk Hl Hb Hv) as (Hw & m & d & Hm & Hd & Hp & Hold). rewrite attempt_window in Hw, Hold. split; [done|].
      exists (S m), d. cbn [take]. rewrite attempts_cons. split_and!; [lia|done|done|done].
    + split; [|exists 0%nat, a; split_and!; [lia|done|done|done]]. clear -Hl Hv. rewrite <- (attempt_window s a). revert Hl Hv.
      generalize (attempt s a).1 as t. revert k. induction l as [|x l IH]; intros k t Hl Hv; [done|]. rewrite attempts_cons in Hv. destruct k as [|k]; cbn in Hl, Hv.
      * apply (inj Some) in Hl as ->, Hv. by apply attempt_accepted in Hv as (Hv & _ & _).
      * rewrite <- (attempt_window t x). by apply (IH k).
Qed.

Lemma attempts_once l : forall s i k a b, l !! i = Some a -> l !! k = Some b -> (i < k)%nat -> at_hash a = at_hash b ->
  (attempts s l).2 !! i = Some true -> (attempts s l).2 !! k = Some true ->
  duration_since (at_checked b) (at_created b) <= seen_window s /\
  exists m d, (i < m < k)%nat /\ l !! m = Some d /\ prunes (attempts s (take m l)).1 d /\
    seen_window s < duration_since (at_inserted d) (at_created a).
Proof.
  induction l as [|x l IH]; intros s i k a b Hi Hk Hik Hab Hvi Hvk; [done|]. rewrite attempts_cons in Hvi, Hvk. cbn [snd] in Hvi, Hvk.
  destruct k as [|k]; [lia|]. destruct i as [|i]; cbn in Hi, Hk, Hvi, Hvk.
  - apply (inj Some) in Hi as ->, Hvi. apply attempt_accepted in Hvi as (_ & _ & Hs).
    destruct (attempts_remember _ _ _ _ _ _ Hs Hk (eq_sym Hab) Hvk) as (Hw & m & d & Hm & Hd & Hp & Hold). rewrite attempt_window in Hw, Hold.
    split; [done|]. exists (S m), d. cbn [take]. rewrite attempts_cons. split_and!; [lia|lia|done|done|done].
  - destruct (IH _ _ _ _ _ Hi Hk ltac:(lia) Hab Hvi Hvk) as (Hw & m & d & Hm & Hd & Hp & Hold). rewrite attempt_window in Hw, Hold.
    split; [done|]. exists (S m), d. cbn [take]. rewrite attempts_cons. split_and!; [lia|lia|done|done|done].
Qed.

Lemma attempts_at l : forall s m d, l !! m = Some d ->
  (attempts s l).2 !! m = Some (attempt (attempts s (take m l)).1 d).2.
Proof.
  induction l as [|a l IH]; intros s [|m] d Hd; try done.
  - by injection Hd as ->; rewrite attempts_cons.
  - cbn [take]. rewrite !attempts_cons. by apply IH.
Qed.

Lemma seen_new_fits capacity window : 0 <= capacity < 2 ^ 56 -> table_fits 0 (seen_new capacity window).
Proof. intros Hc. split; cbn; rewrite ?map_size_empty; unfold MIN_CAPACITY; lia. Qed.

(** C22: Over any sequence of fewer than 2^55 shares, the duplicate table stays within its
    capacity and holds no more than the shares taken, and a hash is accepted a second time
    only when a share between the two was accepted into a table that was full, and by then
    the first one's job was past the stale window. A repeat on the same job therefore has
    its age read before that pruning: when each share's age is read after the earlier
    shares were inserted, it is never accepted. *)
Theorem share_counts_once capacity window l : 0 <= capacity < 2 ^ 56 -> Z.of_nat (length l) < 2 ^ 55 ->
  let '(s, vs) := attempts (seen_new capacity window) l in
  table_fits (Z.of_nat (length l)) s /\
  forall i k a b, l !! i = Some a -> l !! k = Some b -> (i < k)%nat -> at_hash a = at_hash b ->
    vs !! i = Some true -> vs !! k = Some true ->
    (exists m d, (i < m < k)%nat /\ l !! m = Some d /\ vs !! m = Some true /\
      (let t := (attempts (seen_new capacity window) (take m l)).1 in seen_capacity t <= Z.of_nat (size (seen t))) /\
      window < duration_since (at_inserted d) (at_created a) /\
      (at_created b = at_created a -> at_checked b < at_inserted d)).
Proof.
  intros Hc Hl. pose proof (attempts_fit l 0 _ (seen_new_fits capacity window Hc) ltac:(lia) ltac:(lia)) as Hf.
  pose proof (attempts_once l (seen_new capacity window)) as Ho. pose proof (attempts_at l (seen_new capacity window)) as Hat.
  destruct (attempts (seen_new capacity window) l) as [s vs]. cbn [fst snd] in Hf, Ho, Hat. split; [done|].
  intros i k a b Hi Hk Hik Hab Hvi Hvk. destruct (Ho _ _ _ _ Hi Hk Hik Hab Hvi Hvk) as (Hw & m & d & Hm & Hd & [Hp Hfull] & Hold).
  exists m, d. split_and!; [lia|lia|done|by rewrite (Hat _ _ Hd), Hp|done|done|]. intros Hcr. rewrite Hcr in Hw. unfold duration_since in *. lia.
Qed.

Definition repeated_shares : list Attempt :=
  [{| at_hash := [Byte.x01]; at_created := 0; at_checked := 5; at_inserted := 6 |};
   {| at_hash := [Byte.x01]; at_created := 0; at_checked := 7; at_inserted := 8 |}].

Lemma share_counts_once_witness : (0 <= 1024 < 2 ^ 56 /\ Z.of_nat (length repeated_shares) < 2 ^ 55) /\
  let '(s, vs) := attempts (seen_new 1024 160) repeated_shares in
  vs = [true; false] /\ table_fits (Z.of_nat (length repeated_shares)) s.
Proof.
  split; [split; [lia|by vm_compute]|].
  pose proof (share_counts_once 1024 160 repeated_shares ltac:(lia) ltac:(by vm_compute)) as Ht.
  destruct (attempts _ _) as [s vs] eqn:E. assert (vs = [true; false]) as ->.
  { change vs with (s, vs).2. rewrite <- E. by vm_compute. }
  split; [done|exact (proj1 Ht)].
Defined.
