(* ===== verification/Client.v ===== *)
(** A stratum client's connection ([gateway/src/stratum/connection.rs], with
    [connection/shares.rs], and [found_block] of [submit_block.rs] up to what it submits):
    the requests it answers, the work it is sent, the checks a share must pass and the
    idle limits. A handler is a computation over the connection, what the gateway shares
    and what has been sent: it may read the clock, whose every reading is another, and
    ends the connection where a line cannot be written. What other threads do comes
    between two requests. *)
From S2P Require Import Prelude Text Reader Bitcoin Utf8 Hex Address Target Header Messages ShareMsg AbwSlots Config.
From S2P Require Import StratumDifficulty Vardiff NotifyId Validation Json Template GatewayAbw GatewayJob GatewayPool GatewayUser SeenShares.

(** ** What is configured *)

Record StratumConfig := {
  vardiff_params : VardiffParams;
  idle_timeout_no_subscribe : Z;
  idle_timeout_no_shares : Z;
  idle_timeout_max_last_work : Z;
  require_address_username : bool;
  username_modifiers : list UsernameModifier;
  mining_pool_address : bytes;
  stale_window : Z;
}.

Definition CLIENT_BUFFER : Z := 16384 * 3 + 1024.
Definition MAX_REQUEST_ID_CHARS : nat := 64.
Definition MAX_USER_AGENT_CHARS : nat := 127.
Definition MAX_USERNAME_CHARS : nat := 191.
Definition IDLE_CHECK_INTERVAL : Z := 11150 * 10 ^ 6.
Definition FIRST_IDLE_CHECK_DELAY : Z := from_secs 10.
Definition SESSION_ID_XOR : Z := 0xB10CF00D.
Definition HASHRATE_WINDOW : Z := from_secs 60.
Definition EXTRANONCE1_SIZE : nat := HEADER_EXTRANONCE_PAD + 4.
Definition EXTRANONCE2_SIZE : nat := HEADER_EXTRANONCE_SIZE - EXTRANONCE1_SIZE.

Record StratumError := { code : Z; message : bytes }.

Definition UNKNOWN_WORK : StratumError := {| code := 20; message := text "unknown-work" |}.
Definition STALE_WORK : StratumError := {| code := 21; message := text "stale-work" |}.
Definition STALE_PREVBLK : StratumError := {| code := 21; message := text "stale-prevblk" |}.
Definition DUPLICATE : StratumError := {| code := 22; message := text "duplicate" |}.
Definition HIGH_HASH : StratumError := {| code := 23; message := text "high-hash" |}.
Definition UNAUTHORIZED_WORKER : StratumError := {| code := 24; message := text "unauthorized-worker" |}.
Definition METHOD_NOT_FOUND : StratumError := {| code := -3; message := text "Method not found" |}.

(** The reasons of [Protocol], for its texts. *)
Inductive ProtocolError :=
| BufferOverrun | NotAnObject | BadJson | NoMethod | EmptyMethod | MethodNotAString | NoId | IdTooLong | NoParams
| NoExtensionList | NoOptions.
Inductive IdleReason := NotSubscribing | NoAcceptedShare | NoShare.
Inductive Disconnect := Io | Protocol (why : ProtocolError) | IdleFor (what : IdleReason) | Killed.

(** ** The lines it is sent *)

Inductive Answer :=
| ANull
| ABool (b : bool)
| ASubscription (ids : list (bytes * bytes)) (extranonce1 : bytes) (extranonce2_size : nat)
| AExtensions (refused : list bytes).

(** The parameters of a [mining.notify], the two empty strings and the empty list of
    branches left out. *)
Record Notify := {
  n_id : bytes;
  n_prevblock_hidden : bytes;
  n_coinb1 : bytes;
  n_nbits : bytes;
  n_ntime : bytes;
  n_clean : bool;
}.

Inductive Line :=
| Reply (error : option StratumError) (id : bytes) (result : Answer)
| SetDifficulty (announced : bytes)
| NotifyLine (n : Notify).

(** What leaves the connection's thread: a line, or a block for the nodes. *)
Inductive Out := Sent (l : Line) | BlockFound (block : bytes) (hash_hex : bytes).

(** ** The connection *)

(** [ClientStats], the address of the peer and the rate that was measured left out. *)
Record ClientStats := {
  user_agent : bytes;
  stats_username : bytes;
  subscribed_at : option Z;
  current_diff : Z;
  shares : ShareTallies;
  last_accepted_at : option Z;
}.

Definition subscribed (s : ClientStats) : bool := is_some (subscribed_at s).

(** [Connection], the socket left out; [kill_requested] is of its entry, and [buf] is
    what [serve] has read past the last line. *)
Record Connection := {
  sid : Z;
  vardiff : Vardiff;
  job_diffs : list (option Z);
  sent_sequence : option Z;
  notified_prev_hash : option bytes;
  connected_at : Z;
  diff_since_window_start : Z;
  window_started_at : Z;
  next_idle_check : Z;
  stats : ClientStats;
  kill_requested : bool;
  buf : bytes;
}.

(** [run] up to [serve]. *)
Definition connection_new (cfg : StratumConfig) (unique_id now : Z) : Connection :=
  {| sid := Z.lxor (wrap 32 unique_id) SESSION_ID_XOR; vardiff := vardiff_new (vardiff_params cfg) now;
     job_diffs := replicate (Z.to_nat MAX_JOBS) None; sent_sequence := None; notified_prev_hash := None;
     connected_at := now; diff_since_window_start := 0; window_started_at := now;
     next_idle_check := now + FIRST_IDLE_CHECK_DELAY;
     stats := {| user_agent := []; stats_username := []; subscribed_at := None;
                 current_diff := Vardiff.min (vardiff_params cfg);
                 shares := {| accepted := tally_zero; rejected := tally_zero |}; last_accepted_at := None |};
     kill_requested := false; buf := [] |}.

Definition set_vardiff (v : Vardiff) (c : Connection) : Connection :=
  {| sid := sid c; vardiff := v; job_diffs := job_diffs c; sent_sequence := sent_sequence c;
     notified_prev_hash := notified_prev_hash c; connected_at := connected_at c;
     diff_since_window_start := diff_since_window_start c; window_started_at := window_started_at c;
     next_idle_check := next_idle_check c; stats := stats c; kill_requested := kill_requested c; buf := buf c |}.

Definition set_job_diff (slot diff : Z) (c : Connection) : Connection :=
  {| sid := sid c; vardiff := vardiff c; job_diffs := <[Z.to_nat slot := Some diff]> (job_diffs c);
     sent_sequence := sent_sequence c; notified_prev_hash := notified_prev_hash c; connected_at := connected_at c;
     diff_since_window_start := diff_since_window_start c; window_started_at := window_started_at c;
     next_idle_check := next_idle_check c; stats := stats c; kill_requested := kill_requested c; buf := buf c |}.

Definition set_sent_sequence (n : Z) (c : Connection) : Connection :=
  {| sid := sid c; vardiff := vardiff c; job_diffs := job_diffs c; sent_sequence := Some n;
     notified_prev_hash := notified_prev_hash c; connected_at := connected_at c;
     diff_since_window_start := diff_since_window_start c; window_started_at := window_started_at c;
     next_idle_check := next_idle_check c; stats := stats c; kill_requested := kill_requested c; buf := buf c |}.

Definition set_notified (prev_hash : bytes) (c : Connection) : Connection :=
  {| sid := sid c; vardiff := vardiff c; job_diffs := job_diffs c; sent_sequence := sent_sequence c;
     notified_prev_hash := Some prev_hash; connected_at := connected_at c;
     diff_since_window_start := diff_since_window_start c; window_started_at := window_started_at c;
     next_idle_check := next_idle_check c; stats := stats c; kill_requested := kill_requested c; buf := buf c |}.

Definition set_window (diff started : Z) (c : Connection) : Connection :=
  {| sid := sid c; vardiff := vardiff c; job_diffs := job_diffs c; sent_sequence := sent_sequence c;
     notified_prev_hash := notified_prev_hash c; connected_at := connected_at c;
     diff_since_window_start := diff; window_started_at := started;
     next_idle_check := next_idle_check c; stats := stats c; kill_requested := kill_requested c; buf := buf c |}.

Definition set_next_idle_check (at_ : Z) (c : Connection) : Connection :=
  {| sid := sid c; vardiff := vardiff c; job_diffs := job_diffs c; sent_sequence := sent_sequence c;
     notified_prev_hash := notified_prev_hash c; connected_at := connected_at c;
     diff_since_window_start := diff_since_window_start c; window_started_at := window_started_at c;
     next_idle_check := at_; stats := stats c; kill_requested := kill_requested c; buf := buf c |}.

Definition set_stats (s : ClientStats) (c : Connection) : Connection :=
  {| sid := sid c; vardiff := vardiff c; job_diffs := job_diffs c; sent_sequence := sent_sequence c;
     notified_prev_hash := notified_prev_hash c; connected_at := connected_at c;
     diff_since_window_start := diff_since_window_start c; window_started_at := window_started_at c;
     next_idle_check := next_idle_check c; stats := s; kill_requested := kill_requested c; buf := buf c |}.

Definition set_buf (b : bytes) (c : Connection) : Connection :=
  {| sid := sid c; vardiff := vardiff c; job_diffs := job_diffs c; sent_sequence := sent_sequence c;
     notified_prev_hash := notified_prev_hash c; connected_at := connected_at c;
     diff_since_window_start := diff_since_window_start c; window_started_at := window_started_at c;
     next_idle_check := next_idle_check c; stats := stats c; kill_requested := kill_requested c; buf := b |}.

Definition with_diff (d : Z) (s : ClientStats) : ClientStats :=
  {| user_agent := user_agent s; stats_username := stats_username s; subscribed_at := subscribed_at s; current_diff := d;
     shares := shares s; last_accepted_at := last_accepted_at s |}.
Definition with_username (u : bytes) (s : ClientStats) : ClientStats :=
  {| user_agent := user_agent s; stats_username := u; subscribed_at := subscribed_at s; current_diff := current_diff s;
     shares := shares s; last_accepted_at := last_accepted_at s |}.
Definition with_subscription (agent : bytes) (now : Z) (s : ClientStats) : ClientStats :=
  {| user_agent := agent; stats_username := stats_username s; subscribed_at := Some now; current_diff := current_diff s;
     shares := shares s; last_accepted_at := last_accepted_at s |}.
Definition with_accepted (diff now : Z) (s : ClientStats) : ClientStats :=
  {| user_agent := user_agent s; stats_username := stats_username s; subscribed_at := subscribed_at s;
     current_diff := current_diff s;
     shares := {| accepted := tally_add (accepted (shares s)) diff; rejected := rejected (shares s) |};
     last_accepted_at := Some now |}.
Definition with_rejected (diff : Z) (s : ClientStats) : ClientStats :=
  {| user_agent := user_agent s; stats_username := stats_username s; subscribed_at := subscribed_at s;
     current_diff := current_diff s;
     shares := {| accepted := accepted (shares s); rejected := tally_add (rejected (shares s)) diff |};
     last_accepted_at := last_accepted_at s |}.

(** ** The computation of a handler *)

(** What the gateway shares with every connection. *)
Record Gateway := { gw_jobs : JobTable; gw_pool : PoolState; seen_share_hashes : SeenShareHashes; found_blocks : list bytes }.

(** [io_budget] is how many lines the socket still takes, where it fails at one;
    [clock_reads] is how many times the clock was read. *)
Record World := {
  connection : Connection;
  gateway : Gateway;
  emitted : list Out;
  io_budget : option nat;
  clock_reads : nat;
}.

Definition M (A : Type) : Type := World -> World * result Disconnect A.
#[global] Instance M_ret : MRet M := fun A a w => (w, Ok a).
#[global] Instance M_bind : MBind M := fun A B k m w =>
  match m w with (w, Ok a) => k a w | (w, Err e) => (w, Err e) end.

Definition get : M World := fun w => (w, Ok w).
Definition disconnect {A} (e : Disconnect) : M A := fun w => (w, Err e).
Definition on_connection (f : Connection -> Connection) : M unit := fun w =>
  ({| connection := f (connection w); gateway := gateway w; emitted := emitted w; io_budget := io_budget w;
      clock_reads := clock_reads w |}, Ok tt).
Definition on_stats (f : ClientStats -> ClientStats) : M unit := on_connection (fun c => set_stats (f (stats c)) c).
Definition on_gateway {A} (f : Gateway -> Gateway * A) : M A := fun w =>
  let '(g, a) := f (gateway w) in
  ({| connection := connection w; gateway := g; emitted := emitted w; io_budget := io_budget w;
      clock_reads := clock_reads w |}, Ok a).
Definition emit (o : Out) : M unit := fun w =>
  ({| connection := connection w; gateway := gateway w; emitted := emitted w ++ [o]; io_budget := io_budget w;
      clock_reads := clock_reads w |}, Ok tt).

Definition take_hash (s : SeenShareHashes * bool) (g : Gateway) : Gateway * bool :=
  ({| gw_jobs := gw_jobs g; gw_pool := gw_pool g; seen_share_hashes := s.1; found_blocks := found_blocks g |}, s.2).
Definition take_found (s : list bytes * bool) (g : Gateway) : Gateway * bool :=
  ({| gw_jobs := gw_jobs g; gw_pool := gw_pool g; seen_share_hashes := seen_share_hashes g; found_blocks := s.1 |}, s.2).
Definition with_pool (p : PoolState) (g : Gateway) : Gateway :=
  {| gw_jobs := gw_jobs g; gw_pool := p; seen_share_hashes := seen_share_hashes g; found_blocks := found_blocks g |}.

(** [params.get(i).and_then(Value::as_str)]. *)
Definition str_at `{!Json} `{!JsonText} (params : value) (i : nat) : option bytes := get_at params i ≫= as_str.

Record SubmitRequest := {
  req_job : Job;
  req_job_diff : Z;
  req_notify_id : NotifyId;
  req_extranonce : bytes;
  req_sia_ntime : bytes;
  req_sia_nonce : bytes;
  req_username : bytes;
}.

Section connection.
Context `{Digests} `{!AddressCodec} `{!Json} `{!JsonText}.
Context (cfg : StratumConfig) (clock : nat -> Z).

Definition instant_now : M Z := fun w =>
  ({| connection := connection w; gateway := gateway w; emitted := emitted w; io_budget := io_budget w;
      clock_reads := S (clock_reads w) |}, Ok (clock (clock_reads w))).

(** A line, whole, or the connection ends. *)
Definition send_line (l : Line) : M unit := fun w =>
  match io_budget w with
  | Some O => (w, Err Io)
  | b => ({| connection := connection w; gateway := gateway w; emitted := emitted w ++ [Sent l]; io_budget := pred <$> b;
             clock_reads := clock_reads w |}, Ok tt)
  end.

Definition reply (id : bytes) (error : option StratumError) (result : Answer) : M unit := send_line (Reply error id result).
Definition reply_result (id : bytes) (result : Answer) : M unit := reply id None result.
Definition reply_error (id : bytes) (r : StratumError) : M unit := reply id (Some r) ANull.

Definition send_difficulty (d : Z) : M unit := on_stats (with_diff d);; send_line (SetDifficulty (format d)).

(** ** The work sent *)

(** The slot is a byte, inside [job_diffs]. *)
Definition notify (j : Job) (prefix : NotifyPrefix) (clean : bool) : M unit :=
  w ← get;
  let prev_hash := prev_of j in
  let clean := clean || negb (bool_decide (notified_prev_hash (connection w) = Some prev_hash)) in
  let quickdiff := bool_decide (prefix = Quickdiff) in
  let floor := if is_datum_job j then pool_min_difficulty (gw_pool (gateway w)) else 0 in
  now ← instant_now;
  let '(n, v) := on_notify (vardiff (connection w)) floor quickdiff now in
  on_connection (set_vardiff v);;
  match announce n with Some d => send_difficulty d | None => mret tt end;;
  (if quickdiff then mret tt else on_connection (set_job_diff (slot j) (diff n)));;
  let target_byte := floor_log2 (Z.max (diff n) 1) in
  match commitment j (coinbase_of prefix) target_byte with
  | None => disconnect Io
  | Some c =>
    on_connection (set_notified prev_hash);;
    send_line (NotifyLine
      {| n_id := notify_id prefix (job_stratum_id j); n_prevblock_hidden := hex_encode (job_prevblock_hidden j);
         n_coinb1 := mjoin (replicate COINB1_LEADING_ZEROS (text "00")) ++ hex_encode (commitment_h2 c);
         n_nbits := hex_fixed 8 (share_nbits target_byte); n_ntime := ntime_hex; n_clean := clean |})
  end.

Definition send_job (p : Publication) : M unit :=
  on_connection (set_sent_sequence (pub_sequence p));;
  let prefix := prefix_for (pub_kind p) in
  notify (pub_job p) prefix (bool_decide (prefix = EmptyWork)).

Definition send_current : M unit :=
  w ← get;
  match GatewayJob.current (gw_jobs (gateway w)) with Some p => send_job p | None => mret tt end.

(** ** The requests *)

Definition subscription (c : Connection) : Answer :=
  let sid := hex_fixed 8 (sid c) in
  ASubscription [(text "mining.notify", sid ++ text "1"); (text "mining.set_difficulty", sid ++ text "2")]
    (replicate (2 * HEADER_EXTRANONCE_PAD) (zb 0x30) ++ sid) EXTRANONCE2_SIZE.

(** What a user agent keeps: letters, digits and what the C gateway allows. *)
Definition user_agent_char (b : byte) : bool :=
  ((0x30 <=? bz b) && (bz b <=? 0x39)) || is_ascii_uppercase b || is_ascii_lowercase b
  || bool_decide (b ∈ text ". -_=@,|/:<>';").

Definition on_subscribe (id : bytes) (params : value) : M unit :=
  w ← get;
  if subscribed (stats (connection w)) then reply_result id (subscription (connection w)) else
  let agent := take MAX_USER_AGENT_CHARS (filter (fun b => user_agent_char b = true) (default [] (str_at params 0))) in
  reply_result id (subscription (connection w));;
  let '(d, v) := mark_sent (vardiff (connection w)) in
  on_connection (set_vardiff v);;
  send_difficulty d;;
  at_ ← instant_now;
  on_stats (with_subscription agent at_);;
  now ← instant_now;
  on_connection (fun c => set_vardiff (reset_snapshot (vardiff c) now) c);;
  send_current.

(** The first [n] characters of a text. *)
Fixpoint take_chars (n : nat) (s : bytes) : bytes :=
  match n with
  | O => []
  | S n => match s with [] => [] | _ => take (utf8_step s).1 s ++ take_chars n (drop (utf8_step s).1 s) end
  end.

Definition on_authorize (id : bytes) (params : value) : M unit :=
  let username := username_param (str_at params 0) in
  on_stats (with_username (take_chars MAX_USERNAME_CHARS username));;
  if refuses_username (require_address_username cfg) (username_modifiers cfg) username
  then reply id (Some UNAUTHORIZED_WORKER) (ABool false) else reply_result id (ABool true).

(** The extensions named are refused, each once. *)
Definition on_configure (id : bytes) (params : value) : M unit :=
  match get_at params 0 ≫= as_array with
  | None => disconnect (Protocol NoExtensionList)
  | Some l =>
    if negb (is_some (get_at params 1)) then disconnect (Protocol NoOptions) else
    let known := filter (fun n => n ∈ [text "version-rolling"; text "minimum-difficulty"]) (omap as_str l) in
    reply_result id (AExtensions (reverse (remove_dups (reverse known))))
  end.

(** ** A share *)

Definition served_diff (c : Connection) (r : NotifyId) : option Z :=
  if bool_decide (id_prefix r = Quickdiff)
  then (let d := quickdiff_value (vardiff c) in if 0 <? d then Some d else None)
  else mjoin (job_diffs c !! Z.to_nat (id_slot r)).

Definition parse_submit (w : World) (params : value) : result Z SubmitRequest :=
  let c := connection w in
  let unknown := last_sent (vardiff c) in
  id_param ← ok_or unknown (str_at params 1);
  '(nid, stratum_id) ← ok_or unknown (parse_notify_id id_param);
  job ← ok_or unknown (job_at (gw_jobs (gateway w)) (id_slot nid));
  if negb (bool_decide (str_get (job_stratum_id job) 0 JOB_ID_TIME_CHARS = str_get stratum_id 0 JOB_ID_TIME_CHARS))
  then Err unknown else
  job_diff ← ok_or unknown (served_diff c nid);
  en2 ← ok_or job_diff (str_at params 2);
  if negb (length en2 =? 2 * EXTRANONCE2_SIZE)%nat then Err job_diff else
  en2 ← ok_or job_diff (hex_decode en2);
  sia_ntime ← ok_or job_diff (str_at params 3 ≫= parse_sia_field);
  sia_nonce ← ok_or job_diff (str_at params 4 ≫= parse_sia_field);
  Ok {| req_job := job; req_job_diff := job_diff; req_notify_id := nid;
        req_extranonce := zeros HEADER_EXTRANONCE_PAD ++ be 4 (sid c) ++ en2;
        req_sia_ntime := sia_ntime; req_sia_nonce := sia_nonce; req_username := username_param (str_at params 0) |}.

(** The table reads the clock when it is full; the reading it is given is the one at the
    call. *)
Definition check_share (j : Job) (hash : bytes) (target_byte : Z) (username : bytes) : M (result StratumError unit) :=
  w ← get;
  if is_stale_prevblock (gw_jobs (gateway w)) j then mret (Err STALE_PREVBLK) else
  if negb (meets_target hash (target_for_exponent target_byte)) then mret (Err HIGH_HASH) else
  checked ← instant_now;
  if stale_window cfg <? duration_since checked (created_at j) then mret (Err STALE_WORK) else
  now ← instant_now;
  fresh ← on_gateway (fun g => take_hash (seen_insert (seen_share_hashes g) hash (created_at j) now) g);
  if negb fresh then mret (Err DUPLICATE) else
  if refuses_username (require_address_username cfg) (username_modifiers cfg) username
  then mret (Err UNAUTHORIZED_WORKER) else mret (Ok tt).

Definition queue_for_pool (s : QueuedShare) : M unit :=
  now ← instant_now; on_gateway (fun g => (with_pool (queue_share (gw_pool g) s now) g, tt)).

Definition evaluate (req : SubmitRequest) : M (result StratumError unit) :=
  let j := req_job req in
  let prefix := id_prefix (req_notify_id req) in
  let target_byte := floor_log2 (req_job_diff req) in
  match submitted_header j (coinbase_of prefix) target_byte (req_extranonce req) (req_sia_ntime req) (req_sia_nonce req) with
  | None => mret (Err UNKNOWN_WORK)
  | Some header =>
    let hash := job_raw_pow_hash j header in
    let is_block := negb (is_some (job_abw j)) && meets_target hash (block_target j) in
    first ← (if is_block then on_gateway (fun g => take_found (first_find (found_blocks g) hash) g) else mret false);
    checked ← check_share j hash target_byte (req_username req);
    (if is_datum_job j && (first || is_ok checked) then
       queue_for_pool
         {| queued_job := j; queued_prefix := prefix; queued_is_block := is_block; queued_target_byte := target_byte;
            queued_header := header;
            queued_username := credited_username (username_modifiers cfg) (mining_pool_address cfg) (req_username req) hash |}
     else mret tt);;
    match (first : bool), assemble_block j (coinbase_of prefix) target_byte (serialize header) with
    | true, Some block => emit (BlockFound block (hex_encode hash))
    | _, _ => mret tt
    end;;
    mret checked
  end.

Definition count_accepted (d : Z) : M unit :=
  now ← instant_now;
  on_stats (with_accepted d now);;
  on_connection (fun c => set_window (sat_add 64 (diff_since_window_start c) d) (window_started_at c) c);;
  w ← get;
  let '(raised, v) := on_share_accepted (vardiff (connection w)) now in
  on_connection (set_vardiff v);;
  match (raised : bool), GatewayJob.current (gw_jobs (gateway w)) with
  | true, Some p => notify (pub_job p) Quickdiff true
  | _, _ => mret tt
  end.

Definition on_submit (id : bytes) (params : value) : M unit :=
  w ← get;
  match parse_submit w params with
  | Err d => on_stats (with_rejected d);; reply_error id UNKNOWN_WORK
  | Ok req =>
    checked ← evaluate req;
    match checked with
    | Ok _ => reply_result id (ABool true);; count_accepted (req_job_diff req)
    | Err reject => on_stats (with_rejected (req_job_diff req));; reply_error id reject
    end
  end.

(** ** The loop *)

Definition handle_line (line : bytes) : M unit :=
  if bool_decide (line = []) then mret tt else
  if negb (bool_decide (head line = Some (zb 0x7b))) then disconnect (Protocol NotAnObject) else
  match from_text line with
  | None => disconnect (Protocol BadJson)
  | Some v =>
    match get_key v "method" with
    | None => disconnect (Protocol NoMethod)
    | Some m =>
      match as_str m with
      | None => disconnect (Protocol MethodNotAString)
      | Some method =>
        if bool_decide (method = []) then disconnect (Protocol EmptyMethod) else
        match get_key v "id" with
        | None => disconnect (Protocol NoId)
        | Some id =>
          let id := to_text id in
          if bool_decide (id = []) || (MAX_REQUEST_ID_CHARS <? length id)%nat then disconnect (Protocol IdTooLong) else
          match get_key v "params" with
          | None => disconnect (Protocol NoParams)
          | Some params =>
            if bool_decide (method = text "mining.subscribe") then on_subscribe id params
            else if bool_decide (method = text "mining.authorize") then on_authorize id params
            else if bool_decide (method = text "mining.configure") then on_configure id params
            else if bool_decide (method = text "mining.submit") then on_submit id params
            else reply_error id METHOD_NOT_FOUND
          end
        end
      end
    end
  end.

Definition NEWLINE : byte := zb 0x0a.
Definition RETURN : byte := zb 0x0d.

(** Every line ends with a byte of the buffer, so its length is fuel enough. *)
Fixpoint handle_lines (fuel : nat) : M unit :=
  match fuel with
  | O => mret tt
  | S fuel =>
    w ← get;
    let b := buf (connection w) in
    match position (fun x => bool_decide (x = NEWLINE)) b with
    | None => mret tt
    | Some pos =>
      on_connection (set_buf (drop (S pos) b));;
      handle_line (trim_end RETURN (from_utf8_lossy (take pos b)));;
      handle_lines fuel
    end
  end.

(** [roll_window], the rate it measures left out. *)
Definition roll_window : M unit :=
  w ← get;
  now ← instant_now;
  if duration_since now (window_started_at (connection w)) <? HASHRATE_WINDOW then mret tt else
  started ← instant_now;
  on_connection (set_window 0 started).

Definition idle (limit since now : Z) : bool := negb (limit =? 0) && (from_secs limit <? duration_since now since).

(** Why the connection ends, from its stats: no more than one of the three limits is
    asked of a connection, so the clock is read once. *)
Definition idle_reason (c : Connection) (now : Z) : option IdleReason :=
  let st := stats c in
  if negb (subscribed st) && idle (idle_timeout_no_subscribe cfg) (connected_at c) now then Some NotSubscribing
  else if subscribed st && (tally_count (accepted (shares st)) =? 0) && idle (idle_timeout_no_shares cfg) (connected_at c) now
  then Some NoAcceptedShare
  else if subscribed st && from_option (fun last => idle (idle_timeout_max_last_work cfg) last now) false (last_accepted_at st)
  then Some NoShare
  else None.

Definition idle_checks : M unit :=
  w ← get;
  now ← instant_now;
  if now <? next_idle_check (connection w) then mret tt else
  next ← instant_now;
  on_connection (set_next_idle_check (next + IDLE_CHECK_INTERVAL));;
  read ← instant_now;
  match idle_reason (connection w) read with Some what => disconnect (IdleFor what) | None => mret tt end.

(** What the socket gives [serve] in a turn: nothing yet, its end, or bytes. *)
Inductive Input := Nothing | Eof | Chunk (b : bytes).

(** A turn of [serve]. *)
Definition serve_turn (i : Input) : M unit :=
  w ← get;
  if kill_requested (connection w) then disconnect Killed else
  (if subscribed (stats (connection w))
      && from_option (fun p => negb (bool_decide (sent_sequence (connection w) = Some (pub_sequence p)))) false
           (GatewayJob.current (gw_jobs (gateway w)))
   then send_current else mret tt);;
  idle_checks;;
  roll_window;;
  match i with
  | Nothing => mret tt
  | Eof => disconnect Io
  | Chunk b =>
    on_connection (fun c => set_buf (buf c ++ b) c);;
    w ← get;
    if CLIENT_BUFFER <=? zlen (buf (connection w)) then disconnect (Protocol BufferOverrun) else
    handle_lines (length (buf (connection w)))
  end.

End connection.

(** ** Running a computation *)

Lemma run_bind {A B} (m : M A) (k : A -> M B) w :
  (m ≫= k) w = match m w with (w, Ok a) => k a w | (w, Err e) => (w, Err e) end.
Proof. done. Qed.

Lemma run_gateway {A} (f : Gateway -> Gateway * A) w : on_gateway f w =
  ({| connection := connection w; gateway := (f (gateway w)).1; emitted := emitted w; io_budget := io_budget w;
      clock_reads := clock_reads w |}, Ok (f (gateway w)).2).
Proof. unfold on_gateway. by destruct (f (gateway w)). Qed.

Ltac run := repeat (rewrite run_bind; cbn [get instant_now on_connection on_stats on_gateway emit mret M_ret send_difficulty
  connection gateway emitted io_budget clock_reads]).

Section lemmas.
Context `{Digests} `{!AddressCodec} `{!Json} `{!JsonText}.
Context (cfg : StratumConfig) (clock : nat -> Z).

(** ** What a notify does *)

Definition floor_for (w : World) (j : Job) : Z := if is_datum_job j then pool_min_difficulty (gw_pool (gateway w)) else 0.
Definition notify_difficulty (w : World) (j : Job) (prefix : NotifyPrefix) : NotifyDifficulty * Vardiff :=
  on_notify (vardiff (connection w)) (floor_for w j) (bool_decide (prefix = Quickdiff)) (clock (clock_reads w)).

Definition announcement (n : NotifyDifficulty) : list Out := (fun d => Sent (SetDifficulty (format d))) <$> option_list (announce n).

Definition notify_line (w : World) (j : Job) (prefix : NotifyPrefix) (clean : bool) (h2 : bytes) (target_byte : Z) : Notify :=
  {| n_id := notify_id prefix (job_stratum_id j); n_prevblock_hidden := hex_encode (job_prevblock_hidden j);
     n_coinb1 := mjoin (replicate COINB1_LEADING_ZEROS (text "00")) ++ hex_encode h2;
     n_nbits := hex_fixed 8 (share_nbits target_byte); n_ntime := ntime_hex;
     n_clean := clean || negb (bool_decide (notified_prev_hash (connection w) = Some (prev_of j))) |}.

(** The connection after a notify that was sent. *)
Record notified (w : World) (j : Job) (prefix : NotifyPrefix) (clean : bool) (w2 : World) : Prop := {
  nd_gateway : gateway w2 = gateway w;
  nd_sent : exists c, commitment j (coinbase_of prefix) (floor_log2 (Z.max (diff (notify_difficulty w j prefix).1) 1)) = Some c /\
    emitted w2 = emitted w ++ announcement (notify_difficulty w j prefix).1 ++
      [Sent (NotifyLine (notify_line w j prefix clean (commitment_h2 c) (floor_log2 (Z.max (diff (notify_difficulty w j prefix).1) 1))))];
  nd_vardiff : vardiff (connection w2) = (notify_difficulty w j prefix).2;
  nd_told : current_diff (stats (connection w2)) = default (current_diff (stats (connection w))) (announce (notify_difficulty w j prefix).1);
  nd_subscribed : subscribed_at (stats (connection w2)) = subscribed_at (stats (connection w));
  nd_tallies : shares (stats (connection w2)) = shares (stats (connection w));
  nd_diffs : job_diffs (connection w2) =
    if bool_decide (prefix = Quickdiff) then job_diffs (connection w)
    else <[Z.to_nat (slot j) := Some (diff (notify_difficulty w j prefix).1)]> (job_diffs (connection w));
  nd_notified : notified_prev_hash (connection w2) = Some (prev_of j);
  nd_sid : sid (connection w2) = sid (connection w);
  nd_sequence : sent_sequence (connection w2) = sent_sequence (connection w);
}.

Lemma send_line_ok l w w2 u : send_line l w = (w2, Ok u) ->
  w2 = {| connection := connection w; gateway := gateway w; emitted := emitted w ++ [Sent l]; io_budget := pred <$> io_budget w;
          clock_reads := clock_reads w |}.
Proof. unfold send_line. destruct (io_budget w) as [[|n]|]; [done|..]; by intros [= <-]. Qed.

Lemma notify_sent j prefix clean w w2 u : notify clock j prefix clean w = (w2, Ok u) -> notified w j prefix clean w2.
Proof.
  unfold notify. run. destruct (on_notify _ _ _ _) as [n v] eqn:En.
  assert (notify_difficulty w j prefix = (n, v)) as Ed by done. run.
  destruct (announce n) as [d|] eqn:Ea; [unfold send_difficulty at 1|]; run.
  - destruct (send_line _ _) as [wa [[]|]] eqn:Es; [|done]. apply send_line_ok in Es as ->.
    destruct (bool_decide (prefix = Quickdiff)) eqn:Eq; run;
      (destruct (commitment _ _ _) as [c|] eqn:Ec; [|done]; run; intros Hs; apply send_line_ok in Hs as ->; cbn;
       split; rewrite ?Ed, ?Eq; cbn [fst snd connection gateway emitted]; try done; try (rewrite Ea; done);
       exists c; split; [done|]; unfold announcement; rewrite Ea; cbn; by rewrite <- app_assoc).
  - destruct (bool_decide (prefix = Quickdiff)) eqn:Eq; run;
      (destruct (commitment _ _ _) as [c|] eqn:Ec; [|done]; run; intros Hs; apply send_line_ok in Hs as ->; cbn;
       split; rewrite ?Ed, ?Eq; cbn [fst snd connection gateway emitted]; try done; try (rewrite Ea; done);
       exists c; split; [done|]; unfold announcement; by rewrite Ea).
Qed.

(** It is sent while the socket takes lines. *)
Lemma notify_succeeds j prefix clean w : io_budget w = None ->
  is_some (commitment j (coinbase_of prefix) (floor_log2 (Z.max (diff (notify_difficulty w j prefix).1) 1))) = true ->
  exists w2, notify clock j prefix clean w = (w2, Ok tt) /\ io_budget w2 = None.
Proof.
  intros Hb Hc. unfold notify, notify_difficulty, floor_for in *. run.
  destruct (on_notify _ _ _ _) as [n v] eqn:En. cbn [fst] in Hc. run.
  destruct (announce n) as [d|]; [unfold send_difficulty at 1|]; run; unfold send_line; cbn [io_budget connection]; rewrite ?Hb;
    destruct (bool_decide (prefix = Quickdiff)); run; destruct (commitment _ _ _) as [c|]; try done;
    run; cbn; rewrite ?Hb; by eexists.
Qed.

(** ** What the miner is told, line by line *)

(** The difficulty last announced and the previous block last notified. *)
Definition line_told (o : Out) : option bytes := match o with Sent (SetDifficulty d) => Some d | _ => None end.
Definition line_tip (o : Out) : option bytes := match o with Sent (NotifyLine n) => Some (n_prevblock_hidden n) | _ => None end.
Definition last_told (l : list Out) : option bytes := last (omap line_told l).
Definition last_tip (l : list Out) : option bytes := last (omap line_tip l).

(** A notify carries the target of the difficulty last announced, and says so when it
    leaves the block the miner was working on. *)
Definition told_ok (pre : list Out) (n : Notify) : Prop :=
  (exists d, is_pow2 d /\ last_told pre = Some (format d) /\ n_nbits n = hex_fixed 8 (share_nbits (floor_log2 d))) /\
  (n_clean n = true \/ last_tip pre = Some (n_prevblock_hidden n)).

Definition well_told (l : list Out) : Prop := forall pre n post, l = pre ++ Sent (NotifyLine n) :: post -> told_ok pre n.

Definition jobs_hidden (t : JobTable) : Prop :=
  forall p, GatewayJob.current t = Some p -> job_prevblock_hidden (pub_job p) = prevblock_hidden (prev_of (pub_job p)).

Definition gateway_ok (g : Gateway) : Prop := jobs_hidden (gw_jobs g) /\ zero_or_pow2 (pool_min_difficulty (gw_pool g)).

Record telling (p : VardiffParams) (w : World) : Prop := {
  te_vardiff : machine_ok p False (vardiff (connection w));
  te_told : last_sent (vardiff (connection w)) = 0 \/ last_told (emitted w) = Some (format (last_sent (vardiff (connection w))));
  te_tip : forall h, notified_prev_hash (connection w) = Some h -> last_tip (emitted w) = Some (hex_encode (prevblock_hidden h));
  te_log : well_told (emitted w);
  te_gateway : gateway_ok (gateway w);
}.

(** A computation that keeps [telling], and the log in order where it ends the
    connection. *)
Definition keeps_telling (p : VardiffParams) {A} (m : M A) : Prop := forall w, telling p w ->
  match m w with (w2, Ok _) => telling p w2 | (w2, Err _) => well_told (emitted w2) end.

Lemma last_told_app l k : last_told (l ++ k) = match last_told k with Some d => Some d | None => last_told l end.
Proof. unfold last_told. rewrite omap_app, last_app. by destruct (last (omap line_told k)). Qed.

Lemma last_tip_app l k : last_tip (l ++ k) = match last_tip k with Some d => Some d | None => last_tip l end.
Proof. unfold last_tip. rewrite omap_app, last_app. by destruct (last (omap line_tip k)). Qed.

Lemma last_told_snoc l o : last_told (l ++ [o]) = match line_told o with Some d => Some d | None => last_told l end.
Proof. rewrite last_told_app. unfold last_told at 1, omap, list_omap. by destruct (line_told o). Qed.

Lemma last_tip_snoc l o : last_tip (l ++ [o]) = match line_tip o with Some d => Some d | None => last_tip l end.
Proof. rewrite last_tip_app. unfold last_tip at 1, omap, list_omap. by destruct (line_tip o). Qed.

Lemma well_told_snoc l o : well_told l -> (forall n, o = Sent (NotifyLine n) -> told_ok l n) -> well_told (l ++ [o]).
Proof.
  intros Hl Ho pre n post E. destruct post as [|x post _] using rev_ind.
  - apply app_inj_tail in E as [-> ->]. by apply Ho.
  - rewrite app_comm_cons, app_assoc in E. apply app_inj_tail in E as [E _]. by apply (Hl pre n post).
Qed.

Section keeping.
Context (p : VardiffParams) (Hmin : is_pow2 (Vardiff.min p)).
#[local] Abbreviation keeps := (keeps_telling p).

Lemma keeps_ret {A} (a : A) : keeps (mret a).
Proof. by intros w Hw. Qed.

Lemma keeps_get : keeps get.
Proof. by intros w Hw. Qed.

Lemma keeps_disconnect {A} e : keeps (@disconnect A e).
Proof. intros w Hw. apply Hw. Qed.

Lemma keeps_bind {A B} (m : M A) (k : A -> M B) : keeps m -> (forall a, keeps (k a)) -> keeps (m ≫= k).
Proof.
  intros Hm Hk w Hw. rewrite run_bind. specialize (Hm w Hw). destruct (m w) as [w2 [a|e]]; [by apply Hk|done].
Qed.

Lemma keeps_now : keeps (instant_now clock).
Proof. intros w []. by split. Qed.

Lemma keeps_connection f : (forall c, vardiff (f c) = vardiff c /\ notified_prev_hash (f c) = notified_prev_hash c) ->
  keeps (on_connection f).
Proof. intros Hf w []. destruct (Hf (connection w)) as [Ev En]. split; cbn; rewrite ?Ev, ?En; done. Qed.

Lemma keeps_gateway {A} (f : Gateway -> Gateway * A) :
  (forall g, gw_jobs (f g).1 = gw_jobs g /\ view (gw_pool (f g).1) = view (gw_pool g)) -> keeps (on_gateway f).
Proof.
  intros Hf w [Hv Ht Hp Hl [Hj Hm]]. unfold on_gateway. destruct (Hf (gateway w)) as [Ej Ev]. destruct (f (gateway w)) as [g a].
  cbn in Ej, Ev. split; try done. cbn. split; [by rewrite Ej|]. unfold pool_min_difficulty in *. by rewrite Ev.
Qed.

Lemma keeps_send l : line_told (Sent l) = None -> line_tip (Sent l) = None -> keeps (send_line l).
Proof.
  intros Hd Hn w [Hv Ht Hp Hl Hg]. unfold send_line.
  assert (forall b r, telling p {| connection := connection w; gateway := gateway w; emitted := emitted w ++ [Sent l]; io_budget := b;
    clock_reads := r |}) as Hs.
  { intros b r. split; cbn; try done.
    - by rewrite last_told_snoc, Hd.
    - intros h Eh. rewrite last_tip_snoc, Hn. by apply Hp.
    - apply well_told_snoc; [done|]. intros n E. by rewrite E in Hn. }
  destruct (io_budget w) as [[|b]|]; [done|apply Hs..].
Qed.

Lemma keeps_reply id e a : keeps (reply id e a).
Proof. by apply keeps_send. Qed.

Lemma keeps_emit b h : keeps (emit (BlockFound b h)).
Proof.
  intros w [Hv Ht Hp Hl Hg]. split; cbn; try done.
  - by rewrite last_told_snoc.
  - intros k Ek. rewrite last_tip_snoc. by apply Hp.
  - by apply well_told_snoc.
Qed.

(** What is known of the world a computation reads. *)
Lemma keeps_get_then {B} (k : World -> M B) : (forall w, telling p w -> keeps (k w)) -> keeps (get ≫= k).
Proof. intros Hk w Hw. by apply (Hk w Hw w). Qed.

Lemma keeps_vardiff f : (forall v, machine_ok p False v -> machine_ok p False (f v) /\ last_sent (f v) = last_sent v) ->
  keeps (on_connection (fun c => set_vardiff (f (vardiff c)) c)).
Proof. intros Hf w [Hv Ht Hp Hl Hg]. destruct (Hf _ Hv) as [Hv2 E]. split; cbn; rewrite ?E; done. Qed.

Lemma send_line_err l w w2 e : send_line l w = (w2, Err e) -> w2 = w.
Proof. unfold send_line. by destruct (io_budget w) as [[|n]|]; [intros [= <-]|..]. Qed.

Lemma notify_rest (b : bool) f (o : option H2Commitment) g l w w2 e :
  ((if b then mret tt else on_connection f) ≫= fun _ =>
     match o with None => disconnect Io | Some c => on_connection g ≫= fun _ => send_line (l c) end) w = (w2, Err e) ->
  emitted w2 = emitted w.
Proof.
  run. destruct b; run; (destruct o as [c|]; [run; by intros ->%send_line_err|by intros [= <-]]).
Qed.

(** Where a notify stops, its announcement may be the last line. *)
Lemma notify_stops j prefix clean w w2 e : notify clock j prefix clean w = (w2, Err e) ->
  emitted w2 = emitted w \/ emitted w2 = emitted w ++ announcement (notify_difficulty w j prefix).1.
Proof.
  unfold notify. run. destruct (on_notify _ _ _ _) as [n v] eqn:En.
  assert (notify_difficulty w j prefix = (n, v)) as -> by done. run. unfold announcement. cbn [fst].
  destruct (announce n) as [d|]; [unfold send_difficulty at 1|]; run.
  - destruct (send_line _ _) as [wa [[]|]] eqn:Es; [|apply send_line_err in Es as ->; intros Hr; apply (f_equal fst) in Hr; cbn [fst] in Hr; subst w2; by left].
    apply send_line_ok in Es as ->. intros Hr. apply notify_rest in Hr. by right.
  - intros Hr. apply notify_rest in Hr. by left.
Qed.

Lemma announced_told w j prefix : telling p w ->
  let n := (notify_difficulty w j prefix).1 in
  is_pow2 (diff n) /\ last_told (emitted w ++ announcement n) = Some (format (diff n)) /\
  machine_ok p False (notify_difficulty w j prefix).2 /\ last_sent (notify_difficulty w j prefix).2 = diff n /\
  match announce n with Some d => d = diff n | None => last_sent (vardiff (connection w)) = diff n end.
Proof.
  intros Hw. assert (zero_or_pow2 (floor_for w j)) as Hf by (unfold floor_for; destruct (is_datum_job j); [apply Hw|by left]).
  pose proof (on_notify_ok p False Hmin (vardiff (connection w)) (floor_for w j) (bool_decide (prefix = Quickdiff))
    (clock (clock_reads w)) (te_vardiff _ _ Hw) ltac:(done) Hf) as Ho. unfold notify_difficulty.
  destruct (on_notify _ _ _ _) as [n v]. cbn. destruct Ho as (Hm & Hs & Hd & _ & _ & Ha). split_and!; try done.
  unfold announcement. destruct (announce n) as [d|].
  - change (_ <$> _) with [Sent (SetDifficulty (format d))]. rewrite last_told_snoc. cbn. by subst d.
  - change (_ <$> _) with (@nil Out). rewrite app_nil_r, <- Ha. destruct (te_told _ _ Hw) as [E|]; [|done]. pose proof (pow2_range _ Hd). lia.
Qed.

Lemma announcement_told w n : telling p w -> well_told (emitted w ++ announcement n) /\ last_tip (emitted w ++ announcement n) = last_tip (emitted w).
Proof.
  intros Hw. unfold announcement. destruct (announce n) as [d|].
  2: { change (_ <$> _) with (@nil Out). rewrite app_nil_r. split; [apply Hw|done]. }
  change (_ <$> _) with [Sent (SetDifficulty (format d))]. split; [by apply well_told_snoc; [apply Hw|]|by rewrite last_tip_snoc].
Qed.

Lemma keeps_notify j prefix clean : job_prevblock_hidden j = prevblock_hidden (prev_of j) -> keeps (notify clock j prefix clean).
Proof.
  intros Hj w Hw. destruct (notify clock j prefix clean w) as [w2 [[]|e]] eqn:En.
  - apply notify_sent in En. destruct (announced_told w j prefix Hw) as (Hd & Ht & Hm & Hs & _). set (n := (notify_difficulty w j prefix).1) in *.
    destruct (announcement_told w n Hw) as [Hl Htip]. destruct (nd_sent _ _ _ _ _ En) as (c & _ & E). fold n in E.
    rewrite app_assoc in E. split; rewrite ?E, ?(nd_vardiff _ _ _ _ _ En), ?(nd_gateway _ _ _ _ _ En), ?(nd_notified _ _ _ _ _ En).
    + done.
    + right. rewrite last_told_snoc. cbn. by rewrite Hs.
    + intros h [= <-]. rewrite last_tip_snoc. cbn. by rewrite Hj.
    + apply well_told_snoc; [done|]. intros x [= <-]. split.
      * exists (diff n). split_and!; [done|done|]. cbn. rewrite Z.max_l by (pose proof (pow2_range _ Hd); lia). done.
      * rewrite Htip. unfold notify_line. cbn [n_clean n_prevblock_hidden]. rewrite Hj. destruct clean; [by left|].
        destruct (bool_decide_reflect (notified_prev_hash (connection w) = Some (prev_of j))) as [Ep|]; [right|by left].
        by apply (te_tip _ _ Hw).
    + apply Hw.
  - destruct (notify_stops _ _ _ _ _ _ En) as [->| ->]; [apply Hw|by apply announcement_told].
Qed.

Lemma keeps_send_job pub : job_prevblock_hidden (pub_job pub) = prevblock_hidden (prev_of (pub_job pub)) -> keeps (send_job clock pub).
Proof. intros Hj. apply keeps_bind; [by apply keeps_connection|]. intros _. by apply keeps_notify. Qed.

Lemma keeps_send_current : keeps (send_current clock).
Proof.
  apply keeps_get_then. intros w Hw. destruct (GatewayJob.current _) as [pub|] eqn:E; [|apply keeps_ret].
  apply keeps_send_job. by apply (te_gateway _ _ Hw).
Qed.

Ltac keeping := repeat match goal with
  | |- keeps_telling _ (mret _) => apply keeps_ret
  | |- keeps_telling _ (disconnect _) => apply keeps_disconnect
  | |- keeps_telling _ (instant_now _) => apply keeps_now
  | |- keeps_telling _ (reply _ _ _) => apply keeps_reply
  | |- keeps_telling _ (reply_result _ _) => apply keeps_reply
  | |- keeps_telling _ (reply_error _ _) => apply keeps_reply
  | |- keeps_telling _ (emit (BlockFound _ _)) => apply keeps_emit
  | |- keeps_telling _ (send_current _) => apply keeps_send_current
  | |- keeps_telling _ (on_stats _) => apply keeps_connection; done
  | |- keeps_telling _ (on_connection _) => apply keeps_connection; done
  | |- keeps_telling _ (on_gateway _) => apply keeps_gateway; done
  | |- keeps_telling _ (get ≫= _) => apply keeps_get_then; intros ? _
  | |- keeps_telling _ (_ ≫= _) => apply keeps_bind; [|intros ?]
  | |- keeps_telling _ (match ?x with _ => _ end) => destruct x
  end.

Lemma keeps_check j hash target_byte username : keeps (check_share cfg clock j hash target_byte username).
Proof. unfold check_share. keeping. Qed.

Lemma view_queue_share q s now : view (queue_share q s now) = view q.
Proof. unfold queue_share. by case_match. Qed.

Lemma keeps_queue s : keeps (queue_for_pool clock s).
Proof.
  apply keeps_bind; [apply keeps_now|]. intros now. apply keeps_gateway. intros g. split; [done|]. apply view_queue_share.
Qed.

Lemma keeps_evaluate req : keeps (evaluate cfg clock req).
Proof.
  unfold evaluate. case_match; [|apply keeps_ret].
  apply keeps_bind; [keeping|]. intros first. apply keeps_bind; [apply keeps_check|]. intros checked.
  apply keeps_bind; [case_match; [apply keeps_queue|apply keeps_ret]|]. intros _. keeping.
Qed.

Lemma set_shares_ok v n at_ : machine_ok p False v -> machine_ok p False (set_shares v n at_).
Proof. by intros []. Qed.

Lemma on_share_accepted_ok v now : machine_ok p False v ->
  machine_ok p False (on_share_accepted v now).2 /\ last_sent (on_share_accepted v now).2 = last_sent v.
Proof.
  intros Hv. apply (set_shares_ok _ (wrap 64 (shares_since_snapshot v + 1)) (snapshot_at v)) in Hv.
  pose proof (adjust_on_share_adjusted p False Hmin _ now Hv ltac:(done)) as Ha.
  split; [by eapply adjusted_ok|apply (ad_sent _ _ _ _ Ha)].
Qed.

Lemma keeps_count d : keeps (count_accepted clock d).
Proof.
  unfold count_accepted. do 3 (apply keeps_bind; [keeping|intros ?]). intros w Hw. run.
  destruct (on_share_accepted_ok (vardiff (connection w)) a Hw.(te_vardiff _ _)) as [Hv Hs].
  destruct (on_share_accepted _ _) as [raised v]. cbn in Hv, Hs. run.
  set (w2 := {| connection := _ |}). assert (telling p w2) as Hw2.
  { destruct Hw as [_ Ht Htip Hl Hg]. split; cbn; rewrite ?Hs; done. }
  revert Hw2. generalize w2. change (keeps (match (raised : bool), GatewayJob.current (gw_jobs (gateway w)) with
    | true, Some p => notify clock (pub_job p) Quickdiff true | _, _ => mret tt end)).
  destruct raised; [|apply keeps_ret]. destruct (GatewayJob.current _) as [pub|] eqn:E; [|apply keeps_ret].
  apply keeps_notify. by apply (te_gateway _ _ Hw).
Qed.

Lemma keeps_submit id params : keeps (on_submit cfg clock id params).
Proof.
  unfold on_submit. apply keeps_get_then. intros w _. case_match; [|keeping].
  apply keeps_bind; [apply keeps_evaluate|]. intros [|]; [|keeping]. apply keeps_bind; [keeping|]. intros _. apply keeps_count.
Qed.

Lemma keeps_subscribe id params : keeps (on_subscribe clock id params).
Proof.
  unfold on_subscribe. intros w Hw. run. destruct (subscribed _); [by apply keeps_reply|]. run.
  pose proof (keeps_reply id None (subscription (connection w)) w Hw) as Hr. unfold reply_result, reply in *.
  destruct (send_line _ w) as [w1 [[]|e]] eqn:E1; [|done]. pose proof E1 as Ew1. apply send_line_ok in Ew1.
  assert (vardiff (connection w) = vardiff (connection w1)) as -> by (by rewrite Ew1). clear E1 Ew1 w Hw. run.
  pose proof (mark_sent_ok p False Hmin _ (te_vardiff _ _ Hr)) as Hm. destruct (mark_sent _) as [d v]. destruct Hm as (Hv & Hs & _). run. unfold send_difficulty at 1. run.
  destruct (send_line _ _) as [w2 [[]|e]] eqn:E2; [apply send_line_ok in E2|apply send_line_err in E2; rewrite E2; apply Hr].
  assert (telling p w2) as Hw2.
  { rewrite E2. destruct Hr as [_ Ht Htip Hl Hg]. split; cbn; try done.
    - right. by rewrite last_told_snoc, Hs.
    - intros h Eh. rewrite last_tip_snoc. by apply Htip.
    - by apply well_told_snoc. }
  clear E2. revert w2 Hw2. match goal with |- forall w, telling p w -> match ?m w with _ => _ end => change (keeps m) end.
  keeping. match goal with |- context [reset_snapshot _ ?at_] => apply (keeps_vardiff (fun u => reset_snapshot u at_)) end. intros u Hu. split; [|done]. by apply set_shares_ok.
Qed.

Lemma keeps_line line : keeps (handle_line cfg clock line).
Proof.
  unfold handle_line. repeat (case_match; try apply keeps_ret; try apply keeps_disconnect);
    first [apply keeps_subscribe|apply keeps_submit|unfold on_authorize, on_configure, reply_error, reply_result; keeping].
Qed.

Lemma keeps_lines n : keeps (handle_lines cfg clock n).
Proof.
  induction n as [|n IH]; [apply keeps_ret|]. cbn [handle_lines]. apply keeps_get_then. intros w _. case_match; [|apply keeps_ret].
  apply keeps_bind; [by apply keeps_connection|]. intros _. apply keeps_bind; [apply keeps_line|]. by intros _.
Qed.

Lemma keeps_turn i : keeps (serve_turn cfg clock i).
Proof.
  unfold serve_turn. apply keeps_get_then. intros w _. case_match; [apply keeps_disconnect|].
  apply keeps_bind; [case_match; [apply keeps_send_current|apply keeps_ret]|]. intros _.
  apply keeps_bind; [unfold idle_checks; keeping|]. intros _. apply keeps_bind; [unfold roll_window; keeping|]. intros _.
  case_match; [apply keeps_ret|apply keeps_disconnect|]. apply keeps_bind; [by apply keeps_connection|]. intros _.
  apply keeps_get_then. intros w2 _. case_match; [apply keeps_disconnect|apply keeps_lines].
Qed.

End keeping.

(** ** A connection's life

    Between two turns the gateway's state is whatever the other threads made it, a kill
    may be requested, and the socket takes some number of lines. *)
Record Turn := { turn_gateway : Gateway; turn_kill : bool; turn_budget : option nat; turn_input : Input }.

Definition set_kill (b : bool) (c : Connection) : Connection :=
  {| sid := sid c; vardiff := vardiff c; job_diffs := job_diffs c; sent_sequence := sent_sequence c;
     notified_prev_hash := notified_prev_hash c; connected_at := connected_at c;
     diff_since_window_start := diff_since_window_start c; window_started_at := window_started_at c;
     next_idle_check := next_idle_check c; stats := stats c; kill_requested := b; buf := buf c |}.

Definition between (t : Turn) (w : World) : World :=
  {| connection := set_kill (turn_kill t) (connection w); gateway := turn_gateway t; emitted := emitted w;
     io_budget := turn_budget t; clock_reads := clock_reads w |}.

Fixpoint serve_turns (w : World) (l : list Turn) : World * result Disconnect unit :=
  match l with
  | [] => (w, Ok tt)
  | t :: l => match serve_turn cfg clock (turn_input t) (between t w) with (w, Ok _) => serve_turns w l | (w, Err e) => (w, Err e) end
  end.

Definition connected (unique_id : Z) (g : Gateway) : World :=
  {| connection := connection_new cfg unique_id (clock 0); gateway := g; emitted := []; io_budget := None; clock_reads := 1 |}.

Lemma between_telling p t w : telling p w -> gateway_ok (turn_gateway t) -> telling p (between t w).
Proof. by intros [] Hg; split. Qed.

Lemma connected_telling unique_id g : is_pow2 (Vardiff.min (vardiff_params cfg)) -> gateway_ok g ->
  telling (vardiff_params cfg) (connected unique_id g).
Proof.
  intros Hmin Hg. split; cbn; [|by left|done| |done].
  - split; cbn; [done|by right|by left|done|done].
  - intros pre n post E. by destruct pre.
Qed.

Lemma serve_turns_telling p l : is_pow2 (Vardiff.min p) -> forall w, telling p w -> Forall (fun t => gateway_ok (turn_gateway t)) l ->
  well_told (emitted (serve_turns w l).1).
Proof.
  intros Hmin. induction l as [|t l IH]; intros w Hw Hl; [apply Hw|]. apply Forall_cons in Hl as [Ht Hl]. cbn [serve_turns].
  pose proof (keeps_turn p Hmin (turn_input t) _ (between_telling p t w Hw Ht)) as Hk.
  destruct (serve_turn _ _ _ _) as [w2 [[]|e]]; [by apply IH|done].
Qed.

(** A miner is never left guessing. In whatever order requests, publications, kills and
    failing writes come over the life of a connection, every [mining.notify] it is sent
    carries the target of the difficulty last announced to it, which is a power of two;
    and a notify on another previous block than the last one notified tells the miner to
    drop its work. *)
Theorem connection_tells_the_miner (unique_id : Z) (g : Gateway) (l : list Turn) (pre : list Out) (n : Notify) (post : list Out) :
  is_pow2 (Vardiff.min (vardiff_params cfg)) -> gateway_ok g -> Forall (fun t => gateway_ok (turn_gateway t)) l ->
  emitted (serve_turns (connected unique_id g) l).1 = pre ++ Sent (NotifyLine n) :: post ->
  (exists d, is_pow2 d /\ last_told pre = Some (format d) /\ n_nbits n = hex_fixed 8 (share_nbits (floor_log2 d))) /\
  (n_clean n = true \/ last_tip pre = Some (n_prevblock_hidden n)).
Proof.
  intros Hmin Hg Hl. apply (serve_turns_telling (vardiff_params cfg) l Hmin); [by apply connected_telling|done].
Qed.

(** ** What becomes of a share *)

(** What a share must be for the reply to be [true]. *)
Record acceptable (w : World) (j : Job) (hash : bytes) (target_byte : Z) (username : bytes) : Prop := {
  ac_fresh_tip : is_stale_prevblock (gw_jobs (gateway w)) j = false;
  ac_work : meets_target hash (target_for_exponent target_byte) = true;
  ac_age : duration_since (clock (clock_reads w)) (created_at j) <= stale_window cfg;
  ac_new : seen (seen_share_hashes (gateway w)) !! hash = None;
  ac_user : refuses_username (require_address_username cfg) (username_modifiers cfg) username = false;
}.

(** What a check leaves as it was. *)
Record unsent (w w2 : World) : Prop := {
  un_connection : connection w2 = connection w;
  un_emitted : emitted w2 = emitted w;
  un_budget : io_budget w2 = io_budget w;
  un_jobs : gw_jobs (gateway w2) = gw_jobs (gateway w);
}.

(** What a share's check leaves of the hashes seen: an accepted share's is among them,
    and one refused leaves them as they were, but for its username's sake alone. *)
Definition remembered (w w2 : World) (j : Job) (hash : bytes) (v : result StratumError unit) : Prop :=
  let entered := seen (seen_share_hashes (gateway w2)) !! hash = Some (created_at j) in
  match v with
  | Ok _ => entered
  | Err e => (e = UNAUTHORIZED_WORKER -> entered) /\
             (e <> UNAUTHORIZED_WORKER -> seen_share_hashes (gateway w2) = seen_share_hashes (gateway w))
  end.

Lemma check_share_spec j hash target_byte username w : exists w2 v,
  check_share cfg clock j hash target_byte username w = (w2, Ok v) /\ unsent w w2 /\
  gw_pool (gateway w2) = gw_pool (gateway w) /\ found_blocks (gateway w2) = found_blocks (gateway w) /\
  (v = Ok tt <-> acceptable w j hash target_byte username) /\ remembered w w2 j hash v.
Proof.
  unfold check_share. run. destruct (is_stale_prevblock _ _) eqn:Es.
  { eexists _, _. split; [reflexivity|]. split_and!; [done..| |by split]. split; [done|intros []; congruence]. }
  destruct (meets_target _ _) eqn:Em; cbn [negb].
  2: { eexists _, _. split; [reflexivity|]. split_and!; [done..| |by split]. split; [done|intros []; congruence]. }
  run. destruct (Z.ltb_spec (stale_window cfg) (duration_since (clock (clock_reads w)) (created_at j))) as [Ha|Ha].
  { eexists _, _. split; [reflexivity|]. split_and!; [done..| |by split]. split; [done|intros []; lia]. }
  run. rewrite run_gateway. cbn [gateway]. pose proof (seen_insert_verdict (seen_share_hashes (gateway w)) hash (created_at j) (clock (S (clock_reads w)))) as Hi.
  destruct (seen_insert _ _ _ _) as [s b]. cbn [take_hash fst snd] in *. run. cbn [fst snd] in *. destruct b; cbn [negb].
  - destruct Hi as [Hn Hin].
    destruct (refuses_username _ _ _) eqn:Eu.
    + eexists _, _. split; [reflexivity|]. split_and!; [done..| |by split]. split; [done|intros []; congruence].
    + eexists _, _. split; [reflexivity|]. split_and!; [done..| |done]. split; [intros _; by split|done].
  - destruct Hi as [Hi ->]. eexists _, _. split; [reflexivity|]. split_and!; [done..| |by split]. split; [done|intros []; by destruct Hi].
Qed.

(** The block a share is, where it is one found for the first time. *)
Definition solves (j : Job) (hash : bytes) : bool := negb (is_some (job_abw j)) && meets_target hash (block_target j).
Definition first_found (w : World) (j : Job) (hash : bytes) : bool :=
  solves j hash && negb (bool_decide (hash ∈ found_blocks (gateway w))).

Definition share_of (w : World) (req : SubmitRequest) (header : BlockHeaderV2) (hash : bytes) : QueuedShare :=
  {| queued_job := req_job req; queued_prefix := id_prefix (req_notify_id req); queued_is_block := solves (req_job req) hash;
     queued_target_byte := floor_log2 (req_job_diff req); queued_header := header;
     queued_username := credited_username (username_modifiers cfg) (mining_pool_address cfg) (req_username req) hash |}.

Record evaluated (w : World) (req : SubmitRequest) (header : BlockHeaderV2) (hash : bytes) (v : result StratumError unit) (w2 : World) : Prop := {
  ev_connection : connection w2 = connection w;
  ev_budget : io_budget w2 = io_budget w;
  ev_jobs : gw_jobs (gateway w2) = gw_jobs (gateway w);
  ev_verdict : v = Ok tt <-> acceptable w (req_job req) hash (floor_log2 (req_job_diff req)) (req_username req);
  ev_seen : remembered w w2 (req_job req) hash v;
  ev_found : solves (req_job req) hash = true -> hash ∈ found_blocks (gateway w2);
  ev_blocks : emitted w2 = emitted w ++
    if first_found w (req_job req) hash
    then option_list ((fun b => BlockFound b (hex_encode hash)) <$>
      assemble_block (req_job req) (coinbase_of (id_prefix (req_notify_id req))) (floor_log2 (req_job_diff req)) (serialize header))
    else [];
  ev_queued : if is_datum_job (req_job req) && (first_found w (req_job req) hash || is_ok v)
              then exists now, gw_pool (gateway w2) = queue_share (gw_pool (gateway w)) (share_of w req header hash) now
              else gw_pool (gateway w2) = gw_pool (gateway w);
}.

Lemma find_step (b : bool) hash w : exists w1,
  (if b then on_gateway (fun g => take_found (first_find (found_blocks g) hash) g) else mret false) w =
    (w1, Ok (b && negb (bool_decide (hash ∈ found_blocks (gateway w))))) /\
  unsent w w1 /\ clock_reads w1 = clock_reads w /\ gw_pool (gateway w1) = gw_pool (gateway w) /\
  seen_share_hashes (gateway w1) = seen_share_hashes (gateway w) /\ (b = true -> hash ∈ found_blocks (gateway w1)).
Proof.
  destruct b; [|by exists w]. rewrite run_gateway. unfold first_find, take_found.
  destruct (bool_decide_reflect (hash ∈ found_blocks (gateway w))) as [Hin|]; cbn [fst snd].
  - eexists. split; [reflexivity|]. by split_and!.
  - eexists. split; [reflexivity|]. split_and!; [done..|]. intros _. cbn. apply elem_of_app. right. by apply list_elem_of_singleton.
Qed.

Lemma queue_step (b : bool) s w : exists w1, (if b then queue_for_pool clock s else mret tt) w = (w1, Ok tt) /\ unsent w w1 /\
  seen_share_hashes (gateway w1) = seen_share_hashes (gateway w) /\ found_blocks (gateway w1) = found_blocks (gateway w) /\
  if b then exists now, gw_pool (gateway w1) = queue_share (gw_pool (gateway w)) s now else gw_pool (gateway w1) = gw_pool (gateway w).
Proof.
  destruct b; [|by exists w]. unfold queue_for_pool. run. cbn. eexists. split; [reflexivity|].
  split_and!; try done. by eexists.
Qed.

Lemma block_step (b : bool) (block : option bytes) hash_hex w : exists w1,
  match b, block with true, Some block => emit (BlockFound block hash_hex) | _, _ => mret tt end w = (w1, Ok tt) /\
  connection w1 = connection w /\ gateway w1 = gateway w /\ io_budget w1 = io_budget w /\
  emitted w1 = emitted w ++ (if b then option_list ((fun b => BlockFound b hash_hex) <$> block) else []).
Proof.
  destruct b, block as [block|]; (eexists; split; [reflexivity|]; split_and!; try done); symmetry; apply app_nil_r.
Qed.

Lemma evaluate_spec req w header :
  submitted_header (req_job req) (coinbase_of (id_prefix (req_notify_id req))) (floor_log2 (req_job_diff req)) (req_extranonce req)
    (req_sia_ntime req) (req_sia_nonce req) = Some header ->
  exists w2 v, evaluate cfg clock req w = (w2, Ok v) /\ evaluated w req header (job_raw_pow_hash (req_job req) header) v w2.
Proof.
  intros Eh. unfold evaluate. rewrite Eh. set (hash := job_raw_pow_hash _ _). fold (solves (req_job req) hash). cbn zeta.
  destruct (find_step (solves (req_job req) hash) hash w) as (w1 & E1 & [Hc1 He1 Hb1 Hj1] & Hr1 & Hp1 & Hs1 & Hf1).
  fold (first_found w (req_job req) hash) in E1. rewrite run_bind, E1.
  destruct (check_share_spec (req_job req) hash (floor_log2 (req_job_diff req)) (req_username req) w1)
    as (w2 & v & E2 & [Hc2 He2 Hb2 Hj2] & Hp2 & Hf2 & Hv & Hs2). rewrite run_bind, E2.
  destruct (queue_step (is_datum_job (req_job req) && (first_found w (req_job req) hash || is_ok v)) (share_of w req header hash) w2)
    as (w3 & E3 & [Hc3 He3 Hb3 Hj3] & Hs3 & Hf3 & Hq). unfold share_of in E3 at 1. rewrite run_bind, E3.
  destruct (block_step (first_found w (req_job req) hash)
    (assemble_block (req_job req) (coinbase_of (id_prefix (req_notify_id req))) (floor_log2 (req_job_diff req)) (serialize header))
    (hex_encode hash) w3) as (w4 & E4 & Hc4 & Hg4 & Hb4 & He4). rewrite run_bind, E4.
  exists w4, v. split; [done|]. split.
  - congruence.
  - congruence.
  - rewrite Hg4. congruence.
  - rewrite Hv. split; intros []; split; rewrite ?Hj1, ?Hr1, ?Hs1 in *; congruence.
  - unfold remembered in *. by rewrite Hg4, Hs3, <- Hs1.
  - rewrite Hg4, Hf3, Hf2. done.
  - rewrite He4, He3, He2, He1. done.
  - rewrite Hg4. destruct (is_datum_job _ && _); [|congruence]. destruct Hq as [now ->]. exists now. congruence.
Qed.

(** Every job the table holds can be mined on, and its current one notified. *)
Record servable (t : JobTable) : Prop := {
  sv_headers : forall slot j, job_at t slot = Some j -> forall kind target_byte e sia_ntime sia_nonce,
    is_some (submitted_header j kind target_byte e sia_ntime sia_nonce) = true;
  sv_current : forall p, GatewayJob.current t = Some p -> forall kind target_byte, is_some (commitment (pub_job p) kind target_byte) = true;
}.

Definition add_accepted (s : ShareTallies) (d : Z) : ShareTallies := {| accepted := tally_add (accepted s) d; rejected := rejected s |}.
Definition add_rejected (s : ShareTallies) (d : Z) : ShareTallies := {| accepted := accepted s; rejected := tally_add (rejected s) d |}.
Definition tally_of (w : World) : ShareTallies := shares (stats (connection w)).

(** A line that tells of work, and answers nothing. *)
Definition notice_line (o : Out) : Prop := match o with Sent (SetDifficulty _) | Sent (NotifyLine _) => True | _ => False end.

Lemma count_accepted_spec d w : io_budget w = None -> servable (gw_jobs (gateway w)) -> exists w2 k,
  count_accepted clock d w = (w2, Ok tt) /\ gateway w2 = gateway w /\ tally_of w2 = add_accepted (tally_of w) d /\
  emitted w2 = emitted w ++ k /\ Forall notice_line k.
Proof.
  intros Hb Hs. unfold count_accepted. run. destruct (on_share_accepted _ _) as [raised v]. run.
  set (w1 := {| connection := _ |}). assert (tally_of w1 = add_accepted (tally_of w) d) as Ht by done.
  assert (gateway w1 = gateway w /\ emitted w1 = emitted w /\ io_budget w1 = None) as (Hg & He & Hb1) by done. clearbody w1.
  destruct raised; [|by exists w1, []; rewrite app_nil_r]. destruct (GatewayJob.current _) as [p|] eqn:Ep; [|by exists w1, []; rewrite app_nil_r].
  destruct (notify_succeeds (pub_job p) Quickdiff true w1 Hb1) as (w2 & E2 & _); [by apply (sv_current _ Hs)|].
  pose proof (notify_sent _ _ _ _ _ _ E2) as Hn. destruct (nd_sent _ _ _ _ _ Hn) as (c & _ & E).
  eexists w2, _. split; [exact E2|]. rewrite (nd_gateway _ _ _ _ _ Hn). unfold tally_of. rewrite (nd_tallies _ _ _ _ _ Hn).
  split; [done|]. split; [exact Ht|]. rewrite E, He. split; [done|]. apply Forall_app. split; [|by repeat constructor].
  unfold announcement. by destruct (announce _); repeat constructor.
Qed.

Lemma parse_submit_job w params req : parse_submit w params = Ok req -> job_at (gw_jobs (gateway w)) (id_slot (req_notify_id req)) = Some (req_job req).
Proof.
  unfold parse_submit. destruct (str_at params 1); [|done]. cbn [ok_or mbind result_bind].
  destruct (parse_notify_id _) as [[nid sid]|]; [|done]. cbn [ok_or mbind result_bind].
  destruct (job_at _ _) as [j|] eqn:Ej; [|done]. cbn [ok_or mbind result_bind]. destruct (negb _); [done|].
  destruct (served_diff _ _); [|done]. cbn [ok_or mbind result_bind]. destruct (str_at params 2) as [en2|]; [|done]. cbn [ok_or mbind result_bind].
  destruct (negb _); [done|]. destruct (hex_decode _); [|done]. cbn [ok_or mbind result_bind].
  destruct (str_at params 3 ≫= _); [|done]. cbn [ok_or mbind result_bind]. destruct (str_at params 4 ≫= _); [|done]. cbn [ok_or mbind result_bind].
  by intros [= <-].
Qed.

(** C20: A submit keeps its word. On a connection whose writes go through, of a gateway that
    serves jobs its builder made, it is answered once, whatever it says; the answer is [true]
    exactly where the job named is still held and not of a replaced block, the header
    rebuilt of the miner's fields hashes to the target of the difficulty the job was
    served at, the job is inside the stale window, the hash was not taken before and the
    username is one the gateway serves. An accepted share is tallied, remembered, and
    queued for the pool where the job is the pool's, under the username the modifiers
    credit. A refused share is tallied as refused and leaves the hashes remembered as
    they were, except that one refused for its username alone is remembered like one
    accepted. A hash that solves the block is assembled and leaves for the nodes the
    first time it is found, and is queued for the pool where the job is the pool's,
    whatever the answer is. *)
Theorem submit_keeps_its_word (id : bytes) (params : value) (w : World) :
  io_budget w = None -> servable (gw_jobs (gateway w)) ->
  exists w2, on_submit cfg clock id params w = (w2, Ok tt) /\
  match parse_submit w params with
  | Err d =>
    emitted w2 = emitted w ++ [Sent (Reply (Some UNKNOWN_WORK) id ANull)] /\ gateway w2 = gateway w /\
    tally_of w2 = add_rejected (tally_of w) d
  | Ok req => exists header w1 v k,
    submitted_header (req_job req) (coinbase_of (id_prefix (req_notify_id req))) (floor_log2 (req_job_diff req)) (req_extranonce req)
      (req_sia_ntime req) (req_sia_nonce req) = Some header /\
    evaluated w req header (job_raw_pow_hash (req_job req) header) v w1 /\ gateway w2 = gateway w1 /\
    emitted w2 = emitted w1 ++
      Sent (match v with Ok _ => Reply None id (ABool true) | Err e => Reply (Some e) id ANull end) :: k /\
    Forall notice_line k /\
    match v with
    | Ok _ => tally_of w2 = add_accepted (tally_of w) (req_job_diff req)
    | Err _ => k = [] /\ tally_of w2 = add_rejected (tally_of w) (req_job_diff req)
    end
  end.
Proof.
  intros Hb Hs. unfold on_submit. run. destruct (parse_submit w params) as [req|d] eqn:Ep.
  2: { run. unfold reply_error, reply, send_line. cbn [io_budget]. rewrite Hb. by eexists. }
  apply parse_submit_job in Ep.
  destruct (submitted_header (req_job req) (coinbase_of (id_prefix (req_notify_id req))) (floor_log2 (req_job_diff req)) (req_extranonce req)
    (req_sia_ntime req) (req_sia_nonce req)) as [header|] eqn:Eh.
  2: { pose proof (sv_headers _ Hs _ _ Ep (coinbase_of (id_prefix (req_notify_id req))) (floor_log2 (req_job_diff req)) (req_extranonce req)
    (req_sia_ntime req) (req_sia_nonce req)) as Hh. by rewrite Eh in Hh. }
  destruct (evaluate_spec req w header Eh) as (w1 & v & E1 & Hev). rewrite run_bind, E1.
  pose proof (ev_budget _ _ _ _ _ _ Hev) as Hb1. rewrite Hb in Hb1. pose proof (ev_connection _ _ _ _ _ _ Hev) as Hc1.
  destruct v as [[]|e].
  - unfold reply_result, reply. rewrite run_bind. unfold send_line at 1. rewrite Hb1. cbn [fmap option_fmap option_map].
    match goal with |- context [count_accepted clock _ ?x] => set (wa := x) end.
    destruct (count_accepted_spec (req_job_diff req) wa) as (w2 & k & E2 & Hg & Ht & He & Hk); [done|cbn; by rewrite (ev_jobs _ _ _ _ _ _ Hev)|].
    exists w2. split; [exact E2|]. exists header, w1, (Ok tt), k. split_and!; try done.
    + rewrite He. cbn. by rewrite <- app_assoc.
    + rewrite Ht. unfold tally_of. cbn. by rewrite Hc1.
  - run. unfold reply_error, reply, send_line. cbn [io_budget]. rewrite Hb1. eexists. split; [reflexivity|].
    exists header, w1, (Err e), []. split_and!; try done. unfold tally_of. cbn. by rewrite Hc1.
Qed.

End lemmas.

(** ** Jobs that can be mined on *)

Section servable.
Context `{Digests}.

Lemma built_commitment c i j kind target_byte : job_built c i j -> template_wf (in_template i) ->
  is_some (commitment j kind target_byte) = true.
Proof.
  intros Hb Ht. destruct (job_full_coinbase c i j kind target_byte Hb) as [tx Etx]. unfold commitment, job_header.
  rewrite Etx, (jb_section _ _ _ Hb). cbn [mbind option_bind txn_count].
  pose proof (tw_txns _ Ht) as Hn. pose proof (zlen_nonneg (txns (in_template i))) as Hn0. unfold MAX_SHORT_LIST_TXNS in Hn.
  rewrite (wrap_small 32 (zlen _)) by (unfold uint; lia). rewrite (proj2 (Z.leb_gt _ _)) by (destruct (bool_decide _); lia). done.
Qed.

Lemma built_header c i j kind target_byte e sia_ntime sia_nonce : job_built c i j -> template_wf (in_template i) ->
  is_some (submitted_header j kind target_byte e sia_ntime sia_nonce) = true.
Proof.
  intros Hb Ht. pose proof (built_commitment c i j kind target_byte Hb Ht) as Hc. unfold submitted_header.
  by destruct (commitment _ _ _).
Qed.

(** A table of built jobs serves. *)
Lemma built_servable t : (forall j, j ∈ installed t \/ pub_job <$> GatewayJob.current t = Some j ->
    exists c i, job_built c i j /\ template_wf (in_template i)) -> servable t.
Proof.
  intros Hall. split.
  - intros slot j Hj kind target_byte e sia_ntime sia_nonce. destruct (Hall j) as (c & i & Hb & Ht); [|by eapply built_header].
    left. apply elem_installed. unfold job_at in Hj. destruct (slots t !! Z.to_nat slot) as [[x|]|] eqn:E; [|done..].
    injection Hj as ->. by eexists.
  - intros p Hp kind target_byte. destruct (Hall (pub_job p)) as (c & i & Hb & Ht); [right; by rewrite Hp|]. by eapply built_commitment.
Qed.
End servable.

(** ** An example: a miner that subscribes, and submits *)

Inductive example_json := ENull | EText (s : bytes) | EList (l : list example_json) | EObject (fields : list (string * example_json)).

Definition example_field (l : list (string * example_json)) (key : string) : option example_json :=
  (fun e => e.2.2) <$> list_find (fun e => e.1 = key) l.

Definition example_Json : Json :=
  {| Json.value := example_json;
     at_key v key := match v with EObject l => default ENull (example_field l key) | _ => ENull end;
     as_u64 _ := None; as_i64 _ := None;
     as_str v := match v with EText s => Some s | _ => None end;
     as_array v := match v with EList l => Some l | _ => None end |}.

(** A parser of one line, and a writer of strings. *)
Definition example_line : bytes := text "{subscribe".
Definition example_from_text (s : bytes) : option example_json :=
  if bool_decide (s = example_line)
  then Some (EObject [("method"%string, EText (text "mining.subscribe")); ("id"%string, EText (text "1"));
                      ("params"%string, EList [EText (text "miner")])])
  else None.
Definition example_get_key (v : example_json) (key : string) : option example_json :=
  match v with EObject l => example_field l key | _ => None end.
Definition example_get_at (v : example_json) (i : nat) : option example_json := match v with EList l => l !! i | _ => None end.
Definition example_to_text (v : example_json) : bytes := match v with EText s => [zb 0x22] ++ s ++ [zb 0x22] | _ => [] end.

Definition example_JsonText : JsonText (H := example_Json) :=
  @Build_JsonText example_Json example_from_text example_get_key example_get_at example_to_text.

Definition example_stratum : StratumConfig :=
  {| vardiff_params := example_params; idle_timeout_no_subscribe := 15; idle_timeout_no_shares := 7200; idle_timeout_max_last_work := 0;
     require_address_username := false; username_modifiers := []; mining_pool_address := text "pool"; stale_window := from_secs 160 |}.

Definition example_clock (n : nat) : Z := 10 ^ 9 + Z.of_nat n * 10 ^ 6.

Definition example_job : option Job :=
  match build_job (H := zero_digests) example_job_config example_inputs 77 0 with Some (Ok j) => Some j | _ => None end.

Definition example_gateway (j : Job) : Gateway :=
  {| gw_jobs := (publish (table_new 256 (from_secs 300)) j Pooled 0).1; gw_pool := pool_new 10;
     seen_share_hashes := seen_new 1024 (from_secs 160); found_blocks := [] |}.

Definition example_turns (j : Job) : list Turn :=
  [{| turn_gateway := example_gateway j; turn_kill := false; turn_budget := None; turn_input := Chunk (example_line ++ [NEWLINE]) |}].

Abbreviation example_served j :=
  ((serve_turns (H := zero_digests) (H0 := Address.letter_codec) (H1 := example_Json) (H2 := example_JsonText) example_stratum example_clock
     (connected example_stratum example_clock 1 (example_gateway j)) (example_turns j)).1) (only parsing).

Lemma example_job_built (P : Job -> bool) : from_option P false example_job = true -> exists j,
  example_job = Some j /\ P j = true /\ @build_job zero_digests example_job_config example_inputs 77 0 = Some (Ok j).
Proof.
  unfold example_job. destruct (build_job _ _ _ _) as [[j|]|] eqn:E; [|done..]. intros HP. by exists j.
Defined.

Lemma example_current j : GatewayJob.current (gw_jobs (example_gateway j)) = Some {| pub_job := j; pub_kind := Pooled; pub_sequence := 1 |}.
Proof. reflexivity. Defined.

Lemma example_gateway_ok j : @build_job zero_digests example_job_config example_inputs 77 0 = Some (Ok j) ->
  gateway_ok (H := zero_digests) (example_gateway j).
Proof.
  intros Hb. destruct (@build_job_spec zero_digests example_job_config example_inputs 77 0) as (r & Er & Hr). rewrite Hb in Er.
  apply (inj Some) in Er as <-. specialize (Hr j eq_refl). split; [|by left].
  intros p Ep. rewrite example_current in Ep. injection Ep as <-. cbn [pub_job]. unfold prev_of.
  by rewrite (jb_hidden _ _ _ Hr), (jb_template _ _ _ Hr).
Defined.

(** A reply, a difficulty and a notify. *)
Definition told_work (l : list Out) : bool :=
  match l with [Sent (Reply _ _ _); Sent (SetDifficulty _); Sent (NotifyLine _)] => true | _ => false end.

Lemma told_work_inv l : told_work l = true -> exists pre n, l = pre ++ [Sent (NotifyLine n)].
Proof.
  destruct l as [|[[]|] [|[[]|] [|[[| |n]|] [|]]]]; try discriminate. intros _. eexists [_; _], n. reflexivity.
Defined.

Lemma connection_tells_the_miner_witness : exists j pre n, example_job = Some j /\
  emitted (example_served j) = pre ++ [Sent (NotifyLine n)] /\
  (exists d, last_told pre = Some (format d) /\ n_nbits n = hex_fixed 8 (share_nbits (floor_log2 d))) /\
  (n_clean n = true \/ last_tip pre = Some (n_prevblock_hidden n)).
Proof.
  destruct (example_job_built (fun j => told_work (emitted (example_served j)))) as (j & Ej & HP & Hb); [vm_compute; reflexivity|].
  apply told_work_inv in HP as (pre & n & E). exists j, pre, n. split; [exact Ej|]. split; [exact E|].
  destruct (connection_tells_the_miner (H := zero_digests) (H0 := Address.letter_codec) (H1 := example_Json) (H2 := example_JsonText)
    example_stratum example_clock 1 (example_gateway j) (example_turns j) pre n []) as [(d & _ & Ht & Hn) Hc].
  - exists 14. split; [lia|reflexivity].
  - apply example_gateway_ok. exact Hb.
  - constructor; [apply example_gateway_ok; exact Hb|constructor].
  - exact E.
  - split; [exists d; split; [exact Ht|exact Hn]|exact Hc].
Defined.

(** What the miner submits on the job it was sent. *)
Definition example_submit (j : Job) : example_json :=
  EList [EText (text "miner"); EText (notify_id Plain (job_stratum_id j)); EText (hex_encode (zeros EXTRANONCE2_SIZE)); EText ntime_hex;
         EText (hex_encode (sia_words 7 0))].

Abbreviation example_submitting j :=
  {| connection := connection (example_served j); gateway := example_gateway j; emitted := []; io_budget := None; clock_reads := 9 |} (only parsing).

Lemma example_servable j : @build_job zero_digests example_job_config example_inputs 77 0 = Some (Ok j) ->
  servable (H := zero_digests) (gw_jobs (example_gateway j)).
Proof.
  intros Hb. destruct (@build_job_spec zero_digests example_job_config example_inputs 77 0) as (r & Er & Hr). rewrite Hb in Er.
  apply (inj Some) in Er as <-. specialize (Hr j eq_refl). apply built_servable. intros x Hx.
  assert (x = j) as ->; [|exists example_job_config, example_inputs; split; [exact Hr|exact example_template_wf]].
  destruct Hx as [Hx|Hx]; [|by injection Hx].
  apply elem_installed in Hx as (i & Hi).
  change (slots _) with (<[Z.to_nat (slot j) := Some j]> (replicate 256 (@None Job))) in Hi. apply list_lookup_insert_Some in Hi as [(_ & Hx & _)|(_ & Hi)]; [by injection Hx|].
  apply lookup_replicate in Hi as [Hi _]. done.
Defined.

Lemma submit_keeps_its_word_witness : exists j w2 w1 v k, example_job = Some j /\
  on_submit (H := zero_digests) (H0 := Address.letter_codec) (H1 := example_Json) (H2 := example_JsonText) example_stratum example_clock
    (text "4") (example_submit j) (example_submitting j) = (w2, Ok tt) /\
  emitted w2 = emitted w1 ++ Sent (match v with Ok tt => Reply None (text "4") (ABool true) | Err e => Reply (Some e) (text "4") ANull end) :: k.
Proof.
  destruct (example_job_built (fun j => is_ok (parse_submit (H1 := example_Json) (H2 := example_JsonText) (example_submitting j) (example_submit j))))
    as (j & Ej & HP & Hb); [vm_compute; reflexivity|]. exists j.
  destruct (submit_keeps_its_word (H := zero_digests) (H0 := Address.letter_codec) (H1 := example_Json) (H2 := example_JsonText)
    example_stratum example_clock (text "4") (example_submit j) (example_submitting j)) as (w2 & E & Hs).
  - reflexivity.
  - apply example_servable. exact Hb.
  - destruct (parse_submit _ _) as [req|d]; [|discriminate HP]. destruct Hs as (header & w1 & v & k & _ & _ & _ & Ek & _).
    exists w2, w1, v, k. split; [exact Ej|]. split; [exact E|]. rewrite Ek. destruct v as [[]|]; reflexivity.
Defined.
