(* ===== verification/GatewayConfig.v ===== *)
(** The gateway's configuration ([gateway/src/config.rs]): its sections as [serde] reads
    them, their defaults, the checks made at startup and of a file the settings page is
    about to save, and what is derived from it. The reading of the JSON text is an
    argument; the words of an error and of a note are left out. *)
From S2P Require Import Prelude Float Json Text Hex Address Target Coinbase RpcUrl Messages ShareMsg HashCount.
From S2P Require Import Vardiff GatewayUser GatewayJob Client.

Definition EXTRA_JOBS_PER_TIP : Z := 1.
Definition MAX_THREADS : Z := 64.
Definition MAX_CLIENTS_PER_THREAD : Z := 4096.

(** A range with both its ends. *)
Definition Range : Type := Z * Z.
Definition contains (r : Range) (v : Z) : bool := (r.1 <=? v) && (v <=? r.2).

Definition WORK_UPDATE_SECONDS_RANGE : Range := (5, 120).
Definition PORT_RANGE : Range := (1, 2 ^ 16 - 1).
Definition COINBASE_UNIQUE_ID_RANGE : Range := (0, 2 ^ 16 - 1).
Definition VARDIFF_MIN_RANGE : Range := (1, HashCount.MAX).
Definition MIN_VARDIFF_TARGET_SHARES_MIN : Z := 1.
Definition MIN_VARDIFF_QUICKDIFF_COUNT : Z := 4.
Definition MIN_VARDIFF_QUICKDIFF_DELTA : Z := 3.
Definition SHARE_STALE_SECONDS_RANGE : Range := (60, 150).
Definition GLOBAL_TIMEOUT_MARGIN_SECS : Z := 5.
Definition MAX_PROTOCOL_GLOBAL_TIMEOUT_SECS : Z := 86400.
Definition JOB_RETENTION_STALE_WINDOWS : Z := 2.
Definition SHARE_CAPACITY_HEADROOM : Z := 16.
Definition MAX_CONFIGURED_TAG_LEN : Z := 60.
Definition MAX_CONFIGURED_TAGS_TOTAL_LEN : Z := 88.

(** ** The sections *)

Record BitcoindConfig := {
  rpccookiefile : bytes; rpcuser : bytes; rpcpassword : bytes; rpcurl : bytes; work_update_seconds : Z; notify_fallback : bool;
}.

Definition bitcoind_default : BitcoindConfig :=
  {| rpccookiefile := []; rpcuser := []; rpcpassword := []; rpcurl := []; work_update_seconds := 40; notify_fallback := true |}.

(** The section's fields besides [vardiff_min] as written. *)
Record StratumSection := {
  st_listen_addr : bytes; st_listen_port : Z; max_clients_per_thread : Z; max_threads : Z; max_clients : Z; trust_proxy : Z;
  vardiff_min : Z; vardiff_target_shares_min : Z; vardiff_quickdiff_count : Z; vardiff_quickdiff_delta : Z;
  share_stale_seconds : Z; st_idle_no_subscribe : Z; st_idle_no_shares : Z; st_idle_max_last_work : Z;
  st_require_address : bool; st_modifiers : list UsernameModifier;
}.

Definition stratum_default : StratumSection :=
  {| st_listen_addr := []; st_listen_port := 23334; max_clients_per_thread := 128; max_threads := 8; max_clients := 1024;
     trust_proxy := -1; vardiff_min := 16384; vardiff_target_shares_min := 8; vardiff_quickdiff_count := 8;
     vardiff_quickdiff_delta := 8; share_stale_seconds := 120; st_idle_no_subscribe := 15; st_idle_no_shares := 7200;
     st_idle_max_last_work := 0; st_require_address := false; st_modifiers := [] |}.

Record MiningConfig := {
  pool_address : bytes; tag_primary : bytes; tag_secondary : bytes; unique_id : Z; save_submitblocks_dir : bytes;
  allow_hasher_time_rolling : option bool; abw_verify_all_shares_on_disclosure : option bool;
}.

Definition mining_default : MiningConfig :=
  {| pool_address := []; tag_primary := []; tag_secondary := []; unique_id := 4242; save_submitblocks_dir := [];
     allow_hasher_time_rolling := None; abw_verify_all_shares_on_disclosure := None |}.

Record ApiConfig := {
  admin_password : bytes; allow_insecure_auth : bool; api_listen_addr : bytes; api_listen_port : Z; miner_listen_addr : bytes;
  miner_listen_port : Z; modify_conf : bool;
}.

Definition api_default : ApiConfig :=
  {| admin_password := []; allow_insecure_auth := false; api_listen_addr := []; api_listen_port := 0; miner_listen_addr := [];
     miner_listen_port := 8000; modify_conf := false |}.

Record Pool := { pool_host : bytes; pool_port : Z; pool_pubkey : bytes; pool_url : bytes }.

Definition pool_default : Pool :=
  {| pool_host := text "datum-beta1.mine.ocean.xyz"; pool_port := 28915;
     pool_pubkey := text "f21f2f0ef0aa1970468f22bad9bb7f4535146f8e4a8f646bebc93da3d89b1406f40d032f09a417d94dc068055df654937922d2c89522e3e8f6f0e649de473003";
     pool_url := [] |}.

Record DatumConfig := {
  pool : Pool; fallback_pools : list Pool; pass_workers : bool; job_slots : Z; pass_full_users : bool;
  always_pay_self : option bool; pooled_mining_only : bool; global_timeout : Z; protocol_v3 : bool; migration_max_seconds : option Z;
}.

Definition datum_default : DatumConfig :=
  {| pool := pool_default; fallback_pools := []; pass_workers := true; job_slots := 256; pass_full_users := true;
     always_pay_self := None; pooled_mining_only := true; global_timeout := 60; protocol_v3 := true; migration_max_seconds := None |}.

(** What is noted at startup: [NotCovering] is an error, the others are warnings. *)
Inductive StartupNote :=
| RoundedUpTo (d : Z) | LegacyDifficulty (d : Z) | NotAPowerOfTwo (was rounded : Z) | ProxyNotSupported | TagsShortened (len fits : Z)
| InsecureAuth | CannotSave | FallbacksIgnored | AddressNotPassed | PaySelf | TimeRolling | VerifyOnDisclosure | Migration
| NotCovering (modifier : bytes) (uncovered : f64).

(** Which pool an error names. *)
Inductive PoolName := MainPool | FallbackPool (i : nat).

Inductive ConfigError :=
| NoRpcUrl | BadRpcUrl (shown : bytes) | NoRpcPassword | NoCredential
| AtLeast (key : string) (least : Z) | AtMost (key : string) (most : Z) | NotIn (key : string) (range : Range)
| TooManyClients | BadVardiffMin | NoPoolAddress | TagsTooLong | UnpayablePoolAddress | BadJobSlots | FewJobSlots (least : Z)
| ShortTimeout | NoHost (p : PoolName) | BadPort (p : PoolName) | BadPubkey (p : PoolName) | BadPoolUrl (p : PoolName)
| PooledWithoutHost | PoolTwice (i : nat) (address : bytes) | BadModifier (name : bytes) (why : ModifierError).

Definition at_least (key : string) (v least : Z) : result ConfigError () := if v <? least then Err (AtLeast key least) else Ok ().
Definition at_most (key : string) (v most : Z) : result ConfigError () := if most <? v then Err (AtMost key most) else Ok ().
Definition in_range (key : string) (v : Z) (r : Range) : result ConfigError () := if contains r v then Ok () else Err (NotIn key r).

Definition is_web_url (url : bytes) : bool :=
  existsb (fun scheme => (length scheme <=? length url)%nat && eq_ignore_ascii_case (take (length scheme) url) scheme)
    [text "http://"; text "https://"].

Definition address (p : Pool) : bytes := pool_host p ++ [COLON] ++ decimal (pool_port p).

Definition PUBLIC_KEYS_LEN : nat := 64.

(** [PublicKeys::from_hex]: the bytes of the keys. *)
Definition pubkey (p : Pool) : option bytes :=
  if (length (pool_pubkey p) =? 2 * PUBLIC_KEYS_LEN)%nat then hex_decode (pool_pubkey p) else None.

Definition check_pool_url (p : Pool) (name : PoolName) : result ConfigError () :=
  if negb (bool_decide (pool_url p = [])) && negb (is_web_url (pool_url p)) then Err (BadPoolUrl name) else Ok ().

Definition check_pool (p : Pool) (name : PoolName) : result ConfigError () :=
  if bool_decide (pool_host p = []) then Err (NoHost name) else
  if negb (contains PORT_RANGE (pool_port p)) then Err (BadPort name) else
  if negb (is_some (pubkey p)) then Err (BadPubkey name) else check_pool_url p name.

Section config.
Context `{!AddressCodec} `{!Json, !JsonRest} (powi10 : Z -> f64).

(** [vardiff_min_input] is [stratum.vardiff_min] as written. *)
Record Config := {
  bitcoind : BitcoindConfig; stratum : StratumSection; vardiff_min_input : value; mining : MiningConfig; api : ApiConfig;
  extra_block_submissions : list bytes; datum : DatumConfig;
  startup_notes : list StartupNote; output_script : bytes; pools : list Pool;
}.

Definition set_bitcoind (c : Config) (x : BitcoindConfig) : Config :=
  {| bitcoind := x; stratum := stratum c; vardiff_min_input := vardiff_min_input c; mining := mining c; api := api c;
     extra_block_submissions := extra_block_submissions c; datum := datum c; startup_notes := startup_notes c;
     output_script := output_script c; pools := pools c |}.

Definition set_stratum (c : Config) (x : StratumSection) : Config :=
  {| bitcoind := bitcoind c; stratum := x; vardiff_min_input := vardiff_min_input c; mining := mining c; api := api c;
     extra_block_submissions := extra_block_submissions c; datum := datum c; startup_notes := startup_notes c;
     output_script := output_script c; pools := pools c |}.

(** The notes, the script and the pools of a configuration, which validating it fills in. *)
Definition set_derived (c : Config) (notes : list StartupNote) (script : bytes) (ps : list Pool) : Config :=
  {| bitcoind := bitcoind c; stratum := stratum c; vardiff_min_input := vardiff_min_input c; mining := mining c; api := api c;
     extra_block_submissions := extra_block_submissions c; datum := datum c; startup_notes := notes; output_script := script; pools := ps |}.

Definition note_warning (c : Config) (n : StartupNote) : Config := set_derived c (startup_notes c ++ [n]) (output_script c) (pools c).
Definition note_if (b : bool) (n : StartupNote) (c : Config) : Config := if b then note_warning c n else c.

(** ** The checks *)

Definition set_work_update (b : BitcoindConfig) (secs : Z) : BitcoindConfig :=
  {| rpccookiefile := rpccookiefile b; rpcuser := rpcuser b; rpcpassword := rpcpassword b; rpcurl := rpcurl b;
     work_update_seconds := secs; notify_fallback := notify_fallback b |}.

Definition validate_bitcoind (c : Config) : result ConfigError Config :=
  let b := bitcoind c in
  if bool_decide (rpcurl b = []) then Err NoRpcUrl else
  _ ← map_err BadRpcUrl (check_url (rpcurl b));
  _ ← (if negb (bool_decide (rpcuser b = []))
    then if bool_decide (rpcpassword b = []) then Err NoRpcPassword else Ok ()
    else if bool_decide (rpccookiefile b = []) then Err NoCredential else Ok ());
  Ok (set_bitcoind c (set_work_update b
    (Z.min (Z.max (work_update_seconds b) WORK_UPDATE_SECONDS_RANGE.1) WORK_UPDATE_SECONDS_RANGE.2))).

Definition set_vardiff_min (s : StratumSection) (d : Z) : StratumSection :=
  {| st_listen_addr := st_listen_addr s; st_listen_port := st_listen_port s; max_clients_per_thread := max_clients_per_thread s;
     max_threads := max_threads s; max_clients := max_clients s; trust_proxy := trust_proxy s; vardiff_min := d;
     vardiff_target_shares_min := vardiff_target_shares_min s; vardiff_quickdiff_count := vardiff_quickdiff_count s;
     vardiff_quickdiff_delta := vardiff_quickdiff_delta s; share_stale_seconds := share_stale_seconds s;
     st_idle_no_subscribe := st_idle_no_subscribe s; st_idle_no_shares := st_idle_no_shares s;
     st_idle_max_last_work := st_idle_max_last_work s; st_require_address := st_require_address s; st_modifiers := st_modifiers s |}.

Definition parse_vardiff_min (c : Config) : result ConfigError Config :=
  if is_null (vardiff_min_input c) then Ok c else
  parsed ← ok_or BadVardiffMin (HashCount.parse powi10 (vardiff_min_input c));
  Ok (match parsed with
    | Exact d => set_stratum c (set_vardiff_min (stratum c) d)
    | RoundedUp d => note_warning (set_stratum c (set_vardiff_min (stratum c) d)) (RoundedUpTo d)
    | Legacy d => note_warning (set_stratum c (set_vardiff_min (stratum c) d)) (LegacyDifficulty d)
    end).

Definition is_power_of_two (v : Z) : bool := (0 <? v) && (v =? 2 ^ Z.log2 v).

Definition validate_stratum (c : Config) : result ConfigError Config :=
  let s := stratum c in
  _ ← at_most "stratum.max_threads" (max_threads s) MAX_THREADS;
  _ ← at_most "stratum.max_clients_per_thread" (max_clients_per_thread s) MAX_CLIENTS_PER_THREAD;
  if wrap 64 (max_clients_per_thread s * max_threads s) <? max_clients s then Err TooManyClients else
  _ ← in_range "stratum.listen_port" (st_listen_port s) PORT_RANGE;
  c ← parse_vardiff_min c;
  let s := stratum c in
  _ ← in_range "stratum.vardiff_min" (vardiff_min s) VARDIFF_MIN_RANGE;
  _ ← at_least "stratum.vardiff_target_shares_min" (vardiff_target_shares_min s) MIN_VARDIFF_TARGET_SHARES_MIN;
  _ ← at_most "stratum.vardiff_target_shares_min" (vardiff_target_shares_min s) MAX_VARDIFF_TARGET_SHARES_MIN;
  _ ← at_least "stratum.vardiff_quickdiff_count" (vardiff_quickdiff_count s) MIN_VARDIFF_QUICKDIFF_COUNT;
  _ ← at_least "stratum.vardiff_quickdiff_delta" (vardiff_quickdiff_delta s) MIN_VARDIFF_QUICKDIFF_DELTA;
  _ ← in_range "stratum.share_stale_seconds" (share_stale_seconds s) SHARE_STALE_SECONDS_RANGE;
  let c := if is_power_of_two (vardiff_min s) then c else
    let rounded := pow2_floor (vardiff_min s) in
    note_warning (set_stratum c (set_vardiff_min s rounded)) (NotAPowerOfTwo (vardiff_min s) rounded) in
  Ok (note_if (negb (trust_proxy (stratum c) =? -1)) ProxyNotSupported c).

Definition validate_mining (c : Config) : result ConfigError Config :=
  let m := mining c in
  if bool_decide (pool_address m = []) then Err NoPoolAddress else
  _ ← in_range "mining.coinbase_unique_id" (unique_id m) COINBASE_UNIQUE_ID_RANGE;
  let tags := zlen (tag_primary m) + zlen (tag_secondary m) in
  if (MAX_CONFIGURED_TAGS_TOTAL_LEN <? tags) || (MAX_CONFIGURED_TAG_LEN <? zlen (tag_primary m)) || (MAX_CONFIGURED_TAG_LEN <? zlen (tag_secondary m))
  then Err TagsTooLong else
  script ← ok_or UnpayablePoolAddress (to_output_script (pool_address m) None);
  let c := set_derived c (startup_notes c) script (pools c) in
  let fits := max_tag_bytes false in
  Ok (note_if (fits <? tags) (TagsShortened tags fits) c).

Definition validate_api (c : Config) : Config :=
  let c := note_if (allow_insecure_auth (api c)) InsecureAuth c in
  note_if (modify_conf (api c) && bool_decide (admin_password (api c) = [])) CannotSave c.

(** The loop over the fallback pools, with those held before. *)
Fixpoint add_fallbacks (fallbacks : list Pool) (i : nat) (held : list Pool) : result ConfigError (list Pool) :=
  match fallbacks with
  | [] => Ok held
  | f :: fallbacks =>
    _ ← check_pool f (FallbackPool i);
    if existsb (fun p => bool_decide (address p = address f)) held then Err (PoolTwice i (address f))
    else add_fallbacks fallbacks (S i) (held ++ [f])
  end.

(** [div_ceil]. *)
Definition div_up (a b : Z) : Z := (a + (b - 1)) / b.

Definition min_job_slots (c : Config) : Z :=
  EXTRA_JOBS_PER_TIP + div_up (share_stale_seconds (stratum c) + work_update_seconds (bitcoind c)) (work_update_seconds (bitcoind c)).

Definition validate_datum (c : Config) : result ConfigError Config :=
  let d := datum c in
  if negb (contains (1, MAX_JOBS) (job_slots d)) then Err BadJobSlots else
  let min_slots := min_job_slots c in
  if job_slots d <? min_slots then Err (FewJobSlots min_slots) else
  if global_timeout d <? work_update_seconds (bitcoind c) + GLOBAL_TIMEOUT_MARGIN_SECS then Err ShortTimeout else
  _ ← at_most "datum.protocol_global_timeout" (global_timeout d) MAX_PROTOCOL_GLOBAL_TIMEOUT_SECS;
  _ ← check_pool_url (pool d) MainPool;
  if pooled_mining_only d && bool_decide (pool_host (pool d) = []) then Err PooledWithoutHost else
  c ← (if negb (bool_decide (pool_host (pool d) = []))
    then _ ← check_pool (pool d) MainPool; ps ← add_fallbacks (fallback_pools d) 0 [pool d]; Ok (set_derived c (startup_notes c) (output_script c) ps)
    else Ok (note_if (negb (bool_decide (length (fallback_pools d) = 0%nat))) FallbacksIgnored c));
  let c := note_if (st_require_address (stratum c) && negb (pass_full_users d)) AddressNotPassed c in
  let c := note_if (is_some (always_pay_self d)) PaySelf c in
  let c := note_if (bool_decide (allow_hasher_time_rolling (mining c) = Some true)) TimeRolling c in
  let c := note_if (bool_decide (abw_verify_all_shares_on_disclosure (mining c) = Some true)) VerifyOnDisclosure c in
  Ok (note_if (from_option (fun s => negb (s =? 0)) false (migration_max_seconds d)) Migration c).

(** The loop over the modifiers, with the notes held before. *)
Fixpoint modifier_notes (ms : list UsernameModifier) (notes : list StartupNote) : result ConfigError (list StartupNote) :=
  match ms with
  | [] => Ok notes
  | m :: ms =>
    uncovered ← map_err (BadModifier (modifier_name m)) (validate_modifier m);
    modifier_notes ms (notes ++ match uncovered with Some u => [NotCovering (modifier_name m) u] | None => [] end)
  end.

Definition validate_username_modifiers (c : Config) : result ConfigError Config :=
  notes ← modifier_notes (st_modifiers (stratum c)) [];
  Ok (set_derived c (startup_notes c ++ notes) (output_script c) (pools c)).

Definition validate (c : Config) : result ConfigError Config :=
  c ← validate_bitcoind c;
  c ← validate_stratum c;
  c ← validate_mining c;
  c ← validate_datum (validate_api c);
  validate_username_modifiers c.

(** [Config::parse]; a text that is no configuration has the error of [serde]. *)
Definition parse_config {E} (from_str : bytes -> result E Config) (t : bytes) : result (E + ConfigError) Config :=
  c ← map_err inl (from_str t); map_err inr (validate c).

(** ** What is derived *)

Definition stale_window_secs (c : Config) : Z := wrap 64 (share_stale_seconds (stratum c) + work_update_seconds (bitcoind c)).
Definition job_retention_secs (c : Config) : Z := stale_window_secs c * JOB_RETENTION_STALE_WINDOWS.

(** A [usize] is 64 bits. *)
Definition shares_in_stale_window (c : Config) : Z :=
  let s := stratum c in
  div_up (sat_mul 64 (sat_mul 64 (sat_mul 64 (max_clients s) (vardiff_target_shares_min s)) (stale_window_secs c)) SHARE_CAPACITY_HEADROOM) 60.

(** The parts of the configuration the other components take. *)
Definition params_of (c : Config) : VardiffParams :=
  {| Vardiff.min := vardiff_min (stratum c); target_shares_min := vardiff_target_shares_min (stratum c);
     quickdiff_count := vardiff_quickdiff_count (stratum c); quickdiff_delta := vardiff_quickdiff_delta (stratum c) |}.

Definition job_config_of (c : Config) : JobConfig :=
  {| protocol_job_slots := job_slots (datum c); pool_output_script := output_script c; coinbase_tag_primary := tag_primary (mining c);
     coinbase_tag_secondary := tag_secondary (mining c); coinbase_unique_id := unique_id (mining c) |}.

Definition stratum_config_of (c : Config) : StratumConfig :=
  {| vardiff_params := params_of c; idle_timeout_no_subscribe := st_idle_no_subscribe (stratum c);
     idle_timeout_no_shares := st_idle_no_shares (stratum c); idle_timeout_max_last_work := st_idle_max_last_work (stratum c);
     require_address_username := st_require_address (stratum c); username_modifiers := st_modifiers (stratum c);
     mining_pool_address := pool_address (mining c); stale_window := stale_window_secs c * 10 ^ 9 |}.

Definition datum_users_of (c : Config) : DatumUsers := {| pool_pass_full_users := pass_full_users (datum c); pool_pass_workers := pass_workers (datum c) |}.
End config.

(** ** What a validated configuration is *)

Section sound.
Context `{!AddressCodec} `{!Json, !JsonRest} (powi10 : Z -> f64).

Abbreviation validate := (validate powi10).

(** The fields [serde] gives are within their types. *)
Definition config_typed (c : Config) : Prop :=
  let s := stratum c in
  uint 64 (max_clients s) /\ uint 64 (max_threads s) /\ uint 64 (max_clients_per_thread s) /\ uint 64 (vardiff_quickdiff_count s) /\
  uint 64 (vardiff_quickdiff_delta s) /\ pools c = [].

Definition pool_ok (p : Pool) : Prop :=
  pool_host p <> [] /\ 1 <= pool_port p <= 65535 /\ (exists keys, pubkey p = Some keys /\ length keys = PUBLIC_KEYS_LEN) /\
  (pool_url p = [] \/ is_web_url (pool_url p) = true).

Definition modifier_ok (m : UsernameModifier) : Prop :=
  Forall (fun r => (range_address r = [] \/ is_valid (range_address r) None = true) /\ f64_lt (proportion r) f64_zero = false) (ranges m).

Record bitcoind_ok (b : BitcoindConfig) : Prop := {
  bo_url : exists r, parse_url (rpcurl b) = Ok r;
  bo_credential : rpcuser b <> [] /\ rpcpassword b <> [] \/ rpcuser b = [] /\ rpccookiefile b <> [];
  bo_update : 5 <= work_update_seconds b <= 120;
}.

Record stratum_ok (s : StratumSection) : Prop := {
  so_clients : 0 <= max_clients s <= 64 * 4096;
  so_port : 1 <= st_listen_port s <= 65535;
  so_vardiff : exists k, 0 <= k <= 30 /\ vardiff_min s = 2 ^ k;
  so_shares : 1 <= vardiff_target_shares_min s <= 20000;
  so_count : 4 <= vardiff_quickdiff_count s < 2 ^ 64;
  so_delta : 3 <= vardiff_quickdiff_delta s < 2 ^ 64;
  so_stale : 60 <= share_stale_seconds s <= 150;
}.

Record mining_ok (m : MiningConfig) (script : bytes) : Prop := {
  mo_id : 0 <= unique_id m <= 65535;
  mo_tags : zlen (tag_primary m) <= 60 /\ zlen (tag_secondary m) <= 60 /\ zlen (tag_primary m) + zlen (tag_secondary m) <= 88;
  mo_script : to_output_script (pool_address m) None = Some script;
}.

(** The pools tried: none without a host, or the configured one and the others in order. *)
Definition pools_ok (d : DatumConfig) (ps : list Pool) : Prop :=
  if decide (pool_host (pool d) = []) then ps = [] /\ pooled_mining_only d = false
  else ps = pool d :: fallback_pools d /\ Forall pool_ok ps /\ NoDup (address <$> ps).

Record datum_ok (c : Config) : Prop := {
  do_slots : 1 <= job_slots (datum c) <= 256;
  do_enough : min_job_slots c <= job_slots (datum c);
  do_timeout : work_update_seconds (bitcoind c) + 5 <= global_timeout (datum c) <= 86400;
  do_pools : pools_ok (datum c) (pools c);
}.

Record config_ok (c : Config) : Prop := {
  co_bitcoind : bitcoind_ok (bitcoind c);
  co_stratum : stratum_ok (stratum c);
  co_mining : mining_ok (mining c) (output_script c);
  co_datum : datum_ok c;
  co_modifiers : Forall modifier_ok (st_modifiers (stratum c));
}.

(** The notes leave the rest of the configuration. *)
Lemma note_if_same b n c : exists notes, note_if b n c = set_derived c notes (output_script c) (pools c).
Proof. destruct b; [by eexists|]. exists (startup_notes c). by destruct c. Qed.

Lemma note_if_more b n c notes script ps : exists notes2, note_if b n (set_derived c notes script ps) = set_derived c notes2 script ps.
Proof. destruct b; by eexists. Qed.

Lemma map_err_ok {E F A} (f : E -> F) (r : result E A) x : map_err f r = Ok x -> r = Ok x.
Proof. by destruct r; [intros [= ->]|]. Qed.

Lemma validate_bitcoind_ok c c2 : validate_bitcoind c = Ok c2 -> exists b, c2 = set_bitcoind c b /\ bitcoind_ok b.
Proof.
  unfold validate_bitcoind, check_url. case_bool_decide; [done|]. destruct (parse_url _) as [r|] eqn:Hu; [|done]. cbn [mbind result_bind map_err].
  destruct (_ : result ConfigError ()) as [[]|] eqn:Hc; [|done]. cbn [mbind result_bind]. intros [= <-]. eexists. split; [done|].
  constructor; cbn [rpcurl rpcuser rpcpassword rpccookiefile set_work_update work_update_seconds].
  - by exists r.
  - revert Hc. case_bool_decide; cbn [negb]; (case_bool_decide; [done|]); intros _; [by right|by left].
  - unfold WORK_UPDATE_SECONDS_RANGE. cbn [fst snd]. lia.
Qed.

Lemma in_range_ok key v r : in_range key v r = Ok () -> r.1 <= v <= r.2.
Proof. unfold in_range, contains. destruct (_ && _) eqn:E; [|done]. apply andb_prop in E. lia. Qed.

Lemma at_most_ok key v most : at_most key v most = Ok () -> v <= most.
Proof. unfold at_most. destruct (Z.ltb_spec most v); [done|lia]. Qed.

Lemma at_least_ok key v least : at_least key v least = Ok () -> least <= v.
Proof. unfold at_least. destruct (Z.ltb_spec v least); [done|lia]. Qed.

(** The next of a run of checks. *)
Ltac next_check H := match type of H with
  | mbind _ ?r = Ok _ => let E := fresh "E" in destruct r as [[]|] eqn:E; [|done]; cbn [mbind result_bind] in H;
      first [apply in_range_ok in E|apply at_most_ok in E|apply at_least_ok in E]; cbn [fst snd] in E
  end.

Lemma parse_vardiff_min_ok c c2 : parse_vardiff_min powi10 c = Ok c2 ->
  exists d notes, c2 = set_derived (set_stratum c (set_vardiff_min (stratum c) d)) notes (output_script c) (pools c).
Proof.
  unfold parse_vardiff_min. destruct (is_null _).
  { intros [= <-]. exists (vardiff_min (stratum c)), (startup_notes c). by destruct c as [? [] ?]. }
  destruct (HashCount.parse _ _) as [[d|d|d]|]; [..|done]; cbn [ok_or mbind result_bind]; intros [= <-]; by eexists d, _.
Qed.

Lemma pow2_floor_is_pow2 d : 1 <= d <= 2 ^ 30 -> exists k, 0 <= k <= 30 /\ pow2_floor d = 2 ^ k.
Proof.
  intros [Hlo Hhi]. exists (Z.log2 d). split.
  - split; [apply Z.log2_nonneg|]. apply Z.log2_le_mono in Hhi. by rewrite Z.log2_pow2 in Hhi by done.
  - unfold pow2_floor, floor_log2. rewrite (proj2 (Z.eqb_neq d 0)) by lia. apply Z.shiftl_1_l.
Qed.

Lemma power_of_two_floor d : is_power_of_two d = true -> pow2_floor d = d.
Proof.
  unfold is_power_of_two, pow2_floor, floor_log2. intros [Hd%Z.ltb_lt Hp%Z.eqb_eq]%andb_prop.
  rewrite (proj2 (Z.eqb_neq d 0)) by lia. by rewrite Z.shiftl_1_l.
Qed.

(** Two clients' worth of products. *)
Lemma clients_bound a b m : 0 <= a <= MAX_CLIENTS_PER_THREAD -> 0 <= b <= MAX_THREADS -> m <= wrap 64 (a * b) -> m <= 64 * 4096.
Proof.
  unfold MAX_CLIENTS_PER_THREAD, MAX_THREADS, wrap. intros Ha Hb Hm. assert (0 <= a * b <= 4096 * 64) by nia.
  rewrite Z.mod_small in Hm by lia. lia.
Qed.

Lemma validate_stratum_ok c c2 : config_typed c -> validate_stratum powi10 c = Ok c2 ->
  exists d notes, c2 = set_derived (set_stratum c (set_vardiff_min (stratum c) d)) notes (output_script c) (pools c) /\ stratum_ok (stratum c2).
Proof.
  intros (Hc & Ht & Hp & Hq & Hd & _) Hr. unfold uint in *. unfold validate_stratum in Hr. do 2 next_check Hr.
  destruct (Z.ltb_spec (wrap 64 (max_clients_per_thread (stratum c) * max_threads (stratum c))) (max_clients (stratum c))) as [|Hmax]; [done|].
  next_check Hr. destruct (parse_vardiff_min powi10 c) as [c1|] eqn:Hv; [|done]. cbn [mbind result_bind] in Hr.
  apply parse_vardiff_min_ok in Hv as (d & notes & ->). do 6 next_check Hr.
  cbn [stratum set_derived set_stratum] in *. set (s := set_vardiff_min (stratum c) d) in *. cbn zeta in Hr. change (vardiff_min s) with d in *.
  assert (exists d2 notes2, c2 = set_derived (set_stratum c (set_vardiff_min (stratum c) d2)) notes2 (output_script c) (pools c) /\
    exists k, 0 <= k <= 30 /\ d2 = 2 ^ k) as (d2 & notes2 & -> & Hk).
  { assert (1 <= d <= 2 ^ 30) as Hdr by done. destruct (pow2_floor_is_pow2 d Hdr) as (k & Hk & Ek). injection Hr as <-.
    match goal with |- context [note_if ?b ?n ?c0] => destruct (note_if_same b n c0) as [notes3 ->] end.
    destruct (is_power_of_two d) eqn:Hpow; eexists _, _; (split; [done|]); exists k; (split; [done|]); [|done].
    by rewrite <- (power_of_two_floor d). }
  change (4 <= vardiff_quickdiff_count (stratum c)) in E5. change (3 <= vardiff_quickdiff_delta (stratum c)) in E6.
  exists d2, notes2. split; [done|]. constructor; cbn; try done; [|lia..].
  split; [lia|]. by eapply clients_bound; [split; [|exact E0]|split; [|exact E]|]; [lia|lia|].
Qed.

Lemma validate_mining_ok c c2 : validate_mining c = Ok c2 ->
  exists notes script, c2 = set_derived c notes script (pools c) /\ mining_ok (mining c) script.
Proof.
  unfold validate_mining. intros Hr. case_bool_decide; [done|]. next_check Hr.
  destruct (_ || _) eqn:Ht; [done|]. destruct (to_output_script _ _) as [script|] eqn:Hs; [|done]. cbn [ok_or mbind result_bind] in Hr.
  injection Hr as <-. match goal with |- context [note_if ?b ?n ?c0] => destruct (note_if_same b n c0) as [notes ->] end.
  exists notes, script. split; [done|]. apply orb_false_iff in Ht as [Ht Hb]. apply orb_false_iff in Ht as [Hab Ha].
  unfold MAX_CONFIGURED_TAGS_TOTAL_LEN, MAX_CONFIGURED_TAG_LEN in *. constructor; [done|lia|done].
Qed.

Lemma hex_decode_length s : forall l, hex_decode s = Some l -> length s = (2 * length l)%nat.
Proof.
  revert s. fix IH 1. intros [|x [|y s]] l; cbn [hex_decode]; [by intros [= <-]|done|].
  destruct (hex_value x); [|done]. destruct (hex_value y); [|done]. destruct (hex_decode s) as [l2|] eqn:Hl; [|done]. cbn [mbind option_bind].
  intros [= <-]. apply IH in Hl. cbn [length]. lia.
Qed.

Lemma check_pool_ok p name : check_pool p name = Ok () -> pool_ok p.
Proof.
  unfold check_pool, check_pool_url. case_bool_decide; [done|]. destruct (contains PORT_RANGE (pool_port p)) eqn:Hp; [|done]. cbn [negb].
  destruct (pubkey p) as [keys|] eqn:Hk; [|done]. cbn [is_some negb]. destruct (negb _ && negb _) eqn:Hu; [done|]. intros _.
  apply andb_prop in Hp as [Hlo Hhi]. unfold PORT_RANGE in *. cbn [fst snd] in *. split_and!; [done|lia|lia| |].
  - exists keys. split; [done|]. unfold pubkey in Hk. destruct (Nat.eqb_spec (length (pool_pubkey p)) (2 * PUBLIC_KEYS_LEN)) as [Hl|]; [|done].
    apply hex_decode_length in Hk. lia.
  - apply andb_false_iff in Hu as [Hu|Hu]; apply negb_false_iff in Hu; [left; by apply bool_decide_eq_true in Hu|by right].
Qed.

Lemma add_fallbacks_ok fallbacks : forall i held ps, add_fallbacks fallbacks i held = Ok ps -> Forall pool_ok held -> NoDup (address <$> held) ->
  ps = held ++ fallbacks /\ Forall pool_ok ps /\ NoDup (address <$> ps).
Proof.
  induction fallbacks as [|f fs IH]; intros i held ps; cbn [add_fallbacks]; [intros [= <-] ? ?; rewrite app_nil_r; by split_and!|].
  destruct (check_pool f _) as [[]|] eqn:Hf; [|done]. cbn [mbind result_bind]. apply check_pool_ok in Hf.
  destruct (existsb _ held) eqn:Hx; [done|]. intros Hr Hh Hn.
  assert (address f ∉ address <$> held) as Hnew.
  { intros (p & Hp & Hin)%list_elem_of_fmap. assert (existsb (fun p => bool_decide (address p = address f)) held = true) as Ht; [|congruence].
    apply existsb_exists. exists p. split; [by apply list_elem_of_In|by apply bool_decide_eq_true]. }
  destruct (IH _ _ _ Hr) as (-> & Hall & Hnd).
  - apply Forall_app. split; [done|by constructor].
  - rewrite fmap_app. apply NoDup_app. split_and!; [done| |apply NoDup_singleton]. intros a Ha ->%list_elem_of_singleton. done.
  - rewrite <- app_assoc. by split_and!; rewrite <- ?app_assoc in *.
Qed.

Lemma validate_datum_ok c c2 : config_typed c -> pools c = [] -> validate_datum c = Ok c2 ->
  exists notes ps, c2 = set_derived c notes (output_script c) ps /\ (5 <= work_update_seconds (bitcoind c) -> datum_ok c2).
Proof.
  intros _ Hnone. unfold validate_datum. destruct (contains (1, MAX_JOBS) _) eqn:Hslots; [|done]. cbn [negb].
  destruct (Z.ltb_spec (job_slots (datum c)) (min_job_slots c)) as [|Hmin]; [done|].
  destruct (Z.ltb_spec (global_timeout (datum c)) (work_update_seconds (bitcoind c) + GLOBAL_TIMEOUT_MARGIN_SECS)) as [|Hto]; [done|].
  intros Hr. next_check Hr. destruct (check_pool_url _ _) as [[]|]; [|done]. cbn [mbind result_bind] in Hr.
  destruct (pooled_mining_only (datum c) && bool_decide (pool_host (pool (datum c)) = [])) eqn:Hpo; [done|].
  set (inner := if negb (bool_decide (pool_host (pool (datum c)) = [])) then _ else _) in Hr.
  assert (forall c3, inner = Ok c3 -> exists notes ps, c3 = set_derived c notes (output_script c) ps /\ pools_ok (datum c) ps) as Hinner.
  { intros c3. subst inner. unfold pools_ok. destruct (decide (pool_host (pool (datum c)) = [])) as [Hh|Hh].
    - rewrite bool_decide_eq_true_2 by done. cbn [negb]. intros [= <-]. rewrite bool_decide_eq_true_2, andb_true_r in Hpo by done.
      destruct (note_if_same (negb (bool_decide (length (fallback_pools (datum c)) = 0%nat))) FallbacksIgnored c) as [notes ->].
      by exists notes, (pools c).
    - rewrite bool_decide_eq_false_2 by done. cbn [negb]. destruct (check_pool _ MainPool) as [[]|] eqn:Hc; [|done]. cbn [mbind result_bind].
      destruct (add_fallbacks _ _ _) as [ps|] eqn:Ha; [|done]. cbn [mbind result_bind]. intros [= <-]. exists (startup_notes c), ps. split; [done|].
      apply check_pool_ok in Hc. apply add_fallbacks_ok in Ha as (-> & Hall & Hnd); [by split_and!|by constructor|]. apply NoDup_singleton. }
  destruct inner as [c3|]; [|done]. destruct (Hinner c3 eq_refl) as (notes & ps & -> & Hok). cbn [mbind result_bind] in Hr.
  injection Hr as <-. repeat match goal with |- context [note_if ?b ?n (set_derived ?c0 ?notes ?script ?ps)] =>
    destruct (note_if_more b n c0 notes script ps) as [? ->] end.
  eexists _, ps. split; [done|]. intros Hw. apply andb_prop in Hslots as [Hs1 Hs2]. unfold MAX_JOBS, GLOBAL_TIMEOUT_MARGIN_SECS in *. cbn [fst snd] in *.
  constructor; cbn; [lia|done|split; [lia|done]|done].
Qed.

Lemma modifier_notes_ok ms : forall notes l, modifier_notes ms notes = Ok l -> Forall modifier_ok ms.
Proof.
  induction ms as [|m ms IH]; intros notes l; cbn [modifier_notes]; [by constructor|].
  destruct (validate_modifier m) as [u|] eqn:Hm; [|done]. cbn [mbind result_bind map_err]. intros Hr. constructor; [|by eapply IH].
  unfold validate_modifier in Hm. destruct (list_find _ (ranges m)) as [[i r]|] eqn:Hf1; [done|].
  destruct (list_find (fun r => f64_lt (proportion r) f64_zero = true) (ranges m)) as [[i r]|] eqn:Hf2; [done|].
  apply list_find_None in Hf1, Hf2. unfold modifier_ok. rewrite Forall_forall in *. intros r Hr2. specialize (Hf1 r Hr2). specialize (Hf2 r Hr2). cbn in Hf1, Hf2.
  split; [|by apply not_true_is_false]. destruct (decide (range_address r = [])) as [|Hne]; [by left|right].
  apply not_false_is_true. intros Hf. by apply Hf1.
Qed.

(** What validating fills in and rounds; the rest is as it was read. *)
Lemma validate_ok c c2 : config_typed c -> validate c = Ok c2 -> config_ok c2.
Proof.
  intros Ht Hr. unfold GatewayConfig.validate in Hr.
  destruct (validate_bitcoind c) as [c3|] eqn:E3; [|done]. apply validate_bitcoind_ok in E3 as (b & -> & Hb). cbn [mbind result_bind] in Hr.
  destruct (validate_stratum _ _) as [c4|] eqn:E4; [|done]. apply validate_stratum_ok in E4 as (d & n4 & -> & Hs); [|done]. cbn [mbind result_bind] in Hr.
  destruct (validate_mining _) as [c5|] eqn:E5; [|done]. apply validate_mining_ok in E5 as (n5 & script & -> & Hm). cbn [mbind result_bind] in Hr.
  destruct (validate_datum _) as [c6|] eqn:E6; [|done]. cbn [mbind result_bind] in Hr. unfold validate_api in E6.
  repeat match type of E6 with context [note_if ?b ?n (set_derived ?c0 ?notes ?script ?ps)] =>
    destruct (note_if_more b n c0 notes script ps) as [? Hn]; rewrite Hn in E6; clear Hn end.
  apply validate_datum_ok in E6 as (n6 & ps & -> & Hd); [| |by apply Ht]; [|done].
  unfold validate_username_modifiers in Hr. destruct (modifier_notes _ []) as [notes|] eqn:Em; [|done]. apply modifier_notes_ok in Em.
  cbn [mbind result_bind] in Hr. injection Hr as <-. cbn in Hd. specialize (Hd ltac:(apply Hb)). constructor; [done|done|done| |done].
  by destruct Hd.
Qed.

Lemma div_up_spec a b : 0 < b -> a <= b * div_up a b < a + b.
Proof.
  intros Hb. unfold div_up. pose proof (Z.div_mod (a + (b - 1)) b ltac:(lia)). pose proof (Z.mod_pos_bound (a + (b - 1)) b Hb). lia.
Qed.

(** Over [n] gaps, of which one at most is short, the time of the others goes by. *)
Lemma gaps_add_up (f : nat -> Z) (work : Z) (short i : nat) : 0 <= work -> (forall j, f j <= f (S j)) -> forall n,
  (forall j, (i <= j < i + n)%nat -> j <> short -> work <= f (S j) - f j) ->
  Z.of_nat n * work <= f (i + n)%nat - f i + (if bool_decide (i <= short < i + n)%nat then work else 0).
Proof.
  intros Hw Hm n. induction n as [|n IH]; intros Hg; [rewrite Nat.add_0_r; case_bool_decide; lia|].
  specialize (IH ltac:(intros j Hj; apply Hg; lia)). rewrite Nat.add_succ_r. pose proof (Hm (i + n)%nat) as Hn.
  destruct (decide ((i + n)%nat = short)) as [<-|Hne].
  - rewrite bool_decide_eq_false_2 in IH by lia. rewrite bool_decide_eq_true_2 by lia. lia.
  - specialize (Hg (i + n)%nat ltac:(lia) Hne).
    rewrite (bool_decide_ext (i <= short < S (i + n))%nat (i <= short < i + n)%nat) by lia. lia.
Qed.

(** What the other components assume of the configuration. *)
Record config_serves (c : Config) : Prop := {
  cs_difficulty : is_pow2 (Vardiff.min (vardiff_params (stratum_config_of c)));
  cs_slots : 1 <= protocol_job_slots (job_config_of c) <= 256;
  cs_capacity : let shares := max_clients (stratum c) * vardiff_target_shares_min (stratum c) * stale_window_secs c * SHARE_CAPACITY_HEADROOM in
    shares <= 60 * shares_in_stale_window c < shares + 60 /\ 0 <= shares_in_stale_window c < 2 ^ 56;
  cs_window : stale_window (stratum_config_of c) = (share_stale_seconds (stratum c) + work_update_seconds (bitcoind c)) * 10 ^ 9;
  cs_outlast : forall (times : nat -> Z) (short i : nat), (forall j, times j <= times (S j)) ->
    (forall j, j <> short -> work_update_seconds (bitcoind c) * 10 ^ 9 <= times (S j) - times j) ->
    stale_window (stratum_config_of c) <= times (i + Z.to_nat (job_slots (datum c)))%nat - times i;
}.

Lemma config_ok_serves c : config_ok c -> config_serves c.
Proof.
  intros [[_ _ Hw] [Hcl _ (k & Hk & Ek) Hsh _ _ Hst] _ [Hs Hmin _ _] _].
  assert (stale_window_secs c = share_stale_seconds (stratum c) + work_update_seconds (bitcoind c)) as Hwin
    by (apply Z.mod_small; lia).
  assert (stale_window (stratum_config_of c) = (share_stale_seconds (stratum c) + work_update_seconds (bitcoind c)) * 10 ^ 9) as Hns
    by (cbn [stratum_config_of stale_window]; by rewrite Hwin).
  constructor; [|done| |done|].
  - exists k. split; [lia|done].
  - unfold shares_in_stale_window, sat_mul. rewrite Hwin. set (w := share_stale_seconds (stratum c) + work_update_seconds (bitcoind c)) in *.
    set (n := max_clients (stratum c)) in *. set (t := vardiff_target_shares_min (stratum c)) in *. unfold SHARE_CAPACITY_HEADROOM.
    assert (0 <= n * t <= 262144 * 20000) as H2 by nia. assert (0 <= n * t * w <= 262144 * 20000 * 270) as H3 by nia.
    rewrite !Z.min_l by lia. pose proof (div_up_spec (n * t * w * 16) 60 ltac:(lia)). lia.
  - intros times short i Hm Hg. rewrite Hns. set (n := Z.to_nat (job_slots (datum c))).
    pose proof (gaps_add_up times (work_update_seconds (bitcoind c) * 10 ^ 9) short i ltac:(lia) Hm n ltac:(intros; by apply Hg)) as Hsum.
    unfold min_job_slots, EXTRA_JOBS_PER_TIP in Hmin. set (w := work_update_seconds (bitcoind c)) in *. set (st := share_stale_seconds (stratum c)) in *.
    pose proof (div_up_spec (st + w) w ltac:(lia)) as Hd. assert (Z.of_nat n = job_slots (datum c)) as Hn by lia. rewrite Hn in Hsum.
    assert ((st + w) * 10 ^ 9 <= (job_slots (datum c) - 1) * (w * 10 ^ 9)) as Hlow by nia.
    case_bool_decide; lia.
Qed.

(** C40: A configuration the gateway starts with, or that its settings page writes, can be
    served. Whatever the file holds, if it is taken, each section is as its checks ask: a node that can
    be asked with a credential, the pools tried in order, each with an address of its own
    and keys that can be read, an address the coinbase can pay, tags within the limits,
    modifiers of payable addresses. The difficulty given to every miner is a power of two,
    the bounds every other part assumes of the configuration hold, no product the
    capacities are of overflows, and no slot of a job is given to another within the time
    shares on the job are taken, where updates keep their interval but for one new tip. *)
Theorem validated_config_is_sound (c c2 : Config) : config_typed c -> validate c = Ok c2 -> config_ok c2 /\ config_serves c2.
Proof. intros Ht Hr. pose proof (validate_ok c c2 Ht Hr) as Hok. split; [done|by apply config_ok_serves]. Qed.
End sound.

(** ** An example: the defaults, with what has none *)

Definition example_Rest : @JsonRest example_Json :=
  @Build_JsonRest example_Json (fun v => match v with ENull => true | _ => false end)
    (fun v => match v with EText _ => true | _ => false end) (fun _ => None).

Definition example_fallback : Pool :=
  {| pool_host := text "pool.test"; pool_port := 1; pool_pubkey := pool_pubkey pool_default; pool_url := text "HTTPS://pool.test" |}.

Definition example_config (vardiff : @value example_Json) : @Config example_Json := {|
  bitcoind := {| rpccookiefile := []; rpcuser := text "u"; rpcpassword := text "p"; rpcurl := text "http://127.0.0.1:8332";
    work_update_seconds := 400; notify_fallback := true |};
  stratum := stratum_default; vardiff_min_input := vardiff;
  mining := {| pool_address := example_lower; tag_primary := text "primary"; tag_secondary := []; unique_id := 4242; save_submitblocks_dir := [];
    allow_hasher_time_rolling := None; abw_verify_all_shares_on_disclosure := None |};
  api := api_default; extra_block_submissions := [];
  datum := {| pool := pool_default; fallback_pools := [example_fallback]; pass_workers := true; job_slots := 256; pass_full_users := true;
    always_pay_self := None; pooled_mining_only := true; global_timeout := 125; protocol_v3 := true; migration_max_seconds := None |};
  startup_notes := []; output_script := []; pools := [] |}.

Definition example_validated : option (@Config example_Json) :=
  ok (validate (H := letter_codec) (H1 := example_Rest) exact_powi10 (example_config (EText (text "3T")))).

Lemma ok_inv {E A} (r : result E A) a : ok r = Some a -> r = Ok a.
Proof. by destruct r; [intros [= ->]|]. Qed.

Lemma rounded_note (l : list StartupNote) (d : Z) : match l with [RoundedUpTo d2] => d2 =? d | _ => false end = true -> l = [RoundedUpTo d].
Proof. destruct l as [|n [|? ?]]; [done|destruct n; try done|by destruct n]. by intros ->%Z.eqb_eq. Qed.

(** The difficulty is rounded up and noted, the interval cut to the longest, and both pools
    are tried. *)
Lemma validated_config_is_sound_witness : exists c, example_validated = Some c /\
  vardiff_min (stratum c) = 1024 /\ startup_notes c = [RoundedUpTo 1024] /\ work_update_seconds (bitcoind c) = 120 /\ length (pools c) = 2%nat /\
  config_ok (H := letter_codec) c /\ config_serves c.
Proof.
  assert (from_option (fun c => (vardiff_min (stratum c) =? 1024) && bool_decide (length (pools c) = 2%nat) &&
    (work_update_seconds (bitcoind c) =? 120) && match startup_notes c with [RoundedUpTo d] => d =? 1024 | _ => false end) false example_validated = true) as He
    by by vm_compute.
  destruct example_validated as [c|] eqn:E; [|done]. exists c. cbn [from_option] in He.
  apply andb_prop in He as [He Hn]. apply andb_prop in He as [He Hw%Z.eqb_eq]. apply andb_prop in He as [Hv%Z.eqb_eq Hl%bool_decide_eq_true].
  apply rounded_note in Hn.
  split; [reflexivity|]. split; [exact Hv|]. split; [exact Hn|]. split; [exact Hw|]. split; [exact Hl|].
  assert (config_typed (example_config (EText (text "3T")))) as Ht by (unfold config_typed, uint; cbn [stratum example_config pools
    max_clients max_threads max_clients_per_thread vardiff_quickdiff_count vardiff_quickdiff_delta stratum_default]; repeat split; first [lia | reflexivity]).
  unfold example_validated in E. apply ok_inv in E.
  exact (validated_config_is_sound (H := letter_codec) (H1 := example_Rest) exact_powi10 _ _ Ht E).
Defined.

(** A pool named twice is refused, as is a port of none. *)
Example refused_configs :
  let refuse c := match validate (H := letter_codec) (H1 := example_Rest) exact_powi10 c with Err e => Some e | Ok _ => None end in
  refuse (example_config (EText (text "1.2Z"))) = Some BadVardiffMin /\
  refuse (set_stratum (example_config ENull) {| st_listen_addr := []; st_listen_port := 0; max_clients_per_thread := 1; max_threads := 1;
    max_clients := 1; trust_proxy := -1; vardiff_min := 1; vardiff_target_shares_min := 1; vardiff_quickdiff_count := 4;
    vardiff_quickdiff_delta := 3; share_stale_seconds := 60; st_idle_no_subscribe := 0; st_idle_no_shares := 0; st_idle_max_last_work := 0;
    st_require_address := false; st_modifiers := [] |}) = Some (NotIn "stratum.listen_port" PORT_RANGE).
Proof. by vm_compute. Qed.
