(* ===== verification/FileReplace.v ===== *)
(** How the settings page replaces the configuration file
    ([gateway/src/api/config_form.rs], [write_file]): the text goes to a new file beside the
    old one, which is synced and renamed over it, and the directory is synced. The file
    system is modelled with what a crash may lose: of a file whatever was written since it
    was synced, of a directory the entries changed since it was, each on its own. Any call
    may fail; the directory is the target's, and its names are the keys. *)
From S2P Require Import Prelude.

(** ** The file system *)

Inductive IoKind := NotFound | AlreadyExists | OtherIo.

Record Attr := { mode : Z; uid : Z; gid : Z }.

(** [inodes] and [names] are what a process sees; [synced_data] is of the files with nothing
    written since they were synced, and [pending] the directories there were since
    [synced_names] was on disk, the present one among them. *)
Record Disk := {
  names : gmap bytes nat; inodes : gmap nat bytes; attrs : gmap nat Attr;
  synced_names : gmap bytes nat; pending : list (gmap bytes nat); synced_data : gmap nat bytes;
}.

Definition set_names (d : Disk) (m : gmap bytes nat) : Disk :=
  {| names := m; inodes := inodes d; attrs := attrs d; synced_names := synced_names d; pending := pending d ++ [m]; synced_data := synced_data d |}.

(** Written data is not on disk until it is synced. *)
Definition set_data (d : Disk) (i : nat) (c : bytes) : Disk :=
  {| names := names d; inodes := <[i := c]> (inodes d); attrs := attrs d; synced_names := synced_names d; pending := pending d;
     synced_data := delete i (synced_data d) |}.

Definition set_attr (d : Disk) (i : nat) (a : Attr) : Disk :=
  {| names := names d; inodes := inodes d; attrs := <[i := a]> (attrs d); synced_names := synced_names d; pending := pending d; synced_data := synced_data d |}.

Definition sync_data (d : Disk) (i : nat) : Disk :=
  {| names := names d; inodes := inodes d; attrs := attrs d; synced_names := synced_names d; pending := pending d;
     synced_data := match inodes d !! i with Some c => <[i := c]> (synced_data d) | None => synced_data d end |}.

Definition sync_names (d : Disk) : Disk :=
  {| names := names d; inodes := inodes d; attrs := attrs d; synced_names := names d; pending := []; synced_data := synced_data d |}.

(** What a name may be after a crash, and what a file of that name may hold: anything,
    where it was not synced. *)
Definition name_after_crash (d : Disk) (n : bytes) (i : option nat) : Prop := i ∈ (synced_names d !! n) :: ((fun m => m !! n) <$> pending d).
Definition data_after_crash (d : Disk) (n c : bytes) : Prop :=
  exists i, name_after_crash d n (Some i) /\ forall s, synced_data d !! i = Some s -> c = s.

(** ** Calls that may fail *)

(** What a run passes through, where it ends and what it gives. *)
Record Ran (A : Type) := { states : list Disk; now : Disk; got : result IoKind A }.
Arguments states {A} _.
Arguments now {A} _.
Arguments got {A} _.

Definition Io (A : Type) : Type := Disk -> Ran A.

Definition done {A} (a : A) : Io A := fun d => {| states := []; now := d; got := Ok a |}.
#[export] Instance io_ret : MRet Io := @done.
#[export] Instance io_bind : MBind Io := fun A B f m d =>
  let r := m d in
  match got r with
  | Err e => {| states := states r; now := now r; got := Err e |}
  | Ok a => let q := f a (now r) in {| states := states r ++ states q; now := now q; got := got q |}
  end.

Definition fail {A} (e : IoKind) : Io A := fun d => {| states := []; now := d; got := Err e |}.

(** A result as a value, whatever it is. *)
Definition io_try {A} (m : Io A) : Io (result IoKind A) := fun d => let r := m d in {| states := states r; now := now r; got := Ok (got r) |}.

(** What is done depends on the disk. *)
Definition look {A} (f : Disk -> Io A) : Io A := fun d => f d d.

(** A change of the disk at once. *)
Definition io_step {A} (a : A) (f : Disk -> Disk) : Io A := fun d => {| states := [f d]; now := f d; got := Ok a |}.

Inductive Call := Canonicalize | Metadata | RemoveOld | Create | Chown | SetMode | WriteAll (written : nat) | SyncAll | RemoveNew | Rename | OpenDir | SyncDir.

Section write_file.
(** Which call fails, [written] being how much of the text was; where a path leads; the
    process's [umask] and the mode a change of owner leaves. *)
Context (fails : Call -> option IoKind) (resolve : bytes -> option bytes) (umask : Z) (chown_mode : Z -> Z).

Definition may_fail (c : Call) : Io () := match fails c with Some e => fail e | None => done () end.

Definition canonicalize (path : bytes) : Io bytes :=
  may_fail Canonicalize;; match resolve path with Some n => done n | None => fail NotFound end.

Definition metadata (n : bytes) : Io Attr :=
  may_fail Metadata;; look (fun d => match (i ← names d !! n; attrs d !! i) with Some a => done a | None => fail NotFound end).

Definition remove_file (c : Call) (n : bytes) : Io () :=
  may_fail c;; look (fun d => match names d !! n with Some _ => io_step () (fun d => set_names d (delete n (names d))) | None => fail NotFound end).

(** [create_new]: a name that is there is refused. *)
Definition create_new (n : bytes) (m : Z) (owner : Attr) : Io nat :=
  may_fail Create;; look (fun d =>
  match names d !! n with
  | Some _ => fail AlreadyExists
  | None =>
    let i := fresh (dom (inodes d)) in
    io_step i (fun d => set_attr (set_data (set_names d (<[n := i]> (names d))) i []) i
      {| mode := Z.land m (Z.lnot umask); uid := uid owner; gid := gid owner |})
  end).

Definition fchown (i : nat) (a : Attr) : Io () :=
  may_fail Chown;; look (fun d => match attrs d !! i with
  | Some was => io_step () (fun d => set_attr d i {| mode := chown_mode (mode was); uid := uid a; gid := gid a |})
  | None => fail OtherIo
  end).

Definition set_permissions (i : nat) (m : Z) : Io () :=
  may_fail SetMode;; look (fun d => match attrs d !! i with
  | Some was => io_step () (fun d => set_attr d i {| mode := m; uid := uid was; gid := gid was |})
  | None => fail OtherIo
  end).

(** [write_all], which may write some and fail. *)
Fixpoint write_pieces (i : nat) (text : bytes) (n : nat) (more : nat) : Io () :=
  io_step () (fun d => set_data d i (take n text));;
  may_fail (WriteAll n);;
  match more with O => done () | S more => write_pieces i text (S n) more end.
Definition write_all (i : nat) (text : bytes) : Io () := write_pieces i text 0 (length text).

Definition sync_all (i : nat) : Io () := may_fail SyncAll;; io_step () (fun d => sync_data d i).

(** [rename] puts the one in the other's place at once. *)
Definition rename (from to : bytes) : Io () :=
  may_fail Rename;; look (fun d => match names d !! from with
  | Some i => io_step () (fun d => set_names d (<[to := i]> (delete from (names d))))
  | None => fail NotFound
  end).

Definition sync_dir : Io () := may_fail OpenDir;; may_fail SyncDir;; io_step () sync_names.

(** [0o7777]. *)
Definition PERMISSION_BITS : Z := 0xfff.

Definition tmp_name (target : bytes) : bytes := target ++ text ".new".

(** What is done with the new file once it is there; [self] is the process's own user and
    group. *)
Definition write_new (tmp : bytes) (was self : Attr) (t : bytes) : Io () :=
  file ← create_new tmp (Z.land (mode was) PERMISSION_BITS) self;
  _ ← io_try (fchown file was);
  set_permissions file (mode was);;
  write_all file t;;
  sync_all file.

Definition write_file (path : bytes) (self : Attr) (t : bytes) : Io () :=
  target ← canonicalize path;
  let tmp := tmp_name target in
  was ← metadata target;
  removed ← io_try (remove_file RemoveOld tmp);
  match removed with
  | Err AlreadyExists => fail AlreadyExists
  | Err OtherIo => fail OtherIo
  | _ =>
    written ← io_try (write_new tmp was self t);
    match written with
    | Err e => _ ← io_try (remove_file RemoveNew tmp); fail e
    | Ok _ => rename tmp target;; sync_dir
    end
  end.
End write_file.

(** ** Runs *)

(** From a disk of [P], every disk a run passes through is [safe]; it ends in one of [Q]
    with what it gives, or of [E]. *)
Definition runs {A} (safe : Disk -> Prop) (P : Disk -> Prop) (m : Io A) (Q : A -> Disk -> Prop) (E : IoKind -> Disk -> Prop) : Prop :=
  forall d, P d -> Forall safe (states (m d)) /\ match got (m d) with Ok a => Q a (now (m d)) | Err e => E e (now (m d)) end.

Section rules.
Context (safe : Disk -> Prop).

Lemma runs_done {A} (a : A) (P : Disk -> Prop) (Q : A -> Disk -> Prop) E : (forall d, P d -> Q a d) -> runs safe P (done a) Q E.
Proof. intros HQ d Hd. split; [constructor|]. by apply HQ. Qed.

Lemma runs_fail {A} e P (Q : A -> Disk -> Prop) (E : IoKind -> Disk -> Prop) : (forall d, P d -> E e d) -> runs safe P (fail e) Q E.
Proof. intros HE d Hd. split; [constructor|]. by apply HE. Qed.

Lemma runs_bind {A B} (m : Io A) (f : A -> Io B) P Q R E : runs safe P m Q E -> (forall a, runs safe (Q a) (f a) R E) -> runs safe P (m ≫= f) R E.
Proof.
  intros Hm Hf d Hd. destruct (Hm d Hd) as [Hs Hg]. unfold mbind, io_bind. destruct (got (m d)) as [a|e]; cbn; [|by split].
  destruct (Hf a _ Hg) as [Hs2 Hg2]. split; [by apply Forall_app|done].
Qed.

Lemma runs_try {A} (m : Io A) P Q E R : runs safe P m Q E -> (forall d a, Q a d -> R (Ok a) d) -> (forall d e, E e d -> R (Err e) d) ->
  forall E2, runs safe P (io_try m) R E2.
Proof. intros Hm HQ HE E2 d Hd. destruct (Hm d Hd) as [Hs Hg]. split; [done|]. cbn. destruct (got (m d)); by auto. Qed.

Lemma runs_look {A} (f : Disk -> Io A) P Q E : (forall d0, runs safe (fun d => d = d0 /\ P d) (f d0) Q E) -> runs safe P (look f) Q E.
Proof. intros Hf d Hd. by apply Hf. Qed.

Lemma runs_step {A} (a : A) f P (Q : A -> Disk -> Prop) E : (forall d, P d -> safe (f d) /\ Q a (f d)) -> runs safe P (io_step a f) Q E.
Proof. intros Hf d Hd. destruct (Hf d Hd). split; [by repeat constructor|done]. Qed.

Lemma runs_may_fail fails c P (E : IoKind -> Disk -> Prop) : (forall d e, P d -> fails c = Some e -> E e d) ->
  runs safe P (may_fail fails c) (fun _ d => P d /\ fails c = None) E.
Proof. intros HE. unfold may_fail. destruct (fails c) as [e|] eqn:He; [apply runs_fail|apply runs_done]; by auto. Qed.

Lemma runs_weaken {A} (m : Io A) (P P2 : Disk -> Prop) (Q Q2 : A -> Disk -> Prop) (E E2 : IoKind -> Disk -> Prop) :
  runs safe P m Q E -> (forall d, P2 d -> P d) -> (forall a d, Q a d -> Q2 a d) -> (forall e d, E e d -> E2 e d) -> runs safe P2 m Q2 E2.
Proof. intros Hm HP HQ HE d Hd. destruct (Hm d (HP d Hd)) as [Hs Hg]. split; [done|]. destruct (got (m d)); by auto. Qed.
Lemma runs_pure {A} (m : Io A) (H : Prop) (P : Disk -> Prop) Q E : (H -> runs safe P m Q E) -> runs safe (fun d => P d /\ H) m Q E.
Proof. intros Hm d [Hd HH]. by apply Hm. Qed.
End rules.

(** ** The replacement *)

(** A file that is on disk: after any crash its name is still of it. *)
Record settled (d : Disk) (n : bytes) (i : nat) (c : bytes) : Prop := {
  st_name : names d !! n = Some i;
  st_data : inodes d !! i = Some c;
  st_synced : synced_data d !! i = Some c;
  st_crash : forall v, name_after_crash d n v -> v = Some i;
}.

Section replace.
Context (fails : Call -> option IoKind) (resolve : bytes -> option bytes) (umask : Z) (chown_mode : Z -> Z).
Context (d0 : Disk) (t old new : bytes) (i0 : nat) (a0 self : Attr).

Abbreviation tmp := (tmp_name t).

(** What the replacement has nothing to do with: the other names, and the files there were. *)
Record others (d : Disk) : Prop := {
  ot_names : forall n, n <> t -> n <> tmp -> names d !! n = names d0 !! n;
  ot_crash : forall n v, n <> t -> n <> tmp -> name_after_crash d n v -> name_after_crash d0 n v \/ v = names d0 !! n;
  ot_files : forall i, i ∈ dom (inodes d0) -> inodes d !! i = inodes d0 !! i /\ attrs d !! i = attrs d0 !! i /\ synced_data d !! i = synced_data d0 !! i;
}.

(** The target is whole: it is there, what it holds is the old text or the new one, and so
    it is after a crash. *)
Definition whole (d : Disk) : Prop :=
  (exists i c, names d !! t = Some i /\ inodes d !! i = Some c /\ (c = old \/ c = new)) /\
  ~ name_after_crash d t None /\ (forall c, data_after_crash d t c -> c = old \/ c = new) /\ others d.

(** Before the rename the target is the old file; a new one may be under the other name. *)
Definition untouched (d : Disk) : Prop := settled d t i0 old /\ others d.
Definition begun (i : nat) (d : Disk) : Prop := untouched d /\ names d !! tmp = Some i /\ (i ∉ dom (inodes d0)) /\ is_Some (attrs d !! i).
Definition has_mode (i : nat) (d : Disk) : Prop := mode <$> attrs d !! i = Some (mode a0).
Definition ready (i : nat) (d : Disk) : Prop := begun i d /\ has_mode i d /\ inodes d !! i = Some new /\ synced_data d !! i = Some new.

(** After it the target is the new file, which the directory on disk may not say yet. *)
Record renamed (i : nat) (d : Disk) : Prop := {
  re_name : names d !! t = Some i;
  re_data : inodes d !! i = Some new /\ synced_data d !! i = Some new;
  re_old : synced_data d !! i0 = Some old;
  re_crash : forall v, name_after_crash d t v -> v = Some i0 \/ v = Some i;
  re_mode : has_mode i d;
  re_others : others d;
}.

Definition replaced (d : Disk) : Prop := (exists i, settled d t i new /\ has_mode i d) /\ others d.

Hypothesis Hsettled : settled d0 t i0 old.
Hypothesis Hattr : attrs d0 !! i0 = Some a0.

Lemma tmp_not_target : tmp <> t.
Proof. unfold tmp_name. intros Ht. apply (f_equal length) in Ht. rewrite length_app in Ht. cbn in Ht. lia. Qed.

Lemma old_file : i0 ∈ dom (inodes d0).
Proof. apply elem_of_dom. rewrite (st_data _ _ _ _ Hsettled). by eexists. Qed.

Lemma untouched_start : untouched d0.
Proof. split; [done|]. constructor; [done|by left|done]. Qed.

Lemma untouched_whole d : untouched d -> whole d.
Proof.
  intros [[Hn Hd Hs Hc] Ho]. split; [exists i0, old; by auto|]. split; [by intros ?%Hc|]. split; [|done].
  intros c (i & [= <-]%Hc & Hi). left. by apply Hi.
Qed.

Lemma renamed_whole i d : renamed i d -> whole d.
Proof.
  intros [Hn [Hd Hs] Hold Hc _ Ho]. split; [exists i, new; by auto|]. split; [by intros [|]%Hc|]. split; [|done].
  intros c (j & [[= ->]|[= ->]]%Hc & Hj); [left|right]; by apply Hj.
Qed.

Lemma name_set_names d m n v : name_after_crash (set_names d m) n v <-> name_after_crash d n v \/ v = m !! n.
Proof.
  unfold name_after_crash. cbn [synced_names pending set_names]. rewrite fmap_app, !elem_of_cons, elem_of_app. cbn. rewrite list_elem_of_singleton. tauto.
Qed.

(** Names change but for the target and those of others. *)
Lemma others_set_names d m : others d -> (forall n, n <> t -> n <> tmp -> m !! n = names d !! n) -> others (set_names d m).
Proof.
  intros [Hn Hc Hf] Hm. constructor; [|intros n v H1 H2 [Hv| ->]%name_set_names; [by apply Hc|right]|done].
  - intros n H1 H2. cbn [names set_names]. by rewrite Hm, Hn.
  - by rewrite Hm, Hn.
Qed.

Lemma untouched_set_names d m : untouched d -> m !! t = Some i0 -> (forall n, n <> t -> n <> tmp -> m !! n = names d !! n) -> untouched (set_names d m).
Proof.
  intros [[Hn Hd Hs Hc] Ho] Ht Hm. split; [|by apply others_set_names]. constructor; [done..|]. intros v [Hv| ->]%name_set_names; [by apply Hc|done].
Qed.

(** A file there was not is written, has its mode set or is synced. *)
Lemma untouched_file d f i : untouched d -> i ∉ dom (inodes d0) -> names (f d) = names d -> synced_names (f d) = synced_names d -> pending (f d) = pending d ->
  (forall j, j <> i -> inodes (f d) !! j = inodes d !! j /\ attrs (f d) !! j = attrs d !! j /\ synced_data (f d) !! j = synced_data d !! j) -> untouched (f d).
Proof.
  intros [[Hn Hd Hs Hc] [On Oc Of]] Hi En Es Ep Hj. assert (i0 <> i) as Hne by (intros <-; by apply Hi, old_file).
  assert (forall n v, name_after_crash (f d) n v <-> name_after_crash d n v) as Hcr by (intros; unfold name_after_crash; by rewrite Es, Ep).
  destruct (Hj i0 Hne) as (E1 & E2 & E3). split.
  - constructor; [by rewrite En|by rewrite E1|by rewrite E3|]. intros v Hv%Hcr. by apply Hc.
  - constructor; [intros n ? ?; rewrite En; by apply On|intros n v ? ? Hv%Hcr; by apply Oc|].
    intros j Hin. destruct (Hj j) as (-> & -> & ->); [by intros ->|by apply Of].
Qed.

(** A step of the disk that leaves the target. *)
Ltac file_step := apply runs_step; intros d Hd.

Lemma begun_file d f i : begun i d -> names (f d) = names d -> synced_names (f d) = synced_names d -> pending (f d) = pending d ->
  is_Some (attrs (f d) !! i) ->
  (forall j, j <> i -> inodes (f d) !! j = inodes d !! j /\ attrs (f d) !! j = attrs d !! j /\ synced_data (f d) !! j = synced_data d !! j) -> begun i (f d).
Proof. intros (Hu & Hn & Hi & _) En Es Ep Ha Hj. split; [by eapply untouched_file|]. by rewrite En. Qed.

Lemma begun_whole i d : begun i d -> whole d.
Proof. intros [Hu _]. by apply untouched_whole. Qed.

Lemma may_fail_runs c (P : Disk -> Prop) : runs whole P (may_fail fails c) (fun _ d => P d) (fun _ d => P d).
Proof. eapply runs_weaken; [apply (runs_may_fail _ _ _ P (fun _ d => P d))|..]; naive_solver. Qed.

Lemma metadata_runs : runs whole untouched (metadata fails t) (fun a d => untouched d /\ a = a0) (fun _ => untouched).
Proof.
  unfold metadata. eapply runs_bind; [apply may_fail_runs|]. intros []. apply runs_look. intros d1.
  destruct (i ← names d1 !! t; attrs d1 !! i) as [a|] eqn:Ha; [apply runs_done|apply runs_fail; by intros d [-> Hd]].
  intros d [-> [Hs Ho]]. split; [by split|]. rewrite (st_name _ _ _ _ Hs) in Ha. cbn in Ha. destruct (ot_files _ Ho i0 old_file) as (_ & Hat & _). congruence.
Qed.

Lemma remove_runs c : runs whole untouched (remove_file fails c tmp) (fun _ => untouched) (fun _ => untouched).
Proof.
  unfold remove_file. eapply runs_bind; [apply may_fail_runs|]. intros []. apply runs_look. intros d1.
  destruct (names d1 !! tmp) as [j|]; [|apply runs_fail; by intros d [-> Hd]]. file_step. destruct Hd as [_ Hd].
  assert (untouched (set_names d (delete tmp (names d)))) as Hu.
  { apply untouched_set_names; [done|rewrite lookup_delete_ne by apply tmp_not_target; apply Hd|]. intros n _ Hn. by rewrite lookup_delete_ne. }
  split; [by apply untouched_whole|done].
Qed.

Lemma create_runs m : runs whole untouched (create_new fails umask tmp m self) (fun i d => begun i d) (fun _ => untouched).
Proof.
  unfold create_new. eapply runs_bind; [apply may_fail_runs|]. intros []. apply runs_look. intros d1.
  destruct (names d1 !! tmp) as [j|]; [apply runs_fail; by intros d [-> Hd]|]. file_step. destruct Hd as [-> Hd]. set (i := fresh (dom (inodes d1))).
  assert (i ∉ dom (inodes d0)) as Hi.
  { intros Hin. destruct Hd as [_ Ho]. apply (is_fresh (dom (inodes d1))). fold i. apply elem_of_dom.
    destruct (ot_files _ Ho i Hin) as (-> & _). by apply elem_of_dom. }
  set (d2 := set_names d1 (<[tmp := i]> (names d1))). assert (untouched d2) as Hu2.
  { apply untouched_set_names; [done|rewrite lookup_insert_ne by apply tmp_not_target; apply Hd|]. intros n _ Hn. by rewrite lookup_insert_ne. }
  assert (begun i (set_attr (set_data d2 i []) i {| mode := Z.land m (Z.lnot umask); uid := uid self; gid := gid self |})) as Hb.
  { split; [|split; [cbn; by rewrite lookup_insert_eq|split; [done|cbn; rewrite lookup_insert_eq; by eexists]]].
    apply (untouched_file d2 (fun d => set_attr (set_data d i []) i _) i Hu2 Hi); [done..|]. intros j Hj. cbn.
    by rewrite !lookup_insert_ne, lookup_delete_ne by done. }
  split; [by eapply begun_whole|done].
Qed.

Lemma set_attr_begun i a d : begun i d -> begun i (set_attr d i a).
Proof.
  intros Hb. apply (begun_file d (fun d => set_attr d i a) i Hb); [done..|cbn; rewrite lookup_insert_eq; by eexists|].
  intros j Hj. cbn. by rewrite lookup_insert_ne.
Qed.

Lemma fchown_runs i a : runs whole (begun i) (fchown fails chown_mode i a) (fun _ => begun i) (fun _ => begun i).
Proof.
  unfold fchown. eapply runs_bind; [apply may_fail_runs|]. intros []. apply runs_look. intros d1.
  destruct (attrs d1 !! i) as [was|]; [file_step|apply runs_fail; by intros d [-> Hd]]. destruct Hd as [_ Hd].
  split; [eapply begun_whole|]; by apply set_attr_begun.
Qed.

Lemma set_permissions_runs i : runs whole (begun i) (set_permissions fails i (mode a0)) (fun _ d => begun i d /\ has_mode i d) (fun _ => begun i).
Proof.
  unfold set_permissions. eapply runs_bind; [apply may_fail_runs|]. intros []. apply runs_look. intros d1.
  destruct (attrs d1 !! i) as [was|]; [file_step|apply runs_fail; by intros d [-> Hd]]. destruct Hd as [_ Hd].
  split; [eapply begun_whole; by apply set_attr_begun|]. split; [by apply set_attr_begun|]. unfold has_mode. cbn. by rewrite lookup_insert_eq.
Qed.

Lemma write_runs i : forall more n, runs whole (fun d => begun i d /\ has_mode i d) (write_pieces fails i new n more)
  (fun _ d => begun i d /\ has_mode i d /\ inodes d !! i = Some (take (n + more) new)) (fun _ => begun i).
Proof.
  induction more as [|more IH]; intros n; cbn [write_pieces].
  all: eapply (runs_bind _ _ _ _ (fun _ d => begun i d /\ has_mode i d /\ inodes d !! i = Some (take n new))); [file_step|intros []].
  1,3: destruct Hd as [Hd Hm]; assert (begun i (set_data d i (take n new))) as Hb;
    [apply (begun_file d (fun d => set_data d i (take n new)) i Hd); [done..|apply Hd|intros j Hj; cbn; by rewrite lookup_insert_ne, lookup_delete_ne]|].
  1,2: split; [by eapply begun_whole|split; [done|split; [done|cbn; by rewrite lookup_insert_eq]]].
  all: eapply runs_bind; [eapply runs_weaken; [apply may_fail_runs|exact (fun d H => H)|exact (fun a d H => H)|by intros ? ? [? _]]|intros []].
  - apply runs_done. by rewrite Nat.add_0_r.
  - rewrite <- Nat.add_succ_comm. eapply runs_weaken; [apply IH|naive_solver..].
Qed.

Lemma sync_runs i : runs whole (fun d => begun i d /\ has_mode i d /\ inodes d !! i = Some new) (sync_all fails i) (fun _ => ready i) (fun _ => begun i).
Proof.
  unfold sync_all. eapply runs_bind; [eapply runs_weaken; [apply may_fail_runs|exact (fun d H => H)|exact (fun a d H => H)|by intros ? ? [? _]]|intros []].
  file_step. destruct Hd as (Hd & Hm & Hc). assert (begun i (sync_data d i)) as Hb.
  { apply (begun_file d (fun d => sync_data d i) i Hd); [done..|apply Hd|]. intros j Hj. cbn. by rewrite Hc, lookup_insert_ne. }
  split; [by eapply begun_whole|]. split; [done|]. split; [done|]. cbn. by rewrite Hc, lookup_insert_eq.
Qed.

(** The new file is made whole before anything else sees it, and where that fails the
    target is as it was. *)
Lemma write_new_runs : runs whole untouched (write_new fails umask chown_mode tmp a0 self new) (fun _ d => exists i, ready i d) (fun _ => untouched).
Proof.
  assert (forall i d, begun i d -> untouched d) as Hbu by by intros ? ? [? _].
  unfold write_new. eapply runs_bind; [apply create_runs|]. intros i.
  eapply runs_bind; [apply (runs_try _ _ _ (fun _ => begun i) (fun _ => begun i) (fun _ => begun i)); [apply fchown_runs|done..]|]. intros ?.
  eapply runs_bind; [eapply runs_weaken; [apply set_permissions_runs|exact (fun d H => H)|exact (fun a d H => H)|intros ? ?; apply Hbu]|]. intros [].
  eapply runs_bind; [eapply runs_weaken; [apply (write_runs i (length new) 0)|exact (fun d H => H)|exact (fun a d H => H)|intros ? ?; apply Hbu]|]. intros [].
  eapply runs_weaken; [apply (sync_runs i)| |intros ? d Hd; by exists i|intros ? ?; apply Hbu]. cbn [Nat.add]. by rewrite firstn_all.
Qed.
Lemma rename_runs : runs whole (fun d => exists i, ready i d) (rename fails tmp t) (fun _ d => exists i, renamed i d) (fun _ => untouched).
Proof.
  unfold rename. eapply runs_bind; [eapply runs_weaken; [apply may_fail_runs|exact (fun d H => H)|exact (fun a d H => H)|by intros ? ? (i & [? _] & _)]|intros []].
  apply runs_look. intros d1. destruct (names d1 !! tmp) as [j|] eqn:Hj; [|apply runs_fail; by intros d (_ & i & [? _] & _)].
  file_step. destruct Hd as (-> & i & ([[Hn Hd Hs Hc] Ho] & Ht & Hi & Ha) & Hm & Hdata). assert (j = i) as -> by congruence.
  assert (renamed i (set_names d1 (<[t := i]> (delete tmp (names d1))))) as Hr; [|split; [by eapply renamed_whole|by exists i]].
  constructor; cbn [names inodes synced_data set_names]; [by rewrite lookup_insert_eq|done|done| |done|].
  - intros v [Hv| ->]%name_set_names; [left; by apply Hc|right; by rewrite lookup_insert_eq].
  - apply others_set_names; [done|]. intros n H1 H2. by rewrite lookup_insert_ne, lookup_delete_ne.
Qed.

Definition unsynced (e : IoKind) (d : Disk) : Prop := (exists i, renamed i d) /\ (fails OpenDir = Some e \/ fails SyncDir = Some e).

Lemma sync_dir_runs : runs whole (fun d => exists i, renamed i d) (sync_dir fails) (fun _ => replaced) unsynced.
Proof.
  unfold sync_dir. eapply runs_bind; [apply (runs_may_fail _ _ _ _ unsynced); intros d e Hd He; split; [exact Hd|by left]|intros []].
  eapply runs_bind; [apply (runs_may_fail _ _ _ _ unsynced); intros d e [Hd _] He; split; [exact Hd|by right]|intros []].
  file_step. destruct Hd as [[(i & [Hn [Hd Hs] Hold Hc Hm [On Oc Of]]) _] _].
  assert (forall n v, name_after_crash (sync_names d) n v <-> v = names d !! n) as Hcr.
  { intros n v. unfold name_after_crash. cbn. by rewrite list_elem_of_singleton. }
  assert (others (sync_names d)) as Ho by (constructor; [done|intros n v H1 H2 ->%Hcr; right; by apply On|done]). split.
  - split; [exists i, new; by auto|]. split; [by intros ?%Hcr; congruence|]. split; [|done]. intros c (j & Hj%Hcr & Hjs). right. apply Hjs. rewrite Hn in Hj. by injection Hj as ->.
  - split; [|done]. exists i. split; [|done]. constructor; [done..|]. by intros v ->%Hcr.
Qed.

(** C37: The configuration file is replaced as one. Whatever call fails, however much of the
    text is written, and whichever of the calls the machine stops between: the file is
    always there, what it holds is the whole old text or the whole new one and never a
    part of either, and so it is after a crash that loses what was not synced, each name
    and each file on its own; the other names of the directory and the files there were
    are not touched. Where it is said to be done the new text is on disk under the name
    with the mode the old one had, and no crash brings the old one back. Where an error is
    said the file is the old one as it was, but where it was the directory that could not
    be synced. *)
Theorem replacement_is_whole (path : bytes) : resolve path = Some t ->
  let r := write_file fails resolve umask chown_mode path self new d0 in
  Forall whole (d0 :: states r) /\
  match got r with
  | Ok _ => replaced (now r)
  | Err e => untouched (now r) \/ unsynced e (now r)
  end.
Proof.
  intros Hpath r. set (E := fun e d => untouched d \/ unsynced e d). assert (forall e d, untouched d -> E e d) as HE by by left.
  assert (runs whole untouched (write_file fails resolve umask chown_mode path self new) (fun _ => replaced) E) as Hr.
  { unfold write_file, canonicalize. rewrite Hpath.
    eapply runs_bind; [eapply runs_bind; [eapply runs_weaken; [apply may_fail_runs|exact (fun d H => H)|exact (fun a d H => H)|exact HE]|intros []]|].
    { apply (runs_done _ _ _ (fun n d => untouched d /\ n = t)). by intros d. }
    intros target. apply runs_pure. intros ->. cbv zeta.
    eapply runs_bind; [eapply runs_weaken; [apply metadata_runs|exact (fun d H => H)|exact (fun a d H => H)|exact HE]|].
    intros was. apply runs_pure. intros ->.
    eapply runs_bind; [apply (runs_try _ _ _ (fun _ => untouched) (fun _ => untouched) (fun _ => untouched)); [apply remove_runs|done..]|]. intros removed.
    assert (runs whole untouched (written ← io_try (write_new fails umask chown_mode tmp a0 self new);
      match written with
      | Err e => _ ← io_try (remove_file fails RemoveNew tmp); fail e
      | Ok _ => rename fails tmp t;; sync_dir fails
      end) (fun _ => replaced) E) as Hw; [|destruct removed as [|[| |]]; [exact Hw|exact Hw|apply runs_fail; by apply HE..]].
    eapply runs_bind; [apply (runs_try _ _ _ (fun _ d => exists i, ready i d) (fun _ => untouched)
      (fun r d => match r with Ok _ => exists i, ready i d | Err _ => untouched d end)); [apply write_new_runs|done..]|].
    intros [[]|e].
    - eapply runs_bind; [eapply runs_weaken; [apply rename_runs|exact (fun d H => H)|exact (fun a d H => H)|exact HE]|intros []].
      eapply runs_weaken; [apply sync_dir_runs|done|done|by right].
    - eapply runs_bind; [apply (runs_try _ _ _ (fun _ => untouched) (fun _ => untouched) (fun _ => untouched)); [apply remove_runs|done..]|]. intros ?.
      apply runs_fail. apply HE. }
  destruct (Hr d0 untouched_start) as [Hs Hg]. split; [|exact Hg]. constructor; [|exact Hs]. apply untouched_whole, untouched_start.
Qed.
End replace.

(** ** An example: the directory cannot be synced, and a file of that name is there *)

Definition example_disk : Disk :=
  let m := <[text "c" := 1%nat]> (<[text "c.new" := 2%nat]> ∅) in
  {| names := m; inodes := <[1%nat := text "old"]> (<[2%nat := text "left"]> ∅);
     attrs := <[1%nat := {| mode := 0x1a0; uid := 5; gid := 6 |}]> ∅; synced_names := m; pending := []; synced_data := <[1%nat := text "old"]> ∅ |}.

Definition example_fails (c : Call) : option IoKind := match c with SyncDir | Chown => Some OtherIo | _ => None end.
Abbreviation example_run := (write_file example_fails (fun p => Some p) 0x3f id (text "c") {| mode := 0; uid := 7; gid := 8 |} (text "new") example_disk).

Lemma example_settled : settled example_disk (text "c") 1 (text "old").
Proof.
  constructor; [reflexivity..|]. intros v Hv. apply list_elem_of_singleton in Hv. by rewrite Hv.
Qed.

Lemma example_attr : attrs example_disk !! 1%nat = Some {| mode := 0x1a0; uid := 5; gid := 6 |}.
Proof. reflexivity. Qed.

Lemma replacement_is_whole_witness :
  got example_run = Err OtherIo /\ (length (states example_run) = 9%nat) /\
  (i ← names (now example_run) !! text "c"; inodes (now example_run) !! i) = Some (text "new") /\
  Forall (whole example_disk (text "c") (text "old") (text "new")) (example_disk :: states example_run).
Proof.
  pose proof (replacement_is_whole example_fails (fun p => Some p) 0x3f id example_disk (text "c") (text "old") (text "new") 1
    {| mode := 0x1a0; uid := 5; gid := 6 |} {| mode := 0; uid := 7; gid := 8 |} example_settled example_attr (text "c") eq_refl) as Hw.
  cbv zeta in Hw. destruct Hw as [Hw _].
  split; [vm_compute; reflexivity|]. split; [vm_compute; reflexivity|]. split; [vm_compute; reflexivity|]. exact Hw.
Defined.
