(* ===== verification/Miner.v ===== *)
(** The test miner ([miner/src/main.rs]) and its nonce search ([core/src/nonce.rs]): what it
    takes from the lines the gateway sends, the input it hashes, the nonces it tries and
    the share it submits. With the gateway's connection it closes a loop: what is notified
    is mined, and what is mined is taken. The JSON between the two is left out: a line is
    its parts. *)
From Stdlib Require Import SpecFloat.
From S2P Require Import Prelude Float Reader Bitcoin Hex Address Target Header Messages ShareMsg AbwSlots Config.
From S2P Require Import StratumDifficulty Vardiff NotifyId Json Template GatewayAbw GatewayJob GatewayPool GatewayUser GatewayShares SeenShares Client.

(** ** The search *)

Definition CHECK_INTERVAL : Z := Z.shiftl 1 22.
Definition FALLBACK_THREADS : Z := 4.
Definition NONCE_SIZE : nat := 4.

Definition splice (input : bytes) (at_ : nat) (nonce : Z) : bytes :=
  take at_ input ++ le NONCE_SIZE nonce ++ drop (at_ + NONCE_SIZE) input.

Section search.
(** Whether a nonce meets the target, and what a thread reads when it asks whether to stop:
    that another has found one, or that the caller aborts. *)
Context (hit : Z -> bool) (threads : Z) (stops : Z -> Z -> bool).

(** A nonce of a thread's loop: the loop goes on at the next, or ends. *)
Definition try_nonce (t nonce : Z) : result (option Z) Z :=
  if 2 ^ 32 - 1 <? nonce then Err None
  else if hit nonce then Err (Some nonce)
  else if (nonce mod CHECK_INTERVAL <? threads) && stops t nonce then Err None
  else Ok (nonce + threads).

(** Every turn moves on by a nonce at least, so one more than there are is fuel enough. *)
Definition thread_search (t : Z) : option Z :=
  match for_n (2 ^ 32 + 1) (try_nonce t) t with Err found => found | Ok _ => None end.

(** [found.fetch_min] over the threads, whatever order they end in. *)
Definition first_of (l : list Z) : option Z :=
  foldr (fun t found => match thread_search t, found with
                        | Some n, Some m => Some (Z.min n m)
                        | Some n, None => Some n
                        | None, found => found
                        end) None l.

Definition search : option Z := first_of (seqZ 0 threads).

End search.

(** ** The miner *)

Record MinerJob := {
  m_id : bytes;
  m_prevblock_hidden : bytes;
  m_coinb1 : bytes;
  m_coinb2 : bytes;
  m_ntime : bytes;
  m_ntime_hex : bytes;
}.

Record MinerState := {
  extranonce1 : bytes;
  extranonce2_size : nat;
  difficulty : f64;
  miner_job : option MinerJob;
  generation : Z;
}.

Definition miner_new : MinerState :=
  {| extranonce1 := []; extranonce2_size := 0; difficulty := f64_of_Z 1; miner_job := None; generation := 0 |}.

Definition has_work_after (m : MinerState) (last_generation : Z) : bool :=
  (last_generation <? generation m) && is_some (miner_job m) && negb (extranonce2_size m =? 0)%nat.

(** The request ids, as JSON text. *)
Definition SUBSCRIBE_ID : bytes := [zb 0x22; zb 0x31; zb 0x22].

Section miner.
Context `{Digests}.
(** How a JSON number is read as a double. *)
Context (parse : bytes -> option f64).

Definition unwrap_hex (s : bytes) : bytes := default [] (hex_decode s).

(** [read_messages], a line of it: every other line is only printed. The lines are those of
    this gateway, whose notifies carry a second coinbase part that is empty, so the one
    kept is written as empty here. *)
Definition read_message (m : MinerState) (l : Line) : MinerState :=
  match l with
  | Reply _ id (ASubscription _ e1 size) =>
    if bool_decide (id = SUBSCRIBE_ID)
    then {| extranonce1 := unwrap_hex e1; extranonce2_size := size; difficulty := difficulty m; miner_job := miner_job m;
            generation := generation m |}
    else m
  | Reply _ _ _ => m
  | SetDifficulty announced =>
    match pool_difficulty (default (f64_of_Z 1) (parse announced)) with
    | None => m
    | Some d => {| extranonce1 := extranonce1 m; extranonce2_size := extranonce2_size m; difficulty := d; miner_job := miner_job m;
                   generation := generation m |}
    end
  | NotifyLine n =>
    let prev := unwrap_hex (n_prevblock_hidden n) in
    let ntime := unwrap_hex (n_ntime n) in
    if negb (length prev =? 32)%nat || negb (length ntime =? SIA_WORDS_LEN)%nat then m else
    {| extranonce1 := extranonce1 m; extranonce2_size := extranonce2_size m; difficulty := difficulty m;
       miner_job := Some {| m_id := n_id n; m_prevblock_hidden := prev; m_coinb1 := unwrap_hex (n_coinb1 n); m_coinb2 := [];
                            m_ntime := ntime; m_ntime_hex := n_ntime n |};
       generation := wrap 64 (generation m + 1) |}
  end.

(** What the socket brings: of what leaves a connection, its lines. *)
Definition reads (m : MinerState) (l : list Out) : MinerState :=
  foldl (fun m o => match o with Sent l => read_message m l | BlockFound _ _ => m end) m l.

Definition EXTRANONCE2_BYTE : byte := zb 0x42.
Definition miner_extranonce2 (m : MinerState) : bytes := replicate (extranonce2_size m) EXTRANONCE2_BYTE.

(** The input of a job, none where the parts do not make a leaf of the work root. *)
Definition miner_header (m : MinerState) (j : MinerJob) : option bytes :=
  work_root ← work_root_from_stratum (m_coinb1 j) (extranonce1 m ++ miner_extranonce2 m) (m_coinb2 j);
  Some (asic_input_body (m_prevblock_hidden j) (sia_words 0 0) (m_ntime j) work_root).

Definition ASIC_INPUT_NONCE_AT : nat := 32.

Inductive Outcome := Found (nonce : Z) | Exhausted | Superseded.

Definition nonce_hits (header target : bytes) (nonce : Z) : bool :=
  meets_target (blake2b_256 (splice header ASIC_INPUT_NONCE_AT nonce)) target.

(** [mine]: [stops] is what the threads read as they go, [superseded] what the generation
    reads at the end. *)
Definition mine (header target : bytes) (threads : Z) (stops : Z -> Z -> bool) (superseded : bool) : Outcome :=
  match search (nonce_hits header target) threads stops with
  | Some nonce => Found nonce
  | None => if superseded then Superseded else Exhausted
  end.

(** The parameters of the [mining.submit] of a nonce. *)
Definition submit_params (user : bytes) (m : MinerState) (j : MinerJob) (nonce : Z) : list bytes :=
  [user; m_id j; hex_encode (miner_extranonce2 m); m_ntime_hex j; hex_encode (sia_words nonce 0)].

End miner.

(** ** What the search covers *)

Section covers.
Context (hit : Z -> bool) (threads : Z) (stops : Z -> Z -> bool) (Hthreads : 1 <= threads).

Lemma try_nonce_unfold t nonce : try_nonce hit threads stops t nonce =
  if 2 ^ 32 - 1 <? nonce then Err None else if hit nonce then Err (Some nonce)
  else if (nonce mod CHECK_INTERVAL <? threads) && stops t nonce then Err None else Ok (nonce + threads).
Proof. done. Qed.

(** A thread from a nonce on: what it ends with, given turns enough. *)
Lemma thread_covers t n : forall nonce, 0 <= nonce -> 2 ^ 32 <= nonce + Z.of_nat n * threads ->
  exists found, iter_nat (S n) (try_nonce hit threads stops t) nonce = Err found /\
  match found with
  | Some m => nonce <= m < 2 ^ 32 /\ hit m = true
  | None => (exists k, stops t k = true) \/ forall i, 0 <= i -> nonce + i * threads < 2 ^ 32 -> hit (nonce + i * threads) = false
  end.
Proof.
  induction n as [|n IH]; intros nonce H0 Hn.
  { exists None. change (iter_nat 1 _ _) with (try_nonce hit threads stops t nonce ≫= iter_nat 0 (try_nonce hit threads stops t)). rewrite try_nonce_unfold.
    rewrite (proj2 (Z.ltb_lt _ _)) by lia. split; [done|]. right. intros i Hi Hlt. nia. }
  change (iter_nat (S (S n)) _ _) with (try_nonce hit threads stops t nonce ≫= iter_nat (S n) (try_nonce hit threads stops t)).
  rewrite try_nonce_unfold. destruct (Z.ltb_spec (2 ^ 32 - 1) nonce) as [Hend|Hin].
  { exists None. split; [done|]. right. intros i Hi Hlt. nia. }
  destruct (hit nonce) eqn:Eh; [exists (Some nonce); split; [done|]; split; [lia|done]|].
  destruct ((nonce mod CHECK_INTERVAL <? threads) && stops t nonce) eqn:Es.
  { exists None. split; [done|]. left. exists nonce. by apply andb_true_iff in Es as [_ ?]. }
  destruct (IH (nonce + threads)) as (found & E & Hf); [lia|lia|]. exists found. split; [exact E|].
  destruct found as [m|]; [split; [lia|apply Hf]|]. destruct Hf as [Hs|Hf]; [by left|right]. intros i Hi Hlt.
  destruct (Z.eq_dec i 0) as [->|]; [by replace (nonce + 0 * threads) with nonce by lia|].
  replace (nonce + i * threads) with (nonce + threads + (i - 1) * threads) by lia. apply Hf; lia.
Qed.

Lemma thread_search_covers t : 0 <= t ->
  match thread_search hit threads stops t with
  | Some m => 0 <= m < 2 ^ 32 /\ hit m = true
  | None => (exists k, stops t k = true) \/ forall i, 0 <= i -> t + i * threads < 2 ^ 32 -> hit (t + i * threads) = false
  end.
Proof.
  intros Ht. unfold thread_search. rewrite for_n_nat.
  assert (exists n, Z.to_nat (2 ^ 32 + 1) = S n /\ Z.of_nat n = 2 ^ 32) as (n & -> & En).
  { exists (Z.to_nat (2 ^ 32)). split; lia. }
  destruct (thread_covers t n t Ht) as (found & -> & Hf); [rewrite En; nia|].
  destruct found as [m|]; [split; [lia|apply Hf]|done].
Qed.

Lemma search_elem (l : list Z) : match first_of hit threads stops l with
  | Some n => exists t, t ∈ l /\ thread_search hit threads stops t = Some n
  | None => forall t, t ∈ l -> thread_search hit threads stops t = None
  end.
Proof.
  induction l as [|t l IH]; cbn [first_of foldr]; [by intros t ?%not_elem_of_nil|]. fold (first_of hit threads stops l). destruct (thread_search _ _ _ t) as [n|] eqn:E.
  - destruct (first_of _ _ _ l) as [m|]; [|by exists t; split; [apply list_elem_of_here|]].
    destruct IH as (u & Hu & Eu). destruct (Z.min_spec n m) as [[_ ->]|[_ ->]].
    + exists t. split; [apply list_elem_of_here|done].
    + exists u. split; [by apply list_elem_of_further|done].
  - destruct (first_of _ _ _ l) as [m|].
    + destruct IH as (u & Hu & Eu). exists u. split; [by apply list_elem_of_further|done].
    + intros u [->|Hu]%elem_of_cons; [done|by apply IH].
Qed.

Lemma search_sound n : search hit threads stops = Some n -> uint 32 n /\ hit n = true.
Proof.
  intros E. pose proof (search_elem (seqZ 0 threads)) as Hs. unfold search in E. rewrite E in Hs. destruct Hs as (t & Ht & Et).
  apply elem_of_seqZ in Ht. pose proof (thread_search_covers t ltac:(lia)) as Hc. by rewrite Et in Hc.
Qed.

End covers.

(** The nonce search is sound and covers the nonce space. However many threads share it,
    whatever they read of each other as they go and in whatever order they end, a nonce
    it returns is one of 32 bits that meets the target; and where the threads stop early
    only because one of them has found a nonce, it returns none only when no nonce
    does. *)
Theorem nonce_search_covers (hit : Z -> bool) (threads : Z) (stops : Z -> Z -> bool) :
  1 <= threads ->
  match search hit threads stops with
  | Some n => uint 32 n /\ hit n = true
  | None => (forall t k, stops t k = true -> exists u, 0 <= u < threads /\ thread_search hit threads stops u <> None) ->
    forall n, uint 32 n -> hit n = false
  end.
Proof.
  intros Hthreads. destruct (search hit threads stops) as [n|] eqn:E; [by eapply search_sound|].
  pose proof (search_elem hit threads stops (seqZ 0 threads)) as Hs. unfold search in E. rewrite E in Hs.
  intros Hstops n Hn. unfold uint in Hn. pose proof (Z.mod_pos_bound n threads ltac:(lia)) as Hm. pose proof (Z.div_mod n threads ltac:(lia)) as Hd.
  assert (forall u, 0 <= u < threads -> thread_search hit threads stops u = None) as Hnone by (intros u Hu; apply Hs, elem_of_seqZ; lia).
  pose proof (thread_search_covers hit threads stops Hthreads (n mod threads) ltac:(lia)) as Hc. rewrite Hnone in Hc by lia.
  destruct Hc as [[k Hk]|Hc].
  + destruct (Hstops _ _ Hk) as (u & Hu & Hf). by rewrite Hnone in Hf.
  + replace n with (n mod threads + n / threads * threads) by lia. apply Hc; [apply Z.div_pos; lia|lia].
Qed.

Lemma nonce_search_covers_witness :
  search (fun n => n =? 7) 4 (fun t _ => negb (t =? 3)) = Some 7 /\ uint 32 7.
Proof.
  pose proof (nonce_search_covers (fun n => n =? 7) 4 (fun t _ => negb (t =? 3)) ltac:(lia)) as Hn.
  assert (search (fun n => n =? 7) 4 (fun t _ => negb (t =? 3)) = Some 7) as E by (vm_compute; reflexivity).
  rewrite E in Hn. split; [exact E|exact (proj1 Hn)].
Defined.

(** ** What is mined is what was notified *)

Section mined.
Context `{Digests} `{!AddressCodec} `{!Json} `{!JsonText}.
Context (parse : bytes -> option f64) (Hparse : reads_doubles parse).
Context (cfg : StratumConfig) (clock : nat -> Z).

Lemma asic_input_plain h wr h2 : Header.flags h = 0 -> asic_input_with h wr h2 =
  asic_input_body (prevblock_hidden (Header.prev_block h)) (sia_words (Header.nonce h) (Header.nonce2 h))
    (sia_words (Header.time_offset h) (Header.nonce3 h)) wr.
Proof. intros Hf. unfold asic_input_with, asic_profile. by rewrite Hf. Qed.

Lemma length_commitment_h2 j kind target_byte c : commitment j kind target_byte = Some c -> length (commitment_h2 c) = 32%nat.
Proof.
  unfold commitment. destruct (full_coinbase _ _ _); cbn [mbind option_bind]; [|done]. destruct (job_header _ _ _ _ _ _ _); cbn [mbind option_bind]; [|done].
  intros [= <-]. unfold job_hash_stages. destruct (job_abw j); apply length_tagged_sha256.
Qed.

(** A nonce's place in the input. *)
Lemma splice_body head nonce high ntime root : length head = ASIC_INPUT_NONCE_AT ->
  splice (asic_input_body head (sia_words 0 high) ntime root) ASIC_INPUT_NONCE_AT nonce = asic_input_body head (sia_words nonce high) ntime root.
Proof.
  intros Hl. unfold splice, asic_input_body, sia_words. rewrite take_length_app by done. f_equal.
  rewrite <- Hl, <- !app_assoc. replace (length head + NONCE_SIZE)%nat with (length head + length (le SIA_WORD_LEN 0))%nat by (by rewrite length_le).
  rewrite <- drop_drop, drop_app_length, drop_app_length. done.
Qed.

(** The header a submit makes hashes as the miner's input does. *)
Lemma submitted_hash j kind target_byte e sia_ntime sia_nonce c :
  commitment j kind target_byte = Some c -> length e = HEADER_EXTRANONCE_SIZE ->
  length sia_ntime = SIA_WORDS_LEN -> length sia_nonce = SIA_WORDS_LEN ->
  exists h, submitted_header j kind target_byte e sia_ntime sia_nonce = Some h /\
    job_raw_pow_hash j h = blake2b_256 (asic_input_body (prevblock_hidden (ShareMsg.prev_hash (job_section j))) sia_nonce sia_ntime
      (work_root (commitment_h2 c) e)).
Proof.
  intros Ec He Ht Hn. unfold submitted_header. rewrite Ec. cbn [mbind option_bind]. eexists. split; [reflexivity|].
  unfold commitment in Ec. destruct (full_coinbase j kind target_byte) as [tx|]; cbn [mbind option_bind] in Ec; [|done].
  unfold job_header in Ec. destruct (_ <=? _); cbn [mbind option_bind] in Ec; [done|]. apply (inj Some) in Ec as <-.
  rewrite job_raw_pow_hash_eq. unfold job_hash_stages. cbn [commitment_header commitment_h2].
  pose proof (sia_words_halves _ Ht) as Et. pose proof (sia_words_halves _ Hn) as En.
  unfold set_sia_fields. destruct (sia_halves sia_nonce) as [n n2], (sia_halves sia_ntime) as [off n3]. cbn [fst snd] in Et, En.
  unfold raw_pow_hash. rewrite asic_input_plain by done. cbn [Header.nonce Header.nonce2 Header.nonce3 Header.time_offset]. rewrite Et, En.
  by destruct (job_abw j).
Qed.
(** ** The two in step *)

(** What the miner has of the connection: its part of the extranonce, and the target of the
    difficulty last announced. *)
Record in_step (w : World) (m : MinerState) : Prop := {
  is_extranonce : extranonce1 m = zeros HEADER_EXTRANONCE_PAD ++ be 4 (sid (connection w));
  is_size : extranonce2_size m = EXTRANONCE2_SIZE;
  is_target : last_sent (vardiff (connection w)) = 0 \/
    target_for_difficulty (difficulty m) = target_for_exponent (floor_log2 (last_sent (vardiff (connection w))));
}.

Lemma read_difficulty m d : is_pow2 d -> let m2 := read_message parse m (SetDifficulty (format d)) in
  extranonce1 m2 = extranonce1 m /\ extranonce2_size m2 = extranonce2_size m /\
  target_for_difficulty (difficulty m2) = target_for_exponent (floor_log2 d).
Proof.
  intros (k & Hk & ->). destruct (power_read parse k Hparse Hk) as (x & Ex & Ht). cbn [read_message].
  destruct (parse (format (2 ^ k))) as [a|]; [|done]. cbn [mbind option_bind] in Ex.
  cbn [from_option id]. by rewrite Ex.
Qed.

(** The miner after a notify: in step, and at work on the job. *)
Definition miner_job_of (j : Job) (prefix : NotifyPrefix) (h2 : bytes) : MinerJob :=
  {| m_id := notify_id prefix (job_stratum_id j); m_prevblock_hidden := job_prevblock_hidden j;
     m_coinb1 := zeros COINB1_LEADING_ZEROS ++ h2; m_coinb2 := []; m_ntime := sia_words 0 0; m_ntime_hex := ntime_hex |}.

Lemma unwrap_encode l : unwrap_hex (hex_encode l) = l.
Proof. unfold unwrap_hex. by rewrite hex_decode_encode. Qed.

Lemma coinb1_bytes h2 : mjoin (replicate COINB1_LEADING_ZEROS (text "00")) ++ hex_encode h2 = hex_encode (zeros COINB1_LEADING_ZEROS ++ h2).
Proof. done. Qed.

Lemma read_notify m n j prefix h2 : length (job_prevblock_hidden j) = 32%nat ->
  n_id n = notify_id prefix (job_stratum_id j) -> n_prevblock_hidden n = hex_encode (job_prevblock_hidden j) ->
  n_coinb1 n = mjoin (replicate COINB1_LEADING_ZEROS (text "00")) ++ hex_encode h2 -> n_ntime n = ntime_hex ->
  let m2 := read_message parse m (NotifyLine n) in
  extranonce1 m2 = extranonce1 m /\ extranonce2_size m2 = extranonce2_size m /\ difficulty m2 = difficulty m /\
  miner_job m2 = Some (miner_job_of j prefix h2).
Proof.
  intros Hl Ei Ep Ec Et. cbn [read_message]. rewrite Ep, Et, Ec, coinb1_bytes, Ei. unfold ntime_hex. rewrite !unwrap_encode, Hl. done.
Qed.

Lemma notify_in_step p w j prefix clean w2 m : is_pow2 (Vardiff.min p) -> telling p w -> in_step w m ->
  length (job_prevblock_hidden j) = 32%nat -> notify clock j prefix clean w = (w2, Ok tt) ->
  exists k c, emitted w2 = emitted w ++ k /\ in_step w2 (reads parse m k) /\
    is_pow2 (diff (notify_difficulty clock w j prefix).1) /\
    last_sent (vardiff (connection w2)) = diff (notify_difficulty clock w j prefix).1 /\
    commitment j (coinbase_of prefix) (floor_log2 (diff (notify_difficulty clock w j prefix).1)) = Some c /\
    miner_job (reads parse m k) = Some (miner_job_of j prefix (commitment_h2 c)).
Proof.
  intros Hmin Hw [He Hs Ht] Hl En. apply notify_sent in En. destruct (announced_told clock p Hmin w j prefix Hw) as (Hd & _ & _ & Hsent & Ha).
  destruct (nd_sent _ _ _ _ _ _ En) as (c & Ec & Eout). pose proof (nd_vardiff _ _ _ _ _ _ En) as Ev. pose proof (nd_sid _ _ _ _ _ _ En) as Esid.
  set (nd := notify_difficulty clock w j prefix) in *. pose proof (pow2_range _ Hd) as Hr. rewrite Z.max_l in Ec, Eout by lia.
  eexists _, c. split; [exact Eout|].
  assert (let m1 := reads parse m (announcement nd.1) in extranonce1 m1 = extranonce1 m /\ extranonce2_size m1 = extranonce2_size m /\
    target_for_difficulty (difficulty m1) = target_for_exponent (floor_log2 (diff nd.1))) as (E1 & E2 & E3).
  { cbn zeta. unfold announcement. destruct (announce nd.1) as [d|].
    - change (reads _ _ _) with (read_message parse m (SetDifficulty (format d))). rewrite Ha. by apply read_difficulty.
    - change (reads _ _ _) with m. split_and!; [done|done|]. rewrite <- Ha. destruct Ht as [E0|]; [|done]. rewrite E0 in Ha. lia. }
  unfold reads at 1 2. rewrite foldl_app. fold (reads parse m (announcement nd.1)). cbn [foldl].
  destruct (read_notify (reads parse m (announcement nd.1)) (notify_line w j prefix clean (commitment_h2 c) (floor_log2 (diff nd.1))) j prefix (commitment_h2 c))
    as (F1 & F2 & F3 & F4); [done..|]. cbn zeta in *.
  split_and!; [split|done| |done|].
  - by rewrite F1, E1, Esid.
  - by rewrite F2, E2.
  - right. by rewrite F3, E3, Ev, Hsent.
  - by rewrite Ev.
  - exact F4.
Qed.

(** A notify's job is served at the difficulty it was notified at. *)
Lemma notified_diff w j prefix clean w2 : notified clock w j prefix clean w2 -> (Z.to_nat (slot j) < length (job_diffs (connection w)))%nat ->
  is_pow2 (diff (notify_difficulty clock w j prefix).1) ->
  served_diff (connection w2) {| id_slot := slot j; id_prefix := prefix |} = Some (diff (notify_difficulty clock w j prefix).1).
Proof.
  intros Hn Hslot Hd. unfold served_diff. cbn [id_prefix id_slot]. rewrite (nd_vardiff _ _ _ _ _ _ Hn), (nd_diffs _ _ _ _ _ _ Hn).
  destruct (bool_decide (prefix = Quickdiff)) eqn:Eq.
  - assert (quickdiff_value (notify_difficulty clock w j prefix).2 = diff (notify_difficulty clock w j prefix).1) as ->.
    { unfold notify_difficulty. rewrite Eq. unfold on_notify. cbn zeta. by destruct (negb _). }
    pose proof (pow2_range _ Hd). by rewrite (proj2 (Z.ltb_lt _ _)) by lia.
  - by rewrite list_lookup_insert_eq.
Qed.

(** What a subscription leaves the miner with. *)
Lemma subscription_read m w id r : id = SUBSCRIBE_ID -> let m2 := read_message parse m (Reply r id (subscription (connection w))) in
  extranonce1 m2 = zeros HEADER_EXTRANONCE_PAD ++ be 4 (sid (connection w)) /\ extranonce2_size m2 = EXTRANONCE2_SIZE.
Proof.
  intros ->. cbn [read_message subscription]. rewrite bool_decide_eq_true_2 by done. cbn [extranonce1 extranonce2_size]. split; [|done].
  assert (replicate (2 * HEADER_EXTRANONCE_PAD) (zb 0x30) = hex_encode (zeros HEADER_EXTRANONCE_PAD)) as -> by (by vm_compute).
  change 8%nat with (2 * 4)%nat. rewrite hex_fixed_bytes.
  assert (hex_encode (zeros HEADER_EXTRANONCE_PAD) ++ hex_encode (be 4 (sid (connection w))) =
    hex_encode (zeros HEADER_EXTRANONCE_PAD ++ be 4 (sid (connection w)))) as -> by (unfold hex_encode; by rewrite fmap_app, join_app).
  apply unwrap_encode.
Qed.

(** A subscription up to the work it sends. *)
Lemma subscribe_run p id params w w2 u : is_pow2 (Vardiff.min p) -> telling p w -> subscribed (stats (connection w)) = false ->
  on_subscribe clock id params w = (w2, Ok u) -> exists w1 d,
    emitted w1 = emitted w ++ [Sent (Reply None id (subscription (connection w))); Sent (SetDifficulty (format d))] /\
    is_pow2 d /\ last_sent (vardiff (connection w1)) = d /\ sid (connection w1) = sid (connection w) /\ telling p w1 /\
    send_current clock w1 = (w2, Ok u).
Proof.
  intros Hmin [Hv Ht Htip Hl Hg] Hs. unfold on_subscribe. run. rewrite Hs. unfold reply_result, reply. run.
  destruct (send_line _ w) as [wa [[]|e]] eqn:Ea; [|done]. apply send_line_ok in Ea. subst wa. run. cbn [connection].
  pose proof (mark_sent_ok p False Hmin _ Hv) as Hm. destruct (mark_sent _) as [d v]. destruct Hm as (Hv2 & Hd1 & _ & Hd & _). run.
  unfold send_difficulty at 1. run. destruct (send_line _ _) as [wb [[]|e]] eqn:Eb; [|done]. apply send_line_ok in Eb. subst wb. run.
  match goal with |- send_current clock ?x = _ -> _ => set (w1 := x) end. intros E. exists w1, d.
  split; [cbn; by rewrite <- app_assoc|]. split; [done|]. split; [done|]. split; [done|]. split; [|done].
  split; cbn.
  - by apply set_shares_ok.
  - right. by rewrite last_told_snoc, Hd1.
  - intros h Eh. rewrite !last_tip_snoc. by apply Htip.
  - by repeat apply well_told_snoc.
  - done.
Qed.

(** A miner that subscribes is in step. *)
Lemma subscribe_in_step p params w w2 m : is_pow2 (Vardiff.min p) -> telling p w -> subscribed (stats (connection w)) = false ->
  on_subscribe clock SUBSCRIBE_ID params w = (w2, Ok tt) ->
  exists k, emitted w2 = emitted w ++ k /\ in_step w2 (reads parse m k).
Proof.
  intros Hmin Hw Hs E. destruct (subscribe_run p _ _ _ _ _ Hmin Hw Hs E) as (w1 & d & E1 & Hd & Hl & Esid & Hw1 & E2).
  set (k1 := [Sent (Reply None SUBSCRIBE_ID (subscription (connection w))); Sent (SetDifficulty (format d))]) in *.
  assert (in_step w1 (reads parse m k1)) as Hm.
  { destruct (subscription_read m w SUBSCRIBE_ID None eq_refl) as [F1 F2].
    destruct (read_difficulty (read_message parse m (Reply None SUBSCRIBE_ID (subscription (connection w)))) d Hd) as (G1 & G2 & G3).
    cbn zeta in *. split; [|by rewrite <- F2|right; by rewrite Hl]. rewrite Esid, <- F1. done. }
  unfold send_current in E2. rewrite run_bind in E2. cbn [get] in E2. destruct (GatewayJob.current _) as [pub|] eqn:Ep.
  - unfold send_job in E2. rewrite run_bind in E2. cbn [on_connection] in E2.
    match type of E2 with notify _ _ _ _ ?x = _ => set (w3 := x) in E2 end.
    assert (telling p w3) as Hw3 by (by destruct Hw1; split). assert (in_step w3 (reads parse m k1)) as Hm3 by (by destruct Hm; split).
    eapply notify_in_step in E2 as (k & c & Ek & Hk & _); [|exact Hmin|exact Hw3|exact Hm3|].
    2: { rewrite (proj1 (te_gateway _ _ Hw1) _ Ep). apply length_prevblock_hidden. }
    exists (k1 ++ k). split; [by rewrite Ek, app_assoc, <- E1|]. unfold reads in *. by rewrite foldl_app.
  - injection E2 as <-. by exists k1.
Qed.

(** The submit of a nonce, read where the job is still held. *)
Lemma submit_read c i unix_now now j prefix h2 m nonce user params w d :
  build_job c i unix_now now = Some (Ok j) ->
  extranonce1 m = zeros HEADER_EXTRANONCE_PAD ++ be 4 (sid (connection w)) -> extranonce2_size m = EXTRANONCE2_SIZE ->
  is_pow2 d -> uint 32 nonce ->
  served_diff (connection w) {| id_slot := slot j; id_prefix := prefix |} = Some d ->
  (forall k, str_at params k = submit_params user m (miner_job_of j prefix h2) nonce !! k) ->
  job_at (gw_jobs (gateway w)) (slot j) = Some j ->
  parse_submit w params = Ok
    {| req_job := j; req_job_diff := d; req_notify_id := {| id_slot := slot j; id_prefix := prefix |};
       req_extranonce := extranonce1 m ++ miner_extranonce2 m; req_sia_ntime := sia_words 0 0; req_sia_nonce := sia_words nonce 0;
       req_username := username_param (Some user) |}.
Proof.
  intros Hb He Hs Hd Hn Hserved Hp Hj. destruct (build_job_spec c i unix_now now) as (r & Er & Hr). rewrite Hb in Er.
  apply (inj Some) in Er as <-. specialize (Hr j eq_refl). destruct (jb_id _ _ _ Hr) as [t Eid].
  assert (uint 8 (slot j)) as Hslot by (rewrite (jb_slot _ _ _ Hr); by apply uint_wrap).
  unfold parse_submit. rewrite !Hp. cbn [submit_params lookup list_lookup ok_or mbind result_bind option_bind miner_job_of m_id m_ntime_hex].
  rewrite Eid, notify_id_roundtrip by (done || by apply uint_wrap). cbn [ok_or mbind result_bind id_slot]. rewrite Hj. cbn [ok_or mbind result_bind].
  rewrite Eid, bool_decide_eq_true_2 by done. cbn [negb]. rewrite Hserved. cbn [ok_or mbind result_bind].
  unfold miner_extranonce2. rewrite Hs, length_hex_encode, length_replicate, Nat.eqb_refl. cbn [negb]. rewrite hex_decode_encode.
  cbn [ok_or mbind result_bind]. unfold ntime_hex. rewrite !sia_field_read by done. cbn [ok_or mbind result_bind]. rewrite He.
  by rewrite <- app_assoc.
Qed.

(** C17: What the gateway notifies, the miner can mine, and what it mines the gateway takes.
    A miner in step with its connection reads what a notify sends, is in step again, and
    has an input to search; for every nonce its search finds, of however many threads, the
    submit it writes, read by the connection at any later moment at which the job is still
    in its slot and served at the difficulty it was announced at, whatever else the
    connection has done meanwhile, names that job and that difficulty, and the header rebuilt of it hashes to the very bytes
    the miner hashed, under the target. So the answer to it rests only on the previous
    block, the job's age, whether it was sent before and the username: never is it unknown
    work or a high hash. *)
Theorem mined_work_is_accepted (p : VardiffParams) (c : JobConfig) (i : JobInputs) (unix_now now : Z) (j : Job)
    (w w2 : World) (prefix : NotifyPrefix) (clean : bool) (m : MinerState) :
  is_pow2 (Vardiff.min p) -> telling p w -> length (job_diffs (connection w)) = Z.to_nat MAX_JOBS -> in_step w m ->
  build_job c i unix_now now = Some (Ok j) ->
  notify clock j prefix clean w = (w2, Ok tt) ->
  exists k mj input, emitted w2 = emitted w ++ k /\ in_step w2 (reads parse m k) /\
  miner_job (reads parse m k) = Some mj /\ miner_header (reads parse m k) mj = Some input /\
  forall threads stops superseded nonce user params w3, 1 <= threads ->
    mine input (target_for_difficulty (difficulty (reads parse m k))) threads stops superseded = Found nonce ->
    (forall n, str_at params n = submit_params user (reads parse m k) mj nonce !! n) ->
    sid (connection w3) = sid (connection w2) -> job_at (gw_jobs (gateway w3)) (slot j) = Some j ->
    (let named := {| id_slot := slot j; id_prefix := prefix |} in
     served_diff (connection w3) named = served_diff (connection w2) named) ->
    exists req h, parse_submit w3 params = Ok req /\ req_job req = j /\ req_username req = username_param (Some user) /\
      submitted_header j (coinbase_of (id_prefix (req_notify_id req))) (floor_log2 (req_job_diff req)) (req_extranonce req)
        (req_sia_ntime req) (req_sia_nonce req) = Some h /\
      job_raw_pow_hash j h = blake2b_256 (splice input ASIC_INPUT_NONCE_AT nonce) /\
      (acceptable cfg clock w3 j (job_raw_pow_hash j h) (floor_log2 (req_job_diff req)) (req_username req) <->
       is_stale_prevblock (gw_jobs (gateway w3)) j = false /\
       duration_since (clock (clock_reads w3)) (created_at j) <= stale_window cfg /\
       seen (seen_share_hashes (gateway w3)) !! job_raw_pow_hash j h = None /\
       refuses_username (require_address_username cfg) (username_modifiers cfg) (req_username req) = false).
Proof.
  intros Hmin Hw Hslots Hm Hb En. destruct (build_job_spec c i unix_now now) as (r & Er & Hr). rewrite Hb in Er.
  apply (inj Some) in Er as <-. specialize (Hr j eq_refl).
  assert (uint 8 (slot j)) as Hslot by (rewrite (jb_slot _ _ _ Hr); by apply uint_wrap).
  assert (job_prevblock_hidden j = prevblock_hidden (ShareMsg.prev_hash (job_section j))) as Eh by (by rewrite (jb_hidden _ _ _ Hr), (jb_section _ _ _ Hr)).
  destruct (notify_in_step p w j prefix clean w2 m Hmin Hw Hm) as (k & cm & Ek & Hm2 & Hd & Hsent & Ecm & Ej); [rewrite Eh; apply length_prevblock_hidden|done|].
  apply notify_sent in En. set (nd := notify_difficulty clock w j prefix) in *. exists k. set (m2 := reads parse m k) in *. clearbody m2.
  assert (length (extranonce1 m2 ++ miner_extranonce2 m2) = HEADER_EXTRANONCE_SIZE) as Hlen.
  { unfold miner_extranonce2. rewrite length_app, length_replicate, (is_extranonce _ _ Hm2), (is_size _ _ Hm2), length_app, length_zeros, length_be. done. }
  exists (miner_job_of j prefix (commitment_h2 cm)), (asic_input_body (prevblock_hidden (ShareMsg.prev_hash (job_section j))) (sia_words 0 0) (sia_words 0 0)
    (work_root (commitment_h2 cm) (extranonce1 m2 ++ miner_extranonce2 m2))).
  split; [done|]. split; [done|]. split; [done|]. split.
  { unfold miner_header. cbn [miner_job_of m_coinb1 m_coinb2 m_prevblock_hidden m_ntime].
    rewrite (proj1 (work_root_from_stratum_spec _ _ [] [] (length_commitment_h2 _ _ _ _ Ecm) Hlen)). cbn [mbind option_bind]. by rewrite Eh. }
  intros threads stops superseded nonce user params w3 Hth Hmine Hp Hsid Hj Hsame.
  unfold mine in Hmine. destruct (search _ _ _) as [x|] eqn:Es; [|by destruct superseded]. injection Hmine as ->.
  apply search_sound in Es as [Hn Hhit]; [|done]. unfold nonce_hits in Hhit.
  rewrite splice_body in * by apply length_prevblock_hidden.
  assert (served_diff (connection w3) {| id_slot := slot j; id_prefix := prefix |} = Some (diff nd.1)) as Hserved.
  { rewrite Hsame. eapply notified_diff; [exact En|rewrite Hslots; by apply Z2Nat.inj_lt; destruct Hslot|exact Hd]. }
  pose proof (submit_read c i unix_now now j prefix (commitment_h2 cm) m2 nonce user params w3 (diff nd.1) Hb
    ltac:(by rewrite Hsid; apply (is_extranonce _ _ Hm2)) (is_size _ _ Hm2) Hd Hn Hserved Hp Hj) as Hreq.
  destruct (submitted_hash j (coinbase_of prefix) (floor_log2 (diff nd.1)) (extranonce1 m2 ++ miner_extranonce2 m2) (sia_words 0 0) (sia_words nonce 0) cm)
    as (h & Eh2 & Ehash); [done|done|done|done|].
  eexists _, h. split; [exact Hreq|]. cbn [req_job req_job_diff req_notify_id req_extranonce req_sia_ntime req_sia_nonce req_username id_prefix].
  split; [done|]. split; [done|]. split; [exact Eh2|]. split; [exact Ehash|].
  assert (meets_target (job_raw_pow_hash j h) (target_for_exponent (floor_log2 (diff nd.1))) = true) as Hmeets.
  { rewrite Ehash. destruct (is_target _ _ Hm2) as [E0|E1]; [pose proof (pow2_range _ Hd); rewrite Hsent in E0; lia|]. by rewrite E1, Hsent in Hhit. }
  split; [by intros []|]. intros (? & ? & ? & ?). by split.
Qed.

End mined.

(** ** An example: the first job of a connection, under a digest that meets every target *)

Lemma length_target_for_difficulty d : length (target_for_difficulty d) = TARGET_BYTES.
Proof.
  unfold target_for_difficulty. destruct (is_nan d || _); [apply length_replicate|]. destruct (negb _ || _); [apply length_replicate|].
  rewrite length_app, length_drop, length_be, length_zeros. done.
Qed.

Lemma zeros_meet n : forall t, (n <= length t)%nat -> bytes_le (zeros n) t = true.
Proof.
  induction n as [|n IH]; intros [|x t] Hn; cbn [length] in Hn; [done|done|lia|]. change (zeros (S n)) with (zb 0 :: zeros n). cbn [bytes_le].
  rewrite bz_zb_small by lia. destruct (Z.eqb_spec 0 (bz x)); [apply IH; lia|]. pose proof (bz_range x). apply Z.ltb_lt. lia.
Qed.

Definition example_connected (j : Job) : World := connected example_stratum example_clock 1 (example_gateway j).

Definition example_miner : MinerState :=
  {| extranonce1 := zeros HEADER_EXTRANONCE_PAD ++ be 4 (Z.lxor 1 SESSION_ID_XOR); extranonce2_size := EXTRANONCE2_SIZE;
     difficulty := f64_of_Z 1; miner_job := None; generation := 0 |}.

Definition example_params_of (l : list bytes) : example_json := EList (EText <$> l).

Lemma mined_work_is_accepted_witness : exists j w3 params req, example_job = Some j /\
  parse_submit (H1 := example_Json) (H2 := example_JsonText) w3 params = Ok req /\ req_job req = j.
Proof.
  destruct (example_job_built (fun _ => true)) as (j & Ej & _ & Hb); [vm_compute; reflexivity|].
  destruct (@build_job_spec zero_digests example_job_config example_inputs 77 0) as (r & Er & Hr). rewrite Hb in Er.
  apply (inj Some) in Er. subst r. specialize (Hr j eq_refl).
  assert (is_pow2 (Vardiff.min (vardiff_params example_stratum))) as Hmin by (exists 14; split; [lia|reflexivity]).
  pose proof (connected_telling (H := zero_digests) example_stratum example_clock 1 (example_gateway j) Hmin (example_gateway_ok j Hb)) as Htell.
  destruct (notify_succeeds (H := zero_digests) example_clock j Plain false (example_connected j)) as (w2 & En & _); [reflexivity| |].
  { eapply built_commitment; [exact Hr|exact example_template_wf]. }
  destruct (mined_work_is_accepted (H := zero_digests) (H0 := Address.letter_codec) (H1 := example_Json) (H2 := example_JsonText)
    example_parse example_parse_reads example_stratum example_clock (vardiff_params example_stratum) example_job_config example_inputs 77 0 j
    (example_connected j) w2 Plain false example_miner) as (k & mj & input & _ & Hstep & _ & _ & Hall).
  - exact Hmin.
  - exact Htell.
  - reflexivity.
  - split; [reflexivity|reflexivity|left; reflexivity].
  - exact Hb.
  - exact En.
  - set (m2 := reads example_parse example_miner k) in *.
    assert (exists nonce, mine (H := zero_digests) input (target_for_difficulty (difficulty m2)) 1 (fun _ _ => false) false = Found nonce) as [nonce Hm].
    { unfold mine. destruct (search _ _ _) as [n|] eqn:Es; [by exists n|]. exfalso.
      pose proof (search_elem (nonce_hits (H := zero_digests) input (target_for_difficulty (difficulty m2))) 1 (fun _ _ => false) (seqZ 0 1)) as Hs.
      unfold search in Es. rewrite Es in Hs.
      pose proof (thread_search_covers (nonce_hits (H := zero_digests) input (target_for_difficulty (difficulty m2))) 1 (fun _ _ => false) ltac:(lia) 0 ltac:(lia)) as Hc.
      rewrite Hs in Hc by (apply elem_of_seqZ; lia). destruct Hc as [[? ?]|Hc]; [done|]. specialize (Hc 0 ltac:(lia) ltac:(lia)).
      unfold nonce_hits, meets_target in Hc. change (blake2b_256 _) with (zeros 32) in Hc.
      rewrite zeros_meet in Hc by (by rewrite length_target_for_difficulty). done. }
    destruct (Hall 1 (fun _ _ => false) false nonce (text "miner") (example_params_of (submit_params (text "miner") m2 mj nonce))
      {| connection := connection w2; gateway := example_gateway j; emitted := []; io_budget := None; clock_reads := 9 |})
      as (req & h & Hreq & Hj & _); [lia|exact Hm| |reflexivity| |reflexivity|].
    + intros n. unfold str_at. cbn [get_at example_JsonText example_get_at example_params_of].
      rewrite list_lookup_fmap. destruct (submit_params _ _ _ _ !! n) as [s|]; reflexivity.
    + change (job_at _ _) with (mjoin (<[Z.to_nat (slot j) := Some j]> (replicate 256 (@None Job)) !! Z.to_nat (slot j))).
      rewrite list_lookup_insert_eq; [reflexivity|]. rewrite length_replicate, (jb_slot _ _ _ Hr).
      pose proof (uint_wrap 8 (in_serial example_inputs mod protocol_job_slots example_job_config) ltac:(lia)) as Hu. unfold uint in Hu.
      change 256%nat with (Z.to_nat (2 ^ 8)). apply Z2Nat.inj_lt; lia.
    + eexists j, _, _, req. split; [exact Ej|]. split; [exact Hreq|exact Hj].
Defined.
