(* ===== verification/Sessions.v ===== *)
(** The version 3 sessions kept between connections ([prime/src/sessions.rs]), with
    the parts of [connection.rs] that save, resume and claim them: what a gateway
    finds again when it reconnects, whatever hellos are replayed meanwhile. *)
From S2P Require Import Prelude Bitcoin Handshake.
From S2P Require Import AbwSlots Splits Bounded.

Definition SESSION_KEEP : Z := from_secs 3600.
Definition MAX_SAVED_SESSIONS : nat := 4096.

Record V3Session := { token : bytes; v3_abw : AbwSlotState }.

Record SavedSession := {
  saved_v3 : V3Session;
  saved_splits : DictatedSplits;
  saved_at : Z;
  connection_opened_at : Z;
}.

Definition expired (s : SavedSession) (now : Z) : bool := SESSION_KEEP <? duration_since now (saved_at s).

Record SessionStore := { saved : BoundedMap bytes SavedSession; prime_id : Z }.

Definition store_new (prime_id : Z) : SessionStore := {| saved := new MAX_SAVED_SESSIONS; prime_id := prime_id |}.

Definition set_saved (st : SessionStore) (m : BoundedMap bytes SavedSession) : SessionStore :=
  {| saved := m; prime_id := prime_id st |}.

Definition save (st : SessionStore) (key : bytes) (session : SavedSession) : SessionStore :=
  let m := retain (fun _ s => negb (expired s (saved_at session))) (saved st) in
  match get m key with
  | Some kept =>
    if connection_opened_at session <? connection_opened_at kept then set_saved st m
    else set_saved st (insert m key session).1
  | None => set_saved st (insert m key session).1
  end.

(** [random] is what the new token draws, [fresh] the first key of new slots. *)
Definition resume_or_start (st : SessionStore) (client_sign_pk : bytes) (presented : option bytes) (now : Z)
    (random fresh : bytes) : V3Session * DictatedSplits * bool :=
  let found :=
    presented ← presented;
    s ← get (saved st) client_sign_pk;
    if negb (expired s now) && bool_decide (token (saved_v3 s) = presented) then Some s else None in
  match found with
  | Some s =>
    ({| token := new_resume_token (prime_id st) random; v3_abw := resume (v3_abw (saved_v3 s)) (saved_at s) |},
     saved_splits s, true)
  | None => ({| token := new_resume_token (prime_id st) random; v3_abw := start now fresh |}, no_splits, false)
  end.

Definition claim (st : SessionStore) (client_sign_pk presented : bytes) : SessionStore * bool :=
  let claimed := from_option (fun s => bool_decide (token (saved_v3 s) = presented)) false (get (saved st) client_sign_pk) in
  (if claimed then set_saved st (remove (saved st) client_sign_pk).1 else st, claimed).

(** ** A connection's session *)

Record SessionConn := {
  client_sign_pk : bytes;
  opened_at : Z;
  v3 : option V3Session;
  splits : DictatedSplits;
  resumed_from : option bytes;
  proven : bool;
}.

(** A connection with its hello read, and [start_v3_session]. *)
Definition session_conn (key : bytes) (opened : Z) : SessionConn :=
  {| client_sign_pk := key; opened_at := opened; v3 := None; splits := no_splits; resumed_from := None; proven := false |}.

Definition start_v3_session (st : SessionStore) (c : SessionConn) (presented : option bytes) (now : Z)
    (random fresh : bytes) : SessionConn :=
  let '(s, spl, resumed) := resume_or_start st (client_sign_pk c) presented now random fresh in
  {| client_sign_pk := client_sign_pk c; opened_at := opened_at c;
     v3 := Some {| token := token s; v3_abw := connect (v3_abw s) (opened_at c) |}; splits := spl;
     resumed_from := if resumed : bool then presented else None; proven := proven c |}.

Definition note_proven (st : SessionStore) (c : SessionConn) : SessionStore * SessionConn :=
  if proven c then (st, c) else
  let c' := {| client_sign_pk := client_sign_pk c; opened_at := opened_at c; v3 := v3 c; splits := splits c;
               resumed_from := None; proven := true |} in
  match resumed_from c with
  | Some token => ((claim st (client_sign_pk c) token).1, c')
  | None => (st, c')
  end.

(** [Drop for Connection], its session. *)
Definition drop_session (st : SessionStore) (c : SessionConn) (now : Z) : SessionStore :=
  match v3 c with
  | Some s =>
    if proven c then
      save st (client_sign_pk c)
        {| saved_v3 := s; saved_splits := splits c; saved_at := now; connection_opened_at := opened_at c |}
    else st
  | None => st
  end.

(** What the connections do to the store, in the order they take its lock; a hello
    changes nothing. *)
Inductive store_event :=
| HelloSent (c : SessionConn) (presented : option bytes) (now : Z) (random fresh : bytes)
| ConnectionProven (c : SessionConn)
| ConnectionClosed (c : SessionConn) (now : Z).

Definition run_event (st : SessionStore) (e : store_event) : SessionStore :=
  match e with
  | HelloSent _ _ _ _ _ => st
  | ConnectionProven c => (note_proven st c).1
  | ConnectionClosed c now => drop_session st c now
  end.

(** ** A saved session stays *)

(** The entry, with at most [n] entries after it. *)
Definition kept_at (l : list (bytes * SavedSession)) (key : bytes) (s : SavedSession) (n : nat) : Prop :=
  exists pre post, l = pre ++ (key, s) :: post /\ (length post <= n)%nat.

Record store_ok (st : SessionStore) (l : list (bytes * SavedSession)) : Prop := {
  so_holds : holds l (saved st);
  so_capacity : capacity (saved st) = MAX_SAVED_SESSIONS;
}.

Lemma kept_filter P `{!forall e, Decision (P e)} l key s n : P (key, s) -> kept_at l key s n -> kept_at (filter P l) key s n.
Proof.
  intros HP (pre & post & -> & Hn). exists (filter P pre), (filter P post). rewrite filter_app, filter_cons_True by done.
  split; [done|]. pose proof (length_filter P post). lia.
Qed.

Lemma kept_insert l key s n key' s' cap : key' <> key -> (S (S n) <= cap)%nat -> kept_at l key s n ->
  kept_at (queue_insert cap l key' s') key s (S n).
Proof.
  intros Hne Hcap Hk. unfold queue_insert, others.
  destruct (kept_filter (fun e => e.1 <> key') l key s n ltac:(cbn; congruence) Hk) as (pre & post & -> & Hn).
  set (l2 := (pre ++ (key, s) :: post) ++ [(key', s')]).
  set (k := (length l2 - cap)%nat).
  assert (k <= length pre)%nat as Hle by (unfold k, l2; rewrite !length_app; cbn; lia). clearbody k.
  exists (drop k pre), (post ++ [(key', s')]). split.
  - unfold l2. rewrite <- app_assoc, drop_app_le by done. done.
  - rewrite length_app. cbn. lia.
Qed.

Lemma kept_get l m key s n : holds l m -> kept_at l key s n -> get m key = Some s.
Proof.
  intros [Hnd _ He] (pre & post & -> & _). unfold get. rewrite He. apply elem_of_list_to_map_1; [done|].
  apply elem_of_app. right. left.
Qed.

Lemma retain_ok st l keep : store_ok st l ->
  store_ok (set_saved st (retain keep (saved st))) (filter (fun e => keep e.1 e.2 = true) l).
Proof. intros [Hh Hc]. destruct (run_map_op_holds l (saved st) (OpRetain keep) Hh) as (H1 & _ & H2). split; [exact H1|by rewrite <- Hc, <- H2]. Qed.

Lemma insert_ok st l key s : store_ok st l ->
  store_ok (set_saved st (insert (saved st) key s).1) (queue_insert MAX_SAVED_SESSIONS l key s).
Proof. intros [Hh Hc]. destruct (insert_holds l (saved st) key s Hh) as (H1 & _ & H2). rewrite Hc in *. by split. Qed.

Lemma remove_ok st l key : store_ok st l -> store_ok (set_saved st (remove (saved st) key).1) (others key l).
Proof.
  intros [Hh Hc]. destruct (run_map_op_holds l (saved st) (OpRemove key) Hh) as (H1 & _ & H2).
  unfold run_map_op, run_queue_op in *. destruct (remove (saved st) key) as [m r]. cbn in *. split; cbn; [done|congruence].
Qed.

(** [save] on the list of entries. *)
Lemma save_ok st l key s : store_ok st l ->
  let l1 := filter (fun e => negb (expired e.2 (saved_at s)) = true) l in
  store_ok (save st key s)
    (match queue_get l1 key with
     | Some kept => if connection_opened_at s <? connection_opened_at kept then l1 else queue_insert MAX_SAVED_SESSIONS l1 key s
     | None => queue_insert MAX_SAVED_SESSIONS l1 key s
     end).
Proof.
  intros Hs l1. unfold save. pose proof (retain_ok st l (fun _ x => negb (expired x (saved_at s))) Hs) as H1.
  fold l1 in H1. set (m := retain _ _) in *. unfold get. rewrite (holds_get l1 m key (so_holds _ _ H1)).
  pose proof (insert_ok _ _ key s H1) as H2. cbn in H2.
  destruct (queue_get l1 key) as [kept|]; [destruct (_ <? _)|]; done.
Qed.

Lemma event_ok st l e : store_ok st l -> exists l', store_ok (run_event st e) l'.
Proof.
  intros Hs. destruct e as [c p now rnd fr|c|c now]; cbn [run_event]; [by exists l| |].
  - unfold note_proven. destruct (proven c); [by exists l|]. destruct (resumed_from c) as [t|]; [|by exists l].
    cbn. unfold claim. destruct (from_option _ _ _); [eexists; by apply remove_ok|by exists l].
  - unfold drop_session. destruct (v3 c) as [s|]; [|by exists l]. destruct (proven c); [|by exists l].
    eexists. by apply save_ok.
Qed.

Lemma store_new_ok id : store_ok (store_new id) [].
Proof. split; [apply new_holds|done]. Qed.

Lemma events_ok st l es : store_ok st l -> exists l', store_ok (foldl run_event st es) l'.
Proof.
  revert st l. induction es as [|e es IH]; intros st l Hs; [by exists l|]. cbn.
  destruct (event_ok st l e Hs) as [l' Hs']. by eapply IH.
Qed.

Definition closes (e : store_event) : bool := match e with ConnectionClosed _ _ => true | _ => false end.

(** What leaves the session [c] saved at [now] under [tok] to its gateway: no
    connection that resumed it has proved itself, none of the same gateway accepted
    later has closed, and the closings fall within [SESSION_KEEP]. *)
Definition leaves_alone (c : SessionConn) (tok : bytes) (now : Z) (e : store_event) : Prop :=
  match e with
  | HelloSent _ _ _ _ _ => True
  | ConnectionProven c' => client_sign_pk c' = client_sign_pk c -> resumed_from c' <> Some tok
  | ConnectionClosed c' at_ => at_ - now <= SESSION_KEEP /\ (client_sign_pk c' = client_sign_pk c -> opened_at c' < opened_at c)
  end.

Definition saved_of (c : SessionConn) (s : V3Session) (now : Z) : SavedSession :=
  {| saved_v3 := s; saved_splits := splits c; saved_at := now; connection_opened_at := opened_at c |}.

Lemma within_keep c s now t : t - now <= SESSION_KEEP -> expired (saved_of c s now) t = false.
Proof. intros Ht. unfold expired, duration_since. cbn. unfold SESSION_KEEP, from_secs in *. apply Z.ltb_ge. lia. Qed.

Lemma event_keeps st l c s now n e : store_ok st l -> kept_at l (client_sign_pk c) (saved_of c s now) n ->
  (S (S n) <= MAX_SAVED_SESSIONS)%nat -> leaves_alone c (token s) now e ->
  exists l', store_ok (run_event st e) l' /\
    kept_at l' (client_sign_pk c) (saved_of c s now) (if closes e then S n else n).
Proof.
  intros Hs Hk Hn He. pose proof (kept_get _ _ _ _ _ (so_holds _ _ Hs) Hk) as Hget.
  assert (kept_at l (client_sign_pk c) (saved_of c s now) (S n)) as Hk' by (destruct Hk as (pre & post & E & ?); exists pre, post; split; [done|lia]).
  destruct e as [c' p t rnd fr|c'|c' t]; cbn [run_event closes] in *; [by exists l| |].
  - unfold note_proven. destruct (proven c'); [by exists l|]. destruct (resumed_from c') as [tok|] eqn:Er; [|by exists l].
    cbn [fst]. unfold claim. destruct (decide (client_sign_pk c' = client_sign_pk c)) as [E|Hne].
    + rewrite E, Hget. cbn. rewrite bool_decide_eq_false_2; [by exists l|]. intros Ht. apply (He E). rewrite ?Er. by subst tok.
    + destruct (from_option _ _ _); [|by exists l]. exists (others (client_sign_pk c') l). split; [by apply remove_ok|].
      apply kept_filter; [cbn; congruence|done].
  - destruct He as [Ht Hopen]. unfold drop_session. destruct (v3 c') as [s'|]; [|by exists l]. destruct (proven c'); [|by exists l].
    set (new := {| saved_v3 := s' |}). pose proof (save_ok st l (client_sign_pk c') new Hs) as Hsave. cbn zeta in Hsave.
    set (l1 := filter _ l) in *.
    assert (kept_at l1 (client_sign_pk c) (saved_of c s now) n) as Hk1 by (apply kept_filter; [change (negb (expired (saved_of c s now) t) = true); by rewrite within_keep|done]).
    eexists. split; [exact Hsave|]. destruct (decide (client_sign_pk c' = client_sign_pk c)) as [E|Hne].
    + specialize (Hopen E). destruct (retain_ok st l (fun _ x => negb (expired x (saved_at new))) Hs) as [Hh1 _].
      fold l1 in Hh1. pose proof (kept_get _ _ _ _ _ Hh1 Hk1) as Hg1. unfold get in Hg1.
      rewrite (holds_get _ _ _ Hh1) in Hg1. rewrite E, Hg1. cbn [connection_opened_at new saved_of].
      destruct (Z.ltb_spec (opened_at c') (opened_at c)); [|lia]. destruct Hk1 as (pre & post & E1 & ?). exists pre, post. split; [done|lia].
    + pose proof (kept_insert l1 _ _ n (client_sign_pk c') new MAX_SAVED_SESSIONS Hne Hn Hk1) as Hins.
      destruct (queue_get l1 _) as [kept|]; [destruct (_ <? _)|]; [|exact Hins|exact Hins].
      destruct Hk1 as (pre & post & E1 & ?). exists pre, post. split; [done|lia].
Qed.

Lemma events_keep c s now es : forall st l n, store_ok st l -> kept_at l (client_sign_pk c) (saved_of c s now) n ->
  (n + length (filter (fun e => closes e = true) es) < MAX_SAVED_SESSIONS - 1)%nat -> Forall (leaves_alone c (token s) now) es ->
  exists l', store_ok (foldl run_event st es) l' /\
    kept_at l' (client_sign_pk c) (saved_of c s now) (n + length (filter (fun e => closes e = true) es)).
Proof.
  induction es as [|e es IH]; intros st l n Hs Hk Hn Hes; [exists l; by rewrite Nat.add_0_r|].
  apply Forall_cons in Hes as [He Hes]. cbn [foldl]. rewrite filter_cons in *.
  destruct (event_keeps st l c s now n e Hs Hk ltac:(unfold MAX_SAVED_SESSIONS in *; lia) He) as (l1 & Hs1 & Hk1).
  destruct (closes e); repeat case_decide; try done; cbn [length] in *.
  - destruct (IH _ _ _ Hs1 Hk1 ltac:(lia) Hes) as (l2 & Hs2 & Hk2). exists l2. split; [done|].
    by replace (n + S (length (filter (fun e => closes e = true) es)))%nat with (S n + length (filter (fun e => closes e = true) es))%nat by lia.
  - by apply (IH _ _ _ Hs1 Hk1).
Qed.

(** A gateway that reconnects finds its session again. Once a proven connection
    has closed, and whatever hellos anyone sends or sends again meanwhile, a hello with
    the session's token within [SESSION_KEEP] gets the session's splits and slots back,
    every slot's key with the status it had, under a new token: unless the gateway has
    proved itself on a connection that resumed it, or closed one accepted later, or as
    many other gateways closed as the store has room for. And once a connection that
    resumed it has proved itself, the token resumes nothing more. *)
Theorem saved_session_resumes (id : Z) (es after : list store_event) (c c' : SessionConn) (s : V3Session)
    (now later : Z) (random fresh : bytes) :
  let st := foldl run_event (store_new id) es in
  let st' := foldl run_event (drop_session st c now) after in
  v3 c = Some s -> proven c = true -> now <= later <= now + SESSION_KEEP ->
  (forall kept, get (saved st) (client_sign_pk c) = Some kept -> connection_opened_at kept <= opened_at c) ->
  Forall (leaves_alone c (token s) now) after ->
  (length (filter (fun e => closes e = true) after) < MAX_SAVED_SESSIONS - 1)%nat ->
  client_sign_pk c' = client_sign_pk c -> resumed_from c' = Some (token s) -> proven c' = false ->
  (exists s', resume_or_start st' (client_sign_pk c) (Some (token s)) later random fresh = (s', splits c, true) /\
     token s' = new_resume_token (prime_id st') random /\
     forall slot, key_for (v3_abw s') slot = key_for (v3_abw s) slot) /\
  (resume_or_start (note_proven st' c').1 (client_sign_pk c) (Some (token s)) later random fresh).2 = false.
Proof.
  intros st st' Hv3 Hproven Hlater Hnewest Hafter Hcount Hkey Hfrom Hnew.
  destruct (events_ok (store_new id) [] es (store_new_ok id)) as [l Hs]. fold st in Hs.
  assert (exists l1, store_ok (drop_session st c now) l1 /\ kept_at l1 (client_sign_pk c) (saved_of c s now) 0) as (l1 & Hs1 & Hk1).
  { unfold drop_session. rewrite Hv3, Hproven. fold (saved_of c s now). eexists. split; [by apply save_ok|].
    set (l1 := filter _ l). assert (forall cap, (1 <= cap)%nat -> kept_at (queue_insert cap l1 (client_sign_pk c) (saved_of c s now))
      (client_sign_pk c) (saved_of c s now) 0) as Hins.
    { intros cap Hcap. unfold queue_insert. set (l2 := others _ l1). exists (drop (length (l2 ++ [(client_sign_pk c, saved_of c s now)]) - cap) l2), [].
      split; [|done]. rewrite drop_app_le; [done|]. rewrite length_app. cbn. lia. }
    destruct (queue_get l1 _) as [kept|] eqn:Eq; [|apply Hins; unfold MAX_SAVED_SESSIONS; lia].
    destruct (retain_ok st l (fun _ x => negb (expired x now)) Hs) as [Hh1 _].
    pose proof (eq_trans (holds_get _ _ (client_sign_pk c) Hh1) Eq) as Hg. cbn in Hg.
    apply map_lookup_filter_Some in Hg as [Hg _]. specialize (Hnewest kept Hg). cbn [connection_opened_at saved_of].
    destruct (Z.ltb_spec (opened_at c) (connection_opened_at kept)); [lia|]. apply Hins. unfold MAX_SAVED_SESSIONS. lia. }
  destruct (events_keep c s now after _ l1 0 Hs1 Hk1 Hcount Hafter) as (l2 & Hs2 & Hk2). fold st' in Hs2.
  pose proof (kept_get _ _ _ _ _ (so_holds _ _ Hs2) Hk2) as Hget. split.
  - unfold resume_or_start. rewrite Hget. cbn [mbind option_bind]. rewrite within_keep by lia.
    rewrite bool_decide_eq_true_2 by done. cbn [negb andb]. eexists. split; [done|]. split; [done|]. intros slot.
    cbn [v3_abw saved_of saved_v3 saved_at]. unfold key_for, resume. cbn [slots published]. rewrite list_lookup_fmap.
    destruct (slots (v3_abw s) !! Z.to_nat slot) as [[|k|k t []|k [t|]]|]; done.
  - unfold note_proven. rewrite Hnew, Hfrom, Hkey. cbn [fst]. unfold claim. rewrite Hget. cbn [from_option].
    rewrite bool_decide_eq_true_2 by done. cbn iota. cbn [fst].
    assert (get (saved (set_saved st' (remove (saved st') (client_sign_pk c)).1)) (client_sign_pk c) = None) as Hnone.
    { destruct (remove_ok st' l2 (client_sign_pk c) Hs2) as [Hh _]. unfold get.
      rewrite (holds_get _ _ (client_sign_pk c) Hh). unfold queue_get, others.
      assert (filter (fun e => e.1 = client_sign_pk c) (filter (fun e => e.1 <> client_sign_pk c) l2) = []) as ->; [|done].
      clear. induction l2 as [|[k x] l IH]; [done|]. rewrite filter_cons. case_decide; [|done]. by rewrite filter_cons_False. }
    unfold resume_or_start. by rewrite Hnone.
Qed.

(** ** An example *)

Definition example_session : V3Session := {| token := le 16 5; v3_abw := start 0 (le 16 1) |}.

(** A connection of a gateway, its copy that resumed it, and one of another gateway. *)
Definition example_closing : SessionConn :=
  {| client_sign_pk := le 32 1; opened_at := 0; v3 := Some example_session; splits := no_splits; resumed_from := None;
     proven := true |}.
Definition example_resumed : SessionConn :=
  {| client_sign_pk := le 32 1; opened_at := from_secs 20; v3 := Some example_session; splits := no_splits;
     resumed_from := Some (le 16 5); proven := false |}.
Definition example_other : SessionConn :=
  {| client_sign_pk := le 32 2; opened_at := from_secs 5; v3 := Some example_session; splits := no_splits;
     resumed_from := None; proven := true |}.

Definition example_meanwhile : list store_event :=
  [HelloSent example_resumed (Some (le 16 5)) (from_secs 12) (le 8 3) (le 16 9); ConnectionClosed example_other (from_secs 15)].

Lemma saved_session_resumes_witness :
  (resume_or_start (foldl run_event (drop_session (store_new 7) example_closing (from_secs 10)) example_meanwhile)
     (le 32 1) (Some (le 16 5)) (from_secs 20) (le 8 4) (le 16 9)).2 = true /\
  (resume_or_start (note_proven (foldl run_event (drop_session (store_new 7) example_closing (from_secs 10)) example_meanwhile)
     example_resumed).1 (le 32 1) (Some (le 16 5)) (from_secs 20) (le 8 4) (le 16 9)).2 = false.
Proof.
  destruct (saved_session_resumes 7 [] example_meanwhile example_closing example_resumed example_session (from_secs 10)
    (from_secs 20) (le 8 4) (le 16 9)) as [(s' & Hr & _) Hgone]; try reflexivity.
  - split; vm_compute; discriminate.
  - intros kept Hk. vm_compute in Hk. discriminate.
  - constructor; [done|]. constructor; [|constructor]. split; [vm_compute; discriminate|].
    intros E. exfalso. revert E. vm_compute. discriminate.
  - apply Nat.ltb_lt. vm_compute. reflexivity.
  - split; [|exact Hgone]. exact (f_equal snd Hr).
Defined.
