(* ===== verification/PoolLoop.v ===== *)
(** The loop of a gateway's connection ([prime/src/connection.rs] and
    [prime/src/connection/assignments.rs]): the session it opens with, the order in which a
    turn looks at the tip, the timers, the assignments and the socket, and the dispatch of
    a frame to the handlers of [Shares] and [Payout]. What the loop meets, the clock, the
    node, the socket and the other connections, is a sequence of moments, one for each time
    it looks; what it does is a list, its messages before they are encrypted. Logging is
    left out. *)
From Stdlib Require Import SpecFloat.
From S2P Require Import Prelude Float Bitcoin Transaction Address Messages ShareMsg Coinbaser AbwMsg Validation Framing Bulk Channel Handshake.
From S2P Require Import Polled Sessions AbwSlots Window Config Rows Ledger Accounting Split Splits Bounded Jobs Verify Relay Shares Credits Payout.

Definition KEEPALIVE_INTERVAL : Z := from_secs 20.
Definition IDLE_TIMEOUT : Z := from_secs 600.
Definition MAX_UNSOLICITED_FRAME_LEN : Z := 64 * 1024.
Definition COINBASER_BURST : f64 := f64_of_Z 16.
Definition COINBASER_PER_SEC : f64 := f64_of_Z 1.

(** ** The budget of requests *)

Record RequestBudget := { tokens : f64; budget_at : Z }.

Definition budget_full (burst : f64) (now : Z) : RequestBudget := {| tokens := burst; budget_at := now |}.

(** [Duration::as_secs_f64]. *)
Definition as_secs_f64 (d : Z) : f64 :=
  f64_add (f64_of_Z (d / 10 ^ 9)) (f64_div (f64_of_Z (d mod 10 ^ 9)) (f64_of_Z (10 ^ 9))).

(** [RequestBudget::take]. *)
Definition take_request (b : RequestBudget) (now : Z) (burst per_sec : f64) : bool * RequestBudget :=
  let refill := f64_mul (as_secs_f64 (duration_since now (budget_at b))) per_sec in
  let tokens := f64_min (f64_add (tokens b) refill) burst in
  if f64_le (f64_of_Z 1) tokens
  then (true, {| tokens := SFsub f64_prec f64_emax tokens (f64_of_Z 1); budget_at := now |})
  else (false, {| tokens := tokens; budget_at := now |}).

(** ** What goes out and what comes in *)

Inductive Outgoing :=
| ConfigSent (payload : bytes)
| SlotNotice (payload : bytes)
| SlotReveal (r : PendingReveal)
| TipNotice
| KeepalivePing
| CoinbaserAnswer (payload : bytes)
| BulkAck (a : Ack).

(** The command, the payload and whether it is signed. *)
Definition wire_of (o : Outgoing) : Z * bytes * bool :=
  match o with
  | ConfigSent payload => (cmd.MINING, payload, true)
  | SlotNotice payload => (cmd.MINING, payload, false)
  | SlotReveal r => (cmd.MINING, reveal_payload r, false)
  | TipNotice => (cmd.MINING, BLOCKNOTIFY_MESSAGE, false)
  | KeepalivePing => (cmd.HELLO_OR_PING, [], false)
  | CoinbaserAnswer payload => (cmd.MINING, payload, false)
  | BulkAck a => (cmd.BULK, encode_ack a, false)
  end.

(** What the loop did: a mining message it dispatched, what a handler put in its log, a
    message of its own, a saved session released to it, a wait for the socket. *)
Inductive Deed := Took (message : bytes) | Did (e : Event) | Sent (o : Outgoing) | Released (token : bytes) | Slept (d : Z).

(** What a read of the socket comes to: nothing for now, the end, a failure, or a header
    with what arrived after it in time. *)
Inductive Incoming := NoBytes (blocked : bool) | PeerClosed | ReadFailed | Arrived (head after : bytes).

(** What the loop meets when it looks. *)
Record Moment := {
  env : Env;
  node_tip : option bytes;
  node_template : option TemplateSummary;
  socket_wait : WaitAnswer;
  socket_read : Incoming;
  payout_server : PayoutServer;
  fresh_key : bytes;
  token_random : bytes;
  sessions : SessionStore;
  others : AcceptedShareHashes * BoundedSet bytes * TxnCache;
}.

Definition instant (m : Moment) : Z := instant_now (env m).

(** ** The connection *)

Record Serving := {
  conn : Connection;
  sign_key : bytes;
  opened : Z;
  channel : ServerChannel;
  bulk : Reassembler;
  coinbaser_budget : RequestBudget;
  last_frame_at : Z;
  last_send_at : Z;
  readable : bool;
  session_token : option bytes;
  resumed : option bytes;
  is_proven : bool;
  deeds : list Deed;
  looks : nat;
}.

Definition set_conn (s : Serving) (c : Connection) : Serving :=
  {| conn := c; sign_key := sign_key s; opened := opened s; channel := channel s; bulk := bulk s; coinbaser_budget := coinbaser_budget s;
     last_frame_at := last_frame_at s; last_send_at := last_send_at s; readable := readable s; session_token := session_token s;
     resumed := resumed s; is_proven := is_proven s; deeds := deeds s; looks := looks s |}.
Definition set_channel (s : Serving) (c : ServerChannel) : Serving :=
  {| conn := conn s; sign_key := sign_key s; opened := opened s; channel := c; bulk := bulk s; coinbaser_budget := coinbaser_budget s;
     last_frame_at := last_frame_at s; last_send_at := last_send_at s; readable := readable s; session_token := session_token s;
     resumed := resumed s; is_proven := is_proven s; deeds := deeds s; looks := looks s |}.
Definition set_bulk (s : Serving) (b : Reassembler) : Serving :=
  {| conn := conn s; sign_key := sign_key s; opened := opened s; channel := channel s; bulk := b; coinbaser_budget := coinbaser_budget s;
     last_frame_at := last_frame_at s; last_send_at := last_send_at s; readable := readable s; session_token := session_token s;
     resumed := resumed s; is_proven := is_proven s; deeds := deeds s; looks := looks s |}.
Definition set_budget (s : Serving) (b : RequestBudget) : Serving :=
  {| conn := conn s; sign_key := sign_key s; opened := opened s; channel := channel s; bulk := bulk s; coinbaser_budget := b;
     last_frame_at := last_frame_at s; last_send_at := last_send_at s; readable := readable s; session_token := session_token s;
     resumed := resumed s; is_proven := is_proven s; deeds := deeds s; looks := looks s |}.
Definition set_frame_at (s : Serving) (t : Z) : Serving :=
  {| conn := conn s; sign_key := sign_key s; opened := opened s; channel := channel s; bulk := bulk s; coinbaser_budget := coinbaser_budget s;
     last_frame_at := t; last_send_at := last_send_at s; readable := readable s; session_token := session_token s;
     resumed := resumed s; is_proven := is_proven s; deeds := deeds s; looks := looks s |}.
Definition set_readable (s : Serving) (r : bool) : Serving :=
  {| conn := conn s; sign_key := sign_key s; opened := opened s; channel := channel s; bulk := bulk s; coinbaser_budget := coinbaser_budget s;
     last_frame_at := last_frame_at s; last_send_at := last_send_at s; readable := r; session_token := session_token s;
     resumed := resumed s; is_proven := is_proven s; deeds := deeds s; looks := looks s |}.
Definition set_session (s : Serving) (token from : option bytes) (proven : bool) : Serving :=
  {| conn := conn s; sign_key := sign_key s; opened := opened s; channel := channel s; bulk := bulk s; coinbaser_budget := coinbaser_budget s;
     last_frame_at := last_frame_at s; last_send_at := last_send_at s; readable := readable s; session_token := token;
     resumed := from; is_proven := proven; deeds := deeds s; looks := looks s |}.
(** Deeds done, a message having gone out at an instant or not. *)
Definition do_deeds (s : Serving) (l : list Deed) (sent_at : option Z) : Serving :=
  {| conn := conn s; sign_key := sign_key s; opened := opened s; channel := channel s; bulk := bulk s; coinbaser_budget := coinbaser_budget s;
     last_frame_at := last_frame_at s; last_send_at := default (last_send_at s) sent_at; readable := readable s; session_token := session_token s;
     resumed := resumed s; is_proven := is_proven s; deeds := deeds s ++ l; looks := looks s |}.
Definition looked (s : Serving) : Serving :=
  {| conn := conn s; sign_key := sign_key s; opened := opened s; channel := channel s; bulk := bulk s; coinbaser_budget := coinbaser_budget s;
     last_frame_at := last_frame_at s; last_send_at := last_send_at s; readable := readable s; session_token := session_token s;
     resumed := resumed s; is_proven := is_proven s; deeds := deeds s; looks := S (looks s) |}.

(** A step of the loop: a write that fails ends the connection, and an [expect] would
    panic. *)
Definition L (A : Type) : Type := Serving -> Serving * result Failure A.
#[global] Instance L_ret : MRet L := fun A a s => (s, Ok a).
#[global] Instance L_bind : MBind L := fun A B f m s =>
  match m s with (s, Ok a) => f a s | (s, Err e) => (s, Err e) end.

Definition read_state : L Serving := fun s => (s, Ok s).
Definition change (f : Serving -> Serving) : L () := fun s => (f s, Ok ()).
Definition stop {A} (e : Failure) : L A := fun s => (s, Err e).
Definition set_abw_of (a : AbwSlotState) : L () := change (fun s => set_conn s (set_abw (conn s) (Some a))).

(** Whether a handler's deed is a message to the gateway. *)
Definition to_gateway (e : Event) : bool :=
  match e with Answered _ | Receipt _ | Requested_txns _ => true | _ => false end.

Definition secs_until (due now : Z) : Z := duration_since due now.

(** [until_next_action] at an instant. *)
Definition until_next_action (s : Serving) (now : Z) : Z :=
  let due := Z.min (last_send_at s + KEEPALIVE_INTERVAL) (last_frame_at s + IDLE_TIMEOUT) in
  let due := from_option (Z.min due) due (minimum (deadline <$> txn_requests (conn s))) in
  let due := from_option (Z.min due) due (minimum (omap parent_hold_until (held (conn s)))) in
  let due := if bool_decide (held (conn s) = []) then from_option (Z.min due) due (next_due <$> abw (conn s)) else due in
  secs_until due now.

(** The session as [Sessions] has it. *)
Definition session_of (s : Serving) : SessionConn :=
  {| client_sign_pk := sign_key s; opened_at := opened s;
     Sessions.v3 := (fun p => {| token := p.1; v3_abw := p.2 |}) <$> (t ← session_token s; a ← abw (conn s); Some (t, a));
     Sessions.splits := (take_verifier_splits (verifier (conn s))).1; resumed_from := resumed s; proven := is_proven s |}.

Section serving.
Context `{Digests} `{Crypto} {codec : AddressCodec}.
Context (world : nat -> Moment).

Definition look : L Moment := fun s => (looked s, Ok (world (looks s))).

(** [send_frame] of a message of the loop's own. *)
Definition tell (o : Outgoing) : L () :=
  m ← look; s ← read_state;
  if write_ok (env m) (log (conn s)) then change (fun s => do_deeds s [Sent o] (Some (instant m))) else stop Io.

Fixpoint tell_all (l : list Outgoing) : L () :=
  match l with [] => mret () | o :: l => _ ← tell o; tell_all l end.

(** A handler of [Shares], on what the other connections left of what they share. *)
Definition hand (m : Moment) (i : input) : L () := fun s =>
  let '(hashes, blocks, cache) := others m in
  let c := between (conn s) (splits (verifier (conn s))) (abw (conn s)) hashes blocks cache in
  let '(c', r) := handle (env m) i c in
  let new := drop (length (log c)) (log c') in
  (do_deeds (set_conn s c') (Did <$> new) (if existsb to_gateway new then Some (instant m) else None), r).

(** [socket.wait]: a wait that is interrupted tells nothing. *)
Definition wait_socket : L () :=
  m ← look;
  match socket_wait m with
  | Woken ready => change (fun s => set_readable s (readable s || ready))
  | WaitInterrupted => mret ()
  | WaitFault => stop Io
  end.

Definition socket_drained : L bool := _ ← wait_socket; s ← read_state; mret (negb (readable s)).

Definition may_rotate_or_reveal : L bool :=
  s ← read_state;
  if bool_decide (held (conn s) = []) then socket_drained else mret false.

Definition send_reveals (l : list PendingReveal) : L () := tell_all (SlotReveal <$> l).

Definition rotate_abw : L () :=
  m ← look; s ← read_state;
  match abw (conn s) with
  | None => mret ()
  | Some a =>
    let '(reveals, a) := rotate a (instant m) (fresh_key m) in
    _ ← set_abw_of a;
    match notice a (active a) true with
    | None => stop Panic
    | Some n => _ ← send_reveals reveals; tell (SlotNotice n)
    end
  end.

Definition rotate_on_tip : L () :=
  m ← look; s ← read_state;
  match abw (conn s) with
  | None => mret ()
  | Some a =>
    let '(old_enough, a) := note_tip a (instant m) in
    _ ← set_abw_of a;
    if negb old_enough then mret () else
    match rotation_due a (instant m) with
    | Some _ => may ← may_rotate_or_reveal; if may : bool then rotate_abw else mret ()
    | None => mret ()
    end
  end.

Definition notify_tip : L () :=
  m ← look; s ← read_state;
  let was := tip (verifier (conn s)) in
  _ ← hand m (TipLookedAt (node_tip m) (node_template m));
  if bool_decide (node_tip m <> was) && is_some (node_tip m) then
    _ ← (if is_some was then rotate_on_tip else mret ());
    tell TipNotice
  else mret ().

Definition rotate_when_due : L () :=
  m ← look; s ← read_state;
  match a ← abw (conn s); rotation_due a (instant m) with
  | Some _ => may ← may_rotate_or_reveal; if may : bool then rotate_abw else mret ()
  | None => mret ()
  end.

Definition send_due_reveals : L () :=
  m ← look; s ← read_state;
  if negb (from_option (fun a => reveal_due a (instant m)) false (abw (conn s))) then mret () else
  may ← may_rotate_or_reveal;
  if negb may then mret () else
  s ← read_state;
  match abw (conn s) with
  | None => mret ()
  | Some a => let '(reveals, a) := reveals_due a (instant m) in _ ← set_abw_of a; send_reveals reveals
  end.

(** The handler of [Shares] for a timer, or for a message, at the time it is called. *)
Definition hand_now (i : input) : L () := m ← look; hand m i.

Definition note_connection_proven : L () :=
  m ← look; s ← read_state;
  let c := (note_proven (sessions m) (session_of s)).2 in
  _ ← change (fun s => set_session s (session_token s) (resumed_from c) (proven c));
  match resumed s with
  | Some t => if is_proven s then mret () else change (fun s => do_deeds s [Released t] None)
  | None => mret ()
  end.

Definition on_bulk_fragment (plain : bytes) : L (option bytes) :=
  match decode_fragment plain with
  | Err _ => mret None
  | Ok f =>
    s ← read_state;
    match Bulk.accept (bulk s) f with
    | Ok (ack, done, b) => _ ← change (fun s => set_bulk s b); _ ← tell (BulkAck ack); mret done
    | Err _ =>
      _ ← change (fun s => set_bulk s (reset (bulk s)));
      _ ← tell (BulkAck {| ack_id := fragment_id f; next_offset := sat_add 32 (fragment_offset f) (wrap 32 (zlen (fragment_data f))) |});
      mret None
    end
  end.

Definition coinbaser_requested (plain : bytes) : L () :=
  match decode_coinbaser_request plain with
  | Err _ => mret ()
  | Ok _ =>
    m ← look; s ← read_state;
    let '(within, b) := take_request (coinbaser_budget s) (instant m) COINBASER_BURST COINBASER_PER_SEC in
    _ ← change (fun s => set_budget s b);
    match on_coinbaser_request (payout_server m) (verifier (conn s)) within plain (unix_now (env m)) with
    | None => stop Panic
    | Some (v, answer) =>
      _ ← change (fun s => set_conn s (set_verifier (conn s) v));
      match answer with Some payload => tell (CoinbaserAnswer payload) | None => mret () end
    end
  end.

(** A mining message dispatched by its first byte. *)
Definition dispatch (mining : bytes) : L () :=
  _ ← change (fun s => do_deeds s [Took mining] None);
  match bz <$> head mining with
  | Some sub =>
    if sub =? client_subcmd.COINBASER_REQUEST then coinbaser_requested mining
    else if sub =? client_subcmd.SUBMIT_POW then hand_now (ShareReceived mining)
    else if sub =? Validation.SUBCMD then hand_now (BlockTxnsReceived mining)
    else mret ()
  | None => mret ()
  end.

(** [read_next_frame]: nothing for now, the end, or a frame. *)
Definition next_frame (max_len : Z) : L (FrameRead) :=
  m ← look;
  match socket_read m with
  | NoBytes blocked => _ ← change (fun s => set_readable s (readable s && negb blocked)); mret Polled.Empty
  | PeerClosed => mret Closed
  | ReadFailed => stop Io
  | Arrived first after =>
    s ← read_state;
    let '(header, ch) := server_unmask_header (channel s) first in
    _ ← change (fun s => set_channel s ch);
    let len := Z.to_nat (cmd_len header) in
    if max_len <? cmd_len header then stop Io
    else if (length after <? len)%nat then stop Io
    else mret (Complete header (take len after))
  end.

(** A frame that arrived, decrypted and dispatched; whether the loop goes on. *)
Definition on_frame (header : FrameHeader) (body : bytes) : L bool :=
  s ← read_state;
  let '(plain, ch) := server_decrypt (channel s) header body in
  _ ← change (fun s => set_channel s ch);
  match plain with
  | Err _ => mret false
  | Ok plain =>
    m ← look;
    _ ← change (fun s => set_frame_at s (instant m));
    _ ← note_connection_proven;
    if proto_cmd header =? cmd.MINING then _ ← dispatch plain; mret true
    else if proto_cmd header =? cmd.BULK then
      done ← on_bulk_fragment plain;
      match done with Some mining => _ ← dispatch mining; mret true | None => mret true end
    else mret true
  end.

(** A turn of [run]; whether the loop goes on. *)
Definition turn : L bool :=
  _ ← notify_tip;
  _ ← hand_now TxnRequestsExpire;
  _ ← hand_now ParentHoldsExpire;
  _ ← hand_now OrphansAnswered;
  _ ← rotate_when_due;
  _ ← send_due_reveals;
  m ← look; s ← read_state;
  if IDLE_TIMEOUT <=? duration_since (instant m) (last_frame_at s) then mret false else
  m ← look; s ← read_state;
  _ ← (if KEEPALIVE_INTERVAL <=? duration_since (instant m) (last_send_at s) then tell KeepalivePing else mret ());
  s ← read_state;
  if negb (readable s) then
    m ← look;
    _ ← change (fun s => do_deeds s [Slept (until_next_action s (instant m))] None);
    _ ← wait_socket;
    mret true
  else
  read ← next_frame (if bool_decide (txn_requests (conn s) = []) then MAX_UNSOLICITED_FRAME_LEN else MAX_CMD_LEN);
  match read with
  | Closed => mret false
  | Polled.Empty => mret true
  | Complete header body => on_frame header body
  end.

(** [run] for a number of turns; whether it still goes on. *)
Fixpoint run (turns : nat) : L bool :=
  match turns with
  | O => mret true
  | S turns => goes_on ← turn; if goes_on : bool then run turns else mret false
  end.
End serving.

(** ** The opening

    The pool a gateway connects to: its keys, what it greets with, whether version 1 is
    refused, and the policy every share is held to with its configuration as encoded at
    startup. *)
Record PoolServer := {
  pool_keys : KeyPairs;
  server_motd : bytes;
  require_v3 : bool;
  share_policy : SharePolicy;
  config_payload : bytes;
}.

(** [config_payload_v3]; none where its [expect] would panic. *)
Definition config_payload_v3 (srv : PoolServer) (token : bytes) : option bytes :=
  let c := config (share_policy srv) in
  ok (encode_config {| payout_script := payout_script c; prime_id := Config.prime_id c; coinbase_tag := coinbase_tag c;
    min_difficulty := min_difficulty c;
    v3 := Some {| resume_token := token; bulk_framing := true; abw_disabled := false |} |}).

Definition serving_new (srv : PoolServer) (opened now : Z) (ch : ServerChannel) (ready : bool)
    (shared : AcceptedShareHashes * BoundedSet bytes * TxnCache) : Serving :=
  let '(hashes, blocks, cache) := shared in
  {| conn := connection_new (share_policy srv) None hashes blocks cache;
     sign_key := sign_pk (hello_client (server_hello ch)); opened := opened; channel := ch; bulk := reassembler_new;
     coinbaser_budget := budget_full COINBASER_BURST now; last_frame_at := now; last_send_at := now; readable := ready;
     session_token := None; resumed := None; is_proven := false; deeds := []; looks := 0 |}.

Section opening.
Context `{Digests} `{Crypto} {codec : AddressCodec}.
Context (srv : PoolServer) (world : nat -> Moment).

(** [start_v3_session]. *)
Definition start_session (resume : option bytes) : L () :=
  m ← look world; s ← read_state;
  let sc := start_v3_session (sessions m) (session_conn (sign_key s) (opened s)) resume (instant m) (token_random m) (fresh_key m) in
  match Sessions.v3 sc with
  | None => mret ()
  | Some v3 =>
    match config_payload_v3 srv (token v3) with
    | None => stop Panic
    | Some payload =>
      _ ← change (fun s => set_session
            (set_conn s (set_abw (set_verifier (conn s) (restore_splits (verifier (conn s)) (Sessions.splits sc))) (Some (v3_abw v3))))
            (Some (token v3)) (resumed_from sc) (is_proven s));
      _ ← tell world (ConfigSent payload);
      tell_all world (SlotNotice <$> notices (v3_abw v3))
    end
  end.

Definition start_connection (v : ProtocolVersion) : L () :=
  match v with
  | V1 => tell world (ConfigSent (config_payload srv))
  | V3 resume => start_session resume
  end.

Definition is_v1 (v : ProtocolVersion) : bool := match v with V1 => true | V3 _ => false end.

(** [read_hello], with the socket it leaves. *)
Definition HANDSHAKE_DEADLINE : Z := from_secs 5.
Definition MAX_HELLO_FRAME_LEN : Z := 4 * 1024.

Definition read_hello (os : System) (fuel : nat) (socket : PolledSocket) (started_at : Z)
    : option (PolledSocket * result IoError (option Hello)) :=
  '(socket, _, r) ← read_frame os fuel socket ratchet_initial unmask MAX_HELLO_FRAME_LEN (started_at + HANDSHAKE_DEADLINE);
  Some (socket, match r with Err e => Err e | Ok (header, payload) => Ok (ok (open_hello header payload (pool_keys srv))) end).

(** [handle] from a hello read by [opened], for a number of turns: the handshake's answer,
    and the connection served; none where the hello or its version is refused. *)
Definition handle_connection (header : FrameHeader) (payload : bytes) (session_keys : KeyPairs) (opened now : Z) (ready : bool)
    (shared : AcceptedShareHashes * BoundedSet bytes * TxnCache) (turns : nat) : option (bytes * (Serving * result Failure bool)) :=
  hello ← ok (open_hello header payload (pool_keys srv));
  if require_v3 srv && is_v1 (protocol_version hello) then None else
  '(response, ch) ← ok (Handshake.accept hello (pool_keys srv) (server_motd srv) session_keys);
  Some (response, (_ ← start_connection (protocol_version hello); run world turns) (serving_new srv opened now ch ready shared)).

(** [Drop for Connection]: the session saved, the claims of the shares held released. *)
Definition drop_connection (m : Moment) (s : Serving) : SessionStore * Connection :=
  let '(hashes, blocks, cache) := others m in
  (drop_session (sessions m) (session_of s) (instant m), close (set_shared (conn s) hashes blocks cache)).
End opening.

(** ** Handlers and the slots

    A handler of shares leaves the keys of the slots as they are. *)

Definition keeps {A} (m : M A) : Prop := forall c, slots <$> abw (m c).1 = slots <$> abw c.

Lemma holds_slots_ret {A} (a : A) : keeps (mret a).
Proof. done. Qed.

Lemma holds_slots_bind {A B} (m : M A) (f : A -> M B) : keeps m -> (forall a, keeps (f a)) -> keeps (m ≫= f).
Proof.
  intros Hm Hf c. unfold mbind, M_bind. pose proof (Hm c) as H1. destruct (m c) as [c1 [a|e]]; [|done]. rewrite (Hf a c1). exact H1.
Qed.

Lemma keeps_modify f : (forall c, slots <$> abw (f c) = slots <$> abw c) -> keeps (modify f).
Proof. done. Qed.

Lemma holds_slots_get : keeps get.
Proof. done. Qed.

Lemma holds_slots_send env e : keeps (send env e).
Proof. intros c. unfold send. by destruct (write_ok env (log c)). Qed.

Lemma keeps_claim hash now : keeps (hold_claim hash now).
Proof. intros c. unfold hold_claim. by destruct (hash_insert _ _ _). Qed.

Lemma keeps_note e : keeps (note e).
Proof. done. Qed.

Lemma keeps_release hash : keeps (release_claim hash).
Proof. done. Qed.

Lemma keeps_held h : keeps (push_held h).
Proof. done. Qed.

Lemma keeps_or_panic {A} (o : option A) : keeps (or_panic o).
Proof. done. Qed.

Create HintDb keeps.
#[local] Hint Resolve holds_slots_ret holds_slots_get holds_slots_send keeps_claim keeps_note keeps_release keeps_held keeps_or_panic : keeps.

(** A handler built of binds, tests and what keeps the slots. *)
Ltac keep_step :=
  first
    [ solve [auto with keeps]
    | apply keeps_modify; intros; reflexivity
    | apply holds_slots_bind; [|intros]
    | match goal with |- keeps (match ?x with _ => _ end) => destruct x end ].
Ltac keep := repeat keep_step.

Section keeping.
Context `{Digests}.

Lemma verify_and_claim_keeps s now : keeps (verify_and_claim s now).
Proof. unfold verify_and_claim. keep. Qed.

Lemma job_verdict_keeps env s verified now : keeps (job_verdict env s verified now).
Proof. unfold job_verdict, job_txns, request_txns, check_block. keep. Qed.

Lemma note_published_keeps s : keeps (note_published_slot s).
Proof.
  apply keeps_modify. intros c. destruct (abw_slot_of c s) as [slot|], (abw c) as [a|] eqn:E; cbn; rewrite ?E; try done.
  unfold note_published. destruct (slots a !! Z.to_nat slot ≫= secret_key); [|done]. by destruct (published_at a _).
Qed.

#[local] Hint Resolve verify_and_claim_keeps job_verdict_keeps note_published_keeps : keeps.

Lemma relay_keeps env s r txns now : keeps (relay_and_record env s r txns now).
Proof. unfold relay_and_record. keep. Qed.

Lemma receipt_keeps env s r : keeps (send_abw_receipt env s r).
Proof. unfold send_abw_receipt. keep. Qed.

#[local] Hint Resolve relay_keeps receipt_keeps : keeps.

Lemma accepted_keeps env s r txns now : keeps (on_accepted env s r txns now).
Proof.
  unfold on_accepted, credit. keep. apply keeps_modify. intros c. cbn. by destruct (abw c).
Qed.

Lemma refused_keeps env s refusal relay now : keeps (on_refused env s refusal relay now).
Proof. unfold on_refused, may_reference. keep. Qed.

#[local] Hint Resolve accepted_keeps refused_keeps : keeps.

Lemma answer_keeps env s verified verdict now : keeps (answer env s verified verdict now).
Proof. unfold answer, outcome_of. keep. Qed.

Lemma decide_keeps env s verified now : keeps (decide_share env s verified now).
Proof.
  intros c. unfold decide_share. pose proof (job_verdict_keeps env s verified now c) as Hj.
  destruct (job_verdict env s verified now c) as [c1 [[| | | | |]|e]]; cbn [fst] in Hj; rewrite <- Hj; try apply answer_keeps.
  - destruct (_ <? _)%nat; [apply keeps_held|apply answer_keeps].
  - by destruct verified.
Qed.

#[local] Hint Resolve answer_keeps decide_keeps : keeps.

Lemma settle_keeps env s verified at_ hold : keeps (settle env s verified at_ hold).
Proof. unfold settle. keep. Qed.

#[local] Hint Resolve settle_keeps : keeps.

Lemma released_keeps env l : keeps (settle_released env l).
Proof. induction l as [|h l IH]; cbn [settle_released]; keep. Qed.

#[local] Hint Resolve released_keeps : keeps.

Lemma release_keeps env f : keeps (release_held env f).
Proof. unfold release_held. keep. Qed.

#[local] Hint Resolve release_keeps : keeps.

Lemma expire_keeps fuel env : keeps (expire_loop fuel env).
Proof. induction fuel as [|fuel IH]; cbn [expire_loop]; keep. Qed.

Lemma release_jobs_keeps env l : keeps (release_jobs env l).
Proof. induction l as [|[id gen] l IH]; cbn [release_jobs]; keep. Qed.

#[local] Hint Resolve expire_keeps release_jobs_keeps : keeps.

Lemma handle_keeps env i : keeps (handle env i).
Proof.
  destruct i; cbn [handle]; [unfold on_share, on_undecodable_share|unfold on_block_txns, checked_txns|unfold notify_tip_change
    |unfold expire_txn_requests|unfold expire_parent_holds|unfold answer_orphaned_held]; keep.
Qed.
End keeping.

(** ** What the loop keeps *)

Definition share_taken (d : Deed) : option ShareKey :=
  match d with Took m => if bool_decide (bz <$> head m = Some client_subcmd.SUBMIT_POW) then Some (taken_key m) else None | _ => None end.

(** The shares taken, by what their answers name them, and what the handlers logged. *)
Definition taken (l : list Deed) : list ShareKey := omap share_taken l.
Definition did (l : list Deed) : list Event := omap (fun d => match d with Did e => Some e | _ => None end) l.

(** A message that commits to a new slot's key or discloses a retired one's. *)
Definition assigns (o : Outgoing) : bool := match o with SlotNotice _ | SlotReveal _ => true | _ => false end.

(** Each assignment went out with every share taken answered. *)
Definition after_answers (l : list Deed) : Prop :=
  forall pre o post, l = pre ++ Sent o :: post -> assigns o = true -> answers (did pre) ≡ₚ taken pre.

#[local] Arguments taken : simpl never.
#[local] Arguments did : simpl never.

Lemma taken_app l k : taken (l ++ k) = taken l ++ taken k.
Proof. apply omap_app. Qed.

Lemma did_app l k : did (l ++ k) = did l ++ did k.
Proof. apply omap_app. Qed.

Lemma did_events l : did (Did <$> l) = l.
Proof. induction l as [|e l IH]; [done|]. unfold did in *. cbn. by f_equal. Qed.

Lemma taken_events l : taken (Did <$> l) = [].
Proof. induction l as [|e l IH]; [done|exact IH]. Qed.

Definition is_sent (d : Deed) : bool := match d with Sent _ => true | _ => false end.

Lemma after_answers_app l k : after_answers l -> Forall (fun d => is_sent d = false) k -> after_answers (l ++ k).
Proof.
  intros Hl Hk pre o post E Ho. destruct (app_eq_inv _ _ _ _ E) as [(x & -> & E2)|(x & -> & ->)].
  - destruct x as [|d x]; cbn in E2; [|injection E2 as <- ->; by eapply Hl].
    rewrite <- E2 in Hk. by apply Forall_cons in Hk as [? _].
  - apply Forall_app in Hk as [_ Hk]. by apply Forall_cons in Hk as [? _].
Qed.

Lemma after_answers_sent l o : after_answers l -> (assigns o = true -> answers (did l) ≡ₚ taken l) -> after_answers (l ++ [Sent o]).
Proof.
  intros Hl Ho pre o2 post E Ha. destruct post as [|d post _] using rev_ind.
  - apply app_inj_2 in E as [-> [= ->]]; [by apply Ho|done].
  - rewrite app_comm_cons, app_assoc in E. apply app_inj_2 in E as [-> _]; [by eapply Hl|done].
Qed.

Lemma events_unsent l : Forall (fun d => is_sent d = false) (Did <$> l).
Proof. apply Forall_fmap. by apply Forall_forall. Qed.

Section invariant.
Context `{Digests} `{Crypto} {codec : AddressCodec} {laws : AddressLaws}.
Context (p : SharePolicy) (world : nat -> Moment).

Definition slots_full (a : option AbwSlotState) : Prop := from_option (fun a => length (slots a) = SLOTS) True a.

(** A connection that [n] handlers at most were run on, [d] of the shares it took not
    handled yet. *)
Record going (n : nat) (d : list ShareKey) (s : Serving) : Prop := {
  go_served : exists k shares, (k <= n)%nat /\ served p k shares (conn s) /\ taken (deeds s) = shares ++ d;
  go_log : did (deeds s) = log (conn s);
  go_after : after_answers (deeds s);
  go_slots : slots_full (abw (conn s));
}.

(** What the loop does, ended or not. *)
Definition wpl {A} (m : L A) (Q : A -> Serving -> Prop) (s : Serving) : Prop :=
  match m s with
  | (s', Ok a) => Q a s'
  | (s', Err Io) => after_answers (deeds s')
  | (_, Err Panic) => False
  end.

Lemma wpl_ret {A} (a : A) (Q : A -> Serving -> Prop) s : Q a s -> wpl (mret a) Q s.
Proof. done. Qed.

Lemma wpl_read (Q : Serving -> Serving -> Prop) s : Q s s -> wpl read_state Q s.
Proof. done. Qed.

Lemma wpl_change f (Q : () -> Serving -> Prop) s : Q () (f s) -> wpl (change f) Q s.
Proof. done. Qed.

Lemma wpl_io {A} (Q : A -> Serving -> Prop) s : after_answers (deeds s) -> wpl (stop Io) Q s.
Proof. done. Qed.

Lemma wpl_bind {A B} (m : L A) (f : A -> L B) Q s : wpl m (fun a s' => wpl (f a) Q s') s -> wpl (m ≫= f) Q s.
Proof. unfold wpl, mbind, L_bind. by destruct (m s) as [s' [a|[]]]. Qed.

Lemma wpl_mono {A} (m : L A) (Q R : A -> Serving -> Prop) s : wpl m Q s -> (forall a s', Q a s' -> R a s') -> wpl m R s.
Proof. unfold wpl. destruct (m s) as [s' [a|[]]]; auto. Qed.

Lemma going_same n d s s' : going n d s -> conn s' = conn s -> deeds s' = deeds s -> going n d s'.
Proof. intros [? ? ? ?] Hc Hd. split; rewrite ?Hc, ?Hd; done. Qed.

Lemma going_le n n' d s : going n d s -> (n <= n')%nat -> going n' d s.
Proof. intros [(k & shares & ? & ?) ? ? ?] Hn. split; try done. exists k, shares. split; [lia|done]. Qed.

Lemma wpl_look n d (Q : Moment -> Serving -> Prop) s : going n d s ->
  (forall m s', m = world (looks s) -> conn s' = conn s -> deeds s' = deeds s -> going n d s' -> Q m s') -> wpl (look world) Q s.
Proof. intros Hg HQ. apply HQ; [done..|]. by eapply going_same. Qed.

Lemma going_silent n d s s' l t : going n d s -> conn s' = conn s -> deeds s' = deeds s ++ l -> Forall (fun d => is_sent d = false) l ->
  did l = [] -> taken l = t -> going n (d ++ t) s'.
Proof.
  intros [(k & shares & ? & ? & Ht) Hl Ha Hs] Hc Hd Hq Hdid <-. split; rewrite ?Hc, ?Hd; try done.
  - exists k, shares. split_and!; [done..|]. by rewrite taken_app, Ht, app_assoc.
  - by rewrite did_app, Hdid, app_nil_r.
  - by apply after_answers_app.
Qed.

(** The verifier's splits and the slots are changed between handlers. *)
Lemma served_between_eq k shares c spl a : served p k shares c ->
  served p k shares (set_abw (set_verifier c (set_splits (verifier c) spl)) a).
Proof. intros Hs. exact (served_between p k shares c spl a (accepted_hashes c) (relayed_blocks c) (txn_cache c) Hs). Qed.

Lemma going_between n d s spl a : going n d s -> slots_full a ->
  going n d (set_conn s (set_abw (set_verifier (conn s) (set_splits (verifier (conn s)) spl)) a)).
Proof.
  intros [(k & shares & ? & ? & ?) ? ? ?] Ha. split; try done. exists k, shares. split_and!; [done| |done]. by apply served_between_eq.
Qed.

Lemma set_splits_id v : set_splits v (splits v) = v.
Proof. by destruct v. Qed.

Lemma set_verifier_id c : set_verifier c (verifier c) = c.
Proof. by destruct c. Qed.

Lemma going_set_abw n d s a : going n d s -> slots_full a -> going n d (set_conn s (set_abw (conn s) a)).
Proof.
  intros Hg Ha. pose proof (going_between n d s (splits (verifier (conn s))) a Hg Ha) as Hb. by rewrite set_splits_id, set_verifier_id in Hb.
Qed.

(** All the shares taken are answered where none is held. *)
Lemma going_answered n s : Z.of_nat n * 2 ^ 24 < 2 ^ 63 -> going n [] s -> held (conn s) = [] -> answers (did (deeds s)) ≡ₚ taken (deeds s).
Proof.
  intros Hn [(k & shares & Hk & Hs & Ht) Hl _ _] Hh.
  destruct (served_ok p n k shares (conn s) Hn Hk Hs) as [_ Hset]. unfold settled in Hset. rewrite Hh, app_nil_r in Hset.
  by rewrite Hl, Ht, app_nil_r.
Qed.

Lemma tell_spec n s o : Z.of_nat n * 2 ^ 24 < 2 ^ 63 -> going n [] s -> (assigns o = true -> held (conn s) = []) ->
  wpl (tell world o) (fun _ s' => going n [] s' /\ conn s' = conn s) s.
Proof.
  intros Hn Hg Ho. unfold tell. apply wpl_bind, (wpl_look n []); [done|]. intros m s1 _ Hc Hd Hg1.
  apply wpl_bind, wpl_read. destruct (write_ok _ _); [|apply wpl_io, Hg1]. apply wpl_change. split; [|done]. destruct Hg1 as [(k & shares & ? & ? & Ht) Hl Ha Hs].
  split; cbn; try done.
  - exists k, shares. split_and!; [done..|]. by rewrite taken_app, Ht, !app_nil_r.
  - by rewrite did_app, Hl, app_nil_r.
  - apply after_answers_sent; [done|]. intros Hass. rewrite Hd. by apply (going_answered n), Ho.
Qed.

Lemma tell_all_spec n l : Z.of_nat n * 2 ^ 24 < 2 ^ 63 -> forall s, going n [] s -> (Exists (fun o => assigns o = true) l -> held (conn s) = []) ->
  wpl (tell_all world l) (fun _ s' => going n [] s' /\ conn s' = conn s) s.
Proof.
  intros Hn. induction l as [|o l IH]; intros s Hg Hl; cbn [tell_all]; [by apply wpl_ret|]. apply wpl_bind.
  eapply wpl_mono; [apply (tell_spec n); [done|done|intros; apply Hl; by left]|]. intros [] s1 [Hg1 E1].
  eapply wpl_mono; [apply IH; [done|rewrite E1; intros; apply Hl; by right]|]. intros [] s2 [Hg2 E2]. split; [done|by rewrite E2].
Qed.

Lemma hand_spec n m i s : Z.of_nat (S n) * 2 ^ 24 < 2 ^ 63 -> going n (Credits.received i) s ->
  wpl (hand m i) (fun _ s' => going (S n) [] s') s.
Proof.
  intros Hn [(k & shares & Hk & Hs & Ht) Hl Ha Hsl]. unfold wpl, hand. destruct (others m) as [[hashes blocks] cache].
  set (c := between _ _ _ _ _ _). assert (served p k shares c) as Hsc by (by apply served_between).
  assert (log c = log (conn s)) as Hlc by done. assert (abw c = abw (conn s)) as Hac by done.
  pose proof (handle_served p k shares c (env m) i ltac:(lia) Hsc) as Hw. unfold wp in Hw.
  pose proof (handle_keeps (env m) i c) as Hkeep. destruct (handle (env m) i c) as [c' r] eqn:Eh. cbn [fst] in Hkeep.
  assert (after_answers (deeds s ++ (Did <$> drop (length (log c)) (log c')))) as Hafter by (apply after_answers_app; [done|apply events_unsent]).
  destruct r as [[]|[]]; [|exact Hafter|done]. destruct Hw as [_ [_ _ [new Hnew] _]].
  assert (drop (length (log c)) (log c') = new) as Hdrop by (by rewrite Hnew, drop_app_length).
  rewrite Hdrop in *. split; cbn [conn deeds do_deeds set_conn].
  - exists (S k), (shares ++ Credits.received i). split_and!; [lia|by eapply served_handle|].
    by rewrite taken_app, Ht, taken_events, !app_nil_r.
  - by rewrite did_app, did_events, Hl, Hnew.
  - done.
  - rewrite <- Hac in Hsl. destruct (abw c') as [a'|], (abw c) as [a|]; try done. cbn in *. congruence.
Qed.

(** ** The assignments *)

Lemma reveal_length a i : length (slots (reveal a i).2) = length (slots a).
Proof. unfold reveal. destruct (slot_at a i) as [| | |? []]; cbn; by rewrite ?length_insert. Qed.

Lemma reveal_all_length l : forall a, length (slots (reveal_all a l).2) = length (slots a).
Proof.
  induction l as [|i l IH]; intros a; [done|]. cbn [reveal_all]. pose proof (reveal_length a i) as H1. destruct (reveal a i) as [r a1].
  pose proof (IH a1) as H2. destruct (reveal_all a1 l) as [rs a2]. cbn in *. congruence.
Qed.

Lemma reveals_due_length a now : length (slots (reveals_due a now).2) = length (slots a).
Proof. unfold reveals_due. destruct (AbwSlots.held a now); [done|apply reveal_all_length]. Qed.

Lemma rotate_seeds a now key : length (slots a) = SLOTS ->
  length (slots (rotate a now key).2) = SLOTS /\ notice (rotate a now key).2 (active (rotate a now key).2) true <> None.
Proof.
  intros Hl. unfold rotate. pose proof (reveal_length a (next_slot a)) as Hr. destruct (reveal a (next_slot a)) as [r a1]. cbn [snd] in *.
  assert (length (slots (retire_active a1 now)) = SLOTS) as Hr1.
  { unfold retire_active. destruct (slot_at a1 (active a1)); cbn; rewrite ?length_insert; congruence. }
  assert (next_slot a < SLOTS)%nat as Hn by (apply Nat.mod_upper_bound; done).
  cbn. rewrite length_insert. split; [done|]. unfold notice, slot_at. cbn. rewrite list_lookup_insert_eq by (rewrite Hr1; exact Hn). done.
Qed.

Lemma wait_spec n d s : going n d s -> wpl (wait_socket world) (fun _ s' => going n d s' /\ conn s' = conn s) s.
Proof.
  intros Hg. unfold wait_socket. apply wpl_bind, (wpl_look n d); [done|]. intros m s1 _ Hc Hd Hg1.
  destruct (socket_wait m); [apply wpl_change; split; [by eapply going_same|done]|by apply wpl_ret|apply wpl_io, Hg1].
Qed.

Lemma may_spec n s : going n [] s ->
  wpl (may_rotate_or_reveal world) (fun b s' => going n [] s' /\ conn s' = conn s /\ (b = true -> held (conn s) = [])) s.
Proof.
  intros Hg. unfold may_rotate_or_reveal. apply wpl_bind, wpl_read. case_bool_decide; [|by apply wpl_ret].
  unfold socket_drained. apply wpl_bind. eapply wpl_mono; [by apply wait_spec|]. intros [] s1 [Hg1 E1].
  apply wpl_bind, wpl_read, wpl_ret. by split_and!.
Qed.

Section steps.
Context (n : nat) (Hn : Z.of_nat n * 2 ^ 24 < 2 ^ 63).

Lemma rotate_spec s : going n [] s -> held (conn s) = [] -> wpl (rotate_abw world) (fun _ s' => going n [] s') s.
Proof.
  intros Hg Hh. unfold rotate_abw. apply wpl_bind, (wpl_look n []); [done|]. intros m s1 _ Hc Hd Hg1. apply wpl_bind, wpl_read.
  destruct (abw (conn s1)) as [a|] eqn:Ea; [|by apply wpl_ret]. pose proof (go_slots _ _ _ Hg1) as Hs. rewrite Ea in Hs.
  destruct (rotate_seeds a (instant m) (fresh_key m) Hs) as [Hl Hnot]. destruct (rotate a (instant m) (fresh_key m)) as [reveals a2]. cbn [snd] in *.
  apply wpl_bind, wpl_change. destruct (notice a2 (active a2) true) as [note|]; [|done]. rewrite Hc in *. set (s2 := set_conn s1 _).
  assert (going n [] s2) as Hg2 by (unfold s2; rewrite <- Hc; by apply going_set_abw). apply wpl_bind. eapply wpl_mono; [by apply (tell_all_spec n)|].
  intros [] s3 [Hg3 E3]. eapply wpl_mono; [apply (tell_spec n); [done|done|]|by intros [] s4 [? _]]. intros _. by rewrite E3.
Qed.

Lemma rotate_if_spec (b : bool) s : going n [] s -> (b = true -> held (conn s) = []) ->
  wpl (if b then rotate_abw world else mret ()) (fun _ s' => going n [] s') s.
Proof. intros Hg Hb. destruct b; [by apply rotate_spec, Hb|by apply wpl_ret]. Qed.

Lemma may_rotate_spec s : going n [] s ->
  wpl (may ← may_rotate_or_reveal world; if may : bool then rotate_abw world else mret ()) (fun _ s' => going n [] s') s.
Proof.
  intros Hg. apply wpl_bind. eapply wpl_mono; [by apply may_spec|]. intros b s1 (Hg1 & E1 & Hb).
  apply rotate_if_spec; [done|by rewrite E1].
Qed.

Lemma rotate_on_tip_spec s : going n [] s -> wpl (rotate_on_tip world) (fun _ s' => going n [] s') s.
Proof.
  intros Hg. unfold rotate_on_tip. apply wpl_bind, (wpl_look n []); [done|]. intros m s1 _ Hc Hd Hg1. apply wpl_bind, wpl_read.
  destruct (abw (conn s1)) as [a|] eqn:Ea; [|by apply wpl_ret]. pose proof (go_slots _ _ _ Hg1) as Hs. rewrite Ea in Hs. cbn [note_tip].
  set (a2 := Build_AbwSlotState _ _ _ _ _ _ _). apply wpl_bind, wpl_change.
  assert (going n [] (set_conn s1 (set_abw (conn s1) (Some a2)))) as Hg2 by (by apply going_set_abw).
  destruct (negb _); [by apply wpl_ret|]. destruct (rotation_due a2 (instant m)); [by apply may_rotate_spec|by apply wpl_ret].
Qed.

Lemma rotate_when_due_spec s : going n [] s -> wpl (rotate_when_due world) (fun _ s' => going n [] s') s.
Proof.
  intros Hg. unfold rotate_when_due. apply wpl_bind, (wpl_look n []); [done|]. intros m s1 _ Hc Hd Hg1. apply wpl_bind, wpl_read.
  destruct (_ ≫= _); [by apply may_rotate_spec|by apply wpl_ret].
Qed.

Lemma send_due_reveals_spec s : going n [] s -> wpl (send_due_reveals world) (fun _ s' => going n [] s') s.
Proof.
  intros Hg. unfold send_due_reveals. apply wpl_bind, (wpl_look n []); [done|]. intros m s1 _ Hc Hd Hg1. apply wpl_bind, wpl_read.
  destruct (negb _); [by apply wpl_ret|]. apply wpl_bind. eapply wpl_mono; [by apply may_spec|]. intros b s2 (Hg2 & E2 & Hb).
  destruct b; [|by apply wpl_ret]. specialize (Hb eq_refl). cbn [negb]. apply wpl_bind, wpl_read.
  destruct (abw (conn s2)) as [a|] eqn:Ea; [|by apply wpl_ret]. pose proof (go_slots _ _ _ Hg2) as Hs. rewrite Ea in Hs.
  pose proof (reveals_due_length a (instant m)) as Hl. destruct (reveals_due a (instant m)) as [reveals a2]. cbn [snd] in Hl.
  apply wpl_bind, wpl_change. eapply wpl_mono; [apply (tell_all_spec n); [done| |]|by intros [] s3 [? _]].
  - apply going_set_abw; [done|]. cbn in Hs |- *. congruence.
  - intros _. cbn. congruence.
Qed.
End steps.

(** ** A turn *)

(** What a split is dictated from: a window of shares of positive work, and a fee. *)
Definition payout_ready (srv : PayoutServer) : Prop :=
  exists l, represents l (window srv) /\ positive l /\ 0 <= fee_bps srv <= BASIS_POINTS_PER_UNIT /\ 2 ^ 64 * work_of l < 2 ^ 128.

Section turns.
Context (n : nat) (Hn : Z.of_nat (S n) * 2 ^ 24 < 2 ^ 63).
Context (Hpay : forall i, payout_ready (payout_server (world i))).

Lemma hand_now_spec i s : going n (Credits.received i) s -> wpl (hand_now world i) (fun _ s' => going (S n) [] s') s.
Proof. intros Hg. unfold hand_now. eapply wpl_bind, wpl_look; [done|]. intros m s1 _ _ _ Hg1. by apply hand_spec. Qed.

Lemma notify_tip_spec s : going n [] s -> wpl (notify_tip world) (fun _ s' => going (S n) [] s') s.
Proof.
  intros Hg. unfold notify_tip. eapply wpl_bind, wpl_look; [done|]. intros m s1 _ _ _ Hg1. apply wpl_bind, wpl_read. cbn zeta.
  apply wpl_bind. eapply wpl_mono; [by apply hand_spec|]. intros [] s2 Hg2. destruct (_ && _); [|by apply wpl_ret]. apply wpl_bind.
  assert (wpl (if is_some (tip (verifier (conn s1))) then rotate_on_tip world else mret ()) (fun _ s' => going (S n) [] s') s2) as Hr
    by (destruct (is_some _); [by apply rotate_on_tip_spec|by apply wpl_ret]).
  eapply wpl_mono; [exact Hr|]. intros [] s3 Hg3. eapply wpl_mono; [by apply tell_spec|]. by intros [] s4 [? _].
Qed.

Lemma note_proven_spec s : going n [] s -> wpl (note_connection_proven world) (fun _ s' => going n [] s') s.
Proof.
  intros Hg. unfold note_connection_proven. eapply wpl_bind, wpl_look; [done|]. intros m s1 _ _ _ Hg1. apply wpl_bind, wpl_read. cbn zeta.
  apply wpl_bind, wpl_change. assert (forall s2, going n [] s2 -> going n [] s2) as Hid by done.
  destruct (resumed s1) as [t|]; [|apply wpl_ret; by eapply going_same]. destruct (is_proven s1); [apply wpl_ret; by eapply going_same|].
  apply wpl_change. eapply (going_silent n [] s1); [done|done|done|by repeat constructor|done|done].
Qed.

Lemma tell_now s o : assigns o = false -> going n [] s -> wpl (tell world o) (fun _ s' => going n [] s') s.
Proof. intros Ho Hg. eapply wpl_mono; [apply (tell_spec n); [lia|done|by rewrite Ho]|]. by intros [] s1 [? _]. Qed.

Lemma bulk_spec plain s : going n [] s -> wpl (on_bulk_fragment world plain) (fun _ s' => going n [] s') s.
Proof.
  intros Hg. unfold on_bulk_fragment. destruct (decode_fragment plain) as [f|]; [|by apply wpl_ret]. apply wpl_bind, wpl_read.
  destruct (Bulk.accept (bulk s) f) as [[[ack fin] b]|]; apply wpl_bind, wpl_change, wpl_bind;
    (eapply wpl_mono; [apply tell_now; [done|by eapply going_same]|]); intros [] s1 Hg1; by apply wpl_ret.
Qed.

Lemma coinbaser_spec plain s : going n [] s -> wpl (coinbaser_requested world plain) (fun _ s' => going n [] s') s.
Proof.
  intros Hg. unfold coinbaser_requested. destruct (decode_coinbaser_request plain) as [req|] eqn:Edec; [|by apply wpl_ret].
  eapply wpl_bind, wpl_look; [done|]. intros m s1 Em _ _ Hg1. apply wpl_bind, wpl_read.
  destruct (take_request _ _ _ _) as [within b]. apply wpl_bind, wpl_change.
  assert (going n [] (set_budget s1 b)) as Hg2 by (by eapply going_same). set (s2 := set_budget s1 b) in *.
  assert (exists spl answer, on_coinbaser_request (payout_server m) (verifier (conn s1)) within plain (unix_now (env m)) =
    Some (set_splits (verifier (conn s1)) spl, answer)) as (spl & answer & ->).
  { unfold on_coinbaser_request. rewrite Edec.
    destruct (negb within); [eexists (splits _), _; by rewrite set_splits_id|].
    destruct (negb _); [eexists (splits _), _; by rewrite set_splits_id|].
    destruct (Hpay (looks s)) as (l & H1 & H2 & H3 & H4). rewrite <- Em in *. cbn zeta.
    destruct (dictate_response_ok (payout_server m) l H1 H2 H3 H4 (request_value req) (next_coinbaser_id (verifier (conn s1)))) as (payload & -> & _).
    - by eapply request_bounds.
    - pose proof (next_id_range (splits (verifier (conn s1)))). unfold uint, next_coinbaser_id. lia.
    - by eexists _, _. }
  apply wpl_bind, wpl_change.
  assert (going n [] (set_conn s2 (set_verifier (conn s2) (set_splits (verifier (conn s1)) spl)))) as Hg3.
  { pose proof (going_between n [] s2 spl (abw (conn s2)) Hg2 (go_slots _ _ _ Hg2)) as Hb. exact Hb. }
  destruct answer; [by apply tell_now|by apply wpl_ret].
Qed.

Lemma dispatch_spec mining s : going n [] s -> wpl (dispatch world mining) (fun _ s' => going (S n) [] s') s.
Proof.
  intros Hg. unfold dispatch. apply wpl_bind, wpl_change. set (s1 := do_deeds s _ _).
  assert (going n (option_list (share_taken (Took mining))) s1) as Hg1.
  { eapply (going_silent n [] s); [done|done|done|by repeat constructor|done|]. unfold taken. cbn [omap list_omap]. by destruct (share_taken (Took mining)). }
  cbn [share_taken] in Hg1. destruct (bz <$> head mining) as [sub|] eqn:Eh; [|rewrite bool_decide_eq_false_2 in Hg1 by done; apply wpl_ret; by eapply going_le, Nat.le_succ_diag_r].
  assert (forall k, sub = k -> k <> client_subcmd.SUBMIT_POW -> going n [] s1) as Hother.
  { intros k -> Hk. rewrite bool_decide_eq_false_2 in Hg1 by congruence. exact Hg1. }
  destruct (Z.eqb_spec sub client_subcmd.COINBASER_REQUEST) as [E|_].
  { eapply wpl_mono; [apply coinbaser_spec; by apply (Hother _ E)|]. intros [] s2 Hg2. by eapply going_le, Nat.le_succ_diag_r. }
  destruct (Z.eqb_spec sub client_subcmd.SUBMIT_POW) as [->|Hne].
  { rewrite bool_decide_eq_true_2 in Hg1 by done. by apply hand_now_spec. }
  specialize (Hother sub eq_refl Hne). destruct (sub =? Validation.SUBCMD); [by apply hand_now_spec|].
  apply wpl_ret. by eapply going_le, Nat.le_succ_diag_r.
Qed.

Lemma next_frame_spec max_len s : going n [] s -> wpl (next_frame world max_len) (fun _ s' => going n [] s') s.
Proof.
  intros Hg. unfold next_frame. eapply wpl_bind, wpl_look; [done|]. intros m s1 _ _ _ Hg1.
  destruct (socket_read m) as [blocked| | |first after].
  - apply wpl_bind, wpl_change, wpl_ret. by eapply going_same.
  - by apply wpl_ret.
  - apply wpl_io, Hg1.
  - apply wpl_bind, wpl_read. destruct (server_unmask_header _ _) as [header ch]. apply wpl_bind, wpl_change. cbn zeta.
    assert (going n [] (set_channel s1 ch)) as Hg2 by (by eapply going_same).
    destruct (_ <? _); [apply wpl_io, Hg2|]. destruct (_ <? _)%nat; [apply wpl_io, Hg2|by apply wpl_ret].
Qed.

Lemma on_frame_spec header body s : going n [] s -> wpl (on_frame world header body) (fun _ s' => going (S n) [] s') s.
Proof.
  intros Hg. unfold on_frame. apply wpl_bind, wpl_read. destruct (server_decrypt _ _ _) as [plain ch]. apply wpl_bind, wpl_change.
  assert (going n [] (set_channel s ch)) as Hg1 by (by eapply going_same).
  assert (forall s2, going n [] s2 -> going (S n) [] s2) as Hle by (intros; by eapply going_le, Nat.le_succ_diag_r).
  destruct plain as [plain|]; [|apply wpl_ret; by apply Hle].
  eapply wpl_bind, wpl_look; [done|]. intros m s2 _ _ _ Hg2. apply wpl_bind, wpl_change, wpl_bind.
  eapply wpl_mono; [apply note_proven_spec; by eapply going_same|]. intros [] s3 Hg3.
  destruct (_ =? _).
  { apply wpl_bind. eapply wpl_mono; [by apply dispatch_spec|]. intros [] s4 Hg4. by apply wpl_ret. }
  destruct (_ =? _); [|apply wpl_ret; by apply Hle]. apply wpl_bind. eapply wpl_mono; [by apply bulk_spec|]. intros [mining|] s4 Hg4.
  - apply wpl_bind. eapply wpl_mono; [by apply dispatch_spec|]. intros [] s5 Hg5. by apply wpl_ret.
  - apply wpl_ret. by apply Hle.
Qed.
End turns.

(** How many handlers a turn runs at most. *)
Definition TURN : nat := 5.

Lemma turn_spec n s : (forall i, payout_ready (payout_server (world i))) -> Z.of_nat (n + TURN) * 2 ^ 24 < 2 ^ 63 ->
  going n [] s -> wpl (turn world) (fun _ s' => going (n + TURN) [] s') s.
Proof.
  intros Hpay Hn Hg. unfold TURN in *. unfold turn. apply wpl_bind.
  eapply wpl_mono; [apply (notify_tip_spec n); [lia|done]|]. intros [] s1 Hg1. apply wpl_bind.
  eapply wpl_mono; [apply (hand_now_spec (S n)); [lia|done]|]. intros [] s2 Hg2. apply wpl_bind.
  eapply wpl_mono; [apply (hand_now_spec (S (S n))); [lia|done]|]. intros [] s3 Hg3. apply wpl_bind.
  eapply wpl_mono; [apply (hand_now_spec (S (S (S n)))); [lia|done]|]. intros [] s4 Hg4. apply wpl_bind.
  set (k := S (S (S (S n)))) in *. assert (S k = n + 5)%nat as Hk by lia.
  assert (forall s2, going k [] s2 -> going (n + 5) [] s2) as Hle by (intros; eapply going_le; [done|lia]).
  eapply wpl_mono; [apply (rotate_when_due_spec k); [lia|done]|]. intros [] s5 Hg5. apply wpl_bind.
  eapply wpl_mono; [apply (send_due_reveals_spec k); [lia|done]|]. intros [] s6 Hg6.
  eapply wpl_bind, wpl_look; [done|]. intros m s7 _ _ _ Hg7. apply wpl_bind, wpl_read.
  destruct (IDLE_TIMEOUT <=? _); [apply wpl_ret; by apply Hle|].
  eapply wpl_bind, wpl_look; [done|]. intros m2 s8 _ _ _ Hg8. apply wpl_bind, wpl_read, wpl_bind.
  assert (wpl (if KEEPALIVE_INTERVAL <=? duration_since (instant m2) (last_send_at s8) then tell world KeepalivePing else mret ())
    (fun _ s' => going k [] s') s8) as Hkeep by (destruct (_ <=? _); [apply tell_now; [lia|done|done]|by apply wpl_ret]).
  eapply wpl_mono; [exact Hkeep|]. intros [] s9 Hg9. apply wpl_bind, wpl_read. destruct (negb (readable s9)).
  - eapply wpl_bind, wpl_look; [done|]. intros m3 s10 _ _ _ Hg10. apply wpl_bind, wpl_change, wpl_bind.
    set (s11 := do_deeds s10 _ _). assert (going k [] s11) as Hg11 by (eapply (going_silent k [] s10); [done|done|done|by repeat constructor|done|done]).
    eapply wpl_mono; [by apply wait_spec|]. intros [] s12 [Hg12 _]. apply wpl_ret. by apply Hle.
  - apply wpl_bind. eapply wpl_mono; [by apply (next_frame_spec k)|]. intros [| |header body] s10 Hg10;
      [apply wpl_ret; by apply Hle|apply wpl_ret; by apply Hle|]. rewrite <- Hk. by apply on_frame_spec; [lia|..].
Qed.

Lemma run_spec turns : (forall i, payout_ready (payout_server (world i))) -> forall n s,
  Z.of_nat (n + turns * TURN) * 2 ^ 24 < 2 ^ 63 -> going n [] s -> wpl (run world turns) (fun _ s' => going (n + turns * TURN) [] s') s.
Proof.
  intros Hpay. induction turns as [|turns IH]; intros n s Hn Hg; cbn [run].
  { apply wpl_ret. by rewrite Nat.add_0_r. }
  apply wpl_bind. eapply wpl_mono; [apply (turn_spec n); [done|lia|done]|]. intros [] s1 Hg1.
  - replace (n + S turns * TURN)%nat with (n + TURN + turns * TURN)%nat by lia. apply IH; [lia|done].
  - apply wpl_ret. eapply going_le; [done|lia].
Qed.
End invariant.

(** ** The connection from its hello *)

Section connection.
Context `{Digests} `{Crypto} {codec : AddressCodec} {laws : AddressLaws}.
Context (srv : PoolServer) (world : nat -> Moment).

(** The sessions saved have all their slots. *)
Definition store_ready (st : SessionStore) : Prop :=
  forall key s, Bounded.get (saved st) key = Some s -> length (slots (v3_abw (saved_v3 s))) = SLOTS.

Record world_ready : Prop := {
  wr_payout : forall i, payout_ready (payout_server (world i));
  wr_sessions : forall i, store_ready (sessions (world i));
  wr_config : encode_config (config (share_policy srv)) = Ok (config_payload srv);
}.

(** The version 3 configuration encodes where the version 1 one does. *)
Lemma config_v3_encodes c payload t : encode_config c = Ok payload ->
  exists p3, encode_config {| payout_script := payout_script c; prime_id := Config.prime_id c; coinbase_tag := coinbase_tag c;
    min_difficulty := min_difficulty c; v3 := Some t |} = Ok p3.
Proof.
  unfold encode_config, check_fields. cbn [payout_script coinbase_tag min_difficulty Config.prime_id v3 is_some negb andb].
  repeat (match goal with |- context [ensure ?b _] => destruct b; cbn [ensure mbind result_bind]; [|done] end). by eexists.
Qed.

Lemma start_session_slots st c presented now random fresh s : store_ready st ->
  Sessions.v3 (start_v3_session st c presented now random fresh) = Some s -> length (slots (v3_abw s)) = SLOTS.
Proof.
  intros Hst. unfold start_v3_session, resume_or_start.
  destruct (_ ≫= _) as [kept|] eqn:E; cbn; intros [= <-]; cbn; [|by rewrite length_insert].
  rewrite length_fmap. destruct presented as [t|]; [|done]. cbn in E. destruct (Bounded.get _ _) as [x|] eqn:Eg; [|done]. cbn in E.
  destruct (_ && _); [|done]. injection E as <-. by eapply Hst.
Qed.

Lemma start_connection_spec v s n : Z.of_nat n * 2 ^ 24 < 2 ^ 63 -> world_ready -> going (share_policy srv) n [] s -> held (conn s) = [] ->
  wpl (start_connection srv world v) (fun _ s' => going (share_policy srv) n [] s') s.
Proof.
  intros Hn [_ Hst Hcfg] Hg Hh. destruct v as [|resume]; cbn [start_connection].
  { eapply wpl_mono; [by apply (tell_spec (share_policy srv) _ n)|]. by intros [] s1 [? _]. }
  unfold start_session. eapply wpl_bind, wpl_look; [done|]. intros m s1 Em Hc _ Hg1. apply wpl_bind, wpl_read. cbn zeta.
  set (sc := start_v3_session _ _ _ _ _ _). destruct (Sessions.v3 sc) as [s3|] eqn:E3; [|by apply wpl_ret].
  apply start_session_slots in E3; [|rewrite Em; apply Hst]. unfold config_payload_v3.
  destruct (config_v3_encodes (config (share_policy srv)) _
    {| resume_token := token s3; bulk_framing := true; abw_disabled := false |} Hcfg) as [payload ->]. cbn [ok].
  apply wpl_bind, wpl_change. unfold restore_splits. set (s2 := set_session _ _ _ _).
  assert (going (share_policy srv) n [] s2) as Hg2.
  { eapply going_same; [apply (going_between _ n [] s1 (Sessions.splits sc) (Some (v3_abw s3))); [done|exact E3]|done|done]. }
  apply wpl_bind. eapply wpl_mono; [by apply (tell_spec (share_policy srv) _ n)|]. intros [] s4 [Hg4 E4].
  eapply wpl_mono; [apply (tell_all_spec (share_policy srv) _ n); [done|done|]|by intros [] s5 [? _]]. intros _. rewrite E4. cbn. by rewrite Hc.
Qed.

(** The loop answers before it assigns. From a hello the pool accepted, for as many
    turns as one likes: the loop never panics; every share it took off the socket, alone
    or in a bulk transfer, is answered or held, its state being one the handlers of shares
    reach by themselves; and whenever it sends the gateway the commitment of a new slot or
    the key of a retired one, every share it had taken till then has been answered, so
    that the key of a slot never comes before the answer to a share mined on it. *)
Theorem answers_before_assigning (header : FrameHeader) (payload response : bytes) (session_keys : KeyPairs) (opened now : Z)
    (ready : bool) (shared : AcceptedShareHashes * BoundedSet bytes * TxnCache) (turns : nat) (s : Serving) (r : result Failure bool) :
  Z.of_nat (turns * TURN) * 2 ^ 24 < 2 ^ 63 -> world_ready ->
  handle_connection srv world header payload session_keys opened now ready shared turns = Some (response, (s, r)) ->
  r <> Err Panic /\
  (forall pre o post, deeds s = pre ++ Sent o :: post -> assigns o = true -> answers (did pre) ≡ₚ taken pre) /\
  (forall going_on, r = Ok going_on ->
     (exists k, (k <= turns * TURN)%nat /\ served (share_policy srv) k (taken (deeds s)) (conn s)) /\ did (deeds s) = log (conn s) /\
     answers (did (deeds s)) ++ (held_key <$> held (conn s)) ≡ₚ taken (deeds s)).
Proof.
  intros Hn Hw Hrun. unfold handle_connection in Hrun.
  destruct (ok (open_hello header payload (pool_keys srv))) as [hello|]; [|done]. cbn [mbind option_bind] in Hrun.
  destruct (require_v3 srv && _); [done|].
  destruct (ok (Handshake.accept hello (pool_keys srv) (server_motd srv) session_keys)) as [[resp ch]|]; [|done].
  cbn [mbind option_bind] in Hrun. injection Hrun as _ Hrun. set (s0 := serving_new _ _ _ _ _ _) in Hrun.
  assert (going (share_policy srv) 0 [] s0 /\ held (conn s0) = []) as [Hg Hh].
  { unfold s0, serving_new. destruct shared as [[hashes blocks] cache]. split; [|done]. split; try done.
    - exists 0%nat, []. split_and!; [done|apply served_new|done].
    - by intros []. }
  assert (wpl (_ ← start_connection srv world (protocol_version hello); run world turns)
    (fun _ s' => going (share_policy srv) (turns * TURN) [] s') s0) as Hspec.
  { apply wpl_bind. eapply wpl_mono; [by apply (start_connection_spec _ _ 0)|]. intros [] s1 Hg1.
    apply (run_spec _ _ turns (wr_payout Hw) 0); [lia|done]. }
  unfold wpl in Hspec. rewrite Hrun in Hspec. destruct r as [b|[]]; [|split_and!; [done|apply Hspec|done]|done].
  destruct Hspec as [(k & shares & Hk & Hs & Ht) Hl Ha _]. split_and!; [done|exact Ha|]. intros _ _.
  rewrite app_nil_r in Ht. rewrite Ht. destruct (served_ok _ (turns * TURN) k shares (conn s) Hn Hk Hs) as [_ Hset].
  unfold settled in Hset. split_and!; [by exists k|done|by rewrite Hl].
Qed.
End connection.

(** ** What is read *)

(** A hello is read or given up on. *)
Lemma read_hello_ends `{Crypto} (srv : PoolServer) os socket started_at : steady os -> goes_on os ->
  exists fuel socket2 r, read_hello srv os fuel socket started_at = Some (socket2, r).
Proof.
  intros Hc Hg. destruct (read_frame_total os socket ratchet_initial unmask MAX_HELLO_FRAME_LEN (started_at + HANDSHAKE_DEADLINE) Hc Hg)
    as (fuel & s2 & c2 & r & E & _). exists fuel. unfold read_hello. rewrite E. by eexists _, _.
Qed.

(** A frame the loop takes has the body its header announces, which is within the limit:
    64 KiB unless a list of transactions was asked for. *)
Lemma frame_within_limit world max_len s s' header body : next_frame world max_len s = (s', Ok (Complete header body)) ->
  length body = Z.to_nat (cmd_len header) /\ cmd_len header <= max_len.
Proof.
  unfold next_frame, look, mbind, L_bind. destruct (socket_read (world (looks s))) as [blocked| | |head after] eqn:E; rewrite ?E;
    cbn [read_state change mret L_ret stop]; rewrite ?E; try done.
  destruct (server_unmask_header (channel (looked s)) head) as [h ch]. destruct (Z.ltb_spec max_len (cmd_len h)) as [|Hmax]; [done|].
  destruct (Nat.ltb_spec (length after) (Z.to_nat (cmd_len h))) as [|Hlen]; [done|]. intros [= <- <- <-]. rewrite length_take. lia.
Qed.

(** The budget lets its burst through at once and its rate after that. *)
Fixpoint take_requests (b : RequestBudget) (ats : list Z) (burst per_sec : f64) : list bool :=
  match ats with
  | [] => []
  | now :: ats => let '(r, b) := take_request b now burst per_sec in r :: take_requests b ats burst per_sec
  end.

Lemma budget_allows_its_burst :
  take_requests (budget_full (f64_of_Z 3) 0) ([0; 0; 0; 0; 0] ++ [from_secs 1 / 2; from_secs 1; from_secs 1]) (f64_of_Z 3) (f64_of_Z 1) =
    [true; true; true; false; false; false; true; false].
Proof. vm_compute. reflexivity. Qed.

(** ** What the loop waits for *)

(** The tests of a turn that an instant alone decides: a keepalive, the end of an idle
    connection, a request or a parent hold run out, and a rotation or a reveal, which wait
    for the held shares. *)
Definition something_due (s : Serving) (t : Z) : bool :=
  (KEEPALIVE_INTERVAL <=? duration_since t (last_send_at s)) || (IDLE_TIMEOUT <=? duration_since t (last_frame_at s)) ||
  existsb (fun r => deadline r <=? t) (txn_requests (conn s)) || existsb (parent_hold_due t) (held (conn s)) ||
  bool_decide (held (conn s) = []) && from_option (fun a => reveal_due a t || is_some (rotation_due a t)) false (abw (conn s)).

Lemma min_with_le x l t : from_option (Z.min x) x (minimum l) <= t <-> x <= t \/ exists y, y ∈ l /\ y <= t.
Proof.
  destruct (minimum l) as [m|] eqn:E; cbn.
  - apply minimum_Some in E as [Hm Hmin]. split.
    + intros Hle. destruct (Z.le_gt_cases x t); [by left|right]. exists m. split; [done|lia].
    + intros [?|(y & Hy & ?)]; [lia|]. specialize (Hmin y Hy). lia.
  - apply minimum_None in E as ->. split; [by left|]. intros [?|(y & Hy & _)]; [done|by apply not_elem_of_nil in Hy].
Qed.

Lemma existsb_le {A} (f : A -> Z) l t : existsb (fun x => f x <=? t) l = true <-> exists y, y ∈ f <$> l /\ y <= t.
Proof.
  rewrite existsb_exists. split.
  - intros (x & Hx & Hle%Z.leb_le). exists (f x). split; [|done]. apply list_elem_of_fmap. exists x. by rewrite <- list_elem_of_In in Hx.
  - intros (y & (x & -> & Hx)%list_elem_of_fmap & Hle). exists x. split; [by apply list_elem_of_In|by apply Z.leb_le].
Qed.

Lemma parent_hold_le l t : existsb (parent_hold_due t) l = true <-> exists y, y ∈ omap parent_hold_until l /\ y <= t.
Proof.
  rewrite existsb_exists. split.
  - intros (h & Hh & Hd). unfold parent_hold_due in Hd. destruct (parent_hold_until h) as [u|] eqn:E; [|done]. exists u.
    split; [apply list_elem_of_omap; exists h; by rewrite <- list_elem_of_In in Hh|by apply Z.leb_le].
  - intros (y & (h & Hh & E)%list_elem_of_omap & Hle). exists h. split; [by apply list_elem_of_In|].
    unfold parent_hold_due. rewrite E. by apply Z.leb_le.
Qed.

(** The loop sleeps until the next thing is due and no longer. At any later instant,
    one of the tests a turn makes of the clock holds, a keepalive to send, the connection
    idle too long, a request for transactions or a wait for a parent run out, or, while no
    share is held, a slot to rotate or a key to reveal, exactly where the instant is past
    what the loop waits for; so it neither misses one nor wakes for nothing. *)
Theorem sleeps_until_due (s : Serving) (now t : Z) :
  now <= t -> (forall a, abw (conn s) = Some a -> shares_since_activation a < ROTATE_AFTER_SHARES) ->
  something_due s t = true <-> now + until_next_action s now <= t.
Proof.
  intros Hnow Hsh. unfold something_due, until_next_action, secs_until. rewrite !orb_true_iff, andb_true_iff, existsb_le, parent_hold_le, bool_decide_eq_true.
  set (d1 := Z.min _ _). set (d2 := from_option _ d1 _). set (d3 := from_option _ d2 _). set (d4 := if bool_decide _ then _ else d3).
  assert (d1 <= t <-> KEEPALIVE_INTERVAL <= duration_since t (last_send_at s) \/ IDLE_TIMEOUT <= duration_since t (last_frame_at s)) as E1.
  { unfold d1, duration_since. change KEEPALIVE_INTERVAL with (20 * 10 ^ 9). change IDLE_TIMEOUT with (600 * 10 ^ 9). lia. }
  assert (d4 <= t <-> d3 <= t \/ (held (conn s) = [] /\
    from_option (fun a => reveal_due a t || is_some (rotation_due a t)) false (abw (conn s)) = true)) as E4.
  { unfold d4. clear d4. clearbody d3. case_bool_decide as Hh; [|by intuition]. destruct (abw (conn s)) as [a|]; cbn [from_option fmap option_fmap option_map]; [|by intuition].
    rewrite orb_true_iff. pose proof (next_due_exact a t (Hsh a eq_refl)) as Hd.
    assert (is_some (rotation_due a t) = true <-> rotation_due a t <> None) as -> by (by destruct (rotation_due a t)).
    rewrite Hd. split; [|intros [?|[_ ?]]; lia]. intros ?. destruct (Z.le_gt_cases d3 t); [by left|right; split; [done|lia]]. }
  assert (now + duration_since d4 now <= t <-> d4 <= t) as -> by (clearbody d4; unfold duration_since; lia).
  rewrite E4. unfold d3, d2. rewrite !min_with_le, E1, !Z.leb_le. tauto.
Qed.

(** ** An example *)

#[local] Existing Instances example_crypto zero_digests letter_codec letter_laws.

Definition example_hello : bytes * ClientChannel :=
  default ([], with_key_pairs (example_keys 1) (example_keys 2) 77)
    (hello (with_key_pairs (example_keys 1) (example_keys 2) 77) (le 32 3) (zb <$> [0x67; 0x77]) (V3 None) (250, 9)).

Definition example_hello_header : FrameHeader := (unmask ratchet_initial (take HEADER_LEN (fst example_hello))).1.

(** A share, as the gateway's end of the channel sends it. *)
Definition example_share_frame : bytes :=
  default [] (ok (encrypt (set_precomp (client_channel (snd example_hello)) (zeros 32)) cmd.MINING (ShareMsg.encode example_mined_share) None).1).

Definition example_pool : PoolServer :=
  {| pool_keys := example_keys 3; server_motd := []; require_v3 := true; share_policy := example_policy;
     config_payload := default [] (ok (encode_config (config example_policy))) |}.

(** A share is there to be read at first; the tip changes after a while. *)
Definition example_world (k : nat) (i : nat) : Moment :=
  let early := (i <? k)%nat in
  {| env := {| unix_now := 1010; instant_now := (if early then 0 else from_secs 100); write_ok := fun _ => true;
       node_proposal := fun _ _ => Ok None; node_submission := fun _ _ => Ok None; payable := fun _ => true;
       records := fun _ _ => true; alive := fun _ => true |};
     node_tip := Some (le 32 (if early then 7 else 8)); node_template := None; socket_wait := Woken early;
     socket_read := if early then Arrived (take HEADER_LEN example_share_frame) (drop HEADER_LEN example_share_frame) else NoBytes true;
     payout_server := example_payout_server; fresh_key := le 16 (Z.of_nat i); token_random := zeros 8; sessions := store_new 1;
     others := (hashes_new 16, set_new 4, {| cached := ∅; added_since_sweep := 0 |}) |}.

Definition example_shared := (hashes_new 16, set_new (T:=bytes) 4, {| cached := ∅; added_since_sweep := 0 |}).
Definition example_outcome : option (bytes * (Serving * result Failure bool)) :=
  handle_connection example_pool (example_world 18) example_hello_header (drop HEADER_LEN (fst example_hello)) (example_keys 4) 0 0 true
    example_shared 3.

Definition example_channels : ServerChannel :=
  {| server_channel := example_channel; session_sign_sk := [];
     server_hello := {| hello_client := public (example_keys 1); hello_session := public (example_keys 2); user_agent := [];
       hello_nk := 77; protocol_version := V1 |} |}.

Definition example_end : Serving :=
  from_option (fun x => x.2.1) (serving_new example_pool 0 0 example_channels true example_shared) example_outcome.

Lemma example_ready : world_ready example_pool (example_world 18).
Proof.
  split.
  - intros i. exists (window_of 100 8 example_window_shares). split; [exact example_represents|].
    split; [repeat constructor; done|]. split; [cbn; unfold BASIS_POINTS_PER_UNIT; lia|vm_compute; reflexivity].
  - intros i key s Hs. vm_compute in Hs. discriminate.
  - vm_compute. reflexivity.
Defined.

(** A share taken and answered, then a new tip: the notice of the slot rotated to is the
    seventh deed. *)
Lemma answers_before_assigning_witness :
  let pre := take 6 (deeds example_end) in
  exists payload, deeds example_end !! 6%nat = Some (Sent (SlotNotice payload)) /\ answers (did pre) ≡ₚ taken pre /\ length (taken pre) = 1%nat /\
    answers (did (deeds example_end)) ++ (held_key <$> held (conn example_end)) ≡ₚ taken (deeds example_end).
Proof.
  intros pre.
  assert (exists response, example_outcome = Some (response, (example_end, Ok true))) as [response Hrun].
  { eexists. vm_compute. reflexivity. }
  destruct (answers_before_assigning example_pool (example_world 18) example_hello_header (drop HEADER_LEN (fst example_hello)) response
    (example_keys 4) 0 0 true example_shared 3 example_end (Ok true)) as (_ & Hafter & Hok); [vm_compute; reflexivity|exact example_ready|exact Hrun|].
  destruct (Hok true eq_refl) as (_ & _ & Hall).
  assert (exists payload, deeds example_end !! 6%nat = Some (Sent (SlotNotice payload))) as [payload Hd] by (eexists; vm_compute; reflexivity).
  exists payload. split; [exact Hd|]. split; [|split; [vm_compute; reflexivity|exact Hall]].
  apply (Hafter pre (SlotNotice payload) (drop 7 (deeds example_end))); [|reflexivity].
  symmetry. exact (take_drop_middle _ _ _ Hd).
Defined.

Lemma sleeps_until_due_witness :
  something_due example_end (from_secs 120) = true /\ from_secs 101 + until_next_action example_end (from_secs 101) = from_secs 120.
Proof.
  assert (from_secs 101 + until_next_action example_end (from_secs 101) = from_secs 120) as E by (vm_compute; reflexivity).
  split; [|exact E]. apply (sleeps_until_due example_end (from_secs 101) (from_secs 120)); [vm_compute; discriminate| |by rewrite E].
  intros a Ha. vm_compute in Ha. injection Ha as <-. vm_compute. reflexivity.
Defined.
