(* ===== verification/NodeWatch.v ===== *)
(** The pool's watch of its node ([prime/src/node.rs], and what sizes the window in
    [prime/src/ledger.rs]): the tip and the template it holds, whom it wakes when they
    change, and what it sizes the window of shares to. A turn is given what the node
    answers in it. Logging and the sleeps are left out. *)
From S2P Require Import Prelude Float Json Address Ledger Rpc.

(** [WindowRule::window_for] of the rule's multiple. *)
Definition window_for (multiple network_difficulty : f64) : Z :=
  let w := f64_mul network_difficulty multiple in
  if is_finite w && f64_le (f64_of_Z 1) w then f64_to_u128 w else 1.

(** [Ledger::set_network_difficulty], and whether a re-read is due. *)
Definition set_network_difficulty `{!SharesTable} (multiple : f64) (l : Ledger) (d : f64) : option (Ledger * bool) :=
  (fun l => (l, reread_due l)) <$> set_window l (window_for multiple d).

(** ** What is held of the node *)

Record TipObservation := { observed_height : Z; observed_at : Z }.

Record NodeView := { tip : option Tip; template : option TemplateSummary; tip_history : list TipObservation }.

Definition view_default : NodeView := {| tip := None; template := None; tip_history := [] |}.

Definition TIP_HISTORY_CAP : nat := 64.

Definition held_coinbase_value (v : NodeView) : option Z := coinbase_value <$> template v.
Definition tip_and_template (v : NodeView) : option Tip * option TemplateSummary := (tip v, template v).

Definition observed_block_seconds (v : NodeView) : option f64 :=
  match head (tip_history v), last (tip_history v) with
  | Some f, Some l =>
    if (observed_height f <? observed_height l) && (observed_at f <? observed_at l)
    then Some (f64_div (f64_of_Z (observed_at l - observed_at f)) (f64_of_Z (observed_height l - observed_height f)))
    else None
  | _, _ => None
  end.

Definition is_new_tip (v : NodeView) (hash : bytes) : bool := negb (bool_decide (tip_hash <$> tip v = Some hash)).

(** The loop that drops the oldest tips. *)
Definition capped {A} (cap : nat) (l : list A) : list A := drop (length l - cap) l.

(** [NodeState::update], and whether the tip or the next block's bits changed. *)
Definition update (v : NodeView) (t : Tip) (read : option (option TemplateSummary)) (now : Z) : NodeView * bool :=
  let tip_changed := is_new_tip v (tip_hash t) in
  let previous_bits := summary_bits <$> template v in
  let history := if tip_changed
    then capped TIP_HISTORY_CAP (tip_history v ++ [{| observed_height := tip_height t; observed_at := now |}])
    else tip_history v in
  let template := default (template v) read in
  ({| tip := Some t; template := template; tip_history := history |},
   tip_changed || negb (bool_decide (summary_bits <$> template = previous_bits))).

Definition window_difficulty (t : Tip) (template : option TemplateSummary) : f64 :=
  default (tip_difficulty t) (s ← template; node_difficulty_from_bits (summary_bits s)).

(** ** A turn of the watch *)

Definition MINING_INFO_INTERVAL : Z := 60 * 10 ^ 9.

Record Watch := {
  view : NodeView;
  mining : LatestMiningInfo;
  have_template : bool;
  wait_for_blocks : bool;
  last_mining_info : option Z;
}.

Definition watch_new : Watch :=
  {| view := view_default; mining := {| latest_hashps := None; latest_warnings := [] |}; have_template := false;
     wait_for_blocks := true; last_mining_info := None |}.

(** What a turn asks of the others: the window sized to a difficulty, the connections woken,
    the window read again, a wait for the block of a height; or the process ends. *)
Inductive Effect := SizeTo (d : f64) | WakeConnections | RereadWindow | WaitFor (height : Z) | Sleep | Exit.

Section watch.
Context `{!Json, !JsonRest}.

(** The clocks at a turn, the node's answers to what the turn asks, and whether sizing the
    window leaves a re-read due. *)
Record Turn := {
  turn_instant : Z;
  turn_unix : Z;
  node_info : result Error value;
  node_tip : result Error Tip;
  node_template : result Error TemplateSummary;
  node_waits : result Error Z;
  reread_is_due : bool;
}.

(** [exit_on_wrong_chain]. *)
Definition wrong_chain (t : Tip) (expected : option Chain) : bool :=
  match expected with Some c => negb (bool_decide (tip_chain t = c)) | None => false end.

Definition watch_turn (expected : option Chain) (w : Watch) (a : Turn) : Watch * list Effect :=
  let due := from_option (fun t => MINING_INFO_INTERVAL <=? turn_instant a - t) true (last_mining_info w) in
  let mining := if due then (refresh (node_info a) (mining w)).2 else mining w in
  let last_mining_info := if due then Some (turn_instant a) else last_mining_info w in
  let keep v have wait := {| view := v; mining := mining; have_template := have; wait_for_blocks := wait; last_mining_info := last_mining_info |} in
  match node_tip a with
  | Err _ => (keep (view w) (have_template w) (wait_for_blocks w), [Sleep])
  | Ok t =>
    if wrong_chain t expected then (keep (view w) (have_template w) (wait_for_blocks w), [Exit]) else
    let tip_changed := is_new_tip (view w) (tip_hash t) in
    let read := if tip_changed || negb (have_template w) then Some (ok (node_template a)) else None in
    let have := match read with Some r => is_some r | None => have_template w end in
    let next := default None read in
    let sized := tip_changed || is_some next in
    let '(v, changed) := update (view w) t read (turn_unix a) in
    let effects := (if sized then [SizeTo (window_difficulty t next)] else []) ++
      (if changed then [WakeConnections] else []) ++
      (if sized && reread_is_due a then [RereadWindow] else []) in
    if wait_for_blocks w then
      match node_waits a with
      | Ok _ => (keep v have true, effects ++ [WaitFor (tip_height t + 1)])
      | Err e => (keep v have (negb (is_method_not_found e)), effects ++ [WaitFor (tip_height t + 1); Sleep])
      end
    else (keep v have false, effects ++ [Sleep])
  end.

(** The turns of a run, with the view at each and what it asked. *)
Fixpoint watch (expected : option Chain) (w : Watch) (turns : list Turn) : Watch * list (NodeView * list Effect) :=
  match turns with
  | [] => (w, [])
  | a :: turns =>
    let '(w, effects) := watch_turn expected w a in
    if existsb (fun e => match e with Exit => true | _ => false end) effects then (w, [(view w, effects)]) else
    let '(w2, rest) := watch expected w turns in (w2, (view w, effects) :: rest)
  end.
End watch.

(** ** What a run keeps *)

(** The tip and the next block's bits, which the connections work on. *)
Definition work_of (v : NodeView) : option bytes * option Z := (tip_hash <$> tip v, summary_bits <$> template v).

Definition wakes (effects : list Effect) : bool := existsb (fun e => match e with WakeConnections => true | _ => false end) effects.
Definition sizes (effects : list Effect) : option f64 := last (omap (fun e => match e with SizeTo d => Some d | _ => None end) effects).

(** What the connections were last woken on, and what the window was last sized to. *)
Definition announced (before : option bytes * option Z) (trace : list (NodeView * list Effect)) : option bytes * option Z :=
  foldl (fun last '(v, effects) => if wakes effects then work_of v else last) before trace.
Definition sized_to (before : option f64) (trace : list (NodeView * list Effect)) : option f64 :=
  foldl (fun last '(_, effects) => match sizes effects with Some d => Some d | None => last end) before trace.

(** The difficulty of the block being mined on what is held. *)
Definition due_difficulty (v : NodeView) : option f64 := (fun t => window_difficulty t (template v)) <$> tip v.

Section watch_ok.
Context `{!Json, !JsonRest}.
Context (difficulty_of : bytes -> f64).

(** A block has one difficulty, whenever the node is asked. *)
Definition one_difficulty (t : Tip) : Prop := tip_difficulty t = difficulty_of (tip_hash t).

Record watch_ok (w : Watch) (woken : option bytes * option Z) (sized : option f64) : Prop := {
  wo_woken : woken = work_of (view w);
  wo_sized : sized = due_difficulty (view w);
  wo_have : have_template w = is_some (template (view w));
  wo_history : (length (tip_history (view w)) <= TIP_HISTORY_CAP)%nat;
  wo_tip : from_option one_difficulty True (tip (view w));
}.

Lemma length_capped {A} cap (l : list A) : (length (capped cap l) <= cap)%nat.
Proof. unfold capped. rewrite length_drop. lia. Qed.

(** An update announces what changed, and keeps the rest. *)
Lemma update_work v t read now :
  (update v t read now).2 = negb (bool_decide (work_of (update v t read now).1 = work_of v)).
Proof.
  unfold update, work_of, is_new_tip. cbn [fst snd tip template fmap option_fmap option_map].
  destruct (decide (tip_hash <$> tip v = Some (tip_hash t))) as [Heq|Hne].
  - rewrite (bool_decide_eq_true_2 (_ = Some (tip_hash t))) by done. cbn [negb orb]. f_equal. apply bool_decide_ext.
    split; [|by intros [=]]. intros Hb. by rewrite Heq, Hb.
  - rewrite (bool_decide_eq_false_2 (_ = Some (tip_hash t))) by done. cbn [negb orb]. symmetry. apply negb_true_iff, bool_decide_eq_false_2.
    intros [=]. by apply Hne.
Qed.

Lemma update_fields v t read now : let v2 := (update v t read now).1 in
  tip v2 = Some t /\ template v2 = default (template v) read /\
  ((length (tip_history v) <= TIP_HISTORY_CAP)%nat -> (length (tip_history v2) <= TIP_HISTORY_CAP)%nat).
Proof. cbv zeta. unfold update. split_and!; [done..|]. intros Hl. cbn [fst tip_history]. destruct (is_new_tip _ _); [apply length_capped|done]. Qed.

Lemma wakes_app a b : wakes (a ++ b) = wakes a || wakes b.
Proof. apply existsb_app. Qed.

Lemma sizes_app_none a b : sizes b = None -> sizes (a ++ b) = sizes a.
Proof. unfold sizes. rewrite omap_app, last_app. by intros ->. Qed.

Lemma watch_turn_ok expected w a woken sized : watch_ok w woken sized ->
  (forall t, node_tip a = Ok t -> one_difficulty t) ->
  let '(w2, effects) := watch_turn expected w a in
  watch_ok w2 (if wakes effects then work_of (view w2) else woken) (match sizes effects with Some d => Some d | None => sized end).
Proof.
  intros [Hw Hs Hh Hhist Htip] Hone. unfold watch_turn. destruct (node_tip a) as [t|e] eqn:Et; [|by constructor].
  specialize (Hone t eq_refl). destruct (wrong_chain t expected); [by constructor|].
  set (read := if _ || _ then _ else None) in *. set (sized2 := is_new_tip (view w) (tip_hash t) || is_some (default None read)).
  pose proof (update_work (view w) t read (turn_unix a)) as Hch. pose proof (update_fields (view w) t read (turn_unix a)) as (Ht2 & Htmpl & Hh2).
  destruct (update (view w) t read (turn_unix a)) as [v2 changed]. cbn [fst snd] in Hch, Ht2, Htmpl, Hh2.
  set (effects := (if sized2 then _ else _) ++ _).
  assert (forall rest mi li wt, wakes rest = false -> sizes rest = None ->
    watch_ok {| view := v2; mining := mi; have_template := match read with Some r => is_some r | None => have_template w end;
                wait_for_blocks := wt; last_mining_info := li |}
      (if wakes (effects ++ rest) then work_of v2 else woken)
      (match sizes (effects ++ rest) with Some d => Some d | None => sized end)) as Hok.
  { intros rest mi li wt Hwr Hsr. rewrite wakes_app, Hwr, orb_false_r, (sizes_app_none _ _ Hsr).
    assert (wakes effects = changed) as -> by (unfold effects; by destruct (sized2 && reread_is_due a), sized2, changed).
    assert (sizes effects = if sized2 then Some (window_difficulty t (default None read)) else None) as ->
      by (unfold effects; by destruct (sized2 && reread_is_due a), sized2, changed).
    constructor; cbn [view have_template].
    - rewrite Hch. case_bool_decide as Hsame; [|done]. by rewrite Hsame.
    - unfold due_difficulty. rewrite Ht2, Htmpl. cbn [fmap option_fmap option_map]. subst sized2 read.
      destruct (is_new_tip (view w) (tip_hash t)) eqn:Hn; cbn [orb default id is_some]; [done|].
      apply negb_false_iff, bool_decide_eq_true in Hn. rewrite Hs, Hh. unfold due_difficulty.
      destruct (tip (view w)) as [t0|]; [|done]. cbn in Hn, Htip |- *. injection Hn as Hn.
      destruct (template (view w)) as [s|]; cbn [is_some negb default id]; cbn.
      + f_equal. unfold window_difficulty. rewrite Hone, Htip. by rewrite Hn.
      + destruct (ok (node_template a)); [done|]. cbn. f_equal. unfold window_difficulty. cbn. rewrite Hone, Htip. by rewrite Hn.
    - rewrite Htmpl. destruct read; [done|exact Hh].
    - by apply Hh2.
    - by rewrite Ht2. }
  destruct (wait_for_blocks w); [destruct (node_waits a)|]; rewrite <- ?app_assoc; by apply Hok.
Qed.

(** A run keeps it, from whatever was announced before. *)
Lemma watch_run_ok expected turns : forall w woken sized, watch_ok w woken sized ->
  (forall a t, a ∈ turns -> node_tip a = Ok t -> one_difficulty t) ->
  let '(w2, trace) := watch expected w turns in watch_ok w2 (announced woken trace) (sized_to sized trace).
Proof.
  induction turns as [|a turns IH]; intros w woken sized Hok Hone; [done|]. cbn [watch].
  pose proof (watch_turn_ok expected w a woken sized Hok (fun t => Hone a t (list_elem_of_here _ _))) as Hturn.
  destruct (watch_turn expected w a) as [w2 effects]. destruct (existsb _ effects); [done|].
  specialize (IH w2 _ _ Hturn (fun b t Hb => Hone b t (list_elem_of_further _ _ _ Hb))).
  by destruct (watch expected w2 turns) as [w3 trace].
Qed.
End watch_ok.

(** C27: The watch keeps up with the node. After any run of turns, whatever the node answered
    or failed to answer in them: what the connections were last woken on is the tip and the
    bits held now, so no change of the work due goes unannounced; the window was last sized to
    the difficulty of the block being mined on what is held, the template's where one is
    held and the tip's where none is; and at most 64 tips are remembered. *)
Theorem node_watch_keeps_up `{!Json, !JsonRest} (difficulty_of : bytes -> f64) (expected : option Chain)
    (turns : list Turn) :
  (forall a t, a ∈ turns -> node_tip a = Ok t -> one_difficulty difficulty_of t) ->
  let '(w, trace) := watch expected watch_new turns in
  announced (None, None) trace = work_of (view w) /\ sized_to None trace = due_difficulty (view w) /\
  (length (tip_history (view w)) <= TIP_HISTORY_CAP)%nat.
Proof.
  intros Hone. pose proof (watch_run_ok difficulty_of expected turns watch_new (None, None) None) as Hrun.
  destruct (watch expected watch_new turns) as [w trace]. destruct Hrun as [Hann Hsized _ Hcap _]; [constructor; cbn; done || (unfold TIP_HISTORY_CAP; lia)|done|].
  by split_and!.
Qed.

Definition example_tip (b : Z) (height : Z) : Tip :=
  {| tip_hash := replicate 32 (zb b); tip_height := height; tip_difficulty := f64_of_Z 5; tip_chain := Regtest |}.
Definition example_summary (b : Z) (bits : Z) : TemplateSummary :=
  {| prev_hash := replicate 32 (zb b); summary_height := 8; coinbase_value := 5000000000; summary_bits := bits; summary_mintime := 1 |}.
Definition example_turn (t : result Error Tip) (s : result Error TemplateSummary) : @Turn example_rpc_json :=
  {| turn_instant := 0; turn_unix := 1700000000; node_info := Err Transport; node_tip := t; node_template := s; node_waits := Ok 8;
     reread_is_due := false |}.

(** A tip, a failure, a new tip whose template is not read, and its template a turn later. *)
Definition example_turns : list (@Turn example_rpc_json) :=
  [example_turn (Ok (example_tip 1 7)) (Ok (example_summary 1 0x1d00ffff)); example_turn (Err Transport) (Err Transport);
   example_turn (Ok (example_tip 2 8)) (Err Transport); example_turn (Ok (example_tip 2 8)) (Ok (example_summary 2 0x1d00ffff))].

Lemma node_watch_keeps_up_witness :
  let '(w, trace) := @watch example_rpc_json example_rpc_rest (Some Regtest) watch_new example_turns in
  announced (None, None) trace = work_of (view w) /\ sized_to None trace = due_difficulty (view w) /\
  work_of (view w) = (Some (replicate 32 (zb 2)), Some 0x1d00ffff).
Proof.
  pose proof (@node_watch_keeps_up example_rpc_json example_rpc_rest (fun _ => f64_of_Z 5) (Some Regtest) example_turns) as Hk.
  destruct (@watch _ _ _ _ example_turns) as [w trace] eqn:E. destruct Hk as (Ha & Hd & _).
  - intros a t Hin Ht. unfold example_turns in Hin. rewrite !elem_of_cons in Hin.
    by destruct Hin as [->|[->|[->|[->|Hin]]]]; [injection Ht as <-|discriminate Ht|injection Ht as <-|injection Ht as <-|apply not_elem_of_nil in Hin].
  - split_and!; [exact Ha|exact Hd|]. vm_compute in E. injection E as <- <-. by vm_compute.
Defined.

(** A reader may be given a tip with the template of another: a block that arrives between
    the two calls of a turn puts its template beside the tip before it, and where the node
    then goes back to that tip the pair stays, since a template is read anew only with a
    new tip. *)
Lemma tip_and_template_of_two_blocks :
  let turns := [example_turn (Ok (example_tip 1 7)) (Ok (example_summary 2 0x1d00ffff));
                example_turn (Ok (example_tip 1 7)) (Ok (example_summary 1 0x1d00ffff))] in
  let v := view (@watch example_rpc_json example_rpc_rest (Some Regtest) watch_new turns).1 in
  exists t s, tip_and_template v = (Some t, Some s) /\ prev_hash s <> tip_hash t.
Proof. eexists _, _. split; [by vm_compute|]. by vm_compute. Qed.
