(* ===== verification/Admin.v ===== *)
(** The operator's ledger commands ([prime/src/admin.rs]): listing and settling what a block
    owes, voiding a block's records, recording amounts owed by hand and printing the shares.
    What a command prints is written out; the words of a refusal are left out, and what it
    was refused for is kept. The snapshot is an argument, its file not modelled. *)
From S2P Require Import Prelude Text Hex Address Window Rows Blocks.

Inductive Command :=
| SettleBlock (arg : bytes) | VoidBlock (arg : bytes) | RecordOwed (arg : bytes) (entries : list bytes)
| DumpLedger | Snapshot (path : bytes).

(** The options a ledger command is named by ([cli.rs]), and whether it is to run on the
    file. *)
Record Options := {
  dump_ledger : bool; settle_block_opt : option bytes; void_block_opt : option bytes; record_owed_opt : option bytes;
  owed_opt : list bytes; snapshot_opt : option bytes; offline : bool;
}.

(** [Command::from_options]; [absolute] is the path made absolute. *)
Definition from_options (absolute : bytes -> bytes) (o : Options) : option Command :=
  if dump_ledger o then Some DumpLedger else
  match settle_block_opt o with Some arg => Some (SettleBlock arg) | None =>
  match void_block_opt o with Some arg => Some (VoidBlock arg) | None =>
  match record_owed_opt o with Some arg => Some (RecordOwed arg (owed_opt o)) | None =>
  (fun path => Snapshot (absolute path)) <$> snapshot_opt o end end end.

(** Why a command is refused as given. *)
Inductive Refusal :=
| BadHash (arg : bytes) | NoBlock (arg : bytes) | HasOwed (arg : bytes) | BadOwed (entry : bytes) | NoEntries
| OverPaid (total paid : Z) | NotRead (arg : bytes) | NotStored (arg : bytes) (at_ : Z)
| NotOnBestChain (arg : bytes) (at_ confirmations : Z) | NothingOwed (arg : bytes) | NothingRecorded (arg : bytes)
| SnapshotRefused (path : bytes).

Inductive Failure := Usage (why : Refusal) | FailedIo.

Definition USAGE_EXIT : Z := 2.
Definition exit_code (f : Failure) : Z := match f with Usage _ => USAGE_EXIT | FailedIo => 1 end.

Definition block_hash_arg (arg : bytes) : result Failure bytes :=
  ok_or (Usage (BadHash arg)) (v ← hex_decode arg; if (length v =? 32)%nat then Some v else None).

Definition on_best_chain (s : ConfirmationReading) : bool := 0 <=? confirmations s.

Definition confirmations_text (state : option ConfirmationReading) : bytes :=
  match state with
  | Some s =>
    if on_best_chain s then text " " ++ decimal (confirmations s) ++ text " confirmations"
    else if negb (node_stores_block s) then text " NOT STORED BY THE NODE as of " ++ decimal (checked_at s)
    else text " NOT ON THE BEST CHAIN as of " ++ decimal (checked_at s)
  | None => text " not yet read from the node"
  end.

Definition owed_text (o : OwedBlock) (state : option ConfirmationReading) : bytes :=
  let status := match settled_at o with Some at_ => text "settled at " ++ decimal at_ | None => text "unsettled" end in
  text "height " ++ decimal (owed_height o) ++ text " block " ++ hex_encode (owed_block_hash o) ++ text " found " ++
  decimal (owed_found_at o) ++ text " total " ++ decimal (owed_total o) ++ text " sats " ++ status ++ confirmations_text state ++ [LF] ++
  mjoin ((fun p => text "  " ++ payout_identity p ++ text " " ++ decimal (sats p) ++ [LF]) <$> owed_entries o).

Definition EQUALS : byte := zb 0x3d.

(** Why the owed record of a block may not be settled at its last reading. *)
Definition settle_refusal (arg : bytes) (state : option ConfirmationReading) : option Refusal :=
  match state with
  | None => Some (NotRead arg)
  | Some s =>
    if negb (node_stores_block s) then Some (NotStored arg (checked_at s))
    else if negb (on_best_chain s) then Some (NotOnBestChain arg (checked_at s) (confirmations s))
    else None
  end.

Section commands.
Context `{KvTable}.

Fixpoint owed_entries_of (entries : list bytes) (parsed : list Payout) : result Failure (list Payout) :=
  match entries with
  | [] => if bool_decide (parsed = []) then Err (Usage NoEntries) else Ok parsed
  | entry :: entries =>
    match split_once EQUALS entry with
    | Some (id, sats) =>
      let id := str_trim id in
      match parse_uint 64 (str_trim sats) with
      | Some sats =>
        if negb (bool_decide (id = [])) && (0 <? sats)
        then owed_entries_of entries (parsed ++ [{| payout_identity := canonical id; sats := sats |}])
        else Err (Usage (BadOwed entry))
      | None => Err (Usage (BadOwed entry))
      end
    | None => Err (Usage (BadOwed entry))
    end
  end.

(** A command on the records: what it leaves of them, prints and returns. [commits] is
    whether the database commits what it writes. *)
Definition Outcome : Type := BlockRecords * bytes * result Failure ().

Definition find_owed (r : BlockRecords) (hash : bytes) : option OwedBlock :=
  List.find (fun o => bool_decide (owed_block_hash o = hash)) (owed r).

Definition record_owed_command (r : BlockRecords) (arg : bytes) (entries : list bytes) (commits : bool) : Outcome :=
  match block_hash_arg arg with
  | Err e => (r, [], Err e)
  | Ok hash =>
    match block r hash with
    | None => (r, [], Err (Usage (NoBlock arg)))
    | Some b =>
      match find_owed r hash with
      | Some existing => (r, owed_text existing (readings r !! hash), Err (Usage (HasOwed arg)))
      | None =>
        match owed_entries_of entries [] with
        | Err e => (r, [], Err e)
        | Ok parsed =>
          let o := {| owed_found_at := block_found_at b; owed_height := block_height b; owed_block_hash := hash;
                      settled_at := None; owed_entries := parsed |} in
          let total := owed_total o in
          if paid_to_pool b <? total then (r, [], Err (Usage (OverPaid total (paid_to_pool b)))) else
          match record_owed r o commits with
          | (r, true) => (r, owed_text o (readings r !! hash), Ok ())
          | (r, false) => (r, [], Err FailedIo)
          end
        end
      end
    end
  end.

Definition settle_block (r : BlockRecords) (arg : bytes) (now : Z) (commits : bool) : Outcome :=
  if bool_decide (arg = text "list") then
    (r, (if bool_decide (owed r = []) then text "no owed blocks" ++ [LF] else []) ++
        mjoin ((fun o => owed_text o (readings r !! owed_block_hash o)) <$> owed r), Ok ())
  else
  match block_hash_arg arg with
  | Err e => (r, [], Err e)
  | Ok hash =>
    let state := readings r !! hash in
    match (o ← find_owed r hash; why ← settle_refusal arg state; Some (o, why)) with
    | Some (o, why) => (r, owed_text o state, Err (Usage why))
    | None =>
      match settle_owed r hash now commits with
      | (r, Some (Some o)) => (r, owed_text o state, Ok ())
      | (r, Some None) => (r, [], Err (Usage (NothingOwed arg)))
      | (r, None) => (r, [], Err FailedIo)
      end
    end
  end.

Definition void_command (r : BlockRecords) (arg : bytes) (commits : bool) : Outcome :=
  match block_hash_arg arg with
  | Err e => (r, [], Err e)
  | Ok hash =>
    let state := readings r !! hash in
    match void_block r hash commits with
    | (r, None) => (r, [], Err FailedIo)
    | (r, Some v) =>
      match voided_block v, voided_owed v with
      | None, None => (r, [], Err (Usage (NothingRecorded arg)))
      | b, o =>
        (r, from_option (fun b => text "removed block " ++ arg ++ text " at height " ++ decimal (block_height b) ++ text " found " ++
              decimal (block_found_at b) ++ text " from the block history" ++ confirmations_text state ++ [LF]) [] b ++
            from_option (fun o => text "removed its owed record:" ++ [LF] ++ owed_text o state) [] o, Ok ())
      end
    end
  end.

(** ** The commands run *)

(** What a command reads and writes: the records, the shares stored, where the file opens,
    and what writing a snapshot prints. *)
Record Access := {
  access_records : option BlockRecords;
  access_shares : option (list Share);
  access_snapshot : bytes -> result Failure (list bytes);
}.

(** The pieces a line of [--dump-ledger] is written in. *)
Definition write_share (s : Share) : list bytes :=
  [decimal (share_accepted_at s); text " "; decimal (share_difficulty s); text " "; identity s; text " ";
   hex_encode (share_block_hash s); text " "; share_tag s; [LF]].

(** [execute]: the records after, the writes in order, and the result. *)
Definition execute (command : Command) (a : Access) (now : Z) (commits : bool) : option BlockRecords * list bytes * result Failure () :=
  match command with
  | DumpLedger =>
    match access_shares a with
    | None => (access_records a, [], Err FailedIo)
    | Some shares => (access_records a, mjoin (write_share <$> shares), Ok ())
    end
  | Snapshot path =>
    match access_snapshot a path with
    | Err e => (access_records a, [], Err e)
    | Ok printed => (access_records a, printed, Ok ())
    end
  | SettleBlock _ | VoidBlock _ | RecordOwed _ _ =>
    match access_records a with
    | None => (None, [], Err FailedIo)
    | Some r =>
      let '(r, printed, result) := match command with
        | SettleBlock arg => settle_block r arg now commits
        | VoidBlock arg => void_command r arg commits
        | RecordOwed arg entries => record_owed_command r arg entries commits
        | _ => (r, [], Ok ())
        end in
      (Some r, [printed], result)
    end
  end.
End commands.

(** ** What a command may change *)

Section changes.
Context `{KvTable}.

Lemma find_owed_some r h o : find_owed r h = Some o -> o ∈ owed r /\ owed_block_hash o = h.
Proof. intros [Hin%list_elem_of_In Hb]%List.find_some. split; [done|]. by apply bool_decide_eq_true in Hb. Qed.

Lemma find_owed_none r h o : find_owed r h = None -> o ∈ owed r -> owed_block_hash o <> h.
Proof. intros Hf Hin%list_elem_of_In Heq. apply (List.find_none _ _ Hf) in Hin. by rewrite bool_decide_eq_true_2 in Hin. Qed.

Lemma owed_entries_positive entries : forall parsed l, owed_entries_of entries parsed = Ok l ->
  Forall (fun p => 0 < sats p < 2 ^ 64 /\ payout_identity p = canonical (payout_identity p)) parsed ->
  l <> [] /\ Forall (fun p => 0 < sats p < 2 ^ 64 /\ payout_identity p = canonical (payout_identity p)) l.
Proof.
  induction entries as [|e es IH]; intros parsed l; cbn [owed_entries_of].
  - case_bool_decide; [done|]. by intros [= <-].
  - destruct (split_once EQUALS e) as [[id s]|]; [|done]. destruct (parse_uint 64 (str_trim s)) as [z|] eqn:Ez; [|done].
    destruct (_ && _) eqn:Hc; [|done]. intros Hr Hp. apply (IH _ _ Hr). apply Forall_app. split; [done|]. constructor; [|done]. cbn.
    split; [|symmetry; apply canonical_idemp]. apply andb_prop in Hc as [_ Hz]. split; [lia|].
    unfold parse_uint in Ez. case_bool_decide; [done|]. destruct (digits_value 0 _) as [v|]; [|done]. cbn in Ez.
    destruct (Z.ltb_spec v (2 ^ 64)); [|done]. by injection Ez as <-.
Qed.

(** What a debt held after a command is to the records before it. *)
Inductive from_before (r : BlockRecords) (now : Z) (o : OwedBlock) : Prop :=
| same_debt : o ∈ owed r -> from_before r now o
| settled_debt o0 s : o0 ∈ owed r -> settled_at o0 = None -> o = settled o0 now ->
    readings r !! owed_block_hash o0 = Some s -> node_stores_block s = true -> on_best_chain s = true -> from_before r now o
| recorded_debt b : block r (owed_block_hash o) = Some b -> (forall o2, o2 ∈ owed r -> owed_block_hash o2 <> owed_block_hash o) ->
    settled_at o = None -> owed_found_at o = block_found_at b -> owed_height o = block_height b ->
    owed_entries o <> [] -> Forall (fun p => 0 < sats p < 2 ^ 64 /\ payout_identity p = canonical (payout_identity p)) (owed_entries o) ->
    owed_total o <= paid_to_pool b -> from_before r now o.

Lemma record_owed_owed r o commits : let '(r2, _) := record_owed r o commits in owed r2 = owed r \/ owed r2 = owed r ++ [o].
Proof. unfold record_owed. destruct (is_some _); [by left|]. destruct (put _ _ _); [by right|by left]. Qed.

Lemma settle_owed_owed r h now commits : let '(r2, _) := settle_owed r h now commits in
  owed r2 = owed r \/ exists i o, owed_index r h = Some i /\ owed r !! i = Some o /\ settled_at o = None /\ owed r2 = <[i := settled o now]> (owed r).
Proof.
  unfold settle_owed. destruct (owed_index r h) as [i|]; [|by left]. cbn. destruct (owed r !! i) as [o|] eqn:Ho; [|by left]. cbn.
  destruct (settled_at o) eqn:Hs; [by left|]. cbn. destruct (put _ _ _); [|by left]. right. by exists i, o.
Qed.

Lemma void_block_owed r h commits o : let '(r2, _) := void_block r h commits in o ∈ owed r2 -> o ∈ owed r.
Proof.
  unfold void_block. destruct (_ && _); [done|]. destruct (put _ _ _); [|done]. cbn [owed].
  destruct (owed_index r h) as [i|]; [|done]. cbn [remove_at]. rewrite elem_of_app. intros [Hin|Hin];
    [by apply elem_of_take in Hin as (j & Hj%list_elem_of_lookup_2 & _)|apply list_elem_of_lookup_1 in Hin as [j Hj]; rewrite lookup_drop in Hj; by eapply list_elem_of_lookup_2].
Qed.

Lemma owed_index_find r h i o : owed_index r h = Some i -> owed r !! i = Some o -> find_owed r h = Some o.
Proof.
  unfold owed_index, find_owed. revert i. induction (owed r) as [|x l IH]; intros i; [done|]. cbn.
  destruct (bool_decide (owed_block_hash x = h)); [intros [= <-] [= ->]; done|].
  destruct (position _ l) as [j|]; [|done]. cbn. intros [= <-]. by apply IH.
Qed.

Lemma settle_owed_member r h now commits : let '(r2, _) := settle_owed r h now commits in forall o, o ∈ owed r2 ->
  o ∈ owed r \/ exists o0, find_owed r h = Some o0 /\ settled_at o0 = None /\ o = settled o0 now.
Proof.
  pose proof (settle_owed_owed r h now commits) as Hs. destruct (settle_owed r h now commits) as [r2 x]. intros o Ho.
  destruct Hs as [Heq|(i & o0 & Hi & Hl & Hn & Heq)]; rewrite Heq in Ho; [by left|].
  apply list_elem_of_lookup_1 in Ho as [j Hj]. apply list_lookup_insert_Some in Hj as [(_ & <- & _)|[_ Hj]].
  - right. exists o0. split_and!; [by apply (owed_index_find _ _ i)|done..].
  - left. by eapply list_elem_of_lookup_2.
Qed.

Lemma settle_block_change r arg now commits : let '(r2, _, _) := settle_block r arg now commits in forall o, o ∈ owed r2 -> from_before r now o.
Proof.
  unfold settle_block. destruct (bool_decide (arg = text "list")); [by intros o Ho; apply same_debt|].
  destruct (block_hash_arg arg) as [h|e]; [|by intros o Ho; apply same_debt].
  destruct (o ← find_owed r h; why ← settle_refusal arg (readings r !! h); Some (o, why)) as [[o why]|] eqn:E; [by intros o2 Ho; apply same_debt|].
  pose proof (settle_owed_member r h now commits) as Hs. destruct (settle_owed r h now commits) as [r2 x].
  assert (forall o, o ∈ owed r2 -> from_before r now o) as Hall; [|by destruct x as [[o|]|]].
  intros o Ho. destruct (Hs o Ho) as [|(o0 & Hf & Hn & ->)]; [by apply same_debt|].
  rewrite Hf in E. cbn [mbind option_bind] in E. apply find_owed_some in Hf as [Hin Hh]. unfold settle_refusal in E. rewrite <- Hh in E.
  destruct (readings r !! owed_block_hash o0) as [s|] eqn:Es; [|done].
  destruct (node_stores_block s) eqn:Hst; [|done]. cbn [negb] in E. destruct (on_best_chain s) eqn:Hb; [|done].
  by eapply settled_debt.
Qed.

Lemma record_owed_change r arg entries now commits : let '(r2, _, _) := record_owed_command r arg entries commits in
  forall o, o ∈ owed r2 -> from_before r now o.
Proof.
  unfold record_owed_command. destruct (block_hash_arg arg) as [h|e]; [|by intros o Ho; apply same_debt].
  destruct (block r h) as [b|] eqn:Hb; [|by intros o Ho; apply same_debt]. destruct (find_owed r h) as [x|] eqn:Hf; [by intros o Ho; apply same_debt|].
  destruct (owed_entries_of entries []) as [l|e] eqn:El; [|by intros o Ho; apply same_debt]. cbv zeta.
  set (o1 := {| owed_found_at := _ |}). destruct (Z.ltb_spec (paid_to_pool b) (owed_total o1)) as [|Hpaid]; [by intros o Ho; apply same_debt|].
  pose proof (record_owed_owed r o1 commits) as Hr. destruct (record_owed r o1 commits) as [r2 x].
  assert (forall o, o ∈ owed r2 -> from_before r now o) as Hall; [|by destruct x].
  intros o Ho. destruct Hr as [Heq|Heq]; rewrite Heq in Ho; [by apply same_debt|].
  apply elem_of_app in Ho as [Ho|Ho%list_elem_of_singleton]; [by apply same_debt|]. subst o.
  destruct (owed_entries_positive _ _ _ El ltac:(done)). eapply recorded_debt; try done. intros o2 Ho2. by eapply find_owed_none.
Qed.

Lemma void_change r arg now commits : let '(r2, _, _) := void_command r arg commits in forall o, o ∈ owed r2 -> from_before r now o.
Proof.
  unfold void_command. destruct (block_hash_arg arg) as [h|e]; [|by intros o Ho; apply same_debt].
  assert (forall o, let '(r2, _) := void_block r h commits in o ∈ owed r2 -> o ∈ owed r) as Hv by (intros o; apply void_block_owed).
  destruct (void_block r h commits) as [r2 [v|]]; [|intros o Ho; apply same_debt; by apply Hv].
  destruct (voided_block v), (voided_owed v); intros x Hx; apply same_debt; by apply Hv.
Qed.
End changes.

(** C36: The operator's commands pay only for blocks the chain holds. After any ledger
    command, run in the pool or on the file, whether or not its write commits, every debt
    held is one held before; or one that was unsettled, settled now, whose block the
    node's last reading placed on its best chain; or one recorded now by hand for a block
    the pool found that had none, its entries positive amounts to identities as the window
    keys them, and its total, as 64 bits hold it, within what the coinbase paid. Nothing else
    is added, and no debt is changed in any other way. *)
Theorem commands_keep_the_debts `{KvTable} (command : Command) (a : Access) (now : Z) (commits : bool)
    (r r2 : BlockRecords) (printed : list bytes) (res : result Failure ()) :
  access_records a = Some r -> execute command a now commits = (Some r2, printed, res) ->
  forall o, o ∈ owed r2 -> from_before r now o.
Proof.
  intros Hr. destruct command as [arg|arg|arg entries| |path]; cbn [execute]; rewrite ?Hr.
  - pose proof (settle_block_change r arg now commits) as Hc. destruct (settle_block r arg now commits) as [[r3 p] x]. by intros [= <- _ _].
  - pose proof (void_change r arg now commits) as Hc. destruct (void_command r arg commits) as [[r3 p] x]. by intros [= <- _ _].
  - pose proof (record_owed_change r arg entries now commits) as Hc. destruct (record_owed_command r arg entries commits) as [[r3 p] x]. by intros [= <- _ _].
  - destruct (access_shares a) as [shares|]; intros [= <- _ _] x Hx; by apply same_debt.
  - destruct (access_snapshot a path) as [w|e]; intros [= <- _ _] x Hx; by apply same_debt.
Qed.

(** ** The same records in another order

    A pool keeps its blocks and debts in the order they came, and reading its tables back
    sorts them: what a command does with a block does not depend on it. *)

Section views.
Context `{KvTable}.

Record same_records (r r2 : BlockRecords) : Prop := {
  sr_db : db r2 = db r;
  sr_blocks : blocks r ≡ₚ blocks r2;
  sr_owed : owed r ≡ₚ owed r2;
  sr_readings : readings r2 = readings r;
  sr_once : NoDup (found_block_hash <$> blocks r) /\ NoDup (owed_block_hash <$> owed r);
}.

Lemma keyed_perm {A} (key : A -> bytes) (l k : list A) h : l ≡ₚ k -> NoDup (key <$> l) ->
  index_of_key key h l ≫= (fun i => l !! i) = index_of_key key h k ≫= (fun i => k !! i).
Proof.
  intros Hp Hnd. assert (NoDup (key <$> k)) as Hnd2 by by rewrite <- Hp.
  apply option_eq. intros a. rewrite !(keyed_lookup key) by done. by rewrite Hp.
Qed.

Lemma index_perm {A} (key : A -> bytes) (l k : list A) h : l ≡ₚ k -> NoDup (key <$> l) ->
  is_some (index_of_key key h l) = is_some (index_of_key key h k).
Proof.
  intros Hp Hnd. pose proof (keyed_perm key l k h Hp Hnd) as E.
  destruct (index_of_key key h l) as [i|] eqn:Hi, (index_of_key key h k) as [j|] eqn:Hj; try done; cbn in E.
  - destruct (position_Some _ _ _ Hi) as (a & Ha & _). congruence.
  - destruct (position_Some _ _ _ Hj) as (a & Ha & _). congruence.
Qed.

Lemma remove_perm {A} (key : A -> bytes) (l k : list A) h : l ≡ₚ k -> NoDup (key <$> l) ->
  remove_at (index_of_key key h l) l ≡ₚ remove_at (index_of_key key h k) k /\
  NoDup (key <$> remove_at (index_of_key key h l) l).
Proof.
  intros Hp Hnd. assert (NoDup (key <$> k)) as Hnd2 by by rewrite <- Hp.
  destruct (remove_at_key key l h Hnd) as [N1 E1]. destruct (remove_at_key key k h Hnd2) as [N2 E2].
  split; [|done]. apply NoDup_Permutation; [by eapply NoDup_fmap_1|by eapply NoDup_fmap_1|].
  intros a. by rewrite E1, E2, Hp.
Qed.

Lemma insert_perm {A} (l k : list A) i j a b : l ≡ₚ k -> l !! i = Some a -> k !! j = Some a -> <[i := b]> l ≡ₚ <[j := b]> k.
Proof.
  intros Hp Hi Hj. pose proof (take_drop_middle l i a Hi) as El. pose proof (take_drop_middle k j a Hj) as Ek.
  rewrite <- El, <- Ek in Hp. apply Permutation_app_inv in Hp.
  rewrite !insert_take_drop by (by eapply lookup_lt_Some). by rewrite <- !Permutation_middle, Hp.
Qed.

Lemma block_same r r2 h : same_records r r2 -> block r2 h = block r h.
Proof. intros [_ Hb _ _ [Hn _]]. rewrite !block_eq. symmetry. by apply keyed_perm. Qed.

Lemma owed_same r r2 h : same_records r r2 ->
  index_of_key owed_block_hash h (owed r) ≫= (fun i => owed r !! i) =
  index_of_key owed_block_hash h (owed r2) ≫= (fun i => owed r2 !! i) /\
  is_some (owed_index r h) = is_some (owed_index r2 h).
Proof. intros [_ _ Ho _ [_ Hn]]. split; [by apply keyed_perm|by apply index_perm]. Qed.

Lemma find_owed_eq r h : find_owed r h = index_of_key owed_block_hash h (owed r) ≫= (fun i => owed r !! i).
Proof.
  unfold find_owed, index_of_key. induction (owed r) as [|o l IH]; [done|]. cbn.
  destruct (bool_decide (owed_block_hash o = h)); [done|]. rewrite IH. by destruct (position _ l).
Qed.

Lemma find_owed_same r r2 h : same_records r r2 -> find_owed r2 h = find_owed r h.
Proof. intros Hs. rewrite !find_owed_eq. symmetry. by apply (owed_same r r2 h Hs). Qed.

Lemma record_owed_same r r2 o commits : same_records r r2 ->
  (record_owed r2 o commits).2 = (record_owed r o commits).2 /\
  same_records (record_owed r o commits).1 (record_owed r2 o commits).1 /\
  readings (record_owed r o commits).1 = readings r.
Proof.
  intros Hs. destruct (owed_same r r2 (owed_block_hash o) Hs) as [_ Hi]. unfold record_owed. rewrite <- Hi.
  destruct (owed_index r (owed_block_hash o)) eqn:E; cbn [is_some]; [done|]. rewrite (sr_db _ _ Hs).
  destruct (put (db r) (put_owed o) commits) as [d|]; [|done]. cbn. split_and!; [done| |done].
  destruct Hs as [_ Hb Ho Hr [Hn1 Hn2]]. split; cbn; [done|done|by rewrite Ho|done|]. split; [done|].
  rewrite fmap_app. apply NoDup_app. split_and!; [done| |apply NoDup_singleton].
  intros x Hx ->%list_elem_of_singleton. by apply (index_of_key_None owed_block_hash) in E.
Qed.

Lemma settle_owed_same r r2 h t commits : same_records r r2 ->
  (settle_owed r2 h t commits).2 = (settle_owed r h t commits).2 /\
  same_records (settle_owed r h t commits).1 (settle_owed r2 h t commits).1.
Proof.
  intros Hs. pose proof Hs as [Hd Hb Ho Hr [Hn1 Hn2]]. destruct (owed_same r r2 h Hs) as [E _]. unfold settle_owed, owed_index.
  fold (index_of_key owed_block_hash h (owed r)) (index_of_key owed_block_hash h (owed r2)).
  destruct (index_of_key owed_block_hash h (owed r)) as [i|] eqn:Ei, (index_of_key owed_block_hash h (owed r2)) as [j|] eqn:Ej; cbn in E |- *.
  2:{ destruct (position_Some _ _ _ Ei) as (a & Ha & _). congruence. }
  2:{ destruct (position_Some _ _ _ Ej) as (a & Ha & _). congruence. }
  2: done.
  destruct (position_Some _ _ _ Ei) as (o & Hi & _). rewrite <- E, Hi. cbn. destruct (settled_at o); cbn [is_some]; [done|].
  rewrite Hd. destruct (put _ _ _) as [d|]; [|done]. cbn. split; [done|]. rewrite Hi in E. symmetry in E.
  split; cbn; [done|done|by eapply insert_perm|done|]. split; [done|].
  rewrite list_fmap_insert, list_insert_id; [done|]. by rewrite list_lookup_fmap, Hi.
Qed.

Lemma void_block_same r r2 h commits : same_records r r2 ->
  (void_block r2 h commits).2 = (void_block r h commits).2 /\
  same_records (void_block r h commits).1 (void_block r2 h commits).1.
Proof.
  intros Hs. pose proof Hs as [Hd Hb Ho Hr [Hn1 Hn2]]. destruct (owed_same r r2 h Hs) as [Eo Io].
  pose proof (keyed_perm found_block_hash _ _ h Hb Hn1) as Eb. pose proof (index_perm found_block_hash _ _ h Hb Hn1) as Ib.
  destruct (remove_perm found_block_hash _ _ h Hb Hn1) as [Pb Nb]. destruct (remove_perm owed_block_hash _ _ h Ho Hn2) as [Po No].
  unfold void_block, owed_index in *. fold (index_of_key owed_block_hash h (owed r)) (index_of_key owed_block_hash h (owed r2)) in *.
  change (position _ (blocks r)) with (index_of_key found_block_hash h (blocks r)).
  change (position _ (blocks r2)) with (index_of_key found_block_hash h (blocks r2)).
  rewrite <- Ib, <- Io, Hr. destruct (_ && _); [done|]. rewrite Hd. destruct (put _ _ _) as [d|]; [|done].
  cbn [fst snd]. rewrite <- Eb, <- Eo. split; [done|]. by split.
Qed.

(** What two runs of a command do: the same output and result, and the same records. *)
Definition same_outcome (x y : Outcome) : Prop := y.1.2 = x.1.2 /\ y.2 = x.2 /\ same_records x.1.1 y.1.1.

Lemma record_owed_command_same r r2 arg entries commits : same_records r r2 ->
  same_outcome (record_owed_command r arg entries commits) (record_owed_command r2 arg entries commits).
Proof.
  intros Hs. unfold record_owed_command. destruct (block_hash_arg arg) as [h|]; [|by split_and!].
  rewrite (block_same _ _ _ Hs), (find_owed_same _ _ _ Hs). destruct (block r h) as [b|]; [|by split_and!].
  rewrite (sr_readings _ _ Hs). destruct (find_owed r h); [by split_and!|]. destruct (owed_entries_of _ _) as [parsed|]; [|by split_and!].
  cbn zeta. set (o := {| owed_found_at := _ |}). destruct (_ <? _); [by split_and!|].
  destruct (record_owed_same r r2 o commits Hs) as (E & Hs2 & Hr). pose proof (sr_readings _ _ Hs2) as Hr2.
  destruct (record_owed r o commits) as [r' []], (record_owed r2 o commits) as [r2' []]; cbn in E, Hs2, Hr, Hr2; try done;
    split_and!; cbn; try done; by rewrite ?Hr2.
Qed.

Lemma settle_block_same r r2 arg now commits : same_records r r2 -> arg <> text "list" ->
  same_outcome (settle_block r arg now commits) (settle_block r2 arg now commits).
Proof.
  intros Hs Ha. unfold settle_block. rewrite !(bool_decide_eq_false_2 (arg = _)) by done.
  destruct (block_hash_arg arg) as [h|]; [|by split_and!]. cbn zeta. rewrite (find_owed_same _ _ _ Hs), (sr_readings _ _ Hs).
  destruct (_ ← find_owed r h; _) as [[o why]|]; [by split_and!|].
  destruct (settle_owed_same r r2 h now commits Hs) as [E Hs2].
  destruct (settle_owed r h now commits) as [r' [[o|]|]], (settle_owed r2 h now commits) as [r2' [[o2|]|]]; cbn in E, Hs2; simplify_eq; by split_and!.
Qed.

Lemma void_command_same r r2 arg commits : same_records r r2 ->
  same_outcome (void_command r arg commits) (void_command r2 arg commits).
Proof.
  intros Hs. unfold void_command. destruct (block_hash_arg arg) as [h|]; [|by split_and!]. cbn zeta. rewrite (sr_readings _ _ Hs).
  destruct (void_block_same r r2 h commits Hs) as [E Hs2].
  destruct (void_block r h commits) as [r' [v|]], (void_block r2 h commits) as [r2' [v2|]]; cbn in E, Hs2; simplify_eq; [|by split_and!].
  destruct (voided_block v), (voided_owed v); by split_and!.
Qed.

(** The pool's ledger and its file, each as a command reads it. *)
Record same_access (a b : Access) : Prop := {
  sa_records : match access_records a, access_records b with
               | Some r, Some r2 => same_records r r2 | None, None => True | _, _ => False end;
  sa_shares : access_shares b = access_shares a;
  sa_snapshot : forall path, access_snapshot b path = access_snapshot a path;
}.

Lemma execute_same c a b now commits : same_access a b -> c <> SettleBlock (text "list") ->
  (execute c b now commits).1.2 = (execute c a now commits).1.2 /\ (execute c b now commits).2 = (execute c a now commits).2 /\
  match (execute c a now commits).1.1, (execute c b now commits).1.1 with
  | Some r, Some r2 => same_records r r2 | None, None => True | _, _ => False end.
Proof.
  intros [Hr Hsh Hsn] Hc. destruct c as [arg|arg|arg entries| |path]; cbn [execute].
  4: { rewrite Hsh. destruct (access_shares a); by split_and!. }
  4: { rewrite Hsn. destruct (access_snapshot a path); by split_and!. }
  all: destruct (access_records a) as [r|], (access_records b) as [r2|]; try done.
  - destruct (settle_block_same r r2 arg now commits Hr ltac:(congruence)) as (E1 & E2 & E3).
    destruct (settle_block r arg now commits) as [[x y] z], (settle_block r2 arg now commits) as [[x2 y2] z2]. cbn in *. by subst.
  - destruct (void_command_same r r2 arg commits Hr) as (E1 & E2 & E3).
    destruct (void_command r arg commits) as [[x y] z], (void_command r2 arg commits) as [[x2 y2] z2]. cbn in *. by subst.
  - destruct (record_owed_command_same r r2 arg entries commits Hr) as (E1 & E2 & E3).
    destruct (record_owed_command r arg entries commits) as [[x y] z], (record_owed_command r2 arg entries commits) as [[x2 y2] z2]. cbn in *. by subst.
Qed.

(** A file the pool has written, read back. *)
Lemma reopened_same r t : records_ok r t -> same_records r (open t).
Proof.
  intros Hr. destruct (open_reads_back r t Hr) as (Hb & Ho & Hc). pose proof Hr as [Hdb [Hn1 _] [Hn2 _] _ _ _ _].
  split; [by rewrite Hdb|by rewrite Hb|by rewrite Ho|done|done].
Qed.
End views.

(** ** Examples, and what the sums and lengths do not hold *)

Definition example_admin_block : FoundBlock :=
  {| block_found_at := 1750000000; block_height := 7; found_block_hash := replicate 32 (zb 0xab); paid_to_split := 0; paid_to_pool := 500;
     finder := text "a"; block_tag := []; network_difficulty_bits := 0; cumulative_work_then := 1 |}.
Definition example_admin_records : @BlockRecords example_kv :=
  {| db := None; blocks := [example_admin_block]; owed := []; readings := {[replicate 32 (zb 0xab) := {| checked_at := 5; confirmations := 3 |}]} |}.
Definition example_hash_arg : bytes := mjoin (replicate 32 (text "ab")).

(** Recorded by hand, then settled. *)
Definition example_access (r : @BlockRecords example_kv) : @Access example_kv :=
  {| access_records := Some r; access_shares := None; access_snapshot := fun _ => Err FailedIo |}.
Definition example_recorded : @BlockRecords example_kv :=
  (record_owed_command example_admin_records example_hash_arg [text "bob = 300"] true).1.1.
Definition example_settle : option (@BlockRecords example_kv) * list bytes * result Failure () :=
  execute (SettleBlock example_hash_arg) (example_access example_recorded) 1750000900 true.

Definition example_printed : bytes :=
  text "height 7 block abababababababababababababababababababababababababababababababab found 1750000000 total 300 sats settled at 1750000900 3 confirmations" ++ [LF] ++
  text "  bob 300" ++ [LF].

Lemma commands_keep_the_debts_witness :
  exists r2, example_settle = (Some r2, [example_printed], Ok ()) /\ forall o, o ∈ owed r2 -> from_before example_recorded 1750000900 o.
Proof.
  assert (is_some example_settle.1.1 = true) as Hs by by vm_compute.
  assert (example_settle.1.2 = [example_printed]) as Hp by by vm_compute. assert (example_settle.2 = Ok ()) as Hr by by vm_compute.
  destruct example_settle as [[[r2|] p] x] eqn:E; [|done]. exists r2. split; [by rewrite <- Hp, <- Hr|].
  exact (commands_keep_the_debts (SettleBlock example_hash_arg) (example_access example_recorded) 1750000900 true _ _ _ _ eq_refl E).
Defined.

(** The total of the amounts recorded by hand is that of 64 bits, so amounts far past what
    the coinbase paid are taken where they add up past it. *)
Lemma recorded_total_wraps :
  (@record_owed_command example_kv example_admin_records example_hash_arg
    [text "alice=9223372036854775808"; text "bob=9223372036854775809"] true).2 = Ok ().
Proof. by vm_compute. Qed.

(** An identity of 65536 bytes or more is recorded, and its row does not read back: its
    length is written in 16 bits. *)
Definition long_identity : bytes := replicate (256 * 256) (zb 0x61).
Definition example_long : @BlockRecords example_kv * bytes * result Failure () :=
  record_owed_command example_admin_records example_hash_arg [long_identity ++ text "=300"] true.

Lemma recorded_identity_does_not_read_back :
  example_long.2 = Ok () /\
  forallb (fun o => zlen (mjoin (payout_identity <$> owed_entries o)) =? 65536) (owed example_long.1.1) = true /\
  existsb (fun o => from_option (fun o2 => zlen (mjoin (payout_identity <$> owed_entries o2)) =? 65536) false
    (unpack_owed (owed_block_hash o) (pack_owed o))) (owed example_long.1.1) = false.
Proof. split_and!; by vm_compute. Qed.
