(* ===== verification/Control.v ===== *)
(** The control socket ([prime/src/control.rs], with [run_to] of [admin.rs]): a ledger
    command sent to the running pool, run there, and its output and exit code brought back,
    or run on the ledger file where no pool answers. The JSON of a line is [serde_json]'s,
    a class; the socket file and the time limits are left out. *)
From S2P Require Import Prelude Text Utf8 Rows Blocks Admin.

Definition PROTOCOL_VERSION : Z := 1.
Definition MAX_REQUEST_LEN : nat := 1024 * 1024.
Definition MAX_CONNECTIONS : Z := 4.
Definition OUT_CHUNK_LEN : nat := 64 * 1024.

Record Request := { version : Z; command : Command }.
Inductive Reply := OutLine (out : bytes) | ExitLine (exit : Z) (err : bytes).

(** [serde_json] of a request and of a reply: a request that has no JSON, its path not
    UTF-8, has none. *)
Class ControlJson := {
  request_json : Request -> option bytes;
  read_request_json : bytes -> option Request;
  reply_json : Reply -> bytes;
  read_reply_json : bytes -> option Reply;
}.

(** Its texts are one line of UTF-8, and are read as what was written, a reply with the end
    of line after it. *)
Class ControlJsonLaws `{!ControlJson} := {
  request_json_line r t : request_json r = Some t -> LF ∉ t;
  request_json_read r t : request_json r = Some t -> read_request_json t = Some r;
  reply_json_line r : LF ∉ reply_json r;
  reply_json_utf8 r : valid_utf8 (reply_json r) = true;
  reply_json_read r : read_reply_json (reply_json r ++ [LF]) = Some r;
}.

(** ** The pool's side *)

Inductive RequestError := TimedOut | TooLong | Malformed.

(** [read_request_line] of what the client sends, and whether it then closes its side. *)
Definition read_request_line (sent : bytes) (closed : bool) : result RequestError bytes :=
  let limit := S MAX_REQUEST_LEN in
  let s := take limit sent in
  match split_once LF s with
  | Some (line, _) => Ok line
  | None => if (limit <=? length s)%nat then Err TooLong else if closed then Ok s else Err TimedOut
  end.

(** [Slot::take] of the connections held: the count, and whether the slot is one. *)
Definition slot_take (held : Z) : Z * bool := (held + 1, held <? MAX_CONNECTIONS).

(** [ChunkedOut]: the text not yet sent, the lines sent, and the first line printed. *)
Record ChunkedOut := { pending : bytes; lines : list Reply; first_line : option bytes }.

Definition chunked_new : ChunkedOut := {| pending := []; lines := []; first_line := None |}.

(** [str::lines]: a line ends at a line feed, which a carriage return may precede. *)
Definition first_line_of (t : bytes) : bytes :=
  match split_once LF t with
  | Some (l, _) => match last l with Some b => if bool_decide (b = CR) then take (length l - 1) l else l | None => l end
  | None => t
  end.

Definition send_chunk (c : ChunkedOut) : ChunkedOut :=
  if bool_decide (pending c = []) then c else
  let t := from_utf8_lossy (pending c) in
  {| pending := []; lines := lines c ++ [OutLine t]; first_line := Some (default (first_line_of t) (first_line c)) |}.

Definition write_chunk (c : ChunkedOut) (b : bytes) : ChunkedOut :=
  let c := {| pending := pending c ++ b; lines := lines c; first_line := first_line c |} in
  if (OUT_CHUNK_LEN <=? length (pending c))%nat then send_chunk c else c.

Section control.
Context `{KvTable} `{!ControlJson}.

(** The words of a failure, and of what else the pool refuses a connection for. *)
Context (message : Failure -> bytes) (too_many : bytes) (bad_request : RequestError -> bytes) (other_version : Z -> bytes).

Definition encode (r : Reply) : bytes := reply_json r ++ [LF].

(** [serve_connection]: the records after, and the lines sent. *)
Definition serve_connection (taken : bool) (sent : bytes) (closed : bool) (a : Access) (now : Z) (commits : bool)
    : option BlockRecords * list Reply :=
  if negb taken then (access_records a, [ExitLine 1 too_many]) else
  match (line ← read_request_line sent closed; ok_or Malformed (read_request_json line)) with
  | Err why => (access_records a, [ExitLine 1 (bad_request why)])
  | Ok request =>
    if negb (version request =? PROTOCOL_VERSION) then (access_records a, [ExitLine 1 (other_version (version request))]) else
    let '(records, writes, result) := execute (command request) a now commits in
    let out := send_chunk (foldl write_chunk chunked_new writes) in
    (records, lines out ++ [match result with Ok _ => ExitLine 0 [] | Err f => ExitLine (exit_code f) (message f) end])
  end.

(** ** The client's side *)

(** What a process has written to its stdout and stderr, and how it ends: its exit code, or
    an error of its own. *)
Record Terminal := { stdout : bytes; stderr : bytes }.

Definition say (t : Terminal) (line : bytes) : Terminal := {| stdout := stdout t; stderr := stderr t ++ line ++ [LF] |}.
Definition show (t : Terminal) (out : bytes) : Terminal := {| stdout := stdout t ++ out; stderr := stderr t |}.

Inductive ClientError := NotEncoded | ClosedBeforeAnswer | Unreadable | ConnectFailed | FileFailed.

(** [BufReader::read_line]: a line with the end it has, and what follows it. *)
Definition read_line (s : bytes) : bytes * bytes :=
  match split_once LF s with Some (l, rest) => (l ++ [LF], rest) | None => (s, []) end.

(** The loop of [send] over what the pool sends until it closes; every line takes a byte. *)
Fixpoint read_replies (fuel : nat) (s : bytes) (t : Terminal) : Terminal * result ClientError Z :=
  match fuel with
  | O => (t, Err ClosedBeforeAnswer)
  | S fuel =>
    let '(line, rest) := read_line s in
    if bool_decide (line = []) then (t, Err ClosedBeforeAnswer) else
    if negb (valid_utf8 line) then (t, Err Unreadable) else
    match read_reply_json line with
    | Some (OutLine out) => read_replies fuel rest (show t out)
    | Some (ExitLine exit err) => ((if bool_decide (err = []) then t else say t err), Ok exit)
    | None => (t, Err Unreadable)
    end
  end.

(** What the client meets at the socket. *)
Inductive Connection := Connected (taken : bool) | NoPool (why : bytes) | ConnectError.

(** The ledger as a running pool holds it ([PoolLedger]) and as its file opens
    ([FileLedger]), and the records of each after a command. *)
Record Ledgers := { pool_ledger : Access; file_ledger : Access }.
Record After := { pool_records : option BlockRecords; file_records : option BlockRecords }.
Definition untouched (l : Ledgers) : After :=
  {| pool_records := access_records (pool_ledger l); file_records := access_records (file_ledger l) |}.

(** [run_offline]: the records after, and the exit code or the file's failure. *)
Definition run_offline (c : Command) (l : Ledgers) (now : Z) (commits : bool) (t : Terminal)
    : After * Terminal * result ClientError Z :=
  let '(records, writes, result) := execute c (file_ledger l) now commits in
  let records := {| pool_records := access_records (pool_ledger l); file_records := records |} in
  let t := show t (mjoin writes) in
  match result with
  | Ok _ => (records, t, Ok 0)
  | Err (Usage why) => (records, say t (message (Usage why)), Ok USAGE_EXIT)
  | Err FailedIo => (records, t, Err FileFailed)
  end.

(** The words said of where a command runs, and of an error of the client. *)
Context (said_offline said_by_pool : bytes) (said_no_pool : bytes -> bytes) (said_error : ClientError -> bytes).

(** [run_to], on a data directory. *)
Definition run_to (c : Command) (offline : bool) (pool : Connection) (l : Ledgers) (now : Z) (commits : bool) (t : Terminal)
    : After * Terminal * result ClientError Z :=
  if offline then run_offline c l now commits (say t said_offline) else
  match pool with
  | Connected taken =>
    let t := say t said_by_pool in
    match request_json {| version := PROTOCOL_VERSION; command := c |} with
    | None => (untouched l, t, Err NotEncoded)
    | Some request =>
      let '(records, replies) := serve_connection taken (request ++ [LF]) false (pool_ledger l) now commits in
      let received := mjoin (encode <$> replies) in
      let '(t, code) := read_replies (S (length received)) received t in
      ({| pool_records := records; file_records := access_records (file_ledger l) |}, t, code)
    end
  | NoPool why => run_offline c l now commits (say t (said_no_pool why))
  | ConnectError => (untouched l, t, Err ConnectFailed)
  end.

(** [run]: the exit code the process ends with. The text of a file's failure is that of the
    failure. *)
Definition run (c : Command) (offline : bool) (pool : Connection) (l : Ledgers) (now : Z) (commits : bool)
    : After * Terminal * Z :=
  let '(records, t, code) := run_to c offline pool l now commits {| stdout := []; stderr := [] |} in
  match code with
  | Ok code => (records, t, code)
  | Err FileFailed => (records, say t (message FailedIo), 1)
  | Err e => (records, say t (said_error e), 1)
  end.
End control.

(** ** The output arrives whole *)

Definition text_of (r : Reply) : bytes := match r with OutLine out => out | ExitLine _ _ => [] end.
Definition told (l : list Reply) : bytes := mjoin (text_of <$> l).
Definition is_out (r : Reply) : Prop := match r with OutLine _ => True | ExitLine _ _ => False end.

Lemma told_snoc l out : told (l ++ [OutLine out]) = told l ++ out.
Proof. unfold told. rewrite fmap_app, join_app. cbn. by rewrite app_nil_r. Qed.

Lemma send_chunk_told c : valid_utf8 (pending c) = true -> Forall is_out (lines c) ->
  told (lines (send_chunk c)) = told (lines c) ++ pending c /\ pending (send_chunk c) = [] /\ Forall is_out (lines (send_chunk c)).
Proof.
  intros Hv Hl. unfold send_chunk. case_bool_decide as Hp; [rewrite Hp, app_nil_r; by split_and!|]. cbn [lines pending].
  rewrite told_snoc, from_utf8_lossy_valid by done. split_and!; [done..|]. apply Forall_app. split; [done|by constructor].
Qed.

(** Whatever is written is in the lines sent or yet to be sent. *)
Lemma write_chunks_told writes : forall c, Forall (fun b => valid_utf8 b = true) writes -> valid_utf8 (pending c) = true -> Forall is_out (lines c) ->
  let c2 := foldl write_chunk c writes in
  told (lines c2) ++ pending c2 = told (lines c) ++ pending c ++ mjoin writes /\ valid_utf8 (pending c2) = true /\ Forall is_out (lines c2).
Proof.
  induction writes as [|b writes IH]; intros c Hw Hp Hl; cbn [foldl]; [cbn; rewrite app_nil_r; by split_and!|].
  apply Forall_cons in Hw as [Hb Hw]. cbv zeta.
  assert (told (lines (write_chunk c b)) ++ pending (write_chunk c b) = told (lines c) ++ pending c ++ b /\
    valid_utf8 (pending (write_chunk c b)) = true /\ Forall is_out (lines (write_chunk c b))) as (H1 & H2 & H3).
  { assert (valid_utf8 (pending c ++ b) = true) as Hv by by apply valid_utf8_app. unfold write_chunk. cbn [pending lines].
    destruct (_ <=? _)%nat; [|by split_and!].
    destruct (send_chunk_told {| pending := pending c ++ b; lines := lines c; first_line := first_line c |} Hv Hl) as (E1 & E2 & E3).
    rewrite E1, E2, app_nil_r. by split_and!. }
  destruct (IH (write_chunk c b) Hw H2 H3) as (E1 & E2 & E3). split_and!; [|done..]. rewrite E1. cbn [mjoin list_join].
  rewrite app_assoc, H1. by rewrite <- !app_assoc.
Qed.

Section arrives.
Context `{KvTable} `{ControlJsonLaws}.

Lemma read_line_reply r rest : read_line (encode r ++ rest) = (encode r, rest).
Proof. unfold read_line, encode. rewrite <- app_assoc. cbn [app]. rewrite split_once_app by apply reply_json_line. done. Qed.

Lemma encode_utf8 r : valid_utf8 (encode r) = true.
Proof. apply valid_utf8_app; [apply reply_json_utf8|done]. Qed.

Lemma encode_some r : encode r <> [].
Proof. unfold encode. by intros [_ ?]%app_nil. Qed.

(** The client shows the text of the lines in order, and ends with the code and the words
    of the last. *)
Lemma read_replies_all l : forall fuel t exit err, Forall is_out l -> (length l < fuel)%nat ->
  read_replies fuel (mjoin (encode <$> l ++ [ExitLine exit err])) t =
  ((if bool_decide (err = []) then show t (told l) else say (show t (told l)) err), Ok exit).
Proof.
  induction l as [|r l IH]; intros [|fuel] t exit err Hl Hf; try (cbn in Hf; lia); cbn [read_replies].
  - change (mjoin (encode <$> [] ++ [ExitLine exit err])) with (encode (ExitLine exit err) ++ []). rewrite read_line_reply.
    rewrite bool_decide_eq_false_2 by apply encode_some. rewrite encode_utf8. cbn [negb]. unfold encode. rewrite reply_json_read.
    assert (show t (told []) = t) as -> by (destruct t; unfold show, told; cbn; by rewrite app_nil_r). done.
  - apply Forall_cons in Hl as [Hr Hl]. destruct r as [out|]; [|done].
    change (mjoin (encode <$> (OutLine out :: l) ++ [ExitLine exit err])) with (encode (OutLine out) ++ mjoin (encode <$> l ++ [ExitLine exit err])).
    rewrite read_line_reply. rewrite bool_decide_eq_false_2 by apply encode_some. rewrite encode_utf8. cbn [negb]. unfold encode at 1. rewrite reply_json_read.
    rewrite IH by (done || (cbn in Hf; lia)).
    assert (show (show t out) (told l) = show t (told (OutLine out :: l))) as -> by (unfold show, told; cbn; by rewrite app_assoc). done.
Qed.

Lemma length_encoded l : (length l <= length (mjoin (encode <$> l)))%nat.
Proof.
  induction l as [|r l IH]; [done|]. change (mjoin (encode <$> r :: l)) with (encode r ++ mjoin (encode <$> l)).
  rewrite length_app. pose proof (encode_some r). destruct (encode r); [done|]. cbn [length]. lia.
Qed.
End arrives.

(** C35: A ledger command does the same through the running pool as on the ledger file,
    opened afresh. Take a pool whose tables hold its blocks and debts, in the order they
    came to it, and the file read back, which sorts them, both with the same rows of
    shares and the same outcome of a copy of the file. For every command but the
    listing of the debts, which prints them in the order they are held in, whose request
    fits a line and whose output is UTF-8, sent to a pool that has a slot for it: the
    process prints the same on its stdout, the same on its stderr after the line that says
    where it ran, and ends with the same exit code, whether the command is done, refused
    or fails; and the records it leaves are the same, each block and each debt, in the
    pool as in the file, while the other's are not touched. The output is cut into lines
    of JSON and put together again between. *)
Theorem same_through_the_pool `{KvTable} `{ControlJsonLaws} (message : Failure -> bytes) (too_many : bytes)
    (bad_request : RequestError -> bytes) (other_version : Z -> bytes) (said_offline said_by_pool : bytes)
    (said_no_pool : bytes -> bytes) (said_error : ClientError -> bytes)
    (c : Command) (l : Ledgers) (r : BlockRecords) (t0 : Tables) (now : Z) (commits : bool) (request : bytes) (pool : Connection) :
  access_records (pool_ledger l) = Some r -> records_ok r t0 -> access_records (file_ledger l) = Some (open t0) ->
  access_shares (file_ledger l) = access_shares (pool_ledger l) ->
  (forall path, access_snapshot (file_ledger l) path = access_snapshot (pool_ledger l) path) ->
  c <> SettleBlock (text "list") ->
  request_json {| version := PROTOCOL_VERSION; command := c |} = Some request -> (length request <= MAX_REQUEST_LEN)%nat ->
  Forall (fun b => valid_utf8 b = true) (execute c (pool_ledger l) now commits).1.2 -> (forall f, message f <> []) ->
  let run := run message too_many bad_request other_version said_offline said_by_pool said_no_pool said_error in
  let '(by_pool, t, code) := run c false (Connected true) l now commits in
  let '(on_file, t2, code2) := run c true pool l now commits in
  (exists r1 r2, pool_records by_pool = Some r1 /\ file_records on_file = Some r2 /\ db r2 = db r1 /\
     blocks r1 ≡ₚ blocks r2 /\ owed r1 ≡ₚ owed r2 /\ readings r2 = readings r1) /\
  file_records by_pool = Some (open t0) /\ pool_records on_file = Some r /\
  stdout t = stdout t2 /\ code = code2 /\
  exists rest, stderr t = said_by_pool ++ [LF] ++ rest /\ stderr t2 = said_offline ++ [LF] ++ rest.
Proof.
  intros Hpr Hok Hfr Hsh Hsn Hlist Hreq Hlen Hutf8 Hmsg. cbv zeta.
  assert (same_access (pool_ledger l) (file_ledger l)) as Hsame.
  { split; [rewrite Hpr, Hfr; by apply reopened_same|done|done]. }
  destruct (execute_same c _ _ now commits Hsame Hlist) as (Hw & Hres & Hrec).
  assert (is_some (execute c (pool_ledger l) now commits).1.1 = true) as Hsome.
  { destruct c; cbn [execute]; rewrite ?Hpr; repeat case_match; try done; cbn; by rewrite Hpr. }
  unfold run, run_to, run_offline. rewrite Hreq. unfold serve_connection. cbn [negb].
  assert (read_request_line (request ++ [LF]) false = Ok request) as ->.
  { unfold read_request_line. rewrite take_ge by (rewrite length_app; cbn [length]; lia). by rewrite split_once_app by by eapply request_json_line. }
  cbn [mbind result_bind ok_or]. rewrite (request_json_read _ _ Hreq). cbn [ok_or mbind result_bind version]. rewrite Z.eqb_refl. cbn [negb command].
  destruct (execute c (pool_ledger l) now commits) as [[records writes] res].
  destruct (execute c (file_ledger l) now commits) as [[records2 writes2] res2].
  cbn [fst snd] in Hutf8, Hw, Hres, Hrec, Hsome. subst writes2 res2.
  assert (exists r1 r2, records = Some r1 /\ records2 = Some r2 /\ db r2 = db r1 /\
     blocks r1 ≡ₚ blocks r2 /\ owed r1 ≡ₚ owed r2 /\ readings r2 = readings r1) as Hrecs.
  { destruct records as [r1|], records2 as [r2|]; try done. exists r1, r2. by destruct Hrec. }
  clear Hrec Hsome.
  destruct (write_chunks_told writes chunked_new Hutf8 eq_refl ltac:(constructor)) as (E1 & E2 & E3).
  set (c2 := foldl write_chunk chunked_new writes) in *.
  destruct (send_chunk_told c2 E2 E3) as (E4 & _ & E5). rewrite E1 in E4. cbn in E4.
  assert (exists exit err, match res with Ok _ => ExitLine 0 [] | Err f => ExitLine (exit_code f) (message f) end = ExitLine exit err) as (exit & err & Hlast)
    by (destruct res; by eexists _, _).
  rewrite Hlast. rewrite read_replies_all; [|done|].
  2:{ pose proof (length_encoded (lines (send_chunk c2) ++ [ExitLine exit err])) as Hl. rewrite length_app in Hl. cbn [length] in Hl. lia. }
  rewrite E4. destruct res as [[]|[why|]]; injection Hlast as <- <-; cbn [exit_code].
  - case_bool_decide; [|done]. cbn. split_and!; [done..|]. by exists [].
  - rewrite bool_decide_eq_false_2 by apply Hmsg. cbn. split_and!; [done..|]. exists (message (Usage why) ++ [LF]). by rewrite <- !app_assoc.
  - rewrite bool_decide_eq_false_2 by apply Hmsg. cbn. split_and!; [done..|]. exists (message FailedIo ++ [LF]). by rewrite <- !app_assoc.
Qed.

(** ** An example *)

(** A text of digits for any value, and back. *)
Fixpoint digits_of (p : positive) : bytes :=
  match p with xH => [zb 0x31] | xO p => zb 0x30 :: digits_of p | xI p => zb 0x32 :: digits_of p end.
Fixpoint of_digits (s : bytes) : option positive :=
  match s with
  | [] => None
  | b :: s => if bz b =? 0x31 then Some xH else p ← of_digits s; Some (if bz b =? 0x30 then xO p else xI p)
  end.

Lemma of_digits_of p rest : of_digits (digits_of p ++ rest) = Some p.
Proof. induction p as [p IH|p IH|]; cbn; rewrite ?IH; done. Qed.

Lemma digits_of_kept p : Forall (fun b => 0x30 <= bz b < 0x80) (digits_of p).
Proof. induction p as [p IH|p IH|]; cbn [digits_of]; constructor; try done; by vm_compute. Qed.

#[local] Instance Command_eq_dec : EqDecision Command.
Proof. solve_decision. Defined.
#[local] Instance Command_countable : Countable Command.
Proof.
  refine (inj_countable' (fun c => match c with
      | SettleBlock a => inl (inl a) | VoidBlock a => inl (inr a) | RecordOwed a l => inr (inl (a, l))
      | DumpLedger => inr (inr None) | Snapshot p => inr (inr (Some p)) end)
    (fun s => match s with
      | inl (inl a) => SettleBlock a | inl (inr a) => VoidBlock a | inr (inl (a, l)) => RecordOwed a l
      | inr (inr None) => DumpLedger | inr (inr (Some p)) => Snapshot p end) _).
  by intros [].
Defined.
#[local] Instance Reply_eq_dec : EqDecision Reply.
Proof. solve_decision. Defined.
#[local] Instance Reply_countable : Countable Reply.
Proof.
  refine (inj_countable' (fun r => match r with OutLine o => inl o | ExitLine e m => inr (e, m) end)
    (fun s => match s with inl o => OutLine o | inr (e, m) => ExitLine e m end) _).
  by intros [].
Defined.

Definition example_json : ControlJson := {|
  request_json r := Some (digits_of (countable.encode (version r, command r)));
  read_request_json t := p ← of_digits t; '(v, c) ← countable.decode p; Some {| version := v; command := c |};
  reply_json r := digits_of (countable.encode r);
  read_reply_json t := p ← of_digits t; countable.decode p
|}.

Lemma digits_line p : LF ∉ digits_of p.
Proof. intros Hin. pose proof (digits_of_kept p) as Hk. rewrite Forall_forall in Hk. by destruct (Hk _ Hin). Qed.

Lemma example_json_laws : @ControlJsonLaws example_json.
Proof.
  constructor; cbn.
  - intros r t [= <-]. apply digits_line.
  - intros r t [= <-]. rewrite <- (app_nil_r (digits_of _)), of_digits_of. cbn. rewrite decode_encode. by destruct r.
  - intros r. apply digits_line.
  - intros r. apply ascii_valid. eapply Forall_impl; [apply digits_of_kept|]. intros b Hb. cbn in Hb. lia.
  - intros r. rewrite of_digits_of. cbn. apply decode_encode.
Qed.

Definition example_shares : list Window.Share :=
  [{| Window.share_accepted_at := 1000; Window.identity := text "alice"; Window.share_difficulty := 16; Window.share_block_hash := [zb 0xab]; Window.share_tag := text "rig" |};
   {| Window.share_accepted_at := 1001; Window.identity := text "bob"; Window.share_difficulty := 32; Window.share_block_hash := [zb 0xcd]; Window.share_tag := [] |}].

(** A dump of two shares, through a pool that has found no block yet. *)
Definition example_tables : @Tables example_kv := {| blocks_table := ∅; owed_table := ∅; chain_state_table := ∅ |}.

Definition example_ledgers : @Ledgers example_kv :=
  let a := @Build_Access example_kv (Some (@open example_kv example_tables)) (Some example_shares) (fun _ => Err FailedIo) in
  @Build_Ledgers example_kv a a.

Lemma same_through_the_pool_witness :
  let run := @run example_kv example_json (fun _ => text "failed") (text "full") (fun _ => text "bad") (fun _ => text "version")
    (text "offline") (text "by the pool") (fun w => w) (fun _ => text "error") in
  let '(_, t, code) := run DumpLedger false (Connected true) example_ledgers 5 true in
  let '(_, t2, code2) := run DumpLedger true ConnectError example_ledgers 5 true in
  stdout t = stdout t2 /\ code = code2 /\ stdout t2 = text "1000 16 alice ab rig" ++ [LF] ++ text "1001 32 bob cd " ++ [LF].
Proof.
  cbv zeta.
  pose proof (@same_through_the_pool example_kv example_json example_json_laws (fun _ => text "failed") (text "full") (fun _ => text "bad") (fun _ => text "version")
    (text "offline") (text "by the pool") (fun w => w) (fun _ => text "error") DumpLedger example_ledgers (@open example_kv example_tables) example_tables 5 true
    (digits_of (countable.encode (PROTOCOL_VERSION, DumpLedger))) ConnectError) as Hs. cbv zeta in Hs.
  assert (stdout (@run example_kv example_json (fun _ => text "failed") (text "full") (fun _ => text "bad") (fun _ => text "version")
    (text "offline") (text "by the pool") (fun w => w) (fun _ => text "error") DumpLedger true ConnectError example_ledgers 5 true).1.2 =
    text "1000 16 alice ab rig" ++ [LF] ++ text "1001 32 bob cd " ++ [LF]) as Hout by by vm_compute.
  destruct (run _ _ _ _ _ _ _ _ DumpLedger false _ _ _ _) as [[r t] code]. destruct (run _ _ _ _ _ _ _ _ DumpLedger true _ _ _ _) as [[r2 t2] code2] eqn:E2.
  destruct Hs as (_ & _ & _ & Ho & Hc & _); [done|apply open_empty_ok; by split_and!|done|done|done|done|done|by apply Nat.leb_le; vm_compute|by repeat constructor|done|].
  by split_and!.
Defined.

(** A line holds more than its chunk where one write does. *)
Lemma chunk_over_its_length :
  existsb (fun r => match r with OutLine out => (OUT_CHUNK_LEN <? length out)%nat | _ => false end)
    (lines (write_chunk chunked_new (replicate (S OUT_CHUNK_LEN) (zb 0x61)))) = true.
Proof. by vm_compute. Qed.
